(* ===== verification/_CoqProject ===== *)
-Q . S2P
Prelude.v
KvCells.v
KvCellsInv.v
KvCellsSpec.v
Batch.v
Pages.v
PagesTheory.v
KvCache.v
KvCacheTheory.v
KvCacheProps.v
KvSlots.v
KvPlace.v
KvPrepare.v
KvUbatchProps.v
KvContext.v
KvRows.v
KvRowsProps.v
KvMask.v
KvMaskProps.v
IoBytes.v
KvState.v
KvStateLayers.v
KvStateWhole.v
KvStateSeq.v
KvStateProps.v
BatchTheory.v
SplitEqual.v
SplitProps.v
SplitSeq.v
InitTheory.v
InitProps.v
BatchProps.v
KvBatch.v
KvViews.v
Utf8.v
Grammar.v
GrammarTheory.v
GrammarLang.v
GrammarLeft.v
GrammarReject.v
GrammarApply.v
GrammarProps.v
GrammarParse.v
GrammarText.v
RsMemory.v
RsTheory.v
RsSlot.v
RsFind.v
RsProps.v
RsBatch.v
RsState.v
RsStateMeta.v
RsStateProps.v
HybridMemory.v
HybridTheory.v
HybridProps.v
IswaProps.v
Alloc.v
AllocTheory.v
AllocProps.v
AllocRun.v
HashSet.v
GraphAlloc.v
GraphOps.v
GraphSpec.v
GraphPlan.v
GraphRun.v
GraphProps.v
GgmlTypes.v
Gguf.v
GgufRead.v
GgufWrite.v
GgufTheory.v
GgufStore.v
GgufProps.v
GgufSafe.v
GgufApi.v
GgufExamples.v
GgufCut.v
