(* ===== verification/Prelude.v ===== *)
(** * Mallana (a llama.cpp fork): batches, memories, grammars, memory planning and model files, verified

    The program runs language models.  This development covers the parts that decide which
    token goes where and which text may be generated: the input batch and its split into
    micro-batches (src/src/llama-batch.cpp), the KV cache with its page pool, its attention
    inputs and its saved states (src/src/llama-kv-cache.cpp, src/src/llama-kv-cells.h), the
    recurrent memory (src/src/llama-memory-recurrent.cpp), the memories composed of these
    (src/src/llama-kv-cache-iswa.cpp, src/src/llama-memory-hybrid.cpp and
    src/src/llama-memory-hybrid-iswa.cpp), the grammar engine (src/src/llama-grammar.cpp)
    with the conversion of UTF-8 (src/src/unicode.cpp), the allocators that give the
    tensors of a compute graph their memory (src/ggml/src/ggml-alloc.c,
    src/ggml/src/ggml-impl.h), and the files in which models are stored
    (src/ggml/src/gguf.cpp, with the shapes and the pool of src/ggml/src/ggml.c).

    ** How the parts work together

    A batch enters [balloc_init] (Batch), which validates it against the memory (the class
    [Memory]; the KV cache is an instance) and fills in what the caller left out.  The cache's
    [cache_init_batch] takes micro-batches from one of the splits until the batch is used up
    ([split_all]) and calls [cache_prepare]: for each micro-batch [cache_find_slot] and
    [cache_apply_ubatch] on the cells, and at the end everything is undone.  Each step of
    decoding then calls [context_apply], which places the micro-batch for good and, with
    paging, gives every written cell a physical page ([pg_alloc_for_sinfo]).
    [cache_set_input_k_idxs] and its siblings turn the slot into tensor rows, and
    [cache_set_input_kq_mask] decides which cells each token may attend to.  Between batches
    the user edits sequences ([cache_seq_rm], [cache_seq_cp], ...) and saves or restores the
    state ([state_write], [state_read]).

    A recurrent model keeps one state per sequence instead: [recr_find_slot] gives every
    sequence of a micro-batch a cell of its own, [build_rs] and [write_states] are the copies
    the graph makes between the states.  The composed memories implement the same interface
    ([llama_memory_i], a record of operations) by calling two memories each: a cache for the
    full and one for the windowed attention layers (iswa), or a cache and a recurrent memory
    (hybrid); their theorems are about the two staying in step.

    A sampler consults the grammar: [llama_grammar_parser_parse] turns a text into rules,
    [llama_grammar_init_rules] makes the first stacks, [llama_grammar_apply_impl] removes the
    candidates that no stack can accept and [llama_grammar_accept_impl] advances the stacks.

    A compute graph is planned by [ggml_gallocr_alloc_graph_impl]: it counts the readers of
    every tensor, allocates and releases their places in the order of execution from
    [ggml_dyn_tallocr], and lets in-place operations take over the place of an argument.  Its
    table is indexed by the slots of [ggml_hash_set].

    A model file is built call by call ([gguf_set_val], [gguf_add_tensor], ...), written
    ([gguf_write_to_buf], [gguf_write_to_file]) and read ([gguf_init_from_file_ptr]): the header,
    the key-value pairs, the descriptions of the tensors, and, where the caller wants it, the data
    section with a tensor for each description.

    ** Conventions

    A C++ operation that can be stopped returns [res]: [Err] for a failed assertion, an access
    outside a container, a signed overflow, a division by zero or an exception.  A container is
    a list ([std::vector]), a [gset] ([std::bitset], [std::set]) or a [gmap] ([std::map]).  A
    32-bit signed integer is a [Z] with an overflow check ([i32]) where the code computes with
    it; unsigned arithmetic that can wrap is written with [u32], [size_t] with [usize]; indices
    bounded by the size of a container are [nat].  A member function [f] of [llama_kv_cells],
    [llama_kv_cache], [llama_batch_allocr], [llama_memory_recurrent], [llama_kv_cache_iswa] or
    [llama_memory_hybrid] is [cells_f], [cache_f], [balloc_f], [recr_f], [iswa_f] or
    [hybrid_f]; functions of ggml and of the grammar keep their names.  A part of a long
    function has a name of its own and is used where the code has it.

    ** Files

    - Prelude: outcomes, loops, total correctness ([sat]), lists.
    - KvCells, KvCellsInv, KvCellsSpec: the class [llama_kv_cells]; its invariant [wf]; the
      refinement of every sequence of method calls against a plain list of cells.
    - Batch; BatchTheory, SplitEqual (with [split_simple]), SplitProps, SplitSeq (the splits);
      InitTheory, InitProps ([init]); BatchProps (the theorems).
    - Pages, PagesTheory: the page pool and its invariant [pool_ok].
    - KvCache: the state of the cache and its operations.  KvCacheTheory: the invariant
      [kv_ok] and the exact effect of every operation.  KvCacheProps: the theorems.
    - KvSlots ([find_slot]), KvPlace ([apply_ubatch]), KvPrepare ([prepare]); KvUbatchProps:
      the theorems; KvContext: a step of the memory context.  KvBatch: [init_batch], the
      composition of the splits with [prepare].  KvViews: the positions a sequence sees after
      [apply_ubatch] and after a step of the context, and [prepare] of a cache with a window.
    - KvRows, KvRowsProps: row indices and the page table input.  KvMask, KvMaskProps: the
      attention mask.
    - IoBytes: byte streams.  KvState: [state_write] and [state_read].  KvStateLayers
      (the tensors), KvStateWhole (the cells, and whole caches), KvStateSeq (single sequences),
      KvStateProps: the theory and the theorems.
    - RsMemory: the recurrent memory.  RsTheory (sequence operations), RsSlot, RsFind
      ([find_slot]), RsProps: the refinement against one state per sequence; RsBatch:
      [init_batch]; RsState, RsStateMeta, RsStateProps: saved states.
    - HybridMemory: the interface and the three composed memories.  HybridTheory,
      HybridProps: hybrid; IswaProps: iswa.
    - Utf8.  Grammar: the acceptor.  GrammarTheory, GrammarLang (the language of a grammar),
      GrammarLeft (left recursion), GrammarReject and GrammarApply (the filter of
      candidates), GrammarProps.  GrammarParse, GrammarText: the parser.
    - Alloc: [ggml_dyn_tallocr] and [ggml_tallocr].  AllocTheory (lists of free blocks,
      one chunk), AllocProps (which byte belongs to whom, allocation and
      release), AllocRun (runs of commands, the theorems).
    - HashSet: the hash set of tensors.
    - GraphAlloc: [ggml_gallocr].  GraphOps (places of tensors and the operations on them),
      GraphSpec (which graphs, which tensors are needed, which arguments an operation may
      overwrite, execution in memory), GraphPlan (one tensor, and the loops over leafs and inputs),
      GraphRun (one node, the last loop), GraphProps (the theorems and examples).
    - GgmlTypes: block and byte sizes of the types, shapes and the pool of ggml tensors.  Gguf: the
      context and its API; GgufRead, GgufWrite: the reader and the writers.  GgufTheory (the bytes
      of a context, [gguf_ok]), GgufStore (writing), GgufProps (reading back), GgufSafe (reading
      any file), GgufApi (building a context), GgufExamples, GgufCut (files that were cut off).

    ** What the theorems show

    - The cells refine their specification, and a method stops exactly where its precondition
      fails ([cells_run_refines]); saving and restoring cells is the identity.
    - The page pool is a partition of the blocks, allocation never runs out and never maps two
      cells to the same row ([pool_blocks_partition], [pg_alloc_safe], [paged_rows_disjoint]).
    - Every sequence operation does on the positions of each sequence what its name says, and
      keeps the invariant ([seq_rm_ok] and the theorems after it).
    - [find_slot] terminates and finds a slot exactly when there is one; [apply_ubatch] writes
      exactly the tokens; [prepare] leaves the cells as they were; [init_batch] covers the
      batch by micro-batches and returns slots that fit, and fails only when, after the first
      micro-batches have been placed, the next one has no slot.  With a window, [prepare] never
      stops on a cache without pending shifts and every cell afterwards is the one before or has
      lost sequences ([swa_prepare_safe]); that positions which a later token may attend to can be
      lost is shown by an example ([prepare_loses_window]).
    - [init] accepts exactly the batches that pass its tests, which reject less than its comments
      promise ([init_decides]); [split_simple], [split_equal] and [split_seq] hand out every token
      once.
    - Row indices address disjoint rows; the mask equals the reference mask.
    - A saved cache or sequence is restored: cells, K rows and V rows; mismatched states are
      refused with the cache cleared; and where the code does not do this (several streams,
      offsets above 4 GiB, unchecked positions) a theorem shows what happens instead.
    - The recurrent memory refines a table with one state per sequence
      ([recurrent_refines]); [init_batch] succeeds when there is a cell for every
      sequence, unless coupled sequences would have to be split equally; its saved states are
      restored.
    - The two halves of a hybrid memory hold the same sequences and positions, for a cache of one
      stream without a window and operations on single sequences ([hybrid_stays_in_sync]), and the
      removal of a sequence is atomic ([hybrid_seq_rm_atomic]); the window cache of an iswa memory holds a part of the other ([iswa_superset]); [init_batch] of
      both prepares both halves for the same micro-batches or fails.
    - The acceptor of a grammar accepts exactly the language of its rules
      ([grammar_accepts_language]), the filter keeps exactly the acceptable candidates, the
      parser is total and a parsed text means what it says ([text_accepts_language]).
    - Places handed out by the tensor allocator are aligned, inside their chunk and disjoint
      in every run; allocation fails only when the address space is used up; released memory
      is merged again ([tallocr_places_disjoint], [tallocr_progress], [tallocr_no_leak]).
    - Each tensor has its own slot in the hash set, always the same ([hash_slots_unique]).
    - A planned graph can be computed in its places: every node finds its arguments unharmed
      although memory is shared, and overwrites one of them only where its operation can be
      computed like that ([graph_plan_safe]); memory is held by exactly the tensors that are still
      needed ([graph_holds_live]).  An output that is a view and is read by a node can be lost
      ([output_view_overwritten]).
    - A context that is built with the API of model files refines a map and a list
      ([gguf_build_refines]), is read back from the file that is written ([gguf_round_trip]), and
      from a part of that file nothing else is read ([truncated_file_rejected]); whatever bytes a
      file has, it is rejected, or gives a context that can be stored, or ends in an assertion or a
      division by zero ([gguf_read_safe]; [malformed_files_stop] shows that these happen).

    ** Fuel and bounds

    Loops over containers are folds.  Other loops have fuel: the search of [find_slot]
    [2 * size + 4], the splits and [split_loop] one unit for every token and one more, the
    searches of the recurrent memory for an empty cell the number of cells, the parser twice
    the length of the text and two, the left-recursion check one unit for every rule and one
    more, a probe of the hash set the number of slots, the search for a prime 32, and
    [free_loop] the number of blocks, and the lists of a model file one unit for every byte; the
    theorems include that it is never used up.  The expansion of stacks ([advance_loop]) has no bound of its own; its theorems hold for every
    sufficient fuel, and that there is one is proved for grammars that pass the left-recursion
    check and have no hidden left recursion ([converges]).

    The theorems about allocation assume that fewer than 254 or 255 tensors hold memory at a
    time, so that the array of 256 free blocks of a chunk cannot fill up
    ([full_array_out_of_bounds] shows what happens otherwise), and that sizes are positive.
    Those about graphs assume what ggml builds ([graph_ok]): nodes in topological order, a
    [view_src] that is not a view, no in-place operation flagged as an input; that an operation has
    no argument which it would be given but may not overwrite ([go_over], which ggml does not
    ensure for three operations); and that a tensor of the same layout does not need more memory, which the code asserts itself.

    ** Parameters

    The floating point score by which a page is evicted and its comparison ([KvContext],
    [Pages]), and the flag [v_trans].  Embedding values are of an arbitrary type, and so are
    the states of the recurrent memory, on which the layers are an arbitrary function.  The
    texts of tokens, the tokenizer, [std::regex_match] and [std::regex_search], and the type of
    logits for grammars.  The size of a tensor in a buffer of a backend, and the alignment and
    maximal size of a buffer type.  For model files the success of an allocation of given size
    ([memalign_ok]) and of [fwrite] ([fwrite_count]); the machine is little-endian and the build a
    release build, without the [assert] of [ggml_row_size].

    ** Not modelled

    Tensor allocation and the choice of types in the constructors of the memories, the graph
    building functions, [memory_breakdown], device copies, and what an exception in the middle
    of a restore leaves behind.  The branches of the recurrent memory for transposed states,
    which no caller reaches.  Of the allocators, the checks of [GGML_ALLOCATOR_DEBUG], failures
    of [calloc], the copy of a plan to arrays and the backend buffers made from it.  All
    floating point code: the compute graphs, the TurboQuant quantizers, the kernels of the
    backends and the samplers.  The tokenizers, the loader of models on top of the
    file format, the scheduler, and the tools are outside the development. *)

From stdpp Require Export base tactics option list gmap sets list_numbers.
From Stdlib Require Export ZArith Lia.

#[global] Open Scope Z_scope.

Create HintDb mallana.

(** ** Outcomes

    A C++ operation either returns or is stopped: by an [assert] or
    [GGML_ASSERT] whose condition is false, by an access outside a container, by
    a signed overflow, by a division by zero, or by an exception.  [Err] records which. *)

Inductive err : Set :=
  | AssertFailed
  | OutOfRange
  | SignedOverflow
  | DivByZero
  | Thrown
  | NoFuel.

#[export] Instance err_eq_dec : EqDecision err.
Proof. solve_decision. Defined.

Inductive res (A : Type) : Type :=
  | Ok (a : A)
  | Err (e : err).
Arguments Ok {A} a.
Arguments Err {A} e.

#[export] Instance res_ret : MRet res := fun A a => Ok a.
#[export] Instance res_bind : MBind res := fun A B f m =>
  match m with Ok a => f a | Err e => Err e end.
#[export] Instance res_fmap : FMap res := fun A B f m =>
  match m with Ok a => Ok (f a) | Err e => Err e end.

Definition assert_ (b : bool) : res unit :=
  if b then Ok tt else Err AssertFailed.

Definition of_option {A} (e : err) (o : option A) : res A :=
  match o with Some a => Ok a | None => Err e end.

(** [v\[i\]] and [v\[i\] = x] on a vector or array of known length. *)
Definition vec_get {A} (l : list A) (i : nat) : res A := of_option OutOfRange (l !! i).

Definition vec_set {A} (l : list A) (i : nat) (x : A) : res (list A) :=
  if decide (i < length l)%nat then Ok (<[i := x]> l) else Err OutOfRange.

(** The same with a signed index. *)
Definition vec_getZ {A} (l : list A) (i : Z) : res A :=
  if 0 <=? i then vec_get l (Z.to_nat i) else Err OutOfRange.

Definition vec_setZ {A} (l : list A) (i : Z) (x : A) : res (list A) :=
  if 0 <=? i then vec_set l (Z.to_nat i) x else Err OutOfRange.

(** Signed 32-bit arithmetic: an overflow is undefined behaviour. *)
Definition INT32_MIN : Z := -2147483648.
Definition INT32_MAX : Z := 2147483647.
Definition i32 (z : Z) : res Z :=
  if (INT32_MIN <=? z) && (z <=? INT32_MAX) then Ok z else Err SignedOverflow.

(** Unsigned 32-bit arithmetic wraps; the conversion of a [uint32_t] to [int32_t]. *)
Definition u32 (z : Z) : Z := z mod 2 ^ 32.
Definition s32 (z : Z) : Z := (z + 2 ^ 31) mod 2 ^ 32 - 2 ^ 31.

Lemma s32_nonneg z : 0 <= z < 2 ^ 31 -> s32 z = z.
Proof. intros Hz. unfold s32. rewrite Z.mod_small by lia. lia. Qed.

(** [size_t], and its conversion to [int64_t]. *)
Definition usize (z : Z) : Z := z mod 18446744073709551616.
Definition s64 (z : Z) : Z := (z + 9223372036854775808) mod 18446744073709551616 - 9223372036854775808.
Definition SIZE_MAX : Z := 18446744073709551615.

(** Alignments are powers of two. *)
Definition pow2 (n : Z) : Prop := exists m, 0 <= m /\ n = 2 ^ m.

(** A [for] loop over the elements of a list, and over [0 .. n-1]. *)
Fixpoint mfor {A S} (f : S -> A -> res S) (l : list A) (s : S) : res S :=
  match l with
  | [] => Ok s
  | x :: l => s ← f s x; mfor f l s
  end.

(** A validation loop: stops at the first element that fails. *)
Fixpoint mforall {A} (f : A -> res bool) (l : list A) : res bool :=
  match l with
  | [] => Ok true
  | x :: l => b ← f x; if (b : bool) then mforall f l else Ok false
  end.

Fixpoint mexists {A} (f : A -> res bool) (l : list A) : res bool :=
  match l with
  | [] => Ok false
  | x :: l => b ← f x; if (b : bool) then Ok true else mexists f l
  end.

Fixpoint mmap {A B} (f : A -> res B) (l : list A) : res (list B) :=
  match l with
  | [] => Ok []
  | x :: l => y ← f x; r ← mmap f l; Ok (y :: r)
  end.

(** ** Total correctness: [sat m Q] says [m] returns and its value satisfies [Q] *)

Definition sat {A} (m : res A) (Q : A -> Prop) : Prop :=
  match m with Ok a => Q a | Err _ => False end.

Lemma sat_bind {A B} (m : res A) (k : A -> res B) (Q : B -> Prop) :
  sat m (fun a => sat (k a) Q) -> sat (m ≫= k) Q.
Proof. by destruct m. Qed.

Lemma sat_bind_inv {A B} (m : res A) (k : A -> res B) (Q : B -> Prop) :
  sat (m ≫= k) Q -> sat m (fun a => sat (k a) Q).
Proof. by destruct m. Qed.

Lemma sat_mono {A} (m : res A) (P Q : A -> Prop) :
  sat m P -> (forall a, P a -> Q a) -> sat m Q.
Proof. destruct m; naive_solver. Qed.

Lemma sat_step {A B} (m : res A) (k : A -> res B) (P : A -> Prop) (Q : B -> Prop) :
  sat m P -> (forall a, P a -> sat (k a) Q) -> sat (m ≫= k) Q.
Proof. intros. apply sat_bind. by eapply sat_mono. Qed.

Lemma sat_ok {A} (a : A) (Q : A -> Prop) : Q a -> sat (Ok a) Q.
Proof. done. Qed.

Lemma sat_exists {A} (m : res A) (Q : A -> Prop) :
  sat m Q <-> exists a, m = Ok a /\ Q a.
Proof. destruct m; naive_solver. Qed.

Lemma sat_assert (b : bool) (Q : unit -> Prop) : b = true -> Q tt -> sat (assert_ b) Q.
Proof. intros ->. done. Qed.

Lemma assert_ok b : b = true -> assert_ b = Ok tt.
Proof. by intros ->. Qed.

Lemma sat_vec_get {A} (l : list A) i x (Q : A -> Prop) :
  l !! i = Some x -> Q x -> sat (vec_get l i) Q.
Proof. unfold vec_get. intros ->. done. Qed.

Lemma sat_vec_set {A} (l : list A) i x (Q : list A -> Prop) :
  (i < length l)%nat -> Q (<[i := x]> l) -> sat (vec_set l i x) Q.
Proof. intros. unfold vec_set. by rewrite decide_True. Qed.

Lemma sat_i32 z (Q : Z -> Prop) : INT32_MIN <= z <= INT32_MAX -> Q z -> sat (i32 z) Q.
Proof.
  intros Hz HQ. unfold i32.
  assert ((INT32_MIN <=? z) && (z <=? INT32_MAX) = true) as ->; [|done].
  apply andb_true_intro. split; apply Z.leb_le; lia.
Qed.

Arguments sat : simpl never.

(** *** Loops: an invariant of the elements already done *)

Lemma sat_mfor_gen {A S} (f : S -> A -> res S) (I : list A -> S -> Prop) l done_ s :
  I done_ s ->
  (forall d x r s, done_ ++ l = d ++ x :: r -> I d s -> sat (f s x) (I (d ++ [x]))) ->
  sat (mfor f l s) (I (done_ ++ l)).
Proof.
  revert done_ s. induction l as [|x l IH]; intros d s H0 Hs; simpl.
  { by rewrite app_nil_r. }
  eapply sat_step; [by apply (Hs d x l s)|]. intros s' Hs'.
  rewrite cons_middle, app_assoc. apply IH; [done|].
  intros d' y r t Heq. apply (Hs _ _ r). by rewrite <- Heq, <- app_assoc.
Qed.

Lemma sat_mfor {A S} (f : S -> A -> res S) (I : list A -> S -> Prop) l s :
  I [] s ->
  (forall d x r s, l = d ++ x :: r -> I d s -> sat (f s x) (I (d ++ [x]))) ->
  sat (mfor f l s) (I l).
Proof. intros. by apply (sat_mfor_gen f I l [] s). Qed.

(** [for (i = 0; i < n; ++i)] with an invariant indexed by [i]. *)
Lemma sat_for {S} (f : S -> nat -> res S) (I : nat -> S -> Prop) n s :
  I 0%nat s ->
  (forall i s, (i < n)%nat -> I i s -> sat (f s i) (I (i + 1)%nat)) ->
  sat (mfor f (seq 0 n) s) (I n).
Proof.
  intros H0 Hs.
  eapply sat_mono; [eapply (sat_mfor f (fun d s => I (length d) s))|].
  - done.
  - intros d x r t Heq Hd. rewrite length_app. simpl.
    assert (seq 0 n !! length d = Some x) as Hx
      by (rewrite Heq; apply list_lookup_middle; done).
    apply lookup_seq in Hx as [-> ?]. simpl. by apply Hs.
  - intros t. by rewrite length_seq.
Qed.

(** A loop whose invariant does not mention the index. *)
Lemma sat_mfor_inv {A S} (f : S -> A -> res S) (I : S -> Prop) l s :
  I s -> (forall x s, x ∈ l -> I s -> sat (f s x) I) -> sat (mfor f l s) I.
Proof.
  intros H0 Hs. apply (sat_mfor f (fun _ s => I s)); [done|].
  intros d x r t -> Ht. apply Hs; [set_solver|done].
Qed.

Lemma mfor_app {A S} (f : S -> A -> res S) l1 l2 s :
  mfor f (l1 ++ l2) s = (s ← mfor f l1 s; mfor f l2 s).
Proof.
  revert s. induction l1 as [|x l1 IH]; intros s; [done|]. simpl.
  destruct (f s x); [apply IH|done].
Qed.

(** Invert a chain of binds that is known to return. *)
Lemma bind_ok {A B} (m : res A) (k : A -> res B) b :
  (m ≫= k) = Ok b -> exists a, m = Ok a /\ k a = Ok b.
Proof. destruct m; naive_solver. Qed.

Lemma vec_get_ok {A} (l : list A) i x : vec_get l i = Ok x <-> l !! i = Some x.
Proof. unfold vec_get. destruct (l !! i); naive_solver. Qed.

Ltac res_inv :=
  repeat match goal with
  | H : (_ ≫= _) = Ok _ |- _ =>
      let a := fresh "v" in let H1 := fresh H in
      apply bind_ok in H as (a & H1 & H)
  | H : Ok _ = Ok _ |- _ => injection H as H; try subst
  | H : assert_ ?b = Ok _ |- _ =>
      let E := fresh "E" in
      unfold assert_ in H; destruct b eqn:E; [clear H|discriminate H]
  | H : vec_get _ _ = Ok _ |- _ => apply vec_get_ok in H
  end.

(** ** [GGML_PAD] *)

(** [GGML_PAD] rounds up to a multiple of a power of two. *)
Definition GGML_PAD (x n : Z) : Z := Z.land (x + n - 1) (Z.lnot (n - 1)).


Lemma ggml_pad_eq x n : 0 <= x -> pow2 n -> GGML_PAD x n = (x + n - 1) / n * n.
Proof.
  intros Hx (m & Hm & ->). unfold GGML_PAD.
  assert (2 ^ m - 1 = Z.ones m) as -> by (rewrite Z.ones_equiv; lia).
  rewrite <- Z.ldiff_land, Z.ldiff_ones_r by done.
  by rewrite Z.shiftl_mul_pow2, Z.shiftr_div_pow2.
Qed.

Lemma pow2_pos n : pow2 n -> 0 < n.
Proof. intros (m & Hm & ->). by apply Z.pow_pos_nonneg. Qed.

(** The least multiple of [n] that is not below [x]. *)
Lemma ggml_pad_spec x n : 0 <= x -> pow2 n -> x <= GGML_PAD x n < x + n /\ GGML_PAD x n mod n = 0.
Proof.
  intros Hx Hn. rewrite ggml_pad_eq by done. destruct Hn as (m & Hm & ->).
  pose proof (Z.pow_pos_nonneg 2 m). pose proof (Z.div_mod (x + 2 ^ m - 1) (2 ^ m)).
  pose proof (Z.mod_pos_bound (x + 2 ^ m - 1) (2 ^ m)). split; [nia|]. apply Z.mod_mul. lia.
Qed.

(** ** Counting in lists *)

Section count.
Context {A : Type} (f : A -> nat).

Lemma sum_list_with_insert (l : list A) i x y :
  l !! i = Some x ->
  (sum_list_with f (<[i := y]> l) + f x = sum_list_with f l + f y)%nat.
Proof.
  revert i. induction l as [|z l IH]; intros [|i] H; simplify_eq/=; [lia|].
  specialize (IH i H). lia.
Qed.

Lemma sum_list_with_pos (l : list A) :
  (0 < sum_list_with f l)%nat <-> exists i x, l !! i = Some x /\ (0 < f x)%nat.
Proof.
  induction l as [|z l IH]; simpl.
  { split; [lia|]. intros (i & x & H & _). by rewrite lookup_nil in H. }
  split.
  - intros H. destruct (decide (0 < f z)%nat) as [Hz|Hz].
    + by exists 0%nat, z.
    + destruct IH as [(i & x & ? & ?) _]; [lia|]. by exists (S i), x.
  - intros ([|i] & x & H & Hx); simplify_eq/=; [lia|].
    assert (0 < sum_list_with f l)%nat by (apply IH; eauto). lia.
Qed.

Lemma sum_list_with_zero (l : list A) :
  (forall x, x ∈ l -> f x = 0%nat) -> sum_list_with f l = 0%nat.
Proof.
  induction l as [|z l IH]; intros H; simpl; [done|].
  rewrite (H z), IH; set_solver.
Qed.
End count.

Lemma filter_all {A} (P : A -> Prop) `{forall x, Decision (P x)} l : Forall P l -> filter P l = l.
Proof. induction 1 as [|x l Hx _ IH]; [done|]. rewrite filter_cons, decide_True by done. by f_equal. Qed.

Lemma filter_none {A} (P : A -> Prop) `{forall x, Decision (P x)} l : Forall (fun x => ~ P x) l -> filter P l = [].
Proof. induction 1 as [|x l Hx _ IH]; [done|]. by rewrite filter_cons, decide_False. Qed.

Lemma elem_of_concat {A} (x : A) (ls : list (list A)) :
  x ∈ concat ls <-> exists l, x ∈ l /\ l ∈ ls.
Proof.
  rewrite list_elem_of_In, in_concat. split.
  - intros (l & H1 & H2). exists l. by rewrite !list_elem_of_In.
  - intros (l & H1 & H2). exists l. by rewrite <- !list_elem_of_In.
Qed.

Lemma elem_of_concat_fmap {A B} (f : A -> list B) l x :
  x ∈ concat (f <$> l) <-> exists a, a ∈ l /\ x ∈ f a.
Proof.
  rewrite elem_of_concat. split.
  - intros (k & Hx & (a & -> & Ha)%list_elem_of_fmap). eauto.
  - intros (a & Ha & Hx). exists (f a). split; [done|]. apply list_elem_of_fmap. eauto.
Qed.

Lemma mmap_fmap {A B} (f : A -> res B) (g : A -> B) l :
  (forall x, x ∈ l -> f x = Ok (g x)) -> mmap f l = Ok (g <$> l).
Proof.
  induction l as [|x l IH]; intros H; [done|]. simpl. rewrite H by set_solver. simpl.
  by rewrite IH by set_solver.
Qed.

(** ** Minimum and maximum of finite sets and map domains, as [*s.begin()],
    [*s.rbegin()] of an ordered container *)

Definition list_min (l : list Z) : option Z :=
  foldr (fun x acc => match acc with None => Some x | Some y => Some (Z.min x y) end) None l.
Definition list_max (l : list Z) : option Z :=
  foldr (fun x acc => match acc with None => Some x | Some y => Some (Z.max x y) end) None l.

Lemma list_min_None l : list_min l = None <-> l = [].
Proof. destruct l as [|x l]; simpl; [done|]. by destruct (list_min l). Qed.

Lemma list_max_None l : list_max l = None <-> l = [].
Proof. destruct l as [|x l]; simpl; [done|]. by destruct (list_max l). Qed.

Lemma list_min_Some l m :
  list_min l = Some m <-> m ∈ l /\ (forall x, x ∈ l -> m <= x).
Proof.
  revert m. induction l as [|x l IH]; intros m; simpl.
  { split; [done|]. intros [H _]. by apply not_elem_of_nil in H. }
  destruct (list_min l) as [y|] eqn:E.
  - destruct (IH y) as [[Hy Hmin] _]; [done|].
    split.
    + intros [= <-]. split.
      * destruct (Z.min_spec x y) as [[_ ->]|[_ ->]]; set_solver.
      * intros z [->|Hz]%elem_of_cons; [lia|]. specialize (Hmin z Hz). lia.
    + intros [Hm Hle]. f_equal.
      assert (m <= x) by (apply Hle; set_solver).
      assert (m <= y) by (apply Hle; set_solver).
      apply elem_of_cons in Hm as [->|Hm]; [lia|]. specialize (Hmin m Hm). lia.
  - apply list_min_None in E as ->. split.
    + intros [= <-]. set_solver by lia.
    + intros [Hm _]. set_solver.
Qed.

Lemma list_max_Some l m :
  list_max l = Some m <-> m ∈ l /\ (forall x, x ∈ l -> x <= m).
Proof.
  revert m. induction l as [|x l IH]; intros m; simpl.
  { split; [done|]. intros [H _]. by apply not_elem_of_nil in H. }
  destruct (list_max l) as [y|] eqn:E.
  - destruct (IH y) as [[Hy Hmax] _]; [done|].
    split.
    + intros [= <-]. split.
      * destruct (Z.max_spec x y) as [[_ ->]|[_ ->]]; set_solver.
      * intros z [->|Hz]%elem_of_cons; [lia|]. specialize (Hmax z Hz). lia.
    + intros [Hm Hle]. f_equal.
      assert (x <= m) by (apply Hle; set_solver).
      assert (y <= m) by (apply Hle; set_solver).
      apply elem_of_cons in Hm as [->|Hm]; [lia|]. specialize (Hmax m Hm). lia.
  - apply list_max_None in E as ->. split.
    + intros [= <-]. set_solver by lia.
    + intros [Hm _]. set_solver.
Qed.

#[export] Hint Resolve sat_ok : mallana.
#[export] Hint Rewrite @length_insert @length_app @length_seq @length_replicate : mallana.
