(* ===== verification/KvCells.v ===== *)
(** * KV cells: [llama_kv_cells] of src/src/llama-kv-cells.h

    The metadata of the KV cache of one stream: for every cell its position, its
    2D extension, its accumulated shift and the set of sequences that occupy it,
    together with two derived indices that the class keeps in step with them: the
    set [used] of non-empty cells, and for every sequence [s] the multiset
    [seq_pos\[s\]] of the positions present.  Method [m] of the class is the
    definition [cells_m]; an [assert] or a container access that fails is an
    [Err].  The container types are [std::vector] as [list], [std::bitset] and
    [std::set] as [gset], [std::map] as [gmap]. *)

From S2P Require Import Prelude.

Definition LLAMA_MAX_SEQ : Z := 256.

Record llama_kv_cell_ext : Set := mk_ext { ext_x : Z; ext_y : Z }.

#[export] Instance ext_eq_dec : EqDecision llama_kv_cell_ext.
Proof. solve_decision. Defined.

(** [memset(this, 0, sizeof( *this))] *)
Definition ext_reset : llama_kv_cell_ext := mk_ext 0 0.

Definition is_2d_gt (e : llama_kv_cell_ext) (ox oy : Z) : bool :=
  (oy <? ext_y e) || ((ext_y e =? oy) && (ox <? ext_x e)).

Record llama_kv_cells : Type := mk_cells {
  c_has_shift : bool;
  c_used      : gset nat;
  c_pos       : list Z;
  c_ext       : list llama_kv_cell_ext;
  c_shift     : list Z;
  c_seq       : list (gset Z);
  c_seq_pos   : list (gmap Z Z)
}.

Definition with_has_shift b (c : llama_kv_cells) :=
  mk_cells b (c_used c) (c_pos c) (c_ext c) (c_shift c) (c_seq c) (c_seq_pos c).
Definition with_used u (c : llama_kv_cells) :=
  mk_cells (c_has_shift c) u (c_pos c) (c_ext c) (c_shift c) (c_seq c) (c_seq_pos c).
Definition with_pos p (c : llama_kv_cells) :=
  mk_cells (c_has_shift c) (c_used c) p (c_ext c) (c_shift c) (c_seq c) (c_seq_pos c).
Definition with_ext e (c : llama_kv_cells) :=
  mk_cells (c_has_shift c) (c_used c) (c_pos c) e (c_shift c) (c_seq c) (c_seq_pos c).
Definition with_shift s (c : llama_kv_cells) :=
  mk_cells (c_has_shift c) (c_used c) (c_pos c) (c_ext c) s (c_seq c) (c_seq_pos c).
Definition with_seq s (c : llama_kv_cells) :=
  mk_cells (c_has_shift c) (c_used c) (c_pos c) (c_ext c) (c_shift c) s (c_seq_pos c).
Definition with_seq_pos s (c : llama_kv_cells) :=
  mk_cells (c_has_shift c) (c_used c) (c_pos c) (c_ext c) (c_shift c) (c_seq c) s.

(** Single-element writes. *)
Definition put_pos (c : llama_kv_cells) (i : nat) (p : Z) : res llama_kv_cells :=
  l ← vec_set (c_pos c) i p; Ok (with_pos l c).
Definition put_ext (c : llama_kv_cells) (i : nat) (e : llama_kv_cell_ext) : res llama_kv_cells :=
  l ← vec_set (c_ext c) i e; Ok (with_ext l c).
Definition put_shift (c : llama_kv_cells) (i : nat) (d : Z) : res llama_kv_cells :=
  l ← vec_set (c_shift c) i d; Ok (with_shift l c).
Definition put_seq (c : llama_kv_cells) (i : nat) (S : gset Z) : res llama_kv_cells :=
  l ← vec_set (c_seq c) i S; Ok (with_seq l c).

(** [std::bitset<LLAMA_MAX_SEQ>]: [test], [set], [reset] throw [std::out_of_range]. *)
Definition bit_ok (s : Z) : bool := (0 <=? s) && (s <? LLAMA_MAX_SEQ).
Definition bit_test (S : gset Z) (s : Z) : res bool :=
  if bit_ok s then Ok (bool_decide (s ∈ S)) else Err OutOfRange.
Definition bit_set (S : gset Z) (s : Z) : res (gset Z) :=
  if bit_ok s then Ok ({[ s ]} ∪ S) else Err OutOfRange.
Definition bit_reset (S : gset Z) (s : Z) : res (gset Z) :=
  if bit_ok s then Ok (S ∖ {[ s ]}) else Err OutOfRange.

(** [seq_pos\[s\]] *)
Definition seq_pos_get (c : llama_kv_cells) (s : Z) : res (gmap Z Z) :=
  if bit_ok s then vec_get (c_seq_pos c) (Z.to_nat s) else Err OutOfRange.
Definition seq_pos_put (c : llama_kv_cells) (s : Z) (m : gmap Z Z) : res llama_kv_cells :=
  if bit_ok s then l ← vec_set (c_seq_pos c) (Z.to_nat s) m; Ok (with_seq_pos l c)
  else Err OutOfRange.

(** ** Operations *)

Definition cells_size (c : llama_kv_cells) : nat := length (c_pos c).

Definition cells_reset (c : llama_kv_cells) : llama_kv_cells :=
  let n := cells_size c in
  mk_cells false ∅ (replicate n (-1)) (replicate n ext_reset) (replicate n 0)
    (replicate n ∅) (replicate (Z.to_nat LLAMA_MAX_SEQ) ∅).

Definition cells_reset_shift (c : llama_kv_cells) : llama_kv_cells :=
  with_shift (replicate (length (c_shift c)) 0) (with_has_shift false c).

(** [resize] is [std::vector::resize] of the four vectors and then [reset],
    which overwrites every element of the vectors at their new size. *)
Definition cells_resize (n : nat) (c : llama_kv_cells) : llama_kv_cells :=
  cells_reset (mk_cells (c_has_shift c) (c_used c) (resize n 0 (c_pos c))
    (resize n ext_reset (c_ext c)) (resize n 0 (c_shift c)) (resize n ∅ (c_seq c)) (c_seq_pos c)).

(** The state of a default-constructed [llama_kv_cells]. *)
Definition cells_new : llama_kv_cells :=
  mk_cells false ∅ [] [] [] [] (replicate (Z.to_nat LLAMA_MAX_SEQ) ∅).

Definition cells_is_empty (c : llama_kv_cells) (i : nat) : res bool :=
  p ← vec_get (c_pos c) i;
  _ ← assert_ (((p <? 0) && (p =? -1)) || (0 <=? p));
  Ok (p =? -1).

Definition cells_get_used (c : llama_kv_cells) : nat := size (c_used c).

Definition used_list (c : llama_kv_cells) : list Z := Z.of_nat <$> elements (c_used c).

Definition cells_used_min (c : llama_kv_cells) : Z :=
  match list_min (used_list c) with None => 0 | Some i => i end.

Definition cells_used_max_p1 (c : llama_kv_cells) : Z :=
  match list_max (used_list c) with None => 0 | Some i => i + 1 end.

Definition cells_get_has_shift (c : llama_kv_cells) : bool := c_has_shift c.

(** *** Helper functions for updating [seq_pos], one cell at a time *)

Definition cells_seq_pos_dec (c : llama_kv_cells) (s p : Z) : res llama_kv_cells :=
  m ← seq_pos_get c s;
  match m !! p with
  | None => Err AssertFailed
  | Some n => seq_pos_put c s (if n - 1 =? 0 then delete p m else <[ p := n - 1 ]> m)
  end.

(** [seq_pos\[s\]\[p\]++]: [std::map::operator\[\]] inserts a zero when the key is absent. *)
Definition cells_seq_pos_inc (c : llama_kv_cells) (s p : Z) : res llama_kv_cells :=
  m ← seq_pos_get c s;
  seq_pos_put c s (<[ p := default 0 (m !! p) + 1 ]> m).

Definition all_seq_ids : list Z := seqZ 0 LLAMA_MAX_SEQ.

Definition cells_seq_pos_rm (c : llama_kv_cells) (i : nat) : res llama_kv_cells :=
  mfor (fun c s =>
    S ← vec_get (c_seq c) i;
    b ← bit_test S s;
    if (b : bool) then p ← vec_get (c_pos c) i; cells_seq_pos_dec c s p else Ok c)
  all_seq_ids c.

Definition cells_seq_pos_add (c : llama_kv_cells) (i : nat) : res llama_kv_cells :=
  mfor (fun c s =>
    S ← vec_get (c_seq c) i;
    b ← bit_test S s;
    if (b : bool) then p ← vec_get (c_pos c) i; cells_seq_pos_inc c s p else Ok c)
  all_seq_ids c.

(** *** Save and restore *)

Definition cells_cp_at (c res_ : llama_kv_cells) (j idx : nat) : res llama_kv_cells :=
  p ← vec_get (c_pos c) idx; r ← put_pos res_ j p;
  e ← vec_get (c_ext c) idx; r ← put_ext r j e;
  S ← vec_get (c_seq c) idx; r ← put_seq r j S;
  d ← vec_get (c_shift c) idx;
  _ ← assert_ (d =? 0);
  Ok r.

(** [cp(i, n)] *)
Definition cells_cp_range (c : llama_kv_cells) (i n : nat) : res llama_kv_cells :=
  _ ← assert_ (bool_decide (i + n <= length (c_pos c))%nat);
  mfor (fun r j => cells_cp_at c r j (i + j)) (seq 0 n) (cells_resize n cells_new).

(** [cp(idxs)] *)
Definition cells_cp (c : llama_kv_cells) (idxs : list nat) : res llama_kv_cells :=
  mfor (fun r j => idx ← vec_get idxs j; cells_cp_at c r j idx)
    (seq 0 (length idxs)) (cells_resize (length idxs) cells_new).

(** The body shared by the two overloads of [set]. *)
Definition cells_set_at (c other : llama_kv_cells) (idx j : nat) : res llama_kv_cells :=
  p ← vec_get (c_pos c) idx;
  q ← vec_get (c_pos other) j;
  let c := if (p =? -1) && negb (q =? -1) then with_used ({[ idx ]} ∪ c_used c) c else c in
  let c := if negb (p =? -1) && (q =? -1) then with_used (c_used c ∖ {[ idx ]}) c else c in
  c ← (if negb (p =? -1) then cells_seq_pos_rm c idx else Ok c);
  c ← put_pos c idx q;
  e ← vec_get (c_ext other) j; c ← put_ext c idx e;
  S ← vec_get (c_seq other) j; c ← put_seq c idx S;
  c ← (if negb (q =? -1) then cells_seq_pos_add c idx else Ok c);
  d ← vec_get (c_shift c) idx;
  _ ← assert_ (d =? 0);
  Ok c.

(** [set(i, other)] *)
Definition cells_set_range (c : llama_kv_cells) (i : nat) (other : llama_kv_cells) : res llama_kv_cells :=
  _ ← assert_ (bool_decide (i + length (c_pos other) <= length (c_pos c))%nat);
  mfor (fun c j => cells_set_at c other (i + j) j) (seq 0 (length (c_pos other))) c.

(** [set(idxs, other)] *)
Definition cells_set (c : llama_kv_cells) (idxs : list nat) (other : llama_kv_cells) : res llama_kv_cells :=
  _ ← assert_ (bool_decide (length idxs = length (c_pos other)));
  mfor (fun c j => idx ← vec_get idxs j; cells_set_at c other idx j)
    (seq 0 (length (c_pos other))) c.

(** *** Editing one cell *)

Definition not_m1 (p : Z) : bool := negb (p =? -1).

Definition cells_rm (c : llama_kv_cells) (i : nat) : res llama_kv_cells :=
  p ← vec_get (c_pos c) i;
  _ ← assert_ (not_m1 p);
  c ← cells_seq_pos_rm c i;
  c ← put_seq c i ∅;
  c ← put_pos c i (-1);
  c ← put_ext c i ext_reset;
  c ← put_shift c i 0;
  Ok (with_used (c_used c ∖ {[ i ]}) c).

(** Returns the new state and whether the cell became empty. *)
Definition cells_seq_rm (c : llama_kv_cells) (i : nat) (seq_id : Z) : res (llama_kv_cells * bool) :=
  S ← vec_get (c_seq c) i;
  b ← bit_test S seq_id;
  _ ← assert_ b;
  p ← vec_get (c_pos c) i;
  _ ← assert_ (not_m1 p);
  _ ← assert_ (0 <=? seq_id);
  S ← bit_reset S seq_id;
  c ← put_seq c i S;
  c ← cells_seq_pos_dec c seq_id p;
  if bool_decide (S = ∅) then
    c ← put_pos c i (-1);
    c ← put_ext c i ext_reset;
    c ← put_shift c i 0;
    Ok (with_used (c_used c ∖ {[ i ]}) c, true)
  else Ok (c, false).

Definition cells_seq_keep (c : llama_kv_cells) (i : nat) (seq_id : Z) : res (llama_kv_cells * bool) :=
  S ← vec_get (c_seq c) i;
  b ← bit_test S seq_id;
  if (b : bool) then
    c ← cells_seq_pos_rm c i;
    c ← put_seq c i ∅;
    S ← bit_set ∅ seq_id;
    c ← put_seq c i S;
    p ← vec_get (c_pos c) i;
    c ← cells_seq_pos_inc c seq_id p;
    Ok (c, false)
  else if negb (bool_decide (S = ∅)) then
    c ← cells_seq_pos_rm c i;
    c ← put_seq c i ∅;
    c ← put_pos c i (-1);
    c ← put_ext c i ext_reset;
    c ← put_shift c i 0;
    Ok (with_used (c_used c ∖ {[ i ]}) c, true)
  else
    p ← vec_get (c_pos c) i;
    _ ← assert_ (p =? -1);
    Ok (c, false).

Definition cells_seq_count (c : llama_kv_cells) (i : nat) : res nat :=
  p ← vec_get (c_pos c) i;
  _ ← assert_ (not_m1 p);
  S ← vec_get (c_seq c) i;
  Ok (size S).

Definition cells_seq_has (c : llama_kv_cells) (i : nat) (seq_id : Z) : res bool :=
  S ← vec_get (c_seq c) i;
  _ ← assert_ (0 <=? seq_id);
  bit_test S seq_id.

Definition cells_seq_add (c : llama_kv_cells) (i : nat) (seq_id : Z) : res llama_kv_cells :=
  p ← vec_get (c_pos c) i;
  _ ← assert_ (not_m1 p);
  S ← vec_get (c_seq c) i;
  b ← bit_test S seq_id;
  _ ← assert_ (negb b);
  S ← bit_set S seq_id;
  c ← put_seq c i S;
  cells_seq_pos_inc c seq_id p.

Definition cells_seq_get (c : llama_kv_cells) (i : nat) : res Z :=
  S ← vec_get (c_seq c) i;
  _ ← assert_ (bool_decide (size S = 1%nat));
  Ok (default (-1) (head (filter (fun s => s ∈ S) all_seq_ids))).

Definition map_keys (m : gmap Z Z) : list Z := (map_to_list m).*1.

Definition cells_seq_pos_min (c : llama_kv_cells) (seq_id : Z) : res Z :=
  _ ← assert_ (0 <=? seq_id);
  _ ← assert_ (seq_id <? LLAMA_MAX_SEQ);
  m ← seq_pos_get c seq_id;
  match list_min (map_keys m) with
  | None => Ok (-1)
  | Some p => _ ← assert_ (0 <? default 0 (m !! p)); Ok p
  end.

Definition cells_seq_pos_max (c : llama_kv_cells) (seq_id : Z) : res Z :=
  _ ← assert_ (0 <=? seq_id);
  _ ← assert_ (seq_id <? LLAMA_MAX_SEQ);
  m ← seq_pos_get c seq_id;
  match list_max (map_keys m) with
  | None => Ok (-1)
  | Some p => _ ← assert_ (0 <? default 0 (m !! p)); Ok p
  end.

Definition cells_pos_get (c : llama_kv_cells) (i : nat) : res Z :=
  p ← vec_get (c_pos c) i;
  _ ← assert_ (not_m1 p);
  Ok p.

Definition cells_ext_get (c : llama_kv_cells) (i : nat) : res llama_kv_cell_ext :=
  p ← vec_get (c_pos c) i;
  _ ← assert_ (not_m1 p);
  vec_get (c_ext c) i.

Definition cells_get_shift (c : llama_kv_cells) (i : nat) : res Z :=
  p ← vec_get (c_pos c) i;
  _ ← assert_ (not_m1 p);
  vec_get (c_shift c) i.

Definition cells_pos_in (c : llama_kv_cells) (i : nat) (p0 p1 : Z) : res bool :=
  p ← vec_get (c_pos c) i;
  Ok ((p0 <=? p) && (p <? p1)).

Definition cells_pos_set (c : llama_kv_cells) (i : nat) (p : Z) : res llama_kv_cells :=
  q ← vec_get (c_pos c) i;
  _ ← assert_ (q =? -1);
  S ← vec_get (c_seq c) i;
  _ ← assert_ (bool_decide (S = ∅));
  c ← put_pos c i p;
  Ok (with_used ({[ i ]} ∪ c_used c) c).

Definition cells_ext_set (c : llama_kv_cells) (i : nat) (e : llama_kv_cell_ext) : res llama_kv_cells :=
  put_ext c i e.

(** Returns the new state and whether the cell became empty. *)
Definition cells_pos_add (c : llama_kv_cells) (i : nat) (d : Z) : res (llama_kv_cells * bool) :=
  p ← vec_get (c_pos c) i;
  _ ← assert_ (not_m1 p);
  c ← cells_seq_pos_rm c i;
  p' ← i32 (p + d);
  c ← put_pos c i p';
  sh ← vec_get (c_shift c) i;
  sh' ← i32 (sh + d);
  c ← put_shift c i sh';
  let c := with_has_shift true c in
  if p' <? 0 then
    c ← put_seq c i ∅;
    c ← put_pos c i (-1);
    c ← put_shift c i 0;
    Ok (with_used (c_used c ∖ {[ i ]}) c, true)
  else
    c ← cells_seq_pos_add c i;
    Ok (c, false).

(** [/] on [int] truncates towards zero; a zero divisor is undefined. *)
Definition cells_pos_div (c : llama_kv_cells) (i : nat) (d : Z) : res llama_kv_cells :=
  p_old ← vec_get (c_pos c) i;
  _ ← assert_ (not_m1 p_old);
  c ← cells_seq_pos_rm c i;
  _ ← (if d =? 0 then Err DivByZero else Ok tt);
  p' ← i32 (Z.quot p_old d);
  c ← put_pos c i p';
  sh ← vec_get (c_shift c) i;
  df ← i32 (p_old - p');
  sh' ← i32 (sh + df);
  c ← put_shift c i sh';
  c ← cells_seq_pos_add c i;
  Ok (with_has_shift true c).
