(* ===== verification/KvCellsInv.v ===== *)
(** * The invariant of [llama_kv_cells] and its preservation by every method

    [sp_rep] relates the index [seq_pos] to the cells: [seq_pos\[s\]] maps a
    position to the number of cells at that position that hold sequence [s], and
    has no zero entries.  [wf] adds the other representation invariants. *)

From S2P Require Import Prelude KvCells.

(** ** The number of cells at position [p] that hold sequence [s] *)

Definition occ1 (s p : Z) (x : Z * gset Z) : nat :=
  if decide (x.1 = p /\ s ∈ x.2) then 1%nat else 0%nat.

Definition occ (pos : list Z) (seqs : list (gset Z)) (s p : Z) : nat :=
  sum_list_with (occ1 s p) (zip pos seqs).

Definition count_entry (n : nat) : option Z :=
  if decide (n = 0%nat) then None else Some (Z.of_nat n).

Definition sp_rep (sp : list (gmap Z Z)) (pos : list Z) (seqs : list (gset Z)) : Prop :=
  length sp = Z.to_nat LLAMA_MAX_SEQ /\
  forall s m p, sp !! Z.to_nat s = Some m -> 0 <= s < LLAMA_MAX_SEQ ->
    m !! p = count_entry (occ pos seqs s p).

Lemma lookup_zip {A B} (l : list A) (k : list B) i x y :
  l !! i = Some x -> k !! i = Some y -> zip l k !! i = Some (x, y).
Proof. intros. rewrite lookup_zip_with. by simplify_option_eq. Qed.

Lemma lookup_zip_inv {A B} (l : list A) (k : list B) i x :
  zip l k !! i = Some x -> l !! i = Some x.1 /\ k !! i = Some x.2.
Proof. rewrite lookup_zip_with. intros. simplify_option_eq. done. Qed.

Lemma occ_update pos seqs i q S q' S' s p :
  pos !! i = Some q -> seqs !! i = Some S ->
  (occ (<[i:=q']> pos) (<[i:=S']> seqs) s p + occ1 s p (q, S)
   = occ pos seqs s p + occ1 s p (q', S'))%nat.
Proof.
  intros Hq HS. unfold occ. rewrite <- insert_zip_with.
  apply sum_list_with_insert. by apply lookup_zip.
Qed.

(** Updating only the position, or only the set, of a cell. *)
Lemma occ_update_seq pos seqs i q S S' s p :
  pos !! i = Some q -> seqs !! i = Some S ->
  (occ pos (<[i:=S']> seqs) s p + occ1 s p (q, S) = occ pos seqs s p + occ1 s p (q, S'))%nat.
Proof.
  intros Hq HS. rewrite <- (occ_update pos seqs i q S q S') by done.
  by rewrite (list_insert_id pos i q).
Qed.

Lemma occ_move_empty pos seqs i q q' s p :
  pos !! i = Some q -> seqs !! i = Some ∅ ->
  occ (<[i:=q']> pos) seqs s p = occ pos seqs s p.
Proof.
  intros Hq HS. pose proof (occ_update pos seqs i q ∅ q' ∅ s p Hq HS) as H.
  rewrite (list_insert_id seqs i ∅) in H by done.
  unfold occ1 in H. simpl in H. rewrite !decide_False in H by set_solver. lia.
Qed.

Lemma occ_pos pos seqs s p :
  length pos = length seqs ->
  (0 < occ pos seqs s p)%nat <->
  exists i S, pos !! i = Some p /\ seqs !! i = Some S /\ s ∈ S.
Proof.
  intros Hlen. unfold occ. rewrite sum_list_with_pos. split.
  - intros (i & [q S] & Hx & Hf). apply lookup_zip_inv in Hx as [? ?].
    unfold occ1 in Hf. simpl in *. case_decide; [|lia]. destruct_and!. subst. eauto.
  - intros (i & S & ? & ? & ?). exists i, (p, S). split; [by apply lookup_zip|].
    unfold occ1. simpl. rewrite decide_True by done. lia.
Qed.

Lemma occ_empty pos n s p : occ pos (replicate n ∅) s p = 0%nat.
Proof.
  unfold occ. apply sum_list_with_zero. intros [q S] H.
  apply list_elem_of_lookup in H as [i Hi]. apply lookup_zip_inv in Hi as [_ Hi].
  simpl in Hi. apply lookup_replicate in Hi as [-> _].
  unfold occ1. simpl. by rewrite decide_False by set_solver.
Qed.

Lemma bit_ok_true s : bit_ok s = true <-> 0 <= s < LLAMA_MAX_SEQ.
Proof. unfold bit_ok. rewrite andb_true_iff, Z.leb_le, Z.ltb_lt. done. Qed.

Lemma elem_of_all_seq_ids s : s ∈ all_seq_ids <-> 0 <= s < LLAMA_MAX_SEQ.
Proof. unfold all_seq_ids. rewrite elem_of_seqZ. lia. Qed.

Lemma Z_to_nat_eq_iff s t : 0 <= s -> 0 <= t -> Z.to_nat s = Z.to_nat t -> s = t.
Proof. lia. Qed.

(** ** The index is kept by single increments and decrements *)

Lemma count_entry_dec n :
  (0 < n)%nat ->
  count_entry n = Some (Z.of_nat n) /\
  count_entry (n - 1) = if Z.of_nat n - 1 =? 0 then None else Some (Z.of_nat n - 1).
Proof.
  intros H. unfold count_entry. rewrite decide_False by lia. split; [done|].
  destruct (Z.eqb_spec (Z.of_nat n - 1) 0); case_decide; try lia; [done|].
  f_equal. lia.
Qed.

Lemma count_entry_inc n : default 0 (count_entry n) + 1 = Z.of_nat (n + 1).
Proof. unfold count_entry. case_decide; simpl; lia. Qed.

(** A cell that holds no sequence can change position freely. *)
Lemma sp_rep_move sp pos seqs i q q' :
  sp_rep sp pos seqs -> pos !! i = Some q -> seqs !! i = Some ∅ ->
  sp_rep sp (<[i := q']> pos) seqs.
Proof.
  intros [Hl H] Hq HS. split; [done|]. intros s m p Hm Hs.
  rewrite (occ_move_empty _ _ _ q) by done. by apply H.
Qed.

(** Removing one occurrence of [p] for [s]. *)
Lemma sat_seq_pos_dec c pos seqs i s p S :
  sp_rep (c_seq_pos c) pos seqs -> pos !! i = Some p -> seqs !! i = Some S ->
  0 <= s < LLAMA_MAX_SEQ -> s ∈ S ->
  sat (cells_seq_pos_dec c s p) (fun c' =>
    exists sp, c' = with_seq_pos sp c /\ sp_rep sp pos (<[i := S ∖ {[s]}]> seqs)).
Proof.
  intros [Hl Hrep] Hp HS Hs Hin. unfold cells_seq_pos_dec, seq_pos_get, seq_pos_put.
  assert (bit_ok s = true) as -> by by apply bit_ok_true.
  destruct (lookup_lt_is_Some_2 (c_seq_pos c) (Z.to_nat s)) as [m Hm]; [lia|].
  apply sat_bind. eapply sat_vec_get; [done|].
  pose proof (occ_update_seq pos seqs i p S (S ∖ {[s]}) s p Hp HS) as Hocc.
  unfold occ1 in Hocc. simpl in Hocc.
  rewrite decide_True, (decide_False (P := _ /\ s ∈ S ∖ _)) in Hocc by set_solver.
  pose proof (Hrep s m p Hm Hs) as Hmp.
  destruct (count_entry_dec (occ pos seqs s p)) as [He Hd]; [lia|].
  rewrite Hmp, He. apply sat_bind. apply sat_vec_set; [by apply lookup_lt_Some in Hm|].
  simpl. eexists. split; [done|]. split; [by rewrite length_insert|].
  intros t m' q Hm' Ht.
  destruct (decide (s = t)) as [<-|Hne].
  - rewrite list_lookup_insert_eq in Hm' by (by apply lookup_lt_Some in Hm). simplify_eq.
    destruct (decide (p = q)) as [<-|Hpq].
    + replace (occ pos (<[i:=S ∖ {[s]}]> seqs) s p) with (occ pos seqs s p - 1)%nat by lia.
      rewrite Hd. destruct (_ =? 0); [by rewrite lookup_delete_eq|by rewrite lookup_insert_eq].
    + trans (m !! q); [destruct (_ =? 0); [by rewrite lookup_delete_ne|by rewrite lookup_insert_ne]|].
      rewrite (Hrep s m q Hm Hs). f_equal.
      pose proof (occ_update_seq pos seqs i p S (S ∖ {[s]}) s q Hp HS) as H.
      unfold occ1 in H. simpl in H. rewrite !decide_False in H by naive_solver. lia.
  - rewrite list_lookup_insert_ne in Hm' by lia.
    rewrite (Hrep t m' q Hm' Ht). f_equal.
    pose proof (occ_update_seq pos seqs i p S (S ∖ {[s]}) t q Hp HS) as H.
    unfold occ1 in H. simpl in H.
    destruct (decide (p = q /\ t ∈ S)); destruct (decide (p = q /\ t ∈ S ∖ {[s]}));
      try lia; set_solver.
Qed.

(** Adding one occurrence of [p] for [s]. *)
Lemma sat_seq_pos_inc c pos seqs i s p S :
  sp_rep (c_seq_pos c) pos seqs -> pos !! i = Some p -> seqs !! i = Some S ->
  0 <= s < LLAMA_MAX_SEQ -> s ∉ S ->
  sat (cells_seq_pos_inc c s p) (fun c' =>
    exists sp, c' = with_seq_pos sp c /\ sp_rep sp pos (<[i := {[s]} ∪ S]> seqs)).
Proof.
  intros [Hl Hrep] Hp HS Hs Hin. unfold cells_seq_pos_inc, seq_pos_get, seq_pos_put.
  assert (bit_ok s = true) as -> by by apply bit_ok_true.
  destruct (lookup_lt_is_Some_2 (c_seq_pos c) (Z.to_nat s)) as [m Hm]; [lia|].
  apply sat_bind. eapply sat_vec_get; [done|].
  apply sat_bind, sat_vec_set; [by apply lookup_lt_Some in Hm|].
  simpl. eexists. split; [done|]. split; [by rewrite length_insert|].
  intros t m' q Hm' Ht.
  pose proof (occ_update_seq pos seqs i p S ({[s]} ∪ S) t q Hp HS) as Hocc.
  unfold occ1 in Hocc. simpl in Hocc.
  destruct (decide (s = t)) as [<-|Hne].
  - rewrite list_lookup_insert_eq in Hm' by (by apply lookup_lt_Some in Hm). simplify_eq.
    destruct (decide (p = q)) as [<-|Hpq].
    + rewrite lookup_insert_eq, (Hrep s m p Hm Hs), count_entry_inc.
      rewrite decide_False, decide_True in Hocc by set_solver.
      replace (occ pos (<[i:={[s]} ∪ S]> seqs) s p) with (occ pos seqs s p + 1)%nat by lia.
      unfold count_entry. by rewrite decide_False by lia.
    + rewrite lookup_insert_ne by done. rewrite (Hrep s m q Hm Hs). f_equal.
      rewrite !decide_False in Hocc by naive_solver. lia.
  - rewrite list_lookup_insert_ne in Hm' by lia.
    rewrite (Hrep t m' q Hm' Ht). f_equal.
    destruct (decide (p = q /\ t ∈ S)); destruct (decide (p = q /\ t ∈ {[s]} ∪ S));
      try lia; set_solver.
Qed.

(** *** Removing and adding a whole cell to the index *)

Lemma sat_seq_pos_rm c i p S :
  sp_rep (c_seq_pos c) (c_pos c) (c_seq c) ->
  c_pos c !! i = Some p -> c_seq c !! i = Some S ->
  (forall s, s ∈ S -> 0 <= s < LLAMA_MAX_SEQ) ->
  sat (cells_seq_pos_rm c i) (fun c' =>
    exists sp, c' = with_seq_pos sp c /\ sp_rep sp (c_pos c) (<[i := ∅]> (c_seq c))).
Proof.
  intros Hrep Hp HS Hids. unfold cells_seq_pos_rm.
  eapply sat_mono; [apply (sat_mfor _ (fun d c' => exists sp, c' = with_seq_pos sp c /\
      sp_rep sp (c_pos c) (<[i := S ∖ list_to_set d]> (c_seq c))))|].
  - exists (c_seq_pos c). split; [by destruct c|].
    simpl. rewrite difference_empty_L, list_insert_id; done.
  - intros d s r c' Heq (sp & -> & Hsp). simpl.
    assert (s ∈ all_seq_ids) as Hs%elem_of_all_seq_ids by (rewrite Heq; set_solver).
    assert (s ∉ d) as Hsd.
    { intros Hd. assert (NoDup all_seq_ids) as Hn by apply NoDup_seqZ.
      rewrite Heq in Hn. apply NoDup_app in Hn as (_ & Hn & _). set_solver. }
    assert (Hi : (i < length (c_seq c))%nat) by (by apply lookup_lt_Some in HS).
    apply sat_bind. eapply sat_vec_get; [done|].
    unfold bit_test. rewrite (proj2 (bit_ok_true s)) by done. simpl.
    rewrite list_to_set_app_L. simpl. rewrite union_empty_r_L, <- difference_difference_l_L.
    case_bool_decide as HsS.
    + apply sat_bind. eapply sat_vec_get; [done|].
      eapply sat_mono; [eapply (sat_seq_pos_dec _ _ _ i); simpl;
        [exact Hsp|done|by apply list_lookup_insert_eq|done|set_solver]|].
      intros c' (sp' & -> & Hsp'). exists sp'. split; [done|].
      by rewrite list_insert_insert_eq in Hsp'.
    + exists sp. split; [done|].
      replace (S ∖ list_to_set d ∖ {[s]}) with (S ∖ list_to_set d) by set_solver. done.
  - intros c' (sp & -> & Hsp). exists sp. split; [done|].
    replace (S ∖ list_to_set all_seq_ids) with (∅ : gset Z) in Hsp; [done|].
    apply set_eq. intros s. rewrite elem_of_difference, elem_of_list_to_set.
    rewrite elem_of_all_seq_ids, elem_of_empty. pose proof (Hids s) as Hid. clear -Hid. tauto.
Qed.

Lemma sat_seq_pos_add c i p S :
  sp_rep (c_seq_pos c) (c_pos c) (<[i := ∅]> (c_seq c)) ->
  c_pos c !! i = Some p -> c_seq c !! i = Some S ->
  (forall s, s ∈ S -> 0 <= s < LLAMA_MAX_SEQ) ->
  sat (cells_seq_pos_add c i) (fun c' =>
    exists sp, c' = with_seq_pos sp c /\ sp_rep sp (c_pos c) (c_seq c)).
Proof.
  intros Hrep Hp HS Hids. unfold cells_seq_pos_add.
  eapply sat_mono; [apply (sat_mfor _ (fun d c' => exists sp, c' = with_seq_pos sp c /\
      sp_rep sp (c_pos c) (<[i := S ∩ list_to_set d]> (c_seq c))))|].
  - exists (c_seq_pos c). split; [by destruct c|].
    simpl. by rewrite intersection_empty_r_L.
  - intros d s r c' Heq (sp & -> & Hsp). simpl.
    assert (s ∈ all_seq_ids) as Hs%elem_of_all_seq_ids by (rewrite Heq; set_solver).
    assert (s ∉ d) as Hsd.
    { intros Hd. assert (NoDup all_seq_ids) as Hn by apply NoDup_seqZ.
      rewrite Heq in Hn. apply NoDup_app in Hn as (_ & Hn & _). set_solver. }
    assert (Hi : (i < length (c_seq c))%nat) by (by apply lookup_lt_Some in HS).
    apply sat_bind. eapply sat_vec_get; [done|].
    unfold bit_test. rewrite (proj2 (bit_ok_true s)) by done. simpl.
    rewrite list_to_set_app_L. simpl. rewrite union_empty_r_L.
    case_bool_decide as HsS.
    + apply sat_bind. eapply sat_vec_get; [done|].
      eapply sat_mono; [eapply (sat_seq_pos_inc _ _ _ i); simpl;
        [exact Hsp|done|by apply list_lookup_insert_eq|done|set_solver]|].
      intros c' (sp' & -> & Hsp'). exists sp'. split; [done|].
      rewrite list_insert_insert_eq in Hsp'.
      replace (S ∩ (list_to_set d ∪ {[s]})) with ({[s]} ∪ S ∩ list_to_set d); [done|set_solver].
    + exists sp. split; [done|].
      replace (S ∩ (list_to_set d ∪ {[s]})) with (S ∩ list_to_set d) by set_solver. done.
  - intros c' (sp & -> & Hsp). exists sp. split; [done|].
    replace (S ∩ list_to_set all_seq_ids) with S in Hsp; [by rewrite list_insert_id in Hsp|].
    apply set_eq. intros s. rewrite elem_of_intersection, elem_of_list_to_set.
    rewrite elem_of_all_seq_ids. pose proof (Hids s) as Hid. clear -Hid. tauto.
Qed.

#[global] Opaque cells_seq_pos_rm cells_seq_pos_add all_seq_ids LLAMA_MAX_SEQ.

(** ** The representation invariant *)

Record wf (c : llama_kv_cells) : Prop := {
  wf_len_ext   : length (c_ext c) = length (c_pos c);
  wf_len_shift : length (c_shift c) = length (c_pos c);
  wf_len_seq   : length (c_seq c) = length (c_pos c);
  wf_pos       : forall i p, c_pos c !! i = Some p -> -1 <= p;
  wf_used      : forall i, i ∈ c_used c <-> exists p, c_pos c !! i = Some p /\ p <> -1;
  wf_empty     : forall i, c_pos c !! i = Some (-1) ->
                   c_seq c !! i = Some ∅ /\ c_shift c !! i = Some 0;
  wf_ids       : forall i S s, c_seq c !! i = Some S -> s ∈ S -> 0 <= s < LLAMA_MAX_SEQ;
  wf_sp        : sp_rep (c_seq_pos c) (c_pos c) (c_seq c)
}.

(** The cells without the derived indices: this is what a client observes. *)
Record acell : Type := mk_acell {
  a_pos : Z; a_ext : llama_kv_cell_ext; a_shift : Z; a_seq : gset Z
}.

Definition abs_cells (c : llama_kv_cells) : list acell :=
  zip_with (fun pe ds => mk_acell pe.1 pe.2 ds.1 ds.2)
    (zip (c_pos c) (c_ext c)) (zip (c_shift c) (c_seq c)).

Definition acell_empty : acell := mk_acell (-1) ext_reset 0 ∅.

Definition acell_ok (a : acell) : Prop :=
  -1 <= a_pos a /\ (a_pos a = -1 -> a_seq a = ∅ /\ a_shift a = 0) /\
  (forall s, s ∈ a_seq a -> 0 <= s < LLAMA_MAX_SEQ).

(** Writing all of cell [i], with a given index. *)
Definition cells_upd (c : llama_kv_cells) (i : nat) (b : bool) (a : acell) (sp : list (gmap Z Z)) :=
  mk_cells b (if decide (a_pos a = -1) then c_used c ∖ {[i]} else {[i]} ∪ c_used c)
    (<[i := a_pos a]> (c_pos c)) (<[i := a_ext a]> (c_ext c)) (<[i := a_shift a]> (c_shift c))
    (<[i := a_seq a]> (c_seq c)) sp.

Lemma length_abs c : wf c -> length (abs_cells c) = length (c_pos c).
Proof. intros []. unfold abs_cells. rewrite !length_zip_with. lia. Qed.

Lemma abs_upd c i b a sp : abs_cells (cells_upd c i b a sp) = <[i := a]> (abs_cells c).
Proof.
  unfold abs_cells, cells_upd. simpl. rewrite <- !insert_zip_with. simpl.
  by destruct a.
Qed.

Lemma abs_lookup c i a :
  abs_cells c !! i = Some a <->
  c_pos c !! i = Some (a_pos a) /\ c_ext c !! i = Some (a_ext a) /\
  c_shift c !! i = Some (a_shift a) /\ c_seq c !! i = Some (a_seq a).
Proof.
  unfold abs_cells. rewrite !lookup_zip_with. split.
  - intros. simplify_option_eq. done.
  - intros (H1 & H2 & H3 & H4). rewrite H1, H2, H3, H4. simpl. by destruct a.
Qed.

Lemma abs_lookup_lt c i :
  wf c -> (i < length (c_pos c))%nat -> exists a, abs_cells c !! i = Some a /\ acell_ok a.
Proof.
  intros Hwf Hi. destruct (lookup_lt_is_Some_2 (abs_cells c) i) as [a Ha];
    [by rewrite length_abs|].
  exists a. split; [done|]. apply abs_lookup in Ha as (H1 & H2 & H3 & H4).
  destruct Hwf as [? ? ? Hp Hu He Hid ?]. split_and!.
  - by eapply Hp.
  - intros Hm. rewrite Hm in H1. apply He in H1 as [H1 H1']. split; congruence.
  - intros s Hs. by eapply Hid.
Qed.

Lemma wf_upd c i b a sp :
  wf c -> (i < length (c_pos c))%nat -> acell_ok a ->
  sp_rep sp (<[i := a_pos a]> (c_pos c)) (<[i := a_seq a]> (c_seq c)) ->
  wf (cells_upd c i b a sp).
Proof.
  intros [He Hd HS Hp Hu Hemp Hids Hrep] Hi (Ha1 & Ha2 & Ha3) Hsp.
  split; simpl; rewrite ?length_insert; try done.
  - intros j p [(<- & <- & _)|[? H]]%list_lookup_insert_Some; [done|by eapply Hp].
  - intros j. destruct (decide (i = j)) as [<-|Hne].
    + rewrite list_lookup_insert_eq by done. case_decide; set_solver.
    + rewrite list_lookup_insert_ne by done. rewrite <- Hu. case_decide; set_solver.
  - intros j. destruct (decide (i = j)) as [<-|Hne].
    + rewrite !list_lookup_insert_eq by lia. intros [= H]. destruct (Ha2 H) as [-> ->]. done.
    + rewrite !list_lookup_insert_ne by done. by apply Hemp.
  - intros j S s [(<- & <- & _)|[? H]]%list_lookup_insert_Some Hs; [by apply Ha3|by eapply Hids].
Qed.

(** The index is canonical: it is determined by the cells. *)
Lemma sp_rep_unique sp1 sp2 pos seqs : sp_rep sp1 pos seqs -> sp_rep sp2 pos seqs -> sp1 = sp2.
Proof.
  intros [L1 H1] [L2 H2]. apply list_eq. intros i.
  destruct (decide (i < Z.to_nat LLAMA_MAX_SEQ)%nat) as [Hi|Hi].
  - destruct (lookup_lt_is_Some_2 sp1 i) as [m1 E1]; [lia|].
    destruct (lookup_lt_is_Some_2 sp2 i) as [m2 E2]; [lia|].
    rewrite E1, E2. f_equal. apply map_eq. intros p.
    rewrite (H1 (Z.of_nat i) m1 p), (H2 (Z.of_nat i) m2 p); rewrite ?Nat2Z.id; try done; lia.
  - rewrite !lookup_ge_None_2 by lia. done.
Qed.

Lemma wf_used_unique c1 c2 : wf c1 -> wf c2 -> c_pos c1 = c_pos c2 -> c_used c1 = c_used c2.
Proof.
  intros W1 W2 E. apply set_eq. intros i. rewrite (wf_used _ W1), (wf_used _ W2). by rewrite E.
Qed.

(** Two well-formed states with the same cells are the same state. *)
Lemma wf_abs_eq c1 c2 :
  wf c1 -> wf c2 -> abs_cells c1 = abs_cells c2 -> c_has_shift c1 = c_has_shift c2 -> c1 = c2.
Proof.
  intros W1 W2 E Eb.
  assert (Hlen : length (c_pos c1) = length (c_pos c2)).
  { rewrite <- (length_abs c1), <- (length_abs c2) by done. by rewrite E. }
  assert (HL : forall i, c_pos c1 !! i = c_pos c2 !! i /\ c_ext c1 !! i = c_ext c2 !! i /\
                 c_shift c1 !! i = c_shift c2 !! i /\ c_seq c1 !! i = c_seq c2 !! i).
  { intros i. destruct (decide (i < length (c_pos c1))%nat) as [Hi|Hi].
    - destruct (abs_lookup_lt c1 i W1 Hi) as (a & Ha & _).
      assert (abs_cells c2 !! i = Some a) as Ha2 by congruence.
      apply abs_lookup in Ha as (?&?&?&?). apply abs_lookup in Ha2 as (?&?&?&?).
      split_and!; congruence.
    - destruct W1, W2. rewrite !lookup_ge_None_2 by lia. done. }
  assert (Ep : c_pos c1 = c_pos c2) by (apply list_eq; intros; by apply HL).
  assert (Ee : c_ext c1 = c_ext c2) by (apply list_eq; intros; by apply HL).
  assert (Es : c_shift c1 = c_shift c2) by (apply list_eq; intros; by apply HL).
  assert (Eq : c_seq c1 = c_seq c2) by (apply list_eq; intros; by apply HL).
  pose proof (wf_used_unique c1 c2 W1 W2 Ep) as Eu.
  assert (Ex : c_seq_pos c1 = c_seq_pos c2).
  { eapply sp_rep_unique; [apply wf_sp, W1|]. rewrite Ep, Eq. apply wf_sp, W2. }
  destruct c1, c2. simpl in *. congruence.
Qed.

(** ** Every method that edits a cell, as the abstract update of that cell

    [upd_to c i b a c'] : the method returned [c'], which is [c] with cell [i]
    replaced by [a] and [has_shift] set to [b], and the indices are in step. *)

Definition upd_to (c : llama_kv_cells) (i : nat) (b : bool) (a : acell) (c' : llama_kv_cells) : Prop :=
  wf c' /\ abs_cells c' = <[i := a]> (abs_cells c) /\ c_has_shift c' = b.

Lemma upd_to_intro c i b a sp :
  wf c -> (i < length (c_pos c))%nat -> acell_ok a ->
  sp_rep sp (<[i := a_pos a]> (c_pos c)) (<[i := a_seq a]> (c_seq c)) ->
  upd_to c i b a (cells_upd c i b a sp).
Proof. intros. split_and!; [by apply wf_upd|by apply abs_upd|done]. Qed.

Lemma upd_to_length c i b a c' : wf c -> upd_to c i b a c' -> length (c_pos c') = length (c_pos c).
Proof.
  intros W (W' & E & _). rewrite <- !length_abs by done. by rewrite E, length_insert.
Qed.

(** Introduce the fields of cell [i]. *)
Ltac cell_fields H :=
  let H1 := fresh "Hpos" in let H2 := fresh "Hext" in
  let H3 := fresh "Hshift" in let H4 := fresh "Hseq" in
  pose proof (proj1 (abs_lookup _ _ _) H) as (H1 & H2 & H3 & H4).

Lemma abs_lookup_ok c i a : wf c -> abs_cells c !! i = Some a ->
  acell_ok a /\ (i < length (c_pos c))%nat.
Proof.
  intros W H. assert (Hi : (i < length (c_pos c))%nat).
  { rewrite <- length_abs by done. by eapply lookup_lt_Some. }
  split; [|done]. destruct (abs_lookup_lt c i W Hi) as (a' & Ha' & ?). by simplify_eq.
Qed.

(** Fold a concrete final state into [cells_upd]: equal fields by
    [list_insert_id] for those that do not change. *)
Lemma cells_upd_eq c i b a sp u p e d S :
  u = (if decide (a_pos a = -1) then c_used c ∖ {[i]} else {[i]} ∪ c_used c) ->
  p = <[i := a_pos a]> (c_pos c) -> e = <[i := a_ext a]> (c_ext c) ->
  d = <[i := a_shift a]> (c_shift c) -> S = <[i := a_seq a]> (c_seq c) ->
  mk_cells b u p e d S sp = cells_upd c i b a sp.
Proof. intros -> -> -> -> ->. done. Qed.

Lemma used_keep c i p : wf c -> c_pos c !! i = Some p -> p <> -1 -> {[i]} ∪ c_used c = c_used c.
Proof. intros W Hp Hne. assert (i ∈ c_used c) by (apply (wf_used _ W); eauto). set_solver. Qed.

Lemma used_drop c i : wf c -> c_pos c !! i = Some (-1) -> c_used c ∖ {[i]} = c_used c.
Proof.
  intros W Hp. assert (i ∉ c_used c); [|set_solver].
  rewrite (wf_used _ W). intros (p & ? & ?). congruence.
Qed.

Lemma not_m1_true p : p <> -1 -> not_m1 p = true.
Proof. intros. unfold not_m1. by destruct (Z.eqb_spec p (-1)). Qed.

Lemma acell_ok_empty : acell_ok acell_empty.
Proof. split_and!; simpl; [lia|done|set_solver]. Qed.

#[export] Hint Resolve acell_ok_empty not_m1_true : mallana.

(** Step through a chain of reads, writes and assertions. *)
Ltac sat_go :=
  repeat (simpl; match goal with
    | |- sat (_ ≫= _) _ => apply sat_bind
    | |- sat (vec_get _ _) _ => eapply sat_vec_get; [by eauto|]
    | |- sat (vec_set _ _ _) _ => apply sat_vec_set; [simpl; rewrite ?length_insert; lia|]
    | |- sat (put_pos _ _ _) _ => unfold put_pos
    | |- sat (put_ext _ _ _) _ => unfold put_ext
    | |- sat (put_shift _ _ _) _ => unfold put_shift
    | |- sat (put_seq _ _ _) _ => unfold put_seq
    | |- sat (assert_ _) _ => apply sat_assert; [by auto with mallana|]
    | |- sat (Ok _) _ => apply sat_ok
    end).

Ltac cell_lens W :=
  pose proof (wf_len_ext _ W); pose proof (wf_len_shift _ W); pose proof (wf_len_seq _ W).

(** Close a goal [upd_to c i b a (mk_cells ...)]. *)
Ltac to_upd c i a sp :=
  unfold with_used, with_pos, with_ext, with_shift, with_seq, with_seq_pos, with_has_shift;
  simpl; erewrite (cells_upd_eq c i _ a sp); [eapply (upd_to_intro c i _ a sp)|..].

(** What remains after folding: the updated cell, its well-formedness, the
    index, and the fields that did not change. *)
Ltac upd_side W :=
  match goal with
  | |- wf _ => exact W
  | |- acell_ok _ =>
      first [ by auto with mallana | split_and!; simpl; solve [lia | done | intros; exfalso; lia | set_solver] ]
  | |- sp_rep _ _ _ =>
      simpl; first
        [ done
        | rewrite (list_insert_id (c_pos _)) by done; done
        | rewrite (list_insert_id (c_seq _)) by done; done
        | eapply sp_rep_move; [done|done|apply list_lookup_insert_eq; lia] ]
  | |- _ = (if decide _ then _ else _) =>
      simpl; first
        [ done
        | rewrite decide_True by (done || lia); done
        | rewrite decide_False by (done || lia); symmetry; eapply used_keep; by eauto
        | rewrite decide_False by (done || lia); done ]
  | |- _ =>
      first [ done | lia | by rewrite ?list_insert_insert_eq | by rewrite list_insert_id ]
  end.

Ltac cell_start W Ha :=
  let H := fresh "Haok" in
  destruct (abs_lookup_ok _ _ _ W Ha) as [H ?]; pose proof H as (Hge & Hemp & Hids);
  cell_fields Ha; cell_lens W.

Lemma sat_cells_rm c i a :
  wf c -> abs_cells c !! i = Some a -> a_pos a <> -1 ->
  sat (cells_rm c i) (upd_to c i (c_has_shift c) acell_empty).
Proof.
  intros W Ha Hne. destruct (abs_lookup_ok c i a W Ha) as [(Hok1 & Hok2 & Hok3) Hi].
  cell_fields Ha. cell_lens W. unfold cells_rm. sat_go.
  eapply sat_mono; [eapply sat_seq_pos_rm; eauto using wf_sp|].
  intros c' (sp & -> & Hsp). sat_go.
  to_upd c i acell_empty sp; upd_side W.
Qed.

Lemma bit_test_ok S s : 0 <= s < LLAMA_MAX_SEQ -> bit_test S s = Ok (bool_decide (s ∈ S)).
Proof. intros. unfold bit_test. by rewrite (proj2 (bit_ok_true s)). Qed.
Lemma bit_set_ok S s : 0 <= s < LLAMA_MAX_SEQ -> bit_set S s = Ok ({[s]} ∪ S).
Proof. intros. unfold bit_set. by rewrite (proj2 (bit_ok_true s)). Qed.
Lemma bit_reset_ok S s : 0 <= s < LLAMA_MAX_SEQ -> bit_reset S s = Ok (S ∖ {[s]}).
Proof. intros. unfold bit_reset. by rewrite (proj2 (bit_ok_true s)). Qed.

Lemma a_pos_used a : acell_ok a -> a_seq a <> ∅ -> a_pos a <> -1.
Proof. intros (_ & H & _) Hne E. by destruct (H E). Qed.

(** [seq_rm]: the cell loses [s], and is emptied when no sequence is left. *)
Definition acell_seq_rm (s : Z) (a : acell) : acell :=
  if decide (a_seq a ∖ {[s]} = ∅) then acell_empty
  else mk_acell (a_pos a) (a_ext a) (a_shift a) (a_seq a ∖ {[s]}).

Lemma sat_cells_seq_rm c i s a :
  wf c -> abs_cells c !! i = Some a -> s ∈ a_seq a ->
  sat (cells_seq_rm c i s) (fun r => upd_to c i (c_has_shift c) (acell_seq_rm s a) r.1 /\
    r.2 = bool_decide (a_seq a ∖ {[s]} = ∅)).
Proof.
  intros W Ha Hs. cell_start W Ha.
  assert (a_pos a <> -1) by (apply a_pos_used; [done|set_solver]).
  assert (Hb : 0 <= s < LLAMA_MAX_SEQ) by by apply Hids.
  unfold cells_seq_rm. sat_go. rewrite bit_test_ok by done. sat_go.
  apply sat_assert; [by apply bool_decide_eq_true|]. sat_go.
  apply sat_assert; [lia|]. sat_go.
  rewrite bit_reset_ok by done. sat_go.
  eapply sat_mono; [eapply (sat_seq_pos_dec _ _ _ i); simpl; eauto using wf_sp|].
  intros c' (sp & -> & Hsp). unfold acell_seq_rm. case_bool_decide as He.
  - sat_go. rewrite decide_True by done. simpl. split; [|done].
    rewrite He in *. to_upd c i acell_empty sp; upd_side W.
  - sat_go. rewrite decide_False by done. split; [|done].
    to_upd c i (mk_acell (a_pos a) (a_ext a) (a_shift a) (a_seq a ∖ {[s]})) sp; simpl;
      upd_side W.
Qed.

Lemma sat_cells_seq_add c i s a :
  wf c -> abs_cells c !! i = Some a -> a_pos a <> -1 -> s ∉ a_seq a -> 0 <= s < LLAMA_MAX_SEQ ->
  sat (cells_seq_add c i s)
    (upd_to c i (c_has_shift c) (mk_acell (a_pos a) (a_ext a) (a_shift a) ({[s]} ∪ a_seq a))).
Proof.
  intros W Ha Hp Hs Hb. cell_start W Ha. unfold cells_seq_add. sat_go.
  rewrite bit_test_ok by done. sat_go.
  apply sat_assert; [by rewrite bool_decide_eq_false_2|].
  rewrite bit_set_ok by done. sat_go.
  eapply sat_mono; [eapply (sat_seq_pos_inc _ _ _ i); simpl; eauto using wf_sp|].
  intros c' (sp & -> & Hsp).
  to_upd c i (mk_acell (a_pos a) (a_ext a) (a_shift a) ({[s]} ∪ a_seq a)) sp; simpl;
    upd_side W.
Qed.

(** [seq_keep]: a cell of [s] keeps only [s]; any other occupied cell is emptied. *)
Definition acell_seq_keep (s : Z) (a : acell) : acell :=
  if decide (s ∈ a_seq a) then mk_acell (a_pos a) (a_ext a) (a_shift a) {[s]}
  else if decide (a_seq a = ∅) then a else acell_empty.

Lemma sat_cells_seq_keep c i s a :
  wf c -> abs_cells c !! i = Some a -> 0 <= s < LLAMA_MAX_SEQ ->
  (a_seq a = ∅ -> a_pos a = -1) ->
  sat (cells_seq_keep c i s) (fun r => upd_to c i (c_has_shift c) (acell_seq_keep s a) r.1 /\
    r.2 = bool_decide ((s ∉ a_seq a) /\ a_seq a <> ∅)).
Proof.
  intros W Ha Hb Ht. cell_start W Ha. unfold cells_seq_keep, acell_seq_keep. sat_go.
  rewrite bit_test_ok by done. simpl. case_bool_decide as Hs.
  - assert (a_pos a <> -1) by (apply a_pos_used; [done|set_solver]).
    rewrite decide_True by done. sat_go.
    eapply sat_mono; [eapply sat_seq_pos_rm; eauto using wf_sp|].
    intros c' (sp & -> & Hsp). sat_go. rewrite bit_set_ok by done. sat_go.
    eapply sat_mono; [eapply (sat_seq_pos_inc _ _ _ i _ _ (∅ : gset Z)); simpl;
      [exact Hsp|eauto|apply list_lookup_insert_eq; lia|done|set_solver]|].
    intros c' (sp' & -> & Hsp'). rewrite list_insert_insert_eq in Hsp'.
    rewrite (union_empty_r_L ({[s]} : gset Z)) in *. sat_go.
    split; [|rewrite bool_decide_eq_false_2; naive_solver].
    to_upd c i (mk_acell (a_pos a) (a_ext a) (a_shift a) {[s]}) sp'; simpl; upd_side W.
  - rewrite decide_False by done. case_bool_decide as He; simpl.
    + rewrite decide_True by done. sat_go.
      apply sat_assert; [by apply Z.eqb_eq, Ht|]. sat_go.
      split; [|rewrite bool_decide_eq_false_2; naive_solver].
      split_and!; [done|by rewrite list_insert_id|done].
    + rewrite decide_False by done. sat_go.
      eapply sat_mono; [eapply sat_seq_pos_rm; eauto using wf_sp|].
      intros c' (sp & -> & Hsp). sat_go.
      split; [|rewrite bool_decide_eq_true_2; naive_solver].
      to_upd c i acell_empty sp; upd_side W.
Qed.

Lemma sat_cells_pos_set c i p a :
  wf c -> abs_cells c !! i = Some a -> a_pos a = -1 -> 0 <= p ->
  sat (cells_pos_set c i p) (upd_to c i (c_has_shift c) (mk_acell p (a_ext a) 0 ∅)).
Proof.
  intros W Ha Hp Hp0. cell_start W Ha. destruct (Hemp Hp) as [HS Hd].
  rewrite Hp in *. rewrite HS in *. rewrite Hd in *.
  unfold cells_pos_set. sat_go.
  to_upd c i (mk_acell p (a_ext a) 0 ∅) (c_seq_pos c); try upd_side W.
  simpl. rewrite (list_insert_id (c_seq c)) by done. eapply sp_rep_move; eauto using wf_sp.
Qed.

Lemma sat_cells_ext_set c i e a :
  wf c -> abs_cells c !! i = Some a ->
  sat (cells_ext_set c i e)
    (upd_to c i (c_has_shift c) (mk_acell (a_pos a) e (a_shift a) (a_seq a))).
Proof.
  intros W Ha. cell_start W Ha. unfold cells_ext_set. sat_go.
  to_upd c i (mk_acell (a_pos a) e (a_shift a) (a_seq a)) (c_seq_pos c); try upd_side W.
  - rewrite !list_insert_id by done. apply W.
  - simpl. case_decide as Hd; [|symmetry; by eapply used_keep].
    symmetry. apply used_drop; [done|simpl in Hd; congruence].
Qed.

(** [pos_add]: shifting below zero empties the cell; [ext] is left as it was. *)
Definition acell_pos_add (d : Z) (a : acell) : acell :=
  if decide (a_pos a + d < 0) then mk_acell (-1) (a_ext a) 0 ∅
  else mk_acell (a_pos a + d) (a_ext a) (a_shift a + d) (a_seq a).

Definition int32 (z : Z) : Prop := INT32_MIN <= z <= INT32_MAX.
#[export] Instance int32_dec z : Decision (int32 z).
Proof. unfold int32. apply _. Defined.

Lemma sat_cells_pos_add c i d a :
  wf c -> abs_cells c !! i = Some a -> a_pos a <> -1 ->
  int32 (a_pos a + d) -> int32 (a_shift a + d) ->
  sat (cells_pos_add c i d) (fun r => upd_to c i true (acell_pos_add d a) r.1 /\
    r.2 = bool_decide (a_pos a + d < 0)).
Proof.
  intros W Ha Hp Hi1 Hi2. cell_start W Ha. unfold cells_pos_add, acell_pos_add. sat_go.
  eapply sat_mono; [eapply sat_seq_pos_rm; eauto using wf_sp|].
  intros c' (sp & -> & Hsp). sat_go. apply sat_i32; [done|]. sat_go.
  apply sat_i32; [done|]. sat_go.
  destruct (Z.ltb_spec (a_pos a + d) 0) as [Hlt|Hge'].
  - rewrite decide_True by done. sat_go. split; [|by rewrite bool_decide_eq_true_2].
    rewrite !list_insert_insert_eq.
    to_upd c i (mk_acell (-1) (a_ext a) 0 ∅) sp; upd_side W.
  - rewrite decide_False by lia. sat_go.
    eapply sat_mono; [eapply (sat_seq_pos_add _ i (a_pos a + d) (a_seq a)); simpl|].
    + eapply sp_rep_move; [done|done|apply list_lookup_insert_eq; lia].
    + apply list_lookup_insert_eq; lia.
    + done.
    + done.
    + intros c' (sp' & -> & Hsp'). sat_go.
      split; [|by rewrite bool_decide_eq_false_2 by lia].
      to_upd c i (mk_acell (a_pos a + d) (a_ext a) (a_shift a + d) (a_seq a)) sp'; upd_side W.
Qed.

Definition acell_pos_div (d : Z) (a : acell) : acell :=
  mk_acell (Z.quot (a_pos a) d) (a_ext a) (a_shift a + (a_pos a - Z.quot (a_pos a) d)) (a_seq a).

Lemma sat_cells_pos_div c i d a :
  wf c -> abs_cells c !! i = Some a -> a_pos a <> -1 -> 0 < d ->
  int32 (Z.quot (a_pos a) d) -> int32 (a_pos a - Z.quot (a_pos a) d) ->
  int32 (a_shift a + (a_pos a - Z.quot (a_pos a) d)) ->
  sat (cells_pos_div c i d) (upd_to c i true (acell_pos_div d a)).
Proof.
  intros W Ha Hp Hd Hi1 Hi2 Hi3. cell_start W Ha.
  assert (0 <= Z.quot (a_pos a) d) by (apply Z.quot_pos; lia).
  unfold cells_pos_div, acell_pos_div. sat_go.
  eapply sat_mono; [eapply sat_seq_pos_rm; eauto using wf_sp|].
  intros c' (sp & -> & Hsp). sat_go.
  destruct (Z.eqb_spec d 0); [lia|]. sat_go.
  apply sat_i32; [done|]. sat_go. apply sat_i32; [done|]. sat_go.
  apply sat_i32; [done|]. sat_go.
  eapply sat_mono; [eapply (sat_seq_pos_add _ i (Z.quot (a_pos a) d) (a_seq a)); simpl|].
  - eapply sp_rep_move; [done|done|apply list_lookup_insert_eq; lia].
  - apply list_lookup_insert_eq; lia.
  - done.
  - done.
  - intros c' (sp' & -> & Hsp'). sat_go.
    to_upd c i (mk_acell (Z.quot (a_pos a) d) (a_ext a)
      (a_shift a + (a_pos a - Z.quot (a_pos a) d)) (a_seq a)) sp'; upd_side W.
Qed.

(** [set]: the cell takes the saved position, extension and sequences; its own
    shift must be zero and stays. *)
Definition acell_set (b a : acell) : acell := mk_acell (a_pos b) (a_ext b) (a_shift a) (a_seq b).

Lemma sat_cells_set_at c other i j a b :
  wf c -> abs_cells c !! i = Some a -> abs_cells other !! j = Some b ->
  acell_ok b -> a_shift a = 0 ->
  sat (cells_set_at c other i j) (upd_to c i (c_has_shift c) (acell_set b a)).
Proof.
  intros W Ha Hb (Hge' & Hemp' & Hids') Hs0. cell_start W Ha.
  pose proof (proj1 (abs_lookup _ _ _) Hb) as (Hpos' & Hext' & Hshift' & Hseq').
  unfold cells_set_at. sat_go.
  set (c1 := if (a_pos a =? -1) && negb (a_pos b =? -1) then _ else c).
  set (c2 := if negb (a_pos a =? -1) && (a_pos b =? -1) then _ else c1).
  assert (Hc2 : c2 = with_used (if decide (a_pos b = -1) then c_used c ∖ {[i]}
                                else {[i]} ∪ c_used c) c).
  { subst c2 c1. destruct (Z.eqb_spec (a_pos a) (-1)) as [E|E];
      destruct (Z.eqb_spec (a_pos b) (-1)) as [E'|E']; simpl; case_decide; try done.
    - rewrite used_drop by congruence. by destruct c.
    - erewrite used_keep by eauto. by destruct c. }
  rewrite Hc2. clear c1 c2 Hc2.
  set (u := if decide _ then _ else _).
  eapply sat_mono with (P := fun c' => exists sp, c' = with_seq_pos sp (with_used u c) /\
    sp_rep sp (c_pos c) (<[i := ∅]> (c_seq c))).
  { destruct (Z.eqb_spec (a_pos a) (-1)) as [E|E]; simpl.
    - exists (c_seq_pos c). split; [by destruct c|].
      rewrite list_insert_id by (destruct (Hemp E) as [HS _]; congruence). apply W.
    - apply (sat_seq_pos_rm (with_used u c) i (a_pos a) (a_seq a)); [apply W|done..]. }
  intros c' (sp & -> & Hsp). sat_go.
  eapply sat_mono with (P := fun c' => exists sp', c' = mk_cells (c_has_shift c) u
    (<[i := a_pos b]> (c_pos c)) (<[i := a_ext b]> (c_ext c)) (c_shift c)
    (<[i := a_seq b]> (c_seq c)) sp' /\
    sp_rep sp' (<[i := a_pos b]> (c_pos c)) (<[i := a_seq b]> (c_seq c))).
  { assert (Hmv : sp_rep sp (<[i := a_pos b]> (c_pos c)) (<[i := ∅]> (c_seq c)))
      by (eapply sp_rep_move; [done|done|apply list_lookup_insert_eq; lia]).
    destruct (Z.eqb_spec (a_pos b) (-1)) as [E|E]; simpl.
    - exists sp. split; [done|]. by destruct (Hemp' E) as [-> _].
    - eapply sat_mono; [eapply (sat_seq_pos_add _ i (a_pos b) (a_seq b)); simpl|].
      + by rewrite list_insert_insert_eq.
      + apply list_lookup_insert_eq; lia.
      + apply list_lookup_insert_eq; lia.
      + done.
      + intros c' (sp' & -> & Hsp'). by exists sp'. }
  intros c' (sp' & -> & Hsp'). sat_go. apply sat_assert; [by apply Z.eqb_eq|].
  subst u. to_upd c i (acell_set b a) sp'; unfold acell_set; try upd_side W.
Qed.
