(* ===== verification/KvCellsSpec.v ===== *)
(** * [llama_kv_cells] against its abstract specification

    The class is specified by the list of its cells alone ([abs_cells]): the
    queries are characterised by that list, every editing method is the update of
    one cell, and a method stops exactly when its precondition on that cell fails.
    [cells_run_refines] composes this over any sequence of method calls. *)

From S2P Require Import Prelude KvCells KvCellsInv.

(** ** Whole-object operations *)

Lemma occ_none_rep n m : length m = Z.to_nat LLAMA_MAX_SEQ ->
  (forall i x, m !! i = Some x -> x = ∅) ->
  forall pos, sp_rep m pos (replicate n ∅).
Proof.
  intros Hl He pos. split; [done|]. intros s x p Hx Hs.
  rewrite (He _ _ Hx), lookup_empty, occ_empty. done.
Qed.

Lemma wf_reset c : wf (cells_reset c).
Proof.
  unfold cells_reset. split; simpl; rewrite ?length_replicate; try done.
  - intros i p [-> _]%lookup_replicate. lia.
  - intros i. split; [set_solver|]. intros (p & [-> _]%lookup_replicate & ?). done.
  - intros i [_ Hi]%lookup_replicate. by rewrite !lookup_replicate_2.
  - intros i S s [-> _]%lookup_replicate. set_solver.
  - apply occ_none_rep; [by rewrite length_replicate|].
    intros i x [-> _]%lookup_replicate. done.
Qed.

Lemma abs_reset c : abs_cells (cells_reset c) = replicate (cells_size c) acell_empty.
Proof.
  unfold abs_cells, cells_reset. simpl.
  by rewrite !zip_with_replicate.
Qed.

Lemma wf_resize n c : wf (cells_resize n c).
Proof. apply wf_reset. Qed.

Lemma abs_resize n c : abs_cells (cells_resize n c) = replicate n acell_empty.
Proof.
  unfold cells_resize. rewrite abs_reset. unfold cells_size. simpl. by rewrite length_resize.
Qed.

Definition acell_reset_shift (a : acell) : acell := mk_acell (a_pos a) (a_ext a) 0 (a_seq a).

Lemma wf_reset_shift c : wf c -> wf (cells_reset_shift c).
Proof.
  intros W. unfold cells_reset_shift.
  split; simpl; rewrite ?length_replicate; try apply W.
  intros i Hi. destruct (wf_empty c W i Hi) as [? Hd]. split; [done|].
  apply lookup_replicate_2. by eapply lookup_lt_Some.
Qed.

Lemma abs_reset_shift c :
  wf c -> abs_cells (cells_reset_shift c) = acell_reset_shift <$> abs_cells c.
Proof.
  intros W. apply list_eq. intros i. rewrite list_lookup_fmap.
  destruct (decide (i < length (c_pos c))%nat) as [Hi|Hi].
  - destruct (abs_lookup_lt c i W Hi) as (a & Ha & _). rewrite Ha. simpl.
    apply abs_lookup. apply abs_lookup in Ha as (? & ? & ? & ?).
    unfold cells_reset_shift. simpl. split_and!; try done.
    apply lookup_replicate_2. by eapply lookup_lt_Some.
  - pose proof (wf_reset_shift c W) as W'.
    rewrite !lookup_ge_None_2; [done| |]; rewrite length_abs by done; simpl; lia.
Qed.

(** ** Queries *)

(** Cell [a] holds sequence [s]. *)
Definition holds (s : Z) (a : acell) : Prop := s ∈ a_seq a.
#[export] Instance holds_dec s a : Decision (holds s a).
Proof. unfold holds. apply _. Defined.

(** The positions of sequence [s] in a list of cells. *)
Definition seq_positions (l : list acell) (s : Z) : list Z :=
  a_pos <$> filter (holds s) l.

Lemma elem_of_seq_positions l s p :
  p ∈ seq_positions l s <-> exists i a, l !! i = Some a /\ s ∈ a_seq a /\ a_pos a = p.
Proof.
  unfold seq_positions. rewrite list_elem_of_fmap. split.
  - intros (a & -> & [Hs Ha]%list_elem_of_filter).
    apply list_elem_of_lookup in Ha as [i Hi]. eauto.
  - intros (i & a & Hi & Hs & <-). exists a. split; [done|].
    apply list_elem_of_filter. split; [done|]. by eapply list_elem_of_lookup_2.
Qed.

(** The keys of [seq_pos\[s\]] are the positions of [s]. *)
Lemma elem_of_map_keys (m : gmap Z Z) p : p ∈ map_keys m <-> is_Some (m !! p).
Proof.
  unfold map_keys. rewrite list_elem_of_fmap. split.
  - intros ([q n] & -> & H%elem_of_map_to_list). by exists n.
  - intros [n H]. exists (p, n). split; [done|]. by apply elem_of_map_to_list.
Qed.

Lemma seq_pos_get_ok c s :
  wf c -> 0 <= s < LLAMA_MAX_SEQ ->
  exists m, seq_pos_get c s = Ok m /\
    (forall p, p ∈ map_keys m <-> p ∈ seq_positions (abs_cells c) s) /\
    (forall p n, m !! p = Some n -> 0 < n).
Proof.
  intros W Hs. pose proof (wf_sp c W) as [Hl Hrep].
  destruct (lookup_lt_is_Some_2 (c_seq_pos c) (Z.to_nat s)) as [m Hm]; [lia|].
  exists m. unfold seq_pos_get, vec_get. rewrite (proj2 (bit_ok_true s)), Hm by done.
  split; [done|]. split.
  - intros p. rewrite elem_of_map_keys, (Hrep s m p Hm Hs), elem_of_seq_positions.
    trans (0 < occ (c_pos c) (c_seq c) s p)%nat.
    { unfold count_entry. case_decide; split; intros; try lia; [|by eexists].
      by destruct H0 as [? ?]. }
    rewrite occ_pos by (symmetry; apply W). split.
    + intros (i & S & Hp & HS & Hin).
      destruct (abs_lookup_lt c i W) as (a & Ha & _); [by eapply lookup_lt_Some|].
      exists i, a. split; [done|]. apply abs_lookup in Ha as (? & _ & _ & ?).
      split; congruence.
    + intros (i & a & Ha & Hin & <-). apply abs_lookup in Ha as (? & _ & _ & ?). eauto.
  - intros p n. rewrite (Hrep s m p Hm Hs). unfold count_entry. case_decide; [done|].
    intros [= <-]. lia.
Qed.

Lemma list_min_ext l k : (forall x, x ∈ l <-> x ∈ k) -> list_min l = list_min k.
Proof.
  intros H. destruct (list_min l) as [m|] eqn:E.
  - apply list_min_Some in E as [E1 E2]. symmetry. apply list_min_Some.
    split; [by apply H|]. intros x Hx. apply E2. by apply H.
  - apply list_min_None in E as ->. symmetry. apply list_min_None.
    destruct k as [|x k]; [done|]. exfalso. apply (not_elem_of_nil x), H. set_solver.
Qed.

Lemma list_max_ext l k : (forall x, x ∈ l <-> x ∈ k) -> list_max l = list_max k.
Proof.
  intros H. destruct (list_max l) as [m|] eqn:E.
  - apply list_max_Some in E as [E1 E2]. symmetry. apply list_max_Some.
    split; [by apply H|]. intros x Hx. apply E2. by apply H.
  - apply list_max_None in E as ->. symmetry. apply list_max_None.
    destruct k as [|x k]; [done|]. exfalso. apply (not_elem_of_nil x), H. set_solver.
Qed.

Definition min_or_m1 (l : list Z) : Z := default (-1) (list_min l).
Definition max_or_m1 (l : list Z) : Z := default (-1) (list_max l).

Lemma cells_seq_pos_min_ok c s :
  wf c -> 0 <= s < LLAMA_MAX_SEQ ->
  cells_seq_pos_min c s = Ok (min_or_m1 (seq_positions (abs_cells c) s)).
Proof.
  intros W Hs. destruct (seq_pos_get_ok c s W Hs) as (m & Hm & Hk & Hn).
  unfold cells_seq_pos_min, min_or_m1. rewrite Hm.
  assert ((0 <=? s) = true) as -> by lia. assert ((s <? LLAMA_MAX_SEQ) = true) as -> by lia.
  simpl. rewrite <- (list_min_ext _ _ Hk).
  destruct (list_min (map_keys m)) as [p|] eqn:E; [|done]. simpl.
  apply list_min_Some in E as [E _]. apply elem_of_map_keys in E as [n E].
  rewrite E. simpl. apply Hn in E. by assert ((0 <? n) = true) as -> by lia.
Qed.

Lemma cells_seq_pos_max_ok c s :
  wf c -> 0 <= s < LLAMA_MAX_SEQ ->
  cells_seq_pos_max c s = Ok (max_or_m1 (seq_positions (abs_cells c) s)).
Proof.
  intros W Hs. destruct (seq_pos_get_ok c s W Hs) as (m & Hm & Hk & Hn).
  unfold cells_seq_pos_max, max_or_m1. rewrite Hm.
  assert ((0 <=? s) = true) as -> by lia. assert ((s <? LLAMA_MAX_SEQ) = true) as -> by lia.
  simpl. rewrite <- (list_max_ext _ _ Hk).
  destruct (list_max (map_keys m)) as [p|] eqn:E; [|done]. simpl.
  apply list_max_Some in E as [E _]. apply elem_of_map_keys in E as [n E].
  rewrite E. simpl. apply Hn in E. by assert ((0 <? n) = true) as -> by lia.
Qed.

Lemma cells_is_empty_ok c i a :
  wf c -> abs_cells c !! i = Some a -> cells_is_empty c i = Ok (a_pos a =? -1).
Proof.
  intros W Ha. destruct (abs_lookup_ok c i a W Ha) as [(Hge & _) _].
  apply abs_lookup in Ha as (Hp & _). unfold cells_is_empty, vec_get. rewrite Hp. simpl.
  assert (((a_pos a <? 0) && (a_pos a =? -1) || (0 <=? a_pos a)) = true) as -> by lia. done.
Qed.

(** A used cell index, in the order of [std::set]. *)
Lemma elem_of_used_list c i :
  wf c -> i ∈ used_list c <->
  0 <= i /\ exists a, abs_cells c !! Z.to_nat i = Some a /\ a_pos a <> -1.
Proof.
  intros W. unfold used_list. rewrite list_elem_of_fmap. split.
  - intros (j & -> & Hj%elem_of_elements). split; [lia|].
    apply (wf_used c W) in Hj as (p & Hp & Hne). rewrite Nat2Z.id.
    destruct (abs_lookup_lt c j W) as (a & Ha & _); [by eapply lookup_lt_Some|].
    exists a. split; [done|]. apply abs_lookup in Ha as (? & _). congruence.
  - intros (Hi & a & Ha & Hne). exists (Z.to_nat i). split; [lia|].
    apply elem_of_elements, (wf_used c W). apply abs_lookup in Ha as (? & _). eauto.
Qed.

(** First and last non-empty cell, over the indexed list of cells. *)
Definition used_indices (l : list acell) : list Z :=
  omap (fun ia => if decide (a_pos ia.2 = -1) then None else Some (Z.of_nat ia.1))
    (imap pair l).

Lemma elem_of_used_indices l i :
  i ∈ used_indices l <-> 0 <= i /\ exists a, l !! Z.to_nat i = Some a /\ a_pos a <> -1.
Proof.
  unfold used_indices. rewrite list_elem_of_omap. split.
  - intros ([j a] & Hj & H). apply list_elem_of_lookup in Hj as [k Hk].
    rewrite list_lookup_imap in Hk. destruct (l !! k) as [b|] eqn:E; [|done].
    simplify_eq/=. case_decide; simplify_eq. split; [lia|]. rewrite Nat2Z.id. eauto.
  - intros (Hi & a & Ha & Hne). exists (Z.to_nat i, a). split.
    + apply list_elem_of_lookup. exists (Z.to_nat i). by rewrite list_lookup_imap, Ha.
    + simpl. rewrite decide_False by done. f_equal. lia.
Qed.

Lemma used_list_indices c i : wf c -> i ∈ used_list c <-> i ∈ used_indices (abs_cells c).
Proof. intros W. by rewrite elem_of_used_list, elem_of_used_indices. Qed.

Lemma cells_used_min_ok c :
  wf c -> cells_used_min c = default 0 (list_min (used_indices (abs_cells c))).
Proof.
  intros W. unfold cells_used_min.
  rewrite (list_min_ext _ (used_indices (abs_cells c))) by (intros; by apply used_list_indices).
  by destruct (list_min _).
Qed.

Lemma cells_used_max_p1_ok c :
  wf c -> cells_used_max_p1 c = default 0 ((fun i => i + 1) <$> list_max (used_indices (abs_cells c))).
Proof.
  intros W. unfold cells_used_max_p1.
  rewrite (list_max_ext _ (used_indices (abs_cells c))) by (intros; by apply used_list_indices).
  by destruct (list_max _).
Qed.

Lemma cells_get_used_ok c :
  wf c -> cells_get_used c = length (filter (fun a => a_pos a <> -1) (abs_cells c)).
Proof.
  intros W. unfold cells_get_used.
  assert (HU : forall l k, (forall i, i ∈ k <-> exists a, l !! i = Some a /\ a_pos a <> -1) ->
            size (k : gset nat) = length (filter (fun a => a_pos a <> -1) l)).
  { clear. intros l. induction l as [|a l IH] using rev_ind; intros k Hk.
    - assert (k = ∅) as ->; [|by rewrite size_empty].
      apply set_eq. intros i. rewrite Hk. set_solver.
    - rewrite filter_app, length_app. simpl.
      assert (Hout : forall i, i ∈ k ∖ {[length l]} <-> exists b, l !! i = Some b /\ a_pos b <> -1).
      { intros i. rewrite elem_of_difference, elem_of_singleton, Hk. split.
        - intros [(b & Hb & ?) Hne]. exists b. split; [|done].
          apply lookup_app_Some in Hb as [?|[Hge Hb]]; [done|].
          apply list_lookup_singleton_Some in Hb as [? _]. lia.
        - intros (b & Hb & ?). pose proof (lookup_lt_Some _ _ _ Hb).
          split; [|lia]. exists b. split; [|done]. by apply lookup_app_l_Some. }
      rewrite <- (IH _ Hout).
      assert (Hl : length l ∈ k <-> a_pos a <> -1).
      { rewrite Hk. rewrite list_lookup_middle by done. split; [naive_solver|eauto]. }
      rewrite filter_cons. case_decide as Hd; simpl.
      + rewrite size_difference by set_solver. rewrite size_singleton.
        assert (size k <> 0%nat); [|lia]. intros H0%size_empty_inv. set_solver.
      + rewrite size_difference_alt. replace (k ∩ {[length l]}) with (∅ : gset nat) by set_solver.
        rewrite size_empty. lia. }
  apply HU. intros i. rewrite (wf_used c W). split.
  - intros (p & Hp & Hne). destruct (abs_lookup_lt c i W) as (a & Ha & _);
      [by eapply lookup_lt_Some|]. exists a. split; [done|].
    apply abs_lookup in Ha as (? & _). congruence.
  - intros (a & Ha & Hne). apply abs_lookup in Ha as (? & _). eauto.
Qed.

(** The only sequence of a cell that holds exactly one. *)
Lemma cells_seq_get_ok c i a s :
  wf c -> abs_cells c !! i = Some a -> a_seq a = {[s]} -> cells_seq_get c i = Ok s.
Proof.
  intros W Ha HS. destruct (abs_lookup_ok c i a W Ha) as [(_ & _ & Hids) _].
  apply abs_lookup in Ha as (_ & _ & _ & Hq). unfold cells_seq_get, vec_get.
  rewrite Hq. simpl. rewrite HS, size_singleton. simpl. f_equal.
  assert (Hs : 0 <= s < LLAMA_MAX_SEQ) by (apply Hids; set_solver).
  destruct (filter (fun t => t ∈ ({[s]} : gset Z)) all_seq_ids) as [|t r] eqn:E.
  - exfalso. assert (s ∈ filter (fun t => t ∈ ({[s]} : gset Z)) all_seq_ids) as H.
    { apply list_elem_of_filter. split; [set_solver|by apply elem_of_all_seq_ids]. }
    rewrite E in H. set_solver.
  - simpl. assert (t ∈ filter (fun t => t ∈ ({[s]} : gset Z)) all_seq_ids) as H
      by (rewrite E; set_solver).
    apply list_elem_of_filter in H as [H _]. set_solver.
Qed.

(** ** Save and restore *)

Definition lens (r : llama_kv_cells) (n : nat) : Prop :=
  length (c_pos r) = n /\ length (c_ext r) = n /\ length (c_shift r) = n /\ length (c_seq r) = n.

Lemma sat_cells_cp_at c r n j idx a :
  lens r n -> (j < n)%nat -> abs_cells c !! idx = Some a -> a_shift a = 0 ->
  (forall d, c_shift r !! j = Some d -> d = 0) ->
  sat (cells_cp_at c r j idx) (fun r' =>
    lens r' n /\ c_shift r' = c_shift r /\ abs_cells r' = <[j := a]> (abs_cells r)).
Proof.
  intros (L1 & L2 & L3 & L4) Hj Ha H0 Hz.
  apply abs_lookup in Ha as (H1 & H2 & H3 & H4). rewrite H0 in *.
  unfold cells_cp_at, put_pos, put_ext, put_seq.
  repeat (simpl; match goal with
    | |- sat (_ ≫= _) _ => apply sat_bind
    | |- sat (vec_get _ _) _ => eapply sat_vec_get; [by eauto|]
    | |- sat (vec_set _ _ _) _ => apply sat_vec_set; [simpl; lia|]
    | |- sat (Ok _) _ => apply sat_ok
    end).
  unfold lens. simpl. rewrite !length_insert. split_and!; try done.
  unfold abs_cells. simpl.
  destruct (lookup_lt_is_Some_2 (c_shift r) j) as [d Hd]; [lia|].
  pose proof (Hz d Hd) as ->. rewrite <- (list_insert_id (c_shift r) j 0) at 1 by done.
  rewrite <- !insert_zip_with. simpl. rewrite <- H0. by destruct a.
Qed.

(** [cp(idxs)] copies the named cells; its index stays empty. *)
Lemma sat_cells_cp c idxs :
  (forall idx, idx ∈ idxs -> exists a, abs_cells c !! idx = Some a /\ a_shift a = 0) ->
  sat (cells_cp c idxs) (fun r => lens r (length idxs) /\
    forall k idx, idxs !! k = Some idx -> abs_cells r !! k = abs_cells c !! idx).
Proof.
  intros Hidx. set (n := length idxs).
  eapply sat_mono; [apply (sat_for _ (fun j r => lens r n /\ c_shift r = replicate n 0 /\
    forall k idx, (k < j)%nat -> idxs !! k = Some idx -> abs_cells r !! k = abs_cells c !! idx))|].
  - split_and!; [|..|intros; lia].
    + unfold lens, cells_resize, cells_reset, cells_size. simpl.
      by rewrite !length_replicate, !length_resize.
    + unfold cells_resize, cells_reset, cells_size. simpl. by rewrite length_resize.
  - intros j r Hj (HL & Hsh & Hk). apply sat_bind.
    destruct (lookup_lt_is_Some_2 idxs j Hj) as [idx Hi].
    eapply sat_vec_get; [done|].
    destruct (Hidx idx) as (a & Ha & Hs); [by eapply list_elem_of_lookup_2|].
    eapply sat_mono; [eapply sat_cells_cp_at; eauto|].
    { intros d. rewrite Hsh. by intros [-> _]%lookup_replicate. }
    intros r' (HL' & Hsh' & Hab). split_and!; [done|congruence|].
    intros k idx' Hkj Hk'. rewrite Hab.
    destruct (decide (k = j)) as [->|Hne].
    + rewrite list_lookup_insert_eq; [congruence|].
      unfold abs_cells. rewrite !length_zip_with.
      destruct HL as (-> & -> & -> & ->). subst n. lia.
    + rewrite list_lookup_insert_ne by done. apply Hk; [lia|done].
  - intros r (HL & _ & Hk). split; [done|]. intros k idx Hki. apply Hk; [|done].
    by eapply lookup_lt_Some.
Qed.

(** [set(idxs, saved)] writes the saved cells, for a saved state whose [k]-th cell is
    the cell wanted at [idxs\[k\]]. *)
Lemma sat_cells_set c idxs saved (g : nat -> acell) :
  wf c -> length (c_pos saved) = length idxs ->
  (forall k idx, idxs !! k = Some idx ->
     abs_cells saved !! k = Some (g idx) /\ acell_ok (g idx) /\ a_shift (g idx) = 0 /\
     exists a, abs_cells c !! idx = Some a /\ a_shift a = 0) ->
  sat (cells_set c idxs saved) (fun c' => wf c' /\ c_has_shift c' = c_has_shift c /\
    forall i, abs_cells c' !! i = if decide (i ∈ idxs) then Some (g i) else abs_cells c !! i).
Proof.
  intros W Hlen Hg. unfold cells_set. apply sat_bind.
  apply sat_assert; [by apply bool_decide_eq_true|]. rewrite Hlen.
  eapply sat_mono; [apply (sat_for _ (fun j c' => wf c' /\ c_has_shift c' = c_has_shift c /\
    forall i, abs_cells c' !! i =
      if decide (i ∈ take j idxs) then Some (g i) else abs_cells c !! i))|].
  - split_and!; [done|done|]. intros i. rewrite decide_False; [done|]. set_solver.
  - intros j c' Hj (W' & Hb & Hc). apply sat_bind.
    destruct (lookup_lt_is_Some_2 idxs j Hj) as [idx Hi].
    eapply sat_vec_get; [done|].
    destruct (Hg j idx Hi) as (Hs & Hok & Hz & a & Ha & Haz).
    assert (exists a', abs_cells c' !! idx = Some a' /\ a_shift a' = 0) as (a' & Ha' & Hz').
    { rewrite Hc. case_decide; eauto. }
    eapply sat_mono; [eapply (sat_cells_set_at _ _ _ _ a'); eauto|].
    intros c'' (W'' & Hab & Hb''). split_and!; [done|congruence|].
    assert (acell_set (g idx) a' = g idx) as Hset.
    { unfold acell_set. rewrite Hz', <- Hz. by destruct (g idx). }
    rewrite Hset in Hab. intros i. rewrite Hab.
    rewrite Nat.add_1_r, (take_S_r _ _ idx) by done.
    destruct (decide (i = idx)) as [->|Hne].
    + rewrite list_lookup_insert_eq by (by eapply lookup_lt_Some).
      rewrite decide_True; [done|set_solver].
    + rewrite list_lookup_insert_ne, Hc by done.
      apply decide_ext. set_solver.
  - intros c' (W' & Hb & Hc). split_and!; [done|done|]. intros i. rewrite Hc.
    by rewrite take_ge.
Qed.

(** Restoring cells saved by [cp] into a state that differs from the saved one
    only in those cells gives the saved state back, indices included. *)
Lemma cells_cp_set c idxs c' :
  wf c -> wf c' -> c_has_shift c' = c_has_shift c ->
  (forall idx, idx ∈ idxs -> exists a, abs_cells c !! idx = Some a /\ a_shift a = 0) ->
  (forall idx, idx ∈ idxs -> exists a, abs_cells c' !! idx = Some a /\ a_shift a = 0) ->
  (forall i, i ∉ idxs -> abs_cells c' !! i = abs_cells c !! i) ->
  (saved ← cells_cp c idxs; cells_set c' idxs saved) = Ok c.
Proof.
  intros W W' Hb Hidx Hidx' Hout.
  assert (sat (saved ← cells_cp c idxs; cells_set c' idxs saved) (fun r => r = c)) as H;
    [|apply sat_exists in H as (r & -> & ->); done].
  eapply sat_step; [by apply sat_cells_cp|]. intros saved ((HL & _) & Hk).
  eapply sat_mono; [eapply (sat_cells_set _ _ _
    (fun i => default acell_empty (abs_cells c !! i))); [done|done|]|].
  - intros k idx Hi. pose proof (list_elem_of_lookup_2 _ _ _ Hi) as Hin.
    destruct (Hidx idx Hin) as (a & Ha & Hz). rewrite (Hk k idx Hi), Ha. simpl.
    split_and!; [done|by apply (abs_lookup_ok c idx a)|done|by apply Hidx'].
  - intros r (Wr & Hbr & Hr). apply wf_abs_eq; [done|done| |congruence].
    apply list_eq. intros i. rewrite Hr. case_decide as Hi; [|by apply Hout].
    destruct (Hidx i Hi) as (a & -> & _). done.
Qed.

(** ** The methods as commands, and the abstract machine they refine *)

Inductive cell_cmd : Type :=
  | CRm (i : nat)
  | CSeqRm (i : nat) (s : Z)
  | CSeqKeep (i : nat) (s : Z)
  | CSeqAdd (i : nat) (s : Z)
  | CPosSet (i : nat) (p : Z)
  | CExtSet (i : nat) (e : llama_kv_cell_ext)
  | CPosAdd (i : nat) (d : Z)
  | CPosDiv (i : nat) (d : Z)
  | CResetShift
  | CReset.

Definition run_cmd (m : cell_cmd) (c : llama_kv_cells) : res llama_kv_cells :=
  match m with
  | CRm i => cells_rm c i
  | CSeqRm i s => r ← cells_seq_rm c i s; Ok r.1
  | CSeqKeep i s => r ← cells_seq_keep c i s; Ok r.1
  | CSeqAdd i s => cells_seq_add c i s
  | CPosSet i p => cells_pos_set c i p
  | CExtSet i e => cells_ext_set c i e
  | CPosAdd i d => r ← cells_pos_add c i d; Ok r.1
  | CPosDiv i d => cells_pos_div c i d
  | CResetShift => Ok (cells_reset_shift c)
  | CReset => Ok (cells_reset c)
  end.

Definition run_cmds (ms : list cell_cmd) (c : llama_kv_cells) : res llama_kv_cells :=
  mfor (fun c m => run_cmd m c) ms c.

(** The abstract machine: [has_shift] and the list of cells. *)
Definition astate : Type := bool * list acell.
Definition abs_state (c : llama_kv_cells) : astate := (c_has_shift c, abs_cells c).

(** Update cell [i] to [f a] when [pre a] holds. *)
Definition aupd (st : astate) (i : nat) (b : bool) (pre : acell -> Prop)
    `{!forall a, Decision (pre a)} (f : acell -> acell) : option astate :=
  a ← st.2 !! i; if decide (pre a) then Some (b, <[i := f a]> st.2) else None.

Definition id_ok (s : Z) : Prop := 0 <= s < LLAMA_MAX_SEQ.

Definition abs_cmd (m : cell_cmd) (st : astate) : option astate :=
  match m with
  | CRm i => aupd st i st.1 (fun a => a_pos a <> -1) (fun _ => acell_empty)
  | CSeqRm i s => aupd st i st.1 (fun a => s ∈ a_seq a) (acell_seq_rm s)
  | CSeqKeep i s =>
      aupd st i st.1 (fun a => id_ok s /\ (a_seq a = ∅ -> a_pos a = -1)) (acell_seq_keep s)
  | CSeqAdd i s => aupd st i st.1 (fun a => a_pos a <> -1 /\ id_ok s /\ s ∉ a_seq a)
      (fun a => mk_acell (a_pos a) (a_ext a) (a_shift a) ({[s]} ∪ a_seq a))
  | CPosSet i p => aupd st i st.1 (fun a => a_pos a = -1) (fun a => mk_acell p (a_ext a) 0 ∅)
  | CExtSet i e => aupd st i st.1 (fun _ => True)
      (fun a => mk_acell (a_pos a) e (a_shift a) (a_seq a))
  | CPosAdd i d => aupd st i true
      (fun a => a_pos a <> -1 /\ int32 (a_pos a + d) /\ int32 (a_shift a + d)) (acell_pos_add d)
  | CPosDiv i d => aupd st i true
      (fun a => a_pos a <> -1 /\ int32 (Z.quot (a_pos a) d) /\
        int32 (a_pos a - Z.quot (a_pos a) d) /\
        int32 (a_shift a + (a_pos a - Z.quot (a_pos a) d))) (acell_pos_div d)
  | CResetShift => Some (false, acell_reset_shift <$> st.2)
  | CReset => Some (false, replicate (length st.2) acell_empty)
  end.

Fixpoint abs_cmds (ms : list cell_cmd) (st : astate) : option astate :=
  match ms with
  | [] => Some st
  | m :: ms => st ← abs_cmd m st; abs_cmds ms st
  end.

(** What the class leaves to its callers: positions written are not negative, and
    the divisor of [pos_div] is positive. *)
Definition cmd_legal (m : cell_cmd) : Prop :=
  match m with CPosSet _ p => 0 <= p | CPosDiv _ d => 0 < d | _ => True end.

Definition refines (r : res llama_kv_cells) (o : option astate) : Prop :=
  match o with
  | Some st => sat r (fun c' => wf c' /\ abs_state c' = st)
  | None => exists e, r = Err e
  end.

Lemma refines_upd r c i b a :
  sat r (upd_to c i b a) -> refines r (Some (b, <[i := a]> (abs_cells c))).
Proof.
  intros H. eapply sat_mono; [exact H|]. intros c' (W & E & Eb).
  split; [done|]. unfold abs_state. congruence.
Qed.

Lemma refines_upd_fst {B} (r : res (llama_kv_cells * B)) c i b a (P : llama_kv_cells * B -> Prop) :
  sat r (fun x => upd_to c i b a x.1 /\ P x) ->
  refines (x ← r; Ok x.1) (Some (b, <[i := a]> (abs_cells c))).
Proof.
  intros H. apply refines_upd. eapply sat_step; [exact H|]. intros x [Hx _]. done.
Qed.

(** A cell index outside the vectors. *)
Lemma lookup_none c i :
  wf c -> abs_cells c !! i = None -> c_pos c !! i = None /\ c_seq c !! i = None /\ c_ext c !! i = None.
Proof.
  intros W H%lookup_ge_None. rewrite length_abs in H by done. cell_lens W.
  split_and!; apply lookup_ge_None_2; lia.
Qed.

Lemma bit_test_cases S s :
  (id_ok s /\ bit_test S s = Ok (bool_decide (s ∈ S))) \/ (~ id_ok s /\ bit_test S s = Err OutOfRange).
Proof.
  unfold bit_test. destruct (bit_ok s) eqn:E; [left|right].
  - by apply bit_ok_true in E.
  - split; [|done]. intros H%bit_ok_true. congruence.
Qed.

Lemma not_m1_false : not_m1 (-1) = false.
Proof. done. Qed.

Lemma i32_err z : ~ int32 z -> i32 z = Err SignedOverflow.
Proof.
  intros H. unfold i32, int32 in *. destruct ((INT32_MIN <=? z) && (z <=? INT32_MAX)) eqn:E; [|done].
  exfalso. apply H. lia.
Qed.

Lemma i32_ok z : int32 z -> i32 z = Ok z.
Proof.
  intros H. unfold i32, int32 in *.
  assert ((INT32_MIN <=? z) && (z <=? INT32_MAX) = true) as ->; [|done].
  apply andb_true_intro. split; lia.
Qed.

(** A method on a cell whose precondition fails stops. *)
Ltac stops := unfold vec_get; repeat match goal with H : _ !! _ = _ |- _ => rewrite H end;
  simpl; eauto.

Lemma cell_stops c i a :
  wf c -> abs_cells c !! i = Some a ->
  vec_get (c_pos c) i = Ok (a_pos a) /\ vec_get (c_seq c) i = Ok (a_seq a) /\
  vec_get (c_shift c) i = Ok (a_shift a).
Proof. intros W Ha. apply abs_lookup in Ha as (? & ? & ? & ?). unfold vec_get. stops. Qed.

Lemma seq_pos_rm_cell c i a :
  wf c -> abs_cells c !! i = Some a ->
  exists sp, cells_seq_pos_rm c i = Ok (with_seq_pos sp c).
Proof.
  intros W Ha. cell_start W Ha.
  assert (sat (cells_seq_pos_rm c i) (fun c' => exists sp, c' = with_seq_pos sp c)) as H'.
  { eapply sat_mono; [eapply sat_seq_pos_rm; eauto using wf_sp|]. naive_solver. }
  apply sat_exists in H' as (c' & -> & sp & ->). eauto.
Qed.

Lemma pos_add_stops c i d a :
  wf c -> abs_cells c !! i = Some a ->
  ~ (a_pos a <> -1 /\ int32 (a_pos a + d) /\ int32 (a_shift a + d)) ->
  exists e, cells_pos_add c i d = Err e.
Proof.
  intros W Ha Hn. destruct (cell_stops c i a W Ha) as (Hp & _ & Hs).
  destruct (abs_lookup_ok c i a W Ha) as [_ Hi].
  unfold cells_pos_add. rewrite Hp. simpl.
  destruct (decide (a_pos a = -1)) as [->|Hm]; [simpl; eauto|].
  rewrite (not_m1_true _ Hm). simpl.
  destruct (seq_pos_rm_cell c i a W Ha) as [sp ->]. simpl.
  destruct (decide (int32 (a_pos a + d))) as [H1|H1]; [|rewrite i32_err by done; simpl; eauto].
  rewrite (i32_ok _ H1). simpl.
  unfold put_pos, vec_set. rewrite decide_True by done. simpl. rewrite Hs. simpl.
  rewrite i32_err; [simpl; eauto|]. tauto.
Qed.

Lemma pos_div_stops c i d a :
  wf c -> abs_cells c !! i = Some a -> 0 < d ->
  ~ (a_pos a <> -1 /\ int32 (Z.quot (a_pos a) d) /\ int32 (a_pos a - Z.quot (a_pos a) d) /\
     int32 (a_shift a + (a_pos a - Z.quot (a_pos a) d))) ->
  exists e, cells_pos_div c i d = Err e.
Proof.
  intros W Ha Hd Hn. destruct (cell_stops c i a W Ha) as (Hp & _ & Hs).
  destruct (abs_lookup_ok c i a W Ha) as [_ Hi].
  unfold cells_pos_div. rewrite Hp. simpl.
  destruct (decide (a_pos a = -1)) as [->|Hm]; [simpl; eauto|].
  rewrite (not_m1_true _ Hm). simpl.
  destruct (seq_pos_rm_cell c i a W Ha) as [sp ->]. simpl.
  destruct (Z.eqb_spec d 0); [lia|]. simpl.
  destruct (decide (int32 (Z.quot (a_pos a) d))) as [H1|H1]; [|rewrite i32_err by done; simpl; eauto].
  rewrite (i32_ok _ H1). simpl.
  unfold put_pos, vec_set. rewrite decide_True by done. simpl. rewrite Hs. simpl.
  destruct (decide (int32 (a_pos a - Z.quot (a_pos a) d))) as [H2|H2];
    [|rewrite i32_err by done; simpl; eauto].
  rewrite (i32_ok _ H2). simpl.
  rewrite i32_err; [simpl; eauto|]. tauto.
Qed.

Lemma run_cmd_refines m c :
  wf c -> cmd_legal m -> refines (run_cmd m c) (abs_cmd m (abs_state c)).
Proof.
  intros W L. destruct m as [i|i s|i s|i s|i p|i e|i d|i d| |]; simpl in L |- *;
    unfold aupd; simpl;
    try (destruct (abs_cells c !! i) as [a|] eqn:Ha; simpl;
      [|destruct (lookup_none c i W Ha) as (E1 & E2 & E3); simpl;
        unfold cells_rm, cells_seq_rm, cells_seq_keep, cells_seq_add, cells_pos_set, cells_ext_set,
          put_ext, vec_set, cells_pos_add, cells_pos_div, vec_get; rewrite ?E1, ?E2; simpl;
        rewrite ?decide_False by (apply lookup_ge_None in E3; lia); simpl; by eauto];
      destruct (cell_stops c i a W Ha) as (Hp & Hq & Hs)).
  - case_decide as Hd; [by apply refines_upd, (sat_cells_rm c i a)|].
    unfold cells_rm. rewrite Hp. simpl. assert (a_pos a = -1) as -> by (destruct (decide (a_pos a = -1)); tauto). simpl. eauto.
  - case_decide as Hd; [by eapply refines_upd_fst, (sat_cells_seq_rm c i s a)|].
    unfold cells_seq_rm. rewrite Hq. simpl. destruct (bit_test_cases (a_seq a) s) as [[_ ->]|[_ ->]];
      simpl; [rewrite bool_decide_eq_false_2 by done|]; simpl; eauto.
  - case_decide as Hd; [destruct Hd; by eapply refines_upd_fst, (sat_cells_seq_keep c i s a)|].
    unfold cells_seq_keep. rewrite Hq. simpl.
    destruct (bit_test_cases (a_seq a) s) as [[Hs' ->]|[_ ->]]; simpl; [|eauto].
    assert (a_seq a = ∅ /\ a_pos a <> -1) as [He Hne].
    { destruct (decide (a_seq a = ∅)), (decide (a_pos a = -1)); tauto. }
    rewrite He, bool_decide_eq_false_2 by set_solver. simpl.
    rewrite bool_decide_eq_true_2 by done. simpl. rewrite Hp. simpl.
    destruct (Z.eqb_spec (a_pos a) (-1)); [done|]. simpl. eauto.
  - case_decide as Hd; [destruct Hd as (? & ? & ?); by apply refines_upd, sat_cells_seq_add|].
    unfold cells_seq_add. rewrite Hp. simpl.
    destruct (decide (a_pos a = -1)) as [->|Hm]; [simpl; eauto|].
    rewrite (not_m1_true _ Hm). simpl. rewrite Hq. simpl.
    destruct (bit_test_cases (a_seq a) s) as [[Hs' ->]|[_ ->]]; simpl; [|eauto].
    case_bool_decide; simpl; [eauto|]. tauto.
  - case_decide as Hd; [by apply refines_upd, (sat_cells_pos_set c i p a)|].
    unfold cells_pos_set. rewrite Hp. simpl.
    destruct (Z.eqb_spec (a_pos a) (-1)); [done|]. simpl. eauto.
  - by apply refines_upd, sat_cells_ext_set.
  - case_decide as Hd.
    + destruct Hd as (? & ? & ?). by eapply refines_upd_fst, (sat_cells_pos_add c i d a).
    + destruct (pos_add_stops c i d a W Ha Hd) as [e ->]. simpl. eauto.
  - case_decide as Hd.
    + destruct Hd as (? & ? & ? & ?). by eapply refines_upd, (sat_cells_pos_div c i d a).
    + by eapply pos_div_stops.
  - split; [by apply wf_reset_shift|]. unfold abs_state. by rewrite abs_reset_shift.
  - split; [apply wf_reset|]. unfold abs_state. by rewrite abs_reset, length_abs.
Qed.

(** ** Properties of the class *)

Section properties.
Variable c : llama_kv_cells.
Hypothesis W : wf c.

Lemma run_cmds_refines ms :
  forall c, wf c -> Forall cmd_legal ms -> refines (run_cmds ms c) (abs_cmds ms (abs_state c)).
Proof using Type.
  clear W. clear c. induction ms as [|m ms IH]; intros c W L; [by split|].
  apply Forall_cons in L as [Lm L]. pose proof (run_cmd_refines m c W Lm) as H.
  unfold run_cmds. simpl. destruct (abs_cmd m (abs_state c)) as [st|]; simpl in H |- *.
  - apply sat_exists in H as (c' & -> & W' & <-). by apply IH.
  - destruct H as [e ->]. by exists e.
Qed.

(** The fields of an abstract cell, read through the class. *)
Lemma cells_reads_ok i a :
  abs_cells c !! i = Some a ->
  cells_is_empty c i = Ok (a_pos a =? -1) /\
  cells_ext_get c i = (if a_pos a =? -1 then Err AssertFailed else Ok (a_ext a)) /\
  cells_pos_get c i = (if a_pos a =? -1 then Err AssertFailed else Ok (a_pos a)) /\
  cells_get_shift c i = (if a_pos a =? -1 then Err AssertFailed else Ok (a_shift a)) /\
  cells_seq_count c i = (if a_pos a =? -1 then Err AssertFailed else Ok (size (a_seq a))).
Proof using W.
  intros Ha. split; [by apply cells_is_empty_ok|].
  apply abs_lookup in Ha as (Hp & He & Hs & Hq).
  unfold cells_ext_get, cells_pos_get, cells_get_shift, cells_seq_count, vec_get, not_m1.
  rewrite Hp, He, Hs, Hq. simpl. by destruct (a_pos a =? -1).
Qed.
End properties.

(** C1: Any sequence of calls of the editing methods of [llama_kv_cells] behaves as on the
    plain list of cells without the derived indices: it returns exactly when every call
    satisfies its precondition on that list, the [used] set and the [seq_pos] multisets
    are then again the ones determined by the cells ([wf]), and otherwise it is stopped by
    an [assert] or a bounds check. *)
Theorem cells_run_refines c ms (W : wf c) (L : Forall cmd_legal ms) :
  refines (run_cmds ms c) (abs_cmds ms (abs_state c)).
Proof. by apply run_cmds_refines. Qed.

Lemma cells_run_refines_witness :
  refines (run_cmds [CPosSet 1 7; CSeqAdd 1 3; CSeqAdd 1 0; CPosAdd 1 (-2); CSeqRm 1 0; CSeqRm 1 3]
             (cells_resize 2 cells_new))
    (Some (true, replicate 2 acell_empty)).
Proof.
  apply (cells_run_refines (cells_resize 2 cells_new)
    [CPosSet 1 7; CSeqAdd 1 3; CSeqAdd 1 0; CPosAdd 1 (-2); CSeqRm 1 0; CSeqRm 1 3]).
  - apply wf_resize.
  - repeat constructor; simpl; lia.
Defined.

(** The queries answered from the derived indices agree with a scan of the cells:
    [seq_pos_min]/[seq_pos_max] are the least and greatest position of a cell of the
    sequence ([-1] when it has none), [get_used] counts the non-empty cells, [used_min]
    and [used_max_p1] are the first and one past the last of them. *)
Lemma cells_queries_ok c (W : wf c) :
  (forall s, id_ok s ->
     cells_seq_pos_min c s = Ok (min_or_m1 (seq_positions (abs_cells c) s)) /\
     cells_seq_pos_max c s = Ok (max_or_m1 (seq_positions (abs_cells c) s))) /\
  cells_get_used c = length (filter (fun a => a_pos a <> -1) (abs_cells c)) /\
  cells_used_min c = default 0 (list_min (used_indices (abs_cells c))) /\
  cells_used_max_p1 c = default 0 ((fun i => i + 1) <$> list_max (used_indices (abs_cells c))).
Proof.
  split_and!; [intros s Hs; split|..];
    auto using cells_seq_pos_min_ok, cells_seq_pos_max_ok, cells_get_used_ok,
      cells_used_min_ok, cells_used_max_p1_ok.
Qed.

Lemma cells_queries_ok_witness :
  cells_get_used (cells_resize 3 cells_new) = 0%nat /\ cells_used_min (cells_resize 3 cells_new) = 0.
Proof.
  destruct (cells_queries_ok (cells_resize 3 cells_new) (wf_resize 3 cells_new)) as (_ & H1 & H2 & _).
  split; [exact H1|exact H2].
Defined.

(** Saving cells with [cp] and writing them back with [set], into any later state
    that agrees with the saved one outside those cells, restores the saved state exactly,
    derived indices included, when none of the cells involved has a pending shift. *)
Lemma cells_save_restore c idxs c' (W : wf c) (W' : wf c') (Hb : c_has_shift c' = c_has_shift c)
    (Hidx : forall idx, idx ∈ idxs -> exists a, abs_cells c !! idx = Some a /\ a_shift a = 0)
    (Hidx' : forall idx, idx ∈ idxs -> exists a, abs_cells c' !! idx = Some a /\ a_shift a = 0)
    (Hout : forall i, i ∉ idxs -> abs_cells c' !! i = abs_cells c !! i) :
  (saved ← cells_cp c idxs; cells_set c' idxs saved) = Ok c.
Proof. by apply cells_cp_set. Qed.

Lemma cells_save_restore_witness :
  exists c', cells_pos_set (cells_resize 2 cells_new) 1 5 = Ok c' /\
    (saved ← cells_cp (cells_resize 2 cells_new) [1%nat]; cells_set c' [1%nat] saved) =
      Ok (cells_resize 2 cells_new).
Proof.
  assert (sat (cells_pos_set (cells_resize 2 cells_new) 1 5)
    (upd_to (cells_resize 2 cells_new) 1 false (mk_acell 5 ext_reset 0 ∅))) as H.
  { refine (sat_cells_pos_set (cells_resize 2 cells_new) 1 5 acell_empty _ _ _ _);
      [apply wf_resize|by rewrite abs_resize|done|done]. }
  apply sat_exists in H as (c' & Hc & W' & Ha & Hs). exists c'. split; [exact Hc|].
  apply (cells_save_restore _ [1%nat] c'); [apply wf_resize|done|done|..].
  - intros idx ->%list_elem_of_singleton. exists acell_empty. by rewrite abs_resize.
  - intros idx ->%list_elem_of_singleton. rewrite Ha, abs_resize. by eexists.
  - intros i Hi. rewrite Ha. apply list_lookup_insert_ne. set_solver.
Defined.
