(* ===== verification/Batch.v ===== *)
(** * Input batches: [llama_batch_allocr] of src/src/llama-batch.{h,cpp}

    [init] validates a batch, generates the fields the caller left out, and
    computes the sequence sets; the three [split_*] methods then hand out the
    tokens in micro-batches.  A member function [f] is the definition [balloc_f].
    An array the caller passes is a list: reading past its end, or reading an
    array that is a null pointer, is [Err OutOfRange].  Embedding values are of
    an arbitrary type [E], they are only copied.  Logging is not modelled.

    When [init] returns false the members keep what was computed so far, and the
    next [init] clears them: the model returns [None]. *)

From S2P Require Import Prelude KvCells.

(** What the batch code asks of a memory module ([llama_memory_i]): the smallest
    and largest position stored for a sequence, -1 when there is none. *)
Class Memory (M : Type) : Type := {
  mem_seq_pos_min : M -> Z -> res Z;
  mem_seq_pos_max : M -> Z -> res Z
}.

Section batch.
Context {E : Type}.

Record llama_batch : Type := mk_batch {
  b_n_tokens : nat;
  b_token    : option (list Z);
  b_embd     : option (list E);
  b_pos      : option (list Z);
  b_n_seq_id : option (list Z);
  b_seq_id   : option (list (list Z));
  b_logits   : option (list Z)
}.

Definition batch_empty : llama_batch := mk_batch 0 None None None None None None.

(** Reading [p\[i\]] of an array that may be a null pointer. *)
Definition ptr_get {A} (p : option (list A)) (i : nat) : res A :=
  l ← of_option OutOfRange p; vec_get l i.

(** [batch.seq_id\[i\]\[s\]] *)
Definition seq_id_at (b : llama_batch) (i s : nat) : res Z :=
  l ← ptr_get (b_seq_id b) i; vec_get l s.

(** The sequence ids of token [i], as the loop [s < n_seq_id\[i\]] reads them. *)
Definition seq_ids_of (b : llama_batch) (i : nat) : res (list Z) :=
  n ← ptr_get (b_n_seq_id b) i;
  mmap (fun s => seq_id_at b i s) (seq 0 (Z.to_nat n)).

Record llama_ubatch : Type := mk_ubatch {
  ub_equal_seqs   : bool;
  ub_n_tokens     : nat;
  ub_n_seq_tokens : nat;
  ub_n_seqs       : nat;
  ub_n_seqs_unq   : nat;
  ub_n_pos        : nat;
  ub_token        : option (list Z);
  ub_embd         : option (list E);
  ub_pos          : list Z;
  ub_n_seq_id     : list Z;
  ub_seq_id       : list (list Z);
  ub_seq_id_unq   : list Z;
  ub_seq_idx      : list Z;
  ub_output       : list Z
}.

(** The value-initialised [llama_ubatch {}] that the splits return when done. *)
Definition ubatch_none : llama_ubatch :=
  mk_ubatch false 0 0 0 0 0 None None [] [] [] [] [] [].

Definition is_pos_2d (u : llama_ubatch) : bool := (3 <=? ub_n_pos u)%nat.

Record llama_batch_allocr : Type := mk_balloc {
  ba_n_pos_per_embd : nat;
  ba_batch       : llama_batch;
  ba_n_embd      : nat;
  ba_n_seq_max   : nat;
  ba_n_outputs   : nat;
  ba_seq_id_unq  : list Z;
  ba_seq_idx     : list Z;
  ba_has_cpl     : bool;
  ba_seq_pos     : list (gset Z);          (* [seq_pos\[s\]] *)
  ba_seq_cpl     : gset (Z * Z);           (* [(s0, s1)] with [seq_cpl\[s0\]\[s1\]] *)
  ba_seq_set     : list (gset Z);
  ba_seq_set_map : gmap (gset Z) (list nat);
  ba_out_ids     : list nat;
  ba_n_used      : nat;
  ba_used        : list bool
}.

Definition MAX_SEQ : nat := Z.to_nat LLAMA_MAX_SEQ.

Definition with_split (a : llama_batch_allocr) (out_ids : list nat) (n_used : nat) (used : list bool) :=
  mk_balloc (ba_n_pos_per_embd a) (ba_batch a) (ba_n_embd a) (ba_n_seq_max a) (ba_n_outputs a)
    (ba_seq_id_unq a) (ba_seq_idx a) (ba_has_cpl a) (ba_seq_pos a) (ba_seq_cpl a) (ba_seq_set a)
    (ba_seq_set_map a) out_ids n_used used.

Definition balloc_new (n_pos_per_embd : nat) : llama_batch_allocr :=
  mk_balloc n_pos_per_embd batch_empty 0 0 0 [] (replicate MAX_SEQ (-1)) false
    (replicate MAX_SEQ ∅) ∅ [] ∅ [] 0 [].

Definition balloc_clear (a : llama_batch_allocr) : llama_batch_allocr :=
  mk_balloc (ba_n_pos_per_embd a) batch_empty (ba_n_embd a) (ba_n_seq_max a) 0
    [] (replicate (length (ba_seq_idx a)) (-1)) (ba_has_cpl a)
    (replicate (length (ba_seq_pos a)) ∅) ∅ [] ∅ (ba_out_ids a) (ba_n_used a) (ba_used a).

Definition balloc_get_n_tokens (a : llama_batch_allocr) : nat := b_n_tokens (ba_batch a).
Definition balloc_get_n_used (a : llama_batch_allocr) : nat := ba_n_used a.

Definition balloc_seq_pos_min (a : llama_batch_allocr) (s : Z) : res Z :=
  S ← vec_getZ (ba_seq_pos a) s; Ok (default (-1) (list_min (elements S))).
Definition balloc_seq_pos_max (a : llama_batch_allocr) (s : Z) : res Z :=
  S ← vec_getZ (ba_seq_pos a) s; Ok (default (-1) (list_max (elements S))).

Definition balloc_split_reset (a : llama_batch_allocr) : llama_batch_allocr :=
  with_split a [] 0 (replicate (balloc_get_n_tokens a) false).

(** ** [init] *)

Section init.
Context {M : Type} `{Memory M}.

(** Token ids against the vocabulary size. *)
Definition valid_tokens (b : llama_batch) (n_vocab : Z) : res bool :=
  match b_token b with
  | None => Ok true
  | Some t => mforall (fun i => x ← vec_get t i; Ok ((0 <=? x) && (x <? n_vocab)))
                (seq 0 (b_n_tokens b))
  end.

Definition valid_seq_ids (b : llama_batch) (n_seq_max : nat) : res bool :=
  match b_seq_id b with
  | None => Ok true
  | Some _ => mforall (fun i =>
      n ← ptr_get (b_n_seq_id b) i;
      mforall (fun s => x ← seq_id_at b i s; Ok ((0 <=? x) && (x <? Z.of_nat n_seq_max)))
        (seq 0 (Z.to_nat n)))
      (seq 0 (b_n_tokens b))
  end.

Definition gen_n_seq_id (b : llama_batch) : llama_batch :=
  match b_n_seq_id b with
  | Some _ => b
  | None => mk_batch (b_n_tokens b) (b_token b) (b_embd b) (b_pos b)
              (Some (replicate (b_n_tokens b) 1)) (b_seq_id b) (b_logits b)
  end.

Definition gen_seq_id (b : llama_batch) : llama_batch :=
  match b_seq_id b with
  | Some _ => b
  | None => mk_batch (b_n_tokens b) (b_token b) (b_embd b) (b_pos b)
              (b_n_seq_id b) (Some (replicate (b_n_tokens b) [0])) (b_logits b)
  end.

(** The next position of every sequence, from the memory when there is one. *)
Definition init_p0 (mem : option M) (n_seq_max : nat) : res (list Z) :=
  mmap (fun s => match mem with
                 | None => Ok 0
                 | Some m => p ← mem_seq_pos_max m (Z.of_nat s); i32 (p + 1)
                 end) (seq 0 n_seq_max).

(** One token: its position, and the next position of all its sequences. *)
Definition gen_pos_step (b : llama_batch) (st : list Z * list Z) (i : nat) : res (list Z * list Z) :=
  let '(pos, p0) := st in
  s0 ← seq_id_at b i 0;
  p ← vec_getZ p0 s0;
  ids ← seq_ids_of b i;
  p0 ← mfor (fun p0 s => q ← i32 (p + 1); vec_setZ p0 s q) ids p0;
  Ok (pos ++ [p], p0).

Definition gen_pos (b : llama_batch) (mem : option M) (n_seq_max : nat) : res llama_batch :=
  match b_pos b with
  | Some _ => Ok b
  | None =>
      p0 ← init_p0 mem n_seq_max;
      r ← mfor (gen_pos_step b) (seq 0 (b_n_tokens b)) ([], p0);
      Ok (mk_batch (b_n_tokens b) (b_token b) (b_embd b) (Some r.1)
            (b_n_seq_id b) (b_seq_id b) (b_logits b))
  end.

Definition with_logits (b : llama_batch) (l : list Z) : llama_batch :=
  mk_batch (b_n_tokens b) (b_token b) (b_embd b) (b_pos b) (b_n_seq_id b) (b_seq_id b) (Some l).

Definition gen_logits (b : llama_batch) (output_all : bool) : res llama_batch :=
  let n := b_n_tokens b in
  match b_logits b with
  | None =>
      if output_all then Ok (with_logits b (replicate n 1))
      else l ← vec_set (replicate n 0) (n - 1) 1; Ok (with_logits b l)
  | Some l =>
      if output_all then
        warn ← mfor (fun w i => x ← vec_get l i; Ok ((w : bool) || (x =? 0))) (seq 0 n) false;
        if (warn : bool) then Ok (with_logits b (replicate n 1)) else Ok b
      else Ok b
  end.

Definition count_outputs (b : llama_batch) : res nat :=
  mfor (fun k i => x ← ptr_get (b_logits b) i; Ok (if x =? 0 then k else S k))
    (seq 0 (b_n_tokens b)) 0%nat.

(** Positions per sequence and coupled sequences: [(seq_pos, seq_cpl, has_cpl)]. *)
Definition cpl_step (b : llama_batch) (st : list (gset Z) * gset (Z * Z) * bool) (i : nat)
    : res (list (gset Z) * gset (Z * Z) * bool) :=
  s0 ← seq_id_at b i 0;
  ids ← seq_ids_of b i;
  mfor (fun '(sp, cpl, has) ks =>
      p ← ptr_get (b_pos b) i;
      S ← vec_getZ sp (snd ks);
      sp ← vec_setZ sp (snd ks) ({[ p ]} ∪ S);
      if (fst ks =? 0)%nat then Ok (sp, cpl, has)
      else if bit_ok s0 && bit_ok (snd ks) then Ok (sp, {[ (snd ks, s0) ]} ∪ cpl, true)
      else Err OutOfRange)
    (imap pair ids) st.

(** Sequence sets of the tokens: [(seq_set, seq_set_map, seq_set_unq)]. *)
Definition seq_set_step (b : llama_batch)
    (st : list (gset Z) * gmap (gset Z) (list nat) * gset Z) (i : nat)
    : res (list (gset Z) * gmap (gset Z) (list nat) * gset Z) :=
  let '(sets, map, unq) := st in
  ids ← seq_ids_of b i;
  r ← mfor (fun '(cur, unq) s => cur ← bit_set cur s; unq ← bit_set unq s; Ok (cur, unq))
        ids (∅, unq);
  let '(cur, unq) := r in
  Ok (sets ++ [cur], <[ cur := default [] (map !! cur) ++ [i] ]> map, unq).

(** [seq_idx\[s\]] is the rank of [s] among the ids that occur; [seq_id_unq] lists them. *)
Definition unq_step (unq : gset Z) (st : list Z * list Z) (s : Z) : res (list Z * list Z) :=
  let '(seq_idx, seq_id_unq) := st in
  b ← bit_test unq s;
  if (b : bool) then
    seq_idx ← vec_setZ seq_idx s (Z.of_nat (length seq_id_unq));
    Ok (seq_idx, seq_id_unq ++ [s])
  else Ok (seq_idx, seq_id_unq).

(** The consistency check of sequence [s] against the memory. *)
Definition check_seq (a : llama_batch_allocr) (mem : option M) (s : Z) : res bool :=
  S ← vec_getZ (ba_seq_pos a) s;
  if decide (S = ∅) then Ok true else
  p0 ← match mem with Some m => mem_seq_pos_max m s | None => Ok (-1) end;
  lo ← balloc_seq_pos_min a s;
  hi ← balloc_seq_pos_max a s;
  if (1 <? ba_n_pos_per_embd a)%nat then
    match b_token (ba_batch a) with
    | Some _ => Ok (negb ((0 <=? p0) && (lo <=? p0)))
    | None => Ok (negb ((0 <=? p0) && (lo <? p0)))
    end
  else
    ok ← (if 0 <=? p0 then q ← i32 (p0 + 1); Ok (lo =? q) else Ok true);
    if negb ok then Ok false else
    w ← i32 (hi - lo); w ← i32 (w + 1);
    Ok (negb (Z.of_nat (size S) <? w)).

(** Coupled sequences must have the same extent in the memory. *)
Definition check_cpl (a : llama_batch_allocr) (mem : option M) (n_seq_max : nat) : res bool :=
  match mem with
  | None => Ok true
  | Some m =>
      mforall (fun s0 =>
        mforall (fun s1 =>
          if decide ((s0, s1) ∈ ba_seq_cpl a) then
            l0 ← mem_seq_pos_min m s0; l1 ← mem_seq_pos_min m s1;
            h0 ← mem_seq_pos_max m s0; h1 ← mem_seq_pos_max m s1;
            Ok ((l0 =? l1) && (h0 =? h1))
          else Ok true) (seqZ 0 (Z.of_nat n_seq_max))) (seqZ 0 (Z.of_nat n_seq_max))
  end.

(** The last check, over the tokens in order: the running intersection of the
    sequence sets of each sequence stays non-empty, and the position is not below
    [cur_seq_pos\[seq_id\]], an array that is set to -1 and never written again. *)
Definition check_sets (a : llama_batch_allocr) (n_seq_max : nat) : res bool :=
  let cur_seq_pos := replicate n_seq_max (-1) in
  r ← mfor (fun (st : bool * list (gset Z)) i =>
      if negb st.1 then Ok st else
      p ← ptr_get (b_pos (ba_batch a)) i;
      ids ← seq_ids_of (ba_batch a) i;
      mfor (fun (st : bool * list (gset Z)) s =>
          if negb st.1 then Ok st else
          C ← vec_getZ st.2 s;
          T ← vec_get (ba_seq_set a) i;
          let C := C ∩ T in
          sets ← vec_setZ st.2 s C;
          if decide (C = ∅) then Ok (false, sets) else
          q ← vec_getZ cur_seq_pos s;
          if p <? q then Ok (false, sets) else Ok (true, sets)) ids st)
    (seq 0 (b_n_tokens (ba_batch a)))
    (true, replicate n_seq_max (list_to_set all_seq_ids) ++ replicate (MAX_SEQ - n_seq_max) ∅);
  Ok r.1.

Definition balloc_init (a : llama_batch_allocr) (batch_inp : llama_batch) (n_vocab : Z)
    (mem : option M) (n_embd n_seq_max : nat) (output_all : bool)
    : res (option llama_batch_allocr) :=
  let a := balloc_clear a in
  _ ← assert_ (0 <? b_n_tokens batch_inp)%nat;
  if (MAX_SEQ <? n_seq_max)%nat then Ok None else
  ok ← valid_tokens batch_inp n_vocab;
  if negb ok then Ok None else
  ok ← valid_seq_ids batch_inp n_seq_max;
  if negb ok then Ok None else
  let b := gen_seq_id (gen_n_seq_id batch_inp) in
  b ← gen_pos b mem n_seq_max;
  b ← gen_logits b output_all;
  n_outputs ← count_outputs b;
  c ← mfor (cpl_step b) (seq 0 (b_n_tokens b)) (ba_seq_pos a, ba_seq_cpl a, false);
  let '(seq_pos, seq_cpl, has_cpl) := c in
  t ← mfor (seq_set_step b) (seq 0 (b_n_tokens b)) ([], ∅, ∅);
  let '(seq_set, seq_set_map, unq) := t in
  u ← mfor (unq_step unq) (seqZ 0 (Z.of_nat n_seq_max)) (ba_seq_idx a, []);
  let '(seq_idx, seq_id_unq) := u in
  let a := mk_balloc (ba_n_pos_per_embd a) b n_embd n_seq_max n_outputs seq_id_unq seq_idx
             has_cpl seq_pos seq_cpl seq_set seq_set_map (ba_out_ids a) (ba_n_used a) (ba_used a) in
  ok ← mforall (check_seq a mem) (seqZ 0 (Z.of_nat n_seq_max));
  if negb ok then Ok None else
  ok ← check_cpl a mem n_seq_max;
  if negb ok then Ok None else
  ok ← check_sets a n_seq_max;
  if negb ok then Ok None else
  Ok (Some (balloc_split_reset a)).

End init.

(** ** Splitting *)

(** The embedding rows of the chosen tokens, copied one after the other. *)
Definition copy_embd (n_embd : nat) (l : list E) (idxs : list nat) : res (list E) :=
  r ← mmap (fun idx =>
        if decide (idx * n_embd + n_embd <= length l)%nat
        then Ok (take n_embd (drop (idx * n_embd) l)) else Err OutOfRange) idxs;
  Ok (concat r).

(** [udata->pos\[j*n_tokens + i\]]: section [j] of the positions. *)
Definition copy_pos (a : llama_batch_allocr) (idxs : list nat) : res (list Z) :=
  r ← mmap (fun j =>
        let src_off := match b_token (ba_batch a) with
                       | Some _ => 0%nat | None => (j * b_n_tokens (ba_batch a))%nat end in
        mmap (fun idx => ptr_get (b_pos (ba_batch a)) (src_off + idx)) idxs)
      (seq 0 (ba_n_pos_per_embd a));
  Ok (concat r).

Definition balloc_ubatch_add (a : llama_batch_allocr) (idxs : list nat) (n_seqs : nat)
    (equal_seqs : bool) : res (llama_batch_allocr * llama_ubatch) :=
  let b := ba_batch a in
  let n_tokens := length idxs in
  _ ← (if (n_seqs =? 0)%nat then Err DivByZero else Ok tt);
  _ ← assert_ (n_tokens mod n_seqs =? 0)%nat;
  token ← match b_token b with
          | Some t => r ← mmap (vec_get t) idxs; Ok (Some r) | None => Ok None end;
  embd ← match b_embd b with
         | Some l => r ← copy_embd (ba_n_embd a) l idxs; Ok (Some r) | None => Ok None end;
  pos ← copy_pos a idxs;
  n_seq_id ← mmap (ptr_get (b_n_seq_id b)) idxs;
  output ← mmap (ptr_get (b_logits b)) idxs;
  seq_id ← mmap (seq_ids_of b) idxs;
  unq ← mfor (fun S s => bit_set S s) (concat seq_id) (∅ : gset Z);
  let out_ids := omap (fun io => if (snd io =? 0) then None else Some (fst io)) (zip idxs output) in
  u ← mfor (unq_step unq) (seqZ 0 (Z.of_nat (ba_n_seq_max a))) (replicate MAX_SEQ (-1), []);
  let '(seq_idx, seq_id_unq) := u in
  Ok (with_split a (ba_out_ids a ++ out_ids) (ba_n_used a) (ba_used a),
      mk_ubatch equal_seqs n_tokens (n_tokens / n_seqs) n_seqs (length seq_id_unq)
        (ba_n_pos_per_embd a) token embd pos n_seq_id seq_id seq_id_unq seq_idx output).

(** The index of the first unused token, [used.size()] when there is none. *)
Fixpoint first_unused (used : list bool) : nat :=
  match used with
  | true :: r => S (first_unused r)
  | _ => 0%nat
  end.

Definition mark_used (a : llama_batch_allocr) (i : nat) : res llama_batch_allocr :=
  u ← vec_set (ba_used a) i true;
  Ok (with_split a (ba_out_ids a) (S (ba_n_used a)) u).

(** The loop of [split_simple], from [cur_idx]. *)
Fixpoint split_simple_loop (fuel n_ubatch cur_idx : nat) (a : llama_batch_allocr) (idxs : list nat)
    : res (llama_batch_allocr * list nat) :=
  match fuel with
  | O => Err NoFuel
  | S fuel =>
      let idxs := idxs ++ [cur_idx] in
      a ← mark_used a cur_idx;
      let cur_idx := S cur_idx in
      if (length (ba_used a) <=? cur_idx)%nat then Ok (a, idxs)
      else if (n_ubatch <=? length idxs)%nat then Ok (a, idxs)
      else split_simple_loop fuel n_ubatch cur_idx a idxs
  end.

Definition balloc_split_simple (a : llama_batch_allocr) (n_ubatch : nat)
    : res (llama_batch_allocr * llama_ubatch) :=
  let cur_idx := first_unused (ba_used a) in
  if (length (ba_used a) <=? cur_idx)%nat then Ok (a, ubatch_none) else
  r ← split_simple_loop (length (ba_used a)) n_ubatch cur_idx a [];
  let '(a, idxs) := r in
  balloc_ubatch_add a idxs (length idxs) false.

(** [split_equal]: the non-overlapping sequence sets of the unused tokens, in
    order; state [(done, cur_seq_set, last_seq_id)]. *)
Definition equal_sets_step (a : llama_batch_allocr) (n_ubatch : nat) (sequential : bool)
    (st : bool * list (gset Z) * Z) (i : nat) : res (bool * list (gset Z) * Z) :=
  let '(stop, cur, last) := st in
  if (stop : bool) then Ok st else
  u ← vec_get (ba_used a) i;
  if (u : bool) then Ok st else
  T ← vec_get (ba_seq_set a) i;
  let add := forallb (fun C => bool_decide (C ∩ T = ∅)) cur in
  add ← (if sequential && add && negb (bool_decide (cur = []))
         then s0 ← seq_id_at (ba_batch a) i 0; Ok (s0 =? last + 1) else Ok add);
  if (add : bool) then
    s0 ← seq_id_at (ba_batch a) i 0;
    let cur := cur ++ [T] in
    Ok ((n_ubatch <? length cur)%nat, cur, s0)
  else Ok st.

(** The tokens of a sequence set, as [seq_set_map\[set\]]. *)
Definition set_tokens (a : llama_batch_allocr) (T : gset Z) : list nat :=
  default [] (ba_seq_set_map a !! T).

(** [while (used\[tokens\[cur_idx\]\]) ++cur_idx;] over the remaining tokens: what is
    left of the list from the first unused token on. *)
Fixpoint skip_used (used : list bool) (tokens : list nat) : res (list nat) :=
  match tokens with
  | [] => Err OutOfRange
  | t :: r => u ← vec_get used t; if (u : bool) then skip_used used r else Ok (t :: r)
  end.

(** One round of the expansion loop: the next token of every sequence set. *)
Definition equal_take (a : llama_batch_allocr) (per_seq : list (list nat * list nat))
    : res (llama_batch_allocr * list (list nat * list nat)) :=
  mfor (fun '(a, out) '(rest, idxs) =>
    match rest with
    | [] => Err OutOfRange
    | t :: r => a ← mark_used a t; Ok (a, out ++ [(r, idxs ++ [t])])
    end) per_seq (a, []).

(** [per_seq] pairs, for every sequence set, the tokens still to take (from
    [cur_idx\[s\]] on) with [idxs_per_seq\[s\]]. *)
Fixpoint split_equal_loop (fuel n_ubatch : nat) (a : llama_batch_allocr)
    (per_seq : list (list nat * list nat)) : res (llama_batch_allocr * list (list nat * list nat)) :=
  match fuel with
  | O => Err NoFuel
  | S fuel =>
      if existsb (fun p => bool_decide (fst p = [])) per_seq then Ok (a, per_seq) else
      r ← equal_take a per_seq;
      let '(a, per_seq) := r in
      let k := match per_seq with [] => 0%nat | p :: _ => length (snd p) end in
      if (n_ubatch <? (k + 1) * length per_seq)%nat then Ok (a, per_seq)
      else split_equal_loop fuel n_ubatch a per_seq
  end.

Definition balloc_split_equal (a : llama_batch_allocr) (n_ubatch : nat) (sequential : bool)
    : res (llama_batch_allocr * llama_ubatch) :=
  if sequential && ba_has_cpl a then Ok (a, ubatch_none) else
  r ← mfor (equal_sets_step a n_ubatch sequential) (seq 0 (b_n_tokens (ba_batch a))) (false, [], -1);
  let '(_, cur_seq_set, _) := r in
  let n_seqs := length cur_seq_set in
  if (n_seqs =? 0)%nat then Ok (a, ubatch_none) else
  starts ← mmap (fun T => skip_used (ba_used a) (set_tokens a T)) cur_seq_set;
  r ← split_equal_loop (S (b_n_tokens (ba_batch a))) n_ubatch a ((fun l => (l, [])) <$> starts);
  let '(a, per_seq) := r in
  balloc_ubatch_add a (concat (snd <$> per_seq)) n_seqs true.

(** [split_seq]: the next index after [cur_idx] that is unused and whose sequence
    set is a subset of [T]; [n_tokens] when there is none. *)
Fixpoint next_subset (fuel : nat) (a : llama_batch_allocr) (T : gset Z) (cur_idx : nat) : res nat :=
  match fuel with
  | O => Err NoFuel
  | S fuel =>
      let cur_idx := S cur_idx in
      if (balloc_get_n_tokens a <=? cur_idx)%nat then Ok cur_idx else
      u ← vec_get (ba_used a) cur_idx;
      C ← vec_get (ba_seq_set a) cur_idx;
      if (u : bool) || negb (bool_decide (T ∩ C = C)) then next_subset fuel a T cur_idx
      else Ok cur_idx
  end.

Fixpoint split_seq_loop (fuel n_ubatch : nat) (a : llama_batch_allocr) (T : gset Z)
    (cur_idx : nat) (idxs : list nat) : res (llama_batch_allocr * list nat) :=
  match fuel with
  | O => Err NoFuel
  | S fuel =>
      let idxs := idxs ++ [cur_idx] in
      a ← mark_used a cur_idx;
      if (n_ubatch <=? length idxs)%nat then Ok (a, idxs) else
      cur_idx ← next_subset (S (balloc_get_n_tokens a)) a T cur_idx;
      if (cur_idx =? balloc_get_n_tokens a)%nat then Ok (a, idxs) else
      T ← vec_get (ba_seq_set a) cur_idx;
      split_seq_loop fuel n_ubatch a T cur_idx idxs
  end.

Definition balloc_split_seq (a : llama_batch_allocr) (n_ubatch : nat)
    : res (llama_batch_allocr * llama_ubatch) :=
  let cur_idx := first_unused (ba_used a) in
  if (length (ba_used a) <=? cur_idx)%nat then Ok (a, ubatch_none) else
  T ← vec_get (ba_seq_set a) cur_idx;
  r ← split_seq_loop (length (ba_used a)) n_ubatch a T cur_idx [];
  let '(a, idxs) := r in
  balloc_ubatch_add a idxs 1 true.

(** The loop of every [init_batch]: micro-batches until one is empty.  Each of them takes a
    token, so that one round more than there are tokens is enough. *)
Fixpoint split_loop (split : llama_batch_allocr -> res (llama_batch_allocr * llama_ubatch)) (fuel : nat)
    (a : llama_batch_allocr) (us : list llama_ubatch) : res (llama_batch_allocr * list llama_ubatch) :=
  match fuel with
  | O => Err NoFuel
  | S fuel =>
      r ← split a;
      let '(a, u) := r in
      if (ub_n_tokens u =? 0)%nat then Ok (a, us) else split_loop split fuel a (us ++ [u])
  end.

(** [ubatch_reserve]: [seq_idx\[s\] = s] for the reserved sequences. *)
Definition balloc_ubatch_reserve (a : llama_batch_allocr) (n_seq_tokens n_seqs : nat)
    : res (llama_batch_allocr * llama_ubatch) :=
  let n_tokens := (n_seq_tokens * n_seqs)%nat in
  let a := balloc_split_reset (balloc_clear a) in
  r ← mfor (fun '(seq_idx, ids) s =>
        seq_idx ← vec_setZ seq_idx s s; Ok (seq_idx, ids ++ [s]))
      (seqZ 0 (Z.of_nat n_seqs)) (replicate MAX_SEQ (-1), []);
  let '(seq_idx, seq_id_unq) := r in
  Ok (a, mk_ubatch true n_tokens n_seq_tokens n_seqs n_seqs (ba_n_pos_per_embd a)
           (Some (replicate n_tokens 0)) None
           (replicate (n_tokens * ba_n_pos_per_embd a) 0) (replicate n_tokens 0)
           (replicate n_tokens []) seq_id_unq seq_idx (replicate n_tokens 0)).

End batch.
Arguments llama_batch : clear implicits.
Arguments llama_ubatch : clear implicits.
Arguments llama_batch_allocr : clear implicits.
