(* ===== verification/Pages.v ===== *)
(** * The PagedAttention block pool of [llama_kv_cache]

    The members [pg_*] of src/src/llama-kv-cache.h and the code that edits them:
    the pool set-up of the constructor, the pool part of [clear], the page
    release at the end of [seq_rm], and [pg_alloc_for_sinfo].  Physical block 0
    is the shared zero block and is never in the pool; a page table entry is a
    physical block or -1. *)

From S2P Require Import Prelude.

Record page_pool : Type := mk_pool {
  pg_block_size  : nat;
  pg_n_blocks    : nat;
  pg_page_table  : list (list Z);   (* [stream][lpage] *)
  pg_free_blocks : list Z           (* a stack: the last element is on top *)
}.

Definition with_pages (P : page_pool) (t : list (list Z)) (f : list Z) : page_pool :=
  mk_pool (pg_block_size P) (pg_n_blocks P) t f.

(** Where the cells of a micro-batch go: for every stream of the batch, its index
    and the cell indices. *)
Record slot_info : Type := mk_slot {
  si_s0 : nat; si_s1 : nat; si_strm : list nat; si_idxs : list (list nat)
}.

Definition n_pages (kv_size block_size : nat) : nat := ((kv_size + block_size - 1) / block_size)%nat.

(** [pg_free_blocks\[i\] = pg_n_blocks - i] *)
Definition full_stack (n_blocks : nat) : list Z :=
  (fun i => Z.of_nat (n_blocks - i)) <$> seq 0 n_blocks.

(** The pool as the constructor sets it up. *)
Definition pool_init (kv_size n_stream block_size : nat) : page_pool :=
  let n := n_pages kv_size block_size in
  let n_blocks := ((n + 1) * n_stream - 1)%nat in
  mk_pool block_size n_blocks (replicate n_stream (replicate n (-1))) (full_stack n_blocks).

(** The pool part of [clear]. *)
Definition pool_clear (n_stream : nat) (P : page_pool) : res page_pool :=
  t ← mfor (fun t s => row ← vec_get t s; vec_set t s ((fun _ => -1) <$> row))
        (seq 0 n_stream) (pg_page_table P);
  Ok (with_pages P t (full_stack (pg_n_blocks P))).

Definition page_at (P : page_pool) (strm lpage : nat) : res Z :=
  row ← vec_get (pg_page_table P) strm; vec_get row lpage.

Definition page_put (P : page_pool) (strm lpage : nat) (b : Z) (free : list Z) : res page_pool :=
  row ← vec_get (pg_page_table P) strm;
  row ← vec_set row lpage b;
  t ← vec_set (pg_page_table P) strm row;
  Ok (with_pages P t free).

(** [try_free_page]: the page goes back to the pool when all its cells are empty. *)
Definition try_free_page (is_empty : nat -> res bool) (kv_sz strm : nat) (P : page_pool) (lpage : nat)
    : res page_pool :=
  b ← page_at P strm lpage;
  if b <? 0 then Ok P else
  let lo := (lpage * pg_block_size P)%nat in
  let hi := Nat.min (lo + pg_block_size P) kv_sz in
  all_empty ← mforall is_empty (seq lo (hi - lo));
  if (all_empty : bool) then page_put P strm lpage (-1) (pg_free_blocks P ++ [b]) else Ok P.

Definition free_empty_pages (is_empty : nat -> res bool) (kv_sz strm : nat) (P : page_pool) : res page_pool :=
  mfor (try_free_page is_empty kv_sz strm) (seq 0 (n_pages kv_sz (pg_block_size P))) P.

Section alloc.
(** The relevance score of a page is computed from the stored keys in floating
    point ([calculate_page_relevance_score]); here it is any function into a type
    with a comparison, and [fmax] is the initial minimum. *)
Context {F : Type} (flt : F -> F -> bool) (fmax : F) (score : nat -> nat -> F).
(** [triattention_page_budget]; 0 disables eviction. *)
Context (budget : nat).

Definition batch_pages (P : page_pool) (idxs : list nat) : gset nat :=
  list_to_set ((fun c => c / pg_block_size P)%nat <$> idxs).

(** The page to evict: the first one of minimal score among the mapped pages that
    the batch does not need. *)
Definition pick_evict (P : page_pool) (strm : nat) (keep : gset nat) (row : list Z) : option nat :=
  snd (foldl (fun '(mn, ev) lp =>
    if decide (0 <= default (-1) (row !! lp) /\ lp ∉ keep) then
      let sc := score strm lp in
      if flt sc mn then (sc, Some lp) else (mn, ev)
    else (mn, ev)) (fmax, None) (seq 0 (length row))).

Definition evict_step (P : page_pool) (strm : nat) (keep : gset nat) : res page_pool :=
  if (budget =? 0)%nat then Ok P else
  row ← vec_get (pg_page_table P) strm;
  let allocated_count := length (filter (fun b => 0 <= b) row) in
  if (allocated_count <? budget)%nat then Ok P else
  match pick_evict P strm keep row with
  | None => Ok P
  | Some lp =>
      b ← vec_get row lp;
      page_put P strm lp (-1) (pg_free_blocks P ++ [b])
  end.

(** One cell index of the batch. *)
Definition alloc_cell (strm : nat) (keep : gset nat) (n_pages_per_stream : nat)
    (P : page_pool) (cell_idx : nat) : res page_pool :=
  let lpage := (cell_idx / pg_block_size P)%nat in
  _ ← assert_ (lpage <? n_pages_per_stream)%nat;
  b ← page_at P strm lpage;
  if b <? 0 then
    P ← evict_step P strm keep;
    match last (pg_free_blocks P) with
    | None => Err AssertFailed
    | Some nb => page_put P strm lpage nb (removelast (pg_free_blocks P))
    end
  else Ok P.

Definition pg_alloc_for_sinfo (P : page_pool) (sinfo : slot_info) : res page_pool :=
  row0 ← vec_get (pg_page_table P) 0;
  mfor (fun P s =>
    strm ← vec_get (si_strm sinfo) s;
    idxs ← vec_get (si_idxs sinfo) s;
    mfor (alloc_cell strm (batch_pages P idxs) (length row0)) idxs P)
    (seq 0 (length (si_strm sinfo))) P.
End alloc.

(** The table pushed to the device by [set_input_v_page_table]: row [r] is stream
    [s0 + min(r, ns-1)], and an unmapped page reads the zero block. *)
Definition v_page_table (P : page_pool) (sinfo : slot_info) (n_rows n_lpage : nat) : res (list Z) :=
  let ns := (si_s1 sinfo - si_s0 sinfo + 1)%nat in
  r ← mmap (fun r =>
        let strm := (si_s0 sinfo + Nat.min r (ns - 1))%nat in
        mmap (fun lp => b ← page_at P strm lp; Ok (if 0 <=? b then b else 0)) (seq 0 n_lpage))
      (seq 0 n_rows);
  Ok (concat r).

(** Physical row of a cell: [pblock * pg_block_size + within_block]. *)
Definition phys_row (P : page_pool) (b : Z) (cell : nat) : Z :=
  b * Z.of_nat (pg_block_size P) + Z.of_nat (cell mod pg_block_size P).
