(* ===== verification/PagesTheory.v ===== *)
(** * Safety of the PagedAttention block pool

    The pool invariant [pool_ok]: the free stack together with the mapped page
    table entries is exactly the set of blocks [1 .. n_blocks], each once.  It is
    kept by every operation; it makes the address translation injective, keeps
    every row inside the V pool and off the zero block, and bounds the demand so
    that the "out of physical blocks" assertion cannot fire. *)

From S2P Require Import Prelude Pages.

Definition opt_block (b : Z) : list Z := if decide (0 <= b) then [b] else [].
Definition mapped (t : list (list Z)) : list Z := filter (fun b => 0 <= b) (concat t).

Lemma filter_sing b : filter (fun b => 0 <= b) [b] = opt_block b.
Proof. unfold opt_block. rewrite filter_cons, filter_nil. done. Qed.

(** Writing one entry exchanges the old block for the new one. *)
Lemma mapped_update t s row lp x y :
  t !! s = Some row -> row !! lp = Some x ->
  opt_block x ++ mapped (<[s := <[lp := y]> row]> t) ≡ₚ opt_block y ++ mapped t.
Proof.
  intros Ht Hr. unfold mapped.
  pose proof (lookup_lt_Some _ _ _ Ht) as Hs. pose proof (lookup_lt_Some _ _ _ Hr) as Hlp.
  rewrite <- (take_drop_middle t s row Ht) at 2.
  rewrite (insert_take_drop t) by done. rewrite (insert_take_drop row) by done.
  rewrite !concat_app, !concat_cons, !filter_app.
  rewrite <- (take_drop_middle row lp x Hr) at 3.
  rewrite !filter_app, !filter_cons. unfold opt_block.
  repeat case_decide; simpl; try done; solve_Permutation.
Qed.

Record pool_ok (ns np : nat) (P : page_pool) : Prop := {
  pool_bs    : (0 < pg_block_size P)%nat;
  pool_ns    : (0 < ns)%nat;
  pool_nb    : pg_n_blocks P = ((np + 1) * ns - 1)%nat;
  pool_rows  : length (pg_page_table P) = ns;
  pool_cols  : forall s row, pg_page_table P !! s = Some row -> length row = np;
  pool_neg   : forall s row lp b, pg_page_table P !! s = Some row -> row !! lp = Some b -> -1 <= b;
  pool_perm  : pg_free_blocks P ++ mapped (pg_page_table P) ≡ₚ seqZ 1 (Z.of_nat (pg_n_blocks P))
}.

(** The entry of the page table for page [lp] of stream [s]. *)
Definition entry (P : page_pool) (s lp : nat) : option Z :=
  row ← pg_page_table P !! s; row !! lp.

Lemma entry_Some P s lp b :
  entry P s lp = Some b <-> exists row, pg_page_table P !! s = Some row /\ row !! lp = Some b.
Proof. unfold entry. destruct (pg_page_table P !! s); simpl; naive_solver. Qed.

Lemma page_at_entry P s lp b : page_at P s lp = Ok b <-> entry P s lp = Some b.
Proof.
  unfold page_at, entry, vec_get. destruct (pg_page_table P !! s) as [row|]; simpl; [|done].
  destruct (row !! lp); simpl; naive_solver.
Qed.

Lemma entry_exists ns np P s lp :
  pool_ok ns np P -> (s < ns)%nat -> (lp < np)%nat -> exists b, entry P s lp = Some b /\ -1 <= b.
Proof.
  intros O Hs Hlp. destruct (lookup_lt_is_Some_2 (pg_page_table P) s) as [row Hr];
    [by rewrite (pool_rows _ _ _ O)|].
  destruct (lookup_lt_is_Some_2 row lp) as [b Hb]; [by rewrite (pool_cols _ _ _ O s)|].
  exists b. split; [apply entry_Some; eauto|by eapply (pool_neg _ _ _ O)].
Qed.

Lemma elem_of_mapped t b :
  b ∈ mapped t <-> 0 <= b /\ exists s row lp, t !! s = Some row /\ row !! lp = Some b.
Proof.
  unfold mapped. rewrite list_elem_of_filter, elem_of_concat. split.
  - intros (H0 & row & [lp Hb]%list_elem_of_lookup & [s Hr]%list_elem_of_lookup). eauto 10.
  - intros (H0 & s & row & lp & Hr & Hb). split; [done|].
    exists row. split; eapply list_elem_of_lookup_2; eauto.
Qed.

(** A mapped block is a pool block. *)
Lemma entry_range ns np P s lp b :
  pool_ok ns np P -> entry P s lp = Some b -> 0 <= b -> 1 <= b <= Z.of_nat (pg_n_blocks P).
Proof.
  intros O (row & Hr & Hb)%entry_Some H0.
  assert (b ∈ pg_free_blocks P ++ mapped (pg_page_table P)) as H.
  { apply elem_of_app. right. apply elem_of_mapped. eauto 10. }
  rewrite (pool_perm _ _ _ O), elem_of_seqZ in H. lia.
Qed.

(** ** One write to the table *)

Lemma entry_put P s lp y f row s' lp' :
  pg_page_table P !! s = Some row -> (lp < length row)%nat ->
  entry (with_pages P (<[s := <[lp := y]> row]> (pg_page_table P)) f) s' lp' =
  if decide (s' = s /\ lp' = lp) then Some y else entry P s' lp'.
Proof.
  intros Hr Hlp. unfold entry, with_pages. simpl.
  pose proof (lookup_lt_Some _ _ _ Hr).
  destruct (decide (s' = s)) as [->|Hs].
  - rewrite list_lookup_insert_eq, Hr by done. simpl.
    destruct (decide (lp' = lp)) as [->|Hl].
    + rewrite list_lookup_insert_eq, decide_True by done. done.
    + rewrite list_lookup_insert_ne, decide_False by naive_solver. done.
  - rewrite list_lookup_insert_ne, decide_False by naive_solver. done.
Qed.

(** A write that exchanges blocks with the free stack keeps the invariant. *)
Lemma sat_page_put ns np P s lp x y f (Q : page_pool -> Prop) :
  pool_ok ns np P -> entry P s lp = Some x -> -1 <= y ->
  opt_block y ++ f ≡ₚ opt_block x ++ pg_free_blocks P ->
  (forall P', pool_ok ns np P' -> pg_block_size P' = pg_block_size P ->
     pg_n_blocks P' = pg_n_blocks P -> pg_free_blocks P' = f ->
     (forall s' lp', entry P' s' lp' = if decide (s' = s /\ lp' = lp) then Some y else entry P s' lp') ->
     Q P') ->
  sat (page_put P s lp y f) Q.
Proof.
  intros O (row & Hr & Hx)%entry_Some Hy Hf HQ.
  pose proof (lookup_lt_Some _ _ _ Hr) as Hs. pose proof (lookup_lt_Some _ _ _ Hx) as Hl.
  unfold page_put. apply sat_bind. eapply sat_vec_get; [done|].
  apply sat_bind, sat_vec_set; [done|]. apply sat_bind, sat_vec_set; [done|]. apply sat_ok.
  apply HQ; try done; [|intros; by apply entry_put].
  destruct O as [O1 O2 O3 O4 O5 O6 O7]. split; simpl; try done.
  - by rewrite length_insert.
  - intros s' row' [(<- & <- & _)|[_ H]]%list_lookup_insert_Some; [|by eapply O5].
    rewrite length_insert. by eapply O5.
  - intros s' row' lp' b [(<- & <- & _)|[_ H]]%list_lookup_insert_Some Hb; [|by eapply O6].
    apply list_lookup_insert_Some in Hb as [(_ & <- & _)|[_ Hb]]; [done|by eapply (O6 s row)].
  - pose proof (mapped_update (pg_page_table P) s row lp x y Hr Hx) as Hm.
    rewrite <- O7. apply (Permutation_app_inv_l (opt_block x)).
    rewrite app_assoc, (Permutation_app_comm (opt_block x) f), <- app_assoc, Hm.
    rewrite app_assoc, (Permutation_app_comm f), Hf. by rewrite <- app_assoc.
Qed.

(** ** The demand is bounded: a stream with an unmapped page leaves a free block *)

Lemma length_concat_rows (t : list (list Z)) np :
  (forall s row, t !! s = Some row -> length row = np) -> length (concat t) = (length t * np)%nat.
Proof.
  induction t as [|row t IH]; intros H; simpl; [done|].
  rewrite length_app, (H 0%nat row), IH by (done || intros s; apply (H (S s))). lia.
Qed.

Lemma filter_length_lt (P : Z -> Prop) `{!forall x, Decision (P x)} (l : list Z) x :
  x ∈ l -> ~ P x -> (length (filter P l) < length l)%nat.
Proof.
  intros Hx Hn. induction l as [|y l IH]; [set_solver|].
  rewrite filter_cons. apply elem_of_cons in Hx as [<-|Hx].
  - rewrite decide_False by done. simpl. pose proof (length_filter P l). lia.
  - specialize (IH Hx). case_decide; simpl; lia.
Qed.

Lemma free_nonempty ns np P s lp b :
  pool_ok ns np P -> entry P s lp = Some b -> b < 0 -> pg_free_blocks P <> [].
Proof.
  intros O (row & Hr & Hb)%entry_Some Hneg Hnil.
  pose proof (pool_perm _ _ _ O) as Hp. rewrite Hnil in Hp. simpl in Hp.
  apply Permutation_length in Hp. rewrite length_seqZ, Nat2Z.id, (pool_nb _ _ _ O) in Hp.
  assert (length (mapped (pg_page_table P)) < length (concat (pg_page_table P)))%nat as Hlt.
  { apply (filter_length_lt _ _ b); [|lia]. apply elem_of_concat.
    exists row. split; eapply list_elem_of_lookup_2; eauto. }
  rewrite (length_concat_rows _ np), (pool_rows _ _ _ O) in Hlt by (apply O).
  pose proof (pool_ns _ _ _ O). lia.
Qed.

(** ** The constructor and [clear] *)

Lemma full_stack_perm n : full_stack n ≡ₚ seqZ 1 (Z.of_nat n).
Proof.
  unfold full_stack. apply NoDup_Permutation.
  - apply NoDup_fmap_2_strong; [|apply NoDup_seq].
    intros x y Hx%elem_of_seq Hy%elem_of_seq. lia.
  - apply NoDup_seqZ.
  - intros x. rewrite list_elem_of_fmap, elem_of_seqZ. split.
    + intros (i & -> & Hi%elem_of_seq). lia.
    + intros Hx. exists (n - Z.to_nat x)%nat. rewrite elem_of_seq. lia.
Qed.

Lemma mapped_none t : (forall s row, t !! s = Some row -> Forall (fun b => b = -1) row) -> mapped t = [].
Proof.
  intros H. unfold mapped. destruct (filter _ (concat t)) as [|b l] eqn:E; [done|exfalso].
  assert (b ∈ filter (fun b => 0 <= b) (concat t)) as Hb by (rewrite E; set_solver).
  apply list_elem_of_filter in Hb as [Hge (row & Hb & [s Hr]%list_elem_of_lookup)%elem_of_concat].
  apply H in Hr. rewrite Forall_forall in Hr. apply Hr in Hb. lia.
Qed.

Lemma pool_init_ok kv_size n_stream bs :
  (0 < bs)%nat -> (0 < n_stream)%nat ->
  pool_ok n_stream (n_pages kv_size bs) (pool_init kv_size n_stream bs).
Proof.
  intros Hb Hn. unfold pool_init. split; simpl; try done.
  - by rewrite length_replicate.
  - intros s row [-> _]%lookup_replicate. by rewrite length_replicate.
  - intros s row lp b [-> _]%lookup_replicate [-> _]%lookup_replicate. done.
  - rewrite mapped_none, app_nil_r; [apply full_stack_perm|].
    intros s row [-> _]%lookup_replicate. by apply Forall_replicate.
Qed.

Lemma sat_pool_clear ns np P :
  pool_ok ns np P ->
  sat (pool_clear ns P) (fun P' => pool_ok ns np P' /\ pg_block_size P' = pg_block_size P /\
    forall s lp, (s < ns)%nat -> (lp < np)%nat -> entry P' s lp = Some (-1)).
Proof.
  intros O. unfold pool_clear.
  eapply sat_step; [apply (sat_for _ (fun k t => length t = ns /\
      (forall s row, t !! s = Some row -> length row = np) /\
      (forall s row, (s < k)%nat -> t !! s = Some row -> row = replicate np (-1))))|].
  - split_and!; [by apply O|by apply O|intros; lia].
  - intros s t Hs (Hl & Hc & Hd).
    destruct (lookup_lt_is_Some_2 t s) as [row Hr]; [lia|].
    apply sat_bind. eapply sat_vec_get; [done|]. apply sat_vec_set; [lia|].
    assert (Hrow : (fun _ : Z => -1) <$> row = replicate np (-1)).
    { rewrite <- (Hc s row Hr). clear. induction row as [|? ? IH]; [done|]. csimpl. by rewrite IH. }
    rewrite Hrow. split_and!.
    + by rewrite length_insert.
    + intros s' row' [(<- & <- & _)|[_ H]]%list_lookup_insert_Some; [by rewrite length_replicate|by eapply Hc].
    + intros s' row' Hs' [(<- & <- & _)|[? H]]%list_lookup_insert_Some; [done|].
      apply (Hd s'); [lia|done].
  - intros t (Hl & Hc & Hd). apply sat_ok.
    assert (Hrow : forall s row, t !! s = Some row -> row = replicate np (-1)).
    { intros s row Hr. apply (Hd s); [|done]. apply lookup_lt_Some in Hr. lia. }
    split_and!; [|done|].
    + destruct O as [O1 O2 O3 O4 O5 O6 O7]. split; simpl; try done.
      * intros s row lp b Hr Hb. apply Hrow in Hr as ->. by apply lookup_replicate in Hb as [-> _].
      * rewrite mapped_none, app_nil_r; [apply full_stack_perm|].
        intros s row Hr. apply Hrow in Hr as ->. by apply Forall_replicate.
    + intros s lp Hs Hlp. apply entry_Some.
      destruct (lookup_lt_is_Some_2 t s) as [row Hr]; [lia|]. exists row. split; [done|].
      apply Hrow in Hr as ->. by apply lookup_replicate_2.
Qed.

(** ** Releasing pages *)

Lemma mforall_pure {A} (f : A -> res bool) (p : A -> bool) l :
  (forall x, x ∈ l -> f x = Ok (p x)) -> mforall f l = Ok (forallb p l).
Proof.
  induction l as [|x l IH]; intros H; simpl; [done|].
  rewrite H by set_solver. simpl. destruct (p x); simpl; [|done]. apply IH. set_solver.
Qed.

(** The cells of page [lp]. *)
Definition page_cells (P : page_pool) (kv_sz lp : nat) : list nat :=
  let lo := (lp * pg_block_size P)%nat in seq lo (Nat.min (lo + pg_block_size P) kv_sz - lo).

Lemma elem_of_page_cells P kv_sz lp c :
  (0 < pg_block_size P)%nat ->
  c ∈ page_cells P kv_sz lp <-> (c < kv_sz)%nat /\ (c / pg_block_size P = lp)%nat.
Proof.
  intros Hb. unfold page_cells. rewrite elem_of_seq. split.
  - intros H. split; [lia|]. symmetry. apply (Nat.div_unique _ _ _ (c - lp * pg_block_size P)); lia.
  - intros [Hc <-]. pose proof (Nat.div_mod c (pg_block_size P)) as Hd.
    pose proof (Nat.mod_upper_bound c (pg_block_size P)). lia.
Qed.

Lemma sat_try_free ns np P emp (e : nat -> bool) kv_sz s lp :
  pool_ok ns np P -> (s < ns)%nat -> (lp < np)%nat ->
  (forall c, (c < kv_sz)%nat -> emp c = Ok (e c)) ->
  sat (try_free_page emp kv_sz s P lp) (fun P' => pool_ok ns np P' /\
    pg_block_size P' = pg_block_size P /\
    forall s' lp', entry P' s' lp' =
      if decide (s' = s /\ lp' = lp /\ forallb e (page_cells P kv_sz lp) = true) then Some (-1)
      else entry P s' lp').
Proof.
  intros O Hs Hlp He. destruct (entry_exists ns np P s lp O Hs Hlp) as (b & Hb & Hge).
  unfold try_free_page. rewrite (proj2 (page_at_entry P s lp b) Hb). apply sat_bind, sat_ok.
  destruct (Z.ltb_spec b 0) as [Hneg|Hpos].
  { apply sat_ok. split_and!; [done|done|]. intros s' lp'.
    case_decide as Hd; [|done]. destruct Hd as (-> & -> & _). rewrite Hb. f_equal. lia. }
  fold (page_cells P kv_sz lp). rewrite (mforall_pure _ e).
  2:{ intros c [Hc _]%elem_of_page_cells; [by apply He|apply O]. }
  apply sat_bind, sat_ok. destruct (forallb e (page_cells P kv_sz lp)).
  - eapply sat_page_put; [done|done|lia| |].
    + unfold opt_block. rewrite decide_False, decide_True by lia. simpl.
      by rewrite Permutation_app_comm.
    + intros P' O' Hbs Hnb _ Hent. split_and!; [done|done|].
      intros s' lp'. rewrite Hent. apply decide_ext. naive_solver.
  - apply sat_ok. split_and!; [done|done|].
    intros s' lp'. by rewrite decide_False by naive_solver.
Qed.

(** After the release pass over stream [s]: a page of [s] whose cells are all
    empty is unmapped, every other entry is as before. *)
Lemma sat_free_empty_pages ns np P emp (e : nat -> bool) kv_sz s :
  pool_ok ns np P -> (s < ns)%nat -> np = n_pages kv_sz (pg_block_size P) ->
  (forall c, (c < kv_sz)%nat -> emp c = Ok (e c)) ->
  sat (free_empty_pages emp kv_sz s P) (fun P' => pool_ok ns np P' /\
    pg_block_size P' = pg_block_size P /\
    forall s' lp', entry P' s' lp' =
      if decide (s' = s /\ (lp' < np)%nat /\ forallb e (page_cells P kv_sz lp') = true) then Some (-1)
      else entry P s' lp').
Proof.
  intros O Hs Hnp He. unfold free_empty_pages. rewrite <- Hnp.
  eapply sat_mono; [apply (sat_for _ (fun k P' => pool_ok ns np P' /\
    pg_block_size P' = pg_block_size P /\
    forall s' lp', entry P' s' lp' =
      if decide (s' = s /\ (lp' < k)%nat /\ forallb e (page_cells P kv_sz lp') = true) then Some (-1)
      else entry P s' lp'))|].
  - split_and!; [done|done|]. intros. by rewrite decide_False by naive_solver lia.
  - intros lp P1 Hlp (O1 & Hbs & Hent).
    eapply sat_mono; [by apply (sat_try_free ns np)|].
    intros P2 (O2 & Hbs2 & Hent2). split_and!; [done|congruence|].
    intros s' lp'. rewrite Hent2, Hent.
    assert (page_cells P1 kv_sz lp = page_cells P kv_sz lp) as Hpc
      by (unfold page_cells; by rewrite Hbs).
    rewrite Hpc. destruct (decide (lp' = lp)) as [->|Hne].
    + destruct (decide (s' = s /\ lp = lp /\ forallb e (page_cells P kv_sz lp) = true)) as [Hd|Hd].
      * rewrite decide_True; [done|]. destruct Hd as (? & _ & ?). split_and!; [done|lia|done].
      * rewrite !decide_False; [done| |]; intros (? & ? & ?); [|lia]. naive_solver.
    + rewrite decide_False by naive_solver. apply decide_ext. split; intros (? & ? & ?); split_and!; try done; lia.
  - intros P' H. done.
Qed.

(** ** Allocation *)

Section alloc_theory.
Context {F : Type} (flt : F -> F -> bool) (fmax : F) (score : nat -> nat -> F) (budget : nat).

(** The mapped entries that a step on stream [strm] must leave alone. *)
Definition keeps (strm : nat) (keep : gset nat) (P P' : page_pool) : Prop :=
  forall s lp b, entry P s lp = Some b -> 0 <= b ->
    s <> strm \/ lp ∈ keep \/ budget = 0%nat -> entry P' s lp = Some b.

Lemma keeps_refl strm keep P : keeps strm keep P P.
Proof. by intros s lp b. Qed.

Lemma keeps_trans strm keep P1 P2 P3 :
  keeps strm keep P1 P2 -> keeps strm keep P2 P3 -> keeps strm keep P1 P3.
Proof. intros H1 H2 s lp b Hb H0 Hk. apply H2; [|done|done]. by apply H1. Qed.

(** The victim is a mapped page outside the batch. *)
Lemma pick_evict_Some P strm keep row lp :
  pick_evict flt fmax score P strm keep row = Some lp ->
  (lp ∉ keep) /\ exists b, row !! lp = Some b /\ 0 <= b.
Proof.
  unfold pick_evict. generalize (seq 0 (length row)) as l. intros l.
  set (Q := fun st : F * option nat => forall lp, st.2 = Some lp ->
    (lp ∉ keep) /\ exists b, row !! lp = Some b /\ 0 <= b).
  assert (HQ : Q (fmax, None)) by (intros ? [=]).
  revert HQ. generalize (fmax, @None nat) as st. induction l as [|x l IH]; intros st HQ H.
  - by apply HQ.
  - simpl in H. apply IH in H; [done|]. destruct st as [mn ev].
    case_decide as Hd; [|done]. destruct (flt (score strm x) mn); [|done].
    intros lp' [= <-]. destruct Hd as [Hd Hk]. split; [done|].
    destruct (row !! x) as [b|]; simpl in Hd; [eauto|lia].
Qed.

Lemma sat_evict ns np P strm keep :
  pool_ok ns np P -> (strm < ns)%nat ->
  sat (evict_step flt fmax score budget P strm keep) (fun P' => pool_ok ns np P' /\
    pg_block_size P' = pg_block_size P /\ pg_n_blocks P' = pg_n_blocks P /\
    keeps strm keep P P' /\
    forall lp b, entry P strm lp = Some b -> b < 0 -> entry P' strm lp = Some b).
Proof.
  intros O Hs. unfold evict_step.
  destruct (Nat.eqb_spec budget 0) as [Hb0|Hb0].
  { apply sat_ok. auto using keeps_refl. }
  destruct (lookup_lt_is_Some_2 (pg_page_table P) strm) as [row Hr];
    [by rewrite (pool_rows _ _ _ O)|].
  apply sat_bind. eapply sat_vec_get; [done|].
  destruct (_ <? budget)%nat; [apply sat_ok; auto using keeps_refl|].
  destruct (pick_evict _ _ _ P strm keep row) as [lp|] eqn:E; [|apply sat_ok; auto using keeps_refl].
  apply pick_evict_Some in E as (Hk & b & Hb & Hpos).
  apply sat_bind. eapply sat_vec_get; [done|].
  eapply sat_page_put; [done|apply entry_Some; eauto|lia| |].
  { unfold opt_block. rewrite decide_False, decide_True by lia. simpl.
    by rewrite Permutation_app_comm. }
  intros P' O' Hbs Hnb _ Hent. split_and!; [done|done|done|..].
  - intros s lp' b' Hb' H0 [Hs'|[Hk'|?]]; [| |lia]; rewrite Hent, decide_False; naive_solver.
  - intros lp' b' Hb' Hneg. rewrite Hent. case_decide as Hd; [|done].
    destruct Hd as [_ ->]. apply entry_Some in Hb' as (row' & ? & ?). simplify_eq. lia.
Qed.

(** One cell: its page is mapped afterwards. *)
Lemma sat_alloc_cell ns np P strm keep c :
  pool_ok ns np P -> (strm < ns)%nat -> (c / pg_block_size P < np)%nat ->
  (c / pg_block_size P)%nat ∈ keep ->
  sat (alloc_cell flt fmax score budget strm keep np P c) (fun P' => pool_ok ns np P' /\
    pg_block_size P' = pg_block_size P /\ pg_n_blocks P' = pg_n_blocks P /\ keeps strm keep P P' /\
    exists b, entry P' strm (c / pg_block_size P) = Some b /\ 0 <= b).
Proof.
  intros O Hs Hc Hk. unfold alloc_cell. set (lp := (c / pg_block_size P)%nat) in *.
  apply sat_bind, sat_assert; [by apply Nat.ltb_lt|].
  destruct (entry_exists ns np P strm lp O Hs Hc) as (b & Hb & _).
  rewrite (proj2 (page_at_entry P strm lp b) Hb). apply sat_bind, sat_ok.
  destruct (Z.ltb_spec b 0) as [Hneg|Hpos]; [|apply sat_ok; eauto 10 using keeps_refl].
  eapply sat_step; [by apply (sat_evict ns np)|].
  intros P1 (O1 & Hbs1 & Hnb1 & Hk1 & Hn1). pose proof (Hn1 lp b Hb Hneg) as Hb1.
  pose proof (free_nonempty ns np P1 strm lp b O1 Hb1 Hneg) as Hfree.
  destruct (last (pg_free_blocks P1)) as [nb|] eqn:El;
    [|by apply last_None in El].
  assert (Hsplit : pg_free_blocks P1 = removelast (pg_free_blocks P1) ++ [nb]).
  { apply last_Some in El as [l' ->]. by rewrite removelast_last. }
  assert (1 <= nb <= Z.of_nat (pg_n_blocks P1)) as Hnb.
  { assert (nb ∈ pg_free_blocks P1 ++ mapped (pg_page_table P1)) as H
      by (rewrite Hsplit; set_solver).
    rewrite (pool_perm _ _ _ O1), elem_of_seqZ in H. lia. }
  eapply sat_page_put; [done|done|lia| |].
  { unfold opt_block. rewrite decide_True, decide_False by lia.
    rewrite Hsplit at 2. simpl. by rewrite Permutation_app_comm. }
  intros P2 O2 Hbs2 Hnb2 _ Hent. split_and!; [done|congruence|congruence|..].
  - eapply keeps_trans; [done|]. intros s lp' b' Hb' H0 _. rewrite Hent.
    rewrite decide_False; [done|]. intros [-> ->]. simplify_eq. lia.
  - exists nb. rewrite Hent, decide_True by done. split; [done|lia].
Qed.

(** What a micro-batch placement must satisfy. *)
Record sinfo_ok (ns np bs : nat) (si : slot_info) : Prop := {
  si_len  : length (si_idxs si) = length (si_strm si);
  si_nd   : NoDup (si_strm si);
  si_s    : forall s, s ∈ si_strm si -> (s < ns)%nat;
  si_cell : forall k idxs c, si_idxs si !! k = Some idxs -> c ∈ idxs -> (c / bs < np)%nat
}.

(** Cell [c] of stream [s] has a physical block. *)
Definition cell_mapped (P : page_pool) (s c : nat) : Prop :=
  exists b, entry P s (c / pg_block_size P) = Some b /\ 0 <= b.

Lemma sat_alloc_stream ns np P strm idxs :
  pool_ok ns np P -> (strm < ns)%nat ->
  (forall c, c ∈ idxs -> (c / pg_block_size P < np)%nat) ->
  sat (mfor (alloc_cell flt fmax score budget strm (batch_pages P idxs) np) idxs P)
    (fun P' => pool_ok ns np P' /\ pg_block_size P' = pg_block_size P /\
      keeps strm (batch_pages P idxs) P P' /\ forall c, c ∈ idxs -> cell_mapped P' strm c).
Proof.
  intros O Hs Hc. set (keep := batch_pages P idxs).
  assert (Hin : forall c, c ∈ idxs -> (c / pg_block_size P)%nat ∈ keep).
  { intros c H. unfold keep, batch_pages. rewrite elem_of_list_to_set, list_elem_of_fmap. eauto. }
  apply (sat_mfor _ (fun d P' => pool_ok ns np P' /\ pg_block_size P' = pg_block_size P /\
    keeps strm keep P P' /\ forall c, c ∈ d -> cell_mapped P' strm c)).
  { split_and!; [done|done|apply keeps_refl|]. intros c H. by apply not_elem_of_nil in H. }
  intros d c r P1 Heq (O1 & Hbs & Hk & Hm).
  assert (c ∈ idxs) as Hci by (rewrite Heq; set_solver).
  eapply sat_mono; [apply (sat_alloc_cell ns np); rewrite ?Hbs; auto|].
  intros P2 (O2 & Hbs2 & _ & Hk2 & b & Hb & H0). rewrite Hbs in Hbs2, Hb.
  split_and!; [done|done|by eapply keeps_trans|].
  intros c' [Hc'|Hc']%elem_of_app.
  - destruct (Hm c' Hc') as (b' & Hb' & H0'). exists b'. rewrite Hbs2 in *. rewrite Hbs in Hb'.
    split; [|done]. apply (Hk2 strm); [done|done|]. right. left. apply Hin. rewrite Heq. set_solver.
  - apply list_elem_of_singleton in Hc' as ->. exists b. by rewrite Hbs2.
Qed.

Lemma sat_pg_alloc ns np P si :
  pool_ok ns np P -> sinfo_ok ns np (pg_block_size P) si ->
  sat (pg_alloc_for_sinfo flt fmax score budget P si) (fun P' => pool_ok ns np P' /\
    pg_block_size P' = pg_block_size P /\
    (forall k s idxs c, si_strm si !! k = Some s -> si_idxs si !! k = Some idxs -> c ∈ idxs ->
       cell_mapped P' s c) /\
    (budget = 0%nat -> forall s lp b, entry P s lp = Some b -> 0 <= b -> entry P' s lp = Some b)).
Proof.
  intros O [Sl Snd Ss Sc]. unfold pg_alloc_for_sinfo.
  destruct (lookup_lt_is_Some_2 (pg_page_table P) 0) as [row0 Hr0];
    [rewrite (pool_rows _ _ _ O); apply O|].
  apply sat_bind. eapply sat_vec_get; [done|]. rewrite (pool_cols _ _ _ O 0 row0 Hr0).
  eapply sat_mono; [apply (sat_for _ (fun n P' => pool_ok ns np P' /\
    pg_block_size P' = pg_block_size P /\
    (forall k s idxs c, (k < n)%nat -> si_strm si !! k = Some s -> si_idxs si !! k = Some idxs ->
       c ∈ idxs -> cell_mapped P' s c) /\
    (budget = 0%nat -> forall s lp b, entry P s lp = Some b -> 0 <= b -> entry P' s lp = Some b)))|].
  - split_and!; [done|done|intros; lia|done].
  - intros n P1 Hn (O1 & Hbs & Hm & Hb0).
    destruct (lookup_lt_is_Some_2 (si_strm si) n Hn) as [s Hs].
    destruct (lookup_lt_is_Some_2 (si_idxs si) n) as [idxs Hi]; [lia|].
    apply sat_bind. eapply sat_vec_get; [done|]. apply sat_bind. eapply sat_vec_get; [done|].
    eapply sat_mono; [apply (sat_alloc_stream ns np); [done|..]|].
    + apply Ss. by eapply list_elem_of_lookup_2.
    + intros c Hc. rewrite Hbs. by eapply Sc.
    + intros P2 (O2 & Hbs2 & Hk & Hm2). split_and!; [done|congruence|..].
      * intros k s' idxs' c Hk' Hs' Hi' Hc.
        destruct (decide (k = n)) as [->|Hne]; [simplify_eq; by apply Hm2|].
        destruct (Hm k s' idxs' c) as (b & Hb & H0); [lia|done..|].
        exists b. split; [|done]. rewrite Hbs2. apply Hk; [done|done|].
        left. intros ->. apply Hne. by eapply NoDup_lookup.
      * intros Hz s' lp b Hb H0. apply Hk; [by apply Hb0|done|]. auto.
  - intros P' (O' & Hbs & Hm & Hb0). split_and!; [done|done| |done].
    intros k s idxs c Hk. apply (Hm k); [|done]. by eapply lookup_lt_Some.
Qed.
End alloc_theory.

(** ** Address translation *)

Lemma lookup_concat_split (t : list (list Z)) s row :
  t !! s = Some row -> concat t = concat (take s t) ++ row ++ concat (drop (S s) t).
Proof.
  intros H. rewrite <- (take_drop_middle t s row H) at 1. by rewrite concat_app.
Qed.

(** Two page table entries never share a physical block. *)
Lemma entry_inj ns np P s1 lp1 s2 lp2 b :
  pool_ok ns np P -> entry P s1 lp1 = Some b -> entry P s2 lp2 = Some b -> 0 <= b ->
  s1 = s2 /\ lp1 = lp2.
Proof.
  intros O H1 H2 H0.
  assert (Hnd : NoDup (mapped (pg_page_table P))).
  { assert (NoDup (pg_free_blocks P ++ mapped (pg_page_table P))) as H
      by (rewrite (pool_perm _ _ _ O); apply NoDup_seqZ).
    by apply NoDup_app in H as (_ & _ & ?). }
  apply entry_Some in H1 as (r1 & Hr1 & Hb1). apply entry_Some in H2 as (r2 & Hr2 & Hb2).
  (* unmap the first entry: were the second a different one, [b] would still be mapped *)
  pose proof (mapped_update (pg_page_table P) s1 r1 lp1 b (-1) Hr1 Hb1) as Hp.
  unfold opt_block in Hp. rewrite decide_True, decide_False in Hp by lia. simpl in Hp.
  rewrite <- Hp in Hnd. apply NoDup_cons in Hnd as [Hnot _].
  destruct (decide (s1 = s2 /\ lp1 = lp2)) as [|Hne]; [done|exfalso].
  apply Hnot, elem_of_mapped. split; [done|].
  pose proof (lookup_lt_Some _ _ _ Hr1). pose proof (lookup_lt_Some _ _ _ Hb1).
  destruct (decide (s1 = s2)) as [->|Hs].
  - simplify_eq. exists s2, (<[lp1 := -1]> r1), lp2.
    rewrite list_lookup_insert_eq by done. split; [done|].
    rewrite list_lookup_insert_ne; [done|naive_solver].
  - exists s2, r2, lp2. by rewrite list_lookup_insert_ne.
Qed.

Lemma phys_row_inj P b1 c1 b2 c2 :
  (0 < pg_block_size P)%nat -> phys_row P b1 c1 = phys_row P b2 c2 ->
  b1 = b2 /\ (c1 mod pg_block_size P = c2 mod pg_block_size P)%nat.
Proof.
  unfold phys_row. intros Hb H.
  pose proof (Nat.mod_upper_bound c1 (pg_block_size P)).
  pose proof (Nat.mod_upper_bound c2 (pg_block_size P)).
  destruct (Z.div_mod_unique (Z.of_nat (pg_block_size P)) b1 b2
    (Z.of_nat (c1 mod pg_block_size P)) (Z.of_nat (c2 mod pg_block_size P))); [lia..|].
  split; [done|lia].
Qed.

(** ** The pool of a running cache *)

(** The operations on the pool between its set-up and the destruction of the cache. *)
Inductive pool_step (kv_size ns bs : nat) : page_pool -> page_pool -> Prop :=
  | pool_step_clear P P' :
      pool_clear ns P = Ok P' -> pool_step kv_size ns bs P P'
  | pool_step_free P P' s (e : nat -> bool) :
      (s < ns)%nat -> free_empty_pages (fun c => Ok (e c)) kv_size s P = Ok P' ->
      pool_step kv_size ns bs P P'
  | pool_step_alloc F (flt : F -> F -> bool) fmax score budget si P P' :
      sinfo_ok ns (n_pages kv_size bs) bs si ->
      pg_alloc_for_sinfo flt fmax score budget P si = Ok P' -> pool_step kv_size ns bs P P'.

Definition pool_reachable (kv_size ns bs : nat) : page_pool -> Prop :=
  rtc (pool_step kv_size ns bs) (pool_init kv_size ns bs).

Definition pool_inv (kv_size ns bs : nat) (P : page_pool) : Prop :=
  pool_ok ns (n_pages kv_size bs) P /\ pg_block_size P = bs.

Lemma sat_ok_inv {A} (m : res A) (Q : A -> Prop) x : sat m Q -> m = Ok x -> Q x.
Proof. intros H ->. exact H. Qed.

Lemma pool_step_inv kv_size ns bs P P' :
  pool_step kv_size ns bs P P' -> pool_inv kv_size ns bs P -> pool_inv kv_size ns bs P'.
Proof.
  intros [Q Q' H|Q Q' s e Hs H|F flt fmax score budget si Q Q' Hsi H] [O <-].
  - destruct (sat_ok_inv _ _ _ (sat_pool_clear _ _ _ O) H) as (? & ? & _). by split.
  - destruct (sat_ok_inv _ _ _ (sat_free_empty_pages _ _ _ _ e kv_size s O Hs eq_refl
      (fun _ _ => eq_refl)) H) as (? & ? & _). by split.
  - destruct (sat_ok_inv _ _ _ (sat_pg_alloc flt fmax score budget _ _ Q si O Hsi) H)
      as (? & ? & _). by split.
Qed.

Lemma pool_reachable_inv kv_size ns bs P :
  (0 < bs)%nat -> (0 < ns)%nat -> pool_reachable kv_size ns bs P -> pool_inv kv_size ns bs P.
Proof.
  intros Hb Hn. unfold pool_reachable. apply (rtc_ind_r (fun P => pool_inv kv_size ns bs P)).
  - split; [by apply pool_init_ok|done].
  - intros Q Q' _ Hs. by apply pool_step_inv.
Qed.

(** Every physical row behind a mapped page lies past the zero block and inside
    the [(kv_size + bs) * ns] rows of the V tensor. *)
Lemma phys_row_bounds kv_size ns bs P s lp b cell :
  pool_inv kv_size ns bs P -> (kv_size mod bs = 0)%nat -> entry P s lp = Some b -> 0 <= b ->
  Z.of_nat bs <= phys_row P b cell < Z.of_nat ((kv_size + bs) * ns).
Proof.
  intros [O <-] Hm Hb H0. destruct (entry_range _ _ _ _ _ _ O Hb H0) as [Hlo Hhi].
  pose proof (pool_bs _ _ _ O) as Hbs. pose proof (pool_ns _ _ _ O) as Hns.
  rewrite (pool_nb _ _ _ O) in Hhi. unfold phys_row, n_pages in *.
  pose proof (Nat.mod_upper_bound cell (pg_block_size P)) as Hc.
  set (B := pg_block_size P) in *. apply Nat.Div0.mod_divides in Hm as [q ->].
  assert (((B * q + B - 1) / B)%nat = q) as Hq.
  { symmetry. apply (Nat.div_unique _ _ _ (B - 1)); lia. }
  rewrite Hq in Hhi. nia.
Qed.

(** C2: However the pool is cleared, pages are released and micro-batches are given
    pages, the free stack and the mapped entries together are always exactly the blocks
    1 .. [pg_n_blocks], each once: no block is lost, none is handed out twice, and the
    shared zero block 0 is never handed out. *)
Theorem pool_blocks_partition kv_size ns bs P
    (Hb : (0 < bs)%nat) (Hn : (0 < ns)%nat) (R : pool_reachable kv_size ns bs P) :
  pg_free_blocks P ++ mapped (pg_page_table P) ≡ₚ
    seqZ 1 (Z.of_nat ((n_pages kv_size bs + 1) * ns - 1)).
Proof.
  destruct (pool_reachable_inv _ _ _ _ Hb Hn R) as [O _].
  rewrite <- (pool_nb _ _ _ O). apply O.
Qed.

Lemma pool_blocks_partition_witness :
  exists P, pool_clear 2 (pool_init 64 2 32) = Ok P /\
    pg_free_blocks P ++ mapped (pg_page_table P) ≡ₚ seqZ 1 5.
Proof.
  eexists. split; [reflexivity|].
  apply (pool_blocks_partition 64 2 32); [lia|lia|].
  eapply rtc_once, pool_step_clear. reflexivity.
Defined.

(** C3: [pg_alloc_for_sinfo] never runs out of blocks and never goes out of bounds on a
    reachable pool: it returns, every cell of the micro-batch is then backed by a
    physical block, and when TriAttention eviction is off no page is unmapped. *)
Theorem pg_alloc_safe {F} (flt : F -> F -> bool) fmax score budget kv_size ns bs P si
    (Hb : (0 < bs)%nat) (Hn : (0 < ns)%nat) (R : pool_reachable kv_size ns bs P)
    (S : sinfo_ok ns (n_pages kv_size bs) bs si) :
  exists P', pg_alloc_for_sinfo flt fmax score budget P si = Ok P' /\
    (forall k s idxs c, si_strm si !! k = Some s -> si_idxs si !! k = Some idxs -> c ∈ idxs ->
       cell_mapped P' s c) /\
    (budget = 0%nat -> forall s c, cell_mapped P s c -> cell_mapped P' s c).
Proof.
  destruct (pool_reachable_inv _ _ _ _ Hb Hn R) as [O <-].
  destruct (proj1 (sat_exists _ _) (sat_pg_alloc flt fmax score budget _ _ _ _ O S))
    as (P' & HP & _ & E & Hm & Hk).
  exists P'. split_and!; [done|done|]. intros Hz s c (b & Hb' & H0). exists b.
  split; [|done]. rewrite E. by apply Hk.
Qed.

Lemma pg_alloc_safe_witness :
  exists P', pg_alloc_for_sinfo Nat.ltb 100%nat (fun _ lp => lp) 1 (pool_init 64 1 32)
      (mk_slot 0 0 [0%nat] [[31; 32]%nat]) = Ok P' /\ cell_mapped P' 0 32.
Proof.
  destruct (pg_alloc_safe Nat.ltb 100%nat (fun _ lp => lp) 1 64 1 32 (pool_init 64 1 32)
    (mk_slot 0 0 [0%nat] [[31; 32]%nat])) as (P' & H & Hm & _); [lia|lia|apply rtc_refl| |].
  - split; simpl; [done|apply NoDup_singleton|set_solver by lia|].
    intros [|k] idxs c [= <-] Hc. repeat (apply elem_of_cons in Hc as [->|Hc]; [vm_compute; lia|]).
    by apply not_elem_of_nil in Hc.
  - exists P'. split; [exact H|]. apply (Hm 0%nat 0%nat [31; 32]%nat 32%nat); set_solver.
Defined.

(** Paged addressing does not alias and stays in bounds: on a reachable pool whose
    stream size is a multiple of the block size, two cells have the same physical row of
    the V pool only if they are the same cell of the same stream, and the row is past the
    zero block and inside the [(kv_size + bs) * n_stream] rows of the tensor. *)
Lemma paged_rows_disjoint kv_size ns bs P s1 c1 b1 s2 c2 b2
    (Hb : (0 < bs)%nat) (Hn : (0 < ns)%nat) (Hm : (kv_size mod bs = 0)%nat)
    (R : pool_reachable kv_size ns bs P)
    (H1 : entry P s1 (c1 / bs) = Some b1) (P1 : 0 <= b1)
    (H2 : entry P s2 (c2 / bs) = Some b2) (P2 : 0 <= b2) :
  Z.of_nat bs <= phys_row P b1 c1 < Z.of_nat ((kv_size + bs) * ns) /\
  (phys_row P b1 c1 = phys_row P b2 c2 -> s1 = s2 /\ c1 = c2).
Proof.
  pose proof (pool_reachable_inv _ _ _ _ Hb Hn R) as I. split; [by eapply phys_row_bounds|].
  destruct I as [O E]. intros Heq. apply phys_row_inj in Heq as [<- Hmod]; [|apply O].
  destruct (entry_inj _ _ _ _ _ _ _ _ O H1 H2 P1) as [<- Hd]. split; [done|].
  rewrite E in Hmod. pose proof (Nat.div_mod_eq c1 bs). pose proof (Nat.div_mod_eq c2 bs). congruence.
Qed.

Lemma paged_rows_disjoint_witness :
  32 <= phys_row (mk_pool 32 5 [[1; -1]; [-1; 2]] [5; 4; 3]) 2 40 < 192.
Proof.
  refine (proj1 (paged_rows_disjoint 64 2 32 (mk_pool 32 5 [[1; -1]; [-1; 2]] [5; 4; 3])
    1 40 2 1 40 2 _ _ _ _ _ _ _ _)); try lia; try reflexivity.
  eapply rtc_once, (pool_step_alloc _ _ _ nat Nat.ltb 0%nat (fun _ _ => 0%nat) 0%nat
    (mk_slot 0 1 [0; 1]%nat [[3]; [40]]%nat)); [|vm_compute; reflexivity].
  split; simpl; [done| | |].
  - apply NoDup_ListNoDup. repeat constructor; simpl; lia.
  - set_solver by lia.
  - intros [|[|k]] idxs c [= <-] Hc%list_elem_of_singleton; subst; vm_compute; lia.
Defined.
