(* ===== verification/KvCache.v ===== *)
(** * The KV cache: [llama_kv_cache] of src/src/llama-kv-cache.{h,cpp}

    The cell metadata of every stream, the search heads, the map from sequences to
    streams, the pending stream copies and the page pool.  Member function [f] is
    the definition [cache_f].  The K and V tensors themselves, and the backend that
    moves them, are not modelled: an operation here is its effect on the metadata.
    Indices and sizes ([uint32_t]) are [nat]: they are bounded by the cache size. *)

From S2P Require Import Prelude KvCells Batch Pages.

Inductive llama_swa_type : Set :=
  | LLAMA_SWA_TYPE_NONE
  | LLAMA_SWA_TYPE_STANDARD
  | LLAMA_SWA_TYPE_CHUNKED
  | LLAMA_SWA_TYPE_SYMMETRIC.

(** [llama_hparams::is_masked_swa] *)
Definition is_masked_swa (n_swa : Z) (t : llama_swa_type) (p0 p1 : Z) : res bool :=
  _ ← assert_ ((0 <=? p0) && (0 <=? p1));
  match t with
  | LLAMA_SWA_TYPE_NONE => Ok false
  | LLAMA_SWA_TYPE_STANDARD => Ok (s32 n_swa <=? p1 - p0)
  | LLAMA_SWA_TYPE_CHUNKED =>
      if n_swa =? 0 then Err DivByZero
      else let pos_chunk_start := p1 / n_swa * n_swa in Ok (p0 <? pos_chunk_start)
  | LLAMA_SWA_TYPE_SYMMETRIC =>
      let half_n_swa := Z.quot (s32 n_swa) 2 in
      let pos_diff := p1 - p0 in
      Ok ((pos_diff <? - half_n_swa) || (half_n_swa <? pos_diff))
  end.

Record kv_cache : Type := mk_kv {
  kv_n_seq_max       : nat;
  kv_n_stream        : nat;
  kv_n_pad           : nat;
  kv_n_swa           : Z;
  kv_swa_type        : llama_swa_type;
  kv_n_pos_per_embd  : nat;
  kv_budget          : nat;              (* [triattention_page_budget] *)
  kv_heads           : list nat;
  kv_cells           : list llama_kv_cells;
  kv_seq_to_stream   : list nat;
  kv_sc_info         : list nat * list nat;
  kv_pg_enabled      : bool;
  kv_pool            : page_pool
}.

Definition with_heads h (k : kv_cache) := mk_kv (kv_n_seq_max k) (kv_n_stream k) (kv_n_pad k)
  (kv_n_swa k) (kv_swa_type k) (kv_n_pos_per_embd k) (kv_budget k) h (kv_cells k)
  (kv_seq_to_stream k) (kv_sc_info k) (kv_pg_enabled k) (kv_pool k).
Definition with_cells c (k : kv_cache) := mk_kv (kv_n_seq_max k) (kv_n_stream k) (kv_n_pad k)
  (kv_n_swa k) (kv_swa_type k) (kv_n_pos_per_embd k) (kv_budget k) (kv_heads k) c
  (kv_seq_to_stream k) (kv_sc_info k) (kv_pg_enabled k) (kv_pool k).
Definition with_sc_info i (k : kv_cache) := mk_kv (kv_n_seq_max k) (kv_n_stream k) (kv_n_pad k)
  (kv_n_swa k) (kv_swa_type k) (kv_n_pos_per_embd k) (kv_budget k) (kv_heads k) (kv_cells k)
  (kv_seq_to_stream k) i (kv_pg_enabled k) (kv_pool k).
Definition with_pool e p (k : kv_cache) := mk_kv (kv_n_seq_max k) (kv_n_stream k) (kv_n_pad k)
  (kv_n_swa k) (kv_swa_type k) (kv_n_pos_per_embd k) (kv_budget k) (kv_heads k) (kv_cells k)
  (kv_seq_to_stream k) (kv_sc_info k) e p.

(** [auto & cells = v_cells\[s\]; auto & head = v_heads\[s\];] and writing them back. *)
Definition put_cells (k : kv_cache) (s : nat) (c : llama_kv_cells) : res kv_cache :=
  l ← vec_set (kv_cells k) s c; Ok (with_cells l k).
Definition put_head (k : kv_cache) (s : nat) (h : nat) : res kv_cache :=
  l ← vec_set (kv_heads k) s h; Ok (with_heads l k).

(** The metadata part of the constructor ([kv_size] cells per stream; paging on or
    off is decided there from the backend and the environment). *)
Definition cache_new (unified : bool) (kv_size n_seq_max n_pad : nat) (n_swa : Z)
    (swa_type : llama_swa_type) (n_pos_per_embd budget : nat) (paged : bool) : res kv_cache :=
  _ ← (if (n_pad =? 0)%nat then Err DivByZero else Ok tt);
  _ ← assert_ (kv_size mod n_pad =? 0)%nat;
  let n_stream := if unified then 1%nat else n_seq_max in
  let sts := replicate MAX_SEQ 0%nat in
  sts ← (if (1 <? n_stream)%nat then mfor (fun l s => vec_set l s s) (seq 0 n_stream) sts else Ok sts);
  Ok (mk_kv n_seq_max n_stream n_pad n_swa swa_type n_pos_per_embd budget
        (replicate n_stream 0%nat) (replicate n_stream (cells_resize kv_size cells_new)) sts ([], [])
        paged (if paged then pool_init kv_size n_stream 32 else mk_pool 32 0 [] [])).

Definition cache_on_flash_attn_disabled (k : kv_cache) : kv_cache := with_pool false (kv_pool k) k.

Definition cache_get_size (k : kv_cache) : res nat :=
  s ← vec_get (kv_seq_to_stream k) 0; c ← vec_get (kv_cells k) s; Ok (cells_size c).

Definition cache_get_has_shift (k : kv_cache) : res bool :=
  mfor (fun r s => c ← vec_get (kv_cells k) s; Ok (r || cells_get_has_shift c))
    (seq 0 (kv_n_stream k)) false.

(** [clear]: the metadata and the pool; the data buffers are not modelled. *)
Definition cache_clear (k : kv_cache) : res kv_cache :=
  k ← mfor (fun k s =>
        c ← vec_get (kv_cells k) s; k ← put_cells k s (cells_reset c); put_head k s 0%nat)
      (seq 0 (kv_n_stream k)) k;
  if kv_pg_enabled k then
    p ← pool_clear (kv_n_stream k) (kv_pool k); Ok (with_pool true p k)
  else Ok k.

(** ** Sequence operations *)

Definition norm_p0 (p0 : Z) : Z := if p0 <? 0 then 0 else p0.
Definition norm_p1 (p1 : Z) : Z := if p1 <? 0 then INT32_MAX else p1.

Definition seq_id_valid (k : kv_cache) (s : Z) : bool :=
  (0 <=? s) && (s <? Z.of_nat (length (kv_seq_to_stream k))).

(** [seq_to_stream\[seq_id\]] *)
Definition stream_of (k : kv_cache) (s : Z) : res nat := vec_getZ (kv_seq_to_stream k) s.

(** The loop over all cells shared by [seq_rm], [seq_keep] and [seq_add]: [step] edits
    one cell and says whether it became empty; [new_head] is the first such cell, or
    [cells.size()]. *)
Definition scan_cells (step : llama_kv_cells -> nat -> res (llama_kv_cells * bool))
    (c : llama_kv_cells) : res (llama_kv_cells * nat) :=
  let n := cells_size c in
  mfor (fun '(c, new_head) i =>
    r ← step c i;
    Ok (fst r, if snd r && (new_head =? n)%nat then i else new_head)) (seq 0 n) (c, n).

(** "If we freed up a slot, set head to it so searching can start there." *)
Definition lower_head (n new_head head : nat) : nat :=
  if negb (new_head =? n)%nat && (new_head <? head)%nat then new_head else head.

Definition rm_step (seq_id p0 p1 : Z) (c : llama_kv_cells) (i : nat) : res (llama_kv_cells * bool) :=
  b ← cells_pos_in c i p0 p1;
  if negb b then Ok (c, false) else
  h ← cells_seq_has c i seq_id;
  if (h : bool) then cells_seq_rm c i seq_id else Ok (c, false).

Definition rm_any_step (p0 p1 : Z) (c : llama_kv_cells) (i : nat) : res (llama_kv_cells * bool) :=
  b ← cells_pos_in c i p0 p1;
  if negb b then Ok (c, false) else c ← cells_rm c i; Ok (c, true).

(** Apply a scan to stream [s], lowering its head. *)
Definition scan_stream (step : llama_kv_cells -> nat -> res (llama_kv_cells * bool))
    (k : kv_cache) (s : nat) : res kv_cache :=
  c ← vec_get (kv_cells k) s;
  head ← vec_get (kv_heads k) s;
  r ← scan_cells step c;
  k ← put_cells k s (fst r);
  put_head k s (lower_head (cells_size c) (snd r) head).

Definition free_pages (k : kv_cache) (streams : list nat) : res kv_cache :=
  if negb (kv_pg_enabled k) then Ok k else
  c0 ← vec_get (kv_cells k) 0;
  let kv_sz := cells_size c0 in
  p ← mfor (fun p s =>
        c ← vec_get (kv_cells k) s;
        free_empty_pages (cells_is_empty c) kv_sz s p) streams (kv_pool k);
  Ok (with_pool true p k).

Definition cache_seq_rm (k : kv_cache) (seq_id p0 p1 : Z) : res kv_cache :=
  _ ← assert_ ((seq_id =? -1) || seq_id_valid k seq_id);
  let p0 := norm_p0 p0 in
  let p1 := norm_p1 p1 in
  if 0 <=? seq_id then
    s ← stream_of k seq_id;
    k ← scan_stream (rm_step seq_id p0 p1) k s;
    free_pages k [s]
  else
    k ← mfor (scan_stream (rm_any_step p0 p1)) (seq 0 (kv_n_stream k)) k;
    free_pages k (seq 0 (kv_n_stream k)).

Definition cp_step (src dst p0 p1 : Z) (c : llama_kv_cells) (i : nat) : res llama_kv_cells :=
  b ← cells_pos_in c i p0 p1;
  if negb b then Ok c else
  h ← cells_seq_has c i src;
  if (h : bool) then cells_seq_add c i dst else Ok c.

(** One cell of a copy to another stream. *)
Definition cp_stream_step (src dst : Z) (c0 : llama_kv_cells) (c1 : llama_kv_cells) (i : nat)
    : res llama_kv_cells :=
  h ← cells_seq_has c0 i src;
  if negb h then Ok c1 else
  pos ← cells_pos_get c0 i;
  shift ← cells_get_shift c0 i;
  ext ← cells_ext_get c0 i;
  pos ← (if negb (shift =? 0) then
           p ← i32 (pos - shift); _ ← assert_ (0 <=? p); Ok p
         else Ok pos);
  c1 ← cells_pos_set c1 i pos;
  c1 ← cells_seq_add c1 i dst;
  c1 ← (if negb (shift =? 0) then r ← cells_pos_add c1 i shift; Ok (fst r) else Ok c1);
  cells_ext_set c1 i ext.

(** [p > 0 && p + 1 < (int) get_size()]: the bound cuts into the buffer. *)
Definition cuts (p sz : Z) : res bool :=
  if 0 <? p then q ← i32 (p + 1); Ok (q <? sz) else Ok false.

Definition cache_seq_cp (k : kv_cache) (src dst p0 p1 : Z) : res kv_cache :=
  _ ← assert_ (seq_id_valid k src);
  _ ← assert_ (seq_id_valid k dst);
  s0 ← stream_of k src;
  s1 ← stream_of k dst;
  if (s0 =? s1)%nat then
    if src =? dst then Ok k else
    c ← vec_get (kv_cells k) s0;
    c ← mfor (cp_step src dst (norm_p0 p0) (norm_p1 p1)) (seq 0 (cells_size c)) c;
    put_cells k s0 c
  else
    sz ← cache_get_size k;
    cut0 ← cuts p0 (Z.of_nat sz);
    cut1 ← cuts p1 (Z.of_nat sz);
    _ ← assert_ (negb cut0 && negb cut1);
    let k := with_sc_info (fst (kv_sc_info k) ++ [s0], snd (kv_sc_info k) ++ [s1]) k in
    c0 ← vec_get (kv_cells k) s0;
    c1 ← vec_get (kv_cells k) s1;
    c1 ← mfor (cp_stream_step src dst c0) (seq 0 (cells_size c0)) (cells_reset c1);
    k ← put_cells k s1 c1;
    h ← vec_get (kv_heads k) s0;
    put_head k s1 h.

Definition cache_seq_keep (k : kv_cache) (seq_id : Z) : res kv_cache :=
  _ ← assert_ (seq_id_valid k seq_id);
  s ← stream_of k seq_id;
  scan_stream (fun c i => cells_seq_keep c i seq_id) k s.

Definition add_step (seq_id p0 p1 shift : Z) (c : llama_kv_cells) (i : nat) : res (llama_kv_cells * bool) :=
  b ← cells_pos_in c i p0 p1;
  if negb b then Ok (c, false) else
  h ← cells_seq_has c i seq_id;
  if (h : bool) then cells_pos_add c i shift else Ok (c, false).

Definition cache_seq_add (k : kv_cache) (seq_id p0 p1 shift : Z) : res kv_cache :=
  _ ← assert_ (seq_id_valid k seq_id);
  _ ← assert_ (kv_n_pos_per_embd k =? 1)%nat;
  s ← stream_of k seq_id;
  if shift =? 0 then Ok k else
  let p0 := norm_p0 p0 in
  let p1 := norm_p1 p1 in
  if p0 =? p1 then Ok k else
  c ← vec_get (kv_cells k) s;
  r ← scan_cells (add_step seq_id p0 p1 shift) c;
  k ← put_cells k s (fst r);
  put_head k s (if negb (snd r =? cells_size c)%nat then snd r else 0%nat).

Definition div_step (seq_id p0 p1 d : Z) (c : llama_kv_cells) (i : nat) : res llama_kv_cells :=
  b ← cells_pos_in c i p0 p1;
  if negb b then Ok c else
  h ← cells_seq_has c i seq_id;
  if (h : bool) then cells_pos_div c i d else Ok c.

Definition cache_seq_div (k : kv_cache) (seq_id p0 p1 d : Z) : res kv_cache :=
  _ ← assert_ (seq_id_valid k seq_id);
  _ ← assert_ (kv_n_pos_per_embd k =? 1)%nat;
  s ← stream_of k seq_id;
  if d =? 1 then Ok k else
  let p0 := norm_p0 p0 in
  let p1 := norm_p1 p1 in
  if p0 =? p1 then Ok k else
  c ← vec_get (kv_cells k) s;
  c ← mfor (div_step seq_id p0 p1 d) (seq 0 (cells_size c)) c;
  put_cells k s c.

Definition cache_seq_pos_min (k : kv_cache) (seq_id : Z) : res Z :=
  _ ← assert_ (seq_id_valid k seq_id);
  s ← stream_of k seq_id;
  c ← vec_get (kv_cells k) s;
  cells_seq_pos_min c seq_id.

Definition cache_seq_pos_max (k : kv_cache) (seq_id : Z) : res Z :=
  _ ← assert_ (seq_id_valid k seq_id);
  s ← stream_of k seq_id;
  c ← vec_get (kv_cells k) s;
  cells_seq_pos_max c seq_id.

(** The cache is a memory module for the batch code. *)
#[export] Instance kv_memory : Memory kv_cache := {|
  mem_seq_pos_min := cache_seq_pos_min;
  mem_seq_pos_max := cache_seq_pos_max
|}.

(** ** Finding a slot *)

Section slots.
Context {E : Type}.

(** Can the cell be (over)written: it is empty, or it belongs to one sequence and
    lies outside the attention window of that sequence. *)
Definition can_use (k : kv_cache) (c : llama_kv_cells) (idx : nat) : res bool :=
  e ← cells_is_empty c idx;
  if (e : bool) then Ok true else
  n ← cells_seq_count c idx;
  if negb (n =? 1)%nat then Ok false else
  pos_cell ← cells_pos_get c idx;
  seq_id_cell ← cells_seq_get c idx;
  mx ← cells_seq_pos_max c seq_id_cell;
  mx1 ← i32 (mx + 1);
  is_masked_swa (kv_n_swa k) (kv_swa_type k) pos_cell mx1.

(** The inner [for] loop: test up to [n] cells from [head_cur]; with [cont] a cell that
    cannot be used ends it.  State [(head_cur, n_tested, idxs)]. *)
Fixpoint test_cells (k : kv_cache) (c : llama_kv_cells) (cont : bool) (n : nat)
    (st : nat * nat * list nat) : res (nat * nat * list nat) :=
  match n with
  | O => Ok st
  | S n =>
      let '(head_cur, n_tested, idxs) := st in
      b ← can_use k c head_cur;
      if (b : bool) then test_cells k c cont n (S head_cur, S n_tested, idxs ++ [head_cur])
      else if cont then Ok (S head_cur, S n_tested, idxs)
      else test_cells k c cont n (S head_cur, S n_tested, idxs)
  end.

(** The [while (true)] loop of one stream; [None] when there is no slot. *)
Fixpoint slot_loop (fuel : nat) (k : kv_cache) (c : llama_kv_cells) (cont : bool)
    (n_tokens n_test : nat) (st : nat * nat * list nat) : res (option (list nat)) :=
  match fuel with
  | O => Err NoFuel
  | S fuel =>
      let '(head_cur, n_tested, idxs) := st in
      if (cells_size c <? head_cur + n_test)%nat then
        slot_loop fuel k c cont n_tokens n_test (0%nat, (n_tested + (cells_size c - head_cur))%nat, idxs)
      else
        st ← test_cells k c cont n_test st;
        let '(head_cur, n_tested, idxs) := st in
        if (length idxs =? n_tokens)%nat then Ok (Some idxs) else
        let idxs := if cont then [] else idxs in
        if (cells_size c <=? n_tested)%nat then Ok None
        else slot_loop fuel k c cont n_tokens n_test (head_cur, n_tested, idxs)
  end.

(** Enough for any cache: every second iteration tests at least one cell. *)
Definition slot_fuel (c : llama_kv_cells) : nat := (2 * cells_size c + 4)%nat.

(** The cells for the [n_tokens] tokens of stream [strm]. *)
Definition find_slot_stream (k : kv_cache) (strm n_tokens : nat) (cont : bool)
    : res (option (list nat)) :=
  c ← vec_get (kv_cells k) strm;
  head ← vec_get (kv_heads k) strm;
  let head_cur := if (cells_get_used c + 2 * n_tokens <? head)%nat then 0%nat else head in
  if (cells_size c <? n_tokens)%nat then Ok None else
  let n_test := if cont then n_tokens else 1%nat in
  r ← slot_loop (slot_fuel c) k c cont n_tokens n_test (head_cur, 0%nat, []);
  match r with
  | None => Ok None
  | Some idxs => if (length idxs <? n_tokens)%nat then Ok None else Ok (Some idxs)
  end.

(** One sequence of the batch: [None] stops the search. *)
Definition find_slot_step (k : kv_cache) (u : llama_ubatch E) (cont : bool) (n_tokens : nat)
    (st : option slot_info) (s : nat) : res (option slot_info) :=
  match st with
  | None => Ok None
  | Some si =>
      seq_id ← vec_get (ub_seq_id_unq u) s;
      _ ← (if (1 <? kv_n_stream k)%nat then
             n ← vec_get (ub_n_seq_id u) (s * n_tokens);
             _ ← assert_ (n =? 1);
             ids ← vec_get (ub_seq_id u) (s * n_tokens);
             id0 ← vec_get ids 0;
             assert_ (id0 =? seq_id)
           else Ok tt);
      strm ← stream_of k seq_id;
      r ← find_slot_stream k strm n_tokens cont;
      match r with
      | None => Ok None
      | Some idxs => Ok (Some (mk_slot (Nat.min (si_s0 si) strm) (Nat.max (si_s1 si) strm)
                                 (si_strm si ++ [strm]) (si_idxs si ++ [idxs])))
      end
  end.

Definition cache_find_slot (k : kv_cache) (u : llama_ubatch E) (cont : bool) : res (option slot_info) :=
  nn ← (if (1 <? kv_n_stream k)%nat then
          _ ← (if (ub_n_seqs_unq u =? 0)%nat then Err DivByZero else Ok tt);
          _ ← assert_ (ub_n_tokens u mod ub_n_seqs_unq u =? 0)%nat;
          Ok (ub_n_seqs_unq u, (ub_n_tokens u / ub_n_seqs_unq u)%nat)
        else Ok (1%nat, ub_n_tokens u));
  let '(n_seqs, n_tokens) := nn in
  mfor (find_slot_step k u cont n_tokens) (seq 0 n_seqs) (Some (mk_slot MAX_SEQ 0 [] [])).

(** ** Placing a micro-batch *)

Definition slot_size (si : slot_info) : res nat :=
  _ ← assert_ (length (si_idxs si) =? length (si_strm si))%nat;
  l ← of_option AssertFailed (head (si_idxs si));
  Ok (length l).

(** One token into one cell; [mx] is [seq_pos_max_rm]. *)
Definition place_token (u : llama_ubatch E) (idx i : nat) (c : llama_kv_cells) (mx : list Z)
    : res (llama_kv_cells * list Z) :=
  e ← cells_is_empty c idx;
  r ← (if negb e then
         n ← cells_seq_count c idx;
         _ ← assert_ (n =? 1)%nat;
         seq_id ← cells_seq_get c idx;
         pos ← cells_pos_get c idx;
         m ← vec_getZ mx seq_id;
         mx ← vec_setZ mx seq_id (Z.max m pos);
         c ← cells_rm c idx;
         Ok (c, mx)
       else Ok (c, mx));
  let '(c, mx) := r in
  p ← vec_get (ub_pos u) i;
  c ← cells_pos_set c idx p;
  c ← (if is_pos_2d u then
         x ← vec_get (ub_pos u) (i + ub_n_tokens u * 2);
         y ← vec_get (ub_pos u) (i + ub_n_tokens u);
         cells_ext_set c idx (mk_ext x y)
       else Ok c);
  n ← vec_get (ub_n_seq_id u) i;
  ids ← vec_get (ub_seq_id u) i;
  c ← mfor (fun c s => id ← vec_get ids s; cells_seq_add c idx id) (seq 0 (Z.to_nat n)) c;
  Ok (c, mx).

(** The purge of sequence [s] after the placement. *)
Definition purge_step (mx : list Z) (k : kv_cache) (s : Z) : res kv_cache :=
  m ← vec_getZ mx s;
  if m =? -1 then Ok k else
  _ ← assert_ (s <? Z.of_nat (length (kv_seq_to_stream k)));
  strm ← stream_of k s;
  c ← vec_get (kv_cells k) strm;
  lo ← cells_seq_pos_min c s;
  if lo <=? m then hi ← i32 (m + 1); cache_seq_rm k s lo hi else Ok k.

Definition cache_apply_ubatch (k : kv_cache) (si : slot_info) (u : llama_ubatch E) : res kv_cache :=
  sz ← slot_size si;
  _ ← assert_ (ub_n_tokens u =? length (si_strm si) * sz)%nat;
  r ← mfor (fun km s =>
        mfor (fun '(k, mx) ii =>
          let i := (s * sz + ii)%nat in
          strm ← vec_get (si_strm si) s;
          c ← vec_get (kv_cells k) strm;
          idxs ← vec_get (si_idxs si) s;
          idx ← vec_get idxs ii;
          r ← place_token u idx i c mx;
          k ← put_cells k strm (fst r);
          Ok (k, snd r)) (seq 0 sz) km)
      (seq 0 (length (si_strm si))) (k, replicate MAX_SEQ (-1));
  let '(k, mx) := r in
  k ← mfor (purge_step mx) all_seq_ids k;
  mfor (fun k s =>
    strm ← vec_get (si_strm si) s;
    idxs ← vec_get (si_idxs si) s;
    b ← of_option OutOfRange (last idxs);
    put_head k strm (S b)) (seq 0 (length (si_strm si))) k.

(** ** [prepare]: place the micro-batches one after the other, then undo *)

Record prep_state : Type := mk_prep {
  ps_sinfo : slot_info; ps_heads : list nat; ps_cells : list llama_kv_cells
}.

Definition save_cells (k : kv_cache) (si : slot_info) : res (list llama_kv_cells) :=
  mmap (fun s =>
    strm ← vec_get (si_strm si) s;
    c ← vec_get (kv_cells k) strm;
    idxs ← vec_get (si_idxs si) s;
    cells_cp c idxs) (seq 0 (length (si_strm si))).

(** The forward pass: the cache, the states in order, and whether all were placed. *)
Fixpoint prepare_fwd (k : kv_cache) (us : list (llama_ubatch E)) (states : list prep_state)
    : res (kv_cache * list prep_state * bool) :=
  match us with
  | [] => Ok (k, states, true)
  | u :: us =>
      r ← cache_find_slot k u false;
      match r with
      | None => Ok (k, states, false)
      | Some si =>
          saved ← save_cells k si;
          let st := mk_prep si (kv_heads k) saved in
          k ← cache_apply_ubatch k si u;
          prepare_fwd k us (states ++ [st])
      end
  end.

(** Restoring one state: [head = it->v_heads_old\[s\]] indexes the saved heads by the
    position [s] in the slot info. *)
Definition restore_state (k : kv_cache) (st : prep_state) : res kv_cache :=
  mfor (fun k s =>
    strm ← vec_get (si_strm (ps_sinfo st)) s;
    c ← vec_get (kv_cells k) strm;
    idxs ← vec_get (si_idxs (ps_sinfo st)) s;
    saved ← vec_get (ps_cells st) s;
    c ← cells_set c idxs saved;
    k ← put_cells k strm c;
    h ← vec_get (ps_heads st) s;
    put_head k strm h) (seq 0 (length (si_strm (ps_sinfo st)))) k.

Definition cache_prepare (k : kv_cache) (us : list (llama_ubatch E))
    : res (kv_cache * option (list slot_info)) :=
  r ← prepare_fwd k us [];
  let '(k, states, success) := r in
  _ ← assert_ (negb (bool_decide (states = [])) || negb success);
  k ← mfor restore_state (rev states) k;
  Ok (k, if (success : bool) then Some (ps_sinfo <$> states) else None).

(** ** The memory context *)

Inductive llama_memory_status : Set :=
  | LLAMA_MEMORY_STATUS_SUCCESS
  | LLAMA_MEMORY_STATUS_NO_UPDATE
  | LLAMA_MEMORY_STATUS_FAILED_PREPARE
  | LLAMA_MEMORY_STATUS_FAILED_COMPUTE.

Definition llama_memory_status_combine (s0 s1 : llama_memory_status) : llama_memory_status :=
  let after (has_update : bool) := match s1 with
    | LLAMA_MEMORY_STATUS_SUCCESS => LLAMA_MEMORY_STATUS_SUCCESS
    | LLAMA_MEMORY_STATUS_NO_UPDATE =>
        if has_update then LLAMA_MEMORY_STATUS_SUCCESS else LLAMA_MEMORY_STATUS_NO_UPDATE
    | LLAMA_MEMORY_STATUS_FAILED_PREPARE | LLAMA_MEMORY_STATUS_FAILED_COMPUTE => s1
    end in
  match s0 with
  | LLAMA_MEMORY_STATUS_SUCCESS => after true
  | LLAMA_MEMORY_STATUS_NO_UPDATE => after false
  | LLAMA_MEMORY_STATUS_FAILED_PREPARE | LLAMA_MEMORY_STATUS_FAILED_COMPUTE => s0
  end.

Definition llama_memory_status_is_fail (s : llama_memory_status) : bool :=
  match s with
  | LLAMA_MEMORY_STATUS_SUCCESS | LLAMA_MEMORY_STATUS_NO_UPDATE => false
  | LLAMA_MEMORY_STATUS_FAILED_PREPARE | LLAMA_MEMORY_STATUS_FAILED_COMPUTE => true
  end.

(** The micro-batches of [init_batch]. *)
Definition split_all (fuel n_stream n_ubatch : nat) : llama_batch_allocr E -> list (llama_ubatch E) ->
    res (llama_batch_allocr E * list (llama_ubatch E)) :=
  split_loop (fun a => if (n_stream =? 1)%nat then balloc_split_simple a n_ubatch
                       else balloc_split_equal a n_ubatch true) fuel.

(** [init_batch]: the micro-batches and their slots, or [None] for
    [LLAMA_MEMORY_STATUS_FAILED_PREPARE]. *)
Definition cache_init_batch (k : kv_cache) (a : llama_batch_allocr E) (n_ubatch : nat)
    : res (kv_cache * llama_batch_allocr E * option (list slot_info * list (llama_ubatch E))) :=
  let a := balloc_split_reset a in
  r ← split_all (S (balloc_get_n_tokens a)) (kv_n_stream k) n_ubatch a [];
  let '(a, us) := r in
  if (balloc_get_n_used a <? balloc_get_n_tokens a)%nat then Ok (k, a, None) else
  r ← cache_prepare k us;
  let '(k, sinfos) := r in
  match sinfos with
  | None | Some [] => Ok (k, a, None)
  | Some l => Ok (k, a, Some (l, us))
  end.

Definition cache_get_n_kv (k : kv_cache) (si : slot_info) : res Z :=
  let n_pad_cur := Z.max (Z.of_nat (kv_n_pad k)) 256 in
  mfor (fun r s =>
    strm ← vec_get (si_strm si) s;
    c ← vec_get (kv_cells k) strm;
    Ok (Z.max (Z.min (Z.of_nat (cells_size c))
                 (Z.max n_pad_cur (GGML_PAD (cells_used_max_p1 c) n_pad_cur))) r))
    (seq 0 (length (si_strm si))) 0.

(** [llama_kv_cache_context::apply] for one micro-batch. *)
Definition context_apply {F} (flt : F -> F -> bool) (fmax : F) (score : kv_cache -> nat -> nat -> F)
    (k : kv_cache) (si : slot_info) (u : llama_ubatch E) : res (kv_cache * Z) :=
  k ← cache_apply_ubatch k si u;
  n_kv ← cache_get_n_kv k si;
  k ← (if kv_pg_enabled k then
         p ← pg_alloc_for_sinfo flt fmax (score k) (kv_budget k) (kv_pool k) si;
         Ok (with_pool true p k)
       else Ok k);
  Ok (k, n_kv).

(** [init_update]: takes the pending copies; there is something to do when a shift
    or a copy is pending. *)
Definition cache_init_update (k : kv_cache)
    : res (kv_cache * bool * (list nat * list nat) * llama_memory_status) :=
  do_shift ← cache_get_has_shift k;
  let sc := kv_sc_info k in
  let status := if negb do_shift && bool_decide (fst sc = []) then LLAMA_MEMORY_STATUS_NO_UPDATE
                else LLAMA_MEMORY_STATUS_SUCCESS in
  Ok (with_sc_info ([], []) k, do_shift, sc, status).

(** [update]: [copy src dst] is the tensor copy of one pair of streams, [run_shift]
    says whether the backend computed the K-shift graph; the result is the cache
    and the pairs copied, in order. *)
Definition cache_update (k : kv_cache) (can_shift rope run_shift do_shift : bool)
    (sc : list nat * list nat) : res (kv_cache * list (nat * nat) * bool) :=
  copies ← (if bool_decide (fst sc = []) then Ok [] else
    _ ← assert_ (1 <? kv_n_stream k)%nat;
    mmap (fun i =>
      ssrc ← vec_get (fst sc) i;
      sdst ← vec_get (snd sc) i;
      _ ← assert_ (ssrc <? kv_n_stream k)%nat;
      _ ← assert_ (sdst <? kv_n_stream k)%nat;
      _ ← assert_ (negb (ssrc =? sdst)%nat);
      Ok (ssrc, sdst)) (seq 0 (length (fst sc))));
  if negb do_shift then Ok (k, copies, false) else
  _ ← assert_ can_shift;
  if rope && negb run_shift then Ok (k, copies, false) else
  k ← mfor (fun k s => c ← vec_get (kv_cells k) s; put_cells k s (cells_reset_shift c))
        (seq 0 (kv_n_stream k)) k;
  Ok (k, copies, rope).

End slots.
