(* ===== verification/KvCacheTheory.v ===== *)
(** * Sequence operations of the KV cache: functional specifications

    The invariant of a cache and, for every operation on a sequence, the exact
    effect on the cells of its stream.  The scans over all cells are instances of
    one lemma, [sat_scan]. *)

From S2P Require Import Prelude KvCells KvCellsInv KvCellsSpec Batch Pages PagesTheory KvCache.

(** ** A scan over all cells *)

(** Index of the first element satisfying [g]; the length when there is none. *)
Fixpoint first_idx {A} (g : A -> bool) (l : list A) : nat :=
  match l with [] => 0%nat | x :: l => if g x then 0%nat else S (first_idx g l) end.

Lemma first_idx_app {A} (g : A -> bool) l k :
  first_idx g (l ++ k) =
    if (first_idx g l =? length l)%nat then (length l + first_idx g k)%nat else first_idx g l.
Proof.
  induction l as [|x l IH]; simpl; [done|]. destruct (g x); [done|]. simpl.
  rewrite IH. by destruct (first_idx g l =? length l)%nat.
Qed.

Lemma first_idx_le {A} (g : A -> bool) l : (first_idx g l <= length l)%nat.
Proof. induction l as [|x l IH]; simpl; [lia|]. destruct (g x); lia. Qed.

(** A cell that is in use belongs to a sequence. *)
Definition tight (a : acell) : Prop := a_seq a = ∅ -> a_pos a = -1.
#[export] Instance tight_dec a : Decision (tight a).
Proof. unfold tight. apply _. Defined.

Section scan.
Variables (f : acell -> acell) (g h : acell -> bool) (pre : acell -> Prop).

(** What one step does to cell [i]. *)
Definition step_ok (step : llama_kv_cells -> nat -> res (llama_kv_cells * bool)) : Prop :=
  forall c i a, wf c -> abs_cells c !! i = Some a -> pre a ->
    sat (step c i) (fun r => upd_to c i (c_has_shift c || h a) (f a) r.1 /\ r.2 = g a).

Definition scanned (c : llama_kv_cells) (l : list acell) (c' : llama_kv_cells) : Prop :=
  wf c' /\ abs_cells c' = f <$> l /\ c_has_shift c' = c_has_shift c || existsb h l.

Lemma cells_size_abs c : wf c -> cells_size c = length (abs_cells c).
Proof. intros W. by rewrite length_abs. Qed.

Lemma sat_scan step c :
  step_ok step -> wf c -> Forall pre (abs_cells c) ->
  sat (scan_cells step c) (fun r => scanned c (abs_cells c) r.1 /\
    r.2 = first_idx g (abs_cells c)).
Proof.
  intros Hs W Hp. unfold scan_cells. rewrite cells_size_abs by done.
  set (l := abs_cells c) in *.
  eapply sat_mono; [apply (sat_for _ (fun i (r : llama_kv_cells * nat) => wf r.1 /\
    abs_cells r.1 = (f <$> take i l) ++ drop i l /\
    c_has_shift r.1 = c_has_shift c || existsb h (take i l) /\
    r.2 = if (first_idx g (take i l) =? length (take i l))%nat then length l
          else first_idx g (take i l)))|].
  - simpl. by rewrite drop_0, orb_false_r.
  - intros i [c' nh] Hi (W' & Hab & Hb & Hn). simpl in *.
    destruct (lookup_lt_is_Some_2 l i Hi) as [a Ha].
    assert (Hc' : abs_cells c' !! i = Some a).
    { rewrite Hab, lookup_app_r; rewrite length_fmap, length_take; [|lia].
      rewrite lookup_drop. by replace (i + (i - min i (length l)))%nat with i by lia. }
    assert (Hpa : pre a) by by eapply Forall_lookup_1.
    eapply sat_step; [by apply (Hs c' i a)|]. intros [c'' e] ((W'' & Hab'' & Hb'') & He). simpl in *.
    apply sat_ok. simpl. rewrite Nat.add_1_r, (take_S_r _ _ a) by done.
    split_and!; [done| | |].
    + rewrite Hab'', Hab, fmap_app. simpl.
      rewrite insert_app_r_alt; rewrite length_fmap, length_take; [|lia].
      replace (i - min i (length l))%nat with 0%nat by lia.
      rewrite (drop_S l a i) by done. simpl. by rewrite <- app_assoc.
    + rewrite Hb'', Hb, existsb_app. simpl. by rewrite orb_false_r, orb_assoc.
    + rewrite first_idx_app, length_app, length_take. simpl. rewrite He.
      pose proof (first_idx_le g (take i l)) as Hle. rewrite length_take in Hle.
      rewrite length_take in Hn. rewrite Hn. clear Hn.
      assert (Hm : min i (length l) = i) by lia. rewrite Hm in *.
      generalize dependent (first_idx g (take i l)). intros k Hk.
      destruct (g a), (Nat.eqb_spec k i); simpl;
        repeat match goal with |- context [(?x =? ?y)%nat] => destruct (Nat.eqb_spec x y); simpl end; lia.
  - intros [c' nh] (W' & Hab & Hb & Hn). simpl in *.
    rewrite take_ge in * by done. rewrite drop_ge, app_nil_r in Hab by done.
    split; [done|]. rewrite Hn. destruct (Nat.eqb_spec (first_idx g l) (length l)); congruence.
Qed.

(** The same without the flag. *)
Lemma mfor_scan (step : llama_kv_cells -> nat -> res llama_kv_cells) c :
  mfor step (seq 0 (cells_size c)) c =
  (r ← scan_cells (fun c i => c' ← step c i; Ok (c', false)) c; Ok r.1).
Proof.
  unfold scan_cells. cbv zeta. set (n := cells_size c). clearbody n.
  generalize n at 2 4 as m. generalize (seq 0 n) as l. intros l m. revert c.
  induction l as [|i l IH]; intros c; simpl; [reflexivity|].
  destruct (step c i) as [c'|e]; simpl; [apply IH|done].
Qed.
End scan.

Lemma sat_plain_scan f h (pre : acell -> Prop) step c :
  (forall c i a, wf c -> abs_cells c !! i = Some a -> pre a ->
     sat (step c i) (upd_to c i (c_has_shift c || h a) (f a))) ->
  wf c -> Forall pre (abs_cells c) ->
  sat (mfor step (seq 0 (cells_size c)) c) (scanned f h c (abs_cells c)).
Proof.
  intros Hs W Hp. rewrite mfor_scan.
  eapply sat_step; [apply (sat_scan f (fun _ => false) h pre)|]; [|done|done|].
  - intros c1 i a W1 Ha Hpa. eapply sat_step; [by apply (Hs c1 i a)|]. intros c' Hc'. done.
  - intros r [Hr _]. done.
Qed.

(** A step that leaves the cell alone. *)
Lemma upd_to_same c i a b : wf c -> abs_cells c !! i = Some a -> c_has_shift c = b -> upd_to c i b a c.
Proof. intros W Ha Hb. split_and!; [done|by rewrite list_insert_id|done]. Qed.

(** ** The invariant of a cache with [sz] cells per stream *)

Record kv_ok (sz : nat) (k : kv_cache) : Prop := {
  ko_ns    : (0 < kv_n_stream k)%nat;
  ko_len   : length (kv_cells k) = kv_n_stream k;
  ko_cells : forall s c, kv_cells k !! s = Some c ->
               wf c /\ cells_size c = sz /\ Forall tight (abs_cells c);
  ko_heads : length (kv_heads k) = kv_n_stream k;
  ko_head  : forall s h, kv_heads k !! s = Some h -> (h <= sz)%nat;
  ko_sts   : length (kv_seq_to_stream k) = MAX_SEQ;
  ko_strm  : forall q s, kv_seq_to_stream k !! q = Some s -> (s < kv_n_stream k)%nat;
  ko_pool  : kv_pg_enabled k = true ->
               pool_ok (kv_n_stream k) (n_pages sz (pg_block_size (kv_pool k))) (kv_pool k)
}.

(** The cells of stream [s], as a client observes them. *)
Definition stream_cells (k : kv_cache) (s : nat) : list acell :=
  default [] (abs_cells <$> kv_cells k !! s).

(** What no operation on the metadata changes. *)
Definition kv_static (k : kv_cache) :=
  (kv_n_seq_max k, kv_n_stream k, kv_n_pad k, kv_n_swa k, kv_swa_type k, kv_n_pos_per_embd k,
   kv_budget k, kv_seq_to_stream k).

Lemma static_n k k' : kv_static k' = kv_static k -> kv_n_stream k' = kv_n_stream k.
Proof. unfold kv_static. congruence. Qed.

(** The cache with stream [s] at cells [c] and head [h]. *)
Definition kv_put (k : kv_cache) (s : nat) (c : llama_kv_cells) (h : nat) : kv_cache :=
  with_heads (<[s := h]> (kv_heads k)) (with_cells (<[s := c]> (kv_cells k)) k).

Lemma kv_ok_put sz k s c h :
  kv_ok sz k -> wf c -> cells_size c = sz -> Forall tight (abs_cells c) -> (h <= sz)%nat ->
  kv_ok sz (kv_put k s c h).
Proof.
  intros [] W Hs Ht Hh. split; simpl; rewrite ?length_insert; try done.
  - intros s' c' [(<- & <- & _)|[_ H]]%list_lookup_insert_Some; [done|by eapply ko_cells0].
  - intros s' h' [(<- & <- & _)|[_ H]]%list_lookup_insert_Some; [done|by eapply ko_head0].
Qed.

Lemma stream_cells_put k s c h s' :
  (s < length (kv_cells k))%nat ->
  stream_cells (kv_put k s c h) s' = if decide (s' = s) then abs_cells c else stream_cells k s'.
Proof.
  intros Hs. unfold stream_cells, kv_put. simpl. case_decide as E.
  - subst. by rewrite list_lookup_insert_eq.
  - by rewrite list_lookup_insert_ne.
Qed.

(** The cells and the head of a stream of a well-formed cache. *)
Lemma kv_stream sz k s :
  kv_ok sz k -> (s < kv_n_stream k)%nat ->
  exists c h, kv_cells k !! s = Some c /\ kv_heads k !! s = Some h /\ wf c /\ cells_size c = sz /\
    Forall tight (abs_cells c) /\ stream_cells k s = abs_cells c /\ (h <= sz)%nat.
Proof.
  intros K Hs. destruct (lookup_lt_is_Some_2 (kv_cells k) s) as [c Hc]; [by rewrite (ko_len _ _ K)|].
  destruct (lookup_lt_is_Some_2 (kv_heads k) s) as [h Hh]; [by rewrite (ko_heads _ _ K)|].
  destruct (ko_cells _ _ K s c Hc) as (W & E & T). exists c, h. split_and!; try done.
  - unfold stream_cells. by rewrite Hc.
  - by eapply (ko_head _ _ K).
Qed.

Lemma seq_id_valid_ok sz k q : kv_ok sz k -> seq_id_valid k q = true <-> id_ok q.
Proof.
  intros K. unfold seq_id_valid, id_ok. rewrite (ko_sts _ _ K). unfold MAX_SEQ.
  assert (0 <= LLAMA_MAX_SEQ) by (vm_compute; done).
  by rewrite andb_true_iff, Z.leb_le, Z.ltb_lt, Z2Nat.id.
Qed.

(** The stream of a sequence. *)
Definition seq_stream (k : kv_cache) (q : Z) : nat := default 0%nat (kv_seq_to_stream k !! Z.to_nat q).

Lemma stream_of_ok sz k q :
  kv_ok sz k -> id_ok q -> stream_of k q = Ok (seq_stream k q) /\ (seq_stream k q < kv_n_stream k)%nat.
Proof.
  intros K Hq. unfold stream_of, vec_getZ. destruct Hq as [Hq1 Hq2].
  rewrite (proj2 (Z.leb_le 0 q) Hq1).
  destruct (lookup_lt_is_Some_2 (kv_seq_to_stream k) (Z.to_nat q)) as [s Hs].
  { rewrite (ko_sts _ _ K). unfold MAX_SEQ. lia. }
  unfold seq_stream, vec_get. rewrite Hs. simpl. split; [done|]. by eapply (ko_strm _ _ K).
Qed.

Lemma sat_put sz k s c h :
  kv_ok sz k -> (s < kv_n_stream k)%nat ->
  (k' ← put_cells k s c; put_head k' s h) = Ok (kv_put k s c h).
Proof.
  intros K Hs. unfold put_cells, put_head, vec_set.
  rewrite decide_True by by rewrite (ko_len _ _ K). simpl.
  rewrite decide_True by by rewrite (ko_heads _ _ K). done.
Qed.

(** The effect of a scan on one stream: [f] on every cell, the rest untouched. *)
Definition stream_map (f : acell -> acell) (k : kv_cache) (s : nat) (k' : kv_cache) : Prop :=
  kv_static k' = kv_static k /\ kv_sc_info k' = kv_sc_info k /\
  kv_pg_enabled k' = kv_pg_enabled k /\
  stream_cells k' s = f <$> stream_cells k s /\
  forall s', s' <> s -> kv_cells k' !! s' = kv_cells k !! s' /\ kv_heads k' !! s' = kv_heads k !! s'.

Lemma scanned_size f h c c' :
  wf c -> scanned f h c (abs_cells c) c' -> cells_size c' = cells_size c.
Proof.
  intros W (W' & E & _). rewrite (cells_size_abs c'), (cells_size_abs c) by done.
  by rewrite E, length_fmap.
Qed.

Lemma stream_map_put f h k s c c' hd :
  kv_cells k !! s = Some c -> stream_cells k s = abs_cells c ->
  scanned f h c (abs_cells c) c' -> stream_map f k s (kv_put k s c' hd).
Proof.
  intros Hc Ec (_ & E & _). split_and!; try done.
  - rewrite stream_cells_put by by eapply lookup_lt_Some. by rewrite decide_True, E, Ec.
  - intros s' Hne. unfold kv_put. simpl. by rewrite !list_lookup_insert_ne.
Qed.

Lemma lower_head_le n nh h : (nh <= n)%nat -> (h <= n)%nat -> (lower_head n nh h <= n)%nat.
Proof. intros. unfold lower_head. by destruct (_ && _). Qed.

Lemma Forall_fmap_tight (f : acell -> acell) l :
  (forall a, a ∈ l -> tight a -> tight (f a)) -> Forall tight l -> Forall tight (f <$> l).
Proof.
  intros Hf Hl. apply Forall_fmap, Forall_forall. intros a Ha. apply Hf; [done|].
  by eapply Forall_forall in Hl.
Qed.

Lemma sat_scan_stream sz k s f g h (pre : acell -> Prop) step :
  kv_ok sz k -> (s < kv_n_stream k)%nat -> step_ok f g h pre step ->
  Forall pre (stream_cells k s) -> (forall a, tight a -> tight (f a)) ->
  sat (scan_stream step k s) (fun k' => kv_ok sz k' /\ stream_map f k s k' /\ kv_pool k' = kv_pool k).
Proof.
  intros K Hs Hstep Hpre Ht. destruct (kv_stream sz k s K Hs) as (c & hd & Hc & Hh & W & E & T & Ec & Hle).
  unfold scan_stream. eapply sat_step; [by eapply (sat_vec_get _ _ c (fun c' => c' = c))|].
  intros ? ->. eapply sat_step; [by eapply (sat_vec_get _ _ hd (fun h' => h' = hd))|]. intros ? ->.
  rewrite Ec in Hpre.
  eapply sat_step; [by apply (sat_scan f g h pre)|]. intros [c' nh] [Hsc Hnh]. simpl in *.
  rewrite (sat_put sz) by done. apply sat_ok. split_and!.
  - apply kv_ok_put; try done.
    + apply Hsc.
    + by rewrite (scanned_size f h c c').
    + destruct Hsc as (_ & -> & _). by apply Forall_fmap_tight; auto.
    + rewrite E. apply lower_head_le; [|done].
      rewrite Hnh, <- E, cells_size_abs by done. apply first_idx_le.
  - by eapply stream_map_put.
  - done.
Qed.

(** *** The steps of the operations, cell by cell *)

Definition in_range (p0 p1 p : Z) : bool := (p0 <=? p) && (p <? p1).

(** Does the operation on [q] and [\[p0, p1)] touch cell [a]? *)
Definition hit (q p0 p1 : Z) (a : acell) : bool :=
  in_range p0 p1 (a_pos a) && bool_decide (q ∈ a_seq a).

Lemma cells_pos_in_ok c i a p0 p1 :
  abs_cells c !! i = Some a -> cells_pos_in c i p0 p1 = Ok (in_range p0 p1 (a_pos a)).
Proof.
  intros Ha. apply abs_lookup in Ha as (Hp & _). unfold cells_pos_in, vec_get. by rewrite Hp.
Qed.

Lemma cells_seq_has_ok c i a q :
  abs_cells c !! i = Some a -> id_ok q -> cells_seq_has c i q = Ok (bool_decide (q ∈ a_seq a)).
Proof.
  intros Ha Hq. apply abs_lookup in Ha as (_ & _ & _ & Hs). unfold cells_seq_has, vec_get.
  rewrite Hs. simpl. destruct Hq as [H0 H1]. rewrite (proj2 (Z.leb_le 0 q) H0). simpl.
  by apply bit_test_ok.
Qed.

(** [seq_rm] *)
Definition rm_cell (q p0 p1 : Z) (a : acell) : acell := if hit q p0 p1 a then acell_seq_rm q a else a.
Definition rm_frees (q p0 p1 : Z) (a : acell) : bool :=
  hit q p0 p1 a && bool_decide (a_seq a ∖ {[q]} = ∅).

Lemma rm_step_ok q p0 p1 :
  id_ok q -> step_ok (rm_cell q p0 p1) (rm_frees q p0 p1) (fun _ => false) (fun _ => True)
               (rm_step q p0 p1).
Proof.
  intros Hq c i a W Ha _. unfold rm_step, rm_cell, rm_frees, hit. rewrite orb_false_r.
  rewrite (cells_pos_in_ok c i a), (cells_seq_has_ok c i a) by done. simpl.
  destruct (in_range p0 p1 (a_pos a)); simpl; [|split; [by apply upd_to_same|done]].
  case_bool_decide as Hin; simpl; [by apply sat_cells_seq_rm|split; [by apply upd_to_same|done]].
Qed.

(** Any sequence. *)
Definition rm_any_cell (p0 p1 : Z) (a : acell) : acell :=
  if in_range p0 p1 (a_pos a) then acell_empty else a.

Lemma rm_any_step_ok p0 p1 :
  0 <= p0 -> step_ok (rm_any_cell p0 p1) (fun a => in_range p0 p1 (a_pos a)) (fun _ => false)
               (fun _ => True) (rm_any_step p0 p1).
Proof.
  intros H0 c i a W Ha _. unfold rm_any_step, rm_any_cell. rewrite orb_false_r.
  rewrite (cells_pos_in_ok c i a) by done. simpl.
  destruct (in_range p0 p1 (a_pos a)) eqn:E; simpl; [|split; [by apply upd_to_same|done]].
  unfold in_range in E. eapply sat_step; [apply (sat_cells_rm c i a); [done|done|lia]|].
  intros c' Hc'. by split.
Qed.

(** [seq_keep] *)
Lemma keep_step_ok q :
  id_ok q -> step_ok (acell_seq_keep q) (fun a => bool_decide ((q ∉ a_seq a) /\ a_seq a <> ∅))
               (fun _ => false) tight (fun c i => cells_seq_keep c i q).
Proof. intros Hq c i a W Ha Ht. rewrite orb_false_r. by apply sat_cells_seq_keep. Qed.

(** [seq_add] *)
Definition add_cell (q p0 p1 d : Z) (a : acell) : acell :=
  if hit q p0 p1 a then acell_pos_add d a else a.
Definition add_frees (q p0 p1 d : Z) (a : acell) : bool :=
  hit q p0 p1 a && bool_decide (a_pos a + d < 0).
Definition add_pre (q p0 p1 d : Z) (a : acell) : Prop :=
  hit q p0 p1 a = true -> int32 (a_pos a + d) /\ int32 (a_shift a + d).

Lemma hit_used q p0 p1 a : 0 <= p0 -> hit q p0 p1 a = true -> a_pos a <> -1 /\ q ∈ a_seq a.
Proof.
  unfold hit, in_range. intros H0 H. apply andb_true_iff in H as [H Hin%bool_decide_eq_true].
  split; [lia|done].
Qed.

Lemma add_step_ok q p0 p1 d :
  id_ok q -> 0 <= p0 ->
  step_ok (add_cell q p0 p1 d) (add_frees q p0 p1 d) (hit q p0 p1) (add_pre q p0 p1 d)
    (add_step q p0 p1 d).
Proof.
  intros Hq H0 c i a W Ha Hpre. unfold add_step, add_cell, add_frees, add_pre in *.
  pose proof (hit_used q p0 p1 a H0) as Hu. unfold hit in *.
  rewrite (cells_pos_in_ok c i a), (cells_seq_has_ok c i a) by done. simpl.
  destruct (in_range p0 p1 (a_pos a)); simpl;
    [|rewrite orb_false_r; split; [by apply upd_to_same|done]].
  case_bool_decide as Hin; simpl; [|rewrite orb_false_r; split; [by apply upd_to_same|done]].
  rewrite orb_true_r. destruct (Hpre eq_refl), (Hu eq_refl). by apply sat_cells_pos_add.
Qed.

(** [seq_div] *)
Definition div_cell (q p0 p1 d : Z) (a : acell) : acell :=
  if hit q p0 p1 a then acell_pos_div d a else a.
Definition div_pre (q p0 p1 d : Z) (a : acell) : Prop :=
  hit q p0 p1 a = true -> int32 (Z.quot (a_pos a) d) /\ int32 (a_pos a - Z.quot (a_pos a) d) /\
    int32 (a_shift a + (a_pos a - Z.quot (a_pos a) d)).

Lemma div_step_ok q p0 p1 d c i a :
  id_ok q -> 0 <= p0 -> 0 < d -> wf c -> abs_cells c !! i = Some a -> div_pre q p0 p1 d a ->
  sat (div_step q p0 p1 d c i) (upd_to c i (c_has_shift c || hit q p0 p1 a) (div_cell q p0 p1 d a)).
Proof.
  intros Hq H0 Hd W Ha Hpre. unfold div_step, div_cell, div_pre in *.
  pose proof (hit_used q p0 p1 a H0) as Hu. unfold hit in *.
  rewrite (cells_pos_in_ok c i a), (cells_seq_has_ok c i a) by done. simpl.
  destruct (in_range p0 p1 (a_pos a)); simpl; [|rewrite orb_false_r; by apply upd_to_same].
  case_bool_decide as Hin; simpl; [|rewrite orb_false_r; by apply upd_to_same].
  rewrite orb_true_r. destruct (Hpre eq_refl) as (? & ? & ?), (Hu eq_refl).
  by apply sat_cells_pos_div.
Qed.

(** [seq_cp] within a stream *)
Definition cp_cell (src dst p0 p1 : Z) (a : acell) : acell :=
  if hit src p0 p1 a then mk_acell (a_pos a) (a_ext a) (a_shift a) ({[dst]} ∪ a_seq a) else a.

Lemma cp_step_ok src dst p0 p1 c i a :
  id_ok src -> id_ok dst -> 0 <= p0 -> wf c -> abs_cells c !! i = Some a ->
  (hit src p0 p1 a = true -> dst ∉ a_seq a) ->
  sat (cp_step src dst p0 p1 c i) (upd_to c i (c_has_shift c || false) (cp_cell src dst p0 p1 a)).
Proof.
  intros Hs Hd H0 W Ha Hpre. unfold cp_step, cp_cell. rewrite orb_false_r.
  pose proof (hit_used src p0 p1 a H0) as Hu. unfold hit in *.
  rewrite (cells_pos_in_ok c i a), (cells_seq_has_ok c i a) by done. simpl.
  destruct (in_range p0 p1 (a_pos a)); simpl; [|by apply upd_to_same].
  case_bool_decide as Hin; simpl; [|by apply upd_to_same].
  destruct (Hu eq_refl). by apply sat_cells_seq_add; auto.
Qed.

Lemma tight_rm q a : tight a -> tight (acell_seq_rm q a).
Proof. unfold acell_seq_rm, tight. case_decide; simpl; [done|]. intros _ E. by rewrite E in *. Qed.
Lemma tight_keep q a : tight a -> tight (acell_seq_keep q a).
Proof. unfold acell_seq_keep, tight. repeat case_decide; simpl; set_solver. Qed.
Lemma hit_in q p0 p1 a : hit q p0 p1 a = true -> q ∈ a_seq a.
Proof. unfold hit. rewrite andb_true_iff, bool_decide_eq_true. tauto. Qed.
Lemma tight_in q a : q ∈ a_seq a -> tight a.
Proof. unfold tight. set_solver. Qed.

(** Every operation keeps used cells owned: none changes the sequences of a cell without
    emptying it or leaving it one. *)
Lemma tight_ops q p0 p1 d a :
  tight a -> tight (rm_cell q p0 p1 a) /\ tight (rm_any_cell p0 p1 a) /\
    tight (add_cell q p0 p1 d a) /\ tight (div_cell q p0 p1 d a) /\ tight (cp_cell q d p0 p1 a).
Proof.
  intros Ht. unfold rm_cell, rm_any_cell, add_cell, div_cell, cp_cell.
  destruct (hit q p0 p1 a) eqn:E.
  - apply hit_in in E. split_and!.
    + by apply tight_rm.
    + by destruct (in_range _ _ _).
    + unfold acell_pos_add. case_decide; [done|]. by apply (tight_in q).
    + by apply (tight_in q).
    + apply (tight_in q). simpl. set_solver.
  - split_and!; try done. by destruct (in_range _ _ _).
Qed.

(** ** Releasing pages *)

(** Cell [c] of a list of cells is empty. *)
Definition cell_free (l : list acell) (c : nat) : bool :=
  default true ((fun a => a_pos a =? -1) <$> l !! c).

(** All cells of page [lp] of stream [s] are empty. *)
Definition page_free (sz : nat) (k : kv_cache) (s lp : nat) : bool :=
  forallb (cell_free (stream_cells k s)) (page_cells (kv_pool k) sz lp).

Lemma page_free_cells sz k k' s lp :
  stream_cells k' s = stream_cells k s -> pg_block_size (kv_pool k') = pg_block_size (kv_pool k) ->
  page_free sz k' s lp = page_free sz k s lp.
Proof. intros E1 E2. unfold page_free, page_cells. by rewrite E1, E2. Qed.

(** The pool of [k] comes from [P] by releasing the empty pages of the streams [ss]. *)
Definition pages_freed (sz : nat) (ss : list nat) (P : page_pool) (k : kv_cache) : Prop :=
  kv_pg_enabled k = true ->
  pg_block_size (kv_pool k) = pg_block_size P /\
  forall s lp, entry (kv_pool k) s lp =
    if decide (s ∈ ss /\ (lp < n_pages sz (pg_block_size P))%nat /\ page_free sz k s lp = true)
    then Some (-1) else entry P s lp.

Lemma kv_ok_pool sz k b P :
  kv_ok sz k -> kv_pg_enabled k = b -> pool_ok (kv_n_stream k) (n_pages sz (pg_block_size P)) P ->
  kv_ok sz (with_pool b P k).
Proof. intros [] <- HP. by split. Qed.

Lemma cell_free_ok c i l :
  wf c -> l = abs_cells c -> (i < cells_size c)%nat -> cells_is_empty c i = Ok (cell_free l i).
Proof.
  intros W -> Hi. destruct (abs_lookup_lt c i W Hi) as (a & Ha & _).
  unfold cell_free. rewrite Ha. by apply cells_is_empty_ok.
Qed.

Lemma sat_free_pages sz k ss :
  kv_ok sz k -> (forall s, s ∈ ss -> (s < kv_n_stream k)%nat) ->
  sat (free_pages k ss) (fun k' => kv_ok sz k' /\ k' = with_pool (kv_pg_enabled k) (kv_pool k') k /\
    pages_freed sz ss (kv_pool k) k').
Proof.
  intros K Hss. unfold free_pages. destruct (kv_pg_enabled k) eqn:Epg; simpl.
  2:{ split_and!; [done|by destruct k; simpl in *; subst|]. unfold pages_freed. congruence. }
  pose proof (ko_pool _ _ K Epg) as O. set (np := n_pages sz _) in *.
  destruct (kv_stream sz k 0 K (ko_ns _ _ K)) as (c0 & _ & Hc0 & _ & _ & E0 & _).
  eapply sat_step; [by eapply (sat_vec_get _ _ c0 (fun c => c = c0))|]. intros ? ->.
  eapply sat_step; [apply (sat_mfor _ (fun d P => pool_ok (kv_n_stream k) np P /\
    pg_block_size P = pg_block_size (kv_pool k) /\
    forall s lp, entry P s lp =
      if decide (s ∈ d /\ (lp < np)%nat /\ page_free sz k s lp = true) then Some (-1)
      else entry (kv_pool k) s lp))|].
  - split_and!; [done|done|]. intros s lp. rewrite decide_False by set_solver. done.
  - intros d s r P -> (O' & Eb & He). assert (Hs : (s < kv_n_stream k)%nat) by (apply Hss; set_solver).
    destruct (kv_stream sz k s K Hs) as (c & _ & Hc & _ & W & E & _ & Ec & _).
    eapply sat_step; [by eapply (sat_vec_get _ _ c (fun c' => c' = c))|]. intros ? ->. rewrite E0.
    eapply sat_mono; [eapply (sat_free_empty_pages _ np P _ (cell_free (stream_cells k s)) sz s)|].
    + done.
    + done.
    + by rewrite Eb.
    + intros c' Hc'. apply cell_free_ok; [done|done|lia].
    + intros P' (O'' & Eb' & He'). split_and!; [done|congruence|]. intros s' lp.
      rewrite He', He.
      assert (forallb (cell_free (stream_cells k s)) (page_cells P sz lp) = page_free sz k s lp) as ->.
      { unfold page_free, page_cells. by rewrite Eb. }
      repeat case_decide; try done; exfalso; set_solver.
  - intros P (O' & Eb & He). apply sat_ok. split_and!; simpl; [|done|].
    + apply kv_ok_pool; [done|done|]. by rewrite Eb.
    + intros _. split; [done|]. intros s lp. rewrite He. unfold page_free, page_cells. simpl.
      by rewrite Eb.
Qed.

(** ** The operations *)

Lemma norm_p0_nonneg p : 0 <= norm_p0 p.
Proof. unfold norm_p0. destruct (Z.ltb_spec p 0); lia. Qed.

Lemma Forall_true {A} (l : list A) : Forall (fun _ => True) l.
Proof. by apply Forall_forall. Qed.

Lemma sat_seq_rm sz k q p0 p1 :
  kv_ok sz k -> id_ok q ->
  sat (cache_seq_rm k q p0 p1) (fun k' => kv_ok sz k' /\
    stream_map (rm_cell q (norm_p0 p0) (norm_p1 p1)) k (seq_stream k q) k' /\
    pages_freed sz [seq_stream k q] (kv_pool k) k').
Proof.
  intros K Hq. unfold cache_seq_rm. destruct (stream_of_ok sz k q K Hq) as [Eq Hs].
  rewrite assert_ok by (apply orb_true_iff; right; by eapply seq_id_valid_ok). simpl.
  pose proof Hq as [Hq0 _]. rewrite (proj2 (Z.leb_le 0 q) Hq0), Eq. simpl.
  eapply sat_step; [by eapply (sat_scan_stream sz k _ (rm_cell q (norm_p0 p0) (norm_p1 p1)));
    [..|intros; apply (tight_ops _ _ _ 0)]; eauto using rm_step_ok, Forall_true|].
  intros k1 (K1 & (Hst & Hsc & Hpg & Hc & Ho) & Hp).
  assert (kv_n_stream k1 = kv_n_stream k) as Hn by (unfold kv_static in Hst; congruence).
  eapply sat_mono; [apply (sat_free_pages sz); [done|]|].
  - intros s ->%list_elem_of_singleton. lia.
  - intros k2 (K2 & E2 & Hf). rewrite <- Hp. split_and!; [done| |done]. by rewrite E2.
Qed.

(** Removing a range of all sequences: every stream is scanned. *)
Lemma sat_seq_rm_any sz k p0 p1 :
  kv_ok sz k ->
  sat (cache_seq_rm k (-1) p0 p1) (fun k' => kv_ok sz k' /\ kv_static k' = kv_static k /\
    (forall s, (s < kv_n_stream k)%nat ->
       stream_cells k' s = rm_any_cell (norm_p0 p0) (norm_p1 p1) <$> stream_cells k s) /\
    pages_freed sz (seq 0 (kv_n_stream k)) (kv_pool k) k').
Proof.
  intros K. unfold cache_seq_rm. simpl. set (f := rm_any_cell _ _).
  eapply sat_step; [apply (sat_for _ (fun i k' => kv_ok sz k' /\ kv_static k' = kv_static k /\
    kv_pool k' = kv_pool k /\ forall s, stream_cells k' s =
      if decide (s < i)%nat then f <$> stream_cells k s else stream_cells k s))|].
  - by split_and!.
  - intros i k1 Hi (K1 & Hst & Hp & Hc).
    assert (kv_n_stream k1 = kv_n_stream k) as Hn by (unfold kv_static in Hst; congruence).
    eapply sat_mono; [by eapply (sat_scan_stream sz k1 i f); [..|intros; apply (tight_ops 0 _ _ 0)];
      eauto using rm_any_step_ok, Forall_true, norm_p0_nonneg; lia|].
    intros k2 (K2 & (Hst2 & _ & _ & Hc2 & Ho2) & Hp2). split_and!; [done|congruence|congruence|].
    intros s. destruct (decide (s = i)) as [->|Hne].
    + rewrite Hc2, Hc, decide_False, decide_True by lia. done.
    + destruct (Ho2 s Hne) as [E _]. unfold stream_cells at 1. rewrite E.
      fold (stream_cells k1 s). rewrite Hc. repeat case_decide; try done; lia.
  - intros k1 (K1 & Hst & Hp & Hc).
    assert (kv_n_stream k1 = kv_n_stream k) as Hn by (unfold kv_static in Hst; congruence).
    rewrite Hn. eapply sat_mono; [apply (sat_free_pages sz); [done|]|].
    + intros s Hs%elem_of_seq. lia.
    + intros k2 (K2 & E2 & Hf). rewrite <- Hp. split_and!; [done|by rewrite E2| |done].
      intros s Hs. rewrite E2. unfold stream_cells at 1. simpl. fold (stream_cells k1 s).
      by rewrite Hc, decide_True.
Qed.

Lemma sat_seq_keep sz k q :
  kv_ok sz k -> id_ok q ->
  sat (cache_seq_keep k q) (fun k' => kv_ok sz k' /\
    stream_map (acell_seq_keep q) k (seq_stream k q) k' /\ kv_pool k' = kv_pool k).
Proof.
  intros K Hq. unfold cache_seq_keep. destruct (stream_of_ok sz k q K Hq) as [Eq Hs].
  rewrite assert_ok by by eapply seq_id_valid_ok. simpl. rewrite Eq. simpl.
  eapply sat_scan_stream; eauto using keep_step_ok, tight_keep.
  by destruct (kv_stream sz k _ K Hs) as (c & h & _ & _ & _ & _ & T & -> & _).
Qed.

(** One stream is given new cells by a scan, and a new head. *)
Lemma stream_put_ok sz k s f h c c' hd :
  kv_ok sz k -> kv_cells k !! s = Some c -> (hd <= sz)%nat ->
  scanned f h c (abs_cells c) c' -> (forall a, tight a -> tight (f a)) ->
  kv_ok sz (kv_put k s c' hd) /\ stream_map f k s (kv_put k s c' hd).
Proof.
  intros K Hc Hh Hsc Hf. destruct (ko_cells _ _ K s c Hc) as (W & E & T). split.
  - apply kv_ok_put; [done|apply Hsc|by rewrite (scanned_size f h c)| |done].
    destruct Hsc as (_ & -> & _). by apply Forall_fmap_tight; auto.
  - apply (stream_map_put f h k s c); [done| |done]. unfold stream_cells. by rewrite Hc.
Qed.

Lemma sat_seq_add sz k q p0 p1 d :
  kv_ok sz k -> id_ok q -> kv_n_pos_per_embd k = 1%nat ->
  Forall (add_pre q (norm_p0 p0) (norm_p1 p1) d) (stream_cells k (seq_stream k q)) ->
  d <> 0 -> norm_p0 p0 <> norm_p1 p1 ->
  sat (cache_seq_add k q p0 p1 d) (fun k' => kv_ok sz k' /\
    stream_map (add_cell q (norm_p0 p0) (norm_p1 p1) d) k (seq_stream k q) k' /\ kv_pool k' = kv_pool k).
Proof.
  intros K Hq Hn Hpre Hd Hne. unfold cache_seq_add. destruct (stream_of_ok sz k q K Hq) as [Eq Hs].
  rewrite (assert_ok (seq_id_valid k q)) by by eapply seq_id_valid_ok. simpl.
  rewrite assert_ok by by rewrite Hn. simpl. rewrite Eq. simpl.
  destruct (Z.eqb_spec d 0); [done|]. destruct (Z.eqb_spec (norm_p0 p0) (norm_p1 p1)); [done|].
  destruct (kv_stream sz k _ K Hs) as (c & hd & Hc & Hh & W & E & T & Ec & Hle).
  eapply sat_step; [by eapply (sat_vec_get _ _ c (fun c' => c' = c))|]. intros ? ->.
  rewrite Ec in Hpre.
  eapply sat_step; [by eapply (sat_scan (add_cell q (norm_p0 p0) (norm_p1 p1) d));
    eauto using add_step_ok, norm_p0_nonneg|].
  intros [c' nh] [Hsc Hnh]. simpl in *. rewrite (sat_put sz) by done. apply sat_ok.
  assert (nh <= sz)%nat. { rewrite Hnh, <- E, cells_size_abs by done. apply first_idx_le. }
  edestruct (stream_put_ok sz k (seq_stream k q)); [done|done| |exact Hsc| |split_and!; [done|done|done]].
  - destruct (negb _); lia.
  - intros. by apply (tight_ops q _ _ d).
Qed.

Lemma put_cells_head k s c hd :
  (s < length (kv_cells k))%nat -> kv_heads k !! s = Some hd -> put_cells k s c = Ok (kv_put k s c hd).
Proof.
  intros Hs Hh. unfold put_cells, vec_set. rewrite decide_True by done. simpl.
  unfold kv_put, with_heads, with_cells. simpl. by rewrite (list_insert_id (kv_heads k)).
Qed.

Lemma sat_seq_div sz k q p0 p1 d :
  kv_ok sz k -> id_ok q -> kv_n_pos_per_embd k = 1%nat -> 1 < d ->
  Forall (div_pre q (norm_p0 p0) (norm_p1 p1) d) (stream_cells k (seq_stream k q)) ->
  norm_p0 p0 <> norm_p1 p1 ->
  sat (cache_seq_div k q p0 p1 d) (fun k' => kv_ok sz k' /\
    stream_map (div_cell q (norm_p0 p0) (norm_p1 p1) d) k (seq_stream k q) k' /\ kv_pool k' = kv_pool k).
Proof.
  intros K Hq Hn Hd Hpre Hne. unfold cache_seq_div. destruct (stream_of_ok sz k q K Hq) as [Eq Hs].
  rewrite (assert_ok (seq_id_valid k q)) by by eapply seq_id_valid_ok. simpl.
  rewrite assert_ok by by rewrite Hn. simpl. rewrite Eq. simpl.
  destruct (Z.eqb_spec d 1); [lia|]. destruct (Z.eqb_spec (norm_p0 p0) (norm_p1 p1)); [done|].
  destruct (kv_stream sz k _ K Hs) as (c & hd & Hc & Hh & W & E & T & Ec & Hle).
  eapply sat_step; [by eapply (sat_vec_get _ _ c (fun c' => c' = c))|]. intros ? ->.
  rewrite Ec in Hpre.
  eapply sat_step; [eapply (sat_plain_scan (div_cell q (norm_p0 p0) (norm_p1 p1) d)
    (hit q (norm_p0 p0) (norm_p1 p1)) (div_pre q (norm_p0 p0) (norm_p1 p1) d)); [|done|done]|].
  { intros. apply div_step_ok; try done; [apply norm_p0_nonneg|lia]. }
  intros c' Hsc. rewrite (put_cells_head _ _ _ hd) by (first [done | by eapply lookup_lt_Some]). apply sat_ok.
  edestruct (stream_put_ok sz k (seq_stream k q)); [done|done|exact Hle|exact Hsc| |split_and!; done].
  intros. by apply (tight_ops q _ _ d).
Qed.

(** [seq_cp] within one stream. *)
Lemma sat_seq_cp_same sz k src dst p0 p1 :
  kv_ok sz k -> id_ok src -> id_ok dst -> seq_stream k src = seq_stream k dst -> src <> dst ->
  (forall a, a ∈ stream_cells k (seq_stream k src) -> hit src (norm_p0 p0) (norm_p1 p1) a = true ->
     dst ∉ a_seq a) ->
  sat (cache_seq_cp k src dst p0 p1) (fun k' => kv_ok sz k' /\
    stream_map (cp_cell src dst (norm_p0 p0) (norm_p1 p1)) k (seq_stream k src) k' /\
    kv_pool k' = kv_pool k).
Proof.
  intros K Hsrc Hdst Es Hne Hpre. unfold cache_seq_cp.
  destruct (stream_of_ok sz k src K Hsrc) as [E1 Hs], (stream_of_ok sz k dst K Hdst) as [E2 _].
  rewrite (assert_ok (seq_id_valid k src)), (assert_ok (seq_id_valid k dst))
    by by eapply seq_id_valid_ok.
  simpl. rewrite E1, E2, <- Es. simpl.
  rewrite Nat.eqb_refl. destruct (Z.eqb_spec src dst); [done|].
  destruct (kv_stream sz k _ K Hs) as (c & hd & Hc & Hh & W & E & T & Ec & Hle).
  eapply sat_step; [by eapply (sat_vec_get _ _ c (fun c' => c' = c))|]. intros ? ->.
  rewrite Ec in Hpre.
  eapply sat_step; [eapply (sat_plain_scan (cp_cell src dst (norm_p0 p0) (norm_p1 p1)) (fun _ => false)
    (fun a => hit src (norm_p0 p0) (norm_p1 p1) a = true -> dst ∉ a_seq a)); [|done|]|].
  { intros. by apply cp_step_ok; auto using norm_p0_nonneg. }
  { by apply Forall_forall. }
  intros c' Hsc. rewrite (put_cells_head _ _ _ hd) by (first [done | by eapply lookup_lt_Some]). apply sat_ok.
  edestruct (stream_put_ok sz k (seq_stream k src)); [done|done|exact Hle|exact Hsc| |split_and!; done].
  intros. by apply (tight_ops src _ _ dst).
Qed.

(** *** Copy to another stream *)

(** The copy of a cell: only the destination sequence, the shift kept pending. *)
Definition cp_stream_cell (src dst : Z) (a : acell) : acell :=
  if decide (src ∈ a_seq a) then mk_acell (a_pos a) (a_ext a) (a_shift a) {[dst]} else acell_empty.

(** The position before the pending shift is a position. *)
Definition cp_stream_pre (src : Z) (a : acell) : Prop :=
  src ∈ a_seq a -> 0 <= a_pos a - a_shift a <= INT32_MAX /\ int32 (a_pos a) /\ int32 (a_shift a).

Lemma cp_stream_step_ok src dst c0 c1 i a :
  id_ok src -> id_ok dst -> wf c0 -> wf c1 -> abs_cells c0 !! i = Some a ->
  abs_cells c1 !! i = Some acell_empty -> cp_stream_pre src a ->
  sat (cp_stream_step src dst c0 c1 i) (fun c' => exists b, upd_to c1 i b (cp_stream_cell src dst a) c').
Proof.
  intros Hs Hd W0 W1 Ha He Hpre. unfold cp_stream_step, cp_stream_cell, cp_stream_pre in *.
  rewrite (cells_seq_has_ok c0 i a) by done. simpl. case_bool_decide as Hin; simpl.
  2:{ rewrite decide_False by done. eexists. by apply upd_to_same. }
  rewrite decide_True by done. destruct (Hpre Hin) as (Hp & Hi1 & Hi2). clear Hpre.
  assert (a_pos a <> -1) as Hne.
  { apply a_pos_used; [by destruct (abs_lookup_ok c0 i a W0 Ha)|set_solver]. }
  destruct (cells_reads_ok c0 W0 i a Ha) as (_ & Ee & Ep & Esh & _).
  destruct (abs_lookup_ok c0 i a W0 Ha) as [(Hge & _) _].
  destruct (Z.eqb_spec (a_pos a) (-1)); [done|]. rewrite Ep, Esh, Ee. simpl.
  set (q := a_pos a - a_shift a) in *. unfold INT32_MAX in Hp.
  eapply sat_step with (P := fun p => p = q).
  { subst q. destruct (Z.eqb_spec (a_shift a) 0) as [E|E]; simpl; [rewrite E; apply sat_ok; lia|].
    rewrite i32_ok by (unfold int32, INT32_MIN, INT32_MAX; lia). simpl.
    by rewrite assert_ok by (apply Z.leb_le; lia). }
  intros ? ->.
  eapply sat_step; [by apply (sat_cells_pos_set c1 i q acell_empty); auto; lia|].
  intros c2 (W2 & E2 & _). assert (Hi : (i < length (abs_cells c1))%nat) by by eapply lookup_lt_Some.
  assert (H2 : abs_cells c2 !! i = Some (mk_acell q ext_reset 0 ∅))
    by by rewrite E2, list_lookup_insert_eq.
  eapply sat_step; [apply (sat_cells_seq_add c2 i dst _ W2 H2); simpl; [lia|set_solver|done]|].
  intros c3 (W3 & E3 & _). simpl in E3. rewrite E2, list_insert_insert_eq, union_empty_r_L in E3.
  assert (H3 : abs_cells c3 !! i = Some (mk_acell q ext_reset 0 {[dst]}))
    by by rewrite E3, list_lookup_insert_eq.
  eapply sat_step with (P := fun c4 => wf c4 /\
    abs_cells c4 = <[i := mk_acell (a_pos a) ext_reset (a_shift a) {[dst]}]> (abs_cells c1)).
  { destruct (Z.eqb_spec (a_shift a) 0) as [E|E]; simpl.
    - apply sat_ok. split; [done|]. rewrite E3. subst q. by rewrite E, Z.sub_0_r.
    - eapply sat_step; [apply (sat_cells_pos_add c3 i (a_shift a) _ W3 H3); simpl; [lia|..]|].
      + subst q. by rewrite Z.sub_add.
      + done.
      + intros r [(W4 & E4 & _) _]. apply sat_ok. split; [done|]. rewrite E4, E3, list_insert_insert_eq.
        unfold acell_pos_add. simpl. rewrite decide_False by (subst q; lia).
        subst q. by rewrite Z.sub_add. }
  intros c4 (W4 & E4).
  assert (H4 : abs_cells c4 !! i = Some (mk_acell (a_pos a) ext_reset (a_shift a) {[dst]}))
    by by rewrite E4, list_lookup_insert_eq.
  eapply sat_mono; [apply (sat_cells_ext_set c4 i (a_ext a) _ W4 H4)|].
  intros c5 (W5 & E5 & Hb). simpl in E5. eexists. split_and!; [done| |exact Hb].
  by rewrite E5, E4, list_insert_insert_eq.
Qed.

Lemma sat_cp_stream_loop src dst c0 c1 :
  id_ok src -> id_ok dst -> wf c0 -> wf c1 -> abs_cells c1 = replicate (cells_size c0) acell_empty ->
  Forall (cp_stream_pre src) (abs_cells c0) ->
  sat (mfor (cp_stream_step src dst c0) (seq 0 (cells_size c0)) c1)
    (fun c' => wf c' /\ abs_cells c' = cp_stream_cell src dst <$> abs_cells c0).
Proof.
  intros Hs Hd W0 W1 E1 Hpre. set (l := abs_cells c0) in *.
  assert (Hn : cells_size c0 = length l) by by apply cells_size_abs. rewrite Hn in *.
  eapply sat_mono; [apply (sat_for _ (fun i c' => wf c' /\
    abs_cells c' = (cp_stream_cell src dst <$> take i l) ++ replicate (length l - i) acell_empty))|].
  - by rewrite Nat.sub_0_r.
  - intros i c' Hi (W' & E'). destruct (lookup_lt_is_Some_2 l i Hi) as [a Ha].
    assert (Hlen : length (cp_stream_cell src dst <$> take i l) = i)
      by (rewrite length_fmap, length_take; lia).
    eapply sat_mono; [apply (cp_stream_step_ok src dst c0 c' i a); try done|].
    + rewrite E', lookup_app_r by lia. apply lookup_replicate. split; [done|lia].
    + by eapply Forall_lookup_1.
    + intros c'' (b & W'' & E'' & _). split; [done|].
      rewrite E'', E', Nat.add_1_r, (take_S_r _ _ a), fmap_app by done.
      rewrite insert_app_r_alt, Hlen, Nat.sub_diag by lia.
      replace (length l - i)%nat with (S (length l - S i)) by lia. simpl. by rewrite <- app_assoc.
  - intros c' (W' & E'). split; [done|]. by rewrite E', Nat.sub_diag, take_ge, app_nil_r.
Qed.

Lemma tight_cp_stream src dst a : tight (cp_stream_cell src dst a).
Proof. unfold cp_stream_cell. case_decide; [|done]. apply (tight_in dst). simpl. set_solver. Qed.

(** The range covers the buffer as far as [seq_cp] checks it. *)
Definition full_range (sz : nat) (p : Z) : Prop := p <= 0 \/ Z.of_nat sz <= p + 1 <= INT32_MAX.

Lemma cuts_full sz p : full_range sz p -> cuts p (Z.of_nat sz) = Ok false.
Proof.
  intros H. unfold cuts. destruct (Z.ltb_spec 0 p) as [Hp|Hp]; [|done].
  rewrite i32_ok by (unfold full_range, int32, INT32_MIN, INT32_MAX in *; lia). simpl.
  f_equal. apply Z.ltb_ge. unfold full_range in H. lia.
Qed.

Lemma sat_seq_cp_cross sz k src dst p0 p1 :
  kv_ok sz k -> id_ok src -> id_ok dst -> seq_stream k src <> seq_stream k dst ->
  full_range sz p0 -> full_range sz p1 ->
  Forall (cp_stream_pre src) (stream_cells k (seq_stream k src)) ->
  sat (cache_seq_cp k src dst p0 p1) (fun k' => kv_ok sz k' /\ kv_static k' = kv_static k /\
    kv_pool k' = kv_pool k /\
    kv_sc_info k' = (fst (kv_sc_info k) ++ [seq_stream k src], snd (kv_sc_info k) ++ [seq_stream k dst]) /\
    stream_cells k' (seq_stream k dst) = cp_stream_cell src dst <$> stream_cells k (seq_stream k src) /\
    forall s, s <> seq_stream k dst -> kv_cells k' !! s = kv_cells k !! s).
Proof.
  intros K Hsrc Hdst Hne Hf0 Hf1 Hpre. unfold cache_seq_cp.
  destruct (stream_of_ok sz k src K Hsrc) as [Q1 Hs0], (stream_of_ok sz k dst K Hdst) as [Q2 Hs1].
  rewrite (assert_ok (seq_id_valid k src)), (assert_ok (seq_id_valid k dst))
    by by eapply seq_id_valid_ok.
  simpl. rewrite Q1, Q2. simpl. destruct (Nat.eqb_spec (seq_stream k src) (seq_stream k dst)); [done|].
  set (s0 := seq_stream k src) in *. set (s1 := seq_stream k dst) in *.
  assert (cache_get_size k = Ok sz) as ->.
  { assert (id_ok 0) as H0 by (split; [done|]; vm_compute; done).
    destruct (stream_of_ok sz k 0 K H0) as [Q0 Hs]. unfold stream_of, vec_getZ in Q0.
    change (vec_get (kv_seq_to_stream k) 0 = Ok (seq_stream k 0)) in Q0.
    unfold cache_get_size. rewrite Q0. simpl.
    destruct (kv_stream sz k _ K Hs) as (c & _ & Hc & _ & _ & E & _).
    apply vec_get_ok in Hc. rewrite Hc. simpl. by rewrite E. }
  simpl. rewrite !cuts_full by done. simpl.
  destruct (kv_stream sz k s0 K Hs0) as (c0 & h0 & Hc0 & Hh0 & W0 & E0 & T0 & Ec0 & Hle0).
  destruct (kv_stream sz k s1 K Hs1) as (c1 & h1 & Hc1 & Hh1 & W1 & E1 & T1 & Ec1 & Hle1).
  rewrite (proj2 (vec_get_ok _ _ _) Hc0), (proj2 (vec_get_ok _ _ _) Hc1). simpl.
  set (k1 := with_sc_info _ k). assert (K1 : kv_ok sz k1) by by destruct K.
  eapply sat_step; [apply (sat_cp_stream_loop src dst c0 (cells_reset c1)); try done|].
  { apply wf_reset. } { rewrite abs_reset. congruence. } { by rewrite <- Ec0. }
  intros c' (W' & E').
  rewrite (put_cells_head k1 s1 c' h1) by (first [done | by eapply lookup_lt_Some]). simpl.
  change (kv_heads (kv_put k1 s1 c' h1)) with (<[s1 := h1]> (kv_heads k)).
  assert (Hh0' : <[s1 := h1]> (kv_heads k) !! s0 = Some h0) by by rewrite list_lookup_insert_ne.
  rewrite (proj2 (vec_get_ok _ _ _) Hh0'). simpl. unfold put_head, vec_set. simpl.
  rewrite length_insert, decide_True by by eapply lookup_lt_Some. simpl. apply sat_ok.
  rewrite list_insert_insert_eq.
  assert (Hk : kv_ok sz (kv_put k1 s1 c' h0)).
  { apply kv_ok_put; [done|done| | |done].
    - rewrite cells_size_abs, E', length_fmap, <- cells_size_abs by done. congruence.
    - rewrite E'. apply Forall_fmap, Forall_forall. intros. apply tight_cp_stream. }
  split_and!; [exact Hk|done|done|done| |].
  - rewrite Ec0, <- E'. unfold stream_cells. simpl.
    by rewrite list_lookup_insert_eq by by eapply lookup_lt_Some.
  - intros s Hs. simpl. by rewrite list_lookup_insert_ne.
Qed.
