(* ===== verification/KvCacheProps.v ===== *)
(** * Properties of the sequence operations of the KV cache

    What the constructor and each operation on a sequence promise, stated on the
    cells of the streams and on the positions stored for each sequence. *)

From S2P Require Import Prelude KvCells KvCellsInv KvCellsSpec Batch Pages PagesTheory KvCache KvCacheTheory.

(** ** The constructor *)

Lemma sat_cache_new unified kv_size n_seq_max n_pad n_swa t n_pos budget paged :
  (0 < n_seq_max <= MAX_SEQ)%nat -> (0 < n_pad)%nat -> (kv_size mod n_pad = 0)%nat ->
  sat (cache_new unified kv_size n_seq_max n_pad n_swa t n_pos budget paged) (fun k =>
    kv_ok kv_size k /\ kv_n_stream k = (if unified then 1 else n_seq_max)%nat /\
    (forall s, (s < kv_n_stream k)%nat -> stream_cells k s = replicate kv_size acell_empty) /\
    forall q, (Z.to_nat q < n_seq_max)%nat -> seq_stream k q = if unified then 0%nat else Z.to_nat q).
Proof.
  intros [Hn0 Hn1] Hp Hm. unfold cache_new. destruct (Nat.eqb_spec n_pad 0); [lia|]. simpl.
  rewrite assert_ok by by apply Nat.eqb_eq. simpl.
  set (n_stream := if unified then 1%nat else n_seq_max).
  assert (Hns : (0 < n_stream <= MAX_SEQ)%nat) by (subst n_stream; destruct unified; lia).
  eapply sat_step with (P := fun l => length l = MAX_SEQ /\
    (forall q s, l !! q = Some s -> (s < n_stream)%nat) /\
    forall q, (q < n_stream)%nat -> l !! q = Some q).
  { destruct (Nat.ltb_spec 1 n_stream).
    - eapply sat_mono; [apply (sat_for _ (fun i l => length l = MAX_SEQ /\
        (forall q s, l !! q = Some s -> (s < n_stream)%nat) /\ forall q, (q < i)%nat -> l !! q = Some q))|].
      + split_and!; [by rewrite length_replicate| |lia]. intros q s [-> _]%lookup_replicate. lia.
      + intros i l Hi (Hl & Hr & Hd). apply sat_vec_set; [lia|].
        rewrite length_insert. split_and!; [done| |].
        * intros q s [(<- & <- & _)|[_ H']]%list_lookup_insert_Some; [done|by eapply Hr].
        * intros q Hq. destruct (decide (q = i)) as [->|]; [by rewrite list_lookup_insert_eq by lia|].
          rewrite list_lookup_insert_ne by done. apply Hd. lia.
      + done.
    - apply sat_ok. split_and!; [by rewrite length_replicate| |].
      + intros q s [-> _]%lookup_replicate. lia.
      + intros q Hq. apply lookup_replicate. lia. }
  intros l (Hl & Hr & Hd). apply sat_ok. split_and!.
  - split; simpl; rewrite ?length_replicate; try done; try lia.
    + intros s c [-> _]%lookup_replicate. split_and!; [apply wf_resize| |].
      * by rewrite cells_size_abs, abs_resize, length_replicate by apply wf_resize.
      * rewrite abs_resize. apply Forall_forall. by intros a [-> _]%elem_of_replicate.
    + intros s h [-> _]%lookup_replicate. lia.
    + intros ->. apply pool_init_ok; simpl; lia.
  - done.
  - simpl. intros s Hs. unfold stream_cells. simpl. rewrite lookup_replicate_2 by done. simpl.
    apply abs_resize.
  - intros q Hq. unfold seq_stream. simpl. subst n_stream.
    destruct unified; [|by rewrite Hd].
    destruct (l !! Z.to_nat q) as [s|] eqn:E; [|done]. apply Hr in E. simpl. lia.
Qed.

(** ** Positions per sequence *)

(** The positions stored for sequence [q], in cell order. *)
Definition kv_positions (k : kv_cache) (q : Z) : list Z :=
  seq_positions (stream_cells k (seq_stream k q)) q.

Lemma seq_positions_cons a l q :
  seq_positions (a :: l) q = (if decide (q ∈ a_seq a) then [a_pos a] else []) ++ seq_positions l q.
Proof.
  unfold seq_positions. rewrite filter_cons. unfold holds. by repeat case_decide.
Qed.

(** A map over the cells acts on the positions of [q] when it does so on each cell. *)
Lemma seq_positions_fmap (f : acell -> acell) (F : list Z -> list Z) l q :
  F [] = [] -> (forall k1 k2, F (k1 ++ k2) = F k1 ++ F k2) ->
  (forall a, a ∈ l -> seq_positions [f a] q = F (seq_positions [a] q)) ->
  seq_positions (f <$> l) q = F (seq_positions l q).
Proof.
  intros Hn Ha Hf. induction l as [|a l IH]; [done|].
  rewrite fmap_cons, (seq_positions_cons a l), (seq_positions_cons (f a)), Ha, IH by set_solver.
  f_equal. specialize (Hf a). rewrite !seq_positions_cons, !app_nil_r in Hf. apply Hf. set_solver.
Qed.

Lemma seq_positions_same (f : acell -> acell) l q :
  (forall a, a ∈ l -> seq_positions [f a] q = seq_positions [a] q) ->
  seq_positions (f <$> l) q = seq_positions l q.
Proof. intros H. by apply (seq_positions_fmap f (fun l => l)). Qed.

Lemma seq_positions_empty n q : seq_positions (replicate n acell_empty) q = [].
Proof. by induction n. Qed.

Definition out_of (p0 p1 : Z) (p : Z) : Prop := in_range p0 p1 p = false.
#[export] Instance out_of_dec p0 p1 p : Decision (out_of p0 p1 p).
Proof. unfold out_of. apply _. Defined.

(** Which positions each operation leaves. *)
Lemma rm_positions q q' p0 p1 l :
  seq_positions (rm_cell q p0 p1 <$> l) q' =
    if decide (q' = q) then filter (out_of p0 p1) (seq_positions l q') else seq_positions l q'.
Proof.
  case_decide as E.
  - subst q'. apply (seq_positions_fmap _ (filter (out_of p0 p1))); [done|intros; apply filter_app|].
    intros a _. rewrite !seq_positions_cons, !app_nil_r. unfold rm_cell, hit, out_of, acell_seq_rm.
    destruct (in_range p0 p1 (a_pos a)) eqn:Er; simpl.
    + case_bool_decide as Hq; simpl.
      * rewrite decide_False by (case_decide; simpl; set_solver). rewrite decide_True by done.
        rewrite filter_cons_False, filter_nil by congruence. done.
      * by rewrite !decide_False.
    + case_decide; [|done]. rewrite filter_cons_True, filter_nil by done. done.
  - apply seq_positions_same. intros a _. rewrite !seq_positions_cons, !app_nil_r.
    unfold rm_cell, acell_seq_rm. destruct (hit q p0 p1 a); [|done].
    destruct (decide (a_seq a ∖ {[q]} = ∅)) as [Hs|Hs]; simpl; [|by apply decide_ext; set_solver].
    rewrite !decide_False; [done|set_solver|set_solver].
Qed.

Lemma keep_positions q q' l :
  seq_positions (acell_seq_keep q <$> l) q' = if decide (q' = q) then seq_positions l q' else [].
Proof.
  case_decide as E.
  - subst q'. apply seq_positions_same. intros a _. rewrite !seq_positions_cons, !app_nil_r.
    unfold acell_seq_keep. destruct (decide (q ∈ a_seq a)) as [Hq|Hq]; simpl.
    + by rewrite decide_True by set_solver.
    + rewrite decide_False; [done|]. destruct (decide (a_seq a = ∅)); simpl; set_solver.
  - apply (seq_positions_fmap _ (fun _ => [])); [done|done|]. intros a _.
    rewrite !seq_positions_cons, !app_nil_r. unfold acell_seq_keep.
    rewrite decide_False; [done|].
    destruct (decide (q ∈ a_seq a)), (decide (a_seq a = ∅)); simpl; set_solver.
Qed.

Lemma cp_positions src dst p0 p1 l q :
  (forall a, a ∈ l -> hit src p0 p1 a = true -> dst ∉ a_seq a) -> q <> dst ->
  seq_positions (cp_cell src dst p0 p1 <$> l) q = seq_positions l q.
Proof.
  intros _ Hne. apply seq_positions_same. intros a _. rewrite !seq_positions_cons, !app_nil_r.
  unfold cp_cell. destruct (hit src p0 p1 a); [|done]. simpl. by apply decide_ext; set_solver.
Qed.

Lemma cp_positions_dst src dst p0 p1 l :
  (forall a, a ∈ l -> hit src p0 p1 a = true -> dst ∉ a_seq a) ->
  seq_positions (cp_cell src dst p0 p1 <$> l) dst ≡ₚ
    filter (fun p => in_range p0 p1 p = true) (seq_positions l src) ++ seq_positions l dst.
Proof.
  induction l as [|a l IH]; intros Hl; [done|].
  rewrite fmap_cons, !seq_positions_cons, IH by set_solver.
  rewrite filter_app. unfold cp_cell. destruct (hit src p0 p1 a) eqn:E; simpl.
  - destruct (decide (dst ∈ {[dst]} ∪ a_seq a)); [|set_solver].
    assert (Hn : dst ∉ a_seq a) by (apply Hl; [set_solver|done]). unfold hit in E. apply andb_true_iff in E as [Er Hs%bool_decide_eq_true].
    destruct (decide (src ∈ a_seq a)); [|done].
    destruct (decide (dst ∈ a_seq a)); [done|].
    by rewrite filter_cons_True, filter_nil.
  - assert (filter (fun p => in_range p0 p1 p = true)
      (if decide (src ∈ a_seq a) then [a_pos a] else []) = []) as ->.
    { case_decide as Hs; [|done]. rewrite filter_cons_False, filter_nil; [done|].
      unfold hit in E. rewrite bool_decide_eq_true_2, andb_true_r in E by done. congruence. }
    simpl. solve_Permutation.
Qed.

(** [seq_add] moves every sequence that owns a cell it hits. *)
Definition shift_pos (p0 p1 d p : Z) : list Z :=
  if in_range p0 p1 p then if p + d <? 0 then [] else [p + d] else [p].

Lemma add_positions q p0 p1 d l :
  seq_positions (add_cell q p0 p1 d <$> l) q = mjoin (shift_pos p0 p1 d <$> seq_positions l q).
Proof.
  apply (seq_positions_fmap _ (fun l => mjoin (shift_pos p0 p1 d <$> l))); [done| |].
  - intros. by rewrite fmap_app, join_app.
  - intros a _. rewrite !seq_positions_cons, !app_nil_r. unfold add_cell, hit, shift_pos, acell_pos_add.
    destruct (in_range p0 p1 (a_pos a)) eqn:Er; simpl.
    + case_bool_decide as Hq; simpl; [|by rewrite !decide_False].
      destruct (decide (q ∈ a_seq a)); [|done].
      destruct (decide (a_pos a + d < 0)) as [Hd|Hd]; simpl; rewrite Er, app_nil_r.
      * rewrite decide_False by set_solver. by rewrite (proj2 (Z.ltb_lt _ _)).
      * rewrite decide_True by done. by rewrite (proj2 (Z.ltb_ge _ _)) by lia.
    + case_decide; [|done]. simpl. by rewrite Er.
Qed.

Lemma static_stream k k' q : kv_static k' = kv_static k -> seq_stream k' q = seq_stream k q.
Proof. unfold kv_static, seq_stream. congruence. Qed.

Lemma stream_map_positions f k s k' (F : Z -> list Z -> list Z) :
  stream_map f k s k' ->
  (forall q, seq_positions (f <$> stream_cells k s) q = F q (seq_positions (stream_cells k s) q)) ->
  forall q, kv_positions k' q =
    if decide (seq_stream k q = s) then F q (kv_positions k q) else kv_positions k q.
Proof.
  intros (Hst & _ & _ & Hc & Ho) HF q. unfold kv_positions. rewrite (static_stream k k') by done.
  case_decide as E.
  - by rewrite E, Hc, HF.
  - unfold stream_cells. by destruct (Ho _ E) as [-> _].
Qed.

(** ** A small cache for the examples: one stream of four cells, of which two are used *)

Definition demo_cells : llama_kv_cells :=
  match run_cmds [CPosSet 0 5; CSeqAdd 0 1; CPosSet 2 6; CSeqAdd 2 1; CSeqAdd 2 3]
          (cells_resize 4 cells_new) with Ok c => c | Err _ => cells_new end.

Definition demo_cache : kv_cache :=
  match cache_new true 4 8 1 0 LLAMA_SWA_TYPE_NONE 1 0 false with
  | Ok k => kv_put k 0 demo_cells 3
  | Err _ => mk_kv 0 0 0 0 LLAMA_SWA_TYPE_NONE 0 0 [] [] [] ([], []) false (mk_pool 0 0 [] [])
  end.

Definition demo_list : list acell :=
  [mk_acell 5 ext_reset 0 {[1]}; acell_empty; mk_acell 6 ext_reset 0 {[1; 3]}; acell_empty].

Lemma demo_forall (P : acell -> Prop) :
  P (mk_acell 5 ext_reset 0 {[1]}) -> P acell_empty -> P (mk_acell 6 ext_reset 0 {[1; 3]}) ->
  Forall P demo_list.
Proof. intros. by repeat apply Forall_cons_2. Qed.

Lemma demo_cells_ok : wf demo_cells /\ abs_cells demo_cells = demo_list.
Proof.
  pose proof (run_cmds_refines [CPosSet 0 5; CSeqAdd 0 1; CPosSet 2 6; CSeqAdd 2 1; CSeqAdd 2 3]
    (cells_resize 4 cells_new) (wf_resize 4 cells_new)) as H.
  assert (Forall cmd_legal [CPosSet 0 5; CSeqAdd 0 1; CPosSet 2 6; CSeqAdd 2 1; CSeqAdd 2 3]) as L
    by (repeat constructor; simpl; lia).
  specialize (H L). split; [|vm_compute; reflexivity].
  assert (is_Some (abs_cmds [CPosSet 0 5; CSeqAdd 0 1; CPosSet 2 6; CSeqAdd 2 1; CSeqAdd 2 3]
    (abs_state (cells_resize 4 cells_new)))) as [st Hst] by (vm_compute; eauto).
  rewrite Hst in H. simpl in H. apply sat_exists in H as (c & Hc & W & _).
  unfold demo_cells. by rewrite Hc.
Qed.

Lemma demo_cache_ok : kv_ok 4 demo_cache.
Proof.
  assert (sat (cache_new true 4 8 1 0 LLAMA_SWA_TYPE_NONE 1 0 false) (kv_ok 4)) as H.
  { eapply sat_mono; [apply sat_cache_new; [|lia|done]|by intros k (K & _)].
    split; [lia|]. apply Nat.leb_le. vm_compute. done. }
  unfold demo_cache. apply sat_exists in H as (k & -> & K).
  destruct demo_cells_ok as [W E]. apply kv_ok_put; [done|done| |rewrite E|lia].
  - rewrite cells_size_abs by done. by rewrite E.
  - repeat constructor; unfold tight; simpl; set_solver.
Qed.

Lemma id_ok_small q : (0 <=? q) && (q <? LLAMA_MAX_SEQ) = true -> id_ok q.
Proof. unfold id_ok. lia. Qed.

(** ** The properties *)

(** A freshly constructed cache satisfies the invariant: every cell of every stream is
    empty, and the streams are assigned as the constructor documents them (one shared
    stream, or one per sequence). *)
Lemma cache_new_ok unified kv_size n_seq_max n_pad n_swa t n_pos budget paged
    (Hn : (0 < n_seq_max <= MAX_SEQ)%nat) (Hp : (0 < n_pad)%nat) (Hm : (kv_size mod n_pad = 0)%nat) :
  exists k, cache_new unified kv_size n_seq_max n_pad n_swa t n_pos budget paged = Ok k /\
    kv_ok kv_size k /\
    (forall q, id_ok q -> (Z.to_nat q < n_seq_max)%nat ->
       seq_stream k q = (if unified then 0%nat else Z.to_nat q) /\
       kv_positions k q = []).
Proof.
  destruct (proj1 (sat_exists _ _) (sat_cache_new unified kv_size n_seq_max n_pad n_swa t n_pos
    budget paged Hn Hp Hm)) as (k & Hk & K & Hns & Hc & Hs).
  exists k. split_and!; [done|done|]. intros q Hq Hlt. split; [by apply Hs|].
  unfold kv_positions. rewrite Hc by by destruct (stream_of_ok kv_size k q K Hq).
  apply seq_positions_empty.
Qed.

Lemma cache_new_ok_witness :
  exists k, cache_new false 64 2 1 0 LLAMA_SWA_TYPE_NONE 1 0 true = Ok k /\ kv_ok 64 k.
Proof.
  destruct (cache_new_ok false 64 2 1 0 LLAMA_SWA_TYPE_NONE 1 0 true) as (k & Hk & K & _).
  - split; [lia|]. apply Nat.leb_le. vm_compute. reflexivity.
  - lia.
  - reflexivity.
  - exists k. split; [exact Hk|exact K].
Defined.

Lemma sat_rm_views sz k q p0 p1 : kv_ok sz k -> id_ok q ->
  sat (cache_seq_rm k q p0 p1) (fun k' => kv_ok sz k' /\ stream_map (rm_cell q (norm_p0 p0) (norm_p1 p1)) k (seq_stream k q) k' /\
    pages_freed sz [seq_stream k q] (kv_pool k) k' /\
    forall q', kv_positions k' q' = if decide (q' = q) then filter (out_of (norm_p0 p0) (norm_p1 p1)) (kv_positions k q') else kv_positions k q').
Proof.
  intros K Hq. eapply sat_mono; [by apply (sat_seq_rm sz k q)|]. intros k' (K' & Hm & Hf). split_and!; [done|done|done|]. intros q'.
  rewrite (stream_map_positions _ _ _ _ (fun q' l => if decide (q' = q)
    then filter (out_of (norm_p0 p0) (norm_p1 p1)) l else l) Hm) by (intros; apply rm_positions).
  case_decide as E; [done|]. case_decide; [subst; done|done].
Qed.

(** C4: [seq_rm] of one sequence always succeeds: it removes exactly the positions of that
    sequence inside [\[p0, p1)] (a negative bound is open), leaves the positions of every
    other sequence as they were, keeps the invariant, and with paging a page of the stream
    goes back to the pool exactly when all of its cells are then empty. *)
Theorem seq_rm_ok sz k q p0 p1 (K : kv_ok sz k) (Hq : id_ok q) :
  exists k', cache_seq_rm k q p0 p1 = Ok k' /\ kv_ok sz k' /\
    (forall q', kv_positions k' q' =
       if decide (q' = q) then filter (out_of (norm_p0 p0) (norm_p1 p1)) (kv_positions k q')
       else kv_positions k q') /\
    stream_cells k' (seq_stream k q) =
      rm_cell q (norm_p0 p0) (norm_p1 p1) <$> stream_cells k (seq_stream k q) /\
    pages_freed sz [seq_stream k q] (kv_pool k) k'.
Proof.
  destruct (proj1 (sat_exists _ _) (sat_rm_views sz k q p0 p1 K Hq)) as (k' & Hk & K' & Hm & Hf & Hp).
  exists k'. split_and!; [done|done|done|by apply Hm|done].
Qed.

Lemma seq_rm_ok_witness :
  exists k', cache_seq_rm demo_cache 1 6 (-1) = Ok k' /\ kv_positions k' 1 = [5] /\ kv_positions k' 3 = [6].
Proof.
  destruct (seq_rm_ok 4 demo_cache 1 6 (-1) demo_cache_ok) as (k' & Hk & _ & Hp & _).
  - apply id_ok_small. reflexivity.
  - exists k'. split; [exact Hk|]. split; [rewrite (Hp 1)|rewrite (Hp 3)]; vm_compute; reflexivity.
Defined.

Lemma sat_keep_views sz k q : kv_ok sz k -> id_ok q ->
  sat (cache_seq_keep k q) (fun k' => kv_ok sz k' /\ stream_map (acell_seq_keep q) k (seq_stream k q) k' /\
    forall q', kv_positions k' q' = if decide (seq_stream k q' = seq_stream k q /\ q' <> q) then [] else kv_positions k q').
Proof.
  intros K Hq. eapply sat_mono; [by apply (sat_seq_keep sz k q)|]. intros k' (K' & Hm & _). split_and!; [done|done|]. intros q'.
  rewrite (stream_map_positions _ _ _ _ (fun q' l => if decide (q' = q) then l else []) Hm)
    by (intros; apply keep_positions).
  repeat case_decide; tauto.
Qed.

(** [seq_keep] always succeeds: in the stream of the kept sequence every other sequence
    loses all its positions, the kept one keeps them, and other streams are untouched. *)
Lemma seq_keep_ok sz k q (K : kv_ok sz k) (Hq : id_ok q) :
  exists k', cache_seq_keep k q = Ok k' /\ kv_ok sz k' /\
    forall q', kv_positions k' q' =
      if decide (seq_stream k q' = seq_stream k q /\ q' <> q) then [] else kv_positions k q'.
Proof.
  destruct (proj1 (sat_exists _ _) (sat_keep_views sz k q K Hq)) as (k' & Hk & K' & _ & Hp). by exists k'.
Qed.

Lemma seq_keep_ok_witness :
  exists k', cache_seq_keep demo_cache 3 = Ok k' /\ kv_positions k' 1 = [] /\ kv_positions k' 3 = [6].
Proof.
  destruct (seq_keep_ok 4 demo_cache 3 demo_cache_ok) as (k' & Hk & _ & Hp).
  - apply id_ok_small. reflexivity.
  - exists k'. split; [exact Hk|]. split; [rewrite (Hp 1)|rewrite (Hp 3)]; vm_compute; reflexivity.
Defined.

Lemma sat_cp_views sz k src dst p0 p1 : kv_ok sz k -> id_ok src -> id_ok dst -> seq_stream k src = seq_stream k dst -> src <> dst ->
  (forall a, a ∈ stream_cells k (seq_stream k src) -> hit src (norm_p0 p0) (norm_p1 p1) a = true -> dst ∉ a_seq a) ->
  sat (cache_seq_cp k src dst p0 p1) (fun k' => kv_ok sz k' /\
    stream_map (cp_cell src dst (norm_p0 p0) (norm_p1 p1)) k (seq_stream k src) k' /\ kv_pool k' = kv_pool k /\
    kv_positions k' dst ≡ₚ
      filter (fun p => in_range (norm_p0 p0) (norm_p1 p1) p = true) (kv_positions k src) ++ kv_positions k dst /\
    forall q, q <> dst -> kv_positions k' q = kv_positions k q).
Proof.
  intros K Hsrc Hdst Hs Hne Hfresh. eapply sat_mono; [by apply (sat_seq_cp_same sz k)|]. intros k' (K' & Hm & Hp).
  split_and!; [done|done|done| |].
  - unfold kv_positions. destruct Hm as (Hst & _ & _ & Hc & _).
    rewrite (static_stream k k'), <- Hs, Hc by done. by apply cp_positions_dst.
  - intros q Hq. destruct Hm as (Hst & Hm1 & Hm2 & Hc & Ho). unfold kv_positions.
    rewrite (static_stream k k') by done. destruct (decide (seq_stream k q = seq_stream k src)) as [->|E].
    + rewrite Hc. by apply cp_positions.
    + unfold stream_cells. by destruct (Ho _ E) as [-> _].
Qed.

(** [seq_cp] within one stream, for a destination that does not yet own any of the copied
    cells: the destination gains exactly the source positions inside the range, every other
    sequence (the source included) keeps its positions, and no page changes hands. *)
Lemma seq_cp_same_stream_ok sz k src dst p0 p1 (K : kv_ok sz k) (Hsrc : id_ok src) (Hdst : id_ok dst)
    (Hs : seq_stream k src = seq_stream k dst) (Hne : src <> dst)
    (Hfresh : forall a, a ∈ stream_cells k (seq_stream k src) ->
       hit src (norm_p0 p0) (norm_p1 p1) a = true -> dst ∉ a_seq a) :
  exists k', cache_seq_cp k src dst p0 p1 = Ok k' /\ kv_ok sz k' /\ kv_pool k' = kv_pool k /\
    kv_positions k' dst ≡ₚ
      filter (fun p => in_range (norm_p0 p0) (norm_p1 p1) p = true) (kv_positions k src) ++
      kv_positions k dst /\
    forall q, q <> dst -> kv_positions k' q = kv_positions k q.
Proof.
  destruct (proj1 (sat_exists _ _) (sat_cp_views sz k src dst p0 p1 K Hsrc Hdst Hs Hne Hfresh)) as (k' & Hk & K' & _ & Hp). by exists k'.
Qed.

Lemma seq_cp_same_stream_ok_witness :
  exists k', cache_seq_cp demo_cache 1 2 0 (-1) = Ok k' /\ kv_positions k' 2 ≡ₚ [5; 6] /\
    kv_positions k' 1 = [5; 6].
Proof.
  destruct (seq_cp_same_stream_ok 4 demo_cache 1 2 0 (-1) demo_cache_ok)
    as (k' & Hk & _ & _ & H2 & H1).
  - apply id_ok_small. reflexivity.
  - apply id_ok_small. reflexivity.
  - vm_compute. reflexivity.
  - lia.
  - intros a Ha _ Hin. assert (Hf : Forall (fun a => 2 ∉ a_seq a) (stream_cells demo_cache 0)).
    { apply (bool_decide_unpack _). vm_compute. exact I. }
    rewrite Forall_forall in Hf. exact (Hf a Ha Hin).
  - exists k'. split; [exact Hk|]. split.
    + replace [5; 6] with (filter (fun p => in_range (norm_p0 0) (norm_p1 (-1)) p = true)
        (kv_positions demo_cache 1) ++ kv_positions demo_cache 2) by (vm_compute; reflexivity).
      exact H2.
    + rewrite (H1 1) by lia. vm_compute. reflexivity.
Defined.

Lemma cp_stream_positions src dst l :
  seq_positions (cp_stream_cell src dst <$> l) dst = seq_positions l src.
Proof.
  induction l as [|a l IH]; [done|]. rewrite fmap_cons, !seq_positions_cons, IH. f_equal.
  unfold cp_stream_cell. destruct (decide (src ∈ a_seq a)); simpl.
  - by rewrite decide_True by set_solver.
  - by rewrite decide_False by set_solver.
Qed.

(** C5: [seq_cp] between sequences of different streams, over a range that covers the whole buffer
    (the code asserts this) and where a position less its pending shift is never negative: the
    destination stream is overwritten by the cells of the source sequence at the same cell
    indices, now owned by the destination alone and with the same pending shift, so that the
    destination has exactly the positions of the source; the copy of the tensor data is queued as
    one (source, destination) pair, and every other stream is untouched. *)
Theorem seq_cp_cross_stream_ok sz k src dst p0 p1 (K : kv_ok sz k) (Hsrc : id_ok src) (Hdst : id_ok dst)
    (Hs : seq_stream k src <> seq_stream k dst) (H0 : full_range sz p0) (H1 : full_range sz p1)
    (Hpre : Forall (cp_stream_pre src) (stream_cells k (seq_stream k src))) :
  exists k', cache_seq_cp k src dst p0 p1 = Ok k' /\ kv_ok sz k' /\
    stream_cells k' (seq_stream k dst) = cp_stream_cell src dst <$> stream_cells k (seq_stream k src) /\
    kv_positions k' dst = kv_positions k src /\
    kv_sc_info k' = (fst (kv_sc_info k) ++ [seq_stream k src], snd (kv_sc_info k) ++ [seq_stream k dst]) /\
    forall s, s <> seq_stream k dst -> stream_cells k' s = stream_cells k s.
Proof.
  destruct (proj1 (sat_exists _ _) (sat_seq_cp_cross sz k src dst p0 p1 K Hsrc Hdst Hs H0 H1 Hpre))
    as (k' & Hk & K' & Hst & _ & Hi & Hc & Ho).
  exists k'. split_and!; [done|done|done| |done|].
  - unfold kv_positions. rewrite (static_stream k k'), Hc by done.
    apply cp_stream_positions.
  - intros s Hne. unfold stream_cells. by rewrite Ho.
Qed.

(** Two streams of four cells, the first of them with the cells of [demo_list]. *)
Definition demo_cache2 : kv_cache :=
  match cache_new false 4 8 1 0 LLAMA_SWA_TYPE_NONE 1 0 false with
  | Ok k => kv_put k 1 demo_cells 3
  | Err _ => demo_cache
  end.

Lemma demo_cache2_ok : kv_ok 4 demo_cache2.
Proof.
  assert (sat (cache_new false 4 8 1 0 LLAMA_SWA_TYPE_NONE 1 0 false) (kv_ok 4)) as H.
  { eapply sat_mono; [apply sat_cache_new; [|lia|done]|by intros k (K & _)].
    split; [lia|]. apply Nat.leb_le. vm_compute. done. }
  unfold demo_cache2. apply sat_exists in H as (k & -> & K).
  destruct demo_cells_ok as [W E]. apply kv_ok_put; [done|done| |rewrite E|lia].
  - rewrite cells_size_abs by done. by rewrite E.
  - repeat constructor; unfold tight; simpl; set_solver.
Qed.

Lemma seq_cp_cross_stream_ok_witness :
  exists k', cache_seq_cp demo_cache2 1 2 0 (-1) = Ok k' /\ kv_positions k' 2 = [5; 6] /\
    kv_sc_info k' = ([1%nat], [2%nat]).
Proof.
  destruct (seq_cp_cross_stream_ok 4 demo_cache2 1 2 0 (-1) demo_cache2_ok)
    as (k' & Hk & _ & _ & Hp & Hi & _).
  - apply id_ok_small. reflexivity.
  - apply id_ok_small. reflexivity.
  - vm_compute. lia.
  - left. lia.
  - left. lia.
  - assert (stream_cells demo_cache2 (seq_stream demo_cache2 1) = demo_list) as ->
      by (vm_compute; reflexivity).
    apply demo_forall; unfold cp_stream_pre, int32, INT32_MIN, INT32_MAX; simpl; intros H;
      [lia|set_solver|lia].
  - exists k'. split; [exact Hk|]. split; [rewrite Hp|rewrite Hi]; vm_compute; reflexivity.
Defined.

(** [seq_add], when no position or pending shift leaves the 32-bit range: the positions
    of the sequence inside the range move by the shift, those that would become negative
    are dropped, the ones outside stay, and no other stream changes. *)
Lemma seq_add_ok sz k q p0 p1 d (K : kv_ok sz k) (Hq : id_ok q) (Hn : kv_n_pos_per_embd k = 1%nat)
    (Hpre : Forall (add_pre q (norm_p0 p0) (norm_p1 p1) d) (stream_cells k (seq_stream k q)))
    (Hd : d <> 0) (Hne : norm_p0 p0 <> norm_p1 p1) :
  exists k', cache_seq_add k q p0 p1 d = Ok k' /\ kv_ok sz k' /\
    kv_positions k' q = mjoin (shift_pos (norm_p0 p0) (norm_p1 p1) d <$> kv_positions k q) /\
    forall s, s <> seq_stream k q -> stream_cells k' s = stream_cells k s.
Proof.
  destruct (proj1 (sat_exists _ _) (sat_seq_add sz k q p0 p1 d K Hq Hn Hpre Hd Hne))
    as (k' & Hk & K' & (Hst & _ & _ & Hc & Ho) & _).
  exists k'. split_and!; [done|done| |].
  - unfold kv_positions. rewrite (static_stream k k'), Hc by done. apply add_positions.
  - intros s Hs. unfold stream_cells. by destruct (Ho s Hs) as [-> _].
Qed.

Lemma seq_add_ok_witness :
  exists k', cache_seq_add demo_cache 1 0 (-1) (-6) = Ok k' /\ kv_positions k' 1 = [0].
Proof.
  destruct (seq_add_ok 4 demo_cache 1 0 (-1) (-6) demo_cache_ok) as (k' & Hk & _ & Hp & _).
  - apply id_ok_small. reflexivity.
  - vm_compute. reflexivity.
  - assert (stream_cells demo_cache (seq_stream demo_cache 1) = demo_list) as -> by (vm_compute; reflexivity).
    apply demo_forall; unfold add_pre, int32, INT32_MIN, INT32_MAX; simpl; lia.
  - lia.
  - vm_compute. lia.
  - exists k'. split; [exact Hk|]. rewrite Hp. vm_compute. reflexivity.
Defined.

(** [seq_div] by [d > 1], when nothing overflows: the cells of the sequence inside the
    range have their positions divided (rounding towards zero) and the difference added to
    the pending shift; every other cell and every other stream is unchanged. *)
Theorem seq_div_ok sz k q p0 p1 d (K : kv_ok sz k) (Hq : id_ok q) (Hn : kv_n_pos_per_embd k = 1%nat)
    (Hd : 1 < d) (Hpre : Forall (div_pre q (norm_p0 p0) (norm_p1 p1) d) (stream_cells k (seq_stream k q)))
    (Hne : norm_p0 p0 <> norm_p1 p1) :
  exists k', cache_seq_div k q p0 p1 d = Ok k' /\ kv_ok sz k' /\
    stream_cells k' (seq_stream k q) =
      div_cell q (norm_p0 p0) (norm_p1 p1) d <$> stream_cells k (seq_stream k q) /\
    forall s, s <> seq_stream k q -> stream_cells k' s = stream_cells k s.
Proof.
  destruct (proj1 (sat_exists _ _) (sat_seq_div sz k q p0 p1 d K Hq Hn Hd Hpre Hne))
    as (k' & Hk & K' & (Hst & _ & _ & Hc & Ho) & _).
  exists k'. split_and!; [done|done|done|].
  intros s Hs. unfold stream_cells. by destruct (Ho s Hs) as [-> _].
Qed.

Lemma seq_div_ok_witness :
  exists k', cache_seq_div demo_cache 1 0 (-1) 2 = Ok k' /\ kv_positions k' 1 = [2; 3].
Proof.
  destruct (seq_div_ok 4 demo_cache 1 0 (-1) 2 demo_cache_ok) as (k' & Hk & _ & Hc & _).
  - apply id_ok_small. reflexivity.
  - vm_compute. reflexivity.
  - lia.
  - assert (stream_cells demo_cache (seq_stream demo_cache 1) = demo_list) as -> by (vm_compute; reflexivity).
    apply demo_forall; intros _; vm_compute; intuition congruence.
  - vm_compute. lia.
  - exists k'. split; [exact Hk|].
    assert (cache_seq_div demo_cache 1 0 (-1) 2 = Ok k') as E by exact Hk.
    vm_compute in E. injection E as <-. vm_compute. reflexivity.
Defined.

(** [seq_pos_min] and [seq_pos_max] of the cache are the least and the greatest position
    stored for the sequence, -1 when there is none. *)
Theorem cache_seq_pos_ok sz k q (K : kv_ok sz k) (Hq : id_ok q) :
  cache_seq_pos_min k q = Ok (min_or_m1 (kv_positions k q)) /\
  cache_seq_pos_max k q = Ok (max_or_m1 (kv_positions k q)).
Proof.
  destruct (stream_of_ok sz k q K Hq) as [Eq Hs].
  destruct (kv_stream sz k _ K Hs) as (c & _ & Hc & _ & W & _ & _ & Ec & _).
  unfold cache_seq_pos_min, cache_seq_pos_max, kv_positions.
  rewrite assert_ok by by eapply seq_id_valid_ok. simpl. rewrite Eq. simpl.
  rewrite (proj2 (vec_get_ok _ _ _) Hc), Ec. simpl.
  split; [by apply cells_seq_pos_min_ok|by apply cells_seq_pos_max_ok].
Qed.

Lemma cache_seq_pos_ok_witness :
  cache_seq_pos_min demo_cache 1 = Ok 5 /\ cache_seq_pos_max demo_cache 1 = Ok 6.
Proof.
  refine (cache_seq_pos_ok 4 demo_cache 1 demo_cache_ok _). apply id_ok_small. reflexivity.
Defined.

(** Copying a sequence twice onto the same destination in one stream is stopped by the
    [assert(!seq\[i\].test(seq_id))] of [llama_kv_cells::seq_add], although nothing in the
    interface of [seq_cp] forbids a destination that already owns some of the cells. *)
Theorem seq_cp_twice_asserts :
  sat (cache_seq_cp demo_cache 1 2 (-1) (-1)) (fun k' =>
    cache_seq_cp k' 1 2 (-1) (-1) = Err AssertFailed).
Proof. vm_compute. reflexivity. Qed.
