(* ===== verification/KvSlots.v ===== *)
(** * Finding a slot: [llama_kv_cache::find_slot]

    Which cells the search accepts, in which order it tries them, that it always
    terminates, and that it finds a slot exactly when enough cells can be used. *)

From S2P Require Import Prelude KvCells KvCellsInv KvCellsSpec Batch Pages PagesTheory KvCache KvCacheTheory.
From S2P Require Import KvCacheProps.

(** ** Which cells can be used *)

(** The value of [is_masked_swa] on positions. *)
Definition masked (n_swa : Z) (t : llama_swa_type) (p0 p1 : Z) : bool :=
  match t with
  | LLAMA_SWA_TYPE_NONE => false
  | LLAMA_SWA_TYPE_STANDARD => s32 n_swa <=? p1 - p0
  | LLAMA_SWA_TYPE_CHUNKED => p0 <? p1 / n_swa * n_swa
  | LLAMA_SWA_TYPE_SYMMETRIC =>
      (p1 - p0 <? - Z.quot (s32 n_swa) 2) || (Z.quot (s32 n_swa) 2 <? p1 - p0)
  end.

(** A chunked window has a size, and positions leave room for a next one. *)
Definition swa_ok (k : kv_cache) (l : list acell) : Prop :=
  (kv_swa_type k = LLAMA_SWA_TYPE_CHUNKED -> kv_n_swa k <> 0) /\
  forall a, a ∈ l -> a_pos a < INT32_MAX.

(** The cell is empty, or its only sequence has moved its window past it. *)
Definition usable (k : kv_cache) (l : list acell) (a : acell) : bool :=
  (a_pos a =? -1) ||
  match elements (a_seq a) with
  | [q] => masked (kv_n_swa k) (kv_swa_type k) (a_pos a) (max_or_m1 (seq_positions l q) + 1)
  | _ => false
  end.

Definition usable_at (k : kv_cache) (l : list acell) (i : nat) : bool :=
  default false (usable k l <$> l !! i).

Lemma is_masked_swa_ok n_swa t p0 p1 :
  0 <= p0 -> 0 <= p1 -> (t = LLAMA_SWA_TYPE_CHUNKED -> n_swa <> 0) ->
  is_masked_swa n_swa t p0 p1 = Ok (masked n_swa t p0 p1).
Proof.
  intros H0 H1 Hc. unfold is_masked_swa, masked. rewrite assert_ok by lia. simpl.
  destruct t; try done. destruct (Z.eqb_spec n_swa 0); [by destruct Hc|done].
Qed.

Lemma max_or_m1_ge l p : p ∈ l -> p <= max_or_m1 l.
Proof.
  intros Hp. unfold max_or_m1. destruct (list_max l) as [m|] eqn:E.
  - apply list_max_Some in E as [_ Hm]. by apply Hm.
  - apply list_max_None in E as ->. by apply not_elem_of_nil in Hp.
Qed.

Lemma max_or_m1_le l b : -1 <= b -> (forall p, p ∈ l -> p <= b) -> max_or_m1 l <= b.
Proof.
  intros Hb Hl. unfold max_or_m1. destruct (list_max l) as [m|] eqn:E; simpl; [|done].
  apply list_max_Some in E as [Hm _]. by apply Hl.
Qed.

Lemma can_use_ok k c i a :
  wf c -> abs_cells c !! i = Some a -> swa_ok k (abs_cells c) ->
  can_use k c i = Ok (usable k (abs_cells c) a).
Proof.
  intros W Ha [Hchunk Hmax]. unfold can_use, usable.
  destruct (cells_reads_ok c W i a Ha) as (-> & _ & Hp & _ & Hn). simpl.
  destruct (abs_lookup_ok c i a W Ha) as [(Hge & _ & Hids) _].
  destruct (Z.eqb_spec (a_pos a) (-1)) as [E|E]; simpl; [done|].
  rewrite Hn. simpl. destruct (Nat.eqb_spec (size (a_seq a)) 1) as [Hs|Hs]; simpl.
  2:{ destruct (elements (a_seq a)) as [|q [|q' r]] eqn:Eq; [done| |done].
      exfalso. apply Hs. unfold size, set_size. simpl. by rewrite Eq. }
  apply size_1_elem_of in Hs as [q Hq]. apply leibniz_equiv in Hq.
  rewrite Hq, elements_singleton, Hp. simpl.
  rewrite (cells_seq_get_ok c i a q) by done. simpl.
  assert (Hb : 0 <= q < LLAMA_MAX_SEQ) by (apply Hids; set_solver).
  rewrite cells_seq_pos_max_ok by done. simpl.
  assert (Hin : a_pos a ∈ seq_positions (abs_cells c) q).
  { apply elem_of_seq_positions. exists i, a. split_and!; [done|set_solver|done]. }
  pose proof (max_or_m1_ge _ _ Hin) as Hlo.
  assert (Hhi : max_or_m1 (seq_positions (abs_cells c) q) <= INT32_MAX - 1).
  { apply max_or_m1_le; [unfold INT32_MAX; lia|]. intros p (j & b & Hj & _ & <-)%elem_of_seq_positions.
    assert (a_pos b < INT32_MAX); [|lia]. apply Hmax. by eapply list_elem_of_lookup_2. }
  rewrite i32_ok by (unfold int32, INT32_MIN in *; lia). simpl.
  by rewrite is_masked_swa_ok by (done || lia).
Qed.

(** ** The search *)

Section search.
Variables (k : kv_cache) (c : llama_kv_cells).
Hypothesis W : wf c.
Hypothesis SW : swa_ok k (abs_cells c).

Let sz := cells_size c.
Let U (i : nat) : Prop := usable_at k (abs_cells c) i = true.

Lemma can_use_at i : (i < sz)%nat -> can_use k c i = Ok (usable_at k (abs_cells c) i).
Proof using W SW.
  intros Hi. destruct (lookup_lt_is_Some_2 (abs_cells c) i) as [a Ha].
  { by rewrite <- cells_size_abs. }
  unfold usable_at. rewrite Ha. by apply can_use_ok.
Qed.

Lemma test_one i t L :
  (i < sz)%nat -> test_cells k c false 1 (i, t, L) = Ok (S i, S t, L ++ filter U [i]).
Proof using W SW.
  intros Hi. simpl. rewrite can_use_at by done. simpl. rewrite filter_cons, filter_nil. subst U. simpl.
  destruct (usable_at k (abs_cells c) i); simpl; by rewrite ?app_nil_r.
Qed.

(** [m] iterations one cell at a time. *)
Lemma slot_loop_run n m : forall j t L fuel,
  (j + m <= sz)%nat -> (t + m <= sz)%nat -> (length L < n)%nat -> (m <= fuel)%nat ->
  slot_loop fuel k c false n 1 (j, t, L) =
    let L' := L ++ filter U (seq j m) in
    if (n <=? length L')%nat then Ok (Some (take n L'))
    else if (sz =? t + m)%nat && (0 <? m)%nat then Ok None
    else slot_loop (fuel - m) k c false n 1 ((j + m)%nat, (t + m)%nat, L').
Proof using W SW.
  induction m as [|m IH]; intros j t L fuel Hj Ht HL Hf; cbv zeta.
  { simpl. rewrite filter_nil, app_nil_r, andb_false_r, Nat.sub_0_r, !Nat.add_0_r.
    by rewrite (proj2 (Nat.leb_gt _ _) HL). }
  destruct fuel as [|fuel]; [lia|].
  change (seq j (S m)) with ([j] ++ seq (S j) m). rewrite filter_app, app_assoc.
  set (L1 := L ++ filter U [j]).
  assert (HL1 : (length L1 <= n)%nat).
  { subst L1. rewrite length_app. pose proof (length_filter U [j]). simpl in *. lia. }
  cbn [slot_loop]. fold sz. rewrite (proj2 (Nat.ltb_ge sz (j + 1))) by lia.
  rewrite test_one by lia. fold L1. cbn [mbind res_bind].
  destruct (Nat.eqb_spec (length L1) n) as [E|E].
  { rewrite (proj2 (Nat.leb_le _ _)) by (rewrite length_app; lia).
    by rewrite take_app_le, take_ge by lia. }
  destruct (Nat.leb_spec sz (S t)) as [Es|Es].
  - assert (m = 0)%nat as -> by lia. simpl. rewrite filter_nil, app_nil_r.
    rewrite (proj2 (Nat.leb_gt _ _)) by lia. rewrite andb_true_r.
    by rewrite (proj2 (Nat.eqb_eq _ _)) by lia.
  - rewrite IH by lia. cbv zeta. destruct (n <=? _)%nat; [done|].
    replace (S j + m)%nat with (j + S m)%nat by lia. replace (S t + m)%nat with (t + S m)%nat by lia.
    rewrite (proj2 (Nat.ltb_lt 0 (S m))), andb_true_r by lia.
    destruct (Nat.ltb_spec 0 m); rewrite ?andb_true_r, ?andb_false_r; [done|].
    rewrite (proj2 (Nat.eqb_neq sz _)) by lia. done.
Qed.

(** The order in which the cells are tried. *)
Definition slot_order (h : nat) : list nat := seq h (cells_size c - h) ++ seq 0 h.

(** The search finds the first [n] usable cells in that order, and fails only when
    there are fewer. *)
Lemma slot_loop_ok n h :
  (h <= sz)%nat -> (0 < n)%nat -> (0 < sz)%nat ->
  slot_loop (slot_fuel c) k c false n 1 (h, 0%nat, []) =
    let L := filter U (slot_order h) in
    Ok (if (n <=? length L)%nat then Some (take n L) else None).
Proof using W SW.
  intros Hh Hn Hs. unfold slot_order. fold sz. cbv zeta.
  rewrite (slot_loop_run n (sz - h)) by (unfold slot_fuel; fold sz; simpl; lia). cbv zeta.
  rewrite app_nil_l, filter_app. set (L1 := filter U (seq h (sz - h))).
  destruct (Nat.leb_spec n (length L1)) as [H1|H1].
  { rewrite (proj2 (Nat.leb_le _ _)) by (rewrite length_app; lia). by rewrite take_app_le by lia. }
  rewrite Nat.add_0_l. replace (h + (sz - h))%nat with sz by lia.
  destruct (Nat.eqb_spec sz (sz - h)) as [E|E].
  { assert (h = 0)%nat as -> by lia. rewrite (proj2 (Nat.ltb_lt 0 (sz - 0))) by lia. simpl.
    rewrite filter_nil, app_nil_r. by rewrite (proj2 (Nat.leb_gt _ _)) by lia. }
  simpl andb. cbv iota. unfold slot_fuel. fold sz.
  replace (2 * sz + 4 - (sz - h))%nat with (S (2 * sz + 3 - (sz - h))) by lia.
  cbn [slot_loop]. fold sz. rewrite (proj2 (Nat.ltb_lt sz (sz + 1))) by lia.
  rewrite Nat.sub_diag, Nat.add_0_r.
  rewrite (slot_loop_run n h) by lia. cbv zeta.
  destruct (n <=? _)%nat; [done|].
  rewrite (proj2 (Nat.eqb_eq sz _)), (proj2 (Nat.ltb_lt 0 h)) by lia. done.
Qed.

(** *** Continuous slots *)

Lemma test_run m : forall j t L,
  (j + m <= sz)%nat ->
  sat (test_cells k c true m (j, t, L)) (fun st => let '(j', t', L') := st in
    (j' <= sz)%nat /\ (t + (if (m =? 0)%nat then 0 else 1) <= t')%nat /\
    ((length L' < length L + m)%nat \/
     L' = L ++ seq j m /\ forall i, (j <= i < j + m)%nat -> U i)).
Proof using W SW.
  induction m as [|m IH]; intros j t L Hj; simpl.
  { apply sat_ok. split_and!; [lia|lia|]. right. rewrite app_nil_r. split; [done|lia]. }
  rewrite can_use_at by lia. simpl. destruct (usable_at k (abs_cells c) j) eqn:E.
  - eapply sat_mono; [apply IH; lia|]. intros [[j' t'] L'] (H1 & H2 & H3).
    split_and!; [done|destruct (m =? 0)%nat; lia|]. rewrite length_app in H3. simpl in H3.
    destruct H3 as [H3|[-> H3]]; [left; lia|right]. rewrite <- app_assoc. split; [done|].
    intros i Hi. destruct (decide (i = j)) as [->|]; [done|apply H3; lia].
  - apply sat_ok. split_and!; [lia|lia|left; lia].
Qed.

Definition cont_measure (n j t : nat) : nat := (2 * (sz - t) + if (sz <? j + n)%nat then 1 else 0)%nat.

Lemma slot_loop_cont n fuel : forall j t,
  (0 < n <= sz)%nat -> (j <= sz)%nat -> (cont_measure n j t < fuel)%nat ->
  sat (slot_loop fuel k c true n n (j, t, [])) (fun r => forall idxs, r = Some idxs ->
    exists j', idxs = seq j' n /\ (j' + n <= sz)%nat /\ forall i, i ∈ idxs -> U i).
Proof using W SW.
  unfold cont_measure. induction fuel as [|fuel IH]; intros j t Hn Hj Hf; [lia|].
  cbn [slot_loop]. fold sz. destruct (Nat.ltb_spec sz (j + n)) as [Hw|Hw].
  { apply IH; [done|lia|]. rewrite (proj2 (Nat.ltb_ge sz (0 + n))) by lia. lia. }
  eapply sat_step; [by apply test_run|]. intros [[j' t'] L'] (Hj' & Ht & HL). simpl in HL.
  destruct (Nat.eqb_spec n 0); [lia|]. destruct (Nat.eqb_spec (length L') n) as [E|E].
  { apply sat_ok. intros idxs [= <-]. destruct HL as [HL|[-> HL]]; [lia|].
    exists j. split_and!; [done|lia|]. intros i Hi%elem_of_seq. by apply HL. }
  destruct (Nat.leb_spec sz t'); [by apply sat_ok|].
  apply IH; [done|done|]. destruct (sz <? j' + n)%nat; lia.
Qed.
End search.

(** ** One stream *)

Lemma slot_order_perm c h : (h <= cells_size c)%nat -> slot_order c h ≡ₚ seq 0 (cells_size c).
Proof.
  intros Hh. unfold slot_order. rewrite (Permutation_app_comm (seq h _)).
  replace (cells_size c) with (h + (cells_size c - h))%nat at 2 by lia. by rewrite seq_app.
Qed.

(** How many cells of a stream can be used. *)
Definition n_usable (k : kv_cache) (s : nat) : nat :=
  length (filter (fun i => usable_at k (stream_cells k s) i = true) (seq 0 (length (stream_cells k s)))).

Lemma find_slot_stream_ok sz k s n :
  kv_ok sz k -> (s < kv_n_stream k)%nat -> (0 < n)%nat -> (0 < sz)%nat -> swa_ok k (stream_cells k s) ->
  sat (find_slot_stream k s n false) (fun r => match r with
    | Some idxs => length idxs = n /\ NoDup idxs /\
        forall i, i ∈ idxs -> (i < sz)%nat /\ usable_at k (stream_cells k s) i = true
    | None => (n_usable k s < n)%nat end).
Proof.
  intros K Hs Hn Hsz SW. destruct (kv_stream sz k s K Hs) as (c & h & Hc & Hh & W & E & T & Ec & Hle).
  unfold find_slot_stream, n_usable. rewrite Ec in *. rewrite <- cells_size_abs, E by done.
  rewrite (proj2 (vec_get_ok _ _ _) Hc), (proj2 (vec_get_ok _ _ _) Hh). simpl.
  assert (Hfl : forall h, (h <= sz)%nat ->
    length (filter (fun i => usable_at k (abs_cells c) i = true) (slot_order c h)) =
    length (filter (fun i => usable_at k (abs_cells c) i = true) (seq 0 sz))).
  { intros h' Hh'. by rewrite slot_order_perm, E by lia. }
  destruct (Nat.ltb_spec (cells_size c) n) as [Hbig|Hbig].
  { apply sat_ok. eapply Nat.le_lt_trans; [apply length_filter|]. rewrite length_seq. lia. }
  set (hd := if _ : bool then 0%nat else h). assert (Hhd : (hd <= sz)%nat) by (subst hd; case_match; lia).
  rewrite slot_loop_ok by (done || lia). cbv zeta. specialize (Hfl hd Hhd).
  set (L := filter _ (slot_order c hd)) in *. simpl. destruct (Nat.leb_spec n (length L)) as [HL|HL].
  - assert (Ht : length (take n L) = n) by (rewrite length_take; lia).
    rewrite (proj2 (Nat.ltb_ge _ _)) by lia. apply sat_ok. split; [done|].
    assert (HN : NoDup L).
    { subst L. apply NoDup_filter. rewrite slot_order_perm by lia. apply NoDup_seq. }
    split; [rewrite <- (take_drop n L) in HN; by apply NoDup_app in HN as [? _]|].
    intros i Hi. assert (HiL : i ∈ L) by (by eapply subseteq_take). subst L.
    apply list_elem_of_filter in HiL as [HU Hi']. rewrite slot_order_perm in Hi' by lia.
    apply elem_of_seq in Hi'. split; [lia|done].
  - apply sat_ok. rewrite <- Hfl. done.
Qed.

Lemma find_slot_stream_cont sz k s n :
  kv_ok sz k -> (s < kv_n_stream k)%nat -> (0 < n)%nat -> swa_ok k (stream_cells k s) ->
  sat (find_slot_stream k s n true) (fun r => forall idxs, r = Some idxs ->
    exists j, idxs = seq j n /\ (j + n <= sz)%nat /\
      forall i, i ∈ idxs -> usable_at k (stream_cells k s) i = true).
Proof.
  intros K Hs Hn SW. destruct (kv_stream sz k s K Hs) as (c & h & Hc & Hh & W & E & T & Ec & Hle).
  unfold find_slot_stream. rewrite Ec in *.
  rewrite (proj2 (vec_get_ok _ _ _) Hc), (proj2 (vec_get_ok _ _ _) Hh). simpl.
  destruct (Nat.ltb_spec (cells_size c) n) as [Hbig|Hbig]; [by apply sat_ok|].
  set (hd := if _ : bool then 0%nat else h). assert (Hhd : (hd <= sz)%nat) by (subst hd; case_match; lia).
  clearbody hd. eapply sat_step; [apply (slot_loop_cont k c W SW n); [lia|lia|]|].
  { unfold cont_measure, slot_fuel. destruct (_ <? _)%nat; lia. }
  intros [idxs|] Hr; [|by apply sat_ok]. destruct (length idxs <? n)%nat; [by apply sat_ok|].
  apply sat_ok. intros ? [= <-]. rewrite <- E. by apply Hr.
Qed.

(** ** A whole micro-batch *)

Section find_slot.
Context {E : Type}.

(** Sequences searched for and tokens per sequence. *)
Definition slot_dims (k : kv_cache) (u : llama_ubatch E) : nat * nat :=
  if (1 <? kv_n_stream k)%nat then (ub_n_seqs_unq u, (ub_n_tokens u / ub_n_seqs_unq u)%nat)
  else (1%nat, ub_n_tokens u).

(** The shape [find_slot] asserts: with several streams the tokens are grouped by
    sequence, in equal parts, and each group belongs to one sequence. *)
Record ubatch_shape (k : kv_cache) (u : llama_ubatch E) : Prop := {
  us_split : (1 < kv_n_stream k)%nat ->
               ub_n_seqs_unq u <> 0%nat /\ (ub_n_tokens u mod ub_n_seqs_unq u = 0)%nat;
  us_pos   : (0 < snd (slot_dims k u))%nat;
  us_seq   : forall s, (s < fst (slot_dims k u))%nat ->
               exists q, ub_seq_id_unq u !! s = Some q /\ id_ok q /\
                 ((1 < kv_n_stream k)%nat ->
                    ub_n_seq_id u !! (s * snd (slot_dims k u))%nat = Some 1 /\
                    exists ids, ub_seq_id u !! (s * snd (slot_dims k u))%nat = Some ids /\ ids !! 0%nat = Some q)
}.

(** Slot [s] of the answer: cells of the stream of sequence [q] that can be used. *)
Definition slot_for (sz n : nat) (k : kv_cache) (si : slot_info) (s : nat) (q : Z) : Prop :=
  si_strm si !! s = Some (seq_stream k q) /\
  (si_s0 si <= seq_stream k q <= si_s1 si)%nat /\
  exists idxs, si_idxs si !! s = Some idxs /\ length idxs = n /\ NoDup idxs /\
    forall i, i ∈ idxs -> (i < sz)%nat /\ usable_at k (stream_cells k (seq_stream k q)) i = true.

Definition slot_ok (sz : nat) (k : kv_cache) (u : llama_ubatch E) (si : slot_info) : Prop :=
  let '(n_seqs, n) := slot_dims k u in
  length (si_strm si) = n_seqs /\ length (si_idxs si) = n_seqs /\
  forall s q, (s < n_seqs)%nat -> ub_seq_id_unq u !! s = Some q -> slot_for sz n k si s q.

(** No slot: some sequence of the batch has too few usable cells. *)
Definition no_slot (k : kv_cache) (u : llama_ubatch E) : Prop :=
  let '(n_seqs, n) := slot_dims k u in
  exists s q, (s < n_seqs)%nat /\ ub_seq_id_unq u !! s = Some q /\ (n_usable k (seq_stream k q) < n)%nat.

Lemma slot_for_snoc sz n k si s q s0 s1 r l :
  slot_for sz n k si s q -> (s0 <= si_s0 si)%nat -> (si_s1 si <= s1)%nat ->
  slot_for sz n k (mk_slot s0 s1 (si_strm si ++ [r]) (si_idxs si ++ [l])) s q.
Proof.
  intros (H1 & H2 & idxs & H3 & H4) Hs0 Hs1. split_and!; simpl; [by apply lookup_app_l_Some|lia|lia|].
  exists idxs. split; [by apply lookup_app_l_Some|done].
Qed.

Lemma find_slot_step_ok sz k u s si :
  let n := snd (slot_dims k u) in
  kv_ok sz k -> ubatch_shape k u -> (s < fst (slot_dims k u))%nat -> (0 < sz)%nat ->
  (forall s, (s < kv_n_stream k)%nat -> swa_ok k (stream_cells k s)) ->
  length (si_strm si) = s -> length (si_idxs si) = s ->
  sat (find_slot_step k u false n (Some si) s) (fun r =>
    exists q, ub_seq_id_unq u !! s = Some q /\ match r with
    | Some si' => exists idxs, si' = mk_slot (Nat.min (si_s0 si) (seq_stream k q))
          (Nat.max (si_s1 si) (seq_stream k q)) (si_strm si ++ [seq_stream k q]) (si_idxs si ++ [idxs]) /\
        slot_for sz n k si' s q
    | None => (n_usable k (seq_stream k q) < n)%nat end).
Proof.
  intros n K [Hsp Hp Hq] Hs Hsz SW Hl1 Hl2. fold n in Hp, Hq.
  destruct (Hq s Hs) as (q & Hu & Hid & Hm). unfold find_slot_step.
  rewrite (proj2 (vec_get_ok _ _ _) Hu). simpl.
  eapply sat_step with (P := fun _ => True).
  { destruct (Nat.ltb_spec 1 (kv_n_stream k)) as [H1|H1]; [|done].
    destruct (Hm H1) as (Hn & ids & Hi & H0).
    rewrite (proj2 (vec_get_ok _ _ _) Hn), (proj2 (vec_get_ok _ _ _) Hi). simpl.
    rewrite (proj2 (vec_get_ok _ _ _) H0). simpl. by rewrite Z.eqb_refl. }
  intros _ _. destruct (stream_of_ok sz k q K Hid) as [-> Hst]. simpl.
  eapply sat_step; [by apply (find_slot_stream_ok sz); auto|].
  intros [idxs|] Hr; apply sat_ok; exists q; (split; [done|]); [|done].
  exists idxs. split; [done|]. split_and!; simpl.
  - by apply list_lookup_middle.
  - lia.
  - lia.
  - exists idxs. split; [by apply list_lookup_middle|done].
Qed.

Lemma find_slot_none k (u : llama_ubatch E) n l : mfor (find_slot_step k u false n) l None = Ok None.
Proof. induction l as [|s l IH]; simpl; [done|exact IH]. Qed.

Lemma sat_find_slot sz k u :
  kv_ok sz k -> ubatch_shape k u -> (0 < sz)%nat ->
  (forall s, (s < kv_n_stream k)%nat -> swa_ok k (stream_cells k s)) ->
  sat (cache_find_slot k u false) (fun r => match r with
    | Some si => slot_ok sz k u si | None => no_slot k u end).
Proof.
  intros K Sh Hsz SW. unfold cache_find_slot, slot_ok, no_slot.
  eapply sat_step with (P := fun nn => nn = slot_dims k u).
  { unfold slot_dims. destruct (Nat.ltb_spec 1 (kv_n_stream k)) as [H1|H1]; [|done].
    destruct (us_split _ _ Sh H1) as [H2 H3]. destruct (Nat.eqb_spec (ub_n_seqs_unq u) 0); [done|]. simpl.
    by rewrite (proj2 (Nat.eqb_eq _ 0)). }
  intros ? ->. destruct (slot_dims k u) as [n_seqs n] eqn:Ed.
  set (init := mk_slot _ _ _ _).
  assert (Hgen : forall m, (m <= n_seqs)%nat ->
    sat (mfor (find_slot_step k u false n) (seq 0 m) (Some init)) (fun r => match r with
      | Some si => length (si_strm si) = m /\ length (si_idxs si) = m /\
          forall s q, (s < m)%nat -> ub_seq_id_unq u !! s = Some q -> slot_for sz n k si s q
      | None => exists s q, (s < n_seqs)%nat /\ ub_seq_id_unq u !! s = Some q /\
          (n_usable k (seq_stream k q) < n)%nat end)); [|by apply Hgen].
  induction m as [|m IH]; intros Hm; [by split_and!; [..|lia]|].
  rewrite seq_S, mfor_app. eapply sat_step; [apply IH; lia|]. clear IH.
  intros [si|] Hsi; simpl; [|exact Hsi]. destruct Hsi as (Hl1 & Hl2 & Hf).
  pose proof (find_slot_step_ok sz k u m si) as Hstep. rewrite Ed in Hstep. simpl in Hstep.
  eapply sat_step; [apply Hstep; try done; lia|]. intros r (q & Hq & Hr). apply sat_ok.
  destruct r as [si'|]; [|by exists m, q]. destruct Hr as (idxs & -> & Hfm). simpl.
  rewrite !length_app. simpl. split_and!; [lia|lia|]. intros s q' Hs Hq'.
  destruct (decide (s = m)) as [->|]; [by simplify_eq|].
  apply slot_for_snoc; [apply Hf; [lia|done]|lia|lia].
Qed.
End find_slot.
