(* ===== verification/KvPlace.v ===== *)
(** * Placing micro-batches: [apply_ubatch] and [prepare]

    The cells after a micro-batch is placed, the purge of overwritten positions, and
    that [prepare] leaves the cells of the cache as it found them. *)

From S2P Require Import Prelude KvCells KvCellsInv KvCellsSpec Batch Pages PagesTheory KvCache KvCacheTheory.
From S2P Require Import KvCacheProps KvSlots.

Section place.
Context {E : Type}.
Implicit Types u : llama_ubatch E.

(** ** One token *)

Definition token_pos u (i : nat) : Z := default 0 (ub_pos u !! i).
Definition token_ids u (i : nat) : list Z := default [] (ub_seq_id u !! i).
Definition token_ext u (i : nat) : llama_kv_cell_ext :=
  mk_ext (default 0 (ub_pos u !! (i + ub_n_tokens u * 2)%nat)) (default 0 (ub_pos u !! (i + ub_n_tokens u)%nat)).

(** Token [i] is complete: a position, the two extra sections when there are any, and
    a non-empty list of different sequences. *)
Record token_ok u (i : nat) : Prop := {
  tk_pos : exists p, ub_pos u !! i = Some p /\ 0 <= p;
  tk_2d  : is_pos_2d u = true ->
             is_Some (ub_pos u !! (i + ub_n_tokens u * 2)%nat) /\ is_Some (ub_pos u !! (i + ub_n_tokens u)%nat);
  tk_ids : exists ids, ub_seq_id u !! i = Some ids /\ ids <> [] /\ NoDup ids /\ Forall id_ok ids /\
             ub_n_seq_id u !! i = Some (Z.of_nat (length ids))
}.

(** The cell that token [i] leaves where [a] was. *)
Definition token_cell u (i : nat) (a : acell) : acell :=
  mk_acell (token_pos u i)
    (if is_pos_2d u then token_ext u i else if decide (a_pos a = -1) then a_ext a else ext_reset)
    0 (list_to_set (token_ids u i)).

Lemma tight_token u i a : token_ok u i -> tight (token_cell u i a).
Proof.
  intros T. destruct (tk_ids _ _ T) as (ids & Hids & Hne & _). unfold tight, token_cell, token_ids.
  simpl. rewrite Hids. simpl. intros H. destruct ids; [done|]. simpl in H. set_solver.
Qed.

(** The maxima of the overwritten positions: a table over all sequences. *)
Definition mx_ok (mx : list Z) : Prop := length mx = MAX_SEQ /\ Forall (fun v => -1 <= v < INT32_MAX) mx.

Lemma sat_add_ids c idx a ids :
  wf c -> abs_cells c !! idx = Some a -> a_pos a <> -1 -> a_seq a = ∅ -> NoDup ids -> Forall id_ok ids ->
  sat (mfor (fun c s => id ← vec_get ids s; cells_seq_add c idx id) (seq 0 (length ids)) c)
    (upd_to c idx (c_has_shift c) (mk_acell (a_pos a) (a_ext a) (a_shift a) (list_to_set ids))).
Proof.
  intros W Ha Hp Hs Hnd Hok.
  assert (Hi : (idx < length (abs_cells c))%nat) by by eapply lookup_lt_Some.
  eapply sat_mono; [apply (sat_for _ (fun s c' => upd_to c idx (c_has_shift c)
    (mk_acell (a_pos a) (a_ext a) (a_shift a) (list_to_set (take s ids))) c'))|].
  - apply upd_to_same; [done| |done]. rewrite Ha. f_equal. simpl. rewrite <- Hs. by destruct a.
  - intros s c' Hs' (W' & E' & B'). destruct (lookup_lt_is_Some_2 ids s Hs') as [q Hq].
    rewrite (proj2 (vec_get_ok _ _ _) Hq). simpl.
    assert (Ha' := list_lookup_insert_eq (abs_cells c) idx
      (mk_acell (a_pos a) (a_ext a) (a_shift a) (list_to_set (take s ids))) Hi).
    rewrite <- E' in Ha'.
    eapply sat_mono; [apply (sat_cells_seq_add c' idx q _ W' Ha'); simpl; [done| |]|].
    + rewrite elem_of_list_to_set, elem_of_take. intros (j & Hj & Hlt).
      pose proof (NoDup_lookup ids j s q Hnd Hj Hq). lia.
    + by eapply (Forall_lookup_1 id_ok).
    + intros c'' (W'' & E'' & B''). split_and!; [done| |congruence]. simpl in E''.
      rewrite E'', E', list_insert_insert_eq, Nat.add_1_r, (take_S_r _ _ q) by done.
      do 2 f_equal. rewrite list_to_set_app_L. set_solver.
  - intros c'. by rewrite take_ge.
Qed.

Lemma sat_place_token u idx i c mx a :
  wf c -> abs_cells c !! idx = Some a -> tight a -> (a_pos a = -1 \/ exists q, a_seq a = {[q]}) ->
  a_pos a < INT32_MAX -> token_ok u i -> mx_ok mx ->
  sat (place_token u idx i c mx) (fun r => upd_to c idx (c_has_shift c) (token_cell u i a) r.1 /\
    mx_ok r.2 /\ (a_pos a = -1 -> r.2 = mx)).
Proof.
  intros W Ha Ht Hu Hlt [(p & Hp & Hp0) T2 (ids & Hids & Hne & Hnd & Hok & Hn)] [Hml Hmx].
  unfold place_token. destruct (cells_reads_ok c W idx a Ha) as (-> & _ & Hrp & _ & Hrn). simpl.
  assert (Hi : (idx < length (abs_cells c))%nat) by by eapply lookup_lt_Some.
  set (e0 := if decide (a_pos a = -1) then a_ext a else ext_reset).
  (* the cell is emptied first when it is in use *)
  eapply sat_step with (P := fun r => upd_to c idx (c_has_shift c) (mk_acell (-1) e0 0 ∅) r.1 /\
    mx_ok r.2 /\ (a_pos a = -1 -> r.2 = mx)).
  { destruct (abs_lookup_ok c idx a W Ha) as [(Hge & Hemp & Hid) _].
    subst e0. destruct (Z.eqb_spec (a_pos a) (-1)) as [Em|Em]; simpl.
    - apply sat_ok. rewrite decide_True by done. split_and!; [|done|done].
      apply upd_to_same; [done| |done]. simpl. rewrite Ha. f_equal. destruct (Hemp Em), a. simpl in *. congruence.
    - destruct Hu as [?|[q Hq]]; [done|]. rewrite Hrn. simpl. rewrite Hq, size_singleton. simpl.
      assert (Hb : id_ok q) by (apply Hid; set_solver). destruct Hb as [Hb0 Hb1].
      rewrite (cells_seq_get_ok c idx a q), Hrp by done. simpl.
      unfold vec_getZ, vec_setZ. rewrite (proj2 (Z.leb_le 0 q) Hb0).
      destruct (lookup_lt_is_Some_2 mx (Z.to_nat q)) as [m Hm]; [unfold MAX_SEQ in Hml; lia|].
      rewrite (proj2 (vec_get_ok _ _ _) Hm). simpl. apply sat_bind, sat_vec_set; [unfold MAX_SEQ in Hml; lia|].
      eapply sat_step; [by apply (sat_cells_rm c idx a)|]. intros c' Hc'. apply sat_ok. simpl.
      rewrite decide_False by done. split_and!; [done| |done]. split; [by rewrite length_insert|].
      apply Forall_insert; [done|]. apply (Forall_lookup_1 _ _ _ _ Hmx) in Hm. lia. }
  intros [c1 mx1] ((W1 & E1 & B1) & Hmx1 & Hmx2). simpl in *.
  rewrite (proj2 (vec_get_ok _ _ _) Hp). simpl.
  assert (H1 : abs_cells c1 !! idx = Some (mk_acell (-1) e0 0 ∅)) by by rewrite E1, list_lookup_insert_eq.
  eapply sat_step; [by apply (sat_cells_pos_set c1 idx p _ W1 H1)|]. intros c2 (W2 & E2 & B2). simpl in E2.
  set (e1 := if is_pos_2d u then token_ext u i else e0).
  eapply sat_step with (P := upd_to c idx (c_has_shift c) (mk_acell p e1 0 ∅)).
  { subst e1. assert (H2 : abs_cells c2 !! idx = Some (mk_acell p e0 0 ∅)).
    { by rewrite E2, list_lookup_insert_eq by by rewrite E1, length_insert. }
    destruct (is_pos_2d u).
    - destruct (T2 eq_refl) as [[x Hx] [y Hy]]. unfold token_ext.
      rewrite (proj2 (vec_get_ok _ _ _) Hx), (proj2 (vec_get_ok _ _ _) Hy), Hx, Hy. simpl.
      eapply sat_mono; [apply (sat_cells_ext_set c2 idx _ _ W2 H2)|]. intros c3 (W3 & E3 & B3).
      split_and!; [done| |congruence]. by rewrite E3, E2, E1, !list_insert_insert_eq.
    - apply sat_ok. split_and!; [done| |congruence]. by rewrite E2, E1, list_insert_insert_eq. }
  intros c3 (W3 & E3 & B3). rewrite (proj2 (vec_get_ok _ _ _) Hn), (proj2 (vec_get_ok _ _ _) Hids). simpl.
  rewrite Nat2Z.id.
  assert (H3 : abs_cells c3 !! idx = Some (mk_acell p e1 0 ∅)) by by rewrite E3, list_lookup_insert_eq.
  eapply sat_step; [apply (sat_add_ids c3 idx _ ids W3 H3); simpl; [lia|done|done|done]|].
  intros c4 (W4 & E4 & B4). apply sat_ok. split; [|done]. simpl in *. split_and!; [done| |congruence].
  rewrite E4, E3, list_insert_insert_eq. unfold token_cell, token_pos, token_ids.
  by rewrite Hp, Hids.
Qed.

(** ** All tokens *)

(** Position [ii] of slot [s] is cell [idx] of stream [strm]. *)
Definition targets (si : slot_info) (s ii strm idx : nat) : Prop :=
  si_strm si !! s = Some strm /\ exists idxs, si_idxs si !! s = Some idxs /\ idxs !! ii = Some idx.

(** The cell may be (over)written: empty, or owned by one sequence. *)
Definition placeable (a : acell) : Prop :=
  (a_pos a = -1 \/ exists q, a_seq a = {[q]}) /\ a_pos a < INT32_MAX.

(** The slot [si] of [n] cells per stream takes the tokens of [u]. *)
Record place_ok (k : kv_cache) u (si : slot_info) (n : nat) : Prop := {
  po_nd     : NoDup (si_strm si);
  po_ne     : si_strm si <> [];
  po_len    : length (si_idxs si) = length (si_strm si);
  po_n      : (0 < n)%nat;
  po_strm   : forall s strm, si_strm si !! s = Some strm -> (strm < kv_n_stream k)%nat;
  po_idxs   : forall s idxs, si_idxs si !! s = Some idxs -> length idxs = n /\ NoDup idxs;
  po_cell   : forall s ii strm idx, targets si s ii strm idx ->
                exists a, stream_cells k strm !! idx = Some a /\ placeable a;
  po_tokens : ub_n_tokens u = (length (si_strm si) * n)%nat;
  po_token  : forall i, (i < ub_n_tokens u)%nat -> token_ok u i
}.

(** What placing leaves alone besides the cells. *)
Definition kv_frame (k k' : kv_cache) : Prop :=
  kv_static k' = kv_static k /\ kv_heads k' = kv_heads k /\ kv_sc_info k' = kv_sc_info k /\
  kv_pg_enabled k' = kv_pg_enabled k /\ kv_pool k' = kv_pool k /\
  forall s, c_has_shift <$> kv_cells k' !! s = c_has_shift <$> kv_cells k !! s.

(** The first [m] tokens are in place, and no other cell has changed. *)
Definition placed (k : kv_cache) u (si : slot_info) (n m : nat) (k' : kv_cache) : Prop :=
  (forall s ii strm idx a, (s * n + ii < m)%nat -> (ii < n)%nat -> targets si s ii strm idx ->
     stream_cells k strm !! idx = Some a ->
     stream_cells k' strm !! idx = Some (token_cell u (s * n + ii) a)) /\
  (forall strm idx, (forall s ii, (s * n + ii < m)%nat -> (ii < n)%nat -> ~ targets si s ii strm idx) ->
     stream_cells k' strm !! idx = stream_cells k strm !! idx).

Lemma targets_inj k u si n s ii s' ii' strm idx :
  place_ok k u si n -> targets si s ii strm idx -> targets si s' ii' strm idx -> s = s' /\ ii = ii'.
Proof.
  intros P (H1 & l & H2 & H3) (H1' & l' & H2' & H3').
  assert (s = s') as <- by by apply (NoDup_lookup (si_strm si) s s' strm (po_nd _ _ _ _ P)).
  destruct (po_idxs _ _ _ _ P s l H2) as [_ Hnd]. simplify_eq. split; [done|]. by eapply NoDup_lookup.
Qed.

Lemma kv_frame_refl k : kv_frame k k.
Proof. by split_and!. Qed.

Lemma kv_frame_put k k' s c c' h :
  kv_frame k k' -> kv_cells k' !! s = Some c -> kv_heads k' !! s = Some h ->
  c_has_shift c' = c_has_shift c -> kv_frame k (kv_put k' s c' h).
Proof.
  intros (H1 & H2 & H3 & H4 & H5 & H6) Hc Hh Hb. split_and!; simpl; try done.
  - by rewrite list_insert_id by done.
  - intros s'. rewrite <- H6. destruct (decide (s' = s)) as [->|Hne].
    + rewrite list_lookup_insert_eq by by eapply lookup_lt_Some. by rewrite Hc; simpl; rewrite Hb.
    + by rewrite list_lookup_insert_ne.
Qed.

Definition place_state (sz : nat) (k : kv_cache) u (si : slot_info) (n m : nat)
    (r : kv_cache * list Z) : Prop :=
  kv_ok sz r.1 /\ kv_frame k r.1 /\ placed k u si n m r.1 /\ mx_ok r.2 /\
  ((forall s ii strm idx a, targets si s ii strm idx -> stream_cells k strm !! idx = Some a -> a_pos a = -1) ->
   r.2 = replicate MAX_SEQ (-1)).

Lemma sat_place_step sz k u si n s ii r :
  place_ok k u si n -> place_state sz k u si n (s * n + ii) r ->
  (s < length (si_strm si))%nat -> (ii < n)%nat ->
  sat (let '(k', mx) := r in
       strm ← vec_get (si_strm si) s; c ← vec_get (kv_cells k') strm; idxs ← vec_get (si_idxs si) s;
       idx ← vec_get idxs ii; r ← place_token u idx (s * n + ii) c mx;
       k' ← put_cells k' strm (fst r); Ok (k', snd r))
    (place_state sz k u si n (s * n + ii + 1)).
Proof.
  intros P (K' & F & [Pl1 Pl2] & Hmx & Hm0) Hs Hii. destruct r as [k' mx]. simpl in *.
  destruct (lookup_lt_is_Some_2 (si_strm si) s Hs) as [strm Hstrm].
  destruct (lookup_lt_is_Some_2 (si_idxs si) s) as [idxs Hidxs]; [by rewrite (po_len _ _ _ _ P)|].
  destruct (po_idxs _ _ _ _ P s idxs Hidxs) as [Hlen Hnd].
  destruct (lookup_lt_is_Some_2 idxs ii) as [idx Hidx]; [by rewrite Hlen|].
  assert (T : targets si s ii strm idx) by (split; [done|eauto]).
  destruct (po_cell _ _ _ _ P s ii strm idx T) as (a & Ha & Hpl & Hlt).
  assert (Hst : (strm < kv_n_stream k')%nat).
  { rewrite (static_n k k') by apply F. by apply (po_strm _ _ _ _ P s). }
  destruct (kv_stream sz k' strm K' Hst) as (c & h & Hc & Hh & W & Hsz & Ht & Ec & _).
  assert (Ha' : abs_cells c !! idx = Some a).
  { rewrite <- Ec, Pl2; [done|]. intros s' ii' Hlt' _ T'.
    destruct (targets_inj k u si n s ii s' ii' strm idx P T T') as [<- <-]. lia. }
  rewrite (proj2 (vec_get_ok _ _ _) Hstrm), (proj2 (vec_get_ok _ _ _) Hidxs). simpl.
  rewrite (proj2 (vec_get_ok _ _ _) Hc), (proj2 (vec_get_ok _ _ _) Hidx). simpl.
  assert (Htok : token_ok u (s * n + ii)).
  { apply (po_token _ _ _ _ P). rewrite (po_tokens _ _ _ _ P). nia. }
  eapply sat_step; [apply (sat_place_token u idx (s * n + ii) c mx a W Ha'); try done|].
  { by eapply Forall_lookup_1. }
  intros [c' mx'] ((W' & E' & B') & Hmx' & Hmx0). simpl in *.
  rewrite (put_cells_head k' strm c' h) by (first [done | by eapply lookup_lt_Some]). apply sat_ok.
  assert (Hsc : forall st j, stream_cells (kv_put k' strm c' h) st !! j =
    if decide (st = strm /\ j = idx) then Some (token_cell u (s * n + ii) a) else stream_cells k' st !! j).
  { intros st j. rewrite stream_cells_put by by eapply lookup_lt_Some.
    destruct (decide (st = strm)) as [->|]; [|by rewrite decide_False by naive_solver].
    rewrite E', Ec. destruct (decide (j = idx)) as [->|].
    - rewrite decide_True by done. apply list_lookup_insert_eq. by eapply lookup_lt_Some.
    - rewrite decide_False by naive_solver. by rewrite list_lookup_insert_ne. }
  unfold place_state. simpl. split_and!.
  - apply kv_ok_put; [done|done| | |].
    + rewrite cells_size_abs, E', length_insert by done. by rewrite <- cells_size_abs.
    + rewrite E'. apply Forall_insert; [done|]. by apply tight_token.
    + by eapply (ko_head _ _ K').
  - by eapply kv_frame_put.
  - split.
    + intros s' ii' st j b Hlt' Hii' T' Hb. rewrite Hsc. case_decide as Hd.
      * destruct Hd as [-> ->].
        destruct (targets_inj k u si n s ii s' ii' strm idx P T T') as [<- <-]. by simplify_eq.
      * apply Pl1; [|done|done|done].
        assert (s' * n + ii' <> s * n + ii)%nat; [|lia]. intros Heq.
        assert (s' = s /\ ii' = ii) as [-> ->] by (apply (Nat.div_mod_unique n); lia).
        destruct T as (Q1 & l1 & Q2 & Q3), T' as (Q1' & l2 & Q2' & Q3'). simplify_eq. by apply Hd.
    + intros st j Hno. rewrite Hsc. rewrite decide_False.
      * apply Pl2. intros s' ii' Hlt'. apply Hno. lia.
      * intros [-> ->]. apply (Hno s ii); [lia|done|done].
  - done.
  - intros Hall. rewrite Hmx0; [by apply Hm0|]. by eapply Hall.
Qed.

(** The nested placing loop of [apply_ubatch]. *)
Lemma sat_place_all sz k u si n :
  kv_ok sz k -> place_ok k u si n ->
  sat (mfor (fun km s =>
        mfor (fun '(k, mx) ii =>
          strm ← vec_get (si_strm si) s; c ← vec_get (kv_cells k) strm; idxs ← vec_get (si_idxs si) s;
          idx ← vec_get idxs ii; r ← place_token u idx (s * n + ii) c mx;
          k ← put_cells k strm (fst r); Ok (k, snd r)) (seq 0 n) km)
      (seq 0 (length (si_strm si))) (k, replicate MAX_SEQ (-1)))
    (place_state sz k u si n (length (si_strm si) * n)).
Proof.
  intros K P. apply (sat_for _ (fun s => place_state sz k u si n (s * n))).
  - split_and!; simpl; [done|apply kv_frame_refl|split; [lia|done]| |done].
    split; [by rewrite length_replicate|]. apply Forall_replicate. unfold INT32_MAX. lia.
  - intros s r Hs Hr. replace ((s + 1) * n)%nat with (s * n + n)%nat by lia.
    apply (sat_for _ (fun ii => place_state sz k u si n (s * n + ii))); [by rewrite Nat.add_0_r|].
    intros ii r' Hii Hr'. rewrite Nat.add_assoc. pose proof (sat_place_step sz k u si n s ii r' P Hr' Hs Hii) as H.
    by destruct r'.
Qed.

(** ** [apply_ubatch] *)

Lemma slot_size_ok k u si n : place_ok k u si n -> slot_size si = Ok n.
Proof.
  intros P. unfold slot_size. rewrite assert_ok by by (apply Nat.eqb_eq, P). simpl.
  pose proof (po_ne _ _ _ _ P). pose proof (po_len _ _ _ _ P).
  destruct (si_idxs si) as [|l r] eqn:El; [by destruct (si_strm si)|]. simpl.
  destruct (po_idxs _ _ _ _ P 0%nat l) as [-> _]; [by rewrite El|done].
Qed.

(** Purging keeps the invariant, and does nothing when no used cell was overwritten. *)
Lemma sat_purge sz k mx :
  kv_ok sz k -> mx_ok mx ->
  sat (mfor (purge_step mx) all_seq_ids k) (fun k' => kv_ok sz k' /\ kv_static k' = kv_static k).
Proof.
  intros K [Hl Hmx]. apply (sat_mfor_inv _ (fun k' => kv_ok sz k' /\ kv_static k' = kv_static k)); [done|].
  intros q k' Hq [K' Hst]. apply elem_of_all_seq_ids in Hq. unfold purge_step, vec_getZ.
  destruct Hq as [Hq0 Hq1]. rewrite (proj2 (Z.leb_le 0 q) Hq0).
  destruct (lookup_lt_is_Some_2 mx (Z.to_nat q)) as [m Hm]; [unfold MAX_SEQ in Hl; lia|].
  rewrite (proj2 (vec_get_ok _ _ _) Hm). simpl.
  apply (Forall_lookup_1 _ _ _ _ Hmx) in Hm. destruct (Z.eqb_spec m (-1)); [by apply sat_ok|].
  assert (Hid : id_ok q) by done.
  rewrite assert_ok by (rewrite (ko_sts _ _ K'); unfold MAX_SEQ; apply Z.ltb_lt; lia). simpl.
  destruct (stream_of_ok sz k' q K' Hid) as [-> Hs]. simpl.
  destruct (kv_stream sz k' _ K' Hs) as (c & h & Hc & _ & W & _).
  rewrite (proj2 (vec_get_ok _ _ _) Hc). simpl. rewrite cells_seq_pos_min_ok by done. simpl.
  destruct (_ <=? m); [|by apply sat_ok].
  rewrite i32_ok by (unfold int32, INT32_MIN in *; lia). simpl.
  eapply sat_mono; [by apply (sat_seq_rm sz k' q)|]. intros k2 (K2 & (Hst2 & _) & _). split; [done|congruence].
Qed.

Lemma purge_none k l :
  (forall q, q ∈ l -> id_ok q) -> mfor (purge_step (replicate MAX_SEQ (-1))) l k = Ok k.
Proof.
  induction l as [|q l IH]; intros Hl; [done|]. simpl.
  assert (purge_step (replicate MAX_SEQ (-1)) k q = Ok k) as ->; [|apply IH; set_solver].
  destruct (Hl q) as [Hq0 Hq1]; [set_solver|]. unfold purge_step, vec_getZ.
  rewrite (proj2 (Z.leb_le 0 q) Hq0). unfold vec_get.
  by rewrite lookup_replicate_2 by (unfold MAX_SEQ; lia).
Qed.

(** Moving the heads to the end of the slot. *)
Lemma sat_move_heads sz k si :
  kv_ok sz k -> length (si_idxs si) = length (si_strm si) ->
  (forall s strm, si_strm si !! s = Some strm -> (strm < kv_n_stream k)%nat) ->
  (forall s idxs, si_idxs si !! s = Some idxs -> idxs <> []) ->
  (forall s ii strm idx, targets si s ii strm idx -> (idx < sz)%nat) ->
  sat (mfor (fun k s =>
    strm ← vec_get (si_strm si) s; idxs ← vec_get (si_idxs si) s;
    b ← of_option OutOfRange (last idxs); put_head k strm (S b)) (seq 0 (length (si_strm si))) k)
    (fun k' => kv_ok sz k' /\ kv_static k' = kv_static k /\ kv_cells k' = kv_cells k /\
       kv_pool k' = kv_pool k /\ kv_pg_enabled k' = kv_pg_enabled k /\ kv_sc_info k' = kv_sc_info k /\
       forall s, s ∉ si_strm si -> kv_heads k' !! s = kv_heads k !! s).
Proof.
  intros K Hl Hstr Hne Hb.
  apply (sat_for _ (fun i k' => kv_ok sz k' /\ kv_static k' = kv_static k /\ kv_cells k' = kv_cells k /\
    kv_pool k' = kv_pool k /\ kv_pg_enabled k' = kv_pg_enabled k /\ kv_sc_info k' = kv_sc_info k /\
    forall s, s ∉ si_strm si -> kv_heads k' !! s = kv_heads k !! s)); [by split_and!|].
  intros s k' Hs (K' & H1 & H2 & H3 & H4 & H5 & H6).
  destruct (lookup_lt_is_Some_2 (si_strm si) s Hs) as [strm Hstrm].
  destruct (lookup_lt_is_Some_2 (si_idxs si) s) as [idxs Hidxs]; [by rewrite Hl|].
  rewrite (proj2 (vec_get_ok _ _ _) Hstrm), (proj2 (vec_get_ok _ _ _) Hidxs). simpl.
  destruct (last idxs) as [b|] eqn:El; [|by apply last_None, (Hne s) in El]. simpl.
  rewrite last_lookup in El.
  assert (Hbs : (b < sz)%nat) by (apply (Hb s (pred (length idxs)) strm); split; eauto).
  unfold put_head. pose proof (Hstr s strm Hstrm) as Hst.
  assert (Hst' : (strm < length (kv_heads k'))%nat) by by rewrite (ko_heads _ _ K'), (static_n k k').
  apply sat_bind, sat_vec_set; [done|]. apply sat_ok. split_and!; simpl; try done.
  - pose proof (ko_head _ _ K') as Hhd. destruct K'. split; simpl; rewrite ?length_insert; try done.
    intros s' h' [(<- & <- & _)|[_ H']]%list_lookup_insert_Some; [lia|by eapply Hhd].
  - intros s' Hs'. rewrite list_lookup_insert_ne; [by apply H6|].
    intros ->. apply Hs'. by eapply list_elem_of_lookup_2.
Qed.

Lemma target_bound sz k u si n s ii strm idx :
  kv_ok sz k -> place_ok k u si n -> targets si s ii strm idx -> (idx < sz)%nat.
Proof.
  intros K P T. destruct (po_cell _ _ _ _ P s ii strm idx T) as (a & Ha & _).
  destruct T as [Hs _]. destruct (kv_stream sz k strm K) as (c & _ & _ & _ & W & <- & _ & Ec & _).
  { by eapply (po_strm _ _ _ _ P). }
  rewrite Ec in Ha. rewrite cells_size_abs by done. by eapply lookup_lt_Some.
Qed.

Lemma slot_idxs_ne k u si n : place_ok k u si n -> forall s idxs, si_idxs si !! s = Some idxs -> idxs <> [].
Proof.
  intros P s idxs Hs ->. destruct (po_idxs _ _ _ _ P s [] Hs) as [Hl _]. pose proof (po_n _ _ _ _ P).
  simpl in Hl. lia.
Qed.

(** [apply_ubatch] never stops on a slot that fits, and keeps the invariant. *)
Lemma sat_apply_ubatch sz k u si n :
  kv_ok sz k -> place_ok k u si n ->
  sat (cache_apply_ubatch k si u) (fun k' => kv_ok sz k' /\ kv_static k' = kv_static k).
Proof.
  intros K P. unfold cache_apply_ubatch. rewrite (slot_size_ok k u si n P). simpl.
  rewrite assert_ok by (apply Nat.eqb_eq, P). simpl.
  eapply sat_step; [apply (sat_place_all sz k u si n K P)|].
  intros [k1 mx] (K1 & F1 & _ & Hmx & _). simpl in *. destruct F1 as (Hst1 & _).
  eapply sat_step; [by apply (sat_purge sz)|]. intros k2 [K2 Hst2].
  eapply sat_mono; [apply (sat_move_heads sz k2 si K2)|].
  - apply P.
  - intros. rewrite (static_n k k2) by congruence. by eapply (po_strm _ _ _ _ P).
  - by apply (slot_idxs_ne k u si n).
  - intros s ii strm idx. by apply (target_bound sz k u si n).
  - intros k3 (K3 & Hst3 & _). split; [done|congruence].
Qed.

(** When all the cells of the slot are empty (without a sliding window they always are)
    the result is exactly the tokens in their cells, and nothing is purged. *)
Lemma sat_apply_empty sz k u si n :
  kv_ok sz k -> place_ok k u si n ->
  (forall s ii strm idx a, targets si s ii strm idx -> stream_cells k strm !! idx = Some a -> a_pos a = -1) ->
  sat (cache_apply_ubatch k si u) (fun k' => kv_ok sz k' /\ kv_static k' = kv_static k /\
    placed k u si n (ub_n_tokens u) k' /\ kv_pool k' = kv_pool k /\ kv_pg_enabled k' = kv_pg_enabled k /\
    kv_sc_info k' = kv_sc_info k /\
    (forall s, c_has_shift <$> kv_cells k' !! s = c_has_shift <$> kv_cells k !! s) /\
    forall s, s ∉ si_strm si -> kv_heads k' !! s = kv_heads k !! s).
Proof.
  intros K P He. unfold cache_apply_ubatch. rewrite (slot_size_ok k u si n P). simpl.
  rewrite assert_ok by (apply Nat.eqb_eq, P). simpl.
  eapply sat_step; [apply (sat_place_all sz k u si n K P)|].
  intros [k1 mx] (K1 & (Hst1 & Hh1 & Hi1 & Hp1 & Hpool1 & Hs1) & Pl & _ & Hmx). simpl in *.
  rewrite (Hmx He), purge_none by by intros q Hq%elem_of_all_seq_ids. simpl.
  eapply sat_mono; [apply (sat_move_heads sz k1 si K1)|].
  - apply P.
  - intros. rewrite (static_n k k1) by done. by eapply (po_strm _ _ _ _ P).
  - by apply (slot_idxs_ne k u si n).
  - intros s ii strm idx. by apply (target_bound sz k u si n).
  - intros k3 (K3 & Hst3 & Hc & Hpool & Hpg & Hi & Hh).
    rewrite Hst3, Hpool, Hpg, Hi, (po_tokens _ _ _ _ P). split_and!; try done.
    + unfold placed, stream_cells. rewrite Hc. exact Pl.
    + by rewrite Hc.
    + intros s Hs. rewrite Hh, Hh1 by done. done.
Qed.

(** ** A found slot fits *)

Lemma usable_placeable k l i :
  swa_ok k l -> usable_at k l i = true -> exists a, l !! i = Some a /\ placeable a /\
    (kv_swa_type k = LLAMA_SWA_TYPE_NONE -> a_pos a = -1).
Proof.
  intros [_ Hmax] H. unfold usable_at in H. destruct (l !! i) as [a|] eqn:Ha; [|done]. simpl in H.
  exists a. split; [done|]. unfold usable in H. apply orb_true_iff in H.
  assert (Hlt : a_pos a < INT32_MAX) by (apply Hmax; by eapply list_elem_of_lookup_2).
  destruct H as [H|H]; [apply Z.eqb_eq in H; repeat split; [by left|done|done]|].
  destruct (elements (a_seq a)) as [|q [|? ?]] eqn:Eq; [done| |done]. split.
  - split; [right; exists q|done]. apply set_eq. intros x. rewrite <- elem_of_elements, Eq. set_solver.
  - intros Ht. by rewrite Ht in H.
Qed.

(** What the batch code promises about a micro-batch, on a cache with these streams. *)
Record ubatch_ok (k : kv_cache) u : Prop := {
  ub_shape  : ubatch_shape k u;
  ub_total  : ub_n_tokens u = (fst (slot_dims k u) * snd (slot_dims k u))%nat;
  ub_ne     : (0 < fst (slot_dims k u))%nat;
  ub_strms  : forall s s' q q', (s < fst (slot_dims k u))%nat -> (s' < fst (slot_dims k u))%nat ->
                ub_seq_id_unq u !! s = Some q -> ub_seq_id_unq u !! s' = Some q' ->
                seq_stream k q = seq_stream k q' -> s = s';
  ub_tokens : forall i, (i < ub_n_tokens u)%nat -> token_ok u i;
  ub_maxpos : forall i, (i < ub_n_tokens u)%nat -> token_pos u i < INT32_MAX
}.

Lemma slot_place sz k u si :
  kv_ok sz k -> ubatch_ok k u -> slot_ok sz k u si ->
  (forall s, (s < kv_n_stream k)%nat -> swa_ok k (stream_cells k s)) ->
  place_ok k u si (snd (slot_dims k u)).
Proof.
  intros K [Sh Ht Hne Hst Htok _] S SW. unfold slot_ok in S.
  destruct (slot_dims k u) as [n_seqs n] eqn:Ed. destruct S as (L1 & L2 & Hs).
  pose proof (us_pos _ _ Sh) as Hp. rewrite Ed in *. simpl in *.
  assert (Hq : forall s, (s < n_seqs)%nat -> exists q, ub_seq_id_unq u !! s = Some q /\ id_ok q /\ slot_for sz n k si s q).
  { intros s Hlt. destruct (us_seq _ _ Sh s) as (q & Hq & Hid & _); [by rewrite Ed|].
    exists q. split_and!; [done|done|by apply Hs]. }
  assert (Hslot : forall s strm, si_strm si !! s = Some strm -> exists q, ub_seq_id_unq u !! s = Some q /\
    id_ok q /\ slot_for sz n k si s q /\ strm = seq_stream k q /\ (s < n_seqs)%nat).
  { intros s strm Hlk. assert (Hlt : (s < n_seqs)%nat) by (rewrite <- L1; by eapply lookup_lt_Some).
    destruct (Hq s Hlt) as (q & H1 & H2 & H3). exists q. split_and!; try done.
    destruct H3 as (H3 & _). congruence. }
  split.
  - apply NoDup_alt. intros s s' strm H1 H2. destruct (Hslot s strm H1) as (q & Q1 & _ & _ & E1 & B1).
    destruct (Hslot s' strm H2) as (q' & Q1' & _ & _ & E2 & B2). eapply (Hst s s' q q'); congruence.
  - intros E0. rewrite E0 in L1. simpl in L1. lia.
  - congruence.
  - done.
  - intros s strm H1. destruct (Hslot s strm H1) as (q & _ & Hid & _ & -> & _). by apply (stream_of_ok sz k q K).
  - intros s idxs H1. destruct (Hq s) as (q & _ & _ & _ & _ & idxs' & H2 & H3 & H4 & _).
    { rewrite <- L2. by eapply lookup_lt_Some. } simplify_eq. done.
  - intros s ii strm idx [H1 (idxs & H2 & H3)]. destruct (Hslot s strm H1) as (q & _ & Hid & Hf & -> & _).
    destruct Hf as (_ & _ & idxs' & H4 & _ & _ & Hu). simplify_eq.
    destruct (Hu idx) as [_ Hus]; [by eapply list_elem_of_lookup_2|].
    destruct (usable_placeable k _ _ (SW _ (proj2 (stream_of_ok sz k q K Hid))) Hus) as (a & Ha & Hpl & _).
    by exists a.
  - by rewrite L1.
  - done.
Qed.

(** Without a sliding window the cells of the slot are empty. *)
Lemma slot_empty sz k u si :
  kv_ok sz k -> ubatch_ok k u -> slot_ok sz k u si -> kv_swa_type k = LLAMA_SWA_TYPE_NONE ->
  (forall s, (s < kv_n_stream k)%nat -> swa_ok k (stream_cells k s)) ->
  forall s ii strm idx a, targets si s ii strm idx -> stream_cells k strm !! idx = Some a -> a_pos a = -1.
Proof.
  intros K [Sh _ _ _ _ _] S Hn SW s ii strm idx a [H1 (idxs & H2 & H3)] Ha. unfold slot_ok in S.
  destruct (slot_dims k u) as [n_seqs n] eqn:Ed. destruct S as (L1 & L2 & Hs).
  assert (Hlt : (s < n_seqs)%nat) by (rewrite <- L1; by eapply lookup_lt_Some).
  destruct (us_seq _ _ Sh s) as (q & Hq & Hid & _); [by rewrite Ed|].
  destruct (Hs s q Hlt Hq) as (H4 & _ & idxs' & H5 & _ & _ & Hu). simplify_eq.
  destruct (Hu idx) as [_ Hus]; [by eapply list_elem_of_lookup_2|].
  destruct (usable_placeable k _ _ (SW _ (proj2 (stream_of_ok sz k q K Hid))) Hus) as (b & Hb & _ & He).
  simplify_eq. by apply He.
Qed.
End place.
