(* ===== verification/KvPrepare.v ===== *)
(** * [prepare]: place the micro-batches one after the other, then undo

    Without a sliding window, [prepare] gives the cells back exactly as they were, and
    the slots it returns can be applied in order from there. *)

From S2P Require Import Prelude KvCells KvCellsInv KvCellsSpec Batch Pages PagesTheory KvCache KvCacheTheory.
From S2P Require Import KvCacheProps KvSlots KvPlace.

Section prepare.
Context {E : Type}.
Implicit Types u : llama_ubatch E.

(** ** The cells after a placement are determined by the cells before it *)

(** Two caches with the same cells. *)
Definition same_cells (k k' : kv_cache) : Prop := kv_static k' = kv_static k /\ kv_cells k' = kv_cells k.

Lemma same_cells_stream k k' s : same_cells k k' -> stream_cells k' s = stream_cells k s.
Proof. intros [_ H]. unfold stream_cells. by rewrite H. Qed.

Lemma same_cells_seq k k' q : same_cells k k' -> seq_stream k' q = seq_stream k q.
Proof. intros [H _]. by apply static_stream. Qed.

Lemma same_cells_dims k k' u : same_cells k k' -> slot_dims k' u = slot_dims k u.
Proof. intros [H _]. unfold slot_dims. by rewrite (static_n k k' H). Qed.

Lemma same_cells_usable k k' l i : same_cells k k' -> usable_at k' l i = usable_at k l i.
Proof. intros [H _]. unfold usable_at, usable. unfold kv_static in H. injection H as _ _ _ H1 H2 _ _ _. by rewrite H1, H2. Qed.

Lemma same_cells_slot_ok sz k k' u si : same_cells k k' -> slot_ok sz k u si -> slot_ok sz k' u si.
Proof.
  intros S. unfold slot_ok. rewrite (same_cells_dims k k' u S).
  destruct (slot_dims k u) as [n_seqs n]. intros (L1 & L2 & H). split_and!; [done|done|].
  intros s q Hs Hq. destruct (H s q Hs Hq) as (H1 & H2 & idxs & H3 & H4 & H5 & H6).
  unfold slot_for. rewrite (same_cells_seq k k' q S). split_and!; [done|lia|lia|].
  exists idxs. split_and!; [done|done|done|]. intros i Hi.
  rewrite (same_cells_stream k k' _ S), (same_cells_usable k k' _ i S). by apply H6.
Qed.

Lemma same_cells_ubatch k k' u : same_cells k k' -> ubatch_ok k u -> ubatch_ok k' u.
Proof.
  intros S [[Q1 Q2 Q3] H2 H3 H4 H5 H6]. pose proof (static_n k k' (proj1 S)) as Hn.
  split; rewrite ?(same_cells_dims k k' u S); try done.
  - split; rewrite ?(same_cells_dims k k' u S), ?Hn; done.
  - intros s s' q q'. rewrite !(same_cells_seq k k' _ S). by apply H4.
Qed.

(** Cells of a stream, as a whole, from the observation and the shift flag. *)
Lemma stream_eq sz k k' s :
  kv_ok sz k -> kv_ok sz k' -> kv_n_stream k' = kv_n_stream k ->
  (forall i, stream_cells k' s !! i = stream_cells k s !! i) ->
  c_has_shift <$> kv_cells k' !! s = c_has_shift <$> kv_cells k !! s ->
  kv_cells k' !! s = kv_cells k !! s.
Proof.
  intros K K' Hn Hc Hb. unfold stream_cells in Hc.
  destruct (kv_cells k !! s) as [c|] eqn:Ec, (kv_cells k' !! s) as [c'|] eqn:Ec'; simpl in *; try done.
  f_equal. apply wf_abs_eq; [by eapply (ko_cells _ _ K')|by eapply (ko_cells _ _ K)| |by simplify_eq].
  by apply list_eq.
Qed.

Lemma target_dec si strm idx :
  (exists t ii, targets si t ii strm idx) \/ (forall t ii, ~ targets si t ii strm idx).
Proof.
  destruct (decide (Exists (fun p => p.1 = strm /\ idx ∈ p.2) (zip (si_strm si) (si_idxs si)))) as [H|H].
  - left. apply Exists_exists in H as ([s idxs] & Hp & <- & Hi). apply list_elem_of_lookup in Hp as [t Ht].
    apply list_elem_of_lookup in Hi as [ii Hii]. rewrite lookup_zip_with in Ht. simplify_option_eq.
    exists t, ii. split; [done|]. eauto.
  - right. intros t ii (H1 & idxs & H2 & H3). apply H, Exists_exists. exists (strm, idxs). split.
    + apply list_elem_of_lookup. exists t. by rewrite lookup_zip_with, H1; simpl; rewrite H2.
    + split; [done|]. by eapply list_elem_of_lookup_2.
Qed.

(** A target lies inside the slot. *)
Lemma target_pos k u si n t ii strm idx :
  place_ok k u si n -> targets si t ii strm idx -> (ii < n)%nat /\ (t * n + ii < ub_n_tokens u)%nat.
Proof.
  intros P (H1 & idxs & H2 & H3). destruct (po_idxs _ _ _ _ P t idxs H2) as [Hl _].
  apply lookup_lt_Some in H1, H3. rewrite (po_tokens _ _ _ _ P). split; [lia|nia].
Qed.

(** A micro-batch placed on empty cells gives the same cells whatever the heads are. *)
Lemma placed_unique sz k k0 u si n k1 k2 :
  kv_ok sz k -> same_cells k k0 -> place_ok k u si n ->
  kv_ok sz k1 -> kv_ok sz k2 -> kv_static k1 = kv_static k -> kv_static k2 = kv_static k0 ->
  placed k u si n (ub_n_tokens u) k1 -> placed k0 u si n (ub_n_tokens u) k2 ->
  (forall s, c_has_shift <$> kv_cells k1 !! s = c_has_shift <$> kv_cells k !! s) ->
  (forall s, c_has_shift <$> kv_cells k2 !! s = c_has_shift <$> kv_cells k0 !! s) ->
  same_cells k1 k2.
Proof.
  intros K S P K1 K2 E1 E2 [A1 B1] [A2 B2] H1 H2. destruct S as [S1 S2].
  split; [congruence|]. apply list_eq. intros s. apply (stream_eq sz k1 k2 s K1 K2).
  - apply static_n. congruence.
  - intros i. destruct (target_dec si s i) as [(t & ii & T)|Hno].
    + destruct (po_cell _ _ _ _ P t ii s i T) as (a & Ha & _), (target_pos k u si n t ii s i P T).
      rewrite (A1 t ii s i a), (A2 t ii s i a); try done.
      by rewrite (same_cells_stream k k0) by by split.
    + rewrite (B1 s i), (B2 s i) by auto. by rewrite (same_cells_stream k k0) by by split.
  - rewrite H1, H2. by rewrite S2.
Qed.

(** ** Saving and restoring one placement *)

Lemma mmap_ok {A B} (f : A -> res B) l :
  (forall x, x ∈ l -> exists y, f x = Ok y) ->
  exists r, mmap f l = Ok r /\ Forall2 (fun x y => f x = Ok y) l r.
Proof.
  induction l as [|x l IH]; intros H; [by exists []|].
  destruct (H x) as [y Hy]; [set_solver|]. destruct IH as (r & Hr & HF); [set_solver|].
  exists (y :: r). simpl. rewrite Hy. simpl. rewrite Hr. simpl. split; [done|by constructor].
Qed.

(** [k1] is [k] with [u] placed at the empty cells [si]. *)
Record placement (sz : nat) (k : kv_cache) u (si : slot_info) (k1 : kv_cache) : Prop := {
  pl_ok     : kv_ok sz k1;
  pl_static : kv_static k1 = kv_static k;
  pl_cells  : placed k u si (snd (slot_dims k u)) (ub_n_tokens u) k1;
  pl_pool   : kv_pool k1 = kv_pool k;
  pl_pg     : kv_pg_enabled k1 = kv_pg_enabled k;
  pl_sc     : kv_sc_info k1 = kv_sc_info k;
  pl_shift  : forall s, c_has_shift <$> kv_cells k1 !! s = c_has_shift <$> kv_cells k !! s
}.

Definition empty_targets (k : kv_cache) (si : slot_info) : Prop :=
  forall s ii strm idx a, targets si s ii strm idx -> stream_cells k strm !! idx = Some a -> a_pos a = -1.

Lemma sat_placement sz k u si :
  kv_ok sz k -> place_ok k u si (snd (slot_dims k u)) -> empty_targets k si ->
  sat (cache_apply_ubatch k si u) (placement sz k u si).
Proof.
  intros K P He. eapply sat_mono; [by apply (sat_apply_empty sz)|].
  intros k1 (K1 & H1 & H2 & H3 & H4 & H5 & H6 & _). by split.
Qed.

(** Slot [s]: the stream, its cells before, and the cell indices. *)
Lemma slot_stream sz k u si n s :
  kv_ok sz k -> place_ok k u si n -> (s < length (si_strm si))%nat ->
  exists strm idxs c, si_strm si !! s = Some strm /\ si_idxs si !! s = Some idxs /\
    kv_cells k !! strm = Some c /\ wf c /\ stream_cells k strm = abs_cells c /\
    forall ii idx, idxs !! ii = Some idx -> targets si s ii strm idx.
Proof.
  intros K P Hs. destruct (lookup_lt_is_Some_2 (si_strm si) s Hs) as [strm Hstrm].
  destruct (lookup_lt_is_Some_2 (si_idxs si) s) as [idxs Hidxs]; [by rewrite (po_len _ _ _ _ P)|].
  destruct (kv_stream sz k strm K) as (c & _ & Hc & _ & W & _ & _ & Ec & _); [by eapply (po_strm _ _ _ _ P)|].
  exists strm, idxs, c. split_and!; try done. intros ii idx Hi. split; [done|]. eauto.
Qed.

Lemma empty_shift sz k u si n s ii strm idx :
  kv_ok sz k -> place_ok k u si n -> empty_targets k si -> targets si s ii strm idx ->
  exists a, stream_cells k strm !! idx = Some a /\ a_shift a = 0.
Proof.
  intros K P He T. destruct (po_cell _ _ _ _ P s ii strm idx T) as (a & Ha & _). exists a. split; [done|].
  pose proof (He s ii strm idx a T Ha) as Hm. destruct T as [Hs _].
  destruct (kv_stream sz k strm K) as (c & _ & _ & _ & W & _ & _ & Ec & _); [by eapply (po_strm _ _ _ _ P)|].
  rewrite Ec in Ha. destruct (abs_lookup_ok c idx a W Ha) as [(_ & H & _) _]. by apply H.
Qed.

(** The cells of the slot have no pending shift. *)
Definition still_targets (k : kv_cache) (si : slot_info) : Prop :=
  forall s ii strm idx a, targets si s ii strm idx -> stream_cells k strm !! idx = Some a -> a_shift a = 0.

Lemma save_cells_still sz k u si n :
  kv_ok sz k -> place_ok k u si n -> still_targets k si ->
  exists saved, save_cells k si = Ok saved /\
    forall s strm idxs c, si_strm si !! s = Some strm -> si_idxs si !! s = Some idxs ->
      kv_cells k !! strm = Some c -> exists sc, saved !! s = Some sc /\ cells_cp c idxs = Ok sc.
Proof.
  intros K P He. unfold save_cells.
  destruct (mmap_ok (fun s => strm ← vec_get (si_strm si) s; c ← vec_get (kv_cells k) strm;
    idxs ← vec_get (si_idxs si) s; cells_cp c idxs) (seq 0 (length (si_strm si)))) as (saved & Hs & HF).
  - intros s Hs%elem_of_seq.
    destruct (slot_stream sz k u si n s K P) as (strm & idxs & c & H1 & H2 & H3 & W & Ec & HT); [lia|].
    rewrite (proj2 (vec_get_ok _ _ _) H1), (proj2 (vec_get_ok _ _ _) H2). simpl.
    rewrite (proj2 (vec_get_ok _ _ _) H3). simpl.
    assert (sat (cells_cp c idxs) (fun _ => True)) as Hcp.
    { eapply sat_mono; [apply sat_cells_cp|done]. intros idx [ii Hi]%list_elem_of_lookup.
      pose proof (HT ii idx Hi) as T. destruct (po_cell _ _ _ _ P s ii strm idx T) as (a & Ha & _).
      exists a. rewrite <- Ec. split; [done|]. by apply (He s ii strm idx). }
    apply sat_exists in Hcp as (sc & Hsc & _). eauto.
  - exists saved. split; [done|]. intros s strm idxs c H1 H2 H3.
    assert (Hlt : (s < length (si_strm si))%nat) by by eapply lookup_lt_Some.
    destruct (Forall2_lookup_l _ _ _ s s HF) as (sc & Hl & Hf); [by apply lookup_seq_lt|].
    exists sc. split; [done|].
    rewrite (proj2 (vec_get_ok _ _ _) H1), (proj2 (vec_get_ok _ _ _) H2) in Hf. simpl in Hf.
    by rewrite (proj2 (vec_get_ok _ _ _) H3) in Hf.
Qed.

Lemma save_cells_ok sz k u si n :
  kv_ok sz k -> place_ok k u si n -> empty_targets k si ->
  exists saved, save_cells k si = Ok saved /\
    forall s strm idxs c, si_strm si !! s = Some strm -> si_idxs si !! s = Some idxs ->
      kv_cells k !! strm = Some c -> exists sc, saved !! s = Some sc /\ cells_cp c idxs = Ok sc.
Proof.
  intros K P He. apply (save_cells_still sz k u si n K P). intros s ii strm idx a T Ha.
  destruct (empty_shift sz k u si n s ii strm idx K P He T) as (a' & Ha' & ?). by simplify_eq.
Qed.

(** Restoring the saved cells of slot [s] into the cells after the placement. *)
Lemma restore_cells sz k u si k1 s strm idxs c c1 sc :
  kv_ok sz k -> place_ok k u si (snd (slot_dims k u)) -> empty_targets k si -> placement sz k u si k1 ->
  si_strm si !! s = Some strm -> si_idxs si !! s = Some idxs ->
  kv_cells k !! strm = Some c -> kv_cells k1 !! strm = Some c1 -> cells_cp c idxs = Ok sc ->
  cells_set c1 idxs sc = Ok c.
Proof.
  intros K P He [K1 Hst [A B] _ _ _ Hb] H1 H2 Hc Hc1 Hsc.
  assert (Wc : wf c) by by eapply (ko_cells _ _ K). assert (Wc1 : wf c1) by by eapply (ko_cells _ _ K1).
  assert (E0 : stream_cells k strm = abs_cells c) by by unfold stream_cells; rewrite Hc.
  assert (E1 : stream_cells k1 strm = abs_cells c1) by by unfold stream_cells; rewrite Hc1.
  pose proof (cells_cp_set c idxs c1 Wc Wc1) as H. rewrite Hsc in H. simpl in H. apply H; clear H.
  - specialize (Hb strm). rewrite Hc, Hc1 in Hb. simpl in Hb. by simplify_eq.
  - intros idx [ii Hi]%list_elem_of_lookup. rewrite <- E0.
    apply (empty_shift sz k u si (snd (slot_dims k u)) s ii); [done|done|done|]. split; [done|]. eauto.
  - intros idx [ii Hi]%list_elem_of_lookup. assert (T : targets si s ii strm idx) by (split; [done|eauto]).
    destruct (po_cell _ _ _ _ P s ii strm idx T) as (a & Ha & _).
    destruct (target_pos k u si _ s ii strm idx P T) as [Hii Hlt].
    rewrite <- E1, (A s ii strm idx a Hlt Hii T Ha). by eexists.
  - intros i Hi. rewrite <- E0, <- E1. apply B. intros s' ii' _ _ (T1 & l & T2 & T3).
    assert (s' = s) as -> by by apply (NoDup_lookup (si_strm si) s' s strm (po_nd _ _ _ _ P)).
    simplify_eq. apply Hi. by eapply list_elem_of_lookup_2.
Qed.

(** Streams outside the slot keep their cells. *)
Lemma placement_other sz k u si k1 strm :
  kv_ok sz k -> placement sz k u si k1 -> strm ∉ si_strm si -> kv_cells k1 !! strm = kv_cells k !! strm.
Proof.
  intros K [K1 Hst [A B] _ _ _ Hb] Hno. apply (stream_eq sz); [done|done|by apply static_n| |done].
  intros i. apply B. intros s ii _ _ [T _]. apply Hno. by eapply list_elem_of_lookup_2.
Qed.

(** [restore_state] undoes a placement: all cells are back, whatever the heads. *)
Lemma sat_restore sz k u si k1 k2 saved :
  kv_ok sz k -> place_ok k u si (snd (slot_dims k u)) -> empty_targets k si -> placement sz k u si k1 ->
  kv_ok sz k2 -> same_cells k1 k2 -> save_cells k si = Ok saved ->
  sat (restore_state k2 (mk_prep si (kv_heads k) saved)) (fun k3 => kv_ok sz k3 /\ same_cells k k3 /\
    kv_pool k3 = kv_pool k2 /\ kv_pg_enabled k3 = kv_pg_enabled k2 /\ kv_sc_info k3 = kv_sc_info k2 /\
    (kv_n_stream k = 1%nat -> kv_heads k3 = kv_heads k)).
Proof.
  intros K P He Pl K2 [S1 S2] Hsaved. unfold restore_state. simpl.
  destruct (save_cells_ok sz k u si _ K P He) as (saved' & Hs' & Hsc).
  assert (saved' = saved) as -> by congruence. clear Hs'.
  set (strms := si_strm si) in *. assert (Hst2 : kv_static k2 = kv_static k) by (rewrite S1; apply Pl).
  eapply sat_mono; [apply (sat_for _ (fun i k' => kv_ok sz k' /\ kv_static k' = kv_static k /\
    kv_pool k' = kv_pool k2 /\ kv_pg_enabled k' = kv_pg_enabled k2 /\ kv_sc_info k' = kv_sc_info k2 /\
    (forall st, st ∈ take i strms -> kv_cells k' !! st = kv_cells k !! st) /\
    (forall st, st ∉ take i strms -> kv_cells k' !! st = kv_cells k1 !! st) /\
    (kv_n_stream k = 1%nat -> (0 < i)%nat -> kv_heads k' = kv_heads k)))|].
  - split_and!; try done; [set_solver|by rewrite S2|lia].
  - intros s k' Hs (K' & H1 & H2 & H3 & H4 & H5 & H6 & H7).
    destruct (slot_stream sz k u si _ s K P Hs) as (strm & idxs & c & Q1 & Q2 & Q3 & W & Ec & HT).
    destruct (Hsc s strm idxs c Q1 Q2 Q3) as (sc & L1 & L2).
    assert (Hst : (strm < kv_n_stream k)%nat) by by eapply (po_strm _ _ _ _ P).
    destruct (kv_stream sz k1 strm (pl_ok _ _ _ _ _ Pl)) as (c1 & _ & Q4 & _).
    { by rewrite (static_n k k1) by apply Pl. }
    assert (Hnew : strm ∉ take s strms).
    { intros (j & Hj & Hlt)%elem_of_take.
      pose proof (NoDup_lookup strms j s strm (po_nd _ _ _ _ P) Hj Q1). lia. }
    destruct (kv_stream sz k strm K Hst) as (c' & h0 & Hc' & Hh0 & _ & Hsz0 & Ht & _ & Hle0).
    assert (c' = c) as -> by congruence. clear Hc'.
    destruct (lookup_lt_is_Some_2 (kv_heads k) s) as [h Hh].
    { rewrite (ko_heads _ _ K). eapply Nat.lt_le_trans; [exact Hs|].
      rewrite <- (length_seq (kv_n_stream k) 0). apply submseteq_length, NoDup_submseteq; [apply P|].
      intros x [j Hj]%list_elem_of_lookup. apply elem_of_seq.
      pose proof (po_strm _ _ _ _ P j x Hj). lia. }
    fold strms in Q1. fold strms. rewrite (proj2 (vec_get_ok _ _ _) Q1), (proj2 (vec_get_ok _ _ _) Q2). simpl.
    rewrite <- (H6 strm Hnew) in Q4.
    rewrite (proj2 (vec_get_ok _ _ _) Q4), (proj2 (vec_get_ok _ _ _) L1). simpl.
    rewrite (H6 strm Hnew) in Q4.
    rewrite (restore_cells sz k u si k1 s strm idxs c c1 sc) by done. simpl.
    rewrite (proj2 (vec_get_ok _ _ _) Hh). simpl.
    rewrite (sat_put sz k' strm c h) by (done || by rewrite (static_n k k')). apply sat_ok.
    split_and!; simpl; try done.
    + apply kv_ok_put; [done|done|done|done|]. by eapply (ko_head _ _ K).
    + intros st. rewrite Nat.add_1_r, (take_S_r _ _ strm) by done. intros [Hst'|Hst']%elem_of_app.
      * rewrite list_lookup_insert_ne by set_solver. by apply H5.
      * apply list_elem_of_singleton in Hst' as ->.
        rewrite list_lookup_insert_eq by (rewrite (ko_len _ _ K'), (static_n k k'); done). done.
    + intros st. rewrite Nat.add_1_r, (take_S_r _ _ strm) by done. intros Hst'.
      rewrite list_lookup_insert_ne by set_solver. apply H6. set_solver.
    + intros Hone _. assert (strm = 0%nat) as -> by lia.
      assert (s = 0%nat) as ->.
      { apply (NoDup_lookup strms s 0 0%nat); [apply P|done|].
        destruct strms as [|x r] eqn:Er; [done|]. simpl. f_equal.
        pose proof (po_strm _ _ _ _ P 0%nat x) as Hx. fold strms in Hx. rewrite Er in Hx. specialize (Hx eq_refl). lia. }
      pose proof (ko_heads _ _ K) as HL. pose proof (ko_heads _ _ K') as HL'.
      rewrite (static_n k k'), Hone in HL' by done. rewrite Hone in HL.
      destruct (kv_heads k) as [|a [|? ?]], (kv_heads k') as [|b [|? ?]]; simplify_eq/=. done.
  - intros k3 (K3 & H1 & H2 & H3 & H4 & H5 & H6 & H7). split_and!; try done.
    + split; [done|]. apply list_eq. intros st. destruct (decide (st ∈ strms)) as [Hin|Hout].
      * apply H5. by rewrite take_ge.
      * rewrite H6 by by rewrite take_ge. by apply (placement_other sz k u si).
    + intros Hone. apply H7; [done|]. pose proof (po_ne _ _ _ _ P). fold strms in H. destruct strms; [done|simpl; lia].
Qed.

(** ** The whole of [prepare] *)

(** The saved states of a forward pass from [k] to [k']. *)
Inductive chain (sz : nat) : kv_cache -> list (llama_ubatch E) -> list prep_state -> kv_cache -> Prop :=
  | chain_nil k : chain sz k [] [] k
  | chain_cons k u us si saved k1 sts k' :
      slot_ok sz k u si -> place_ok k u si (snd (slot_dims k u)) -> empty_targets k si ->
      cache_apply_ubatch k si u = Ok k1 -> placement sz k u si k1 -> save_cells k si = Ok saved ->
      chain sz k1 us sts k' -> chain sz k (u :: us) (mk_prep si (kv_heads k) saved :: sts) k'.

(** The slots are the right ones for the micro-batches, applied in this order. *)
Inductive fits (sz : nat) : kv_cache -> list (llama_ubatch E) -> list slot_info -> Prop :=
  | fits_nil k : fits sz k [] []
  | fits_cons k u us si sis k1 :
      slot_ok sz k u si -> place_ok k u si (snd (slot_dims k u)) -> empty_targets k si ->
      cache_apply_ubatch k si u = Ok k1 -> placement sz k u si k1 -> fits sz k1 us sis -> fits sz k (u :: us) (si :: sis).

(** The cache after these micro-batches have been placed in these slots. *)
Fixpoint place_all (k : kv_cache) (us : list (llama_ubatch E)) (sis : list slot_info) : res kv_cache :=
  match us, sis with
  | [], [] => Ok k
  | u :: us, si :: sis => k ← cache_apply_ubatch k si u; place_all k us sis
  | _, _ => Err OutOfRange
  end.

(** Some first micro-batches fit and, when they have been placed, the next one has no slot. *)
Definition stuck (sz : nat) (k : kv_cache) (us : list (llama_ubatch E)) : Prop :=
  exists us1 u us2 sis k1, us = us1 ++ u :: us2 /\ fits sz k us1 sis /\ place_all k us1 sis = Ok k1 /\ no_slot k1 u.

Definition pos_bounded (k : kv_cache) : Prop :=
  forall s a, (s < kv_n_stream k)%nat -> a ∈ stream_cells k s -> a_pos a < INT32_MAX.

Lemma swa_none k : kv_swa_type k = LLAMA_SWA_TYPE_NONE -> pos_bounded k ->
  forall s, (s < kv_n_stream k)%nat -> swa_ok k (stream_cells k s).
Proof. intros Hn Hb s Hs. split; [by rewrite Hn|intros a Ha; by apply (Hb s a)]. Qed.

Lemma placement_bounded sz k u si k1 :
  place_ok k u si (snd (slot_dims k u)) -> ubatch_ok k u -> placement sz k u si k1 ->
  pos_bounded k -> pos_bounded k1.
Proof.
  intros P U [_ Hst [A B] _ _ _ _] Hb s a Hs [i Hi]%list_elem_of_lookup.
  rewrite (static_n k k1) in Hs by done. destruct (target_dec si s i) as [(t & ii & T)|Hno].
  - destruct (po_cell _ _ _ _ P t ii s i T) as (b & Hb' & _), (target_pos k u si _ t ii s i P T) as [H1 H2].
    rewrite (A t ii s i b H2 H1 T Hb') in Hi. simplify_eq. simpl. by apply U.
  - rewrite B in Hi by auto. apply (Hb s); [done|]. by eapply list_elem_of_lookup_2.
Qed.

Lemma static_swa k k' : kv_static k' = kv_static k -> kv_swa_type k' = kv_swa_type k.
Proof. unfold kv_static. congruence. Qed.

Lemma static_ubatch k k' u : kv_static k' = kv_static k -> ubatch_ok k u -> ubatch_ok k' u.
Proof.
  intros S. set (k0 := with_cells (kv_cells k') k). intros U.
  assert (U0 : ubatch_ok k0 u) by (destruct U as [[] ? ? ? ? ?]; split; [split|..]; done).
  by apply (same_cells_ubatch k0 k').
Qed.

Lemma chain_fits sz k us sts k' : chain sz k us sts k' -> fits sz k us (ps_sinfo <$> sts).
Proof. induction 1; simpl; econstructor; eauto. Qed.

Lemma chain_place sz k us sts k' : chain sz k us sts k' -> place_all k us (ps_sinfo <$> sts) = Ok k'.
Proof. induction 1 as [k|k u us si saved k1 sts k' _ _ _ Ha _ _ _ IH]; cbn; [done|]. by rewrite Ha. Qed.

Lemma same_cells_place k k0 u si n : same_cells k k0 -> place_ok k u si n -> place_ok k0 u si n.
Proof.
  intros S [? ? ? ? H5 ? H7 ? ?]. split; try done.
  - intros s strm Hs. rewrite (static_n k k0) by apply S. by eapply H5.
  - intros s ii strm idx T. rewrite (same_cells_stream k k0 strm S). by eapply H7.
Qed.

Lemma fits_same sz k us sis :
  fits sz k us sis -> forall k0, kv_ok sz k -> kv_ok sz k0 -> same_cells k k0 -> fits sz k0 us sis.
Proof.
  induction 1 as [k|k u us si sis k1 Hs P He Ha Pl Hf IH]; intros k0 K K0 S; [constructor|].
  assert (P0 : place_ok k0 u si (snd (slot_dims k0 u))).
  { rewrite (same_cells_dims k k0 u S). by apply (same_cells_place k). }
  assert (He0 : empty_targets k0 si).
  { intros s ii strm idx a T. rewrite (same_cells_stream k k0 strm S). by apply (He s ii). }
  destruct (proj1 (sat_exists _ _) (sat_placement sz k0 u si K0 P0 He0)) as (k10 & Ha0 & Pl0).
  econstructor; [by apply (same_cells_slot_ok sz k)|done|done|exact Ha0|done|].
  apply IH; [apply Pl|apply Pl0|]. destruct Pl, Pl0. rewrite (same_cells_dims k k0 u S) in *.
  by eapply (placed_unique sz k k0 u si).
Qed.

Lemma chain_end sz k us sts k' :
  chain sz k us sts k' -> kv_ok sz k -> kv_ok sz k' /\ kv_static k' = kv_static k /\
    kv_pool k' = kv_pool k /\ kv_pg_enabled k' = kv_pg_enabled k /\ kv_sc_info k' = kv_sc_info k.
Proof.
  induction 1 as [k|k u us si saved k1 sts k' Hs P He Ha Pl Hsv Hf IH]; intros K; [by split_and!|].
  destruct Pl. destruct IH as (? & ? & ? & ? & ?); [done|]. split_and!; congruence.
Qed.

(** The forward pass: every micro-batch placed, or stopped at one without a slot. *)
Lemma sat_prepare_fwd sz us : forall k sts,
  kv_ok sz k -> (0 < sz)%nat -> kv_swa_type k = LLAMA_SWA_TYPE_NONE -> pos_bounded k ->
  Forall (ubatch_ok k) us ->
  sat (prepare_fwd k us sts) (fun r => exists us1 new, r.1.2 = sts ++ new /\ chain sz k us1 new r.1.1 /\
    if r.2 then us1 = us else exists u us2, us = us1 ++ u :: us2 /\ no_slot r.1.1 u).
Proof.
  induction us as [|u us IH]; intros k sts K Hsz Hn Hb HU; simpl.
  { apply sat_ok. exists [], []. simpl. rewrite app_nil_r. split_and!; [done|constructor|done]. }
  apply Forall_cons in HU as [U HU].
  assert (SW := swa_none k Hn Hb).
  eapply sat_step; [by apply (sat_find_slot sz); [|apply U|..]|].
  intros [si|] Hs.
  2:{ apply sat_ok. exists [], []. simpl. rewrite app_nil_r. split_and!; [done|constructor|]. by exists u, us. }
  assert (P := slot_place sz k u si K U Hs SW).
  assert (He : empty_targets k si) by exact (slot_empty sz k u si K U Hs Hn SW).
  destruct (save_cells_ok sz k u si _ K P He) as (saved & Hsv & _). rewrite Hsv. simpl.
  destruct (proj1 (sat_exists _ _) (sat_placement sz k u si K P He)) as (k1 & Ha & Pl).
  rewrite Ha. simpl. pose proof (pl_static _ _ _ _ _ Pl) as Hst.
  eapply sat_mono; [apply IH|].
  - apply Pl.
  - done.
  - by rewrite (static_swa k k1).
  - by eapply placement_bounded.
  - eapply Forall_impl; [exact HU|]. intros u' Hu'. by apply (static_ubatch k).
  - intros [[k' sts'] ok] (us1 & new & -> & Hc & Hr). simpl in *.
    exists (u :: us1), (mk_prep si (kv_heads k) saved :: new). rewrite <- app_assoc.
    split_and!; [done|by econstructor|]. destruct ok; [by subst|].
    destruct Hr as (u' & us2 & -> & Hno). by exists u', us2.
Qed.

(** The backward pass. *)
Lemma sat_unwind sz k us sts k' :
  chain sz k us sts k' -> kv_ok sz k -> forall k2, kv_ok sz k2 -> same_cells k' k2 ->
  sat (mfor restore_state (rev sts) k2) (fun k3 => kv_ok sz k3 /\ same_cells k k3 /\
    kv_pool k3 = kv_pool k2 /\ kv_pg_enabled k3 = kv_pg_enabled k2 /\ kv_sc_info k3 = kv_sc_info k2 /\
    (kv_n_stream k = 1%nat -> if decide (sts = []) then k3 = k2 else kv_heads k3 = kv_heads k)).
Proof.
  induction 1 as [k|k u us si saved k1 sts k' Hs P He Ha Pl Hsv Hf IH]; intros K k2 K2 S; simpl.
  { apply sat_ok. by split_and!. }
  rewrite mfor_app. eapply sat_step; [apply IH; [apply Pl|done|done]|].
  intros k3 (K3 & S3 & E1 & E2 & E3 & _). simpl.
  eapply sat_step; [by apply (sat_restore sz k u si k1)|]. intros k4 (K4 & S4 & F1 & F2 & F3 & F4).
  apply sat_ok. split_and!; [done|done|congruence|congruence|congruence|done].
Qed.

Lemma sat_prepare sz k us :
  kv_ok sz k -> (0 < sz)%nat -> kv_swa_type k = LLAMA_SWA_TYPE_NONE -> pos_bounded k ->
  Forall (ubatch_ok k) us -> us <> [] ->
  sat (cache_prepare k us) (fun r => kv_ok sz r.1 /\ same_cells k r.1 /\
    kv_pool r.1 = kv_pool k /\ kv_pg_enabled r.1 = kv_pg_enabled k /\ kv_sc_info r.1 = kv_sc_info k /\
    (kv_n_stream k = 1%nat -> kv_heads r.1 = kv_heads k) /\
    match r.2 with
    | Some sis => fits sz r.1 us sis
    | None => stuck sz k us end).
Proof.
  intros K Hsz Hn Hb HU Hne. unfold cache_prepare.
  eapply sat_step; [by apply (sat_prepare_fwd sz us k [])|].
  intros [[k1 sts] ok] (us1 & new & Hsts & Hc & Hr). simpl in *. subst sts.
  rewrite assert_ok.
  2:{ destruct ok; [|by rewrite orb_true_r]. subst us1. case_bool_decide as Hnil; [|done].
      subst new. inversion Hc; subst. done. }
  simpl. destruct (chain_end sz k us1 new k1 Hc K) as (K1 & C1 & C2 & C3 & C4).
  eapply sat_step; [by apply (sat_unwind sz k us1 new k1 Hc K k1)|].
  intros k3 (K3 & S3 & E1 & E2 & E3 & E4). apply sat_ok. simpl.
  split_and!; [done|done|congruence|congruence|congruence| |].
  - intros Hone. specialize (E4 Hone). case_decide as Hnil; [|done]. subst. by inversion Hc; subst.
  - pose proof (chain_place sz k us1 new k1 Hc) as Hpl. apply chain_fits in Hc. destruct ok; [subst us1; by apply (fits_same sz k)|].
    destruct Hr as (u & us2 & -> & Hno). exists us1, u, us2, (ps_sinfo <$> new), k1. by split_and!.
Qed.
End prepare.
