(* ===== verification/KvUbatchProps.v ===== *)
(** * Properties of finding slots, placing micro-batches and [prepare] *)

From S2P Require Import Prelude KvCells KvCellsInv KvCellsSpec Batch Pages PagesTheory KvCache KvCacheTheory.
From S2P Require Import KvCacheProps KvSlots KvPlace KvPrepare.

(** ** Examples *)

(** One token at position 7 for sequences 2 and 4. *)
Definition demo_ubatch : llama_ubatch Z :=
  mk_ubatch false 1 1 1 2 1 (Some [42]) None [7] [2] [[2; 4]] [2; 4] [] [1].

Lemma demo_ubatch_ok : ubatch_ok demo_cache demo_ubatch.
Proof.
  assert (Hd : slot_dims demo_cache demo_ubatch = (1%nat, 1%nat)) by (vm_compute; reflexivity).
  assert (Hn : kv_n_stream demo_cache = 1%nat) by (vm_compute; reflexivity).
  split; rewrite ?Hd; simpl; try done; try lia.
  - split; rewrite ?Hd, ?Hn; simpl; [lia|lia|]. intros s Hs. assert (s = 0%nat) as -> by lia.
    exists 2. split_and!; [done|by apply id_ok_small|lia].
  - intros i Hi. assert (i = 0%nat) as -> by lia. split.
    + exists 7. split; [done|lia].
    + done.
    + exists [2; 4]. split_and!; [done|done| | |done].
      * apply NoDup_ListNoDup. repeat constructor; simpl; lia.
      * by repeat constructor; apply id_ok_small.
  - intros i Hi. assert (i = 0%nat) as -> by lia. vm_compute. done.
Qed.

Lemma demo_stream0 s : (s < kv_n_stream demo_cache)%nat -> stream_cells demo_cache s = demo_list.
Proof.
  assert (kv_n_stream demo_cache = 1%nat) as -> by (vm_compute; reflexivity).
  intros Hs. assert (s = 0%nat) as -> by lia. vm_compute. reflexivity.
Qed.

Lemma demo_bounded : pos_bounded demo_cache.
Proof.
  intros s a Hs. rewrite demo_stream0 by done. revert a. apply Forall_forall.
  apply demo_forall; vm_compute; reflexivity.
Qed.

Lemma demo_swa s : (s < kv_n_stream demo_cache)%nat -> swa_ok demo_cache (stream_cells demo_cache s).
Proof. apply swa_none; [vm_compute; reflexivity|exact demo_bounded]. Qed.

(** ** [find_slot] *)

(** C6: [find_slot] (not continuous) always terminates. When it returns a slot, every
    sequence of the micro-batch gets as many different cells of its stream as it has
    tokens, each inside the stream and either empty or masked out by the sliding window of
    its only sequence, and [s0 .. s1] covers the streams. When it returns no slot, some
    sequence really has fewer such cells than tokens. *)
Theorem find_slot_ok {E} sz k (u : llama_ubatch E)
    (K : kv_ok sz k) (Sh : ubatch_shape k u) (Hsz : (0 < sz)%nat)
    (SW : forall s, (s < kv_n_stream k)%nat -> swa_ok k (stream_cells k s)) :
  exists r, cache_find_slot k u false = Ok r /\
    match r with Some si => slot_ok sz k u si | None => no_slot k u end.
Proof. apply sat_exists. by apply sat_find_slot. Qed.

Lemma find_slot_ok_witness :
  exists si, cache_find_slot demo_cache demo_ubatch false = Ok (Some si) /\
    slot_ok 4 demo_cache demo_ubatch si.
Proof.
  destruct (find_slot_ok 4 demo_cache demo_ubatch) as (r & Hr & Hs).
  - exact demo_cache_ok.
  - apply demo_ubatch_ok.
  - lia.
  - exact demo_swa.
  - assert (cache_find_slot demo_cache demo_ubatch false = Ok r) as E by exact Hr.
    vm_compute in E. injection E as <-. eexists. split; [exact Hr|exact Hs].
Defined.

(** The continuous search always terminates too, and a slot it returns is a block of
    consecutive usable cells inside the stream. *)
Theorem find_slot_cont_ok sz k s n
    (K : kv_ok sz k) (Hs : (s < kv_n_stream k)%nat) (Hn : (0 < n)%nat)
    (SW : swa_ok k (stream_cells k s)) :
  exists r, find_slot_stream k s n true = Ok r /\
    forall idxs, r = Some idxs -> exists j, idxs = seq j n /\ (j + n <= sz)%nat /\
      forall i, i ∈ idxs -> usable_at k (stream_cells k s) i = true.
Proof. apply sat_exists. by apply find_slot_stream_cont. Qed.

Lemma find_slot_cont_ok_witness :
  exists r, find_slot_stream demo_cache 0 1 true = Ok r.
Proof.
  destruct (find_slot_cont_ok 4 demo_cache 0 1) as (r & Hr & _).
  - exact demo_cache_ok.
  - vm_compute. lia.
  - lia.
  - apply demo_swa. vm_compute. lia.
  - exists r. exact Hr.
Defined.

(** ** [apply_ubatch] *)

(** [apply_ubatch] on a slot that [find_slot] returned never stops, with or without a
    sliding window (overwritten cells are cleared and the positions they leave behind are
    purged), and it keeps the invariant of the cache. *)
Lemma apply_ubatch_safe {E} sz k (u : llama_ubatch E) si
    (K : kv_ok sz k) (U : ubatch_ok k u) (S : slot_ok sz k u si)
    (SW : forall s, (s < kv_n_stream k)%nat -> swa_ok k (stream_cells k s)) :
  exists k', cache_apply_ubatch k si u = Ok k' /\ kv_ok sz k'.
Proof.
  destruct (proj1 (sat_exists _ _) (sat_apply_ubatch sz k u si _ K (slot_place sz k u si K U S SW)))
    as (k' & Hk & K' & _). by exists k'.
Qed.

Lemma demo_slot_ok : slot_ok 4 demo_cache demo_ubatch (mk_slot 0 0 [0%nat] [[3%nat]]).
Proof.
  unfold slot_ok. replace (slot_dims demo_cache demo_ubatch) with (1%nat, 1%nat) by (vm_compute; reflexivity).
  split_and!; [done|done|]. intros s q Hs Hq. assert (s = 0%nat) as -> by lia. simpl in Hq. simplify_eq.
  split_and!; [vm_compute; reflexivity|vm_compute; lia|vm_compute; lia|].
  exists [3%nat]. split_and!; [done|done|apply NoDup_singleton|].
  intros i ->%list_elem_of_singleton. split; [lia|]. vm_compute. reflexivity.
Qed.

Lemma apply_ubatch_safe_witness :
  exists k', cache_apply_ubatch demo_cache (mk_slot 0 0 [0%nat] [[3%nat]]) demo_ubatch = Ok k' /\ kv_ok 4 k'.
Proof.
  apply (apply_ubatch_safe 4 demo_cache demo_ubatch).
  - exact demo_cache_ok.
  - exact demo_ubatch_ok.
  - exact demo_slot_ok.
  - exact demo_swa.
Defined.

(** C7: Without a sliding window, [apply_ubatch] on a slot that [find_slot] returned writes
    exactly the tokens: the cell of token [i] holds its position, extension and sequences
    with no pending shift, every other cell is unchanged, and no page is released. *)
Theorem apply_ubatch_exact {E} sz k (u : llama_ubatch E) si
    (K : kv_ok sz k) (U : ubatch_ok k u) (S : slot_ok sz k u si)
    (Hn : kv_swa_type k = LLAMA_SWA_TYPE_NONE) (Hb : pos_bounded k) :
  exists k', cache_apply_ubatch k si u = Ok k' /\ kv_ok sz k' /\ kv_pool k' = kv_pool k /\
    placed k u si (snd (slot_dims k u)) (ub_n_tokens u) k'.
Proof.
  pose proof (swa_none k Hn Hb) as SW. pose proof (slot_place sz k u si K U S SW) as P.
  pose proof (slot_empty sz k u si K U S Hn SW) as He.
  destruct (proj1 (sat_exists _ _) (sat_placement sz k u si K P He)) as (k' & Hk & []). by exists k'.
Qed.

Lemma apply_ubatch_exact_witness :
  exists k', cache_apply_ubatch demo_cache (mk_slot 0 0 [0%nat] [[3%nat]]) demo_ubatch = Ok k' /\
    stream_cells k' 0 !! 3%nat = Some (mk_acell 7 ext_reset 0 {[2; 4]}).
Proof.
  destruct (apply_ubatch_exact 4 demo_cache demo_ubatch (mk_slot 0 0 [0%nat] [[3%nat]]))
    as (k' & Hk & _ & _ & Hp & _).
  - exact demo_cache_ok.
  - exact demo_ubatch_ok.
  - exact demo_slot_ok.
  - vm_compute. reflexivity.
  - exact demo_bounded.
  - exists k'. split; [exact Hk|].
    rewrite (Hp 0%nat 0%nat 0%nat 3%nat acell_empty); [vm_compute; reflexivity|vm_compute; lia|vm_compute; lia| |].
    + split; [reflexivity|]. exists [3%nat]. split; reflexivity.
    + vm_compute. reflexivity.
Defined.

(** ** [prepare] *)

(** C9: [prepare], without a sliding window, leaves the cache as it found it: the same cells
    with all their derived indices, the same page pool and pending copies, and, with one
    stream, the same search head. If it succeeds, the slots it returns fit the
    micro-batches applied in order from that state; if it fails, some prefix fits and, in the
    cache that results from placing exactly this prefix, the next micro-batch has no slot:
    one of its sequences has fewer usable cells than tokens. *)
Theorem prepare_restores {E} sz k (us : list (llama_ubatch E))
    (K : kv_ok sz k) (Hsz : (0 < sz)%nat) (Hn : kv_swa_type k = LLAMA_SWA_TYPE_NONE)
    (Hb : pos_bounded k) (HU : Forall (ubatch_ok k) us) (Hne : us <> []) :
  exists k' r, cache_prepare k us = Ok (k', r) /\
    kv_cells k' = kv_cells k /\ kv_pool k' = kv_pool k /\ kv_sc_info k' = kv_sc_info k /\
    (kv_n_stream k = 1%nat -> kv_heads k' = kv_heads k) /\
    match r with
    | Some sis => fits sz k' us sis
    | None => stuck sz k us
    end.
Proof.
  destruct (proj1 (sat_exists _ _) (sat_prepare sz k us K Hsz Hn Hb HU Hne))
    as ([k' r] & Hk & _ & [_ Hc] & Hp & _ & Hi & Hh & Hr).
  exists k', r. by split_and!.
Qed.

Lemma prepare_restores_witness :
  exists k' r, cache_prepare demo_cache [demo_ubatch] = Ok (k', r) /\ kv_cells k' = kv_cells demo_cache /\
    kv_heads k' = kv_heads demo_cache.
Proof.
  destruct (prepare_restores 4 demo_cache [demo_ubatch]) as (k' & r & Hk & Hc & _ & _ & Hh & _).
  - exact demo_cache_ok.
  - lia.
  - vm_compute. reflexivity.
  - exact demo_bounded.
  - apply Forall_cons. split; [exact demo_ubatch_ok|apply Forall_nil; exact I].
  - discriminate.
  - exists k', r. split; [exact Hk|]. split; [exact Hc|]. apply Hh. vm_compute. reflexivity.
Defined.

(** A two-stream cache in which sequence 0 has two cells and sequence 1 one, both placed
    through [find_slot] and [apply_ubatch]. *)
Definition seq_ubatch (q : Z) (ps : list Z) : llama_ubatch Z :=
  mk_ubatch true (length ps) (length ps) 1 1 1 (Some ((fun _ => 0) <$> ps)) None ps ((fun _ => 1) <$> ps)
    ((fun _ => [q]) <$> ps) [q] [] ((fun _ => 1) <$> ps).

Definition place_seq (k : kv_cache) (q : Z) (ps : list Z) : res kv_cache :=
  r ← cache_find_slot k (seq_ubatch q ps) false;
  match r with Some si => cache_apply_ubatch k si (seq_ubatch q ps) | None => Ok k end.

(** With several streams [prepare] does not restore the search heads: the saved heads are
    indexed by the position of the stream in the slot info, not by the stream, so after
    preparing a micro-batch for sequence 1 alone the head of stream 1 is the old head of
    stream 0. *)
Theorem prepare_moves_heads :
  sat (k ← cache_new false 4 2 1 0 LLAMA_SWA_TYPE_NONE 1 0 false;
       k ← place_seq k 0 [0; 1]; k ← place_seq k 1 [0];
       r ← cache_prepare k [seq_ubatch 1 [1]]; Ok (k, fst r))
    (fun kk => kv_cells (snd kk) = kv_cells (fst kk) /\
       kv_heads (fst kk) = [2%nat; 1%nat] /\ kv_heads (snd kk) = [2%nat; 2%nat]).
Proof. vm_compute. split_and!; reflexivity. Qed.
