(* ===== verification/KvContext.v ===== *)
(** * A step of the memory context: [llama_kv_cache_context::apply]

    The attention window [n_kv] covers every used cell of the streams of the slot, and
    after the step every cell of the micro-batch has a physical page. *)

From S2P Require Import Prelude KvCells KvCellsInv KvCellsSpec Batch Pages PagesTheory KvCache KvCacheTheory.
From S2P Require Import KvCacheProps KvSlots KvPlace KvPrepare KvUbatchProps.

(** ** [get_n_kv] *)

Lemma used_max_p1_ge c i a :
  wf c -> abs_cells c !! i = Some a -> a_pos a <> -1 -> Z.of_nat i + 1 <= cells_used_max_p1 c.
Proof.
  intros W Ha Hne. rewrite cells_used_max_p1_ok by done.
  assert (Hin : Z.of_nat i ∈ used_indices (abs_cells c)).
  { apply elem_of_used_indices. split; [lia|]. rewrite Nat2Z.id. eauto. }
  destruct (list_max _) as [m|] eqn:E; simpl.
  - apply list_max_Some in E as [_ Hm]. specialize (Hm _ Hin). lia.
  - apply list_max_None in E. rewrite E in Hin. by apply not_elem_of_nil in Hin.
Qed.

Lemma used_max_p1_nonneg c : wf c -> 0 <= cells_used_max_p1 c.
Proof.
  intros W. rewrite cells_used_max_p1_ok by done. destruct (list_max _) as [m|] eqn:E; simpl; [|done].
  apply list_max_Some in E as [Hm _]. apply elem_of_used_indices in Hm as [? _]. lia.
Qed.

Lemma sat_get_n_kv sz k si :
  kv_ok sz k -> pow2 (Z.max (Z.of_nat (kv_n_pad k)) 256) ->
  (forall s strm, si_strm si !! s = Some strm -> (strm < kv_n_stream k)%nat) ->
  sat (cache_get_n_kv k si) (fun n => 0 <= n <= Z.of_nat sz /\
    forall strm i a, strm ∈ si_strm si -> stream_cells k strm !! i = Some a -> a_pos a <> -1 ->
      Z.of_nat i < n).
Proof.
  intros K Hpad Hs. unfold cache_get_n_kv. set (np := Z.max _ 256) in *.
  eapply sat_mono; [apply (sat_for _ (fun j n => 0 <= n <= Z.of_nat sz /\
    forall strm i a, strm ∈ take j (si_strm si) -> stream_cells k strm !! i = Some a -> a_pos a <> -1 ->
      Z.of_nat i < n))|].
  - split; [lia|]. intros strm i a H. by apply not_elem_of_nil in H.
  - intros j n Hj [Hn Hc]. destruct (lookup_lt_is_Some_2 (si_strm si) j Hj) as [strm Hstrm].
    destruct (kv_stream sz k strm K (Hs j strm Hstrm)) as (c & _ & Hlc & _ & W & Hsz & _ & Ec & _).
    rewrite (proj2 (vec_get_ok _ _ _) Hstrm). simpl.
    rewrite (proj2 (vec_get_ok _ _ _) Hlc). simpl. apply sat_ok. rewrite Hsz.
    pose proof (used_max_p1_nonneg c W) as Hnn. destruct (ggml_pad_spec _ np Hnn Hpad) as [Hpd _].
    split; [lia|]. intros strm' i a. rewrite Nat.add_1_r, (take_S_r _ _ strm) by done.
    intros [Hin|Hin]%elem_of_app Ha Hne.
    + specialize (Hc strm' i a Hin Ha Hne). lia.
    + apply list_elem_of_singleton in Hin as ->. rewrite Ec in Ha.
      pose proof (used_max_p1_ge c i a W Ha Hne). apply lookup_lt_Some in Ha.
      rewrite <- cells_size_abs, Hsz in Ha by done. lia.
  - intros n [Hn Hc]. split; [done|]. intros strm i a Hin. apply (Hc strm i a). by rewrite take_ge.
Qed.

(** ** [apply] *)

Section apply.
Context {E F : Type} (flt : F -> F -> bool) (fmax : F) (score : kv_cache -> nat -> nat -> F).

Lemma place_sinfo sz k (u : llama_ubatch E) si n bs :
  kv_ok sz k -> place_ok k u si n -> (0 < bs)%nat -> sinfo_ok (kv_n_stream k) (n_pages sz bs) bs si.
Proof.
  intros K P Hbs. split; [apply P|apply P| |].
  - intros s [j Hj]%list_elem_of_lookup. by eapply (po_strm _ _ _ _ P).
  - intros s idxs c Hs [ii Hi]%list_elem_of_lookup.
    destruct (lookup_lt_is_Some_2 (si_strm si) s) as [strm Hstrm].
    { rewrite <- (po_len _ _ _ _ P). by eapply lookup_lt_Some. }
    assert (Hc : (c < sz)%nat) by (apply (target_bound sz k u si n s ii strm); [done|done|]; split; eauto).
    unfold n_pages. apply Nat.Div0.div_lt_upper_bound.
    pose proof (Nat.div_mod_eq (sz + bs - 1) bs). pose proof (Nat.mod_upper_bound (sz + bs - 1) bs). nia.
Qed.

(** A cell of a paged cache is backed by a block of the pool. *)
Definition backed (k : kv_cache) (s c : nat) : Prop :=
  kv_pg_enabled k = true -> cell_mapped (kv_pool k) s c.

Lemma sat_context_apply sz k (u : llama_ubatch E) si :
  kv_ok sz k -> ubatch_ok k u -> slot_ok sz k u si -> kv_swa_type k = LLAMA_SWA_TYPE_NONE ->
  pos_bounded k -> pow2 (Z.max (Z.of_nat (kv_n_pad k)) 256) ->
  sat (context_apply flt fmax score k si u) (fun r => kv_ok sz r.1 /\
    placed k u si (snd (slot_dims k u)) (ub_n_tokens u) r.1 /\
    0 <= r.2 <= Z.of_nat sz /\
    (forall strm i a, strm ∈ si_strm si -> stream_cells r.1 strm !! i = Some a -> a_pos a <> -1 ->
       Z.of_nat i < r.2) /\
    (forall s ii strm idx, targets si s ii strm idx -> backed r.1 strm idx) /\
    (kv_budget k = 0%nat -> forall s c, kv_pg_enabled k = true -> cell_mapped (kv_pool k) s c ->
       cell_mapped (kv_pool r.1) s c)).
Proof.
  intros K U S Hn Hb Hpad. pose proof (swa_none k Hn Hb) as SW.
  pose proof (slot_place sz k u si K U S SW) as P. pose proof (slot_empty sz k u si K U S Hn SW) as He.
  unfold context_apply. eapply sat_step; [by apply (sat_placement sz k u si K P He)|].
  intros k1 [K1 Hst Pl Hpool Hpg Hsc Hsh]. pose proof (static_n k k1 Hst) as Hns.
  eapply sat_step; [apply (sat_get_n_kv sz k1 si K1)|].
  { unfold kv_static in Hst. by assert (kv_n_pad k1 = kv_n_pad k) as -> by congruence. }
  { intros s strm Hs. rewrite Hns. by eapply (po_strm _ _ _ _ P). }
  intros n_kv [Hkv Hcov]. destruct (kv_pg_enabled k1) eqn:Eg; simpl.
  2:{ apply sat_ok. split_and!; simpl; try done; try lia.
      - unfold backed. congruence.
      - intros _ s c Hen. congruence. }
  pose proof (ko_pool _ _ K1 Eg) as O.
  pose proof (place_sinfo sz k u si _ (pg_block_size (kv_pool k1)) K P (pool_bs _ _ _ O)) as Hsi.
  rewrite <- Hns in Hsi.
  apply sat_bind, sat_bind.
  eapply sat_mono; [apply (sat_pg_alloc flt fmax (score k1) (kv_budget k1) _ _ _ _ O Hsi)|].
  intros P' (O' & Ebs & Hmap & Hkeep). apply sat_ok, sat_ok. simpl. split_and!.
  - apply kv_ok_pool; [done|done|]. by rewrite Ebs.
  - exact Pl.
  - lia.
  - lia.
  - exact Hcov.
  - intros s ii strm idx (H1 & idxs & H2 & H3) _. simpl.
    apply (Hmap s strm idxs idx); [done|done|by eapply list_elem_of_lookup_2].
  - intros Hbud s c _ (b & Hb1 & Hb2). exists b. split; [|done]. rewrite Ebs, Hpool.
    apply Hkeep; [|by rewrite Hpool|done]. unfold kv_static in Hst. congruence.
Qed.
End apply.

(** C8: One step of a decode, without a sliding window: the micro-batch is placed in the cells
    of its slot and nowhere else, the attention window [n_kv] stays inside the stream and
    covers every used cell of the streams of the slot, and with paging every cell just
    written has a physical page (and no page already mapped is lost when the TriAttention
    budget is off). No step of it can stop. *)
Theorem context_apply_ok {E F} (flt : F -> F -> bool) fmax score sz k (u : llama_ubatch E) si
    (K : kv_ok sz k) (U : ubatch_ok k u) (S : slot_ok sz k u si)
    (Hn : kv_swa_type k = LLAMA_SWA_TYPE_NONE) (Hb : pos_bounded k)
    (Hpad : pow2 (Z.max (Z.of_nat (kv_n_pad k)) 256)) :
  exists k' n_kv, context_apply flt fmax score k si u = Ok (k', n_kv) /\ kv_ok sz k' /\
    placed k u si (snd (slot_dims k u)) (ub_n_tokens u) k' /\
    0 <= n_kv <= Z.of_nat sz /\
    (forall strm i a, strm ∈ si_strm si -> stream_cells k' strm !! i = Some a -> a_pos a <> -1 ->
       Z.of_nat i < n_kv) /\
    (forall s ii strm idx, targets si s ii strm idx -> backed k' strm idx) /\
    (kv_budget k = 0%nat -> forall s c, kv_pg_enabled k = true -> cell_mapped (kv_pool k) s c ->
       cell_mapped (kv_pool k') s c).
Proof.
  destruct (proj1 (sat_exists _ _) (sat_context_apply flt fmax score sz k u si K U S Hn Hb Hpad))
    as ([k' n_kv] & Hk & H). by exists k', n_kv.
Qed.

Lemma context_apply_ok_witness :
  exists k' n_kv, context_apply Nat.ltb 0%nat (fun _ _ _ => 0%nat) demo_cache
      (mk_slot 0 0 [0%nat] [[3%nat]]) demo_ubatch = Ok (k', n_kv) /\ 3 < n_kv <= 4.
Proof.
  destruct (context_apply_ok Nat.ltb 0%nat (fun _ _ _ => 0%nat) 4 demo_cache demo_ubatch
    (mk_slot 0 0 [0%nat] [[3%nat]])) as (k' & n_kv & Hk & _ & Hp & Hn & Hc & _).
  - exact demo_cache_ok.
  - exact demo_ubatch_ok.
  - exact demo_slot_ok.
  - vm_compute. reflexivity.
  - exact demo_bounded.
  - exists 8. split; [lia|]. vm_compute. reflexivity.
  - exists k', n_kv. split; [exact Hk|]. split; [|lia].
    apply (Hc 0%nat 3%nat (token_cell demo_ubatch 0 acell_empty)).
    + simpl. set_solver.
    + apply (proj1 Hp 0%nat 0%nat 0%nat 3%nat acell_empty); [vm_compute; lia|vm_compute; lia| |].
      * split; [reflexivity|]. exists [3%nat]. split; reflexivity.
      * vm_compute. reflexivity.
    + vm_compute. discriminate.
Defined.
