(* ===== verification/KvRows.v ===== *)
(** * Where the K and V data of a cell lives: the index inputs of the attention graph

    The functions [build_input_*] and [set_input_*] of src/src/llama-kv-cache.cpp that
    turn the slot of a micro-batch into row indices of the K and V tensors, the pending
    shifts into an input, and the page table into the table the attention kernel reads;
    and the row at which the per-stream views of the constructor start, which stream
    copies and the saving of a state use.  Filling a tensor is a list: the entries are
    written in order, one after the other.  [v_trans] is the constructor's flag. *)

From S2P Require Import Prelude KvCells Batch Pages KvCache.

(** Rows of the V tensor per stream. *)
Definition v_rows (v_trans : bool) (kv_size block_size : nat) : nat :=
  if negb v_trans then (kv_size + block_size)%nat else kv_size.

(** First row of [k_stream\[s\]] and of [v_stream\[s\]]: views at [s*k->nb\[2\]] and
    [s*v->nb\[2\]]. *)
Definition k_stream_row (kv_size s : nat) : Z := Z.of_nat (s * kv_size).
Definition v_stream_row (v_trans : bool) (kv_size block_size s : nat) : Z :=
  Z.of_nat (s * v_rows v_trans kv_size block_size).

Section rows.
Context {E : Type}.
Implicit Types u : llama_ubatch E.

(** The loops over the streams of the slot and over its cells. *)
Definition fill_slot (si : slot_info) (sz : nat) (f : nat -> nat -> res (list Z)) : res (list Z) :=
  r ← mmap (fun s =>
        strm ← vec_get (si_strm si) s;
        idxs ← vec_get (si_idxs si) s;
        l ← mmap (fun i => idx ← vec_get idxs i; f strm idx) (seq 0 sz);
        Ok (concat l)) (seq 0 (length (si_strm si)));
  Ok (concat r).

(** [offs + sinfo.idxs\[s\]\[i\]] *)
Definition flat_row (k : kv_cache) (strm idx : nat) : res (list Z) :=
  n ← cache_get_size k;
  Ok [u32 (Z.of_nat strm * Z.of_nat n) + Z.of_nat idx].

Definition cache_set_input_k_idxs (k : kv_cache) u (si : slot_info) : res (list Z) :=
  sz ← slot_size si;
  _ ← assert_ (ub_n_tokens u =? sz * length (si_strm si))%nat;
  fill_slot si sz (flat_row k).

(** Through the page table: the page must have been allocated. *)
Definition paged_row (k : kv_cache) (strm idx : nat) : res (list Z) :=
  let P := kv_pool k in
  pblock ← page_at P strm (idx / pg_block_size P);
  _ ← assert_ (0 <=? pblock);
  Ok [phys_row P pblock idx].

(** Transposed: one entry per element of the embedding. *)
Definition trans_row (k : kv_cache) (n_embd_v_gqa : nat) (strm idx : nat) : res (list Z) :=
  kv_size ← cache_get_size k;
  let offs := Z.of_nat strm * Z.of_nat kv_size * Z.of_nat n_embd_v_gqa in
  Ok ((fun j => offs + Z.of_nat j * Z.of_nat kv_size + Z.of_nat idx) <$> seq 0 n_embd_v_gqa).

Definition cache_set_input_v_idxs (k : kv_cache) (v_trans : bool) (n_embd_v_gqa : nat) u
    (si : slot_info) : res (list Z) :=
  sz ← slot_size si;
  _ ← assert_ (ub_n_tokens u =? sz * length (si_strm si))%nat;
  fill_slot si sz
    (if negb v_trans then if kv_pg_enabled k then paged_row k else flat_row k
     else trans_row k n_embd_v_gqa).

(** [set_input_k_shift]: the pending shift of every cell of every stream. *)
Definition cache_set_input_k_shift (k : kv_cache) : res (list Z) :=
  r ← mmap (fun s =>
        c ← vec_get (kv_cells k) s;
        mmap (fun i => e ← cells_is_empty c i; if (e : bool) then Ok 0 else cells_get_shift c i)
          (seq 0 (cells_size c))) (seq 0 (kv_n_stream k));
  Ok (concat r).

(** [build_input_v_page_table]: rows and columns of the table. *)
Definition page_table_dims (k : kv_cache) (n_kv : nat) (si : slot_info) (n_seq : nat) : nat * nat :=
  let ns := (si_s1 si - si_s0 si + 1)%nat in
  (Nat.max ns n_seq, ((n_kv + pg_block_size (kv_pool k) - 1) / pg_block_size (kv_pool k))%nat).

Definition cache_v_page_table (k : kv_cache) (n_kv : nat) (si : slot_info) (n_seq : nat) : res (list Z) :=
  _ ← assert_ (kv_pg_enabled k);
  let '(n_rows, n_lpage) := page_table_dims k n_kv si n_seq in
  v_page_table (kv_pool k) si n_rows n_lpage.
End rows.
