(* ===== verification/KvRowsProps.v ===== *)
(** * The row indices address the cells without clashes *)

From S2P Require Import Prelude KvCells KvCellsInv KvCellsSpec Batch Pages PagesTheory KvCache KvCacheTheory.
From S2P Require Import KvCacheProps KvSlots KvPlace KvPrepare KvUbatchProps KvContext KvRows.

Section rows.
Context {E : Type}.
Implicit Types u : llama_ubatch E.

(** The shape of a slot of [n] cells per stream, whatever the cells hold. *)
Record slot_layout (sz : nat) (k : kv_cache) u (si : slot_info) (n : nat) : Prop := {
  sl_nd     : NoDup (si_strm si);
  sl_ne     : si_strm si <> [];
  sl_len    : length (si_idxs si) = length (si_strm si);
  sl_strm   : forall s strm, si_strm si !! s = Some strm -> (strm < kv_n_stream k)%nat;
  sl_idxs   : forall s idxs, si_idxs si !! s = Some idxs -> length idxs = n /\ NoDup idxs;
  sl_cell   : forall s ii strm idx, targets si s ii strm idx -> (idx < sz)%nat;
  sl_tokens : ub_n_tokens u = (length (si_strm si) * n)%nat
}.

(** The slots of [find_slot] have it, before and after the micro-batch is placed. *)
Lemma place_layout sz k k' u si n :
  kv_ok sz k -> kv_n_stream k' = kv_n_stream k -> place_ok k u si n -> slot_layout sz k' u si n.
Proof.
  intros K Hn P. split; try apply P.
  - rewrite Hn. apply P.
  - intros s ii strm idx. by apply (target_bound sz k u si n).
Qed.

Lemma layout_size sz k u si n : slot_layout sz k u si n -> slot_size si = Ok n.
Proof.
  intros [_ H1 H2 _ H3 _ _]. unfold slot_size. rewrite assert_ok by by apply Nat.eqb_eq. simpl.
  destruct (si_idxs si) as [|l r] eqn:El; [by destruct (si_strm si)|]. simpl.
  by destruct (H3 0%nat l) as [-> _].
Qed.

(** The cells of a slot, in the order of the tokens. *)
Definition slot_cells (si : slot_info) : list (nat * nat) :=
  concat (zip_with (fun s idxs => (fun i => (s, i)) <$> idxs) (si_strm si) (si_idxs si)).

Lemma mmap_seq {A B} (f : A -> res B) (g : A -> B) (l : list A) n :
  length l = n -> (forall x, x ∈ l -> f x = Ok (g x)) ->
  mmap (fun i => x ← vec_get l i; f x) (seq 0 n) = Ok (g <$> l).
Proof.
  intros <- H. assert (Hgen : forall d l', (forall x, x ∈ l' -> f x = Ok (g x)) ->
    mmap (fun i => x ← vec_get (d ++ l') i; f x) (seq (length d) (length l')) = Ok (g <$> l')).
  { intros d l'. revert d. induction l' as [|x l' IH]; intros d Hf; [done|]. simpl.
    assert (vec_get (d ++ x :: l') (length d) = Ok x) as -> by by apply vec_get_ok, list_lookup_middle.
    simpl. rewrite Hf by set_solver. simpl.
    replace (d ++ x :: l') with ((d ++ [x]) ++ l') by by rewrite <- app_assoc.
    specialize (IH (d ++ [x])). rewrite length_app in IH. simpl in IH. rewrite Nat.add_1_r in IH.
    rewrite IH by set_solver. done. }
  by apply (Hgen []).
Qed.

(** What the two loops write: the entries of each cell of the slot, in order. *)
Lemma fill_slot_ok sz k u si n f (g : nat * nat -> list Z) :
  slot_layout sz k u si n -> (forall s ii strm idx, targets si s ii strm idx -> f strm idx = Ok (g (strm, idx))) ->
  fill_slot si n f = Ok (concat (g <$> slot_cells si)).
Proof.
  intros P Hf. unfold fill_slot, slot_cells.
  set (G := fun p : nat * list nat => concat ((fun i => g (p.1, i)) <$> p.2)).
  assert (Hz : mmap (fun s => strm ← vec_get (si_strm si) s; idxs ← vec_get (si_idxs si) s;
      l ← mmap (fun i => idx ← vec_get idxs i; f strm idx) (seq 0 n); Ok (concat l))
      (seq 0 (length (si_strm si))) = Ok (G <$> zip (si_strm si) (si_idxs si))).
  { rewrite <- (mmap_seq (fun p => Ok (G p)) G (zip (si_strm si) (si_idxs si))) with (n := length (si_strm si));
      [|rewrite length_zip_with, (sl_len _ _ _ _ _ P); lia|done].
    assert (Hext : forall l (h1 h2 : nat -> res (list Z)), (forall x, x ∈ l -> h1 x = h2 x) -> mmap h1 l = mmap h2 l).
    { induction l as [|x l IH]; intros h1 h2 H; [done|]. simpl. rewrite H by set_solver.
      destruct (h2 x); [|done]. simpl. by rewrite (IH h1 h2) by set_solver. }
    apply Hext. intros s Hs%elem_of_seq.
    destruct (lookup_lt_is_Some_2 (si_strm si) s) as [strm Hstrm]; [lia|].
    destruct (lookup_lt_is_Some_2 (si_idxs si) s) as [idxs Hidxs]; [rewrite (sl_len _ _ _ _ _ P); lia|].
    rewrite (proj2 (vec_get_ok _ _ _) Hstrm), (proj2 (vec_get_ok _ _ _) Hidxs). simpl.
    unfold vec_get at 2. rewrite lookup_zip_with, Hstrm. simpl. rewrite Hidxs. simpl.
    rewrite (mmap_seq (f strm) (fun i => g (strm, i))); [done|by apply (sl_idxs _ _ _ _ _ P s)|].
    intros i [ii Hii]%list_elem_of_lookup. apply (Hf s ii). split; [done|]. eauto. }
  rewrite Hz. simpl. f_equal. unfold G. clear.
  generalize (si_strm si) as l1. generalize (si_idxs si) as l2. intros l2 l1. revert l2.
  induction l1 as [|s l1 IH]; intros [|idxs l2]; [done|done|done|]. simpl.
  rewrite fmap_app, concat_app, IH. f_equal. by rewrite <- list_fmap_compose.
Qed.

(** The cells of the slot are different. *)
Lemma slot_cells_in sz k u si n strm idx :
  slot_layout sz k u si n -> (strm, idx) ∈ slot_cells si <-> exists s ii, targets si s ii strm idx.
Proof.
  intros P. unfold slot_cells. rewrite elem_of_concat. split.
  - intros (l & Hin & [s Hl]%list_elem_of_lookup). rewrite lookup_zip_with in Hl. simplify_option_eq.
    apply list_elem_of_fmap in Hin as (i & Heq & [ii Hi]%list_elem_of_lookup). simplify_eq.
    exists s, ii. split; [done|]. eauto.
  - intros (s & ii & H1 & idxs & H2 & H3). exists ((fun i => (strm, i)) <$> idxs). split.
    + apply list_elem_of_fmap. exists idx. split; [done|]. by eapply list_elem_of_lookup_2.
    + apply list_elem_of_lookup. exists s. by rewrite lookup_zip_with, H1; simpl; rewrite H2.
Qed.

Lemma slot_cells_NoDup sz k u si n : slot_layout sz k u si n -> NoDup (slot_cells si).
Proof.
  intros P. pose proof (sl_nd _ _ _ _ _ P) as Hnd.
  assert (Hidx : Forall NoDup (si_idxs si)).
  { apply Forall_forall. intros l [s Hl]%list_elem_of_lookup. by destruct (sl_idxs _ _ _ _ _ P s l Hl). }
  unfold slot_cells. clear P. revert Hnd Hidx. generalize (si_strm si) as l1. generalize (si_idxs si) as l2.
  intros l2 l1. revert l2. induction l1 as [|s l1 IH]; intros [|idxs l2] Hnd Hidx; try apply NoDup_nil; try done.
  simpl. apply NoDup_cons in Hnd as [Hs Hnd]. apply Forall_cons in Hidx as [Hi Hidx].
  apply NoDup_app. split_and!; [by apply NoDup_fmap_2_strong; [intros; simplify_eq|]| |by apply IH].
  intros [s' i] (j & Heq & _)%list_elem_of_fmap Hin. simplify_eq.
  apply elem_of_concat in Hin as (l & Hin & [t Hl]%list_elem_of_lookup).
  rewrite lookup_zip_with in Hl. simplify_option_eq.
  apply list_elem_of_fmap in Hin as (i' & Heq & _). simplify_eq. apply Hs. by eapply list_elem_of_lookup_2.
Qed.

(** One row per cell, injective on the slot: no two tokens share a row. *)
Lemma rows_NoDup sz k u si n (g : nat * nat -> Z) :
  slot_layout sz k u si n ->
  (forall p q, p ∈ slot_cells si -> q ∈ slot_cells si -> g p = g q -> p = q) ->
  NoDup (concat ((fun p => [g p]) <$> slot_cells si)).
Proof.
  intros P Hg. assert (concat ((fun p => [g p]) <$> slot_cells si) = g <$> slot_cells si) as ->.
  { clear. induction (slot_cells si) as [|p l IH]; [done|]. rewrite !fmap_cons. simpl. by f_equal. }
  apply NoDup_fmap_2_strong; [|by eapply slot_cells_NoDup]. intros p q Hp Hq. by apply Hg.
Qed.

(** ** The three layouts *)

Lemma cache_get_size_ok sz k : kv_ok sz k -> cache_get_size k = Ok sz.
Proof.
  intros K. assert (id_ok 0) as H0 by by apply id_ok_small.
  destruct (stream_of_ok sz k 0 K H0) as [Q0 Hs]. unfold stream_of, vec_getZ in Q0.
  change (vec_get (kv_seq_to_stream k) 0 = Ok (seq_stream k 0)) in Q0.
  unfold cache_get_size. rewrite Q0. simpl.
  destruct (kv_stream sz k _ K Hs) as (c & _ & Hc & _ & _ & Esz & _).
  rewrite (proj2 (vec_get_ok _ _ _) Hc). simpl. by rewrite Esz.
Qed.

Definition flat_pos (sz : nat) (p : nat * nat) : Z := Z.of_nat (fst p * sz + snd p).

Lemma flat_pos_inj sz p q : (snd p < sz)%nat -> (snd q < sz)%nat -> flat_pos sz p = flat_pos sz q -> p = q.
Proof.
  destruct p as [s i], q as [s' i']. unfold flat_pos. simpl. intros Hi Hi' H.
  destruct (Nat.div_mod_unique sz s s' i i') as [-> ->]; [done|done|lia|done].
Qed.

Lemma flat_row_ok sz k s i :
  kv_ok sz k -> (s < kv_n_stream k)%nat -> (i < sz)%nat -> Z.of_nat (kv_n_stream k * sz) <= 2 ^ 32 ->
  flat_row k s i = Ok [flat_pos sz (s, i)].
Proof.
  intros K Hs Hi Hb. unfold flat_row, u32, flat_pos. rewrite (cache_get_size_ok sz) by done. simpl.
  rewrite Z.mod_small by nia. f_equal. f_equal. lia.
Qed.

Lemma slot_cells_bound sz k u si n p :
  kv_ok sz k -> slot_layout sz k u si n -> p ∈ slot_cells si -> (fst p < kv_n_stream k)%nat /\ (snd p < sz)%nat.
Proof.
  destruct p as [s i]. intros K P Hp. apply (slot_cells_in sz k u si n) in Hp as (t & ii & T); [|done].
  split; simpl; [|by eapply (sl_cell _ _ _ _ _ P)]. destruct T as [T _]. by eapply (sl_strm _ _ _ _ _ P).
Qed.

Lemma k_idxs_ok sz k u si n :
  kv_ok sz k -> slot_layout sz k u si n -> Z.of_nat (kv_n_stream k * sz) <= 2 ^ 32 ->
  cache_set_input_k_idxs k u si = Ok (concat ((fun p => [flat_pos sz p]) <$> slot_cells si)).
Proof.
  intros K P Hb. unfold cache_set_input_k_idxs. rewrite (layout_size sz k u si n P). simpl.
  rewrite assert_ok by (apply Nat.eqb_eq; rewrite (sl_tokens _ _ _ _ _ P); lia). simpl.
  apply (fill_slot_ok sz k u si n); [done|]. intros s ii strm idx T.
  apply flat_row_ok; [done| |by eapply (sl_cell _ _ _ _ _ P)|done]. destruct T as [T _]. by eapply (sl_strm _ _ _ _ _ P).
Qed.

(** A paged cache whose slot is backed. *)
Definition paged_pos (k : kv_cache) (p : nat * nat) : Z :=
  phys_row (kv_pool k) (default (-1) (entry (kv_pool k) (fst p) (snd p / pg_block_size (kv_pool k)))) (snd p).

Lemma v_idxs_paged_ok sz k u si n n_embd :
  slot_layout sz k u si n -> kv_pg_enabled k = true ->
  (forall s ii strm idx, targets si s ii strm idx -> cell_mapped (kv_pool k) strm idx) ->
  cache_set_input_v_idxs k false n_embd u si = Ok (concat ((fun p => [paged_pos k p]) <$> slot_cells si)).
Proof.
  intros P Hpg Hm. unfold cache_set_input_v_idxs. rewrite (layout_size sz k u si n P). simpl.
  rewrite assert_ok by (apply Nat.eqb_eq; rewrite (sl_tokens _ _ _ _ _ P); lia). simpl. rewrite Hpg.
  apply (fill_slot_ok sz k u si n); [done|]. intros s ii strm idx T. unfold paged_row, paged_pos. simpl.
  destruct (Hm s ii strm idx T) as (b & Hb & H0). pose proof (proj2 (page_at_entry _ _ _ _) Hb) as ->. simpl.
  rewrite assert_ok by by apply Z.leb_le. simpl. by rewrite Hb.
Qed.

(** Transposed: element [j] of cell [i] of stream [s]. *)
Definition trans_pos (sz d : nat) (p : nat * nat) (j : nat) : Z :=
  Z.of_nat (fst p * sz * d + j * sz + snd p).

Lemma trans_pos_inj sz d p q j j' :
  (snd p < sz)%nat -> (snd q < sz)%nat -> (j < d)%nat -> (j' < d)%nat ->
  trans_pos sz d p j = trans_pos sz d q j' -> p = q /\ j = j'.
Proof.
  destruct p as [s i], q as [s' i']. unfold trans_pos. simpl. intros Hi Hi' Hj Hj' H.
  destruct (Nat.div_mod_unique sz (s * d + j) (s' * d + j') i i') as [H1 ->]; [done|done|lia|].
  destruct (Nat.div_mod_unique d s s' j j') as [-> ->]; [done|done|lia|done].
Qed.

Lemma v_idxs_trans_ok sz k u si n d :
  kv_ok sz k -> slot_layout sz k u si n ->
  cache_set_input_v_idxs k true d u si =
    Ok (concat ((fun p => (fun j => trans_pos sz d p j) <$> seq 0 d) <$> slot_cells si)).
Proof.
  intros K P. unfold cache_set_input_v_idxs. rewrite (layout_size sz k u si n P). simpl.
  rewrite assert_ok by (apply Nat.eqb_eq; rewrite (sl_tokens _ _ _ _ _ P); lia). simpl.
  apply (fill_slot_ok sz k u si n); [done|]. intros s ii strm idx T. unfold trans_row.
  rewrite (cache_get_size_ok sz) by done. simpl. f_equal. apply list_fmap_ext. intros i j _.
  unfold trans_pos. simpl. lia.
Qed.

(** Rows that are different for different tokens. *)
Lemma trans_NoDup sz d k u si n :
  kv_ok sz k -> slot_layout sz k u si n ->
  NoDup (concat ((fun p => (fun j => trans_pos sz d p j) <$> seq 0 d) <$> slot_cells si)).
Proof.
  intros K P. pose proof (slot_cells_NoDup sz k u si n P) as Hnd.
  assert (Hb : Forall (fun p => snd p < sz)%nat (slot_cells si)).
  { apply Forall_forall. intros p Hp. by eapply slot_cells_bound. }
  induction (slot_cells si) as [|p l IH]; [apply NoDup_nil_2|].
  apply NoDup_cons in Hnd as [Hp Hnd]. apply Forall_cons in Hb as [Hbp Hb]. simpl.
  apply NoDup_app. split_and!; [| |by apply IH].
  - apply NoDup_fmap_2_strong; [|apply NoDup_seq]. intros j j' Hj%elem_of_seq Hj'%elem_of_seq H.
    apply (trans_pos_inj sz d p p j j') in H as [_ ->]; done || lia.
  - intros r (j & -> & Hj%elem_of_seq)%list_elem_of_fmap (q & Hq & Hin)%elem_of_concat_fmap.
    apply list_elem_of_fmap in Hin as (j' & Heq & Hj'%elem_of_seq).
    apply (trans_pos_inj sz d p q j j') in Heq as [-> _]; try done; try lia.
    by eapply Forall_forall in Hq; [|exact Hb].
Qed.
End rows.

(** ** The page table given to the kernel *)

Lemma lookup_concat_rows {A} (ls : list (list A)) m r j row :
  (forall row, row ∈ ls -> length row = m) -> ls !! r = Some row -> (j < m)%nat ->
  concat ls !! (r * m + j)%nat = row !! j.
Proof.
  revert r. induction ls as [|l ls IH]; intros [|r] Hm Hr Hj; simplify_eq/=.
  - rewrite lookup_app_l; [done|]. rewrite Hm by set_solver. done.
  - rewrite lookup_app_r; rewrite Hm by set_solver; [|lia].
    replace (m + r * m + j - m)%nat with (r * m + j)%nat by lia. apply IH; [set_solver|done|done].
Qed.

Definition shown (P : page_pool) (s lp : nat) : Z :=
  let b := default (-1) (entry P s lp) in if 0 <=? b then b else 0.

Lemma v_page_table_ok ns np P si n_rows n_lpage :
  pool_ok ns np P -> (forall r, (r < n_rows)%nat ->
    (si_s0 si + Nat.min r (si_s1 si - si_s0 si + 1 - 1) < ns)%nat) -> (n_lpage <= np)%nat ->
  v_page_table P si n_rows n_lpage =
    Ok (concat ((fun r => shown P (si_s0 si + Nat.min r (si_s1 si - si_s0 si + 1 - 1)) <$> seq 0 n_lpage)
                  <$> seq 0 n_rows)).
Proof.
  intros O Hs Hl. unfold v_page_table. cbv zeta.
  rewrite (mmap_fmap _ (fun r => shown P (si_s0 si + Nat.min r (si_s1 si - si_s0 si + 1 - 1)) <$> seq 0 n_lpage));
    [done|]. intros r Hr%elem_of_seq. apply mmap_fmap. intros lp Hlp%elem_of_seq.
  destruct (entry_exists ns np P (si_s0 si + Nat.min r (si_s1 si - si_s0 si + 1 - 1)) lp O) as (b & Hb & _);
    [apply Hs; lia|lia|].
  rewrite (proj2 (page_at_entry _ _ _ _) Hb). simpl. unfold shown. by rewrite Hb.
Qed.

(** ** The properties *)

(** The K rows of a micro-batch: [set_input_k_idxs] returns, for the cell [i] of stream [s]
    of every token, row [s * kv_size + i]; different tokens get different rows, all inside
    the tensor, and the row lies at offset [i] of the view [k_stream\[s\]] that stream
    copies and saved states use (as long as the row count fits in 32 bits). *)
Lemma k_rows_ok {E} sz k (u : llama_ubatch E) si n (K : kv_ok sz k) (P : slot_layout sz k u si n)
    (Hb : Z.of_nat (kv_n_stream k * sz) <= 2 ^ 32) :
  cache_set_input_k_idxs k u si = Ok (concat ((fun p => [flat_pos sz p]) <$> slot_cells si)) /\
  NoDup (concat ((fun p => [flat_pos sz p]) <$> slot_cells si)) /\
  forall p, p ∈ slot_cells si ->
    flat_pos sz p = k_stream_row sz (fst p) + Z.of_nat (snd p) /\
    0 <= flat_pos sz p < Z.of_nat (kv_n_stream k * sz).
Proof.
  split; [by eapply k_idxs_ok|]. split.
  - eapply rows_NoDup; [done|]. intros p q Hp Hq.
    apply flat_pos_inj; by eapply (slot_cells_bound sz k u si n).
  - intros p Hp. destruct (slot_cells_bound sz k u si n p K P Hp) as [H1 H2].
    unfold flat_pos, k_stream_row. split; [lia|nia].
Qed.

Lemma demo_layout : slot_layout 4 demo_cache demo_ubatch (mk_slot 0 0 [0%nat] [[3%nat]]) 1.
Proof.
  apply (place_layout 4 demo_cache); [exact demo_cache_ok|done|].
  replace 1%nat with (snd (slot_dims demo_cache demo_ubatch)) by (vm_compute; reflexivity).
  apply (slot_place 4); [exact demo_cache_ok|exact demo_ubatch_ok|exact demo_slot_ok|exact demo_swa].
Qed.

Lemma k_rows_ok_witness :
  cache_set_input_k_idxs demo_cache demo_ubatch (mk_slot 0 0 [0%nat] [[3%nat]]) = Ok [3].
Proof.
  refine (proj1 (k_rows_ok 4 demo_cache demo_ubatch (mk_slot 0 0 [0%nat] [[3%nat]]) 1
    demo_cache_ok demo_layout _)).
  vm_compute. discriminate.
Defined.

(** The V rows of a micro-batch on the paged path: once every cell of the slot is backed,
    [set_input_v_idxs] does not assert; different tokens get different physical rows, none
    is in the zero block, and all are inside the [(kv_size + block) * n_stream] rows of the
    tensor when the stream size is a multiple of the block size. *)
Lemma v_rows_paged_ok {E} sz k (u : llama_ubatch E) si n n_embd (K : kv_ok sz k) (P : slot_layout sz k u si n)
    (Hpg : kv_pg_enabled k = true) (Hm : (sz mod pg_block_size (kv_pool k) = 0)%nat)
    (Hback : forall s ii strm idx, targets si s ii strm idx -> cell_mapped (kv_pool k) strm idx) :
  cache_set_input_v_idxs k false n_embd u si = Ok (concat ((fun p => [paged_pos k p]) <$> slot_cells si)) /\
  NoDup (concat ((fun p => [paged_pos k p]) <$> slot_cells si)) /\
  forall p, p ∈ slot_cells si ->
    Z.of_nat (pg_block_size (kv_pool k)) <= paged_pos k p <
      Z.of_nat ((sz + pg_block_size (kv_pool k)) * kv_n_stream k).
Proof.
  pose proof (ko_pool _ _ K Hpg) as O. set (bs := pg_block_size (kv_pool k)) in *.
  assert (Hpos : forall p, p ∈ slot_cells si -> exists b, entry (kv_pool k) (fst p) (snd p / bs) = Some b /\
    0 <= b /\ paged_pos k p = phys_row (kv_pool k) b (snd p)).
  { intros [s i] Hp. apply (slot_cells_in sz k u si n) in Hp as (t & ii & T); [|done].
    destruct (Hback t ii s i T) as (b & Hb & H0). exists b. split_and!; [done|done|].
    unfold paged_pos. simpl. by rewrite Hb. }
  split; [by eapply v_idxs_paged_ok|]. split.
  - eapply rows_NoDup; [done|]. intros [s i] [s' i'] Hp Hq.
    destruct (Hpos _ Hp) as (b & Hb & H0 & ->), (Hpos _ Hq) as (b' & Hb' & H0' & ->). simpl in *.
    intros [<- Hmod]%phys_row_inj; [|apply O]. destruct (entry_inj _ _ _ _ _ _ _ _ O Hb Hb' H0) as [<- Hd].
    fold bs in Hmod. f_equal. rewrite (Nat.div_mod_eq i bs), (Nat.div_mod_eq i' bs). congruence.
  - intros p Hp. destruct (Hpos p Hp) as (b & Hb & H0 & ->).
    by apply (phys_row_bounds sz (kv_n_stream k) bs (kv_pool k) (fst p) (snd p / bs)).
Qed.

(** A paged cache of one stream of 64 cells, in which the page of cell 40 is mapped. *)
Definition demo_pool : page_pool :=
  match pg_alloc_for_sinfo Nat.ltb 100%nat (fun _ lp => lp) 0 (pool_init 64 1 32)
    (mk_slot 0 0 [0%nat] [[40%nat]]) with Ok P => P | Err _ => pool_init 64 1 32 end.

Definition demo_paged : kv_cache :=
  match cache_new true 64 8 1 0 LLAMA_SWA_TYPE_NONE 1 0 true with Ok k => with_pool true demo_pool k
  | Err _ => demo_cache end.

Lemma demo_paged_ok : kv_ok 64 demo_paged /\ cell_mapped demo_pool 0 40.
Proof.
  pose proof (pool_init_ok 64 1 32 ltac:(lia) ltac:(lia)) as O0.
  assert (S : sinfo_ok 1 (n_pages 64 32) 32 (mk_slot 0 0 [0%nat] [[40%nat]])).
  { split; simpl; [done|apply NoDup_singleton|set_solver by lia|].
    intros [|[|i]] l c Hl Hc; simplify_eq/=. apply list_elem_of_singleton in Hc as ->. vm_compute. lia. }
  pose proof (sat_pg_alloc Nat.ltb 100%nat (fun _ lp => lp) 0 _ _ _ _ O0 S) as HP.
  apply sat_exists in HP as (P & HP & O & Ebs & Hm & _).
  assert (demo_pool = P) as EP by (unfold demo_pool; by rewrite HP).
  assert (sat (cache_new true 64 8 1 0 LLAMA_SWA_TYPE_NONE 1 0 true)
    (fun k => kv_ok 64 k /\ kv_n_stream k = 1%nat /\ kv_pg_enabled k = true)) as H.
  { apply sat_exists. eexists. split; [vm_compute; reflexivity|]. split; [|split; reflexivity].
    match goal with |- kv_ok 64 ?k => assert (HK : sat (cache_new true 64 8 1 0 LLAMA_SWA_TYPE_NONE 1 0 true) (kv_ok 64)) end.
    { eapply sat_mono; [apply sat_cache_new; [|lia|done]|by intros k (K & _)].
      split; [lia|]. apply Nat.leb_le. vm_compute. done. }
    apply sat_exists in HK as (k & Hk & K). vm_compute in Hk. by injection Hk as ->. }
  apply sat_exists in H as (k & Hk & K & Hn & Hpg). unfold demo_paged. rewrite Hk, EP. split.
  - apply kv_ok_pool; [done|done|]. by rewrite Hn, Ebs.
  - apply (Hm 0%nat 0%nat [40%nat] 40%nat); [done|done|set_solver].
Qed.

Definition demo_paged_slot : slot_info := mk_slot 0 0 [0%nat] [[40%nat]].

Lemma demo_target s ii strm idx : targets demo_paged_slot s ii strm idx -> s = 0%nat /\ strm = 0%nat /\ idx = 40%nat.
Proof.
  intros (H1 & l & H2 & H3). destruct s as [|s]; [|done]. simpl in *. simplify_eq.
  destruct ii as [|ii]; [|done]. simpl in *. by simplify_eq.
Qed.

Lemma demo_paged_layout : slot_layout 64 demo_paged demo_ubatch demo_paged_slot 1.
Proof.
  split; simpl; try done.
  - apply NoDup_singleton.
  - intros [|s] strm Hs; simplify_eq/=. vm_compute. lia.
  - intros [|s] l Hs; simplify_eq/=. split; [done|apply NoDup_singleton].
  - intros s ii strm idx (_ & _ & ->)%demo_target. lia.
Qed.

Lemma v_rows_paged_ok_witness :
  cache_set_input_v_idxs demo_paged false 1 demo_ubatch demo_paged_slot = Ok [40] /\
  32 <= paged_pos demo_paged (0%nat, 40%nat) < 96.
Proof.
  destruct (v_rows_paged_ok 64 demo_paged demo_ubatch demo_paged_slot 1 1
    (proj1 demo_paged_ok) demo_paged_layout) as (H1 & _ & H3).
  - vm_compute. reflexivity.
  - vm_compute. reflexivity.
  - intros s ii strm idx T. destruct (demo_target _ _ _ _ T) as (_ & -> & ->). exact (proj2 demo_paged_ok).
  - split; [exact H1|]. apply (H3 (0%nat, 40%nat)). simpl. set_solver.
Defined.

(** The V rows of a micro-batch when the V cache is transposed: [set_input_v_idxs] gives
    one entry per embedding element of every cell, different for different cells and
    elements, so no value written overlaps another. *)
Lemma v_rows_trans_ok {E} sz k (u : llama_ubatch E) si n d (K : kv_ok sz k) (P : slot_layout sz k u si n) :
  cache_set_input_v_idxs k true d u si =
    Ok (concat ((fun p => (fun j => trans_pos sz d p j) <$> seq 0 d) <$> slot_cells si)) /\
  NoDup (concat ((fun p => (fun j => trans_pos sz d p j) <$> seq 0 d) <$> slot_cells si)) /\
  forall p j, p ∈ slot_cells si -> (j < d)%nat ->
    0 <= trans_pos sz d p j < Z.of_nat (kv_n_stream k * sz * d).
Proof.
  split; [by eapply v_idxs_trans_ok|]. split; [by eapply trans_NoDup|].
  intros p j Hp Hj. destruct (slot_cells_bound sz k u si n p K P Hp) as [H1 H2].
  unfold trans_pos. split; [lia|]. apply inj_lt.
  assert (fst p * d + d <= kv_n_stream k * d)%nat by nia. nia.
Qed.

Lemma v_rows_trans_ok_witness :
  cache_set_input_v_idxs demo_cache true 2 demo_ubatch (mk_slot 0 0 [0%nat] [[3%nat]]) = Ok [3; 7].
Proof.
  exact (proj1 (v_rows_trans_ok 4 demo_cache demo_ubatch (mk_slot 0 0 [0%nat] [[3%nat]]) 1 2
    demo_cache_ok demo_layout)).
Defined.

(** The page table the kernel reads agrees with the rows that were written: for every row
    [r] and every cell below [n_kv], the entry for the page of the cell gives the physical
    row at which [set_input_v_idxs] stores the cell, and the zero block when the page is
    not mapped. *)
Theorem page_table_agrees sz k n_kv si n_seq (K : kv_ok sz k) (Hpg : kv_pg_enabled k = true)
    (Hkv : (n_kv <= sz)%nat) (Hs : (si_s0 si <= si_s1 si < kv_n_stream k)%nat) :
  exists t, cache_v_page_table k n_kv si n_seq = Ok t /\
    forall r c, (r < fst (page_table_dims k n_kv si n_seq))%nat -> (c < n_kv)%nat ->
      let s := (si_s0 si + Nat.min r (si_s1 si - si_s0 si))%nat in
      let bs := pg_block_size (kv_pool k) in
      exists b, t !! (r * snd (page_table_dims k n_kv si n_seq) + c / bs)%nat = Some b /\
        (cell_mapped (kv_pool k) s c -> phys_row (kv_pool k) b c = paged_pos k (s, c)) /\
        (~ cell_mapped (kv_pool k) s c -> b = 0).
Proof.
  pose proof (ko_pool _ _ K Hpg) as O. pose proof (pool_bs _ _ _ O) as Hbs.
  unfold cache_v_page_table. rewrite assert_ok by done. simpl.
  set (n_rows := Nat.max _ n_seq). set (bs := pg_block_size (kv_pool k)) in *.
  set (n_lpage := ((n_kv + bs - 1) / bs)%nat).
  assert (Hlp : (n_lpage <= n_pages sz bs)%nat).
  { unfold n_lpage, n_pages. apply Nat.Div0.div_le_mono. lia. }
  rewrite (v_page_table_ok _ _ _ _ _ _ O) by (try done; intros; lia).
  eexists. split; [reflexivity|]. intros r c Hr Hc.
  replace (si_s1 si - si_s0 si + 1 - 1)%nat with (si_s1 si - si_s0 si)%nat by lia.
  assert (Hcl : (c / bs < n_lpage)%nat).
  { unfold n_lpage. apply Nat.Div0.div_lt_upper_bound.
    pose proof (Nat.div_mod_eq (n_kv + bs - 1) bs). pose proof (Nat.mod_upper_bound (n_kv + bs - 1) bs). nia. }
  set (s := (si_s0 si + Nat.min r (si_s1 si - si_s0 si))%nat).
  exists (shown (kv_pool k) s (c / bs)). split_and!.
  - erewrite (lookup_concat_rows _ n_lpage r (c / bs)); [| |by apply list_lookup_fmap_Some_2, lookup_seq_lt|done].
    + apply list_lookup_fmap_Some_2. by apply lookup_seq_lt.
    + intros row (x & -> & _)%list_elem_of_fmap. by rewrite length_fmap, length_seq.
  - intros (b & Hb & H0). unfold shown, paged_pos. simpl. fold bs in Hb |- *. rewrite Hb. simpl.
    by rewrite (proj2 (Z.leb_le 0 b) H0).
  - intros Hno. unfold shown. destruct (entry (kv_pool k) s (c / bs)) as [b|] eqn:Eb; simpl; [|done].
    destruct (Z.leb_spec 0 b); [|done]. exfalso. apply Hno. by exists b.
Qed.

Lemma page_table_agrees_witness :
  exists t b, cache_v_page_table demo_paged 64 demo_paged_slot 1 = Ok t /\ t !! 1%nat = Some b /\
    phys_row demo_pool b 40 = paged_pos demo_paged (0%nat, 40%nat).
Proof.
  destruct (page_table_agrees 64 demo_paged 64 demo_paged_slot 1 (proj1 demo_paged_ok)) as (t & Ht & H).
  - vm_compute. reflexivity.
  - lia.
  - vm_compute. lia.
  - destruct (H 0%nat 40%nat) as (b & Hb & Hm & _).
    + vm_compute. lia.
    + lia.
    + exists t, b. split; [exact Ht|]. split; [exact Hb|]. apply Hm. exact (proj2 demo_paged_ok).
Defined.

(** Without paging and with the V cache not transposed (flash attention), the V row written
    for cell [i] of stream [s] is not the row that the view [v_stream\[s\]] holds for that
    cell, for every stream but the first: the tensor has [kv_size + block] rows per stream,
    the written rows assume [kv_size]. Stream copies and saved states use the view. *)
Theorem v_rows_view_mismatch sz k s i bs (K : kv_ok sz k) (Hs : (s < kv_n_stream k)%nat) (Hi : (i < sz)%nat)
    (Hb : Z.of_nat (kv_n_stream k * sz) <= 2 ^ 32) :
  exists row, flat_row k s i = Ok [row] /\
    v_stream_row false sz bs s + Z.of_nat i = row + Z.of_nat (s * bs) /\
    v_stream_row true sz bs s + Z.of_nat i = row.
Proof.
  exists (flat_pos sz (s, i)). split; [by apply flat_row_ok|].
  unfold v_stream_row, v_rows, flat_pos. simpl. split; nia.
Qed.

Lemma v_rows_view_mismatch_witness :
  exists row, flat_row demo_cache2 1 2 = Ok [row] /\ v_stream_row false 4 32 1 + 2 = row + 32.
Proof.
  destruct (v_rows_view_mismatch 4 demo_cache2 1 2 32) as (row & H1 & H2 & _).
  - exact demo_cache2_ok.
  - vm_compute. lia.
  - lia.
  - vm_compute. discriminate.
  - exists row. split; [exact H1|exact H2].
Defined.
