(* ===== verification/KvMask.v ===== *)
(** * The attention mask: [set_input_kq_mask] of src/src/llama-kv-cache.cpp

    The mask has one row of [n_kv] entries per token.  For a sequence that already has a
    row in the same stream the code copies that row and recomputes only the cells it
    noted while computing it.  An entry is [None] for -INFINITY, and [Some z] for the
    integer [z] converted to float (0, or the ALiBi distance). *)

From S2P Require Import Prelude KvCells Batch Pages KvCache KvRows.

Definition mask_val : Type := option Z.

Section mask.
Context {E : Type}.
Implicit Types u : llama_ubatch E.

(** [ubatch->seq_id\[i\]\[0\]] *)
Definition ub_first_id u (i : nat) : res Z := ids ← vec_get (ub_seq_id u) i; vec_get ids 0.

(** The smallest position of the micro-batch for each sequence, by first id. *)
Definition min_positions (k : kv_cache) u : res (list Z) :=
  mfor (fun mins i =>
      n ← vec_get (ub_n_seq_id u) i;
      _ ← assert_ (0 <? n);
      q ← ub_first_id u i;
      _ ← assert_ ((0 <=? q) && (q <? Z.of_nat (length (kv_seq_to_stream k))));
      m ← vec_getZ mins q;
      p ← vec_get (ub_pos u) i;
      vec_setZ mins q (Z.min m p))
    (seq 0 (ub_n_tokens u)) (replicate MAX_SEQ INT32_MAX).

(** One entry, and the noted cells.  [at_] holds [p1], [p1_x] and [p1_y]. *)
Definition mask_cell (causal swa is_2d alibi prev : bool) (k : kv_cache) (c : llama_kv_cells)
    (mins : list Z) (q : Z) (at_ : Z * Z * Z) (idxs : list nat) (j : nat) : res (mask_val * list nat) :=
  let '(p1, p1_x, p1_y) := at_ in
  e ← cells_is_empty c j;
  if (e : bool) then Ok (None, idxs) else
  h ← cells_seq_has c j q;
  if negb h then Ok (None, idxs) else
  p0 ← cells_pos_get c j;
  idxs ← (if negb alibi && negb prev then
            lim ← i32 (p0 + s32 (u32 (kv_n_swa k + 32)));
            m ← vec_getZ mins q;
            Ok (if m <=? lim then idxs ++ [j] else idxs)
          else Ok idxs);
  if causal && (p1 <? p0) then Ok (None, idxs) else
  g ← (if causal && is_2d && (p0 =? p1) then ext ← cells_ext_get c j; Ok (is_2d_gt ext p1_x p1_y)
       else Ok false);
  if (g : bool) then Ok (None, idxs) else
  m ← (if swa then is_masked_swa (kv_n_swa k) (kv_swa_type k) p0 p1 else Ok false);
  if (m : bool) then Ok (None, idxs) else
  v ← (if alibi then d ← i32 (p0 - p1); a ← i32 (Z.abs d); Ok (- a) else Ok 0);
  Ok (Some v, idxs).

(** [std::copy(data + src, data + src + n, data + dst)] *)
Definition copy_row (n src dst : nat) (data : list mask_val) : res (list mask_val) :=
  mfor (fun d x => v ← vec_get d (src + x); vec_set d (dst + x) v) (seq 0 n) data.

(** The row of token [i]; state [(data, seq_srct, seq_idxs)]. *)
Definition mask_token (causal swa is_2d alibi : bool) (k : kv_cache) u (mins : list Z) (n_kv i : nat)
    (st : list mask_val * gmap Z nat * gmap Z (list nat))
    : res (list mask_val * gmap Z nat * gmap Z (list nat)) :=
  let '(data, srct, sidx) := st in
  q ← ub_first_id u i;
  strm ← vec_getZ (kv_seq_to_stream k) q;
  c ← vec_get (kv_cells k) strm;
  p1 ← vec_get (ub_pos u) i;
  p1_x ← (if is_2d then vec_get (ub_pos u) (i + ub_n_tokens u * 2) else Ok 0);
  p1_y ← (if is_2d then vec_get (ub_pos u) (i + ub_n_tokens u) else Ok 0);
  let idst := (n_kv * i)%nat in
  let idxs := default [] (sidx !! q) in
  r ← (if alibi then Ok (data, srct, false, idxs) else
       match srct !! q with
       | Some t => data ← copy_row n_kv (n_kv * t) idst data; Ok (data, srct, true, idxs)
       | None => Ok (data, <[ q := i ]> srct, false, [])
       end);
  let '(data, srct, prev, idxs) := r in
  r ← mfor (fun '(data, idxs) j =>
        r ← mask_cell causal swa is_2d alibi prev k c mins q (p1, p1_x, p1_y) idxs j;
        data ← vec_set data (idst + j) (fst r);
        Ok (data, snd r))
      (if (prev : bool) then take n_kv idxs else seq 0 n_kv) (data, idxs);
  Ok (fst r, srct, <[ q := snd r ]> sidx).

Definition set_input_kq_mask_impl (causal swa is_2d alibi : bool) (k : kv_cache) u
    (n_kv n_stream n_tps : nat) (data : list mask_val) : res (list mask_val) :=
  mins ← min_positions k u;
  mfor (fun data s =>
      r ← mfor (fun st ii => mask_token causal swa is_2d alibi k u mins n_kv (s * n_tps + ii) st)
            (seq 0 n_tps) (data, ∅, ∅);
      Ok r.1.1)
    (seq 0 n_stream) data.

(** [n_kv] and [n_stream] are the extents of the tensor [dst], [alibi] is
    [hparams.use_alibi]. *)
Definition cache_set_input_kq_mask (k : kv_cache) u (causal_attn alibi : bool) (n_kv n_stream : nat)
    (data : list mask_val) : res (list mask_val) :=
  let n_tokens := ub_n_tokens u in
  _ ← (if (n_stream =? 0)%nat then Err DivByZero else Ok tt);
  _ ← assert_ (n_tokens mod n_stream =? 0)%nat;
  let swa := match kv_swa_type k with LLAMA_SWA_TYPE_NONE => false | _ => true end in
  set_input_kq_mask_impl causal_attn swa (is_pos_2d u) alibi k u n_kv n_stream (n_tokens / n_stream) data.
End mask.
