(* ===== verification/KvMaskProps.v ===== *)
(** * The attention mask is the reference mask

    The shortcut of [set_input_kq_mask] (copy the row of the sequence, recompute the cells
    noted) gives the same mask as computing every entry from its definition. *)

From S2P Require Import Prelude KvCells KvCellsInv KvCellsSpec Batch Pages PagesTheory KvCache KvCacheTheory.
From S2P Require Import KvCacheProps KvSlots KvPlace KvPrepare KvUbatchProps KvRows KvMask.

(** ** The reference *)

(** May a token of sequence [q] at position [p1] (2D position [x1, y1]) look at cell [a]? *)
Definition visible (causal is_2d : bool) (n_swa : Z) (t : llama_swa_type) (q : Z) (at_ : Z * Z * Z) (a : acell) : bool :=
  let '(p1, x1, y1) := at_ in
  negb (a_pos a =? -1) && bool_decide (q ∈ a_seq a) &&
  negb (causal && (p1 <? a_pos a)) &&
  negb (causal && is_2d && (a_pos a =? p1) && is_2d_gt (a_ext a) x1 y1) &&
  negb (masked n_swa t (a_pos a) p1).

Definition entry_of (causal is_2d alibi : bool) n_swa t q (at_ : Z * Z * Z) (a : acell) : mask_val :=
  if visible causal is_2d n_swa t q at_ a then Some (if alibi then - Z.abs (a_pos a - at_.1.1) else 0) else None.

(** The cells whose entry can differ between the tokens of a sequence that starts at [m]. *)
Definition noted (n_swa m q : Z) (a : acell) : bool :=
  negb (a_pos a =? -1) && bool_decide (q ∈ a_seq a) && (m <=? a_pos a + (n_swa + 32)).

Lemma s32_small z : 0 <= z < 2 ^ 31 -> s32 (u32 z) = z.
Proof. intros Hz. unfold u32. rewrite (Z.mod_small z) by lia. by apply s32_nonneg. Qed.

Lemma masked_far n_swa t p0 p1 p1' m : t <> LLAMA_SWA_TYPE_NONE -> 0 <= n_swa -> n_swa + 32 < 2 ^ 31 -> 0 <= p0 ->
  (t = LLAMA_SWA_TYPE_CHUNKED -> n_swa <> 0) ->
  p0 + (n_swa + 32) < m -> m <= p1 -> m <= p1' -> masked n_swa t p0 p1 = masked n_swa t p0 p1'.
Proof.
  intros Ht Hn Hn' H0 Hc Hm H1 H1'.
  assert (HT : forall p, m <= p -> masked n_swa t p0 p = true); [|by rewrite !HT].
  intros p Hp. unfold masked. rewrite s32_nonneg by lia. destruct t; [done| | |].
  - lia.
  - specialize (Hc eq_refl). apply Z.ltb_lt. pose proof (Z.div_mod p n_swa Hc).
    pose proof (Z.mod_pos_bound p n_swa). lia.
  - apply orb_true_iff. right. apply Z.ltb_lt. pose proof (Z.quot_le_upper_bound n_swa 2 n_swa). lia.
Qed.

(** A cell that is not noted looks the same to all the tokens of the sequence. *)
Lemma entry_far causal is_2d n_swa t q at1 at2 m a :
  0 <= n_swa -> n_swa + 32 < 2 ^ 31 -> acell_ok a -> (t = LLAMA_SWA_TYPE_CHUNKED -> n_swa <> 0) ->
  noted n_swa m q a = false -> m <= at1.1.1 -> m <= at2.1.1 ->
  entry_of causal is_2d false n_swa t q at1 a = entry_of causal is_2d false n_swa t q at2 a.
Proof.
  intros Hn Hn' (Hge & _) Hc Hno H1 H2. destruct at1 as [[p1 x1] y1], at2 as [[p2 x2] y2]. simpl in *.
  unfold entry_of, visible, noted in *. destruct (Z.eqb_spec (a_pos a) (-1)) as [|Hp]; [done|].
  destruct (bool_decide (q ∈ a_seq a)); [|done]. simpl in *. apply Z.leb_gt in Hno.
  rewrite (proj2 (Z.ltb_ge p1 (a_pos a))), (proj2 (Z.ltb_ge p2 (a_pos a))) by lia.
  rewrite (proj2 (Z.eqb_neq (a_pos a) p1)), (proj2 (Z.eqb_neq (a_pos a) p2)) by lia.
  rewrite !andb_false_r. simpl. assert (t = LLAMA_SWA_TYPE_NONE \/ t <> LLAMA_SWA_TYPE_NONE) as [->|Ht] by (destruct t; (by left) || by right); [done|].
  by rewrite (masked_far n_swa t (a_pos a) p1 p2 m) by (done || lia).
Qed.

(** ** One entry *)

Definition has_swa (k : kv_cache) : bool := match kv_swa_type k with LLAMA_SWA_TYPE_NONE => false | _ => true end.

Section cell.
Context (k : kv_cache).

Lemma i32_small z : INT32_MIN <= z <= INT32_MAX -> i32 z = Ok z.
Proof. intros Hz. unfold i32. by rewrite (proj2 (Z.leb_le _ _)), (proj2 (Z.leb_le _ _)) by lia. Qed.

Lemma mask_cell_ok causal is_2d alibi prev c mins q at_ idxs j a m :
  wf c -> abs_cells c !! j = Some a -> id_ok q -> mins !! Z.to_nat q = Some m ->
  0 <= at_.1.1 <= INT32_MAX -> 0 <= kv_n_swa k -> kv_n_swa k + 32 < 2 ^ 31 ->
  a_pos a + (kv_n_swa k + 32) <= INT32_MAX -> (kv_swa_type k = LLAMA_SWA_TYPE_CHUNKED -> kv_n_swa k <> 0) ->
  mask_cell causal (has_swa k) is_2d alibi prev k c mins q at_ idxs j =
    Ok (entry_of causal is_2d alibi (kv_n_swa k) (kv_swa_type k) q at_ a,
        if negb alibi && negb prev && noted (kv_n_swa k) m q a then idxs ++ [j] else idxs).
Proof.
  intros W Ha Hq Hm Hp1 Hn0 Hn1 Hlim Hc. destruct at_ as [[p1 x1] y1]. simpl in Hp1.
  destruct (cells_reads_ok c W j a Ha) as (He & Hext & Hpos & _).
  destruct (abs_lookup_ok c j a W Ha) as [(Hge & _) _].
  unfold mask_cell, entry_of, visible, noted. rewrite He. simpl.
  destruct (Z.eqb_spec (a_pos a) (-1)) as [|Hne]; simpl; [by rewrite andb_false_r|].
  assert (cells_seq_has c j q = Ok (bool_decide (q ∈ a_seq a))) as ->.
  { apply abs_lookup in Ha as (_ & _ & _ & HS). unfold cells_seq_has, vec_get. rewrite HS. simpl.
    destruct Hq as [Hq1 Hq2]. rewrite assert_ok by by apply Z.leb_le. simpl. by apply bit_test_ok. }
  simpl. destruct (bool_decide (q ∈ a_seq a)); simpl; [|by rewrite andb_false_r].
  rewrite Hpos. simpl. rewrite s32_small by lia.
  set (b := negb alibi && negb prev).
  assert ((if b then lim ← i32 (a_pos a + (kv_n_swa k + 32)); m0 ← vec_getZ mins q;
      Ok (if m0 <=? lim then idxs ++ [j] else idxs) else Ok idxs) =
    Ok (if b && (m <=? a_pos a + (kv_n_swa k + 32)) then idxs ++ [j] else idxs)) as ->.
  { destruct b; [|done]. unfold INT32_MIN, INT32_MAX in *. rewrite i32_small by (unfold INT32_MIN, INT32_MAX; lia). simpl.
    destruct Hq as [Hq1 Hq2]. unfold vec_getZ, vec_get. rewrite (proj2 (Z.leb_le 0 q)) by done. by rewrite Hm. }
  simpl. destruct (causal && (p1 <? a_pos a)); simpl; [done|].
  assert ((if causal && is_2d && (a_pos a =? p1) then ext ← cells_ext_get c j; Ok (is_2d_gt ext x1 y1) else Ok false)
    = Ok (causal && is_2d && (a_pos a =? p1) && is_2d_gt (a_ext a) x1 y1)) as ->.
  { destruct (causal && is_2d && (a_pos a =? p1)); [|done]. by rewrite Hext. }
  simpl. destruct (_ && is_2d_gt _ _ _); simpl; [done|].
  assert ((if has_swa k then is_masked_swa (kv_n_swa k) (kv_swa_type k) (a_pos a) p1 else Ok false) =
    Ok (masked (kv_n_swa k) (kv_swa_type k) (a_pos a) p1)) as ->.
  { unfold has_swa. destruct (kv_swa_type k) eqn:Et; [done|..]; by apply is_masked_swa_ok; first [lia|done|intros; apply Hc]. }
  simpl. destruct (masked _ _ _ _); simpl; [done|]. destruct alibi; [|done].
  unfold INT32_MIN, INT32_MAX in *. rewrite i32_small by (unfold INT32_MIN, INT32_MAX; lia). simpl.
  rewrite i32_small by (unfold INT32_MIN, INT32_MAX; lia). done.
Qed.
End cell.

(** ** One row *)

Section rows.
Context {E : Type} (k : kv_cache) (u : llama_ubatch E) (sz n_kv : nat) (causal alibi : bool).
Let is_2d := is_pos_2d u.

(** Token [i]: its first sequence, and its position with the two extra sections. *)
Definition tok_seq (i : nat) : Z := default 0 (token_ids u i !! 0%nat).
Definition tok_at (i : nat) : Z * Z * Z :=
  (token_pos u i, if is_2d then ext_x (token_ext u i) else 0, if is_2d then ext_y (token_ext u i) else 0).

(** The entry of token [i] for cell [j]. *)
Definition mask_entry (i j : nat) : mask_val :=
  entry_of causal is_2d alibi (kv_n_swa k) (kv_swa_type k) (tok_seq i) (tok_at i)
    (default acell_empty (stream_cells k (seq_stream k (tok_seq i)) !! j)).

(** The smallest position of sequence [q] among the first [i] tokens, as a table. *)
Definition mins_ok (i : nat) (mins : list Z) : Prop := length mins = MAX_SEQ /\
  forall t, (t < i)%nat -> exists m, mins !! Z.to_nat (tok_seq t) = Some m /\ m <= token_pos u t.

(** What the mask needs of the cache and of the micro-batch. *)
Record mask_ready : Prop := {
  mr_kv    : kv_ok sz k;
  mr_n_kv  : (n_kv <= sz)%nat;
  mr_tok   : forall i, (i < ub_n_tokens u)%nat -> token_ok u i /\ token_pos u i <= INT32_MAX;
  mr_swa   : 0 <= kv_n_swa k /\ kv_n_swa k + 32 < 2 ^ 31 /\
               (kv_swa_type k = LLAMA_SWA_TYPE_CHUNKED -> kv_n_swa k <> 0);
  mr_cells : forall s a, (s < kv_n_stream k)%nat -> a ∈ stream_cells k s ->
               a_pos a + (kv_n_swa k + 32) <= INT32_MAX
}.
Context (R : mask_ready).

Lemma token_first i : (i < ub_n_tokens u)%nat ->
  ub_first_id u i = Ok (tok_seq i) /\ id_ok (tok_seq i) /\ vec_get (ub_pos u) i = Ok (token_pos u i) /\
  0 <= token_pos u i /\ exists n, vec_get (ub_n_seq_id u) i = Ok n /\ 0 < n.
Proof.
  intros Hi. destruct (mr_tok R i Hi) as [[(p & Hp & Hp0) _ (ids & Hids & Hne & _ & Hok & Hn)] _].
  unfold ub_first_id, tok_seq, token_ids, token_pos, vec_get. rewrite Hids, Hp, Hn. simpl.
  destruct ids as [|q ids]; [done|]. apply Forall_cons in Hok as [Hq _]. simpl. split_and!; try done.
  eexists. split; [done|]. simpl. lia.
Qed.

Lemma min_positions_ok : sat (min_positions k u) (mins_ok (ub_n_tokens u)).
Proof.
  apply (sat_for _ (fun i mins => mins_ok i mins)).
  - split; [by rewrite length_replicate|lia].
  - intros i mins Hi [Hl Hm]. destruct (token_first i Hi) as (Hq & [Hq1 Hq2] & Hp & _ & n & Hn & Hn0).
    rewrite Hn. simpl. rewrite assert_ok by by apply Z.ltb_lt. simpl. rewrite Hq. simpl.
    rewrite (ko_sts _ _ (mr_kv R)), assert_ok.
    2:{ apply andb_true_intro. split; [by apply Z.leb_le|apply Z.ltb_lt]. unfold MAX_SEQ. lia. }
    simpl.
    unfold vec_getZ, vec_setZ. rewrite (proj2 (Z.leb_le 0 _)) by done.
    assert (Hlt : (Z.to_nat (tok_seq i) < length mins)%nat) by (rewrite Hl; unfold MAX_SEQ; lia).
    destruct (lookup_lt_is_Some_2 _ _ Hlt) as [m Hlk]. rewrite (proj2 (vec_get_ok _ _ _) Hlk). simpl.
    rewrite Hp. simpl. apply sat_vec_set; [done|]. split; [by rewrite length_insert|].
    intros t Ht. destruct (decide (t = i)) as [->|Hti].
    { rewrite list_lookup_insert_eq by done. eexists. split; [done|]. lia. }
    destruct (Hm t) as (m' & Hm' & Hle); [lia|].
    destruct (decide (Z.to_nat (tok_seq t) = Z.to_nat (tok_seq i))) as [Heq|Hne].
    + rewrite Heq in Hm' |- *. rewrite list_lookup_insert_eq by done. simplify_eq. eexists. split; [done|]. lia.
    + rewrite list_lookup_insert_ne by done. by exists m'.
Qed.

(** ** Rows of the mask *)

(** The entries of row [i] are at [n_kv * i ..]. *)
Definition at_row (data : list mask_val) (i j : nat) : option mask_val := data !! (n_kv * i + j)%nat.
Definition same_before (b : nat) (data data' : list mask_val) : Prop :=
  length data' = length data /\ forall z, (z < b)%nat -> data' !! z = data !! z.

Lemma same_before_trans b d1 d2 d3 : same_before b d1 d2 -> same_before b d2 d3 -> same_before b d1 d3.
Proof. intros [L1 H1] [L2 H2]. split; [congruence|]. intros z Hz. by rewrite H2, H1. Qed.

Lemma row_before i i' j : (i' < i)%nat -> (j < n_kv)%nat -> (n_kv * i' + j < n_kv * i)%nat.
Proof. nia. Qed.

Lemma same_before_row i i' j d d' : same_before (n_kv * i) d d' -> (i' < i)%nat -> (j < n_kv)%nat ->
  at_row d' i' j = at_row d i' j.
Proof. intros [_ H] Hi Hj. by apply H, row_before. Qed.

(** [std::copy] of an earlier row. *)
Lemma copy_row_ok t i data : (t < i)%nat -> (n_kv * i + n_kv <= length data)%nat ->
  sat (copy_row n_kv (n_kv * t) (n_kv * i) data) (fun d => same_before (n_kv * i) data d /\
    forall j, (j < n_kv)%nat -> at_row d i j = at_row data t j).
Proof.
  intros Hti Hlen.
  eapply sat_mono; [apply (sat_for _ (fun x d => same_before (n_kv * i) data d /\
    forall j, (j < x)%nat -> at_row d i j = at_row data t j))|].
  - split; [by split|lia].
  - intros x d Hx [[Hl Hb] Hd].
    assert (Hlt : (n_kv * t + x < n_kv * i)%nat) by by apply row_before.
    destruct (lookup_lt_is_Some_2 d (n_kv * t + x)) as [v Hv]; [lia|].
    rewrite (proj2 (vec_get_ok _ _ _) Hv). simpl. apply sat_vec_set; [lia|]. split; [split|].
    + by rewrite length_insert.
    + intros z Hz. rewrite list_lookup_insert_ne by lia. by apply Hb.
    + intros j Hj. unfold at_row. destruct (decide (j = x)) as [->|Hne].
      * rewrite list_lookup_insert_eq by lia. by rewrite <- Hv, Hb.
      * rewrite list_lookup_insert_ne by lia. apply Hd. lia.
  - done.
Qed.

(** The cells of the stream of token [i], as the loop reads them. *)
Lemma token_cells i : (i < ub_n_tokens u)%nat -> exists c,
  vec_getZ (kv_seq_to_stream k) (tok_seq i) = Ok (seq_stream k (tok_seq i)) /\
  vec_get (kv_cells k) (seq_stream k (tok_seq i)) = Ok c /\ wf c /\ cells_size c = sz /\
  abs_cells c = stream_cells k (seq_stream k (tok_seq i)) /\
  forall a, a ∈ abs_cells c -> a_pos a + (kv_n_swa k + 32) <= INT32_MAX.
Proof.
  intros Hi. destruct (token_first i Hi) as (_ & Hq & _).
  destruct (stream_of_ok sz k _ (mr_kv R) Hq) as [Hs Hlt].
  destruct (kv_stream sz k _ (mr_kv R) Hlt) as (c & h & Hc & _ & W & Hsz & _ & Ec & _).
  exists c. split_and!; [exact Hs|by apply vec_get_ok|done|done|done|].
  intros a Ha. apply (mr_cells R (seq_stream k (tok_seq i))); [done|]. by rewrite Ec.
Qed.

(** The cells that the first row of sequence [tok_seq i] notes, among [js]. *)
Definition noted_in (mins : list Z) (i : nat) (js : list nat) : list nat :=
  filter (fun j => noted (kv_n_swa k) (default 0 (mins !! Z.to_nat (tok_seq i))) (tok_seq i)
    (default acell_empty (stream_cells k (seq_stream k (tok_seq i)) !! j)) = true) js.

Lemma row_loop_ok mins i prev c js data idxs :
  (i < ub_n_tokens u)%nat -> mins_ok (ub_n_tokens u) mins ->
  vec_get (kv_cells k) (seq_stream k (tok_seq i)) = Ok c ->
  Forall (fun j => j < n_kv)%nat js -> (n_kv * i + n_kv <= length data)%nat ->
  sat (mfor (fun '(data, idxs) j =>
        r ← mask_cell causal (has_swa k) is_2d alibi prev k c mins (tok_seq i) (tok_at i) idxs j;
        data ← vec_set data (n_kv * i + j) (fst r);
        Ok (data, snd r)) js (data, idxs))
    (fun r => same_before (n_kv * i) data r.1 /\
      (forall j, (j < n_kv)%nat -> at_row r.1 i j = if decide (j ∈ js) then Some (mask_entry i j) else at_row data i j) /\
      r.2 = if negb alibi && negb prev then idxs ++ noted_in mins i js else idxs).
Proof.
  intros Hi [_ Hmins] Hc Hjs Hlen. destruct (token_cells i Hi) as (c' & _ & Hc' & W & Hsz & Ec & Hlim).
  assert (c' = c) as -> by congruence. clear Hc'.
  destruct (Hmins i Hi) as (m & Hm & _). destruct (token_first i Hi) as (_ & Hq & _ & Hp0 & _).
  eapply sat_mono; [apply (sat_mfor _ (fun d r => same_before (n_kv * i) data r.1 /\
      (forall j, (j < n_kv)%nat -> at_row r.1 i j = if decide (j ∈ d) then Some (mask_entry i j) else at_row data i j) /\
      r.2 = if negb alibi && negb prev then idxs ++ noted_in mins i d else idxs))|done].
  - split_and!; [by split| |by rewrite app_nil_r; destruct (_ && _)].
    intros j Hj. by rewrite decide_False by apply not_elem_of_nil.
  - intros d j r [dat ix] Heq ([Hl Hb] & Hd & Hix). cbn [fst snd] in *.
    assert (Hj : (j < n_kv)%nat) by (rewrite Forall_forall in Hjs; apply Hjs; rewrite Heq; set_solver).
    pose proof (mr_n_kv R) as Hnkv. destruct (lookup_lt_is_Some_2 (abs_cells c) j) as [a Ha];
      [rewrite <- cells_size_abs by done; lia|].
    destruct (mr_swa R) as (S1 & S2 & S3).
    rewrite (mask_cell_ok k causal is_2d alibi prev c mins (tok_seq i) (tok_at i) ix j a m);
      [|done|done|done|done| |done|done|by apply Hlim; eapply list_elem_of_lookup_2|done].
    2:{ simpl. split; [done|]. by apply (mr_tok R). }
    simpl. apply sat_bind, sat_vec_set; [lia|]. apply sat_ok. simpl.
    assert (Hcell : default acell_empty (stream_cells k (seq_stream k (tok_seq i)) !! j) = a) by (rewrite <- Ec, Ha; done).
    split_and!.
    + split; [by rewrite length_insert|]. intros z Hz. rewrite list_lookup_insert_ne by lia. by apply Hb.
    + intros j' Hj'. unfold at_row. destruct (decide (j' = j)) as [->|Hne].
      * rewrite list_lookup_insert_eq by lia. rewrite decide_True by set_solver. unfold mask_entry. by rewrite Hcell.
      * rewrite list_lookup_insert_ne by lia. fold (at_row dat i j'). rewrite Hd by done.
        destruct (decide (j' ∈ d)); [by rewrite decide_True by set_solver|by rewrite decide_False by set_solver].
    + rewrite Hix. destruct (negb alibi && negb prev); simpl; [|done]. unfold noted_in. rewrite filter_app.
      rewrite filter_cons, Hcell, Hm. simpl. destruct (noted _ _ _ _).
      * rewrite decide_True by done. by rewrite app_assoc.
      * rewrite decide_False by done. by rewrite app_nil_r.
Qed.

(** ** The rows of a stream *)

(** After the tokens before [i]: their rows are right, and a remembered row is the row of an
    earlier token of that sequence with the cells it noted. *)
Record tok_inv (mins : list Z) (i : nat) (st : list mask_val * gmap Z nat * gmap Z (list nat)) : Prop := {
  ti_len  : length st.1.1 = (n_kv * ub_n_tokens u)%nat;
  ti_rows : forall i' j, (i' < i)%nat -> (j < n_kv)%nat -> at_row st.1.1 i' j = Some (mask_entry i' j);
  ti_srct : forall q t, st.1.2 !! q = Some t -> alibi = false /\ (t < i)%nat /\ tok_seq t = q /\
              st.2 !! q = Some (noted_in mins t (seq 0 n_kv))
}.

Lemma noted_in_same mins i t js : tok_seq t = tok_seq i -> noted_in mins t js = noted_in mins i js.
Proof. intros H. unfold noted_in. by rewrite H. Qed.

(** What the copied row has for the cells that were not noted. *)
Lemma entry_same mins i t j : alibi = false -> mins_ok (ub_n_tokens u) mins ->
  (i < ub_n_tokens u)%nat -> (t < ub_n_tokens u)%nat -> tok_seq t = tok_seq i -> (j < n_kv)%nat ->
  j ∉ noted_in mins i (seq 0 n_kv) -> mask_entry t j = mask_entry i j.
Proof.
  intros Hal [_ Hm] Hi Ht Hseq Hj Hno. destruct (Hm i Hi) as (m & Hmi & Hle), (Hm t Ht) as (m' & Hmt & Hle').
  rewrite Hseq in Hmt. simplify_eq. unfold mask_entry. rewrite Hseq, Hal.
  destruct (token_cells i Hi) as (c & _ & _ & W & Hsz & Ec & _). pose proof (mr_n_kv R) as Hnkv.
  destruct (lookup_lt_is_Some_2 (abs_cells c) j) as [a Ha]; [rewrite <- cells_size_abs by done; lia|].
  rewrite <- Ec, Ha. simpl. destruct (mr_swa R) as (S1 & S2 & S3). destruct (abs_lookup_ok c j a W Ha) as [Hok _].
  apply (entry_far _ _ _ _ _ _ _ m); [done|done|done|done| |done|done].
  apply not_true_is_false. intros Hn. apply Hno. unfold noted_in. apply list_elem_of_filter.
  split; [|apply elem_of_seq; lia]. by rewrite Hmi, <- Ec, Ha.
Qed.

Lemma token_xy i : (i < ub_n_tokens u)%nat ->
  (if is_2d then vec_get (ub_pos u) (i + ub_n_tokens u * 2) else Ok 0) = Ok (if is_2d then ext_x (token_ext u i) else 0) /\
  (if is_2d then vec_get (ub_pos u) (i + ub_n_tokens u) else Ok 0) = Ok (if is_2d then ext_y (token_ext u i) else 0).
Proof.
  intros Hi. destruct (mr_tok R i Hi) as [T _]. unfold is_2d. destruct (is_pos_2d u) eqn:E2; [|done].
  destruct (tk_2d _ _ T E2) as [[v Hv] [w Hw]]. unfold token_ext, vec_get. simpl. by rewrite Hv, Hw.
Qed.

(** What the row loop of token [i] starts from: the entries it will not write are right
    already, and the cells it notes will be those of the remembered row. *)
Definition row_ready mins (i : nat) (sidx : gmap Z (list nat))
    (r : list mask_val * gmap Z nat * bool * list nat) : Prop :=
  let '(data, srct, prev, idxs) := r in
  let js := if prev then take n_kv idxs else seq 0 n_kv in
  Forall (fun j => j < n_kv)%nat js /\ length data = (n_kv * ub_n_tokens u)%nat /\
  (forall i' j, (i' < i)%nat -> (j < n_kv)%nat -> at_row data i' j = Some (mask_entry i' j)) /\
  (forall j, (j < n_kv)%nat -> j ∉ js -> at_row data i j = Some (mask_entry i j)) /\
  (forall q t, srct !! q = Some t -> alibi = false /\ (t < S i)%nat /\ tok_seq t = q /\
     if decide (q = tok_seq i) then (if prev then idxs else idxs ++ noted_in mins i js) = noted_in mins t (seq 0 n_kv)
     else sidx !! q = Some (noted_in mins t (seq 0 n_kv))).

Lemma row_step_ok mins i c sidx r :
  (i < ub_n_tokens u)%nat -> mins_ok (ub_n_tokens u) mins ->
  vec_get (kv_cells k) (seq_stream k (tok_seq i)) = Ok c -> row_ready mins i sidx r ->
  sat (let '(data, srct, prev, idxs) := r in
       r ← mfor (fun '(data, idxs) j =>
        r ← mask_cell causal (has_swa k) is_2d alibi prev k c mins (tok_seq i) (tok_at i) idxs j;
        data ← vec_set data (n_kv * i + j) (fst r);
        Ok (data, snd r)) (if (prev : bool) then take n_kv idxs else seq 0 n_kv) (data, idxs);
       Ok (fst r, srct, <[tok_seq i := snd r]> sidx)) (tok_inv mins (S i)).
Proof.
  destruct r as [[[data srct] prev] idxs]. intros Hi Hmins Hc (Hjs & Hlen & Hrows & Hrest & Hsrct).
  eapply sat_step; [apply row_loop_ok; try done; rewrite Hlen; nia|].
  intros [d ix] (Hb & Hd & Hix). cbn [fst snd] in *. apply sat_ok. split; cbn [fst snd].
  - destruct Hb. congruence.
  - intros i' j Hi' Hj. destruct (decide (i' = i)) as [->|Hne].
    + rewrite Hd by done. case_decide; [done|by apply Hrest].
    + rewrite (same_before_row i i' j data d) by (done || lia). apply Hrows; [lia|done].
  - intros q t Hq. destruct (Hsrct q t Hq) as (Hal & H1 & H2 & H3). split_and!; [done|done|done|].
    case_decide as Hqi.
    + rewrite Hqi, lookup_insert_eq. f_equal. rewrite Hix, Hal. by destruct prev.
    + by rewrite lookup_insert_ne.
Qed.

Lemma row_pick_ok mins i data srct sidx : (i < ub_n_tokens u)%nat -> mins_ok (ub_n_tokens u) mins ->
  tok_inv mins i (data, srct, sidx) ->
  sat (if alibi then Ok (data, srct, false, default [] (sidx !! tok_seq i)) else
       match srct !! tok_seq i with
       | Some t => data ← copy_row n_kv (n_kv * t) (n_kv * i) data; Ok (data, srct, true, default [] (sidx !! tok_seq i))
       | None => Ok (data, <[ tok_seq i := i ]> srct, false, [])
       end) (row_ready mins i sidx).
Proof.
  intros Hi Hmins [T1 T2 T3]. cbn [fst snd] in *.
  assert (Hseqb : Forall (fun j => j < n_kv)%nat (seq 0 n_kv)) by (apply Forall_forall; intros j Hj%elem_of_seq; lia).
  assert (Hall : forall (P : Prop) j, (j < n_kv)%nat -> j ∉ seq 0 n_kv -> P) by (intros P j Hj []; apply elem_of_seq; lia).
  destruct alibi eqn:Hal.
  { apply sat_ok. split_and!; [done|done|done|by intros; eapply Hall|]. intros q t Hqt. by destruct (T3 q t Hqt). }
  destruct (srct !! tok_seq i) as [t|] eqn:Et.
  - destruct (T3 _ _ Et) as (_ & Hlt & Hts & Hix). rewrite Hix. simpl.
    rewrite (noted_in_same mins i t) in Hix |- * by done. set (N := noted_in mins i (seq 0 n_kv)) in *.
    assert (HN : take n_kv N = N).
    { apply take_ge. unfold N, noted_in. etrans; [apply length_filter|]. by rewrite length_seq. }
    eapply sat_step; [apply (copy_row_ok t i data); [done|rewrite T1; nia]|].
    intros d [Hb Hd]. apply sat_ok. unfold row_ready. rewrite HN. split_and!.
    + unfold N, noted_in. apply Forall_forall. intros j [_ Hj%elem_of_seq]%list_elem_of_filter. lia.
    + destruct Hb. congruence.
    + intros i' j Hi' Hj. rewrite (same_before_row i i' j data d) by done. by apply T2.
    + intros j Hj HjN. rewrite Hd, T2 by done. f_equal.
      apply (entry_same mins); [done|done|done|lia|done|done|done].
    + intros q t' Hq. destruct (T3 q t' Hq) as (H0 & H1 & H2 & H3). split_and!; [done|lia|done|].
      case_decide as Hqi; [|done]. unfold N. apply eq_sym, noted_in_same. congruence.
  - apply sat_ok. split_and!; [done|done|done|by intros; eapply Hall|]. intros q t Hq.
    destruct (decide (q = tok_seq i)) as [->|Hne].
    + rewrite lookup_insert_eq in Hq. simplify_eq. split_and!; [done|lia|done|done].
    + rewrite lookup_insert_ne in Hq by done. destruct (T3 q t Hq) as (H0 & H1 & H2 & H3).
      split_and!; [done|lia|done|done].
Qed.

Lemma mask_token_ok mins i st : (i < ub_n_tokens u)%nat -> mins_ok (ub_n_tokens u) mins -> tok_inv mins i st ->
  sat (mask_token causal (has_swa k) is_2d alibi k u mins n_kv i st) (tok_inv mins (S i)).
Proof.
  intros Hi Hmins T. destruct st as [[data srct] sidx].
  destruct (token_first i Hi) as (Hq & _ & Hp & _). destruct (token_cells i Hi) as (c & Hs & Hc & _).
  destruct (token_xy i Hi) as [Hx Hy].
  unfold mask_token. rewrite Hq. cbn [mbind res_bind]. rewrite Hs. cbn [mbind res_bind]. rewrite Hc.
  cbn [mbind res_bind]. rewrite Hp. cbn [mbind res_bind]. rewrite Hx. cbn [mbind res_bind]. rewrite Hy.
  cbn [mbind res_bind]. cbv zeta. fold (tok_at i).
  eapply sat_step; [by apply (row_pick_ok mins i data srct sidx)|]. intros r Hr.
  by apply (row_step_ok mins i c sidx r).
Qed.
End rows.

Section run.
Context {E : Type} (k : kv_cache) (u : llama_ubatch E) (sz n_kv : nat) (causal alibi : bool).
Context (R : mask_ready k u sz n_kv).

Lemma sat_kq_mask n_stream data : n_stream <> 0%nat -> (ub_n_tokens u mod n_stream = 0)%nat ->
  length data = (n_kv * ub_n_tokens u)%nat ->
  sat (cache_set_input_kq_mask k u causal alibi n_kv n_stream data) (fun d =>
    length d = (n_kv * ub_n_tokens u)%nat /\
    forall i j, (i < ub_n_tokens u)%nat -> (j < n_kv)%nat ->
      d !! (n_kv * i + j)%nat = Some (mask_entry k u causal alibi i j)).
Proof.
  intros Hns Hmod Hlen. unfold cache_set_input_kq_mask. cbv zeta.
  rewrite (proj2 (Nat.eqb_neq _ _) Hns). simpl. rewrite assert_ok by by apply Nat.eqb_eq. simpl.
  fold (has_swa k). unfold set_input_kq_mask_impl.
  set (n_tps := (ub_n_tokens u / n_stream)%nat).
  assert (Htps : (ub_n_tokens u = n_stream * n_tps)%nat).
  { unfold n_tps. pose proof (Nat.div_mod_eq (ub_n_tokens u) n_stream). lia. }
  eapply sat_step; [by apply (min_positions_ok k u sz n_kv R)|]. intros mins Hmins.
  eapply sat_mono; [apply (sat_for _ (fun s d => length d = (n_kv * ub_n_tokens u)%nat /\
    forall i j, (i < s * n_tps)%nat -> (j < n_kv)%nat -> d !! (n_kv * i + j)%nat = Some (mask_entry k u causal alibi i j)))|].
  - split; [done|lia].
  - intros s d Hs [Hd Hrows].
    eapply sat_step; [apply (sat_for _ (fun ii st => tok_inv k u n_kv causal alibi mins (s * n_tps + ii) st))|].
    + rewrite Nat.add_0_r. split; simpl; [done|done|]. intros q t Hq. by rewrite lookup_empty in Hq.
    + intros ii st Hii T. assert ((s * n_tps + ii < ub_n_tokens u)%nat) by nia.
      replace (s * n_tps + (ii + 1))%nat with (S (s * n_tps + ii)) by lia.
      by apply (mask_token_ok k u sz n_kv causal alibi R).
    + intros [[d' srct] sidx] [T1 T2 _]. apply sat_ok. simpl in *. split; [done|].
      intros i j Hi Hj. apply T2; [lia|done].
  - intros d [Hd Hrows]. split; [done|]. intros i j Hi Hj. apply Hrows; [lia|done].
Qed.
End run.

(** C12: The attention mask. The code copies the row of an earlier token of the same sequence
    and recomputes only the cells it noted; the mask it produces is nevertheless, for every
    token and every cell of the window, the one the definition gives: a cell is visible when
    it is used, belongs to the token's sequence, is not in the future (causal, with the 2D
    tie-break of M-RoPE) and is inside the sliding window. No step of it can stop. *)
Theorem kq_mask_is_reference {E} k (u : llama_ubatch E) sz n_kv causal alibi n_stream data
    (R : mask_ready k u sz n_kv) (Hns : n_stream <> 0%nat) (Hmod : (ub_n_tokens u mod n_stream = 0)%nat)
    (Hlen : length data = (n_kv * ub_n_tokens u)%nat) :
  exists d, cache_set_input_kq_mask k u causal alibi n_kv n_stream data = Ok d /\
    length d = (n_kv * ub_n_tokens u)%nat /\
    forall i j, (i < ub_n_tokens u)%nat -> (j < n_kv)%nat ->
      d !! (n_kv * i + j)%nat = Some (mask_entry k u causal alibi i j).
Proof. apply sat_exists. by eapply sat_kq_mask. Qed.

(** Two tokens of sequence 1 behind the cells of [demo_cache]. *)
Lemma demo_mask_ready : mask_ready demo_cache (seq_ubatch 1 [7; 8]) 4 4.
Proof.
  split.
  - exact demo_cache_ok.
  - lia.
  - intros i Hi. destruct i as [|[|i]]; [| |simpl in Hi; lia]; (split; [|vm_compute; discriminate]); split;
      try (by eexists; split; [reflexivity|lia]); try (intros Hd; discriminate Hd);
      (exists [1]; split_and!; [reflexivity|discriminate|apply NoDup_singleton|by repeat constructor; apply id_ok_small|reflexivity]).
  - split_and!; [vm_compute; discriminate|vm_compute; reflexivity|]. intros Hc. vm_compute in Hc. discriminate Hc.
  - intros s a Hs. rewrite demo_stream0 by done. revert a. apply Forall_forall.
    apply demo_forall; vm_compute; discriminate.
Qed.

Lemma kq_mask_is_reference_witness :
  exists d, cache_set_input_kq_mask demo_cache (seq_ubatch 1 [7; 8]) true false 4 1 (replicate 8 None) = Ok d /\
    d !! 4%nat = Some (mask_entry demo_cache (seq_ubatch 1 [7; 8]) true false 1 0).
Proof.
  destruct (kq_mask_is_reference demo_cache (seq_ubatch 1 [7; 8]) 4 4 true false 1 (replicate 8 None) demo_mask_ready)
    as (d & Hd & _ & H).
  - discriminate.
  - reflexivity.
  - reflexivity.
  - exists d. split; [exact Hd|]. apply (H 1%nat 0%nat); [simpl; lia|lia].
Defined.
