(* ===== verification/IoBytes.v ===== *)
(** * Byte streams: what a saved state is written to and read from

    [llama_io_write_i] appends bytes, [llama_io_read_i] takes them from the front and
    throws when there are not enough ([Err OutOfRange]).  Integers are stored in the
    little-endian representation of the machine.  [io A] is a computation that consumes
    bytes. *)

From S2P Require Import Prelude.

(** ** Integers as bytes *)

Fixpoint le (n : nat) (z : Z) : list Z :=
  match n with
  | O => []
  | S n => z mod 256 :: le n (z / 256)
  end.

Definition unle (l : list Z) : Z := foldr (fun b acc => b + 256 * acc) 0 l.

Definition put_u32 (z : Z) : list Z := le 4 z.
Definition put_i32 (z : Z) : list Z := le 4 z.
Definition put_u64 (z : Z) : list Z := le 8 z.

Lemma length_le n z : length (le n z) = n.
Proof. revert z. induction n as [|n IH]; intros z; simpl; [done|by rewrite IH]. Qed.

Lemma unle_le n z : unle (le n z) = z mod 256 ^ Z.of_nat n.
Proof.
  revert z. induction n as [|n IH]; intros z; [by rewrite Z.mod_1_r|].
  change (z mod 256 + 256 * unle (le n (z / 256)) = z mod 256 ^ Z.of_nat (S n)). rewrite IH.
  rewrite Nat2Z.inj_succ, Z.pow_succ_r by lia. rewrite Z.rem_mul_r by lia. lia.
Qed.

Lemma s32_wrap z : - 2 ^ 31 <= z < 2 ^ 31 -> s32 (z mod 2 ^ 32) = z.
Proof. intros Hz. unfold s32. rewrite Zplus_mod_idemp_l, Z.mod_small by lia. lia. Qed.

(** ** Consuming bytes *)

Definition io (A : Type) : Type := list Z -> res (A * list Z).

Definition io_ret {A} (a : A) : io A := fun bs => Ok (a, bs).
Definition io_bind {A B} (m : io A) (k : A -> io B) : io B :=
  fun bs => match m bs with Ok (a, bs') => k a bs' | Err e => Err e end.
(** An operation that does not read. *)
Definition io_lift {A} (m : res A) : io A := fun bs => a ← m; Ok (a, bs).

Declare Scope io_scope.
Delimit Scope io_scope with io.
Notation "'let!' x := m 'in' k" := (io_bind m (fun x => k))
  (at level 10, x pattern, m at level 100, k at level 200, only parsing) : io_scope.

Fixpoint io_for {A S} (f : S -> A -> io S) (l : list A) (s : S) : io S :=
  match l with
  | [] => io_ret s
  | x :: l => io_bind (f s x) (io_for f l)
  end.

(** [io.read(size)] *)
Definition io_read (size : nat) : io (list Z) := fun bs =>
  if (size <=? length bs)%nat then Ok (take size bs, drop size bs) else Err OutOfRange.

Definition get_u32 : io Z := io_bind (io_read 4) (fun l => io_ret (unle l)).
Definition get_i32 : io Z := io_bind (io_read 4) (fun l => io_ret (s32 (unle l))).
Definition get_u64 : io Z := io_bind (io_read 8) (fun l => io_ret (unle l)).

(** ** Reading back what was written *)

(** [m] reads exactly the bytes [bs], and gives [a]. *)
Definition reads {A} (m : io A) (bs : list Z) (a : A) : Prop := forall rest, m (bs ++ rest) = Ok (a, rest).

Lemma reads_ret {A} (a : A) : reads (io_ret a) [] a.
Proof. intros rest. done. Qed.

Lemma reads_bind {A B} (m : io A) (k : A -> io B) bs1 bs2 a b :
  reads m bs1 a -> reads (k a) bs2 b -> reads (io_bind m k) (bs1 ++ bs2) b.
Proof. intros H1 H2 rest. unfold io_bind. rewrite <- app_assoc, H1. apply H2. Qed.

(** The rest of a computation, after a part that reads [bs]. *)
Lemma reads_run {A B} (m : io A) (k : A -> io B) bs a rest : reads m bs a -> io_bind m k (bs ++ rest) = k a rest.
Proof. intros H. unfold io_bind. by rewrite H. Qed.

Lemma run_lift {A B} (m : res A) (k : A -> io B) a rest : m = Ok a -> io_bind (io_lift m) k rest = k a rest.
Proof. intros ->. done. Qed.

Lemma reads_lift {A} (m : res A) a : m = Ok a -> reads (io_lift m) [] a.
Proof. intros -> rest. done. Qed.

Lemma reads_lift_bind {A B} (m : res A) (k : A -> io B) bs a b :
  m = Ok a -> reads (k a) bs b -> reads (io_bind (io_lift m) k) bs b.
Proof. intros H1 H2. apply (reads_bind (io_lift m) k [] bs a); [by apply reads_lift|done]. Qed.

Lemma reads_read bs n : length bs = n -> reads (io_read n) bs bs.
Proof.
  intros <- rest. unfold io_read. rewrite length_app. rewrite (proj2 (Nat.leb_le _ _)) by lia.
  by rewrite take_app_length, drop_app_length.
Qed.

Lemma reads_u32 z : 0 <= z < 2 ^ 32 -> reads get_u32 (put_u32 z) z.
Proof.
  intros Hz. rewrite <- (app_nil_r (put_u32 z)). eapply reads_bind; [apply reads_read, length_le|].
  unfold put_u32. rewrite unle_le, Z.mod_small by done. apply reads_ret.
Qed.

Lemma reads_u64 z : 0 <= z < 2 ^ 64 -> reads get_u64 (put_u64 z) z.
Proof.
  intros Hz. rewrite <- (app_nil_r (put_u64 z)). eapply reads_bind; [apply reads_read, length_le|].
  unfold put_u64. rewrite unle_le, Z.mod_small by done. apply reads_ret.
Qed.

Lemma reads_i32 z : - 2 ^ 31 <= z < 2 ^ 31 -> reads get_i32 (put_i32 z) z.
Proof.
  intros Hz. rewrite <- (app_nil_r (put_i32 z)). eapply reads_bind; [apply reads_read, length_le|].
  unfold put_i32. rewrite unle_le. change (256 ^ Z.of_nat 4) with (2 ^ 32). rewrite s32_wrap by done. apply reads_ret.
Qed.

(** A loop that reads what was written for each element. *)
Lemma reads_for {A S} (f : S -> A -> io S) (w : A -> list Z) (I : list A -> S -> Prop) l s :
  I [] s ->
  (forall d x r s, l = d ++ x :: r -> I d s -> exists s', reads (f s x) (w x) s' /\ I (d ++ [x]) s') ->
  exists s', reads (io_for f l s) (concat (w <$> l)) s' /\ I l s'.
Proof.
  intros H0 Hs. assert (Hgen : forall l' d s, l = d ++ l' -> I d s ->
    exists s', reads (io_for f l' s) (concat (w <$> l')) s' /\ I l s').
  { induction l' as [|x l' IH]; intros d t Heq Hd.
    { exists t. split; [apply reads_ret|]. by rewrite Heq, app_nil_r. }
    destruct (Hs d x l' t Heq Hd) as (t' & Hr & Hd'). destruct (IH (d ++ [x]) t') as (t'' & Hr' & Hl).
    { by rewrite Heq, <- app_assoc. } { done. }
    exists t''. split; [|done]. by eapply reads_bind. }
  by apply (Hgen l []).
Qed.

(** [for (i = 0; i < n; ++i)], where iteration [i] reads what was written for [xs\[i\]]. *)
Lemma reads_for_seq {B S} (f : S -> nat -> io S) (w : B -> list Z) (I : nat -> S -> Prop) (xs : list B) s :
  I 0%nat s ->
  (forall i x s, xs !! i = Some x -> I i s -> exists s', reads (f s i) (w x) s' /\ I (i + 1)%nat s') ->
  exists s', reads (io_for f (seq 0 (length xs)) s) (concat (w <$> xs)) s' /\ I (length xs) s'.
Proof.
  intros H0 Hs. assert (forall ys d s, xs = d ++ ys -> I (length d) s -> exists s',
      reads (io_for f (seq (length d) (length ys)) s) (concat (w <$> ys)) s' /\ I (length xs) s') as Hgen.
  { induction ys as [|y ys IH]; intros d t -> Hd.
    { exists t. split; [apply reads_ret|]. by rewrite app_nil_r. }
    destruct (Hs (length d) y t) as (t' & Hr & Hd'); [by apply list_lookup_middle|done|].
    destruct (IH (d ++ [y]) t') as (t'' & Hr' & Hl).
    { by rewrite <- app_assoc. } { by rewrite length_app. }
    rewrite length_app, Nat.add_1_r in Hr'. exists t''. split; [by eapply reads_bind|done]. }
  by apply (Hgen xs [] s).
Qed.
