(* ===== verification/KvState.v ===== *)
(** * Saving and restoring the KV cache: [state_write] and [state_read]

    The serialization of src/src/llama-kv-cache.cpp: the cells of a stream (all, or those of
    one sequence) as ranges, the metadata of each cell, and then the K and V rows of each
    layer.  A writer returns the bytes it writes; a reader is an [io] computation over the
    bytes that remain.  A reader that throws in the middle of a restore is [Err]. *)

From S2P Require Import Prelude KvCells Batch Pages KvCache IoBytes.

(** The K or V tensor of a layer: its type, [ggml_row_size], [ggml_type_size], the number of
    embedding channels, and the bytes of each of its per-stream views. *)
Record kv_tensor : Type := mk_tensor {
  t_type : Z; t_row : nat; t_el : nat; t_gqa : nat; t_data : list (list Z)
}.
Definition with_data d (t : kv_tensor) : kv_tensor := mk_tensor (t_type t) (t_row t) (t_el t) (t_gqa t) d.

(** [v] is null when the V of the layer is part of its K. *)
Record kv_layer : Type := mk_layer { ly_k : kv_tensor; ly_v : option kv_tensor }.

(** [ggml_backend_tensor_get], [ggml_backend_tensor_set] on the view of stream [strm] *)
Definition tensor_get (t : kv_tensor) (strm offset size : nat) : res (list Z) :=
  d ← vec_get (t_data t) strm;
  if (size =? 0)%nat then Ok [] else
  _ ← assert_ (offset + size <=? length d)%nat;
  Ok (take size (drop offset d)).

Definition tensor_set (t : kv_tensor) (strm offset : nat) (bs : list Z) : res kv_tensor :=
  d ← vec_get (t_data t) strm;
  if (length bs =? 0)%nat then Ok t else
  _ ← assert_ (offset + length bs <=? length d)%nat;
  l ← vec_set (t_data t) strm (take offset d ++ bs ++ drop (offset + length bs) d);
  Ok (with_data l t).

(** [ggml_backend_buffer_clear(buf, 0)] for every buffer *)
Definition zero_tensor (t : kv_tensor) : kv_tensor :=
  with_data ((fun d => replicate (length d) 0) <$> t_data t) t.
Definition zero_layer (l : kv_layer) : kv_layer := mk_layer (zero_tensor (ly_k l)) (zero_tensor <$> ly_v l).

(** [clear(true)] *)
Definition clear_all (k : kv_cache) (ls : list kv_layer) : res (kv_cache * list kv_layer) :=
  k ← cache_clear k; Ok (k, zero_layer <$> ls).

(** A writer for each element, in order. *)
Definition wr_for {A} (f : A -> res (list Z)) (l : list A) : res (list Z) :=
  bs ← mmap f l; Ok (concat bs).

(** ** Writing *)

(** The cells to save: all that are used ([seq_id = -1]) or those of a sequence. *)
Definition save_cond (c : llama_kv_cells) (seq_id : Z) (i : nat) : res bool :=
  e ← cells_is_empty c i;
  if (e : bool) then Ok false else
  if seq_id =? -1 then Ok true else cells_seq_has c i seq_id.

(** [cell_count], [cell_range_begin] ([size]: no open range) and the ranges of the cells below
    [size] for which [cond] holds. *)
Definition range_step (size : nat) (cond : nat -> res bool) (st : nat * nat * list (nat * nat)) (i : nat)
    : res (nat * nat * list (nat * nat)) :=
  let '(cnt, b, rs) := st in
  ok ← cond i;
  if (ok : bool) then Ok (S cnt, (if (b =? size)%nat then i else b), rs)
  else if negb (b =? size)%nat then Ok (cnt, size, rs ++ [(b, i)])
  else Ok st.

Definition cell_ranges (size : nat) (cond : nat -> res bool) : res (nat * list (nat * nat)) :=
  st ← mfor (range_step size cond) (seq 0 size) (0%nat, size, []);
  let '(cnt, b, rs) := st in
  let rs := if negb (b =? size)%nat then rs ++ [(b, size)] else rs in
  _ ← assert_ (cnt =? sum_list_with (fun r => snd r - fst r) rs)%nat;
  Ok (cnt, rs).

Definition save_ranges (c : llama_kv_cells) (seq_id : Z) : res (nat * list (nat * nat)) :=
  cell_ranges (cells_size c) (save_cond c seq_id).

Definition range_cells (rs : list (nat * nat)) : list nat := concat ((fun r => seq (fst r) (snd r - fst r)) <$> rs).

(** The sequences of cell [i] that are saved. *)
Definition save_seq_ids (n_seq_max : nat) (c : llama_kv_cells) (seq_id : Z) (i : nat) : res (list Z) :=
  mfor (fun ids cur =>
    if (cur =? seq_id) || (seq_id =? -1) then
      h ← cells_seq_has c i cur; Ok (if (h : bool) then ids ++ [cur] else ids)
    else Ok ids) (seqZ 0 (Z.of_nat n_seq_max)) [].

Definition write_cell (n_seq_max n_pos_per_embd : nat) (c : llama_kv_cells) (seq_id : Z) (i : nat) : res (list Z) :=
  ids ← save_seq_ids n_seq_max c seq_id i;
  pos ← cells_pos_get c i;
  ext ← (if (1 <? n_pos_per_embd)%nat then
           e ← cells_ext_get c i; Ok (put_i32 (ext_x e) ++ put_i32 (ext_y e))
         else Ok []);
  Ok (put_i32 pos ++ put_u32 (Z.of_nat (length ids)) ++ ext ++ concat (put_i32 <$> ids)).

Definition state_write_meta (k : kv_cache) (strm : nat) (rs : list (nat * nat)) (seq_id : Z) : res (list Z) :=
  c ← vec_get (kv_cells k) strm;
  wr_for (fun r => wr_for (write_cell (kv_n_seq_max k) (kv_n_pos_per_embd k) c seq_id)
                     (seq (fst r) (snd r - fst r))) rs.

(** Rows of a tensor with one row per cell (every K; V when it is not transposed). *)
Definition write_rows (t : kv_tensor) (strm : nat) (rs : list (nat * nat)) : res (list Z) :=
  ds ← wr_for (fun r => tensor_get t strm (fst r * t_row t) ((snd r - fst r) * t_row t)) rs;
  Ok (put_i32 (t_type t) ++ put_u64 (Z.of_nat (t_row t)) ++ ds).

(** Transposed V: one row per channel.  The offset is computed in [uint32_t]. *)
Definition trans_src_offset (kv_size first j el : nat) : nat :=
  Z.to_nat (u32 (u32 (Z.of_nat first + u32 (Z.of_nat j * Z.of_nat kv_size)) * Z.of_nat el)).

Definition write_trans (kv_size : nat) (t : kv_tensor) (strm : nat) (rs : list (nat * nat)) : res (list Z) :=
  ds ← wr_for (fun j => wr_for (fun r =>
         tensor_get t strm (trans_src_offset kv_size (fst r) j (t_el t)) ((snd r - fst r) * t_el t)) rs)
       (seq 0 (t_gqa t));
  Ok (put_i32 (t_type t) ++ put_u32 (Z.of_nat (t_el t)) ++ put_u32 (Z.of_nat (t_gqa t)) ++ ds).

Definition write_v (v_trans : bool) (kv_size strm : nat) (rs : list (nat * nat)) (l : kv_layer) : res (list Z) :=
  match ly_v l with
  | None => Ok []
  | Some v => if v_trans then write_trans kv_size v strm rs else write_rows v strm rs
  end.

Definition state_write_data (v_trans : bool) (k : kv_cache) (ls : list kv_layer) (strm : nat)
    (rs : list (nat * nat)) : res (list Z) :=
  if kv_pg_enabled k then Ok [] else
  c ← vec_get (kv_cells k) strm;
  ks ← wr_for (fun l => write_rows (ly_k l) strm rs) ls;
  vs ← wr_for (write_v v_trans (cells_size c) strm rs) ls;
  Ok (put_u32 (if v_trans then 1 else 0) ++ put_u32 (Z.of_nat (length ls)) ++ ks ++ vs).

Definition write_stream (v_trans : bool) (k : kv_cache) (ls : list kv_layer) (seq_id : Z) (s : nat) : res (list Z) :=
  c ← vec_get (kv_cells k) s;
  r ← save_ranges c seq_id;
  let '(cnt, rs) := r in
  if (cnt =? 0)%nat then Ok (put_u32 (Z.of_nat cnt)) else
  meta ← state_write_meta k s rs seq_id;
  data ← state_write_data v_trans k ls s rs;
  Ok (put_u32 (Z.of_nat cnt) ++ meta ++ data).

Definition state_write (v_trans : bool) (k : kv_cache) (ls : list kv_layer) (seq_id : Z) : res (list Z) :=
  if kv_pg_enabled k then Ok [] else
  bs ← wr_for (write_stream v_trans k ls seq_id) (seq 0 (kv_n_stream k));
  Ok (put_u32 (Z.of_nat (kv_n_stream k)) ++ bs).

(** ** Reading the metadata *)

Definition get_ext : io llama_kv_cell_ext :=
  io_bind get_i32 (fun x => io_bind get_i32 (fun y => io_ret (mk_ext x y))).

(** One sequence id of cell [i]; the flag is false after an invalid one ([return false]). *)
Definition read_seq_id (n_seq_max i : nat) (st : llama_kv_cells * bool) (_ : nat) : io (llama_kv_cells * bool) :=
  if negb (snd st) then io_ret st else
  io_bind get_i32 (fun s =>
    if (s <? 0) || (Z.of_nat n_seq_max <=? s) then io_ret (fst st, false)
    else io_bind (io_lift (cells_seq_add (fst st) i s)) (fun c => io_ret (c, true))).

(** One cell of a whole-cache restore. *)
Definition read_cell (n_seq_max n_pos_per_embd : nat) (st : llama_kv_cells * bool) (i : nat) : io (llama_kv_cells * bool) :=
  if negb (snd st) then io_ret st else
  io_bind get_i32 (fun pos =>
  io_bind get_u32 (fun n_seq_id =>
  io_bind (io_lift (cells_pos_set (fst st) i pos)) (fun c =>
  io_bind (if (1 <? n_pos_per_embd)%nat
           then io_bind get_ext (fun e => io_lift (cells_ext_set c i e)) else io_ret c) (fun c =>
  io_for (read_seq_id n_seq_max i) (seq 0 (Z.to_nat n_seq_id)) (c, true))))).

(** One token of the micro-batch of a single-sequence restore; [n_tokens] is the cell count. *)
Definition read_token (n_pos_per_embd n_tokens : nat) (dest : Z) (st : llama_ubatch unit * bool) (i : nat)
    : io (llama_ubatch unit * bool) :=
  if negb (snd st) then io_ret st else
  let u := fst st in
  io_bind get_i32 (fun pos =>
  io_bind get_u32 (fun n_seq_id =>
  if negb (n_seq_id =? 1) then io_ret (u, false) else
  io_bind (if (1 <? n_pos_per_embd)%nat
           then io_bind get_ext (fun e => io_lift
                  (p ← vec_set (ub_pos u) (i + n_tokens) (ext_y e); vec_set p (i + n_tokens * 2) (ext_x e)))
           else io_ret (ub_pos u)) (fun p =>
  io_bind get_i32 (fun _ =>
  io_lift (p ← vec_set p i pos;
           n ← vec_set (ub_n_seq_id u) i n_seq_id;
           s ← vec_set (ub_seq_id u) i [dest];
           Ok (mk_ubatch (ub_equal_seqs u) (ub_n_tokens u) (ub_n_seq_tokens u) (ub_n_seqs u)
                 (ub_n_seqs_unq u) (ub_n_pos u) (ub_token u) (ub_embd u) p n s (ub_seq_id_unq u)
                 (ub_seq_idx u) (ub_output u), true)))))).

(** The debug check after a single-sequence restore. *)
Definition check_restored (c : llama_kv_cells) (u : llama_ubatch unit) (dest : Z) (idxs : list nat)
    (i : nat) : res unit :=
  idx ← vec_get idxs i;
  p ← cells_pos_get c idx;
  q ← vec_get (ub_pos u) i;
  _ ← assert_ (p =? q);
  h ← cells_seq_has c idx dest;
  assert_ h.

(** [state_read_meta], [dest_seq_id != -1]; [None] is [return false]. *)
Definition read_meta_seq (k : kv_cache) (strm cell_count : nat) (dest : Z) : io (kv_cache * option slot_info) :=
  io_bind (io_lift (cache_seq_rm k dest (-1) (-1))) (fun k =>
  io_bind (io_lift (balloc_ubatch_reserve (balloc_new (kv_n_pos_per_embd k)) cell_count 1)) (fun au =>
  io_bind (io_lift (unq ← vec_set (ub_seq_id_unq (snd au)) 0 dest; let u := snd au in
             Ok (mk_ubatch (ub_equal_seqs u) (ub_n_tokens u) (ub_n_seq_tokens u) (ub_n_seqs u)
                   (ub_n_seqs_unq u) (ub_n_pos u) (ub_token u) (ub_embd u) (ub_pos u) (ub_n_seq_id u)
                   (ub_seq_id u) unq (ub_seq_idx u) (ub_output u)))) (fun u =>
  io_bind (io_for (read_token (kv_n_pos_per_embd k) (ub_n_tokens u) dest) (seq 0 cell_count) (u, true)) (fun ub =>
  if negb (snd ub) then io_ret (k, None) else
  let u := fst ub in
  io_bind (io_lift (cache_find_slot k u false)) (fun r =>
  match r with
  | None => io_ret (k, None)
  | Some si =>
      io_lift (k ← cache_apply_ubatch k si u;
               _ ← assert_ (length (si_strm si) =? 1)%nat;
               idxs ← vec_get (si_idxs si) 0;
               _ ← assert_ (length idxs =? cell_count)%nat;
               c ← vec_get (kv_cells k) strm;
               _ ← mfor (fun _ i => check_restored c u dest idxs i) (seq 0 cell_count) tt;
               Ok (k, Some si))
  end))))).

(** [state_read_meta], [dest_seq_id == -1] *)
Definition read_meta_all (k : kv_cache) (ls : list kv_layer) (strm cell_count : nat)
    : io (kv_cache * list kv_layer * option slot_info) :=
  io_bind (io_lift (vec_get (kv_cells k) strm)) (fun c =>
  if (cells_size c <? cell_count)%nat then io_ret (k, ls, None) else
  io_bind (io_lift (clear_all k ls)) (fun kl => let '(k, ls) := kl in
  io_bind (io_lift (vec_get (kv_cells k) strm)) (fun c =>
  io_bind (io_for (read_cell (kv_n_seq_max k) (kv_n_pos_per_embd k)) (seq 0 cell_count) (c, true)) (fun cb =>
  io_bind (io_lift (put_cells k strm (fst cb))) (fun k =>
  if negb (snd cb) then io_ret (k, ls, None) else
  io_bind (io_lift (put_head k strm 0)) (fun k =>
  io_ret (k, ls, Some (mk_slot strm strm [strm] [seq 0 cell_count])))))))).

Definition state_read_meta (k : kv_cache) (ls : list kv_layer) (strm cell_count : nat) (dest : Z)
    : io (kv_cache * list kv_layer * option slot_info) :=
  if negb (dest =? -1) then
    io_bind (read_meta_seq k strm cell_count dest) (fun r => io_ret (fst r, ls, snd r))
  else read_meta_all k ls strm cell_count.

(** ** Reading the rows *)

(** [slot_info::head], [slot_info::is_contiguous] *)
Definition slot_head (si : slot_info) : res nat :=
  _ ← assert_ (length (si_idxs si) =? 1)%nat;
  l ← of_option AssertFailed (head (si_idxs si));
  of_option AssertFailed (head l).

Definition slot_contiguous (si : slot_info) : bool :=
  match si_idxs si with
  | [] => true
  | [] :: _ => true
  | (h :: l) :: rest =>
      if (1 <? length (si_idxs si))%nat then false
      else bool_decide (h :: l = seq h (length (h :: l)))
  end.

(** [count] items of [size] bytes, item [i] to offset [off idxs\[i\]]: one copy when the cells
    are contiguous, one per item otherwise. *)
Definition scatter (t : kv_tensor) (strm : nat) (si : slot_info) (count size : nat) (off : nat -> nat)
    (src : list Z) : res kv_tensor :=
  if slot_contiguous si then h ← slot_head si; tensor_set t strm (off h) src
  else
    idxs ← vec_get (si_idxs si) 0;
    mfor (fun t i => idx ← vec_get idxs i;
            tensor_set t strm (off idx) (take size (drop (i * size) src))) (seq 0 count) t.

(** A tensor with one row per cell; the flag is false after [return false]. *)
Definition read_rows (t : kv_tensor) (strm count : nat) (si : slot_info) : io (kv_tensor * bool) :=
  io_bind get_i32 (fun ty =>
  if negb (t_type t =? ty) then io_ret (t, false) else
  io_bind get_u64 (fun row =>
  if negb (Z.of_nat (t_row t) =? row) then io_ret (t, false) else
  if (count =? 0)%nat then io_ret (t, true) else
  io_bind (io_read (count * t_row t)) (fun src =>
  io_bind (io_lift (scatter t strm si count (t_row t) (fun i => i * t_row t)%nat src)) (fun t =>
  io_ret (t, true))))).

(** The offset of channel [j] of cell [idx] of a transposed V: [uint32_t], then [size_t]. *)
Definition trans_dst_offset (kv_size j el idx : nat) : nat :=
  (Z.to_nat (u32 (Z.of_nat idx + u32 (Z.of_nat j * Z.of_nat kv_size))) * el)%nat.

Definition read_trans (t : kv_tensor) (kv_size strm count : nat) (si : slot_info) : io (kv_tensor * bool) :=
  io_bind get_i32 (fun ty =>
  if negb (t_type t =? ty) then io_ret (t, false) else
  io_bind get_u32 (fun el =>
  if negb (Z.of_nat (t_el t) =? el) then io_ret (t, false) else
  io_bind get_u32 (fun gqa =>
  if negb (Z.of_nat (t_gqa t) =? gqa) then io_ret (t, false) else
  if (count =? 0)%nat then io_ret (t, true) else
  io_bind (io_for (fun t j =>
             io_bind (io_read (count * t_el t)) (fun src =>
             io_lift (scatter t strm si count (t_el t) (trans_dst_offset kv_size j (t_el t)) src)))
           (seq 0 (t_gqa t)) t) (fun t =>
  io_ret (t, true))))).

(** One layer of the loop over the K tensors, and of the loop over the V tensors; a loop
    keeps the layers it has not reached. *)
Definition read_k_layer (strm count : nat) (si : slot_info) (st : list kv_layer * bool) (l : kv_layer)
    : io (list kv_layer * bool) :=
  if negb (snd st) then io_ret (fst st ++ [l], false) else
  io_bind (read_rows (ly_k l) strm count si) (fun r =>
  io_ret (fst st ++ [mk_layer (fst r) (ly_v l)], snd r)).

Definition read_v_layer (v_trans : bool) (kv_size strm count : nat) (si : slot_info)
    (st : list kv_layer * bool) (l : kv_layer) : io (list kv_layer * bool) :=
  if negb (snd st) then io_ret (fst st ++ [l], false) else
  match ly_v l with
  | None => io_ret (fst st ++ [l], true)
  | Some v =>
      io_bind (if v_trans then read_trans v kv_size strm count si else read_rows v strm count si) (fun r =>
      io_ret (fst st ++ [mk_layer (ly_k l) (Some (fst r))], snd r))
  end.

Definition state_read_data (v_trans : bool) (k : kv_cache) (ls : list kv_layer) (strm cell_count : nat)
    (si : slot_info) : io (list kv_layer * bool) :=
  if kv_pg_enabled k then io_ret (ls, false) else
  io_bind (io_lift (vec_get (kv_cells k) strm)) (fun c =>
  io_bind get_u32 (fun vt =>
  io_bind get_u32 (fun n_layer =>
  if negb (n_layer =? Z.of_nat (length ls)) then io_ret (ls, false) else
  if (cells_size c <? cell_count)%nat then io_ret (ls, false) else
  if negb (Bool.eqb v_trans (negb (vt =? 0))) then io_ret (ls, false) else
  io_bind (io_for (read_k_layer strm cell_count si) ls ([], true)) (fun r =>
  if negb (snd r) then io_ret r else
  io_for (read_v_layer v_trans (cells_size c) strm cell_count si) (fst r) ([], true))))).

(** ** [state_read] *)

(** The two exceptions it throws itself, or none. *)
Inductive restore : Set := Restored | NStreamMismatch | RestoreFailed.

Definition read_stream (v_trans : bool) (seq_id : Z) (st : kv_cache * list kv_layer * restore) (s : nat)
    : io (kv_cache * list kv_layer * restore) :=
  let '(k, ls, r) := st in
  match r with
  | Restored =>
      io_bind get_u32 (fun count =>
      if count =? 0 then io_ret st else
      let cell_count := Z.to_nat count in
      io_bind (io_lift (if seq_id =? -1 then Ok s else stream_of k seq_id)) (fun strm =>
      io_bind (state_read_meta k ls strm cell_count seq_id) (fun m =>
      let '(k, ls, o) := m in
      io_bind (match o with
               | None => io_ret (ls, false)
               | Some si => state_read_data v_trans k ls strm cell_count si
               end) (fun d =>
      let '(ls, ok) := d in
      if (ok : bool) then io_ret (k, ls, Restored) else
      io_bind (io_lift (if seq_id =? -1 then clear_all k ls
                        else k ← cache_seq_rm k seq_id (-1) (-1); Ok (k, ls))) (fun kl =>
      io_ret (fst kl, snd kl, RestoreFailed))))))
  | _ => io_ret st
  end.

Definition state_read (v_trans : bool) (k : kv_cache) (ls : list kv_layer) (seq_id : Z)
    : io (kv_cache * list kv_layer * restore) :=
  if kv_pg_enabled k then io_ret (k, ls, Restored) else
  io_bind (io_lift (assert_ ((seq_id =? -1) || seq_id_valid k seq_id))) (fun _ =>
  io_bind get_u32 (fun n =>
  if negb (n =? Z.of_nat (kv_n_stream k)) then io_ret (k, ls, NStreamMismatch) else
  io_for (read_stream v_trans seq_id) (seq 0 (kv_n_stream k)) (k, ls, Restored))).
