(* ===== verification/KvStateLayers.v ===== *)
(** * Copying rows through a saved state

    [item size d i] is the [i]-th block of [size] bytes of [d]: a row of K, a row of V, or one
    channel of one cell of a transposed V.  What [write_rows]/[write_trans] write is the items
    of the saved cells, and [read_rows]/[read_trans] put them at the cells of the slot, whether
    the slot is contiguous or not, and leave every other byte alone.  Then all layers. *)

From S2P Require Import Prelude KvCells Pages KvCache IoBytes KvState.

Definition item (size : nat) (d : list Z) (i : nat) : list Z := take size (drop (i * size) d).

(** ** Items *)

Lemma take_items size d a n : take (n * size) (drop (a * size) d) = concat (item size d <$> seq a n).
Proof.
  revert a. induction n as [|n IH]; intros a; [done|].
  change (S n * size)%nat with (size + n * size)%nat. cbn [seq fmap list_fmap concat]. rewrite <- IH. unfold item.
  rewrite <- take_take_drop, drop_drop. f_equal. f_equal. f_equal. lia.
Qed.

Lemma lookup_item size d i q : (q < size)%nat -> item size d i !! q = d !! (i * size + q)%nat.
Proof. intros Hq. unfold item. by rewrite lookup_take_lt, lookup_drop. Qed.

Lemma length_item size d i : ((i + 1) * size <= length d)%nat -> length (item size d i) = size.
Proof. intros H. unfold item. rewrite length_take, length_drop. lia. Qed.

Lemma item_ext size d d' i i' :
  (forall q, (q < size)%nat -> d !! (i * size + q)%nat = d' !! (i' * size + q)%nat) -> item size d i = item size d' i'.
Proof.
  intros H. apply list_eq. intros q. destruct (decide (q < size)%nat) as [Hq|Hq].
  - rewrite !lookup_item by done. by apply H.
  - unfold item. by rewrite !lookup_take_ge by lia.
Qed.

Lemma item_concat size (ls : list (list Z)) i l :
  (forall l, l ∈ ls -> length l = size) -> ls !! i = Some l -> item size (concat ls) i = l.
Proof.
  revert i. induction ls as [|x ls IH]; intros i Hs Hi; [done|]. cbn [concat].
  assert (length x = size) as Hx by (apply Hs; set_solver). unfold item. destruct i as [|i]; simplify_eq/=.
  - rewrite drop_0. apply take_app_length.
  - rewrite drop_app_ge by lia. replace (length x + i * length x - length x)%nat with (i * length x)%nat by lia.
    apply IH; [|done]. intros y Hy. apply Hs. set_solver.
Qed.

Lemma length_concat_items size (ls : list (list Z)) :
  (forall l, l ∈ ls -> length l = size) -> length (concat ls) = (length ls * size)%nat.
Proof.
  induction ls as [|x ls IH]; intros Hs; [done|]. cbn [concat length]. rewrite length_app, IH by set_solver.
  rewrite (Hs x) by set_solver. lia.
Qed.

(** A loop over indices below [n] only looks at cells below [n]. *)
Lemma filter_bool_agree (f g : nat -> bool) (xs : list nat) :
  (forall i, i ∈ xs -> f i = g i) -> filter (fun i => f i = true) xs = filter (fun i => g i = true) xs.
Proof.
  induction xs as [|x xs IH]; intros H; [done|]. rewrite !filter_cons, IH, (H x) by set_solver. done.
Qed.

(** ** The ranges of the cells to save *)

Lemma range_cells_snoc rs b e : range_cells (rs ++ [(b, e)]) = range_cells rs ++ seq b (e - b).
Proof. unfold range_cells. rewrite fmap_app, concat_app. simpl. by rewrite app_nil_r. Qed.

Lemma length_range_cells rs : length (range_cells rs) = sum_list_with (fun r => snd r - fst r)%nat rs.
Proof.
  unfold range_cells. induction rs as [|r rs IH]; [done|]. cbn [fmap list_fmap concat sum_list_with].
  by rewrite length_app, length_seq, IH.
Qed.

Section ranges.
Context (n : nat) (cond : nat -> res bool) (f : nat -> bool) (Hcond : forall i, (i < n)%nat -> cond i = Ok (f i)).

(** The open range [\[b, d)] of the loop at cell [d], if there is one. *)
Definition ranges_inv (d : nat) (st : nat * nat * list (nat * nat)) : Prop :=
  let '(cnt, b, rs) := st in
  let done_ := filter (fun i => f i = true) (seq 0 d) in
  cnt = length done_ /\ (forall r, r ∈ rs -> (fst r <= snd r <= n)%nat) /\ (b = n \/ b < d)%nat /\ (d <= n)%nat /\
  range_cells rs ++ (if (b =? n)%nat then [] else seq b (d - b)) = done_.

Lemma range_step_ok d st : (d < n)%nat -> ranges_inv d st -> sat (range_step n cond st d) (ranges_inv (d + 1)).
Proof.
  intros Hd. destruct st as [[cnt b] rs]. intros (-> & Hr & Hb & _ & Hrs).
  unfold range_step. rewrite Hcond by done. cbn [mbind res_bind].
  assert (Hf : filter (fun i => f i = true) (seq 0 (d + 1)) =
    filter (fun i => f i = true) (seq 0 d) ++ (if f d then [d] else [])).
  { rewrite seq_app, filter_app. cbn [seq]. rewrite filter_cons, filter_nil, Nat.add_0_l.
    by destruct (f d). }
  destruct (f d) eqn:E.
  - apply sat_ok.
    unfold ranges_inv. rewrite Hf, <- Hrs, !length_app. cbn [length]. destruct (b =? n)%nat eqn:Eb.
    + apply Nat.eqb_eq in Eb as ->. rewrite (proj2 (Nat.eqb_neq d n)) by lia.
      replace (d + 1 - d)%nat with 1%nat by lia. split_and!; [simpl; lia|done|lia|lia|]. simpl. by rewrite app_nil_r.
    + rewrite Eb. apply Nat.eqb_neq in Eb. destruct Hb as [?|Hb]; [done|].
      split_and!; [rewrite length_seq; lia|done|lia|lia|]. replace (d + 1 - b)%nat with (d - b + 1)%nat by lia.
      rewrite seq_app. cbn [seq]. replace (b + (d - b))%nat with d by lia. by rewrite app_assoc.
  - rewrite app_nil_r in Hf. destruct (b =? n)%nat eqn:Eb; cbn [negb]; apply sat_ok; unfold ranges_inv; rewrite Hf.
    + rewrite Eb. apply Nat.eqb_eq in Eb. split_and!; [done|done|lia|lia|done].
    + apply Nat.eqb_neq in Eb. rewrite Nat.eqb_refl, app_nil_r, range_cells_snoc. destruct Hb as [?|Hb]; [done|].
      split_and!; [done| |lia|lia|done]. intros r [Hin| ->%list_elem_of_singleton]%elem_of_app; [by apply Hr|simpl; lia].
Qed.

(** The ranges are exactly the cells to save, in order, and the counter is their number. *)
Lemma cell_ranges_ok : exists rs, cell_ranges n cond = Ok (length (filter (fun i => f i = true) (seq 0 n)), rs) /\
    range_cells rs = filter (fun i => f i = true) (seq 0 n) /\ (forall r, r ∈ rs -> (fst r <= snd r <= n)%nat).
Proof.
  unfold cell_ranges.
  destruct (proj1 (sat_exists _ _) (sat_for (range_step n cond) ranges_inv n (0%nat, n, [])
    ltac:(unfold ranges_inv; rewrite Nat.eqb_refl; split_and!; [done|set_solver|lia|lia|done])
    ltac:(intros i st Hi Hst; by apply range_step_ok))) as ([[cnt b] rs] & -> & -> & Hr & Hb & _ & Hrs).
  cbn [mbind res_bind]. set (rs' := if negb (b =? n)%nat then rs ++ [(b, n)] else rs).
  assert (range_cells rs' = filter (fun i => f i = true) (seq 0 n)) as Hrs'.
  { unfold rs'. destruct (b =? n)%nat; cbn [negb]; [by rewrite app_nil_r in Hrs|by rewrite range_cells_snoc]. }
  exists rs'. rewrite assert_ok.
  - split_and!; [done|done|]. unfold rs'. destruct (b =? n)%nat eqn:Eb; cbn [negb]; [done|].
    intros r [Hin| ->%list_elem_of_singleton]%elem_of_app; [by apply Hr|simpl].
    apply Nat.eqb_neq in Eb. lia.
  - rewrite <- Hrs', length_range_cells. apply Nat.eqb_refl.
Qed.

End ranges.

Lemma elem_of_range_cells rs n i :
  (forall r, r ∈ rs -> (fst r <= snd r <= n)%nat) -> i ∈ range_cells rs -> (i < n)%nat.
Proof.
  intros Hr Hi. unfold range_cells in Hi. apply elem_of_concat_fmap in Hi as (r & Hin & Hs).
  apply elem_of_seq in Hs. specialize (Hr r Hin). lia.
Qed.

(** ** Writers *)

Lemma wr_for_ok {A} (f : A -> res (list Z)) (g : A -> list Z) l :
  (forall x, x ∈ l -> f x = Ok (g x)) -> wr_for f l = Ok (concat (g <$> l)).
Proof. intros H. unfold wr_for. by rewrite (mmap_fmap f g l H). Qed.

Lemma concat_ranges {B} (g : nat -> list B) rs :
  concat ((fun r => concat (g <$> seq (fst r) (snd r - fst r))) <$> rs) = concat (g <$> range_cells rs).
Proof.
  unfold range_cells. induction rs as [|r rs IH]; [done|]. cbn [fmap list_fmap concat].
  rewrite fmap_app, concat_app. f_equal. exact IH.
Qed.

(** Writing cell by cell along the ranges is writing the cells. *)
Lemma wr_ranges f (g : nat -> list Z) rs :
  (forall i, i ∈ range_cells rs -> f i = Ok (g i)) ->
  wr_for (fun r => wr_for f (seq (fst r) (snd r - fst r))) rs = Ok (concat (g <$> range_cells rs)).
Proof.
  intros H. rewrite <- concat_ranges. apply wr_for_ok. intros r Hr. apply wr_for_ok. intros i Hi. apply H.
  apply elem_of_concat_fmap. by exists r.
Qed.

Lemma tensor_get_ok t strm off size d :
  t_data t !! strm = Some d -> (off + size <= length d)%nat -> tensor_get t strm off size = Ok (take size (drop off d)).
Proof.
  intros Hd Hl. unfold tensor_get. rewrite (proj2 (vec_get_ok _ _ _) Hd). cbn [mbind res_bind].
  destruct (size =? 0)%nat eqn:E; [apply Nat.eqb_eq in E; by subst|].
  by rewrite assert_ok by (by apply Nat.leb_le).
Qed.

Definition rows_bytes (t : kv_tensor) (d : list Z) (idxs : list nat) : list Z :=
  put_i32 (t_type t) ++ put_u64 (Z.of_nat (t_row t)) ++ concat (item (t_row t) d <$> idxs).

Lemma write_rows_ok t strm rs d n :
  t_data t !! strm = Some d -> (forall r, r ∈ rs -> (fst r <= snd r <= n)%nat) -> (n * t_row t <= length d)%nat ->
  write_rows t strm rs = Ok (rows_bytes t d (range_cells rs)).
Proof.
  intros Hd Hr Hl. unfold write_rows. rewrite (wr_for_ok _
    (fun r => concat (item (t_row t) d <$> seq (fst r) (snd r - fst r)))).
  - cbn [mbind res_bind]. by rewrite concat_ranges.
  - intros r Hin. specialize (Hr r Hin). rewrite <- take_items. apply tensor_get_ok; [done|]. nia.
Qed.

Definition trans_bytes (kv_size : nat) (t : kv_tensor) (d : list Z) (idxs : list nat) : list Z :=
  put_i32 (t_type t) ++ put_u32 (Z.of_nat (t_el t)) ++ put_u32 (Z.of_nat (t_gqa t)) ++
  concat ((fun j => concat ((fun i => item (t_el t) d (j * kv_size + i)) <$> idxs)) <$> seq 0 (t_gqa t)).

(** The 32-bit offset of the writer is the intended one while the whole tensor is below 4 GiB. *)
Lemma trans_src_offset_ok kv_size first j el gqa :
  (first <= kv_size)%nat -> (j < gqa)%nat -> (0 < el)%nat -> Z.of_nat (kv_size * gqa * el) < 2 ^ 32 ->
  trans_src_offset kv_size first j el = ((j * kv_size + first) * el)%nat.
Proof.
  intros Hf Hj He Hb. unfold trans_src_offset, u32.
  assert (j * kv_size + kv_size <= kv_size * gqa)%nat by nia.
  assert ((j * kv_size + first) * el <= kv_size * gqa * el)%nat by (apply Nat.mul_le_mono_r; lia).
  assert (j * kv_size + first <= (j * kv_size + first) * el)%nat by nia.
  rewrite <- Nat2Z.inj_mul, (Z.mod_small (Z.of_nat (j * kv_size))) by lia.
  rewrite <- Nat2Z.inj_add, (Z.mod_small (Z.of_nat (first + _))) by lia.
  replace (first + j * kv_size)%nat with (j * kv_size + first)%nat by lia.
  rewrite <- Nat2Z.inj_mul, Z.mod_small by lia. apply Nat2Z.id.
Qed.

Lemma write_trans_ok t strm rs d n :
  t_data t !! strm = Some d -> (forall r, r ∈ rs -> (fst r <= snd r <= n)%nat) ->
  (n * t_gqa t * t_el t <= length d)%nat -> (0 < t_el t)%nat -> Z.of_nat (n * t_gqa t * t_el t) < 2 ^ 32 ->
  write_trans n t strm rs = Ok (trans_bytes n t d (range_cells rs)).
Proof.
  intros Hd Hr Hl He Hb. unfold write_trans. rewrite (wr_for_ok _
    (fun j => concat ((fun i => item (t_el t) d (j * n + i)) <$> range_cells rs))); [done|].
  intros j Hj%elem_of_seq. rewrite <- concat_ranges. apply wr_for_ok. intros r Hin. specialize (Hr r Hin).
  rewrite (trans_src_offset_ok n (fst r) j (t_el t) (t_gqa t)) by lia.
  assert (j * n + snd r <= n * t_gqa t)%nat as Hj' by nia.
  apply (Nat.mul_le_mono_r _ _ (t_el t)) in Hj'.
  assert ((j * n + fst r) * t_el t + (snd r - fst r) * t_el t = (j * n + snd r) * t_el t)%nat as Hs
    by (rewrite <- Nat.mul_add_distr_r; f_equal; lia).
  rewrite (tensor_get_ok t strm _ _ d Hd) by lia. rewrite take_items. do 2 f_equal.
  rewrite <- (fmap_add_seq (j * n)), <- list_fmap_compose. done.
Qed.

(** ** Putting items into a tensor *)

(** [d'] is [d] with item [i] of [src] at [base + idxs\[i\] * size], for the first [m] items. *)
Record scattered (size base : nat) (idxs : list nat) (m : nat) (src d d' : list Z) : Prop := {
  sc_len : length d' = length d;
  sc_in  : forall i b q, (i < m)%nat -> idxs !! i = Some b -> (q < size)%nat ->
             d' !! (base + b * size + q)%nat = src !! (i * size + q)%nat;
  sc_out : forall p, (forall i b, (i < m)%nat -> idxs !! i = Some b -> ~ (base + b * size <= p < base + (b + 1) * size)%nat) ->
             d' !! p = d !! p
}.

Definition put_data (t : kv_tensor) (strm : nat) (d : list Z) : kv_tensor := with_data (<[strm := d]> (t_data t)) t.

Lemma put_data_id t strm d : t_data t !! strm = Some d -> put_data t strm d = t.
Proof. intros Hd. unfold put_data, with_data. rewrite list_insert_id by done. by destruct t. Qed.

Lemma tensor_set_ok t strm off bs d :
  t_data t !! strm = Some d -> (off + length bs <= length d)%nat ->
  exists d', tensor_set t strm off bs = Ok (put_data t strm d') /\ length d' = length d /\
    forall p, d' !! p = if decide (off <= p < off + length bs)%nat then bs !! (p - off)%nat else d !! p.
Proof.
  intros Hd Hl. unfold tensor_set. rewrite (proj2 (vec_get_ok _ _ _) Hd). cbn [mbind res_bind].
  destruct (length bs =? 0)%nat eqn:E.
  { apply Nat.eqb_eq in E. exists d. rewrite put_data_id by done. split_and!; [done|done|]. intros p.
    by rewrite decide_False by lia. }
  rewrite assert_ok by (by apply Nat.leb_le). cbn [mbind res_bind]. unfold vec_set.
  rewrite decide_True by (by eapply lookup_lt_Some). eexists. split_and!; [done| |].
  { rewrite !length_app, length_take, length_drop. lia. }
  intros p. destruct (decide (p < off)%nat) as [Hp|Hp].
  { rewrite decide_False by lia. rewrite lookup_app_l, lookup_take_lt by (rewrite ?length_take; lia). done. }
  rewrite lookup_app_r by (rewrite length_take; lia). rewrite length_take, Nat.min_l by lia. case_decide as Hc.
  { by rewrite lookup_app_l by lia. }
  rewrite lookup_app_r, lookup_drop by lia. f_equal. lia.
Qed.

Section scatter.
Context (strm size base count : nat) (off : nat -> nat) (idxs : list nat) (src d0 : list Z) (t0 : kv_tensor).
Context (Ht : t_data t0 !! strm = Some d0) (Hlen : length idxs = count) (Hnd : NoDup idxs)
  (Hoff : forall b, b ∈ idxs -> off b = (base + b * size)%nat /\ (base + (b + 1) * size <= length d0)%nat)
  (Hsrc : length src = (count * size)%nat).

Lemma put_put d d' : put_data (put_data t0 strm d) strm d' = put_data t0 strm d'.
Proof. unfold put_data, with_data. simpl. by rewrite list_insert_insert_eq. Qed.

Lemma put_lookup d : t_data (put_data t0 strm d) !! strm = Some d.
Proof. simpl. rewrite list_lookup_insert_eq; [done|]. by eapply lookup_lt_Some. Qed.

(** One item of the slow path. *)
Lemma scatter_step i b d :
  (i < count)%nat -> idxs !! i = Some b -> scattered size base idxs i src d0 d ->
  exists d', tensor_set (put_data t0 strm d) strm (off b) (item size src i) = Ok (put_data t0 strm d') /\
    scattered size base idxs (i + 1) src d0 d'.
Proof.
  intros Hi Hb [Sl Sin Sout]. destruct (Hoff b) as [Ho Hfit]; [by eapply list_elem_of_lookup_2|].
  assert (length (item size src i) = size) as Hit by (apply length_item; nia).
  destruct (tensor_set_ok (put_data t0 strm d) strm (off b) (item size src i) d) as (d' & -> & Hl & Hd').
  { apply put_lookup. } { rewrite Hit, Ho, Sl. lia. }
  exists d'. split; [by rewrite put_put|]. rewrite Hit, Ho in Hd'. split.
  - congruence.
  - intros j c q Hj Hc Hq. rewrite Hd'. destruct (decide (j = i)) as [->|Hne].
    + simplify_eq. rewrite decide_True by lia. rewrite lookup_item by lia. f_equal. lia.
    + assert (c <> b) as Hcb by (intros ->; by apply Hne, (NoDup_lookup idxs _ _ b)).
      rewrite decide_False.
      * apply (Sin j c q); [lia|done|done].
      * intros ?. apply Hcb. nia.
  - intros p Hp. rewrite Hd'. rewrite decide_False.
    + apply Sout. intros j c Hj Hc. apply (Hp j c); [lia|done].
    + specialize (Hp i b). intros ?. apply Hp; [lia|done|lia].
Qed.

Lemma scatter_ok si :
  si_idxs si = [idxs] -> (0 < count)%nat ->
  exists d', scatter t0 strm si count size off src = Ok (put_data t0 strm d') /\
    scattered size base idxs count src d0 d'.
Proof.
  intros Hsi Hc. unfold scatter. destruct (slot_contiguous si) eqn:Ec.
  - unfold slot_contiguous in Ec. rewrite Hsi in Ec. destruct idxs as [|h l]; [simpl in Hlen; lia|].
    cbn [length Nat.ltb] in Ec. simpl in Ec. apply bool_decide_eq_true in Ec.
    change (h :: l = seq h (S (length l))) in Ec.
    unfold slot_head. rewrite Hsi. cbn [mbind res_bind assert_ length Nat.eqb head of_option].
    assert (forall i b, (h :: l) !! i = Some b -> b = (h + i)%nat /\ (i < count)%nat) as Hseq.
    { intros i b Hb. pose proof (lookup_lt_Some _ _ _ Hb). rewrite Ec in Hb. apply lookup_seq in Hb. lia. }
    destruct (Hoff h) as [Ho _]; [set_solver|].
    assert (base + (h + count) * size <= length d0)%nat as Hfit.
    { destruct (lookup_lt_is_Some_2 (h :: l) (count - 1)) as [b Hb]; [lia|].
      destruct (Hoff b) as [_ Hfit]; [by eapply list_elem_of_lookup_2|]. apply Hseq in Hb as [-> _].
      replace (h + (count - 1) + 1)%nat with (h + count)%nat in Hfit by lia. done. }
    destruct (tensor_set_ok t0 strm (off h) src d0) as (d' & -> & Hl & Hd'); [done|rewrite Ho, Hsrc; lia|].
    exists d'. split; [done|]. rewrite Ho, Hsrc in Hd'. split; [done| |].
    + intros i b q Hi [-> _]%Hseq Hq. rewrite Hd'.
      assert ((i + 1) * size <= count * size)%nat by (apply Nat.mul_le_mono_r; lia).
      rewrite decide_True by lia. f_equal. lia.
    + intros p Hp. rewrite Hd'. rewrite decide_False; [done|]. intros Hin.
      set (r := (p - (base + h * size))%nat). assert (r < count * size)%nat as Hr by lia.
      assert (0 < size)%nat as Hs0 by nia.
      assert (r / size < count)%nat as Hi by (apply Nat.Div0.div_lt_upper_bound; lia).
      destruct (lookup_lt_is_Some_2 (h :: l) (r / size)) as [b Hb]; [lia|].
      pose proof Hb as [-> _]%Hseq. apply (Hp _ _ Hi Hb). pose proof (Nat.div_mod r size). pose proof (Nat.mod_upper_bound r size).
      lia.
  - rewrite Hsi. cbn [vec_get lookup list_lookup of_option mbind res_bind].
    destruct (proj1 (sat_exists _ _) (sat_for (fun t i => idx ← vec_get idxs i;
        tensor_set t strm (off idx) (item size src i))
      (fun i t => exists d, t = put_data t0 strm d /\ scattered size base idxs i src d0 d) count t0
      ltac:(exists d0; split; [by rewrite put_data_id|split; [done|intros; lia|done]])
      ltac:(intros i t Hi (d & -> & Sd); destruct (lookup_lt_is_Some_2 idxs i) as [b Hb]; [lia|];
            rewrite (proj2 (vec_get_ok _ _ _) Hb); cbn [mbind res_bind];
            destruct (scatter_step i b d Hi Hb Sd) as (d' & -> & Sd'); by exists d')))
      as (t & Hrun & d' & -> & Sd'). by exists d'.
Qed.
End scatter.

(** ** Readers *)

Lemma reads_app_nil {A} (m : io A) bs a : reads m (bs ++ []) a -> reads m bs a.
Proof. by rewrite app_nil_r. Qed.

(** The header fields that must agree. *)
Definition tensor_like (t0 t1 : kv_tensor) : Prop :=
  t_type t1 = t_type t0 /\ t_row t1 = t_row t0 /\ t_el t1 = t_el t0 /\ t_gqa t1 = t_gqa t0.

(** The header fields fit the integers they are saved in. *)
Definition tensor_header (t : kv_tensor) : Prop :=
  - 2 ^ 31 <= t_type t < 2 ^ 31 /\ Z.of_nat (t_row t) < 2 ^ 64 /\
  Z.of_nat (t_el t) < 2 ^ 32 /\ Z.of_nat (t_gqa t) < 2 ^ 32.

Section readers.
Context (strm : nat) (si : slot_info) (idxs0 idxs1 : list nat) (n0 n1 : nat).
Context (Hsi : si_idxs si = [idxs1]) (Hlen : length idxs0 = length idxs1) (Hpos : (0 < length idxs1)%nat)
  (Hnd : NoDup idxs1) (Hr0 : forall a, a ∈ idxs0 -> (a < n0)%nat) (Hr1 : forall b, b ∈ idxs1 -> (b < n1)%nat).

(** The items of [d0] at [idxs0] are now those of [d'] at [idxs1]; [d1] elsewhere. *)
Definition sent (size off0 off1 : nat) (d0 d1 d' : list Z) : Prop :=
  (forall i a b, idxs0 !! i = Some a -> idxs1 !! i = Some b -> item size d' (off1 + b) = item size d0 (off0 + a)) /\
  (forall b, b ∉ idxs1 -> (b < n1)%nat -> item size d' (off1 + b) = item size d1 (off1 + b)).

Lemma items_length size off d : ((off + n0) * size <= length d)%nat ->
  forall l, l ∈ ((fun i => item size d (off + i)) <$> idxs0) -> length l = size.
Proof.
  intros Hd l (a & -> & Ha%Hr0)%list_elem_of_fmap. apply length_item.
  etrans; [|exact Hd]. apply Nat.mul_le_mono_r. lia.
Qed.

Lemma scattered_sent size off0 off1 d0 d1 d' :
  ((off0 + n0) * size <= length d0)%nat ->
  scattered size (off1 * size) idxs1 (length idxs1) (concat ((fun i => item size d0 (off0 + i)) <$> idxs0)) d1 d' ->
  sent size off0 off1 d0 d1 d'.
Proof.
  intros Hd0 [_ Sin Sout]. split.
  - intros i a b Ha Hb. pose proof (lookup_lt_Some _ _ _ Hb) as Hi.
    rewrite <- (item_concat size ((fun i => item size d0 (off0 + i)) <$> idxs0) i (item size d0 (off0 + a))).
    + apply item_ext. intros q Hq. rewrite <- (Sin i b q Hi Hb Hq). f_equal. lia.
    + by apply items_length.
    + by rewrite list_lookup_fmap, Ha.
  - intros b Hb _. apply item_ext. intros q Hq. apply Sout. intros i c Hi Hc Hin.
    apply Hb. assert (c = b) as ->; [|by eapply list_elem_of_lookup_2].
    rewrite Nat.mul_add_distr_r, <- Nat.add_assoc in Hin. nia.
Qed.

(** One copy of [length idxs1] items, as the readers do it. *)
Lemma scatter_sent size off0 off1 (off : nat -> nat) t d0 d1 :
  t_data t !! strm = Some d1 -> ((off0 + n0) * size <= length d0)%nat -> ((off1 + n1) * size <= length d1)%nat ->
  (forall b, b ∈ idxs1 -> off b = ((off1 + b) * size)%nat) ->
  let src := concat ((fun i => item size d0 (off0 + i)) <$> idxs0) in
  length src = (length idxs1 * size)%nat /\
  exists d', scatter t strm si (length idxs1) size off src = Ok (put_data t strm d') /\
    length d' = length d1 /\ sent size off0 off1 d0 d1 d' /\
    (forall p, (p < off1 * size \/ (off1 + n1) * size <= p)%nat -> d' !! p = d1 !! p).
Proof.
  intros Ht Hd0 Hd1 Hoff src. assert (length src = (length idxs1 * size)%nat) as Hs.
  { unfold src. rewrite (length_concat_items size); [by rewrite length_fmap, Hlen|by apply items_length]. }
  split; [done|]. destruct (scatter_ok strm size (off1 * size) (length idxs1) off idxs1 src d1 t Ht) with (si := si)
    as (d' & Hrun & Hsc); try done.
  { intros b Hb. rewrite Hoff by done. split; [lia|]. apply Hr1 in Hb.
    etrans; [|exact Hd1]. rewrite <- Nat.mul_add_distr_r. apply Nat.mul_le_mono_r. lia. }
  exists d'. split; [done|]. split; [by destruct Hsc|]. split; [by apply scattered_sent|].
  intros p Hp. destruct Hsc as [_ _ Sout]. apply Sout. intros i c Hi Hc Hin.
  assert (c < n1)%nat as Hcn by (apply Hr1; by eapply list_elem_of_lookup_2).
  assert ((c + 1) * size <= n1 * size)%nat by (apply Nat.mul_le_mono_r; lia). lia.
Qed.

Lemma read_rows_ok t0 t1 d0 d1 :
  tensor_like t0 t1 -> tensor_header t0 -> t_data t1 !! strm = Some d1 ->
  (n0 * t_row t0 <= length d0)%nat -> (n1 * t_row t0 <= length d1)%nat ->
  exists d', reads (read_rows t1 strm (length idxs1) si) (rows_bytes t0 d0 idxs0) (put_data t1 strm d', true) /\
    length d' = length d1 /\ sent (t_row t0) 0 0 d0 d1 d'.
Proof.
  intros (Ety & Erow & _) (Hty & Hrow & _) Ht Hd0 Hd1.
  destruct (scatter_sent (t_row t0) 0 0 (fun i => i * t_row t0)%nat t1 d0 d1 Ht) as (Hs & d' & Hrun & Hl & Hsent & _);
    [done|done|done|]. exists d'. split; [|done].
  unfold read_rows, rows_bytes. eapply reads_bind; [by apply reads_i32|].
  rewrite Ety, Z.eqb_refl. cbn [negb]. eapply reads_bind; [apply reads_u64; lia|].
  rewrite Erow, Z.eqb_refl. cbn [negb]. rewrite (proj2 (Nat.eqb_neq _ _)) by lia.
  apply reads_app_nil. eapply reads_bind; [by apply reads_read|].
  eapply reads_lift_bind; [exact Hrun|]. apply reads_ret.
Qed.

(** Channel by channel: after [j] channels. *)
Definition chans_sent (j : nat) (t0 t1 : kv_tensor) (d0 d1 : list Z) (t : kv_tensor) : Prop :=
  exists d', t = put_data t1 strm d' /\ length d' = length d1 /\
    (forall j', (j' < j)%nat -> sent (t_el t0) (j' * n0) (j' * n1) d0 d1 d') /\
    (forall p, (j * n1 * t_el t0 <= p)%nat -> d' !! p = d1 !! p).

Lemma trans_dst_offset_ok j el gqa b :
  (j < gqa)%nat -> (b < n1)%nat -> Z.of_nat (n1 * gqa) < 2 ^ 32 -> trans_dst_offset n1 j el b = ((j * n1 + b) * el)%nat.
Proof.
  intros Hj Hb Hw. unfold trans_dst_offset, u32. assert (j * n1 + n1 <= n1 * gqa)%nat by nia.
  rewrite <- Nat2Z.inj_mul, (Z.mod_small (Z.of_nat (j * n1))) by lia.
  rewrite <- Nat2Z.inj_add, Z.mod_small, Nat2Z.id by lia. f_equal. lia.
Qed.

Lemma chan_step t0 t1 d0 d1 t j :
  tensor_like t0 t1 -> (j < t_gqa t0)%nat -> t_data t1 !! strm = Some d1 ->
  (n0 * t_gqa t0 * t_el t0 <= length d0)%nat -> (n1 * t_gqa t0 * t_el t0 <= length d1)%nat ->
  Z.of_nat (n1 * t_gqa t0) < 2 ^ 32 -> chans_sent j t0 t1 d0 d1 t ->
  exists t', reads (io_bind (io_read (length idxs1 * t_el t)) (fun src =>
                      io_lift (scatter t strm si (length idxs1) (t_el t) (trans_dst_offset n1 j (t_el t)) src)))
               (concat ((fun i => item (t_el t0) d0 (j * n0 + i)) <$> idxs0)) t' /\
    chans_sent (j + 1) t0 t1 d0 d1 t'.
Proof.
  intros (_ & _ & Eel & Egqa) Hj Ht Hd0 Hd1 Hw (d & -> & Hl & Hs & Hout). cbn [put_data with_data t_el]. rewrite Eel.
  assert (forall n : nat, ((j * n + n) * t_el t0 <= n * t_gqa t0 * t_el t0)%nat) as Hfit
    by (intros n; apply Nat.mul_le_mono_r; nia).
  pose proof (Hfit n0) as Hf0. pose proof (Hfit n1) as Hf1. rewrite Nat.mul_add_distr_r in Hf1.
  destruct (scatter_sent (t_el t0) (j * n0) (j * n1) (trans_dst_offset n1 j (t_el t0)) (put_data t1 strm d) d0 d)
    as (Hsrc & d' & Hrun & Hl' & Hsent & Hkeep).
  { apply (put_lookup strm d1 t1 Ht). } { lia. } { lia. }
  { intros b Hb. apply (trans_dst_offset_ok j _ (t_gqa t0)); auto. }
  exists (put_data t1 strm d'). split.
  { apply reads_app_nil. eapply reads_bind; [by apply reads_read|]. apply reads_lift. rewrite Hrun.
    by rewrite (put_put strm t1). }
  exists d'. split_and!; [done|congruence| |].
  - intros j' Hj'. destruct (decide (j' = j)) as [->|Hne].
    + destruct Hsent as [H1 H2]. split; [exact H1|]. intros b Hb Hbn. rewrite H2 by done.
      apply item_ext. intros q Hq. apply Hout. nia.
    + destruct (Hs j' ltac:(lia)) as [H1 H2].
      assert (forall b, (b < n1)%nat -> item (t_el t0) d' (j' * n1 + b) = item (t_el t0) d (j' * n1 + b)) as Hsame.
      { intros b Hb. apply item_ext. intros q Hq. apply Hkeep. left.
        assert (j' * n1 + b + 1 <= j * n1)%nat as Hle by nia. apply (Nat.mul_le_mono_r _ _ (t_el t0)) in Hle. lia. }
      split.
      * intros i a b Ha Hb. rewrite Hsame by (apply Hr1; by eapply list_elem_of_lookup_2). by apply (H1 i).
      * intros b Hb Hbn. rewrite Hsame by done. by apply H2.
  - intros p Hp. rewrite Hkeep by lia. apply Hout. lia.
Qed.

Lemma read_trans_ok t0 t1 d0 d1 :
  tensor_like t0 t1 -> tensor_header t0 -> t_data t1 !! strm = Some d1 ->
  (n0 * t_gqa t0 * t_el t0 <= length d0)%nat -> (n1 * t_gqa t0 * t_el t0 <= length d1)%nat ->
  Z.of_nat (n1 * t_gqa t0) < 2 ^ 32 ->
  exists d', reads (read_trans t1 n1 strm (length idxs1) si) (trans_bytes n0 t0 d0 idxs0) (put_data t1 strm d', true) /\
    length d' = length d1 /\ forall j, (j < t_gqa t0)%nat -> sent (t_el t0) (j * n0) (j * n1) d0 d1 d'.
Proof.
  intros Hlike (Hty & _ & Hel & Hgqa) Ht Hd0 Hd1 Hw. pose proof Hlike as (Ety & _ & Eel & Egqa).
  destruct (reads_for (fun t j => io_bind (io_read (length idxs1 * t_el t)) (fun src =>
      io_lift (scatter t strm si (length idxs1) (t_el t) (trans_dst_offset n1 j (t_el t)) src)))
    (fun j => concat ((fun i => item (t_el t0) d0 (j * n0 + i)) <$> idxs0))
    (fun l t => chans_sent (length l) t0 t1 d0 d1 t) (seq 0 (t_gqa t0)) t1) as (t' & Hreads & d' & -> & Hl & Hs & _).
  { exists d1. split_and!; [by rewrite put_data_id|done|simpl; lia|done]. }
  { intros l j r t Heq Hc. assert (seq 0 (t_gqa t0) !! length l = Some j) as Hj by (rewrite Heq; by apply list_lookup_middle).
    apply lookup_seq in Hj as [-> Hj]. rewrite length_app. by apply chan_step. }
  exists d'. rewrite length_seq in Hs. split_and!; [|done|done].
  unfold read_trans, trans_bytes. eapply reads_bind; [by apply reads_i32|].
  rewrite Ety, Z.eqb_refl. cbn [negb]. eapply reads_bind; [apply reads_u32; lia|].
  rewrite Eel, Z.eqb_refl. cbn [negb]. eapply reads_bind; [apply reads_u32; lia|].
  rewrite Egqa, Z.eqb_refl. cbn [negb]. rewrite (proj2 (Nat.eqb_neq _ _)) by lia.
  apply reads_app_nil. eapply reads_bind; [|apply reads_ret]. exact Hreads.
Qed.
End readers.

(** * The K and V of all layers through a saved state

    What [state_write_data] writes for the saved cells of one stream, [state_read_data] puts at
    the cells of the slot: afterwards the K and the V of every saved cell are those of its new
    cell, in every layer, and all other cells and streams are as they were. *)

(** ** The K and the V of one cell *)

Definition stream_data (t : kv_tensor) (s : nat) : list Z := default [] (t_data t !! s).

Definition cell_k (l : kv_layer) (s i : nat) : list Z := item (t_row (ly_k l)) (stream_data (ly_k l) s) i.

(** The channels of the cell when V is transposed ([n] cells per channel), its row otherwise. *)
Definition cell_v (v_trans : bool) (n : nat) (l : kv_layer) (s i : nat) : list (list Z) :=
  match ly_v l with
  | None => []
  | Some v =>
      if v_trans then (fun j => item (t_el v) (stream_data v s) (j * n + i)) <$> seq 0 (t_gqa v)
      else [item (t_row v) (stream_data v s) i]
  end.

(** Same layer in two caches that may differ in size. *)
Definition layer_like (l0 l1 : kv_layer) : Prop :=
  tensor_like (ly_k l0) (ly_k l1) /\ option_Forall2 tensor_like (ly_v l0) (ly_v l1).

(** The view of stream [s] holds [n] cells, and the sizes fit the integers of the format;
    [2 ^ 32] bounds the transposed V of a stream (see [trans_src_offset]). *)
Definition rows_fit (n s : nat) (t : kv_tensor) : Prop :=
  tensor_header t /\ exists d, t_data t !! s = Some d /\ (n * t_row t <= length d)%nat.
Definition trans_fit (n s : nat) (t : kv_tensor) : Prop :=
  tensor_header t /\ (0 < t_el t)%nat /\ Z.of_nat (n * t_gqa t * t_el t) < 2 ^ 32 /\
  exists d, t_data t !! s = Some d /\ (n * t_gqa t * t_el t <= length d)%nat.
Definition v_fit (v_trans : bool) (n s : nat) (l : kv_layer) : Prop :=
  match ly_v l with None => True | Some v => if v_trans then trans_fit n s v else rows_fit n s v end.
Definition layer_fit (v_trans : bool) (n s : nat) (l : kv_layer) : Prop := rows_fit n s (ly_k l) /\ v_fit v_trans n s l.

(** Everything about a layer but the bytes. *)
Definition tensor_shape (t : kv_tensor) := (t_type t, t_row t, t_el t, t_gqa t, length <$> t_data t).
Definition layer_shape (l : kv_layer) := (tensor_shape (ly_k l), tensor_shape <$> ly_v l).

(** The cells [idxs0] of stream [s0] of [l0] have become the cells [idxs1] of stream [s1] of
    [l'], which is [l1] elsewhere. *)
Definition layer_sent (v_trans : bool) (n0 n1 s0 s1 : nat) (idxs0 idxs1 : list nat) (l0 l1 l' : kv_layer) : Prop :=
  layer_shape l' = layer_shape l1 /\
  (forall i a b, idxs0 !! i = Some a -> idxs1 !! i = Some b ->
     cell_k l' s1 b = cell_k l0 s0 a /\ cell_v v_trans n1 l' s1 b = cell_v v_trans n0 l0 s0 a) /\
  (forall b, b ∉ idxs1 -> (b < n1)%nat ->
     cell_k l' s1 b = cell_k l1 s1 b /\ cell_v v_trans n1 l' s1 b = cell_v v_trans n1 l1 s1 b) /\
  (forall s b, s <> s1 -> cell_k l' s b = cell_k l1 s b /\ cell_v v_trans n1 l' s b = cell_v v_trans n1 l1 s b).

Section layers.
Context (v_trans : bool) (s0 s1 : nat) (si : slot_info) (idxs0 idxs1 : list nat) (n0 n1 : nat).
Context (Hsi : si_idxs si = [idxs1]) (Hlen : length idxs0 = length idxs1) (Hpos : (0 < length idxs1)%nat)
  (Hnd : NoDup idxs1) (Hr0 : forall a, a ∈ idxs0 -> (a < n0)%nat) (Hr1 : forall b, b ∈ idxs1 -> (b < n1)%nat).
Local Abbreviation sent := (KvStateLayers.sent idxs0 idxs1 n1).
Local Abbreviation count := (length idxs1).

(** ** One layer *)

Definition k_bytes (l : kv_layer) : list Z := rows_bytes (ly_k l) (stream_data (ly_k l) s0) idxs0.
Definition v_bytes (l : kv_layer) : list Z :=
  match ly_v l with
  | None => []
  | Some v => if v_trans then trans_bytes n0 v (stream_data v s0) idxs0 else rows_bytes v (stream_data v s0) idxs0
  end.

Definition k_sent (l0 l1 l' : kv_layer) : Prop :=
  exists d', l' = mk_layer (put_data (ly_k l1) s1 d') (ly_v l1) /\ (s1 < length (t_data (ly_k l1)))%nat /\
    length d' = length (stream_data (ly_k l1) s1) /\
    sent (t_row (ly_k l0)) 0 0 (stream_data (ly_k l0) s0) (stream_data (ly_k l1) s1) d'.

Definition v_sent1 (v0 v1 v' : kv_tensor) : Prop :=
  exists d', v' = put_data v1 s1 d' /\ (s1 < length (t_data v1))%nat /\
    length d' = length (stream_data v1 s1) /\
    if v_trans then forall j, (j < t_gqa v0)%nat ->
      sent (t_el v0) (j * n0) (j * n1) (stream_data v0 s0) (stream_data v1 s1) d'
    else sent (t_row v0) 0 0 (stream_data v0 s0) (stream_data v1 s1) d'.

Definition v_sent (l0 l1 l' : kv_layer) : Prop :=
  match ly_v l0, ly_v l1 with
  | Some v0, Some v1 => exists v', l' = mk_layer (ly_k l1) (Some v') /\ v_sent1 v0 v1 v'
  | _, _ => l' = l1
  end.

Lemma stream_data_lookup t s d : t_data t !! s = Some d -> stream_data t s = d.
Proof. unfold stream_data. by intros ->. Qed.

Lemma read_k_layer_ok acc l0 l1 :
  layer_like l0 l1 -> layer_fit v_trans n0 s0 l0 -> layer_fit v_trans n1 s1 l1 ->
  exists l', reads (read_k_layer s1 count si (acc, true) l1) (k_bytes l0) (acc ++ [l'], true) /\ k_sent l0 l1 l'.
Proof.
  intros [Hk _] [(Hh & d0 & Hd0 & Hl0) _] [(_ & d1 & Hd1 & Hl1) _].
  pose proof Hk as (_ & Erow & _). rewrite Erow in Hl1.
  destruct (read_rows_ok s1 si idxs0 idxs1 n0 n1 Hsi Hlen Hpos Hnd Hr0 Hr1 (ly_k l0) (ly_k l1) d0 d1 Hk Hh Hd1 Hl0 Hl1)
    as (d' & Hreads & Hld & Hsent).
  exists (mk_layer (put_data (ly_k l1) s1 d') (ly_v l1)). split.
  - unfold read_k_layer, k_bytes. cbn [fst snd negb]. rewrite (stream_data_lookup _ _ _ Hd0).
    apply reads_app_nil. eapply reads_bind; [exact Hreads|apply reads_ret].
  - exists d'. rewrite (stream_data_lookup _ _ _ Hd0), (stream_data_lookup _ _ _ Hd1).
    split_and!; [done|by eapply lookup_lt_Some|done|done].
Qed.

Lemma read_v_ok v0 v1 :
  tensor_like v0 v1 -> (if v_trans then trans_fit n0 s0 v0 else rows_fit n0 s0 v0) ->
  (if v_trans then trans_fit n1 s1 v1 else rows_fit n1 s1 v1) ->
  exists v', reads (if v_trans then read_trans v1 n1 s1 count si else read_rows v1 s1 count si)
               (if v_trans then trans_bytes n0 v0 (stream_data v0 s0) idxs0 else rows_bytes v0 (stream_data v0 s0) idxs0)
               (v', true) /\ v_sent1 v0 v1 v'.
Proof.
  intros Hv. pose proof Hv as (_ & Erow & Eel & Egqa). unfold v_sent1. destruct v_trans.
  - intros (Hh & _ & _ & d0 & Hd0 & Hl0) (_ & Hel & Hw & d1 & Hd1 & Hl1). rewrite Eel, Egqa in *.
    destruct (read_trans_ok s1 si idxs0 idxs1 n0 n1 Hsi Hlen Hpos Hnd Hr0 Hr1 v0 v1 d0 d1 Hv Hh Hd1 Hl0 Hl1)
      as (d' & Hreads & Hld & Hsent); [nia|].
    rewrite (stream_data_lookup _ _ _ Hd0), (stream_data_lookup _ _ _ Hd1).
    exists (put_data v1 s1 d'). split; [done|]. exists d'. split_and!; [done|by eapply lookup_lt_Some|done|done].
  - intros (Hh & d0 & Hd0 & Hl0) (_ & d1 & Hd1 & Hl1). rewrite Erow in *.
    destruct (read_rows_ok s1 si idxs0 idxs1 n0 n1 Hsi Hlen Hpos Hnd Hr0 Hr1 v0 v1 d0 d1 Hv Hh Hd1 Hl0 Hl1)
      as (d' & Hreads & Hld & Hsent).
    rewrite (stream_data_lookup _ _ _ Hd0), (stream_data_lookup _ _ _ Hd1).
    exists (put_data v1 s1 d'). split; [done|]. exists d'. split_and!; [done|by eapply lookup_lt_Some|done|done].
Qed.

Lemma read_v_layer_ok acc l0 l1 :
  option_Forall2 tensor_like (ly_v l0) (ly_v l1) -> v_fit v_trans n0 s0 l0 -> v_fit v_trans n1 s1 l1 ->
  exists l', reads (read_v_layer v_trans n1 s1 count si (acc, true) l1) (v_bytes l0) (acc ++ [l'], true) /\
    v_sent l0 l1 l'.
Proof.
  intros Hv F0 F1. unfold v_fit in F0, F1. unfold read_v_layer, v_bytes, v_sent. cbn [fst snd negb].
  destruct Hv as [v0 v1 Hv|].
  - destruct (read_v_ok v0 v1 Hv F0 F1) as (v' & Hreads & Hsent).
    exists (mk_layer (ly_k l1) (Some v')). split; [|by exists v'].
    apply reads_app_nil. eapply reads_bind; [exact Hreads|apply reads_ret].
  - exists l1. split; [apply reads_ret|done].
Qed.

(** ** All layers *)

Lemma reads_layers {A} (f : list A * bool -> A -> io (list A * bool)) w (P : A -> A -> Prop) (R : A -> A -> A -> Prop) :
  (forall acc l0 l1, P l0 l1 -> exists l', reads (f (acc, true) l1) (w l0) (acc ++ [l'], true) /\ R l0 l1 l') ->
  forall ls0 ls1 acc, Forall2 P ls0 ls1 ->
  exists ls', reads (io_for f ls1 (acc, true)) (concat (w <$> ls0)) (acc ++ ls', true) /\ Forall3 R ls0 ls1 ls'.
Proof.
  intros Hstep ls0 ls1 acc HP. revert acc. induction HP as [|l0 l1 ls0 ls1 H1 HP IH]; intros acc.
  { exists []. rewrite app_nil_r. split; [apply reads_ret|constructor]. }
  destruct (Hstep acc l0 l1 H1) as (l' & Hr & HR). destruct (IH (acc ++ [l'])) as (ls' & Hr' & HR').
  exists (l' :: ls'). rewrite (cons_middle l' acc ls'), (assoc app acc).
  split; [by eapply reads_bind|by constructor].
Qed.

(** The hypotheses on a pair of corresponding layers. *)
Definition layer_pair (l0 l1 : kv_layer) : Prop :=
  layer_like l0 l1 /\ layer_fit v_trans n0 s0 l0 /\ layer_fit v_trans n1 s1 l1.

Lemma stream_data_put t s d s' : (s < length (t_data t))%nat ->
  stream_data (put_data t s d) s' = if decide (s' = s) then d else stream_data t s'.
Proof.
  intros Hs. unfold stream_data, put_data. simpl. case_decide as Hd; [subst|].
  - by rewrite list_lookup_insert_eq.
  - by rewrite list_lookup_insert_ne.
Qed.

Lemma like_gqa l0 l1 v0 v1 : layer_like l0 l1 -> ly_v l0 = Some v0 -> ly_v l1 = Some v1 -> tensor_like v0 v1.
Proof. intros [_ H] E0 E1. rewrite E0, E1 in H. by inversion H. Qed.

Lemma shape_put t s d : (s < length (t_data t))%nat -> length d = length (stream_data t s) ->
  tensor_shape (put_data t s d) = tensor_shape t.
Proof.
  intros Hs Hl. unfold tensor_shape, put_data. simpl. f_equal. rewrite list_fmap_insert. apply list_insert_id.
  rewrite list_lookup_fmap, Hl. unfold stream_data. destruct (lookup_lt_is_Some_2 _ _ Hs) as [x ->]. done.
Qed.

(** Reading the V of a layer after the copy, in one stream. *)
Lemma cell_v_sent l0 l1 lm l' i a b :
  layer_like l0 l1 -> ly_v lm = ly_v l1 -> v_sent l0 lm l' -> idxs0 !! i = Some a -> idxs1 !! i = Some b ->
  cell_v v_trans n1 l' s1 b = cell_v v_trans n0 l0 s0 a.
Proof.
  intros Hlike Em Hv Ha Hb. unfold v_sent in Hv. unfold cell_v. rewrite Em in Hv.
  pose proof (proj2 Hlike) as Ho. destruct (ly_v l0) as [v0|] eqn:E0; inversion Ho as [? v1 Hvv E1 E2|E1 E2].
  - rewrite <- E2 in Hv. destruct Hv as (v' & -> & d' & -> & Hs & _ & Hsent). cbn [ly_v put_data with_data t_el t_row t_gqa].
    destruct Hvv as (_ & Erow & Eel & Egqa).
    change (mk_tensor _ _ _ _ _) with (put_data v1 s1 d'). rewrite (stream_data_put v1 s1 d' s1 Hs), decide_True by done. rewrite Erow, Eel, Egqa. destruct v_trans.
    + apply list_fmap_ext. intros k j [-> Hj]%lookup_seq. by apply (proj1 (Hsent k Hj) i).
    + f_equal. by apply (proj1 Hsent i).
  - subst l'. by rewrite Em, <- E2.
Qed.

Lemma cell_v_kept l0 l1 lm l' s b :
  layer_like l0 l1 -> ly_v lm = ly_v l1 -> v_sent l0 lm l' -> (s = s1 -> (b ∉ idxs1) /\ (b < n1)%nat) ->
  cell_v v_trans n1 l' s b = cell_v v_trans n1 l1 s b.
Proof.
  intros Hlike Em Hv Hb. unfold v_sent in Hv. unfold cell_v. rewrite Em in Hv.
  pose proof (proj2 Hlike) as Ho. destruct (ly_v l0) as [v0|] eqn:E0; inversion Ho as [? v1 Hvv E1 E2|E1 E2].
  - rewrite <- E2 in Hv. destruct Hv as (v' & -> & d' & -> & Hs & _ & Hsent). cbn [ly_v put_data with_data t_el t_row t_gqa].
    destruct Hvv as (_ & Erow & Eel & Egqa).
    change (mk_tensor _ _ _ _ _) with (put_data v1 s1 d'). rewrite (stream_data_put v1 s1 d' s Hs).
    case_decide as Hd; [|done]. subst s. destruct (Hb eq_refl) as [Hb1 Hb2]. rewrite Erow, Eel, Egqa. destruct v_trans.
    + apply list_fmap_ext. intros k j [-> Hj]%lookup_seq. by apply (Hsent k Hj).
    + f_equal. by apply Hsent.
  - subst l'. by rewrite Em, <- E2.
Qed.

Lemma layer_sent_ok l0 l1 lm l' :
  layer_like l0 l1 -> k_sent l0 l1 lm -> v_sent l0 lm l' -> layer_sent v_trans n0 n1 s0 s1 idxs0 idxs1 l0 l1 l'.
Proof.
  intros Hlike (d' & -> & Hs & Hld & Hsent) Hv. pose proof (proj1 Hlike) as (_ & Erow & _).
  assert (ly_k l' = put_data (ly_k l1) s1 d') as Ek.
  { unfold v_sent in Hv. destruct (ly_v l0), (ly_v l1); cbn [ly_v] in Hv; [destruct Hv as (v' & -> & _)|..];
      subst; done. }
  set (lm := mk_layer (put_data (ly_k l1) s1 d') (ly_v l1)) in *.
  assert (forall s b, cell_k l' s b = item (t_row (ly_k l0)) (if decide (s = s1) then d' else stream_data (ly_k l1) s) b) as Hk.
  { intros s b. unfold cell_k. rewrite Ek, stream_data_put by done. cbn [put_data with_data t_row]. by rewrite Erow. }
  split_and!.
  - unfold layer_shape. rewrite Ek, shape_put by done. f_equal. unfold v_sent in Hv. cbn [lm ly_v] in Hv.
    destruct (ly_v l0), (ly_v l1) as [v1|] eqn:E1; [|by subst..].
    destruct Hv as (v' & -> & d'' & -> & Hs' & Hl' & _). cbn [ly_v fmap option_fmap option_map]. by rewrite shape_put.
  - intros i a b Ha Hb. split; [|by apply (cell_v_sent l0 l1 lm l' i)].
    rewrite Hk, decide_True by done. by apply (proj1 Hsent i).
  - intros b Hb Hn. split; [|by apply (cell_v_kept l0 l1 lm l')].
    rewrite Hk, decide_True by done. unfold cell_k. rewrite Erow. by apply (proj2 Hsent).
  - intros s b Hne. split; [|by apply (cell_v_kept l0 l1 lm l')].
    rewrite Hk, decide_False by done. unfold cell_k. by rewrite Erow.
Qed.
Definition data_bytes (ls0 : list kv_layer) : list Z :=
  put_u32 (if v_trans then 1 else 0) ++ put_u32 (Z.of_nat (length ls0)) ++
  concat (k_bytes <$> ls0) ++ concat (v_bytes <$> ls0).

Lemma read_v_layers_ok ls0 ls1 lsm acc :
  Forall2 layer_pair ls0 ls1 -> Forall3 k_sent ls0 ls1 lsm ->
  exists ls', reads (io_for (read_v_layer v_trans n1 s1 count si) lsm (acc, true))
      (concat (v_bytes <$> ls0)) (acc ++ ls', true) /\
    Forall3 (layer_sent v_trans n0 n1 s0 s1 idxs0 idxs1) ls0 ls1 ls'.
Proof.
  intros HP HK. revert acc. induction HK as [|l0 l1 lm ls0 ls1 lsm Hk HK IH]; intros acc.
  { exists []. rewrite app_nil_r. split; [apply reads_ret|constructor]. }
  apply Forall2_cons in HP as [(Hlike & [_ F0] & [_ F1]) HP].
  assert (ly_v lm = ly_v l1) as Em by (by destruct Hk as (d' & -> & _)).
  destruct (read_v_layer_ok acc l0 lm) as (l' & Hr & Hv).
  { rewrite Em. apply Hlike. } { done. } { unfold v_fit. by rewrite Em. }
  destruct (IH HP (acc ++ [l'])) as (ls' & Hr' & HR').
  exists (l' :: ls'). rewrite (cons_middle l' acc ls'), (assoc app acc).
  split; [by eapply reads_bind|]. constructor; [by apply (layer_sent_ok l0 l1 lm)|done].
Qed.

Lemma state_read_data_ok k ls0 ls1 c1 :
  kv_pg_enabled k = false -> kv_cells k !! s1 = Some c1 -> cells_size c1 = n1 -> (count <= n1)%nat ->
  Z.of_nat (length ls0) < 2 ^ 32 -> Forall2 layer_pair ls0 ls1 ->
  exists ls', reads (state_read_data v_trans k ls1 s1 count si) (data_bytes ls0) (ls', true) /\
    Forall3 (layer_sent v_trans n0 n1 s0 s1 idxs0 idxs1) ls0 ls1 ls'.
Proof.
  intros Hpg Hc Hsz Hcnt Hll HP.
  destruct (reads_layers (read_k_layer s1 count si) k_bytes layer_pair k_sent
    ltac:(intros acc l0 l1 (Hlike & F0 & F1); by apply read_k_layer_ok) ls0 ls1 [] HP) as (lsm & HrK & HK).
  destruct (read_v_layers_ok ls0 ls1 lsm [] HP HK) as (ls' & HrV & HV).
  exists ls'. split; [|done]. unfold state_read_data, data_bytes. rewrite Hpg.
  eapply reads_lift_bind; [by apply vec_get_ok|]. eapply reads_bind; [apply reads_u32; destruct v_trans; lia|].
  eapply reads_bind; [apply reads_u32; lia|].
  rewrite (Forall2_length _ _ _ HP), Z.eqb_refl. cbn [negb]. rewrite Hsz, (proj2 (Nat.ltb_ge _ _)) by done.
  replace (negb (Bool.eqb v_trans (negb ((if v_trans then 1 else 0) =? 0)))) with false by (by destruct v_trans).
  eapply reads_bind; [exact HrK|]. cbn [fst snd negb app]. exact HrV.
Qed.

End layers.

Lemma state_write_data_ok v_trans k ls s0 rs c0 n0 :
  kv_pg_enabled k = false -> kv_cells k !! s0 = Some c0 -> cells_size c0 = n0 ->
  (forall r, r ∈ rs -> (fst r <= snd r <= n0)%nat) -> Forall (layer_fit v_trans n0 s0) ls ->
  state_write_data v_trans k ls s0 rs = Ok (data_bytes v_trans s0 (range_cells rs) n0 ls).
Proof.
  intros Hpg Hc Hsz Hr HF. rewrite Forall_forall in HF. unfold state_write_data. rewrite Hpg, (proj2 (vec_get_ok _ _ _) Hc).
  cbn [mbind res_bind]. rewrite (wr_for_ok (fun l => write_rows (ly_k l) s0 rs) (k_bytes s0 (range_cells rs))); cbn [mbind res_bind].
  - rewrite (wr_for_ok _ (v_bytes v_trans s0 (range_cells rs) n0)); [done|]. intros l Hl. destruct (HF l Hl) as [_ F].
    unfold v_fit in F. unfold write_v, v_bytes. destruct (ly_v l) as [v|]; [|done]. rewrite Hsz. destruct v_trans.
    + destruct F as (_ & He & Hw & d & Hd & Hl'). rewrite (stream_data_lookup _ _ _ Hd). by apply write_trans_ok.
    + destruct F as (_ & d & Hd & Hl'). rewrite (stream_data_lookup _ _ _ Hd). by eapply write_rows_ok.
  - intros l Hl. destruct (HF l Hl) as [(_ & d & Hd & Hl') _]. unfold k_bytes. rewrite (stream_data_lookup _ _ _ Hd).
    by eapply write_rows_ok.
Qed.

(** ** What depends on the shape only *)

Lemma shape_lookup t t' s d : tensor_shape t = tensor_shape t' -> t_data t !! s = Some d ->
  exists d', t_data t' !! s = Some d' /\ length d' = length d.
Proof.
  intros E Hd. assert (length <$> t_data t = length <$> t_data t') as El by (by injection E).
  assert ((length <$> t_data t) !! s = Some (length d)) as H by (by rewrite list_lookup_fmap, Hd).
  rewrite El, list_lookup_fmap in H. destruct (t_data t' !! s) as [d'|]; [|done]. simplify_eq/=. by exists d'.
Qed.

Lemma rows_fit_shape n s t t' : tensor_shape t = tensor_shape t' -> rows_fit n s t -> rows_fit n s t'.
Proof.
  intros E (Hh & d & Hd & Hl). destruct (shape_lookup t t' s d E Hd) as (d' & Hd' & Hl').
  injection E as E1 E2 E3 E4 _. split; [|exists d'; rewrite <- E2, Hl'; done].
  unfold tensor_header in *. by rewrite <- E1, <- E2, <- E3, <- E4.
Qed.

Lemma trans_fit_shape n s t t' : tensor_shape t = tensor_shape t' -> trans_fit n s t -> trans_fit n s t'.
Proof.
  intros E (Hh & He & Hw & d & Hd & Hl). destruct (shape_lookup t t' s d E Hd) as (d' & Hd' & Hl').
  injection E as E1 E2 E3 E4 _. unfold trans_fit, tensor_header in *. rewrite <- E1, <- E2, <- E3, <- E4.
  split_and!; try apply Hh; [done|done|]. exists d'. by rewrite Hl'.
Qed.

Lemma layer_fit_shape v_trans n s l l' : layer_shape l = layer_shape l' -> layer_fit v_trans n s l -> layer_fit v_trans n s l'.
Proof.
  intros [= E1 E2 E3 E4 E5 Ev] [Fk Fv]. split.
  - eapply rows_fit_shape, Fk. unfold tensor_shape. congruence.
  - unfold v_fit in *. destruct (ly_v l) as [v|], (ly_v l') as [v'|]; cbn [fmap option_fmap option_map] in Ev; try done.
    injection Ev as ? ? ? ? ?. assert (tensor_shape v = tensor_shape v') by (unfold tensor_shape; congruence).
    destruct v_trans; [by eapply trans_fit_shape|by eapply rows_fit_shape].
Qed.

Lemma layer_like_shape l0 l l' : layer_shape l = layer_shape l' -> layer_like l0 l -> layer_like l0 l'.
Proof.
  intros [= E1 E2 E3 E4 E5 Ev] [Lk Lv]. split.
  - unfold tensor_like in *. by rewrite <- E1, <- E2, <- E3, <- E4.
  - destruct (ly_v l) as [v|], (ly_v l') as [v'|]; cbn [fmap option_fmap option_map] in Ev; try done.
    injection Ev as V1 V2 V3 V4 V5. inversion Lv as [v0 ? H|]; subst. constructor. unfold tensor_like in *.
    by rewrite <- V1, <- V2, <- V3, <- V4.
Qed.

Lemma zero_layer_shape l : layer_shape (zero_layer l) = layer_shape l.
Proof.
  assert (forall t, tensor_shape (zero_tensor t) = tensor_shape t) as H.
  { intros t. unfold tensor_shape, zero_tensor. simpl. f_equal. rewrite <- list_fmap_compose.
    apply list_fmap_ext. intros i d _. simpl. by rewrite length_replicate. }
  unfold layer_shape, zero_layer. simpl. rewrite H. f_equal. destruct (ly_v l); simpl; [by rewrite H|done].
Qed.

Lemma layer_pair_shape v_trans s0 s1 n0 n1 ls0 ls ls' :
  layer_shape <$> ls' = layer_shape <$> ls -> Forall2 (layer_pair v_trans s0 s1 n0 n1) ls0 ls ->
  Forall2 (layer_pair v_trans s0 s1 n0 n1) ls0 ls'.
Proof.
  intros E HP. revert ls' E. induction HP as [|l0 l ls0 ls (Hlike & F0 & F1) HP IH]; intros ls' E.
  { destruct ls'; [constructor|done]. }
  destruct ls' as [|l' ls']; [done|]. cbn [fmap list_fmap] in E. assert (layer_shape l' = layer_shape l) as El by congruence.
  constructor; [|apply IH; congruence]. split_and!; [|done|].
  - by eapply layer_like_shape.
  - by eapply layer_fit_shape.
Qed.

Lemma sent_shape v_trans n0 n1 s0 s1 idxs0 idxs1 ls0 ls1 ls' :
  Forall3 (layer_sent v_trans n0 n1 s0 s1 idxs0 idxs1) ls0 ls1 ls' -> layer_shape <$> ls' = layer_shape <$> ls1.
Proof. induction 1 as [|l0 l1 l' ls0 ls1 ls' [E _] _ IH]; [done|]. cbn [fmap list_fmap]. by rewrite E, IH. Qed.
