(* ===== verification/KvStateWhole.v ===== *)
(** * The cells of a stream through a saved state

    [save_ranges] finds exactly the cells to save, in order; [write_cell] and [read_cell] are
    inverse on what a cell holds, its pending shift apart.  Then all
    streams: restoring a whole cache. *)

From S2P Require Import Prelude KvCells KvCellsInv KvCellsSpec Batch Pages PagesTheory KvCache KvCacheTheory.
From S2P Require Import IoBytes KvState KvStateLayers.

Lemma max_seq_val : LLAMA_MAX_SEQ = 256.
Proof. vm_compute. reflexivity. Qed.

(** ** Which cells are saved *)

Definition saved (seq_id : Z) (a : acell) : bool :=
  negb (a_pos a =? -1) && ((seq_id =? -1) || bool_decide (seq_id ∈ a_seq a)).

Definition saved_at (seq_id : Z) (l : list acell) (i : nat) : bool :=
  match l !! i with Some a => saved seq_id a | None => false end.

(** The saved cells: their indices, and their contents. *)
Definition saved_idxs (seq_id : Z) (l : list acell) : list nat :=
  filter (fun i => saved_at seq_id l i = true) (seq 0 (length l)).
Definition saved_cells (seq_id : Z) (l : list acell) : list acell := filter (fun a => saved seq_id a = true) l.

Definition seq_arg_ok (seq_id : Z) : Prop := seq_id = -1 \/ id_ok seq_id.

Section cells.
Context (c : llama_kv_cells) (W : wf c).
Local Abbreviation l := (abs_cells c).
Local Abbreviation n := (cells_size c).

Lemma save_cond_ok seq_id i : seq_arg_ok seq_id -> (i < n)%nat -> save_cond c seq_id i = Ok (saved_at seq_id l i).
Proof.
  intros Hs Hi. destruct (abs_lookup_lt c i W Hi) as (a & Ha & _).
  destruct (cells_reads_ok c W i a Ha) as (He & _). unfold save_cond. rewrite He. cbn [mbind res_bind].
  unfold saved_at. rewrite Ha. unfold saved. destruct (a_pos a =? -1); [done|]. cbn [negb andb].
  destruct Hs as [->|Hs]; [done|]. destruct (Z.eqb_spec seq_id (-1)) as [->|]; [destruct Hs; lia|].
  by apply cells_seq_has_ok.
Qed.

Lemma save_ranges_ok seq_id : seq_arg_ok seq_id ->
  exists rs, save_ranges c seq_id = Ok (length (saved_idxs seq_id l), rs) /\
    range_cells rs = saved_idxs seq_id l /\ (forall r, r ∈ rs -> (fst r <= snd r <= n)%nat).
Proof.
  intros Hs. unfold save_ranges, saved_idxs. rewrite length_abs by done. fold n.
  apply (cell_ranges_ok n (save_cond c seq_id) (saved_at seq_id l)). intros i Hi. by apply save_cond_ok.
Qed.
End cells.

(** The contents of the saved cells, in order. *)
Lemma saved_idxs_cells seq_id l : (fun i => l !! i) <$> saved_idxs seq_id l = Some <$> saved_cells seq_id l.
Proof.
  unfold saved_idxs, saved_cells. induction l as [|a l IH] using rev_ind; [done|].
  rewrite length_app. cbn [length]. rewrite seq_app, !filter_app, !fmap_app. f_equal.
  - rewrite <- IH. rewrite (filter_bool_agree _ (saved_at seq_id l)).
    + apply list_fmap_ext. intros j i Hj. assert (i ∈ filter (fun i => saved_at seq_id l i = true) (seq 0 (length l))) as Hi
        by (by eapply list_elem_of_lookup_2). apply list_elem_of_filter in Hi as [_ Hi%elem_of_seq].
      by rewrite lookup_app_l by lia.
    + intros i Hi%elem_of_seq. unfold saved_at. by rewrite lookup_app_l by lia.
  - cbn [seq]. rewrite !filter_cons, !filter_nil, Nat.add_0_l.
    assert (saved_at seq_id (l ++ [a]) (length l) = saved seq_id a) as ->
      by (unfold saved_at; by rewrite list_lookup_middle).
    destruct (saved seq_id a); [|done]. simpl. by rewrite list_lookup_middle.
Qed.

Lemma saved_lookup seq_id l j : forall i, saved_idxs seq_id l !! j = Some i ->
  exists a, l !! i = Some a /\ saved_cells seq_id l !! j = Some a /\ saved seq_id a = true.
Proof.
  intros i Hj. assert (((fun i => l !! i) <$> saved_idxs seq_id l) !! j = Some (l !! i)) as H
    by (by rewrite list_lookup_fmap, Hj).
  rewrite saved_idxs_cells, list_lookup_fmap in H. destruct (saved_cells seq_id l !! j) as [a|] eqn:Ea; [|done].
  simplify_eq/=. exists a. split_and!; [done|done|]. apply list_elem_of_lookup_2 in Ea.
  by apply list_elem_of_filter in Ea as [? _].
Qed.

Lemma length_saved seq_id l : length (saved_idxs seq_id l) = length (saved_cells seq_id l).
Proof.
  pose proof (f_equal length (saved_idxs_cells seq_id l)) as H. by rewrite !length_fmap in H.
Qed.

Lemma saved_idxs_lt seq_id l i : i ∈ saved_idxs seq_id l -> (i < length l)%nat.
Proof. unfold saved_idxs. intros [_ H%elem_of_seq]%list_elem_of_filter. lia. Qed.

(** ** One cell *)

(** The sequences of a cell that are saved, and its bytes. *)
Definition saved_ids (n_seq_max : nat) (seq_id : Z) (a : acell) : list Z :=
  filter (fun s => s ∈ a_seq a /\ (s = seq_id \/ seq_id = -1)) (seqZ 0 (Z.of_nat n_seq_max)).

Definition cell_bytes (n_seq_max n_pos_per_embd : nat) (seq_id : Z) (a : acell) : list Z :=
  put_i32 (a_pos a) ++ put_u32 (Z.of_nat (length (saved_ids n_seq_max seq_id a))) ++
  (if (1 <? n_pos_per_embd)%nat then put_i32 (ext_x (a_ext a)) ++ put_i32 (ext_y (a_ext a)) else []) ++
  concat (put_i32 <$> saved_ids n_seq_max seq_id a).

Definition int32_range (z : Z) : Prop := - 2 ^ 31 <= z < 2 ^ 31.

(** The integers of a cell fit the format, and its sequences are those the context serves. *)
Definition cell_fits (n_seq_max : nat) (a : acell) : Prop :=
  int32_range (a_pos a) /\ int32_range (ext_x (a_ext a)) /\ int32_range (ext_y (a_ext a)) /\
  forall s, s ∈ a_seq a -> 0 <= s < Z.of_nat n_seq_max.

(** What survives: the extension only where the model has one, the pending shift never. *)
Definition restored_cell (n_pos_per_embd : nat) (a : acell) : acell :=
  mk_acell (a_pos a) (if (1 <? n_pos_per_embd)%nat then a_ext a else ext_reset) 0 (a_seq a).

Lemma saved_ids_ok c n_seq_max seq_id i a :
  abs_cells c !! i = Some a -> (n_seq_max <= Z.to_nat LLAMA_MAX_SEQ)%nat ->
  save_seq_ids n_seq_max c seq_id i = Ok (saved_ids n_seq_max seq_id a).
Proof.
  intros Ha Hn. unfold save_seq_ids, saved_ids.
  assert (forall m, (m <= n_seq_max)%nat ->
    mfor (fun ids cur => if (cur =? seq_id) || (seq_id =? -1) then
            h ← cells_seq_has c i cur; Ok (if (h : bool) then ids ++ [cur] else ids) else Ok ids)
      (seqZ 0 (Z.of_nat m)) [] =
    Ok (filter (fun s => s ∈ a_seq a /\ (s = seq_id \/ seq_id = -1)) (seqZ 0 (Z.of_nat m)))) as Hm; [|by apply Hm].
  induction m as [|m IH]; intros Hm; [done|].
  rewrite seqZ_S, mfor_app, filter_app, IH by lia. cbn [mbind res_bind mfor].
  rewrite filter_cons, filter_nil. rewrite Z.add_0_l.
  assert ((Z.of_nat m =? seq_id) || (seq_id =? -1) = bool_decide (Z.of_nat m = seq_id \/ seq_id = -1)) as ->.
  { case_bool_decide as Hd; destruct (Z.eqb_spec (Z.of_nat m) seq_id), (Z.eqb_spec seq_id (-1)); naive_solver. }
  case_bool_decide as Hd.
  - rewrite (cells_seq_has_ok c i a) by (done || unfold id_ok; lia). cbn [mbind res_bind].
    case_bool_decide as Hin; [by rewrite decide_True|]. rewrite decide_False by naive_solver. by rewrite app_nil_r.
  - rewrite decide_False by naive_solver. by rewrite app_nil_r.
Qed.

Lemma write_cell_ok c n_seq_max npos seq_id i a :
  wf c -> abs_cells c !! i = Some a -> saved seq_id a = true -> (n_seq_max <= Z.to_nat LLAMA_MAX_SEQ)%nat ->
  write_cell n_seq_max npos c seq_id i = Ok (cell_bytes n_seq_max npos seq_id a).
Proof.
  intros W Ha Hs Hn. unfold write_cell. rewrite (saved_ids_ok c n_seq_max seq_id i a) by done. cbn [mbind res_bind].
  destruct (cells_reads_ok c W i a Ha) as (_ & He & Hp & _). rewrite He, Hp. unfold saved in Hs.
  destruct (a_pos a =? -1); [done|]. cbn [mbind res_bind]. unfold cell_bytes. destruct (1 <? npos)%nat; reflexivity.
Qed.

(** The metadata of a stream. *)
Lemma state_write_meta_ok k s c seq_id rs :
  kv_cells k !! s = Some c -> wf c -> (kv_n_seq_max k <= Z.to_nat LLAMA_MAX_SEQ)%nat ->
  range_cells rs = saved_idxs seq_id (abs_cells c) ->
  state_write_meta k s rs seq_id =
    Ok (concat (cell_bytes (kv_n_seq_max k) (kv_n_pos_per_embd k) seq_id <$> saved_cells seq_id (abs_cells c))).
Proof.
  intros Hc W Hn Hrs. unfold state_write_meta. rewrite (proj2 (vec_get_ok _ _ _) Hc). cbn [mbind res_bind].
  set (g a := cell_bytes (kv_n_seq_max k) (kv_n_pos_per_embd k) seq_id a).
  rewrite (wr_ranges _ (fun i => default [] (g <$> abs_cells c !! i))).
  - rewrite Hrs. do 2 f_equal.
    transitivity ((fun o => default [] (g <$> o)) <$> ((fun i => abs_cells c !! i) <$> saved_idxs seq_id (abs_cells c))).
    { by rewrite <- list_fmap_compose. }
    rewrite saved_idxs_cells, <- list_fmap_compose. done.
  - intros i Hi. rewrite Hrs in Hi. apply list_elem_of_lookup in Hi as [j Hj].
    destruct (saved_lookup seq_id _ j i Hj) as (a & Ha & _ & Hs). rewrite Ha. by apply write_cell_ok.
Qed.

(** ** Reading a cell back *)

(** The loop over the sequences of a cell. *)
Lemma read_seq_ids_ok n_seq_max i c a ids :
  wf c -> abs_cells c !! i = Some a -> a_pos a <> -1 -> (n_seq_max <= Z.to_nat LLAMA_MAX_SEQ)%nat ->
  NoDup ids -> (forall s, s ∈ ids -> 0 <= s < Z.of_nat n_seq_max /\ s ∉ a_seq a) ->
  exists c', reads (io_for (read_seq_id n_seq_max i) (seq 0 (length ids)) (c, true)) (concat (put_i32 <$> ids)) (c', true) /\
    upd_to c i (c_has_shift c) (mk_acell (a_pos a) (a_ext a) (a_shift a) (list_to_set ids ∪ a_seq a)) c'.
Proof.
  intros W Ha Hp Hn Hnd Hids.
  destruct (reads_for_seq (read_seq_id n_seq_max i) put_i32
    (fun j st => exists c', st = (c', true) /\
       upd_to c i (c_has_shift c) (mk_acell (a_pos a) (a_ext a) (a_shift a) (list_to_set (take j ids) ∪ a_seq a)) c')
    ids (c, true)) as (st & Hr & c' & -> & Hc').
  - exists c. split; [done|]. rewrite take_0. split_and!; [done| |done]. rewrite list_insert_id; [done|].
    rewrite Ha. f_equal. destruct a; simpl. f_equal. set_solver.
  - intros j s st Hj (c' & -> & W' & E' & Eb').
    assert (s ∈ ids) as Hin by (by eapply list_elem_of_lookup_2). destruct (Hids s Hin) as [Hs Hfresh].
    assert (Hi : (i < length (abs_cells c))%nat) by (by eapply lookup_lt_Some).
    set (a' := mk_acell (a_pos a) (a_ext a) (a_shift a) (list_to_set (take j ids) ∪ a_seq a)) in *.
    assert (abs_cells c' !! i = Some a') as Ha' by (rewrite E'; by apply list_lookup_insert_eq).
    destruct (proj1 (sat_exists _ _) (sat_cells_seq_add c' i s a' W' Ha' Hp
      ltac:(intros [Hs'%elem_of_list_to_set|Hs']%elem_of_union; [|done];
            apply elem_of_take in Hs' as (j' & Hj1 & Hj2); assert (j' = j) by (by eapply (NoDup_lookup ids)); lia)
      ltac:(lia))) as (c'' & Hadd & W'' & E'' & Eb'').
    exists (c'', true). split.
    + unfold read_seq_id. cbn [fst snd negb]. apply reads_app_nil. eapply reads_bind; [apply reads_i32; rewrite max_seq_val in Hn; lia|].
      assert ((s <? 0) || (Z.of_nat n_seq_max <=? s) = false) as -> by lia.
      eapply reads_lift_bind; [exact Hadd|apply reads_ret].
    + exists c''. split; [done|]. split_and!; [done| |congruence].
      rewrite E'', E', list_insert_insert_eq. f_equal. unfold a'. simpl. f_equal.
      rewrite Nat.add_1_r. erewrite take_S_r by done. rewrite list_to_set_app_L. set_solver.
  - exists c'. split; [done|]. by rewrite firstn_all in Hc'.
Qed.

Lemma saved_ids_set n_seq_max a :
  (forall s, s ∈ a_seq a -> 0 <= s < Z.of_nat n_seq_max) -> list_to_set (saved_ids n_seq_max (-1) a) = a_seq a.
Proof.
  intros H. apply set_eq. intros s. rewrite elem_of_list_to_set. unfold saved_ids.
  rewrite list_elem_of_filter, elem_of_seqZ. naive_solver lia.
Qed.

Lemma read_cell_ok n_seq_max npos c i a :
  wf c -> c_has_shift c = false -> abs_cells c !! i = Some acell_empty -> acell_ok a -> a_pos a <> -1 ->
  (n_seq_max <= Z.to_nat LLAMA_MAX_SEQ)%nat -> cell_fits n_seq_max a ->
  exists c', reads (read_cell n_seq_max npos (c, true) i) (cell_bytes n_seq_max npos (-1) a) (c', true) /\
    upd_to c i false (restored_cell npos a) c'.
Proof.
  intros W Hsh Hi (Hge & _ & _) Hp Hn (Fp & Fx & Fy & Fs).
  assert (Hil : (i < length (abs_cells c))%nat) by (by eapply lookup_lt_Some).
  destruct (proj1 (sat_exists _ _) (sat_cells_pos_set c i (a_pos a) acell_empty W Hi eq_refl ltac:(lia)))
    as (c1 & Hset & W1 & E1 & Eb1).
  set (a1 := mk_acell (a_pos a) ext_reset 0 ∅). change (mk_acell (a_pos a) (a_ext acell_empty) 0 ∅) with a1 in E1.
  assert (abs_cells c1 !! i = Some a1) as Ha1 by (rewrite E1; by apply list_lookup_insert_eq).
  set (a2 := mk_acell (a_pos a) (if (1 <? npos)%nat then a_ext a else ext_reset) 0 ∅).
  assert (exists c2, reads (if (1 <? npos)%nat then io_bind get_ext (fun e => io_lift (cells_ext_set c1 i e)) else io_ret c1)
      (if (1 <? npos)%nat then put_i32 (ext_x (a_ext a)) ++ put_i32 (ext_y (a_ext a)) else []) c2 /\
      upd_to c i false a2 c2) as (c2 & Hr2 & W2 & E2 & Eb2).
  { unfold a2. destruct (1 <? npos)%nat.
    - destruct (proj1 (sat_exists _ _) (sat_cells_ext_set c1 i (a_ext a) a1 W1 Ha1)) as (c2 & Hext & W2 & E2 & Eb2).
      exists c2. split.
      + eapply reads_app_nil, reads_bind; [|apply reads_lift, Hext]. destruct (a_ext a) as [x y].
        eapply reads_bind; [by apply reads_i32|]. apply reads_app_nil. eapply reads_bind; [by apply reads_i32|].
        apply reads_ret.
      + split_and!; [done| |congruence]. by rewrite E2, E1, list_insert_insert_eq.
    - exists c1. split; [apply reads_ret|]. split_and!; [done|done|congruence]. }
  assert (abs_cells c2 !! i = Some a2) as Ha2 by (rewrite E2; by apply list_lookup_insert_eq).
  destruct (read_seq_ids_ok n_seq_max i c2 a2 (saved_ids n_seq_max (-1) a)) as (c3 & Hr3 & W3 & E3 & Eb3); try done.
  { apply NoDup_filter, NoDup_seqZ. }
  { intros s [_ Hs%elem_of_seqZ]%list_elem_of_filter. split; [lia|set_solver]. }
  exists c3. split.
  - unfold read_cell, cell_bytes. cbn [fst snd negb].
    eapply reads_bind; [by apply reads_i32|]. eapply reads_bind.
    { apply reads_u32. split; [lia|]. unfold saved_ids.
      pose proof (length_filter (fun s => s ∈ a_seq a /\ (s = -1 \/ (-1) = -1)) (seqZ 0 (Z.of_nat n_seq_max))) as Hl.
      rewrite length_seqZ in Hl. rewrite max_seq_val in Hn. lia. }
    eapply reads_lift_bind; [exact Hset|]. eapply reads_bind; [exact Hr2|]. rewrite Nat2Z.id. exact Hr3.
  - split_and!; [done| |congruence]. rewrite E3, E2, list_insert_insert_eq. f_equal. unfold restored_cell. simpl. f_equal.
    rewrite saved_ids_set by done. set_solver.
Qed.

(** * Restoring a whole cache

    [state_read] with [seq_id = -1] on what [state_write] wrote: the saved cells of a stream
    are moved to its first cells.  [clear(true)] runs once for every stream that has cells, so
    only the last of those streams survives. *)

(** ** [clear] *)

(** The loop over the streams, after [j] of them. *)
Definition cleared (sz : nat) (k : kv_cache) (j : nat) (k' : kv_cache) : Prop :=
  kv_ok sz k' /\ kv_static k' = kv_static k /\ kv_pg_enabled k' = kv_pg_enabled k /\
  forall s, (s < j)%nat -> exists c, kv_cells k' !! s = Some c /\ wf c /\ c_has_shift c = false /\
    abs_cells c = replicate sz acell_empty.

Lemma clear_step sz k j k' :
  (j < kv_n_stream k)%nat -> cleared sz k j k' ->
  sat (c ← vec_get (kv_cells k') j; k' ← put_cells k' j (cells_reset c); put_head k' j 0%nat) (cleared sz k (j + 1)).
Proof.
  intros Hj (K' & Est & Hpg & Hs). assert (j < kv_n_stream k')%nat as Hj' by (by rewrite (static_n k k')).
  destruct (kv_stream sz k' j K' Hj') as (c & h & Hc & _ & W & Ec & _).
  rewrite (proj2 (vec_get_ok _ _ _) Hc). cbn [mbind res_bind].
  rewrite (sat_put sz k' j (cells_reset c) 0 K' Hj'). apply sat_ok. split_and!; [|done|done|].
  - apply kv_ok_put; [done|apply wf_reset| | |lia].
    + unfold cells_size, cells_reset. simpl. by rewrite length_replicate.
    + rewrite abs_reset. by apply Forall_replicate.
  - intros s Hsj. cbn [kv_put with_heads with_cells kv_cells]. destruct (decide (s = j)) as [->|Hne].
    + rewrite list_lookup_insert_eq by (by rewrite (ko_len _ _ K')).
      exists (cells_reset c). split_and!; [done|apply wf_reset|done|by rewrite abs_reset, Ec].
    + rewrite list_lookup_insert_ne by done. apply Hs. lia.
Qed.

Lemma cache_clear_ok sz k :
  kv_ok sz k -> exists k', cache_clear k = Ok k' /\ cleared sz k (kv_n_stream k) k'.
Proof.
  intros K. unfold cache_clear.
  assert (H0 : cleared sz k 0 k) by (split_and!; [done|done|done|lia]).
  destruct (proj1 (sat_exists _ _) (sat_for _ (cleared sz k) (kv_n_stream k) k H0 (clear_step sz k))) as (k' & -> & Hk').
  cbn [mbind res_bind]. pose proof Hk' as (K' & Est & Hpg & Hs). destruct (kv_pg_enabled k') eqn:Ep; [|by exists k'].
  destruct (proj1 (sat_exists _ _) (sat_pool_clear _ _ _ (ko_pool _ _ K' Ep))) as (P & HP & O' & Ebs & _).
  rewrite HP. cbn [mbind res_bind]. eexists. split; [done|].
  split_and!; [|done|by rewrite <- Hpg|exact Hs]. apply kv_ok_pool; [done|done|]. by rewrite Ebs.
Qed.

(** ** The metadata of a stream *)

(** [a] can be written and read back. *)
Definition cell_saveable (n_seq_max : nat) (a : acell) : Prop :=
  acell_ok a /\ tight a /\ (a_pos a <> -1 -> cell_fits n_seq_max a).

(** The cells of a restored stream. *)
Definition restored_cells (n_pos_per_embd sz : nat) (l : list acell) : list acell :=
  (restored_cell n_pos_per_embd <$> l) ++ replicate (sz - length l) acell_empty.

Lemma read_cells_ok nm np sz c l :
  wf c -> c_has_shift c = false -> abs_cells c = replicate sz acell_empty -> (length l <= sz)%nat ->
  (nm <= Z.to_nat LLAMA_MAX_SEQ)%nat -> (forall a, a ∈ l -> cell_saveable nm a /\ a_pos a <> -1) ->
  exists c', reads (io_for (read_cell nm np) (seq 0 (length l)) (c, true)) (concat (cell_bytes nm np (-1) <$> l)) (c', true) /\
    wf c' /\ c_has_shift c' = false /\ abs_cells c' = restored_cells np sz l.
Proof.
  intros W Hsh Hc Hl Hn Hsave.
  destruct (reads_for_seq (read_cell nm np) (cell_bytes nm np (-1))
    (fun j st => exists c', st = (c', true) /\ wf c' /\ c_has_shift c' = false /\
       abs_cells c' = restored_cells np sz (take j l)) l (c, true)) as (st & Hr & c' & -> & Hc').
  - exists c. split_and!; [done|done|done|]. unfold restored_cells. simpl. by rewrite Nat.sub_0_r.
  - intros j a st Ha (c' & -> & W' & Hsh' & E').
    destruct (Hsave a) as [(Hok & _ & Hfit) Hp]; [by eapply list_elem_of_lookup_2|].
    assert (Hj : (j < length l)%nat) by (by eapply lookup_lt_Some).
    assert (Htk : length (take j l) = j) by (rewrite length_take; lia).
    destruct (read_cell_ok nm np c' j a W' Hsh') as (c'' & Hr & W'' & E'' & Eb''); [|done|done|done|by apply Hfit|].
    { rewrite E'. unfold restored_cells. rewrite lookup_app_r; rewrite length_fmap, Htk; [|lia].
      apply lookup_replicate. split; [done|lia]. }
    exists (c'', true). split; [done|]. exists c''. split_and!; [done|done|done|].
    rewrite E'', E'. unfold restored_cells. rewrite Nat.add_1_r, (take_S_r _ _ a), fmap_app, length_app, Htk by done.
    cbn [fmap list_fmap length]. rewrite insert_app_r_alt; rewrite length_fmap, Htk; [|lia].
    rewrite Nat.sub_diag. replace (sz - j)%nat with (S (sz - (j + 1))) by lia. simpl. by rewrite <- app_assoc.
  - exists c'. split; [done|]. by rewrite firstn_all in Hc'.
Qed.

Lemma tight_restored nm np sz l : (forall a, a ∈ l -> cell_saveable nm a /\ a_pos a <> -1) ->
  Forall tight (restored_cells np sz l).
Proof.
  intros H. unfold restored_cells. apply Forall_app. split; [|by apply Forall_replicate].
  apply Forall_fmap, Forall_forall. intros a Ha. destruct (H a Ha) as [(_ & Ht & _) _]. exact Ht.
Qed.

Lemma read_meta_all_ok sz k ls strm l :
  kv_ok sz k -> kv_pg_enabled k = false -> (strm < kv_n_stream k)%nat -> (length l <= sz)%nat ->
  (kv_n_seq_max k <= Z.to_nat LLAMA_MAX_SEQ)%nat ->
  (forall a, a ∈ l -> cell_saveable (kv_n_seq_max k) a /\ a_pos a <> -1) ->
  exists k', reads (read_meta_all k ls strm (length l))
      (concat (cell_bytes (kv_n_seq_max k) (kv_n_pos_per_embd k) (-1) <$> l))
      (k', zero_layer <$> ls, Some (mk_slot strm strm [strm] [seq 0 (length l)])) /\
    kv_ok sz k' /\ kv_static k' = kv_static k /\ kv_pg_enabled k' = false /\
    stream_cells k' strm = restored_cells (kv_n_pos_per_embd k) sz l /\
    forall s, (s < kv_n_stream k)%nat -> s <> strm -> stream_cells k' s = replicate sz acell_empty.
Proof.
  intros K Hpg Hs Hl Hn Hsave. destruct (kv_stream sz k strm K Hs) as (c0 & h0 & Hc0 & _ & _ & Ec0 & _).
  destruct (cache_clear_ok sz k K) as (k1 & Hclear & K1 & Est1 & Hpg1 & Hempty).
  rewrite Hpg in Hpg1.
  destruct (Hempty strm Hs) as (c1 & Hc1 & W1 & Hsh1 & E1).
  destruct (read_cells_ok (kv_n_seq_max k) (kv_n_pos_per_embd k) sz c1 l) as (c2 & Hr & W2 & Hsh2 & E2); try done.
  assert (strm < kv_n_stream k1)%nat as Hs1 by (by rewrite (static_n k k1)).
  pose proof (sat_put sz k1 strm c2 0 K1 Hs1) as Hput. apply bind_ok in Hput as (k2 & Hput1 & Hput2).
  exists (kv_put k1 strm c2 0). split; [|split_and!].
  - unfold read_meta_all. eapply reads_lift_bind; [by apply vec_get_ok|].
    rewrite Ec0, (proj2 (Nat.ltb_ge _ _)) by done.
    eapply reads_lift_bind; [unfold clear_all; rewrite Hclear; reflexivity|]. cbn [fst snd].
    eapply reads_lift_bind; [by apply vec_get_ok|]. unfold kv_static in Est1.
    replace (kv_n_seq_max k1) with (kv_n_seq_max k) by congruence.
    replace (kv_n_pos_per_embd k1) with (kv_n_pos_per_embd k) by congruence.
    apply reads_app_nil. eapply reads_bind; [exact Hr|]. cbn [fst snd].
    eapply reads_lift_bind; [exact Hput1|]. cbn [negb]. eapply reads_lift_bind; [exact Hput2|]. apply reads_ret.
  - apply kv_ok_put; [done|done| | |lia].
    + unfold cells_size. rewrite <- length_abs, E2 by done. unfold restored_cells.
      rewrite length_app, length_fmap, length_replicate. lia.
    + rewrite E2. by eapply tight_restored.
  - done.
  - done.
  - rewrite stream_cells_put by (by rewrite (ko_len _ _ K1)). by rewrite decide_True.
  - intros s Hsn Hne. rewrite stream_cells_put by (by rewrite (ko_len _ _ K1)). rewrite decide_False by done.
    destruct (Hempty s Hsn) as (c & Hc & _ & _ & E). unfold stream_cells. by rewrite Hc.
Qed.

(** ** A stream *)

(** The bytes of stream [s] of the source. *)
Definition stream_bytes (v_trans : bool) (k : kv_cache) (ls : list kv_layer) (sz s : nat) (seq_id : Z) : list Z :=
  let l := saved_cells seq_id (stream_cells k s) in
  let idxs := saved_idxs seq_id (stream_cells k s) in
  put_u32 (Z.of_nat (length l)) ++
  if (length l =? 0)%nat then []
  else concat (cell_bytes (kv_n_seq_max k) (kv_n_pos_per_embd k) seq_id <$> l) ++ data_bytes v_trans s idxs sz ls.

Section source.
Context (v_trans : bool) (sz0 : nat) (k0 : kv_cache) (ls0 : list kv_layer).

(** A source that can be saved: not paged, and its sizes and contents fit the format. *)
Record saveable : Prop := {
  sv_ok    : kv_ok sz0 k0;
  sv_pg    : kv_pg_enabled k0 = false;
  sv_max   : (kv_n_seq_max k0 <= Z.to_nat LLAMA_MAX_SEQ)%nat;
  sv_size  : Z.of_nat sz0 < 2 ^ 32;
  sv_ns    : Z.of_nat (kv_n_stream k0) < 2 ^ 32;
  sv_nl    : Z.of_nat (length ls0) < 2 ^ 32;
  sv_cells : forall s a, a ∈ stream_cells k0 s -> a_pos a <> -1 -> cell_fits (kv_n_seq_max k0) a;
  sv_fit   : forall s, (s < kv_n_stream k0)%nat -> Forall (layer_fit v_trans sz0 s) ls0
}.
Context (SV : saveable).

Lemma write_stream_ok seq_id s : seq_arg_ok seq_id -> (s < kv_n_stream k0)%nat ->
  write_stream v_trans k0 ls0 seq_id s = Ok (stream_bytes v_trans k0 ls0 sz0 s seq_id).
Proof.
  intros Hq Hs. destruct (kv_stream sz0 k0 s (sv_ok SV) Hs) as (c & h & Hc & _ & W & Ec & _ & Esc & _).
  destruct (save_ranges_ok c W seq_id Hq) as (rs & Hsave & Hcells & Hr). rewrite Ec in Hr.
  unfold write_stream. rewrite (proj2 (vec_get_ok _ _ _) Hc). cbn [mbind res_bind]. rewrite Hsave. cbn [mbind res_bind].
  unfold stream_bytes. rewrite Esc, length_saved. destruct (length _ =? 0)%nat eqn:E0; [by rewrite app_nil_r|].
  rewrite (state_write_meta_ok k0 s c) by (done || apply (sv_max SV)). cbn [mbind res_bind].
  rewrite (state_write_data_ok v_trans k0 ls0 s rs c sz0 (sv_pg SV) Hc Ec Hr (sv_fit SV s Hs)).
  cbn [mbind res_bind]. by rewrite Hcells.
Qed.

(** Saving never stops; the bytes are the streams in order. *)
Lemma state_write_ok seq_id : seq_arg_ok seq_id ->
  state_write v_trans k0 ls0 seq_id =
    Ok (put_u32 (Z.of_nat (kv_n_stream k0)) ++
        concat ((fun s => stream_bytes v_trans k0 ls0 sz0 s seq_id) <$> seq 0 (kv_n_stream k0))).
Proof.
  intros Hq. unfold state_write. rewrite (sv_pg SV).
  rewrite (wr_for_ok _ (fun s => stream_bytes v_trans k0 ls0 sz0 s seq_id)); [done|].
  intros s Hs%elem_of_seq. apply write_stream_ok; [done|lia].
Qed.

Lemma saved_saveable seq_id s a : (s < kv_n_stream k0)%nat -> a ∈ saved_cells seq_id (stream_cells k0 s) ->
  cell_saveable (kv_n_seq_max k0) a /\ a_pos a <> -1.
Proof.
  intros Hs [Hsv Hin]%list_elem_of_filter.
  destruct (kv_stream sz0 k0 s (sv_ok SV) Hs) as (c & h & Hc & _ & W & _ & T & Esc & _).
  assert (a_pos a <> -1) as Hp.
  { unfold saved in Hsv. destruct (Z.eqb_spec (a_pos a) (-1)); [done|done]. }
  split; [|done]. split_and!.
  - rewrite Esc in Hin. apply list_elem_of_lookup in Hin as [i Hi]. by apply (abs_lookup_ok c i a W).
  - rewrite Esc in Hin. rewrite Forall_forall in T. by apply T.
  - by apply (sv_cells SV s).
Qed.

Lemma saved_le seq_id s : (s < kv_n_stream k0)%nat -> (length (saved_cells seq_id (stream_cells k0 s)) <= sz0)%nat.
Proof.
  intros Hs. destruct (kv_stream sz0 k0 s (sv_ok SV) Hs) as (c & h & _ & _ & W & Ec & _ & -> & _).
  etrans; [apply length_filter|]. rewrite length_abs by done. unfold cells_size in Ec. lia.
Qed.
End source.

(** ** Reading the streams back *)

Lemma zero_layer_eq l l' : layer_shape l = layer_shape l' -> zero_layer l = zero_layer l'.
Proof.
  assert (forall t t', tensor_shape t = tensor_shape t' -> zero_tensor t = zero_tensor t') as H.
  { intros t t' [= E1 E2 E3 E4 E5]. unfold zero_tensor, with_data. rewrite E1, E2, E3, E4. f_equal.
    transitivity ((fun n => replicate n 0) <$> (length <$> t_data t)); [by rewrite <- list_fmap_compose|].
    rewrite E5. by rewrite <- list_fmap_compose. }
  intros E. unfold zero_layer. injection E as E1 E2 E3 E4 E5 Ev.
  rewrite (H (ly_k l) (ly_k l')) by (unfold tensor_shape; congruence). f_equal.
  destruct (ly_v l) as [v|], (ly_v l') as [v'|]; cbn [fmap option_fmap option_map] in Ev |- *; try done.
  f_equal. apply H. congruence.
Qed.

Lemma zero_layers_eq (ls ls' : list kv_layer) : layer_shape <$> ls = layer_shape <$> ls' -> zero_layer <$> ls = zero_layer <$> ls'.
Proof.
  revert ls'. induction ls as [|l ls IH]; intros [|l' ls'] E; try done. cbn [fmap list_fmap] in E |- *.
  assert (layer_shape l = layer_shape l' /\ layer_shape <$> ls = layer_shape <$> ls') as [E1 E2]
    by (split; congruence). by rewrite (zero_layer_eq l l' E1), (IH ls' E2).
Qed.

Section restore.
Context (v_trans : bool) (sz0 sz1 : nat) (k0 k1 : kv_cache) (ls0 ls1 : list kv_layer).
Context (SV : saveable v_trans sz0 k0 ls0).

(** A target that can take the state: same model, not paged, and room for the cells. *)
Record restorable : Prop := {
  rt_ok     : kv_ok sz1 k1;
  rt_pg     : kv_pg_enabled k1 = false;
  rt_ns     : kv_n_stream k1 = kv_n_stream k0;
  rt_max    : kv_n_seq_max k1 = kv_n_seq_max k0;
  rt_np     : kv_n_pos_per_embd k1 = kv_n_pos_per_embd k0;
  rt_room   : forall s, (s < kv_n_stream k0)%nat -> (length (saved_cells (-1) (stream_cells k0 s)) <= sz1)%nat;
  rt_layers : forall s, (s < kv_n_stream k0)%nat -> Forall2 (layer_pair v_trans s s sz0 sz1) ls0 ls1
}.
Context (RT : restorable).

Local Abbreviation saved_of s := (saved_cells (-1) (stream_cells k0 s)).

(** The target holds the state of stream [s], at the front, and nothing else. *)
Definition stream_restored (s : nat) (k : kv_cache) (ls : list kv_layer) : Prop :=
  stream_cells k s = restored_cells (kv_n_pos_per_embd k0) sz1 (saved_of s) /\
  (forall s', (s' < kv_n_stream k0)%nat -> s' <> s -> stream_cells k s' = replicate sz1 acell_empty) /\
  Forall3 (layer_sent v_trans sz0 sz1 s s (saved_idxs (-1) (stream_cells k0 s)) (seq 0 (length (saved_of s))))
    ls0 (zero_layer <$> ls1) ls.

(** The restore is still usable for the next stream. *)
Definition target_like (k : kv_cache) (ls : list kv_layer) : Prop :=
  kv_ok sz1 k /\ kv_static k = kv_static k1 /\ kv_pg_enabled k = false /\ layer_shape <$> ls = layer_shape <$> ls1.

Lemma saved_idxs_in_range s i : (s < kv_n_stream k0)%nat -> i ∈ saved_idxs (-1) (stream_cells k0 s) -> (i < sz0)%nat.
Proof.
  intros Hs Hi%saved_idxs_lt. destruct (kv_stream sz0 k0 s (sv_ok _ _ _ _ SV) Hs) as (c & h & _ & _ & W & Ec & _ & Esc & _).
  rewrite Esc, length_abs in Hi by done. unfold cells_size in Ec. lia.
Qed.

Lemma read_stream_ok s k ls :
  (s < kv_n_stream k0)%nat -> saved_of s <> [] -> target_like k ls ->
  exists k' ls', reads (read_stream v_trans (-1) (k, ls, Restored) s) (stream_bytes v_trans k0 ls0 sz0 s (-1))
      (k', ls', Restored) /\ target_like k' ls' /\ stream_restored s k' ls'.
Proof.
  intros Hs Hne (K & Est & Hpg & Esh). set (l := saved_of s) in *. set (idxs := saved_idxs (-1) (stream_cells k0 s)).
  assert (0 < length l)%nat as Hlen by (destruct l; [done|simpl; lia]).
  assert (kv_n_stream k = kv_n_stream k0 /\ kv_n_seq_max k = kv_n_seq_max k0 /\ kv_n_pos_per_embd k = kv_n_pos_per_embd k0)
    as (En & Em & Ep).
  { pose proof (rt_ns RT). pose proof (rt_max RT). pose proof (rt_np RT). unfold kv_static in Est. split_and!; congruence. }
  assert (length l <= sz1)%nat as Hroom by (by apply (rt_room RT)).
  pose proof (saved_le _ _ _ _ SV (-1) s Hs) as Hl0. fold l in Hl0.
  pose proof (sv_size _ _ _ _ SV) as Hsz.
  destruct (read_meta_all_ok sz1 k ls s l K Hpg) as (k' & Hmeta & K' & Est' & Hpg' & Hcells & Hrest);
    [by rewrite En|done|rewrite Em; apply (sv_max _ _ _ _ SV)|rewrite Em; intros a Ha; by eapply saved_saveable|].
  rewrite Em, Ep in Hmeta. rewrite Ep in Hcells. rewrite En in Hrest.
  destruct (kv_stream sz1 k' s K') as (c' & h' & Hc' & _ & _ & Ec' & _); [by rewrite (static_n k k'), En|].
  assert (layer_shape <$> (zero_layer <$> ls) = layer_shape <$> ls) as Ezero.
  { rewrite <- list_fmap_compose. apply list_fmap_ext. intros i x _. apply zero_layer_shape. }
  destruct (state_read_data_ok v_trans s s (mk_slot s s [s] [seq 0 (length l)]) idxs (seq 0 (length l)) sz0 sz1)
    with (k := k') (ls0 := ls0) (ls1 := zero_layer <$> ls) (c1 := c') as (ls' & Hdata & Hsent); try done.
  { rewrite length_seq. apply length_saved. } { by rewrite length_seq. } { apply NoDup_seq. }
  { intros i Hi. by apply (saved_idxs_in_range s). } { intros i Hi%elem_of_seq. lia. } { by rewrite length_seq. }
  { apply (sv_nl _ _ _ _ SV). }
  { eapply layer_pair_shape; [|by apply (rt_layers RT)]. by rewrite Ezero. }
  rewrite length_seq in Hdata.
  exists k', ls'. split; [|split].
  - unfold read_stream, stream_bytes. fold l idxs. eapply reads_bind; [apply reads_u32; lia|].
    rewrite (proj2 (Z.eqb_neq _ _)) by lia. rewrite (proj2 (Nat.eqb_neq _ _)) by lia. rewrite Nat2Z.id.
    eapply reads_lift_bind; [reflexivity|]. eapply reads_bind; [exact Hmeta|]. cbn [fst snd].
    apply reads_app_nil. eapply reads_bind; [exact Hdata|]. apply reads_ret.
  - split_and!; [done|congruence|congruence|]. rewrite (sent_shape _ _ _ _ _ _ _ _ _ _ Hsent), Ezero. done.
  - split_and!; [done|done|]. by rewrite <- (zero_layers_eq ls ls1 Esh).
Qed.

Lemma read_empty_stream s k ls : saved_of s = [] ->
  reads (read_stream v_trans (-1) (k, ls, Restored) s) (stream_bytes v_trans k0 ls0 sz0 s (-1)) (k, ls, Restored).
Proof.
  intros E. unfold read_stream, stream_bytes. rewrite E. cbn [length Nat.eqb].
  eapply reads_bind; [apply reads_u32; lia|]. apply reads_ret.
Qed.

(** After the first [j] streams: the last of them that had cells. *)
Definition restored_upto (j : nat) (k : kv_cache) (ls : list kv_layer) : Prop :=
  ((forall s, (s < j)%nat -> saved_of s = []) /\ k = k1 /\ ls = ls1) \/
  exists m, (m < j)%nat /\ saved_of m <> [] /\ (forall s, (m < s < j)%nat -> saved_of s = []) /\ stream_restored m k ls.

Lemma restore_step j s st :
  (s < kv_n_stream k0)%nat -> s = j ->
  (exists k ls, st = (k, ls, Restored) /\ target_like k ls /\ restored_upto j k ls) ->
  exists st', reads (read_stream v_trans (-1) st s) (stream_bytes v_trans k0 ls0 sz0 s (-1)) st' /\
    exists k ls, st' = (k, ls, Restored) /\ target_like k ls /\ restored_upto (j + 1) k ls.
Proof.
  intros Hs -> (k & ls & -> & Hk & Hup). destruct (decide (saved_of j = [])) as [E|E].
  - exists (k, ls, Restored). split; [by apply read_empty_stream|]. exists k, ls. split_and!; [done|done|].
    destruct Hup as [[H1 H2]|(m & Hm & Hne & Hbetween & Hr)]; [left|right].
    + split; [|done]. intros s' Hs'. destruct (decide (s' = j)) as [->|]; [done|apply H1; lia].
    + exists m. split_and!; [lia|done| |done]. intros s' Hs'. destruct (decide (s' = j)) as [->|]; [done|apply Hbetween; lia].
  - destruct (read_stream_ok j k ls Hs E Hk) as (k' & ls' & Hr & Hk' & Hres).
    exists (k', ls', Restored). split; [done|]. exists k', ls'. split_and!; [done|done|]. right.
    exists j. split_and!; [lia|done|lia|done].
Qed.

Lemma state_read_ok :
  exists k ls, reads (state_read v_trans k1 ls1 (-1))
      (put_u32 (Z.of_nat (kv_n_stream k0)) ++
       concat ((fun s => stream_bytes v_trans k0 ls0 sz0 s (-1)) <$> seq 0 (kv_n_stream k0))) (k, ls, Restored) /\
    target_like k ls /\ restored_upto (kv_n_stream k0) k ls.
Proof.
  destruct (reads_for (read_stream v_trans (-1)) (fun s => stream_bytes v_trans k0 ls0 sz0 s (-1))
    (fun d st => exists k ls, st = (k, ls, Restored) /\ target_like k ls /\ restored_upto (length d) k ls)
    (seq 0 (kv_n_stream k0)) (k1, ls1, Restored)) as (st & Hr & k & ls & -> & Hk & Hup).
  - exists k1, ls1. split_and!; [done|split_and!; [apply (rt_ok RT)|done|apply (rt_pg RT)|done]|left].
    split; [|done]. simpl. lia.
  - intros d s r st Heq Hst. assert (seq 0 (kv_n_stream k0) !! length d = Some s) as Hlk
      by (rewrite Heq; by apply list_lookup_middle). apply lookup_seq in Hlk as [Es Hs].
    rewrite length_app. cbn [length]. apply restore_step; [lia|lia|done].
  - rewrite length_seq in Hup. exists k, ls. split_and!; [|done|done].
    unfold state_read. rewrite (rt_pg RT). eapply reads_lift_bind; [reflexivity|].
    eapply reads_bind; [apply reads_u32; pose proof (sv_ns _ _ _ _ SV); lia|].
    rewrite (rt_ns RT), Z.eqb_refl. exact Hr.
Qed.
End restore.
