(* ===== verification/KvStateSeq.v ===== *)
(** * Restoring one sequence

    [state_read] with a sequence id builds a micro-batch from the saved cells, finds a slot for
    it as for any batch, and puts the rows at the cells of the slot. *)

From S2P Require Import Prelude KvCells KvCellsInv KvCellsSpec Batch Pages KvCache KvCacheTheory KvCacheProps.
From S2P Require Import KvSlots KvPlace KvPrepare IoBytes KvState KvStateLayers KvStateWhole.

Local Abbreviation ubatch := (llama_ubatch unit).

(** ** The micro-batch that is read *)

(** After [j] of the [n] tokens, cell [i] of [l] is token [i]. *)
Record filled (np n : nat) (dest : Z) (l : list acell) (j : nat) (u : ubatch) : Prop := {
  fl_n    : ub_n_tokens u = n;
  fl_unq  : ub_n_seqs_unq u = 1%nat;
  fl_np   : ub_n_pos u = np;
  fl_ids  : ub_seq_id_unq u = [dest];
  fl_lpos : length (ub_pos u) = (n * np)%nat;
  fl_lnum : length (ub_n_seq_id u) = n;
  fl_lseq : length (ub_seq_id u) = n;
  fl_tok  : forall i a, (i < j)%nat -> l !! i = Some a ->
              ub_pos u !! i = Some (a_pos a) /\ ub_n_seq_id u !! i = Some 1 /\ ub_seq_id u !! i = Some [dest] /\
              ((1 < np)%nat -> ub_pos u !! (i + n)%nat = Some (ext_y (a_ext a)) /\
                              ub_pos u !! (i + n * 2)%nat = Some (ext_x (a_ext a)))
}.

Lemma filter_one (l : list Z) q : NoDup l -> q ∈ l -> filter (fun s => s = q) l = [q].
Proof.
  induction l as [|x l IH]; intros Hnd Hin; [by apply not_elem_of_nil in Hin|].
  apply NoDup_cons in Hnd as [Hx Hnd]. rewrite filter_cons. case_decide as E.
  - subst x. f_equal. apply length_zero_iff_nil. destruct (filter _ l) as [|y k] eqn:Ef; [done|].
    assert (y ∈ filter (fun s => s = q) l) as Hy by (rewrite Ef; set_solver).
    apply list_elem_of_filter in Hy as [-> Hy]. done.
  - apply IH; [done|]. set_solver.
Qed.

Lemma saved_ids_one nm q a : q ∈ a_seq a -> 0 <= q < Z.of_nat nm -> saved_ids nm q a = [q].
Proof.
  intros Hin Hq. unfold saved_ids. rewrite (list_filter_iff _ (fun s => s = q)) by (intros s; naive_solver lia).
  apply filter_one; [apply NoDup_seqZ|]. apply elem_of_seqZ. lia.
Qed.

(** The positions section of the micro-batch. *)
Lemma vec_set_ok {A} (l : list A) i x : (i < length l)%nat -> vec_set l i x = Ok (<[i := x]> l).
Proof. intros Hi. unfold vec_set. by rewrite decide_True. Qed.

Lemma read_token_ok nm np n q dest l j a u :
  (np = 1 \/ 3 <= np)%nat -> length l = n -> l !! j = Some a -> q ∈ a_seq a -> 0 <= q < Z.of_nat nm ->
  (nm <= Z.to_nat LLAMA_MAX_SEQ)%nat -> cell_fits nm a -> filled np n dest l j u ->
  exists u', reads (read_token np n dest (u, true) j) (cell_bytes nm np q a) (u', true) /\ filled np n dest l (j + 1) u'.
Proof.
  intros Hnp Hl Ha Hin Hq Hnm (Fp & Fx & Fy & _) [F1 F2 F3 F4 F5 F6 F7 F8].
  assert (j < n)%nat as Hj by (rewrite <- Hl; by eapply lookup_lt_Some).
  set (p1 := if (1 <? np)%nat then <[(j + n * 2)%nat := ext_x (a_ext a)]> (<[(j + n)%nat := ext_y (a_ext a)]> (ub_pos u)) else ub_pos u).
  assert (length p1 = (n * np)%nat) as Hp1 by (unfold p1; destruct (1 <? np)%nat; by rewrite ?length_insert).
  set (u' := mk_ubatch (ub_equal_seqs u) (ub_n_tokens u) (ub_n_seq_tokens u) (ub_n_seqs u)
    (ub_n_seqs_unq u) (ub_n_pos u) (ub_token u) (ub_embd u) (<[j := a_pos a]> p1) (<[j := 1]> (ub_n_seq_id u))
    (<[j := [dest]]> (ub_seq_id u)) (ub_seq_id_unq u) (ub_seq_idx u) (ub_output u)).
  exists u'. split.
  - unfold read_token, cell_bytes. cbn [fst snd negb]. rewrite (saved_ids_one nm q a) by done. cbn [length fmap list_fmap concat].
    eapply reads_bind; [by apply reads_i32|]. eapply reads_bind; [apply reads_u32; lia|]. cbn [Z.of_nat Pos.of_succ_nat Z.eqb negb].
    eapply reads_bind; [instantiate (1 := p1)|].
    + unfold p1. destruct (1 <? np)%nat eqn:E; [|apply reads_ret]. apply Nat.ltb_lt in E.
      apply reads_app_nil. eapply reads_bind; [instantiate (1 := a_ext a)|].
      * destruct (a_ext a) as [x y]. eapply reads_bind; [by apply reads_i32|]. apply reads_app_nil.
        eapply reads_bind; [by apply reads_i32|]. apply reads_ret.
      * apply reads_lift. rewrite vec_set_ok by nia. cbn [mbind res_bind]. by rewrite vec_set_ok by (rewrite length_insert; nia).
    + apply reads_app_nil. rewrite app_nil_r. eapply reads_bind; [apply reads_i32; rewrite max_seq_val in Hnm; lia|].
      apply reads_lift. rewrite (vec_set_ok p1), (vec_set_ok (ub_n_seq_id u)), (vec_set_ok (ub_seq_id u)) by nia.
      reflexivity.
  - split; cbn [u' ub_n_tokens ub_n_seqs_unq ub_n_pos ub_seq_id_unq ub_pos ub_n_seq_id ub_seq_id];
      rewrite ?length_insert; try done. intros i b Hi Hb. destruct (decide (i = j)) as [->|Hne].
    + simplify_eq. rewrite !list_lookup_insert_eq by nia. split_and!; [done|done|done|]. intros Hnp1.
      unfold p1. rewrite (proj2 (Nat.ltb_lt _ _)) by done.
      split.
      * rewrite !list_lookup_insert_ne by lia. by rewrite list_lookup_insert_eq by nia.
      * rewrite list_lookup_insert_ne by lia. by rewrite list_lookup_insert_eq by (rewrite length_insert; nia).
    + destruct (F8 i b ltac:(lia) Hb) as (G1 & G2 & G3 & G4).
      assert (i < length l)%nat as Hil by (by eapply lookup_lt_Some).
      rewrite !list_lookup_insert_ne by lia. unfold p1. destruct (1 <? np)%nat eqn:E.
      * rewrite !list_lookup_insert_ne by lia. done.
      * split_and!; try done.
Qed.

(** The empty micro-batch for [n] tokens, addressed to [dest]. *)
Lemma reserve_ok np n dest l : exists a u, balloc_ubatch_reserve (balloc_new np) n 1 = Ok (a, u) /\ ub_n_tokens u = n /\
  exists unq, vec_set (ub_seq_id_unq u) 0 dest = Ok unq /\
    filled np n dest l 0 (mk_ubatch (ub_equal_seqs u) (ub_n_tokens u) (ub_n_seq_tokens u) (ub_n_seqs u)
      (ub_n_seqs_unq u) (ub_n_pos u) (ub_token u) (ub_embd u) (ub_pos u) (ub_n_seq_id u)
      (ub_seq_id u) unq (ub_seq_idx u) (ub_output u)).
Proof.
  unfold balloc_ubatch_reserve. change (Z.of_nat 1) with 1. change (seqZ 0 1) with [0]. cbn [mfor].
  unfold vec_setZ. cbn [Z.leb Z.compare]. rewrite vec_set_ok by (rewrite length_replicate; vm_compute; lia).
  cbn [mbind res_bind app]. rewrite Nat.mul_1_r. eexists _, _. split; [reflexivity|]. split; [done|].
  exists [dest]. split; [done|]. split; cbn; rewrite ?length_replicate; try done. lia.
Qed.

(** ** Placing it *)

Lemma filled_token np n dest l u i :
  (np = 1 \/ 3 <= np)%nat -> length l = n -> filled np n dest l n u -> id_ok dest ->
  (forall a, a ∈ l -> 0 <= a_pos a < INT32_MAX) -> (i < n)%nat -> token_ok u i /\ token_pos u i < INT32_MAX.
Proof.
  intros Hnp Hl F Hd Hpos Hi. destruct (lookup_lt_is_Some_2 l i) as [a Ha]; [lia|].
  destruct (fl_tok _ _ _ _ _ _ F i a Hi Ha) as (T1 & T2 & T3 & T4).
  pose proof (Hpos a (list_elem_of_lookup_2 _ _ _ Ha)) as Hp.
  split; [split|].
  - exists (a_pos a). split; [done|lia].
  - unfold is_pos_2d. rewrite (fl_np _ _ _ _ _ _ F), (fl_n _ _ _ _ _ _ F). intros H3%Nat.leb_le.
    destruct T4 as [-> ->]; [lia|]. done.
  - exists [dest]. split_and!; [done|done|apply NoDup_singleton|by apply Forall_singleton|done].
  - unfold token_pos. rewrite T1. simpl. lia.
Qed.

Lemma filled_ubatch sz k np n dest l u :
  kv_ok sz k -> (np = 1 \/ 3 <= np)%nat -> length l = n -> (0 < n)%nat -> filled np n dest l n u -> id_ok dest ->
  (forall a, a ∈ l -> 0 <= a_pos a < INT32_MAX) -> slot_dims k u = (1%nat, n) /\ ubatch_ok k u.
Proof.
  intros K Hnp Hl Hn F Hd Hpos. pose proof F as [F1 F2 F3 F4 F5 F6 F7 F8].
  assert (slot_dims k u = (1%nat, n)) as Hdims.
  { unfold slot_dims. rewrite F1, F2. destruct (1 <? kv_n_stream k)%nat; [|done]. by rewrite Nat.div_1_r. }
  split; [done|]. destruct (lookup_lt_is_Some_2 l 0) as [a0 Ha0]; [lia|]. destruct (F8 0%nat a0 Hn Ha0) as (_ & T2 & T3 & _).
  split; rewrite ?Hdims; cbn [fst snd]; [split; rewrite ?Hdims; cbn [fst snd]|..].
  - rewrite F1, F2. intros _. split; [lia|apply Nat.mod_1_r].
  - done.
  - intros s Hs. assert (s = 0%nat) as -> by lia. exists dest. rewrite F4. split_and!; [done|done|].
    intros _. rewrite Nat.mul_0_l, T2, T3. split; [done|]. by exists [dest].
  - rewrite F1. lia.
  - lia.
  - lia.
  - intros i Hi. rewrite F1 in Hi. by apply (filled_token np n dest l).
  - intros i Hi. rewrite F1 in Hi. by apply (filled_token np n dest l).
Qed.

(** What a restored cell holds: the saved one, for [dest] alone. *)
Definition restored_as (np : nat) (dest : Z) (a c : acell) : Prop :=
  a_pos c = a_pos a /\ a_shift c = 0 /\ a_seq c = {[dest]} /\ ((1 < np)%nat -> a_ext c = a_ext a).

(** The saved cells are at [idxs] of stream [t]; every other cell is as in [kr]. *)
Definition seq_placed (np : nat) (dest : Z) (l : list acell) (idxs : list nat) (t : nat) (kr k : kv_cache) : Prop :=
  (forall i a b, l !! i = Some a -> idxs !! i = Some b ->
     exists c, stream_cells k t !! b = Some c /\ restored_as np dest a c) /\
  (forall s b, s <> t \/ b ∉ idxs -> stream_cells k s !! b = stream_cells kr s !! b).

Section seq.
Context (sz : nat) (kr : kv_cache) (dest : Z) (l : list acell) (n : nat).
Context (K : kv_ok sz kr) (Hd : id_ok dest) (Hl : length l = n) (Hn : (0 < n)%nat)
  (Hsz : (0 < sz)%nat) (Hswa : kv_swa_type kr = LLAMA_SWA_TYPE_NONE) (Hb : pos_bounded kr)
  (Hnp : (kv_n_pos_per_embd kr = 1 \/ 3 <= kv_n_pos_per_embd kr)%nat)
  (Hpos : forall a, a ∈ l -> 0 <= a_pos a < INT32_MAX)
  (Hroom : (n <= n_usable kr (seq_stream kr dest))%nat).
Local Abbreviation np := (kv_n_pos_per_embd kr).
Local Abbreviation t := (seq_stream kr dest).

Lemma find_seq_slot u : filled np n dest l n u ->
  exists si idxs, cache_find_slot kr u false = Ok (Some si) /\ slot_ok sz kr u si /\
    si_strm si = [t] /\ si_idxs si = [idxs] /\ length idxs = n /\ NoDup idxs /\ (forall b, b ∈ idxs -> (b < sz)%nat).
Proof.
  intros F. destruct (filled_ubatch sz kr np n dest l u K Hnp Hl Hn F Hd Hpos) as [Hdims U].
  destruct (proj1 (sat_exists _ _) (sat_find_slot sz kr u K (ub_shape _ _ U) Hsz (swa_none kr Hswa Hb))) as (r & Hr & Hs).
  destruct r as [si|].
  - pose proof Hs as Hs'. unfold slot_ok in Hs'. rewrite Hdims in Hs'. destruct Hs' as (L1 & L2 & Hfor).
    destruct (Hfor 0%nat dest) as (H1 & _ & idxs & H2 & H3 & H4 & H5); [lia|by rewrite (fl_ids _ _ _ _ _ _ F)|].
    exists si, idxs. split_and!; try done; [| |intros b Hbi; by apply H5].
    + destruct (si_strm si) as [|x [|y xs]]; simpl in L1, H1; [lia|by simplify_eq|lia].
    + destruct (si_idxs si) as [|x [|y xs]]; simpl in L2, H2; [lia|by simplify_eq|lia].
  - exfalso. unfold no_slot in Hs. rewrite Hdims in Hs. destruct Hs as (s & q & Hs & Hq & Hlt).
    assert (s = 0%nat) as -> by lia. rewrite (fl_ids _ _ _ _ _ _ F) in Hq. simplify_eq/=. lia.
Qed.

Lemma place_seq u si idxs : filled np n dest l n u -> slot_ok sz kr u si -> si_strm si = [t] -> si_idxs si = [idxs] ->
  exists k, cache_apply_ubatch kr si u = Ok k /\ kv_ok sz k /\ kv_static k = kv_static kr /\
    kv_pg_enabled k = kv_pg_enabled kr /\ (forall b, b ∈ idxs -> (b < sz)%nat) /\ (length idxs = n) /\
    seq_placed np dest l idxs t kr k.
Proof.
  intros F S Hstrm Hidxs. destruct (filled_ubatch sz kr np n dest l u K Hnp Hl Hn F Hd Hpos) as [Hdims U].
  pose proof (swa_none kr Hswa Hb) as SW. pose proof (slot_place sz kr u si K U S SW) as P.
  pose proof (slot_empty sz kr u si K U S Hswa SW) as He.
  destruct (proj1 (sat_exists _ _) (sat_placement sz kr u si K P He)) as (k & Hk & [K' Est [A B] _ Epg _ _]).
  unfold slot_ok in S. rewrite Hdims in S. destruct S as (_ & _ & Hfor).
  destruct (Hfor 0%nat dest) as (_ & _ & idxs' & H2 & H3 & _ & H5); [lia|by rewrite (fl_ids _ _ _ _ _ _ F)|].
  rewrite Hidxs in H2. injection H2 as <-. rewrite Hdims, (fl_n _ _ _ _ _ _ F) in A, B. cbn [snd] in A, B.
  exists k. split_and!; try done.
  { intros b Hbi. by apply H5. }
  split.
  - intros i a b Ha Hbi. assert (i < length l)%nat as Hi by (by eapply lookup_lt_Some).
    assert (targets si 0 i t b) as Htg by (split; [by rewrite Hstrm|exists idxs; by rewrite Hidxs]).
    destruct (kv_stream sz kr t K) as (c & h & _ & _ & W & Ec & _ & Esc & _);
      [by apply (stream_of_ok sz kr dest K Hd)|].
    destruct (lookup_lt_is_Some_2 (stream_cells kr t) b) as [c0 Hc0].
    { rewrite Esc, length_abs by done. unfold cells_size in Ec. rewrite Ec. apply H5. by eapply list_elem_of_lookup_2. }
    exists (token_cell u i c0). split; [apply (A 0%nat i t b c0); [lia|lia|done|done]|].
    destruct (fl_tok _ _ _ _ _ _ F i a ltac:(lia) Ha) as (T1 & _ & T3 & T4). unfold restored_as, token_cell, token_pos, token_ids.
    cbn [a_pos a_shift a_seq a_ext]. rewrite T1, T3. split_and!; [done|done|simpl; set_solver|].
    intros H1. unfold is_pos_2d, token_ext. rewrite (fl_np _ _ _ _ _ _ F), (fl_n _ _ _ _ _ _ F).
    rewrite (proj2 (Nat.leb_le _ _)) by lia. destruct T4 as [-> ->]; [done|]. by destruct (a_ext a).
  - intros s b Hsb. apply B. intros s' ii _ _ [Hs1 (idxs2 & Hs2 & Hs3)]. rewrite Hstrm in Hs1. rewrite Hidxs in Hs2.
    destruct s' as [|s']; [|done]. simplify_eq/=. destruct Hsb as [?|Hnin]; [done|].
    apply Hnin. by eapply list_elem_of_lookup_2.
Qed.
(** The debug check at the end of the restore never fails. *)
Lemma check_restored_ok k c u idxs i :
  kv_ok sz k -> kv_cells k !! t = Some c -> filled np n dest l n u -> length idxs = n ->
  seq_placed np dest l idxs t kr k -> (i < n)%nat -> check_restored c u dest idxs i = Ok tt.
Proof.
  intros K' Hc F Hli [HA _] Hi. destruct (lookup_lt_is_Some_2 l i) as [a Ha]; [lia|].
  destruct (lookup_lt_is_Some_2 idxs i) as [b Hbi]; [lia|].
  destruct (HA i a b Ha Hbi) as (a' & Ha' & Ep & _ & Eq & _). unfold stream_cells in Ha'. rewrite Hc in Ha'. cbn in Ha'.
  pose proof (Hpos a (list_elem_of_lookup_2 _ _ _ Ha)) as Hp.
  destruct (cells_reads_ok c (proj1 (ko_cells _ _ K' t c Hc)) b a' Ha') as (_ & _ & Hget & _).
  unfold check_restored. rewrite (proj2 (vec_get_ok _ _ _) Hbi). cbn [mbind res_bind]. rewrite Hget, Ep.
  rewrite (proj2 (Z.eqb_neq _ _)) by lia. cbn [mbind res_bind].
  destruct (fl_tok _ _ _ _ _ _ F i a Hi Ha) as (T1 & _). rewrite (proj2 (vec_get_ok _ _ _) T1). cbn [mbind res_bind].
  rewrite assert_ok by (apply Z.eqb_refl). cbn [mbind res_bind].
  rewrite (cells_seq_has_ok c b a' dest Ha' Hd). cbn [mbind res_bind].
  apply assert_ok, bool_decide_eq_true_2. rewrite Eq. by apply elem_of_singleton.
Qed.

Lemma read_tokens_ok nm q u : (nm <= Z.to_nat LLAMA_MAX_SEQ)%nat -> 0 <= q < Z.of_nat nm ->
  (forall a, a ∈ l -> q ∈ a_seq a /\ cell_fits nm a) -> filled np n dest l 0 u ->
  exists u', reads (io_for (read_token np n dest) (seq 0 n) (u, true)) (concat (cell_bytes nm np q <$> l)) (u', true) /\
    filled np n dest l n u'.
Proof.
  intros Hnm Hq Hsave F0.
  destruct (reads_for_seq (read_token np n dest) (cell_bytes nm np q)
    (fun j st => exists u, st = (u, true) /\ filled np n dest l j u) l (u, true)) as (st & Hr & u' & -> & F).
  - by exists u.
  - intros i a st Ha (u1 & -> & F1). destruct (Hsave a) as [Hin Hfit]; [by eapply list_elem_of_lookup_2|].
    destruct (read_token_ok nm np n q dest l i a u1) as (u2 & Hr & F2); try done. exists (u2, true). split; [done|]. by exists u2.
  - rewrite Hl in Hr, F. by exists u'.
Qed.

Lemma read_meta_seq_ok k1 nm q :
  cache_seq_rm k1 dest (-1) (-1) = Ok kr -> (nm <= Z.to_nat LLAMA_MAX_SEQ)%nat -> 0 <= q < Z.of_nat nm ->
  (forall a, a ∈ l -> q ∈ a_seq a /\ cell_fits nm a) ->
  exists k si idxs, reads (read_meta_seq k1 t n dest) (concat (cell_bytes nm np q <$> l)) (k, Some si) /\
    si_idxs si = [idxs] /\ length idxs = n /\ NoDup idxs /\ (forall b, b ∈ idxs -> (b < sz)%nat) /\
    kv_ok sz k /\ kv_static k = kv_static kr /\ kv_pg_enabled k = kv_pg_enabled kr /\
    seq_placed np dest l idxs t kr k.
Proof.
  intros Hrm Hnm Hq Hsave. destruct (reserve_ok np n dest l) as (al & u0 & Hres & Hn0 & unq & Hunq & F0).
  rewrite Hn0 in F0.
  destruct (read_tokens_ok nm q _ Hnm Hq Hsave F0) as (u & Hr & F).
  destruct (find_seq_slot u F) as (si & idxs & Hfind & S & Hstrm & Hidxs & Hli & Hnd & Hlt).
  destruct (place_seq u si idxs F S Hstrm Hidxs) as (k & Happ & K' & Est & Epg & _ & _ & Hplaced).
  exists k, si, idxs. split; [|done].
  unfold read_meta_seq. eapply reads_lift_bind; [exact Hrm|]. eapply reads_lift_bind; [exact Hres|]. cbn [snd].
  eapply reads_lift_bind; [rewrite Hunq; reflexivity|]. cbn [ub_n_tokens]. rewrite Hn0.
  apply reads_app_nil. eapply reads_bind; [exact Hr|]. cbn [fst snd negb].
  eapply reads_lift_bind; [exact Hfind|]. apply reads_lift. rewrite Happ. cbn [mbind res_bind].
  rewrite Hstrm. cbn [length Nat.eqb assert_ mbind res_bind]. rewrite Hidxs. cbn [vec_get lookup list_lookup of_option mbind res_bind].
  rewrite assert_ok by (by apply Nat.eqb_eq). cbn [mbind res_bind].
  assert (t < kv_n_stream k)%nat as Ht by (rewrite (static_n kr k) by done; by apply (stream_of_ok sz kr dest K Hd)).
  destruct (kv_stream sz k t K' Ht) as (c & _ & Hc & _). rewrite (proj2 (vec_get_ok _ _ _) Hc). cbn [mbind res_bind].
  assert (mfor (fun _ i => check_restored c u dest idxs i) (seq 0 n) tt = Ok tt) as ->; [|done].
  destruct (proj1 (sat_exists _ _) (sat_for (fun _ i => check_restored c u dest idxs i) (fun _ _ => True) n tt I
    ltac:(intros i [] Hi _; by rewrite (check_restored_ok k c u idxs i)))) as ([] & H & _). exact H.
Qed.
End seq.

(** ** The whole restore *)

Section restore.
Context (v_trans : bool) (sz0 sz1 : nat) (k0 k1 : kv_cache) (ls0 ls1 : list kv_layer) (q dest : Z) (m : nat).
Context (SV : saveable v_trans sz0 k0 ls0).

Local Abbreviation l := (saved_cells q (stream_cells k0 m)).
Local Abbreviation t := (seq_stream k1 dest).

(** Sequence [q] lives in stream [m] of the source, and the target, without a sliding window,
    has room for it as [dest] once the old [dest] is removed. *)
Record seq_restorable : Prop := {
  sr_q      : 0 <= q < Z.of_nat (kv_n_seq_max k0);
  sr_m      : (m < kv_n_stream k0)%nat;
  sr_other  : forall s, (s < kv_n_stream k0)%nat -> s <> m -> saved_cells q (stream_cells k0 s) = [];
  sr_some   : l <> [];
  sr_ok     : kv_ok sz1 k1;
  sr_pg     : kv_pg_enabled k1 = false;
  sr_ns     : kv_n_stream k1 = kv_n_stream k0;
  sr_np     : kv_n_pos_per_embd k1 = kv_n_pos_per_embd k0;
  sr_np_val : (kv_n_pos_per_embd k0 = 1 \/ 3 <= kv_n_pos_per_embd k0)%nat;
  sr_dest   : id_ok dest;
  sr_swa    : kv_swa_type k1 = LLAMA_SWA_TYPE_NONE;
  sr_pos    : forall a, a ∈ l -> a_pos a < INT32_MAX;
  sr_bound  : pos_bounded k1;
  sr_room   : forall kr, cache_seq_rm k1 dest (-1) (-1) = Ok kr -> (length l <= n_usable kr t)%nat;
  sr_layers : Forall2 (layer_pair v_trans m t sz0 sz1) ls0 ls1
}.
Context (SR : seq_restorable).

Lemma seq_saved_cell a : a ∈ l -> q ∈ a_seq a /\ cell_fits (kv_n_seq_max k0) a /\ 0 <= a_pos a < INT32_MAX.
Proof.
  intros Ha. destruct (saved_saveable v_trans sz0 k0 ls0 SV q m a (sr_m SR) Ha) as [((Hge & _) & _ & Hfit) Hp].
  split_and!; [|by apply Hfit|lia|by apply (sr_pos SR)].
  apply list_elem_of_filter in Ha as [Hs _]. unfold saved in Hs. destruct (sr_q SR) as [Hq0 _].
  rewrite (proj2 (Z.eqb_neq q (-1))) in Hs by lia. destruct (negb _); [|done]. by apply bool_decide_eq_true in Hs.
Qed.

(** Removing the old [dest] keeps what the restore needs. *)
Lemma seq_removed : exists kr, cache_seq_rm k1 dest (-1) (-1) = Ok kr /\ kv_ok sz1 kr /\ kv_static kr = kv_static k1 /\
  kv_pg_enabled kr = false /\ pos_bounded kr /\ (0 < sz1)%nat.
Proof.
  destruct (proj1 (sat_exists _ _) (sat_seq_rm sz1 k1 dest (-1) (-1) (sr_ok SR) (sr_dest SR)))
    as (kr & Hrm & Kr & (Est & _ & Epg & Ht & Ho) & _).
  exists kr. split_and!; [done|done|done|by rewrite Epg, (sr_pg SR)| |].
  - intros s a Hs Ha. rewrite (static_n k1 kr) in Hs by done. destruct (decide (s = t)) as [->|Hne].
    + rewrite Ht in Ha. apply list_elem_of_fmap in Ha as (b & -> & Hin).
      pose proof (sr_bound SR t b Hs Hin) as Hlt. unfold rm_cell, acell_seq_rm, INT32_MAX in *.
      destruct (hit _ _ _ b); [|done]. case_decide; simpl; lia.
    + apply (sr_bound SR s a); [done|]. unfold stream_cells in Ha |- *. by rewrite <- (proj1 (Ho s Hne)).
  - pose proof (sr_room SR kr Hrm) as Hroom. assert (0 < length l)%nat as Hlen.
    { pose proof (sr_some SR). destruct l; [done|simpl; lia]. }
    assert (t < kv_n_stream k1)%nat as Htn by (by apply (stream_of_ok sz1 k1 dest (sr_ok SR) (sr_dest SR))).
    destruct (kv_stream sz1 kr t Kr) as (c & h & _ & _ & W & Ec & _ & Esc & _); [by rewrite (static_n k1 kr)|].
    unfold n_usable in Hroom. rewrite Esc, length_abs in Hroom by done. unfold cells_size in Ec. rewrite Ec in Hroom.
    destruct sz1; [simpl in Hroom; lia|lia].
Qed.

(** The target after the restore. *)
Definition seq_restored (kr k : kv_cache) (ls : list kv_layer) (idxs : list nat) : Prop :=
  kv_ok sz1 k /\ NoDup idxs /\ length idxs = length l /\
  seq_placed (kv_n_pos_per_embd k0) dest l idxs t kr k /\
  Forall3 (layer_sent v_trans sz0 sz1 m t (saved_idxs q (stream_cells k0 m)) idxs) ls0 ls1 ls.

Lemma read_seq_stream_ok : exists kr k ls idxs, cache_seq_rm k1 dest (-1) (-1) = Ok kr /\
  reads (read_stream v_trans dest (k1, ls1, Restored) m) (stream_bytes v_trans k0 ls0 sz0 m q) (k, ls, Restored) /\
  seq_restored kr k ls idxs.
Proof.
  destruct seq_removed as (kr & Hrm & Kr & Est & Hpg & Hb & Hsz).
  assert (kv_n_pos_per_embd kr = kv_n_pos_per_embd k0 /\ kv_swa_type kr = LLAMA_SWA_TYPE_NONE /\ seq_stream kr dest = t)
    as (Ep & Esw & Et).
  { pose proof (sr_np SR). pose proof (sr_swa SR). rewrite (static_stream k1 kr) by done. unfold kv_static in Est.
    split_and!; congruence. }
  assert (0 < length l)%nat as Hlen by (pose proof (sr_some SR); destruct l; [done|simpl; lia]).
  pose proof (saved_le _ _ _ _ SV q m (sr_m SR)) as Hl0. pose proof (sv_size _ _ _ _ SV) as Hs0.
  destruct (sr_dest SR) as [Hd0 Hd1].
  destruct (read_meta_seq_ok sz1 kr dest l (length l) Kr (sr_dest SR) eq_refl Hlen Hsz Esw Hb) with (k1 := k1)
    (nm := kv_n_seq_max k0) (q := q) as (k & si & idxs & Hmeta & Hsi & Hli & Hnd & Hlt & K & Est' & Hpg' & Hplaced); try done.
  { rewrite Ep. apply (sr_np_val SR). } { intros a Ha. by apply seq_saved_cell. }
  { rewrite Et. by apply (sr_room SR). } { apply (sv_max _ _ _ _ SV). } { apply (sr_q SR). }
  { intros a Ha. destruct (seq_saved_cell a Ha) as (? & ? & _). done. }
  rewrite Ep, Et in *.
  assert (t < kv_n_stream k)%nat as Ht.
  { rewrite (static_n kr k), (static_n k1 kr) by done. by apply (stream_of_ok sz1 k1 dest (sr_ok SR) (sr_dest SR)). }
  destruct (kv_stream sz1 k t K Ht) as (c' & h' & Hc' & _ & W' & Ec' & _).
  assert (length l <= sz1)%nat as Hfit.
  { rewrite <- Hli. rewrite <- (length_seq sz1 0). apply submseteq_length, NoDup_submseteq; [done|].
    intros b Hb'. apply elem_of_seq. specialize (Hlt b Hb'). lia. }
  destruct (state_read_data_ok v_trans m t si (saved_idxs q (stream_cells k0 m)) idxs sz0 sz1)
    with (k := k) (ls0 := ls0) (ls1 := ls1) (c1 := c') as (ls' & Hdata & Hsent); try done; rewrite ?Hli; try done.
  { apply length_saved. }
  { intros i Hi%saved_idxs_lt. destruct (kv_stream sz0 k0 m (sv_ok _ _ _ _ SV) (sr_m SR)) as (c & h & _ & _ & W & Ec & _ & Esc & _).
    rewrite Esc, length_abs in Hi by done. unfold cells_size in Ec. lia. }
  { congruence. } { apply (sv_nl _ _ _ _ SV). } { apply (sr_layers SR). }
  exists kr, k, ls', idxs. split_and!; [done| |by split_and!].
  unfold read_stream, stream_bytes. eapply reads_bind; [apply reads_u32; lia|].
  rewrite (proj2 (Z.eqb_neq _ _)) by lia. rewrite (proj2 (Nat.eqb_neq _ _)) by lia. rewrite Nat2Z.id.
  rewrite (proj2 (Z.eqb_neq dest (-1))) by lia.
  eapply reads_lift_bind; [by apply (stream_of_ok sz1 k1 dest (sr_ok SR) (sr_dest SR))|].
  unfold state_read_meta. rewrite (proj2 (Z.eqb_neq dest (-1))) by lia. cbn [negb].
  eapply reads_bind; [apply reads_app_nil; eapply reads_bind; [exact Hmeta|apply reads_ret]|]. cbn [fst snd].
  apply reads_app_nil. rewrite Hli in Hdata. eapply reads_bind; [exact Hdata|]. apply reads_ret.
Qed.
Lemma read_seq_other s k ls : (s < kv_n_stream k0)%nat -> s <> m ->
  reads (read_stream v_trans dest (k, ls, Restored) s) (stream_bytes v_trans k0 ls0 sz0 s q) (k, ls, Restored).
Proof.
  intros Hs Hne. unfold read_stream, stream_bytes. rewrite (sr_other SR) by done. cbn [length Nat.eqb].
  eapply reads_bind; [apply reads_u32; lia|]. apply reads_ret.
Qed.

Lemma state_read_seq_ok : exists kr k ls idxs, cache_seq_rm k1 dest (-1) (-1) = Ok kr /\
  reads (state_read v_trans k1 ls1 dest)
    (put_u32 (Z.of_nat (kv_n_stream k0)) ++
     concat ((fun s => stream_bytes v_trans k0 ls0 sz0 s q) <$> seq 0 (kv_n_stream k0))) (k, ls, Restored) /\
  seq_restored kr k ls idxs.
Proof.
  destruct read_seq_stream_ok as (kr & k & ls & idxs & Hrm & Hstream & Hres).
  exists kr, k, ls, idxs. split_and!; [done| |done].
  destruct (reads_for (read_stream v_trans dest) (fun s => stream_bytes v_trans k0 ls0 sz0 s q)
    (fun d st => st = if decide (length d <= m)%nat then (k1, ls1, Restored) else (k, ls, Restored))
    (seq 0 (kv_n_stream k0)) (k1, ls1, Restored)) as (st & Hr & ->).
  - rewrite decide_True by (simpl; lia). done.
  - intros d s r st Heq ->. assert (seq 0 (kv_n_stream k0) !! length d = Some s) as Hlk
      by (rewrite Heq; by apply list_lookup_middle). apply lookup_seq in Hlk as [Es Hs].
    cbn [Nat.add] in Es. subst s. rewrite length_app. cbn [length]. destruct (decide (length d = m)) as [E|E].
    + exists (k, ls, Restored). rewrite decide_True by lia. rewrite decide_False by lia. by rewrite E.
    + eexists. split; [|reflexivity]. destruct (decide (length d <= m)%nat).
      * rewrite decide_True by lia. by apply read_seq_other.
      * rewrite decide_False by lia. by apply read_seq_other.
  - rewrite length_seq in Hr. rewrite decide_False in Hr by (pose proof (sr_m SR); lia).
    destruct (sr_dest SR) as [Hd0 _]. unfold state_read. rewrite (sr_pg SR).
    eapply reads_lift_bind.
    { apply assert_ok. apply orb_true_iff. right. apply (seq_id_valid_ok sz1 k1 dest (sr_ok SR)), (sr_dest SR). }
    eapply reads_bind; [apply reads_u32; pose proof (sv_ns _ _ _ _ SV); lia|].
    rewrite (sr_ns SR), Z.eqb_refl. exact Hr.
Qed.
End restore.
