(* ===== verification/KvStateProps.v ===== *)
(** * Properties of saving and restoring the KV cache *)

From S2P Require Import Prelude KvCells KvCellsInv KvCellsSpec Batch Pages KvCache KvCacheTheory KvCacheProps.
From S2P Require Import KvSlots KvPrepare KvUbatchProps IoBytes KvState KvStateLayers KvStateWhole KvStateSeq.

(** ** Examples *)

(** One layer with [n] streams of four cells: rows of two bytes, and a transposed V of two
    channels of one byte. *)
Definition demo_layers (n : nat) : list kv_layer :=
  [mk_layer (mk_tensor 1 2 1 2 (replicate n [10; 11; 12; 13; 14; 15; 16; 17]))
     (Some (mk_tensor 1 2 1 2 (replicate n [20; 21; 22; 23; 24; 25; 26; 27])))].

Lemma demo_layer_fit n s l : (s < n)%nat -> l ∈ demo_layers n -> layer_fit true 4 s l.
Proof.
  intros Hs ->%list_elem_of_singleton. split.
  - split; [split_and!; simpl; lia|]. exists [10; 11; 12; 13; 14; 15; 16; 17]. split; [|simpl; lia].
    by apply lookup_replicate.
  - split; [split_and!; simpl; lia|]. split_and!; [simpl; lia|simpl; lia|].
    exists [20; 21; 22; 23; 24; 25; 26; 27]. split; [|simpl; lia]. by apply lookup_replicate.
Qed.

(** Both streams 0 and 1 hold cells. *)
Definition demo_cache3 : kv_cache := kv_put demo_cache2 0 demo_cells 3.

Lemma demo_cache3_ok : kv_ok 4 demo_cache3.
Proof.
  destruct demo_cells_ok as [W E]. apply kv_ok_put; [exact demo_cache2_ok|done| |rewrite E|lia].
  - rewrite cells_size_abs by done. by rewrite E.
  - repeat constructor; unfold tight; simpl; set_solver.
Qed.

Lemma demo_list_fits (l : list acell) a :
  l = demo_list \/ l = replicate 4 acell_empty -> a ∈ l -> a_pos a <> -1 -> cell_fits 8 a.
Proof.
  intros [-> | ->] Ha Hp.
  - assert (Forall (fun a => a_pos a <> -1 -> cell_fits 8 a) demo_list) as HF.
    { apply demo_forall; intros H; [| done|]; (split_and!; [unfold int32_range; simpl; lia..|]);
        simpl; intros s Hs; [apply elem_of_singleton in Hs as ->; lia|].
      apply elem_of_union in Hs as [->%elem_of_singleton| ->%elem_of_singleton]; lia. }
    rewrite Forall_forall in HF. by apply HF.
  - apply elem_of_replicate in Ha as [-> _]. done.
Qed.

Lemma demo_saveable1 : saveable true 4 demo_cache (demo_layers 1).
Proof.
  assert (kv_n_stream demo_cache = 1%nat) as Hn by (vm_compute; reflexivity). split; rewrite ?Hn.
  - exact demo_cache_ok. - vm_compute. reflexivity. - apply Nat.leb_le. vm_compute. reflexivity.
  - lia. - lia. - simpl. lia.
  - intros s a Ha. replace (kv_n_seq_max demo_cache) with 8%nat by (vm_compute; reflexivity).
    apply (demo_list_fits (stream_cells demo_cache s)); [|done].
    destruct s as [|s]; [left; vm_compute; reflexivity|]. exfalso. unfold stream_cells in Ha.
    rewrite (lookup_ge_None_2 (kv_cells demo_cache)) in Ha by (rewrite (ko_len _ _ demo_cache_ok), Hn; lia).
    by apply not_elem_of_nil in Ha.
  - intros s Hs. apply Forall_forall. intros l. by apply demo_layer_fit.
Qed.

Lemma demo_saveable3 : saveable true 4 demo_cache3 (demo_layers 8).
Proof.
  assert (kv_n_stream demo_cache3 = 8%nat) as Hn by (vm_compute; reflexivity). split; rewrite ?Hn.
  - exact demo_cache3_ok. - vm_compute. reflexivity. - apply Nat.leb_le. vm_compute. reflexivity.
  - lia. - lia. - simpl. lia.
  - intros s a Ha. replace (kv_n_seq_max demo_cache3) with 8%nat by (vm_compute; reflexivity).
    apply (demo_list_fits (stream_cells demo_cache3 s)); [|done].
    destruct (decide (s < 8)%nat) as [Hs|Hs].
    + do 8 (destruct s as [|s]; [first [left; vm_compute; reflexivity|right; vm_compute; reflexivity]|]). lia.
    + exfalso. unfold stream_cells in Ha.
      rewrite (lookup_ge_None_2 (kv_cells demo_cache3)) in Ha by (rewrite (ko_len _ _ demo_cache3_ok), Hn; lia).
      by apply not_elem_of_nil in Ha.
  - intros s Hs. apply Forall_forall. intros l. by apply demo_layer_fit.
Qed.

Lemma layer_like_refl l : layer_like l l.
Proof. split; [by split_and!|]. destruct (ly_v l); constructor. by split_and!. Qed.

Lemma demo_pair n s : (s < n)%nat -> Forall2 (layer_pair true s s 4 4) (demo_layers n) (demo_layers n).
Proof.
  intros Hs. apply Forall_Forall2_diag, Forall_forall. intros l Hl.
  split; [apply layer_like_refl|by split; apply (demo_layer_fit n)].
Qed.

Lemma demo_restorable1 : restorable true 4 4 demo_cache demo_cache (demo_layers 1) (demo_layers 1).
Proof.
  assert (kv_n_stream demo_cache = 1%nat) as Hn by (vm_compute; reflexivity).
  split; try done; rewrite ?Hn; [exact demo_cache_ok| |intros; by apply demo_pair].
  intros s Hs. assert (s = 0%nat) as -> by lia. apply Nat.leb_le. vm_compute. reflexivity.
Qed.

Lemma demo_restorable3 : restorable true 4 4 demo_cache3 demo_cache3 (demo_layers 8) (demo_layers 8).
Proof.
  assert (kv_n_stream demo_cache3 = 8%nat) as Hn by (vm_compute; reflexivity).
  split; try done; rewrite ?Hn; [exact demo_cache3_ok| |intros; by apply demo_pair].
  intros s Hs. do 8 (destruct s as [|s]; [apply Nat.leb_le; vm_compute; reflexivity|]). lia.
Qed.

(** ** Whole caches *)

(** C15: A cache with one stream and at least one used cell survives saving and restoring, when
    paging is off in both caches (with paging, saving writes nothing), into a cache of the same
    model that may have another size and has room for the used cells: [state_write] does not stop, and [state_read] consumes exactly
    the bytes written, whatever follows them.  The restored cells are the used cells in order,
    moved to the front, with their position and sequences (and extension where the model has
    one) and no pending shift, the rest of the stream is empty, and in every layer the K and
    the V of each restored cell are those of the cell it came from. *)
Theorem state_round_trip v_trans sz0 sz1 k0 k1 ls0 ls1
    (SV : saveable v_trans sz0 k0 ls0) (RT : restorable v_trans sz0 sz1 k0 k1 ls0 ls1)
    (H1 : kv_n_stream k0 = 1%nat) (Hne : saved_cells (-1) (stream_cells k0 0) <> []) :
  exists bs k ls, state_write v_trans k0 ls0 (-1) = Ok bs /\
    (forall rest, state_read v_trans k1 ls1 (-1) (bs ++ rest) = Ok ((k, ls, Restored), rest)) /\
    kv_ok sz1 k /\
    stream_cells k 0 = restored_cells (kv_n_pos_per_embd k0) sz1 (saved_cells (-1) (stream_cells k0 0)) /\
    Forall3 (layer_sent v_trans sz0 sz1 0 0 (saved_idxs (-1) (stream_cells k0 0))
               (seq 0 (length (saved_cells (-1) (stream_cells k0 0))))) ls0 (zero_layer <$> ls1) ls.
Proof.
  destruct (state_read_ok v_trans sz0 sz1 k0 k1 ls0 ls1 SV RT) as (k & ls & Hr & (K & _) & Hup).
  eexists _, k, ls. split; [apply (state_write_ok _ _ _ _ SV); by left|]. rewrite H1 in *.
  destruct Hup as [[Hall _]|(m & Hm & _ & _ & Hc & _ & Hl)]; [by destruct (Hne (Hall 0%nat ltac:(lia)))|].
  assert (m = 0%nat) as -> by lia. split_and!; [exact Hr|done|done|done].
Qed.

Lemma state_round_trip_witness :
  exists bs k ls, state_write true demo_cache (demo_layers 1) (-1) = Ok bs /\
    state_read true demo_cache (demo_layers 1) (-1) bs = Ok ((k, ls, Restored), []) /\
    stream_cells k 0 = [mk_acell 5 ext_reset 0 {[1]}; mk_acell 6 ext_reset 0 {[1; 3]}; acell_empty; acell_empty].
Proof.
  destruct (state_round_trip true 4 4 demo_cache demo_cache (demo_layers 1) (demo_layers 1)) as (bs & k & ls & Hw & Hr & _ & Hc & _).
  - exact demo_saveable1.
  - exact demo_restorable1.
  - vm_compute. reflexivity.
  - vm_compute. discriminate.
  - exists bs, k, ls. split; [exact Hw|]. specialize (Hr []). rewrite app_nil_r in Hr. split; [exact Hr|].
    rewrite Hc. vm_compute. reflexivity.
Defined.

(** C17: With several streams a restore loses all but one: [clear(true)] runs for every stream
    that has cells, so after [state_read] of what [state_write] wrote, the cells of every
    stream that another non-empty stream follows are all empty, although [state_read] reports
    success. *)
Theorem state_read_loses_streams v_trans sz0 sz1 k0 k1 ls0 ls1 m m'
    (SV : saveable v_trans sz0 k0 ls0) (RT : restorable v_trans sz0 sz1 k0 k1 ls0 ls1)
    (Hm : (m < m' < kv_n_stream k0)%nat) (Hne' : saved_cells (-1) (stream_cells k0 m') <> []) :
  exists bs k ls, state_write v_trans k0 ls0 (-1) = Ok bs /\
    (forall rest, state_read v_trans k1 ls1 (-1) (bs ++ rest) = Ok ((k, ls, Restored), rest)) /\
    stream_cells k m = replicate sz1 acell_empty.
Proof.
  destruct (state_read_ok v_trans sz0 sz1 k0 k1 ls0 ls1 SV RT) as (k & ls & Hr & _ & Hup).
  eexists _, k, ls. split; [apply (state_write_ok _ _ _ _ SV); by left|]. split; [exact Hr|].
  destruct Hup as [[Hall _]|(l & Hl & _ & Hlast & _ & Hrest & _)]; [by destruct (Hne' (Hall m' ltac:(lia)))|].
  apply Hrest; [lia|]. intros ->. by apply Hne', Hlast.
Qed.

Lemma state_read_loses_streams_witness :
  exists bs k ls, state_write true demo_cache3 (demo_layers 8) (-1) = Ok bs /\
    state_read true demo_cache3 (demo_layers 8) (-1) bs = Ok ((k, ls, Restored), []) /\
    stream_cells demo_cache3 0 = demo_list /\ stream_cells k 0 = replicate 4 acell_empty.
Proof.
  destruct (state_read_loses_streams true 4 4 demo_cache3 demo_cache3 (demo_layers 8) (demo_layers 8) 0 1)
    as (bs & k & ls & Hw & Hr & Hc).
  - exact demo_saveable3.
  - exact demo_restorable3.
  - replace (kv_n_stream demo_cache3) with 8%nat by (vm_compute; reflexivity). lia.
  - vm_compute. discriminate.
  - exists bs, k, ls. split; [exact Hw|]. specialize (Hr []). rewrite app_nil_r in Hr. split; [exact Hr|].
    split; [vm_compute; reflexivity|exact Hc].
Defined.

(** What was saved from the layers of another model is refused, in the first words. *)
Lemma read_data_refused v_trans v_trans1 k ls1 strm count si c ls0 idxs sz0 s0 rest :
  kv_pg_enabled k = false -> kv_cells k !! strm = Some c -> Z.of_nat (length ls0) < 2 ^ 32 ->
  length ls1 <> length ls0 \/ v_trans1 <> v_trans ->
  exists rest', state_read_data v_trans1 k ls1 strm count si (data_bytes v_trans s0 idxs sz0 ls0 ++ rest) = Ok (ls1, false, rest').
Proof.
  intros Hpg Hc Hl Hbad. unfold state_read_data, data_bytes. rewrite Hpg, (run_lift _ _ c) by (by apply vec_get_ok).
  rewrite <- !app_assoc. rewrite (reads_run _ _ _ _ _ (reads_u32 (if v_trans then 1 else 0) ltac:(destruct v_trans; lia))).
  rewrite (reads_run _ _ _ _ _ (reads_u32 (Z.of_nat (length ls0)) ltac:(lia))).
  destruct (Z.of_nat (length ls0) =? Z.of_nat (length ls1)) eqn:El; cbn [negb]; [|by eexists].
  apply Z.eqb_eq in El. destruct Hbad as [Hbad|Hbad]; [lia|].
  destruct (cells_size c <? count)%nat; [by eexists|].
  replace (negb (Bool.eqb v_trans1 (negb ((if v_trans then 1 else 0) =? 0)))) with true by (by destruct v_trans, v_trans1).
  by eexists.
Qed.

(** A state saved with another number of layers, or with V in the other layout, is
    refused: [state_read] throws its own exception after it has cleared the cache, so that
    every cell of the target is empty, all K and V bytes are zero and the invariant holds. *)
Lemma state_read_rejects v_trans v_trans1 sz0 sz1 k0 k1 ls0 ls1
    (SV : saveable v_trans sz0 k0 ls0) (K1 : kv_ok sz1 k1) (Hpg : kv_pg_enabled k1 = false)
    (H1 : kv_n_stream k0 = 1%nat) (Hns : kv_n_stream k1 = 1%nat) (Hmax : kv_n_seq_max k1 = kv_n_seq_max k0)
    (Hnp : kv_n_pos_per_embd k1 = kv_n_pos_per_embd k0)
    (Hne : saved_cells (-1) (stream_cells k0 0) <> [])
    (Hroom : (length (saved_cells (-1) (stream_cells k0 0)) <= sz1)%nat)
    (Hbad : length ls1 <> length ls0 \/ v_trans1 <> v_trans) :
  exists bs k, state_write v_trans k0 ls0 (-1) = Ok bs /\
    (forall rest, exists rest',
       state_read v_trans1 k1 ls1 (-1) (bs ++ rest) = Ok ((k, zero_layer <$> (zero_layer <$> ls1), RestoreFailed), rest')) /\
    kv_ok sz1 k /\ stream_cells k 0 = replicate sz1 acell_empty.
Proof.
  set (l := saved_cells (-1) (stream_cells k0 0)) in *. assert (0 < length l)%nat as Hlen by (destruct l; [done|simpl; lia]).
  pose proof (saved_le _ _ _ _ SV (-1) 0 ltac:(lia)) as Hl0. fold l in Hl0.
  pose proof (sv_size _ _ _ _ SV) as Hsz.
  destruct (read_meta_all_ok sz1 k1 ls1 0 l K1 Hpg) as (k' & Hmeta & K' & Est' & Hpg' & _);
    [rewrite Hns; lia|done|rewrite Hmax; apply (sv_max _ _ _ _ SV)|
     rewrite Hmax; intros a Ha; eapply saved_saveable; [done| |exact Ha]; lia|].
  assert (0 < kv_n_stream k')%nat as Hn' by (rewrite (static_n k1 k'), Hns by done; lia).
  destruct (kv_stream sz1 k' 0 K' Hn') as (c' & _ & Hc' & _).
  destruct (cache_clear_ok sz1 k' K') as (k & Hclear & K & _ & _ & Hempty).
  exists (put_u32 (Z.of_nat (kv_n_stream k0)) ++
    concat ((fun s => stream_bytes v_trans k0 ls0 sz0 s (-1)) <$> seq 0 (kv_n_stream k0))), k.
  split; [apply (state_write_ok _ _ _ _ SV); by left|]. split; [|split; [done|]].
  - intros rest. rewrite H1. cbn [seq fmap list_fmap concat]. rewrite app_nil_r, <- app_assoc.
    unfold state_read. rewrite Hpg, (run_lift _ _ tt) by done.
    rewrite (reads_run _ _ _ _ _ (reads_u32 (Z.of_nat 1) ltac:(lia))). rewrite Hns, Z.eqb_refl. cbn [negb seq io_for].
    unfold stream_bytes. fold l. rewrite (proj2 (Nat.eqb_neq (length l) 0)) by lia. rewrite <- !app_assoc.
    set (rest0 := data_bytes _ _ _ _ _ ++ rest).
    assert (exists rest', read_stream v_trans1 (-1) (k1, ls1, Restored) 0
      (put_u32 (Z.of_nat (length l)) ++ concat (cell_bytes (kv_n_seq_max k0) (kv_n_pos_per_embd k0) (-1) <$> l) ++ rest0) =
      Ok ((k, zero_layer <$> (zero_layer <$> ls1), RestoreFailed), rest')) as [rest' Hrun].
    { unfold read_stream. rewrite (reads_run _ _ _ _ _ (reads_u32 (Z.of_nat (length l)) ltac:(lia))).
      rewrite (proj2 (Z.eqb_neq _ _)) by lia. rewrite Nat2Z.id, (run_lift _ _ 0%nat) by done.
      rewrite Hmax, Hnp in Hmeta. rewrite (reads_run _ _ _ _ _ Hmeta).
      destruct (read_data_refused v_trans v_trans1 k' (zero_layer <$> ls1) 0 (length l) (mk_slot 0 0 [0%nat] [seq 0 (length l)])
        c' ls0 (saved_idxs (-1) (stream_cells k0 0)) sz0 0 rest) as [rest' Hdata];
        [done|done|apply (sv_nl _ _ _ _ SV)|by rewrite length_fmap|].
      exists rest'. unfold io_bind at 1. unfold rest0. rewrite Hdata. cbn [fst snd].
      rewrite (run_lift _ _ (k, zero_layer <$> (zero_layer <$> ls1))); [done|].
      cbn [Z.eqb Z.opp]. unfold clear_all. by rewrite Hclear. }
    exists rest'. unfold io_bind at 1. by rewrite Hrun.
  - destruct (Hempty 0%nat ltac:(lia)) as (c & Hc & _ & _ & E). unfold stream_cells. by rewrite Hc.
Qed.

Lemma state_read_rejects_witness :
  exists bs k ls rest, state_write true demo_cache (demo_layers 1) (-1) = Ok bs /\
    state_read true demo_cache [] (-1) bs = Ok ((k, ls, RestoreFailed), rest) /\
    stream_cells k 0 = replicate 4 acell_empty.
Proof.
  destruct (state_read_rejects true true 4 4 demo_cache demo_cache (demo_layers 1) []) as (bs & k & Hw & Hr & _ & Hc).
  - exact demo_saveable1.
  - exact demo_cache_ok.
  - vm_compute. reflexivity.
  - vm_compute. reflexivity.
  - vm_compute. reflexivity.
  - reflexivity.
  - reflexivity.
  - vm_compute. discriminate.
  - apply Nat.leb_le. vm_compute. reflexivity.
  - left. discriminate.
  - destruct (Hr []) as [rest Hrun]. rewrite app_nil_r in Hrun. exists bs, k, (zero_layer <$> (zero_layer <$> [])), rest.
    split; [exact Hw|]. split; [exact Hrun|exact Hc].
Defined.

(** ** One sequence *)




(** ** Bounds and malformed input *)

(** The offset of an element of a transposed V that [state_write_data] computes in
    [uint32_t] is the one [state_read_data] computes in [size_t] reduced modulo [2 ^ 32]:
    the two agree exactly when the element lies in the first 4 GiB of the tensor. *)
Lemma trans_offsets_agree kv_size first j el :
  Z.of_nat (trans_src_offset kv_size first j el) = Z.of_nat (trans_dst_offset kv_size j el first) mod 2 ^ 32 /\
  (trans_src_offset kv_size first j el = trans_dst_offset kv_size j el first <->
   Z.of_nat (trans_dst_offset kv_size j el first) < 2 ^ 32).
Proof.
  unfold trans_src_offset, trans_dst_offset. set (x := u32 (Z.of_nat first + _)).
  assert (0 <= x) by (apply Z.mod_pos_bound; lia).
  assert (Z.of_nat (Z.to_nat x * el) = x * Z.of_nat el) as E by lia.
  assert (0 <= u32 (x * Z.of_nat el) < 2 ^ 32) as Hu by (apply Z.mod_pos_bound; lia).
  rewrite E, Z2Nat.id by lia. split; [done|]. split; intros H1.
  - rewrite <- E, <- H1, Z2Nat.id; lia.
  - unfold u32 in *. rewrite Z.mod_small by lia. lia.
Qed.

(** A state of one cell with position -2, of sequence 0, without layers. *)
Definition bad_state : list Z :=
  put_u32 1 ++ put_u32 1 ++ put_i32 (-2) ++ put_u32 1 ++ put_i32 0 ++ put_u32 1 ++ put_u32 0.

(** [state_read] does not check the positions it reads: it accepts a state whose cell has
    position -2 and reports success, and the next operation that looks at the cells of the
    restored cache is stopped by an assertion of [is_empty]. *)
Theorem state_read_accepts_bad_pos :
  match state_read true demo_cache [] (-1) bad_state with
  | Ok ((k, _, Restored), rest) => rest = [] /\ state_write true k [] (-1) = Err AssertFailed
  | _ => False
  end.
Proof. vm_compute. split; reflexivity. Qed.
