(* ===== verification/BatchTheory.v ===== *)
(** * Gathering tokens: what [ubatch_add] of src/src/llama-batch.cpp copies

    An allocator that accepted a batch, and the micro-batch of a list of tokens as a
    function of that batch: [balloc_ubatch_add] is that function. *)

From S2P Require Import Prelude KvCells KvCellsInv Batch.

Section gather.
Context {E : Type}.
Implicit Types a : llama_batch_allocr E.

(** Token [i] of the batch. *)
Definition tok_ids a (i : nat) : list Z :=
  match seq_ids_of (ba_batch a) i with Ok l => l | Err _ => [] end.
Definition tok_set a (i : nat) : gset Z := list_to_set (tok_ids a i).
Definition ptr_at (p : option (list Z)) (i : nat) : Z := default [] p !!! i.
Definition tok_logit a (i : nat) : Z := ptr_at (b_logits (ba_batch a)) i.
Definition n_toks a : nat := b_n_tokens (ba_batch a).

(** A batch whose fields are all there and consistent, as [init] leaves it. *)
Record allocr_ok a : Prop := {
  ao_max   : (ba_n_seq_max a <= MAX_SEQ)%nat;
  ao_token : forall t, b_token (ba_batch a) = Some t -> (n_toks a <= length t)%nat;
  ao_embd  : forall l, b_embd (ba_batch a) = Some l -> (n_toks a * ba_n_embd a <= length l)%nat;
  ao_pos   : exists l, b_pos (ba_batch a) = Some l /\ (n_toks a <= length l)%nat /\
               (b_token (ba_batch a) = None -> ba_n_pos_per_embd a * n_toks a <= length l)%nat;
  ao_logit : exists l, b_logits (ba_batch a) = Some l /\ (n_toks a <= length l)%nat;
  ao_nids  : forall i, (i < n_toks a)%nat ->
               ptr_get (b_n_seq_id (ba_batch a)) i = Ok (Z.of_nat (length (tok_ids a i)));
  ao_ids   : forall i, (i < n_toks a)%nat -> seq_ids_of (ba_batch a) i = Ok (tok_ids a i) /\
               tok_ids a i <> [] /\ NoDup (tok_ids a i) /\
               Forall (fun s => 0 <= s < Z.of_nat (ba_n_seq_max a)) (tok_ids a i);
  ao_cpl   : ba_has_cpl a = false -> forall i, (i < n_toks a)%nat -> length (tok_ids a i) = 1%nat;
  ao_sets  : ba_seq_set a = tok_set a <$> seq 0 (n_toks a);
  ao_map   : forall T, set_tokens a T = filter (fun i => tok_set a i = T) (seq 0 (n_toks a))
}.

(** [seq_idx\[s\]]: the rank of [s] among the ids that occur. *)
Definition rank (unq : list Z) (s : Z) : Z := Z.of_nat (length (filter (fun x => x < s) unq)).
Definition seq_rank (unq : list Z) : list Z :=
  (fun s => if decide (s ∈ unq) then rank unq s else -1) <$> seqZ 0 LLAMA_MAX_SEQ.

(** The ids that occur among tokens [idxs], in increasing order. *)
Definition unq_of a (idxs : list nat) : list Z :=
  filter (fun s => s ∈ concat (tok_ids a <$> idxs)) (seqZ 0 (Z.of_nat (ba_n_seq_max a))).

Definition gather_pos a (idxs : list nat) : list Z :=
  concat ((fun j => (fun i => ptr_at (b_pos (ba_batch a))
      (match b_token (ba_batch a) with Some _ => 0 | None => j * n_toks a end + i)) <$> idxs)
    <$> seq 0 (ba_n_pos_per_embd a)).

Definition gather_embd (d : nat) (l : list E) (idxs : list nat) : list E :=
  concat ((fun i => take d (drop (i * d) l)) <$> idxs).

(** The micro-batch of tokens [idxs]. *)
Definition gather a (idxs : list nat) (n_seqs : nat) (equal_seqs : bool) : llama_ubatch E :=
  mk_ubatch equal_seqs (length idxs) (length idxs / n_seqs) n_seqs (length (unq_of a idxs))
    (ba_n_pos_per_embd a)
    ((fun t => (fun i => t !!! i) <$> idxs) <$> b_token (ba_batch a))
    ((fun l => gather_embd (ba_n_embd a) l idxs) <$> b_embd (ba_batch a))
    (gather_pos a idxs)
    ((fun i => Z.of_nat (length (tok_ids a i))) <$> idxs)
    (tok_ids a <$> idxs) (unq_of a idxs) (seq_rank (unq_of a idxs)) (tok_logit a <$> idxs).

Definition outputs a (idxs : list nat) : list nat := filter (fun i => tok_logit a i <> 0) idxs.

(** ** The pieces *)

Lemma vec_get_at (l : list Z) i : (i < length l)%nat -> vec_get l i = Ok (l !!! i).
Proof. intros H. apply vec_get_ok. by apply list_lookup_lookup_total_lt. Qed.

Lemma ptr_get_at p l i : p = Some l -> (i < length l)%nat -> ptr_get p i = Ok (ptr_at p i).
Proof. intros -> H. unfold ptr_get, ptr_at. simpl. by apply vec_get_at. Qed.

Lemma mfor_bits l : forall (S : gset Z),
  Forall (fun s => 0 <= s < LLAMA_MAX_SEQ) l ->
  mfor (fun S s => bit_set S s) l S = Ok (list_to_set l ∪ S).
Proof.
  induction l as [|s l IH]; intros S Hl; simpl; [f_equal; set_solver|].
  apply Forall_cons in Hl as [Hs Hl]. rewrite bit_set_ok by done. simpl.
  rewrite IH by done. f_equal. set_solver.
Qed.

Lemma seqZ_snoc m : 0 <= m -> seqZ 0 (m + 1) = seqZ 0 m ++ [m].
Proof. intros H. rewrite seqZ_app by lia. f_equal. Qed.

Lemma filter_last (Q : Z -> Prop) (l : list Z) (z : Z) {dec : forall v, Decision (Q v)} :
  filter Q (l ++ [z]) = if decide (Q z) then filter Q l ++ [z] else filter Q l.
Proof.
  rewrite filter_app, (filter_cons Q z []). case_decide; [done|]. apply app_nil_r.
Qed.

Lemma rank_all unq s : (forall x, x ∈ unq -> x < s) -> rank unq s = Z.of_nat (length unq).
Proof.
  intros H. unfold rank. do 2 f_equal. induction unq as [|x l IH]; [done|].
  rewrite filter_cons, decide_True by set_solver. f_equal. apply IH. set_solver.
Qed.

Lemma rank_snoc unq s x : s < x -> rank (unq ++ [x]) s = rank unq s.
Proof. intros H. unfold rank. by rewrite filter_last, decide_False by lia. Qed.

(** The loop that numbers the sequences. *)
Lemma unq_loop (S : gset Z) m : (m <= MAX_SEQ)%nat ->
  mfor (unq_step S) (seqZ 0 (Z.of_nat m)) (replicate MAX_SEQ (-1), []) =
    Ok (seq_rank (filter (fun s => s ∈ S) (seqZ 0 (Z.of_nat m))), filter (fun s => s ∈ S) (seqZ 0 (Z.of_nat m))).
Proof.
  induction m as [|m IH]; intros Hm.
  { simpl. do 2 f_equal. }
  rewrite Nat2Z.inj_succ. unfold Z.succ. rewrite seqZ_snoc by lia.
  rewrite mfor_app, IH by lia. simpl.
  set (unq := filter (fun s => s ∈ S) (seqZ 0 (Z.of_nat m))).
  assert (Hlt : forall x, x ∈ unq -> x < Z.of_nat m).
  { intros x [_ Hx%elem_of_seqZ]%list_elem_of_filter. lia. }
  assert (Hmax : Z.of_nat m < LLAMA_MAX_SEQ) by (unfold MAX_SEQ in Hm; lia).
  rewrite filter_last. fold unq. rewrite bit_test_ok by lia. simpl.
  case_bool_decide as Hin; [|by rewrite decide_False by done].
  rewrite decide_True by done. unfold vec_setZ. rewrite (proj2 (Z.leb_le 0 _)) by lia.
  unfold vec_set. rewrite decide_True.
  2:{ unfold seq_rank. rewrite length_fmap, length_seqZ. lia. }
  simpl. do 2 f_equal. apply list_eq. intros i. unfold seq_rank.
  destruct (decide (i = m)) as [->|Hne].
  - rewrite Nat2Z.id, list_lookup_insert_eq by (rewrite length_fmap, length_seqZ; lia).
    rewrite list_lookup_fmap, lookup_seqZ_lt by lia. simpl. rewrite decide_True by set_solver.
    f_equal. unfold rank. rewrite filter_last, decide_False by lia.
    symmetry. by apply rank_all.
  - rewrite Nat2Z.id, list_lookup_insert_ne by done. rewrite !list_lookup_fmap.
    destruct (seqZ 0 LLAMA_MAX_SEQ !! i) as [s|] eqn:Es; [|done]. simpl. f_equal.
    apply lookup_seqZ in Es as [-> _]. destruct (decide (0 + Z.of_nat i ∈ unq)) as [Hi|Hi].
    + rewrite decide_True by set_solver. symmetry. apply rank_snoc. by apply Hlt.
    + rewrite decide_False; [done|]. intros [?|?%list_elem_of_singleton]%elem_of_app; [done|lia].
Qed.

Lemma mmap_ids a idxs : allocr_ok a -> Forall (fun i => i < n_toks a)%nat idxs ->
  mmap (seq_ids_of (ba_batch a)) idxs = Ok (tok_ids a <$> idxs).
Proof.
  intros O Hi. apply mmap_fmap. intros i Hin. apply (ao_ids a O).
  rewrite Forall_forall in Hi. by apply Hi.
Qed.

Lemma copy_embd_ok d (l : list E) idxs n : (n * d <= length l)%nat -> Forall (fun i => i < n)%nat idxs ->
  copy_embd d l idxs = Ok (gather_embd d l idxs).
Proof.
  intros Hl Hi. unfold copy_embd. rewrite (mmap_fmap _ (fun i => take d (drop (i * d) l))); [done|].
  intros i Hin. rewrite Forall_forall in Hi. specialize (Hi i Hin). rewrite decide_True by nia. done.
Qed.

Lemma copy_pos_ok a idxs : allocr_ok a -> Forall (fun i => i < n_toks a)%nat idxs ->
  copy_pos a idxs = Ok (gather_pos a idxs).
Proof.
  intros O Hi. destruct (ao_pos a O) as (l & Hl & Hlen & Hlen2). unfold copy_pos.
  rewrite (mmap_fmap _ (fun j => (fun i => ptr_at (b_pos (ba_batch a))
      (match b_token (ba_batch a) with Some _ => 0 | None => j * n_toks a end + i)) <$> idxs)); [done|].
  intros j Hj%elem_of_seq. apply mmap_fmap. intros i Hin. rewrite Forall_forall in Hi. specialize (Hi i Hin).
  apply (ptr_get_at _ l); [done|]. destruct (b_token (ba_batch a)); [lia|]. specialize (Hlen2 eq_refl). unfold n_toks in *. nia.
Qed.

Lemma unq_of_set a idxs :
  filter (fun s => s ∈ (list_to_set (concat (tok_ids a <$> idxs)) ∪ ∅ : gset Z)) (seqZ 0 (Z.of_nat (ba_n_seq_max a)))
    = unq_of a idxs.
Proof. unfold unq_of. apply list_filter_iff. intros s. set_solver. Qed.

Lemma omap_outputs (f : nat -> Z) idxs :
  omap (fun io => if (snd io =? 0) then None else Some (fst io)) (zip idxs (f <$> idxs)) =
    filter (fun i => f i <> 0) idxs.
Proof.
  induction idxs as [|i l IH]; [done|]. csimpl. rewrite filter_cons, <- IH.
  destruct (Z.eqb_spec (f i) 0) as [H|H]; [by rewrite decide_False by (intros ?; done)|by rewrite decide_True].
Qed.

(** [ubatch_add] of valid tokens in equal parts never stops, and returns their gathering. *)
Lemma ubatch_add_ok a idxs n_seqs eqs :
  allocr_ok a -> Forall (fun i => i < n_toks a)%nat idxs -> n_seqs <> 0%nat -> (length idxs mod n_seqs = 0)%nat ->
  balloc_ubatch_add a idxs n_seqs eqs =
    Ok (with_split a (ba_out_ids a ++ outputs a idxs) (ba_n_used a) (ba_used a), gather a idxs n_seqs eqs).
Proof.
  intros O Hi Hn Hm. unfold balloc_ubatch_add. rewrite (proj2 (Nat.eqb_neq _ _) Hn). simpl.
  rewrite assert_ok by by apply Nat.eqb_eq. simpl.
  assert (Hlt : forall i, i ∈ idxs -> (i < n_toks a)%nat) by by apply Forall_forall.
  assert (match b_token (ba_batch a) with Some t => r ← mmap (vec_get t) idxs; Ok (Some r) | None => Ok None end
    = Ok ((fun t => (fun i => t !!! i) <$> idxs) <$> b_token (ba_batch a))) as ->.
  { destruct (b_token (ba_batch a)) as [t|] eqn:Et; [|done].
    rewrite (mmap_fmap _ (fun i => t !!! i)); [done|]. intros i Hin. apply vec_get_at.
    pose proof (ao_token a O t Et). specialize (Hlt i Hin). lia. }
  simpl.
  assert (match b_embd (ba_batch a) with Some l => r ← copy_embd (ba_n_embd a) l idxs; Ok (Some r) | None => Ok None end
    = Ok ((fun l => gather_embd (ba_n_embd a) l idxs) <$> b_embd (ba_batch a))) as ->.
  { destruct (b_embd (ba_batch a)) as [l|] eqn:El; [|done].
    by rewrite (copy_embd_ok _ _ _ (n_toks a)) by (done || by apply (ao_embd a O)). }
  simpl. rewrite copy_pos_ok by done. simpl.
  rewrite (mmap_fmap (ptr_get (b_n_seq_id (ba_batch a))) (fun i => Z.of_nat (length (tok_ids a i)))) by (intros i Hin; by apply (ao_nids a O), Hlt).
  simpl. destruct (ao_logit a O) as (l & Hl & Hlen).
  rewrite (mmap_fmap (ptr_get (b_logits (ba_batch a))) (tok_logit a)).
  2:{ intros i Hin. apply (ptr_get_at _ l); [done|]. specialize (Hlt i Hin). lia. }
  simpl. rewrite mmap_ids by done. simpl. rewrite mfor_bits.
  2:{ apply Forall_forall. intros s (ids & Hs & (i & -> & Hin)%list_elem_of_fmap)%elem_of_concat.
      destruct (ao_ids a O i) as (_ & _ & _ & Hf); [by apply Hlt|]. rewrite Forall_forall in Hf.
      specialize (Hf s Hs). pose proof (ao_max a O). unfold MAX_SEQ in *. lia. }
  simpl. rewrite unq_loop by apply O. simpl. by rewrite unq_of_set, omap_outputs.
Qed.
End gather.
