(* ===== verification/SplitEqual.v ===== *)
(** * [split_simple] and [split_equal]

    [split_simple] hands out the batch in order, in pieces of [n_ubatch] tokens; [split_equal]
    hands out equal runs of tokens of disjoint sequence sets. *)

From S2P Require Import Prelude KvCells KvCellsInv Batch KvCache BatchTheory.

Section split.
Context {E : Type}.
Implicit Types a : llama_batch_allocr E.

Lemma allocr_ok_split a out k used : allocr_ok a -> allocr_ok (with_split a out k used).
Proof. intros []. by split. Qed.

(** The first [m] tokens are used. *)
Definition simple_at a (m : nat) (out : list nat) : llama_batch_allocr E :=
  with_split a out m (replicate m true ++ replicate (n_toks a - m) false).

Lemma simple_used a m out : (m <= n_toks a)%nat -> length (ba_used (simple_at a m out)) = n_toks a.
Proof. intros H. simpl. rewrite length_app, !length_replicate. lia. Qed.

Lemma first_unused_at m k : first_unused (replicate m true ++ replicate k false) = m.
Proof. induction m as [|m IH]; simpl; [by destruct k|by rewrite IH]. Qed.

Lemma mark_used_at a m out : (m < n_toks a)%nat ->
  mark_used (simple_at a m out) m = Ok (simple_at a (S m) out).
Proof.
  intros H. unfold mark_used, vec_set. rewrite simple_used by lia. rewrite decide_True by done. simpl.
  unfold simple_at, with_split. do 2 f_equal.
  rewrite <- (Nat.add_0_r m) at 1. rewrite <- (length_replicate m true) at 1. rewrite insert_app_r.
  replace (n_toks a - m)%nat with (S (n_toks a - S m)) by lia. simpl.
  change (true :: replicate m true ++ ?l) with (replicate (S m) true ++ l).
  by rewrite replicate_S_end, <- app_assoc.
Qed.

(** The number of tokens the loop still takes from [m]. *)
Definition piece (n n_ubatch taken m : nat) : nat := Nat.min (n - m) (Nat.max 1 (n_ubatch - taken)).

Lemma split_simple_loop_ok a n_ubatch out fuel : forall m idxs,
  (m < n_toks a)%nat -> (n_toks a - m <= fuel)%nat ->
  let c := piece (n_toks a) n_ubatch (length idxs) m in
  split_simple_loop fuel n_ubatch m (simple_at a m out) idxs =
    Ok (simple_at a (m + c) out, idxs ++ seq m c).
Proof.
  induction fuel as [|fuel IH]; intros m idxs Hm Hf c; [lia|].
  cbn [split_simple_loop]. rewrite mark_used_at by done.
  change (Ok (simple_at a (S m) out) ≫= ?k) with (k (simple_at a (S m) out)). cbv beta zeta.
  rewrite simple_used, length_app by lia. change (length [m]) with 1%nat.
  destruct (Nat.leb_spec (n_toks a) (S m)).
  { assert (c = 1%nat) as -> by (unfold c, piece; lia). simpl. by rewrite Nat.add_1_r. }
  destruct (Nat.leb_spec n_ubatch (length idxs + 1)).
  { assert (c = 1%nat) as -> by (unfold c, piece; lia). simpl. by rewrite Nat.add_1_r. }
  specialize (IH (S m) (idxs ++ [m]) ltac:(lia) ltac:(lia)). cbv zeta in IH.
  rewrite IH, length_app, <- app_assoc. change (length [m]) with 1%nat.
  assert (c = S (piece (n_toks a) n_ubatch (length idxs + 1) (S m))) as -> by (unfold c, piece; lia).
  simpl. by rewrite (Nat.add_succ_r m).
Qed.

Lemma split_simple_ok a n_ubatch out m :
  allocr_ok a -> (m < n_toks a)%nat ->
  let c := piece (n_toks a) n_ubatch 0 m in
  balloc_split_simple (simple_at a m out) n_ubatch =
    Ok (simple_at a (m + c) (out ++ outputs a (seq m c)), gather a (seq m c) c false).
Proof.
  intros O Hm c. unfold balloc_split_simple. rewrite simple_used by lia.
  change (ba_used (simple_at a m out)) with (replicate m true ++ replicate (n_toks a - m) false).
  rewrite first_unused_at. cbv zeta. rewrite (proj2 (Nat.leb_gt _ _) Hm).
  rewrite (split_simple_loop_ok a n_ubatch out (n_toks a) m []) by lia. change (length []) with 0%nat. fold c.
  change (Ok ?x ≫= ?k) with (k x). cbv beta iota. rewrite app_nil_l, length_seq.
  assert (Hc : (0 < c)%nat) by (unfold c, piece; lia).
  rewrite ubatch_add_ok; [done|by apply allocr_ok_split| |lia|rewrite length_seq; by apply Nat.Div0.mod_same].
  apply Forall_forall. intros i Hi%elem_of_seq. unfold c, piece in Hi. unfold n_toks in *. simpl. lia.
Qed.

Lemma split_simple_done a n_ubatch out :
  balloc_split_simple (simple_at a (n_toks a) out) n_ubatch = Ok (simple_at a (n_toks a) out, ubatch_none).
Proof.
  unfold balloc_split_simple. rewrite simple_used by lia.
  change (ba_used (simple_at a (n_toks a) out)) with (replicate (n_toks a) true ++ replicate (n_toks a - n_toks a) false).
  rewrite first_unused_at. cbv zeta. by rewrite (proj2 (Nat.leb_le _ _)) by lia.
Qed.

(** The pieces: consecutive tokens, full but for the last. *)
Inductive pieces (n n_ubatch : nat) : nat -> list (list nat) -> Prop :=
  | pieces_nil : pieces n n_ubatch n []
  | pieces_cons m l : (m < n)%nat -> pieces n n_ubatch (m + piece n n_ubatch 0 m) l ->
      pieces n n_ubatch m (seq m (piece n n_ubatch 0 m) :: l).

Lemma pieces_concat n n_ubatch m l : pieces n n_ubatch m l -> (m <= n)%nat /\ concat l = seq m (n - m).
Proof.
  induction 1 as [|m l Hm _ [Hle IH]]; [rewrite Nat.sub_diag; split; [lia|done]|].
  split; [lia|]. simpl. rewrite IH. rewrite <- seq_app. f_equal. lia.
Qed.

Lemma pieces_size n n_ubatch m l : pieces n n_ubatch m l ->
  forall j x, l !! j = Some x -> (0 < length x <= Nat.max 1 n_ubatch)%nat /\
    ((S j < length l)%nat -> length x = Nat.max 1 n_ubatch).
Proof.
  induction 1 as [|m l Hm Hp IH]; intros j x Hj; [done|]. destruct j as [|j]; simplify_eq/=.
  - rewrite length_seq. split; [unfold piece; lia|]. intros Hl.
    inversion Hp as [Hx Hy|m' l' Hm' _ Hx Hy]; subst; simpl in Hl; unfold piece in *; lia.
  - destruct (IH j x Hj) as [H1 H2]. split; [done|]. intros Hl. apply H2. lia.
Qed.

Lemma split_loop_simple a n_ubatch fuel : forall m out us,
  allocr_ok a -> (m <= n_toks a)%nat -> (n_toks a - m < fuel)%nat ->
  exists l, pieces (n_toks a) n_ubatch m l /\
    split_loop (fun a => balloc_split_simple a n_ubatch) fuel (simple_at a m out) us =
      Ok (simple_at a (n_toks a) (out ++ outputs a (seq m (n_toks a - m))),
          us ++ ((fun idxs => gather a idxs (length idxs) false) <$> l)).
Proof.
  induction fuel as [|fuel IH]; intros m out us O Hm Hf; [lia|]. cbn [split_loop].
  destruct (decide (m = n_toks a)) as [->|Hne].
  - exists []. split; [constructor|]. rewrite split_simple_done. simpl.
    by rewrite Nat.sub_diag, !app_nil_r.
  - rewrite split_simple_ok by (done || lia). set (c := piece (n_toks a) n_ubatch 0 m).
    assert (Hc : (0 < c <= n_toks a - m)%nat) by (unfold c, piece; lia).
    change (Ok ?x ≫= ?k) with (k x). cbv beta iota.
    change (ub_n_tokens (gather a (seq m c) c false)) with (length (seq m c)). rewrite length_seq.
    rewrite (proj2 (Nat.eqb_neq c 0)) by lia.
    destruct (IH (m + c)%nat (out ++ outputs a (seq m c)) (us ++ [gather a (seq m c) c false]))
      as (l & Hp & Hs); [done|lia|lia|].
    exists (seq m c :: l). split; [constructor; [lia|done]|]. rewrite Hs. do 2 f_equal.
    + f_equal. rewrite <- app_assoc. f_equal. unfold outputs. rewrite <- filter_app, <- seq_app. do 2 f_equal. lia.
    + rewrite <- app_assoc. simpl. by rewrite length_seq.
Qed.
End split.

(** * [split_equal] hands out equal runs of tokens of disjoint sequence sets *)

Section split.
Context {E : Type}.
Implicit Types a : llama_batch_allocr E.

(** The tokens in [D] are used, those in [O] were given to [ubatch_add]. *)
Definition marked (n : nat) (D : list nat) : list bool := (fun i => bool_decide (i ∈ D)) <$> seq 0 n.
Definition mid_at a (O D : list nat) : llama_batch_allocr E :=
  with_split a (outputs a O) (length D) (marked (n_toks a) D).
Definition equal_at a (D : list nat) : llama_batch_allocr E := mid_at a D D.

Lemma marked_lookup n D i : (i < n)%nat -> marked n D !! i = Some (bool_decide (i ∈ D)).
Proof. intros H. unfold marked. by rewrite list_lookup_fmap, lookup_seq_lt. Qed.

Lemma marked_ext n D D' : (forall i, i ∈ D <-> i ∈ D') -> marked n D = marked n D'.
Proof. intros H. apply list_fmap_ext. intros _ i _. by apply bool_decide_ext. Qed.

Lemma marked_insert n D i : (i < n)%nat -> <[i := true]> (marked n D) = marked n (D ++ [i]).
Proof.
  intros Hi. apply list_eq. intros j.
  assert (Hl : length (marked n D) = n) by (unfold marked; by rewrite length_fmap, length_seq).
  destruct (decide (j < n)%nat) as [Hj|Hj].
  2:{ rewrite !lookup_ge_None_2; [done| |rewrite length_insert; lia].
      unfold marked. rewrite length_fmap, length_seq. lia. }
  rewrite (marked_lookup n (D ++ [i])) by done. destruct (decide (i = j)) as [->|Hne].
  - rewrite list_lookup_insert_eq by lia. by rewrite bool_decide_true by set_solver.
  - rewrite list_lookup_insert_ne, marked_lookup by done. f_equal. apply bool_decide_ext. set_solver.
Qed.

Lemma mark_used_mid a O D i : (i < n_toks a)%nat -> mark_used (mid_at a O D) i = Ok (mid_at a O (D ++ [i])).
Proof.
  intros H. unfold mark_used, vec_set. change (ba_used (mid_at a O D)) with (marked (n_toks a) D).
  rewrite decide_True by (unfold marked; by rewrite length_fmap, length_seq). simpl.
  rewrite marked_insert by done. unfold mid_at, with_split. simpl. by rewrite length_app, Nat.add_1_r.
Qed.

(** ** One round of the expansion loop *)

(** The runs [ls] after [k] rounds: what is left of each, and what was taken. *)
Definition run_at (k : nat) (l : list nat) : list nat * list nat := (drop k l, take k l).

Lemma equal_take_ok a O k ls : forall D acc,
  (forall l, l ∈ ls -> (k < length l)%nat /\ Forall (fun i => i < n_toks a)%nat l) ->
  mfor (fun '(a, out) '(rest, idxs) =>
    match rest with
    | [] => Err OutOfRange
    | t :: r => a ← mark_used a t; Ok (a, out ++ [(r, idxs ++ [t])])
    end) (run_at k <$> ls) (mid_at a O D, acc) =
  Ok (mid_at a O (D ++ omap (fun l => l !! k) ls), acc ++ (run_at (S k) <$> ls)).
Proof.
  induction ls as [|l ls IH]; intros D acc H; csimpl; [by rewrite !app_nil_r|].
  destruct (H l) as [Hk Hn]; [set_solver|]. destruct (lookup_lt_is_Some_2 l k Hk) as [t Ht].
  rewrite (drop_S _ t) by done. rewrite Ht. rewrite mark_used_mid by (by eapply Forall_lookup_1 in Hn).
  simpl. rewrite IH by (intros; apply H; set_solver). rewrite <- !app_assoc. simpl.
  do 4 f_equal. unfold run_at. by rewrite (take_S_r _ _ t).
Qed.

Lemma elem_of_round k (ls : list (list nat)) i :
  i ∈ concat (take k <$> ls) ++ omap (fun l => l !! k) ls <-> i ∈ concat (take (S k) <$> ls).
Proof.
  rewrite elem_of_app, !elem_of_concat_fmap, list_elem_of_omap.
  setoid_rewrite elem_of_take. split.
  - intros [(l & Hl & j & Hj & Hlt)|(l & Hl & Hk)]; exists l; (split; [done|]); [exists j|exists k]; by split; [|lia].
  - intros (l & Hl & j & Hj & Hlt). destruct (decide (j = k)) as [->|]; [right; by exists l|].
    left. exists l. split; [done|]. exists j. split; [done|lia].
Qed.

Lemma length_round k (ls : list (list nat)) : (forall l, l ∈ ls -> (k <= length l)%nat) ->
  length (concat (take k <$> ls)) = (length ls * k)%nat.
Proof.
  induction ls as [|l ls IH]; intros H; csimpl; [done|].
  rewrite length_app, length_take, IH by set_solver. specialize (H l). rewrite Nat.min_l; [lia|]. apply H. set_solver.
Qed.

(** The loop: some number [k] of rounds, as many as fit (at least one). *)
Lemma split_equal_loop_ok a O D ls n_ubatch fuel : forall k,
  ls <> [] -> (forall l, l ∈ ls -> (k <= length l <= n_toks a)%nat /\ Forall (fun i => i < n_toks a)%nat l) ->
  (exists l, l ∈ ls /\ length l - k < fuel)%nat ->
  (0 < k -> (k + 1) * length ls <= n_ubatch)%nat -> ((forall l, l ∈ ls -> l <> []) \/ (0 < k)%nat) ->
  exists k', split_equal_loop fuel n_ubatch (mid_at a O (D ++ concat (take k <$> ls))) (run_at k <$> ls) =
      Ok (mid_at a O (D ++ concat (take k' <$> ls)), run_at k' <$> ls) /\
    (0 < k')%nat /\ (k' = 1 \/ k' * length ls <= n_ubatch)%nat /\ forall l, l ∈ ls -> (k' <= length l)%nat.
Proof.
  induction fuel as [|fuel IH]; intros k Hne Hls (l0 & Hl0 & Hfuel) Hk Hpos; [lia|]. cbn [split_equal_loop].
  destruct (existsb _ _) eqn:Eex.
  - apply existsb_exists in Eex as (p & Hp & Hd%bool_decide_eq_true).
    apply list_elem_of_In, list_elem_of_fmap in Hp as (l & -> & Hl). simpl in Hd.
    assert (length l = k).
    { apply (f_equal length) in Hd. rewrite length_drop in Hd. simpl in Hd. destruct (Hls l Hl). lia. }
    destruct Hpos as [Hpos|Hpos]; [specialize (Hpos l Hl); destruct l; simpl in *; [done|]|];
      (exists k; split_and!; [done|lia|right; nia|intros l' Hl'; by apply Hls]).
  - assert (Hlt : forall l, l ∈ ls -> (k < length l)%nat /\ Forall (fun i => i < n_toks a)%nat l).
    { intros l Hl. destruct (Hls l Hl) as [H1 H2]. split; [|done].
      destruct (decide (k = length l)) as [->|]; [|lia]. exfalso. rewrite <- not_true_iff_false in Eex. apply Eex.
      apply existsb_exists. exists (run_at (length l) l). split; [apply list_elem_of_In, list_elem_of_fmap; eauto|].
      apply bool_decide_eq_true. simpl. by rewrite drop_all. }
    unfold equal_take. rewrite (equal_take_ok a O k ls) by done.
    change (Ok ?x ≫= ?f) with (f x). cbv beta iota zeta. rewrite app_nil_l.
    assert (mid_at a O ((D ++ concat (take k <$> ls)) ++ omap (fun l => l !! k) ls)
      = mid_at a O (D ++ concat (take (S k) <$> ls))) as ->.
    { unfold mid_at. f_equal.
      - rewrite <- app_assoc, !(length_app D). f_equal. rewrite length_app, !length_round by (intros l Hl; destruct (Hlt l Hl); lia).
        assert (length (omap (fun l => l !! k) ls) = length ls) as ->; [|lia].
        clear -Hlt; induction ls as [|l ls IH]; [done|]. csimpl.
        destruct (lookup_lt_is_Some_2 l k) as [t ->]; [apply Hlt; set_solver|]. simpl. f_equal. apply IH. set_solver.
      - apply marked_ext. intros i. rewrite <- app_assoc, !(elem_of_app D). by rewrite elem_of_round. }
    assert (match run_at (S k) <$> ls with [] => 0%nat | p :: _ => length (snd p) end = S k) as ->.
    { destruct ls as [|l1 ls]; [done|]. simpl. rewrite length_take. destruct (Hlt l1); [set_solver|]. lia. }
    rewrite length_fmap. destruct (Nat.ltb_spec n_ubatch ((S k + 1) * length ls)).
    + exists (S k). split_and!; [done|lia| |intros l Hl; by apply Hlt].
      destruct k as [|k]; [by left|right]. specialize (Hk ltac:(lia)). lia.
    + apply IH; [done| |exists l0; split; [done|]|lia|lia].
      * intros l Hl. destruct (Hlt l Hl). destruct (Hls l Hl) as [[_ ?] _]. split; [lia|done].
      * destruct (Hlt l0 Hl0). lia.
Qed.

(** ** The sets taking part *)

Definition first_id a (i : nat) : Z := default 0 (head (tok_ids a i)).

Lemma seq_id_first a i : allocr_ok a -> (i < n_toks a)%nat -> seq_id_at (ba_batch a) i 0 = Ok (first_id a i).
Proof.
  intros O Hi. destruct (ao_ids a O i Hi) as (Hids & Hne & _). unfold first_id.
  pose proof (ao_nids a O i Hi) as Hn. unfold seq_ids_of in Hids. rewrite Hn in Hids.
  change (mmap (fun s => seq_id_at (ba_batch a) i s) (seq 0 (Z.to_nat (Z.of_nat (length (tok_ids a i)))))
    = Ok (tok_ids a i)) in Hids. rewrite Nat2Z.id in Hids.
  destruct (tok_ids a i) as [|q l] eqn:El; [done|]. simpl in Hids.
  apply bind_ok in Hids as (q' & Hq & Hids). apply bind_ok in Hids as (l' & _ & Hids).
  injection Hids as -> _. done.
Qed.

Definition disjoint_sets (Ts : list (gset Z)) : Prop :=
  forall j j' T T', Ts !! j = Some T -> Ts !! j' = Some T' -> j <> j' -> T ∩ T' = ∅.

Lemma disjoint_snoc Ts T : disjoint_sets Ts -> (forall C, C ∈ Ts -> C ∩ T = ∅) -> disjoint_sets (Ts ++ [T]).
Proof.
  intros Hd HT j j' C C' [Hj|(Hj & Hj2)]%lookup_app_Some [Hj'|(Hj' & Hj2')]%lookup_app_Some Hne.
  - by apply (Hd j j').
  - apply list_lookup_singleton_Some in Hj2' as [_ <-]. apply HT. by eapply list_elem_of_lookup_2.
  - apply list_lookup_singleton_Some in Hj2 as [_ <-]. rewrite (comm_L (∩)). apply HT. by eapply list_elem_of_lookup_2.
  - apply list_lookup_singleton_Some in Hj2 as [? _], Hj2' as [? _]. lia.
Qed.

(** What the first [i] tokens have chosen, through representatives [reps]. *)
Record chosen a (D : list nat) (n_ubatch : nat) (sq : bool) (i : nat) (reps : list nat) (last : Z) : Prop := {
  ch_reps : Forall (fun r => (r < n_toks a)%nat /\ r ∉ D) reps;
  ch_disj : disjoint_sets (tok_set a <$> reps);
  ch_none : reps = [] -> forall j, (j < i)%nat -> j ∈ D;
  ch_size : (length reps <= S n_ubatch)%nat;
  ch_seq  : sq = true -> reps <> [] -> exists q, first_id a <$> reps = seqZ q (Z.of_nat (length reps)) /\
              last = q + Z.of_nat (length reps) - 1
}.

Lemma tok_set_ne a i : allocr_ok a -> (i < n_toks a)%nat -> tok_set a i <> ∅.
Proof.
  intros O Hi. destruct (ao_ids a O i Hi) as (_ & Hne & _). unfold tok_set.
  destruct (tok_ids a i); [done|]. set_solver.
Qed.

Lemma chosen_skip a D n_ubatch sq i reps last :
  (reps = [] -> i ∈ D) -> chosen a D n_ubatch sq i reps last -> chosen a D n_ubatch sq (i + 1) reps last.
Proof.
  intros Hin [C1 C2 C3 C4 C5]. split; try done. intros He j Hj.
  destruct (decide (j = i)) as [->|]; [by apply Hin|apply C3; [done|lia]].
Qed.

Lemma chosen_add a D n_ubatch sq i reps last :
  allocr_ok a -> (i < n_toks a)%nat -> i ∉ D -> (length reps <= n_ubatch)%nat ->
  (forall C, C ∈ tok_set a <$> reps -> C ∩ tok_set a i = ∅) ->
  (sq = true -> reps <> [] -> first_id a i = last + 1) ->
  chosen a D n_ubatch sq i reps last -> chosen a D n_ubatch sq (i + 1) (reps ++ [i]) (first_id a i).
Proof.
  intros O Hi HD Hl Hd Hs [C1 C2 C3 C4 C5]. split.
  - apply Forall_app. split; [done|]. by apply Forall_singleton.
  - rewrite fmap_app. by apply disjoint_snoc.
  - intros He. by apply app_eq_nil in He as [_ He].
  - rewrite length_app. simpl. lia.
  - intros Hsq _. rewrite fmap_app, length_app. simpl. destruct (decide (reps = [])) as [->|Hne].
    + exists (first_id a i). simpl. split; [|lia]. unfold seqZ. simpl. done.
    + destruct (C5 Hsq Hne) as (q & Hq & ->). exists q. specialize (Hs Hsq Hne).
      rewrite Hq, Hs, Nat2Z.inj_add, seqZ_app by lia. split; [|lia]. f_equal. unfold seqZ. simpl. f_equal. lia.
Qed.

Lemma equal_sets_step_ok a O D n_ubatch sq i reps last :
  allocr_ok a -> (i < n_toks a)%nat -> chosen a D n_ubatch sq i reps last ->
  exists reps' last', equal_sets_step (mid_at a O D) n_ubatch sq
      ((n_ubatch <? length reps)%nat, tok_set a <$> reps, last) i =
      Ok ((n_ubatch <? length reps')%nat, tok_set a <$> reps', last') /\
    chosen a D n_ubatch sq (i + 1) reps' last'.
Proof.
  intros Ok_ Hi C. unfold equal_sets_step.
  assert (Hskip : (reps = [] -> i ∈ D) -> exists reps' last',
      Ok ((n_ubatch <? length reps)%nat, tok_set a <$> reps, last) =
      Ok ((n_ubatch <? length reps')%nat, tok_set a <$> reps', last') /\ chosen a D n_ubatch sq (i + 1) reps' last').
  { intros H. exists reps, last. split; [done|]. by apply chosen_skip. }
  destruct (Nat.ltb_spec n_ubatch (length reps)) as [Hst|Hst].
  { apply Hskip. intros ->. simpl in Hst. lia. }
  assert (vec_get (ba_used (mid_at a O D)) i = Ok (bool_decide (i ∈ D))) as ->.
  { apply vec_get_ok. by apply marked_lookup. }
  simpl.
  case_bool_decide as HD; [by apply Hskip|].
  assert (vec_get (ba_seq_set a) i = Ok (tok_set a i)) as ->.
  { apply vec_get_ok. rewrite (ao_sets a Ok_), list_lookup_fmap, lookup_seq_lt by done. done. }
  simpl.
  rewrite seq_id_first by done. simpl.
  set (ad := forallb (fun C0 => bool_decide (C0 ∩ tok_set a i = ∅)) (tok_set a <$> reps)).
  assert (Had : ad = true -> forall C, C ∈ tok_set a <$> reps -> C ∩ tok_set a i = ∅).
  { intros Ht C0 Hin. unfold ad in Ht. rewrite forallb_forall in Ht.
    by eapply bool_decide_eq_true, Ht, list_elem_of_In. }
  assert (Hnil : reps = [] -> ad = true) by by intros ->.
  assert (Hlen : bool_decide (tok_set a <$> reps = []) = bool_decide (reps = [])).
  { apply bool_decide_ext. by destruct reps. }
  rewrite Hlen. rewrite length_app, length_fmap. change (length [tok_set a i]) with 1%nat.
  assert (Hadd : ad = true -> (sq = true -> reps <> [] -> first_id a i = last + 1) ->
    exists reps' last', Ok ((n_ubatch <? length reps + 1)%nat, (tok_set a <$> reps) ++ [tok_set a i], first_id a i) =
      Ok ((n_ubatch <? length reps')%nat, tok_set a <$> reps', last') /\ chosen a D n_ubatch sq (i + 1) reps' last').
  { intros Ht Hs. exists (reps ++ [i]), (first_id a i). rewrite length_app, fmap_app. split; [done|].
    apply (chosen_add _ _ _ _ _ _ last); auto. }
  destruct (sq && ad && negb (bool_decide (reps = []))) eqn:Eb; simpl.
  - apply andb_true_iff in Eb as [[Hsq Ht]%andb_true_iff Hne].
    destruct (Z.eqb_spec (first_id a i) (last + 1)) as [Hq|Hq]; [by apply Hadd|].
    apply Hskip. intros ->. done.
  - destruct ad eqn:Ea; simpl.
    + apply Hadd; [done|]. intros -> Hne. rewrite bool_decide_false in Eb by done. done.
    + apply Hskip. intros He. by specialize (Hnil He).
Qed.

Lemma equal_sets_ok a O D n_ubatch sq : allocr_ok a ->
  exists reps last, mfor (equal_sets_step (mid_at a O D) n_ubatch sq) (seq 0 (n_toks a)) (false, [], -1) =
      Ok ((n_ubatch <? length reps)%nat, tok_set a <$> reps, last) /\
    chosen a D n_ubatch sq (n_toks a) reps last.
Proof.
  intros O0.
  pose proof (sat_for (equal_sets_step (mid_at a O D) n_ubatch sq) (fun i st => exists reps last,
    st = ((n_ubatch <? length reps)%nat, tok_set a <$> reps, last) /\ chosen a D n_ubatch sq i reps last)
    (n_toks a) (false, [], -1)) as H.
  apply sat_exists in H as (st & Hst & reps & last & -> & C); [by exists reps, last| |].
  - exists [], (-1). split; [done|]. split; try done; simpl; try lia; try (by constructor).
  - intros i st Hi (reps & last & -> & C). apply sat_exists.
    destruct (equal_sets_step_ok a O D n_ubatch sq i reps last O0 Hi C) as (reps' & last' & Hs & C').
    eexists. split; [exact Hs|]. by exists reps', last'.
Qed.

(** ** The runs of unused tokens *)

Definition set_run a (D : list nat) (T : gset Z) : list nat := filter (fun i => i ∉ D) (set_tokens a T).

(** Within every sequence set the used tokens come first. *)
Definition closed_in (D l : list nat) : Prop :=
  forall l1 x l2, l = l1 ++ x :: l2 -> x ∉ D -> Forall (fun y => y ∉ D) l2.
Definition closed_at a (D : list nat) : Prop := forall T, closed_in D (set_tokens a T).

Lemma closed_tail D x l : closed_in D (x :: l) -> closed_in D l.
Proof. intros H l1 y l2 ->. by apply (H (x :: l1)). Qed.

Lemma skip_used_ok n D l : Forall (fun i => i < n)%nat l -> closed_in D l -> (exists i, i ∈ l /\ i ∉ D) ->
  skip_used (marked n D) l = Ok (filter (fun i => i ∉ D) l).
Proof.
  induction 1 as [|x l Hx _ IH]; intros Hc (i & Hi & HD); [by apply not_elem_of_nil in Hi|].
  cbn [skip_used]. assert (vec_get (marked n D) x = Ok (bool_decide (x ∈ D))) as ->.
  { apply vec_get_ok. by apply marked_lookup. }
  simpl. rewrite filter_cons. case_bool_decide as Hin.
  - rewrite decide_False by tauto. apply IH; [by eapply closed_tail|]. exists i.
    apply elem_of_cons in Hi as [->|Hi]; [done|by split].
  - rewrite decide_True by done. do 2 f_equal. symmetry. apply filter_all. by apply (Hc [] x l).
Qed.

Lemma elem_of_set_tokens a T i : allocr_ok a -> i ∈ set_tokens a T <-> (i < n_toks a)%nat /\ tok_set a i = T.
Proof.
  intros O. rewrite (ao_map a O), list_elem_of_filter, elem_of_seq. split; intros [H1 H2]; split; done || lia.
Qed.

Lemma elem_of_run a D T i : allocr_ok a ->
  i ∈ set_run a D T <-> (i < n_toks a)%nat /\ tok_set a i = T /\ i ∉ D.
Proof. intros O. unfold set_run. rewrite list_elem_of_filter, elem_of_set_tokens by done. tauto. Qed.

Lemma run_NoDup a D T : allocr_ok a -> NoDup (set_run a D T).
Proof. intros O. unfold set_run. rewrite (ao_map a O). do 2 apply NoDup_filter. apply NoDup_seq. Qed.

Lemma run_bound a D T : allocr_ok a -> (length (set_run a D T) <= n_toks a)%nat /\
  Forall (fun i => i < n_toks a)%nat (set_run a D T).
Proof.
  intros O. split; [|apply Forall_forall; intros i Hi; by apply elem_of_run in Hi as [? _]].
  unfold set_run. rewrite (ao_map a O).
  etrans; [apply length_filter|]. etrans; [apply length_filter|]. by rewrite length_seq.
Qed.

(** The tokens of a group: [k] of every set. *)
Definition group_runs a (D : list nat) (Ts : list (gset Z)) (k : nat) : list (list nat) :=
  (fun T => take k (set_run a D T)) <$> Ts.
Definition group_tokens a (D : list nat) (Ts : list (gset Z)) (k : nat) : list nat :=
  concat (group_runs a D Ts k).

(** One micro-batch of [split_equal] *)
Record equal_group a (D : list nat) (n_ubatch : nat) (sq : bool) (Ts : list (gset Z)) (k : nat) : Prop := {
  eg_ne   : Ts <> [];
  eg_k    : (0 < k)%nat;
  eg_run  : forall T, T ∈ Ts -> (k <= length (set_run a D T))%nat;
  eg_fit  : (k = 1 \/ k * length Ts <= n_ubatch)%nat;
  eg_size : (length Ts <= S n_ubatch)%nat;
  eg_disj : disjoint_sets Ts;
  eg_seq  : sq = true -> exists q, forall j T, Ts !! j = Some T ->
              exists i, (i < n_toks a)%nat /\ tok_set a i = T /\ first_id a i = q + Z.of_nat j
}.

Lemma elem_of_group a D Ts k i : allocr_ok a -> i ∈ group_tokens a D Ts k ->
  (i < n_toks a)%nat /\ (i ∉ D) /\ exists T, T ∈ Ts /\ tok_set a i = T /\ i ∈ take k (set_run a D T).
Proof.
  intros O (T & HT & Hi)%elem_of_concat_fmap.
  assert (Hr : i ∈ set_run a D T) by by eapply elem_of_take in Hi as (j & Hj%list_elem_of_lookup_2 & _).
  apply elem_of_run in Hr as (H1 & H2 & H3); [|done]. split_and!; [done|done|]. by exists T.
Qed.

Lemma take_NoDup {A} k (l : list A) : NoDup l -> NoDup (take k l).
Proof. intros H. rewrite <- (take_drop k l) in H. by apply NoDup_app in H as [H _]. Qed.

(** Different sets have different tokens. *)
Lemma group_NoDup a D n_ubatch sq Ts k : allocr_ok a -> equal_group a D n_ubatch sq Ts k -> NoDup (group_tokens a D Ts k).
Proof.
  intros O [_ _ Hr _ _ Hd _].
  assert (HT : forall T, T ∈ Ts -> (k = 0 \/ exists i, i ∈ set_run a D T)%nat) by
    (intros T HT; destruct k; [by left|right]; specialize (Hr T HT); destruct (set_run a D T) as [|i l];
      [simpl in Hr; lia|exists i; set_solver]).
  clear Hr. induction Ts as [|T Ts IH]; [apply NoDup_nil_2|]. unfold group_tokens. csimpl.
  apply NoDup_app. split_and!; [by apply take_NoDup, run_NoDup| |].
  - intros i Hi Hin. apply (elem_of_group a D Ts k) in Hin as (Hb & HD & T' & HT' & HE & _); [|done].
    assert (HiT : i ∈ set_run a D T) by by apply elem_of_take in Hi as (j & Hj%list_elem_of_lookup_2 & _).
    apply elem_of_run in HiT as (_ & HE' & _); [|done].
    apply list_elem_of_lookup in HT' as [j Hj].
    assert (T ∩ T' = ∅) by by apply (Hd 0%nat (S j)). rewrite <- HE, <- HE' in H.
    apply (tok_set_ne a i); [done..|]. set_solver.
  - apply IH; [|set_solver]. intros j j' T1 T2 H1 H2 Hne. apply (Hd (S j) (S j')); [done|done|lia].
Qed.

(** The used tokens of each set still come first afterwards. *)
Lemma closed_group a D n_ubatch sq Ts k : allocr_ok a -> equal_group a D n_ubatch sq Ts k ->
  closed_at a D -> closed_at a (D ++ group_tokens a D Ts k).
Proof.
  intros O G Hc T l1 x l2 Hl Hx. apply not_elem_of_app in Hx as [HxD Hxg].
  pose proof (Hc T l1 x l2 Hl HxD) as Hfree. apply Forall_forall. intros y Hy.
  apply not_elem_of_app. split; [by eapply Forall_forall in Hy; [|exact Hfree]|]. intros Hyg.
  apply elem_of_group in Hyg as (_ & _ & T' & HT' & HE & Hyt); [|done].
  assert (HyT : tok_set a y = T).
  { apply (elem_of_set_tokens a T y); [done|]. rewrite Hl. set_solver. }
  rewrite HyT in HE. subst T'. apply Hxg. apply elem_of_concat_fmap. exists T. split; [done|].
  assert (Hrun : set_run a D T = filter (fun i => i ∉ D) l1 ++ x :: l2).
  { unfold set_run. rewrite Hl, filter_app, filter_cons, decide_True by done. do 2 f_equal. by apply filter_all. }
  pose proof (run_NoDup a D T O) as Hnd. rewrite Hrun in Hyt, Hnd |- *.
  rewrite take_app in Hyt |- *. apply elem_of_app in Hyt as [Hyt|Hyt].
  - exfalso. apply NoDup_app in Hnd as (_ & Hnd & _). apply elem_of_take in Hyt as (j & Hj%list_elem_of_lookup_2 & _).
    apply (Hnd y Hj). set_solver.
  - apply elem_of_app. right. destruct (k - length (filter (fun i => i ∉ D) l1))%nat; simpl in *; set_solver.
Qed.

(** ** [split_equal] *)

(** The state the calls of [split_equal] pass on. *)
Record used_ok a (D : list nat) : Prop := {
  uo_nd     : NoDup D;
  uo_lt     : Forall (fun i => i < n_toks a)%nat D;
  uo_closed : closed_at a D
}.

Lemma used_nil a : used_ok a [].
Proof.
  split; [constructor|constructor|]. intros T l1 x l2 _ _. apply Forall_forall. intros y _. apply not_elem_of_nil.
Qed.

Lemma used_group a D n_ubatch sq Ts k : allocr_ok a -> used_ok a D -> equal_group a D n_ubatch sq Ts k ->
  used_ok a (D ++ group_tokens a D Ts k).
Proof.
  intros O [H1 H2 H3] G. split.
  - apply NoDup_app. split_and!; [done| |by eapply group_NoDup].
    intros i Hi Hg. by apply elem_of_group in Hg as (_ & ? & _).
  - apply Forall_app. split; [done|]. apply Forall_forall. intros i Hg. by apply elem_of_group in Hg as (? & _).
  - by eapply closed_group.
Qed.

Lemma split_equal_none a D n_ubatch sq : allocr_ok a ->
  (forall i, (i < n_toks a)%nat -> i ∈ D) -> balloc_split_equal (equal_at a D) n_ubatch sq = Ok (equal_at a D, ubatch_none).
Proof.
  intros O Hall. unfold balloc_split_equal. destruct (sq && ba_has_cpl (equal_at a D)); [done|].
  destruct (equal_sets_ok a D D n_ubatch sq O) as (reps & last & Hs & C).
  change (b_n_tokens (ba_batch (equal_at a D))) with (n_toks a).
  change (equal_at a D) with (mid_at a D D). rewrite Hs. simpl.
  destruct reps as [|r reps]; [done|]. pose proof (ch_reps _ _ _ _ _ _ _ C) as Hr.
  apply Forall_cons in Hr as [[H1 H2] _]. by destruct H2; apply Hall.
Qed.

Lemma split_equal_ok a D n_ubatch sq : allocr_ok a -> used_ok a D -> sq && ba_has_cpl a = false ->
  (exists i, (i < n_toks a)%nat /\ i ∉ D) ->
  exists Ts k, equal_group a D n_ubatch sq Ts k /\
    balloc_split_equal (equal_at a D) n_ubatch sq =
      Ok (equal_at a (D ++ group_tokens a D Ts k), gather a (group_tokens a D Ts k) (length Ts) true).
Proof.
  intros O [Hnd Hlt Hcl] Hcpl (i0 & Hi0 & Hi0D). unfold balloc_split_equal.
  change (ba_has_cpl (equal_at a D)) with (ba_has_cpl a). rewrite Hcpl.
  destruct (equal_sets_ok a D D n_ubatch sq O) as (reps & last & Hs & C).
  change (b_n_tokens (ba_batch (equal_at a D))) with (n_toks a).
  change (equal_at a D) with (mid_at a D D). rewrite Hs.
  change (Ok ?x ≫= ?f) with (f x). cbv beta iota zeta.
  destruct C as [C1 C2 C3 C4 C5].
  assert (Hne : reps <> []) by (intros ->; by apply Hi0D, C3).
  set (Ts := tok_set a <$> reps) in *.
  assert (HTne : Ts <> []) by (subst Ts; by destruct reps).
  rewrite (proj2 (Nat.eqb_neq (length Ts) 0)) by (by destruct Ts).
  assert (Hrep : forall T, T ∈ Ts -> exists r, (r < n_toks a)%nat /\ tok_set a r = T /\ r ∉ D).
  { intros T (r & -> & Hr)%list_elem_of_fmap. rewrite Forall_forall in C1. destruct (C1 r Hr). by exists r. }
  rewrite (mmap_fmap _ (set_run a D)).
  2:{ intros T HT. apply skip_used_ok; [|apply Hcl|].
      - apply Forall_forall. intros i Hi. apply (elem_of_set_tokens a T i O) in Hi. tauto.
      - destruct (Hrep T HT) as (r & H1 & H2 & H3). exists r. split; [by apply (elem_of_set_tokens a T r O)|done]. }
  change (Ok ?x ≫= ?f) with (f x). cbv beta iota zeta.
  assert (HlsR : forall l, l ∈ set_run a D <$> Ts -> exists T, T ∈ Ts /\ l = set_run a D T).
  { intros l (T & -> & HT)%list_elem_of_fmap. by exists T. }
  destruct (split_equal_loop_ok a D D (set_run a D <$> Ts) n_ubatch (S (n_toks a)) 0) as (k & Hk & H1 & H2 & H3).
  - by destruct Ts.
  - intros l (T & HT & ->)%HlsR. destruct (run_bound a D T O). split; [lia|done].
  - destruct Ts as [|T Ts']; [done|]. exists (set_run a D T). split; [csimpl; set_solver|].
    destruct (run_bound a D T O). lia.
  - lia.
  - left. intros l (T & HT & ->)%HlsR He. destruct (Hrep T HT) as (r & ? & ? & ?).
    assert (Hr : r ∈ set_run a D T) by by apply elem_of_run. rewrite He in Hr. by apply not_elem_of_nil in Hr.
  - assert (Hrun0 : run_at 0 <$> (set_run a D <$> Ts) = (fun l => (l, [])) <$> (set_run a D <$> Ts)).
    { apply list_fmap_ext. intros _ l _. done. }
    assert (Hcat0 : concat (take 0 <$> (set_run a D <$> Ts)) = []).
    { clear. induction Ts as [|T Ts IH]; [done|]. csimpl. done. }
    rewrite Hcat0, app_nil_r, Hrun0 in Hk. rewrite Hk. change (Ok ?x ≫= ?f) with (f x). cbv beta iota zeta.
    assert (Hgrp : concat (snd <$> (run_at k <$> (set_run a D <$> Ts))) = group_tokens a D Ts k).
    { unfold group_tokens, group_runs. by rewrite <- !list_fmap_compose. }
    assert (Hgrp2 : concat (take k <$> (set_run a D <$> Ts)) = group_tokens a D Ts k).
    { unfold group_tokens, group_runs. by rewrite <- list_fmap_compose. }
    rewrite length_fmap in H2.
    assert (G : equal_group a D n_ubatch sq Ts k).
    { split; try done.
      - intros T HT. apply H3. apply list_elem_of_fmap. by exists T.
      - subst Ts. by rewrite length_fmap.
      - intros Hsq. destruct (C5 Hsq Hne) as (q & Hq & _). exists q. intros j T Hj. subst Ts.
        rewrite list_lookup_fmap in Hj. destruct (reps !! j) as [r|] eqn:Er; [|done]. simpl in Hj. simplify_eq.
        exists r. rewrite Forall_forall in C1. destruct (C1 r); [by eapply list_elem_of_lookup_2|]. split_and!; [done|done|].
        apply (f_equal (fun l => l !! j)) in Hq. rewrite list_lookup_fmap, Er in Hq. simpl in Hq.
        symmetry in Hq. apply lookup_seqZ in Hq as [-> _]. done. }
    exists Ts, k. split; [done|]. rewrite Hgrp, Hgrp2.
    assert (Hlen : length (group_tokens a D Ts k) = (length Ts * k)%nat).
    { rewrite <- Hgrp2, length_round, length_fmap; [done|]. done. }
    change (mid_at a D (D ++ group_tokens a D Ts k)) with
      (with_split a (outputs a D) (length (D ++ group_tokens a D Ts k)) (marked (n_toks a) (D ++ group_tokens a D Ts k))).
    rewrite ubatch_add_ok; [|by apply allocr_ok_split| |by destruct Ts|].
    + unfold equal_at, mid_at. do 2 f_equal. unfold with_split. simpl. f_equal. unfold outputs. by rewrite filter_app.
    + apply Forall_forall. intros i Hi. by apply elem_of_group in Hi as [? _].
    + rewrite Hlen, Nat.mul_comm. apply Nat.Div0.mod_mul.
Qed.

(** ** The splitting loop *)

(** Groups given out one after the other from [D], until no token is left. *)
Inductive groups a (n_ubatch : nat) (sq : bool) : list nat -> list (list (list nat)) -> Prop :=
  | groups_nil D : (forall i, (i < n_toks a)%nat -> i ∈ D) -> groups a n_ubatch sq D []
  | groups_cons D Ts k gs : equal_group a D n_ubatch sq Ts k ->
      groups a n_ubatch sq (D ++ group_tokens a D Ts k) gs ->
      groups a n_ubatch sq D (group_runs a D Ts k :: gs).

Definition group_ubatch a (g : list (list nat)) : llama_ubatch E := gather a (concat g) (length g) true.

Lemma used_short a D : used_ok a D -> (length D <= n_toks a)%nat.
Proof.
  intros [H1 H2 _]. rewrite <- (length_seq (n_toks a) 0). apply submseteq_length, NoDup_submseteq; [done|].
  intros i Hi. rewrite Forall_forall in H2. apply elem_of_seq. specialize (H2 i Hi). lia.
Qed.

Lemma used_dec a D : used_ok a D ->
  (forall i, (i < n_toks a)%nat -> i ∈ D) \/ (exists i, (i < n_toks a)%nat /\ i ∉ D).
Proof.
  intros _. destruct (decide (Forall (fun i => i ∈ D) (seq 0 (n_toks a)))) as [H|H].
  - left. intros i Hi. rewrite Forall_forall in H. apply H. apply elem_of_seq. lia.
  - right. apply not_Forall_Exists in H; [|apply _]. apply Exists_exists in H as (i & Hi%elem_of_seq & HD).
    exists i. split; [lia|done].
Qed.

Lemma group_size a D n_ubatch sq Ts k : equal_group a D n_ubatch sq Ts k ->
  length (group_tokens a D Ts k) = (length Ts * k)%nat.
Proof.
  intros [_ _ Hr _ _ _ _]. unfold group_tokens, group_runs. induction Ts as [|T Ts IH]; [done|]. csimpl.
  rewrite length_app, length_take, IH by set_solver. specialize (Hr T). rewrite Nat.min_l; [lia|]. apply Hr. set_solver.
Qed.

Lemma split_loop_equal a n_ubatch sq fuel : forall D us,
  allocr_ok a -> used_ok a D -> sq && ba_has_cpl a = false -> (n_toks a - length D < fuel)%nat ->
  exists gs, groups a n_ubatch sq D gs /\ used_ok a (D ++ concat (concat gs)) /\
    split_loop (fun a => balloc_split_equal a n_ubatch sq) fuel (equal_at a D) us =
      Ok (equal_at a (D ++ concat (concat gs)), us ++ (group_ubatch a <$> gs)).
Proof.
  induction fuel as [|fuel IH]; intros D us O U Hcpl Hf; [lia|]. cbn [split_loop].
  destruct (used_dec a D U) as [Hall|Hex].
  - exists []. rewrite split_equal_none by done. simpl. rewrite !app_nil_r.
    split_and!; [by constructor|done|done].
  - destruct (split_equal_ok a D n_ubatch sq O U Hcpl) as (Ts & k & G & Hs); [done|].
    rewrite Hs. change (Ok ?x ≫= ?f) with (f x). cbv beta iota.
    pose proof (group_size _ _ _ _ _ _ G) as Hsz. pose proof (used_group _ _ _ _ _ _ O U G) as U'.
    pose proof (used_short _ _ U') as Hshort. rewrite length_app, Hsz in Hshort.
    assert (Hpos : (0 < length Ts * k)%nat).
    { destruct G as [Hne Hk _ _ _ _ _]. destruct Ts; [done|]. simpl. lia. }
    change (ub_n_tokens (gather a (group_tokens a D Ts k) (length Ts) true)) with (length (group_tokens a D Ts k)).
    rewrite Hsz. destruct (Nat.eqb_spec (length Ts * k) 0) as [Hz|_]; [lia|].
    destruct (IH (D ++ group_tokens a D Ts k) (us ++ [gather a (group_tokens a D Ts k) (length Ts) true]))
      as (gs & Hg & Hu & Hs'); [done..|rewrite length_app; lia|].
    exists (group_runs a D Ts k :: gs). csimpl. rewrite concat_app.
    change (concat (group_runs a D Ts k)) with (group_tokens a D Ts k). rewrite <- (app_assoc D) in Hu, Hs'. split_and!.
    + by econstructor.
    + done.
    + rewrite Hs', <- app_assoc. simpl. unfold group_ubatch at 2. unfold group_tokens, group_runs.
      by rewrite length_fmap.
Qed.
End split.
