(* ===== verification/SplitProps.v ===== *)
(** * The splits hand out every token of the batch exactly once *)

From S2P Require Import Prelude KvCells KvCellsInv Batch KvCache BatchTheory SplitEqual.

Section order.
Context {E : Type}.
Implicit Types a : llama_batch_allocr E.

Lemma group_sets_NoDup a D n_ubatch sq Ts k : allocr_ok a -> equal_group a D n_ubatch sq Ts k -> NoDup Ts.
Proof.
  intros O [_ Hk Hr _ _ Hd _]. apply NoDup_alt. intros j j' T Hj Hj'.
  destruct (decide (j = j')) as [|Hne]; [done|exfalso].
  assert (HT : T = ∅) by (rewrite <- (Hd j j' T T Hj Hj' Hne); set_solver).
  specialize (Hr T (list_elem_of_lookup_2 _ _ _ Hj)). destruct (set_run a D T) as [|i l] eqn:Er; simpl in Hr; [lia|].
  assert (Hi : i ∈ set_run a D T) by (rewrite Er; set_solver).
  apply (elem_of_run a D T i O) in Hi as (H1 & H2 & _). apply (tok_set_ne a i O H1). congruence.
Qed.

(** The tokens of set [T] in a group are its run. *)
Lemma filter_group a D T k Ts : allocr_ok a -> NoDup Ts ->
  filter (fun i => tok_set a i = T) (group_tokens a D Ts k) = if decide (T ∈ Ts) then take k (set_run a D T) else [].
Proof.
  intros O. assert (Hset : forall T' i, i ∈ take k (set_run a D T') -> tok_set a i = T').
  { intros T' i (j & Hj%list_elem_of_lookup_2 & _)%elem_of_take. by apply (elem_of_run a D T' i O) in Hj as (_ & ? & _). }
  induction Ts as [|T' Ts IH]; intros Hnd; [done|]. apply NoDup_cons in Hnd as [Hni Hnd].
  unfold group_tokens. csimpl. rewrite filter_app. fold (group_runs a D Ts k). fold (group_tokens a D Ts k).
  rewrite IH by done. destruct (decide (T' = T)) as [->|Hne].
  - rewrite (decide_True (P := T ∈ T :: Ts)), (decide_False (P := T ∈ Ts)), app_nil_r by set_solver.
    apply filter_all. apply Forall_forall. intros i. apply Hset.
  - rewrite filter_none by (apply Forall_forall; intros i Hi; by rewrite (Hset T' i Hi)). simpl.
    destruct (decide (T ∈ Ts)); [rewrite decide_True by set_solver|rewrite decide_False by set_solver]; done.
Qed.

(** What a group takes of a set, followed by what it leaves, is what there was. *)
Lemma run_after a D n_ubatch sq Ts k T : allocr_ok a -> equal_group a D n_ubatch sq Ts k ->
  filter (fun i => tok_set a i = T) (group_tokens a D Ts k) ++ set_run a (D ++ group_tokens a D Ts k) T =
  set_run a D T.
Proof.
  intros O G. rewrite filter_group by (done || by eapply group_sets_NoDup).
  assert (Hrun : set_run a (D ++ group_tokens a D Ts k) T =
    filter (fun i => i ∉ group_tokens a D Ts k) (set_run a D T)).
  { unfold set_run at 1 2. rewrite list_filter_filter. apply list_filter_iff. intros i. rewrite not_elem_of_app. tauto. }
  rewrite Hrun. pose proof (run_NoDup a D T O) as Hnd. case_decide as HT.
  - rewrite <- (take_drop k (set_run a D T)) at 2 3. rewrite <- (take_drop k (set_run a D T)) in Hnd.
    apply NoDup_app in Hnd as (_ & Hnd & _). rewrite filter_app, filter_none, filter_all; [done| |].
    + apply Forall_forall. intros i Hi Hg. apply elem_of_group in Hg as (_ & _ & T' & _ & HE & Hg); [|done].
      assert (HiT : i ∈ set_run a D T) by (rewrite <- (take_drop k (set_run a D T)); set_solver).
      apply (elem_of_run a D T i O) in HiT as (_ & HE' & _). rewrite HE' in HE. subst T'. by apply (Hnd i).
    + apply Forall_forall. intros i Hi Hn. apply Hn. apply elem_of_concat_fmap. by exists T.
  - simpl. apply filter_all. apply Forall_forall. intros i Hi Hg.
    apply elem_of_group in Hg as (_ & _ & T' & HT' & HE & _); [|done].
    apply (elem_of_run a D T i O) in Hi as (_ & HE' & _). congruence.
Qed.

Lemma groups_order a n_ubatch sq D gs T : allocr_ok a -> groups a n_ubatch sq D gs ->
  filter (fun i => tok_set a i = T) (concat (concat gs)) = set_run a D T.
Proof.
  intros O. induction 1 as [D Hall|D Ts k gs G _ IH].
  - symmetry. apply filter_none. apply Forall_forall. intros i Hi Hn. apply Hn, Hall.
    by apply (elem_of_set_tokens a T i O) in Hi as [? _].
  - simpl. rewrite concat_app, filter_app, IH. by eapply run_after.
Qed.

Lemma groups_cover a n_ubatch sq D gs : groups a n_ubatch sq D gs ->
  forall i, (i < n_toks a)%nat -> i ∈ D ++ concat (concat gs).
Proof.
  induction 1 as [D Hall|D Ts k gs _ _ IH]; intros i Hi; [simpl; rewrite app_nil_r; by apply Hall|].
  simpl. rewrite concat_app, app_assoc. by apply IH.
Qed.

(** The shape of one micro-batch of [split_equal], without the state it was taken from. *)
Definition equal_shape a (n_ubatch : nat) (g : list (list nat)) : Prop :=
  g <> [] /\ (length g <= S n_ubatch)%nat /\
  (exists k, (0 < k)%nat /\ (forall l, l ∈ g -> length l = k) /\ (k = 1 \/ k * length g <= n_ubatch)%nat) /\
  exists q, forall j l, g !! j = Some l -> forall i, i ∈ l ->
    (i < n_toks a)%nat /\ tok_ids a i = [q + Z.of_nat j].

(** A token of one sequence: the set and its only element. *)
Lemma tok_single a i i' : allocr_ok a -> ba_has_cpl a = false -> (i < n_toks a)%nat -> (i' < n_toks a)%nat ->
  tok_set a i = tok_set a i' -> tok_ids a i = [first_id a i'].
Proof.
  intros O Hc Hi Hi'. pose proof (ao_cpl a O Hc i Hi) as H1. pose proof (ao_cpl a O Hc i' Hi') as H2.
  unfold tok_set, first_id. destruct (tok_ids a i) as [|q [|]], (tok_ids a i') as [|q' [|]]; try done.
  simpl. intros H. assert (q ∈ ({[q']} ∪ ∅ : gset Z)) as Hq by (rewrite <- H; set_solver).
  rewrite right_id_L in Hq by apply _. by apply elem_of_singleton in Hq as ->.
Qed.

Lemma group_shape a D n_ubatch Ts k : allocr_ok a -> ba_has_cpl a = false ->
  equal_group a D n_ubatch true Ts k -> equal_shape a n_ubatch (group_runs a D Ts k).
Proof.
  intros O Hc [Hne Hk Hr Hf Hs Hd Hq]. unfold equal_shape. unfold group_runs. rewrite length_fmap. split_and!; [by destruct Ts|done| |].
  - exists k. split_and!; [done| |done]. intros l (T & -> & HT)%list_elem_of_fmap.
    rewrite length_take. specialize (Hr T HT). lia.
  - destruct (Hq eq_refl) as (q & Hq'). exists q. intros j l Hj i Hi. rewrite list_lookup_fmap in Hj.
    destruct (Ts !! j) as [T|] eqn:ET; [|done]. simpl in Hj. simplify_eq.
    apply elem_of_take in Hi as (j' & Hi%list_elem_of_lookup_2 & _).
    apply (elem_of_run a D T i O) in Hi as (H1 & H2 & _). split; [done|].
    destruct (Hq' j T ET) as (r & Hr1 & Hr2 & <-). apply tok_single; try done. congruence.
Qed.

Lemma groups_shape a n_ubatch D gs : allocr_ok a -> ba_has_cpl a = false -> groups a n_ubatch true D gs ->
  Forall (equal_shape a n_ubatch) gs.
Proof. intros O Hc. induction 1; constructor; [by eapply group_shape|done]. Qed.
End order.

(** ** The whole batch *)

(** [split_simple] until the batch is used up: consecutive pieces. *)
Lemma split_simple_all {E} (a : llama_batch_allocr E) n_ubatch (O : allocr_ok a) :
  exists a' idxss, split_all (S (n_toks a)) 1 n_ubatch (balloc_split_reset a) [] =
      Ok (a', (fun idxs => gather a idxs (length idxs) false) <$> idxss) /\
    concat idxss = seq 0 (n_toks a) /\
    (forall j idxs, idxss !! j = Some idxs -> (0 < length idxs <= Nat.max 1 n_ubatch)%nat /\
      ((S j < length idxss)%nat -> length idxs = Nat.max 1 n_ubatch)) /\
    balloc_get_n_used a' = n_toks a /\ ba_out_ids a' = outputs a (seq 0 (n_toks a)) /\
    n_toks a' = n_toks a.
Proof.
  assert (E0 : balloc_split_reset a = simple_at a 0 []).
  { unfold balloc_split_reset, simple_at. by rewrite Nat.sub_0_r. }
  destruct (split_loop_simple a n_ubatch (S (n_toks a)) 0 [] []) as (l & Hp & Hs); [done|lia|lia|].
  unfold split_all. rewrite E0. cbn [Nat.eqb]. rewrite Hs. eexists _, l. split; [reflexivity|]. destruct (pieces_concat _ _ _ _ Hp) as [_ Hc].
  rewrite Nat.sub_0_r in *. split_and!; [done|by eapply pieces_size|done|done|done].
Qed.

Lemma reset_equal {E} (a : llama_batch_allocr E) : balloc_split_reset a = equal_at a [].
Proof.
  unfold balloc_split_reset, equal_at, mid_at. f_equal. apply list_eq_same_length with (n := n_toks a).
  - unfold marked. by rewrite length_fmap, length_seq.
  - by rewrite length_replicate.
  - intros i x y Hi Hx Hy. rewrite marked_lookup in Hy by done. rewrite lookup_replicate_2 in Hx by done.
    simplify_eq. by rewrite bool_decide_false by apply not_elem_of_nil.
Qed.

(** Used tokens, without repetitions, and all of them. *)
Lemma used_all {E} (a : llama_batch_allocr E) D : used_ok a D -> (forall i, (i < n_toks a)%nat -> i ∈ D) ->
  Permutation D (seq 0 (n_toks a)).
Proof.
  intros [U1 U2 _] Hall. apply NoDup_Permutation; [done|apply NoDup_seq|]. intros i. rewrite elem_of_seq. split.
  - intros Hi. rewrite Forall_forall in U2. specialize (U2 i Hi). lia.
  - intros Hi. apply Hall. lia.
Qed.

(** [split_equal] until the batch is used up: groups of equal runs. *)
Lemma split_equal_groups {E} (a : llama_batch_allocr E) n_ubatch sq (O : allocr_ok a) (Hcpl : sq && ba_has_cpl a = false) :
  exists a' gs, split_loop (fun a => balloc_split_equal a n_ubatch sq) (S (n_toks a)) (balloc_split_reset a) [] =
      Ok (a', group_ubatch a <$> gs) /\
    groups a n_ubatch sq [] gs /\ Permutation (concat (concat gs)) (seq 0 (n_toks a)) /\
    balloc_get_n_used a' = n_toks a /\ ba_out_ids a' = outputs a (concat (concat gs)) /\
    n_toks a' = n_toks a.
Proof.
  destruct (split_loop_equal a n_ubatch sq (S (n_toks a)) [] []) as (gs & Hg & U & Hs); [done|apply used_nil|done|lia|].
  rewrite reset_equal, Hs. eexists _, gs. split; [reflexivity|]. rewrite app_nil_l in *.
  assert (HP : Permutation (concat (concat gs)) (seq 0 (n_toks a))) by (apply used_all; [done|]; by apply (groups_cover a n_ubatch sq [] gs Hg)).
  split_and!; [done|done| |done|done]. simpl. by rewrite HP, length_seq.
Qed.

Lemma split_equal_all {E} (a : llama_batch_allocr E) n_stream n_ubatch (O : allocr_ok a)
    (Hcpl : ba_has_cpl a = false) (Hns : n_stream <> 1%nat) :
  exists a' gs, split_all (S (n_toks a)) n_stream n_ubatch (balloc_split_reset a) [] =
      Ok (a', group_ubatch a <$> gs) /\
    Permutation (concat (concat gs)) (seq 0 (n_toks a)) /\
    (forall T, filter (fun i => tok_set a i = T) (concat (concat gs)) = set_tokens a T) /\
    Forall (equal_shape a n_ubatch) gs /\
    balloc_get_n_used a' = n_toks a /\ ba_out_ids a' = outputs a (concat (concat gs)) /\
    n_toks a' = n_toks a.
Proof.
  destruct (split_equal_groups a n_ubatch true O Hcpl) as (a' & gs & Hs & Hg & HP & Hu & Ho & Ht). exists a', gs.
  split_and!; try done.
  - unfold split_all. by rewrite (proj2 (Nat.eqb_neq n_stream 1)).
  - intros T. rewrite (groups_order a n_ubatch true [] gs T O Hg). apply filter_all.
    apply Forall_forall. intros i _. apply not_elem_of_nil.
  - by eapply groups_shape.
Qed.
