(* ===== verification/SplitSeq.v ===== *)
(** * [split_seq] hands out chains of tokens whose sequence sets shrink

    A micro-batch of [split_seq] starts with the first unused token; each next token is the
    first unused one behind it whose set of sequences is part of the set of the last. *)

From stdpp Require Import sorting.
From S2P Require Import Prelude KvCells KvCellsInv Batch KvCache BatchTheory SplitEqual SplitProps.

Section split.
Context {E : Type}.
Implicit Types a : llama_batch_allocr E.

(** What comes after token [cur] when the tokens in [D] are used. *)
Inductive seq_run a (D : list nat) : nat -> list nat -> Prop :=
  | run_end cur : seq_run a D cur []
  | run_next cur i l : (cur < i < n_toks a)%nat -> i ∉ D -> tok_set a i ⊆ tok_set a cur ->
      (forall x, (cur < x < i)%nat -> x ∈ D \/ ~ (tok_set a x ⊆ tok_set a cur)) ->
      seq_run a D i l -> seq_run a D cur (i :: l).

Lemma run_tokens a D cur l : seq_run a D cur l ->
  forall i, i ∈ l -> (cur < i < n_toks a)%nat /\ i ∉ D /\ tok_set a i ⊆ tok_set a cur.
Proof.
  induction 1 as [|cur i l Hi HD HT _ _ IH]; intros x Hx; [by apply not_elem_of_nil in Hx|].
  apply elem_of_cons in Hx as [->|Hx]; [done|]. destruct (IH x Hx) as (H1 & H2 & H3). split; [lia|]. split; [done|]. by etrans.
Qed.

Lemma run_NoDup_seq a D cur l : seq_run a D cur l -> NoDup (cur :: l).
Proof.
  induction 1 as [cur|cur i l Hi HD HT Hgap Hr IH]; [apply NoDup_singleton|]. apply NoDup_cons. split; [|done].
  intros [->|Hx]%elem_of_cons; [lia|]. apply (run_tokens a D i l Hr) in Hx. lia.
Qed.

(** A token that the chain passes over has no later token of its set in the chain. *)
Lemma run_skips a D cur l : seq_run a D cur l -> forall x y, (cur < x < y)%nat -> x ∉ D -> x ∉ l -> y ∈ l -> tok_set a x <> tok_set a y.
Proof.
  induction 1 as [|cur i l Hi HD HT Hgap Hr IH]; intros x y Hxy HxD Hx Hy Heq; [by apply not_elem_of_nil in Hy|].
  assert (HyT : tok_set a y ⊆ tok_set a cur) by (apply (run_tokens a D cur (i :: l)); [by constructor|done]).
  apply not_elem_of_cons in Hx as [Hxi Hxl]. destruct (decide (x < i)%nat) as [Hlt|Hge].
  - destruct (Hgap x) as [?|Hn]; [lia|done|]. apply Hn. by rewrite Heq.
  - apply elem_of_cons in Hy as [->|Hy]; [lia|]. by apply (IH x y); [lia|..].
Qed.

(** ** Increasing lists of tokens *)

Lemma sorted_filter (P : nat -> Prop) `{!forall x, Decision (P x)} (l : list nat) : StronglySorted lt l -> StronglySorted lt (filter P l).
Proof.
  induction 1 as [|x l _ IH Hx]; [constructor|]. rewrite filter_cons. case_decide; [|done]. constructor; [done|].
  rewrite Forall_forall in *. intros y [_ Hy]%list_elem_of_filter. by apply Hx.
Qed.

Lemma sorted_seq n m : StronglySorted lt (seq m n).
Proof. revert m. induction n as [|n IH]; intros m; constructor; [apply IH|]. apply Forall_forall. intros x Hx%elem_of_seq. lia. Qed.

Lemma sorted_tokens a T : allocr_ok a -> StronglySorted lt (set_tokens a T).
Proof. intros O. rewrite (ao_map a O). apply sorted_filter, sorted_seq. Qed.

Lemma sorted_run a D cur l : seq_run a D cur l -> StronglySorted lt (cur :: l).
Proof.
  induction 1 as [cur|cur i l Hi HD HT Hgap Hr IH]; [repeat constructor|]. constructor; [done|]. apply Forall_forall.
  intros x [->|Hx]%elem_of_cons; [lia|]. apply (run_tokens a D i l Hr) in Hx. lia.
Qed.

(** ** The loops *)

Lemma next_subset_ok a O D T fuel : allocr_ok a -> forall cur, (cur < n_toks a)%nat -> (n_toks a - cur <= fuel)%nat ->
  exists j, next_subset fuel (mid_at a O D) T cur = Ok j /\ (cur < j <= n_toks a)%nat /\
    (forall x, (cur < x < j)%nat -> x ∈ D \/ ~ (tok_set a x ⊆ T)) /\
    ((j < n_toks a)%nat -> j ∉ D /\ tok_set a j ⊆ T).
Proof.
  intros OK. induction fuel as [|fuel IH]; intros cur Hcur Hf; [lia|]. cbn [next_subset].
  change (balloc_get_n_tokens (mid_at a O D)) with (n_toks a). destruct (Nat.leb_spec (n_toks a) (S cur)) as [Hle|Hlt].
  { exists (S cur). split_and!; [done|lia|lia|intros; lia|lia]. }
  change (ba_used (mid_at a O D)) with (marked (n_toks a) D). change (ba_seq_set (mid_at a O D)) with (ba_seq_set a).
  rewrite (proj2 (vec_get_ok _ _ _) (marked_lookup _ D _ Hlt)). cbn [mbind res_bind].
  assert (HC : ba_seq_set a !! S cur = Some (tok_set a (S cur))) by (rewrite (ao_sets a OK), list_lookup_fmap, lookup_seq_lt by done; done).
  rewrite (proj2 (vec_get_ok _ _ _) HC). cbn [mbind res_bind].
  assert (Hsub : T ∩ tok_set a (S cur) = tok_set a (S cur) <-> tok_set a (S cur) ⊆ T) by set_solver.
  destruct (bool_decide (S cur ∈ D) || negb (bool_decide (T ∩ tok_set a (S cur) = tok_set a (S cur)))) eqn:Eb.
  - destruct (IH (S cur)) as (j & Hj & Hr & Hgap & Hend); [lia|lia|]. exists j. split_and!; [done|lia|lia| |done].
    intros x Hx. destruct (decide (x = S cur)) as [->|Hne]; [|apply Hgap; lia].
    apply orb_true_iff in Eb as [Hb%bool_decide_eq_true|Hb%negb_true_iff%bool_decide_eq_false]; [by left|right]. by rewrite <- Hsub.
  - apply orb_false_iff in Eb as [Hb1%bool_decide_eq_false Hb2%negb_false_iff%bool_decide_eq_true].
    exists (S cur). split_and!; [done|lia|lia|intros; lia|]. intros _. split; [done|]. by apply Hsub.
Qed.

Lemma split_seq_loop_ok a O n_ubatch fuel : allocr_ok a -> forall D cur idxs,
  (cur < n_toks a)%nat -> cur ∉ D -> (n_toks a - cur <= fuel)%nat ->
  exists l, seq_run a D cur l /\ (length idxs + S (length l) <= Nat.max (S (length idxs)) n_ubatch)%nat /\
    split_seq_loop fuel n_ubatch (mid_at a O D) (tok_set a cur) cur idxs = Ok (mid_at a O (D ++ cur :: l), idxs ++ cur :: l).
Proof.
  intros OK. induction fuel as [|fuel IH]; intros D cur idxs Hcur HD Hf; [lia|]. cbn [split_seq_loop].
  rewrite mark_used_mid by done. cbn [mbind res_bind]. rewrite length_app. cbn [length].
  destruct (Nat.leb_spec n_ubatch (length idxs + 1)) as [Hle|Hlt]; [exists []; split; [constructor|split; [cbn; lia|done]]|].
  change (balloc_get_n_tokens (mid_at a O (D ++ [cur]))) with (n_toks a).
  destruct (next_subset_ok a O (D ++ [cur]) (tok_set a cur) (S (n_toks a)) OK cur Hcur ltac:(lia)) as (j & Hj & Hr & Hgap & Hend).
  rewrite Hj. cbn [mbind res_bind]. destruct (Nat.eqb_spec j (n_toks a)) as [->|Hne]; [exists []; split; [constructor|split; [cbn; lia|done]]|].
  assert (HC : ba_seq_set a !! j = Some (tok_set a j)) by (rewrite (ao_sets a OK), list_lookup_fmap, lookup_seq_lt by lia; done).
  change (ba_seq_set (mid_at a O (D ++ [cur]))) with (ba_seq_set a). rewrite (proj2 (vec_get_ok _ _ _) HC). cbn [mbind res_bind].
  destruct Hend as [HjD HjT]; [lia|]. apply not_elem_of_app in HjD as [HjD Hjc].
  destruct (IH (D ++ [cur]) j (idxs ++ [cur])) as (l & Hl & Hlen & Hs); [lia|set_solver|lia|]. exists (j :: l).
  rewrite length_app in Hlen. cbn [length] in *. split_and!; [|lia|].
  - constructor; [lia|done|done| |].
    + intros x Hx. destruct (Hgap x Hx) as [[H|H%list_elem_of_singleton]%elem_of_app|H]; [by left|lia|by right].
    + clear -Hl Hr. assert (Hc : (cur < j)%nat) by lia. clear Hr. revert Hc. induction Hl as [|c i l Hi HD HT Hg _ IHl]; intros Hc; [constructor|].
      constructor; [done|set_solver|done| |apply IHl; lia]. intros x Hx. destruct (Hg x Hx) as [[H|H%list_elem_of_singleton]%elem_of_app|H]; [by left|lia|by right].
  - rewrite Hs. by rewrite <- !app_assoc.
Qed.

Lemma first_unused_marked n D : (forall i, (i < n)%nat -> i ∈ D) /\ first_unused (marked n D) = n \/
  exists m, (m < n)%nat /\ m ∉ D /\ first_unused (marked n D) = m /\ forall i, (i < m)%nat -> i ∈ D.
Proof.
  assert (G : forall l : list bool, (forall i, (i < length l)%nat -> l !! i = Some true) /\ first_unused l = length l \/
    exists m, l !! m = Some false /\ first_unused l = m /\ forall i, (i < m)%nat -> l !! i = Some true).
  { induction l as [|[] l IH]; cbn.
    - left. split; [intros i Hi; cbn in Hi; lia|done].
    - destruct IH as [[H1 H2]|(m & H1 & H2 & H3)]; [left|right].
      + split; [|by rewrite H2]. intros [|i] Hi; [done|]. cbn. apply H1. lia.
      + exists (S m). split_and!; [done|by rewrite H2|]. intros [|i] Hi; [done|]. cbn. apply H3. lia.
    - right. exists 0%nat. split_and!; [done|done|lia]. }
  assert (Hlen : length (marked n D) = n) by (unfold marked; by rewrite length_fmap, length_seq).
  destruct (G (marked n D)) as [[H1 H2]|(m & H1 & H2 & H3)]; [left|right].
  - rewrite Hlen in *. split; [|done]. intros i Hi. specialize (H1 i Hi). rewrite marked_lookup in H1 by done.
    injection H1 as H1. by apply bool_decide_eq_true in H1.
  - pose proof (lookup_lt_Some _ _ _ H1) as Hm. rewrite Hlen in Hm. exists m. split; [done|]. rewrite marked_lookup in H1 by done.
    injection H1 as H1. apply bool_decide_eq_false in H1. split_and!; [done|done|]. intros i Hi. specialize (H3 i Hi).
    rewrite marked_lookup in H3 by lia. injection H3 as H3. by apply bool_decide_eq_true in H3.
Qed.

(** ** One micro-batch *)

(** The chain from token [i], the first unused one. *)
Definition seq_chain a (D : list nat) (n_ubatch : nat) (idxs : list nat) : Prop :=
  exists i l, idxs = i :: l /\ (i < n_toks a)%nat /\ i ∉ D /\ (forall j, (j < i)%nat -> j ∈ D) /\
    seq_run a D i l /\ (length idxs <= Nat.max 1 n_ubatch)%nat.

Lemma chain_tokens a D n_ubatch idxs i : seq_chain a D n_ubatch idxs -> i ∈ idxs -> (i < n_toks a)%nat /\ i ∉ D.
Proof.
  intros (i0 & l & -> & Hi & HD & _ & Hr & _) [->|Hx]%elem_of_cons; [done|]. apply (run_tokens a D i0 l Hr) in Hx. split; [lia|tauto].
Qed.

Lemma used_chain a D n_ubatch idxs : allocr_ok a -> used_ok a D -> seq_chain a D n_ubatch idxs -> used_ok a (D ++ idxs).
Proof.
  intros O [U1 U2 U3] C. pose proof C as (i & l & -> & Hi & HD & Hfirst & Hr & _). split.
  - apply NoDup_app. split_and!; [done| |by eapply run_NoDup_seq]. intros x Hx Hin. by apply (chain_tokens _ _ _ _ _ C) in Hin as [_ ?].
  - apply Forall_app. split; [done|]. apply Forall_forall. intros x Hx. by apply (chain_tokens _ _ _ _ _ C) in Hx as [? _].
  - intros T l1 x l2 Hs Hx. apply not_elem_of_app in Hx as [HxD Hxi]. specialize (U3 T l1 x l2 Hs HxD). rewrite Forall_forall in *.
    intros y Hy. apply not_elem_of_app. split; [by apply U3|]. intros Hyi.
    assert (Hx' : x ∈ set_tokens a T) by (rewrite Hs; set_solver). assert (Hy' : y ∈ set_tokens a T) by (rewrite Hs; set_solver).
    apply (elem_of_set_tokens a T x O) in Hx' as [Hxn HxT]. apply (elem_of_set_tokens a T y O) in Hy' as [Hyn HyT].
    assert (Hlt : (x < y)%nat).
    { pose proof (sorted_tokens a T O) as Hso. rewrite Hs in Hso. apply StronglySorted_app_1_r, StronglySorted_cons in Hso as [Hso _].
      rewrite Forall_forall in Hso. by apply Hso. }
    apply not_elem_of_cons in Hxi as [Hne Hxl]. assert (Hgt : (i < x)%nat).
    { destruct (decide (x < i)%nat) as [H|H]; [by destruct HxD; apply Hfirst|lia]. }
    apply elem_of_cons in Hyi as [->|Hyl]; [lia|]. apply (run_skips a D i l Hr x y); [lia|done|done|done|]. congruence.
Qed.

Lemma split_seq_ok a D n_ubatch : allocr_ok a -> used_ok a D ->
  (exists i, (i < n_toks a)%nat /\ i ∉ D) ->
  exists idxs, seq_chain a D n_ubatch idxs /\
    balloc_split_seq (equal_at a D) n_ubatch = Ok (equal_at a (D ++ idxs), gather a idxs 1 true).
Proof.
  intros O U (i0 & Hi0 & HD0). unfold balloc_split_seq. change (ba_used (equal_at a D)) with (marked (n_toks a) D).
  assert (Hlen : length (marked (n_toks a) D) = n_toks a) by (unfold marked; by rewrite length_fmap, length_seq). rewrite Hlen.
  destruct (first_unused_marked (n_toks a) D) as [[Hall _]|(m & Hm & HmD & -> & Hfirst)]; [by destruct HD0; apply Hall|].
  rewrite (proj2 (Nat.leb_gt _ _)) by done. change (ba_seq_set (equal_at a D)) with (ba_seq_set a).
  assert (HC : ba_seq_set a !! m = Some (tok_set a m)) by (rewrite (ao_sets a O), list_lookup_fmap, lookup_seq_lt by done; done).
  rewrite (proj2 (vec_get_ok _ _ _) HC). cbn [mbind res_bind].
  destruct (split_seq_loop_ok a D n_ubatch (n_toks a) O D m []) as (l & Hr & Hl & Hs); [done|done|lia|].
  change (equal_at a D) with (mid_at a D D). rewrite Hs. cbn [mbind res_bind app].
  assert (C : seq_chain a D n_ubatch (m :: l)) by (exists m, l; by split_and!).
  exists (m :: l). split; [done|].
  change (mid_at a D (D ++ m :: l)) with (with_split a (outputs a D) (length (D ++ m :: l)) (marked (n_toks a) (D ++ m :: l))).
  rewrite ubatch_add_ok; [|by apply allocr_ok_split| |done|apply Nat.mod_1_r].
  - unfold equal_at, mid_at. do 2 f_equal. unfold with_split. simpl. f_equal. unfold outputs. by rewrite filter_app.
  - apply Forall_forall. intros x Hx. by apply (chain_tokens _ _ _ _ _ C) in Hx as [? _].
Qed.

Lemma split_seq_none a D n_ubatch : (forall i, (i < n_toks a)%nat -> i ∈ D) -> balloc_split_seq (equal_at a D) n_ubatch = Ok (equal_at a D, ubatch_none).
Proof.
  intros Hall. unfold balloc_split_seq. change (ba_used (equal_at a D)) with (marked (n_toks a) D).
  assert (Hlen : length (marked (n_toks a) D) = n_toks a) by (unfold marked; by rewrite length_fmap, length_seq). rewrite Hlen.
  destruct (first_unused_marked (n_toks a) D) as [[_ ->]|(m & Hm & HmD & _)]; [|by destruct HmD; apply Hall]. by rewrite Nat.leb_refl.
Qed.

(** ** The whole batch *)

Inductive chains a (n_ubatch : nat) : list nat -> list (list nat) -> Prop :=
  | chains_nil D : (forall i, (i < n_toks a)%nat -> i ∈ D) -> chains a n_ubatch D []
  | chains_cons D idxs l : seq_chain a D n_ubatch idxs -> chains a n_ubatch (D ++ idxs) l -> chains a n_ubatch D (idxs :: l).

Lemma split_loop_seq a n_ubatch fuel : forall D us,
  allocr_ok a -> used_ok a D -> (n_toks a - length D < fuel)%nat ->
  exists l, chains a n_ubatch D l /\ used_ok a (D ++ concat l) /\
    split_loop (fun a => balloc_split_seq a n_ubatch) fuel (equal_at a D) us =
      Ok (equal_at a (D ++ concat l), us ++ ((fun idxs => gather a idxs 1 true) <$> l)).
Proof.
  induction fuel as [|fuel IH]; intros D us O U Hf; [lia|]. cbn [split_loop]. destruct (used_dec a D U) as [Hall|Hex].
  - exists []. rewrite split_seq_none by done. cbn. rewrite !app_nil_r. split_and!; [by constructor|done|done].
  - destruct (split_seq_ok a D n_ubatch O U Hex) as (idxs & C & Hs). rewrite Hs. cbn [mbind res_bind ub_n_tokens gather].
    pose proof (used_chain a D n_ubatch idxs O U C) as U'. pose proof (used_short _ _ U') as Hshort. rewrite length_app in Hshort.
    assert (Hne : (0 < length idxs)%nat) by (destruct C as (i & l & -> & _); cbn; lia).
    destruct (Nat.eqb_spec (length idxs) 0) as [Hz|_]; [lia|].
    destruct (IH (D ++ idxs) (us ++ [gather a idxs 1 true])) as (l & Hl & U2 & Hs'); [done|done|rewrite length_app; lia|].
    exists (idxs :: l). cbn [concat fmap list_fmap]. rewrite <- (app_assoc D) in U2, Hs'. split_and!; [by constructor|done|].
    by rewrite Hs', <- app_assoc.
Qed.

(** The tokens of a set keep their order: a chain takes the first of those left. *)
Lemma chain_order a n_ubatch D idxs T : allocr_ok a -> used_ok a D -> seq_chain a D n_ubatch idxs ->
  filter (fun i => tok_set a i = T) idxs ++ set_run a (D ++ idxs) T = set_run a D T.
Proof.
  intros O U C. pose proof (used_chain a D n_ubatch idxs O U C) as [_ _ U3]. pose proof C as (i & l & Hidxs & _ & _ & _ & Hr & _).
  assert (Hso : StronglySorted lt idxs) by (rewrite Hidxs; by eapply sorted_run).
  assert (Hrs : forall D', StronglySorted lt (set_run a D' T)) by (intros D'; by apply sorted_filter, sorted_tokens).
  apply (StronglySorted_unique_strong lt); [intros; lia| |apply Hrs|].
  - apply StronglySorted_app_2; [|by apply sorted_filter|apply Hrs]. intros y x [HyT Hy]%list_elem_of_filter Hx.
    apply (elem_of_run a (D ++ idxs) T x O) in Hx as (Hxn & HxT & HxD).
    assert (x <> y) by (intros ->; set_solver). destruct (decide (x < y)%nat) as [Hlt|]; [exfalso|lia].
    assert (Hin : x ∈ set_tokens a T) by (by apply (elem_of_set_tokens a T x O)). pose proof (sorted_tokens a T O) as Hst.
    apply list_elem_of_split in Hin as (l1 & l2 & Hl). specialize (U3 T l1 x l2 Hl HxD). rewrite Forall_forall in U3.
    apply (U3 y); [|set_solver]. assert (Hin : y ∈ set_tokens a T) by (apply (elem_of_set_tokens a T y O); split; [by apply (chain_tokens a D n_ubatch idxs)|done]).
    rewrite Hl in Hin, Hst. apply elem_of_app in Hin as [Hin|[->|Hin]%elem_of_cons]; [|lia|done].
    pose proof (StronglySorted_app_1_elem_of lt l1 (x :: l2) y x Hst Hin). set_solver by lia.
  - apply NoDup_Permutation.
    + apply NoDup_app. split_and!; [apply NoDup_filter; rewrite Hidxs; by eapply run_NoDup_seq| |by apply run_NoDup].
      intros y [_ Hy]%list_elem_of_filter (_ & _ & HD)%(elem_of_run a (D ++ idxs) T y O). set_solver.
    + by apply run_NoDup.
    + intros y. rewrite elem_of_app, list_elem_of_filter, !(elem_of_run a _ T y O), not_elem_of_app. split.
      * intros [[HT Hy]|?]; [|tauto]. by destruct (chain_tokens a D n_ubatch idxs y C Hy).
      * intros (H1 & H2 & H3). destruct (decide (y ∈ idxs)); tauto.
Qed.

Lemma chains_order a n_ubatch D l T : allocr_ok a -> used_ok a D -> chains a n_ubatch D l ->
  filter (fun i => tok_set a i = T) (concat l) = set_run a D T.
Proof.
  intros O U H. revert U. induction H as [D Hall|D idxs l C H IH]; intros U.
  - symmetry. apply filter_none. apply Forall_forall. intros i Hi Hn. apply Hn, Hall.
    by apply (elem_of_set_tokens a T i O) in Hi as [? _].
  - cbn [concat]. rewrite filter_app, IH by (by eapply used_chain). by eapply chain_order.
Qed.

Lemma chains_cover a n_ubatch D l : chains a n_ubatch D l -> forall i, (i < n_toks a)%nat -> i ∈ D ++ concat l.
Proof.
  induction 1 as [D Hall|D idxs l _ _ IH]; intros i Hi; [rewrite app_nil_r; by apply Hall|]. cbn [concat]. rewrite app_assoc. by apply IH.
Qed.

(** The tokens of a chain, without the state it was taken from: their sets shrink. *)
Definition chain_shape a (n_ubatch : nat) (idxs : list nat) : Prop :=
  (0 < length idxs <= Nat.max 1 n_ubatch)%nat /\ StronglySorted lt idxs /\ Forall (fun i => i < n_toks a)%nat idxs /\
  forall j i i', idxs !! j = Some i -> idxs !! S j = Some i' -> tok_set a i' ⊆ tok_set a i.

Lemma run_shrinks a D cur l : seq_run a D cur l -> forall j i i', (cur :: l) !! j = Some i -> (cur :: l) !! S j = Some i' -> tok_set a i' ⊆ tok_set a i.
Proof.
  induction 1 as [cur|cur x l Hi HD HT Hgap Hr IH]; intros [|j] i i' Hj Hj'; cbn in Hj'; try done.
  - by injection Hj as <-; injection Hj' as <-.
  - by apply (IH j).
Qed.

Lemma chain_is_shape a D n_ubatch idxs : seq_chain a D n_ubatch idxs -> chain_shape a n_ubatch idxs.
Proof.
  intros C. pose proof C as (i & l & -> & Hi & _ & _ & Hr & Hl). split_and!.
  - cbn. lia.
  - done.
  - by eapply sorted_run.
  - apply Forall_forall. intros x Hx. by apply (chain_tokens _ _ _ _ _ C) in Hx as [? _].
  - by eapply run_shrinks.
Qed.
End split.

(** [split_seq] until the batch is used up. *)
Lemma split_seq_all {E} (a : llama_batch_allocr E) n_ubatch (O : allocr_ok a) :
  exists a' idxss, split_loop (fun a => balloc_split_seq a n_ubatch) (S (n_toks a)) (balloc_split_reset a) [] =
      Ok (a', (fun idxs => gather a idxs 1 true) <$> idxss) /\
    Permutation (concat idxss) (seq 0 (n_toks a)) /\
    (forall T, filter (fun i => tok_set a i = T) (concat idxss) = set_tokens a T) /\
    Forall (chain_shape a n_ubatch) idxss /\
    balloc_get_n_used a' = n_toks a /\ ba_out_ids a' = outputs a (concat idxss) /\ n_toks a' = n_toks a.
Proof.
  destruct (split_loop_seq a n_ubatch (S (n_toks a)) [] []) as (l & Hl & U & Hs); [done|apply used_nil|cbn; lia|].
  rewrite reset_equal, Hs. eexists _, l. split; [reflexivity|]. rewrite app_nil_l in *.
  assert (HP : Permutation (concat l) (seq 0 (n_toks a))) by (apply used_all; [done|]; by apply (chains_cover a n_ubatch [] l Hl)).
  split_and!; [done| | | |done|done].
  - intros T. rewrite (chains_order a n_ubatch [] l T O (used_nil a) Hl). apply filter_all.
    apply Forall_forall. intros i _. apply not_elem_of_nil.
  - clear -Hl. induction Hl; constructor; [by eapply chain_is_shape|done].
  - simpl. by rewrite HP, length_seq.
Qed.
