(* ===== verification/InitTheory.v ===== *)
(** * What [llama_batch_allocr::init] computes and checks

    The tables of positions and sequences; the consistency checks, decided exactly; what is
    validated and filled in before them. *)

From S2P Require Import Prelude KvCells KvCellsInv Batch BatchTheory.

(** A validation loop whose steps return and decide [P]. *)
Lemma sat_mforall {A} (f : A -> res bool) (P : A -> Prop) l :
  (forall x, x ∈ l -> sat (f x) (fun b => b = true <-> P x)) ->
  sat (mforall f l) (fun b => b = true <-> forall x, x ∈ l -> P x).
Proof.
  induction l as [|x l IH]; intros H; simpl.
  { apply sat_ok. split; [intros _ x Hx; by apply not_elem_of_nil in Hx|done]. }
  eapply sat_step; [apply H; set_solver|]. intros [|] Hx.
  - eapply sat_mono; [apply IH; set_solver|]. intros b Hb. rewrite Hb. split.
    + intros HP y [->|Hy]%elem_of_cons; [by apply Hx|by apply HP].
    + intros HP y Hy. apply HP. set_solver.
  - apply sat_ok. split; [done|]. intros HP. apply Hx, HP. set_solver.
Qed.

Section init.
Context {E : Type}.
Implicit Types b : llama_batch E.

(** A batch whose ids, positions and logits can be read: [ids i] and [pos i]. *)
Record filled b (n_seq_max : nat) (ids : nat -> list Z) (pos : nat -> Z) : Prop := {
  fi_ids : forall i, (i < b_n_tokens b)%nat -> seq_ids_of b i = Ok (ids i);
  fi_fst : forall i, (i < b_n_tokens b)%nat -> exists s, seq_id_at b i 0 = Ok s /\ ids i !! 0%nat = Some s;
  fi_val : forall i, (i < b_n_tokens b)%nat -> Forall (fun s => 0 <= s < Z.of_nat n_seq_max) (ids i);
  fi_pos : forall i, (i < b_n_tokens b)%nat -> ptr_get (b_pos b) i = Ok (pos i);
  fi_max : (n_seq_max <= MAX_SEQ)%nat
}.

Section filled.
Context b n_seq_max ids pos (F : filled b n_seq_max ids pos).
Let n := b_n_tokens b.

Lemma fi_bit i s : (i < n)%nat -> s ∈ ids i -> 0 <= s < LLAMA_MAX_SEQ /\ (Z.to_nat s < n_seq_max)%nat.
Proof.
  intros Hi Hs. pose proof (fi_val _ _ _ _ F i Hi) as Hv. rewrite Forall_forall in Hv. specialize (Hv s Hs).
  pose proof (fi_max _ _ _ _ F). unfold MAX_SEQ in *. lia.
Qed.

(** ** Positions and couplings *)

Definition pos_of (i : nat) (s p : Z) : Prop := exists t, (t < i)%nat /\ s ∈ ids t /\ pos t = p.

(** [s1] is a later id of token [t], among its first [m], and [s0] its first id. *)
Definition coupled_at (t m : nat) (s0 s1 : Z) : Prop :=
  exists j, (0 < j < m)%nat /\ ids t !! j = Some s1 /\ ids t !! 0%nat = Some s0.

(** The tables after the first [i] tokens. *)
Record cpl_inv (i : nat) (sp : list (gset Z)) (cpl : gset (Z * Z)) (has : bool) : Prop := {
  ci_len : length sp = MAX_SEQ;
  ci_pos : forall s S, sp !! Z.to_nat s = Some S -> 0 <= s -> forall p, p ∈ S <-> pos_of i s p;
  ci_cpl : forall s0 s1, (s1, s0) ∈ cpl <-> exists t, (t < i)%nat /\ coupled_at t (length (ids t)) s0 s1;
  ci_has : has = false -> forall t, (t < i)%nat -> (length (ids t) <= 1)%nat
}.

(** Within token [t], after its first [j] ids. *)
Record cpl_mid (t j : nat) (sp : list (gset Z)) (cpl : gset (Z * Z)) (has : bool) : Prop := {
  cm_len : length sp = MAX_SEQ;
  cm_pos : forall s S, sp !! Z.to_nat s = Some S -> 0 <= s ->
             forall p, p ∈ S <-> pos_of t s p \/ (s ∈ take j (ids t) /\ pos t = p);
  cm_cpl : forall s0 s1, (s1, s0) ∈ cpl <->
             (exists t', (t' < t)%nat /\ coupled_at t' (length (ids t')) s0 s1) \/ coupled_at t j s0 s1;
  cm_has : has = false -> (forall t', (t' < t)%nat -> (length (ids t') <= 1)%nat) /\ (j <= 1)%nat
}.

Lemma cpl_step_ok t sp cpl has : (t < n)%nat -> cpl_inv t sp cpl has ->
  sat (cpl_step b (sp, cpl, has) t) (fun r => cpl_inv (t + 1) r.1.1 r.1.2 r.2).
Proof.
  intros Ht [C1 C2 C3 C4]. unfold cpl_step. destruct (fi_fst _ _ _ _ F t Ht) as (s0 & Hs0 & Hfst).
  rewrite Hs0. simpl. rewrite (fi_ids _ _ _ _ F t Ht). simpl.
  eapply sat_mono; [apply (sat_mfor _ (fun d r => cpl_mid t (length d) r.1.1 r.1.2 r.2))|].
  - split; simpl; [done| | |].
    + intros s S HS H0 p. rewrite (C2 s S HS H0 p). simpl. split; [by left|]. intros [|[H _]]; [done|set_solver].
    + intros x y. rewrite C3. split; [by left|]. intros [|(j & ? & _)]; [done|lia].
    + intros Hh. split; [by apply C4|lia].
  - intros d [j s] r [[sp' cpl'] has'] Heq [D1 D2 D3 D4]. simpl in *.
    assert (Hj : imap pair (ids t) !! length d = Some (j, s)) by (rewrite Heq; by apply list_lookup_middle).
    rewrite list_lookup_imap in Hj. destruct (ids t !! length d) as [s'|] eqn:Es; [|done]. simpl in Hj. simplify_eq.
    destruct (fi_bit t s) as [Hb1 Hb2]; [done|by eapply list_elem_of_lookup_2|].
    rewrite (fi_pos _ _ _ _ F t Ht). simpl. unfold vec_getZ, vec_setZ. rewrite (proj2 (Z.leb_le 0 s)) by lia.
    destruct (lookup_lt_is_Some_2 sp' (Z.to_nat s)) as [S0 HS0]; [rewrite D1; unfold MAX_SEQ; lia|].
    unfold vec_get. rewrite HS0. simpl. unfold vec_set. rewrite decide_True by (rewrite D1; unfold MAX_SEQ; lia). simpl.
    assert (Hpos : forall s' S', <[Z.to_nat s := {[pos t]} ∪ S0]> sp' !! Z.to_nat s' = Some S' -> 0 <= s' ->
      forall p, p ∈ S' <-> pos_of t s' p \/ (s' ∈ take (length d + 1) (ids t) /\ pos t = p)).
    { intros s' S' HS' H0 p. rewrite Nat.add_1_r, (take_S_r _ _ s) by done. destruct (decide (s' = s)) as [->|Hne].
      - rewrite list_lookup_insert_eq in HS' by (rewrite D1; unfold MAX_SEQ; lia). simplify_eq.
        rewrite elem_of_union, elem_of_singleton, (D2 s S0 HS0 H0 p). split.
        + intros [->|[?|[? ?]]]; [right; split; [set_solver|done]|by left|right; split; [set_solver|done]].
        + intros [?|[? <-]]; [right; by left|by left].
      - rewrite list_lookup_insert_ne in HS' by lia. rewrite (D2 s' S' HS' H0 p). set_solver. }
    destruct (Nat.eqb_spec (length d) 0) as [Hz|Hz].
    + apply sat_ok. rewrite length_app. simpl. split; simpl; [by rewrite length_insert|done| |].
      * intros x y. rewrite D3. split; (intros [?|(j & ? & _)]; [by left|lia]).
      * intros Hh. destruct (D4 Hh). split; [done|lia].
    + destruct (fi_bit t s0) as [Hb0 _]; [done|by eapply list_elem_of_lookup_2|].
      rewrite !(proj2 (bit_ok_true _)) by done. simpl. apply sat_ok. rewrite length_app. simpl.
      split; simpl; [by rewrite length_insert|done| |done].
      intros x y. rewrite elem_of_union, elem_of_singleton, D3. split.
      * intros [Hxy|[?|(j & ? & ?)]]; [|by left|right; exists j; split; [lia|done]].
        simplify_eq. right. exists (length d). split; [lia|done].
      * intros [?|(j & Hj & H1 & H2)]; [right; by left|]. destruct (decide (j = length d)) as [->|Hne].
        -- left. congruence.
        -- right. right. exists j. split; [lia|done].
  - intros [[sp' cpl'] has'] [D1 D2 D3 D4]. rewrite length_imap in *. simpl in *. split; simpl; [done| | |].
    + intros s S HS H0 p. rewrite (D2 s S HS H0 p), take_ge by lia. unfold pos_of. split.
      * intros [(t' & ? & ?)|[? ?]]; [exists t'; split; [lia|done]|exists t; split; [lia|done]].
      * intros (t' & Hlt & Hin & Hp). destruct (decide (t' = t)) as [->|]; [by right|left]. exists t'. split; [lia|done].
    + intros x y. rewrite D3. split.
      * intros [(t' & ? & ?)|?]; [exists t'; split; [lia|done]|exists t; split; [lia|done]].
      * intros (t' & Hlt & Hc). destruct (decide (t' = t)) as [->|]; [by right|left]. exists t'. split; [lia|done].
    + intros Hh t' Hlt. destruct (D4 Hh) as [H1 H2]. destruct (decide (t' = t)) as [->|]; [done|apply H1; lia].
Qed.

Lemma cpl_ok : sat (mfor (cpl_step b) (seq 0 n) (replicate MAX_SEQ ∅, ∅, false)) (fun r => cpl_inv n r.1.1 r.1.2 r.2).
Proof.
  apply (sat_for _ (fun i r => cpl_inv i r.1.1 r.1.2 r.2)).
  - split; simpl; [by rewrite length_replicate| | |intros; lia].
    2:{ intros s0 s1. split; [set_solver|]. intros (t & ? & _). lia. }
    intros s S HS H0 p. apply lookup_replicate in HS as [-> _]. split; [set_solver|]. intros (t & ? & _). lia.
  - intros i [[sp cpl] has] Hi C. by apply cpl_step_ok.
Qed.

(** ** Sequence sets *)

Definition set_of (i : nat) : gset Z := list_to_set (ids i).

Record set_inv (i : nat) (sets : list (gset Z)) (map : gmap (gset Z) (list nat)) : Prop := {
  si_sets : sets = set_of <$> seq 0 i;
  si_map  : forall T, default [] (map !! T) = filter (fun t => set_of t = T) (seq 0 i)
}.

Lemma set_bits i l : forall (C unq : gset Z), (forall s, s ∈ l -> s ∈ ids i) -> (i < n)%nat ->
  mfor (fun '(cur, unq) s => cur ← bit_set cur s; unq ← bit_set unq s; Ok (cur, unq)) l (C, unq) =
    Ok (list_to_set l ∪ C, list_to_set l ∪ unq).
Proof.
  induction l as [|s l IH]; intros C unq Hl Hi; simpl; [by rewrite !left_id_L by apply _|].
  destruct (fi_bit i s) as [Hb _]; [done|apply Hl; set_solver|]. rewrite !bit_set_ok by done. simpl.
  rewrite IH by set_solver. do 2 f_equal; set_solver.
Qed.

Lemma filter_seq_snoc (P : nat -> Prop) `{forall x, Decision (P x)} i :
  filter P (seq 0 (i + 1)) = filter P (seq 0 i) ++ (if decide (P i) then [i] else []).
Proof. rewrite Nat.add_1_r, seq_S, filter_app. simpl. done. Qed.

Lemma sets_ok : sat (mfor (seq_set_step b) (seq 0 n) ([], ∅, ∅)) (fun r => set_inv n r.1.1 r.1.2).
Proof.
  apply (sat_for _ (fun i r => set_inv i r.1.1 r.1.2)); [split; simpl; [done|intros T; by rewrite lookup_empty]|].
  intros i [[sets map] unq] Hi [C1 C2]. unfold seq_set_step. simpl in *.
  rewrite (fi_ids _ _ _ _ F i Hi). simpl. rewrite (set_bits i) by done. simpl. apply sat_ok.
  rewrite (union_empty_r_L (list_to_set (ids i) : gset Z)). fold (set_of i). split; simpl.
  - rewrite C1, Nat.add_1_r, seq_S, fmap_app. done.
  - intros T. rewrite filter_seq_snoc. destruct (decide (set_of i = T)) as [HT|HT].
    + rewrite <- HT, lookup_insert_eq. simpl. by rewrite C2.
    + rewrite lookup_insert_ne by done. by rewrite C2, app_nil_r.
Qed.

(** ** The check of the sequence sets accepts everything *)

(** Every token of a sequence contains that sequence, so the running intersection of its sets
    does; and the positions are compared with a constant. *)
Lemma check_sets_true a :
  ba_batch a = b -> ba_seq_set a = set_of <$> seq 0 n -> (forall i, (i < n)%nat -> -1 <= pos i) ->
  check_sets a n_seq_max = Ok true.
Proof.
  intros Hb Hset Hp. unfold check_sets. rewrite Hb.
  set (sets0 := replicate n_seq_max (list_to_set all_seq_ids) ++ replicate (MAX_SEQ - n_seq_max) ∅).
  pose (I := fun st : bool * list (gset Z) => st.1 = true /\ length st.2 = MAX_SEQ /\
    forall s S, (Z.to_nat s < n_seq_max)%nat -> 0 <= s -> st.2 !! Z.to_nat s = Some S -> s ∈ S).
  pose proof (fi_max _ _ _ _ F) as Hmax.
  assert (H0 : I (true, sets0)).
  { split_and!; [done|subst sets0; simpl; rewrite length_app, !length_replicate; lia|]. intros s S Hs H0 HS.
    simpl in HS. subst sets0. rewrite lookup_app_l in HS by by rewrite length_replicate.
    apply lookup_replicate in HS as [-> _]. rewrite elem_of_list_to_set, elem_of_all_seq_ids. unfold MAX_SEQ in Hmax. lia. }
  match goal with |- (_ ← mfor ?f ?l ?s; _) = _ => assert (HI : sat (mfor f l s) I) end.
  { apply sat_mfor_inv; [done|]. intros i st Hi%elem_of_seq (H1 & H2 & H3). rewrite H1. simpl.
    rewrite (fi_pos _ _ _ _ F i) by (subst n; lia). simpl. rewrite (fi_ids _ _ _ _ F i) by (subst n; lia). simpl.
    apply sat_mfor_inv; [done|]. intros s st' Hs (H1' & H2' & H3'). rewrite H1'. simpl.
    destruct (fi_bit i s) as [Hb1 Hb2]; [subst n; lia|done|].
    unfold vec_getZ, vec_setZ, vec_get, vec_set. rewrite (proj2 (Z.leb_le 0 s)) by lia.
    destruct (lookup_lt_is_Some_2 (st'.2) (Z.to_nat s)) as [C HC]; [lia|]. rewrite HC. simpl.
    rewrite Hset, list_lookup_fmap, lookup_seq_lt by (subst n; lia). simpl.
    rewrite decide_True by lia. simpl.
    assert (Hin : s ∈ C ∩ set_of i).
    { apply elem_of_intersection. split; [apply (H3' s C); [lia|lia|done]|]. unfold set_of. by apply elem_of_list_to_set. }
    rewrite decide_False by (intros He; rewrite He in Hin; set_solver).
    rewrite lookup_replicate_2 by done. simpl. specialize (Hp i ltac:(subst n; lia)).
    rewrite (proj2 (Z.ltb_ge _ _)) by done. apply sat_ok. split_and!; simpl; [done|by rewrite length_insert|].
    intros s' S Hs' H0' HS. destruct (decide (s' = s)) as [->|Hne].
    - rewrite list_lookup_insert_eq in HS by lia. by simplify_eq.
    - rewrite list_lookup_insert_ne in HS by lia. by apply (H3' s' S). }
  apply sat_exists in HI as (st & -> & (H1 & _)). simpl. by rewrite H1.
Qed.

(** ** Outputs *)

Lemma outputs_ok (lg : nat -> Z) : (forall i, (i < n)%nat -> ptr_get (b_logits b) i = Ok (lg i)) ->
  count_outputs b = Ok (length (filter (fun i => lg i <> 0) (seq 0 n))).
Proof.
  intros Hl. unfold count_outputs.
  assert (H : sat (mfor (fun k i => x ← ptr_get (b_logits b) i; Ok (if x =? 0 then k else S k)) (seq 0 n) 0%nat)
    (fun k => k = length (filter (fun i => lg i <> 0) (seq 0 n)))).
  { apply (sat_for _ (fun i k => k = length (filter (fun t => lg t <> 0) (seq 0 i)))); [done|].
    intros i k Hi ->. rewrite Hl by done. simpl. apply sat_ok. rewrite filter_seq_snoc, length_app.
    destruct (Z.eqb_spec (lg i) 0) as [Hz|Hz]; [rewrite decide_False by (intros ?; done)|rewrite decide_True by done]; simpl; lia. }
  apply sat_exists in H as (k & Hk & ->). exact Hk.
Qed.
End filled.
End init.

(** * The consistency checks of [init] against the memory, decided exactly *)

(** ** Runs of positions *)

Definition contiguous (S : gset Z) : Prop := forall x y z, x ∈ S -> z ∈ S -> x <= y <= z -> y ∈ S.

Lemma size_seqZ lo n : 0 <= n -> size (list_to_set (seqZ lo n) : gset Z) = Z.to_nat n.
Proof. intros Hn. rewrite size_list_to_set by apply NoDup_seqZ. by rewrite length_seqZ. Qed.

(** The comparison of the extent with the number of positions. *)
Lemma contiguous_size (S : gset Z) lo hi : lo ∈ S -> hi ∈ S -> (forall x, x ∈ S -> lo <= x <= hi) ->
  contiguous S <-> hi - lo + 1 <= Z.of_nat (size S).
Proof.
  intros Hlo Hhi Hb. pose proof (Hb lo Hlo) as Hlh.
  set (R := list_to_set (seqZ lo (hi - lo + 1)) : gset Z).
  assert (HR : size R = Z.to_nat (hi - lo + 1)) by (apply size_seqZ; lia).
  assert (Hin : forall x, x ∈ R <-> lo <= x <= hi) by (intros x; unfold R; rewrite elem_of_list_to_set, elem_of_seqZ; lia).
  split.
  - intros Hc. assert (size R <= size S)%nat; [|lia]. apply subseteq_size. intros x Hx. apply (Hc lo x hi); [done|done|].
    by apply Hin.
  - intros Hs x y z Hx Hz Hxyz.
    assert (S ≡ R) as ->; [|apply Hin; pose proof (Hb x Hx) as ?; pose proof (Hb z Hz) as ?; lia].
    apply set_subseteq_size_equiv; [|lia]. intros v Hv. by apply Hin, Hb.
Qed.

Section checks.
Context {E M : Type} `{Memory M}.
Implicit Types (b : llama_batch E) (a : llama_batch_allocr E) (mem : option M).

(** The memory answers for every sequence; positions stay small enough to add [n]. *)
Definition mem_ok mem (n_seq_max n : nat) : Prop :=
  match mem with
  | None => True
  | Some m => forall s, 0 <= s < Z.of_nat n_seq_max ->
      (exists lo, mem_seq_pos_min m s = Ok lo) /\
      exists hi, mem_seq_pos_max m s = Ok hi /\ -1 <= hi < INT32_MAX - Z.of_nat n
  end.

Definition mem_val (f : M -> Z -> res Z) mem (s : Z) : Z :=
  match mem with Some m => match f m s with Ok p => p | Err _ => -1 end | None => -1 end.
Definition mem_max mem s := mem_val mem_seq_pos_max mem s.
Definition mem_min mem s := mem_val mem_seq_pos_min mem s.

Lemma mem_max_ok mem n_seq_max n s : mem_ok mem n_seq_max n -> 0 <= s < Z.of_nat n_seq_max ->
  match mem with Some m => mem_seq_pos_max m s | None => Ok (-1) end = Ok (mem_max mem s) /\
  (-1 <= mem_max mem s < INT32_MAX - Z.of_nat n \/ mem = None /\ mem_max mem s = -1).
Proof.
  unfold mem_max, mem_val. destruct mem as [m|]; [|intros; split; [done|by right]]. intros Hm Hs.
  destruct (Hm s Hs) as (_ & hi & -> & Hb). split; [done|by left].
Qed.

(** What [init] demands of the positions [S] of sequence [s]. *)
Definition seq_consistent (n_pos : nat) (has_token : bool) (p0 : Z) (S : gset Z) : Prop :=
  if (1 <? n_pos)%nat then
    forall p, p ∈ S -> 0 <= p0 -> if has_token then p0 < p else p0 <= p
  else contiguous S /\ (S <> ∅ -> 0 <= p0 -> p0 + 1 ∈ S /\ forall p, p ∈ S -> p0 + 1 <= p).

Definition has_tok (b : llama_batch E) : bool := match b_token b with Some _ => true | None => false end.

Lemma set_min_ok (S : gset Z) : S <> ∅ -> exists lo, default (-1) (list_min (elements S)) = lo /\ lo ∈ S /\
  forall p, p ∈ S -> lo <= p.
Proof.
  intros Hne. destruct (list_min (elements S)) as [lo|] eqn:El.
  - apply list_min_Some in El as [H1 H2]. exists lo. split_and!; [done|by apply elem_of_elements|].
    intros p Hp. by apply H2, elem_of_elements.
  - apply list_min_None in El. destruct Hne. by apply leibniz_equiv, elements_empty_inv.
Qed.

Lemma set_max_ok (S : gset Z) : S <> ∅ -> exists hi, default (-1) (list_max (elements S)) = hi /\ hi ∈ S /\
  forall p, p ∈ S -> p <= hi.
Proof.
  intros Hne. destruct (list_max (elements S)) as [hi|] eqn:El.
  - apply list_max_Some in El as [H1 H2]. exists hi. split_and!; [done|by apply elem_of_elements|].
    intros p Hp. by apply H2, elem_of_elements.
  - apply list_max_None in El. destruct Hne. by apply leibniz_equiv, elements_empty_inv.
Qed.

Lemma check_seq_ok a mem n_seq_max n s S :
  mem_ok mem n_seq_max n -> (0 < n)%nat -> 0 <= s < Z.of_nat n_seq_max -> ba_seq_pos a !! Z.to_nat s = Some S ->
  (forall p, p ∈ S -> 0 <= p < INT32_MAX) ->
  sat (check_seq a mem s) (fun r => r = true <->
    seq_consistent (ba_n_pos_per_embd a) (has_tok (ba_batch a)) (mem_max mem s) S).
Proof.
  intros Hm Hn Hs HS HB. unfold check_seq, balloc_seq_pos_min, balloc_seq_pos_max, vec_getZ, vec_get.
  rewrite (proj2 (Z.leb_le 0 s)) by lia. rewrite HS. simpl. destruct (mem_max_ok mem n_seq_max n s Hm Hs) as [Hp0 Hb0].
  set (p0 := mem_max mem s) in *. unfold seq_consistent.
  destruct (decide (S = ∅)) as [->|Hne].
  { apply sat_ok. split; [intros _|done]. destruct (1 <? _)%nat; [set_solver|]. split; [intros x y z; set_solver|done]. }
  rewrite Hp0. simpl. destruct (set_min_ok S Hne) as (lo & -> & Hlo & Hmin), (set_max_ok S Hne) as (hi & -> & Hhi & Hmax).
  destruct (1 <? ba_n_pos_per_embd a)%nat.
  - unfold has_tok. destruct (b_token (ba_batch a)); apply sat_ok; rewrite negb_true_iff, andb_false_iff.
    + rewrite !Z.leb_gt. split; [intros [?|?] p Hp ?; [lia|specialize (Hmin p Hp); lia]|].
      intros Hp. destruct (decide (0 <= p0)); [right; by apply (Hp lo)|left; lia].
    + rewrite Z.leb_gt, Z.ltb_ge. split; [intros [?|?] p Hp ?; [lia|specialize (Hmin p Hp); lia]|].
      intros Hp. destruct (decide (0 <= p0)); [right; by apply (Hp lo)|left; lia].
  - pose proof (HB lo Hlo) as Hblo. pose proof (HB hi Hhi) as Hbhi. pose proof (Hmin hi Hhi) as Hlh.
    assert (Hi32 : forall z, -1 <= z <= INT32_MAX -> i32 z = Ok z).
    { intros z Hz. unfold i32, INT32_MIN. by rewrite (proj2 (Z.leb_le _ _)), (proj2 (Z.leb_le _ _)) by lia. }
    assert (Hc : contiguous S <-> hi - lo + 1 <= Z.of_nat (size S)).
    { apply contiguous_size; [done|done|]. intros x Hx. specialize (Hmin x Hx). specialize (Hmax x Hx). lia. }
    assert (Hiff : (0 <= p0 -> lo = p0 + 1) <->
      (S <> ∅ -> 0 <= p0 -> p0 + 1 ∈ S /\ forall p, p ∈ S -> p0 + 1 <= p)).
    { split.
      - intros Hl _ H0. rewrite <- (Hl H0). by split.
      - intros Hl H0. destruct (Hl Hne H0) as [H1 H2]. specialize (H2 lo Hlo). specialize (Hmin _ H1). lia. }
    apply (sat_mono _ (fun r => r = true <-> hi - lo + 1 <= Z.of_nat (size S) /\ (0 <= p0 -> lo = p0 + 1)));
      [|intros r Hr; by rewrite Hr, Hc, Hiff].
    apply sat_step with (P := fun ok => ok = true <-> (0 <= p0 -> lo = p0 + 1)).
    { destruct (Z.leb_spec 0 p0); [|by apply sat_ok; split; [lia|]].
      rewrite Hi32 by lia. simpl. apply sat_ok. rewrite Z.eqb_eq. tauto. }
    intros [|] Hok; simpl.
    + rewrite Hi32 by lia. simpl. rewrite Hi32 by lia. simpl. apply sat_ok. rewrite negb_true_iff, Z.ltb_ge. tauto.
    + apply sat_ok. split; [done|]. intros [_ Hl]. by apply Hok.
Qed.

(** Coupled sequences have the same extent in the memory. *)
Definition cpl_consistent mem (s0 s1 : Z) : Prop :=
  mem <> None -> mem_min mem s0 = mem_min mem s1 /\ mem_max mem s0 = mem_max mem s1.

Lemma check_cpl_ok a mem n_seq_max n : mem_ok mem n_seq_max n ->
  sat (check_cpl a mem n_seq_max) (fun r => r = true <-> forall s0, s0 ∈ seqZ 0 (Z.of_nat n_seq_max) ->
    forall s1, s1 ∈ seqZ 0 (Z.of_nat n_seq_max) -> (s0, s1) ∈ ba_seq_cpl a -> cpl_consistent mem s0 s1).
Proof.
  intros Hm. unfold check_cpl. destruct mem as [m|]; [|apply sat_ok; split; [done|done]].
  apply (sat_mforall _ (fun s0 => forall s1, s1 ∈ seqZ 0 (Z.of_nat n_seq_max) -> (s0, s1) ∈ ba_seq_cpl a -> cpl_consistent (Some m) s0 s1)).
  intros s0 H0%elem_of_seqZ. apply (sat_mforall _ (fun s1 => (s0, s1) ∈ ba_seq_cpl a -> cpl_consistent (Some m) s0 s1)).
  intros s1 H1%elem_of_seqZ. unfold cpl_consistent, mem_min, mem_max, mem_val.
  destruct (Hm s0) as ((l0 & ->) & h0 & -> & _); [lia|]. destruct (Hm s1) as ((l1 & ->) & h1 & -> & _); [lia|].
  case_decide as Hin; apply sat_ok; [|by split].
  simpl. rewrite andb_true_iff, !Z.eqb_eq. split; [by intros [-> ->]|]. intros Hc. by destruct (Hc Hin).
Qed.
End checks.

(** * What [init] validates and fills in before the checks *)

Section gen.
Context {E M : Type} `{Memory M}.
Implicit Types (b : llama_batch E) (mem : option M).

(** The sequences of token [i]. *)
Definition batch_ids b (i : nat) : list Z := match seq_ids_of b i with Ok l => l | Err _ => [] end.

(** The batch with the missing sequence ids filled in. *)
Definition with_ids b : llama_batch E := gen_seq_id (gen_n_seq_id b).

(** The arrays the caller passes are long enough, the sequence ids of a token are
    different, and the positions given are in range: nothing of this is checked by [init]. *)
Record batch_readable b (n_pos n_embd : nat) : Prop := {
  br_n     : (0 < b_n_tokens b)%nat;
  br_token : forall t, b_token b = Some t -> (b_n_tokens b <= length t)%nat;
  br_embd  : forall l, b_embd b = Some l -> (b_n_tokens b * n_embd <= length l)%nat;
  br_logit : forall l, b_logits b = Some l -> (b_n_tokens b <= length l)%nat;
  br_pos   : forall l, b_pos b = Some l -> (b_n_tokens b <= length l)%nat /\
               (b_token b = None -> n_pos * b_n_tokens b <= length l)%nat /\
               forall i, (i < b_n_tokens b)%nat -> 0 <= l !!! i < INT32_MAX;
  br_gen   : b_pos b = None -> b_token b <> None \/ (n_pos <= 1)%nat;
  br_ids   : forall i, (i < b_n_tokens b)%nat -> exists ids, seq_ids_of (with_ids b) i = Ok ids /\
               ids <> [] /\ NoDup ids /\ ptr_get (b_n_seq_id (with_ids b)) i = Ok (Z.of_nat (length ids));
  br_nseq  : b_seq_id b <> None -> b_n_seq_id b <> None
}.

Definition tokens_valid b (n_vocab : Z) : Prop :=
  forall t i, b_token b = Some t -> (i < b_n_tokens b)%nat -> 0 <= t !!! i < n_vocab.
Definition ids_valid b (n_seq_max : nat) : Prop :=
  forall i, (i < b_n_tokens b)%nat -> Forall (fun s => 0 <= s < Z.of_nat n_seq_max) (batch_ids (with_ids b) i).

Lemma mforall_mmap {A B} (f : A -> res B) (P : B -> bool) l r :
  mmap f l = Ok r -> mforall (fun x => y ← f x; Ok (P y)) l = Ok (forallb P r).
Proof.
  revert r. induction l as [|x l IH]; intros r Hr; simpl in *; [by injection Hr as <-|].
  apply bind_ok in Hr as (y & -> & Hr). apply bind_ok in Hr as (r' & Hr' & Hr). injection Hr as <-. simpl.
  destruct (P y); [|done]. by apply IH.
Qed.

Lemma ids_first b i ids : seq_ids_of b i = Ok ids -> ids <> [] ->
  exists s, seq_id_at b i 0 = Ok s /\ ids !! 0%nat = Some s.
Proof.
  intros Hids Hne. unfold seq_ids_of in Hids. apply bind_ok in Hids as (k & _ & Hids).
  destruct (Z.to_nat k) as [|k']; simpl in Hids; [by injection Hids as <-|].
  apply bind_ok in Hids as (s & Hs & Hids). apply bind_ok in Hids as (l & _ & Hids). injection Hids as <-.
  by exists s.
Qed.

Section valid.
Context b (n_pos n_embd : nat) (R : batch_readable b n_pos n_embd).

Lemma valid_tokens_ok n_vocab : sat (valid_tokens b n_vocab) (fun r => r = true <-> tokens_valid b n_vocab).
Proof.
  unfold valid_tokens, tokens_valid. destruct (b_token b) as [t|] eqn:Et; [|by apply sat_ok; split].
  eapply sat_mono; [apply (sat_mforall _ (fun i => 0 <= t !!! i < n_vocab))|].
  - intros i Hi%elem_of_seq. rewrite vec_get_at by (pose proof (br_token _ _ _ R t Et); lia). simpl. apply sat_ok.
    rewrite andb_true_iff, Z.leb_le, Z.ltb_lt. done.
  - intros r Hr. rewrite Hr. split.
    + intros Ha t' i [= <-] Hi. apply Ha. apply elem_of_seq. lia.
    + intros Ha i Hi%elem_of_seq. apply Ha; [done|lia].
Qed.

Lemma batch_ids_ok i : (i < b_n_tokens b)%nat -> seq_ids_of (with_ids b) i = Ok (batch_ids (with_ids b) i) /\
  batch_ids (with_ids b) i <> [] /\ NoDup (batch_ids (with_ids b) i) /\
  ptr_get (b_n_seq_id (with_ids b)) i = Ok (Z.of_nat (length (batch_ids (with_ids b) i))).
Proof.
  intros Hi. destruct (br_ids _ _ _ R i Hi) as (ids & Hids & Hrest). unfold batch_ids. by rewrite Hids.
Qed.

Lemma with_ids_n : b_n_tokens (with_ids b) = b_n_tokens b.
Proof. unfold with_ids, gen_seq_id, gen_n_seq_id. destruct (b_n_seq_id b); simpl; by destruct (b_seq_id b). Qed.

Lemma vec_get_replicate {A} n (x : A) i y : vec_get (replicate n x) i = Ok y -> y = x.
Proof. intros Hx%vec_get_ok. by apply lookup_replicate in Hx as [-> _]. Qed.

(** Without sequence ids every token is of sequence 0. *)
Lemma ids_default i : b_seq_id b = None -> (i < b_n_tokens b)%nat -> Forall (fun s => s = 0) (batch_ids (with_ids b) i).
Proof.
  intros Hn Hi. destruct (batch_ids_ok i Hi) as (Hids & _). unfold seq_ids_of in Hids.
  apply bind_ok in Hids as (k & _ & Hids). revert Hids. generalize (batch_ids (with_ids b) i) as l.
  generalize (seq 0 (Z.to_nat k)) as js. induction js as [|j js IH]; intros l Hl; simpl in Hl.
  - injection Hl as <-. constructor.
  - apply bind_ok in Hl as (s & Hs & Hl). apply bind_ok in Hl as (l' & Hl' & Hl). injection Hl as <-.
    constructor; [|by apply IH].
    assert (Hrow : b_seq_id (with_ids b) = Some (replicate (b_n_tokens b) [0])).
    { unfold with_ids, gen_seq_id, gen_n_seq_id. destruct (b_n_seq_id b); simpl; by rewrite Hn. }
    unfold seq_id_at, ptr_get in Hs. rewrite Hrow in Hs. simpl in Hs.
    apply bind_ok in Hs as (row & ->%vec_get_replicate & Hs%vec_get_ok).
    by apply list_lookup_singleton_Some in Hs as [_ <-].
Qed.

Lemma valid_seq_ids_ok n_seq_max : (0 < n_seq_max)%nat ->
  sat (valid_seq_ids b n_seq_max) (fun r => r = true <-> ids_valid b n_seq_max).
Proof.
  intros Hmax. unfold valid_seq_ids, ids_valid. destruct (b_seq_id b) as [rows|] eqn:Er.
  2:{ apply sat_ok. split; [|done]. intros _ i Hi. eapply Forall_impl; [by apply ids_default|]. simpl. intros s ->. lia. }
  assert (Hw : with_ids b = b).
  { unfold with_ids, gen_seq_id, gen_n_seq_id. pose proof (br_nseq _ _ _ R) as Hn. rewrite Er in Hn.
    destruct (b_n_seq_id b); [by rewrite Er|]. by destruct Hn. }
  pose proof batch_ids_ok as HB. rewrite Hw in *.
  eapply sat_mono; [apply (sat_mforall _ (fun i => Forall (fun s => 0 <= s < Z.of_nat n_seq_max) (batch_ids b i)))|].
  - intros i Hi%elem_of_seq. destruct (HB i) as (Hids & _ & _ & Hn); [lia|].
    rewrite Hn. simpl. unfold seq_ids_of in Hids. rewrite Hn in Hids.
    apply (mforall_mmap _ (fun x => (0 <=? x) && (x <? Z.of_nat n_seq_max))) in Hids. rewrite Hids. apply sat_ok.
    rewrite forallb_forall, Forall_forall. setoid_rewrite list_elem_of_In.
    split; intros Ha x Hx; specialize (Ha x Hx); [rewrite andb_true_iff, Z.leb_le, Z.ltb_lt in Ha|
      rewrite andb_true_iff, Z.leb_le, Z.ltb_lt]; done.
  - intros r Hr. rewrite Hr. split; intros Ha i Hi; apply Ha; [apply elem_of_seq; lia|apply elem_of_seq in Hi; lia].
Qed.
End valid.

(** ** Generated positions *)

(** The position of token [i] continues the last earlier token of its first sequence, or the
    memory when there is none. *)
Definition next_pos mem (ids : nat -> list Z) (pos : nat -> Z) (i : nat) (s p : Z) : Prop :=
  (exists t, (t < i)%nat /\ s ∈ ids t /\ p = pos t + 1 /\ forall t', (t < t' < i)%nat -> s ∉ ids t') \/
  ((forall t, (t < i)%nat -> s ∉ ids t) /\ p = match mem with Some _ => mem_max mem s + 1 | None => 0 end).

Definition pos_generated mem (ids : nat -> list Z) (pos : nat -> Z) (i : nat) : Prop :=
  exists s, ids i !! 0%nat = Some s /\ next_pos mem ids pos i s (pos i).

Section gen_pos.
Context b mem (n_seq_max : nat) (ids : nat -> list Z).
Let n := b_n_tokens b.
Context (Hids : forall i, (i < n)%nat -> seq_ids_of b i = Ok (ids i) /\ ids i <> [] /\
           Forall (fun s => 0 <= s < Z.of_nat n_seq_max) (ids i))
  (Hmem : mem_ok mem n_seq_max n) (Hn31 : Z.of_nat n < INT32_MAX).

Definition base_ok (i : nat) (p : Z) : Prop := 0 <= p <= INT32_MAX - Z.of_nat n + Z.of_nat i.

Lemma i32_base i p : (i < n)%nat -> base_ok i p -> i32 (p + 1) = Ok (p + 1) /\ base_ok (S i) (p + 1).
Proof.
  unfold base_ok. intros Hi Hp. split; [|lia]. unfold i32, INT32_MIN.
  by rewrite (proj2 (Z.leb_le _ _)), (proj2 (Z.leb_le _ _)) by lia.
Qed.

(** The table of next positions. *)
Record pos_inv (i : nat) (ps p0 : list Z) : Prop := {
  pi_len : length ps = i;
  pi_n0  : length p0 = n_seq_max;
  pi_gen : forall t, (t < i)%nat -> pos_generated mem ids (fun j => ps !!! j) t /\ 0 <= ps !!! t < INT32_MAX;
  pi_p0  : forall s p, p0 !! s = Some p -> next_pos mem ids (fun j => ps !!! j) i (Z.of_nat s) p /\ base_ok i p
}.

Lemma init_p0_ok : sat (init_p0 mem n_seq_max) (fun p0 => pos_inv 0 [] p0).
Proof.
  unfold init_p0. rewrite (mmap_fmap _ (fun s => match mem with Some _ => mem_max mem (Z.of_nat s) + 1 | None => 0 end)).
  - apply sat_ok. split; [done|by rewrite length_fmap, length_seq|lia|].
    intros s p Hp. rewrite list_lookup_fmap in Hp. destruct (seq 0 n_seq_max !! s) as [s'|] eqn:Es; [|done].
    apply lookup_seq in Es as [-> Hs]. simpl in Hp. simplify_eq. split.
    + right. split; [lia|done].
    + unfold base_ok. unfold mem_ok in Hmem. destruct mem as [m|] eqn:Em; [|lia].
      destruct (Hmem (Z.of_nat s)) as (_ & hi & Hhi & Hb); [lia|]. unfold mem_max, mem_val. rewrite Hhi. lia.
  - intros s Hs%elem_of_seq. unfold mem_ok in Hmem. destruct mem as [m|] eqn:Em; [|done].
    destruct (Hmem (Z.of_nat s)) as (_ & hi & Hhi & Hb); [lia|]. unfold mem_max, mem_val. rewrite Hhi. simpl.
    unfold i32, INT32_MIN. by rewrite (proj2 (Z.leb_le _ _)), (proj2 (Z.leb_le _ _)) by lia.
Qed.

Lemma next_pos_ext i ps p s q : length ps = i ->
  next_pos mem ids (fun j => ps !!! j) i s q <-> next_pos mem ids (fun j => (ps ++ [p]) !!! j) i s q.
Proof.
  intros Hl. unfold next_pos.
  assert (Hlt : forall t, (t < i)%nat -> (ps ++ [p]) !!! t = ps !!! t) by (intros t Ht; apply lookup_total_app_l; lia).
  split; (intros [(t & Ht & H1 & H2 & H3)|H1]; [left; exists t|by right]);
    [rewrite Hlt by done|rewrite Hlt in H2 by done]; done.
Qed.

Lemma set_p0_ok i p ids' p0 : length p0 = n_seq_max -> (i < n)%nat -> base_ok i p ->
  Forall (fun s => 0 <= s < Z.of_nat n_seq_max) ids' ->
  sat (mfor (fun p0 s => q ← i32 (p + 1); vec_setZ p0 s q) ids' p0) (fun p0' => length p0' = n_seq_max /\
    forall s v, p0' !! s = Some v -> (Z.of_nat s ∈ ids' /\ v = p + 1) \/ ((Z.of_nat s ∉ ids') /\ p0 !! s = Some v)).
Proof.
  intros Hl Hi Hp. destruct (i32_base i p Hi Hp) as [-> _].
  change (fun p0 s => q ← Ok (p + 1); vec_setZ p0 s q) with (fun p0 s => vec_setZ p0 s (p + 1)).
  revert p0 Hl. induction ids' as [|x ids' IH]; intros p0 Hl Hv; simpl.
  { apply sat_ok. split; [done|]. intros s v Hs. right. split; [apply not_elem_of_nil|done]. }
  apply Forall_cons in Hv as [Hx Hv].
  assert (vec_setZ p0 x (p + 1) = Ok (<[Z.to_nat x := p + 1]> p0)) as ->.
  { unfold vec_setZ, vec_set. by rewrite (proj2 (Z.leb_le 0 x)), decide_True by lia. }
  simpl. eapply sat_mono; [apply IH; [by rewrite length_insert|done..]|]. intros p0' [H1 H2]. split; [done|].
  intros s v Hs. destruct (H2 s v Hs) as [[? ?]|[Hni Hlk]]; [left; split; [set_solver|done]|].
  destruct (decide (s = Z.to_nat x)) as [->|Hne].
  - left. rewrite list_lookup_insert_eq in Hlk by lia. simplify_eq. split; [rewrite Z2Nat.id by lia; set_solver|done].
  - right. rewrite list_lookup_insert_ne in Hlk by done. split; [|done]. rewrite not_elem_of_cons. split; [lia|done].
Qed.

Lemma gen_pos_step_ok i ps p0 : (i < n)%nat -> pos_inv i ps p0 ->
  sat (gen_pos_step b (ps, p0) i) (fun r => pos_inv (i + 1) r.1 r.2).
Proof.
  intros Hi [P1 P2 P3 P4]. destruct (Hids i Hi) as (Hid & Hne & Hval). unfold gen_pos_step.
  destruct (ids_first b i (ids i) Hid Hne) as (s0 & Hs0 & Hfst). rewrite Hs0. simpl.
  assert (Hv0 : 0 <= s0 < Z.of_nat n_seq_max) by by eapply (Forall_lookup_1 _ _ _ _ Hval).
  destruct (lookup_lt_is_Some_2 p0 (Z.to_nat s0)) as [p Hp]; [lia|].
  unfold vec_getZ, vec_get. rewrite (proj2 (Z.leb_le 0 s0)) by lia. rewrite Hp. simpl. rewrite Hid. simpl.
  destruct (P4 _ _ Hp) as [Hnext Hbase]. rewrite Z2Nat.id in Hnext by lia.
  eapply sat_step; [by apply (set_p0_ok i p (ids i))|]. intros p0' [Hl Hp']. apply sat_ok. simpl.
  assert (Hat : (ps ++ [p]) !!! i = p) by (apply list_lookup_total_middle; done).
  assert (Hlt : forall t, (t < i)%nat -> (ps ++ [p]) !!! t = ps !!! t) by (intros t Ht; apply lookup_total_app_l; lia).
  split; [rewrite length_app; simpl; lia|done| |].
  - intros t Ht. destruct (decide (t = i)) as [->|Hti].
    + rewrite Hat. split; [|unfold base_ok in Hbase; lia]. exists s0. split; [done|]. rewrite Hat.
      by apply next_pos_ext.
    + rewrite Hlt by lia. destruct (P3 t) as [(s & Hs & Hg) Hb]; [lia|]. split; [|done]. exists s. split; [done|].
      rewrite Hlt by lia. destruct Hg as [(t' & H1 & H2 & H3 & H4)|?]; [left|by right].
      exists t'. rewrite Hlt by lia. done.
  - intros s v Hs. destruct (Hp' s v Hs) as [[Hin ->]|[Hni Hlk]].
    + split; [|rewrite Nat.add_1_r; by apply i32_base]. left. exists i. rewrite Hat. split_and!; [lia|done|done|lia].
    + destruct (P4 _ _ Hlk) as [Hn' Hb']. split; [|unfold base_ok in *; lia].
      apply (next_pos_ext i ps p) in Hn'; [|done]. destruct Hn' as [(t & H1 & H2 & H3 & H4)|[H1 H2]].
      * left. exists t. split_and!; [lia|done|done|]. intros t' Ht'. destruct (decide (t' = i)) as [->|]; [done|apply H4; lia].
      * right. split; [|done]. intros t Ht. destruct (decide (t = i)) as [->|]; [done|apply H1; lia].
Qed.

(** [gen_pos]: the same batch with positions, the caller's or the generated ones. *)
Lemma gen_pos_ok (Hpos : forall l, b_pos b = Some l -> (n <= length l)%nat /\ forall i, (i < n)%nat -> 0 <= l !!! i < INT32_MAX) :
  sat (gen_pos b mem n_seq_max) (fun b' => exists l, (n <= length l)%nat /\
    b' = mk_batch (b_n_tokens b) (b_token b) (b_embd b) (Some l) (b_n_seq_id b) (b_seq_id b) (b_logits b) /\
    (forall l', b_pos b = Some l' -> l = l') /\
    (b_pos b = None -> length l = n /\ forall i, (i < n)%nat -> pos_generated mem ids (fun j => l !!! j) i) /\
    forall i, (i < n)%nat -> 0 <= l !!! i < INT32_MAX).
Proof.
  unfold gen_pos. destruct (b_pos b) as [l|] eqn:El.
  { apply sat_ok. destruct (Hpos l eq_refl) as [H1 H2]. exists l. split_and!; [done| |by intros ? [= ->]|done|done].
    destruct b. simpl in *. by subst. }
  eapply sat_step; [apply init_p0_ok|]. intros p0 P0. change (length []) with 0%nat in P0.
  eapply sat_step; [apply (sat_for (gen_pos_step b) (fun i st => pos_inv i st.1 st.2)); [exact P0|]|].
  - intros i [ps p] Hi HP. by apply gen_pos_step_ok.
  - intros [ps p] [P1 _ P3 _]. simpl in *. apply sat_ok. exists ps. split_and!; [lia|done|done| |].
    + intros _. split; [done|]. intros i Hi. by apply P3.
    + intros i Hi. by apply P3.
Qed.
End gen_pos.

(** ** Output flags *)

Definition wants_output b (output_all : bool) (i : nat) : Prop :=
  output_all = true \/ match b_logits b with Some l => l !!! i <> 0 | None => S i = b_n_tokens b end.

Lemma gen_logits_ok b output_all :
  (0 < b_n_tokens b)%nat -> (forall l, b_logits b = Some l -> (b_n_tokens b <= length l)%nat) ->
  sat (gen_logits b output_all) (fun b' => exists l, b' = with_logits b l /\ (b_n_tokens b <= length l)%nat /\
    forall i, (i < b_n_tokens b)%nat -> l !!! i <> 0 <-> wants_output b output_all i).
Proof.
  intros Hn Hl. unfold gen_logits, wants_output.
  assert (Hones : forall i, (i < b_n_tokens b)%nat -> replicate (b_n_tokens b) 1 !!! i <> 0).
  { intros i Hi. by rewrite lookup_total_replicate_2. }
  destruct (b_logits b) as [l|] eqn:El.
  - assert (Hsame : b = with_logits b l) by (destruct b; simpl in *; by subst). destruct output_all.
    2:{ apply sat_ok. exists l. split_and!; [done|by apply Hl|]. intros i Hi. split; [by right|]. by intros [|]. }
    eapply sat_step; [apply (sat_for _ (fun i w => (w : bool) = false -> forall j, (j < i)%nat -> l !!! j <> 0))|].
    + intros _ j Hj. lia.
    + intros i w Hi Hw. rewrite vec_get_at by (specialize (Hl l eq_refl); lia). simpl. apply sat_ok.
      intros [H1 H2]%orb_false_iff j Hj. destruct (decide (j = i)) as [->|]; [by apply Z.eqb_neq|apply Hw; [done|lia]].
    + intros [|] Hw; apply sat_ok.
      * exists (replicate (b_n_tokens b) 1). split_and!; [done|by rewrite length_replicate|]. intros i Hi.
        split; [by left|]. intros _. by apply Hones.
      * exists l. split_and!; [done|by apply Hl|]. intros i Hi. split; [by left|]. intros _. by apply Hw.
  - destruct output_all.
    + apply sat_ok. exists (replicate (b_n_tokens b) 1). split_and!; [done|by rewrite length_replicate|].
      intros i Hi. split; [by left|]. intros _. by apply Hones.
    + apply sat_bind, sat_vec_set; [rewrite length_replicate; lia|]. apply sat_ok. eexists. split_and!; [done| |].
      * by rewrite length_insert, length_replicate.
      * intros i Hi. destruct (decide (i = b_n_tokens b - 1)%nat) as [->|Hne].
        { rewrite list_lookup_total_insert_eq by (rewrite length_replicate; lia). split; [right; lia|done]. }
        rewrite list_lookup_total_insert_ne by done. rewrite lookup_total_replicate_2 by done.
        split; [done|]. intros [?|?]; [done|lia].
Qed.
End gen.
