(* ===== verification/InitProps.v ===== *)
(** * [init] accepts exactly the consistent batches *)

From S2P Require Import Prelude KvCells KvCellsInv Batch BatchTheory InitTheory.

Section init.
Context {E M : Type} `{Memory M}.
Implicit Types (b : llama_batch E) (a : llama_batch_allocr E) (mem : option M).

(** The positions of sequence [s] in a batch of [n] tokens. *)
Definition token_positions (ids : nat -> list Z) (pos : nat -> Z) (n : nat) (s : Z) : gset Z :=
  list_to_set (pos <$> filter (fun i => s ∈ ids i) (seq 0 n)).

Lemma elem_of_token_positions ids pos n s p : p ∈ token_positions ids pos n s <-> pos_of ids pos n s p.
Proof.
  unfold token_positions, pos_of. rewrite elem_of_list_to_set, list_elem_of_fmap.
  setoid_rewrite list_elem_of_filter. setoid_rewrite elem_of_seq. split.
  - intros (i & -> & ? & ?). exists i. split_and!; [lia|done|done].
  - intros (i & ? & ? & <-). exists i. split_and!; [done|done|lia|lia].
Qed.

(** The demands on the completed batch [b], in which token [i] is at [pos i]. *)
Record consistent b mem (n_pos n_seq_max : nat) (n_vocab : Z) (pos : nat -> Z) : Prop := {
  co_max : (n_seq_max <= MAX_SEQ)%nat;
  co_tok : tokens_valid b n_vocab;
  co_ids : ids_valid b n_seq_max;
  co_pos : forall s, 0 <= s < Z.of_nat n_seq_max ->
             seq_consistent n_pos (has_tok b) (mem_max mem s)
               (token_positions (batch_ids (with_ids b)) pos (b_n_tokens b) s);
  co_cpl : forall i s0 s1, (i < b_n_tokens b)%nat -> batch_ids (with_ids b) i !! 0%nat = Some s0 ->
             s1 ∈ batch_ids (with_ids b) i -> cpl_consistent mem s1 s0
}.

(** The positions [init] works with. *)
Definition positions_of b mem (pos : nat -> Z) : Prop :=
  match b_pos b with
  | Some l => forall i, (i < b_n_tokens b)%nat -> pos i = l !!! i
  | None => forall i, (i < b_n_tokens b)%nat -> pos_generated mem (batch_ids (with_ids b)) pos i
  end.

(** What the allocator holds after accepting [b]. *)
Record accepted a b mem (output_all : bool) (n_embd n_seq_max : nat) (pos : nat -> Z) : Prop := {
  ac_ok    : allocr_ok a;
  ac_n     : n_toks a = b_n_tokens b;
  ac_data  : b_token (ba_batch a) = b_token b /\ b_embd (ba_batch a) = b_embd b /\ ba_n_embd a = n_embd /\
               ba_n_seq_max a = n_seq_max;
  ac_ids   : forall i, (i < n_toks a)%nat -> tok_ids a i = batch_ids (with_ids b) i;
  ac_pos   : forall i, (i < n_toks a)%nat -> ptr_at (b_pos (ba_batch a)) i = pos i /\ 0 <= pos i < INT32_MAX;
  ac_logit : forall i, (i < n_toks a)%nat -> tok_logit a i <> 0 <-> wants_output b output_all i;
  ac_outs  : ba_n_outputs a = length (outputs a (seq 0 (n_toks a)));
  ac_fresh : balloc_split_reset a = a
}.

Lemma with_ids_tok b : b_token (with_ids b) = b_token b /\ b_embd (with_ids b) = b_embd b /\
  b_pos (with_ids b) = b_pos b /\ b_logits (with_ids b) = b_logits b /\ b_n_tokens (with_ids b) = b_n_tokens b.
Proof. unfold with_ids, gen_seq_id, gen_n_seq_id. destruct (b_n_seq_id b); simpl; by destruct (b_seq_id b). Qed.

Lemma allocr_ok_reset a : allocr_ok a -> allocr_ok (balloc_split_reset a).
Proof. intros []. by split. Qed.

(** Steps that change neither the ids nor the size keep the ids of every token. *)
Lemma same_ids b b' i : b_n_seq_id b' = b_n_seq_id b -> b_seq_id b' = b_seq_id b ->
  seq_ids_of b' i = seq_ids_of b i /\ batch_ids b' i = batch_ids b i.
Proof. intros H1 H2. unfold batch_ids, seq_ids_of, seq_id_at. by rewrite H1, H2. Qed.

(** The generated positions are determined. *)
Lemma positions_unique b mem pos pos' : positions_of b mem pos -> positions_of b mem pos' ->
  forall i, (i < b_n_tokens b)%nat -> pos i = pos' i.
Proof.
  unfold positions_of. destruct (b_pos b) as [l|]; intros H1 H2 i; [intros Hi; by rewrite H1, H2|].
  induction i as [i IH] using lt_wf_ind. intros Hi.
  destruct (H1 i Hi) as (s & Hs & N1), (H2 i Hi) as (s' & Hs' & N2). simplify_eq.
  destruct N1 as [(t & T1 & T2 & -> & T4)|[T1 ->]], N2 as [(t' & T1' & T2' & -> & T4')|[T1' ->]].
  - assert (t = t') as ->; [|f_equal; apply IH; lia].
    destruct (lt_eq_lt_dec t t') as [[Hlt|]|Hlt]; [by destruct (T4 t' ltac:(lia))|done|by destruct (T4' t ltac:(lia))].
  - by destruct (T1' t T1).
  - by destruct (T1 t' T1').
  - done.
Qed.

Lemma consistent_ext b mem n_pos n_seq_max n_vocab pos pos' :
  (forall i, (i < b_n_tokens b)%nat -> pos i = pos' i) ->
  consistent b mem n_pos n_seq_max n_vocab pos -> consistent b mem n_pos n_seq_max n_vocab pos'.
Proof.
  intros He [C1 C2 C3 C4 C5]. split; try done. intros s Hs.
  assert (token_positions (batch_ids (with_ids b)) pos' (b_n_tokens b) s =
    token_positions (batch_ids (with_ids b)) pos (b_n_tokens b) s) as ->; [|by apply C4].
  apply set_eq. intros p. rewrite !elem_of_token_positions. unfold pos_of.
  split; intros (t & Ht & Hin & <-); exists t; by rewrite He.
Qed.

Lemma filter_ext_in {A} (P Q : A -> Prop) `{forall x, Decision (P x)} `{forall x, Decision (Q x)} (l : list A) :
  (forall x, x ∈ l -> P x <-> Q x) -> filter P l = filter Q l.
Proof.
  induction l as [|x l IH]; intros H'; [done|]. rewrite !filter_cons, IH by set_solver.
  specialize (H' x ltac:(set_solver)). do 2 case_decide; tauto.
Qed.

Section run.
Context a0 b mem (n_vocab : Z) (n_embd n_seq_max : nat) (output_all : bool).
Context (A1 : length (ba_seq_idx a0) = MAX_SEQ) (A2 : length (ba_seq_pos a0) = MAX_SEQ).
Let n_pos := ba_n_pos_per_embd a0.
Let n := b_n_tokens b.
Context (R : batch_readable b n_pos n_embd) (Hmem : mem_ok mem n_seq_max n) (Hmax0 : (0 < n_seq_max)%nat)
  (Hn31 : Z.of_nat n < INT32_MAX).

(** The tables, from the completed batch. *)
Lemma init_tables l lg (b' : llama_batch E) :
  (n_seq_max <= MAX_SEQ)%nat -> ids_valid b n_seq_max -> tokens_valid b n_vocab ->
  b' = with_logits (mk_batch (b_n_tokens b) (b_token (with_ids b)) (b_embd (with_ids b)) (Some l)
         (b_n_seq_id (with_ids b)) (b_seq_id (with_ids b)) (b_logits (with_ids b))) lg ->
  (n <= length l)%nat -> (b_token b = None -> n_pos * n <= length l)%nat ->
  (forall i, (i < n)%nat -> 0 <= l !!! i < INT32_MAX) -> (n <= length lg)%nat ->
  (forall i, (i < n)%nat -> lg !!! i <> 0 <-> wants_output b output_all i) ->
  sat (n_outputs ← count_outputs b';
       c ← mfor (cpl_step b') (seq 0 (b_n_tokens b')) (replicate MAX_SEQ ∅, ∅, false);
       let '(seq_pos, seq_cpl, has_cpl) := c in
       t ← mfor (seq_set_step b') (seq 0 (b_n_tokens b')) ([], ∅, ∅);
       let '(seq_set, seq_set_map, unq) := t in
       u ← mfor (unq_step unq) (seqZ 0 (Z.of_nat n_seq_max)) (replicate MAX_SEQ (-1), []);
       let '(seq_idx, seq_id_unq) := u in
       let a := mk_balloc n_pos b' n_embd n_seq_max n_outputs seq_id_unq seq_idx
                  has_cpl seq_pos seq_cpl seq_set seq_set_map (ba_out_ids a0) (ba_n_used a0) (ba_used a0) in
       ok ← mforall (check_seq a mem) (seqZ 0 (Z.of_nat n_seq_max));
       if negb ok then Ok None else
       ok ← check_cpl a mem n_seq_max;
       if negb ok then Ok None else
       ok ← check_sets a n_seq_max;
       if negb ok then Ok None else
       Ok (Some (balloc_split_reset a)))
    (fun r => match r with
              | Some a => consistent b mem n_pos n_seq_max n_vocab (fun i => l !!! i) /\
                          accepted a b mem output_all n_embd n_seq_max (fun i => l !!! i)
              | None => ~ consistent b mem n_pos n_seq_max n_vocab (fun i => l !!! i)
              end).
Proof.
  intros Hmax Hval Htv Hb' Hl Hl2 Hpos Hlg Hout.
  destruct (with_ids_tok b) as (W1 & W2 & W3 & W4 & W5).
  assert (Hn' : b_n_tokens b' = n) by by subst b'.
  set (ids := batch_ids (with_ids b)).
  assert (Hids : forall i, (i < n)%nat -> seq_ids_of b' i = Ok (ids i) /\ batch_ids b' i = ids i).
  { intros i Hi. destruct (same_ids (with_ids b) b' i) as [-> ->]; [by subst b'..|]. split; [|done].
    by apply (batch_ids_ok b n_pos n_embd R). }
  assert (F : filled b' n_seq_max ids (fun i => l !!! i)).
  { split; rewrite ?Hn'; try done.
    - intros i Hi. by apply Hids.
    - intros i Hi. apply ids_first; [by apply Hids|]. by apply (batch_ids_ok b n_pos n_embd R).
    - intros i Hi. subst b'. simpl. apply vec_get_at. lia. }
  rewrite (outputs_ok b' (fun i => lg !!! i)).
  2:{ intros i Hi. subst b'. simpl in *. apply vec_get_at. subst n. lia. }
  simpl. rewrite Hn'.
  eapply sat_step; [rewrite <- Hn'; by apply (cpl_ok b' n_seq_max ids (fun i => l !!! i))|].
  intros [[sp cpl] has] [C1 C2 C3 C4]. simpl in *. rewrite Hn' in *.
  eapply sat_step; [rewrite <- Hn' at 1; by apply (sets_ok b' n_seq_max ids (fun i => l !!! i))|].
  intros [[sets map] unq] [S1 S2]. simpl in *. rewrite Hn' in *.
  rewrite unq_loop by done. simpl.
  set (a := mk_balloc n_pos b' n_embd n_seq_max _ _ _ has sp cpl sets map _ _ _).
  assert (HS : forall s, 0 <= s < Z.of_nat n_seq_max -> sp !! Z.to_nat s = Some (token_positions ids (fun i => l !!! i) n s)).
  { intros s Hs. destruct (lookup_lt_is_Some_2 sp (Z.to_nat s)) as [S HS]; [lia|]. rewrite HS. f_equal.
    apply set_eq. intros p. rewrite elem_of_token_positions. apply (C2 s S HS). lia. }
  eapply sat_step; [apply (sat_mforall _ (fun s => seq_consistent n_pos (has_tok b) (mem_max mem s)
    (token_positions ids (fun i => l !!! i) n s)))|].
  { intros s Hs%elem_of_seqZ. replace (has_tok b) with (has_tok (ba_batch a)) by (unfold has_tok, a; simpl; subst b'; simpl; by rewrite W1).
    apply (check_seq_ok a mem n_seq_max n); [done|subst n; apply R|lia|apply HS; lia|].
    intros p (t & Ht & _ & <-)%elem_of_token_positions. by apply Hpos. }
  intros [|] Hseq; simpl.
  2:{ apply sat_ok. intros [_ _ _ Hc _]. assert (false = true) as Hft; [|done]. apply Hseq. intros s Hs%elem_of_seqZ. apply Hc. lia. }
  eapply sat_step; [by apply (check_cpl_ok a mem n_seq_max n)|]. intros [|] Hcpl; simpl.
  2:{ apply sat_ok. intros [_ _ _ _ Hc]. assert (false = true) as Hft; [|done]. apply Hcpl. intros s1 _ s0 _ Hin.
      unfold a in Hin. simpl in Hin. apply C3 in Hin as (t & Ht & j & Hj & H1 & H0).
      apply (Hc t s0 s1); [done|done|by eapply list_elem_of_lookup_2]. }
  rewrite (check_sets_true b' n_seq_max ids (fun i => l !!! i) F a).
  2:{ done. } 2:{ unfold a. simpl. by rewrite S1, Hn'. } 2:{ rewrite Hn'. intros i Hi. specialize (Hpos i Hi). lia. }
  simpl. apply sat_ok. split.
  { split; try done.
    - intros s Hs. apply (proj1 Hseq eq_refl). apply elem_of_seqZ. lia.
    - intros i s0 s1 Hi H0 [j Hj]%list_elem_of_lookup.
      pose proof (Hval i Hi) as Hv. rewrite Forall_forall in Hv.
      pose proof (Hv s1 (list_elem_of_lookup_2 _ _ _ Hj)) as V1. pose proof (Hv s0 (list_elem_of_lookup_2 _ _ _ H0)) as V0.
      destruct j as [|j]; [assert (s0 = s1) as -> by (unfold ids in *; congruence); done|].
      apply (proj1 Hcpl eq_refl); [apply elem_of_seqZ; lia|apply elem_of_seqZ; lia|].
      unfold a. simpl. apply C3. exists i. split; [done|]. exists (S j).
      pose proof (lookup_lt_Some _ _ _ Hj). unfold ids. split_and!; [lia|lia|done|done]. }
  assert (Htok : forall i, (i < n)%nat -> tok_ids a i = ids i) by (intros i Hi; apply (Hids i Hi)).
  assert (Hset : forall i, (i < n)%nat -> tok_set a i = set_of ids i) by (intros i Hi; unfold tok_set, set_of; by rewrite Htok).
  assert (Hna : n_toks a = n) by done.
  assert (Hok : allocr_ok a).
  { split; rewrite ?Hna; try done.
    - intros t Ht. apply (br_token _ _ _ R). rewrite <- W1. by subst b'.
    - intros e He. apply (br_embd _ _ _ R). rewrite <- W2. by subst b'.
    - exists l. unfold a. simpl. split_and!; [by subst b'|done|].
      assert (b_token b' = b_token b) as -> by (subst b'; by rewrite <- W1). exact Hl2.
    - exists lg. unfold a. simpl. split; [by subst b'|done].
    - intros i Hi. rewrite Htok by done. unfold a. simpl.
      assert (b_n_seq_id b' = b_n_seq_id (with_ids b)) as -> by by subst b'. by apply (batch_ids_ok b n_pos n_embd R).
    - intros i Hi. rewrite Htok by done. destruct (batch_ids_ok b n_pos n_embd R i Hi) as (_ & H1 & H2 & _).
      split_and!; [by apply Hids|done|done|by apply Hval].
    - intros Hh i Hi. rewrite Htok by done. destruct (batch_ids_ok b n_pos n_embd R i Hi) as (_ & H1 & _ & _).
      specialize (C4 Hh i Hi). unfold ids in *. destruct (batch_ids (with_ids b) i); [done|simpl in *; lia].
    - unfold a. simpl. rewrite S1. apply list_fmap_ext. intros i x Hx. apply lookup_seq in Hx as [-> Hx].
      symmetry. apply Hset. lia.
    - intros T. unfold set_tokens, a. simpl. rewrite S2. apply filter_ext_in. intros i Hi%elem_of_seq. rewrite Hset by lia. done. }
  assert (Hat : forall i, (i < n)%nat -> ptr_at (b_pos (ba_batch a)) i = l !!! i).
  { intros i Hi. unfold a. simpl. by subst b'. }
  assert (Hlat : forall i, tok_logit a i = lg !!! i) by (intros i; unfold tok_logit, a; simpl; by subst b').
  split; change (n_toks (balloc_split_reset a)) with (n_toks a); rewrite ?Hna.
  - by apply (allocr_ok_reset a).
  - done.
  - unfold a. simpl. subst b'. simpl. by rewrite W1, W2.
  - exact Htok.
  - intros i Hi. split; [by apply Hat|by apply Hpos].
  - intros i Hi. change (tok_logit (balloc_split_reset a) i) with (tok_logit a i). rewrite Hlat. by apply Hout.
  - change (length (filter (fun i => lg !!! i <> 0) (seq 0 n)) = length (filter (fun i => tok_logit a i <> 0) (seq 0 n))).
    f_equal. apply filter_ext_in. intros i _. by rewrite Hlat.
  - done.
Qed.

(** [init] never stops, and decides whether the batch is consistent. *)
Lemma sat_init : sat (balloc_init a0 b n_vocab mem n_embd n_seq_max output_all) (fun r =>
  match r with
  | Some a => exists pos, positions_of b mem pos /\ consistent b mem n_pos n_seq_max n_vocab pos /\
                accepted a b mem output_all n_embd n_seq_max pos
  | None => forall pos, positions_of b mem pos -> ~ consistent b mem n_pos n_seq_max n_vocab pos
  end).
Proof.
  unfold balloc_init. cbv zeta. rewrite assert_ok by (apply Nat.ltb_lt; apply R).
  change (Ok tt ≫= ?f) with (f tt). cbv beta.
  destruct (Nat.ltb_spec MAX_SEQ n_seq_max) as [Hbig|Hmax].
  { apply sat_ok. intros pos _ [Hc _ _ _ _]. lia. }
  eapply sat_step; [by apply (valid_tokens_ok b n_pos n_embd)|]. intros [|] Ht; simpl.
  2:{ apply sat_ok. intros pos _ [_ Hc _ _ _]. by apply Ht in Hc. }
  eapply sat_step; [by apply (valid_seq_ids_ok b n_pos n_embd)|]. intros [|] Hi; simpl.
  2:{ apply sat_ok. intros pos _ [_ _ Hc _ _]. by apply Hi in Hc. }
  pose proof (proj1 Ht eq_refl) as Htv. pose proof (proj1 Hi eq_refl) as Hval.
  destruct (with_ids_tok b) as (W1 & W2 & W3 & W4 & W5).
  fold (with_ids b). eapply sat_step.
  { apply (gen_pos_ok (with_ids b) mem n_seq_max (batch_ids (with_ids b))); rewrite ?W5, ?W3; try done.
    - intros i Hin. destruct (batch_ids_ok b n_pos n_embd R i Hin) as (H1 & H2 & _ & _). split_and!; [done|done|by apply Hval].
    - intros l Hl. destruct (br_pos _ _ _ R l Hl) as (H1 & _ & H3). by split. }
  intros b1 (l & Hl & -> & Hgiven & Hgen & Hpos). rewrite W5, W3 in *.
  eapply sat_step.
  { apply gen_logits_ok; cbn [b_n_tokens b_logits]; rewrite ?W5; [apply R|]. intros lg Hlg. apply (br_logit _ _ _ R). congruence. }
  intros b2 (lg & -> & Hlg & Hout). cbn [b_n_tokens] in Hlg, Hout. rewrite ?W5 in Hlg, Hout.
  assert (Hposof : positions_of b mem (fun i => l !!! i)).
  { unfold positions_of. destruct (b_pos b) as [l'|] eqn:El; [by rewrite (Hgiven l' eq_refl)|]. by apply Hgen. }
  rewrite A1, A2.
  eapply sat_mono; [apply (init_tables l lg _ Hmax Hval Htv eq_refl)|].
  - lia.
  - intros Hb. destruct (b_pos b) as [l'|] eqn:El.
    + rewrite (Hgiven l' eq_refl). by apply (br_pos _ _ _ R l' El).
    + destruct (Hgen eq_refl) as [Hlen _]. destruct (br_gen _ _ _ R El) as [|Hp]; [done|]. subst n n_pos. nia.
  - done.
  - lia.
  - intros i Hin. rewrite Hout by done. unfold wants_output. cbn [b_n_tokens b_logits]. by rewrite W4.
  - intros [a|]; [by exists (fun i => l !!! i)|]. intros Hno pos Hpos' Hc. apply Hno.
    eapply consistent_ext; [|exact Hc]. intros i Hin. by apply (positions_unique b mem pos (fun j => l !!! j)).
Qed.
End run.
End init.
