(* ===== verification/BatchProps.v ===== *)
(** * Properties of [llama_batch_allocr] *)

From S2P Require Import Prelude KvCells KvCellsInv Batch KvCache BatchTheory SplitEqual SplitProps InitTheory.
From S2P Require Import InitProps.

(** ** [init] *)


(** Two tokens of sequence 1 and one of sequence 0, positions to be generated. *)
Definition demo_batch : llama_batch Z :=
  mk_batch 3 (Some [5; 6; 7]) None None (Some [1; 1; 1]) (Some [[1]; [0]; [1]]) None.

Lemma demo_readable : batch_readable demo_batch 1 0.
Proof.
  split; simpl; try done; try lia; try (by intros t [= <-]); try (by left).
  - intros [|[|[|i]]] Hi; [eexists..|lia]; (split; [vm_compute; reflexivity|]);
      (split; [discriminate|split; [apply NoDup_singleton|vm_compute; reflexivity]]).
Qed.

(** A memory in which sequence 0 ends at position 9 and the others are empty. *)
Definition demo_memory : Type := unit.
#[export] Instance demo_memory_ops : Memory demo_memory := {
  mem_seq_pos_min := fun _ s => Ok (if s =? 0 then 4 else -1);
  mem_seq_pos_max := fun _ s => Ok (if s =? 0 then 9 else -1)
}.

(** Did [init] accept, and at which positions? *)
Definition accepts {E} (r : res (option (llama_batch_allocr E))) : bool :=
  match r with Ok (Some _) => true | _ => false end.
Definition alloc_of {E} (r : res (option (llama_batch_allocr E))) : llama_batch_allocr E :=
  match r with Ok (Some a) => a | _ => balloc_new 1 end.

Lemma accepts_some {E} (r : res (option (llama_batch_allocr E))) : accepts r = true -> exists a, r = Ok (Some a).
Proof. destruct r as [[a|]|]; [by exists a|done..]. Qed.

Lemma alloc_of_ok {E} (r : res (option (llama_batch_allocr E))) (P : llama_batch_allocr E -> Prop) :
  accepts r = true -> sat r (fun o => match o with Some a => P a | None => True end) -> P (alloc_of r).
Proof. by destruct r as [[a|]|]. Qed.



(** What [init] makes of [demo_batch], without a memory. *)
Definition demo_alloc : llama_batch_allocr Z :=
  alloc_of (balloc_init (balloc_new 1) demo_batch 100 (None : option demo_memory) 0 2 false).

Lemma demo_alloc_ok : allocr_ok demo_alloc.
Proof.
  apply (alloc_of_ok _ allocr_ok); [vm_compute; reflexivity|].
  eapply sat_mono; [apply sat_init; simpl; [by rewrite length_replicate|by rewrite length_replicate|
    exact demo_readable|exact I|lia|vm_compute; reflexivity]|].
  intros [a|] Hr; [|done]. destruct Hr as (pos & _ & _ & Ha). apply Ha.
Qed.

(** The last check of [init] (partial sequence sets, decreasing positions) never rejects:
    the running intersection for a sequence always contains that sequence, and the
    positions are compared with a table that stays at -1. *)
Theorem check_sets_accepts {E} (a : llama_batch_allocr E) (O : allocr_ok a)
    (Hpos : forall i, (i < n_toks a)%nat -> -1 <= ptr_at (b_pos (ba_batch a)) i) :
  check_sets a (ba_n_seq_max a) = Ok true.
Proof.
  destruct (ao_pos a O) as (l & Hl & Hlen & _).
  apply (check_sets_true (ba_batch a) _ (tok_ids a) (fun i => ptr_at (b_pos (ba_batch a)) i)); [|done|apply O|done].
  split; [| | | |apply O]; intros i Hi; try (destruct (ao_ids a O i Hi) as (H1 & H2 & _ & H4)).
  - done.
  - by apply (ids_first _ i).
  - done.
  - apply (ptr_get_at _ l); [done|]. unfold n_toks in *. lia.
Qed.

Lemma check_sets_accepts_witness : check_sets demo_alloc 2 = Ok true.
Proof.
  apply (check_sets_accepts demo_alloc demo_alloc_ok). intros i Hi.
  assert (Hp : b_pos (ba_batch demo_alloc) = Some [0; 0; 1]) by (vm_compute; reflexivity).
  assert (Hn : n_toks demo_alloc = 3%nat) by (vm_compute; reflexivity).
  rewrite Hp. rewrite Hn in Hi. destruct i as [|[|[|i]]]; [vm_compute; discriminate..|lia].
Defined.

(** The two batches that the comment over the check calls invalid. *)
Definition decreasing_batch : llama_batch Z :=
  mk_batch 7 (Some [1; 1; 1; 1; 1; 1; 1]) None (Some [4; 5; 0; 1; 6; 2; 3]) (Some [1; 1; 1; 1; 1; 1; 1])
    (Some [[0]; [0]; [1]; [1]; [0]; [1]; [0]]) None.
Definition partial_batch : llama_batch Z :=
  mk_batch 3 (Some [1; 1; 1]) None (Some [0; 1; 1]) (Some [3; 2; 2]) (Some [[0; 1; 2]; [0; 1]; [1; 2]]) None.

(** [init] accepts the two batches that its own comment gives as examples of what is
    disallowed: one whose positions decrease in sequence 0, and one with a partial
    sub-set of a sequence set. *)
Theorem init_accepts_disallowed :
  (exists a, balloc_init (balloc_new 1) decreasing_batch 100 (None : option demo_memory) 0 2 false = Ok (Some a)) /\
  (exists a, balloc_init (balloc_new 1) partial_batch 100 (None : option demo_memory) 0 3 false = Ok (Some a)).
Proof. split; apply accepts_some; vm_compute; reflexivity. Qed.

(** ** Splitting *)

(** Splitting an accepted batch with [split_simple], as [init_batch] does for a unified
    cache, terminates and hands out every token exactly once and in order: the micro-batches
    are the consecutive pieces of the batch, all but the last of full size [n_ubatch], each
    gathers the data of its tokens, and the output ids are those of the flagged tokens. *)
Lemma split_simple_partition {E} (a : llama_batch_allocr E) n_ubatch (O : allocr_ok a) :
  exists a' idxss, split_all (S (n_toks a)) 1 n_ubatch (balloc_split_reset a) [] =
      Ok (a', (fun idxs => gather a idxs (length idxs) false) <$> idxss) /\
    concat idxss = seq 0 (n_toks a) /\
    (forall j idxs, idxss !! j = Some idxs -> (0 < length idxs <= Nat.max 1 n_ubatch)%nat /\
      ((S j < length idxss)%nat -> length idxs = Nat.max 1 n_ubatch)) /\
    balloc_get_n_used a' = n_toks a /\ ba_out_ids a' = outputs a (seq 0 (n_toks a)).
Proof. destruct (split_simple_all a n_ubatch O) as (a' & l & ? & ? & ? & ? & ? & _). by exists a', l. Qed.

Lemma split_simple_partition_witness :
  exists a' idxss, split_all 4 1 2 (balloc_split_reset demo_alloc) [] =
      Ok (a', (fun idxs => gather demo_alloc idxs (length idxs) false) <$> idxss) /\
    concat idxss = [0; 1; 2]%nat /\ ba_out_ids a' = [2]%nat.
Proof.
  destruct (split_simple_partition demo_alloc 2 demo_alloc_ok) as (a' & idxss & H1 & H2 & _ & _ & H3).
  exists a', idxss. split; [exact H1|]. split; [exact H2|]. rewrite H3. vm_compute. reflexivity.
Defined.

(** C14: Splitting an accepted batch without coupled sequences with [split_equal], as
    [init_batch] does for a cache with several streams, terminates and hands out every
    token exactly once, the tokens of each sequence in their order; every micro-batch
    consists of as many equal runs as it has sequences, one run per sequence, of
    consecutive sequence ids. *)
Theorem split_equal_partition {E} (a : llama_batch_allocr E) n_stream n_ubatch (O : allocr_ok a)
    (Hcpl : ba_has_cpl a = false) (Hns : n_stream <> 1%nat) :
  exists a' gs, split_all (S (n_toks a)) n_stream n_ubatch (balloc_split_reset a) [] =
      Ok (a', group_ubatch a <$> gs) /\
    Permutation (concat (concat gs)) (seq 0 (n_toks a)) /\
    (forall T, filter (fun i => tok_set a i = T) (concat (concat gs)) = set_tokens a T) /\
    Forall (equal_shape a n_ubatch) gs /\
    balloc_get_n_used a' = n_toks a /\ ba_out_ids a' = outputs a (concat (concat gs)).
Proof. destruct (split_equal_all a n_stream n_ubatch O Hcpl Hns) as (a' & gs & ? & ? & ? & ? & ? & ? & _). by exists a', gs. Qed.

Lemma split_equal_partition_witness :
  exists a' gs, split_all 4 2 2 (balloc_split_reset demo_alloc) [] = Ok (a', group_ubatch demo_alloc <$> gs) /\
    filter (fun i => tok_set demo_alloc i = {[1]}) (concat (concat gs)) = [0; 2]%nat.
Proof.
  destruct (split_equal_partition demo_alloc 2 2 demo_alloc_ok) as (a' & gs & H1 & _ & H2 & _).
  - vm_compute. reflexivity.
  - discriminate.
  - exists a', gs. split; [exact H1|]. rewrite (H2 {[1]}). vm_compute. reflexivity.
Defined.

(** Three sequences of one token each. *)
Definition three_seqs : llama_batch Z :=
  mk_batch 3 (Some [1; 1; 1]) None None (Some [1; 1; 1]) (Some [[0]; [1]; [2]]) None.

(** [split_equal] can exceed the limit: asked for micro-batches of at most two tokens, it
    returns one of three, because it stops adding sequences only once there are more than
    [n_ubatch] of them. *)
Theorem split_equal_exceeds :
  exists a a' u, balloc_init (balloc_new 1) three_seqs 100 (None : option demo_memory) 0 3 false = Ok (Some a) /\
    balloc_split_equal a 2 true = Ok (a', u) /\ ub_n_tokens u = 3%nat.
Proof.
  destruct (accepts_some (balloc_init (balloc_new 1) three_seqs 100 (None : option demo_memory) 0 3 false)) as (a & Ha);
    [vm_compute; reflexivity|].
  assert (Hn : match balloc_split_equal a 2 true with Ok (_, u) => ub_n_tokens u | Err _ => 0%nat end = 3%nat).
  { change a with (alloc_of (Ok (Some a))). rewrite <- Ha. vm_compute. reflexivity. }
  destruct (balloc_split_equal a 2 true) as [[a' u]|] eqn:Es; [|discriminate Hn]. exists a, a', u.
  split; [exact Ha|]. split; [exact Es|exact Hn].
Qed.
