(* ===== verification/KvBatch.v ===== *)
(** * From a batch to slots: [llama_kv_cache::init_batch]

    The micro-batches the allocator makes of an accepted batch are the ones the cache can
    place, so splitting and preparing compose: [init_batch] never stops. *)

From S2P Require Import Prelude KvCells KvCellsInv KvCellsSpec Batch Pages PagesTheory KvCache KvCacheTheory.
From S2P Require Import KvCacheProps KvSlots KvPlace KvPrepare KvUbatchProps BatchTheory SplitEqual.
From S2P Require Import SplitProps BatchProps.

(** Entry [i] of the [j]-th of lists of equal length. *)
Lemma lookup_concat_uniform {A} (ls : list (list A)) m j i l :
  (forall l, l ∈ ls -> length l = m) -> ls !! j = Some l -> (i < m)%nat -> concat ls !! (j * m + i)%nat = l !! i.
Proof.
  revert j. induction ls as [|x ls IH]; intros j Hs Hj Hi; [done|]. cbn [concat].
  pose proof (Hs x ltac:(set_solver)) as Hx. destruct j as [|j]; simplify_eq/=.
  - by rewrite lookup_app_l by lia.
  - rewrite lookup_app_r by lia. rewrite <- (IH j) by (done || intros; apply Hs; set_solver). f_equal. lia.
Qed.

Lemma length_concat_uniform {A} (ls : list (list A)) m :
  (forall l, l ∈ ls -> length l = m) -> length (concat ls) = (length ls * m)%nat.
Proof.
  induction ls as [|x ls IH]; intros Hs; [done|]. cbn [concat length].
  rewrite length_app, IH, (Hs x) by set_solver. lia.
Qed.

Section batch.
Context {E : Type} (a : llama_batch_allocr E) (O : allocr_ok a).
(** Positions below the largest 32-bit integer: the cache computes [pos + 1]. *)
Context (Hpos : forall i, (i < n_toks a)%nat -> 0 <= ptr_at (b_pos (ba_batch a)) i < INT32_MAX)
  (Hnp : (0 < ba_n_pos_per_embd a)%nat).

(** ** The tokens of a micro-batch *)

Lemma gather_pos_lookup idxs j i x : (j < ba_n_pos_per_embd a)%nat -> idxs !! i = Some x ->
  gather_pos a idxs !! (i + length idxs * j)%nat =
    Some (ptr_at (b_pos (ba_batch a)) (match b_token (ba_batch a) with Some _ => 0 | None => j * n_toks a end + x)).
Proof.
  intros Hj Hi. unfold gather_pos. replace (i + length idxs * j)%nat with (j * length idxs + i)%nat by lia.
  pose proof (lookup_lt_Some _ _ _ Hi) as Hlt. erewrite lookup_concat_uniform; [| |by rewrite list_lookup_fmap, lookup_seq_lt|done].
  - by rewrite list_lookup_fmap, Hi.
  - intros l (j' & -> & _)%list_elem_of_fmap. by rewrite length_fmap.
Qed.

Lemma gather_token idxs n_seqs eq i :
  Forall (fun x => x < n_toks a)%nat idxs -> (i < length idxs)%nat ->
  token_ok (gather a idxs n_seqs eq) i /\ token_pos (gather a idxs n_seqs eq) i < INT32_MAX.
Proof.
  intros Hlt Hi. destruct (lookup_lt_is_Some_2 idxs i Hi) as [x Hx].
  pose proof (Forall_lookup_1 _ _ _ _ Hlt Hx) as Hxn. cbn beta in Hxn.
  pose proof (gather_pos_lookup idxs 0 i x Hnp Hx) as Hp. rewrite Nat.mul_0_r, Nat.add_0_r in Hp.
  assert (ub_pos (gather a idxs n_seqs eq) !! i = Some (ptr_at (b_pos (ba_batch a)) x)) as Hp'.
  { change (ub_pos _) with (gather_pos a idxs). rewrite Hp. by destruct (b_token (ba_batch a)). }
  specialize (Hpos x Hxn). split; [split|].
  - exists (ptr_at (b_pos (ba_batch a)) x). split; [done|lia].
  - unfold is_pos_2d. cbn [ub_n_pos gather ub_pos ub_n_tokens]. intros H3%Nat.leb_le.
    rewrite (gather_pos_lookup idxs 2 i x) by (done || lia).
    replace (i + length idxs)%nat with (i + length idxs * 1)%nat by lia.
    rewrite (gather_pos_lookup idxs 1 i x) by (done || lia). done.
  - destruct (ao_ids a O x Hxn) as (_ & Hne & Hnd & Hids). exists (tok_ids a x).
    cbn [ub_seq_id ub_n_seq_id gather]. rewrite !list_lookup_fmap, Hx. split_and!; try done.
    eapply Forall_impl; [exact Hids|]. intros s Hs. pose proof (ao_max a O). unfold MAX_SEQ in *. split; lia.
  - unfold token_pos. rewrite Hp'. simpl. lia.
Qed.

Lemma elem_of_unq idxs s : s ∈ unq_of a idxs <->
  (exists i, i ∈ idxs /\ s ∈ tok_ids a i) /\ 0 <= s < Z.of_nat (ba_n_seq_max a).
Proof.
  unfold unq_of. rewrite list_elem_of_filter, elem_of_seqZ, elem_of_concat_fmap. naive_solver lia.
Qed.

Lemma unq_id_ok idxs s : s ∈ unq_of a idxs -> id_ok s.
Proof. intros [_ Hs]%elem_of_unq. pose proof (ao_max a O). unfold MAX_SEQ in *. split; lia. Qed.

(** ** One stream: any piece of the batch *)

Lemma simple_ubatch_ok k idxs n_seqs eq : kv_n_stream k = 1%nat -> idxs <> [] -> Forall (fun x => x < n_toks a)%nat idxs ->
  ubatch_ok k (gather a idxs n_seqs eq).
Proof.
  intros Hn Hne Hlt. assert (slot_dims k (gather a idxs n_seqs eq) = (1%nat, length idxs)) as Hd
    by (unfold slot_dims; by rewrite Hn).
  assert (0 < length idxs)%nat as Hl by (destruct idxs; [done|simpl; lia]).
  destruct (lookup_lt_is_Some_2 idxs 0 Hl) as [x Hx]. pose proof (Forall_lookup_1 _ _ _ _ Hlt Hx) as Hxn.
  destruct (ao_ids a O x Hxn) as (_ & Hids & _ & Hr). destruct (tok_ids a x) as [|s ids] eqn:Et; [done|].
  apply Forall_cons in Hr as [Hs _].
  assert (s ∈ unq_of a idxs) as Hin.
  { apply elem_of_unq. split; [|done]. exists x. split; [by eapply list_elem_of_lookup_2|rewrite Et; set_solver]. }
  split; rewrite ?Hd; cbn [fst snd]; [split; rewrite ?Hd, ?Hn; cbn [fst snd]|..].
  - lia.
  - done.
  - intros j Hj. assert (j = 0%nat) as -> by lia. cbn [ub_seq_id_unq gather].
    destruct (unq_of a idxs) as [|q unq] eqn:Eu; [by apply not_elem_of_nil in Hin|].
    exists q. split_and!; [done| |lia]. apply (unq_id_ok idxs). rewrite Eu. set_solver.
  - cbn [ub_n_tokens gather]. lia.
  - lia.
  - lia.
  - intros i Hi. by apply gather_token.
  - intros i Hi. by apply gather_token.
Qed.

(** ** Several streams: equal runs of consecutive sequences *)

Lemma filter_interval (P : Z -> Prop) `{forall s, Decision (P s)} q n m :
  0 <= q -> q + Z.of_nat n <= m -> (forall s, 0 <= s < m -> P s <-> q <= s < q + Z.of_nat n) ->
  filter P (seqZ 0 m) = seqZ q (Z.of_nat n).
Proof.
  intros Hq Hm HP. replace m with (q + (Z.of_nat n + (m - q - Z.of_nat n))) by lia.
  rewrite seqZ_app, seqZ_app, !filter_app by lia. rewrite Z.add_0_l.
  rewrite filter_none, filter_all, filter_none, app_nil_r; [done|..]; apply Forall_forall;
    intros s Hs%elem_of_seqZ; rewrite HP by lia; lia.
Qed.

Section group.
Context (g : list (list nat)) (kk : nat) (q : Z).
Context (Hne : g <> []) (Hkk : (0 < kk)%nat) (Hrun : forall l, l ∈ g -> length l = kk)
  (Hids : forall j l, g !! j = Some l -> forall i, i ∈ l -> (i < n_toks a)%nat /\ tok_ids a i = [q + Z.of_nat j]).

Lemma group_first j : (j < length g)%nat -> exists i, concat g !! (j * kk)%nat = Some i /\ i ∈ concat g /\
  (i < n_toks a)%nat /\ tok_ids a i = [q + Z.of_nat j].
Proof.
  intros Hj. destruct (lookup_lt_is_Some_2 g j Hj) as [l Hl].
  pose proof (Hrun l (list_elem_of_lookup_2 _ _ _ Hl)) as Hlen.
  destruct (lookup_lt_is_Some_2 l 0) as [i Hi]; [lia|].
  pose proof (lookup_concat_uniform g kk j 0 l Hrun Hl Hkk) as Hc. rewrite Nat.add_0_r, Hi in Hc.
  exists i. split; [done|]. split; [by eapply list_elem_of_lookup_2|].
  apply (Hids j l Hl). by eapply list_elem_of_lookup_2.
Qed.

Lemma group_token i : i ∈ concat g -> exists j, (j < length g)%nat /\ (i < n_toks a)%nat /\ tok_ids a i = [q + Z.of_nat j].
Proof.
  intros (l & Hi & Hl)%elem_of_concat. apply list_elem_of_lookup in Hl as [j Hj].
  exists j. split; [by eapply lookup_lt_Some|]. by apply (Hids j l).
Qed.

Lemma group_id j : (j < length g)%nat -> 0 <= q + Z.of_nat j < Z.of_nat (ba_n_seq_max a).
Proof.
  intros Hj. destruct (group_first j Hj) as (i & _ & _ & Hin & Ht). destruct (ao_ids a O i Hin) as (_ & _ & _ & Hr).
  rewrite Ht in Hr. by apply Forall_cons in Hr as [? _].
Qed.

Lemma group_unq : unq_of a (concat g) = seqZ q (Z.of_nat (length g)).
Proof.
  assert (0 < length g)%nat as Hg by (destruct g; [done|simpl; lia]).
  pose proof (group_id 0 Hg) as H0. pose proof (group_id (length g - 1) ltac:(lia)) as H1.
  unfold unq_of. apply filter_interval; [lia|lia|]. intros s Hs. rewrite elem_of_concat_fmap. split.
  - intros (i & (j & Hj & _ & Ht)%group_token & Hin). rewrite Ht in Hin. apply list_elem_of_singleton in Hin. lia.
  - intros Hsq. destruct (group_first (Z.to_nat (s - q)) ltac:(lia)) as (i & _ & Hi & _ & Ht).
    exists i. split; [done|]. rewrite Ht. apply list_elem_of_singleton. lia.
Qed.

Lemma equal_ubatch_ok k : (1 < kv_n_stream k)%nat ->
  (forall s s', 0 <= s < Z.of_nat (ba_n_seq_max a) -> 0 <= s' < Z.of_nat (ba_n_seq_max a) ->
     seq_stream k s = seq_stream k s' -> s = s') ->
  ubatch_ok k (group_ubatch a g).
Proof.
  intros Hn Hinj. unfold group_ubatch. assert (0 < length g)%nat as Hg by (destruct g; [done|simpl; lia]).
  assert (length (concat g) = length g * kk)%nat as Hlen by (by apply length_concat_uniform).
  assert (length (unq_of a (concat g)) = length g) as Hu by (rewrite group_unq, length_seqZ; lia).
  assert (slot_dims k (gather a (concat g) (length g) true) = (length g, kk)) as Hd.
  { unfold slot_dims. rewrite (proj2 (Nat.ltb_lt _ _)) by done. cbn [ub_n_seqs_unq ub_n_tokens gather]. rewrite Hu, Hlen.
    f_equal. rewrite Nat.mul_comm. apply Nat.div_mul. lia. }
  assert (Hlt : Forall (fun x => x < n_toks a)%nat (concat g)).
  { apply Forall_forall. intros i (j & _ & ? & _)%group_token. done. }
  assert (forall j x, unq_of a (concat g) !! j = Some x -> x = q + Z.of_nat j /\ (j < length g)%nat) as Hunq.
  { intros j x Hj. rewrite group_unq in Hj. apply lookup_seqZ in Hj. lia. }
  split; rewrite ?Hd; cbn [fst snd]; [split; rewrite ?Hd; cbn [fst snd]|..]; cbn [ub_n_seqs_unq ub_n_tokens ub_seq_id_unq gather].
  - intros _. rewrite Hu, Hlen. split; [lia|]. rewrite Nat.mul_comm. by apply Nat.Div0.mod_mul.
  - done.
  - intros j Hj. exists (q + Z.of_nat j). rewrite group_unq. split; [apply lookup_seqZ; lia|]. split.
    { apply (unq_id_ok (concat g)). rewrite group_unq. apply elem_of_seqZ. lia. }
    intros _. destruct (group_first j Hj) as (i & Hi & _ & _ & Ht). cbn [ub_n_seq_id ub_seq_id gather].
    rewrite !list_lookup_fmap, Hi. cbn [fmap option_fmap option_map]. rewrite Ht. split; [done|]. by exists [q + Z.of_nat j].
  - lia.
  - done.
  - intros s s' x x' Hs Hs' [-> _]%Hunq [-> _]%Hunq Hst. apply Hinj in Hst; [lia|by apply group_id..].
  - intros i Hi. by apply gather_token.
  - intros i Hi. by apply gather_token.
Qed.
End group.
End batch.

(** ** [init_batch] *)

(** A unified cache takes any batch; one with several streams a batch without coupled
    sequences, when different sequences have different streams. *)
Definition servable {E} (k : kv_cache) (a : llama_batch_allocr E) : Prop :=
  kv_n_stream k = 1%nat \/
  ((1 < kv_n_stream k)%nat /\ ba_has_cpl a = false /\
   forall s s', 0 <= s < Z.of_nat (ba_n_seq_max a) -> 0 <= s' < Z.of_nat (ba_n_seq_max a) ->
     seq_stream k s = seq_stream k s' -> s = s').

(** The micro-batches [us] are made of the tokens of the batch, each once. *)
Definition covers {E} (a : llama_batch_allocr E) (us : list (llama_ubatch E)) : Prop :=
  exists idxss, Permutation (concat idxss) (seq 0 (n_toks a)) /\
    Forall2 (fun idxs u => exists n_seqs eq, u = gather a idxs n_seqs eq) idxss us.

Lemma split_covers {E} (a : llama_batch_allocr E) k n_ubatch :
  allocr_ok a -> (forall i, (i < n_toks a)%nat -> 0 <= ptr_at (b_pos (ba_batch a)) i < INT32_MAX) ->
  (0 < ba_n_pos_per_embd a)%nat -> servable k a ->
  exists a' us, split_all (S (n_toks a)) (kv_n_stream k) n_ubatch (balloc_split_reset a) [] = Ok (a', us) /\
    covers a us /\ Forall (ubatch_ok k) us /\ balloc_get_n_used a' = n_toks a /\ balloc_get_n_tokens a' = n_toks a.
Proof.
  intros O Hpos Hnp [H1|(Hn & Hcpl & Hinj)].
  - destruct (split_simple_all a n_ubatch O) as (a' & idxss & Hs & Hc & Hsz & Hu & _ & Ht).
    rewrite H1. eexists a', _. split; [exact Hs|]. split_and!; [..|done|done].
    + exists idxss. split; [by rewrite Hc|]. apply Forall2_fmap_r, Forall_Forall2_diag, Forall_forall. intros l _. by eexists _, _.
    + apply Forall_fmap, Forall_forall. intros l Hl. pose proof Hl as [j Hj]%list_elem_of_lookup.
      destruct (Hsz j l Hj) as [Hl' _]. apply simple_ubatch_ok; try done; [by intros ->; simpl in Hl'; lia|].
      apply Forall_forall. intros x Hx. assert (x ∈ seq 0 (n_toks a)) as Hin; [|apply elem_of_seq in Hin; lia].
      rewrite <- Hc. apply elem_of_concat. by exists l.
  - destruct (split_equal_all a (kv_n_stream k) n_ubatch O Hcpl) as (a' & gs & Hs & Hc & _ & Hsh & Hu & _ & Ht); [lia|].
    exists a'. eexists. split; [exact Hs|]. split_and!; [..|done|done].
    + exists (@concat nat <$> gs). split.
      * rewrite <- Hc. clear. induction gs as [|g gs IH]; [done|]. cbn [fmap list_fmap concat].
        rewrite concat_app. by f_equiv.
      * apply Forall2_fmap_l, Forall2_fmap_r, Forall_Forall2_diag, Forall_forall. intros g _. by eexists _, _.
    + apply Forall_fmap. eapply Forall_impl; [exact Hsh|]. intros g (Hne & _ & (kk & Hkk & Hrun & _) & q & Hids).
      by apply (equal_ubatch_ok a O Hpos Hnp g kk q).
Qed.

(** C10: [init_batch] on an accepted batch that the cache can serve, without a sliding window,
    never stops. It splits the batch into micro-batches that together hold every token exactly
    once, and leaves the cells, the pool and the pending copies of the cache unchanged. When
    it succeeds, the slots it returns fit the micro-batches applied in that order; when it
    fails, some prefix fits and, in the cache that results from placing exactly this prefix,
    the next micro-batch has too few usable cells. *)
Theorem init_batch_ok {E} sz k (a : llama_batch_allocr E) n_ubatch
    (K : kv_ok sz k) (Hsz : (0 < sz)%nat) (Hswa : kv_swa_type k = LLAMA_SWA_TYPE_NONE) (Hb : pos_bounded k)
    (O : allocr_ok a) (Hpos : forall i, (i < n_toks a)%nat -> 0 <= ptr_at (b_pos (ba_batch a)) i < INT32_MAX)
    (Hnp : (0 < ba_n_pos_per_embd a)%nat) (Hne : (0 < n_toks a)%nat) (Hsv : servable k a) :
  exists k' a' r us, cache_init_batch k a n_ubatch = Ok (k', a', r) /\ covers a us /\
    kv_cells k' = kv_cells k /\ kv_pool k' = kv_pool k /\ kv_sc_info k' = kv_sc_info k /\
    match r with
    | Some (sis, us') => us' = us /\ fits sz k' us sis
    | None => stuck sz k us
    end.
Proof.
  destruct (split_covers a k n_ubatch O Hpos Hnp Hsv) as (a' & us & Hs & Hcov & HU & Hused & Htok).
  assert (us <> []) as Hus.
  { intros ->. destruct Hcov as (idxss & HP & HF). inversion HF; subst. apply Permutation_nil in HP.
    apply (f_equal length) in HP. rewrite length_seq in HP. simpl in HP. lia. }
  destruct (proj1 (sat_exists _ _) (sat_prepare sz k us K Hsz Hswa Hb HU Hus))
    as ([k' r] & Hprep & _ & [_ Hc] & Hp & _ & Hi & _ & Hr). cbn [fst snd] in *.
  exists k', a', (match r with None | Some [] => None | Some l => Some (l, us) end), us.
  split_and!; [|done|done|done|done|].
  - unfold cache_init_batch. change (balloc_get_n_tokens (balloc_split_reset a)) with (n_toks a). rewrite Hs.
    cbn [mbind res_bind]. rewrite Hused, Htok, Nat.ltb_irrefl, Hprep. cbn [mbind res_bind]. by destruct r as [[|si sis]|].
  - destruct r as [[|si sis]|]; [|done|done]. inversion Hr; subst; done.
Qed.

Lemma demo_servable : servable demo_cache demo_alloc.
Proof. left. vm_compute. reflexivity. Qed.

Lemma init_batch_ok_witness :
  exists k' a' r us, cache_init_batch demo_cache demo_alloc 1 = Ok (k', a', r) /\ covers demo_alloc us /\
    kv_cells k' = kv_cells demo_cache.
Proof.
  destruct (init_batch_ok 4 demo_cache demo_alloc 1) as (k' & a' & r & us & H1 & H2 & H3 & _).
  - exact demo_cache_ok.
  - lia.
  - vm_compute. reflexivity.
  - exact demo_bounded.
  - exact demo_alloc_ok.
  - assert (Hp : b_pos (ba_batch demo_alloc) = Some [0; 0; 1]) by (vm_compute; reflexivity).
    assert (Hn : n_toks demo_alloc = 3%nat) by (vm_compute; reflexivity).
    rewrite Hp, Hn. intros i Hi. destruct i as [|[|[|i]]]; [vm_compute; split; [discriminate|reflexivity]..|lia].
  - apply Nat.ltb_lt. vm_compute. reflexivity.
  - apply Nat.ltb_lt. vm_compute. reflexivity.
  - exact demo_servable.
  - exists k', a', r, us. split; [exact H1|]. split; [exact H2|exact H3].
Defined.
