(* ===== verification/KvViews.v ===== *)
(** * What a sequence sees in an attention cache when a micro-batch is applied

    The positions of a sequence ([kv_positions]) after [apply_ubatch] and after a step of the
    memory context, with and without a sliding window; then [prepare] with a
    sliding window. *)

From S2P Require Import Prelude KvCells KvCellsInv KvCellsSpec Batch Pages PagesTheory KvCache KvCacheTheory.
From S2P Require Import KvCacheProps KvSlots KvPlace KvPrepare KvContext.

Section views.
Context {E : Type}.
Implicit Types u : llama_ubatch E.

(** Token [i] gives sequence [q] the position [p]. *)
Definition gives u (q p : Z) : Prop := exists i, (i < ub_n_tokens u)%nat /\ q ∈ token_ids u i /\ token_pos u i = p.

(** Every token lies in the stream of its sequences; with one stream it always does. *)
Definition streams_match (k : kv_cache) u (si : slot_info) (n : nat) : Prop :=
  forall s ii strm idx q, targets si s ii strm idx -> q ∈ token_ids u (s * n + ii)%nat -> seq_stream k q = strm.

Lemma token_id_ok u i q : token_ok u i -> q ∈ token_ids u i -> id_ok q.
Proof.
  intros [_ _ (ids & Hids & _ & _ & Hok & _)]. unfold token_ids. rewrite Hids. cbn. rewrite Forall_forall in Hok. apply Hok.
Qed.

Lemma one_stream sz k q : kv_ok sz k -> kv_n_stream k = 1%nat -> id_ok q -> seq_stream k q = 0%nat.
Proof. intros K H1 Hq. destruct (stream_of_ok sz k q K Hq) as [_ Hs]. lia. Qed.

Lemma streams_match_one sz k u si n : kv_ok sz k -> kv_n_stream k = 1%nat -> place_ok k u si n -> streams_match k u si n.
Proof.
  intros K H1 P s ii strm idx q T Hq. destruct (target_pos k u si n s ii strm idx P T) as [_ Hlt].
  rewrite (one_stream sz k q K H1) by (by apply (token_id_ok u (s * n + ii) q (po_token _ _ _ _ P _ Hlt))).
  destruct T as [Hs _]. apply (po_strm _ _ _ _ P) in Hs. lia.
Qed.

(** After a placement a sequence sees what it saw before and the new tokens ... *)
Lemma placed_only k u si n k' q p : place_ok k u si n -> kv_static k' = kv_static k -> placed k u si n (ub_n_tokens u) k' ->
  p ∈ kv_positions k' q -> p ∈ kv_positions k q \/ gives u q p.
Proof.
  intros P Hst [A B] Hp. unfold kv_positions in *. rewrite (static_stream k k') in Hp by done.
  apply elem_of_seq_positions in Hp as (idx & a & Ha & Hq & <-). destruct (target_dec si (seq_stream k q) idx) as [(t & ii & T)|Hno].
  - right. destruct (po_cell _ _ _ _ P t ii _ idx T) as (a0 & Ha0 & _). destruct (target_pos k u si n t ii _ idx P T) as [H1 H2].
    rewrite (A t ii _ idx a0 H2 H1 T Ha0) in Ha. injection Ha as <-. cbn in *. apply elem_of_list_to_set in Hq. by exists (t * n + ii)%nat.
  - left. rewrite B in Ha by auto. apply elem_of_seq_positions. by exists idx, a.
Qed.

(** ... and nothing is lost when the cells were empty. *)
Lemma placed_positions sz k u si n k' q p : kv_ok sz k -> place_ok k u si n -> kv_static k' = kv_static k ->
  placed k u si n (ub_n_tokens u) k' -> empty_targets k si -> streams_match k u si n ->
  p ∈ kv_positions k' q <-> p ∈ kv_positions k q \/ gives u q p.
Proof.
  intros K P Hst Pl He M. split; [by apply (placed_only k u si n)|]. destruct Pl as [A B]. unfold kv_positions.
  rewrite (static_stream k k') by done. intros [Hp|(i & Hi & Hq & <-)].
  - apply elem_of_seq_positions in Hp as (idx & a & Ha & Hq & <-). apply elem_of_seq_positions. exists idx, a. split; [|done].
    rewrite B; [done|]. intros s ii _ _ T. pose proof (He s ii _ idx a T Ha) as Hemp.
    destruct T as [Hs _]. pose proof (po_strm _ _ _ _ P _ _ Hs) as Hlt. destruct (kv_stream sz k _ K Hlt) as (c & _ & _ & _ & W & _ & _ & Ec & _).
    rewrite Ec in Ha. destruct (abs_lookup_ok c idx a W Ha) as [(_ & Hm & _) _]. destruct (Hm Hemp). set_solver.
  - pose proof (po_tokens _ _ _ _ P) as Ht. pose proof (po_n _ _ _ _ P) as Hn.
    pose proof (Nat.div_mod_eq i n) as Hdm. pose proof (Nat.mod_upper_bound i n ltac:(lia)) as Hmod.
    assert (Hdiv : (i / n < length (si_strm si))%nat) by (apply Nat.Div0.div_lt_upper_bound; lia).
    destruct (lookup_lt_is_Some_2 (si_strm si) (i / n) Hdiv) as [strm Hs].
    destruct (lookup_lt_is_Some_2 (si_idxs si) (i / n)) as [idxs Hx]; [by rewrite (po_len _ _ _ _ P)|].
    destruct (po_idxs _ _ _ _ P _ _ Hx) as [Hl _]. destruct (lookup_lt_is_Some_2 idxs (i mod n)) as [idx Hidx]; [lia|].
    assert (T : targets si (i / n) (i mod n) strm idx) by (split; [done|by exists idxs]).
    destruct (po_cell _ _ _ _ P _ _ _ _ T) as (a0 & Ha0 & _).
    assert (Hi' : (i / n * n + i mod n)%nat = i) by lia.
    pose proof (A (i / n)%nat (i mod n)%nat strm idx a0) as Ha. rewrite Hi' in Ha. specialize (Ha Hi Hmod T Ha0).
    rewrite (M _ _ _ _ q T) by (by rewrite Hi'). apply elem_of_seq_positions. exists idx, (token_cell u i a0).
    split; [done|]. split; [by apply elem_of_list_to_set|done].
Qed.

(** ** A step of the context *)

Section rest.
Context {F : Type} (flt : F -> F -> bool) (fmax : F) (score : kv_cache -> nat -> nat -> F).

(** After the placement only the pool changes. *)
Lemma sat_context_rest sz k k1 u si :
  kv_ok sz k -> kv_ok sz k1 -> kv_static k1 = kv_static k -> place_ok k u si (snd (slot_dims k u)) -> pow2 (Z.max (Z.of_nat (kv_n_pad k)) 256) ->
  cache_apply_ubatch k si u = Ok k1 ->
  sat (context_apply flt fmax score k si u) (fun r => kv_ok sz r.1 /\ kv_static r.1 = kv_static k /\ kv_cells r.1 = kv_cells k1).
Proof.
  intros K K1 Hst P Hpad Ha. unfold context_apply. rewrite Ha. cbn [mbind res_bind]. pose proof (static_n k k1 Hst) as Hns.
  eapply sat_step; [apply (sat_get_n_kv sz k1 si K1)|].
  { unfold kv_static in Hst. by assert (kv_n_pad k1 = kv_n_pad k) as -> by congruence. }
  { intros s strm Hs. rewrite Hns. by eapply (po_strm _ _ _ _ P). }
  intros n_kv _. destruct (kv_pg_enabled k1) eqn:Eg; cbn [mbind res_bind]; [|by apply sat_ok].
  pose proof (ko_pool _ _ K1 Eg) as O. pose proof (place_sinfo sz k u si _ (pg_block_size (kv_pool k1)) K P (pool_bs _ _ _ O)) as Hsi.
  rewrite <- Hns in Hsi. apply sat_bind, sat_bind.
  eapply sat_mono; [apply (sat_pg_alloc flt fmax (score k1) (kv_budget k1) _ _ _ _ O Hsi)|].
  intros P' (O' & Ebs & _ & _). apply sat_ok, sat_ok. cbn. split_and!; [|done|done]. apply kv_ok_pool; [done|done|]. by rewrite Ebs.
Qed.

Lemma same_positions k k' q : kv_static k' = kv_static k -> kv_cells k' = kv_cells k -> kv_positions k' q = kv_positions k q.
Proof. intros Hst Hc. unfold kv_positions, stream_cells. by rewrite (static_stream k k'), Hc. Qed.

(** Without a sliding window: exactly the new tokens. *)
Lemma sat_context_views sz k u si :
  kv_ok sz k -> ubatch_ok k u -> slot_ok sz k u si -> kv_swa_type k = LLAMA_SWA_TYPE_NONE -> pos_bounded k ->
  pow2 (Z.max (Z.of_nat (kv_n_pad k)) 256) -> streams_match k u si (snd (slot_dims k u)) ->
  sat (context_apply flt fmax score k si u) (fun r => kv_ok sz r.1 /\ kv_static r.1 = kv_static k /\ pos_bounded r.1 /\
    forall q p, p ∈ kv_positions r.1 q <-> p ∈ kv_positions k q \/ gives u q p).
Proof.
  intros K U S Hn Hb Hpad M. pose proof (swa_none k Hn Hb) as SW.
  pose proof (slot_place sz k u si K U S SW) as P. pose proof (slot_empty sz k u si K U S Hn SW) as He.
  destruct (proj1 (sat_exists _ _) (sat_placement sz k u si K P He)) as (k1 & Ha & Pl).
  eapply sat_mono; [by apply (sat_context_rest sz k k1 u si K (pl_ok _ _ _ _ _ Pl) (pl_static _ _ _ _ _ Pl) P Hpad Ha)|].
  intros [k' n_kv] (K' & Hst & Hc). cbn [fst snd] in *. split_and!; [done|done| |].
  - pose proof (placement_bounded sz k u si k1 P U Pl Hb) as Hb1. intros s a Hs Hin. apply (Hb1 s a).
    + rewrite (static_n k k1) by apply Pl. by rewrite <- (static_n k k').
    + unfold stream_cells in *. by rewrite <- Hc.
  - intros q p. rewrite (same_positions k1 k' q) by (try done; rewrite Hst; symmetry; apply Pl).
    apply (placed_positions sz k u si (snd (slot_dims k u))); try done; apply Pl.
Qed.
End rest.

(** ** With a sliding window: fewer cells in use *)

(** The cell has lost sequences, or everything. *)
Definition cle (a' a : acell) : Prop :=
  (forall q, q ∈ a_seq a' -> q ∈ a_seq a /\ a_pos a' = a_pos a) /\
  (a_shift a' = a_shift a \/ a_shift a' = 0) /\ (a_pos a' = a_pos a \/ a_pos a' = -1).

#[export] Instance cle_preorder : PreOrder cle.
Proof.
  split.
  - intros a. split_and!; [done|by left|by left].
  - intros a b c (H1 & H2 & H3) (H4 & H5 & H6). split_and!; [|destruct H2, H5; lia..].
    intros q Hq. destruct (H1 q Hq) as [Hb Hp]. destruct (H4 q Hb) as [Hc Hp']. split; [done|congruence].
Qed.

(** Every cell of [k'] is one of [k] that has lost sequences, or nothing. *)
Definition fewer (k k' : kv_cache) : Prop :=
  kv_static k' = kv_static k /\
  forall s i a', stream_cells k' s !! i = Some a' -> exists a, stream_cells k s !! i = Some a /\ cle a' a.

#[export] Instance fewer_preorder : PreOrder fewer.
Proof.
  split.
  - intros k. split; [done|]. intros s i a Ha. by exists a.
  - intros k1 k2 k3 [S12 H12] [S23 H23]. split; [congruence|]. intros s i a3 H3. destruct (H23 s i a3 H3) as (a2 & H2 & L2).
    destruct (H12 s i a2 H2) as (a1 & H1 & L1). exists a1. split; [done|]. by etrans.
Qed.

Lemma fewer_positions k k' q p : fewer k k' -> p ∈ kv_positions k' q -> p ∈ kv_positions k q.
Proof.
  intros [Hst H] (i & a' & Ha' & Hq & <-)%elem_of_seq_positions. rewrite (static_stream k k') in Ha' by done.
  destruct (H _ _ _ Ha') as (a & Ha & Hle & _). destruct (Hle q Hq) as [Hqa ->]. apply elem_of_seq_positions. by exists i, a.
Qed.

Lemma same_fewer k k' : kv_static k' = kv_static k -> kv_cells k' = kv_cells k -> fewer k k'.
Proof. intros Hst Hc. split; [done|]. intros s i a Ha. unfold stream_cells in *. rewrite Hc in Ha. by exists a. Qed.

Lemma stream_map_fewer f k s k' : (forall a, cle (f a) a) -> stream_map f k s k' -> fewer k k'.
Proof.
  intros Hf (Hst & _ & _ & Hc & Ho). split; [done|]. intros s' i a' Ha'. destruct (decide (s' = s)) as [->|Hne].
  - rewrite Hc, list_lookup_fmap in Ha'. destruct (stream_cells k s !! i) as [a|] eqn:Ha; [|done]. injection Ha' as <-. by exists a.
  - unfold stream_cells in *. destruct (Ho s' Hne) as [E' _]. rewrite E' in Ha'. by exists a'.
Qed.

Lemma rm_cell_le q p0 p1 a : cle (rm_cell q p0 p1 a) a.
Proof.
  unfold rm_cell, acell_seq_rm. destruct (hit q p0 p1 a); [|reflexivity]. case_decide; split_and!; cbn; try (by left); try (by right); set_solver.
Qed.

(** A purge only removes. *)
Lemma sat_purge_fewer sz k mx : kv_ok sz k -> mx_ok mx ->
  sat (mfor (purge_step mx) all_seq_ids k) (fun k' => kv_ok sz k' /\ fewer k k').
Proof.
  intros K [Hl Hmx]. apply (sat_mfor_inv _ (fun k' => kv_ok sz k' /\ fewer k k')); [by split|].
  intros q k' Hq (K' & Hf). apply elem_of_all_seq_ids in Hq. unfold purge_step, vec_getZ.
  pose proof Hq as [Hq0 Hq1]. rewrite (proj2 (Z.leb_le 0 q) Hq0).
  destruct (lookup_lt_is_Some_2 mx (Z.to_nat q)) as [m Hm]; [unfold MAX_SEQ in Hl; lia|].
  rewrite (proj2 (vec_get_ok _ _ _) Hm). cbn [mbind res_bind].
  apply (Forall_lookup_1 _ _ _ _ Hmx) in Hm. destruct (Z.eqb_spec m (-1)); [by apply sat_ok|].
  rewrite assert_ok by (rewrite (ko_sts _ _ K'); unfold MAX_SEQ; apply Z.ltb_lt; lia). cbn [mbind res_bind].
  destruct (stream_of_ok sz k' q K' Hq) as [-> Hs]. cbn [mbind res_bind]. destruct (kv_stream sz k' _ K' Hs) as (c & h & Hc & _ & W & _).
  rewrite (proj2 (vec_get_ok _ _ _) Hc). cbn [mbind res_bind]. rewrite cells_seq_pos_min_ok by done. cbn [mbind res_bind].
  destruct (_ <=? m); [|by apply sat_ok]. rewrite i32_ok by (unfold int32, INT32_MIN in *; lia). cbn [mbind res_bind].
  eapply sat_mono; [by apply (sat_seq_rm sz k' q)|]. intros k2 (K2 & Hm2 & _). split; [done|]. etrans; [exact Hf|].
  eapply stream_map_fewer; [|exact Hm2]. intros a. apply rm_cell_le.
Qed.

(** [apply_ubatch] gives a sequence no position but those of the new tokens. *)
Lemma sat_apply_views sz k u si n : kv_ok sz k -> place_ok k u si n ->
  sat (cache_apply_ubatch k si u) (fun k' => kv_ok sz k' /\ kv_static k' = kv_static k /\
    forall q p, p ∈ kv_positions k' q -> p ∈ kv_positions k q \/ gives u q p).
Proof.
  intros K P. unfold cache_apply_ubatch. rewrite (slot_size_ok k u si n P). cbn [mbind res_bind].
  rewrite assert_ok by (apply Nat.eqb_eq, P). cbn [mbind res_bind].
  eapply sat_step; [apply (sat_place_all sz k u si n K P)|].
  intros [k1 mx] (K1 & F1 & Pl & Hmx & _). cbn [fst snd] in *. destruct F1 as (Hst1 & _).
  eapply sat_step; [by apply (sat_purge_fewer sz)|]. intros k2 (K2 & Hf2). pose proof Hf2 as [Hst2 _].
  eapply sat_mono; [apply (sat_move_heads sz k2 si K2)|].
  - apply P.
  - intros. rewrite (static_n k k2) by congruence. by eapply (po_strm _ _ _ _ P).
  - by apply (slot_idxs_ne k u si n).
  - intros s ii strm idx. by apply (target_bound sz k u si n).
  - intros k3 (K3 & Hst3 & Hc3 & _). split_and!; [done|congruence|]. intros q p. rewrite (same_positions k2 k3) by done.
    intros Hp%(fewer_positions k1 k2); [|done]. rewrite <- (po_tokens _ _ _ _ P) in Pl. by apply (placed_only k u si n k1).
Qed.

Lemma sat_context_swa {F} (flt : F -> F -> bool) fmax score sz k u si :
  kv_ok sz k -> ubatch_ok k u -> slot_ok sz k u si -> (forall s, (s < kv_n_stream k)%nat -> swa_ok k (stream_cells k s)) ->
  pow2 (Z.max (Z.of_nat (kv_n_pad k)) 256) ->
  sat (context_apply flt fmax score k si u) (fun r => kv_ok sz r.1 /\ kv_static r.1 = kv_static k /\
    forall q p, p ∈ kv_positions r.1 q -> p ∈ kv_positions k q \/ gives u q p).
Proof.
  intros K U S SW Hpad. pose proof (slot_place sz k u si K U S SW) as P.
  destruct (proj1 (sat_exists _ _) (sat_apply_views sz k u si _ K P)) as (k1 & Ha & K1 & Hst1 & Hv).
  eapply sat_mono; [by apply (sat_context_rest flt fmax score sz k k1 u si K K1 Hst1 P Hpad Ha)|].
  intros [k' n_kv] (K' & Hst & Hc). cbn [fst snd] in *. split_and!; [done|done|]. intros q p.
  rewrite (same_positions k1 k') by congruence. apply Hv.
Qed.
End views.

(** * [prepare] with a sliding window

    Under a sliding window the trial run of [prepare] overwrites cells in use and purges
    positions. It never stops, and the cells it targeted come back; the purged ones do not. *)

Lemma same_length {A B} (l : list A) (l' : list B) : (forall i, is_Some (l !! i) <-> is_Some (l' !! i)) -> length l = length l'.
Proof.
  intros H. destruct (Nat.lt_trichotomy (length l) (length l')) as [Hlt|[?|Hlt]]; [|done|].
  - pose proof (proj2 (H (length l)) (lookup_lt_is_Some_2 _ _ Hlt)) as ?%lookup_lt_is_Some_1. lia.
  - pose proof (proj1 (H (length l')) (lookup_lt_is_Some_2 _ _ Hlt)) as ?%lookup_lt_is_Some_1. lia.
Qed.

Section swa.
Context {E : Type}.
Implicit Types u : llama_ubatch E.

(** ** The caches a trial run goes through *)

(** No shift is waiting to be applied. *)
Definition no_pending (k : kv_cache) : Prop :=
  forall s a, (s < kv_n_stream k)%nat -> a ∈ stream_cells k s -> a_shift a = 0.

Record trial (sz : nat) (k : kv_cache) : Prop := {
  tr_ok    : kv_ok sz k;
  tr_pos   : pos_bounded k;
  tr_swa   : kv_swa_type k = LLAMA_SWA_TYPE_CHUNKED -> kv_n_swa k <> 0;
  tr_shift : no_pending k
}.

Lemma trial_swa sz k s : trial sz k -> (s < kv_n_stream k)%nat -> swa_ok k (stream_cells k s).
Proof. intros T Hs. split; [apply T|]. intros a Ha. by apply (tr_pos _ _ T s). Qed.

(** The cells of [k'], all of which are bounded and still, belong to a trial. *)
Lemma trial_cells sz k k' : kv_ok sz k' -> kv_static k' = kv_static k -> trial sz k ->
  (forall s i a, (s < kv_n_stream k)%nat -> stream_cells k' s !! i = Some a -> a_pos a < INT32_MAX /\ a_shift a = 0) -> trial sz k'.
Proof.
  intros K' Hst T H. pose proof (static_n k k' Hst) as Hn. split; [done| | |].
  - intros s a Hs [i Hi]%list_elem_of_lookup. apply (H s i); [by rewrite <- Hn|done].
  - unfold kv_static in Hst. injection Hst as _ _ _ -> -> _ _ _. apply T.
  - intros s a Hs [i Hi]%list_elem_of_lookup. apply (H s i); [by rewrite <- Hn|done].
Qed.

Lemma cle_trial sz k s i a a' : trial sz k -> (s < kv_n_stream k)%nat -> stream_cells k s !! i = Some a -> cle a' a ->
  a_pos a' < INT32_MAX /\ a_shift a' = 0.
Proof.
  intros T Hs Ha%list_elem_of_lookup_2 (_ & Hsh & Hp). pose proof (tr_pos _ _ T s a Hs Ha). pose proof (tr_shift _ _ T s a Hs Ha).
  unfold INT32_MAX in *. lia.
Qed.

Lemma trial_fewer sz k k' : kv_ok sz k' -> trial sz k -> fewer k k' -> trial sz k'.
Proof.
  intros K' T [Hst H]. apply (trial_cells sz k); [done|done|done|]. intros s i a' Hs Ha'.
  destruct (H s i a' Ha') as (a & Ha & L). by apply (cle_trial sz k s i a).
Qed.

(** ** One placement of the trial run *)

(** Outside the slot, cells have only lost sequences. *)
Definition outside (si : slot_info) (k k' : kv_cache) : Prop :=
  kv_static k' = kv_static k /\
  forall strm idx a', (forall s ii, ~ targets si s ii strm idx) -> stream_cells k' strm !! idx = Some a' ->
    exists a, stream_cells k strm !! idx = Some a /\ cle a' a.

Lemma outside_fewer si k k1 k2 : outside si k k1 -> fewer k1 k2 -> outside si k k2.
Proof.
  intros [S1 H1] [S2 H2]. split; [congruence|]. intros strm idx a2 Hno Ha2. destruct (H2 _ _ _ Ha2) as (a1 & Ha1 & L1).
  destruct (H1 _ _ _ Hno Ha1) as (a & Ha & L). exists a. split; [done|]. by etrans.
Qed.

Lemma sat_apply_trial sz k u si : trial sz k -> ubatch_ok k u -> slot_ok sz k u si ->
  sat (cache_apply_ubatch k si u) (fun k' => trial sz k' /\ outside si k k').
Proof.
  intros T U S. pose proof (tr_ok _ _ T) as K. pose proof (slot_place sz k u si K U S (fun s => trial_swa sz k s T)) as P.
  set (n := snd (slot_dims k u)) in *. unfold cache_apply_ubatch. rewrite (slot_size_ok k u si n P). cbn [mbind res_bind].
  rewrite assert_ok by (apply Nat.eqb_eq, P). cbn [mbind res_bind].
  eapply sat_step; [apply (sat_place_all sz k u si n K P)|].
  intros [k1 mx] (K1 & F1 & Pl & Hmx & _). cbn [fst snd] in *. destruct F1 as (Hst1 & _). rewrite <- (po_tokens _ _ _ _ P) in Pl.
  destruct Pl as [A B]. assert (O1 : outside si k k1).
  { split; [done|]. intros strm idx a' Hno Ha'. rewrite B in Ha' by auto. by exists a'. }
  assert (T1 : trial sz k1).
  { apply (trial_cells sz k); [done|done|done|]. intros s i a' Hs Ha'. destruct (target_dec si s i) as [(t & ii & Tg)|Hno].
    - destruct (po_cell _ _ _ _ P t ii s i Tg) as (a & Ha & _). destruct (target_pos k u si n t ii s i P Tg) as [H1 H2].
      rewrite (A t ii s i a H2 H1 Tg Ha) in Ha'. injection Ha' as <-. split; [by apply U|done].
    - rewrite B in Ha' by auto. by apply (cle_trial sz k s i a'). }
  eapply sat_step; [by apply (sat_purge_fewer sz)|]. intros k2 (K2 & Hf2). pose proof Hf2 as [Hst2 _].
  eapply sat_mono; [apply (sat_move_heads sz k2 si K2)|].
  - apply P.
  - intros. rewrite (static_n k k2) by congruence. by eapply (po_strm _ _ _ _ P).
  - by apply (slot_idxs_ne k u si n).
  - intros s ii strm idx. by apply (target_bound sz k u si n).
  - intros k3 (K3 & Hst3 & Hc3 & _). pose proof (same_fewer k2 k3 Hst3 Hc3) as Hf3.
    assert (Hf : fewer k1 k3) by (by etrans). split; [by apply (trial_fewer sz k1)|by apply (outside_fewer si k k1)].
Qed.

(** ** Undoing it *)

(** The state after the first [i] streams of the slot are restored. *)
Definition restored (sz : nat) (k k2 : kv_cache) (strms : list nat) (i : nat) (k' : kv_cache) : Prop :=
  kv_ok sz k' /\ kv_static k' = kv_static k /\
  (forall st, st ∉ take i strms -> kv_cells k' !! st = kv_cells k2 !! st) /\
  forall st idx a', st ∈ take i strms -> stream_cells k' st !! idx = Some a' -> exists a, stream_cells k st !! idx = Some a /\ cle a' a.

Lemma sat_restore_step sz k u si n k2 saved s k' :
  trial sz k -> place_ok k u si n -> save_cells k si = Ok saved -> trial sz k2 -> outside si k k2 ->
  (s < length (si_strm si))%nat -> restored sz k k2 (si_strm si) s k' ->
  sat (strm ← vec_get (si_strm si) s; c ← vec_get (kv_cells k') strm; idxs ← vec_get (si_idxs si) s;
       sv ← vec_get saved s; c ← cells_set c idxs sv; k' ← put_cells k' strm c; h ← vec_get (kv_heads k) s; put_head k' strm h)
    (restored sz k k2 (si_strm si) (s + 1)).
Proof.
  intros T P Hsv T2 [Hst2 Hout] Hs (K' & Hst' & Hnew & Hold). pose proof (tr_ok _ _ T) as K. pose proof (tr_ok _ _ T2) as K2.
  destruct (save_cells_still sz k u si n K P) as (saved' & Hs' & Hsc).
  { intros t ii st idx a (Hst & _) Ha. apply (tr_shift _ _ T st); [by eapply (po_strm _ _ _ _ P)|by eapply list_elem_of_lookup_2]. }
  assert (saved' = saved) as -> by congruence. clear Hs'.
  destruct (slot_stream sz k u si n s K P Hs) as (strm & idxs & c & Q1 & Q2 & Q3 & W & Ec & HT).
  destruct (Hsc s strm idxs c Q1 Q2 Q3) as (sc & L1 & L2). pose proof (po_strm _ _ _ _ P s strm Q1) as Hst.
  assert (Hfresh : strm ∉ take s (si_strm si)).
  { intros (j & Hj & Hlt)%elem_of_take. pose proof (NoDup_lookup _ j s strm (po_nd _ _ _ _ P) Hj Q1). lia. }
  destruct (kv_stream sz k2 strm K2) as (c2 & _ & Q4 & _ & W2 & Hsz2 & Ht2 & Ec2 & _); [by rewrite (static_n k k2)|].
  destruct (kv_stream sz k strm K Hst) as (c' & _ & Hc' & _ & _ & Hsz & Ht & _). assert (c' = c) as -> by congruence. clear Hc'.
  destruct (lookup_lt_is_Some_2 (kv_heads k) s) as [h Hh].
  { rewrite (ko_heads _ _ K). eapply Nat.lt_le_trans; [exact Hs|]. rewrite <- (length_seq (kv_n_stream k) 0).
    apply submseteq_length, NoDup_submseteq; [apply P|]. intros x [j Hj]%list_elem_of_lookup. apply elem_of_seq.
    pose proof (po_strm _ _ _ _ P j x Hj). lia. }
  assert (Hin : forall ii idx, idxs !! ii = Some idx -> exists a, abs_cells c !! idx = Some a /\ a_shift a = 0).
  { intros ii idx Hi. destruct (po_cell _ _ _ _ P s ii strm idx (HT ii idx Hi)) as (a & Ha & _). exists a. rewrite <- Ec.
    split; [done|]. apply (tr_shift _ _ T strm); [done|]. by eapply list_elem_of_lookup_2. }
  rewrite (proj2 (vec_get_ok _ _ _) Q1), (proj2 (vec_get_ok _ _ _) Q2). cbn [mbind res_bind].
  rewrite <- (Hnew strm Hfresh) in Q4. rewrite (proj2 (vec_get_ok _ _ _) Q4), (proj2 (vec_get_ok _ _ _) L1). cbn [mbind res_bind].
  assert (Hcp : sat (cells_cp c idxs) (fun r => lens r (length idxs) /\
    forall j idx, idxs !! j = Some idx -> abs_cells r !! j = abs_cells c !! idx)).
  { apply sat_cells_cp. intros idx [ii Hi]%list_elem_of_lookup. by apply (Hin ii). }
  rewrite L2 in Hcp. cbn in Hcp. destruct Hcp as [(Hl & _) Hcp].
  set (g := fun i => default (mk_acell (-1) ext_reset 0 ∅) (abs_cells c !! i)).
  eapply sat_step; [apply (sat_cells_set c2 idxs sc g W2 Hl)|].
  { intros j idx Hj. destruct (Hin j idx Hj) as (a & Ha & Hsh). rewrite (Hcp j idx Hj). unfold g. rewrite Ha. cbn.
    split_and!; [done|by apply (abs_lookup_ok c idx a W Ha)|done|].
    destruct (lookup_lt_is_Some_2 (abs_cells c2) idx) as [b Hb].
    { apply lookup_lt_Some in Ha. rewrite <- cells_size_abs in * by done. lia. }
    exists b. split; [done|]. apply (tr_shift _ _ T2 strm); [by rewrite (static_n k k2)|]. rewrite Ec2. by eapply list_elem_of_lookup_2. }
  intros c3 (W3 & _ & Hc3).
  assert (Hcell : forall i a', abs_cells c3 !! i = Some a' -> tight a' /\ exists a, abs_cells c !! i = Some a /\ cle a' a).
  { intros i a'. rewrite Hc3. case_decide as Hi.
    - intros [= <-]. apply list_elem_of_lookup in Hi as [ii Hi]. destruct (Hin ii i Hi) as (a & Ha & _). unfold g. rewrite Ha. cbn.
      split; [|by exists a]. by eapply (Forall_lookup_1 tight (abs_cells c)).
    - intros Ha'. split; [by eapply (Forall_lookup_1 tight (abs_cells c2))|]. rewrite <- Ec. apply Hout; [|by rewrite Ec2].
      intros t ii (T1 & l & T3 & T4). assert (t = s) as -> by by apply (NoDup_lookup (si_strm si) t s strm (po_nd _ _ _ _ P)).
      simplify_eq. apply Hi. by eapply list_elem_of_lookup_2. }
  rewrite (proj2 (vec_get_ok _ _ _) Hh). cbn [mbind res_bind].
  assert (Hlen : cells_size c3 = sz).
  { rewrite cells_size_abs, <- Hsz2, cells_size_abs by done. apply same_length. intros i. rewrite Hc3. case_decide as Hi; [|done].
    apply list_elem_of_lookup in Hi as [ii Hi]. destruct (Hin ii i Hi) as (a & Ha%lookup_lt_Some & _).
    split; [|done]. intros _. apply lookup_lt_is_Some. rewrite <- cells_size_abs in * by done. lia. }
  assert (Htake : take (s + 1) (si_strm si) = take s (si_strm si) ++ [strm]) by (by rewrite Nat.add_1_r, (take_S_r _ _ strm)).
  rewrite (sat_put sz k' strm c3 h) by (done || by rewrite (static_n k k')). apply sat_ok.
  assert (Hlt : (strm < length (kv_cells k'))%nat) by (by rewrite (ko_len _ _ K'), (static_n k k')).
  split_and!; [|done|..].
  - apply kv_ok_put; [done|done|done| |by eapply (ko_head _ _ K)]. apply Forall_forall. intros a [i Hi]%list_elem_of_lookup. by apply (Hcell i).
  - intros st. rewrite Htake. intros Hno. cbn. rewrite list_lookup_insert_ne by set_solver. apply Hnew. set_solver.
  - intros st idx a'. rewrite Htake, stream_cells_put by done. case_decide as Hd; [|intros Hin'; apply Hold; set_solver].
    subst st. rewrite Ec. intros _ Ha'. by apply (Hcell idx).
Qed.

Lemma sat_restore_trial sz k u si n k2 saved :
  trial sz k -> place_ok k u si n -> save_cells k si = Ok saved -> trial sz k2 -> outside si k k2 ->
  sat (restore_state k2 (mk_prep si (kv_heads k) saved)) (fun k3 => trial sz k3 /\ fewer k k3).
Proof.
  intros T P Hsv T2 O. unfold restore_state. cbn [ps_sinfo ps_heads ps_cells].
  eapply sat_mono; [apply (sat_for _ (restored sz k k2 (si_strm si)))|].
  - split_and!; [apply T2|apply O|done|]. intros st idx a' H. by apply elem_of_nil in H.
  - intros s k' Hs R. by apply (sat_restore_step sz k u si n k2 saved s k').
  - intros k3 (K3 & Hst & Hnew & Hold). rewrite take_ge in Hnew, Hold by done.
    assert (Hf : fewer k k3).
    { split; [done|]. intros st idx a' Ha'. destruct (decide (st ∈ si_strm si)) as [Hin|Hno]; [by apply Hold|].
      destruct O as [_ O]. apply O; [|by unfold stream_cells in *; rewrite <- Hnew]. intros t ii [Ht _].
      apply Hno. by eapply list_elem_of_lookup_2. }
    split; [by apply (trial_fewer sz k)|done].
Qed.

(** ** The whole of [prepare] *)

(** Slots for the micro-batches, each the right one after those before it have been applied; [k'] is the cache at the end. *)
Inductive serves (sz : nat) : kv_cache -> list (llama_ubatch E) -> list slot_info -> kv_cache -> Prop :=
  | serves_nil k : serves sz k [] [] k
  | serves_cons k u us si sis k1 k' :
      slot_ok sz k u si -> cache_apply_ubatch k si u = Ok k1 -> serves sz k1 us sis k' -> serves sz k (u :: us) (si :: sis) k'.

Lemma serves_length sz k us sis k' : serves sz k us sis k' -> length sis = length us.
Proof. induction 1; cbn; congruence. Qed.

(** What [prepare] has to answer. *)
Definition answers (sz : nat) (k : kv_cache) (us : list (llama_ubatch E)) (r : option (list slot_info)) : Prop :=
  match r with
  | Some sis => exists k1, serves sz k us sis k1
  | None => exists us1 u us2 sis k1, us = us1 ++ u :: us2 /\ serves sz k us1 sis k1 /\ no_slot k1 u
  end.

(** The saved states of a forward pass from [k] to [k']. *)
Inductive tchain (sz : nat) : kv_cache -> list prep_state -> kv_cache -> Prop :=
  | tchain_nil k : trial sz k -> tchain sz k [] k
  | tchain_cons k u si n saved k1 sts k' :
      trial sz k -> place_ok k u si n -> save_cells k si = Ok saved -> outside si k k1 -> tchain sz k1 sts k' ->
      tchain sz k (mk_prep si (kv_heads k) saved :: sts) k'.

Lemma sat_trial_fwd sz (us : list (llama_ubatch E)) : forall k sts, trial sz k -> (0 < sz)%nat -> Forall (ubatch_ok k) us ->
  sat (prepare_fwd k us sts) (fun r => exists us1 new, r.1.2 = sts ++ new /\ tchain sz k new r.1.1 /\ serves sz k us1 (ps_sinfo <$> new) r.1.1 /\
    if r.2 then us1 = us else exists u us2, us = us1 ++ u :: us2 /\ no_slot r.1.1 u).
Proof.
  induction us as [|u us IH]; intros k sts T Hsz HU; cbn [prepare_fwd].
  { apply sat_ok. exists [], []. cbn. rewrite app_nil_r. split_and!; [done|by constructor|constructor|done]. }
  apply Forall_cons in HU as [U HU]. pose proof (tr_ok _ _ T) as K.
  eapply sat_step; [apply (sat_find_slot sz); [done|apply U|done|by intros; apply (trial_swa sz)]|].
  intros [si|] Hs.
  2:{ apply sat_ok. exists [], []. cbn. rewrite app_nil_r. split_and!; [done|by constructor|constructor|by exists u, us]. }
  pose proof (slot_place sz k u si K U Hs (fun s => trial_swa sz k s T)) as P.
  destruct (save_cells_still sz k u si _ K P) as (saved & Hsv & _).
  { intros t ii st idx a (Hst & _) Ha. apply (tr_shift _ _ T st); [by eapply (po_strm _ _ _ _ P)|by eapply list_elem_of_lookup_2]. }
  rewrite Hsv. cbn [mbind res_bind].
  destruct (proj1 (sat_exists _ _) (sat_apply_trial sz k u si T U Hs)) as (k1 & Ha & T1 & O). rewrite Ha. cbn [mbind res_bind].
  eapply sat_mono; [apply IH; [done|done|]|].
  { eapply Forall_impl; [exact HU|]. intros u' Hu'. apply (static_ubatch k); [apply O|done]. }
  intros [[k' sts'] ok] (us1 & new & -> & Hc & Hsv' & Hr). cbn [fst snd] in *. exists (u :: us1), (mk_prep si (kv_heads k) saved :: new).
  rewrite <- app_assoc. split_and!; [done|by econstructor|by econstructor|]. destruct ok; [by subst|].
  destruct Hr as (u' & us2 & -> & Hno). by exists u', us2.
Qed.

Lemma sat_trial_unwind sz k sts k' : tchain sz k sts k' -> forall k2, trial sz k2 -> fewer k' k2 ->
  sat (mfor restore_state (rev sts) k2) (fun k3 => trial sz k3 /\ fewer k k3).
Proof.
  induction 1 as [k T|k u si n saved k1 sts k' T P Hsv O Hc IH]; intros k2 T2 Hf; cbn [rev]; [by apply sat_ok|].
  rewrite mfor_app. eapply sat_step; [by apply IH|]. intros k3 (T3 & Hf3). cbn [mfor].
  eapply sat_step; [apply (sat_restore_trial sz k u si n k3); try done; by apply (outside_fewer si k k1)|]. intros k4 H4. by apply sat_ok.
Qed.

Lemma tchain_end sz k sts k' : tchain sz k sts k' -> trial sz k'.
Proof. by induction 1. Qed.

(** Under any window: [prepare] never stops; what it leaves is a cache of the same kind whose
    cells have at most lost sequences. *)
Lemma sat_prepare_swa sz k (us : list (llama_ubatch E)) : trial sz k -> (0 < sz)%nat -> Forall (ubatch_ok k) us -> us <> [] ->
  sat (cache_prepare k us) (fun r => trial sz r.1 /\ fewer k r.1 /\ answers sz k us r.2).
Proof.
  intros T Hsz HU Hne. unfold cache_prepare. eapply sat_step; [by apply (sat_trial_fwd sz us k [])|].
  intros [[k1 sts] ok] (us1 & new & Hsts & Hc & Hsv & Hr). cbn [fst snd] in *. cbn [app] in Hsts. subst sts.
  rewrite assert_ok.
  2:{ destruct ok; [|by rewrite orb_true_r]. case_bool_decide as Hnil; [|done]. subst new us1. by inversion Hsv; subst. }
  cbn [mbind res_bind]. eapply sat_step; [apply (sat_trial_unwind sz k new k1 Hc k1); [by apply (tchain_end sz k new)|reflexivity]|].
  intros k3 (T3 & F3). apply sat_ok. cbn [fst snd]. split_and!; [done|done|]. destruct ok.
  - subst us1. by exists k1.
  - destruct Hr as (u & us2 & -> & Hno). by exists us1, u, us2, (ps_sinfo <$> new), k1.
Qed.
End swa.

(** C11: [prepare] with any sliding window, on a cache without pending shifts: it never stops. When
    it succeeds it returns a slot for each micro-batch that is the right one after those before it
    have been applied, and it fails only when some first micro-batches have been placed like that
    and the next one has no slot. It leaves a valid cache in which every cell is the one before or
    has lost sequences: nothing appears and no position changes. (That window positions may be
    lost, although they are meant to be restored, is shown by an example.) *)
Theorem swa_prepare_safe {E} sz k (us : list (llama_ubatch E))
    (T : trial sz k) (Hsz : (0 < sz)%nat) (HU : Forall (ubatch_ok k) us) (Hne : us <> []) :
  exists k' r, cache_prepare k us = Ok (k', r) /\ answers sz k us r /\ trial sz k' /\ fewer k k' /\
    (forall q p, p ∈ kv_positions k' q -> p ∈ kv_positions k q).
Proof.
  destruct (proj1 (sat_exists _ _) (sat_prepare_swa sz k us T Hsz HU Hne)) as ([k' r] & Hp & T' & Hf & Hl).
  exists k', r. split_and!; [done|done|done|done|]. intros q p. by apply fewer_positions.
Qed.

(** ** A cache with a window *)

(** [n] tokens of sequence 0 from position [p]. *)
Definition run_ubatch (p : Z) (n : nat) : llama_ubatch Z :=
  mk_ubatch false n 1 n 1 1 (Some (replicate n 1)) None (seqZ p (Z.of_nat n)) (replicate n 1) (replicate n [0]) [0] [] (replicate n 0).

Lemma run_ubatch_ok k p n : kv_n_stream k = 1%nat -> (0 < n)%nat -> 0 <= p -> p + Z.of_nat n <= INT32_MAX -> ubatch_ok k (run_ubatch p n).
Proof.
  intros H1 Hn Hp Hmax. assert (Hd : slot_dims k (run_ubatch p n) = (1%nat, n)) by (unfold slot_dims; by rewrite H1).
  assert (Hpos : forall i, (i < n)%nat -> ub_pos (run_ubatch p n) !! i = Some (p + Z.of_nat i)) by (intros i Hi; apply lookup_seqZ; lia).
  split; rewrite ?Hd; cbn [fst snd].
  - split; rewrite ?Hd, ?H1; cbn [fst snd]; [lia|done|]. intros s Hs. assert (s = 0%nat) as -> by lia. exists 0.
    split_and!; [done|by apply id_ok_small|lia].
  - cbn. lia.
  - lia.
  - lia.
  - intros i Hi. cbn in Hi. split.
    + exists (p + Z.of_nat i). split; [by apply Hpos|lia].
    + done.
    + exists [0]. cbn. rewrite !lookup_replicate_2 by done. split_and!; [done|done|apply NoDup_singleton| |done].
      apply Forall_singleton. by apply id_ok_small.
  - intros i Hi. cbn in Hi. unfold token_pos. rewrite Hpos by done. cbn. lia.
Qed.

(** Decode them. *)
Definition run_step (p : Z) (n : nat) (k : kv_cache) : res kv_cache :=
  r ← cache_find_slot k (run_ubatch p n) false;
  match r with Some si => cache_apply_ubatch k si (run_ubatch p n) | None => Ok k end.

Lemma sat_run_step sz p n k : trial sz k -> (0 < sz)%nat -> kv_n_stream k = 1%nat -> (0 < n)%nat -> 0 <= p -> p + Z.of_nat n <= INT32_MAX ->
  sat (run_step p n k) (fun k' => trial sz k' /\ kv_n_stream k' = 1%nat).
Proof.
  intros T Hsz H1 Hn Hp Hmax. pose proof (run_ubatch_ok k p n H1 Hn Hp Hmax) as U. unfold run_step.
  eapply sat_step; [apply (sat_find_slot sz); [apply T|apply U|done|by intros; apply (trial_swa sz)]|].
  intros [si|] Hs; [|by apply sat_ok]. eapply sat_mono; [by apply (sat_apply_trial sz)|].
  intros k' (T' & Hst & _). split; [done|]. by rewrite (static_n k k').
Qed.

Lemma sat_rm_trial sz k q p0 p1 : trial sz k -> id_ok q ->
  sat (cache_seq_rm k q p0 p1) (fun k' => trial sz k' /\ kv_n_stream k' = kv_n_stream k).
Proof.
  intros T Hq. eapply sat_mono; [by apply (sat_seq_rm sz k q p0 p1), Hq; apply T|]. intros k' (K' & Hm & _).
  assert (Hf : fewer k k') by (eapply stream_map_fewer; [|exact Hm]; intros a; apply rm_cell_le).
  split; [by apply (trial_fewer sz k)|]. apply static_n. apply Hf.
Qed.

(** Six cells and a window of four: positions 0 to 2, the first two removed, then 3 and 4. *)
Definition window_cache : res kv_cache :=
  k ← cache_new true 6 4 1 4 LLAMA_SWA_TYPE_STANDARD 1 0 false;
  k ← run_step 0 3 k; k ← cache_seq_rm k 0 0 2; run_step 3 2 k.

Lemma window_cache_trial : sat window_cache (fun k => trial 6 k /\ kv_n_stream k = 1%nat).
Proof.
  unfold window_cache. eapply sat_step with (P := fun k => trial 6 k /\ kv_n_stream k = 1%nat).
  { destruct (proj1 (sat_exists _ _) (sat_cache_new true 6 4 1 4 LLAMA_SWA_TYPE_STANDARD 1 0 false ltac:(unfold MAX_SEQ; change LLAMA_MAX_SEQ with 256; lia) ltac:(lia) eq_refl))
      as (k & Hk & K & Hn & Hc & _). rewrite Hk. apply sat_ok. split; [|done].
    assert (Ht : (fun r => match r with Ok k => kv_swa_type k = LLAMA_SWA_TYPE_STANDARD | Err _ => False end)
      (cache_new true 6 4 1 4 LLAMA_SWA_TYPE_STANDARD 1 0 false)) by (vm_compute; reflexivity).
    rewrite Hk in Ht. cbn beta iota in Ht.
    assert (He : forall s a, (s < kv_n_stream k)%nat -> a ∈ stream_cells k s -> a = acell_empty).
    { intros s a Hs. rewrite Hc by done. by intros ?%elem_of_replicate_inv. }
    split; [done|..].
    - intros s a Hs Ha. by rewrite (He s a).
    - by rewrite Ht.
    - intros s a Hs Ha. by rewrite (He s a). }
  intros k0 (T0 & H0). eapply sat_step; [apply (sat_run_step 6); (done || lia)|].
  intros k1 (T1 & H1). eapply sat_step; [apply (sat_rm_trial 6); [done|by apply id_ok_small]|].
  intros k2 (T2 & H2). apply (sat_run_step 6); (done || lia || congruence).
Qed.

Definition window_batch : list (llama_ubatch Z) := [run_ubatch 5 1; run_ubatch 6 1; run_ubatch 7 1; run_ubatch 8 1].

Lemma swa_prepare_safe_witness :
  exists k k' r, window_cache = Ok k /\ cache_prepare k window_batch = Ok (k', r) /\ trial 6 k'.
Proof.
  destruct (proj1 (sat_exists _ _) window_cache_trial) as (k & Hk & T & Hn).
  destruct (swa_prepare_safe 6 k window_batch) as (k' & r & Hp & _ & T' & _).
  - exact T.
  - lia.
  - unfold window_batch. rewrite !Forall_cons, Forall_nil.
    split_and!; [apply run_ubatch_ok; [exact Hn|lia|lia|unfold INT32_MAX; lia]..|exact I].
  - done.
  - exists k, k', r. split; [exact Hk|]. split; [exact Hp|exact T'].
Defined.

(** What [prepare] does to that cache: the positions before and after, and whether it found slots. *)
Lemma window_run :
  match window_cache with
  | Ok k => match cache_prepare k window_batch with
            | Ok (k', Some sis) => kv_positions k 0 = [3; 4; 2] /\ kv_positions k' 0 = [3; 4]
            | _ => False end
  | Err _ => False end.
Proof. vm_compute. split; reflexivity. Qed.

(** But the cache is not always given back as it was: a cache of six cells and a window of
    four, reached by decoding and removing, holds positions 2, 3 and 4. [prepare] on four
    micro-batches of one token succeeds, and has lost position 2, although the first of the
    four tokens, at position 5, still has it in its window: overwriting position 3 in the trial
    run purges everything of the sequence up to 3, and only overwritten cells are restored. *)
Lemma prepare_loses_window :
  exists k k' sis, window_cache = Ok k /\ trial 6 k /\ cache_prepare k window_batch = Ok (k', Some sis) /\
    kv_positions k 0 = [3; 4; 2] /\ kv_positions k' 0 = [3; 4] /\ masked 4 LLAMA_SWA_TYPE_STANDARD 2 5 = false.
Proof.
  destruct (proj1 (sat_exists _ _) window_cache_trial) as (k & Hk & T & _). pose proof window_run as H. rewrite Hk in H.
  destruct (cache_prepare k window_batch) as [[k' [sis|]]|] eqn:Hp; [|destruct H..].
  destruct H as [H1 H2]. exists k, k', sis. split_and!; [exact Hk|exact T|exact Hp|exact H1|exact H2|reflexivity].
Qed.
