(* ===== verification/Utf8.v ===== *)
(** * UTF-8: the code points of a text and of its pieces

    [unicode_cpt_to_utf8], [unicode_cpt_from_utf8] and their loops (src/src/unicode.cpp), and
    the two functions [decode_utf8] of the grammar (src/src/llama-grammar.cpp): one reads a
    code point of the text of a grammar, the other the text of a token, which can start and
    end in the middle of a character.  A byte is a [Z]; a C string ends before its first zero
    byte. *)
From S2P Require Export Prelude.

#[local] Ltac Zify.zify_post_hook ::= Z.div_mod_to_equations.

(** ** Definitions *)

Definition byte_ok (b : Z) : Prop := 0 <= b < 256.

(** *** The encoder and decoder of unicode.cpp *)

Definition unicode_cpt_to_utf8 (cpt : Z) : res (list Z) :=
  if cpt <=? 0x7f then Ok [cpt] else
  if (0x80 <=? cpt) && (cpt <=? 0x7ff) then
    Ok [Z.lor 0xc0 (Z.land (Z.shiftr cpt 6) 0x1f); Z.lor 0x80 (Z.land cpt 0x3f)] else
  if (0x800 <=? cpt) && (cpt <=? 0xffff) then
    Ok [Z.lor 0xe0 (Z.land (Z.shiftr cpt 12) 0x0f); Z.lor 0x80 (Z.land (Z.shiftr cpt 6) 0x3f);
        Z.lor 0x80 (Z.land cpt 0x3f)] else
  if (0x10000 <=? cpt) && (cpt <=? 0x10ffff) then
    Ok [Z.lor 0xf0 (Z.land (Z.shiftr cpt 18) 0x07); Z.lor 0x80 (Z.land (Z.shiftr cpt 12) 0x3f);
        Z.lor 0x80 (Z.land (Z.shiftr cpt 6) 0x3f); Z.lor 0x80 (Z.land cpt 0x3f)] else
  Err Thrown.

Definition unicode_cpts_to_utf8 (cps : list Z) : res (list Z) :=
  mfor (fun result cpt => bs ← unicode_cpt_to_utf8 cpt; Ok (result ++ bs)) cps [].

(** The byte at [offset + d] is present and a continuation byte. *)
Definition cont_at (utf8 : list Z) (i : nat) : res bool :=
  if (length utf8 <=? i)%nat then Ok false else
  b ← vec_get utf8 i; Ok (Z.land b 0xc0 =? 0x80).

Definition unicode_cpt_from_utf8 (utf8 : list Z) (offset : nat) : res (Z * nat) :=
  _ ← assert_ (offset <? length utf8)%nat;
  b0 ← vec_get utf8 offset;
  if Z.land b0 0x80 =? 0 then Ok (b0, offset + 1)%nat else
  if Z.land b0 0x40 =? 0 then Err Thrown else
  if Z.land b0 0x20 =? 0 then
    c1 ← cont_at utf8 (offset + 1);
    if negb c1 then Err Thrown else
    b1 ← vec_get utf8 (offset + 1);
    Ok (Z.lor (Z.shiftl (Z.land b0 0x1f) 6) (Z.land b1 0x3f), offset + 2)%nat
  else
  if Z.land b0 0x10 =? 0 then
    if (length utf8 <=? offset + 2)%nat then Err Thrown else
    c1 ← cont_at utf8 (offset + 1);
    if negb c1 then Err Thrown else
    c2 ← cont_at utf8 (offset + 2);
    if negb c2 then Err Thrown else
    b1 ← vec_get utf8 (offset + 1);
    b2 ← vec_get utf8 (offset + 2);
    Ok (Z.lor (Z.lor (Z.shiftl (Z.land b0 0x0f) 12) (Z.shiftl (Z.land b1 0x3f) 6))
          (Z.land b2 0x3f), offset + 3)%nat
  else
  if Z.land b0 0x08 =? 0 then
    if (length utf8 <=? offset + 3)%nat then Err Thrown else
    c1 ← cont_at utf8 (offset + 1);
    if negb c1 then Err Thrown else
    c2 ← cont_at utf8 (offset + 2);
    if negb c2 then Err Thrown else
    c3 ← cont_at utf8 (offset + 3);
    if negb c3 then Err Thrown else
    b1 ← vec_get utf8 (offset + 1);
    b2 ← vec_get utf8 (offset + 2);
    b3 ← vec_get utf8 (offset + 3);
    Ok (Z.lor (Z.lor (Z.lor (Z.shiftl (Z.land b0 0x07) 18) (Z.shiftl (Z.land b1 0x3f) 12))
          (Z.shiftl (Z.land b2 0x3f) 6)) (Z.land b3 0x3f), offset + 4)%nat
  else Err Thrown.

(** The loop: an invalid sequence counts as one replacement character. *)
Fixpoint cpts_loop (fuel : nat) (utf8 : list Z) (offset : nat) (result : list Z) : res (list Z) :=
  if (length utf8 <=? offset)%nat then Ok result else
  match fuel with
  | O => Err NoFuel
  | S fuel =>
      match unicode_cpt_from_utf8 utf8 offset with
      | Ok (cpt, offset) => cpts_loop fuel utf8 offset (result ++ [cpt])
      | Err Thrown => cpts_loop fuel utf8 (offset + 1) (result ++ [0xFFFD])
      | Err e => Err e
      end
  end.

Definition unicode_cpts_from_utf8 (utf8 : list Z) : res (list Z) :=
  cpts_loop (length utf8) utf8 0 [].

(** *** The decoders of the grammar *)

Record llama_partial_utf8 := PartialUtf8 {
  pu_value : Z;
  pu_n_remain : Z;
}.

#[export] Instance partial_utf8_eq_dec : EqDecision llama_partial_utf8.
Proof. solve_decision. Defined.

(** [value = (value << 6) + (byte & 0x3F)] in 32 bits. *)
Definition push_byte (value b : Z) : Z := u32 (u32 (Z.shiftl value 6) + Z.land b 0x3F).

(** The end of a C string. *)
Definition at_end (pos : list Z) : bool := match pos with [] => true | b :: _ => b =? 0 end.

Definition utf8_lookup : list Z := [1; 1; 1; 1; 1; 1; 1; 1; 1; 1; 1; 1; 2; 2; 3; 4].
Definition utf8_lookup_strict : list Z := [1; 1; 1; 1; 1; 1; 1; 1; 0; 0; 0; 0; 2; 2; 3; 4].

(** The loop of the first decoder: at most [k] more bytes. *)
Fixpoint take_utf8 (k : nat) (pos : list Z) (value : Z) : Z * list Z :=
  match k, pos with
  | S k, b :: pos' => if b =? 0 then (value, pos) else take_utf8 k pos' (push_byte value b)
  | _, _ => (value, pos)
  end.

Definition decode_utf8 (src : list Z) : res (Z * list Z) :=
  match src with
  | [] => Err OutOfRange   (* one past the end of the string; the callers stop before *)
  | first_byte :: pos =>
      len ← vec_getZ utf8_lookup (Z.shiftr first_byte 4);
      let mask := Z.land (Z.shiftl 1 (8 - len) - 1) 0xff in
      Ok (take_utf8 (Z.to_nat (len - 1)) pos (Z.land first_byte mask))
  end.

(** The continuation of a sequence started by an earlier piece; [None] for an invalid byte. *)
Fixpoint continue_utf8 (pos : list Z) (value n_remain : Z) : option (list Z * Z * Z) :=
  match pos with
  | b :: pos' =>
      if (b =? 0) || negb (0 <? n_remain) then Some (pos, value, n_remain) else
      if negb (Z.shiftr b 6 =? 2) then None else
      continue_utf8 pos' (push_byte value b) (n_remain - 1)
  | [] => Some (pos, value, n_remain)
  end.

(** The rest of a sequence started here; its bytes are not checked. *)
Fixpoint rest_utf8 (pos : list Z) (value n_remain : Z) : list Z * Z * Z :=
  match pos with
  | b :: pos' =>
      if (b =? 0) || negb (0 <? n_remain) then (pos, value, n_remain) else
      rest_utf8 pos' (push_byte value b) (n_remain - 1)
  | [] => (pos, value, n_remain)
  end.

(** The second loop: the sequences that start in this piece. *)
Fixpoint decode_loop (fuel : nat) (pos : list Z) (value n_remain : Z) (code_points : list Z) :
    res (list Z * llama_partial_utf8) :=
  match pos with
  | first_byte :: pos' =>
      if first_byte =? 0 then Ok (code_points ++ [0], PartialUtf8 value n_remain) else
      match fuel with
      | O => Err NoFuel
      | S fuel =>
          len ← vec_getZ utf8_lookup_strict (Z.shiftr first_byte 4);
          let n_remain := len - 1 in
          if n_remain <? 0 then Ok ([0], PartialUtf8 0 n_remain) else
          let mask := Z.land (Z.shiftl 1 (7 - n_remain) - 1) 0xff in
          let '(pos, value, n_remain) := rest_utf8 pos' (Z.land first_byte mask) n_remain in
          decode_loop fuel pos value n_remain
            (if n_remain =? 0 then code_points ++ [value] else code_points)
      end
  | [] => Ok (code_points ++ [0], PartialUtf8 value n_remain)
  end.

Definition decode_utf8_partial (src : list Z) (partial_start : llama_partial_utf8) :
    res (list Z * llama_partial_utf8) :=
  match continue_utf8 src (pu_value partial_start) (pu_n_remain partial_start) with
  | None => Ok ([0], PartialUtf8 0 (-1))
  | Some (pos, value, n_remain) =>
      decode_loop (length src) pos value n_remain
        (if (0 <? pu_n_remain partial_start) && (n_remain =? 0) then [value] else [])
  end.

(** The text of several tokens, piece by piece: the code points without the closing zeros. *)
Fixpoint decode_pieces (pieces : list (list Z)) (p : llama_partial_utf8) :
    res (list Z * llama_partial_utf8) :=
  match pieces with
  | [] => Ok ([], p)
  | piece :: pieces =>
      '(cps, p) ← decode_utf8_partial piece p;
      '(rest, p) ← decode_pieces pieces p;
      Ok (removelast cps ++ rest, p)
  end.

(** ** Finite checks *)

Lemma below_check n (P : Z -> bool) : forallb P (seqZ 0 n) = true -> forall x, 0 <= x < n -> P x = true.
Proof.
  intros H x Hx. rewrite forallb_forall in H. apply H, list_elem_of_In, elem_of_seqZ. lia.
Qed.

Lemma lead_bits x :
  (0 <= x < 32 -> Z.shiftr (Z.lor 0xc0 x) 4 = 12 + x / 16 /\ Z.land (Z.lor 0xc0 x) 63 = x) /\
  (0 <= x < 16 -> Z.shiftr (Z.lor 0xe0 x) 4 = 14 /\ Z.land (Z.lor 0xe0 x) 31 = x) /\
  (0 <= x < 8 -> Z.shiftr (Z.lor 0xf0 x) 4 = 15 /\ Z.land (Z.lor 0xf0 x) 15 = x).
Proof.
  split_and!; intros Hx.
  - apply (below_check 32 (fun x => (Z.shiftr (Z.lor 0xc0 x) 4 =? 12 + x / 16) &&
      (Z.land (Z.lor 0xc0 x) 63 =? x))) in Hx; [|reflexivity]. lia.
  - apply (below_check 16 (fun x => (Z.shiftr (Z.lor 0xe0 x) 4 =? 14) &&
      (Z.land (Z.lor 0xe0 x) 31 =? x))) in Hx; [|reflexivity]. lia.
  - apply (below_check 8 (fun x => (Z.shiftr (Z.lor 0xf0 x) 4 =? 15) &&
      (Z.land (Z.lor 0xf0 x) 15 =? x))) in Hx; [|reflexivity]. lia.
Qed.

Lemma cont_bits x : 0 <= x < 64 ->
  Z.shiftr (Z.lor 0x80 x) 6 = 2 /\ Z.land (Z.lor 0x80 x) 0x3F = x /\ 128 <= Z.lor 0x80 x < 192.
Proof.
  intros Hx. apply (below_check 64 (fun x => (Z.shiftr (Z.lor 0x80 x) 6 =? 2) &&
    (Z.land (Z.lor 0x80 x) 0x3F =? x) && (128 <=? Z.lor 0x80 x) && (Z.lor 0x80 x <? 192))) in Hx; [|reflexivity]. lia.
Qed.

(** ** The decoder of pieces as an automaton *)

(** One byte of well-formed text: the code point it completes, if any, and the next state. *)
Definition utf8_step (st : llama_partial_utf8) (b : Z) : option (list Z * llama_partial_utf8) :=
  if 0 <? pu_n_remain st then
    if Z.shiftr b 6 =? 2 then
      let v := push_byte (pu_value st) b in
      Some (if pu_n_remain st =? 1 then [v] else [], PartialUtf8 v (pu_n_remain st - 1))
    else None
  else
    match utf8_lookup_strict !! Z.to_nat (Z.shiftr b 4) with
    | Some len =>
        if len =? 0 then None else
        let v := Z.land b (Z.land (Z.shiftl 1 (7 - (len - 1)) - 1) 0xff) in
        Some (if len - 1 =? 0 then [v] else [], PartialUtf8 v (len - 1))
    | None => None
    end.

Fixpoint utf8_run (st : llama_partial_utf8) (l : list Z) : option (list Z * llama_partial_utf8) :=
  match l with
  | [] => Some ([], st)
  | b :: l =>
      '(c, st) ← utf8_step st b;
      '(cps, st) ← utf8_run st l;
      Some (c ++ cps, st)
  end.

Lemma utf8_run_app st l1 l2 :
  utf8_run st (l1 ++ l2) =
    ('(c1, st1) ← utf8_run st l1; '(c2, st2) ← utf8_run st1 l2; Some (c1 ++ c2, st2)).
Proof.
  revert st. induction l1 as [|b l1 IH]; intros st; cbn [utf8_run app mbind option_bind].
  { by destruct (utf8_run st l2) as [[]|]. }
  destruct (utf8_step st b) as [[c st1]|]; [|done]. cbn. rewrite IH.
  destruct (utf8_run st1 l1) as [[c1 st2]|]; [|done]. cbn.
  destruct (utf8_run st2 l2) as [[c2 st3]|]; [|done]. cbn. by rewrite app_assoc.
Qed.

(** Text without zero bytes. *)
Definition text (l : list Z) : Prop := Forall (fun b => 0 < b < 256) l.

Lemma text_hd b l : text (b :: l) -> 0 < b < 256 /\ text l /\ (b =? 0) = false.
Proof. intros [Hb Hl]%Forall_cons. split_and!; [lia..|done|]. apply Z.eqb_neq. lia. Qed.

(** The first loop, on text the automaton accepts. *)
Lemma continue_run l : forall v n cps st, text l -> utf8_run (PartialUtf8 v n) l = Some (cps, st) ->
  exists l2 v2 n2 cps2, continue_utf8 l v n = Some (l2, v2, n2) /\ rest_utf8 l v n = (l2, v2, n2) /\
    utf8_run (PartialUtf8 v2 n2) l2 = Some (cps2, st) /\ text l2 /\ (length l2 <= length l)%nat /\
    (0 < n2 -> l2 = []) /\ (n <= 0 -> l2 = l /\ v2 = v /\ n2 = n) /\ (0 < n -> 0 <= n2) /\
    cps = (if (0 <? n) && (n2 =? 0) then [v2] else []) ++ cps2.
Proof.
  induction l as [|b l IH]; intros v n cps st Ht Hr.
  { cbn in Hr. injection Hr as <- <-. exists [], v, n, []. cbn. split_and!; try done; [lia|].
    destruct (Z.ltb_spec 0 n), (Z.eqb_spec n 0); try done; lia. }
  apply text_hd in Ht as (Hb & Ht & Hb0). cbn [continue_utf8 rest_utf8]. rewrite Hb0. cbn [orb].
  destruct (Z.ltb_spec 0 n) as [Hn|Hn]; cbn [negb orb].
  2: { exists (b :: l), v, n, cps. split_and!; try done; try lia. by constructor. }
  cbn [utf8_run] in Hr. unfold utf8_step in Hr. cbn [pu_n_remain pu_value] in Hr.
  rewrite (proj2 (Z.ltb_lt _ _) Hn) in Hr. destruct (Z.shiftr b 6 =? 2); [|done]. cbn in Hr. cbn [negb].
  destruct (utf8_run _ l) as [[cps' st']|] eqn:E; [|done]. cbn in Hr. injection Hr as <- <-.
  destruct (IH _ _ _ _ Ht E) as (l2 & v2 & n2 & cps2 & -> & -> & R & T & L & Z0 & S & P & ->).
  exists l2, v2, n2, cps2. split_and!; try done; [simpl; lia|lia| |].
  - intros _. destruct (Z.ltb_spec 0 (n - 1)); [by apply P|]. destruct S as (_ & _ & ->); lia.
  - destruct (Z.eqb_spec n 1) as [->|]; cbn.
    + destruct S as (-> & -> & ->); [lia|]. cbn. done.
    + by rewrite (proj2 (Z.ltb_lt 0 (n - 1))) by lia.
Qed.

Lemma decode_loop_run fuel : forall l v n acc cps st, text l -> (length l <= fuel)%nat -> (0 < n -> l = []) ->
  utf8_run (PartialUtf8 v n) l = Some (cps, st) ->
  decode_loop fuel l v n acc = Ok (acc ++ cps ++ [0], st).
Proof.
  induction fuel as [|fuel IH]; intros [|b l] v n acc cps st Ht Hf Hn Hr; try (cbn in Hf; lia).
  1,2: cbn in Hr; by injection Hr as <- <-.
  apply text_hd in Ht as (Hb & Ht & Hb0). cbn [decode_loop]. rewrite Hb0.
  assert (Hn0 : (0 <? n) = false) by (apply Z.ltb_ge; destruct (Z.lt_ge_cases 0 n) as [Hc|]; [by apply Hn in Hc|lia]).
  cbn [utf8_run] in Hr. unfold utf8_step in Hr. cbn [pu_n_remain pu_value] in Hr. rewrite Hn0 in Hr.
  unfold vec_getZ, vec_get, of_option. rewrite (proj2 (Z.leb_le 0 (Z.shiftr b 4))) by (apply Z.shiftr_nonneg; lia).
  destruct (utf8_lookup_strict !! _) as [len|] eqn:El; [|done]. cbn [mbind res_bind].
  assert (0 <= len <= 4).
  { apply list_elem_of_lookup_2 in El. unfold utf8_lookup_strict in El. set_unfold. lia. }
  destruct (Z.eqb_spec len 0); [done|]. rewrite (proj2 (Z.ltb_ge _ _)) by lia.
  cbn [mbind option_bind] in Hr. set (v1 := Z.land b _) in *.
  destruct (utf8_run (PartialUtf8 v1 (len - 1)) l) as [[cps1 st1]|] eqn:E; [|done]. cbn in Hr. injection Hr as <- <-.
  destruct (continue_run l _ _ _ _ Ht E) as (l2 & v2 & n2 & cps2 & _ & -> & R & T & L & Z0 & S & P & ->).
  rewrite (IH l2 v2 n2 _ cps2 st1) by (try done; simpl in Hf; lia).
  destruct (Z.eqb_spec (len - 1) 0) as [E1|E1].
  - destruct S as (-> & -> & ->); [lia|]. rewrite E1. cbn. by rewrite <- app_assoc.
  - rewrite (proj2 (Z.ltb_lt 0 (len - 1))) by lia. cbn [andb].
    destruct (n2 =? 0); cbn; by rewrite <- ?app_assoc.
Qed.

Lemma decode_partial_run l st cps st' : text l -> utf8_run st l = Some (cps, st') ->
  decode_utf8_partial l st = Ok (cps ++ [0], st').
Proof.
  intros Ht Hr. destruct st as [v n].
  destruct (continue_run l _ _ _ _ Ht Hr) as (l2 & v2 & n2 & cps2 & Hc & _ & R & T & L & Z0 & _ & _ & ->).
  unfold decode_utf8_partial. cbn [pu_value pu_n_remain]. rewrite Hc.
  rewrite (decode_loop_run _ l2 v2 n2 _ cps2 st') by done. by rewrite app_assoc.
Qed.

Lemma decode_pieces_run ps : forall st cps st', text (concat ps) -> utf8_run st (concat ps) = Some (cps, st') ->
  decode_pieces ps st = Ok (cps, st').
Proof.
  induction ps as [|l ps IH]; intros st cps st' Ht Hr; cbn [concat decode_pieces] in *.
  { cbn in Hr. by injection Hr as <- <-. }
  apply Forall_app in Ht as [Ht1 Ht2]. rewrite utf8_run_app in Hr.
  destruct (utf8_run st l) as [[c1 st1]|] eqn:E1; [|done]. cbn in Hr.
  destruct (utf8_run st1 (concat ps)) as [[c2 st2]|] eqn:E2; [|done]. cbn in Hr. injection Hr as <- <-.
  rewrite (decode_partial_run l st c1 st1) by done. cbn [mbind res_bind].
  rewrite (IH st1 c2 st2) by done. cbn [mbind res_bind]. by rewrite removelast_last.
Qed.

(** ** Encoding and decoding are inverse *)

Lemma land_low c k : 0 <= k -> Z.land c (Z.ones k) = c mod 2 ^ k.
Proof. intros. by apply Z.land_ones. Qed.

Lemma push_cont v x : 0 <= v < 2 ^ 25 -> 0 <= x < 64 -> push_byte v (Z.lor 0x80 x) = v * 64 + x.
Proof.
  intros Hv Hx. unfold push_byte, u32. rewrite (proj1 (proj2 (cont_bits x Hx))).
  rewrite Z.shiftl_mul_pow2 by lia. change (2 ^ 6) with 64. rewrite (Z.mod_small (v * 64)) by lia. apply Z.mod_small. lia.
Qed.

(** The encoding of a code point, by size. *)
Inductive encoding (c : Z) : list Z -> Prop :=
  | enc1 : 0 <= c < 128 -> encoding c [c]
  | enc2 a x : 2 <= a < 32 -> 0 <= x < 64 -> c = a * 64 + x -> encoding c [Z.lor 0xc0 a; Z.lor 0x80 x]
  | enc3 a x y : 0 <= a < 16 -> 0 <= x < 64 -> 0 <= y < 64 -> c = (a * 64 + x) * 64 + y ->
      encoding c [Z.lor 0xe0 a; Z.lor 0x80 x; Z.lor 0x80 y]
  | enc4 a x y z : 0 <= a < 8 -> 0 <= x < 64 -> 0 <= y < 64 -> 0 <= z < 64 ->
      c = ((a * 64 + x) * 64 + y) * 64 + z ->
      encoding c [Z.lor 0xf0 a; Z.lor 0x80 x; Z.lor 0x80 y; Z.lor 0x80 z].

Definition code_point (c : Z) : Prop := 0 <= c <= 0x10ffff.

Lemma encode_ok c : code_point c -> sat (unicode_cpt_to_utf8 c) (encoding c).
Proof.
  intros [H0 Hc]. unfold unicode_cpt_to_utf8.
  change 0x1f with (Z.ones 5). change 0x3f with (Z.ones 6). change 0x0f with (Z.ones 4). change 0x07 with (Z.ones 3).
  rewrite !land_low, !Z.shiftr_div_pow2 by lia.
  change (2 ^ 5) with 32. change (2 ^ 6) with 64. change (2 ^ 4) with 16. change (2 ^ 3) with 8.
  change (2 ^ 12) with 4096. change (2 ^ 18) with 262144.
  destruct (Z.leb_spec c 0x7f); [apply sat_ok, enc1; lia|]. rewrite (proj2 (Z.leb_le 0x80 c)) by lia. cbn [andb].
  destruct (Z.leb_spec c 0x7ff); [apply sat_ok, enc2; lia|]. rewrite (proj2 (Z.leb_le 0x800 c)) by lia. cbn [andb].
  destruct (Z.leb_spec c 0xffff); [apply sat_ok, enc3; lia|]. rewrite (proj2 (Z.leb_le 0x10000 c)) by lia. cbn [andb].
  rewrite (proj2 (Z.leb_le c 0x10ffff)) by lia. apply sat_ok, enc4; lia.
Qed.

Lemma lead_run st b len v : pu_n_remain st = 0 -> utf8_lookup_strict !! Z.to_nat (Z.shiftr b 4) = Some len ->
  1 <= len -> Z.land b (Z.land (Z.shiftl 1 (8 - len) - 1) 0xff) = v ->
  utf8_step st b = Some (if len =? 1 then [v] else [], PartialUtf8 v (len - 1)).
Proof.
  intros Hn Hl H1 Hv. unfold utf8_step. rewrite Hn, Hl. cbn [Z.ltb]. rewrite (proj2 (Z.eqb_neq len 0)) by lia.
  replace (7 - (len - 1)) with (8 - len) by lia. rewrite Hv.
  by destruct (Z.eqb_spec len 1), (Z.eqb_spec (len - 1) 0); try lia.
Qed.

Lemma cont_run v n x : 0 < n -> 0 <= v < 2 ^ 25 -> 0 <= x < 64 ->
  utf8_step (PartialUtf8 v n) (Z.lor 0x80 x) =
    Some (if n =? 1 then [v * 64 + x] else [], PartialUtf8 (v * 64 + x) (n - 1)).
Proof.
  intros Hn Hv Hx. unfold utf8_step. cbn [pu_n_remain pu_value]. rewrite (proj2 (Z.ltb_lt _ _) Hn).
  rewrite (proj1 (cont_bits x Hx)), push_cont by done. done.
Qed.

Lemma encoding_run c bs st : encoding c bs -> pu_n_remain st = 0 ->
  utf8_run st bs = Some ([c], PartialUtf8 c 0).
Proof.
  intros E Hn. destruct E as [Hc|a x Ha Hx ->|a x y Ha Hx Hy ->|a x y z Ha Hx Hy Hz ->]; cbn [utf8_run].
  - rewrite (lead_run st c 1 c); try done.
    + unfold utf8_lookup_strict. rewrite Z.shiftr_div_pow2 by lia.
      assert (Z.to_nat (c / 2 ^ 4) < 8)%nat as Hi by lia. revert Hi. generalize (Z.to_nat (c / 2 ^ 4)).
      intros i Hi. do 8 (destruct i as [|i]; [done|]). lia.
    + change (Z.land (Z.shiftl 1 (8 - 1) - 1) 255) with (Z.ones 7). rewrite land_low by lia. apply Z.mod_small. lia.
  - destruct (proj1 (lead_bits a)) as [Hs Hl]; [lia|].
    rewrite (lead_run st _ 2 a); [|done| |lia|exact Hl].
    + cbn [mbind option_bind Z.eqb Z.sub Z.add Z.opp Z.pos_sub Pos.pred_double app Pos.eqb].
      rewrite cont_run by lia. done.
    + rewrite Hs. assert (Z.to_nat (12 + a / 16) = 12 \/ Z.to_nat (12 + a / 16) = 13)%nat as [-> | ->] by lia; done.
  - destruct (proj1 (proj2 (lead_bits a))) as [Hs Hl]; [lia|].
    rewrite (lead_run st _ 3 a); [|done|by rewrite Hs|lia|exact Hl]. cbn [mbind option_bind].
    change (3 =? 1) with false. change (3 - 1) with 2.
    rewrite cont_run by lia. cbn [mbind option_bind]. change (2 =? 1) with false. change (2 - 1) with 1.
    rewrite cont_run by lia. done.
  - destruct (proj2 (proj2 (lead_bits a))) as [Hs Hl]; [lia|].
    rewrite (lead_run st _ 4 a); [|done|by rewrite Hs|lia|exact Hl]. cbn [mbind option_bind].
    change (4 =? 1) with false. change (4 - 1) with 3.
    rewrite cont_run by lia. cbn [mbind option_bind]. change (3 =? 1) with false. change (3 - 1) with 2.
    rewrite cont_run by lia. cbn [mbind option_bind]. change (2 =? 1) with false. change (2 - 1) with 1.
    rewrite cont_run by lia. done.
Qed.

Lemma encoding_text c bs : encoding c bs -> 0 < c -> text bs.
Proof.
  intros E Hc. assert (Hx : forall x, 0 <= x < 64 -> 0 < Z.lor 0x80 x < 256) by (intros x Hx; pose proof (cont_bits x Hx); lia).
  assert (Ha : forall m a, m ∈ [0xc0; 0xe0; 0xf0] -> 0 <= a < 32 -> 0 < Z.lor m a < 256).
  { intros m a Hm Hl. apply (below_check 32 (fun a => forallb (fun m => (0 <? Z.lor m a) && (Z.lor m a <? 256)) [0xc0; 0xe0; 0xf0])) in Hl;
      [|reflexivity]. rewrite forallb_forall in Hl. apply list_elem_of_In, Hl in Hm. lia. }
  destruct E; unfold text; repeat constructor; try lia; first [apply Hx; lia|apply Ha; [set_solver|lia]].
Qed.

Lemma lor_disjoint a b k : 0 <= k -> 0 <= b < 2 ^ k -> Z.lor (Z.shiftl a k) b = a * 2 ^ k + b.
Proof.
  intros Hk Hb. pose proof (Z.add_lor_land (Z.shiftl a k) b) as E. rewrite Z.shiftl_mul_pow2 in * by done.
  enough (Z.land (a * 2 ^ k) b = 0) by lia. apply Z.bits_inj'. intros n Hn. rewrite Z.land_spec, Z.bits_0.
  destruct (Z.lt_ge_cases n k); [by rewrite Z.mul_pow2_bits_low|].
  destruct (decide (b = 0)) as [->|]; [by rewrite Z.bits_0, andb_false_r|].
  rewrite (Z.bits_above_log2 b n), andb_false_r; [done|lia|].
  apply Z.lt_le_trans with k; [apply Z.log2_lt_pow2; lia|done].
Qed.

(** The tests of the decoder on the first byte of a sequence and on the next ones. *)
Definition bits_are (b : Z) (tests : list (Z * bool)) : bool :=
  forallb (fun t => eqb (Z.land b t.1 =? 0) t.2) tests.

Lemma lead_tests a :
  (0 <= a < 32 -> bits_are (Z.lor 0xc0 a) [(0x80, false); (0x40, false); (0x20, true)] && (Z.land (Z.lor 0xc0 a) 0x1f =? a) = true) /\
  (0 <= a < 16 -> bits_are (Z.lor 0xe0 a) [(0x80, false); (0x40, false); (0x20, false); (0x10, true)] &&
     (Z.land (Z.lor 0xe0 a) 0x0f =? a) = true) /\
  (0 <= a < 8 -> bits_are (Z.lor 0xf0 a) [(0x80, false); (0x40, false); (0x20, false); (0x10, false); (0x08, true)] &&
     (Z.land (Z.lor 0xf0 a) 0x07 =? a) = true) /\
  (0 <= a < 64 -> (Z.land (Z.lor 0x80 a) 0xc0 =? 0x80) && (Z.land (Z.lor 0x80 a) 0x3f =? a) = true).
Proof.
  split_and!; intros Ha.
  - by apply (below_check 32 (fun a => bits_are (Z.lor 0xc0 a) [(0x80, false); (0x40, false); (0x20, true)] &&
      (Z.land (Z.lor 0xc0 a) 0x1f =? a))).
  - by apply (below_check 16 (fun a => bits_are (Z.lor 0xe0 a) [(0x80, false); (0x40, false); (0x20, false); (0x10, true)] &&
      (Z.land (Z.lor 0xe0 a) 0x0f =? a))).
  - by apply (below_check 8 (fun a => bits_are (Z.lor 0xf0 a)
      [(0x80, false); (0x40, false); (0x20, false); (0x10, false); (0x08, true)] && (Z.land (Z.lor 0xf0 a) 0x07 =? a))).
  - by apply (below_check 64 (fun a => (Z.land (Z.lor 0x80 a) 0xc0 =? 0x80) && (Z.land (Z.lor 0x80 a) 0x3f =? a))).
Qed.

(** Decoding does not depend on what comes before. *)
Lemma vec_get_shift {A} (pre l : list A) i : vec_get (pre ++ l) (length pre + i) = vec_get l i.
Proof. unfold vec_get. by rewrite lookup_app_r, Nat.add_sub_swap, Nat.sub_diag by lia. Qed.

Lemma cont_at_shift pre l i : cont_at (pre ++ l) (length pre + i) = cont_at l i.
Proof.
  unfold cont_at. rewrite vec_get_shift, length_app.
  by destruct (Nat.leb_spec (length pre + length l) (length pre + i)), (Nat.leb_spec (length l) i); try lia.
Qed.

Lemma from_utf8_shift pre l : unicode_cpt_from_utf8 (pre ++ l) (length pre) =
  ('(c, n) ← unicode_cpt_from_utf8 l 0; Ok (c, length pre + n)%nat).
Proof.
  unfold unicode_cpt_from_utf8. rewrite !cont_at_shift, !vec_get_shift.
  pose proof (vec_get_shift pre l 0) as E0. rewrite Nat.add_0_r in E0. rewrite E0.
  assert (forall i, (length (pre ++ l) <=? length pre + i)%nat = (length l <=? i)%nat) as EL.
  { intros i. rewrite length_app.
    by destruct (Nat.leb_spec (length pre + length l) (length pre + i)), (Nat.leb_spec (length l) i); try lia. }
  rewrite !EL. assert ((length pre <? length (pre ++ l))%nat = (0 <? length l)%nat) as ->.
  { rewrite length_app. by destruct (Nat.ltb_spec (length pre) (length pre + length l)), (Nat.ltb_spec 0 (length l)); try lia. }
  destruct (assert_ _); [|done]. destruct l as [|b0 l]; [done|]. cbn [vec_get of_option lookup list_lookup mbind res_bind Nat.add].
  repeat first [done | case_match | match goal with |- @mbind _ _ _ _ _ ?m = _ => destruct m end; cbn [mbind res_bind]].
Qed.

Lemma lor_cont a x k k' : k' = k + 6 -> 0 <= k -> 0 <= x < 64 -> Z.lor (Z.shiftl a k') (Z.shiftl x k) = Z.shiftl (a * 64 + x) k.
Proof.
  intros -> Hk Hx. rewrite Z.add_comm, <- Z.shiftl_shiftl, <- Z.shiftl_lor by lia. by rewrite lor_disjoint.
Qed.

#[local] Ltac bits H :=
  let H1 := fresh in pose proof H as H1; unfold bits_are in H1; cbn [forallb fst snd] in H1;
  rewrite ?andb_true_iff, ?eqb_true_iff in H1; destruct_and? H1;
  repeat match goal with E : (_ =? _) = _ |- _ => rewrite ?E; first [apply Z.eqb_eq in E; rewrite ?E|clear E] end.

Lemma decode_enc c bs pre l : encoding c bs ->
  unicode_cpt_from_utf8 (pre ++ bs ++ l) (length pre) = Ok (c, length pre + length bs)%nat.
Proof.
  intros E. rewrite from_utf8_shift. unfold unicode_cpt_from_utf8, cont_at.
  destruct E as [Hc|a x Ha Hx ->|a x y Ha Hx Hy ->|a x y z Ha Hx Hy Hz ->]; cbn.
  - assert (Z.land c 128 = 0) as ->; [|done].
    apply (below_check 128 (fun c => Z.land c 128 =? 0)) in Hc; [lia|reflexivity].
  - bits (proj1 (lead_tests a) ltac:(lia)). bits (proj2 (proj2 (proj2 (lead_tests x))) Hx). cbn.
    by rewrite lor_disjoint.
  - bits (proj1 (proj2 (lead_tests a)) Ha). bits (proj2 (proj2 (proj2 (lead_tests x))) Hx).
    bits (proj2 (proj2 (proj2 (lead_tests y))) Hy). cbn.
    by rewrite (lor_cont a x 6 12), lor_disjoint.
  - bits (proj1 (proj2 (proj2 (lead_tests a))) Ha). bits (proj2 (proj2 (proj2 (lead_tests x))) Hx).
    bits (proj2 (proj2 (proj2 (lead_tests y))) Hy). bits (proj2 (proj2 (proj2 (lead_tests z))) Hz). cbn.
    by rewrite (lor_cont a x 12 18), (lor_cont _ y 6 12), lor_disjoint.
Qed.

(** *** Whole texts *)

Lemma encode_cons c cps bs : unicode_cpts_to_utf8 (c :: cps) = Ok bs <->
  exists b1 b2, unicode_cpt_to_utf8 c = Ok b1 /\ unicode_cpts_to_utf8 cps = Ok b2 /\ bs = b1 ++ b2.
Proof.
  unfold unicode_cpts_to_utf8. cbn [mfor]. destruct (unicode_cpt_to_utf8 c) as [b1|e]; cbn [mbind res_bind]; [|naive_solver].
  rewrite app_nil_l. set (f := fun result cpt => _).
  assert (G : forall l acc, mfor f l acc = (r ← mfor f l []; Ok (acc ++ r))).
  { induction l as [|x l IH]; intros acc; cbn [mfor mbind res_bind]; [by rewrite app_nil_r|].
    assert (Hf : forall r c, f r c = (bs ← unicode_cpt_to_utf8 c; Ok (r ++ bs))) by done. rewrite !Hf.
    destruct (unicode_cpt_to_utf8 x) as [b|]; [|done]. cbn [mbind res_bind]. rewrite app_nil_l.
    rewrite (IH (acc ++ b)), (IH b). destruct (mfor f l []); [|done]. cbn. by rewrite app_assoc. }
  rewrite G. destruct (mfor f cps []); cbn; naive_solver.
Qed.

Lemma encode_all cps : Forall code_point cps -> exists bs, unicode_cpts_to_utf8 cps = Ok bs.
Proof.
  induction 1 as [|c cps Hc _ [b2 IH]]; [by exists []|].
  destruct (proj1 (sat_exists _ _) (encode_ok c Hc)) as (b1 & E & _).
  exists (b1 ++ b2). apply encode_cons. eauto.
Qed.

Lemma encode_run cps : forall bs st, Forall code_point cps -> pu_n_remain st = 0 -> unicode_cpts_to_utf8 cps = Ok bs ->
  exists v, utf8_run st bs = Some (cps, PartialUtf8 v 0).
Proof.
  induction cps as [|c cps IH]; intros bs [v n] Hc Hn He; cbn in Hn; subst n.
  { injection He as <-. by exists v. }
  apply encode_cons in He as (b1 & b2 & E1 & E2 & ->). apply Forall_cons in Hc as [Hc Hcs].
  pose proof (encode_ok c Hc) as S. rewrite E1 in S. unfold sat in S.
  destruct (IH b2 (PartialUtf8 c 0) Hcs eq_refl E2) as [v' Hr]. exists v'.
  rewrite utf8_run_app, (encoding_run c b1) by done. cbn [mbind option_bind]. by rewrite Hr.
Qed.

Lemma encode_text cps : forall bs, Forall (fun c => 0 < c <= 0x10ffff) cps -> unicode_cpts_to_utf8 cps = Ok bs -> text bs.
Proof.
  induction cps as [|c cps IH]; intros bs Hc He; [injection He as <-; constructor|].
  apply encode_cons in He as (b1 & b2 & E1 & E2 & ->). apply Forall_cons in Hc as [Hc Hcs].
  assert (S := encode_ok c ltac:(unfold code_point; lia)). rewrite E1 in S. unfold sat in S.
  apply Forall_app. split; [apply (encoding_text c); [done|lia]|by apply IH].
Qed.

Lemma decode_all cps : forall bs pre acc fuel, Forall code_point cps -> unicode_cpts_to_utf8 cps = Ok bs ->
  (length bs <= fuel)%nat -> cpts_loop fuel (pre ++ bs) (length pre) acc = Ok (acc ++ cps).
Proof.
  induction cps as [|c cps IH]; intros bs pre acc fuel Hc He Hf.
  { injection He as <-. rewrite !app_nil_r. destruct fuel; cbn [cpts_loop]; by rewrite Nat.leb_refl. }
  apply encode_cons in He as (b1 & b2 & E1 & E2 & ->). apply Forall_cons in Hc as [Hc Hcs].
  pose proof (encode_ok c Hc) as S. rewrite E1 in S. unfold sat in S.
  assert (0 < length b1)%nat by (destruct S; simpl; lia). rewrite length_app in Hf.
  destruct fuel as [|fuel]; [lia|]. cbn [cpts_loop]. rewrite (proj2 (Nat.leb_gt _ _)) by (rewrite !length_app; lia).
  rewrite (decode_enc c b1 pre b2 S). rewrite app_assoc, <- length_app.
  rewrite (IH b2 (pre ++ b1)) by (done || lia). by rewrite <- app_assoc.
Qed.

(** ** Theorems *)

(** C22: a list of code points can be encoded, and decoding the encoding gives it back:
    [unicode_cpts_from_utf8] on the whole text, and the decoder of the grammar on any cutting of
    the text into pieces, even through the middle of a character, with nothing pending at the
    end.  (The grammar reads C strings, so there the code point 0 is excluded.) *)
Theorem utf8_round_trip cps (H : Forall code_point cps) :
  exists bs, unicode_cpts_to_utf8 cps = Ok bs /\ unicode_cpts_from_utf8 bs = Ok cps /\
    (Forall (fun c => c <> 0) cps -> forall pieces, concat pieces = bs ->
       exists v, decode_pieces pieces (PartialUtf8 0 0) = Ok (cps, PartialUtf8 v 0)).
Proof.
  destruct (encode_all cps H) as [bs E]. exists bs. split; [done|]. split.
  - unfold unicode_cpts_from_utf8. by apply (decode_all cps bs [] []).
  - intros Hnz pieces Hp. destruct (encode_run cps bs (PartialUtf8 0 0) H eq_refl E) as [v Hr]. exists v.
    apply decode_pieces_run; rewrite Hp; [|done]. apply (encode_text cps); [|done].
    rewrite Forall_forall in *. intros c Hc. specialize (H c Hc). specialize (Hnz c Hc). unfold code_point in H. lia.
Qed.

Lemma utf8_round_trip_witness :
  exists bs, unicode_cpts_to_utf8 [233; 8364; 128512] = Ok bs /\ length bs = 9%nat /\
    unicode_cpts_from_utf8 bs = Ok [233; 8364; 128512].
Proof.
  destruct (utf8_round_trip [233; 8364; 128512]) as (bs & E & D & _).
  - repeat constructor; unfold code_point; lia.
  - exists bs. split; [exact E|]. split; [|exact D]. vm_compute in E. injection E as <-. reflexivity.
Defined.
