(* ===== verification/Grammar.v ===== *)
(** * The grammar engine: a pushdown acceptor on code points

    The elements, rules and stacks of src/src/llama-grammar.h and the acceptor of
    src/src/llama-grammar.cpp: matching of an element, [llama_grammar_advance_stack], accepting
    a character or a token, rejecting the candidates of the sampler, detecting left recursion
    and building a grammar from its rules.

    A pointer to an element is a rule and an offset in it.  A stack is listed from its top: the
    head is [stack.back()] and the tail is [stack.begin() .. stack.end() - 1].  A vector used
    as a work list ([todo]) is listed from its back as well.  [llama_grammar_clone_impl] moves
    the pointers to the same places of a copy of the rules, which this representation does not
    see, so it is left out. *)
From S2P Require Export Utf8.

(** ** Elements, rules and stacks *)

Inductive llama_gretype : Set :=
  | LLAMA_GRETYPE_END
  | LLAMA_GRETYPE_ALT
  | LLAMA_GRETYPE_RULE_REF
  | LLAMA_GRETYPE_CHAR
  | LLAMA_GRETYPE_CHAR_NOT
  | LLAMA_GRETYPE_CHAR_RNG_UPPER
  | LLAMA_GRETYPE_CHAR_ALT
  | LLAMA_GRETYPE_CHAR_ANY
  | LLAMA_GRETYPE_TOKEN
  | LLAMA_GRETYPE_TOKEN_NOT.

#[export] Instance gretype_eq_dec : EqDecision llama_gretype.
Proof. solve_decision. Defined.

Record llama_grammar_element := GElem {
  ge_type : llama_gretype;
  ge_value : Z;
}.

#[export] Instance element_eq_dec : EqDecision llama_grammar_element.
Proof. solve_decision. Defined.

Definition llama_grammar_rule : Type := list llama_grammar_element.
Definition llama_grammar_rules : Type := list llama_grammar_rule.

(** [const llama_grammar_element *]: the rule and the index in it. *)
Definition elem_ptr : Type := nat * nat.
Definition llama_grammar_stack : Type := list elem_ptr.
Definition llama_grammar_stacks : Type := list llama_grammar_stack.

Section acceptor.
Context (rules : llama_grammar_rules).

Definition elem_at (pos : elem_ptr) : res llama_grammar_element :=
  rule ← vec_get rules pos.1; vec_get rule pos.2.

(** [pos + n] *)
Definition ptr_add (pos : elem_ptr) (n : nat) : elem_ptr := (pos.1, pos.2 + n)%nat.

Definition is_end_type (t : llama_gretype) : bool :=
  match t with LLAMA_GRETYPE_END | LLAMA_GRETYPE_ALT => true | _ => false end.

Definition llama_grammar_is_end_of_sequence (pos : elem_ptr) : res bool :=
  e ← elem_at pos; Ok (is_end_type (ge_type e)).

(** ** Matching one element *)

Definition is_positive (t : llama_gretype) : bool :=
  bool_decide (t = LLAMA_GRETYPE_CHAR) || bool_decide (t = LLAMA_GRETYPE_CHAR_ANY).

Definition is_rng (e : llama_grammar_element) : bool := bool_decide (ge_type e = LLAMA_GRETYPE_CHAR_RNG_UPPER).
Definition is_alt (e : llama_grammar_element) : bool := bool_decide (ge_type e = LLAMA_GRETYPE_CHAR_ALT).
Definition is_any (e : llama_grammar_element) : bool := bool_decide (ge_type e = LLAMA_GRETYPE_CHAR_ANY).

(** The [do ... while] loop, on the elements from [pos] to the end of the rule; returns also
    how far [pos] moved. *)
Fixpoint match_char_loop (l : list llama_grammar_element) (chr : Z) (found : bool) (n : nat) : res (bool * nat) :=
  match l with
  | e :: ((e1 :: l2) as l1) =>
      if is_rng e1 then
        let found := found || ((ge_value e <=? chr) && (chr <=? ge_value e1)) in
        match l2 with
        | e2 :: _ => if is_alt e2 then match_char_loop l2 chr found (n + 2) else Ok (found, n + 2)%nat
        | [] => Err OutOfRange
        end
      else
        let found := if is_any e then true else found || (ge_value e =? chr) in
        if is_alt e1 then match_char_loop l1 chr found (n + 1) else Ok (found, n + 1)%nat
  | _ => Err OutOfRange
  end.

Definition llama_grammar_match_char (pos : elem_ptr) (chr : Z) : res (bool * elem_ptr) :=
  rule ← vec_get rules pos.1;
  e ← vec_get rule pos.2;
  let is_positive_char := is_positive (ge_type e) in
  _ ← assert_ (is_positive_char || bool_decide (ge_type e = LLAMA_GRETYPE_CHAR_NOT));
  '(found, n) ← match_char_loop (drop pos.2 rule) chr false 0;
  Ok (eqb found is_positive_char, ptr_add pos n).

(** The loop of [llama_grammar_match_partial_char]; [None]: no range meets [low .. high]. *)
Fixpoint match_partial_loop (l : list llama_grammar_element) (low high : Z) (is_positive_char : bool) : res (option bool) :=
  match l with
  | e :: ((e1 :: l2) as l1) =>
      if is_rng e1 then
        if (ge_value e <=? high) && (low <=? ge_value e1) then Ok (Some is_positive_char) else
        match l2 with
        | e2 :: _ => if is_alt e2 then match_partial_loop l2 low high is_positive_char else Ok None
        | [] => Err OutOfRange
        end
      else if is_any e then Ok (Some true)
      else if (low <=? ge_value e) && (ge_value e <=? high) then Ok (Some is_positive_char)
      else if is_alt e1 then match_partial_loop l1 low high is_positive_char else Ok None
  | _ => Err OutOfRange
  end.

(** The code points a partial sequence can be completed to. *)
Definition partial_low (p : llama_partial_utf8) : Z :=
  let low := u32 (Z.shiftl (pu_value p) (pu_n_remain p * 6)) in
  if low =? 0 then
    if pu_n_remain p =? 2 then Z.shiftl 1 11 else
    if pu_n_remain p =? 3 then Z.shiftl 1 16 else low
  else low.

Definition partial_high (p : llama_partial_utf8) : Z :=
  Z.lor (u32 (Z.shiftl (pu_value p) (pu_n_remain p * 6))) (Z.shiftl 1 (pu_n_remain p * 6) - 1).

Definition llama_grammar_match_partial_char (pos : elem_ptr) (p : llama_partial_utf8) : res bool :=
  rule ← vec_get rules pos.1;
  e ← vec_get rule pos.2;
  let is_positive_char := is_positive (ge_type e) in
  _ ← assert_ (is_positive_char || bool_decide (ge_type e = LLAMA_GRETYPE_CHAR_NOT));
  if (pu_n_remain p <? 0) || ((pu_n_remain p =? 1) && (pu_value p <? 2)) then Ok false else
  r ← match_partial_loop (drop pos.2 rule) (partial_low p) (partial_high p) is_positive_char;
  Ok (match r with Some b => b | None => negb is_positive_char end).

Definition is_token_type (t : llama_gretype) : bool :=
  bool_decide (t = LLAMA_GRETYPE_TOKEN) || bool_decide (t = LLAMA_GRETYPE_TOKEN_NOT).

Definition llama_grammar_match_token (pos : elem_ptr) (token : Z) : res bool :=
  e ← elem_at pos;
  _ ← assert_ (is_token_type (ge_type e));
  if bool_decide (ge_type e = LLAMA_GRETYPE_TOKEN) then Ok (ge_value e =? u32 token)
  else Ok (negb (ge_value e =? u32 token)).

(** ** Expanding the rule references at the top of a stack *)

(** The starts of the alternates after the first one, by scanning the rule from index [i]. *)
Fixpoint alt_starts (l : list llama_grammar_element) (i : nat) : res (list nat) :=
  match l with
  | [] => Err OutOfRange
  | e :: l =>
      match ge_type e with
      | LLAMA_GRETYPE_END => Ok []
      | LLAMA_GRETYPE_ALT => r ← alt_starts l (i + 1); Ok ((i + 1)%nat :: r)
      | _ => alt_starts l (i + 1)
      end
  end.

(** All alternates of a rule. *)
Definition alternates (rule_id : nat) : res (list elem_ptr) :=
  rule ← vec_get rules rule_id;
  starts ← alt_starts rule 0;
  Ok ((fun i => (rule_id, i)) <$> 0%nat :: starts).

(** [if (!is_end_of_sequence(pos)) stack.push_back(pos)] *)
Definition push_unless_end (pos : elem_ptr) (stack : llama_grammar_stack) : res llama_grammar_stack :=
  b ← llama_grammar_is_end_of_sequence pos;
  Ok (if (b : bool) then stack else pos :: stack).

(** The stack for one alternate of the rule that [pos] refers to. *)
Definition next_stack (pos : elem_ptr) (rest : llama_grammar_stack) (subpos : elem_ptr) : res llama_grammar_stack :=
  s ← push_unless_end (ptr_add pos 1) rest;
  push_unless_end subpos s.

(** [if (std::find(...) == end) new_stacks.emplace_back(stack)] *)
Definition add_stack (new_stacks : llama_grammar_stacks) (stack : llama_grammar_stack) : llama_grammar_stacks :=
  if decide (stack ∈ new_stacks) then new_stacks else new_stacks ++ [stack].

(** What one iteration does with a stack not seen before: the stacks to push on [todo], in
    order, or the stack is finished. *)
Definition expand (curr_stack : llama_grammar_stack) : res (option (list llama_grammar_stack)) :=
  match curr_stack with
  | [] => Ok None
  | pos :: rest =>
      e ← elem_at pos;
      match ge_type e with
      | LLAMA_GRETYPE_RULE_REF =>
          alts ← alternates (Z.to_nat (ge_value e));
          next ← mmap (next_stack pos rest) alts;
          Ok (Some next)
      | LLAMA_GRETYPE_CHAR | LLAMA_GRETYPE_CHAR_NOT | LLAMA_GRETYPE_CHAR_ANY
      | LLAMA_GRETYPE_TOKEN | LLAMA_GRETYPE_TOKEN_NOT => Ok None
      | _ => Err AssertFailed
      end
  end.

Fixpoint advance_loop (fuel : nat) (todo : list llama_grammar_stack) (seen : gset llama_grammar_stack)
    (new_stacks : llama_grammar_stacks) : res llama_grammar_stacks :=
  match todo with
  | [] => Ok new_stacks
  | curr_stack :: todo =>
      match fuel with
      | O => Err NoFuel
      | S fuel =>
          if decide (curr_stack ∈ seen) then advance_loop fuel todo seen new_stacks else
          let seen := {[ curr_stack ]} ∪ seen in
          r ← expand curr_stack;
          match r with
          | Some next => advance_loop fuel (rev next ++ todo) seen new_stacks
          | None => advance_loop fuel todo seen (add_stack new_stacks curr_stack)
          end
      end
  end.

Definition llama_grammar_advance_stack (fuel : nat) (stack : llama_grammar_stack) (new_stacks : llama_grammar_stacks) :
    res llama_grammar_stacks :=
  advance_loop fuel [stack] ∅ new_stacks.

(** ** Accepting a character *)

Definition llama_grammar_accept_chr (fuel : nat) (stack : llama_grammar_stack) (chr : Z)
    (new_stacks : llama_grammar_stacks) : res llama_grammar_stacks :=
  match stack with
  | [] => Ok new_stacks
  | pos :: rest =>
      e ← elem_at pos;
      if is_token_type (ge_type e) then Ok new_stacks else
      '(found, after) ← llama_grammar_match_char pos chr;
      if (found : bool) then
        new_stack ← push_unless_end after rest;
        llama_grammar_advance_stack fuel new_stack new_stacks
      else Ok new_stacks
  end.

(** The loop over the stacks, used by [llama_grammar_accept] and [llama_grammar_accept_token]. *)
Definition accept_stacks (fuel : nat) (stacks : llama_grammar_stacks) (chr : Z) : res llama_grammar_stacks :=
  mfor (fun new stack => llama_grammar_accept_chr fuel stack chr new) stacks [].

(** ** Accepting a token

    The stacks that survive the code points of a piece; the loop leaves when none does. *)
Fixpoint survive (fuel : nat) (code_points : list Z) (current_stacks : llama_grammar_stacks) : res llama_grammar_stacks :=
  match code_points with
  | [] => Ok current_stacks
  | chr :: code_points =>
      next_stacks ← accept_stacks fuel current_stacks chr;
      match next_stacks with
      | [] => Ok []
      | _ => survive fuel code_points next_stacks
      end
  end.

Definition accept_token_stack (fuel : nat) (token : Z) (code_points : list Z)
    (stacks_new : llama_grammar_stacks) (stack : llama_grammar_stack) : res llama_grammar_stacks :=
  match stack with
  | [] => Ok stacks_new
  | pos :: rest =>
      e ← elem_at pos;
      if is_token_type (ge_type e) then
        b ← llama_grammar_match_token pos token;
        if (b : bool) then
          new_stack ← push_unless_end (ptr_add pos 1) rest;
          llama_grammar_advance_stack fuel new_stack stacks_new
        else Ok stacks_new
      else
        current_stacks ← survive fuel code_points [stack];
        Ok (foldl add_stack stacks_new current_stacks)
  end.

(** ** Rejecting candidates *)

Record llama_grammar_candidate := GCand {
  gc_index : nat;
  gc_code_points : list Z;         (* the array, closed by a zero *)
  gc_pos : nat;                    (* where [code_points] points to *)
  gc_partial : llama_partial_utf8;
  gc_id : Z;
}.

Definition cand_chr (tok : llama_grammar_candidate) : res Z := vec_get (gc_code_points tok) (gc_pos tok).
Definition cand_move (f : nat -> nat) (tok : llama_grammar_candidate) : llama_grammar_candidate :=
  GCand (gc_index tok) (gc_code_points tok) (f (gc_pos tok)) (gc_partial tok) (gc_id tok).

(** One candidate at an empty stack, and at a token element: is it rejected? *)
Definition reject_at_empty (tok : llama_grammar_candidate) : res bool :=
  c ← cand_chr tok;
  Ok (negb (c =? 0) || negb (pu_n_remain (gc_partial tok) =? 0)).

Definition reject_at_token (stack_pos : elem_ptr) (tok : llama_grammar_candidate) : res bool :=
  c ← cand_chr tok;
  if c =? 0 then Ok (negb (pu_n_remain (gc_partial tok) =? 0))
  else b ← llama_grammar_match_token stack_pos (gc_id tok); Ok (negb b).

Fixpoint mfilter (f : llama_grammar_candidate -> res bool) (l : list llama_grammar_candidate) :
    res (list llama_grammar_candidate) :=
  match l with
  | [] => Ok []
  | tok :: l => b ← f tok; r ← mfilter f l; Ok (if (b : bool) then tok :: r else r)
  end.

(** The loop at a character element: the candidates rejected here and the ones that go on. *)
Definition split_candidate (stack_pos : elem_ptr)
    (s : list llama_grammar_candidate * list llama_grammar_candidate) (tok : llama_grammar_candidate) :
    res (list llama_grammar_candidate * list llama_grammar_candidate) :=
  let '(rejects, next_candidates) := s in
  c ← cand_chr tok;
  if c =? 0 then
    if pu_n_remain (gc_partial tok) =? 0 then Ok (rejects, next_candidates) else
    b ← llama_grammar_match_partial_char stack_pos (gc_partial tok);
    Ok (if (b : bool) then (rejects, next_candidates) else (rejects ++ [tok], next_candidates))
  else
    '(found, _) ← llama_grammar_match_char stack_pos c;
    Ok (if (found : bool) then (rejects, next_candidates ++ [cand_move S tok])
        else (rejects ++ [tok], next_candidates)).

(** The loop over the stacks: a candidate is rejected when every stack rejects it. *)
Definition reject_candidates_with (reject : llama_grammar_stack -> list llama_grammar_candidate -> res (list llama_grammar_candidate))
    (stacks : llama_grammar_stacks) (candidates : list llama_grammar_candidate) : res (list llama_grammar_candidate) :=
  match stacks with
  | [] => Err AssertFailed
  | stack :: stacks =>
      match candidates with
      | [] => Ok []
      | _ => rejects ← reject stack candidates; mfor (fun r s => reject s r) stacks rejects
      end
  end.

(** The two functions call each other, one code point further each time: [depth] bounds that,
    [fuel] is for [llama_grammar_advance_stack]. *)
Fixpoint llama_grammar_reject_candidates_for_stack (depth fuel : nat) (stack : llama_grammar_stack)
    (candidates : list llama_grammar_candidate) : res (list llama_grammar_candidate) :=
  match depth with
  | O => Err NoFuel
  | S depth =>
      match stack with
      | [] => mfilter reject_at_empty candidates
      | stack_pos :: rest =>
          e ← elem_at stack_pos;
          if is_token_type (ge_type e) then mfilter (reject_at_token stack_pos) candidates else
          '(rejects, next_candidates) ← mfor (split_candidate stack_pos) candidates ([], []);
          '(_, stack_pos_after) ← llama_grammar_match_char stack_pos 0;
          stack_after ← push_unless_end stack_pos_after rest;
          next_stacks ← llama_grammar_advance_stack fuel stack_after [];
          next_rejects ← reject_candidates_with (llama_grammar_reject_candidates_for_stack depth fuel) next_stacks next_candidates;
          Ok (rejects ++ (cand_move pred <$> next_rejects))
      end
  end.

Definition llama_grammar_reject_candidates (depth fuel : nat) (stacks : llama_grammar_stacks)
    (candidates : list llama_grammar_candidate) : res (list llama_grammar_candidate) :=
  reject_candidates_with (llama_grammar_reject_candidates_for_stack depth fuel) stacks candidates.

(** ** Left recursion *)

Record lr_state := LrState {
  lr_visited : list bool;
  lr_in_progress : list bool;
  lr_may_be_empty : list bool;
}.

(** Does the rule have an empty alternate? *)
Fixpoint has_empty_alternate (rule : llama_grammar_rule) (at_rule_start : bool) : bool :=
  match rule with
  | [] => false
  | e :: rule =>
      if is_end_type (ge_type e) then if at_rule_start then true else has_empty_alternate rule true
      else has_empty_alternate rule false
  end.

(** The second loop: into the leftmost rule references. [true]: left recursion. *)
Fixpoint leftmost_loop (detect : nat -> lr_state -> res (bool * lr_state)) (rule : llama_grammar_rule)
    (recurse_into_nonterminal : bool) (s : lr_state) : res (bool * lr_state) :=
  match rule with
  | [] => Ok (false, s)
  | e :: rule =>
      if bool_decide (ge_type e = LLAMA_GRETYPE_RULE_REF) && recurse_into_nonterminal then
        '(b, s) ← detect (Z.to_nat (ge_value e)) s;
        if (b : bool) then Ok (true, s) else
        empty ← vec_get (lr_may_be_empty s) (Z.to_nat (ge_value e));
        leftmost_loop detect rule empty s
      else leftmost_loop detect rule (is_end_type (ge_type e)) s
  end.

Fixpoint llama_grammar_detect_left_recursion (fuel : nat) (rule_index : nat) (s : lr_state) : res (bool * lr_state) :=
  match fuel with
  | O => Err NoFuel
  | S fuel =>
      busy ← vec_get (lr_in_progress s) rule_index;
      if (busy : bool) then Ok (true, s) else
      in_progress ← vec_set (lr_in_progress s) rule_index true;
      rule ← vec_get rules rule_index;
      may_be_empty ← (if has_empty_alternate rule true then vec_set (lr_may_be_empty s) rule_index true
                      else Ok (lr_may_be_empty s));
      '(b, s) ← leftmost_loop (llama_grammar_detect_left_recursion fuel) rule true
                  (LrState (lr_visited s) in_progress may_be_empty);
      if (b : bool) then Ok (true, s) else
      in_progress ← vec_set (lr_in_progress s) rule_index false;
      visited ← vec_set (lr_visited s) rule_index true;
      Ok (false, LrState visited in_progress (lr_may_be_empty s))
  end.

(** The loop of [llama_grammar_init_impl] over the rules. *)
Definition check_rule (s : bool * lr_state) (i : nat) : res (bool * lr_state) :=
  if s.1 then Ok s else
  visited ← vec_get (lr_visited s.2) i;
  if (visited : bool) then Ok s else
  llama_grammar_detect_left_recursion (S (length rules)) i s.2.

Definition is_left_recursive : res bool :=
  let none := replicate (length rules) false in
  '(b, _) ← mfor check_rule (seq 0 (length rules)) (false, LrState none none none);
  Ok b.

(** The initial stacks: one for each alternate of the start rule, expanded. *)
Definition initial_stacks (fuel : nat) (start_rule_index : nat) : res llama_grammar_stacks :=
  alts ← alternates start_rule_index;
  mfor (fun stacks pos =>
    stack ← push_unless_end pos [];
    llama_grammar_advance_stack fuel stack stacks) alts [].
End acceptor.

(** ** The grammar object *)

(** What the engine asks the vocabulary. *)
Record llama_vocab := LlamaVocab {
  vc_token_to_piece : Z -> list Z;
  vc_is_eog : Z -> bool;
  vc_tokenize : list Z -> list Z;
}.

(** A trigger: its pattern, and [std::regex_match] and [std::regex_search] for its regular
    expression, which return the position and length of every group, the whole match first. *)
Record llama_grammar_trigger_pattern := TriggerPattern {
  tp_pattern : list Z;
  tp_match : list Z -> option (list (nat * nat));
  tp_search : list Z -> option (list (nat * nat));
}.

Record llama_grammar := LlamaGrammar {
  g_vocab : option llama_vocab;
  g_rules : llama_grammar_rules;
  g_stacks : llama_grammar_stacks;
  g_partial_utf8 : llama_partial_utf8;
  g_lazy : bool;
  g_awaiting_trigger : bool;
  g_trigger_buffer : list Z;
  g_trigger_buffer_positions : list (Z * (nat * nat));
  g_trigger_tokens : list Z;
  g_trigger_patterns : list llama_grammar_trigger_pattern;
}.

Definition with_stacks (g : llama_grammar) (stacks : llama_grammar_stacks) (p : llama_partial_utf8) : llama_grammar :=
  LlamaGrammar (g_vocab g) (g_rules g) stacks p (g_lazy g) (g_awaiting_trigger g) (g_trigger_buffer g)
    (g_trigger_buffer_positions g) (g_trigger_tokens g) (g_trigger_patterns g).

Definition with_trigger (g : llama_grammar) (awaiting : bool) (buffer : list Z) (positions : list (Z * (nat * nat))) : llama_grammar :=
  LlamaGrammar (g_vocab g) (g_rules g) (g_stacks g) (g_partial_utf8 g) (g_lazy g) awaiting buffer
    positions (g_trigger_tokens g) (g_trigger_patterns g).

(** ** Building a grammar *)

(** A rule is copied up to its end marker. *)
Fixpoint copy_rule (l : list llama_grammar_element) : res llama_grammar_rule :=
  match l with
  | [] => Err OutOfRange
  | e :: l =>
      match ge_type e with
      | LLAMA_GRETYPE_END => Ok [GElem LLAMA_GRETYPE_END 0]
      | _ => r ← copy_rule l; Ok (e :: r)
      end
  end.

Definition llama_grammar_init_rules (fuel : nat) (vocab : option llama_vocab)
    (rules : list (list llama_grammar_element)) (start_rule_index : nat) : res (option llama_grammar) :=
  vec_rules ← mmap copy_rule rules;
  lr ← is_left_recursive vec_rules;
  if (lr : bool) then Ok None else
  stacks ← initial_stacks vec_rules fuel start_rule_index;
  Ok (Some (LlamaGrammar vocab vec_rules stacks (PartialUtf8 0 0) false false [] [] [] [])).

(** ** Accepting *)

Definition llama_grammar_accept (fuel : nat) (g : llama_grammar) (chr : Z) : res llama_grammar :=
  stacks ← accept_stacks (g_rules g) fuel (g_stacks g) chr;
  Ok (with_stacks g stacks (g_partial_utf8 g)).

Definition llama_grammar_accept_str (fuel : nat) (g : llama_grammar) (piece : list Z) : res llama_grammar :=
  '(code_points, p) ← decode_utf8_partial piece (g_partial_utf8 g);
  g ← mfor (llama_grammar_accept fuel) (removelast code_points) g;
  match g_stacks g with
  | [] => Err Thrown
  | _ => Ok (with_stacks g (g_stacks g) p)
  end.

Definition llama_grammar_accept_token (fuel : nat) (g : llama_grammar) (token : Z) (piece : list Z) : res llama_grammar :=
  '(code_points, p) ← decode_utf8_partial piece (g_partial_utf8 g);
  stacks_new ← mfor (accept_token_stack (g_rules g) fuel token (removelast code_points)) (g_stacks g) [];
  match stacks_new with
  | [] => Err Thrown
  | _ => Ok (with_stacks g stacks_new p)
  end.

(** *** Triggers *)

Definition find_start_pos (m : list (nat * nat)) : nat :=
  match filter (fun g => (0 < g.2)%nat) (tail m) with
  | g :: _ => g.1
  | [] => match m with g :: _ => g.1 | [] => 0%nat end
  end.

Definition tp_find (t : llama_grammar_trigger_pattern) (input : list Z) : option nat :=
  let whole := match tp_pattern t with
               | [] => false
               | c :: _ => (c =? 94) && bool_decide (last (tp_pattern t) = Some 36)   (* ^ and $ *)
               end in
  match (if whole then tp_match t input else None) with
  | Some m => Some (find_start_pos m)
  | None => find_start_pos <$> tp_search t input
  end.

(** Replaying a buffered token that ends after [start]. *)
Definition replay_token (fuel start : nat) (g : llama_grammar) (tp : Z * (nat * nat)) : res llama_grammar :=
  let '(tok, (tok_start, tok_end)) := tp in
  if (tok_end <=? start)%nat then Ok g else
  let piece_start := if (tok_start <? start)%nat then start else tok_start in
  let piece_len := (tok_end - piece_start)%nat in
  llama_grammar_accept_token fuel g tok (take piece_len (drop piece_start (g_trigger_buffer g))).

(** The first pattern that is found. *)
Fixpoint find_trigger (patterns : list llama_grammar_trigger_pattern) (buffer : list Z) : option nat :=
  match patterns with
  | [] => None
  | t :: patterns => match tp_find t buffer with Some start => Some start | None => find_trigger patterns buffer end
  end.

Definition has_empty_stack (stacks : llama_grammar_stacks) : bool :=
  existsb (fun s => match s with [] => true | _ => false end) stacks.

Definition llama_grammar_accept_impl (fuel : nat) (g : llama_grammar) (token : Z) : res llama_grammar :=
  match g_vocab g with
  | None => Err AssertFailed
  | Some vocab =>
      let piece := vc_token_to_piece vocab token in
      if g_awaiting_trigger g then
        if bool_decide (token ∈ g_trigger_tokens g) then
          llama_grammar_accept_token fuel (with_trigger g false [] (g_trigger_buffer_positions g)) token piece
        else
          let position := (length (g_trigger_buffer g), length (g_trigger_buffer g) + length piece)%nat in
          let g := with_trigger g true (g_trigger_buffer g ++ piece) (g_trigger_buffer_positions g ++ [(token, position)]) in
          match find_trigger (g_trigger_patterns g) (g_trigger_buffer g) with
          | Some start =>
              let g := with_trigger g false (g_trigger_buffer g) (g_trigger_buffer_positions g) in
              g ← mfor (replay_token fuel start) (g_trigger_buffer_positions g) g;
              Ok (with_trigger g false [] [])
          | None => Ok g
          end
      else if vc_is_eog vocab token then
        if has_empty_stack (g_stacks g) then Ok g else Err AssertFailed
      else llama_grammar_accept_token fuel g token piece
  end.

(** ** Constraining the sampler: the logits of the rejected tokens become [-INFINITY] *)

Section apply.
Context {L : Type} (neg_infinity : L).

(** The first loop: tokens refused at once, and the candidates of the others. *)
Definition collect_candidate (vocab : llama_vocab) (allow_eog : bool) (p : llama_partial_utf8)
    (s : list (Z * L) * list llama_grammar_candidate) (it : nat * (Z * L)) :
    res (list (Z * L) * list llama_grammar_candidate) :=
  let '(data, cands) := s in
  let '(i, (id, _)) := it in
  let piece := vc_token_to_piece vocab id in
  if vc_is_eog vocab id then
    Ok (if allow_eog then data else <[i := (id, neg_infinity)]> data, cands)
  else if at_end piece then Ok (<[i := (id, neg_infinity)]> data, cands)
  else
    '(code_points, p) ← decode_utf8_partial piece p;
    Ok (data, cands ++ [GCand i code_points 0 p id]).

Definition reject_logit (data : list (Z * L)) (tok : llama_grammar_candidate) : list (Z * L) :=
  alter (fun x => (x.1, neg_infinity)) (gc_index tok) data.

Definition llama_grammar_apply_impl (depth fuel : nat) (g : llama_grammar) (cur_p : list (Z * L)) : res (list (Z * L)) :=
  match g_vocab g with
  | None => Err AssertFailed
  | Some vocab =>
      if g_awaiting_trigger g then Ok cur_p else
      '(data, candidates) ← mfor (collect_candidate vocab (has_empty_stack (g_stacks g)) (g_partial_utf8 g))
                              (imap pair cur_p) (cur_p, []);
      rejects ← llama_grammar_reject_candidates (g_rules g) depth fuel (g_stacks g) candidates;
      Ok (foldl reject_logit data rejects)
  end.
End apply.
