(* ===== verification/GrammarTheory.v ===== *)
(** * The acceptor accepts the language of the grammar

    The language of a grammar ([derives]) as a reference, well-formed rules ([wf_rules]), and
    the proof that [llama_grammar_advance_stack] returns exactly the finished stacks reachable
    by expanding rule references, and that the stacks after a text generate its continuations. *)
From S2P Require Export Grammar.

(** ** Well-formed rules

    A rule ends with its only [END]; a reference is to an existing rule; [CHAR_RNG_UPPER]
    follows a character, [CHAR_ALT] a character or a range.  The mode is what may be modified. *)
Inductive char_mode : Set := NoChar | OneChar | CharRange.

Definition elem_ok (n_rules : nat) (m : char_mode) (e : llama_grammar_element) : bool :=
  match ge_type e with
  | LLAMA_GRETYPE_END => false
  | LLAMA_GRETYPE_RULE_REF => (0 <=? ge_value e) && (ge_value e <? Z.of_nat n_rules)
  | LLAMA_GRETYPE_CHAR_RNG_UPPER => match m with OneChar => true | _ => false end
  | LLAMA_GRETYPE_CHAR_ALT => match m with NoChar => false | _ => true end
  | _ => true
  end.

Definition next_mode (e : llama_grammar_element) : char_mode :=
  match ge_type e with
  | LLAMA_GRETYPE_CHAR | LLAMA_GRETYPE_CHAR_NOT | LLAMA_GRETYPE_CHAR_ALT => OneChar
  | LLAMA_GRETYPE_CHAR_RNG_UPPER => CharRange
  | _ => NoChar
  end.

Fixpoint rule_ok (n_rules : nat) (m : char_mode) (l : list llama_grammar_element) : bool :=
  match l with
  | [] => false
  | [e] => bool_decide (ge_type e = LLAMA_GRETYPE_END)
  | e :: l => elem_ok n_rules m e && rule_ok n_rules (next_mode e) l
  end.

Definition wf_rulesb (rules : llama_grammar_rules) : bool :=
  forallb (rule_ok (length rules) NoChar) rules.
Definition wf_rules (rules : llama_grammar_rules) : Prop := wf_rulesb rules = true.

(** ** The language *)

(** The elements from [pos] on match the character class written there. *)
Fixpoint class_matches (l : list llama_grammar_element) (c : Z) : bool :=
  match l with
  | e :: ((e1 :: l2) as l1) =>
      if is_rng e1 then
        ((ge_value e <=? c) && (c <=? ge_value e1)) ||
        match l2 with e2 :: _ => is_alt e2 && class_matches l2 c | [] => false end
      else (is_any e || (ge_value e =? c)) || (is_alt e1 && class_matches l1 c)
  | _ => false
  end.

(** The number of elements of the class. *)
Fixpoint class_len (l : list llama_grammar_element) : nat :=
  match l with
  | e :: ((e1 :: l2) as l1) =>
      if is_rng e1 then match l2 with e2 :: _ => if is_alt e2 then 2 + class_len l2 else 2 | [] => 2 end
      else if is_alt e1 then 1 + class_len l1 else 1
  | _ => 1
  end.

Section language.
Context (rules : llama_grammar_rules).

Definition suffix (p : elem_ptr) : list llama_grammar_element := drop p.2 (default [] (rules !! p.1)).
Definition type_at (p : elem_ptr) : option llama_gretype := ge_type <$> head (suffix p).

Definition at_end_of_seq (p : elem_ptr) : Prop :=
  type_at p = Some LLAMA_GRETYPE_END \/ type_at p = Some LLAMA_GRETYPE_ALT.

#[export] Instance at_end_dec p : Decision (at_end_of_seq p).
Proof. unfold at_end_of_seq. apply _. Defined.

(** [c] is one of the characters that the element at [p] stands for. *)
Definition char_at (p : elem_ptr) (c : Z) : Prop :=
  match type_at p with
  | Some LLAMA_GRETYPE_CHAR | Some LLAMA_GRETYPE_CHAR_ANY => class_matches (suffix p) c = true
  | Some LLAMA_GRETYPE_CHAR_NOT => class_matches (suffix p) c = false
  | _ => False
  end.

Definition after_char (p : elem_ptr) : elem_ptr := ptr_add p (class_len (suffix p)).

(** [q] is the start of an alternate of rule [r]. *)
Definition alt_of (r : nat) (q : elem_ptr) : Prop :=
  exists alts, alternates rules r = Ok alts /\ q ∈ alts.

(** The rule referred to at [p]. *)
Definition ref_at (p : elem_ptr) (r : nat) : Prop :=
  exists v, head (suffix p) = Some (GElem LLAMA_GRETYPE_RULE_REF v) /\ Z.to_nat v = r.

(** The texts generated by the rest of the alternate that starts at [p].  Elements that stand
    for tokens generate nothing here: they match no text. *)
Inductive derives : elem_ptr -> list Z -> Prop :=
  | derives_end p : at_end_of_seq p -> derives p []
  | derives_char p c w : char_at p c -> derives (after_char p) w -> derives p (c :: w)
  | derives_ref p r q w1 w2 : ref_at p r -> alt_of r q -> derives q w1 -> derives (ptr_add p 1) w2 ->
      derives p (w1 ++ w2).

(** The texts of a rule. *)
Definition language (r : nat) (w : list Z) : Prop := exists q, alt_of r q /\ derives q w.

(** ** The acceptor as a relation *)

Definition push (p : elem_ptr) (s : llama_grammar_stack) : llama_grammar_stack :=
  if decide (at_end_of_seq p) then s else p :: s.

(** Expanding the reference at the top. *)
Inductive child : llama_grammar_stack -> llama_grammar_stack -> Prop :=
  | child_ref p r q s : ref_at p r -> alt_of r q -> child (p :: s) (push q (push (ptr_add p 1) s)).

(** A stack generates a text. *)
Inductive generates : llama_grammar_stack -> list Z -> Prop :=
  | gen_nil : generates [] []
  | gen_child s s' w : child s s' -> generates s' w -> generates s w
  | gen_char p c s w : char_at p c -> generates (push (after_char p) s) w -> generates (p :: s) (c :: w).

Lemma push_end p s : at_end_of_seq p -> push p s = s.
Proof. intros. unfold push. by rewrite decide_True. Qed.

Lemma push_in p s : ~ at_end_of_seq p -> push p s = p :: s.
Proof. intros. unfold push. by rewrite decide_False. Qed.

Lemma ref_not_end p r : ref_at p r -> ~ at_end_of_seq p.
Proof. intros (v & E & _). unfold at_end_of_seq, type_at. rewrite E. cbn. naive_solver. Qed.

Lemma char_not_end p c : char_at p c -> ~ at_end_of_seq p.
Proof. unfold char_at. intros H [E|E]; by rewrite E in H. Qed.

(** Generation by stacks and derivation agree: a stack generates the concatenation of what its
    positions derive. *)
Lemma derives_generates p w1 : derives p w1 -> forall s w2, generates s w2 -> generates (push p s) (w1 ++ w2).
Proof.
  induction 1 as [p He|p c w Hc _ IH|p r q w1 w2' Hr Hq _ IHq _ IHn]; intros s w2 Hs.
  - by rewrite push_end.
  - rewrite push_in by (by eapply char_not_end). cbn. apply gen_char; [done|]. by apply IH.
  - rewrite push_in by (by eapply ref_not_end). rewrite <- app_assoc.
    eapply gen_child; [by eapply child_ref|]. by apply IHq, IHn.
Qed.

Inductive stack_derives : llama_grammar_stack -> list Z -> Prop :=
  | sd_nil : stack_derives [] []
  | sd_cons p s w1 w2 : derives p w1 -> stack_derives s w2 -> stack_derives (p :: s) (w1 ++ w2).

Lemma stack_derives_push p s w : stack_derives (push p s) w ->
  exists w1 w2, w = w1 ++ w2 /\ derives p w1 /\ stack_derives s w2.
Proof.
  unfold push. destruct (decide _) as [He|He].
  - intros H. exists [], w. split_and!; [done|by constructor|done].
  - inversion 1; subst. eauto.
Qed.

Lemma generates_derives s w : generates s w -> stack_derives s w.
Proof.
  induction 1 as [|s s' w Hc _ IH|p c s w Hc _ IH].
  - constructor.
  - destruct Hc as [p r q s Hr Hq]. apply stack_derives_push in IH as (w1 & w2 & -> & Hq1 & IH).
    apply stack_derives_push in IH as (w3 & w4 & -> & Hn & Hs). rewrite app_assoc.
    constructor; [|done]. by eapply derives_ref.
  - apply stack_derives_push in IH as (w1 & w2 & -> & Hd & Hs).
    rewrite app_comm_cons. constructor; [by constructor|done].
Qed.

Lemma generates_push p w : generates (push p []) w <-> derives p w.
Proof.
  split.
  - intros H%generates_derives. apply stack_derives_push in H as (w1 & w2 & -> & Hd & Hs).
    inversion Hs; subst. by rewrite app_nil_r.
  - intros H. rewrite <- (app_nil_r w). apply derives_generates; [done|constructor].
Qed.
End language.

(** ** The code on well-formed rules *)

Lemma elem_add_stack out s t : t ∈ add_stack out s <-> t ∈ out \/ t = s.
Proof. unfold add_stack. destruct (decide _); set_solver. Qed.

Section wf.
Context (rules : llama_grammar_rules) (W : wf_rules rules).
Abbreviation n_rules := (length rules).
Abbreviation suffix := (suffix rules).
Abbreviation at_end_of_seq := (at_end_of_seq rules).
Abbreviation push := (push rules).
Abbreviation child := (child rules).

(** A position where an element starts (not inside a character class), or the end. *)
Definition start_ok (p : elem_ptr) : Prop := rule_ok n_rules NoChar (suffix p) = true.
Definition stack_ok (s : llama_grammar_stack) : Prop := Forall (fun p => start_ok p /\ ~ at_end_of_seq p) s.

(** No reference at the top. *)
Definition finished (s : llama_grammar_stack) : Prop :=
  match s with [] => True | p :: _ => forall r, ~ ref_at rules p r end.

Lemma wf_rule r : (r < n_rules)%nat -> exists rule, rules !! r = Some rule /\ rule_ok n_rules NoChar rule = true.
Proof.
  intros [rule Hr]%lookup_lt_is_Some. exists rule. split; [done|].
  pose proof W as H. unfold wf_rules, wf_rulesb in H. rewrite forallb_forall in H. apply H, list_elem_of_In.
  by eapply list_elem_of_lookup_2.
Qed.

Lemma rule_ok_cons m e l : rule_ok n_rules m (e :: l) = true ->
  (l = [] /\ ge_type e = LLAMA_GRETYPE_END) \/
  (l <> [] /\ ge_type e <> LLAMA_GRETYPE_END /\ elem_ok n_rules m e = true /\ rule_ok n_rules (next_mode e) l = true).
Proof.
  destruct l as [|e1 l]; cbn [rule_ok].
  - intros H%bool_decide_eq_true. by left.
  - intros [H1 H2]%andb_prop. right. split_and!; try done.
    intros E. unfold elem_ok in H1. by rewrite E in H1.
Qed.

(** The mode matters only for modifiers. *)
Lemma rule_ok_mode m e l : rule_ok n_rules m (e :: l) = true -> is_rng e = false -> is_alt e = false ->
  rule_ok n_rules NoChar (e :: l) = true.
Proof.
  unfold is_rng, is_alt. intros H H1%bool_decide_eq_false H2%bool_decide_eq_false.
  destruct l as [|e1 l]; cbn [rule_ok] in *; [done|]. apply andb_prop in H as [H ->]. rewrite andb_true_r.
  unfold elem_ok in *. by destruct (ge_type e).
Qed.

Lemma suffix_elem p e l : suffix p = e :: l -> elem_at rules p = Ok e /\
  (exists rule, vec_get rules p.1 = Ok rule /\ vec_get rule p.2 = Ok e /\ drop p.2 rule = e :: l) /\ suffix (ptr_add p 1) = l.
Proof.
  unfold GrammarTheory.suffix, elem_at, ptr_add. intros H. cbn [fst snd].
  destruct (rules !! p.1) as [rule|] eqn:E; [|cbn in H; by rewrite drop_nil in H].
  assert (Hv : vec_get rules p.1 = Ok rule) by (by apply vec_get_ok). rewrite Hv. cbn [mbind res_bind default] in *.
  assert (He : vec_get rule p.2 = Ok e).
  { apply vec_get_ok. rewrite <- (Nat.add_0_r p.2), <- lookup_drop. cbn in H. by rewrite H. }
  split; [done|]. split; [by exists rule|]. cbn in *. by rewrite <- drop_drop, H.
Qed.

Lemma suffix_drop p k : suffix (ptr_add p k) = drop k (suffix p).
Proof. unfold GrammarTheory.suffix, ptr_add. cbn. by rewrite drop_drop. Qed.

Lemma start_cases p : start_ok p -> exists e l, suffix p = e :: l /\ type_at rules p = Some (ge_type e) /\
  elem_at rules p = Ok e.
Proof.
  unfold start_ok. intros H. destruct (suffix p) as [|e l] eqn:E; [done|].
  exists e, l. unfold type_at. rewrite E. split_and!; [done..|]. by apply (suffix_elem p e l).
Qed.

Lemma is_end_ok p : start_ok p -> llama_grammar_is_end_of_sequence rules p = Ok (bool_decide (at_end_of_seq p)).
Proof.
  intros (e & l & E & Et & Ea)%start_cases. unfold llama_grammar_is_end_of_sequence. rewrite Ea. cbn.
  f_equal. destruct (is_end_type (ge_type e)) eqn:Ee; symmetry.
  - apply bool_decide_eq_true_2. unfold GrammarTheory.at_end_of_seq. rewrite Et. destruct (ge_type e); naive_solver.
  - apply bool_decide_eq_false_2. unfold GrammarTheory.at_end_of_seq. rewrite Et. destruct (ge_type e); naive_solver.
Qed.

Lemma push_ok p s : start_ok p -> push_unless_end rules p s = Ok (push p s).
Proof.
  intros H. unfold push_unless_end, GrammarTheory.push. rewrite is_end_ok by done. cbn. f_equal.
  by destruct (decide (at_end_of_seq p)); [rewrite bool_decide_true|rewrite bool_decide_false].
Qed.

Lemma push_stack_ok p s : start_ok p -> stack_ok s -> stack_ok (push p s).
Proof. unfold GrammarTheory.push. intros. destruct (decide _); [done|]. by constructor. Qed.

(** *** Character classes *)

Lemma match_char_loop_eq e e1 l2 chr found n : match_char_loop (e :: e1 :: l2) chr found n =
  if is_rng e1 then
    let found := found || ((ge_value e <=? chr) && (chr <=? ge_value e1)) in
    match l2 with
    | e2 :: _ => if is_alt e2 then match_char_loop l2 chr found (n + 2) else Ok (found, n + 2)%nat
    | [] => Err OutOfRange
    end
  else
    let found := if is_any e then true else found || (ge_value e =? chr) in
    if is_alt e1 then match_char_loop (e1 :: l2) chr found (n + 1) else Ok (found, n + 1)%nat.
Proof. reflexivity. Qed.

Lemma class_matches_eq e e1 l2 c : class_matches (e :: e1 :: l2) c =
  if is_rng e1 then
    ((ge_value e <=? c) && (c <=? ge_value e1)) ||
    match l2 with e2 :: _ => is_alt e2 && class_matches l2 c | [] => false end
  else (is_any e || (ge_value e =? c)) || (is_alt e1 && class_matches (e1 :: l2) c).
Proof. reflexivity. Qed.

Lemma class_len_eq e e1 l2 : class_len (e :: e1 :: l2) =
  if is_rng e1 then match l2 with e2 :: _ => if is_alt e2 then (2 + class_len l2)%nat else 2%nat | [] => 2%nat end
  else if is_alt e1 then (1 + class_len (e1 :: l2))%nat else 1%nat.
Proof. reflexivity. Qed.

Lemma match_class_ok k : forall l m chr found n, (length l <= k)%nat -> rule_ok n_rules m l = true ->
  match l with e :: _ => ge_type e ∈ [LLAMA_GRETYPE_CHAR; LLAMA_GRETYPE_CHAR_NOT; LLAMA_GRETYPE_CHAR_ANY; LLAMA_GRETYPE_CHAR_ALT]
             | [] => True end ->
  match_char_loop l chr found n = Ok (found || class_matches l chr, n + class_len l)%nat /\
  rule_ok n_rules NoChar (drop (class_len l) l) = true.
Proof.
  induction k as [|k IH]; intros l m chr found n Hk Hok Hc.
  { destruct l; [done|simpl in Hk; lia]. }
  destruct l as [|e l1]; [done|].
  apply rule_ok_cons in Hok as [[-> He]|(Hne & _ & _ & Hok)].
  { rewrite He in Hc. set_solver. }
  destruct l1 as [|e1 l2]; [done|]. rewrite match_char_loop_eq, class_matches_eq, class_len_eq. cbv zeta.
  destruct (is_rng e1) eqn:E1.
  - apply bool_decide_eq_true in E1 as T1. apply rule_ok_cons in Hok as [[_ He]|(Hne2 & _ & _ & Hok2)]; [by rewrite T1 in He|].
    destruct l2 as [|e2 l3]; [done|]. unfold next_mode in Hok2. rewrite T1 in Hok2.
    destruct (is_alt e2) eqn:E2.
    + assert (T2 := E2). apply bool_decide_eq_true in T2.
      destruct (IH (e2 :: l3) CharRange chr (found || (ge_value e <=? chr) && (chr <=? ge_value e1)) (n + 2)%nat) as [-> Hd];
        [simpl in *; lia|done|rewrite T2; set_solver|].
      split; [f_equal; f_equal; [by rewrite orb_assoc|lia]|]. by cbn [Nat.add drop].
    + split; [by rewrite orb_false_r|]. cbn [drop]. apply (rule_ok_mode CharRange); [done| |done].
      apply bool_decide_eq_false. intros T. assert (Ho : elem_ok n_rules CharRange e2 = true).
      { destruct l3; cbn [rule_ok] in Hok2; [apply bool_decide_eq_true in Hok2; congruence|by apply andb_prop in Hok2 as [? _]]. }
      unfold elem_ok in Ho. by rewrite T in Ho.
  - assert (Hf : (if is_any e then true else found || (ge_value e =? chr)) = found || (is_any e || (ge_value e =? chr))).
    { destruct (is_any e); [by rewrite orb_true_r|done]. }
    rewrite Hf. destruct (is_alt e1) eqn:E2.
    + assert (T2 := E2). apply bool_decide_eq_true in T2.
      destruct (IH (e1 :: l2) (next_mode e) chr (found || (is_any e || (ge_value e =? chr))) (n + 1)%nat) as [-> Hd];
        [simpl in *; lia|done|rewrite T2; set_solver|].
      split; [f_equal; f_equal; [cbn [andb]; by rewrite !orb_assoc|lia]|]. by cbn [Nat.add drop].
    + split; [cbn [andb]; by rewrite !orb_false_r|]. cbn [drop]. by apply (rule_ok_mode (next_mode e)).
Qed.

(** A position whose element stands for characters. *)
Definition char_elem (p : elem_ptr) : Prop :=
  exists t, type_at rules p = Some t /\ t ∈ [LLAMA_GRETYPE_CHAR; LLAMA_GRETYPE_CHAR_NOT; LLAMA_GRETYPE_CHAR_ANY].

Definition char_atb (p : elem_ptr) (c : Z) : bool :=
  match type_at rules p with
  | Some LLAMA_GRETYPE_CHAR_NOT => negb (class_matches (suffix p) c)
  | _ => class_matches (suffix p) c
  end.

Lemma char_at_iff p c : char_elem p -> char_at rules p c <-> char_atb p c = true.
Proof.
  intros (t & Et & Ht). unfold char_at, char_atb. rewrite Et.
  set_unfold in Ht. destruct Ht as [->|[->|[->|[]]]]; by rewrite ?negb_true_iff.
Qed.

Lemma match_char_ok p c : start_ok p -> char_elem p ->
  llama_grammar_match_char rules p c = Ok (char_atb p c, after_char rules p) /\ start_ok (after_char rules p).
Proof.
  intros Hs (t & Et & Ht). destruct (start_cases p Hs) as (e & l & E & Et' & Ea).
  rewrite Et' in Et. injection Et as Et.
  destruct (suffix_elem p e l E) as (_ & (rule & Hr & He & Hd) & _).
  destruct (match_class_ok (length (suffix p)) (suffix p) NoChar c false 0%nat) as [Hl Ho]; [done|done| |].
  { rewrite E. set_unfold in Ht. set_unfold. rewrite Et. naive_solver. }
  unfold llama_grammar_match_char. rewrite Hr. cbn [mbind res_bind]. rewrite He. cbn [mbind res_bind].
  rewrite Hd, <- E, Hl. unfold start_ok, after_char. rewrite suffix_drop. split; [|done].
  unfold char_atb. rewrite Et', Et. cbn [orb Nat.add].
  set_unfold in Ht. destruct Ht as [->|[->|[->|[]]]]; cbn; by destruct (class_matches _ c).
Qed.

(** *** Alternates *)

Lemma alt_starts_ok l : forall m i, rule_ok n_rules m l = true ->
  exists st, alt_starts l i = Ok st /\ Forall (fun j => (i < j)%nat /\ rule_ok n_rules NoChar (drop (j - i) l) = true) st.
Proof.
  induction l as [|e l IH]; intros m i Hok; [done|].
  apply rule_ok_cons in Hok as [[-> He]|(Hne & Hend & _ & Hok)].
  { exists []. cbn. rewrite He. split; [done|constructor]. }
  destruct (IH _ (i + 1)%nat Hok) as (st & Hst & HF).
  assert (HF' : Forall (fun j => (i < j)%nat /\ rule_ok n_rules NoChar (drop (j - i) (e :: l)) = true) st).
  { eapply Forall_impl; [exact HF|]. cbn. intros j [Hj Hd]. split; [lia|].
    replace (j - i)%nat with (S (j - (i + 1))) by lia. done. }
  cbn [alt_starts]. rewrite Hst. destruct (ge_type e) eqn:Et; try done; try (by exists st).
  exists ((i + 1)%nat :: st). split; [done|]. constructor; [|done]. split; [lia|].
  replace (i + 1 - i)%nat with 1%nat by lia. cbn [drop]. unfold next_mode in Hok. by rewrite Et in Hok.
Qed.

Lemma alternates_ok r : (r < n_rules)%nat -> exists alts, alternates rules r = Ok alts /\ alts <> [] /\ Forall start_ok alts.
Proof.
  intros (rule & Hr & Hok)%wf_rule. destruct (alt_starts_ok rule NoChar 0%nat Hok) as (st & Hst & HF).
  assert (Hv : vec_get rules r = Ok rule) by (by apply vec_get_ok).
  unfold alternates. rewrite Hv. cbn [mbind res_bind]. rewrite Hst. cbn [mbind res_bind].
  eexists. split; [reflexivity|]. split; [done|]. apply Forall_fmap, Forall_cons. split.
  - unfold start_ok, GrammarTheory.suffix. cbn. by rewrite Hr.
  - eapply Forall_impl; [exact HF|]. cbn. intros j [_ Hd]. unfold start_ok, GrammarTheory.suffix. cbn.
    rewrite Hr. cbn. by rewrite Nat.sub_0_r in Hd.
Qed.

Lemma alt_of_start r q : (r < n_rules)%nat -> alt_of rules r q -> start_ok q.
Proof.
  intros Hr (alts & E & Hq). destruct (alternates_ok r Hr) as (alts' & E' & _ & HF).
  rewrite E in E'. injection E' as <-. rewrite Forall_forall in HF. by apply HF.
Qed.

Lemma ref_ok p r : start_ok p -> ref_at rules p r -> (r < n_rules)%nat /\ start_ok (ptr_add p 1) /\
  elem_at rules p = Ok (GElem LLAMA_GRETYPE_RULE_REF (Z.of_nat r)).
Proof.
  intros Hs (v & Hv & <-). destruct (start_cases p Hs) as (e & l & E & Et & Ea).
  rewrite E in Hv. cbn in Hv. injection Hv as ->. unfold start_ok in *. rewrite E in Hs.
  destruct (suffix_elem p _ l E) as (_ & _ & ->).
  apply rule_ok_cons in Hs as [[_ H]|(_ & _ & Ho & Hn)]; [done|].
  unfold elem_ok in Ho. cbn in Ho. split; [lia|]. split; [exact Hn|]. rewrite Ea. f_equal. f_equal. lia.
Qed.

Lemma child_ok s s' : stack_ok s -> child s s' -> stack_ok s'.
Proof.
  intros Hs Hc. destruct Hc as [p r q s Hr Hq]. apply Forall_cons in Hs as [[Hp _] Hs].
  destruct (ref_ok p r Hp Hr) as (Hlt & Hn & _). apply push_stack_ok; [by eapply alt_of_start|]. by apply push_stack_ok.
Qed.

(** *** Expansion *)

Lemma next_stack_ok p r s q : start_ok p -> ref_at rules p r -> alt_of rules r q ->
  next_stack rules p s q = Ok (push q (push (ptr_add p 1) s)).
Proof.
  intros Hp Hr Hq. destruct (ref_ok p r Hp Hr) as (Hlt & Hn & _). unfold next_stack.
  rewrite push_ok by done. cbn [mbind res_bind]. apply push_ok. by eapply alt_of_start.
Qed.

Lemma ref_fun p r r' : ref_at rules p r -> ref_at rules p r' -> r = r'.
Proof. intros (v & E & <-) (v' & E' & <-). congruence. Qed.

Lemma finished_dec p s : start_ok p -> finished (p :: s) \/ exists r, ref_at rules p r.
Proof.
  intros Hp. destruct (start_cases p Hp) as (e & l & E & _ & _).
  destruct (decide (ge_type e = LLAMA_GRETYPE_RULE_REF)) as [Ht|Ht].
  - right. exists (Z.to_nat (ge_value e)), (ge_value e). rewrite E. split; [|done]. destruct e; cbn in *; by subst.
  - left. intros r (v & Hv & _). rewrite E in Hv. cbn in Hv. by injection Hv as ->.
Qed.

Lemma expand_ok s : stack_ok s ->
  (finished s /\ expand rules s = Ok None) \/
  (exists next, expand rules s = Ok (Some next) /\ next <> [] /\ forall s', s' ∈ next <-> child s s').
Proof.
  intros Hs. destruct s as [|p s]; [by left|]. apply Forall_cons in Hs as [[Hp Hend] Hs].
  destruct (finished_dec p s Hp) as [Hf|[r Hr]].
  - left. split; [done|]. cbn. destruct (start_cases p Hp) as (e & l & E & Et & ->). cbn [mbind res_bind].
    destruct (ge_type e) eqn:T; try done.
    + exfalso. apply Hend. left. by rewrite Et.
    + exfalso. apply Hend. right. by rewrite Et.
    + exfalso. apply (Hf (Z.to_nat (ge_value e))). exists (ge_value e). rewrite E. split; [|done]. destruct e; cbn in *; by subst.
    + exfalso. unfold start_ok in Hp. rewrite E in Hp. destruct l; cbn in Hp; [by rewrite T in Hp|].
      unfold elem_ok in Hp. by rewrite T in Hp.
    + exfalso. unfold start_ok in Hp. rewrite E in Hp. destruct l; cbn in Hp; [by rewrite T in Hp|].
      unfold elem_ok in Hp. by rewrite T in Hp.
  - right. destruct (ref_ok p r Hp Hr) as (Hlt & Hn & He). destruct (alternates_ok r Hlt) as (alts & Ha & Hne & HF).
    exists ((fun q => push q (push (ptr_add p 1) s)) <$> alts). split_and!.
    + cbn. rewrite He. cbn. rewrite Nat2Z.id, Ha. cbn [mbind res_bind].
      rewrite (mmap_fmap _ (fun q => push q (push (ptr_add p 1) s))); [done|].
      intros q Hq. apply (next_stack_ok p r); [done..|]. by exists alts.
    + by destruct alts.
    + intros s'. rewrite list_elem_of_fmap. split.
      * intros (q & -> & Hq). eapply child_ref; [done|]. by exists alts.
      * inversion 1 as [p' r' q s0 Hr' Hq]; subst. rewrite (ref_fun p r' r) in Hq by done.
        destruct Hq as (alts' & Ha' & Hq). rewrite Ha in Ha'. injection Ha' as <-. by exists q.
Qed.

Lemma finished_no_child s s' : finished s -> child s s' -> False.
Proof. intros Hf Hc. destruct Hc as [p r q s Hr _]. by apply (Hf r). Qed.

(** *** [llama_grammar_advance_stack] *)

Definition reaches (s t : llama_grammar_stack) : Prop := rtc child s t.

Lemma reaches_ok s t : reaches s t -> stack_ok s -> stack_ok t.
Proof. induction 1; [done|]. intros. apply IHrtc. by eapply child_ok. Qed.

(** What the loop maintains, started with [start] and [out0]. *)
Record loop_inv (start : llama_grammar_stack) (out0 : llama_grammar_stacks) (todo : list llama_grammar_stack)
    (seen : gset llama_grammar_stack) (out : llama_grammar_stacks) : Prop := {
  li_todo : forall s, s ∈ todo -> reaches start s;
  li_start : start ∈ seen \/ start ∈ todo;
  li_closed : forall s s', s ∈ seen -> child s s' -> s' ∈ seen \/ s' ∈ todo;
  li_finished : forall s, s ∈ seen -> finished s -> s ∈ out;
  li_sound : forall t, t ∈ out -> t ∈ out0 \/ (finished t /\ reaches start t);
  li_old : forall t, t ∈ out0 -> t ∈ out;
}.

(** One iteration. *)
Definition loop_step (c : llama_grammar_stack) (todo : list llama_grammar_stack) (seen : gset llama_grammar_stack)
    (out : llama_grammar_stacks) : res (list llama_grammar_stack * gset llama_grammar_stack * llama_grammar_stacks) :=
  if decide (c ∈ seen) then Ok (todo, seen, out) else
  r ← expand rules c;
  Ok match r with
     | Some next => (rev next ++ todo, {[ c ]} ∪ seen, out)
     | None => (todo, {[ c ]} ∪ seen, add_stack out c)
     end.

Lemma advance_loop_step fuel c todo seen out : advance_loop rules (S fuel) (c :: todo) seen out =
  ('(todo, seen, out) ← loop_step c todo seen out; advance_loop rules fuel todo seen out).
Proof.
  cbn [advance_loop]. unfold loop_step. destruct (decide (c ∈ seen)); [done|].
  by destruct (expand rules c) as [[next|]|].
Qed.

Lemma loop_step_inv start out0 c todo seen out : stack_ok start ->
  loop_inv start out0 (c :: todo) seen out ->
  exists todo' seen' out', loop_step c todo seen out = Ok (todo', seen', out') /\ loop_inv start out0 todo' seen' out'.
Proof.
  intros Hok [I1 I2 I3 I4 I5 I6]. unfold loop_step. destruct (decide (c ∈ seen)) as [Hc|Hc].
  { exists todo, seen, out. split; [done|]. split; try done; [set_solver|set_solver|].
    intros s s' Hs Hs'. destruct (I3 s s' Hs Hs') as [?|[->|?]%elem_of_cons]; auto. }
  assert (Hr : reaches start c) by (apply I1; set_solver).
  destruct (expand_ok c) as [[Hf ->]|(next & -> & Hne & Hn)]; [by eapply reaches_ok|..]; cbn [mbind res_bind].
  - eexists _, _, _. split; [reflexivity|]. split.
    + set_solver.
    + set_solver.
    + intros s s' [->%elem_of_singleton|Hs]%elem_of_union Hs'; [by exfalso; eapply finished_no_child|].
      destruct (I3 s s' Hs Hs') as [?|[->|?]%elem_of_cons]; set_solver.
    + intros s Hs Hfs. apply elem_add_stack. set_solver.
    + intros t [Ht| ->]%elem_add_stack; auto.
    + intros t Ht. apply elem_add_stack. auto.
  - eexists _, _, _. split; [reflexivity|]. assert (Hin : forall s', s' ∈ rev next <-> child c s').
    { intros s'. rewrite <- Hn, !list_elem_of_In. symmetry. apply in_rev. }
    split; try done.
    + intros s [Hs%Hin|Hs]%elem_of_app; [|apply I1; set_solver]. eapply rtc_r; [exact Hr|done].
    + destruct I2 as [?|[->|?]%elem_of_cons]; set_solver.
    + intros s s' [->%elem_of_singleton|Hs]%elem_of_union Hs'.
      * right. apply elem_of_app. left. by apply Hin.
      * destruct (I3 s s' Hs Hs') as [?|[->|?]%elem_of_cons]; set_solver.
    + intros s [->%elem_of_singleton|Hs]%elem_of_union Hfs; [|by apply I4].
      exfalso. destruct next as [|s' next]; [done|]. eapply (finished_no_child c s'); [done|]. apply Hn. set_solver.
Qed.

Lemma loop_end start out0 seen out : loop_inv start out0 [] seen out ->
  forall t, t ∈ out <-> t ∈ out0 \/ (finished t /\ reaches start t).
Proof.
  intros [I1 I2 I3 I4 I5 I6] t. split; [apply I5|]. intros [Ht|[Hf Hr]]; [by apply I6|].
  apply I4; [|done]. destruct I2 as [I2|I2]; [|set_solver]. clear Hf I1 I5.
  induction Hr as [|s s1 t Hc _ IHr]; [done|]. apply IHr. destruct (I3 s s1 I2 Hc); [done|set_solver].
Qed.

(** The loop stops only for lack of fuel; when it ends, the result is exact. *)
Lemma advance_loop_ok start out0 fuel : stack_ok start -> forall todo seen out, loop_inv start out0 todo seen out ->
  match advance_loop rules fuel todo seen out with
  | Ok out' => forall t, t ∈ out' <-> t ∈ out0 \/ (finished t /\ reaches start t)
  | Err e => e = NoFuel
  end.
Proof.
  intros Hok. induction fuel as [|fuel IH]; intros [|c todo] seen out I; [exact (loop_end _ _ _ _ I)|done|exact (loop_end _ _ _ _ I)|].
  rewrite advance_loop_step. destruct (loop_step_inv start out0 c todo seen out Hok I) as (todo' & seen' & out' & -> & I').
  cbn [mbind res_bind]. by apply IH.
Qed.

Lemma advance_ok start out fuel : stack_ok start ->
  match llama_grammar_advance_stack rules fuel start out with
  | Ok out' => forall t, t ∈ out' <-> t ∈ out \/ (finished t /\ reaches start t)
  | Err e => e = NoFuel
  end.
Proof. intros Hok. apply advance_loop_ok; [done|]. split; try set_solver. intros s ->%list_elem_of_singleton. constructor. Qed.

(** *** Termination, when expansion is well founded from the stack *)

Lemma advance_pops s : stack_ok s -> Acc (flip child) s -> forall todo seen out,
  exists k seen' out', forall m, advance_loop rules (k + m) (s :: todo) seen out = advance_loop rules m todo seen' out'.
Proof.
  intros Hok Ha. induction Ha as [s _ IH]. intros todo seen out.
  destruct (decide (s ∈ seen)) as [Hs|Hs].
  { exists 1%nat, seen, out. intros m. cbn [Nat.add]. rewrite advance_loop_step. unfold loop_step. by rewrite decide_True. }
  assert (E : forall m, advance_loop rules (S m) (s :: todo) seen out =
    (r ← expand rules s; match r with
      | Some next => advance_loop rules m (rev next ++ todo) ({[ s ]} ∪ seen) out
      | None => advance_loop rules m todo ({[ s ]} ∪ seen) (add_stack out s) end)).
  { intros m. cbn [advance_loop]. by rewrite decide_False. }
  destruct (expand_ok s Hok) as [[_ He]|(next & He & _ & Hn)].
  { eexists 1%nat, _, _. intros m. cbn [Nat.add]. rewrite E, He. cbn [mbind res_bind]. done. }
  assert (G : forall l todo seen out, (forall s', s' ∈ l -> child s s') ->
    exists k seen' out', forall m, advance_loop rules (k + m) (l ++ todo) seen out = advance_loop rules m todo seen' out').
  { induction l as [|s' l IHl]; intros todo' seen' out' Hl; [by exists 0%nat, seen', out'|].
    destruct (IH s' (Hl s' ltac:(set_solver)) ltac:(eapply child_ok; [done|set_solver]) (l ++ todo') seen' out') as (k1 & seen1 & out1 & H1).
    destruct (IHl todo' seen1 out1) as (k2 & seen2 & out2 & H2); [set_solver|].
    exists (k1 + k2)%nat, seen2, out2. intros m. rewrite <- Nat.add_assoc. cbn [app]. by rewrite H1, H2. }
  destruct (G (rev next) todo ({[ s ]} ∪ seen) out) as (k & seen' & out' & H).
  { intros s' Hs'. apply Hn. apply list_elem_of_In in Hs'. by apply list_elem_of_In, in_rev. }
  exists (S k), seen', out'. intros m. cbn [Nat.add]. rewrite E, He. cbn [mbind res_bind]. apply H.
Qed.

Lemma advance_terminates s out : stack_ok s -> Acc (flip child) s ->
  exists n out', forall fuel, (n <= fuel)%nat -> llama_grammar_advance_stack rules fuel s out = Ok out'.
Proof.
  intros Hok Ha. destruct (advance_pops s Hok Ha [] ∅ out) as (k & seen' & out' & H).
  exists k, out'. intros fuel Hf. unfold llama_grammar_advance_stack.
  replace fuel with (k + (fuel - k))%nat by lia. rewrite H. by destruct (fuel - k)%nat.
Qed.

(** Expansion is well founded, from every stack. *)
Definition expansion_ends : Prop := forall s, stack_ok s -> Acc (flip child) s.

(** *** Convergence: a result for every sufficient fuel *)

Definition converges {A} (f : nat -> res A) (a : A) : Prop := exists n, forall fuel, (n <= fuel)%nat -> f fuel = Ok a.

Lemma converges_const {A} (a : A) : converges (fun _ => Ok a) a.
Proof. by exists 0%nat. Qed.

Lemma converges_bind {A B} (f : nat -> res A) (k : nat -> A -> res B) a b :
  converges f a -> converges (fun fuel => k fuel a) b -> converges (fun fuel => f fuel ≫= k fuel) b.
Proof.
  intros [n Hn] [m Hm]. exists (n `max` m)%nat. intros fuel Hf. rewrite Hn by lia. cbn [mbind res_bind]. apply Hm. lia.
Qed.

Lemma converges_ext {A} (f g : nat -> res A) a : (forall n, f n = g n) -> converges g a -> converges f a.
Proof. intros E [n Hn]. exists n. intros fuel Hf. rewrite E. by apply Hn. Qed.

(** A loop whose steps converge, with an invariant. *)
Lemma converges_mfor {A S} (f : nat -> S -> A -> res S) (I : list A -> S -> Prop) l s : I [] s ->
  (forall d x r s, l = d ++ x :: r -> I d s -> exists s', converges (fun fuel => f fuel s x) s' /\ I (d ++ [x]) s') ->
  exists s', converges (fun fuel => mfor (f fuel) l s) s' /\ I l s'.
Proof.
  intros H0 Hs. enough (G : forall l2 d s, l = d ++ l2 -> I d s -> exists s', converges (fun fuel => mfor (f fuel) l2 s) s' /\ I l s').
  { by apply (G l []). }
  induction l2 as [|x l2 IH]; intros d s1 El Hd; cbn [mfor].
  { exists s1. split; [apply converges_const|]. rewrite app_nil_r in El. by subst. }
  destruct (Hs d x l2 s1 El Hd) as (s2 & C & H2). destruct (IH (d ++ [x]) s2) as (s3 & C3 & H3); [by rewrite <- app_assoc|done|].
  exists s3. split; [|done]. by eapply converges_bind.
Qed.
End wf.
