(* ===== verification/GrammarLang.v ===== *)
(** * What the stacks generate after a text has been accepted *)
From S2P Require Export GrammarTheory.

Section lang.
Context (rules : llama_grammar_rules) (W : wf_rules rules) (E : expansion_ends rules).

(** A stack of the state of the grammar: valid and fully expanded. *)
Definition settled (s : llama_grammar_stack) : Prop := stack_ok rules s /\ finished rules s.

Lemma char_finished p c s : char_at rules p c -> finished rules (p :: s).
Proof.
  intros Hc r (v & Hv & _). unfold char_at, type_at in Hc. rewrite Hv in Hc. done.
Qed.

Lemma generates_finished s w : generates rules s w <->
  exists t, reaches rules s t /\ finished rules t /\ generates rules t w.
Proof.
  split.
  - induction 1 as [|s s' w Hc _ (t & Hr & Hf & Hg)|p c s w Hc Hg _].
    + exists []. split_and!; [constructor|done|constructor].
    + exists t. split_and!; [by eapply rtc_l|done..].
    + exists (p :: s). split_and!; [constructor|by eapply char_finished|by constructor].
  - intros (t & Hr & _ & Hg). induction Hr; [done|]. eapply gen_child; [done|auto].
Qed.

Lemma reach_finished s : stack_ok rules s -> exists t, reaches rules s t /\ finished rules t.
Proof.
  intros Hok. induction (E s Hok) as [s _ IH].
  destruct (expand_ok rules W s Hok) as [[Hf _]|(next & _ & Hne & Hn)]; [exists s; split; [constructor|done]|].
  destruct next as [|s' next]; [done|]. assert (Hc : child rules s s') by (apply Hn; apply list_elem_of_here).
  destruct (IH s' Hc) as (t & Hr & Hf); [by apply (child_ok rules W s s')|]. exists t. split; [by eapply rtc_l|done].
Qed.

(** One character takes a settled stack to a settled stack. *)
Definition chr_step (s : llama_grammar_stack) (c : Z) (t : llama_grammar_stack) : Prop :=
  exists p rest, s = p :: rest /\ char_at rules p c /\
    reaches rules (push rules (after_char rules p) rest) t /\ finished rules t.

Inductive chr_steps : llama_grammar_stack -> list Z -> llama_grammar_stack -> Prop :=
  | steps_nil s : chr_steps s [] s
  | steps_cons s c t w u : chr_step s c t -> chr_steps t w u -> chr_steps s (c :: w) u.

Lemma char_at_elem p c : char_at rules p c -> char_elem rules p.
Proof. unfold char_at, char_elem. intros H. destruct (type_at rules p) as [[]|] eqn:T; try done; eexists; (split; [done|set_solver]). Qed.

Lemma chr_step_settled s c t : settled s -> chr_step s c t -> settled t.
Proof.
  intros [Hs _] (p & rest & -> & Hc & Hr & Hf). split; [|done]. apply Forall_cons in Hs as [[Hp _] Hs].
  eapply reaches_ok; [done|exact Hr|]. apply push_stack_ok; [|done].
  by apply (match_char_ok rules W p c Hp (char_at_elem p c Hc)).
Qed.

Lemma generates_step s c w : finished rules s -> generates rules s (c :: w) <-> exists t, chr_step s c t /\ generates rules t w.
Proof.
  intros Hf. split.
  - inversion 1 as [|s0 s' w0 Hc _|p c0 rest w0 Hc Hg]; subst; [by exfalso; eapply finished_no_child|].
    apply generates_finished in Hg as (t & Hr & Ht & Hg). exists t. split; [|done]. by exists p, rest.
  - intros (t & (p & rest & -> & Hc & Hr & Ht) & Hg). apply gen_char; [done|]. apply generates_finished. eauto.
Qed.

Lemma generates_empty s : finished rules s -> generates rules s [] <-> s = [].
Proof.
  intros Hf. split; [|intros ->; constructor].
  inversion 1 as [|s0 s' w0 Hc _|]; subst; [done|]. by exfalso; eapply finished_no_child.
Qed.

(** ** [llama_grammar_accept_chr] and [llama_grammar_accept] *)

Lemma advance_converges s out : stack_ok rules s -> exists out',
  converges (fun fuel => llama_grammar_advance_stack rules fuel s out) out' /\
  forall t, t ∈ out' <-> t ∈ out \/ (finished rules t /\ reaches rules s t).
Proof.
  intros Hok. destruct (advance_terminates rules W s out Hok (E s Hok)) as (n & out' & Hn).
  exists out'. split; [by exists n|]. pose proof (advance_ok rules W s out n Hok) as H. by rewrite Hn in H.
Qed.

Lemma settled_top p s : settled (p :: s) -> start_ok rules p /\ stack_ok rules s /\
  (char_elem rules p \/ exists e, elem_at rules p = Ok e /\ is_token_type (ge_type e) = true /\ forall c, ~ char_at rules p c).
Proof.
  intros [[[Hp Hend] Hs]%Forall_cons Hf]. split_and!; [done..|].
  destruct (expand_ok rules W (p :: s)) as [[_ He]|(next & _ & Hne & Hn)].
  { by constructor. }
  2: { destruct next as [|s' next]; [done|]. exfalso. eapply (finished_no_child rules); [done|]. apply Hn, list_elem_of_here. }
  destruct (start_cases rules p Hp) as (e & l & Es & Et & Ea). cbn in He. rewrite Ea in He. cbn in He.
  unfold char_elem, char_at. rewrite Et.
  destruct (ge_type e) eqn:T; try done; try (by left; eexists; split; [done|set_solver]).
  { destruct (alternates rules _); [|done]. cbn in He. by destruct (mmap _ _). }
  all: right; exists e; split; [done|]; rewrite T; split; [done|intros _ []].
Qed.

Lemma accept_chr_ok s c out : settled s -> exists out',
  converges (fun fuel => llama_grammar_accept_chr rules fuel s c out) out' /\
  forall t, t ∈ out' <-> t ∈ out \/ chr_step s c t.
Proof.
  intros Hset. destruct s as [|p s].
  { exists out. split; [apply converges_const|]. intros t. split; [auto|]. intros [?|(p & r & ? & _)]; done. }
  destruct (settled_top p s Hset) as (Hp & Hs & [Hc|(e & Ee & Ht & Hno)]); unfold llama_grammar_accept_chr.
  - destruct (match_char_ok rules W p c Hp Hc) as [Hm Ha]. destruct (start_cases rules p Hp) as (e & l & _ & Et & Ea).
    assert (Htok : is_token_type (ge_type e) = false).
    { destruct Hc as (t & Et' & Hin). rewrite Et in Et'. injection Et' as ->. set_unfold in Hin. by destruct Hin as [->|[->|[->|[]]]]. }
    destruct (char_atb rules p c) eqn:Eb.
    + destruct (advance_converges (push rules (after_char rules p) s) out) as (out' & C & Hout); [by apply push_stack_ok|].
      exists out'. split.
      * eapply converges_ext; [|exact C]. intros n. rewrite Ea. cbn [mbind res_bind]. rewrite Htok, Hm. cbn [mbind res_bind].
        by rewrite push_ok.
      * intros t. rewrite Hout. f_equiv. split.
        -- intros [Hf Hr]. exists p, s. split_and!; try done. by apply char_at_iff.
        -- intros (p' & s' & [= <- <-] & _ & Hr & Hf). done.
    + exists out. split.
      * eapply converges_ext; [|apply converges_const]. intros n. rewrite Ea. cbn [mbind res_bind]. by rewrite Htok, Hm.
      * intros t. split; [auto|]. intros [?|(p' & s' & [= <- <-] & Hx & _)]; [done|]. apply char_at_iff in Hx; [|done]. congruence.
  - exists out. split.
    + eapply converges_ext; [|apply converges_const]. intros n. rewrite Ee. cbn [mbind res_bind]. by rewrite Ht.
    + intros t. split; [auto|]. intros [?|(p' & s' & [= <- <-] & Hx & _)]; [done|]. by apply Hno in Hx.
Qed.

Definition all_settled (stacks : llama_grammar_stacks) : Prop := forall s, s ∈ stacks -> settled s.

Lemma accept_stacks_ok stacks c : all_settled stacks -> exists stacks',
  converges (fun fuel => accept_stacks rules fuel stacks c) stacks' /\ all_settled stacks' /\
  forall t, t ∈ stacks' <-> exists s, s ∈ stacks /\ chr_step s c t.
Proof.
  intros Hset. unfold accept_stacks.
  destruct (converges_mfor (fun fuel new stack => llama_grammar_accept_chr rules fuel stack c new)
    (fun d new => forall t, t ∈ new <-> exists s, s ∈ d /\ chr_step s c t) stacks []) as (st & C & H).
  - intros t. split; [set_solver|]. intros (s & Hs & _). set_solver.
  - intros d s r new -> Hd. destruct (accept_chr_ok s c new) as (new' & C & Hn); [apply Hset; set_solver|].
    exists new'. split; [done|]. intros t. rewrite Hn, Hd. set_solver.
  - exists st. split_and!; [done| |done]. intros t Ht. apply H in Ht as (s & Hs & Hc).
    eapply chr_step_settled; [by apply Hset|done].
Qed.

Lemma accept_all_ok cps : forall stacks, all_settled stacks -> exists stacks',
  converges (fun fuel => mfor (accept_stacks rules fuel) cps stacks) stacks' /\ all_settled stacks' /\
  forall t, t ∈ stacks' <-> exists s, s ∈ stacks /\ chr_steps s cps t.
Proof.
  induction cps as [|c cps IH]; intros stacks Hset; cbn [mfor].
  - exists stacks. split_and!; [apply converges_const|done|]. intros t. split; [intros; exists t; split; [done|constructor]|].
    intros (s & Hs & Hc). by inversion Hc; subst.
  - destruct (accept_stacks_ok stacks c Hset) as (s1 & C1 & Hset1 & H1).
    destruct (IH s1 Hset1) as (s2 & C2 & Hset2 & H2). exists s2. split_and!; [by eapply converges_bind|done|].
    intros t. rewrite H2. split.
    + intros (s' & (s & Hs & Hc)%H1 & Hr). exists s. split; [done|]. by econstructor.
    + intros (s & Hs & Hr). inversion Hr as [|? ? s' ? ? Hc Hr']; subst. exists s'. split; [apply H1; eauto|done].
Qed.

Lemma generates_steps s : finished rules s -> forall cps w, generates rules s (cps ++ w) <->
  exists t, chr_steps s cps t /\ generates rules t w.
Proof.
  intros Hf cps. revert s Hf. induction cps as [|c cps IH]; intros s Hf w; cbn [app].
  - split; [intros; exists s; split; [constructor|done]|]. intros (t & Hs & Hg). by inversion Hs; subst.
  - rewrite generates_step by done. split.
    + intros (t & Hc & Hg). assert (Ht : finished rules t) by (by destruct Hc as (? & ? & _ & _ & _ & ?)).
      apply IH in Hg as (u & Hu & Hg); [|done]. exists u. split; [by econstructor|done].
    + intros (u & Hu & Hg). inversion Hu as [|? ? t ? ? Hc Hr]; subst. exists t. split; [done|].
      assert (Ht : finished rules t) by (by destruct Hc as (? & ? & _ & _ & _ & ?)). apply IH; eauto.
Qed.

(** ** The initial stacks *)

Lemma initial_stacks_ok r : (r < length rules)%nat -> exists stacks,
  converges (fun fuel => initial_stacks rules fuel r) stacks /\ all_settled stacks /\ stacks <> [] /\
  forall w, language rules r w <-> exists s, s ∈ stacks /\ generates rules s w.
Proof.
  intros Hr. destruct (alternates_ok rules W r Hr) as (alts & Ea & Hne & HF). unfold initial_stacks.
  destruct (converges_mfor (fun fuel stacks pos => stack ← push_unless_end rules pos [];
      llama_grammar_advance_stack rules fuel stack stacks)
    (fun d new => forall t, t ∈ new <-> exists q, q ∈ d /\ finished rules t /\ reaches rules (push rules q []) t) alts []) as (st & C & H).
  - intros t. split; [set_solver|]. intros (q & Hq & _). set_solver.
  - intros d q rest new -> Hd. rewrite Forall_app, Forall_cons in HF. destruct HF as (_ & Hq & _).
    destruct (advance_converges (push rules q []) new) as (new' & C & Hn); [apply push_stack_ok; [done|constructor]|].
    exists new'. split.
    + eapply converges_ext; [|exact C]. intros n. by rewrite push_ok.
    + intros t. rewrite Hn, Hd. set_solver.
  - exists st. assert (Hset : all_settled st).
    { intros t (q & Hq & Hf & Hre)%H. split; [|done]. eapply reaches_ok; [done|exact Hre|].
      rewrite Forall_forall in HF. apply push_stack_ok; [by apply HF|constructor]. }
    split_and!; [|done| |].
    + eapply converges_ext; [|exact C]. intros n. by rewrite Ea.
    + destruct alts as [|q alts]; [done|]. apply Forall_cons in HF as [Hq _].
      destruct (reach_finished (push rules q [])) as (t & Hre & Hf); [apply push_stack_ok; [done|constructor]|].
      assert (t ∈ st) by (apply H; exists q; set_solver). by destruct st; [set_solver|].
    + intros w. unfold language. split.
      * intros (q & (alts' & Ea' & Hq) & Hd). rewrite Ea in Ea'. injection Ea' as <-.
        apply generates_push, generates_finished in Hd as (t & Hre & Hf & Hg).
        exists t. split; [|done]. apply H. eauto.
      * intros (t & (q & Hq & Hf & Hre)%H & Hg). exists q. split; [by exists alts|].
        apply generates_push, generates_finished. eauto.
Qed.
End lang.
