(* ===== verification/GrammarLeft.v ===== *)
(** * Left recursion and termination of the expansion

    The leftmost relation between rules, the termination of expansion when it is well founded,
    and what [llama_grammar_detect_left_recursion] decides: it looks through a reference only
    when the rule referred to has an empty alternate of its own. *)
From S2P Require Export GrammarLang.

Section left.
Context (rules : llama_grammar_rules) (W : wf_rules rules).
Abbreviation n_rules := (length rules).

(** A rule that generates the empty text, and one with an empty alternate. *)
Definition nullable (r : nat) : Prop := language rules r [].
Definition directly_nullable (r : nat) : Prop := exists rule, rules !! r = Some rule /\ has_empty_alternate rule true = true.

(** [leads N p r]: from [p], skipping references to rules in [N], the reference [r] is reached. *)
Inductive leads (N : nat -> Prop) : elem_ptr -> nat -> Prop :=
  | leads_here p r : ref_at rules p r -> leads N p r
  | leads_skip p r r' : ref_at rules p r -> N r -> leads N (ptr_add p 1) r' -> leads N p r'.

(** [leftmost N r r']: an alternate of [r] has [r'] at its left end. *)
Definition leftmost (N : nat -> Prop) (r r' : nat) : Prop := exists q, alt_of rules r q /\ leads N q r'.

Lemma leads_mono (N N' : nat -> Prop) p r : (forall r, N r -> N' r) -> leads N p r -> leads N' p r.
Proof. intros H. induction 1; [by constructor|]. eapply leads_skip; eauto. Qed.

Lemma leads_ok N p r : start_ok rules p -> leads N p r -> (r < n_rules)%nat.
Proof.
  intros Hp Hl. induction Hl as [p r Hr|p r r' Hr _ _ IH].
  - by apply (ref_ok rules p r).
  - apply IH. by apply (ref_ok rules p r).
Qed.

(** ** Expansion terminates when the leftmost relation is well founded *)

Definition pos_ends (p : elem_ptr) : Prop := forall s, (derives rules p [] -> Acc (flip (child rules)) s) ->
  Acc (flip (child rules)) (push rules p s).

Lemma suffix_next p r : ref_at rules p r -> exists e, suffix rules p = e :: suffix rules (ptr_add p 1).
Proof.
  intros (v & Hv & _). destruct (suffix rules p) as [|e l] eqn:Es; [done|].
  exists e. f_equal. symmetry. by apply (suffix_elem rules p e l).
Qed.

Lemma pos_ends_step k : forall p, (length (suffix rules p) <= k)%nat -> start_ok rules p ->
  (forall r, leads nullable p r -> forall q, alt_of rules r q -> pos_ends q) -> pos_ends p.
Proof.
  induction k as [|k IH]; intros p Hk Hp Hl s Hs.
  { destruct (start_cases rules p Hp) as (e & l & Es & _). rewrite Es in Hk. simpl in Hk. lia. }
  unfold push. destruct (decide (at_end_of_seq rules p)) as [He|He]; [by apply Hs, derives_end|].
  destruct (finished_dec rules p s Hp) as [Hf|[r Hr]].
  { constructor. intros s' Hc. by exfalso; eapply (finished_no_child rules (p :: s) s'). }
  constructor. intros s' Hc. inversion Hc as [p' r' q s0 Hr' Hq]; subst. rewrite (ref_fun rules p r' r) in Hq by done. clear Hr' r'.
  assert (Hlr : leads nullable p r) by (by constructor).
  apply (Hl r Hlr q Hq). intros Hqn. assert (Hn : nullable r) by (by exists q).
  destruct (suffix_next p r Hr) as [e Es]. apply IH.
  - rewrite Es in Hk. simpl in Hk. lia.
  - by apply (ref_ok rules p r).
  - intros r' Hr'. apply Hl. by eapply leads_skip.
  - intros Hnn. apply Hs. by apply (derives_ref rules p r q [] []).
Qed.

(** Following the leftmost references from [r] comes to an end. *)
Definition bounded (N : nat -> Prop) (r : nat) : Prop := Acc (flip (leftmost N)) r.

Lemma alt_ends r : (r < n_rules)%nat -> bounded nullable r -> forall q, alt_of rules r q -> pos_ends q.
Proof.
  intros Hr Ha. induction Ha as [r _ IH]. intros q Hq.
  assert (Hs : start_ok rules q) by (by apply (alt_of_start rules W r)).
  apply (pos_ends_step (length (suffix rules q))); [done|done|].
  intros r' Hl. apply IH; [by exists q|by eapply leads_ok].
Qed.

Lemma bounded_ends : (forall r, (r < n_rules)%nat -> bounded nullable r) -> expansion_ends rules.
Proof.
  intros H s. induction s as [|p s IH]; intros Hs.
  { constructor. intros s' Hc. inversion Hc. }
  apply Forall_cons in Hs as [[Hp He] Hs]. rewrite <- (push_in rules p s He).
  apply (pos_ends_step (length (suffix rules p))); [done|done| |by intros _; apply IH].
  intros r Hl q Hq. assert (r < n_rules)%nat by (by eapply leads_ok). by apply (alt_ends r); [|apply H|].
Qed.

(** ** The detection *)

Definition state_ok (s : lr_state) : Prop :=
  length (lr_visited s) = n_rules /\ length (lr_in_progress s) = n_rules /\ length (lr_may_be_empty s) = n_rules.

(** [may_be_empty] only grows. *)
Definition grows (s s' : lr_state) : Prop :=
  forall r, lr_may_be_empty s !! r = Some true -> lr_may_be_empty s' !! r = Some true.

(** What a call that finds nothing shows about its rule. *)
Definition detected (r : nat) (s : lr_state) : Prop :=
  bounded directly_nullable r /\ (directly_nullable r -> lr_may_be_empty s !! r = Some true).

Lemma leads_ref N p r : leads N p r -> exists r0, ref_at rules p r0.
Proof. destruct 1; eauto. Qed.

Lemma leads_not_ref N p e l r : suffix rules p = e :: l -> ge_type e <> LLAMA_GRETYPE_RULE_REF -> leads N p r -> False.
Proof.
  intros Es Ht Hl. destruct (leads_ref _ _ _ Hl) as (r0 & v & Hv & _).
  rewrite Es in Hv. cbn in Hv. injection Hv as ->. by apply Ht.
Qed.

(** The second loop, from index [i] of the rule [r]. *)
Lemma leftmost_loop_ok (detect : nat -> lr_state -> res (bool * lr_state)) r l :
  (forall r s s', detect r s = Ok (false, s') -> grows s s' /\ detected r s') ->
  forall i rec s s', suffix rules (r, i) = l -> leftmost_loop detect l rec s = Ok (false, s') ->
  grows s s' /\ (rec = true -> forall r', leads directly_nullable (r, i) r' -> bounded directly_nullable r') /\
  (forall st, alt_starts l i = Ok st -> forall j, j ∈ st -> forall r', leads directly_nullable (r, j) r' -> bounded directly_nullable r').
Proof.
  intros Hd. induction l as [|e l IH]; intros i rec s s' Es Hl; cbn [leftmost_loop] in Hl.
  { injection Hl as <-. split_and!; [by intros x| |by intros st Hst; cbn in Hst]. intros _ r' Hr'.
    destruct (leads_ref _ _ _ Hr') as (r0 & v & Hv & _). by rewrite Es in Hv. }
  destruct (suffix_elem rules (r, i) e l Es) as (_ & _ & Es1). unfold ptr_add in Es1. cbn [fst snd] in Es1.
  destruct (decide (ge_type e = LLAMA_GRETYPE_RULE_REF)) as [Ht|Ht].
  - assert (Hst : forall st, alt_starts (e :: l) i = Ok st -> alt_starts l (i + 1) = Ok st) by (intros st; cbn; by rewrite Ht).
    assert (Hr : ref_at rules (r, i) (Z.to_nat (ge_value e))).
    { exists (ge_value e). rewrite Es. split; [|done]. destruct e; cbn in *; by subst. }
    rewrite bool_decide_true in Hl by done. destruct rec; cbn [andb] in Hl.
    + apply bind_ok in Hl as ([b s1] & Hdet & Hl). destruct b; [done|]. destruct (Hd _ _ _ Hdet) as [Hg1 [Hb Hn]].
      apply bind_ok in Hl as (em & Hem & Hl). apply vec_get_ok in Hem.
      destruct (IH _ _ _ _ Es1 Hl) as (Hg & Hlead & Hrest). split_and!.
      * intros x Hx. by apply Hg, Hg1.
      * intros _ r' Hr'. inversion Hr' as [p r1 Hr1|p r1 r2 Hr1 Hn1 Hl1]; subst; rewrite (ref_fun rules _ _ _ Hr1 Hr) in *; [done|].
        apply Hlead; [|done]. apply Hn in Hn1. congruence.
      * intros st Hs1. apply Hrest. by apply Hst.
    + unfold is_end_type in Hl. rewrite Ht in Hl. destruct (IH _ _ _ _ Es1 Hl) as (Hg & _ & Hrest).
      split_and!; [done|done|]. intros st Hs1. apply Hrest. by apply Hst.
  - rewrite bool_decide_false in Hl by done. cbn [andb] in Hl. destruct (IH _ _ _ _ Es1 Hl) as (Hg & Hlead & Hrest).
    split_and!; [done| |].
    + intros _ r' Hr'. by exfalso; eapply leads_not_ref.
    + intros st Hs1 j Hj. cbn [alt_starts] in Hs1. destruct (ge_type e) eqn:T; try by apply (Hrest st).
      * injection Hs1 as <-. set_solver.
      * apply bind_ok in Hs1 as (st1 & Hs1 & Hs2). injection Hs2 as <-. apply elem_of_cons in Hj as [->|Hj].
        -- by apply Hlead.
        -- by apply (Hrest st1).
Qed.

Lemma detect_ok fuel : forall r s s',
  llama_grammar_detect_left_recursion rules fuel r s = Ok (false, s') -> grows s s' /\ detected r s'.
Proof.
  induction fuel as [|fuel IH]; intros r s s' Hd; [done|]. cbn [llama_grammar_detect_left_recursion] in Hd.
  apply bind_ok in Hd as (busy & Hbusy & Hd). destruct busy; [done|].
  apply bind_ok in Hd as (ip & Hip & Hd). apply bind_ok in Hd as (rule & Hrule & Hd). apply vec_get_ok in Hrule.
  apply bind_ok in Hd as (mbe & Hmbe & Hd). apply bind_ok in Hd as ([b s1] & Hloop & Hd). destruct b; [done|].
  apply bind_ok in Hd as (ip2 & _ & Hd). apply bind_ok in Hd as (vis2 & _ & Hd). injection Hd as <-.
  assert (Es : suffix rules (r, 0%nat) = rule) by exact (f_equal (fun o => drop 0 (default [] o)) Hrule).
  destruct (leftmost_loop_ok _ r rule IH 0%nat true _ _ Es Hloop) as (Hg & Hlead & Hrest). specialize (Hlead eq_refl).
  assert (Hset : forall x, (x = r /\ has_empty_alternate rule true = true) \/ lr_may_be_empty s !! x = Some true -> mbe !! x = Some true).
  { intros x Hx. destruct (has_empty_alternate rule true) eqn:Eh.
    - unfold vec_set in Hmbe. destruct (decide _); [|done]. injection Hmbe as <-.
      destruct (decide (x = r)) as [->|]; [by apply list_lookup_insert_eq|]. rewrite list_lookup_insert_ne by done. naive_solver.
    - injection Hmbe as <-. naive_solver. }
  split.
  - intros x Hx. apply Hg. cbn. apply Hset. by right.
  - split.
    + constructor. intros r' (q & (alts & Ea & Hq) & Hl). unfold alternates in Ea.
      assert (Hv : vec_get rules r = Ok rule) by (by apply vec_get_ok). rewrite Hv in Ea. cbn [mbind res_bind] in Ea.
      apply bind_ok in Ea as (st & Hst & Ea). injection Ea as <-. cbn [fmap list_fmap] in Hq.
      apply elem_of_cons in Hq as [->|(j & -> & Hj)%list_elem_of_fmap]; [by apply Hlead|by apply (Hrest st Hst j)].
    + intros (rule' & Hr' & He). pose proof (eq_trans (eq_sym Hrule) Hr') as Heq. injection Heq as <-. apply Hg. cbn. apply Hset. by left.
Qed.

(** ** The loop over the rules *)

(** A visited rule has been detected. *)
Definition visited_ok (s : lr_state) : Prop := forall r, lr_visited s !! r = Some true -> bounded directly_nullable r.

Lemma leftmost_loop_pres (P : lr_state -> Prop) (detect : nat -> lr_state -> res (bool * lr_state)) l :
  (forall r s s', detect r s = Ok (false, s') -> P s -> P s') ->
  forall rec s s', leftmost_loop detect l rec s = Ok (false, s') -> P s -> P s'.
Proof.
  intros Hd. induction l as [|e l IH]; intros rec s s' Hl Hp; cbn [leftmost_loop] in Hl; [by injection Hl as <-|].
  destruct (bool_decide _ && rec); [|by eapply IH].
  apply bind_ok in Hl as ([b s1] & Hdet & Hl). destruct b; [done|].
  apply bind_ok in Hl as (em & _ & Hl). eapply IH; [exact Hl|]. by eapply Hd.
Qed.

Lemma detect_visited fuel : forall r s s',
  llama_grammar_detect_left_recursion rules fuel r s = Ok (false, s') -> visited_ok s -> visited_ok s'.
Proof.
  induction fuel as [|fuel IH]; intros r s s' Hd Hv; [done|]. assert (Hd0 := Hd). apply detect_ok in Hd0 as [_ [Hb _]].
  cbn [llama_grammar_detect_left_recursion] in Hd.
  apply bind_ok in Hd as (busy & Hbusy & Hd). destruct busy; [done|].
  apply bind_ok in Hd as (ip & _ & Hd). apply bind_ok in Hd as (rule & _ & Hd).
  apply bind_ok in Hd as (mbe & _ & Hd). apply bind_ok in Hd as ([b s1] & Hloop & Hd). destruct b; [done|].
  apply bind_ok in Hd as (ip2 & _ & Hd). apply bind_ok in Hd as (vis2 & Hvis & Hd). injection Hd as <-.
  apply (leftmost_loop_pres visited_ok _ _ IH) in Hloop; [|exact Hv].
  intros x Hx. cbn in Hx. unfold vec_set in Hvis. destruct (decide _); [|done]. injection Hvis as <-.
  destruct (decide (x = r)) as [->|]; [done|]. rewrite list_lookup_insert_ne in Hx by done. by apply Hloop.
Qed.

Lemma check_rules_ok l : forall b s s', visited_ok s -> mfor (check_rule rules) l (b, s) = Ok (false, s') ->
  b = false /\ forall i, i ∈ l -> bounded directly_nullable i.
Proof.
  induction l as [|i l IH]; intros b s s' Hv Hl; cbn [mfor] in Hl; [injection Hl as -> _; split; [done|set_solver]|].
  apply bind_ok in Hl as ([b1 s1] & Hc & Hl). unfold check_rule in Hc. cbn [fst snd] in Hc.
  destruct b.
  { injection Hc as <- <-. by apply (IH _ _ _ Hv) in Hl as [? _]. }
  apply bind_ok in Hc as (vis & Hvis & Hc). apply vec_get_ok in Hvis. split; [done|].
  destruct vis.
  - injection Hc as <- <-. destruct (IH _ _ _ Hv Hl) as [_ H]. intros j [->|Hj]%elem_of_cons; [by apply Hv|by apply H].
  - assert (b1 = false) as -> by (destruct b1; [|done]; exfalso; clear -Hl; induction l as [|j l IHl]; cbn in Hl; [done|by apply IHl]).
    destruct (IH _ _ _ (detect_visited _ _ _ _ Hc Hv) Hl) as [_ H].
    intros j [->|Hj]%elem_of_cons; [|by apply H]. by apply detect_ok in Hc as [_ [Hb _]].
Qed.

Lemma not_left_recursive_bounded : is_left_recursive rules = Ok false ->
  forall r, (r < n_rules)%nat -> bounded directly_nullable r.
Proof.
  unfold is_left_recursive. intros H r Hr. apply bind_ok in H as ([b s'] & Hl & H). injection H as ->.
  apply check_rules_ok in Hl as [_ Hl].
  - apply Hl, elem_of_seq. lia.
  - intros x Hx. cbn in Hx. apply lookup_replicate in Hx as [? _]. done.
Qed.

Lemma bounded_mono (N N' : nat -> Prop) r : (forall x, N x -> N' x) -> bounded N' r -> bounded N r.
Proof.
  intros H Hb. induction Hb as [r _ IH]. constructor. intros r' (q & Hq & Hl). apply IH. exists q.
  split; [done|]. by eapply leads_mono.
Qed.

(** Every nullable rule has an empty alternate of its own. *)
Definition nullability_visible : Prop := forall r, nullable r -> directly_nullable r.

Lemma accepted_ends : nullability_visible -> is_left_recursive rules = Ok false -> expansion_ends rules.
Proof.
  intros Hn Hl. apply bounded_ends. intros r Hr. apply (bounded_mono nullable directly_nullable); [done|].
  by apply not_left_recursive_bounded.
Qed.

(** ** The detection always answers, and reports only left recursion *)

Definition free_count (ip : list bool) : nat := sum_list_with (fun b => if (b : bool) then 0 else 1)%nat ip.

(** [x] reaches [y] through leftmost references. *)
Definition reaches_left (x y : nat) : Prop := tc (leftmost directly_nullable) x y.

(** What a call for [r] relies on: the rules in progress lead to [r]. *)
Record call_ok (r : nat) (s : lr_state) : Prop := {
  co_state : state_ok s;
  co_rule : (r < n_rules)%nat;
  co_path : forall x, lr_in_progress s !! x = Some true -> reaches_left x r;
  co_empty : forall x, lr_may_be_empty s !! x = Some true -> directly_nullable x;
}.

(** What it returns. *)
Definition call_result (s : lr_state) (res : bool * lr_state) : Prop :=
  state_ok res.2 /\ (forall x, lr_may_be_empty res.2 !! x = Some true -> directly_nullable x) /\
  (if res.1 then exists x, reaches_left x x else lr_in_progress res.2 = lr_in_progress s).

(** The second loop for the rule [r], from index [i]. *)
Lemma leftmost_loop_total (detect : nat -> lr_state -> res (bool * lr_state)) (ip : list bool) r l :
  (forall r' s, call_ok r' s -> lr_in_progress s = ip -> sat (detect r' s) (call_result s)) ->
  (forall x, ip !! x = Some true -> x = r \/ reaches_left x r) ->
  forall m i rec s, suffix rules (r, i) = l -> l = [] \/ rule_ok n_rules m l = true ->
  state_ok s -> lr_in_progress s = ip -> (forall x, lr_may_be_empty s !! x = Some true -> directly_nullable x) ->
  (rec = true -> forall r', leads directly_nullable (r, i) r' -> leftmost directly_nullable r r') ->
  (forall st j, alt_starts l i = Ok st -> j ∈ st -> alt_of rules r (r, j)) ->
  sat (leftmost_loop detect l rec s) (call_result s).
Proof.
  intros Hd Hip. induction l as [|e l IH]; intros m i rec s Es Hok Hs Hi He Hrec Halt; cbn [leftmost_loop].
  { by apply sat_ok. }
  destruct Hok as [?|Hok]; [done|]. destruct (suffix_elem rules (r, i) e l Es) as (_ & _ & Es1). unfold ptr_add in Es1. cbn [fst snd] in Es1.
  assert (Hok1 : l = [] \/ rule_ok n_rules (next_mode e) l = true).
  { apply rule_ok_cons in Hok as [[-> _]|(_ & _ & _ & ?)]; auto. }
  destruct (bool_decide_reflect (ge_type e = LLAMA_GRETYPE_RULE_REF)) as [Ht|Ht]; cbn [andb].
  - assert (Hst : forall st j, alt_starts l (i + 1) = Ok st -> j ∈ st -> alt_of rules r (r, j)).
    { intros st j Hst. apply Halt. cbn. by rewrite Ht. }
    assert (Hv : (Z.to_nat (ge_value e) < n_rules)%nat).
    { apply rule_ok_cons in Hok as [[_ ?]|(_ & _ & Ho & _)]; [congruence|]. unfold elem_ok in Ho. rewrite Ht in Ho. lia. }
    assert (Hr : ref_at rules (r, i) (Z.to_nat (ge_value e))).
    { exists (ge_value e). rewrite Es. split; [|done]. destruct e; cbn in *; by subst. }
    destruct rec.
    2: { apply (IH (next_mode e) (i + 1)%nat); try done. unfold is_end_type. by rewrite Ht. }
    assert (Hlm : leftmost directly_nullable r (Z.to_nat (ge_value e))) by (apply Hrec; [done|by constructor]).
    eapply sat_step; [apply Hd; [|done]|].
    { split; [done|done| |done]. intros x Hx. rewrite Hi in Hx. destruct (Hip x Hx) as [->|Hp]; [by apply tc_once|].
      eapply tc_r; [exact Hp|done]. }
    intros [b s1] (Hs1 & He1 & Hb). cbn [fst snd] in *. destruct b; [by apply sat_ok|].
    destruct (lookup_lt_is_Some_2 (lr_may_be_empty s1) (Z.to_nat (ge_value e))) as [em Hem]; [by rewrite (proj2 (proj2 Hs1))|].
    eapply sat_step; [by apply (sat_vec_get _ _ em (fun x => x = em))|]. intros ? ->.
    eapply sat_mono; [apply (IH (next_mode e) (i + 1)%nat em s1); try done; [congruence|]|].
    + intros -> r' Hl. apply Hrec; [done|]. eapply leads_skip; [exact Hr|by apply He1|done].
    + intros [b' s'] (H1 & H2 & H3). split_and!; [done|done|]. cbn in *. destruct b'; [done|congruence].
  - apply (IH (next_mode e) (i + 1)%nat); try done.
    + intros Hend r' Hl. destruct (ge_type e) eqn:T; try done.
      * apply rule_ok_cons in Hok as [[-> _]|(_ & ? & _)]; [|congruence].
        destruct (leads_ref _ _ _ Hl) as (r0 & v & Hv & _). by rewrite Es1 in Hv.
      * apply rule_ok_cons in Hok as [[_ ?]|(Hne & _ & _ & Hok)]; [congruence|].
        destruct (alt_starts_ok rules l _ (i + 1)%nat Hok) as (st & Hst & _). exists (r, (i + 1)%nat). split; [|done].
        apply (Halt ((i + 1)%nat :: st)); [cbn; by rewrite T, Hst|set_solver].
    + intros st j Hst Hj. destruct (ge_type e) eqn:T; try (apply (Halt st); [cbn; by rewrite T|done]).
      * apply rule_ok_cons in Hok as [[-> _]|(_ & ? & _)]; [done|congruence].
      * apply (Halt ((i + 1)%nat :: st)); [cbn; by rewrite T, Hst|set_solver].
Qed.

Lemma free_count_insert ip r : ip !! r = Some false -> (free_count (<[r := true]> ip) + 1 = free_count ip)%nat.
Proof.
  intros H. pose proof (sum_list_with_insert (fun b : bool => if b then 0 else 1)%nat ip r false true H) as E.
  cbv beta iota in E. unfold free_count. lia.
Qed.

Lemma detect_total fuel : forall r s, call_ok r s -> (free_count (lr_in_progress s) < fuel)%nat ->
  sat (llama_grammar_detect_left_recursion rules fuel r s) (call_result s).
Proof.
  induction fuel as [|fuel IH]; intros r s [[Hv [Hi Hm]] Hr Hpath He] Hf; [lia|]. cbn [llama_grammar_detect_left_recursion].
  destruct (lookup_lt_is_Some_2 (lr_in_progress s) r) as [busy Hb]; [lia|].
  eapply sat_step; [by apply (sat_vec_get _ _ busy (fun x => x = busy))|]. intros ? ->.
  destruct busy.
  { apply sat_ok. split_and!; [done|done|]. cbn. exists r. by apply Hpath. }
  eapply sat_step; [apply (sat_vec_set _ _ _ (fun x => x = <[r := true]> (lr_in_progress s))); [lia|done]|]. intros ip ->.
  destruct (wf_rule rules W r Hr) as (rule & Hrule & Hok).
  eapply sat_step; [by apply (sat_vec_get _ _ rule (fun x => x = rule))|]. intros ? ->.
  assert (Hmbe : sat (if has_empty_alternate rule true then vec_set (lr_may_be_empty s) r true else Ok (lr_may_be_empty s))
    (fun mbe => length mbe = n_rules /\ forall x, mbe !! x = Some true -> directly_nullable x)).
  { destruct (has_empty_alternate rule true) eqn:Eh; [|by apply sat_ok]. apply sat_vec_set; [lia|].
    split; [by rewrite length_insert|]. intros x Hx. destruct (decide (x = r)) as [->|]; [by exists rule|].
    rewrite list_lookup_insert_ne in Hx by done. by apply He. }
  eapply sat_step; [exact Hmbe|]. intros mbe [Hlm Hem].
  assert (Es : suffix rules (r, 0%nat) = rule) by exact (f_equal (fun o => drop 0 (default [] o)) Hrule).
  assert (Hd : forall r' s', call_ok r' s' -> lr_in_progress s' = <[r := true]> (lr_in_progress s) ->
    sat (llama_grammar_detect_left_recursion rules fuel r' s') (call_result s')).
  { intros r' s' Hc Ep. apply IH; [done|]. rewrite Ep. pose proof (free_count_insert _ _ Hb). lia. }
  assert (Hip : forall x, <[r := true]> (lr_in_progress s) !! x = Some true -> x = r \/ reaches_left x r).
  { intros x Hx. destruct (decide (x = r)) as [->|]; [by left|]. rewrite list_lookup_insert_ne in Hx by done. right. by apply Hpath. }
  eapply sat_step; [apply (leftmost_loop_total _ _ r rule Hd Hip NoChar 0%nat true); try done|].
  - by right.
  - split_and!; cbn; [done|by rewrite length_insert|done].
  - intros _ r' Hl. exists (r, 0%nat). split; [|done]. destruct (alternates_ok rules W r Hr) as (alts & Ea & _).
    exists alts. split; [done|]. unfold alternates in Ea. assert (Hvg : vec_get rules r = Ok rule) by (by apply vec_get_ok).
    rewrite Hvg in Ea. cbn in Ea. apply bind_ok in Ea as (st & _ & Ea). injection Ea as <-. apply list_elem_of_here.
  - intros st j Hst Hj. unfold alt_of, alternates. assert (Hvg : vec_get rules r = Ok rule) by (by apply vec_get_ok).
    rewrite Hvg. cbn [mbind res_bind]. rewrite Hst. cbn [mbind res_bind]. eexists. split; [reflexivity|].
    apply list_elem_of_fmap. exists j. split; [done|]. by right.
  - intros [b s1] ([Hv1 [Hi1 Hm1]] & He1 & Hb1). cbn [fst snd] in *. destruct b; [by apply sat_ok|]. cbn [lr_in_progress] in Hb1.
    eapply sat_step; [apply (sat_vec_set _ _ _ (fun x => x = <[r := false]> (lr_in_progress s1))); [lia|done]|]. intros ip ->.
    eapply sat_step; [apply (sat_vec_set _ _ _ (fun x => length x = n_rules)); [lia|by rewrite length_insert]|]. intros vis Hvis.
    apply sat_ok. split_and!; [split_and!; cbn; [done|by rewrite length_insert|done]|done|cbn].
    rewrite Hb1, list_insert_insert_eq. by apply list_insert_id.
Qed.

Lemma check_rules_total l : forall b s, (forall i, i ∈ l -> (i < n_rules)%nat) -> state_ok s ->
  (b = false -> lr_in_progress s = replicate n_rules false) -> (forall x, lr_may_be_empty s !! x = Some true -> directly_nullable x) ->
  (b = true -> exists x, reaches_left x x) ->
  sat (mfor (check_rule rules) l (b, s)) (fun r => r.1 = true -> exists x, reaches_left x x).
Proof.
  induction l as [|i l IH]; intros b s Hl Hs Hip He Hb; cbn [mfor]; [by apply sat_ok|].
  change (check_rule rules (b, s) i) with (if b then Ok (b, s) else visited ← vec_get (lr_visited s) i;
    if (visited : bool) then Ok (b, s) else llama_grammar_detect_left_recursion rules (S n_rules) i s).
  destruct b; [apply IH; try done; set_solver|].
  destruct (lookup_lt_is_Some_2 (lr_visited s) i) as [vis Hvis]; [rewrite (proj1 Hs); apply Hl; set_solver|].
  apply vec_get_ok in Hvis. rewrite Hvis. cbn [mbind res_bind]. destruct vis; [apply IH; try done; set_solver|].
  eapply sat_step; [apply detect_total|].
  - split; [done|apply Hl; set_solver| |done]. intros x Hx. rewrite Hip in Hx by done. apply lookup_replicate in Hx as [? _]. done.
  - rewrite Hip by done. unfold free_count. enough (forall n, sum_list_with (fun b : bool => if b then 0 else 1)%nat (replicate n false) = n) as -> by lia.
    induction n; cbn; [done|by f_equal].
  - intros [b1 s1] (Hs1 & He1 & Hb1). cbn [fst snd] in *. apply IH; try done; [set_solver|intros ->|intros ->]; [|done].
    rewrite Hb1. by apply Hip.
Qed.

Lemma check_total : sat (is_left_recursive rules) (fun b => b = true -> exists x, reaches_left x x).
Proof.
  unfold is_left_recursive. eapply sat_step; [apply check_rules_total; try done|].
  - intros i Hi%elem_of_seq. lia.
  - split_and!; apply length_replicate.
  - intros x Hx. cbn in Hx. apply lookup_replicate in Hx as [? _]. done.
  - intros [b s] H. by apply sat_ok.
Qed.

(** What the check decides: whether a rule reaches itself through leftmost references. *)
Lemma check_decides : exists b, is_left_recursive rules = Ok b /\ (b = true <-> exists x, reaches_left x x).
Proof.
  destruct (proj1 (sat_exists _ _) check_total) as (b & E & Hb). exists b. split; [done|]. split; [done|].
  destruct b; [done|]. intros (x & Hx). exfalso.
  assert (Hlt : (x < n_rules)%nat).
  { assert (exists q y, alt_of rules x q /\ leads directly_nullable q y) as (q & _ & (alts & Ea & _) & _)
      by (inversion Hx as [? ? (q & Hq & Hl)|? ? ? (q & Hq & Hl)]; eauto).
    unfold alternates in Ea. apply bind_ok in Ea as (rule & Hr & _). apply vec_get_ok in Hr. by eapply lookup_lt_Some. }
  assert (Ha := not_left_recursive_bounded E x Hlt). unfold bounded in Ha. revert Hx.
  assert (Acc (flip (tc (leftmost directly_nullable))) x) as Hacc.
  { clear Hlt. induction Ha as [x _ IH]. constructor. intros y Hy. unfold flip in *. inversion Hy as [? ? H1|? z ? H1 H2]; subst.
    - by apply IH.
    - apply (IH z H1). done. }
  induction Hacc as [y _ IH]. intros Hy. by apply (IH y).
Qed.
End left.
