(* ===== verification/GrammarReject.v ===== *)
(** * The candidates the sampler may choose

    The meaning of [llama_grammar_match_partial_char], and the result of
    [llama_grammar_reject_candidates]: without token elements it keeps exactly the candidates
    whose text the stacks accept. *)
From S2P Require Export GrammarLang.

(** ** Partial characters *)

(** Does the class written at [l] have a character in [low .. high]? *)
Fixpoint class_meets (l : list llama_grammar_element) (low high : Z) : bool :=
  match l with
  | e :: ((e1 :: l2) as l1) =>
      if is_rng e1 then
        ((ge_value e <=? high) && (low <=? ge_value e1)) ||
        match l2 with e2 :: _ => is_alt e2 && class_meets l2 low high | [] => false end
      else (is_any e || ((low <=? ge_value e) && (ge_value e <=? high))) || (is_alt e1 && class_meets l1 low high)
  | _ => false
  end.

Lemma class_meets_eq e e1 l2 low high : class_meets (e :: e1 :: l2) low high =
  if is_rng e1 then
    ((ge_value e <=? high) && (low <=? ge_value e1)) ||
    match l2 with e2 :: _ => is_alt e2 && class_meets l2 low high | [] => false end
  else (is_any e || ((low <=? ge_value e) && (ge_value e <=? high))) || (is_alt e1 && class_meets (e1 :: l2) low high).
Proof. reflexivity. Qed.

Lemma match_partial_loop_eq e e1 l2 low high pos : match_partial_loop (e :: e1 :: l2) low high pos =
  if is_rng e1 then
    if (ge_value e <=? high) && (low <=? ge_value e1) then Ok (Some pos) else
    match l2 with
    | e2 :: _ => if is_alt e2 then match_partial_loop l2 low high pos else Ok None
    | [] => Err OutOfRange
    end
  else if is_any e then Ok (Some true)
  else if (low <=? ge_value e) && (ge_value e <=? high) then Ok (Some pos)
  else if is_alt e1 then match_partial_loop (e1 :: l2) low high pos else Ok None.
Proof. reflexivity. Qed.

(** The bounds of every range of the class are in order. *)
Fixpoint ranges_ordered (l : list llama_grammar_element) : bool :=
  match l with
  | e :: ((e1 :: l2) as l1) => (if is_rng e1 then ge_value e <=? ge_value e1 else true) && ranges_ordered l1
  | _ => true
  end.

Lemma ranges_ordered_tail e l : ranges_ordered (e :: l) = true -> ranges_ordered l = true.
Proof. destruct l as [|e1 l]; [done|]. intros H. change ((if is_rng e1 then ge_value e <=? ge_value e1 else true) && ranges_ordered (e1 :: l) = true) in H. by apply andb_prop in H as [_ ?]. Qed.

Lemma class_meets_spec k : forall l low high, (length l <= k)%nat -> low <= high -> ranges_ordered l = true ->
  class_meets l low high = true <-> exists c, low <= c <= high /\ class_matches l c = true.
Proof.
  induction k as [|k IH]; intros l low high Hk Hlh Ho.
  { destruct l; [|simpl in Hk; lia]. split; [done|intros (c & _ & ?); done]. }
  destruct l as [|e [|e1 l2]]; [split; [done|intros (c & _ & ?); done]..|].
  assert (Ho1 := ranges_ordered_tail _ _ Ho). assert (Ho2 := ranges_ordered_tail _ _ Ho1).
  rewrite class_meets_eq. setoid_rewrite class_matches_eq. destruct (is_rng e1) eqn:E1.
  - assert (ge_value e <= ge_value e1).
    { change ((if is_rng e1 then ge_value e <=? ge_value e1 else true) && ranges_ordered (e1 :: l2) = true) in Ho. rewrite E1 in Ho. lia. }
    assert (Hr : (match l2 with e2 :: _ => is_alt e2 && class_meets l2 low high | [] => false end) = true <->
      exists c, low <= c <= high /\ (match l2 with e2 :: _ => is_alt e2 && class_matches l2 c | [] => false end) = true).
    { destruct l2 as [|e2 l3]; [split; [done|intros (c & _ & ?); done]|].
      destruct (is_alt e2); cbn [andb]; [|split; [done|intros (c & _ & ?); done]]. apply IH; [simpl in *; lia|done|done]. }
    rewrite orb_true_iff, Hr. split.
    + intros [Hc|(c & Hc & Hm)]; [exists (Z.max low (ge_value e)); split; [lia|apply orb_true_iff; left; lia]|].
      exists c. split; [done|]. rewrite Hm. by rewrite orb_true_r.
    + intros (c & Hc & [Hm|Hm]%orb_true_iff); [left; lia|right; eauto].
  - assert (Hr : is_alt e1 && class_meets (e1 :: l2) low high = true <->
      exists c, low <= c <= high /\ is_alt e1 && class_matches (e1 :: l2) c = true).
    { destruct (is_alt e1); cbn [andb]; [|split; [done|intros (c & _ & ?); done]]. apply IH; [simpl in *; lia|done|done]. }
    rewrite orb_true_iff, Hr. split.
    + intros [[Ha|Hc]%orb_true_iff|(c & Hc & Hm)].
      * exists low. split; [lia|]. by rewrite Ha.
      * exists (ge_value e). split; [lia|]. rewrite Z.eqb_refl. by rewrite orb_true_r.
      * exists c. split; [done|]. rewrite Hm. by rewrite orb_true_r.
    + intros (c & Hc & [[Ha|He]%orb_true_iff|Hm]%orb_true_iff); [left; by rewrite Ha| |right; eauto].
      left. apply orb_true_iff. right. lia.
Qed.

Section reject.
Context (rules : llama_grammar_rules) (W : wf_rules rules).

Lemma class_partial k : forall l m low high pos, (length l <= k)%nat -> rule_ok (length rules) m l = true ->
  match l with e :: _ => ge_type e ∈ [LLAMA_GRETYPE_CHAR; LLAMA_GRETYPE_CHAR_NOT; LLAMA_GRETYPE_CHAR_ANY; LLAMA_GRETYPE_CHAR_ALT]
             | [] => True end -> (forall e, head l = Some e -> is_any e = true -> pos = true) ->
  match_partial_loop l low high pos = Ok (if class_meets l low high then Some pos else None).
Proof.
  induction k as [|k IH]; intros l m low high pos Hk Hok Hc Hpos.
  { destruct l; [done|simpl in Hk; lia]. }
  destruct l as [|e l1]; [done|].
  apply rule_ok_cons in Hok as [[-> He]|(Hne & _ & _ & Hok)].
  { rewrite He in Hc. set_solver. }
  assert (Halt : forall e2 l, is_alt e2 = true -> forall e, head (e2 :: l) = Some e -> is_any e = true -> pos = true).
  { intros e2 l H2%bool_decide_eq_true e0 [= <-] Ha%bool_decide_eq_true. congruence. }
  destruct l1 as [|e1 l2]; [done|]. rewrite match_partial_loop_eq, class_meets_eq.
  destruct (is_rng e1) eqn:E1.
  - apply bool_decide_eq_true in E1 as T1. apply rule_ok_cons in Hok as [[_ He]|(Hne2 & _ & _ & Hok2)]; [by rewrite T1 in He|].
    destruct l2 as [|e2 l3]; [done|]. destruct (_ && _); cbn [orb]; [done|]. destruct (is_alt e2) eqn:E2; cbn [andb]; [|done].
    apply (IH _ (next_mode e1)); [simpl in *; lia|done| |by apply Halt]. apply bool_decide_eq_true in E2. rewrite E2. set_solver.
  - destruct (is_any e) eqn:Ea; cbn [orb]; [by rewrite (Hpos e eq_refl Ea)|].
    destruct (_ && _); cbn [orb]; [done|]. destruct (is_alt e1) eqn:E2; cbn [andb]; [|done].
    apply (IH _ (next_mode e)); [simpl in *; lia|done| |by apply Halt]. apply bool_decide_eq_true in E2. rewrite E2. set_solver.
Qed.

(** What [llama_grammar_match_partial_char] computes. *)
Definition partial_atb (p : elem_ptr) (pu : llama_partial_utf8) : bool :=
  if (pu_n_remain pu <? 0) || ((pu_n_remain pu =? 1) && (pu_value pu <? 2)) then false else
  eqb (class_meets (suffix rules p) (partial_low pu) (partial_high pu)) (bool_decide (type_at rules p <> Some LLAMA_GRETYPE_CHAR_NOT)).

Lemma match_partial_ok p pu : start_ok rules p -> char_elem rules p ->
  llama_grammar_match_partial_char rules p pu = Ok (partial_atb p pu).
Proof.
  intros Hs (t & Et & Ht). destruct (start_cases rules p Hs) as (e & l & E & Et' & Ea).
  rewrite Et' in Et. injection Et as Et.
  destruct (suffix_elem rules p e l E) as (_ & (rule & Hr & He & Hd) & _).
  unfold llama_grammar_match_partial_char, partial_atb. rewrite Hr. cbn [mbind res_bind]. rewrite He. cbn [mbind res_bind]. rewrite Et'.
  assert (Hpos : is_positive (ge_type e) = bool_decide (Some (ge_type e) <> Some LLAMA_GRETYPE_CHAR_NOT)).
  { rewrite Et. set_unfold in Ht. by destruct Ht as [->|[->|[->|[]]]]. }
  rewrite assert_ok by (rewrite Et; set_unfold in Ht; by destruct Ht as [->|[->|[->|[]]]]). cbn [mbind res_bind].
  rewrite Hpos. destruct (_ || _); [done|].
  rewrite Hd, <- E, (class_partial (length (suffix rules p)) _ NoChar); [|done|done| |].
  - cbn [mbind res_bind]. by destruct (class_meets _ _ _), (bool_decide _).
  - rewrite E. set_unfold in Ht. set_unfold. rewrite Et. naive_solver.
  - rewrite E. intros e0 [= <-] Ha%bool_decide_eq_true. by rewrite Ha.
Qed.
End reject.

(** ** Rejecting candidates *)

Section candidates.
Context (rules : llama_grammar_rules) (W : wf_rules rules) (E : expansion_ends rules).

(** No element stands for a token. *)
Definition token_free : Prop := forall p e, elem_at rules p = Ok e -> is_token_type (ge_type e) = false.
Context (TF : token_free).

(** [w] is the text that the candidate still has to match. *)
Definition cand_text (tok : llama_grammar_candidate) (w : list Z) : Prop :=
  exists tl, drop (gc_pos tok) (gc_code_points tok) = w ++ 0 :: tl /\ Forall (fun c => c <> 0) w.

(** The stack can go on with the unfinished character of the candidate, if there is one. *)
Definition partial_fits (s : llama_grammar_stack) (p : llama_partial_utf8) : Prop :=
  pu_n_remain p = 0 \/ exists q rest, s = q :: rest /\ partial_atb rules q p = true.

Definition viable (s : llama_grammar_stack) (tok : llama_grammar_candidate) : Prop :=
  exists w u, cand_text tok w /\ chr_steps rules s w u /\ partial_fits u (gc_partial tok).

Lemma cand_text_hd tok w : cand_text tok w -> cand_chr tok = Ok (match w with c :: _ => c | [] => 0 end).
Proof.
  intros (tl & H & _). unfold cand_chr. apply vec_get_ok. rewrite <- (Nat.add_0_r (gc_pos tok)), <- lookup_drop, H.
  by destruct w.
Qed.

Lemma cand_text_fun tok w w' : cand_text tok w -> cand_text tok w' -> w = w'.
Proof.
  intros (tl & H & Hw) (tl' & H' & Hw'). rewrite H in H'. clear H. revert w' Hw' H'.
  induction Hw as [|c w Hc Hw IH]; intros [|c' w'] Hw' H'; cbn in H'.
  - done.
  - injection H' as <- _. by apply Forall_cons in Hw' as [? _].
  - injection H' as -> _. done.
  - injection H' as <- H'. apply Forall_cons in Hw' as [_ Hw']. f_equal. by apply IH.
Qed.

Lemma cand_text_move tok c w : cand_text tok (c :: w) -> cand_text (cand_move S tok) w.
Proof.
  intros (tl & H & Hw). exists tl. apply Forall_cons in Hw as [_ Hw]. split; [|done]. cbn.
  replace (S (gc_pos tok)) with (gc_pos tok + 1)%nat by lia. by rewrite <- drop_drop, H.
Qed.

Lemma cand_move_back tok : cand_move pred (cand_move S tok) = tok.
Proof. by destruct tok. Qed.

Lemma viable_at_end s tok : cand_text tok [] -> viable s tok <-> partial_fits s (gc_partial tok).
Proof.
  intros H0. split.
  - intros (w & u & Hw & Hs & Hp). assert (w = []) as -> by by eapply cand_text_fun. by inversion Hs; subst.
  - intros Hp. exists [], s. split_and!; [done|constructor|done].
Qed.

Lemma viable_step s tok c w : cand_text tok (c :: w) ->
  viable s tok <-> exists t, chr_step rules s c t /\ viable t (cand_move S tok).
Proof.
  intros H0. split.
  - intros (w' & u & Hw & Hs & Hp). assert (w' = c :: w) as -> by by eapply cand_text_fun.
    inversion Hs as [|? ? t ? ? Hc Hr]; subst. exists t. split; [done|]. exists w, u. split_and!; [by eapply cand_text_move|done..].
  - intros (t & Hc & (w' & u & Hw & Hs & Hp)). exists (c :: w), u. split_and!; [done| |done].
    assert (w' = w) as -> by (eapply cand_text_fun; [exact Hw|by eapply cand_text_move]). by econstructor.
Qed.

Lemma mfilter_ok f (P : llama_grammar_candidate -> bool) l : (forall tok, tok ∈ l -> f tok = Ok (P tok)) ->
  exists r, mfilter f l = Ok r /\ forall tok, tok ∈ r <-> tok ∈ l /\ P tok = true.
Proof.
  induction l as [|x l IH]; intros H; [exists []; split; [done|set_solver]|].
  destruct IH as (r & Er & Hr); [set_solver|]. cbn [mfilter]. rewrite (H x) by set_solver. cbn [mbind res_bind]. rewrite Er.
  cbn [mbind res_bind]. destruct (P x) eqn:Ep; eexists; (split; [reflexivity|]); intros tok; rewrite !elem_of_cons, ?Hr.
  - split; [intros [->|[? ?]]; auto|intros [[->|?] ?]; auto].
  - split; [intros [? ?]; auto|intros [[->|?] ?]; [congruence|auto]].
Qed.

Definition text_ok (depth : nat) (tok : llama_grammar_candidate) : Prop := exists w, cand_text tok w /\ (length w < depth)%nat.

(** An empty stack. *)
Lemma reject_empty_ok depth l : (forall tok, tok ∈ l -> text_ok depth tok) ->
  exists r, mfilter reject_at_empty l = Ok r /\ forall tok, tok ∈ r <-> tok ∈ l /\ ~ viable [] tok.
Proof.
  intros Hl. destruct (mfilter_ok reject_at_empty (fun tok => negb (match cand_chr tok with Ok c => c =? 0 | Err _ => false end) ||
    negb (pu_n_remain (gc_partial tok) =? 0)) l) as (r & Er & Hr).
  - intros tok Ht. destruct (Hl tok Ht) as (w & Hw & _). unfold reject_at_empty. by rewrite (cand_text_hd tok w Hw).
  - exists r. split; [done|]. intros tok. rewrite Hr.
    assert (HP : tok ∈ l -> negb (match cand_chr tok with Ok c => c =? 0 | Err _ => false end) ||
      negb (pu_n_remain (gc_partial tok) =? 0) = true <-> ~ viable [] tok).
    { intros Ht. destruct (Hl tok Ht) as (w & Hw & _). rewrite (cand_text_hd tok w Hw). destruct w as [|c w].
      - rewrite viable_at_end by done. cbn [negb orb Z.eqb]. unfold partial_fits.
        destruct (Z.eqb_spec (pu_n_remain (gc_partial tok)) 0) as [H0|H0]; cbn; split; try done.
        + intros H. by destruct H; left.
        + by intros _ [?|(? & ? & ? & _)].
      - rewrite (viable_step [] tok c w Hw). destruct Hw as (tl & _ & Hnz). apply Forall_cons in Hnz as [Hc _].
        rewrite (proj2 (Z.eqb_neq c 0)) by done. cbn. split; [|done]. by intros _ (t & (? & ? & ? & _) & _). }
    split; intros [H1 H2]; (split; [done|]); by apply HP.
Qed.

(** What the loop at a character element does with one candidate. *)
Definition local_reject (p : elem_ptr) (tok : llama_grammar_candidate) : Prop :=
  (cand_text tok [] /\ pu_n_remain (gc_partial tok) <> 0 /\ partial_atb rules p (gc_partial tok) = false) \/
  exists c w, cand_text tok (c :: w) /\ ~ char_at rules p c.

Definition goes_on (p : elem_ptr) (tok : llama_grammar_candidate) : Prop :=
  exists c w, cand_text tok (c :: w) /\ char_at rules p c.

Definition split_inv (p : elem_ptr) (d : list llama_grammar_candidate)
    (s : list llama_grammar_candidate * list llama_grammar_candidate) : Prop :=
  (forall tok, tok ∈ s.1 <-> tok ∈ d /\ local_reject p tok) /\
  (forall tok', tok' ∈ s.2 <-> exists tok, tok ∈ d /\ goes_on p tok /\ tok' = cand_move S tok).

Lemma split_inv_add p d s tok (R G : bool) : split_inv p d s -> (R = true <-> local_reject p tok) -> (G = true <-> goes_on p tok) ->
  split_inv p (d ++ [tok]) ((if R then s.1 ++ [tok] else s.1), (if G then s.2 ++ [cand_move S tok] else s.2)).
Proof.
  intros [H1 H2] HR HG. split; cbn [fst snd].
  - intros x. rewrite elem_of_app, list_elem_of_singleton. destruct R; rewrite ?elem_of_app, ?list_elem_of_singleton, H1; [|naive_solver].
    split; [intros [[? ?]| ->]; [auto|split; [auto|by apply HR]]|intros [[?| ->] ?]; auto].
  - intros x. destruct G; rewrite ?elem_of_app, ?list_elem_of_singleton, H2.
    + split.
      * intros [(y & Hy & Hg & ->)| ->]; [exists y; set_solver|]. exists tok. split_and!; [set_solver|by apply HG|done].
      * intros (y & [Hy|Hy]%elem_of_app & Hg & ->); [left; eauto|right]. set_solver.
    + split.
      * intros (y & Hy & Hg & ->). exists y. set_solver.
      * intros (y & [Hy| ->%list_elem_of_singleton]%elem_of_app & Hg & ->); [eauto|]. by apply HG in Hg.
Qed.

Lemma split_ok p depth l : start_ok rules p -> char_elem rules p -> (forall tok, tok ∈ l -> text_ok depth tok) ->
  exists s, mfor (split_candidate rules p) l ([], []) = Ok s /\ split_inv p l s.
Proof.
  intros Hp Hc Hl. apply sat_exists, sat_mfor.
  { split; [set_solver|]. intros tok'. split; [set_solver|]. intros (tok & Ht & _). set_solver. }
  intros d tok r [rejects next] -> I. destruct (Hl tok) as (w & Hw & _); [set_solver|].
  unfold split_candidate. rewrite (cand_text_hd tok w Hw). cbn [mbind res_bind]. destruct w as [|c w].
  - assert (HG : false = true <-> goes_on p tok).
    { split; [done|]. intros (c & w & Hw' & _). by pose proof (cand_text_fun _ _ _ Hw Hw'). }
    cbn [Z.eqb]. destruct (Z.eqb_spec (pu_n_remain (gc_partial tok)) 0) as [H0|H0].
    + apply sat_ok. apply (split_inv_add p d (rejects, next) tok false false I); [|done].
      split; [done|]. intros [(_ & ? & _)|(c & w & Hw' & _)]; [done|]. by pose proof (cand_text_fun _ _ _ Hw Hw').
    + rewrite match_partial_ok by done. cbn [mbind res_bind]. apply sat_ok.
      destruct (partial_atb rules p (gc_partial tok)) eqn:Ep.
      * apply (split_inv_add p d (rejects, next) tok false false I); [|done].
        split; [done|]. intros [(_ & _ & ?)|(c & w & Hw' & _)]; [congruence|]. by pose proof (cand_text_fun _ _ _ Hw Hw').
      * apply (split_inv_add p d (rejects, next) tok true false I); [|done]. split; [|done]. intros _. by left.
  - assert (Hcz : c <> 0) by (destruct Hw as (tl & _ & Hnz); by apply Forall_cons in Hnz as [? _]).
    rewrite (proj2 (Z.eqb_neq c 0)) by done. destruct (match_char_ok rules W p c Hp Hc) as [-> _]. cbn [mbind res_bind]. apply sat_ok.
    assert (HR : negb (char_atb rules p c) = true <-> local_reject p tok).
    { rewrite negb_true_iff, <- not_true_iff_false, <- (char_at_iff rules p c Hc). split; [by right; exists c, w|].
      intros [(Hw' & _)|(c' & w' & Hw' & Hn)]; pose proof (cand_text_fun _ _ _ Hw Hw') as Eq; [done|]. by injection Eq as <- <-. }
    assert (HG : char_atb rules p c = true <-> goes_on p tok).
    { rewrite <- (char_at_iff rules p c Hc). split; [by exists c, w|].
      intros (c' & w' & Hw' & Hn); pose proof (cand_text_fun _ _ _ Hw Hw') as Eq. by injection Eq as <- <-. }
    pose proof (split_inv_add p d (rejects, next) tok _ _ I HR HG) as H. by destruct (char_atb rules p c).
Qed.

(** The two functions, by the number of code points left. *)
Lemma reject_all_ok reject (l : list llama_grammar_candidate) stacks : stacks <> [] ->
  (forall s, s ∈ stacks -> forall l', (forall tok, tok ∈ l' -> tok ∈ l) -> exists r, converges (fun fuel => reject fuel s l') r /\
     forall tok, tok ∈ r <-> tok ∈ l' /\ ~ viable s tok) ->
  exists r, converges (fun fuel => reject_candidates_with (reject fuel) stacks l) r /\
    forall tok, tok ∈ r <-> tok ∈ l /\ forall s, s ∈ stacks -> ~ viable s tok.
Proof.
  intros Hne Hrej. destruct stacks as [|s stacks]; [done|]. unfold reject_candidates_with.
  destruct l as [|x l0] eqn:El; [exists []; split; [apply converges_const|set_solver]|]. rewrite <- El in *. clear El x l0.
  destruct (Hrej s ltac:(set_solver) l ltac:(done)) as (r0 & C0 & H0).
  destruct (converges_mfor (fun fuel r s => reject fuel s r)
    (fun d r => forall tok, tok ∈ r <-> tok ∈ l /\ forall t, t ∈ s :: d -> ~ viable t tok) stacks r0) as (r & C & Hr).
  - intros tok. rewrite H0. set_solver.
  - intros d t rest r1 Est H1. destruct (Hrej t ltac:(subst; set_solver) r1) as (r2 & C2 & H2).
    { intros tok Ht. by apply H1 in Ht as [? _]. }
    exists r2. split; [done|]. intros tok. rewrite H2, H1. set_solver.
  - exists r. split; [by eapply converges_bind|done].
Qed.

Lemma not_viable p rest tok depth (next_stacks : llama_grammar_stacks) : start_ok rules p -> char_elem rules p -> text_ok depth tok ->
  (forall t, t ∈ next_stacks <-> finished rules t /\ reaches rules (push rules (after_char rules p) rest) t) ->
  (local_reject p tok \/ (goes_on p tok /\ forall t, t ∈ next_stacks -> ~ viable t (cand_move S tok))) <-> ~ viable (p :: rest) tok.
Proof.
  intros Hp Hc (w & Hw & _) Hn. destruct w as [|c w].
  - rewrite viable_at_end by done. assert (Hgo : ~ goes_on p tok).
    { intros (c & w & Hw' & _). by pose proof (cand_text_fun _ _ _ Hw Hw'). }
    assert (Hfit : partial_fits (p :: rest) (gc_partial tok) <-> pu_n_remain (gc_partial tok) = 0 \/ partial_atb rules p (gc_partial tok) = true).
    { unfold partial_fits. split; [intros [?|(q & r & [= <- <-] & ?)]; auto|intros [?|?]; [auto|right; eauto]]. }
    rewrite Hfit. split.
    + intros [[(_ & H0 & H1)|(c & w & Hw' & _)]|[? _]]; [|by pose proof (cand_text_fun _ _ _ Hw Hw')|done].
      intros [?|?]; [done|congruence].
    + intros Hno. left. left. split_and!; [done|tauto|]. apply not_true_iff_false. tauto.
  - rewrite (viable_step _ tok c w Hw). split.
    + intros [[(Hw' & _)|(c' & w' & Hw' & Hno)]|[_ Hall]].
      * by pose proof (cand_text_fun _ _ _ Hw Hw').
      * pose proof (cand_text_fun _ _ _ Hw Hw') as Eq. injection Eq as <- <-. by intros (t & (q & r & [= <- <-] & ? & _) & _).
      * intros (t & (q & r & [= <- <-] & _ & Hr & Hf) & Hv). by apply (Hall t); [apply Hn|].
    + intros Hno. destruct (char_atb rules p c) eqn:Eb.
      * apply char_at_iff in Eb; [|done]. right. split; [by exists c, w|]. intros t [Hf Hr]%Hn Hv. apply Hno. exists t. split; [|done].
        by exists p, rest.
      * left. right. exists c, w. split; [done|]. rewrite char_at_iff by done. congruence.
Qed.

Lemma settled_char p s : settled rules (p :: s) -> start_ok rules p /\ stack_ok rules s /\ char_elem rules p /\
  exists e, elem_at rules p = Ok e /\ is_token_type (ge_type e) = false.
Proof.
  intros Hs. destruct (settled_top rules W E p s Hs) as (Hp & Hok & Hc). split_and!; [done|done| |].
  - destruct Hc as [?|(e & He & Ht & _)]; [done|]. rewrite (TF p e He) in Ht. done.
  - destruct (start_cases rules p Hp) as (e & l & _ & _ & Ea). exists e. split; [done|by apply (TF p)].
Qed.

(** The candidates that go on, one code point further. *)
Definition next_ok (depth : nat) (stacks : llama_grammar_stacks) (next : list llama_grammar_candidate) : Prop :=
  exists r, converges (fun fuel => reject_candidates_with (llama_grammar_reject_candidates_for_stack rules depth fuel) stacks next) r /\
    forall tok, tok ∈ r <-> tok ∈ next /\ forall t, t ∈ stacks -> ~ viable t tok.

Lemma reject_step depth s l : settled rules s -> (forall tok, tok ∈ l -> text_ok (S depth) tok) ->
  (forall stacks next, stacks <> [] -> (forall t, t ∈ stacks -> settled rules t) -> (forall tok, tok ∈ next -> text_ok depth tok) ->
     next_ok depth stacks next) ->
  exists r, converges (fun fuel => llama_grammar_reject_candidates_for_stack rules (S depth) fuel s l) r /\
    forall tok, tok ∈ r <-> tok ∈ l /\ ~ viable s tok.
Proof.
  intros Hs Hl Hrec. destruct s as [|p rest].
  { destruct (reject_empty_ok _ l Hl) as (r & Er & Hr). exists r. split; [by exists 0%nat|done]. }
  destruct (settled_char p rest Hs) as (Hp & Hrest & Hc & e & Ee & Et).
  destruct (split_ok p _ l Hp Hc Hl) as ([rejects next] & Esplit & Hrej & Hnext). cbn [fst snd] in *.
  destruct (match_char_ok rules W p 0 Hp Hc) as [Em Hafter].
  assert (Hok : stack_ok rules (push rules (after_char rules p) rest)) by (by apply push_stack_ok).
  destruct (advance_converges rules W E _ [] Hok) as (next_stacks & Cn & Hn).
  assert (Hn' : forall t, t ∈ next_stacks <-> finished rules t /\ reaches rules (push rules (after_char rules p) rest) t).
  { intros t. rewrite Hn. set_solver. }
  destruct (Hrec next_stacks next) as (nr & Cr & Hnr).
  { destruct (reach_finished rules W E _ Hok) as (t & Hr & Hf). intros Hnil. assert (t ∈ next_stacks) by (by apply Hn'). set_solver. }
  { intros t [Hf Hr]%Hn'. split; [|done]. by eapply reaches_ok. }
  { intros tok' (tok & Ht & (c & w & Hw & _) & ->)%Hnext. destruct (Hl tok Ht) as (w' & Hw' & Hlen).
    pose proof (cand_text_fun _ _ _ Hw' Hw) as ->. exists w. split; [by eapply cand_text_move|simpl in Hlen; lia]. }
  exists (rejects ++ (cand_move pred <$> nr)). split.
  - apply (converges_ext _ (fun fuel => n ← llama_grammar_advance_stack rules fuel (push rules (after_char rules p) rest) [];
      nr ← reject_candidates_with (llama_grammar_reject_candidates_for_stack rules depth fuel) n next;
      Ok (rejects ++ (cand_move pred <$> nr)))).
    + intros n. cbn [llama_grammar_reject_candidates_for_stack]. rewrite Ee. cbn [mbind res_bind]. rewrite Et, Esplit.
      cbn [mbind res_bind]. rewrite Em. cbn [mbind res_bind]. by rewrite push_ok.
    + eapply converges_bind; [exact Cn|]. eapply converges_bind; [exact Cr|apply converges_const].
  - intros tok. rewrite elem_of_app, Hrej, list_elem_of_fmap. split.
    + intros [[Ht Hlr]|(tok' & -> & Hv)].
      * split; [done|]. apply (not_viable p rest tok (S depth) next_stacks); auto.
      * apply Hnr in Hv as [(tok & Ht & Hg & ->)%Hnext Hall]. rewrite cand_move_back. split; [done|].
        apply (not_viable p rest tok (S depth) next_stacks); auto.
    + intros [Ht Hno]. apply (not_viable p rest tok (S depth) next_stacks) in Hno as [Hlr|[Hg Hall]]; auto.
      right. exists (cand_move S tok). split; [by rewrite cand_move_back|]. apply Hnr. split; [|done]. apply Hnext. eauto.
Qed.

Lemma reject_stack_ok depth : forall s l, settled rules s -> (forall tok, tok ∈ l -> text_ok (S depth) tok) ->
  exists r, converges (fun fuel => llama_grammar_reject_candidates_for_stack rules (S depth) fuel s l) r /\
    forall tok, tok ∈ r <-> tok ∈ l /\ ~ viable s tok.
Proof.
  induction depth as [|depth IH]; intros s l Hs Hl; apply reject_step; try done; intros stacks next Hne Hset Htok.
  - destruct stacks as [|t stacks]; [done|]. destruct next as [|tok next].
    + exists []. split; [apply converges_const|set_solver].
    + destruct (Htok tok) as (w & _ & ?); [set_solver|lia].
  - apply (reject_all_ok (fun fuel => llama_grammar_reject_candidates_for_stack rules (S depth) fuel)); [done|].
    intros t Ht l' Hl'. apply IH; [by apply Hset|]. intros tok Hin. by apply Htok, Hl'.
Qed.

Lemma reject_candidates_ok depth stacks l : stacks <> [] -> all_settled rules stacks -> (forall tok, tok ∈ l -> text_ok (S depth) tok) ->
  exists r, converges (fun fuel => llama_grammar_reject_candidates rules (S depth) fuel stacks l) r /\
    forall tok, tok ∈ r <-> tok ∈ l /\ forall t, t ∈ stacks -> ~ viable t tok.
Proof.
  intros Hne Hset Hl. apply (reject_all_ok (fun fuel => llama_grammar_reject_candidates_for_stack rules (S depth) fuel)); [done|].
  intros t Ht l' Hl'. apply reject_stack_ok; [by apply Hset|]. intros tok Hin. by apply Hl, Hl'.
Qed.
End candidates.

(** ** Accepting a token *)

Lemma rest_stops l : forall v n l' v' n', rest_utf8 l v n = (l', v', n') -> 0 <= n -> 0 <= n' /\ (n' <> 0 -> at_end l' = true).
Proof.
  induction l as [|b l IH]; intros v n l' v' n' H Hn; cbn [rest_utf8] in H.
  { by injection H as <- <- <-. }
  destruct (Z.eqb_spec b 0) as [->|Hb]; cbn [orb] in H; [by injection H as <- <- <-|].
  destruct (Z.ltb_spec 0 n); cbn [negb] in H; [by apply (IH _ _ _ _ _ H); lia|]. injection H as <- <- <-. split; [done|]. intros. lia.
Qed.

(** The code points end with a zero; a decoder that has produced some, or read something,
    returns some, or has something pending. *)
Lemma decode_loop_shape fuel : forall l v n acc cps p, decode_loop fuel l v n acc = Ok (cps, p) ->
  (exists cps0, cps = cps0 ++ [0]) /\ (cps = [0] -> acc <> [] \/ at_end l = false -> pu_n_remain p <> 0).
Proof.
  induction fuel as [|fuel IH]; intros l v n acc cps p H.
  { destruct l as [|b l]; cbn in H; [injection H as <- <-|destruct (b =? 0) eqn:Eb; [injection H as <- <-|done]].
    all: (split; [by exists acc|]); intros E Hne; apply (app_inj_tail acc []) in E as [-> _]; destruct Hne; [done|cbn in *; congruence]. }
  destruct l as [|b l]; cbn [decode_loop] in H.
  { injection H as <- <-. split; [by exists acc|]. intros E Hne. apply (app_inj_tail acc []) in E as [-> _]. by destruct Hne. }
  destruct (b =? 0) eqn:Eb.
  { injection H as <- <-. split; [by exists acc|]. intros E Hne. apply (app_inj_tail acc []) in E as [-> _]. destruct Hne; [done|cbn in *; congruence]. }
  apply bind_ok in H as (len & _ & H). destruct (Z.ltb_spec (len - 1) 0).
  { injection H as <- <-. split; [by exists []|]. cbn. intros _ _. lia. }
  destruct (rest_utf8 l _ (len - 1)) as [[l' v'] n'] eqn:Er. destruct (IH _ _ _ _ _ _ H) as [Hs Hn]. split; [done|].
  intros E _. destruct (Z.eqb_spec n' 0) as [Hz|Hz].
  - apply Hn; [done|]. left. by destruct acc.
  - destruct (rest_stops _ _ _ _ _ _ Er) as [_ He]; [lia|].
    destruct (at_end l') eqn:Ea; [|apply Hn; [done|by right]].
    destruct l' as [|b' l']; [|cbn in Ea]; destruct fuel; cbn [decode_loop] in H; rewrite ?Ea in H; by injection H as <- <-.
Qed.

Lemma continue_stops l : forall v n l' v' n', continue_utf8 l v n = Some (l', v', n') ->
  (n <= 0 -> l' = l /\ n' = n) /\ (0 < n -> 0 <= n' /\ (n' <> 0 -> at_end l' = true)).
Proof.
  induction l as [|b l IH]; intros v n l' v' n' H; cbn [continue_utf8] in H.
  { injection H as <- <- <-. split; [done|]. intros. split; [lia|done]. }
  destruct (Z.eqb_spec b 0) as [->|Hb]; cbn [orb] in H; [injection H as <- <- <-; split; [done|]; intros; split; [lia|done]|].
  destruct (Z.ltb_spec 0 n); cbn [negb] in H; [|injection H as <- <- <-; split; [done|lia]].
  split; [lia|]. intros _. destruct (negb _); [done|]. destruct (IH _ _ _ _ _ H) as [H1 H2].
  destruct (Z.lt_ge_cases 0 (n - 1)); [by apply H2|]. destruct H1 as [-> ->]; [lia|]. split; [lia|]. intros. lia.
Qed.

Lemma decode_partial_shape src st cps p : decode_utf8_partial src st = Ok (cps, p) ->
  (exists cps0, cps = cps0 ++ [0]) /\ (cps = [0] -> at_end src = false -> pu_n_remain p <> 0).
Proof.
  unfold decode_utf8_partial. destruct (continue_utf8 _ _ _) as [[[l v] n]|] eqn:Ec.
  2: { intros [= <- <-]. split; [by exists []|]. done. }
  intros H. destruct (decode_loop_shape _ _ _ _ _ _ _ H) as [Hs Hn]. split; [done|]. intros E Hend.
  destruct (continue_stops _ _ _ _ _ _ Ec) as [H1 H2]. destruct (Z.ltb_spec 0 (pu_n_remain st)) as [Hr|Hr]; cbn [andb] in *.
  - destruct H2 as [Hn0 He]; [done|]. destruct (Z.eqb_spec n 0) as [->|Hne]; [apply Hn; [done|by left]|].
    destruct (at_end l) eqn:Ea; [|apply Hn; [done|by right]].
    destruct l as [|b l]; [|cbn in Ea]; destruct src; cbn [decode_loop length] in H; rewrite ?Ea in H; by injection H as <- <-.
  - destruct H1 as [-> _]; [lia|]. apply Hn; [done|by right].
Qed.

Section token.
Context (rules : llama_grammar_rules) (W : wf_rules rules) (E : expansion_ends rules) (TF : token_free rules).

Lemma survive_ok cps : forall stacks, all_settled rules stacks -> exists stacks',
  converges (fun fuel => survive rules fuel cps stacks) stacks' /\
  forall t, t ∈ stacks' <-> exists s, s ∈ stacks /\ chr_steps rules s cps t.
Proof.
  induction cps as [|c cps IH]; intros stacks Hset; cbn [survive].
  - exists stacks. split; [apply converges_const|]. intros t. split; [intros; exists t; split; [done|constructor]|].
    intros (s & Hs & Hc). by inversion Hc; subst.
  - destruct (accept_stacks_ok rules W E stacks c Hset) as (s1 & C1 & Hset1 & H1).
    assert (Hstep : forall t, (exists s, s ∈ stacks /\ chr_steps rules s (c :: cps) t) <-> exists s, s ∈ s1 /\ chr_steps rules s cps t).
    { intros t. split.
      - intros (s & Hs & Hr). inversion Hr as [|? ? s' ? ? Hc Hr']; subst. exists s'. split; [apply H1; eauto|done].
      - intros (s' & (s & Hs & Hc)%H1 & Hr). exists s. split; [done|]. by econstructor. }
    destruct s1 as [|s0 s1].
    + exists []. split; [eapply converges_bind; [exact C1|apply converges_const]|]. intros t. rewrite Hstep. set_solver.
    + destruct (IH (s0 :: s1) Hset1) as (s2 & C2 & H2). exists s2. split; [by eapply converges_bind|].
      intros t. by rewrite Hstep, H2.
Qed.

Lemma elem_add_stacks l : forall out t, t ∈ foldl add_stack out l <-> t ∈ out \/ t ∈ l.
Proof. induction l as [|s l IH]; intros out t; cbn [foldl]; [set_solver|]. rewrite IH, elem_add_stack. set_solver. Qed.

(** The stacks after a token: those of the non-empty stacks after its code points. *)
Lemma accept_token_stacks_ok token cps stacks : all_settled rules stacks -> exists stacks',
  converges (fun fuel => mfor (accept_token_stack rules fuel token cps) stacks []) stacks' /\ all_settled rules stacks' /\
  forall t, t ∈ stacks' <-> exists s, s ∈ stacks /\ s <> [] /\ chr_steps rules s cps t.
Proof.
  intros Hset. destruct (converges_mfor (fun fuel new s => accept_token_stack rules fuel token cps new s)
    (fun d new => forall t, t ∈ new <-> exists s, s ∈ d /\ s <> [] /\ chr_steps rules s cps t) stacks []) as (st & C & H).
  - intros t. split; [set_solver|]. intros (s & Hs & _). set_solver.
  - intros d s r new -> Hd. destruct s as [|p s].
    + exists new. split; [apply converges_const|]. intros t. rewrite Hd. split; [intros (s & Hs & ?); exists s; set_solver|].
      intros (s & [Hs| ->%list_elem_of_singleton]%elem_of_app & ? & ?); [eauto|done].
    + assert (Hs : settled rules (p :: s)) by (apply Hset; set_solver).
      destruct (settled_char rules W E TF p s Hs) as (_ & _ & _ & e & Ee & Et).
      destruct (survive_ok cps [p :: s]) as (cur & Cc & Hc); [by intros x ->%list_elem_of_singleton|].
      exists (foldl add_stack new cur). split.
      * apply (converges_ext _ (fun fuel => cur ← survive rules fuel cps [p :: s]; Ok (foldl add_stack new cur))).
        { intros n. unfold accept_token_stack. rewrite Ee. cbn [mbind res_bind]. by rewrite Et. }
        eapply converges_bind; [exact Cc|apply converges_const].
      * intros t. rewrite elem_add_stacks, Hd, Hc. split.
        -- intros [(s' & Hs' & ?)|(s' & ->%list_elem_of_singleton & ?)]; [exists s'; set_solver|]. exists (p :: s). set_solver.
        -- intros (s' & [Hs'| ->%list_elem_of_singleton]%elem_of_app & ? & ?); [left; eauto|right]. exists (p :: s). set_solver.
  - exists st. split_and!; [done| |done]. intros t (s & Hs & _ & Hr)%H. specialize (Hset s Hs). clear Hs H C.
    induction Hr as [|s c t w u Hc _ IH]; [done|]. apply IH. by eapply chr_step_settled.
Qed.
End token.

(** ** The completions of an unfinished character *)

Section completions.
Context (rules : llama_grammar_rules) (W : wf_rules rules).

(** Reading continuation bytes after the state [pu] ends with the code point [c]. *)
Definition completes (pu : llama_partial_utf8) (c : Z) : Prop :=
  exists xs q, Forall (fun x => 0 <= x < 64) xs /\ Z.of_nat (length xs) = pu_n_remain pu /\
    utf8_run pu (Z.lor 0x80 <$> xs) = Some ([c], q).

(** Not a longer encoding than needed. *)
Definition not_overlong (pu : llama_partial_utf8) (c : Z) : Prop :=
  pu_value pu = 0 -> (pu_n_remain pu = 2 -> 0x800 <= c) /\ (pu_n_remain pu = 3 -> 0x10000 <= c).

Lemma completes_range k : forall v c, 0 <= v -> (v + 1) * 64 ^ Z.of_nat k <= 2 ^ 31 -> (0 < k)%nat ->
  completes (PartialUtf8 v (Z.of_nat k)) c <-> v * 64 ^ Z.of_nat k <= c < (v + 1) * 64 ^ Z.of_nat k.
Proof.
  induction k as [|k IH]; intros v c Hv Hb Hk; [lia|].
  assert (E64 : 64 ^ Z.of_nat (S k) = 64 * 64 ^ Z.of_nat k) by (rewrite Nat2Z.inj_succ, Z.pow_succ_r; lia).
  assert (Hp : 0 < 64 ^ Z.of_nat k) by (apply Z.pow_pos_nonneg; lia).
  assert (Hv25 : v < 2 ^ 25) by nia.
  assert (Hstep : forall x, 0 <= x < 64 -> utf8_step (PartialUtf8 v (Z.of_nat (S k))) (Z.lor 0x80 x) =
    Some (if (k =? 0)%nat then [v * 64 + x] else [], PartialUtf8 (v * 64 + x) (Z.of_nat k))).
  { intros x Hx. rewrite cont_run by lia. replace (Z.of_nat (S k) - 1) with (Z.of_nat k) by lia.
    by destruct (Z.eqb_spec (Z.of_nat (S k)) 1), (Nat.eqb_spec k 0); try lia. }
  unfold completes. cbn [pu_n_remain]. destruct k as [|k].
  - change (64 ^ Z.of_nat 1) with 64 in *. split.
    + intros (xs & q & Hxs & Hlen & Hr). destruct xs as [|x [|y xs]]; [simpl in Hlen; lia| |simpl in Hlen; lia].
      apply Forall_cons in Hxs as [Hx _]. cbn [fmap list_fmap utf8_run] in Hr. rewrite Hstep in Hr by done.
      cbn in Hr. injection Hr as <- _. lia.
    + intros Hc. exists [c - v * 64], (PartialUtf8 c 0). split; [constructor; [lia|done]|]. split; [done|].
      cbn [fmap list_fmap utf8_run]. rewrite Hstep by lia. cbn. replace (v * 64 + (c - v * 64)) with c by lia. done.
  - rewrite E64. set (P := 64 ^ Z.of_nat (S k)) in *. split.
    + intros (xs & q & Hxs & Hlen & Hr). destruct xs as [|x xs]; [simpl in Hlen; lia|].
      apply Forall_cons in Hxs as [Hx Hxs]. cbn [fmap list_fmap utf8_run] in Hr. rewrite Hstep in Hr by done. cbn [Nat.eqb mbind option_bind app] in Hr.
      destruct (utf8_run _ _) as [[cs q']|] eqn:Er; [|done]. cbn in Hr. injection Hr as -> ->.
      assert (Hc : completes (PartialUtf8 (v * 64 + x) (Z.of_nat (S k))) c) by (exists xs, q; split_and!; [done|cbn in *; lia|done]).
      apply IH in Hc; [|lia|fold P; nia|lia]. fold P in Hc. nia.
    + intros Hc. set (x := c / P - v * 64).
      assert (Hdiv : v * 64 <= c / P < v * 64 + 64).
      { split; [apply Z.div_le_lower_bound; lia|apply Z.div_lt_upper_bound; lia]. }
      assert (Hm : (c / P) * P <= c < (c / P + 1) * P) by (pose proof (Z.div_mod c P); pose proof (Z.mod_pos_bound c P); nia).
      destruct (proj2 (IH (v * 64 + x) c ltac:(lia) ltac:(fold P; unfold x; nia) ltac:(lia))) as (xs & q & Hxs & Hlen & Hr).
      { fold P. unfold x. replace (v * 64 + (c / P - v * 64)) with (c / P) by lia. lia. }
      exists (x :: xs), q. split; [constructor; [unfold x; lia|done]|]. split; [cbn in *; lia|].
      cbn [fmap list_fmap utf8_run]. rewrite Hstep by (unfold x; lia). cbn [Nat.eqb mbind option_bind app].
      by rewrite Hr.
Qed.

(** The interval of the code is the completions that are not overlong. *)
Lemma partial_interval pu c : 1 <= pu_n_remain pu <= 3 -> 0 <= pu_value pu -> (pu_value pu + 1) * 64 ^ pu_n_remain pu <= 2 ^ 31 ->
  partial_low pu <= c <= partial_high pu <-> completes pu c /\ not_overlong pu c.
Proof.
  destruct pu as [v n]. cbn [pu_n_remain pu_value]. intros Hn Hv Hb.
  rewrite <- (Z2Nat.id n) at 3 by lia. rewrite completes_range by (rewrite ?Z2Nat.id; lia). rewrite Z2Nat.id by lia.
  unfold partial_low, partial_high, not_overlong. cbn [pu_n_remain pu_value].
  assert (Hpow : 2 ^ (n * 6) = 64 ^ n) by (rewrite Z.mul_comm, Z.pow_mul_r by lia; done).
  assert (Hp : 0 < 64 ^ n) by (apply Z.pow_pos_nonneg; lia).
  assert (Hsh : u32 (Z.shiftl v (n * 6)) = v * 64 ^ n).
  { rewrite Z.shiftl_mul_pow2 by lia. rewrite Hpow. unfold u32. apply Z.mod_small. lia. }
  assert (Hhi : Z.lor (v * 64 ^ n) (Z.shiftl 1 (n * 6) - 1) = v * 64 ^ n + 64 ^ n - 1).
  { rewrite Z.shiftl_1_l, Hpow. assert (Hd := lor_disjoint v (64 ^ n - 1) (n * 6)).
    rewrite Hpow, Z.shiftl_mul_pow2, Hpow in Hd by lia. rewrite Hd; lia. }
  rewrite Hsh, Hhi. destruct (Z.eqb_spec (v * 64 ^ n) 0) as [E0|E0].
  - assert (v = 0) as -> by nia. assert (n = 1 \/ n = 2 \/ n = 3) as [-> | [-> | ->]] by lia;
      [change (64 ^ 1) with 64|change (64 ^ 2) with 4096|change (64 ^ 3) with 262144]; cbn;
      change (1 ≪ 11) with 2048; change (1 ≪ 16) with 65536; intuition lia.
  - assert (v <> 0) by nia. split; [intros; split; [nia|done]|intros [? _]; nia].
Qed.

Lemma partial_char_spec p pu : start_ok rules p -> char_elem rules p -> ranges_ordered (suffix rules p) = true ->
  1 <= pu_n_remain pu <= 3 -> 0 <= pu_value pu -> (pu_value pu + 1) * 64 ^ pu_n_remain pu <= 2 ^ 31 ->
  ~ (pu_n_remain pu = 1 /\ pu_value pu < 2) ->
  (type_at rules p <> Some LLAMA_GRETYPE_CHAR_NOT ->
     partial_atb rules p pu = true <-> exists c, completes pu c /\ not_overlong pu c /\ char_at rules p c) /\
  (type_at rules p = Some LLAMA_GRETYPE_CHAR_NOT ->
     partial_atb rules p pu = true <-> forall c, completes pu c -> not_overlong pu c -> char_at rules p c).
Proof.
  intros Hs Hc Ho Hn Hv Hb H7. unfold partial_atb.
  assert (Hg : (pu_n_remain pu <? 0) || ((pu_n_remain pu =? 1) && (pu_value pu <? 2)) = false).
  { apply orb_false_iff. split; [lia|]. apply andb_false_iff. destruct (Z.eqb_spec (pu_n_remain pu) 1); [right; lia|by left]. }
  rewrite Hg.
  assert (Hlh : partial_low pu <= partial_high pu).
  { assert (Hp : 0 < 64 ^ pu_n_remain pu) by (apply Z.pow_pos_nonneg; lia).
    pose (c := if pu_value pu =? 0 then 64 ^ pu_n_remain pu - 1 else pu_value pu * 64 ^ pu_n_remain pu).
    enough (Hin : partial_low pu <= c <= partial_high pu) by lia. apply partial_interval; [done..|].
    destruct pu as [v n]; cbn [pu_value pu_n_remain] in *. split.
    - rewrite <- (Z2Nat.id n) by lia. apply completes_range; rewrite ?Z2Nat.id by lia; [lia|lia|lia|].
      unfold c. destruct (Z.eqb_spec v 0); nia.
    - intros Hv0. cbn in Hv0. unfold c. subst v. cbn [Z.eqb]. cbn. split; intros ->; cbn; lia. }
  assert (Hm := class_meets_spec (length (suffix rules p)) (suffix rules p) _ _ ltac:(done) Hlh Ho).
  split; intros Ht.
  - rewrite bool_decide_true by done. rewrite eqb_true_iff, Hm. setoid_rewrite partial_interval; [|done..].
    assert (Hca : forall c, class_matches (suffix rules p) c = true <-> char_at rules p c).
    { intros c. rewrite char_at_iff by done. unfold char_atb. by destruct (type_at rules p) as [[]|]. }
    setoid_rewrite Hca. naive_solver.
  - rewrite bool_decide_false by (by intros ?). rewrite eqb_true_iff.
    assert (Hca : forall c, class_matches (suffix rules p) c = false <-> char_at rules p c).
    { intros c. unfold char_at. by rewrite Ht. }
    setoid_rewrite <- Hca. rewrite <- not_true_iff_false, Hm. split.
    + intros Hno c Hc1 Hc2. apply not_true_iff_false. intros Hc3. apply Hno. exists c. split; [by apply partial_interval|done].
    + intros Hall (c & Hin & Hc3). apply partial_interval in Hin as [Hc1 Hc2]; [|done..]. specialize (Hall c Hc1 Hc2). congruence.
Qed.
End completions.
