(* ===== verification/GrammarApply.v ===== *)
(** * Constraining the sampler: [llama_grammar_apply_impl] against [llama_grammar_accept_impl] *)
From S2P Require Export GrammarLeft GrammarReject.

(** ** Decoding always answers *)

Lemma rest_length l : forall v n l' v' n', rest_utf8 l v n = (l', v', n') ->
  (length l' <= length l)%nat /\ (Forall byte_ok l -> Forall byte_ok l').
Proof.
  induction l as [|b l IH]; intros v n l' v' n' H; cbn [rest_utf8] in H; [by injection H as <- <- <-|].
  destruct (_ || _); [by injection H as <- <- <-|]. destruct (IH _ _ _ _ _ H) as [H1 H2].
  split; [simpl; lia|]. intros [_ ?]%Forall_cons. auto.
Qed.

Lemma continue_length l : forall v n l' v' n', continue_utf8 l v n = Some (l', v', n') ->
  (length l' <= length l)%nat /\ (Forall byte_ok l -> Forall byte_ok l').
Proof.
  induction l as [|b l IH]; intros v n l' v' n' H; cbn [continue_utf8] in H; [by injection H as <- <- <-|].
  destruct (_ || _); [by injection H as <- <- <-|]. destruct (negb _); [done|]. destruct (IH _ _ _ _ _ H) as [H1 H2].
  split; [simpl; lia|]. intros [_ ?]%Forall_cons. auto.
Qed.

Lemma decode_loop_total fuel : forall l v n acc, Forall byte_ok l -> (length l <= fuel)%nat ->
  exists cps p, decode_loop fuel l v n acc = Ok (cps, p).
Proof.
  induction fuel as [|fuel IH]; intros [|b l] v n acc Hb Hl; cbn [decode_loop]; try by eexists _, _.
  1: by simpl in Hl; lia.
  destruct (b =? 0); [by eexists _, _|]. apply Forall_cons in Hb as [Hb Hbs]. unfold byte_ok in Hb.
  assert (exists len, vec_getZ utf8_lookup_strict (Z.shiftr b 4) = Ok len) as [len ->].
  { apply (below_check 256 (fun b => match vec_getZ utf8_lookup_strict (Z.shiftr b 4) with Ok _ => true | Err _ => false end)) in Hb;
      [|reflexivity]. cbn beta in Hb. destruct (vec_getZ _ _); [by eexists|done]. }
  cbn [mbind res_bind]. destruct (len - 1 <? 0); [by eexists _, _|].
  destruct (rest_utf8 l _ _) as [[l' v'] n'] eqn:Er. apply rest_length in Er as [H1 H2]. apply IH; [auto|simpl in Hl; lia].
Qed.

Lemma decode_partial_total src st : Forall byte_ok src -> exists cps p, decode_utf8_partial src st = Ok (cps ++ [0], p).
Proof.
  intros Hb. assert (exists cps p, decode_utf8_partial src st = Ok (cps, p)) as (cps & p & E).
  { unfold decode_utf8_partial. destruct (continue_utf8 _ _ _) as [[[l v] n]|] eqn:Ec; [|by eexists _, _].
    apply continue_length in Ec as [H1 H2]. apply decode_loop_total; auto. }
  destruct (decode_partial_shape _ _ _ _ E) as [[cps0 ->] _]. eauto.
Qed.

Section apply.
Context {L : Type} (neg_infinity : L).
Context (rules : llama_grammar_rules) (W : wf_rules rules) (E : expansion_ends rules) (TF : token_free rules).
Context (vocab : llama_vocab) (g : llama_grammar).
Context (Hvocab : g_vocab g = Some vocab) (Hrules : g_rules g = rules) (Hawait : g_awaiting_trigger g = false).
Context (Hset : all_settled rules (g_stacks g)) (Hne : g_stacks g <> []).

Abbreviation piece_of id := (vc_token_to_piece vocab id).

(** The text of the token is bytes whose code points are not zero. *)
Definition piece_ok (id : Z) : Prop := Forall byte_ok (piece_of id) /\
  forall cps p, decode_utf8_partial (piece_of id) (g_partial_utf8 g) = Ok (cps ++ [0], p) -> Forall (fun c => c <> 0) cps.

(** What the first loop does with a token. *)
Definition refused (id : Z) : bool :=
  if vc_is_eog vocab id then negb (has_empty_stack (g_stacks g)) else at_end (piece_of id).

Definition is_candidate (id : Z) : bool := negb (vc_is_eog vocab id) && negb (at_end (piece_of id)).

Definition cand_of (i : nat) (id : Z) (tok : llama_grammar_candidate) : Prop :=
  exists cps p, decode_utf8_partial (piece_of id) (g_partial_utf8 g) = Ok (cps, p) /\ tok = GCand i cps 0 p id.

Definition collect_inv (cur_p : list (Z * L)) (d : list (nat * (Z * L))) (s : list (Z * L) * list llama_grammar_candidate) : Prop :=
  (forall i id x, cur_p !! i = Some (id, x) -> s.1 !! i =
     Some (id, if (i <? length d)%nat && refused id then neg_infinity else x)) /\
  length s.1 = length cur_p /\
  (forall tok, tok ∈ s.2 <-> exists i id x, (i < length d)%nat /\ cur_p !! i = Some (id, x) /\ is_candidate id = true /\ cand_of i id tok).

Lemma collect_ok cur_p : (forall id x, (id, x) ∈ cur_p -> Forall byte_ok (piece_of id)) ->
  exists s, mfor (collect_candidate neg_infinity vocab (has_empty_stack (g_stacks g)) (g_partial_utf8 g)) (imap pair cur_p) (cur_p, []) = Ok s /\
    collect_inv cur_p (imap pair cur_p) s.
Proof.
  intros Hb. apply sat_exists, sat_mfor.
  { split_and!; cbn; [intros i id x Hi; by rewrite Hi|done|]. intros tok. split; [set_solver|intros (i & id & x & ? & _); lia]. }
  intros d [i [id x]] r [data cands] Hl (I1 & I2 & I3). cbn [fst snd] in *.
  assert (Hi : imap pair cur_p !! length d = Some (i, (id, x))) by (rewrite Hl; by apply list_lookup_middle).
  rewrite list_lookup_imap in Hi. destruct (cur_p !! length d) as [y|] eqn:Ey; [|done]. injection Hi as <- ->.
  assert (Hother : forall j, (j < length (d ++ [(length d, (id, x))]))%nat <-> (j < length d)%nat \/ j = length d).
  { intros j. rewrite length_app. simpl. lia. }
  unfold collect_candidate.
  assert (G : forall (c : bool) cands', c = refused id ->
    (forall tok, tok ∈ cands' <-> tok ∈ cands \/ (is_candidate id = true /\ cand_of (length d) id tok)) ->
    collect_inv cur_p (d ++ [(length d, (id, x))]) (if c then <[length d := (id, neg_infinity)]> data else data, cands')).
  { intros c cands' -> Hc. split_and!; cbn [fst snd].
    - intros j id' x' Hj. assert (Hlt : (length d < length data)%nat) by (rewrite I2; by eapply lookup_lt_Some).
      destruct (decide (j = length d)) as [->|Hjd].
      + rewrite Ey in Hj. injection Hj as <- <-. rewrite length_app. cbn [length]. rewrite (proj2 (Nat.ltb_lt _ (_ + 1))) by lia. cbn [andb].
        destruct (refused id); [by rewrite list_lookup_insert_eq|]. rewrite (I1 _ _ _ Ey). by rewrite Nat.ltb_irrefl.
      + assert (Hlk : (if refused id then <[length d := (id, neg_infinity)]> data else data) !! j = data !! j).
        { destruct (refused id); [by rewrite list_lookup_insert_ne|done]. }
        rewrite Hlk, (I1 _ _ _ Hj), length_app. cbn [length].
        by destruct (Nat.ltb_spec j (length d)), (Nat.ltb_spec j (length d + 1)); try lia.
    - destruct (refused id); [by rewrite length_insert|done].
    - intros tok. rewrite Hc, I3. split.
      + intros [(j & id' & x' & Hj & Hcj & ? & ?)|[? ?]]; [exists j, id', x'; rewrite Hother; auto|].
        exists (length d), id, x. rewrite Hother. auto.
      + intros (j & id' & x' & [Hj| ->]%Hother & Hcj & ? & ?); [left; eauto 10|right]. rewrite Ey in Hcj. by injection Hcj as <- <-. }
  destruct (vc_is_eog vocab id) eqn:Eg.
  { apply sat_ok. assert (Hnc : is_candidate id = false) by (unfold is_candidate; by rewrite Eg).
    assert (Hr : negb (has_empty_stack (g_stacks g)) = refused id) by (unfold refused; by rewrite Eg).
    pose proof (G _ cands Hr ltac:(intros tok; rewrite Hnc; naive_solver)) as H. by destruct (has_empty_stack (g_stacks g)). }
  destruct (at_end (piece_of id)) eqn:Ee.
  { apply sat_ok. assert (Hnc : is_candidate id = false) by (unfold is_candidate; by rewrite Eg, Ee).
    apply (G true cands); [unfold refused; by rewrite Eg, Ee|]. intros tok. rewrite Hnc. naive_solver. }
  destruct (decode_partial_total (piece_of id) (g_partial_utf8 g)) as (cps & p & Ed).
  { apply (Hb id x). by eapply list_elem_of_lookup_2. }
  rewrite Ed. cbn [mbind res_bind]. apply sat_ok. apply (G false); [unfold refused; by rewrite Eg, Ee|].
  intros tok. rewrite elem_of_app, list_elem_of_singleton. unfold is_candidate, cand_of. rewrite Eg, Ee, Ed.
  split; [intros [?| ->]; [auto|right; split; [done|eauto]]|]. intros [?|(_ & cps' & p' & [= <- <-] & ->)]; auto.
Qed.

(** The second loop. *)
Lemma reject_logits_ok rejects : forall (data : list (Z * L)), length (foldl (reject_logit neg_infinity) data rejects) = length data /\
  forall i id x, data !! i = Some (id, x) -> exists y, foldl (reject_logit neg_infinity) data rejects !! i = Some (id, y) /\
    (if decide (i ∈ gc_index <$> rejects) then y = neg_infinity else y = x).
Proof.
  induction rejects as [|tok rejects IH]; intros data; cbn [foldl].
  { split; [done|]. intros i id x Hi. exists x. split; [done|]. by rewrite decide_False by set_solver. }
  destruct (IH (reject_logit neg_infinity data tok)) as [H1 H2]. split; [by rewrite H1; unfold reject_logit; rewrite length_alter|].
  intros i id x Hi. destruct (decide (i = gc_index tok)) as [->|Hne'].
  - destruct (H2 (gc_index tok) id neg_infinity) as (y & Hy & Hif).
    { unfold reject_logit. by rewrite list_lookup_alter_eq, Hi. }
    exists y. split; [done|]. rewrite decide_True by (cbn; set_solver). by destruct (decide _).
  - destruct (H2 i id x) as (y & Hy & Hif).
    { unfold reject_logit. by rewrite list_lookup_alter_ne by done. }
    exists y. split; [done|]. cbn [fmap list_fmap].
    destruct (decide (i ∈ gc_index <$> rejects)), (decide (i ∈ gc_index tok :: (gc_index <$> rejects))) as [Hin|]; try done; [set_solver|].
    apply elem_of_cons in Hin as [?|?]; done.
Qed.

(** A token may be chosen: an end-of-generation token when a stack is empty, another one when a
    stack accepts its code points and can go on with an unfinished character. *)
Definition allowed (id : Z) : Prop :=
  if vc_is_eog vocab id then [] ∈ g_stacks g else
  at_end (piece_of id) = false /\ exists cps p s u, decode_utf8_partial (piece_of id) (g_partial_utf8 g) = Ok (cps ++ [0], p) /\
    s ∈ g_stacks g /\ chr_steps rules s cps u /\ partial_fits rules u p.

Lemma has_empty_iff stacks : has_empty_stack stacks = true <-> [] ∈ stacks.
Proof.
  unfold has_empty_stack. rewrite existsb_exists. split.
  - intros (s & Hs%list_elem_of_In & He). by destruct s.
  - intros H%list_elem_of_In. by exists [].
Qed.

(** A candidate that no stack rejects. *)
Lemma candidate_viable i id tok : piece_ok id -> is_candidate id = true -> cand_of i id tok ->
  (exists s, s ∈ g_stacks g /\ viable rules s tok) <-> allowed id.
Proof.
  intros [Hb Hnz] [Hg He]%andb_prop (cps0 & p & Ed & ->). apply negb_true_iff in Hg, He. unfold allowed. rewrite Hg, He.
  destruct (decode_partial_shape _ _ _ _ Ed) as [[cps ->] _]. assert (Hc := Hnz _ _ Ed).
  assert (Htext : cand_text (GCand i (cps ++ [0]) 0 p id) cps) by (by exists []).
  split.
  - intros (s & Hs & w & u & Hw & Hst & Hp). split; [done|]. pose proof (cand_text_fun _ _ _ Htext Hw) as <-. by exists cps, p, s, u.
  - intros (_ & cps' & p' & s & u & Ed' & Hs & Hst & Hp). rewrite Ed in Ed'. injection Ed' as Ec <-.
    apply app_inj_tail in Ec as [<- _]. exists s. split; [done|]. by exists cps, u.
Qed.

(** Logits after the whole function. *)
Lemma apply_ok depth cur_p : (forall id x, (id, x) ∈ cur_p -> piece_ok id /\
    forall cps p, decode_utf8_partial (piece_of id) (g_partial_utf8 g) = Ok (cps ++ [0], p) -> (length cps <= depth)%nat) ->
  exists data, converges (fun fuel => llama_grammar_apply_impl neg_infinity (S depth) fuel g cur_p) data /\ length data = length cur_p /\
    forall i id x, cur_p !! i = Some (id, x) -> exists y, data !! i = Some (id, y) /\ (allowed id -> y = x) /\ (~ allowed id -> y = neg_infinity).
Proof.
  intros Hpieces. destruct (collect_ok cur_p) as ([data cands] & Ec & I1 & I2 & I3).
  { intros id x Hin. by apply (Hpieces id x). }
  cbn [fst snd] in *. rewrite length_imap in *.
  destruct (reject_candidates_ok rules W E TF depth (g_stacks g) cands Hne Hset) as (rejects & Cr & Hr).
  { intros tok (i & id & x & _ & Hi & _ & cps & p & Ed & ->)%I3. apply list_elem_of_lookup_2, Hpieces in Hi as [[_ Hnz] Hlen].
    destruct (decode_partial_shape _ _ _ _ Ed) as [[cps0 ->] _]. exists cps0. split; [exists []; split; [done|by eapply Hnz]|].
    apply Hlen in Ed. lia. }
  destruct (reject_logits_ok rejects data) as [Hlen Hlk].
  exists (foldl (reject_logit neg_infinity) data rejects). split_and!; [|congruence|].
  - apply (converges_ext _ (fun fuel => r ← llama_grammar_reject_candidates rules (S depth) fuel (g_stacks g) cands;
      Ok (foldl (reject_logit neg_infinity) data r))); [|by eapply converges_bind; [exact Cr|apply converges_const]].
    intros n. unfold llama_grammar_apply_impl. rewrite Hvocab, Hawait, Ec. cbn [mbind res_bind]. by rewrite Hrules.
  - intros i id x Hi. assert (Hlt : (i < length cur_p)%nat) by (by eapply lookup_lt_Some).
    destruct (Hlk i id _ (I1 i id x Hi)) as (y & Hy & Hif). rewrite (proj2 (Nat.ltb_lt _ _) Hlt) in Hif. cbn [andb] in Hif.
    exists y. split; [done|].
    destruct (Hpieces id x) as [Hp _]; [by eapply list_elem_of_lookup_2|].
    assert (Hin : is_candidate id = true -> i ∈ gc_index <$> rejects <-> ~ allowed id).
    { intros Hc. destruct (decode_partial_total (piece_of id) (g_partial_utf8 g)) as (cps & p & Ed); [by apply Hp|].
      assert (Hco : cand_of i id (GCand i (cps ++ [0]) 0 p id)) by (by exists (cps ++ [0]), p).
      rewrite <- (candidate_viable i id _ Hp Hc Hco), list_elem_of_fmap. split.
      - intros (tok & -> & [(j & id' & x' & _ & Hj & _ & Hct)%I3 Hno]%Hr) (s & Hs & Hv).
        destruct Hct as (cps' & p' & Ed' & ->). cbn [gc_index] in *. rewrite Hi in Hj. injection Hj as <- <-.
        rewrite Ed in Ed'. injection Ed' as <- <-. by apply (Hno s Hs).
      - intros Hno. eexists. split; [|apply Hr; split; [apply I3; exists i, id, x; split_and!; [done|done|done|exact Hco]|]].
        + done.
        + intros s Hs Hv. apply Hno. eauto. }
    assert (Hnin : is_candidate id = false -> i ∉ gc_index <$> rejects).
    { intros Hc (tok & -> & [(j & id' & x' & _ & Hj & Hc' & Hct)%I3 _]%Hr)%list_elem_of_fmap.
      destruct Hct as (cps' & p' & Ed' & ->). cbn [gc_index] in *. rewrite Hi in Hj. injection Hj as <- <-. congruence. }
    unfold refused, is_candidate in *. destruct (vc_is_eog vocab id) eqn:Eg; cbn [negb andb] in *.
    + rewrite decide_False in Hif by auto. subst y. unfold allowed. rewrite Eg, <- has_empty_iff.
      by destruct (has_empty_stack (g_stacks g)).
    + destruct (at_end (piece_of id)) eqn:Ee; cbn [negb] in *.
      * rewrite decide_False in Hif by auto. subst y. unfold allowed. rewrite Eg, Ee. split; [by intros [? _]|done].
      * destruct (decide _) as [Hd|Hd]; subst y; [|split; [done|]; intros Hno; exfalso; apply Hd, Hin; done].
        split; [|done]. intros Ha. by apply Hin in Hd.
Qed.

(** ** Accepting the token that was chosen *)

Lemma accept_impl_allowed id : piece_ok id -> allowed id ->
  exists g', converges (fun fuel => llama_grammar_accept_impl fuel g id) g' /\ all_settled rules (g_stacks g') /\ g_stacks g' <> [] /\
    g_vocab g' = g_vocab g /\ g_rules g' = g_rules g /\ g_awaiting_trigger g' = g_awaiting_trigger g.
Proof.
  intros [Hb Hnz] Ha. unfold allowed in Ha. unfold llama_grammar_accept_impl. rewrite Hvocab, Hawait.
  destruct (vc_is_eog vocab id) eqn:Eg.
  { exists g. split; [|done]. rewrite (proj2 (has_empty_iff _) Ha). apply converges_const. }
  destruct Ha as (He & cps & p & s & u & Ed & Hs & Hst & Hp).
  destruct (accept_token_stacks_ok rules W E TF id cps (g_stacks g) Hset) as (st & C & Hset' & H).
  assert (Hu : u ∈ st).
  { apply H. exists s. split_and!; [done| |done]. intros ->. inversion Hst as [|? ? ? ? ? (? & ? & ? & _)]; subst; [|done].
    destruct (decode_partial_shape _ _ _ _ Ed) as [_ Hn]. destruct Hp as [Hp|(? & ? & ? & _)]; [by apply Hn|done]. }
  exists (with_stacks g st p). split_and!; [|done|by destruct st; [set_solver|]|done|done|done].
  apply (converges_ext _ (fun fuel => st ← mfor (accept_token_stack rules fuel id cps) (g_stacks g) [];
    match st with [] => Err Thrown | _ => Ok (with_stacks g st p) end)).
  - intros n. unfold llama_grammar_accept_token. rewrite Ed. cbn [mbind res_bind]. by rewrite removelast_last, Hrules.
  - eapply converges_bind; [exact C|]. destruct st; [set_solver|apply converges_const].
Qed.

(** A token that is not allowed is not accepted, when it ends with a whole character. *)
Lemma accept_impl_refused id cps p : piece_ok id -> ~ allowed id -> at_end (piece_of id) = false ->
  decode_utf8_partial (piece_of id) (g_partial_utf8 g) = Ok (cps ++ [0], p) -> pu_n_remain p = 0 ->
  exists n, forall fuel, (n <= fuel)%nat -> llama_grammar_accept_impl fuel g id = Err Thrown \/
    llama_grammar_accept_impl fuel g id = Err AssertFailed.
Proof.
  intros [Hb Hnz] Ha He Ed H0. unfold allowed in Ha. unfold llama_grammar_accept_impl. rewrite Hvocab, Hawait.
  destruct (vc_is_eog vocab id) eqn:Eg.
  { exists 0%nat. intros _ _. right. rewrite <- has_empty_iff in Ha. destruct (has_empty_stack (g_stacks g)); [by destruct Ha|done]. }
  destruct (accept_token_stacks_ok rules W E TF id cps (g_stacks g) Hset) as (st & [n C] & _ & H).
  assert (st = []) as ->.
  { destruct st as [|u st]; [done|]. exfalso. destruct (proj1 (H u)) as (s & Hs & _ & Hst); [set_solver|]. apply Ha. split; [done|].
    exists cps, p, s, u. split_and!; [done|done|done|by left]. }
  exists n. intros fuel Hf. left. unfold llama_grammar_accept_token. rewrite Ed. cbn [mbind res_bind].
  by rewrite removelast_last, Hrules, C.
Qed.

Lemma partial_fits_dec u p : partial_fits rules u p \/ ~ partial_fits rules u p.
Proof.
  unfold partial_fits. destruct (decide (pu_n_remain p = 0)) as [|H0]; [auto|].
  destruct u as [|q u]; [right; intros [?|(? & ? & ? & _)]; done|].
  destruct (partial_atb rules q p) eqn:Ep; [left; right; eauto|]. right. intros [?|(? & ? & [= <- <-] & ?)]; [done|congruence].
Qed.

Lemma allowed_dec id : piece_ok id -> allowed id \/ ~ allowed id.
Proof.
  intros [Hb _]. unfold allowed. destruct (vc_is_eog vocab id); [destruct (decide ([] ∈ g_stacks g)); auto|].
  destruct (at_end (piece_of id)); [by right; intros [? _]|].
  destruct (decode_partial_total (piece_of id) (g_partial_utf8 g)) as (cps & p & Ed); [done|].
  destruct (accept_all_ok rules W E cps (g_stacks g) Hset) as (st & _ & _ & H).
  assert (Hd : (exists u, u ∈ st /\ partial_fits rules u p) \/ ~ (exists u, u ∈ st /\ partial_fits rules u p)).
  { clear H. induction st as [|u st IH]; [right; intros (u & Hu & _); set_solver|].
    destruct (partial_fits_dec u p) as [Hu|Hu]; [left; exists u; set_solver|].
    destruct IH as [(u' & ? & ?)|IH]; [left; exists u'; set_solver|]. right. intros (u' & [->|?]%elem_of_cons & ?); eauto. }
  destruct Hd as [(u & (s & Hs & Hst)%H & Hp)|Hno].
  - left. split; [done|]. by exists cps, p, s, u.
  - right. intros (_ & cps' & p' & s & u & Ed' & Hs & Hst & Hp). rewrite Ed in Ed'. injection Ed' as Ec <-.
    apply app_inj_tail in Ec as [<- _]. apply Hno. exists u. split; [apply H; eauto|done].
Qed.
End apply.
