(* ===== verification/GrammarProps.v ===== *)
(** * Properties of the grammar engine *)
From S2P Require Export GrammarApply.

(** ** Demonstration grammars *)

Definition g_ch (c : Z) : llama_grammar_element := GElem LLAMA_GRETYPE_CHAR c.
Definition g_ref (r : Z) : llama_grammar_element := GElem LLAMA_GRETYPE_RULE_REF r.
Definition g_alt : llama_grammar_element := GElem LLAMA_GRETYPE_ALT 0.
Definition g_end : llama_grammar_element := GElem LLAMA_GRETYPE_END 0.

(** [root ::= "(" root ")" root | ] *)
Definition parens : llama_grammar_rules := [[g_ch 40; g_ref 0; g_ch 41; g_ref 0; g_alt; g_end]].

(** [root ::= e root "x" | "y"], [e ::= f], [f ::= "z" | ] *)
Definition hidden : llama_grammar_rules :=
  [[g_ref 1; g_ref 0; g_ch 120; g_alt; g_ch 121; g_end]; [g_ref 2; g_end]; [g_ch 122; g_alt; g_end]].

(** [root ::= "a" <[5]>] *)
Definition char_then_token : llama_grammar_rules := [[g_ch 97; GElem LLAMA_GRETYPE_TOKEN 5; g_end]].

Lemma alt_of_in_range rules r q : alt_of rules r q -> (r < length rules)%nat.
Proof.
  intros (alts & Ea & _). unfold alternates in Ea. apply bind_ok in Ea as (rule & Hr & _). apply vec_get_ok in Hr. by eapply lookup_lt_Some.
Qed.

Lemma parens_wf : wf_rules parens.
Proof. reflexivity. Qed.

Lemma parens_visible : nullability_visible parens.
Proof.
  intros r (q & Hq & _). apply alt_of_in_range in Hq. destruct r as [|r]; [|cbn in Hq; lia]. by eexists.
Qed.

Lemma parens_no_cycle : ~ exists x, reaches_left parens x x.
Proof.
  destruct (check_decides parens parens_wf) as (b & E & Hb). assert (b = false) as -> by (vm_compute in E; congruence).
  intros H. by apply Hb in H.
Qed.

(** The stacks of a new grammar and after a text. *)
Lemma stacks_accept rules start cps (W : wf_rules rules) (Hs : (start < length rules)%nat)
    (Hv : nullability_visible rules) (Hl : ~ exists x, reaches_left rules x x) :
  is_left_recursive rules = Ok false /\
  exists n st0 st, (forall fuel, (n <= fuel)%nat ->
      initial_stacks rules fuel start = Ok st0 /\ mfor (accept_stacks rules fuel) cps st0 = Ok st) /\
    (has_empty_stack st = true <-> language rules start cps) /\
    (forall w, language rules start (cps ++ w) <-> exists s, s ∈ st /\ generates rules s w).
Proof.
  destruct (check_decides rules W) as (b & Eb & Hb). assert (b = false) as -> by (destruct b; [by destruct Hl; apply Hb|done]).
  split; [done|]. assert (E := accepted_ends rules W Hv Eb).
  destruct (initial_stacks_ok rules W E start Hs) as (st0 & [n0 C0] & Hset0 & _ & H0).
  destruct (accept_all_ok rules W E cps st0 Hset0) as (st & [n1 C1] & Hset & H1).
  exists (n0 `max` n1)%nat, st0, st.
  assert (Hw : forall w, language rules start (cps ++ w) <-> exists s, s ∈ st /\ generates rules s w).
  { intros w. rewrite H0. split.
    - intros (s & Hin & Hg). apply generates_steps in Hg as (t & Ht & Hg); [|by apply Hset0]. exists t. split; [apply H1; eauto|done].
    - intros (t & (s & Hin & Ht)%H1 & Hg). exists s. split; [done|]. apply generates_steps; [by apply Hset0|eauto]. }
  split_and!; [|clear Hb|done].
  - intros fuel Hf. by rewrite C0, C1 by lia.
  - rewrite <- (app_nil_r cps) at 1. rewrite Hw. unfold has_empty_stack. rewrite existsb_exists. split.
    + intros (s & Hin%list_elem_of_In & He). exists s. split; [done|]. destruct s; [constructor|done].
    + intros (s & Hin & Hg). apply generates_empty in Hg as ->; [|by apply Hset]. exists []. by rewrite <- list_elem_of_In.
Qed.

(** Accepting a text changes the stacks only. *)
Lemma accept_all_stacks rules fuel l : forall g, g_rules g = rules -> g_partial_utf8 g = PartialUtf8 0 0 ->
  mfor (llama_grammar_accept fuel) l g = (s ← mfor (accept_stacks rules fuel) l (g_stacks g); Ok (with_stacks g s (PartialUtf8 0 0))).
Proof.
  induction l as [|c l IH]; intros g Hg Hp; cbn [mfor mbind res_bind]; [destruct g; cbn in *; by subst|].
  change (llama_grammar_accept fuel g c) with (stacks ← accept_stacks (g_rules g) fuel (g_stacks g) c;
    Ok (with_stacks g stacks (g_partial_utf8 g))).
  rewrite Hg. destruct (accept_stacks rules fuel (g_stacks g) c) as [s|]; [|done]. cbn [mbind res_bind]. by rewrite IH.
Qed.

(** ** Theorems *)

(** C23: a grammar built from well-formed rules accepts exactly the language of its start rule,
    when no rule reaches itself through leftmost references and every rule that generates the
    empty text has an empty alternate. Building it and accepting any text then end; after the
    text there is an empty stack exactly when the text is in the language, and its
    continuations in the language are what the remaining stacks generate. *)
Theorem grammar_accepts_language vocab src rules start cps
    (Hc : mmap copy_rule src = Ok rules) (W : wf_rules rules) (Hs : (start < length rules)%nat)
    (Hv : nullability_visible rules) (Hl : ~ exists x, reaches_left rules x x) :
  exists n g g', (forall fuel, (n <= fuel)%nat ->
      llama_grammar_init_rules fuel vocab src start = Ok (Some g) /\ mfor (llama_grammar_accept fuel) cps g = Ok g') /\
    (has_empty_stack (g_stacks g') = true <-> language rules start cps) /\
    (forall w, language rules start (cps ++ w) <-> exists s, s ∈ g_stacks g' /\ generates rules s w).
Proof.
  destruct (stacks_accept rules start cps W Hs Hv Hl) as (Eb & n & st0 & st & H & He & Hw).
  set (g0 := LlamaGrammar vocab rules st0 (PartialUtf8 0 0) false false [] [] [] []).
  exists n, g0, (with_stacks g0 st (PartialUtf8 0 0)). split_and!; [|done|done].
  intros fuel Hf. destruct (H fuel Hf) as [H1 H2]. split.
  - unfold llama_grammar_init_rules. rewrite Hc. cbn [mbind res_bind]. rewrite Eb. cbn [mbind res_bind]. by rewrite H1.
  - rewrite (accept_all_stacks rules) by done. cbn [g_stacks g0]. by rewrite H2.
Qed.

Lemma grammar_accepts_language_witness :
  exists n g g', (forall fuel, (n <= fuel)%nat ->
      llama_grammar_init_rules fuel None parens 0 = Ok (Some g) /\ mfor (llama_grammar_accept fuel) [40; 41] g = Ok g') /\
    (has_empty_stack (g_stacks g') = true <-> language parens 0 [40; 41]).
Proof.
  destruct (grammar_accepts_language None parens parens 0 [40; 41]) as (n & g & g' & H1 & H2 & _).
  - reflexivity.
  - exact parens_wf.
  - apply Nat.ltb_lt. reflexivity.
  - exact parens_visible.
  - exact parens_no_cycle.
  - exists n, g, g'. split; [exact H1|exact H2].
Defined.

(** C26: the check for left recursion always answers, and reports left recursion exactly when a
    rule reaches itself through leftmost references, where a reference is looked through when
    the rule referred to has an empty alternate of its own. *)
Theorem left_recursion_check_exact rules (W : wf_rules rules) :
  exists b, is_left_recursive rules = Ok b /\ (b = true <-> exists x, reaches_left rules x x).
Proof. by apply check_decides. Qed.

Lemma left_recursion_check_exact_witness :
  exists b, is_left_recursive hidden = Ok b /\ (b = true <-> exists x, reaches_left hidden x x).
Proof. apply (left_recursion_check_exact hidden). reflexivity. Defined.

(** *** A grammar the check accepts by mistake *)

Definition loop_tail (k : nat) : llama_grammar_stack := replicate k (0, 2)%nat.
Definition fresh_from (k : nat) (seen : gset llama_grammar_stack) : Prop :=
  forall j, (k <= j)%nat -> ~ ((0, 0)%nat :: loop_tail j) ∈ seen /\ ~ ((1, 0)%nat :: (0, 1)%nat :: loop_tail j) ∈ seen /\
    ~ ((0, 1)%nat :: loop_tail j) ∈ seen.

Lemma loop_tail_inj i j : loop_tail i = loop_tail j -> i = j.
Proof. intros H. apply (f_equal length) in H. unfold loop_tail in H. by rewrite !length_replicate in H. Qed.

Lemma hidden_round fuel : forall k rest seen out, fresh_from k seen ->
  advance_loop hidden fuel (((0, 0)%nat :: loop_tail k) :: rest) seen out = Err NoFuel.
Proof.
  induction fuel as [fuel IH] using lt_wf_ind. intros k rest seen out HF.
  destruct (HF k) as (HA & HB & HC); [lia|].
  destruct fuel as [|fuel]; [done|]. cbn [advance_loop]. rewrite decide_False by done.
  change (expand hidden ((0, 0)%nat :: loop_tail k)) with (Ok (Some [(1, 0)%nat :: (0, 1)%nat :: loop_tail k])). cbn [mbind res_bind rev app].
  destruct fuel as [|fuel]; [done|]. cbn [advance_loop]. rewrite decide_False by set_solver.
  change (expand hidden ((1, 0)%nat :: (0, 1)%nat :: loop_tail k)) with (Ok (Some [(2, 0)%nat :: (0, 1)%nat :: loop_tail k; (0, 1)%nat :: loop_tail k])).
  cbn [mbind res_bind rev app].
  destruct fuel as [|fuel]; [done|]. cbn [advance_loop]. rewrite decide_False by set_solver.
  change (expand hidden ((0, 1)%nat :: loop_tail k)) with (Ok (Some [(0, 0)%nat :: loop_tail (S k); (0, 4)%nat :: loop_tail (S k)])).
  cbn [mbind res_bind rev app].
  destruct fuel as [|fuel]; [done|]. cbn [advance_loop].
  assert (Hfresh : forall X, X = ∅ \/ X = {[ (0, 4)%nat :: loop_tail (S k) ]} ->
    fresh_from (S k) (X ∪ ({[ (0, 1)%nat :: loop_tail k ]} ∪ ({[ (1, 0)%nat :: (0, 1)%nat :: loop_tail k ]} ∪ ({[ (0, 0)%nat :: loop_tail k ]} ∪ seen))))).
  { intros X HX j Hj. destruct (HF j) as (HjA & HjB & HjC); [lia|].
    assert (Hne : loop_tail j <> loop_tail k) by (intros He%loop_tail_inj; lia).
    split_and!; intros Hin; repeat (apply elem_of_union in Hin as [Hin|Hin]); try done;
      try (apply elem_of_singleton in Hin; congruence); destruct HX as [->| ->]; try set_solver; apply elem_of_singleton in Hin; congruence. }
  destruct (decide _) as [Hd|Hd].
  - apply IH; [lia|]. rewrite <- (union_empty_l_L ({[ (0, 1)%nat :: loop_tail k ]} ∪ _)). apply Hfresh. by left.
  - change (expand hidden ((0, 4)%nat :: loop_tail (S k))) with (@Ok (option (list llama_grammar_stack)) None). cbn [mbind res_bind].
    apply IH; [lia|]. apply Hfresh. by right.
Qed.

(** the check misses left recursion behind a rule that generates the empty text only
    through another rule. For [root ::= e root "x" | "y"], [e ::= f], [f ::= "z" | ] (a
    left-recursive grammar: [root] reaches itself behind the nullable [e]) the check finds
    nothing, and building the grammar then never ends, whatever the fuel. *)
Lemma hidden_left_recursion : is_left_recursive hidden = Ok false /\
  tc (leftmost hidden (nullable hidden)) 0%nat 0%nat /\
  forall fuel vocab, llama_grammar_init_rules fuel vocab hidden 0 = Err NoFuel.
Proof.
  split; [reflexivity|]. split.
  - assert (Hn : nullable hidden 1%nat).
    { exists (1, 0)%nat. split; [eexists; split; [reflexivity|set_solver]|].
      apply (derives_ref hidden _ 2%nat (2, 2)%nat [] []).
      + by eexists.
      + eexists; split; [reflexivity|set_solver].
      + apply derives_end. by left.
      + apply derives_end. by left. }
    apply tc_once. exists (0, 0)%nat. split; [eexists; split; [reflexivity|set_solver]|].
    apply (leads_skip _ _ _ 1%nat); [by eexists|done|]. apply leads_here. by eexists.
  - intros fuel vocab. unfold llama_grammar_init_rules. change (mmap copy_rule hidden) with (Ok hidden). cbn [mbind res_bind].
    change (is_left_recursive hidden) with (Ok false). cbn [mbind res_bind]. unfold initial_stacks.
    change (alternates hidden 0) with (Ok [(0, 0)%nat; (0, 4)%nat]). cbn [mbind res_bind mfor].
    change (push_unless_end hidden (0, 0)%nat []) with (Ok ((0, 0)%nat :: loop_tail 0)). cbn [mbind res_bind].
    unfold llama_grammar_advance_stack. rewrite hidden_round; [done|]. intros j _. set_solver.
Qed.

(** *** The sampler and the acceptor agree *)

(** The state of a grammar in use: expanded stacks over well-formed rules without token
    elements, not waiting for a trigger. *)
Record grammar_ready (vocab : llama_vocab) (g : llama_grammar) : Prop := {
  gr_vocab : g_vocab g = Some vocab;
  gr_wf : wf_rules (g_rules g);
  gr_ends : expansion_ends (g_rules g);
  gr_chars : token_free (g_rules g);
  gr_settled : all_settled (g_rules g) (g_stacks g);
  gr_stacks : g_stacks g <> [];
  gr_triggered : g_awaiting_trigger g = false;
}.

(** C27: For a grammar of characters (no token elements), without hidden left recursion and not
    waiting for a trigger, [llama_grammar_apply_impl] keeps exactly the tokens that
    [llama_grammar_accept_impl] can take next. Every logit is either kept, and then accepting
    the token returns a grammar with the same rules that is ready again: it meets all the
    conditions this theorem has on a grammar; or replaced by [-INFINITY], and then,
    if the text of the token is not empty and ends with a whole character, accepting it fails. *)
Theorem sampler_keeps_acceptable {L} (neg_infinity : L) vocab g depth (cur_p : list (Z * L))
    (R : grammar_ready vocab g)
    (Hp : forall id x, (id, x) ∈ cur_p -> piece_ok vocab g id /\
       forall cps p, decode_utf8_partial (vc_token_to_piece vocab id) (g_partial_utf8 g) = Ok (cps ++ [0], p) -> (length cps <= depth)%nat) :
  exists data, converges (fun fuel => llama_grammar_apply_impl neg_infinity (S depth) fuel g cur_p) data /\
    length data = length cur_p /\ forall i id x, cur_p !! i = Some (id, x) ->
      (data !! i = Some (id, x) /\
         exists g', converges (fun fuel => llama_grammar_accept_impl fuel g id) g' /\
           g_rules g' = g_rules g /\ grammar_ready vocab g') \/
      (data !! i = Some (id, neg_infinity) /\ forall cps p,
         decode_utf8_partial (vc_token_to_piece vocab id) (g_partial_utf8 g) = Ok (cps ++ [0], p) ->
         at_end (vc_token_to_piece vocab id) = false -> pu_n_remain p = 0 ->
         exists n, forall fuel, (n <= fuel)%nat -> llama_grammar_accept_impl fuel g id = Err Thrown \/
           llama_grammar_accept_impl fuel g id = Err AssertFailed).
Proof.
  destruct R as [R1 R2 R3 R4 R5 R6 R7].
  destruct (apply_ok neg_infinity (g_rules g) R2 R3 R4 vocab g R1 eq_refl R7 R5 R6 depth cur_p Hp) as (data & C & Hlen & H).
  exists data. split_and!; [done|done|]. intros i id x Hi. destruct (H i id x Hi) as (y & Hy & Hya & Hyn).
  destruct (Hp id x) as [Hpo _]; [by eapply list_elem_of_lookup_2|].
  assert (D : allowed (g_rules g) vocab g id \/ ~ allowed (g_rules g) vocab g id) by (by eapply allowed_dec).
  destruct D as [Ha|Ha].
  - left. rewrite Hya in Hy by done. split; [done|].
    destruct (accept_impl_allowed (g_rules g) R2 R3 R4 vocab g R1 eq_refl R7 R5 R6 id Hpo Ha) as (g' & C' & Hset & Hne & E1 & E2 & E3).
    exists g'. split; [done|]. split; [done|]. split; rewrite ?E1, ?E2, ?E3; done.
  - right. rewrite Hyn in Hy by done. split; [done|]. intros cps p Ed He H0.
    eapply (accept_impl_refused (g_rules g)); by eauto.
Qed.

(** A demonstration: the grammar of balanced parentheses after a first opening one, and a
    vocabulary of three tokens. *)
Definition demo_vocab : llama_vocab := LlamaVocab
  (fun id => if id =? 1 then [40] else if id =? 2 then [41] else if id =? 3 then [120] else [])
  (fun id => id =? 0) (fun _ => []).

Definition demo_grammar : llama_grammar := LlamaGrammar (Some demo_vocab) parens [[(0, 2)%nat]; [(0, 0)%nat; (0, 2)%nat]]
  (PartialUtf8 0 0) false false [] [] [] [].

Lemma demo_settled : all_settled parens (g_stacks demo_grammar).
Proof.
  assert (H : forall p s, start_ok parens p -> bool_decide (at_end_of_seq parens p) = false -> type_at parens p <> Some LLAMA_GRETYPE_RULE_REF ->
    stack_ok parens s -> settled parens (p :: s)).
  { intros p s H1 H2%bool_decide_eq_false H3 H4. split; [by constructor|]. intros r (v & Hv & _). apply H3. unfold type_at. by rewrite Hv. }
  assert (H2 : stack_ok parens [(0, 2)%nat]).
  { constructor; [|constructor]. split; [reflexivity|]. by intros [|]. }
  intros s [->|[->|Hs]%elem_of_cons]%elem_of_cons; [| |set_solver].
  - apply H; [reflexivity|reflexivity|done|constructor].
  - apply H; [reflexivity|reflexivity|done|exact H2].
Qed.

Lemma parens_ends : expansion_ends parens.
Proof. apply (accepted_ends parens parens_wf parens_visible). reflexivity. Qed.

Lemma char_rules_token_free rules : forallb (forallb (fun e => negb (is_token_type (ge_type e)))) rules = true -> token_free rules.
Proof.
  intros H p e He. unfold elem_at in He. apply bind_ok in He as (rule & Hr & He). apply vec_get_ok in Hr, He.
  rewrite forallb_forall in H. specialize (H rule). rewrite forallb_forall in H.
  apply negb_true_iff, H; apply list_elem_of_In; by eapply list_elem_of_lookup_2.
Qed.

Lemma demo_ready : grammar_ready demo_vocab demo_grammar.
Proof.
  split; [reflexivity|exact parens_wf|exact parens_ends|by apply char_rules_token_free|exact demo_settled|done|reflexivity].
Qed.

Lemma sampler_keeps_acceptable_witness :
  exists data, converges (fun fuel => llama_grammar_apply_impl (-1) 3 fuel demo_grammar [(1, 10); (2, 20); (3, 30); (0, 40)]) data /\
    length data = 4%nat.
Proof.
  destruct (sampler_keeps_acceptable (-1) demo_vocab demo_grammar 2 [(1, 10); (2, 20); (3, 30); (0, 40)] demo_ready) as (data & C & Hl & _).
  - intros id x Hin.
    assert (Hid : id = 1 \/ id = 2 \/ id = 3 \/ id = 0) by (set_unfold in Hin; naive_solver).
    assert (Hd : forall cps p, decode_utf8_partial (vc_token_to_piece demo_vocab id) (g_partial_utf8 demo_grammar) = Ok (cps ++ [0], p) ->
      cps = vc_token_to_piece demo_vocab id /\ (length cps <= 1)%nat /\ Forall (fun c => c <> 0) cps).
    { intros cps p Hd. destruct Hid as [->|[->|[->| ->]]]; vm_compute in Hd; injection Hd as Hc _;
        [apply (app_inj_tail [40]) in Hc as [<- _]|apply (app_inj_tail [41]) in Hc as [<- _]|
         apply (app_inj_tail [120]) in Hc as [<- _]|apply (app_inj_tail []) in Hc as [<- _]];
        (split_and!; [reflexivity|cbn; lia|repeat constructor; lia]). }
    split; [split|].
    + unfold byte_ok. destruct Hid as [->|[->|[->| ->]]]; cbn; repeat constructor; lia.
    + intros cps p Hc. by apply Hd in Hc as (_ & _ & ?).
    + intros cps p Hc. apply Hd in Hc as (_ & ? & _). lia.
  - exists data. split; [exact C|exact Hl].
Defined.

(** *** Where they do not agree *)

(** A token element after character elements is handled differently. For
    [root ::= "a" <[5]>] the candidate 5 with text "ab" is not rejected (the "a" is matched and
    then the token itself is compared with 5), but accepting it leaves no stack and throws. *)
Lemma token_after_char_diverges (vocab : option llama_vocab) :
  exists g, llama_grammar_init_rules 10 vocab char_then_token 0 = Ok (Some g) /\
    llama_grammar_reject_candidates (g_rules g) 3 10 (g_stacks g) [GCand 0 [97; 98; 0] 0 (PartialUtf8 98 0) 5] = Ok [] /\
    decode_utf8_partial [97; 98] (g_partial_utf8 g) = Ok ([97; 98; 0], PartialUtf8 98 0) /\
    llama_grammar_accept_token 10 g 5 [97; 98] = Err Thrown.
Proof. eexists. split; [reflexivity|]. repeat split; reflexivity. Qed.

(** An unfinished character at the end of a token is compared with the class at the top
    of the stack by the interval of its completions: the code points that continuation bytes can
    complete it to, without overlong encodings. For [\[a-z\]] and [.] the test succeeds exactly
    when some completion is in the class; for [\[^a-z\]] only when no completion is excluded. *)
Lemma partial_char_exact rules p pu (W : wf_rules rules) (Hs : start_ok rules p) (Hc : char_elem rules p)
    (Ho : ranges_ordered (suffix rules p) = true) (Hn : 1 <= pu_n_remain pu <= 3) (Hv : 0 <= pu_value pu)
    (Hb : (pu_value pu + 1) * 64 ^ pu_n_remain pu <= 2 ^ 31) (H7 : ~ (pu_n_remain pu = 1 /\ pu_value pu < 2)) :
  exists b, llama_grammar_match_partial_char rules p pu = Ok b /\
    (type_at rules p <> Some LLAMA_GRETYPE_CHAR_NOT ->
       b = true <-> exists c, completes pu c /\ not_overlong pu c /\ char_at rules p c) /\
    (type_at rules p = Some LLAMA_GRETYPE_CHAR_NOT ->
       b = true <-> forall c, completes pu c -> not_overlong pu c -> char_at rules p c).
Proof. exists (partial_atb rules p pu). split; [by apply match_partial_ok|by apply partial_char_spec]. Qed.

(** [root ::= [^é] ] *)
Definition not_e_acute : llama_grammar_rules := [[GElem LLAMA_GRETYPE_CHAR_NOT 233; g_end]].

Lemma partial_char_exact_witness :
  exists b, llama_grammar_match_partial_char not_e_acute (0, 0)%nat (PartialUtf8 3 1) = Ok b /\
    (b = true <-> forall c, completes (PartialUtf8 3 1) c -> not_overlong (PartialUtf8 3 1) c -> char_at not_e_acute (0, 0)%nat c).
Proof.
  destruct (partial_char_exact not_e_acute (0, 0)%nat (PartialUtf8 3 1)) as (b & E & _ & H).
  - reflexivity.
  - reflexivity.
  - exists LLAMA_GRETYPE_CHAR_NOT. split; [reflexivity|set_solver].
  - reflexivity.
  - cbn. lia.
  - cbn. lia.
  - cbn. lia.
  - cbn. lia.
  - exists b. split; [exact E|]. apply H. reflexivity.
Defined.

(** The comment of the function promises "some continuation": after the first byte of "é" the
    class [^é] is refused, although "è" would satisfy it. *)
Lemma partial_char_conservative : llama_grammar_match_partial_char not_e_acute (0, 0)%nat (PartialUtf8 3 1) = Ok false /\
  completes (PartialUtf8 3 1) 232 /\ char_at not_e_acute (0, 0)%nat 232.
Proof.
  split; [reflexivity|]. split; [|reflexivity]. apply (completes_range 1 3 232); lia.
Qed.
