(* ===== verification/GrammarParse.v ===== *)
(** * The parser of grammars

    [llama_grammar_parser] of src/src/llama-grammar.cpp: from the text of a grammar to its rules.
    A [const char *] into the text is what is left of it; the text ends at its first zero byte.
    An exception is [Err Thrown]; [llama_grammar_parser_parse] catches it.  The digits of a
    number are converted as by [std::stoul] and [std::stoull], which throw above 64 bits. *)
From S2P Require Export Grammar.

(** ** Characters *)

(** [*pos] and [pos\[1\]] *)
Definition cur (pos : list Z) : Z := match pos with [] => 0 | b :: _ => b end.
Definition cur1 (pos : list Z) : Z := cur (tail pos).

Definition is_digit_char (c : Z) : bool := (48 <=? c) && (c <=? 57).
Definition is_word_char (c : Z) : bool :=
  ((97 <=? c) && (c <=? 122)) || ((65 <=? c) && (c <=? 90)) || (c =? 45) || is_digit_char c.

Definition hex_digit (c : Z) : option Z :=
  if (97 <=? c) && (c <=? 102) then Some (c - 97 + 10) else
  if (65 <=? c) && (c <=? 70) then Some (c - 65 + 10) else
  if is_digit_char c then Some (c - 48) else None.

Fixpoint parse_hex (size : nat) (pos : list Z) (value : Z) : res (Z * list Z) :=
  match size with
  | O => Ok (value, pos)
  | S size =>
      match pos with
      | c :: pos' =>
          match hex_digit c with
          | Some d => parse_hex size pos' (u32 (u32 (Z.shiftl value 4) + d))
          | None => Err Thrown
          end
      | [] => Err Thrown
      end
  end.

(** The two nested loops as one; [comment]: inside the inner loop. *)
Fixpoint parse_space_from (comment : bool) (pos : list Z) (newline_ok : bool) : list Z :=
  match pos with
  | [] => pos
  | c :: pos' =>
      if comment && negb ((c =? 0) || (c =? 13) || (c =? 10)) then parse_space_from true pos' newline_ok else
      if (c =? 32) || (c =? 9) || (c =? 35) || (newline_ok && ((c =? 13) || (c =? 10))) then
        parse_space_from (c =? 35) pos' newline_ok
      else pos
  end.

Definition parse_space (pos : list Z) (newline_ok : bool) : list Z := parse_space_from false pos newline_ok.

(** The longest prefix of characters in a class, and the rest. *)
Fixpoint span (f : Z -> bool) (pos : list Z) : list Z * list Z :=
  match pos with
  | c :: pos' => if f c then let '(w, r) := span f pos' in (c :: w, r) else ([], pos)
  | [] => ([], pos)
  end.

(** The name and what follows it. *)
Definition parse_name (src : list Z) : res (list Z * list Z) :=
  match span is_word_char src with ([], _) => Err Thrown | r => Ok r end.

Definition parse_int (src : list Z) : res (list Z * list Z) :=
  match span is_digit_char src with ([], _) => Err Thrown | r => Ok r end.

Definition stoull (digits : list Z) : res Z :=
  let v := foldl (fun v c => v * 10 + (c - 48)) 0 digits in
  if v <? 2 ^ 64 then Ok v else Err Thrown.

Definition parse_char (src : list Z) : res (Z * list Z) :=
  if cur src =? 92 then
    let c := cur1 src in
    let rest := drop 2 src in
    if c =? 120 then parse_hex 2 rest 0 else
    if c =? 117 then parse_hex 4 rest 0 else
    if c =? 85 then parse_hex 8 rest 0 else
    if c =? 116 then Ok (9, rest) else
    if c =? 114 then Ok (13, rest) else
    if c =? 110 then Ok (10, rest) else
    if (c =? 92) || (c =? 34) || (c =? 91) || (c =? 93) then Ok (c, rest) else
    Err Thrown
  else if negb (cur src =? 0) then decode_utf8 src
  else Err Thrown.

Definition parse_token (vocab : option llama_vocab) (src : list Z) : res (Z * list Z) :=
  if negb (cur src =? 60) then Err Thrown else
  let pos := tail src in
  if cur pos =? 91 then
    '(digits, pos) ← parse_int (tail pos);
    v ← stoull digits;
    if negb (cur pos =? 93) then Err Thrown else
    if negb (cur (tail pos) =? 62) then Err Thrown else
    Ok (u32 v, drop 2 pos)
  else
    match vocab with
    | None => Err Thrown
    | Some vocab =>
        let '(name, pos) := span (fun c => negb (c =? 0) && negb (c =? 62)) pos in
        if negb (cur pos =? 62) then Err Thrown else
        match vc_tokenize vocab (60 :: name ++ [62]) with
        | [token] => Ok (u32 token, tail pos)
        | _ => Err Thrown
        end
    end.

(** ** Symbols and rules *)

Record llama_grammar_parser := GParser {
  gp_symbol_ids : gmap (list Z) Z;
  gp_rules : llama_grammar_rules;
}.

Fixpoint decimal_loop (fuel : nat) (n : Z) (acc : list Z) : list Z :=
  match fuel with
  | O => acc
  | S fuel => if n <? 10 then (48 + n) :: acc else decimal_loop fuel (n / 10) ((48 + n mod 10) :: acc)
  end.

(** [std::to_string] of a [uint32_t]: at most ten digits. *)
Definition to_string (n : Z) : list Z := decimal_loop 10 n [].

Definition next_symbol_id (p : llama_grammar_parser) : Z := u32 (Z.of_nat (size (gp_symbol_ids p))).

Definition get_symbol_id (p : llama_grammar_parser) (name : list Z) : llama_grammar_parser * Z :=
  match gp_symbol_ids p !! name with
  | Some id => (p, id)
  | None => (GParser (<[name := next_symbol_id p]> (gp_symbol_ids p)) (gp_rules p), next_symbol_id p)
  end.

Definition generate_symbol_id (p : llama_grammar_parser) (base_name : list Z) : llama_grammar_parser * Z :=
  let next_id := next_symbol_id p in
  (GParser (<[base_name ++ 95 :: to_string next_id := next_id]> (gp_symbol_ids p)) (gp_rules p), next_id).

(** Missing rules in between become empty. *)
Definition add_rule (p : llama_grammar_parser) (rule_id : Z) (rule : llama_grammar_rule) : llama_grammar_parser :=
  let n := Z.to_nat rule_id in
  let rules := gp_rules p ++ replicate (S n - length (gp_rules p)) [] in
  GParser (gp_symbol_ids p) (<[n := rule]> rules).

(** ** Repetitions *)

Definition UINT64_MAX : Z := 2 ^ 64 - 1.
Definition u64 (z : Z) : Z := z mod 2 ^ 64.
Definition MAX_REPETITION_THRESHOLD : Z := 2000.

Definition elem (t : llama_gretype) (v : Z) : llama_grammar_element := GElem t v.

(** The number of rules made for the optional part. *)
Definition n_opt (min_times max_times : Z) : Z :=
  if max_times =? UINT64_MAX then 1 else u64 (max_times - min_times).

(** One of these rules. *)
Definition rec_rule_step (rule_name : list Z) (prev_rule : llama_grammar_rule) (no_max : bool)
    (s : llama_grammar_parser * llama_grammar_rule * Z) (i : nat) : llama_grammar_parser * llama_grammar_rule * Z :=
  let '(p, rec_rule, last_rec_rule_id) := s in
  let rec_rule := take (length prev_rule) rec_rule in
  let '(p, rec_rule_id) := generate_symbol_id p rule_name in
  let rec_rule := if (0 <? i)%nat || no_max
    then rec_rule ++ [elem LLAMA_GRETYPE_RULE_REF (if no_max then rec_rule_id else last_rec_rule_id)] else rec_rule in
  let rec_rule := rec_rule ++ [elem LLAMA_GRETYPE_ALT 0; elem LLAMA_GRETYPE_END 0] in
  (add_rule p rec_rule_id rec_rule, rec_rule, rec_rule_id).

(** [rule.insert(rule.end(), prev_rule...)], [n] times. *)
Definition repeat_rule (n : nat) (prev_rule : llama_grammar_rule) : llama_grammar_rule := concat (replicate n prev_rule).

Definition handle_repetitions (rule_name : list Z) (last_sym_start : nat) (min_times max_times : Z)
    (s : llama_grammar_parser * llama_grammar_rule * Z) : res (llama_grammar_parser * llama_grammar_rule * Z) :=
  let '(p, rule, n_prev_rules) := s in
  let no_max := max_times =? UINT64_MAX in
  if (last_sym_start =? length rule)%nat then Err Thrown else
  let prev_rule := drop last_sym_start rule in
  let total_rules :=
    if negb no_max && (0 <? max_times) then max_times else
    if 0 <? min_times then min_times else 1 in
  if MAX_REPETITION_THRESHOLD <=? u64 (n_prev_rules * total_rules) then Err Thrown else
  let rule := if min_times =? 0 then take last_sym_start rule
              else rule ++ repeat_rule (Z.to_nat (min_times - 1)) prev_rule in
  let '(p, _, last_rec_rule_id) :=
    foldl (rec_rule_step rule_name prev_rule no_max) (p, prev_rule, 0) (seq 0 (Z.to_nat (n_opt min_times max_times))) in
  let rule := if 0 <? n_opt min_times max_times then rule ++ [elem LLAMA_GRETYPE_RULE_REF last_rec_rule_id] else rule in
  let n_prev_rules := u64 (n_prev_rules * total_rules) in
  _ ← assert_ (1 <=? n_prev_rules);
  Ok (p, rule, n_prev_rules).

(** ** Sequences and alternates *)

(** The characters of a literal, up to the closing quote. *)
Fixpoint literal_loop (fuel : nat) (pos : list Z) (rule : llama_grammar_rule) : res (list Z * llama_grammar_rule) :=
  if cur pos =? 34 then Ok (pos, rule) else
  if cur pos =? 0 then Err Thrown else
  match fuel with
  | O => Err NoFuel
  | S fuel =>
      '(c, pos) ← parse_char pos;
      literal_loop fuel pos (rule ++ [elem LLAMA_GRETYPE_CHAR c])
  end.

(** The characters and ranges of a class, up to the closing bracket. *)
Fixpoint class_loop (fuel : nat) (pos : list Z) (start_type : llama_gretype) (last_sym_start : nat) (rule : llama_grammar_rule) :
    res (list Z * llama_grammar_rule) :=
  if cur pos =? 93 then Ok (pos, rule) else
  if cur pos =? 0 then Err Thrown else
  match fuel with
  | O => Err NoFuel
  | S fuel =>
      '(c, pos) ← parse_char pos;
      let type := if (last_sym_start <? length rule)%nat then LLAMA_GRETYPE_CHAR_ALT else start_type in
      let rule := rule ++ [elem type c] in
      if (cur pos =? 45) && negb (cur1 pos =? 93) then
        if cur1 pos =? 0 then Err Thrown else
        '(c, pos) ← parse_char (tail pos);
        class_loop fuel pos start_type last_sym_start (rule ++ [elem LLAMA_GRETYPE_CHAR_RNG_UPPER c])
      else class_loop fuel pos start_type last_sym_start rule
  end.

(** [{m}], [{m,}] and [{m,n}]: the bounds and what follows. *)
Definition parse_braces (pos : list Z) (is_nested : bool) : res (Z * Z * list Z) :=
  if negb (is_digit_char (cur pos)) then Err Thrown else
  '(digits, int_end) ← parse_int pos;
  min_times ← stoull digits;
  let pos := parse_space int_end is_nested in
  '(max_times, pos) ←
    (if cur pos =? 125 then Ok (min_times, parse_space (tail pos) is_nested)
     else if cur pos =? 44 then
       let pos := parse_space (tail pos) is_nested in
       '(max_times, pos) ←
         (if is_digit_char (cur pos) then
            '(digits, int_end) ← parse_int pos;
            max_times ← stoull digits;
            Ok (max_times, parse_space int_end is_nested)
          else Ok (UINT64_MAX, pos));
       if negb (cur pos =? 125) then Err Thrown else Ok (max_times, parse_space (tail pos) is_nested)
     else Err Thrown);
  if (MAX_REPETITION_THRESHOLD <? min_times) ||
     (negb (max_times =? UINT64_MAX) && (MAX_REPETITION_THRESHOLD <? max_times)) then Err Thrown else
  Ok (min_times, max_times, pos).

(** The state of the loop of [parse_sequence]. *)
Record seq_state := SeqState {
  ss_parser : llama_grammar_parser;
  ss_rule : llama_grammar_rule;
  ss_last_sym_start : nat;
  ss_n_prev_rules : Z;
}.

(** A symbol is added: it starts at the end of the old rule. *)
Definition new_symbol (s : seq_state) (p : llama_grammar_parser) (rule : llama_grammar_rule) (n_prev_rules : Z) : seq_state :=
  SeqState p rule (length (ss_rule s)) n_prev_rules.

Definition repeat_last (rule_name : list Z) (min_times max_times : Z) (s : seq_state) : res seq_state :=
  '(p, rule, n) ← handle_repetitions rule_name (ss_last_sym_start s) min_times max_times
                    (ss_parser s, ss_rule s, ss_n_prev_rules s);
  Ok (SeqState p rule (ss_last_sym_start s) n).

(** The branches of the loop that do not recurse; [None]: none of them applies. *)
Definition simple_symbol (vocab : option llama_vocab) (rule_name : list Z) (is_nested : bool) (s : seq_state) (pos : list Z) :
    res (option (seq_state * list Z)) :=
  let c := cur pos in
  let skip pos := parse_space pos is_nested in
  if c =? 34 then
    '(pos, rule) ← literal_loop (length pos) (tail pos) (ss_rule s);
    Ok (Some (new_symbol s (ss_parser s) rule 1, skip (tail pos)))
  else if c =? 91 then
    let pos := tail pos in
    let '(start_type, pos) := if cur pos =? 94 then (LLAMA_GRETYPE_CHAR_NOT, tail pos) else (LLAMA_GRETYPE_CHAR, pos) in
    '(pos, rule) ← class_loop (length pos) pos start_type (length (ss_rule s)) (ss_rule s);
    Ok (Some (new_symbol s (ss_parser s) rule 1, skip (tail pos)))
  else if (c =? 60) || (c =? 33) then
    let '(type, pos) := if c =? 33 then (LLAMA_GRETYPE_TOKEN_NOT, tail pos) else (LLAMA_GRETYPE_TOKEN, pos) in
    '(token, token_end) ← parse_token vocab pos;
    Ok (Some (new_symbol s (ss_parser s) (ss_rule s ++ [elem type token]) 1, skip token_end))
  else if is_word_char c then
    '(name, name_end) ← parse_name pos;
    let '(p, ref_rule_id) := get_symbol_id (ss_parser s) name in
    Ok (Some (new_symbol s p (ss_rule s ++ [elem LLAMA_GRETYPE_RULE_REF ref_rule_id]) 1, skip name_end))
  else if c =? 46 then
    Ok (Some (new_symbol s (ss_parser s) (ss_rule s ++ [elem LLAMA_GRETYPE_CHAR_ANY 0]) 1, skip (tail pos)))
  else if c =? 42 then
    s ← repeat_last rule_name 0 UINT64_MAX s; Ok (Some (s, skip (tail pos)))
  else if c =? 43 then
    s ← repeat_last rule_name 1 UINT64_MAX s; Ok (Some (s, skip (tail pos)))
  else if c =? 63 then
    s ← repeat_last rule_name 0 1 s; Ok (Some (s, skip (tail pos)))
  else if c =? 123 then
    '(min_times, max_times, pos) ← parse_braces (skip (tail pos)) is_nested;
    s ← repeat_last rule_name min_times max_times s;
    Ok (Some (s, pos))
  else Ok None.

(** The three loops call each other through parentheses. *)
Fixpoint parse_alternates (fuel : nat) (vocab : option llama_vocab) (p : llama_grammar_parser) (src : list Z)
    (rule_name : list Z) (rule_id : Z) (is_nested : bool) : res (llama_grammar_parser * list Z) :=
  match fuel with
  | O => Err NoFuel
  | S fuel =>
      '(p, rule, pos) ← parse_sequence fuel vocab rule_name is_nested (SeqState p [] 0 1) src;
      '(p, rule, pos) ← more_alternates fuel vocab rule_name is_nested p rule pos;
      Ok (add_rule p rule_id (rule ++ [elem LLAMA_GRETYPE_END 0]), pos)
  end
with more_alternates (fuel : nat) (vocab : option llama_vocab) (rule_name : list Z) (is_nested : bool)
    (p : llama_grammar_parser) (rule : llama_grammar_rule) (pos : list Z) : res (llama_grammar_parser * llama_grammar_rule * list Z) :=
  if negb (cur pos =? 124) then Ok (p, rule, pos) else
  match fuel with
  | O => Err NoFuel
  | S fuel =>
      let rule := rule ++ [elem LLAMA_GRETYPE_ALT 0] in
      '(p, rule, pos) ← parse_sequence fuel vocab rule_name is_nested (SeqState p rule (length rule) 1)
                          (parse_space (tail pos) true);
      more_alternates fuel vocab rule_name is_nested p rule pos
  end
with parse_sequence (fuel : nat) (vocab : option llama_vocab) (rule_name : list Z) (is_nested : bool)
    (s : seq_state) (pos : list Z) : res (llama_grammar_parser * llama_grammar_rule * list Z) :=
  if cur pos =? 0 then Ok (ss_parser s, ss_rule s, pos) else
  match fuel with
  | O => Err NoFuel
  | S fuel =>
      if cur pos =? 40 then
        let pos := parse_space (tail pos) true in
        let n_rules_before := next_symbol_id (ss_parser s) in
        let '(p, sub_rule_id) := generate_symbol_id (ss_parser s) rule_name in
        '(p, pos) ← parse_alternates fuel vocab p pos rule_name sub_rule_id true;
        let n_prev_rules := Z.max 1 (u32 (next_symbol_id p - n_rules_before)) in
        if negb (cur pos =? 41) then Err Thrown else
        parse_sequence fuel vocab rule_name is_nested
          (new_symbol s p (ss_rule s ++ [elem LLAMA_GRETYPE_RULE_REF sub_rule_id]) n_prev_rules)
          (parse_space (tail pos) is_nested)
      else
        r ← simple_symbol vocab rule_name is_nested s pos;
        match r with
        | Some (s, pos) => parse_sequence fuel vocab rule_name is_nested s pos
        | None => Ok (ss_parser s, ss_rule s, pos)
        end
  end.

(** ** Rules and the whole text *)

(** Enough for the recursion on a text. *)
Definition parse_fuel (pos : list Z) : nat := 2 * length pos + 2.

Definition parse_rule (vocab : option llama_vocab) (p : llama_grammar_parser) (src : list Z) : res (llama_grammar_parser * list Z) :=
  '(name, name_end) ← parse_name src;
  let pos := parse_space name_end false in
  let '(p, rule_id) := get_symbol_id p name in
  if negb ((cur pos =? 58) && (cur1 pos =? 58) && (cur (drop 2 pos) =? 61)) then Err Thrown else
  let pos := parse_space (drop 3 pos) true in
  '(p, pos) ← parse_alternates (parse_fuel pos) vocab p pos name rule_id false;
  if cur pos =? 13 then Ok (p, parse_space (if cur1 pos =? 10 then drop 2 pos else tail pos) true)
  else if cur pos =? 10 then Ok (p, parse_space (tail pos) true)
  else if negb (cur pos =? 0) then Err Thrown
  else Ok (p, parse_space pos true).

Fixpoint parse_rules (fuel : nat) (vocab : option llama_vocab) (p : llama_grammar_parser) (pos : list Z) : res llama_grammar_parser :=
  if cur pos =? 0 then Ok p else
  match fuel with
  | O => Err NoFuel
  | S fuel => '(p, pos) ← parse_rule vocab p pos; parse_rules fuel vocab p pos
  end.

(** The check that every rule referred to is defined. *)
Definition undefined_ref (p : llama_grammar_parser) (e : llama_grammar_element) : bool :=
  bool_decide (ge_type e = LLAMA_GRETYPE_RULE_REF) &&
  match gp_rules p !! Z.to_nat (ge_value e) with Some (_ :: _) => false | _ => true end &&
  existsb (fun kv => kv.2 =? ge_value e) (map_to_list (gp_symbol_ids p)).

Definition rules_defined (p : llama_grammar_parser) : bool :=
  forallb (fun rule => match rule with [] => false | _ => forallb (fun e => negb (undefined_ref p e)) rule end) (gp_rules p).

(** [None]: the parser reports an error and has no rules. *)
Definition llama_grammar_parser_parse (vocab : option llama_vocab) (src : list Z) : res (option llama_grammar_parser) :=
  let pos := parse_space src true in
  match parse_rules (length pos) vocab (GParser ∅ []) pos with
  | Ok p => Ok (if rules_defined p then Some p else None)
  | Err Thrown => Ok None
  | Err e => Err e
  end.

(** ** Building a grammar from its text *)

Definition llama_grammar_init_impl (fuel : nat) (vocab : option llama_vocab) (grammar_str grammar_root : list Z) (lazy : bool)
    (trigger_patterns : list llama_grammar_trigger_pattern) (trigger_tokens : list Z) : res (option llama_grammar) :=
  parsed ← llama_grammar_parser_parse vocab grammar_str;
  match parsed with
  | None => Ok None
  | Some parser =>
      match gp_rules parser, gp_symbol_ids parser !! grammar_root with
      | [], _ | _, None => Ok None
      | _, Some start_rule_index =>
          vec_rules ← mmap copy_rule (gp_rules parser);
          lr ← is_left_recursive vec_rules;
          if (lr : bool) then Ok None else
          stacks ← initial_stacks vec_rules fuel (Z.to_nat start_rule_index);
          Ok (Some (LlamaGrammar vocab vec_rules stacks (PartialUtf8 0 0) lazy lazy [] [] trigger_tokens trigger_patterns))
      end
  end.
