(* ===== verification/GrammarText.v ===== *)
(** * The parser always answers, and its rules are well formed

    Also the properties of the parser, and of a grammar given as a text. *)

From stdpp Require Import strings.
From S2P Require Export GrammarParse GrammarTheory GrammarProps.

(** ** Partial correctness up to exceptions *)

(** [m] returns a value that satisfies [Q], or throws. *)
Definition safe {A} (m : res A) (Q : A -> Prop) : Prop :=
  match m with Ok a => Q a | Err Thrown => True | Err _ => False end.

Lemma safe_step {A B} (m : res A) (k : A -> res B) (P : A -> Prop) (Q : B -> Prop) :
  safe m P -> (forall a, P a -> safe (k a) Q) -> safe (m ≫= k) Q.
Proof. destruct m as [a|[]]; naive_solver. Qed.

Lemma safe_mono {A} (m : res A) (P Q : A -> Prop) : safe m P -> (forall a, P a -> Q a) -> safe m Q.
Proof. destruct m as [a|[]]; naive_solver. Qed.

Lemma safe_ok {A} (a : A) (Q : A -> Prop) : Q a -> safe (Ok a) Q.
Proof. done. Qed.

Lemma safe_thrown {A} (Q : A -> Prop) : safe (Err Thrown) Q.
Proof. done. Qed.

Lemma safe_bool {A} (b : bool) (m : res A) (Q : A -> Prop) : (b = false -> safe m Q) -> safe (if b then Err Thrown else m) Q.
Proof. destruct b; [done|auto]. Qed.

Arguments safe : simpl never.

(** ** The text that is left *)

(** [rest] is left of [pos]; and strictly. *)
Definition left_of (pos rest : list Z) : Prop := rest `suffix_of` pos.
Definition less_of (pos rest : list Z) : Prop := left_of pos rest /\ (length rest < length pos)%nat.

Lemma left_refl pos : left_of pos pos.
Proof. by exists []. Qed.

Lemma left_trans a b c : left_of a b -> left_of b c -> left_of a c.
Proof. intros [x ->] [y ->]. exists (x ++ y). by rewrite app_assoc. Qed.

Lemma left_length a b : left_of a b -> (length b <= length a)%nat.
Proof. intros [x ->]. rewrite length_app. lia. Qed.

Lemma less_trans a b c : less_of a b -> left_of b c -> less_of a c.
Proof. intros [H1 H2] H3. split; [by eapply left_trans|]. apply left_length in H3. lia. Qed.

Lemma less_trans' a b c : left_of a b -> less_of b c -> less_of a c.
Proof. intros H1 [H2 H3]. split; [by eapply left_trans|]. apply left_length in H1. lia. Qed.

Lemma less_left a b : less_of a b -> left_of a b.
Proof. by intros [? _]. Qed.

Lemma left_bytes a b : left_of a b -> Forall byte_ok a -> Forall byte_ok b.
Proof. intros [x ->]. by intros [_ ?]%Forall_app. Qed.

Lemma left_tail pos : left_of pos (tail pos).
Proof. destruct pos as [|c pos]; [apply left_refl|by exists [c]]. Qed.

Lemma left_drop pos n : left_of pos (drop n pos).
Proof. exists (take n pos). by rewrite take_drop. Qed.

Lemma cur_nonzero pos c : cur pos = c -> c <> 0 -> (0 < length pos)%nat.
Proof. destruct pos; cbn; [intros <-; done|lia]. Qed.

Lemma less_tail pos : (0 < length pos)%nat -> less_of pos (tail pos).
Proof. intros H. split; [apply left_tail|]. destruct pos; simpl in *; lia. Qed.

Lemma less_drop pos n : (0 < length pos)%nat -> (0 < n)%nat -> less_of pos (drop n pos).
Proof. intros H Hn. split; [apply left_drop|]. rewrite length_drop. lia. Qed.

#[export] Hint Resolve left_refl left_tail left_drop less_left : mallana.

Lemma space_left pos : forall c nl, left_of pos (parse_space_from c pos nl).
Proof.
  induction pos as [|b pos IH]; intros c nl; cbn [parse_space_from]; [apply left_refl|].
  assert (H : left_of (b :: pos) pos) by (by exists [b]).
  destruct (c && _); [by eapply left_trans|]. destruct (_ || _); [by eapply left_trans|apply left_refl].
Qed.

Lemma space_ok pos nl : left_of pos (parse_space pos nl).
Proof. apply space_left. Qed.

#[export] Hint Resolve space_ok : mallana.

Lemma span_ok f pos : forall w r, span f pos = (w, r) -> pos = w ++ r /\ forallb f w = true.
Proof.
  induction pos as [|c pos IH]; intros w r H; cbn [span] in H; [by injection H as <- <-|].
  destruct (f c) eqn:Ef; [|by injection H as <- <-]. destruct (span f pos) as [w' r'] eqn:Es. injection H as <- <-.
  destruct (IH w' r' eq_refl) as [-> Hw]. cbn. by rewrite Ef.
Qed.

Lemma span_less f pos w r : span f pos = (w, r) -> w <> [] -> less_of pos r.
Proof.
  intros [-> _]%span_ok Hw. split; [by exists w|]. rewrite length_app. destruct w; [done|simpl; lia].
Qed.

Lemma name_ok src : safe (parse_name src) (fun '(w, r) => forallb is_word_char w = true /\ less_of src r).
Proof.
  unfold parse_name. destruct (span is_word_char src) as [[|c w] r] eqn:E; [done|].
  apply safe_ok. split; [by apply span_ok in E as [_ ?]|by eapply span_less].
Qed.

Lemma int_ok src : safe (parse_int src) (fun '(w, r) => forallb is_digit_char w = true /\ less_of src r).
Proof.
  unfold parse_int. destruct (span is_digit_char src) as [[|c w] r] eqn:E; [done|]. apply safe_ok.
  split; [by apply span_ok in E as [_ ?]|by eapply span_less].
Qed.

Lemma digits_nonneg digits : forallb is_digit_char digits = true -> forall v, 0 <= v -> 0 <= foldl (fun v c => v * 10 + (c - 48)) v digits.
Proof.
  induction digits as [|c l IH]; intros H v Hv; [done|]. cbn [forallb] in H. apply andb_prop in H as [H1 H2].
  cbn [foldl]. apply IH; [done|]. unfold is_digit_char in H1. lia.
Qed.

Lemma stoull_ok digits : forallb is_digit_char digits = true -> safe (stoull digits) (fun v => 0 <= v).
Proof. intros H. unfold stoull. destruct (_ <? _); [|done]. by apply safe_ok, digits_nonneg. Qed.

Lemma hex_ok size : forall pos v, safe (parse_hex size pos v) (fun '(_, r) => left_of pos r).
Proof.
  induction size as [|size IH]; intros pos v; cbn [parse_hex]; [apply safe_ok, left_refl|].
  destruct pos as [|c pos]; [done|]. destruct (hex_digit c); [|done].
  eapply safe_mono; [apply IH|]. intros [v' r] H. eapply left_trans; [by exists [c]|done].
Qed.

Lemma take_left k : forall pos v v' r, take_utf8 k pos v = (v', r) -> left_of pos r.
Proof.
  induction k as [|k IH]; intros pos v v' r H; [by injection H as <- <-; apply left_refl|].
  destruct pos as [|b pos]; cbn [take_utf8] in H; [injection H as <- <-; apply left_refl|].
  destruct (b =? 0); [injection H as <- <-; apply left_refl|]. eapply left_trans; [by exists [b]|by eapply IH].
Qed.

Lemma char_ok pos : Forall byte_ok pos -> safe (parse_char pos) (fun '(_, r) => less_of pos r).
Proof.
  intros Hb. unfold parse_char. destruct (Z.eqb_spec (cur pos) 92) as [Hc|_].
  - assert (Hl : less_of pos (drop 2 pos)) by (apply less_drop; [by eapply cur_nonzero|lia]).
    assert (Hh : forall k, safe (parse_hex k (drop 2 pos) 0) (fun '(_, r) => less_of pos r)).
    { intros k. eapply safe_mono; [apply hex_ok|]. intros [v r] H. by eapply less_trans. }
    repeat (destruct (_ =? _); [first [apply Hh|by apply safe_ok]|]). by destruct (_ || _).
  - destruct (Z.eqb_spec (cur pos) 0) as [|Hc]; [done|]. cbn [negb]. destruct pos as [|b pos]; [done|].
    apply Forall_cons in Hb as [Hb _]. cbn [decode_utf8].
    assert (exists len, vec_getZ utf8_lookup (Z.shiftr b 4) = Ok len) as [len ->].
    { apply (below_check 256 (fun b => match vec_getZ utf8_lookup (Z.shiftr b 4) with Ok _ => true | Err _ => false end)) in Hb;
        [|reflexivity]. cbn beta in Hb. destruct (vec_getZ _ _); [by eexists|done]. }
    cbn [mbind res_bind]. destruct (take_utf8 _ pos _) as [v r] eqn:Et. apply safe_ok, take_left in Et.
    split; [eapply left_trans; [by exists [b]|done]|]. apply left_length in Et. simpl. lia.
Qed.

Lemma token_ok vocab pos : safe (parse_token vocab pos) (fun '(_, r) => less_of pos r).
Proof.
  unfold parse_token. destruct (Z.eqb_spec (cur pos) 60) as [Hc|_]; [|done]. cbn [negb].
  assert (Hl : less_of pos (tail pos)) by (apply less_tail; by eapply cur_nonzero).
  destruct (cur (tail pos) =? 91).
  - eapply safe_step; [apply int_ok|]. intros [digits r] [Hd Hr]. eapply safe_step; [by apply stoull_ok|]. intros v _.
    repeat (apply safe_bool; intros _). apply safe_ok. eapply less_trans; [exact Hl|].
    eapply left_trans; [apply left_tail|]. eapply left_trans; [apply less_left, Hr|apply left_drop].
  - destruct vocab as [vocab|]; [|done]. destruct (span _ (tail pos)) as [w r] eqn:E. apply span_ok in E as [E _].
    apply safe_bool; intros _. destruct (vc_tokenize _ _) as [|t [|]]; try done. apply safe_ok.
    eapply less_trans; [exact Hl|]. eapply left_trans; [|apply left_tail]. by exists w.
Qed.

(** ** Pieces of rules *)

Fixpoint body_ok (n : nat) (m : char_mode) (l : list llama_grammar_element) : bool :=
  match l with
  | [] => true
  | e :: l => elem_ok n m e && body_ok n (next_mode e) l
  end.

Fixpoint end_mode (m : char_mode) (l : list llama_grammar_element) : char_mode :=
  match l with [] => m | e :: l => end_mode (next_mode e) l end.

Lemma body_app n l1 : forall m l2, body_ok n m (l1 ++ l2) = body_ok n m l1 && body_ok n (end_mode m l1) l2.
Proof.
  induction l1 as [|e l1 IH]; intros m l2; [done|]. cbn [app body_ok end_mode]. by rewrite IH, andb_assoc.
Qed.

Lemma end_mode_app m l1 l2 : end_mode m (l1 ++ l2) = end_mode (end_mode m l1) l2.
Proof. revert m. induction l1; intros m; [done|]. apply IHl1. Qed.

(** A piece that may stand anywhere. *)
Definition piece (n : nat) (l : list llama_grammar_element) : Prop := body_ok n NoChar l = true.

Lemma elem_ok_mode n m e : elem_ok n NoChar e = true -> elem_ok n m e = true.
Proof. unfold elem_ok. by destruct (ge_type e). Qed.

Lemma piece_mode n m l : piece n l -> body_ok n m l = true.
Proof. unfold piece. destruct l as [|e l]; [done|]. cbn [body_ok]. intros [H1 H2]%andb_prop. by rewrite elem_ok_mode, H2. Qed.

Lemma piece_app n l1 l2 : piece n l1 -> piece n l2 -> piece n (l1 ++ l2).
Proof. intros H1 H2. unfold piece. by rewrite body_app, H1, piece_mode. Qed.

Lemma elem_ok_mono n n' m e : (n <= n')%nat -> elem_ok n m e = true -> elem_ok n' m e = true.
Proof. unfold elem_ok. intros Hn. destruct (ge_type e); try done. lia. Qed.

Lemma piece_mono n n' l : (n <= n')%nat -> piece n l -> piece n' l.
Proof.
  unfold piece. intros Hn. generalize NoChar. induction l as [|e l IH]; intros m H; [done|]. cbn [body_ok] in *.
  apply andb_prop in H as [H1 H2]. rewrite (elem_ok_mono n n') by done. by apply IH.
Qed.

Lemma piece_one n t v : elem_ok n NoChar (elem t v) = true -> piece n [elem t v].
Proof. intros H. unfold piece. cbn. by rewrite H. Qed.

Lemma piece_ref n v : 0 <= v < Z.of_nat n -> piece n [elem LLAMA_GRETYPE_RULE_REF v].
Proof. intros H. apply piece_one. unfold elem_ok. cbn. lia. Qed.

Lemma piece_repeat n k l : piece n l -> piece n (repeat_rule k l).
Proof. intros H. unfold repeat_rule. induction k as [|k IH]; [done|]. cbn. by apply piece_app. Qed.

(** A finished rule: a piece and the end marker. *)
Definition whole (n : nat) (rule : llama_grammar_rule) : Prop :=
  exists body, rule = body ++ [elem LLAMA_GRETYPE_END 0] /\ piece n body.

Lemma whole_mono n n' rule : (n <= n')%nat -> whole n rule -> whole n' rule.
Proof. intros Hn (body & -> & H). exists body. split; [done|by eapply piece_mono]. Qed.

Lemma body_rule n l : forall m, body_ok n m l = true -> rule_ok n m (l ++ [elem LLAMA_GRETYPE_END 0]) = true.
Proof.
  induction l as [|e l IH]; intros m H; [done|]. cbn [body_ok] in H. apply andb_prop in H as [H1 H2].
  specialize (IH _ H2). destruct l as [|e1 l]; cbn [app rule_ok] in *; by rewrite H1.
Qed.

Lemma whole_rule n rule : whole n rule -> rule_ok n NoChar rule = true.
Proof. intros (body & -> & H). by apply body_rule. Qed.

Lemma whole_copy n rule : whole n rule -> copy_rule rule = Ok rule.
Proof.
  intros (body & -> & H). unfold piece in H. revert H. generalize NoChar. induction body as [|e body IH]; intros m H; [done|].
  cbn [body_ok] in H. apply andb_prop in H as [H1 H2]. cbn [app copy_rule]. rewrite (IH _ H2). cbn [mbind res_bind].
  destruct (ge_type e) eqn:T; try done. unfold elem_ok in H1. by rewrite T in H1.
Qed.

(** *** Characters of a literal, ranges of a class *)

Lemma literal_ok n fuel : forall pos rule, Forall byte_ok pos -> (length pos <= fuel)%nat ->
  safe (literal_loop fuel pos rule) (fun '(r, rule') => left_of pos r /\ exists l, rule' = rule ++ l /\ piece n l).
Proof.
  induction fuel as [|fuel IH]; intros pos rule Hb Hf; cbn [literal_loop].
  all: destruct (cur pos =? 34); [apply safe_ok; split; [apply left_refl|exists []; by rewrite app_nil_r]|].
  all: destruct (Z.eqb_spec (cur pos) 0) as [|H0]; [done|]; pose proof (cur_nonzero pos _ eq_refl H0).
  - lia.
  - eapply safe_step; [by apply char_ok|]. intros [c r] [Hl Hlt].
    eapply safe_mono; [apply IH; [by eapply left_bytes|lia]|]. intros [r' rule'] (Hl' & l & -> & Hp).
    split; [by eapply left_trans|]. exists ([elem LLAMA_GRETYPE_CHAR c] ++ l). split; [by rewrite <- app_assoc|].
    by apply piece_app; [apply piece_one|].
Qed.

Lemma class_ok n start_type rule0 fuel : start_type = LLAMA_GRETYPE_CHAR \/ start_type = LLAMA_GRETYPE_CHAR_NOT ->
  forall pos acc, Forall byte_ok pos -> (length pos <= fuel)%nat -> piece n acc -> (acc <> [] -> end_mode NoChar acc <> NoChar) ->
  safe (class_loop fuel pos start_type (length rule0) (rule0 ++ acc))
    (fun '(r, rule') => left_of pos r /\ exists l, rule' = rule0 ++ l /\ piece n l).
Proof.
  intros Hst. induction fuel as [|fuel IH]; intros pos acc Hb Hf Hp Hm; cbn [class_loop].
  all: destruct (cur pos =? 93); [apply safe_ok; split; [apply left_refl|by exists acc]|].
  all: destruct (Z.eqb_spec (cur pos) 0) as [|H0]; [done|]; pose proof (cur_nonzero pos _ eq_refl H0).
  { lia. }
  eapply safe_step; [by apply char_ok|]. intros [c r] [Hl Hlt].
  set (t := if (length rule0 <? length (rule0 ++ acc))%nat then LLAMA_GRETYPE_CHAR_ALT else start_type).
  assert (Ht : elem_ok n (end_mode NoChar acc) (elem t c) = true /\ next_mode (elem t c) = OneChar).
  { unfold t. rewrite length_app. destruct acc as [|e acc].
    - rewrite (proj2 (Nat.ltb_ge _ _)) by (simpl; lia). by destruct Hst as [->| ->].
    - rewrite (proj2 (Nat.ltb_lt _ _)) by (simpl; lia). split; [|done]. unfold elem_ok. cbn [ge_type elem].
      by destruct (end_mode NoChar (e :: acc)) eqn:Em; [destruct Hm|..]. }
  destruct Ht as [Ht1 Ht2].
  assert (Hp1 : piece n (acc ++ [elem t c])) by (unfold piece; rewrite body_app, Hp; cbn; by rewrite Ht1).
  assert (He1 : end_mode NoChar (acc ++ [elem t c]) = OneChar) by (by rewrite end_mode_app).
  rewrite <- app_assoc. destruct (_ && _).
  - destruct (Z.eqb_spec (cur1 r) 0) as [|H1]; [done|].
    assert (Hb1 : Forall byte_ok (tail r)) by (eapply left_bytes; [apply left_tail|by eapply left_bytes]).
    eapply safe_step; [by apply char_ok|]. intros [c2 r2] [Hl2 Hlt2]. rewrite <- !app_assoc.
    assert (Hlen := left_length _ _ (left_tail r)).
    eapply safe_mono; [apply (IH r2 (acc ++ [elem t c] ++ [elem LLAMA_GRETYPE_CHAR_RNG_UPPER c2]))|].
    + by eapply left_bytes.
    + lia.
    + rewrite app_assoc. unfold piece. rewrite body_app, Hp1, He1. done.
    + intros _. by rewrite app_assoc, end_mode_app.
    + intros [r' rule'] (Hl' & l & -> & Hpl). split; [|by exists l].
      eapply left_trans; [exact Hl|]. eapply left_trans; [apply left_tail|]. by eapply left_trans.
  - eapply safe_mono; [apply (IH r (acc ++ [elem t c])); [by eapply left_bytes|lia|done|by rewrite He1]|].
    intros [r' rule'] (Hl' & l & -> & Hpl). split; [by eapply left_trans|by exists l].
Qed.

(** ** The table of symbols *)

Definition dec_val (l : list Z) : Z := foldl (fun v c => v * 10 + (c - 48)) 0 l.

Lemma dec_val_foldl l : forall v, foldl (fun v c => v * 10 + (c - 48)) v l = v * 10 ^ Z.of_nat (length l) + dec_val l.
Proof.
  unfold dec_val. induction l as [|c l IH]; intros v; [cbn; lia|]. cbn [foldl length]. rewrite (IH (v * 10 + (c - 48))), (IH (0 * 10 + (c - 48))).
  rewrite Nat2Z.inj_succ, Z.pow_succ_r by lia. lia.
Qed.

Lemma decimal_ok fuel : forall n acc, 0 <= n < 10 ^ Z.of_nat (S fuel) ->
  exists ds, decimal_loop (S fuel) n acc = ds ++ acc /\ dec_val ds = n /\ Forall (fun c => 48 <= c <= 57) ds.
Proof.
  induction fuel as [|fuel IH]; intros n acc Hn.
  - exists [48 + n]. change (10 ^ Z.of_nat 1) with 10 in Hn. cbn [decimal_loop]. rewrite (proj2 (Z.ltb_lt n 10)) by lia.
    split_and!; [done|cbn; lia|]. constructor; [lia|done].
  - cbn [decimal_loop]. destruct (Z.ltb_spec n 10) as [Hlt|Hge].
    { exists [48 + n]. split_and!; [done|cbn; lia|]. constructor; [lia|done]. }
    rewrite Nat2Z.inj_succ, Z.pow_succ_r in Hn by lia.
    destruct (IH (n / 10) ((48 + n mod 10) :: acc)) as (ds & E & Hv & HF).
    { split; [apply Z.div_pos; lia|apply Z.div_lt_upper_bound; lia]. }
    exists (ds ++ [48 + n mod 10]). cbn [decimal_loop] in E. rewrite E, <- app_assoc. split; [done|]. split.
    + unfold dec_val. rewrite foldl_app. fold (dec_val ds). cbn [foldl]. rewrite Hv. pose proof (Z.div_mod n 10). lia.
    + apply Forall_app. split; [done|]. pose proof (Z.mod_pos_bound n 10). constructor; [lia|done].
Qed.

Lemma to_string_ok n : 0 <= n < 2 ^ 32 -> dec_val (to_string n) = n /\ Forall (fun c => 48 <= c <= 57) (to_string n).
Proof.
  intros Hn. destruct (decimal_ok 9 n []) as (ds & E & Hv & HF); [cbn; lia|].
  unfold to_string. by rewrite E, app_nil_r.
Qed.

Lemma last_split (x : Z) l1 l2 r1 r2 : l1 ++ x :: r1 = l2 ++ x :: r2 -> x ∉ r1 -> x ∉ r2 -> r1 = r2.
Proof.
  revert l2. induction l1 as [|a l1 IH]; intros [|b l2] H H1 H2; cbn in H.
  - by injection H as ->.
  - injection H as -> ->. exfalso. apply H1. set_solver.
  - injection H as -> <-. exfalso. apply H2. set_solver.
  - injection H as -> H. by apply (IH l2).
Qed.

Definition n_syms (p : llama_grammar_parser) : nat := size (gp_symbol_ids p).
Definition small (p : llama_grammar_parser) : Prop := Z.of_nat (n_syms p) < 2 ^ 32.

(** The symbols are numbered from 0 without gaps; generated names end with their number, and
    names from the text have no underscore. *)
Record table_ok (p : llama_grammar_parser) : Prop := {
  tb_range : forall k v, gp_symbol_ids p !! k = Some v -> 0 <= v < Z.of_nat (n_syms p);
  tb_onto : forall v, 0 <= v < Z.of_nat (n_syms p) -> exists k, gp_symbol_ids p !! k = Some v;
  tb_keys : forall k v, gp_symbol_ids p !! k = Some v -> forallb is_word_char k = true \/ exists base, k = base ++ 95 :: to_string v;
}.

Definition rules_ok (p : llama_grammar_parser) : Prop := Forall (fun r => r = [] \/ whole (n_syms p) r) (gp_rules p).

Definition parser_ok (p : llama_grammar_parser) : Prop := small p -> table_ok p /\ rules_ok p.

(** What every step keeps. *)
Definition extends (p p' : llama_grammar_parser) : Prop := (n_syms p <= n_syms p')%nat /\ (parser_ok p -> parser_ok p').

Lemma extends_refl p : extends p p.
Proof. by split. Qed.

Lemma extends_trans p1 p2 p3 : extends p1 p2 -> extends p2 p3 -> extends p1 p3.
Proof. intros [H1 H2] [H3 H4]. split; [lia|auto]. Qed.

Lemma small_mono p p' : (n_syms p <= n_syms p')%nat -> small p' -> small p.
Proof. unfold small. lia. Qed.

Lemma rules_ok_grow p ids : (n_syms p <= size ids)%nat -> rules_ok p -> rules_ok (GParser ids (gp_rules p)).
Proof.
  unfold rules_ok. intros Hn H. eapply Forall_impl; [exact H|]. cbn. intros r [->|Hr]; [by left|right]. by eapply whole_mono.
Qed.

Lemma next_id_small p : small p -> next_symbol_id p = Z.of_nat (n_syms p).
Proof. intros H. unfold next_symbol_id, u32. apply Z.mod_small. unfold small, n_syms in *. lia. Qed.

(** A new key gets the next number. *)
Lemma table_insert p name : small p -> table_ok p -> gp_symbol_ids p !! name = None ->
  (forallb is_word_char name = true \/ exists base, name = base ++ 95 :: to_string (Z.of_nat (n_syms p))) ->
  let p' := GParser (<[name := next_symbol_id p]> (gp_symbol_ids p)) (gp_rules p) in
  n_syms p' = S (n_syms p) /\ table_ok p'.
Proof.
  intros Hs [T1 T2 T3] Hno Hname. cbn. assert (Hsz : n_syms (GParser (<[name := next_symbol_id p]> (gp_symbol_ids p)) (gp_rules p)) = S (n_syms p)).
  { unfold n_syms. cbn. by rewrite map_size_insert_None. }
  rewrite next_id_small in * by done. split; [exact Hsz|]. split; rewrite ?Hsz; cbn [gp_symbol_ids].
  - intros k v Hk. apply lookup_insert_Some in Hk as [[_ <-]|[_ Hk]]; [lia|]. apply T1 in Hk. lia.
  - intros v Hv. destruct (decide (v = Z.of_nat (n_syms p))) as [->|].
    + exists name. apply lookup_insert_eq.
    + destruct (T2 v) as [k Hk]; [lia|]. exists k. rewrite lookup_insert_ne; [done|]. intros ->. congruence.
  - intros k v Hk. apply lookup_insert_Some in Hk as [[<- <-]|[_ Hk]]; [done|by apply T3].
Qed.

Lemma get_symbol_ok p name p' id : forallb is_word_char name = true -> get_symbol_id p name = (p', id) ->
  extends p p' /\ (parser_ok p -> small p' -> 0 <= id < Z.of_nat (n_syms p')).
Proof.
  intros Hw H. unfold get_symbol_id in H. destruct (gp_symbol_ids p !! name) as [i|] eqn:E.
  - injection H as <- <-. split; [apply extends_refl|]. intros Ho Hs. apply Ho in Hs as [T _]. by eapply tb_range.
  - injection H as <- <-. set (p' := GParser _ _).
    assert (Hsz : n_syms p' = S (n_syms p)) by (unfold n_syms; cbn; by rewrite map_size_insert_None).
    split.
    + split; [lia|]. intros Ho Hs. assert (Hs0 : small p) by (eapply small_mono; [|exact Hs]; lia).
      destruct (Ho Hs0) as [T R]. destruct (table_insert p name Hs0 T E (or_introl Hw)) as [_ HT]. split; [exact HT|]. apply rules_ok_grow; [unfold p', n_syms in *; cbn in *; lia|done].
    + intros Ho Hs. assert (Hs0 : small p) by (eapply small_mono; [|exact Hs]; lia). rewrite next_id_small by done. lia.
Qed.

(** A generated name is new. *)
Lemma generated_fresh p base : small p -> table_ok p -> gp_symbol_ids p !! (base ++ 95 :: to_string (Z.of_nat (n_syms p))) = None.
Proof.
  intros Hs T. destruct (gp_symbol_ids p !! _) as [v|] eqn:E; [|done]. exfalso. unfold small in Hs.
  pose proof (tb_range p T _ _ E) as Hv. destruct (tb_keys p T _ _ E) as [Hw|[base' Hk]].
  - rewrite forallb_app in Hw. apply andb_prop in Hw as [_ Hw]. done.
  - apply last_split in Hk.
    + apply (f_equal dec_val) in Hk. rewrite (proj1 (to_string_ok (Z.of_nat (n_syms p)) ltac:(lia))), (proj1 (to_string_ok v ltac:(lia))) in Hk. lia.
    + intros Hin. destruct (to_string_ok (Z.of_nat (n_syms p))) as [_ HF]; [lia|]. rewrite Forall_forall in HF. apply HF in Hin. lia.
    + intros Hin. destruct (to_string_ok v) as [_ HF]; [lia|]. rewrite Forall_forall in HF. apply HF in Hin. lia.
Qed.

Lemma generate_ok p base p' id : generate_symbol_id p base = (p', id) ->
  extends p p' /\ gp_rules p' = gp_rules p /\
  (parser_ok p -> small p' -> small p /\ id = Z.of_nat (n_syms p) /\ n_syms p' = S (n_syms p)).
Proof.
  unfold generate_symbol_id. intros [= <- <-]. set (p' := GParser _ _).
  assert (Hle : (n_syms p <= n_syms p')%nat).
  { unfold n_syms, p'. cbn. destruct (gp_symbol_ids p !! (base ++ 95 :: to_string (next_symbol_id p))) eqn:E.
    - erewrite map_size_insert_Some by done. lia.
    - rewrite map_size_insert_None by done. lia. }
  assert (G : parser_ok p -> small p' -> small p /\ next_symbol_id p = Z.of_nat (n_syms p) /\ n_syms p' = S (n_syms p) /\ table_ok p').
  { intros Ho Hs. assert (Hs0 : small p) by by eapply small_mono. destruct (Ho Hs0) as [T R].
    pose proof (generated_fresh p base Hs0 T) as Hf. pose proof (next_id_small p Hs0) as Hn.
    destruct (table_insert p (base ++ 95 :: to_string (next_symbol_id p)) Hs0 T) as [H1 H2]; [by rewrite Hn|right; exists base; by rewrite Hn|].
    done. }
  split; [|split; [done|intros Ho Hs; by destruct (G Ho Hs) as (? & ? & ? & _)]]. split; [done|].
  intros Ho Hs. destruct (G Ho Hs) as (Hs0 & _ & Hsz & T). split; [done|]. apply rules_ok_grow; [unfold n_syms in *; cbn in *; lia|].
  by apply Ho.
Qed.

Lemma add_rule_ok p id rule : (small p -> whole (n_syms p) rule) -> extends p (add_rule p id rule) /\ n_syms (add_rule p id rule) = n_syms p.
Proof.
  intros Hw. split; [|done]. split; [done|]. intros Ho Hs. destruct (Ho Hs) as [T R]. split; [by destruct T|].
  unfold rules_ok, add_rule. cbn [gp_rules]. change (n_syms _) with (n_syms p). apply Forall_insert; [|by right; apply Hw].
  apply Forall_app. split; [done|]. apply Forall_replicate. by left.
Qed.

(** ** Repetitions *)

Lemma small_before p p' : extends p p' -> small p' -> small p.
Proof. intros [H _] Hs. unfold small in *. lia. Qed.

(** The rules made for the optional part: what is known after each. *)
Definition rec_inv (p0 : llama_grammar_parser) (prev_rule : llama_grammar_rule) (i : nat)
    (s : llama_grammar_parser * llama_grammar_rule * Z) : Prop :=
  let '(p, rec_rule, last_id) := s in
  extends p0 p /\ take (length prev_rule) rec_rule = prev_rule /\
  (parser_ok p0 -> small p -> (0 < i)%nat -> 0 <= last_id < Z.of_nat (n_syms p)).

Lemma rec_step_ok p0 prev_rule rule_name no_max i s : (forall p, small p -> (n_syms p0 <= n_syms p)%nat -> piece (n_syms p) prev_rule) ->
  rec_inv p0 prev_rule i s -> rec_inv p0 prev_rule (S i) (rec_rule_step rule_name prev_rule no_max s i).
Proof.
  intros Hp. destruct s as [[p rec_rule] last_id]. intros (He & Ht & Hid). unfold rec_rule_step. rewrite Ht.
  destruct (generate_symbol_id p rule_name) as [p1 id] eqn:Eg. destruct (generate_ok _ _ _ _ Eg) as (He1 & Hr1 & Hg).
  set (rec := (if (0 <? i)%nat || no_max then _ else _) ++ _).
  assert (Hadd : parser_ok p0 -> small p1 -> whole (n_syms p1) rec).
  { intros Ho Hs. assert (Hop : parser_ok p) by (by apply He). destruct (Hg Hop Hs) as (Hsp & -> & Hsz).
    assert (Hpp : piece (n_syms p1) prev_rule) by (apply Hp; [done|]; destruct He, He1; lia).
    assert (Ha : piece (n_syms p1) [elem LLAMA_GRETYPE_ALT 0]) by (by apply piece_one).
    unfold rec. destruct ((0 <? i)%nat || no_max) eqn:Ei.
    - eexists (prev_rule ++ [elem LLAMA_GRETYPE_RULE_REF _] ++ [elem LLAMA_GRETYPE_ALT 0]). split; [by rewrite <- !app_assoc|].
      apply piece_app; [done|]. apply piece_app; [|done]. apply piece_ref. destruct no_max; [lia|].
      rewrite orb_false_r in Ei. apply Nat.ltb_lt in Ei. specialize (Hid Ho Hsp Ei). lia.
    - exists (prev_rule ++ [elem LLAMA_GRETYPE_ALT 0]). split; [by rewrite <- !app_assoc|]. by apply piece_app. }
  split_and!.
  - destruct He as [Hle1 Hk1], He1 as [Hle2 Hk2]. split; [unfold n_syms in *; cbn in *; lia|].
    intros Ho Hs. assert (Hs1 : small p1) by exact Hs.
    destruct (add_rule_ok p1 id rec) as [[_ Hk3] _]; [intros; by apply Hadd|]. apply Hk3; [|done]. by apply Hk2, Hk1.
  - unfold rec. destruct ((0 <? i)%nat || no_max); rewrite <- ?app_assoc; by rewrite take_app_length.
  - intros Ho Hs _. assert (Hs1 : small p1) by exact Hs. destruct (Hg (proj2 He Ho) Hs1) as (_ & -> & Hsz).
    change (n_syms (add_rule p1 _ rec)) with (n_syms p1). lia.
Qed.

Lemma rec_rules_ok p0 prev_rule rule_name no_max k : (forall p, small p -> (n_syms p0 <= n_syms p)%nat -> piece (n_syms p) prev_rule) ->
  rec_inv p0 prev_rule k (foldl (rec_rule_step rule_name prev_rule no_max) (p0, prev_rule, 0) (seq 0 k)).
Proof.
  intros Hp. induction k as [|k IH].
  - cbn. split_and!; [apply extends_refl|by rewrite take_ge|lia].
  - rewrite seq_S, foldl_app. cbn [foldl Nat.add]. by apply rec_step_ok.
Qed.

(** A state of the loop of [parse_sequence]. *)
Definition n_prev_ok (n : Z) : Prop := 1 <= n <= 2 ^ 32.

Definition parts_ok (s : seq_state) : Prop := small (ss_parser s) ->
  piece (n_syms (ss_parser s)) (take (ss_last_sym_start s) (ss_rule s)) /\
  piece (n_syms (ss_parser s)) (drop (ss_last_sym_start s) (ss_rule s)).

Definition seq_ok (s : seq_state) : Prop :=
  parser_ok (ss_parser s) /\ (ss_last_sym_start s <= length (ss_rule s))%nat /\ n_prev_ok (ss_n_prev_rules s) /\ parts_ok s.

Definition times_ok (min_times max_times : Z) : Prop :=
  0 <= min_times <= 2000 /\ (max_times = UINT64_MAX \/ 0 <= max_times <= 2000).

Lemma repeat_last_ok rule_name min_times max_times s : seq_ok s -> times_ok min_times max_times ->
  safe (repeat_last rule_name min_times max_times s) (fun s' => seq_ok s' /\ (n_syms (ss_parser s) <= n_syms (ss_parser s'))%nat).
Proof.
  destruct s as [p rule last n]. intros (Hp & Hl & Hn & Hparts) Ht. unfold repeat_last, handle_repetitions. cbn [ss_parser ss_rule ss_last_sym_start ss_n_prev_rules] in *.
  destruct (last =? length rule)%nat eqn:El; [done|]. unfold parts_ok in Hparts. cbn [ss_parser ss_rule ss_last_sym_start] in Hparts.
  set (total := if negb (max_times =? UINT64_MAX) && (0 <? max_times) then max_times else if 0 <? min_times then min_times else 1).
  assert (Htot : 1 <= total <= 2000).
  { unfold total. destruct Ht as [Hmin Hmax]. destruct (Z.eqb_spec max_times UINT64_MAX) as [|Hne]; cbn [negb andb].
    - destruct (Z.ltb_spec 0 min_times); lia.
    - destruct Hmax as [|Hmax]; [done|]. destruct (Z.ltb_spec 0 max_times); [lia|]. destruct (Z.ltb_spec 0 min_times); lia. }
  assert (Hprod : u64 (n * total) = n * total).
  { unfold u64. apply Z.mod_small. unfold n_prev_ok in Hn. change (2 ^ 32) with 4294967296 in Hn. change (2 ^ 64) with 18446744073709551616. nia. }
  rewrite !Hprod. unfold MAX_REPETITION_THRESHOLD. destruct (Z.leb_spec 2000 (n * total)) as [|Hlim]; [done|].
  set (prev_rule := drop last rule) in *. set (k := Z.to_nat (n_opt min_times max_times)).
  assert (Hpiece : forall p', small p' -> (n_syms p <= n_syms p')%nat -> piece (n_syms p') prev_rule).
  { intros p' Hs Hle. eapply piece_mono; [exact Hle|]. apply Hparts. by eapply small_mono. }
  pose proof (rec_rules_ok p prev_rule rule_name (max_times =? UINT64_MAX) k Hpiece) as Hinv.
  destruct (foldl _ _ _) as [[p' rec] last_id]. destruct Hinv as (He & _ & Hid).
  rewrite (proj2 (Z.leb_le 1 (n * total))) by (unfold n_prev_ok in Hn; nia). cbn [assert_ mbind res_bind].
  apply safe_ok. cbn [ss_parser]. split; [|by destruct He].
  set (rule1 := if min_times =? 0 then take last rule else rule ++ repeat_rule (Z.to_nat (min_times - 1)) prev_rule).
  assert (Hr1 : exists l, rule1 = take last rule ++ l /\ forall m, piece m prev_rule -> piece m l).
  { unfold rule1. destruct (min_times =? 0); [exists []; split; [by rewrite app_nil_r|done]|].
    exists (prev_rule ++ repeat_rule (Z.to_nat (min_times - 1)) prev_rule). assert (Htd : take last rule ++ prev_rule = rule) by apply take_drop.
    split; [by rewrite app_assoc, Htd|].
    intros m Hm. apply piece_app; [done|by apply piece_repeat]. }
  destruct Hr1 as (l & Hl1 & Hlp).
  set (rule2 := if 0 <? n_opt min_times max_times then _ else _).
  assert (Hr2 : exists l2, rule2 = take last rule ++ l2 /\ (parser_ok p -> small p' -> piece (n_syms p') l2)).
  { unfold rule2. destruct (Z.ltb_spec 0 (n_opt min_times max_times)) as [Hk|Hk].
    - exists (l ++ [elem LLAMA_GRETYPE_RULE_REF last_id]). split; [by rewrite Hl1, app_assoc|]. intros Ho Hs.
      apply piece_app; [apply Hlp, Hpiece; [done|by destruct He]|]. apply piece_ref, Hid; [done|done|unfold k; lia].
    - exists l. split; [done|]. intros Ho Hs. apply Hlp, Hpiece; [done|by destruct He]. }
  destruct Hr2 as (l2 & Hl2 & Hp2). rewrite Hl2.
  assert (Hlen : length (take last rule) = last) by (rewrite length_take; lia).
  split_and!; cbn [ss_parser ss_rule ss_last_sym_start ss_n_prev_rules].
  - by apply He.
  - rewrite length_app. lia.
  - unfold n_prev_ok in *. split; [nia|lia].
  - intros Hs. cbn [ss_parser ss_rule ss_last_sym_start] in *.
    assert (Hs0 : small p) by (by eapply small_before). destruct (Hparts Hs0) as [H1 H2]. split.
    + rewrite take_app_le by lia. rewrite take_take, Nat.min_id. eapply piece_mono; [by destruct He|done].
    + rewrite <- Hlen at 1. rewrite drop_app_length. by apply Hp2.
Qed.

(** ** The branches of [parse_sequence] *)

(** The upper bound of [{m,n}], when there is a comma. *)
Lemma braces_max_ok pos is_nested :
  safe (if is_digit_char (cur pos) then
          '(digits, int_end) ← parse_int pos;
          max_times ← stoull digits;
          Ok (max_times, parse_space int_end is_nested)
        else Ok (UINT64_MAX, pos)) (fun '(m, r) => left_of pos r /\ 0 <= m).
Proof.
  destruct (is_digit_char _); [|by apply safe_ok; split; [apply left_refl|]].
  eapply safe_step; [apply int_ok|]. intros [w r] [Hd Hr]. eapply safe_step; [by apply stoull_ok|]. intros v Hv.
  apply safe_ok. split; [|done]. eapply left_trans; [apply less_left, Hr|apply space_ok].
Qed.

Lemma braces_ok pos is_nested : safe (parse_braces pos is_nested) (fun '(m, n, r) => times_ok m n /\ less_of pos r).
Proof.
  unfold parse_braces. apply safe_bool; intros _.
  eapply safe_step; [apply int_ok|]. intros [w r] [Hd Hr]. eapply safe_step; [by apply stoull_ok|]. intros min_times Hmin.
  eapply (safe_step _ _ (fun '(m, r') => left_of r r' /\ 0 <= m)).
  - set (pos1 := parse_space r is_nested). assert (H1 : left_of r pos1) by apply space_ok.
    destruct (cur pos1 =? 125); [|destruct (cur pos1 =? 44); [|done]].
    + apply safe_ok. split; [|done]. eapply left_trans; [exact H1|]. eapply left_trans; [apply left_tail|apply space_ok].
    + eapply safe_step; [apply braces_max_ok|]. intros [m r2] [H2 Hm]. apply safe_bool; intros _. apply safe_ok. split; [|done].
      eapply left_trans; [exact H1|]. eapply left_trans; [apply left_tail|]. eapply left_trans; [apply space_ok|].
      eapply left_trans; [exact H2|]. eapply left_trans; [apply left_tail|apply space_ok].
  - intros [max_times r'] [Hr' Hmax]. apply safe_bool. unfold MAX_REPETITION_THRESHOLD. intros Hb. apply safe_ok.
    split; [|by eapply less_trans]. unfold times_ok. apply orb_false_iff in Hb as [Hb1 Hb2].
    cbn beta in Hmin. split; [lia|]. destruct (Z.eqb_spec max_times UINT64_MAX); [by left|right]. cbn [negb andb] in Hb2. lia.
Qed.

(** What a branch leaves: a good state, a strictly shorter text and no fewer symbols. *)
Definition stepped (s : seq_state) (pos : list Z) (s' : seq_state) (pos' : list Z) : Prop :=
  seq_ok s' /\ less_of pos pos' /\ (n_syms (ss_parser s) <= n_syms (ss_parser s'))%nat.

(** The symbol before the new one is complete. *)
Lemma seq_whole s : seq_ok s -> small (ss_parser s) -> piece (n_syms (ss_parser s)) (ss_rule s).
Proof. intros (_ & _ & _ & H) Hs. destruct (H Hs) as [H1 H2]. rewrite <- (take_drop (ss_last_sym_start s) (ss_rule s)). by apply piece_app. Qed.

Lemma new_symbol_ok s p l n : seq_ok s -> extends (ss_parser s) p -> n_prev_ok n -> (small p -> piece (n_syms p) l) ->
  seq_ok (new_symbol s p (ss_rule s ++ l) n).
Proof.
  intros Hok [Hle Hk] Hn Hl. unfold new_symbol. split_and!; cbn [ss_parser ss_rule ss_last_sym_start ss_n_prev_rules].
  - by apply Hk, Hok.
  - rewrite length_app. lia.
  - done.
  - intros Hs. cbn [ss_parser ss_rule ss_last_sym_start] in *. rewrite take_app_length, drop_app_length. split; [|by apply Hl].
    eapply piece_mono; [exact Hle|]. apply seq_whole; [done|]. by eapply small_mono.
Qed.

Lemma n_prev_one : n_prev_ok 1.
Proof. unfold n_prev_ok. lia. Qed.

(** A symbol without references. *)
Lemma plain_symbol s pos l r : seq_ok s -> less_of pos r -> piece 0 l ->
  stepped s pos (new_symbol s (ss_parser s) (ss_rule s ++ l) 1) r.
Proof.
  intros Hs Hr Hl. split; [|done]. apply new_symbol_ok; [done|apply extends_refl|apply n_prev_one|].
  intros _. eapply piece_mono; [|exact Hl]. lia.
Qed.

(** What the branches promise. *)
Definition branch_ok (s : seq_state) (pos : list Z) (o : option (seq_state * list Z)) : Prop :=
  match o with Some (s', pos') => stepped s pos s' pos' | None => True end.

Lemma repeat_branch rule_name m n s pos r : seq_ok s -> times_ok m n -> less_of pos r ->
  safe (s ← repeat_last rule_name m n s; Ok (Some (s, r))) (branch_ok s pos).
Proof.
  intros Hs Ht Hr. eapply safe_step; [by apply repeat_last_ok|]. intros s' [Hs' Hn]. by apply safe_ok.
Qed.

Lemma class_branch start_type is_nested s pos pos1 : start_type = LLAMA_GRETYPE_CHAR \/ start_type = LLAMA_GRETYPE_CHAR_NOT ->
  Forall byte_ok pos1 -> less_of pos pos1 -> seq_ok s ->
  safe ('(r, rule) ← class_loop (length pos1) pos1 start_type (length (ss_rule s)) (ss_rule s);
        Ok (Some (new_symbol s (ss_parser s) rule 1, parse_space (tail r) is_nested))) (branch_ok s pos).
Proof.
  intros Hst Hb Hl Hs. pose proof (class_ok 0 start_type (ss_rule s) (length pos1) Hst pos1 [] Hb (le_n _) eq_refl) as H.
  rewrite app_nil_r in H. eapply safe_step; [by apply H|]. intros [r rule'] (Hr & l & -> & Hp).
  apply safe_ok, plain_symbol; [done| |done]. eapply less_trans; [exact Hl|]. eapply left_trans; [exact Hr|].
  eapply left_trans; [apply left_tail|apply space_ok].
Qed.

Lemma name_branch is_nested s pos : seq_ok s ->
  safe ('(name, name_end) ← parse_name pos;
        let '(p, ref_rule_id) := get_symbol_id (ss_parser s) name in
        Ok (Some (new_symbol s p (ss_rule s ++ [elem LLAMA_GRETYPE_RULE_REF ref_rule_id]) 1, parse_space name_end is_nested)))
    (branch_ok s pos).
Proof.
  intros Hs. eapply safe_step; [apply name_ok|]. intros [name r] [Hw Hr].
  destruct (get_symbol_id (ss_parser s) name) as [p id] eqn:E. apply get_symbol_ok in E as [He Hid]; [|done].
  apply safe_ok. split; [|split; [eapply less_trans; [exact Hr|apply space_ok]|by destruct He]].
  apply new_symbol_ok; [done|done|apply n_prev_one|]. intros Hsm. apply piece_ref, Hid; [by destruct Hs|done].
Qed.

Lemma simple_ok vocab rule_name is_nested s pos : Forall byte_ok pos -> (0 < length pos)%nat -> seq_ok s ->
  safe (simple_symbol vocab rule_name is_nested s pos) (branch_ok s pos).
Proof.
  intros Hb Hlen Hs. unfold simple_symbol. pose proof (less_tail pos Hlen) as Htl.
  assert (Hb1 : Forall byte_ok (tail pos)) by (eapply left_bytes; [apply less_left, Htl|done]).
  assert (Hskip : forall r, less_of pos r -> less_of pos (parse_space r is_nested)).
  { intros r Hr. eapply less_trans; [exact Hr|apply space_ok]. }
  destruct (cur pos =? 34).
  { eapply safe_step; [apply (literal_ok 0); [done|destruct Htl; lia]|]. intros [r rule'] (Hr & l & -> & Hp).
    apply safe_ok, plain_symbol; [done| |done]. apply Hskip. eapply less_trans; [exact Htl|].
    eapply left_trans; [exact Hr|apply left_tail]. }
  destruct (cur pos =? 91).
  { destruct (cur (tail pos) =? 94); apply class_branch; auto.
    - eapply left_bytes; [apply left_tail|done].
    - eapply less_trans; [exact Htl|apply left_tail]. }
  destruct ((cur pos =? 60) || (cur pos =? 33)).
  { destruct (cur pos =? 33); (eapply safe_step; [apply token_ok|]; intros [t r] Hr; apply safe_ok, plain_symbol; [done| |by apply piece_one]).
    - apply Hskip. by eapply less_trans'; [apply less_left, Htl|].
    - by apply Hskip. }
  destruct (is_word_char (cur pos)); [by apply name_branch|].
  destruct (cur pos =? 46); [by apply safe_ok, plain_symbol; [done|apply Hskip|]|].
  destruct (cur pos =? 42); [apply repeat_branch; [done|split; [lia|by left]|by apply Hskip]|].
  destruct (cur pos =? 43); [apply repeat_branch; [done|split; [lia|by left]|by apply Hskip]|].
  destruct (cur pos =? 63); [apply repeat_branch; [done|split; [lia|right; lia]|by apply Hskip]|].
  destruct (cur pos =? 123); [|done].
  eapply safe_step; [apply braces_ok|]. intros [[m n] r] [Ht Hr]. apply repeat_branch; [done|done|].
  eapply less_trans'; [|exact Hr]. eapply left_trans; [apply less_left, Htl|apply space_ok].
Qed.

(** ** The three loops *)

Definition alt_post (p : llama_grammar_parser) (src : list Z) (r : llama_grammar_parser * list Z) : Prop :=
  let '(p', pos') := r in parser_ok p' /\ (n_syms p <= n_syms p')%nat /\ left_of src pos'.

Definition seq_post (p : llama_grammar_parser) (src : list Z) (r : llama_grammar_parser * llama_grammar_rule * list Z) : Prop :=
  let '(p', rule', pos') := r in
  parser_ok p' /\ (n_syms p <= n_syms p')%nat /\ left_of src pos' /\ (small p' -> piece (n_syms p') rule').

Lemma seq_post_left p p0 src src0 r : (n_syms p0 <= n_syms p)%nat -> left_of src0 src -> seq_post p src r -> seq_post p0 src0 r.
Proof. destruct r as [[p' rule'] pos']. intros H1 H2 (? & ? & ? & ?). split_and!; [done|lia|by eapply left_trans|done]. Qed.

(** Fuel that is enough: [A], [M] and [S] for alternates, more alternates and sequences. *)
Definition loops_ok (fuel : nat) : Prop :=
  (forall vocab p src rule_name rule_id is_nested, Forall byte_ok src -> parser_ok p -> (2 * length src + 1 <= fuel)%nat ->
     safe (parse_alternates fuel vocab p src rule_name rule_id is_nested) (alt_post p src)) /\
  (forall vocab rule_name is_nested p rule src, Forall byte_ok src -> parser_ok p -> (small p -> piece (n_syms p) rule) ->
     (2 * length src <= fuel)%nat ->
     safe (more_alternates fuel vocab rule_name is_nested p rule src) (seq_post p src)) /\
  (forall vocab rule_name is_nested s src, Forall byte_ok src -> seq_ok s -> (2 * length src <= fuel)%nat ->
     safe (parse_sequence fuel vocab rule_name is_nested s src) (seq_post (ss_parser s) src)).

Lemma seq_start p rule : parser_ok p -> (small p -> piece (n_syms p) rule) -> seq_ok (SeqState p rule (length rule) 1).
Proof.
  intros Hp Hr. split_and!; [done|done|apply n_prev_one|]. intros Hs. cbn. rewrite take_ge, drop_ge by done.
  by split; [apply Hr|].
Qed.

Lemma seq_stop s src : seq_ok s -> seq_post (ss_parser s) src (ss_parser s, ss_rule s, src).
Proof. intros Hs. split_and!; [by apply Hs|done|apply left_refl|by apply seq_whole]. Qed.

Lemma paren_ok fuel vocab rule_name is_nested s pos : loops_ok fuel -> Forall byte_ok pos -> seq_ok s ->
  (0 < length pos)%nat -> (2 * length pos <= S fuel)%nat ->
  safe (let pos := parse_space (tail pos) true in
        let n_rules_before := next_symbol_id (ss_parser s) in
        let '(p, sub_rule_id) := generate_symbol_id (ss_parser s) rule_name in
        '(p, pos) ← parse_alternates fuel vocab p pos rule_name sub_rule_id true;
        let n_prev_rules := Z.max 1 (u32 (next_symbol_id p - n_rules_before)) in
        if negb (cur pos =? 41) then Err Thrown else
        parse_sequence fuel vocab rule_name is_nested
          (new_symbol s p (ss_rule s ++ [elem LLAMA_GRETYPE_RULE_REF sub_rule_id]) n_prev_rules)
          (parse_space (tail pos) is_nested)) (seq_post (ss_parser s) pos).
Proof.
  intros (HA & _ & HS) Hb Hs Hlen Hf. cbv zeta.
  destruct (generate_symbol_id (ss_parser s) rule_name) as [p1 id] eqn:Eg. destruct (generate_ok _ _ _ _ Eg) as (He1 & _ & Hg).
  set (pos1 := parse_space (tail pos) true).
  assert (H1 : less_of pos pos1) by (eapply less_trans; [by apply less_tail|apply space_ok]).
  assert (Hp0 : parser_ok (ss_parser s)) by apply Hs.
  eapply safe_step; [apply HA; [by eapply left_bytes; [apply less_left|]|by apply He1|destruct H1; lia]|].
  intros [p2 r] (Hp2 & Hn2 & Hr). apply safe_bool; intros _.
  set (pos2 := parse_space (tail r) is_nested).
  assert (H2 : less_of pos pos2).
  { eapply less_trans; [exact H1|]. eapply left_trans; [exact Hr|]. eapply left_trans; [apply left_tail|apply space_ok]. }
  eapply safe_mono; [apply HS; [by eapply left_bytes; [apply less_left|]| |destruct H2; lia]|].
  - apply new_symbol_ok; [done| | |].
    + destruct He1. split; [lia|done].
    + unfold n_prev_ok, u32. pose proof (Z.mod_pos_bound (next_symbol_id p2 - next_symbol_id (ss_parser s)) (2 ^ 32) ltac:(done)). lia.
    + intros Hsm. assert (Hs1 : small p1) by (by eapply small_mono). destruct (Hg Hp0 Hs1) as (_ & -> & Hsz).
      apply piece_ref. lia.
  - intros res Hres. eapply seq_post_left; [|apply less_left, H2|exact Hres]. cbn [ss_parser new_symbol]. destruct He1. lia.
Qed.

Lemma loops_all fuel : loops_ok fuel.
Proof.
  induction fuel as [|fuel IH].
  { split_and!.
    - intros. lia.
    - intros vocab rule_name is_nested p rule src Hb Hp Hr Hf. destruct src; [|simpl in Hf; lia]. cbn. apply safe_ok.
      split_and!; [done|done|apply left_refl|done].
    - intros vocab rule_name is_nested s src Hb Hs Hf. destruct src; [|simpl in Hf; lia]. by apply safe_ok, seq_stop. }
  pose proof IH as (HA & HM & HS). split_and!.
  - intros vocab p src rule_name rule_id is_nested Hb Hp Hf. cbn [parse_alternates].
    eapply safe_step; [apply HS; [done|by apply (seq_start p [])|lia]|]. intros [[p1 rule1] r1] (Hp1 & Hn1 & Hl1 & Hw1).
    cbn [ss_parser] in Hn1. pose proof (left_length _ _ Hl1).
    eapply safe_step; [apply HM; [by eapply left_bytes|done|done|lia]|]. intros [[p2 rule2] r2] (Hp2 & Hn2 & Hl2 & Hw2).
    apply safe_ok. destruct (add_rule_ok p2 rule_id (rule2 ++ [elem LLAMA_GRETYPE_END 0])) as [He Hsz].
    { intros Hs. eexists. split; [done|by apply Hw2]. }
    split_and!; [by apply He|lia|by eapply left_trans].
  - intros vocab rule_name is_nested p rule src Hb Hp Hr Hf. cbn [more_alternates].
    destruct (Z.eqb_spec (cur src) 124) as [E|]; cbn [negb]; [|by apply safe_ok; split_and!; [..|apply left_refl|]].
    pose proof (cur_nonzero _ _ E ltac:(done)) as Hlen. set (pos1 := parse_space (tail src) true).
    assert (H1 : less_of src pos1) by (eapply less_trans; [by apply less_tail|apply space_ok]).
    eapply safe_step; [apply HS; [by eapply left_bytes; [apply less_left|]|apply seq_start; [done|]|destruct H1; lia]|].
    { intros Hs. by apply piece_app; [apply Hr|apply piece_one]. }
    intros [[p1 rule1] r1] (Hp1 & Hn1 & Hl1 & Hw1). cbn [ss_parser] in Hn1.
    assert (H2 : less_of src r1) by by eapply less_trans.
    eapply safe_mono; [apply HM; [by eapply left_bytes; [apply less_left|]|done|done|destruct H2; lia]|].
    intros res Hres. by eapply seq_post_left; [..|exact Hres]; [|apply less_left].
  - intros vocab rule_name is_nested s src Hb Hs Hf. cbn [parse_sequence].
    destruct (Z.eqb_spec (cur src) 0) as [|H0]; [by apply safe_ok, seq_stop|]. pose proof (cur_nonzero _ _ eq_refl H0) as Hlen.
    destruct (cur src =? 40); [by apply paren_ok; [..|lia]|].
    eapply safe_step; [by apply simple_ok|]. intros [[s' pos']|] Hbr; [|by apply safe_ok, seq_stop].
    destruct Hbr as (Hs' & Hl & Hn). eapply safe_mono; [apply HS; [by eapply left_bytes; [apply less_left|]|done|destruct Hl; lia]|].
    intros res Hres. by eapply seq_post_left; [..|exact Hres]; [|apply less_left].
Qed.

(** ** Rules and the whole text *)

Definition rule_post (p : llama_grammar_parser) (src : list Z) (r : llama_grammar_parser * list Z) : Prop :=
  let '(p', pos') := r in parser_ok p' /\ (n_syms p <= n_syms p')%nat /\ less_of src pos'.

Lemma parse_rule_ok vocab p src : Forall byte_ok src -> parser_ok p -> safe (parse_rule vocab p src) (rule_post p src).
Proof.
  intros Hb Hp. unfold parse_rule. eapply safe_step; [apply name_ok|]. intros [name r] [Hw Hr].
  destruct (get_symbol_id p name) as [p1 id] eqn:Eg. destruct (get_symbol_ok _ _ _ _ Hw Eg) as [[Hn1 Hk1] _].
  apply safe_bool; intros _. set (pos1 := parse_space (drop 3 _) true).
  assert (H1 : less_of src pos1).
  { eapply less_trans; [exact Hr|]. eapply left_trans; [apply space_ok|]. eapply left_trans; [apply left_drop|apply space_ok]. }
  destruct (loops_all (parse_fuel pos1)) as (HA & _ & _).
  eapply safe_step; [apply HA; [by eapply left_bytes; [apply less_left|]|by apply Hk1|unfold parse_fuel; lia]|].
  intros [p2 r2] (Hp2 & Hn2 & Hr2).
  assert (Hend : forall r3, left_of r2 r3 -> rule_post p src (p2, parse_space r3 true)).
  { intros r3 Hr3. split_and!; [done|lia|]. eapply less_trans; [exact H1|]. eapply left_trans; [exact Hr2|].
    eapply left_trans; [exact Hr3|apply space_ok]. }
  destruct (cur r2 =? 13); [apply safe_ok; destruct (_ =? _); apply Hend; [apply left_drop|apply left_tail]|].
  destruct (cur r2 =? 10); [apply safe_ok, Hend, left_tail|]. apply safe_bool; intros _. apply safe_ok, Hend, left_refl.
Qed.

Lemma parse_rules_ok fuel vocab : forall p pos, Forall byte_ok pos -> parser_ok p -> (length pos <= fuel)%nat ->
  safe (parse_rules fuel vocab p pos) parser_ok.
Proof.
  induction fuel as [|fuel IH]; intros p pos Hb Hp Hf; cbn [parse_rules].
  all: destruct (Z.eqb_spec (cur pos) 0) as [|H0]; [by apply safe_ok|]; pose proof (cur_nonzero _ _ eq_refl H0) as Hlen.
  { lia. }
  eapply safe_step; [by apply parse_rule_ok|]. intros [p' pos'] (Hp' & _ & Hl).
  apply IH; [by eapply left_bytes; [apply less_left|]|done|]. destruct Hl. lia.
Qed.

Lemma parser_start : parser_ok (GParser ∅ []).
Proof.
  intros _. split; [|apply Forall_nil; done]. split.
  - intros k v H. cbn in H. by rewrite lookup_empty in H.
  - intros v Hv. unfold n_syms in Hv. cbn in Hv. rewrite map_size_empty in Hv. lia.
  - intros k v H. cbn in H. by rewrite lookup_empty in H.
Qed.

(** After the last check every rule is there and complete. *)
Lemma defined_lookup p v : table_ok p -> 0 <= v < Z.of_nat (n_syms p) ->
  undefined_ref p (elem LLAMA_GRETYPE_RULE_REF v) = false -> (Z.to_nat v < length (gp_rules p))%nat.
Proof.
  intros T Hv H. unfold undefined_ref in H. cbn [ge_type ge_value elem] in H.
  destruct (gp_rules p !! Z.to_nat v) as [r|] eqn:E; [by eapply lookup_lt_Some|].
  destruct (tb_onto p T v Hv) as [k Hk].
  assert (He : existsb (fun kv => kv.2 =? v) (map_to_list (gp_symbol_ids p)) = true).
  { apply existsb_exists. exists (k, v). split; [by apply list_elem_of_In, elem_of_map_to_list|]. cbn. lia. }
  by rewrite He in H.
Qed.

Lemma rule_ok_refs p rule : table_ok p -> forall m, rule_ok (n_syms p) m rule = true ->
  forallb (fun e => negb (undefined_ref p e)) rule = true -> rule_ok (length (gp_rules p)) m rule = true.
Proof.
  intros T. induction rule as [|e rule IH]; intros m H1 H2; [done|]. cbn [forallb] in H2. apply andb_prop in H2 as [He H2].
  apply negb_true_iff in He.
  assert (Hel : forall m', elem_ok (n_syms p) m' e = true -> elem_ok (length (gp_rules p)) m' e = true).
  { intros m' Hm. unfold elem_ok in *. destruct e as [t v]. cbn [ge_type ge_value] in *. destruct t; try done.
    assert (Hv : 0 <= v < Z.of_nat (n_syms p)) by lia. apply (defined_lookup p v T Hv) in He. lia. }
  destruct rule as [|e1 rule]; [done|]. cbn [rule_ok] in *. apply andb_prop in H1 as [H3 H4].
  rewrite Hel by done. by apply IH.
Qed.

Lemma defined_wf p : small p -> parser_ok p -> rules_defined p = true ->
  wf_rules (gp_rules p) /\ mmap copy_rule (gp_rules p) = Ok (gp_rules p).
Proof.
  intros Hs Hp Hd. destruct (Hp Hs) as [T R]. unfold rules_ok in R. unfold rules_defined in Hd. rewrite forallb_forall in Hd.
  assert (Hw : Forall (fun r => whole (n_syms p) r /\ forallb (fun e => negb (undefined_ref p e)) r = true) (gp_rules p)).
  { rewrite Forall_forall in *. intros r Hr. specialize (R r Hr). specialize (Hd r ltac:(by apply list_elem_of_In)).
    destruct r; [done|]. by destruct R as [|R]. }
  split.
  - unfold wf_rules, wf_rulesb. rewrite forallb_forall. intros r Hr%list_elem_of_In. rewrite Forall_forall in Hw.
    destruct (Hw r Hr) as [Hr1 Hr2]. apply rule_ok_refs; [done|by apply whole_rule|done].
  - clear Hd R. induction Hw as [|r rules [Hr _] _ IH]; [done|]. cbn [mmap]. rewrite (whole_copy _ _ Hr). cbn [mbind res_bind].
    by rewrite IH.
Qed.

(** * Properties of the grammar parser, and of a grammar given as a text *)

(** A text of the demonstrations, as bytes. *)
Definition bytes (s : string) : list Z := map (fun c => Z.of_nat (Ascii.nat_of_ascii c)) (String.list_ascii_of_string s).

Lemma bytes_ok s : Forall byte_ok (bytes s).
Proof.
  unfold bytes. rewrite Forall_forall. intros b Hb%list_elem_of_In. apply in_map_iff in Hb as (c & <- & _).
  pose proof (Ascii.nat_ascii_bounded c). unfold byte_ok. lia.
Qed.

Definition quoted (s : string) : string := String (Ascii.ascii_of_nat 34) (s ++ String (Ascii.ascii_of_nat 34) EmptyString)%string.

(** [root ::= "(" root ")" root | ] *)
Definition parens_text : list Z := bytes ("root ::= " ++ quoted "(" ++ " root " ++ quoted ")" ++ " root | ")%string.

(** [a ::= root{0} "x"] *)
Definition no_root_text : list Z := bytes ("a ::= root{0} " ++ quoted "x")%string.

(** The rules of every accepted text are well formed. *)
Lemma parse_answers vocab src : Forall byte_ok src ->
  exists r, llama_grammar_parser_parse vocab src = Ok r /\
    forall p, r = Some p -> Z.of_nat (size (gp_symbol_ids p)) < 2 ^ 32 ->
      wf_rules (gp_rules p) /\ mmap copy_rule (gp_rules p) = Ok (gp_rules p).
Proof.
  intros Hb. unfold llama_grammar_parser_parse. set (pos := parse_space src true).
  assert (Hp : Forall byte_ok pos) by (eapply left_bytes; [apply space_ok|done]).
  pose proof (parse_rules_ok (length pos) vocab (GParser ∅ []) pos Hp parser_start (le_n _)) as H. unfold safe in H.
  destruct (parse_rules _ _ _ _) as [p|[]]; try done; [|by exists None].
  eexists. split; [done|]. intros p' E Hs. destruct (rules_defined p) eqn:Ed; [|done]. injection E as <-. by apply defined_wf.
Qed.

(** C25: the parser of grammars always answers: on any text it ends, with rules or with a
    reported error, and never fails an assertion or reads outside its data. The rules it
    returns, if they are fewer than 2^32 (their number is kept in 32 bits), are well formed: each ends with its only end marker, every reference is to an existing
    rule, and ranges and alternatives of a character class follow a character. *)
Theorem parser_total vocab src (Hb : Forall byte_ok src) :
  exists r, llama_grammar_parser_parse vocab src = Ok r /\
    forall p, r = Some p -> Z.of_nat (size (gp_symbol_ids p)) < 2 ^ 32 ->
      wf_rules (gp_rules p) /\ mmap copy_rule (gp_rules p) = Ok (gp_rules p).
Proof. by apply parse_answers. Qed.

Lemma parser_total_witness :
  exists r, llama_grammar_parser_parse None parens_text = Ok r /\
    forall p, r = Some p -> Z.of_nat (size (gp_symbol_ids p)) < 2 ^ 32 ->
      wf_rules (gp_rules p) /\ mmap copy_rule (gp_rules p) = Ok (gp_rules p).
Proof. apply (parser_total None parens_text). apply bytes_ok. Defined.

(** C24: a grammar given as a text. When the text parses to fewer than 2^32 symbols (their number is
    kept in 32 bits) with a rule for the start symbol, a left-recursive grammar is refused, and otherwise (if every rule that generates
    the empty text has an empty alternate) building the grammar ends, and it accepts exactly
    the language of the start symbol. *)
Theorem text_accepts_language vocab src root lazy patterns tokens p start (Hb : Forall byte_ok src)
    (Hp : llama_grammar_parser_parse vocab src = Ok (Some p)) (Hsize : Z.of_nat (size (gp_symbol_ids p)) < 2 ^ 32)
    (Hroot : gp_symbol_ids p !! root = Some start) (Hs : (Z.to_nat start < length (gp_rules p))%nat) :
  ((exists x, reaches_left (gp_rules p) x x) ->
     forall fuel, llama_grammar_init_impl fuel vocab src root lazy patterns tokens = Ok None) /\
  (~ (exists x, reaches_left (gp_rules p) x x) -> nullability_visible (gp_rules p) ->
   forall cps, exists n g g', (forall fuel, (n <= fuel)%nat ->
      llama_grammar_init_impl fuel vocab src root lazy patterns tokens = Ok (Some g) /\
      mfor (llama_grammar_accept fuel) cps g = Ok g') /\
    (has_empty_stack (g_stacks g') = true <-> language (gp_rules p) (Z.to_nat start) cps) /\
    (forall w, language (gp_rules p) (Z.to_nat start) (cps ++ w) <->
       exists s, s ∈ g_stacks g' /\ generates (gp_rules p) s w)).
Proof.
  destruct (parse_answers vocab src Hb) as (r & Er & Hr). rewrite Hp in Er. injection Er as <-.
  destruct (Hr p eq_refl Hsize) as [W Hcopy].
  assert (Hinit : forall fuel, llama_grammar_init_impl fuel vocab src root lazy patterns tokens =
    (lr ← is_left_recursive (gp_rules p);
     if (lr : bool) then Ok None else
     stacks ← initial_stacks (gp_rules p) fuel (Z.to_nat start);
     Ok (Some (LlamaGrammar vocab (gp_rules p) stacks (PartialUtf8 0 0) lazy lazy [] [] tokens patterns)))).
  { intros fuel. unfold llama_grammar_init_impl. rewrite Hp. cbn [mbind res_bind]. rewrite Hroot, Hcopy.
    destruct (gp_rules p) eqn:E; [simpl in Hs; lia|]. done. }
  split.
  - intros Hl fuel. destruct (check_decides (gp_rules p) W) as (b & Eb & Hdec). assert (b = true) as -> by by apply Hdec.
    rewrite Hinit, Eb. done.
  - intros Hl Hv cps. destruct (stacks_accept (gp_rules p) (Z.to_nat start) cps W Hs Hv Hl) as (Eb & n & st0 & st & H & He & Hw).
    set (g0 := LlamaGrammar vocab (gp_rules p) st0 (PartialUtf8 0 0) lazy lazy [] [] tokens patterns).
    exists n, g0, (with_stacks g0 st (PartialUtf8 0 0)). split_and!; [|done|done].
    intros fuel Hf. destruct (H fuel Hf) as [H1 H2]. split.
    + rewrite Hinit, Eb. cbn [mbind res_bind]. by rewrite H1.
    + rewrite (accept_all_stacks (gp_rules p)) by done. cbn [g_stacks g0]. by rewrite H2.
Qed.

Definition parens_parser : llama_grammar_parser := GParser {[ bytes "root"%string := 0 ]} parens.

Lemma parens_parsed : llama_grammar_parser_parse None parens_text = Ok (Some parens_parser).
Proof. vm_compute. reflexivity. Qed.

Lemma text_accepts_language_witness :
  exists n g g', (forall fuel, (n <= fuel)%nat ->
      llama_grammar_init_impl fuel None parens_text (bytes "root"%string) false [] [] = Ok (Some g) /\
      mfor (llama_grammar_accept fuel) (bytes "()"%string) g = Ok g') /\
    (has_empty_stack (g_stacks g') = true <-> language parens 0 (bytes "()"%string)).
Proof.
  destruct (text_accepts_language None parens_text (bytes "root"%string) false [] [] parens_parser 0) as [_ H].
  - apply bytes_ok.
  - exact parens_parsed.
  - vm_compute. reflexivity.
  - reflexivity.
  - apply Nat.ltb_lt. reflexivity.
  - destruct (H parens_no_cycle parens_visible (bytes "()"%string)) as (n & g & g' & H1 & H2 & _).
    exists n, g, g'. split; [exact H1|exact H2].
Defined.

(** *** What the parser lets through *)

(** A start symbol that is only mentioned, inside a repetition of zero times, has a number and
    no rule: the stacks are then read outside the rules. *)
Lemma start_without_rule fuel vocab :
  llama_grammar_init_impl fuel vocab no_root_text (bytes "root"%string) false [] [] = Err OutOfRange.
Proof. vm_compute. reflexivity. Qed.

(** [{3,2}] is not refused: the number of optional parts wraps around. *)
Lemma reversed_bounds_wrap : parse_braces (bytes "3,2}"%string) false = Ok (3, 2, []) /\ n_opt 3 2 = 2 ^ 64 - 1.
Proof. split; reflexivity. Qed.
