(* ===== verification/RsMemory.v ===== *)
(** * The recurrent memory: state and operations

    [llama_memory_recurrent] of src/src/llama-memory-recurrent.cpp and .h.  A cell holds the
    recurrent state of whole sequences.  The entry [tail] of cell [s] is about sequence [s]: it
    is the number of the cell that holds the state of [s], or -1.  [src] is the row the state
    of a cell is to be copied from before the next graph, [src0] the copy of [src] that the
    graph uses; row [rs_z] is scaled by zero in the graph and stands for the initial state (the
    rows hold no NaN). *)
From S2P Require Import Prelude Batch KvCache.

Record mem_cell : Type := MemCell {
  mc_pos    : Z;
  mc_src    : Z;
  mc_src0   : Z;
  mc_tail   : Z;
  mc_seq_id : gset Z;
}.

#[export] Instance mem_cell_eq_dec : EqDecision mem_cell.
Proof. solve_decision. Defined.

Definition has_seq_id (c : mem_cell) (id : Z) : bool := bool_decide (id ∈ mc_seq_id c).
Definition is_empty (c : mem_cell) : bool := bool_decide (mc_seq_id c = ∅).

(** A new cell; and assignments to one member. *)
Definition mem_cell_new : mem_cell := MemCell (-1) (-1) (-1) (-1) ∅.
Definition set_tail (t : Z) (c : mem_cell) : mem_cell := MemCell (mc_pos c) (mc_src c) (mc_src0 c) t (mc_seq_id c).
Definition set_ids (ids : gset Z) (c : mem_cell) : mem_cell := MemCell (mc_pos c) (mc_src c) (mc_src0 c) (mc_tail c) ids.
Definition set_pos (p : Z) (c : mem_cell) : mem_cell := MemCell p (mc_src c) (mc_src0 c) (mc_tail c) (mc_seq_id c).
Definition set_pos_src (p s : Z) (c : mem_cell) : mem_cell := MemCell p s (mc_src0 c) (mc_tail c) (mc_seq_id c).
Definition set_src (s s0 : Z) (c : mem_cell) : mem_cell := MemCell (mc_pos c) s s0 (mc_tail c) (mc_seq_id c).

Record llama_memory_recurrent : Type := Recurrent {
  rs_head  : Z;
  rs_used  : Z;
  rs_n     : Z;
  rs_rs_z  : Z;
  rs_cells : list mem_cell;
}.

(** The member [size] is the number of cells. *)
Definition rs_size (m : llama_memory_recurrent) : Z := Z.of_nat (length (rs_cells m)).

(** The metadata part of the constructor. *)
Definition recr_new (mem_size : nat) : llama_memory_recurrent := Recurrent 0 0 0 (-1) (replicate mem_size mem_cell_new).

(** [cells\[i\]] is changed in place. *)
Definition upd (cells : list mem_cell) (i : Z) (f : mem_cell -> mem_cell) : res (list mem_cell) :=
  c ← vec_getZ cells i; vec_setZ cells i (f c).

(** A loop over all cells that changes the cell at hand and some other variables. *)
Fixpoint each_cell {S} (f : S -> Z -> mem_cell -> S * mem_cell) (i : Z) (cells : list mem_cell) (s : S) : S * list mem_cell :=
  match cells with
  | [] => (s, [])
  | c :: cells =>
      let '(s, c) := f s i c in
      let '(s, cells) := each_cell f (i + 1) cells s in
      (s, c :: cells)
  end.

(** ** Sequence operations *)

(** The metadata part of [clear]. *)
Definition recr_clear (m : llama_memory_recurrent) : llama_memory_recurrent :=
  Recurrent 0 0 (rs_n m) (rs_rs_z m) ((fun c => MemCell (-1) (-1) (mc_src0 c) (-1) ∅) <$> rs_cells m).

(** The end of [seq_rm] and [seq_keep]: [new_head] is the first cell that was freed. *)
Definition move_head (m : llama_memory_recurrent) (new_head : Z) : Z :=
  if negb (new_head =? rs_size m) && (new_head <? rs_head m) then new_head else rs_head m.

(** One cell of the loop of [seq_rm]; the variables are [used] and [new_head]. *)
Definition recr_rm_cell (size seq_id p0 p1 : Z) (s : Z * Z) (i : Z) (c : mem_cell) : (Z * Z) * mem_cell :=
  let '(used, new_head) := s in
  if (p0 <=? mc_pos c) && (mc_pos c <? p1) then
    if (seq_id <? 0) || has_seq_id c seq_id then
      let c := set_ids (if seq_id <? 0 then ∅ else mc_seq_id c ∖ {[ seq_id ]}) c in
      if is_empty c then
        let used := if 0 <=? mc_pos c then u32 (used - 1) else used in
        ((used, if new_head =? size then i else new_head), set_pos_src (-1) (-1) c)
      else (s, c)
    else (s, c)
  else (s, c).

(** The tail of the sequence before the loop; [None]: the range cannot be removed. *)
Definition rm_tail (cells : list mem_cell) (seq_id p0 p1 : Z) : res (option (list mem_cell)) :=
  if 0 <=? seq_id then
    c ← vec_getZ cells seq_id;
    if 0 <=? mc_tail c then
      cell ← vec_getZ cells (mc_tail c);
      if (0 <? p0) && (p0 <=? mc_pos cell) && (mc_pos cell <? p1) then Ok None else
      if (p0 <=? mc_pos cell) && (mc_pos cell <? p1) then
        cells ← upd cells seq_id (set_tail (-1)); Ok (Some cells)
      else Ok (Some cells)
    else Ok (Some cells)
  else if negb (p0 =? p1) && (negb (p0 =? 0) || negb (p1 =? INT32_MAX)) then Ok None
  else Ok (Some cells).

Definition recr_seq_rm (m : llama_memory_recurrent) (seq_id p0 p1 : Z) : res (llama_memory_recurrent * bool) :=
  let p0 := norm_p0 p0 in
  let p1 := norm_p1 p1 in
  if rs_size m <=? seq_id then Ok (m, false) else
  r ← rm_tail (rs_cells m) seq_id p0 p1;
  match r with
  | None => Ok (m, false)
  | Some cells =>
      let '((used, new_head), cells) := each_cell (recr_rm_cell (rs_size m) seq_id p0 p1) 0 cells (rs_used m, rs_size m) in
      Ok (Recurrent (move_head m new_head) used (rs_n m) (rs_rs_z m) cells, true)
  end.

(** Sequence [seq_id] leaves its cell, if it has one: in [seq_cp] and [find_slot]. *)
Definition drop_tail (s : list mem_cell * Z) (seq_id : Z) : res (list mem_cell * Z) :=
  let '(cells, used) := s in
  seq ← vec_getZ cells seq_id;
  if 0 <=? mc_tail seq then
    let t := mc_tail seq in
    cells ← upd cells t (fun c => set_ids (mc_seq_id c ∖ {[ seq_id ]}) c);
    cells ← upd cells seq_id (set_tail (-1));
    cell ← vec_getZ cells t;
    if is_empty cell then
      cells ← upd cells t (set_pos_src (-1) (-1)); Ok (cells, u32 (used - 1))
    else Ok (cells, used)
  else Ok (cells, used).

Definition recr_seq_cp (m : llama_memory_recurrent) (seq_id_src seq_id_dst : Z) : res llama_memory_recurrent :=
  if seq_id_src =? seq_id_dst then Ok m else
  if (u32 seq_id_dst <? rs_size m) && (u32 seq_id_src <? rs_size m) then
    '(cells, used) ← drop_tail (rs_cells m, rs_used m) seq_id_dst;
    tail_src ← vec_getZ cells seq_id_src;
    cells ← (if 0 <=? mc_tail tail_src then
               cells ← upd cells (mc_tail tail_src) (fun c => set_ids ({[ seq_id_dst ]} ∪ mc_seq_id c) c);
               upd cells seq_id_dst (set_tail (mc_tail tail_src))
             else Ok cells);
    Ok (Recurrent (rs_head m) used (rs_n m) (rs_rs_z m) cells)
  else Ok m.

(** One cell of the loop of [seq_keep]. *)
Definition keep_cell (size seq_id : Z) (s : Z * Z) (i : Z) (c : mem_cell) : (Z * Z) * mem_cell :=
  let '(used, new_head) := s in
  let c := if negb (i =? seq_id) then set_tail (-1) c else c in
  if negb (has_seq_id c seq_id) then
    let used := if 0 <=? mc_pos c then u32 (used - 1) else used in
    ((used, if new_head =? size then i else new_head), set_ids ∅ (set_pos_src (-1) (-1) c))
  else (s, set_ids {[ seq_id ]} c).

Definition recr_seq_keep (m : llama_memory_recurrent) (seq_id : Z) : llama_memory_recurrent :=
  let '((used, new_head), cells) := each_cell (keep_cell (rs_size m) seq_id) 0 (rs_cells m) (rs_used m, rs_size m) in
  Recurrent (move_head m new_head) used (rs_n m) (rs_rs_z m) cells.

(** The common part of [seq_add] and [seq_div]: the position of the cell of a sequence. *)
Definition change_pos (m : llama_memory_recurrent) (seq_id p0 p1 : Z) (f : Z -> res Z) : res llama_memory_recurrent :=
  let p0 := norm_p0 p0 in
  let p1 := norm_p1 p1 in
  if p0 =? p1 then Ok m else
  if (0 <=? seq_id) && (seq_id <? rs_size m) then
    c ← vec_getZ (rs_cells m) seq_id;
    if 0 <=? mc_tail c then
      cell ← vec_getZ (rs_cells m) (mc_tail c);
      if has_seq_id cell seq_id && (p0 <=? mc_pos cell) && (mc_pos cell <? p1) then
        p ← f (mc_pos cell);
        cells ← upd (rs_cells m) (mc_tail c) (set_pos p);
        Ok (Recurrent (rs_head m) (rs_used m) (rs_n m) (rs_rs_z m) cells)
      else Ok m
    else Ok m
  else Ok m.

Definition recr_seq_add (m : llama_memory_recurrent) (seq_id p0 p1 shift : Z) : res llama_memory_recurrent :=
  if shift =? 0 then Ok m else change_pos m seq_id p0 p1 (fun p => i32 (p + shift)).

Definition recr_seq_div (m : llama_memory_recurrent) (seq_id p0 p1 d : Z) : res llama_memory_recurrent :=
  if d =? 1 then Ok m else
  change_pos m seq_id p0 p1 (fun p => if d =? 0 then Err DivByZero else i32 (Z.quot p d)).

Definition recr_seq_pos_min (m : llama_memory_recurrent) (seq_id : Z) : Z :=
  let result := foldl (fun r c => if has_seq_id c seq_id then Z.min r (mc_pos c) else r) INT32_MAX (rs_cells m) in
  if result =? INT32_MAX then -1 else result.

Definition recr_seq_pos_max (m : llama_memory_recurrent) (seq_id : Z) : Z :=
  foldl (fun r c => if has_seq_id c seq_id then Z.max r (mc_pos c) else r) (-1) (rs_cells m).

#[export] Instance recurrent_memory : Memory llama_memory_recurrent := {
  mem_seq_pos_min m s := Ok (recr_seq_pos_min m s);
  mem_seq_pos_max m s := Ok (recr_seq_pos_max m s);
}.

(** ** [find_slot] *)

Section slot.
Context {E : Type} (u : llama_ubatch E).
Abbreviation n_seqs := (ub_n_seqs u).

(** The first token of sequence set [s], and its sequence ids. *)
Definition set_token (s : nat) : nat := (s * ub_n_seq_tokens u)%nat.
Definition set_ids_of (s : nat) : res (list Z) := vec_get (ub_seq_id u) (set_token s).
Definition rs_first_id (s : nat) : res Z := ids ← set_ids_of s; vec_get ids 0.

(** Every sequence id must have a cell of its own; [None]: one of them has not.  Sequences that
    become shared leave their cells. *)
Fixpoint check_ids (size : Z) (j : nat) (ids : list Z) (s : list mem_cell * Z) : res (list mem_cell * Z * bool) :=
  match ids with
  | [] => Ok (s, true)
  | id :: ids =>
      if (id <? 0) || (size <=? id) then Ok (s, false) else
      s ← (if (0 <? j)%nat then drop_tail s id else Ok s);
      check_ids size (S j) ids s
  end.

Fixpoint check_sets_ids (size : Z) (sets : list nat) (s : list mem_cell * Z) : res (list mem_cell * Z * bool) :=
  match sets with
  | [] => Ok (s, true)
  | i :: sets =>
      n_seq_id ← vec_get (ub_n_seq_id u) (set_token i);
      ids ← set_ids_of i;
      ids ← mmap (vec_get ids) (seq 0 (Z.to_nat n_seq_id));
      '(s, ok) ← check_ids size 0 ids s;
      if (ok : bool) then check_sets_ids size sets s else Ok (s, false)
  end.

(** The first empty cell from [e] on, and the next one after [e], around the end of the memory. *)
Definition wrap (cells : list mem_cell) (e : Z) : Z :=
  if Z.of_nat (length cells) <=? e then e - Z.of_nat (length cells) else e.

Fixpoint find_empty (k : nat) (cells : list mem_cell) (e : Z) : res Z :=
  match k with
  | O => Ok e
  | S k =>
      let e := wrap cells e in
      c ← vec_getZ cells e;
      if is_empty c then Ok e else find_empty k cells (e + 1)
  end.

Fixpoint next_empty (k : nat) (cells : list mem_cell) (e : Z) : res Z :=
  match k with
  | O => Ok e
  | S k =>
      let e := wrap cells (e + 1) in
      c ← vec_getZ cells e;
      if is_empty c then Ok e else next_empty k cells e
  end.

(** Does sequence [q] own its cell? *)
Definition owns_cell (cells : list mem_cell) (q : Z) : res bool :=
  seq ← vec_getZ cells q;
  if 0 <=? mc_tail seq then
    c ← vec_getZ cells (mc_tail seq);
    _ ← assert_ (has_seq_id c q);
    Ok (size (mc_seq_id c) =? 1)%nat
  else Ok false.

(** The state of [q] moves to the empty cell [e]. *)
Definition take_cell (cells : list mem_cell) (q e : Z) : res (list mem_cell) :=
  empty_cell ← vec_getZ cells e;
  _ ← assert_ (is_empty empty_cell);
  seq ← vec_getZ cells q;
  cells ← (if 0 <=? mc_tail seq then
             orig ← vec_getZ cells (mc_tail seq);
             cells ← upd cells e (set_pos_src (mc_pos orig) (mc_src orig));
             cells ← upd cells (mc_tail seq) (fun c => set_ids (mc_seq_id c ∖ {[ q ]}) c);
             cells ← upd cells e (fun c => set_ids ({[ q ]} ∪ mc_seq_id c) c);
             orig ← vec_getZ cells (mc_tail seq);
             _ ← assert_ (negb (is_empty orig));
             Ok cells
           else Ok cells);
  upd cells q (set_tail e).

(** The usable range: the cells, the next empty cell and the range of the tails so far. *)
Definition reserve_step (s : list mem_cell * Z * Z * Z) (i : nat) : res (list mem_cell * Z * Z * Z) :=
  let '(cells, e, mn, mx) := s in
  q ← rs_first_id i;
  has_cell ← owns_cell cells q;
  '(cells, e) ← (if (has_cell : bool) then Ok (cells, e) else
                   cells ← take_cell cells q e;
                   e ← (if (i + 1 <? n_seqs)%nat then next_empty (length cells) cells e else Ok e);
                   Ok (cells, e));
  seq ← vec_getZ cells q;
  Ok (cells, e, Z.min mn (mc_tail seq), Z.max mx (mc_tail seq)).

(** [std::swap] of the states of two cells, and of the tails that point to them. *)
Definition swap_tail (a b : Z) (c : mem_cell) : mem_cell :=
  if mc_tail c =? a then set_tail b c else if mc_tail c =? b then set_tail a c else c.

Definition swap_cells (cells : list mem_cell) (dst src : Z) : res (list mem_cell) :=
  d ← vec_getZ cells dst;
  s ← vec_getZ cells src;
  cells ← upd cells dst (fun c => set_ids (mc_seq_id s) (set_pos_src (mc_pos s) (mc_src s) c));
  cells ← upd cells src (fun c => set_ids (mc_seq_id d) (set_pos_src (mc_pos d) (mc_src d) c));
  Ok (fmap (M:=list) (swap_tail src dst) cells).

Definition gather_step (mn : Z) (cells : list mem_cell) (i : nat) : res (list mem_cell) :=
  q ← rs_first_id i;
  seq ← vec_getZ cells q;
  let dst := Z.of_nat i + mn in
  if dst =? mc_tail seq then Ok cells else swap_cells cells dst (mc_tail seq).

(** The positions and the ids of the sets of the batch. *)
Definition place_step (mn : Z) (cells : list mem_cell) (i : nat) : res (list mem_cell) :=
  last_pos ← vec_get (ub_pos u) (set_token i + ub_n_seq_tokens u - 1);
  let cell_id := Z.of_nat i + mn in
  cell ← vec_getZ cells cell_id;
  _ ← (if 0 <=? mc_pos cell then i32 (mc_pos cell + Z.of_nat (ub_n_seq_tokens u)) else Ok 0);
  cells ← upd cells cell_id (fun c => set_ids ∅ (set_pos last_pos c));
  n_seq_id ← vec_get (ub_n_seq_id u) (set_token i);
  ids ← set_ids_of i;
  mfor (fun cells j =>
          id ← vec_get ids j;
          cells ← upd cells cell_id (fun c => set_ids ({[ id ]} ∪ mc_seq_id c) c);
          upd cells id (set_tail cell_id))
       (seq 0 (Z.to_nat n_seq_id)) cells.

(** The number of cells whose state comes from each row. *)
Definition count_refs (cells : list mem_cell) : res (list Z) :=
  mfor (fun refcounts c =>
          if 0 <=? mc_src c then
            n ← vec_getZ refcounts (mc_src c); vec_setZ refcounts (mc_src c) (n + 1)
          else Ok refcounts)
       cells (replicate (length cells) 0).

Fixpoint first_unreferenced (refcounts : list Z) (range : list Z) : res Z :=
  match range with
  | [] => Ok (-1)
  | i :: range => n ← vec_getZ refcounts i; if n =? 0 then Ok i else first_unreferenced refcounts range
  end.

(** The sources are staged for the graph. *)
Definition stage_step (rs_z : Z) (cells : list mem_cell) (i : Z) : res (list mem_cell) :=
  c ← vec_getZ cells i;
  s0 ← (if mc_src c <? 0 then _ ← assert_ (0 <=? rs_z); Ok rs_z else Ok (mc_src c));
  upd cells i (set_src i s0).

Definition recr_find_slot (m : llama_memory_recurrent) : res (llama_memory_recurrent * bool) :=
  let head := if u32 (rs_used m + u32 (2 * Z.of_nat n_seqs)) <? rs_head m then 0 else rs_head m in
  _ ← assert_ (ub_equal_seqs u);
  '(cells, used, ok) ← check_sets_ids (rs_size m) (seq 0 n_seqs) (rs_cells m, rs_used m);
  if negb ok then Ok (Recurrent head used (rs_n m) (rs_rs_z m) cells, false) else
  e ← find_empty (length cells) cells head;
  '(cells, _, mn, mx) ← mfor reserve_step (seq 0 n_seqs) (cells, e, rs_size m - 1, 0);
  cells ← mfor (gather_step mn) (seq 0 n_seqs) cells;
  cells ← mfor (place_step mn) (seq 0 n_seqs) cells;
  let range := seqZ mn (mx - mn + 1) in
  refcounts ← count_refs cells;
  rs_z ← first_unreferenced refcounts range;
  cells ← mfor (stage_step rs_z) range cells;
  let n := u32 (mx - mn + 1) in
  let used := Z.of_nat (length (filter (fun c => negb (is_empty c)) cells)) in
  Ok (Recurrent mn used n rs_z cells, Z.of_nat n_seqs <=? n).

End slot.

(** ** [prepare], [init_batch] and the context *)

Section batch.
Context {E : Type}.

(** The micro-batches are placed one after the other; [false] at the first that does not fit. *)
Fixpoint find_slots (us : list (llama_ubatch E)) (m : llama_memory_recurrent) : res (llama_memory_recurrent * bool) :=
  match us with
  | [] => Ok (m, true)
  | u :: us =>
      '(m, ok) ← recr_find_slot u m;
      if (ok : bool) then find_slots us m else Ok (m, false)
  end.

Definition recr_prepare (m : llama_memory_recurrent) (ubatches : list (llama_ubatch E)) : res (llama_memory_recurrent * bool) :=
  '(m', success) ← find_slots ubatches m;
  Ok (Recurrent (rs_head m) (rs_used m) (rs_n m') (rs_rs_z m') (rs_cells m), success).

Definition recr_split (fuel : nat) (embd_all : bool) (n_ubatch : nat) : llama_batch_allocr E -> list (llama_ubatch E) ->
    res (llama_batch_allocr E * list (llama_ubatch E)) :=
  split_loop (fun a => if embd_all then balloc_split_seq a n_ubatch else balloc_split_equal a n_ubatch true) fuel.

(** [None]: [LLAMA_MEMORY_STATUS_FAILED_PREPARE]. *)
Definition recr_init_batch (m : llama_memory_recurrent) (a : llama_batch_allocr E) (n_ubatch : nat) (embd_all : bool) :
    res (llama_memory_recurrent * llama_batch_allocr E * option (list (llama_ubatch E))) :=
  let a := balloc_split_reset a in
  '(a, us) ← recr_split (S (balloc_get_n_tokens a)) embd_all n_ubatch a [];
  if (balloc_get_n_used a <? balloc_get_n_tokens a)%nat then Ok (m, a, None) else
  '(m, ok) ← recr_prepare m us;
  Ok (m, a, if (ok : bool) then Some us else None).

(** [llama_memory_recurrent_context::apply]: the result of [find_slot] is dropped. *)
Definition recr_apply (m : llama_memory_recurrent) (u : llama_ubatch E) : res llama_memory_recurrent :=
  '(m, _) ← recr_find_slot u m; Ok m.

End batch.

Definition recr_s_copy (m : llama_memory_recurrent) (i : nat) : res Z :=
  c ← vec_getZ (rs_cells m) (Z.of_nat i + rs_head m); Ok (mc_src0 c).

(** ** The states and the graph *)

Section states.
Context {D : Type} (zero : D).

(** [llm_graph_context::build_rs] on the rows of one layer: row [rs_z] is zeroed, the states of
    the sets are gathered, and the other states of the range are copied.  Returns the gathered
    states and the rows. *)
Definition build_rs (m : llama_memory_recurrent) (n_seqs : nat) (rows : list D) : res (list D * list D) :=
  s_copy ← mmap (recr_s_copy m) (seq 0 (Z.to_nat (rs_n m)));
  rows ← (if 0 <=? rs_rs_z m then vec_setZ rows (rs_rs_z m) zero else Ok rows);
  output_states ← mmap (vec_getZ rows) (take n_seqs s_copy);
  states_extra ← mmap (vec_getZ rows) (drop n_seqs s_copy);
  rows ← mfor (fun rows '(i, x) => vec_setZ rows (rs_head m + Z.of_nat n_seqs + Z.of_nat i) x)
              (zip (seq 0 (length states_extra)) states_extra) rows;
  Ok (output_states, rows).

(** The layers replace the states of the sets. *)
Definition write_states (m : llama_memory_recurrent) (new_states : list D) (rows : list D) : res (list D) :=
  mfor (fun rows '(i, x) => vec_setZ rows (rs_head m + Z.of_nat i) x) (zip (seq 0 (length new_states)) new_states) rows.

(** One micro-batch: the slot, the graph, and the new states made by [layer] from the old. *)
Definition decode {E} (layer : list D -> list D) (u : llama_ubatch E) (s : llama_memory_recurrent * list D) :
    res (llama_memory_recurrent * list D) :=
  let '(m, rows) := s in
  m ← recr_apply m u;
  '(states, rows) ← build_rs m (ub_n_seqs u) rows;
  rows ← write_states m (layer states) rows;
  Ok (m, rows).

End states.
