(* ===== verification/RsTheory.v ===== *)
(** * The recurrent memory: its invariant and the sequence operations

    The cells as a function of their index ([cell_at]); the invariant: the tails and the sets of
    ids agree ([own_ok], the condition the code checks in debug builds), and every cell has a
    position and a source that fit ([recr_ok]); what a sequence sees ([view]); and the exact
    effect of the sequence operations on it. *)
From S2P Require Export RsMemory.
From S2P Require Import Prelude Batch KvCache.

(** ** Cells by index *)

Definition cell_at (cs : list mem_cell) (i : Z) : mem_cell :=
  if 0 <=? i then default mem_cell_new (cs !! Z.to_nat i) else mem_cell_new.

Definition in_cells (cs : list mem_cell) (i : Z) : Prop := 0 <= i < Z.of_nat (length cs).

#[export] Instance in_cells_dec cs i : Decision (in_cells cs i).
Proof. unfold in_cells. apply _. Defined.

(** The list with the cell at [i] changed. *)
Definition put (cs : list mem_cell) (i : Z) (f : mem_cell -> mem_cell) : list mem_cell :=
  <[Z.to_nat i := f (cell_at cs i)]> cs.

Abbreviation tail_at cs q := (mc_tail (cell_at cs q)).
Abbreviation ids_at cs i := (mc_seq_id (cell_at cs i)).
Abbreviation pos_at cs i := (mc_pos (cell_at cs i)).
Abbreviation src_at cs i := (mc_src (cell_at cs i)).

Lemma get_cell cs i : in_cells cs i -> vec_getZ cs i = Ok (cell_at cs i).
Proof.
  intros [H0 H1]. unfold vec_getZ, cell_at, vec_get. rewrite (proj2 (Z.leb_le 0 i)) by done.
  destruct (lookup_lt_is_Some_2 cs (Z.to_nat i)) as [c ->]; [lia|]. done.
Qed.

Lemma upd_cell cs i f : in_cells cs i -> upd cs i f = Ok (put cs i f).
Proof.
  intros H. unfold upd. rewrite get_cell by done. cbn [mbind res_bind]. unfold vec_setZ, vec_set.
  destruct H as [H0 H1]. rewrite (proj2 (Z.leb_le 0 i)) by done. by rewrite decide_True by lia.
Qed.

Lemma length_put cs i f : length (put cs i f) = length cs.
Proof. apply length_insert. Qed.

Lemma in_put cs i f j : in_cells (put cs i f) j <-> in_cells cs j.
Proof. unfold in_cells. by rewrite length_put. Qed.

Lemma cell_at_put cs i f j : in_cells cs i -> cell_at (put cs i f) j = if decide (j = i) then f (cell_at cs i) else cell_at cs j.
Proof.
  intros [H0 H1]. unfold put. destruct (decide (j = i)) as [->|Hne].
  - unfold cell_at at 1. rewrite (proj2 (Z.leb_le 0 i)) by done. by rewrite list_lookup_insert_eq by lia.
  - unfold cell_at at 1 3. destruct (Z.leb_spec 0 j); [|done]. by rewrite list_lookup_insert_ne by lia.
Qed.

Lemma put_eq cs i f : in_cells cs i -> cell_at (put cs i f) i = f (cell_at cs i).
Proof. intros H. rewrite cell_at_put by done. by rewrite decide_True. Qed.

Lemma put_ne cs i f j : in_cells cs i -> j <> i -> cell_at (put cs i f) j = cell_at cs j.
Proof. intros H Hne. rewrite cell_at_put by done. by rewrite decide_False. Qed.

Lemma cell_at_lookup cs i c : cs !! i = Some c -> cell_at cs (Z.of_nat i) = c.
Proof. intros H. unfold cell_at. rewrite (proj2 (Z.leb_le 0 _)) by lia. by rewrite Nat2Z.id, H. Qed.

Lemma lookup_cell_at cs i : in_cells cs i -> cs !! Z.to_nat i = Some (cell_at cs i).
Proof.
  intros [H0 H1]. destruct (lookup_lt_is_Some_2 cs (Z.to_nat i)) as [c Hc]; [lia|]. rewrite Hc. f_equal.
  apply cell_at_lookup in Hc. by rewrite Z2Nat.id in Hc by lia.
Qed.

Lemma cell_at_fmap f cs i : in_cells cs i -> cell_at (f <$> cs) i = f (cell_at cs i).
Proof.
  intros H. pose proof (lookup_cell_at cs i H) as Hl. unfold cell_at at 1. destruct H as [H0 _].
  rewrite (proj2 (Z.leb_le 0 i)) by done. by rewrite list_lookup_fmap, Hl.
Qed.

Lemma in_fmap f cs j : in_cells (f <$> cs) j <-> in_cells cs j.
Proof. unfold in_cells. by rewrite length_fmap. Qed.

(** The steps of the code on cells are steps on the function. *)
Ltac cells_step :=
  repeat first
    [ rewrite get_cell by (rewrite ?in_put; done)
    | rewrite upd_cell by (rewrite ?in_put; done)
    | progress cbn [mbind res_bind] ].

(** *** Loops over the cells *)

Lemma each_cell_length {S} (f : S -> Z -> mem_cell -> S * mem_cell) cs : forall i s, length (each_cell f i cs s).2 = length cs.
Proof.
  induction cs as [|c cs IH]; intros i s; [done|]. cbn [each_cell]. destruct (f s i c) as [s' c'].
  specialize (IH (i + 1) s'). destruct (each_cell f (i + 1) cs s') as [s2 cs2]. cbn in *. by rewrite IH.
Qed.

(** Each cell is changed on its own, when the change does not depend on the other variables. *)
Lemma each_cell_at {S} (f : S -> Z -> mem_cell -> S * mem_cell) g cs : (forall s i c, (f s i c).2 = g i c) ->
  forall i s j, in_cells cs j -> cell_at (each_cell f i cs s).2 j = g (i + j) (cell_at cs j).
Proof.
  intros Hf. induction cs as [|c cs IH]; intros i s j Hj; [unfold in_cells in Hj; cbn in Hj; lia|].
  cbn [each_cell]. specialize (Hf s i c). destruct (f s i c) as [s' c']. cbn in Hf. subst c'.
  pose proof (IH (i + 1) s') as IH'. destruct (each_cell f (i + 1) cs s') as [s2 cs2]. cbn [snd] in *.
  unfold in_cells in Hj. cbn [length] in Hj. destruct (decide (j = 0)) as [->|Hne].
  - cbn. by rewrite Z.add_0_r.
  - specialize (IH' (j - 1)). unfold in_cells in IH'. unfold cell_at in *.
    rewrite (proj2 (Z.leb_le 0 j)) by lia. rewrite (proj2 (Z.leb_le 0 (j - 1))) in IH' by lia.
    replace (Z.to_nat j) with (Datatypes.S (Z.to_nat (j - 1))) by lia. cbn.
    etransitivity; [apply IH'; lia|]. f_equal. lia.
Qed.

Definition busy (c : mem_cell) : bool := negb (is_empty c).
Definition n_busy (cs : list mem_cell) : nat := length (filter busy cs).

Lemma n_busy_cons c cs : n_busy (c :: cs) = ((if busy c then 1 else 0) + n_busy cs)%nat.
Proof. unfold n_busy. rewrite filter_cons. by destruct (busy c). Qed.

Lemma n_busy_le cs : (n_busy cs <= length cs)%nat.
Proof. apply length_filter. Qed.

(** Two variables of such a loop: the count of busy cells and the first freed cell. *)
Lemma each_cell_vars (P : mem_cell -> Prop) (f : Z * Z -> Z -> mem_cell -> (Z * Z) * mem_cell) size cs :
  (forall used nh i c, P c -> (busy c = true -> 1 <= used < 2 ^ 32) ->
     let '((used', nh'), c') := f (used, nh) i c in
     used' = used - (if busy c then 1 else 0) + (if busy c' then 1 else 0) /\ (busy c' = true -> busy c = true) /\ (nh' = nh \/ nh' = i)) ->
  Forall P cs -> forall i k nh, 0 <= i -> i + Z.of_nat (length cs) <= size -> (nh = size \/ 0 <= nh < size) -> 0 <= k ->
  k + Z.of_nat (n_busy cs) < 2 ^ 32 ->
  let '((used', nh'), cs') := each_cell f i cs (k + Z.of_nat (n_busy cs), nh) in
  used' = k + Z.of_nat (n_busy cs') /\ (nh' = size \/ 0 <= nh' < size).
Proof.
  intros Hf HP. induction HP as [|c cs Hc HP IH]; intros i k nh Hi Hlen Hnh Hk Hbound; [by cbn|].
  cbn [each_cell]. rewrite n_busy_cons in *. cbn [length] in Hlen.
  pose proof (Hf (k + Z.of_nat ((if busy c then 1 else 0) + n_busy cs)) nh i c Hc) as H.
  destruct (f _ i c) as [[u1 nh1] c1]. destruct H as (Hu & Hb & Hn); [intros Hbc; rewrite Hbc in *; lia|].
  assert (Hu1 : u1 = (k + (if busy c1 then 1 else 0)) + Z.of_nat (n_busy cs)) by (rewrite Hu; destruct (busy c); lia).
  specialize (IH (i + 1) (k + (if busy c1 then 1 else 0)) nh1 ltac:(lia) ltac:(lia)). rewrite Hu1.

  destruct (each_cell f (i + 1) cs _) as [[u2 nh2] cs2].
  destruct IH as [IH1 IH2]; [destruct Hn as [->| ->]; [done|right; lia]|destruct (busy c1); lia|destruct (busy c1), (busy c); naive_solver lia|].
  split; [|done]. rewrite n_busy_cons, IH1. destruct (busy c1); lia.
Qed.

(** ** The invariant *)

(** The ids in a cell are the sequences whose tail it is; except for the sequences in [R],
    which have reserved an empty cell that is theirs alone. *)
Record own_ok (cs : list mem_cell) (R : gset Z) : Prop := {
  ow_tail : forall q, in_cells cs q -> tail_at cs q = -1 \/ in_cells cs (tail_at cs q);
  ow_ids : forall i x, in_cells cs i -> x ∈ ids_at cs i <-> (in_cells cs x /\ (x ∉ R) /\ tail_at cs x = i);
  ow_res : forall q, q ∈ R -> in_cells cs q /\ in_cells cs (tail_at cs q) /\
    forall q', in_cells cs q' -> tail_at cs q' = tail_at cs q -> q' = q;
}.

Lemma own_in cs R q : own_ok cs R -> in_cells cs q -> 0 <= tail_at cs q -> in_cells cs (tail_at cs q).
Proof. intros O Hq Ht. destruct (ow_tail cs R O q Hq); [lia|done]. Qed.

Lemma own_none cs R q : own_ok cs R -> in_cells cs q -> tail_at cs q < 0 -> tail_at cs q = -1.
Proof. intros O Hq Ht. destruct (ow_tail cs R O q Hq) as [|[? _]]; [done|lia]. Qed.

Section states.
Context {D : Type} (zero : D).

Definition row_at (rows : list D) (i : Z) : D := default zero (rows !! Z.to_nat i).

(** The state in a cell; and what sequence [q] sees: its position and its state. *)
Definition val_at (rows : list D) (c : mem_cell) : D := if mc_src c <? 0 then zero else row_at rows (mc_src c).

Definition view (cs : list mem_cell) (rows : list D) (q : Z) : option (Z * D) :=
  if decide (in_cells cs q /\ 0 <= tail_at cs q)
  then Some (pos_at cs (tail_at cs q), val_at rows (cell_at cs (tail_at cs q))) else None.

(** A free cell has no position and its state is the initial one; a busy cell has a position,
    and its state is in the row of its own number. *)
Record cells_ok (cs : list mem_cell) (rows : list D) : Prop := {
  ce_own : own_ok cs ∅;
  ce_free : forall i, in_cells cs i -> ids_at cs i = ∅ -> pos_at cs i = -1 /\ (src_at cs i = -1 \/ src_at cs i = i /\ row_at rows i = zero);
  ce_busy : forall i, in_cells cs i -> ids_at cs i <> ∅ -> 0 <= pos_at cs i <= INT32_MAX /\ src_at cs i = i;
}.

Record recr_ok (m : llama_memory_recurrent) (rows : list D) : Prop := {
  re_size : 0 < rs_size m < 2 ^ 31;
  re_head : 0 <= rs_head m < rs_size m;
  re_used : rs_used m = Z.of_nat (n_busy (rs_cells m));
  re_rows : length rows = length (rs_cells m);
  re_cells : cells_ok (rs_cells m) rows;
}.

Abbreviation rview m rows q := (view (rs_cells m) rows q).

Lemma view_some cs rows q : in_cells cs q -> 0 <= tail_at cs q ->
  view cs rows q = Some (pos_at cs (tail_at cs q), val_at rows (cell_at cs (tail_at cs q))).
Proof. intros H1 H2. unfold view. by rewrite decide_True. Qed.

Lemma view_none cs rows q : ~ in_cells cs q \/ tail_at cs q < 0 -> view cs rows q = None.
Proof. intros H. unfold view. rewrite decide_False; [done|]. intros [H1 H2]. destruct H; [done|lia]. Qed.

(** Two memories in which [q] sees the same. *)
Lemma view_ext cs cs' rows q : length cs' = length cs ->
  (in_cells cs q -> tail_at cs' q = tail_at cs q /\ (0 <= tail_at cs q ->
     pos_at cs' (tail_at cs q) = pos_at cs (tail_at cs q) /\ src_at cs' (tail_at cs q) = src_at cs (tail_at cs q))) ->
  view cs' rows q = view cs rows q.
Proof.
  intros Hl H. unfold view. assert (Hin : in_cells cs' q <-> in_cells cs q) by (unfold in_cells; by rewrite Hl).
  destruct (decide (in_cells cs q)) as [Hq|Hq].
  - destruct (H Hq) as [Ht Hp]. rewrite Ht. destruct (decide (0 <= tail_at cs q)) as [Ht0|Ht0].
    + rewrite !decide_True by tauto. destruct (Hp Ht0) as [-> Hs]. unfold val_at. by rewrite Hs.
    + rewrite !decide_False by tauto. done.
  - rewrite !decide_False by tauto. done.
Qed.

Lemma busy_ids c : busy c = true <-> mc_seq_id c <> ∅.
Proof. unfold busy, is_empty. rewrite negb_true_iff, bool_decide_eq_false. done. Qed.

Lemma not_busy_ids c : busy c = false <-> mc_seq_id c = ∅.
Proof. unfold busy, is_empty. rewrite negb_false_iff, bool_decide_eq_true. done. Qed.

(** The cell of a sequence is busy. *)
Lemma tail_busy cs q : own_ok cs ∅ -> in_cells cs q -> 0 <= tail_at cs q -> q ∈ ids_at cs (tail_at cs q).
Proof. intros O Hq Ht. apply (ow_ids cs ∅ O); [by eapply own_in|]. split_and!; [done|set_solver|done]. Qed.

Lemma ids_tail cs i x : own_ok cs ∅ -> in_cells cs i -> x ∈ ids_at cs i -> in_cells cs x /\ tail_at cs x = i.
Proof. intros O Hi Hx. apply (ow_ids cs ∅ O) in Hx as (? & _ & ?); done. Qed.

Lemma norm_ok p0 p1 p : 0 <= norm_p0 p0 /\ (p <= INT32_MAX -> p1 < 0 -> p < norm_p1 p1 \/ p = INT32_MAX).
Proof. unfold norm_p0, norm_p1. split; [destruct (Z.ltb_spec p0 0); lia|]. intros ? ?. rewrite (proj2 (Z.ltb_lt p1 0)) by done. lia. Qed.

Lemma move_head_ok m nh : 0 <= rs_head m < rs_size m -> nh = rs_size m \/ 0 <= nh < rs_size m -> 0 <= move_head m nh < rs_size m.
Proof. intros H1 H2. unfold move_head. destruct (_ && _) eqn:E; [|done]. lia. Qed.

(** ** Leaving and joining a cell *)

(** What cell [j] is when [q] has left its cell. *)
Definition leave (cs : list mem_cell) (q j : Z) : mem_cell :=
  let c := cell_at cs j in
  let c := if j =? tail_at cs q then
             let c := set_ids (mc_seq_id c ∖ {[ q ]}) c in
             if is_empty c then set_pos_src (-1) (-1) c else c
           else c in
  if j =? q then set_tail (-1) c else c.

Lemma leave_tail cs q j : mc_tail (leave cs q j) = if j =? q then -1 else tail_at cs j.
Proof. unfold leave. destruct (j =? q); [done|]. destruct (j =? _); [|done]. by destruct (is_empty _). Qed.

Lemma leave_ids cs q j : mc_seq_id (leave cs q j) = if j =? tail_at cs q then ids_at cs j ∖ {[ q ]} else ids_at cs j.
Proof. unfold leave. destruct (j =? q), (j =? _); try done; by destruct (is_empty _). Qed.

Lemma leave_pos cs q j : (j = tail_at cs q -> ids_at cs j ∖ {[ q ]} <> ∅) ->
  mc_pos (leave cs q j) = pos_at cs j /\ mc_src (leave cs q j) = src_at cs j.
Proof.
  intros H. unfold leave. destruct (Z.eqb_spec j (tail_at cs q)) as [He|]; [|by destruct (j =? q)].
  specialize (H He). unfold is_empty. cbn [mc_seq_id set_ids]. rewrite bool_decide_eq_false_2 by done. by destruct (j =? q).
Qed.

Lemma leave_pos_empty cs q j : j = tail_at cs q -> ids_at cs j ∖ {[ q ]} = ∅ ->
  mc_pos (leave cs q j) = -1 /\ mc_src (leave cs q j) = -1.
Proof.
  intros He H. unfold leave. rewrite (proj2 (Z.eqb_eq _ _) He). unfold is_empty. cbn [mc_seq_id set_ids].
  rewrite bool_decide_eq_true_2 by done. by destruct (j =? q).
Qed.

Lemma leave_ok cs cs' rows q : cells_ok cs rows -> in_cells cs q -> 0 <= tail_at cs q -> length cs' = length cs ->
  (forall j, in_cells cs j -> cell_at cs' j = leave cs q j) ->
  cells_ok cs' rows /\ (forall q', view cs' rows q' = if decide (q' = q) then None else view cs rows q').
Proof.
  intros [O F B] Hq Ht Hl Hc. assert (Hin : forall j, in_cells cs' j <-> in_cells cs j) by (intros j; unfold in_cells; by rewrite Hl).
  pose proof (own_in cs ∅ q O Hq Ht) as Htin.
  assert (Htail : forall j, in_cells cs j -> tail_at cs' j = if j =? q then -1 else tail_at cs j) by (intros j Hj; by rewrite Hc, leave_tail).
  assert (Hids : forall j, in_cells cs j -> ids_at cs' j = if j =? tail_at cs q then ids_at cs j ∖ {[ q ]} else ids_at cs j)
    by (intros j Hj; by rewrite Hc, leave_ids).
  split; [split; [split|..]|].
  - intros j Hj%Hin. rewrite Htail by done. destruct (j =? q); [by left|]. rewrite Hin. by apply (ow_tail cs ∅ O).
  - intros i x Hi%Hin. rewrite Hids, Hin by done. pose proof (ow_ids cs ∅ O i x Hi) as Ho.
    split.
    + intros Hx. destruct (Z.eqb_spec i (tail_at cs q)) as [->|Hne].
      * apply elem_of_difference in Hx as [Hx Hxq]. rewrite not_elem_of_singleton in Hxq.
        apply Ho in Hx as (H1 & H2 & H3). rewrite Htail by done. rewrite (proj2 (Z.eqb_neq x q)) by done. done.
      * apply Ho in Hx as (H1 & H2 & H3). rewrite Htail by done. destruct (Z.eqb_spec x q) as [->|]; [done|done].
    + intros (Hx & _ & H3). rewrite Htail in H3 by done. destruct (Z.eqb_spec x q) as [->|Hne].
      { subst i. destruct Hi as [Hi _]. lia. }
      assert (Hx' : x ∈ ids_at cs i) by (apply Ho; split_and!; [done|set_solver|done]).
      destruct (i =? _); [|done]. apply elem_of_difference. by rewrite not_elem_of_singleton.
  - intros x Hx. set_solver.
  - intros i Hi%Hin. rewrite Hids, Hc by done. intros He. destruct (Z.eqb_spec i (tail_at cs q)) as [Hi'|Hne].
    + destruct (leave_pos_empty cs q i Hi' He) as [-> ->]. split; [done|by left].
    + destruct (leave_pos cs q i) as [-> ->]; [done|]. by apply F.
  - intros i Hi%Hin. rewrite Hids, Hc by done. intros He.
    destruct (leave_pos cs q i) as [-> ->]; [intros Hi'; by rewrite (proj2 (Z.eqb_eq _ _) Hi') in He|].
    apply B; [done|]. destruct (i =? _); set_solver.
  - intros q'. destruct (decide (q' = q)) as [->|Hne].
    { apply view_none. right. rewrite Htail by done. rewrite Z.eqb_refl. lia. }
    apply view_ext; [done|]. intros Hq'. rewrite Htail by done. rewrite (proj2 (Z.eqb_neq q' q)) by done. split; [done|].
    intros Ht'. pose proof (own_in cs ∅ q' O Hq' Ht') as Hin'. rewrite Hc by done.
    apply leave_pos. intros He. pose proof (tail_busy cs q' O Hq' Ht'). set_solver.
Qed.

(** What cell [j] is when [q], which has no cell, joins the cell of [p]. *)
Definition join (cs : list mem_cell) (p q j : Z) : mem_cell :=
  let c := cell_at cs j in
  let c := if j =? tail_at cs p then set_ids ({[ q ]} ∪ mc_seq_id c) c else c in
  if j =? q then set_tail (tail_at cs p) c else c.

Lemma join_ok cs cs' rows p q : cells_ok cs rows -> in_cells cs p -> in_cells cs q -> 0 <= tail_at cs p -> tail_at cs q = -1 ->
  length cs' = length cs -> (forall j, in_cells cs j -> cell_at cs' j = join cs p q j) ->
  cells_ok cs' rows /\ (forall q', view cs' rows q' = if decide (q' = q) then view cs rows p else view cs rows q').
Proof.
  intros [O F B] Hp Hq Ht Hn Hl Hc. assert (Hin : forall j, in_cells cs' j <-> in_cells cs j) by (intros j; unfold in_cells; by rewrite Hl).
  pose proof (own_in cs ∅ p O Hp Ht) as Htin. pose proof (tail_busy cs p O Hp Ht) as Hpid.
  assert (Htail : forall j, in_cells cs j -> tail_at cs' j = if j =? q then tail_at cs p else tail_at cs j).
  { intros j Hj. rewrite Hc by done. unfold join. by destruct (j =? q), (j =? tail_at cs p). }
  assert (Hids : forall j, in_cells cs j -> ids_at cs' j = if j =? tail_at cs p then {[ q ]} ∪ ids_at cs j else ids_at cs j).
  { intros j Hj. rewrite Hc by done. unfold join. by destruct (j =? q), (j =? tail_at cs p). }
  assert (Hps : forall j, in_cells cs j -> pos_at cs' j = pos_at cs j /\ src_at cs' j = src_at cs j).
  { intros j Hj. rewrite Hc by done. unfold join. by destruct (j =? q), (j =? tail_at cs p). }
  split; [split; [split|..]|].
  - intros j Hj%Hin. rewrite Htail, Hin by done. destruct (j =? q); [by right|]. by apply (ow_tail cs ∅ O).
  - intros i x Hi%Hin. rewrite Hids, Hin by done. pose proof (ow_ids cs ∅ O i x Hi) as Ho. split.
    + intros Hx. assert (Hcase : (i = tail_at cs p /\ x = q) \/ x ∈ ids_at cs i).
      { destruct (Z.eqb_spec i (tail_at cs p)); set_solver. }
      destruct Hcase as [[-> ->]|Hx']; [by rewrite Htail, Z.eqb_refl by done|].
      apply Ho in Hx' as (H1 & H2 & H3). rewrite Htail by done. destruct (Z.eqb_spec x q) as [->|]; [|done].
      rewrite Hn in H3. subst i. destruct Hi as [Hi _]. lia.
    + intros (Hx & _ & H3). rewrite Htail in H3 by done. destruct (Z.eqb_spec x q) as [->|Hne].
      { rewrite (proj2 (Z.eqb_eq _ _)) by done. set_solver. }
      assert (Hx' : x ∈ ids_at cs i) by (apply Ho; split_and!; [done|set_solver|done]). destruct (i =? _); set_solver.
  - intros x Hx. set_solver.
  - intros i Hi%Hin. rewrite Hids by done. intros He. destruct (Hps i Hi) as [-> ->].
    destruct (i =? _); [exfalso; set_solver|]. by apply F.
  - intros i Hi%Hin. rewrite Hids by done. intros He. destruct (Hps i Hi) as [-> ->]. apply B; [done|].
    destruct (Z.eqb_spec i (tail_at cs p)) as [->|]; set_solver.
  - intros q'. destruct (decide (q' = q)) as [->|Hne].
    + rewrite !view_some; rewrite ?Hin, ?Htail, ?Z.eqb_refl by done; try done. unfold val_at. destruct (Hps _ Htin) as [-> ->]. done.
    + apply view_ext; [done|]. intros Hq'. rewrite Htail by done. rewrite (proj2 (Z.eqb_neq q' q)) by done. split; [done|].
      intros Ht'. apply Hps. by eapply own_in.
Qed.

(** ** The sequence operations *)

Lemma n_busy_put cs i f : in_cells cs i ->
  (n_busy (put cs i f) + (if busy (cell_at cs i) then 1 else 0) = n_busy cs + (if busy (f (cell_at cs i)) then 1 else 0))%nat.
Proof.
  intros Hi. pose proof (lookup_cell_at cs i Hi) as Hl. unfold put. revert Hl. generalize (cell_at cs i) (Z.to_nat i).
  induction cs as [|c cs IH]; intros x [|k] Hl; try done.
  - cbn in Hl. injection Hl as ->. cbn [insert list_insert]. rewrite !n_busy_cons. lia.
  - cbn in Hl. change (<[Datatypes.S k:=f x]> (c :: cs)) with (c :: <[k:=f x]> cs). rewrite !n_busy_cons.
    assert (IH' : forall x k, cs !! k = Some x -> (n_busy (<[k:=f x]> cs) + (if busy x then 1 else 0) = n_busy cs + (if busy (f x) then 1 else 0))%nat).
    { clear -f. induction cs as [|c' cs IH2]; intros y [|n] Hy; try done.
      - cbn in Hy. injection Hy as ->. cbn [insert list_insert]. rewrite !n_busy_cons. lia.
      - cbn in Hy. change (<[Datatypes.S n:=f y]> (c' :: cs)) with (c' :: <[n:=f y]> cs). rewrite !n_busy_cons. specialize (IH2 y n Hy). lia. }
    specialize (IH' x k Hl). lia.
Qed.

Lemma u32_id z : 0 <= z < 2 ^ 32 -> u32 z = z.
Proof. apply Z.mod_small. Qed.

Lemma busy_exists cs i : in_cells cs i -> busy (cell_at cs i) = true -> (0 < n_busy cs)%nat.
Proof.
  intros Hi Hb. unfold n_busy. apply lookup_cell_at, list_elem_of_lookup_2 in Hi.
  assert (cell_at cs i ∈ filter busy cs) as Hf by (apply list_elem_of_filter; rewrite Hb; done).
  destruct (filter busy cs); [set_solver|simpl; lia].
Qed.

(** [drop_tail] makes the sequence leave its cell. *)
Lemma drop_tail_ok cs rows used q : cells_ok cs rows -> in_cells cs q -> used = Z.of_nat (n_busy cs) -> Z.of_nat (length cs) < 2 ^ 31 ->
  exists cs' used', drop_tail (cs, used) q = Ok (cs', used') /\ cells_ok cs' rows /\ used' = Z.of_nat (n_busy cs') /\
    length cs' = length cs /\ (forall q', view cs' rows q' = if decide (q' = q) then None else view cs rows q') /\
    (forall q', in_cells cs q' -> tail_at cs' q' = if q' =? q then -1 else tail_at cs q').
Proof.
  intros C Hq Hu Hlen. pose proof (ce_own _ _ C) as O. unfold drop_tail. cells_step.
  destruct (Z.leb_spec 0 (tail_at cs q)) as [Ht|Ht].
  2: { exists cs, used. split_and!; try done; intros q'.
    - destruct (decide (q' = q)) as [->|]; [|done]. apply view_none. by right.
    - intros Hq'. destruct (Z.eqb_spec q' q) as [->|]; [|done]. by eapply own_none. }
  pose proof (own_in cs ∅ q O Hq Ht) as Htin. pose proof (tail_busy cs q O Hq Ht) as Hqt. cells_step.
  set (t := tail_at cs q) in *. set (erase := fun c => set_ids (mc_seq_id c ∖ {[ q ]}) c). set (cs1 := put cs t erase). set (cs2 := put cs1 q (set_tail (-1))).
  assert (Hin2 : forall j, in_cells cs2 j <-> in_cells cs j) by (intros j; unfold cs2, cs1; by rewrite !in_put).
  assert (Hlv : forall cs', cs' = (if is_empty (cell_at cs2 t) then put cs2 t (set_pos_src (-1) (-1)) else cs2) ->
    forall j, in_cells cs j -> cell_at cs' j = leave cs q j).
  { intros cs' -> j Hj. assert (H2 : forall j, in_cells cs j -> cell_at cs2 j =
      if decide (j = q) then set_tail (-1) (if decide (j = t) then erase (cell_at cs t) else cell_at cs j)
      else if decide (j = t) then erase (cell_at cs t) else cell_at cs j).
    { intros k Hk. unfold cs2, cs1. rewrite cell_at_put by (by rewrite in_put). rewrite !cell_at_put by done. by destruct (decide (k = q)) as [->|]. }
    assert (He : is_empty (cell_at cs2 t) = bool_decide (ids_at cs t ∖ {[ q ]} = ∅)).
    { rewrite H2 by done. rewrite (decide_True (P := t = t)) by done. by destruct (decide (t = q)). }
    unfold leave. fold t. rewrite He. destruct (bool_decide _) eqn:Eb.
    - rewrite cell_at_put by (by rewrite Hin2). rewrite !H2 by done. rewrite (decide_True (P := t = t)) by done.
      unfold is_empty. cbn [mc_seq_id set_ids].
      destruct (decide (j = t)) as [->|Hne]; [rewrite Z.eqb_refl, Eb|rewrite (proj2 (Z.eqb_neq j t)) by done].
      + by destruct (decide (t = q)), (Z.eqb_spec t q).
      + by destruct (decide (j = q)), (Z.eqb_spec j q).
    - rewrite H2 by done. unfold is_empty. cbn [mc_seq_id set_ids].
      destruct (decide (j = t)) as [->|Hne]; [rewrite Z.eqb_refl, Eb|rewrite (proj2 (Z.eqb_neq j t)) by done].
      + by destruct (decide (t = q)), (Z.eqb_spec t q).
      + by destruct (decide (j = q)), (Z.eqb_spec j q). }
  assert (Hbt : busy (cell_at cs t) = true) by (apply busy_ids; set_solver).
  assert (Hb2 : (n_busy cs2 + 1 = n_busy cs + (if is_empty (cell_at cs2 t) then 0 else 1))%nat).
  { pose proof (n_busy_put cs t erase Htin) as H1.
    assert (Hin1 : in_cells cs1 q) by (unfold cs1; by rewrite in_put).
    pose proof (n_busy_put cs1 q (set_tail (-1)) Hin1) as H2. fold cs1 in H1. fold cs2 in H2.
    rewrite Hbt in H1. change (busy (set_tail (-1) (cell_at cs1 q))) with (busy (cell_at cs1 q)) in H2.
    assert (He : busy (erase (cell_at cs t)) = negb (is_empty (cell_at cs2 t))).
    { unfold cs2. rewrite cell_at_put by done. unfold cs1. rewrite !cell_at_put by done. rewrite (decide_True (P := t = t)) by done.
      destruct (decide (t = q)) as [e|]; [|done]. rewrite <- e. by rewrite decide_True. }
    rewrite He in H1. destruct (is_empty (cell_at cs2 t)); cbn [negb] in H1; lia. }
  assert (Hpos : 0 < used).
  { pose proof (busy_exists cs t Htin Hbt). lia. }
  pose proof (n_busy_le cs).
  specialize (Hlv _ eq_refl). destruct (is_empty (cell_at cs2 t)) eqn:Ee.
  - set (cs3 := put cs2 t (set_pos_src (-1) (-1))) in *.
    assert (Hl3 : length cs3 = length cs) by (unfold cs3, cs2, cs1; by rewrite !length_put).
    destruct (leave_ok cs cs3 rows q C Hq Ht Hl3 Hlv) as [C3 V3]. exists cs3, (u32 (used - 1)). split_and!; try done.
    + rewrite u32_id by lia. pose proof (n_busy_put cs2 t (set_pos_src (-1) (-1)) ltac:(by rewrite Hin2)) as H3. fold cs3 in H3.
      change (busy (set_pos_src (-1) (-1) (cell_at cs2 t))) with (busy (cell_at cs2 t)) in H3. lia.
    + intros q' Hq'. by rewrite Hlv, leave_tail.
  - assert (Hl3 : length cs2 = length cs) by (unfold cs2, cs1; by rewrite !length_put).
    destruct (leave_ok cs cs2 rows q C Hq Ht Hl3 Hlv) as [C3 V3]. exists cs2, used. split_and!; try done.
    + lia.
    + intros q' Hq'. by rewrite Hlv, leave_tail.
Qed.

Lemma size_u32 cs q : Z.of_nat (length cs) < 2 ^ 31 -> - 2 ^ 31 <= q < 2 ^ 31 -> (u32 q <? Z.of_nat (length cs)) = bool_decide (in_cells cs q).
Proof.
  intros Hl Hq. unfold in_cells, u32. destruct (Z.leb_spec 0 q) as [H|H].
  - rewrite Z.mod_small by lia. destruct (Z.ltb_spec q (Z.of_nat (length cs))); [rewrite bool_decide_eq_true_2|rewrite bool_decide_eq_false_2]; lia.
  - rewrite bool_decide_eq_false_2 by lia. apply Z.ltb_ge. rewrite <- (Z.mod_add q 1 (2 ^ 32)) by lia. rewrite Z.mod_small by lia. lia.
Qed.

Lemma rebuild m rows head used n z cs : recr_ok m rows -> length cs = length (rs_cells m) -> 0 <= head < rs_size m ->
  used = Z.of_nat (n_busy cs) -> cells_ok cs rows ->
  recr_ok (Recurrent head used n z cs) rows /\ rs_size (Recurrent head used n z cs) = rs_size m.
Proof.
  intros [R1 R2 R3 R4 R5] Hl Hh Hu C. unfold rs_size in *. cbn [rs_cells]. rewrite Hl. split; [|done].
  split; unfold rs_size; cbn [rs_cells rs_head rs_used]; try rewrite Hl; done.
Qed.

(** *** [seq_cp] *)

Lemma recr_seq_cp_ok m rows src dst : recr_ok m rows -> src <> dst -> - 2 ^ 31 <= src < 2 ^ 31 -> - 2 ^ 31 <= dst < 2 ^ 31 ->
  exists m', recr_seq_cp m src dst = Ok m' /\ recr_ok m' rows /\ rs_size m' = rs_size m /\
    forall q, rview m' rows q =
      if decide (q = dst /\ in_cells (rs_cells m) dst /\ in_cells (rs_cells m) src) then rview m rows src else rview m rows q.
Proof.
  intros [R1 R2 R3 R4 R5] Hne Hs Hd. unfold recr_seq_cp. rewrite (proj2 (Z.eqb_neq src dst)) by done.
  unfold rs_size in *. rewrite !size_u32 by lia. destruct (decide (in_cells (rs_cells m) dst /\ in_cells (rs_cells m) src)) as [[Hdin Hsin]|Hno].
  2: { rewrite <- bool_decide_and, bool_decide_eq_false_2 by done. exists m. split_and!; try done.
    intros q. by rewrite decide_False by tauto. }
  rewrite !bool_decide_eq_true_2 by done. cbn [andb].
  destruct (drop_tail_ok (rs_cells m) rows (rs_used m) dst R5 Hdin R3) as (cs & used & -> & C & Hu & Hl & V & T); [lia|].
  cbn [mbind res_bind]. assert (Hin : forall j, in_cells cs j <-> in_cells (rs_cells m) j) by (intros j; unfold in_cells; by rewrite Hl).
  rewrite get_cell by (by apply Hin). cbn [mbind res_bind].
  assert (Ts : tail_at cs src = tail_at (rs_cells m) src) by (rewrite T by done; by rewrite (proj2 (Z.eqb_neq src dst))).
  assert (Td : tail_at cs dst = -1) by (rewrite T by done; by rewrite Z.eqb_refl).
  assert (Vs : view cs rows src = view (rs_cells m) rows src) by (rewrite V; by rewrite decide_False).
  pose proof (ce_own _ _ C) as O. destruct (Z.leb_spec 0 (tail_at cs src)) as [Ht|Ht].
  - pose proof (own_in cs ∅ src O (proj2 (Hin src) Hsin) Ht) as Htin.
    rewrite upd_cell by done. cbn [mbind res_bind]. rewrite upd_cell by (rewrite in_put; by apply Hin). cbn [mbind res_bind].
    set (cs1 := put (put cs (tail_at cs src) _) dst _).
    assert (Hl1 : length cs1 = length cs) by (unfold cs1; by rewrite !length_put).
    assert (Hj : forall j, in_cells cs j -> cell_at cs1 j = join cs src dst j).
    { intros j Hj. unfold cs1, join. rewrite cell_at_put by (rewrite in_put; by apply Hin). rewrite !cell_at_put by done.
      destruct (decide (j = dst)) as [->|Hne1]; [rewrite Z.eqb_refl|rewrite (proj2 (Z.eqb_neq j dst)) by done].
      all: by destruct (decide (_ = tail_at cs src)) as [e|Hne2]; [rewrite (proj2 (Z.eqb_eq _ _) e), ?e|rewrite (proj2 (Z.eqb_neq _ _) Hne2)]. }
    destruct (join_ok cs cs1 rows src dst C) as [C1 V1]; try done; [by apply Hin|by apply Hin|].
    eexists. split; [done|]. split; [split; unfold rs_size; cbn [rs_cells rs_head rs_used]|split; unfold rs_size; cbn [rs_cells]]; try lia; try done.
    + rewrite Hu. f_equal. unfold cs1.
      pose proof (n_busy_put (put cs (tail_at cs src) (fun c => set_ids ({[ dst ]} ∪ mc_seq_id c) c)) dst (set_tail (tail_at cs src)) ltac:(rewrite in_put; by apply Hin)) as H1.
      pose proof (n_busy_put cs (tail_at cs src) (fun c => set_ids ({[ dst ]} ∪ mc_seq_id c) c) Htin) as H2.
      assert (B1 : busy (cell_at cs (tail_at cs src)) = true).
      { apply busy_ids. pose proof (tail_busy cs src O (proj2 (Hin src) Hsin) Ht). set_solver. }
      assert (B2 : busy (set_ids ({[ dst ]} ∪ ids_at cs (tail_at cs src)) (cell_at cs (tail_at cs src))) = true) by (apply busy_ids; cbn; set_solver).
      change (busy (set_tail ?t ?c)) with (busy c) in H1. rewrite B1, B2 in H2. lia.
    + intros q. rewrite V1. destruct (decide (q = dst)) as [->|]; [by rewrite decide_True|]. rewrite decide_False by tauto.
      rewrite V. by rewrite decide_False.
  - eexists. split; [done|]. split; [split; unfold rs_size; cbn [rs_cells rs_head rs_used]|split; unfold rs_size; cbn [rs_cells]]; try lia; try done.
    intros q. rewrite V. destruct (decide (q = dst)) as [->|]; [|by rewrite decide_False by tauto].
    rewrite decide_True by done. symmetry. rewrite <- Vs. apply view_none. by right.
Qed.

(** *** [seq_rm] of one sequence *)

(** One cell of the loop, without the variables. *)
Definition rm_one (seq_id p0 p1 : Z) (c : mem_cell) : mem_cell :=
  if (p0 <=? mc_pos c) && (mc_pos c <? p1) && has_seq_id c seq_id then
    let c := set_ids (mc_seq_id c ∖ {[ seq_id ]}) c in
    if is_empty c then set_pos_src (-1) (-1) c else c
  else c.

Lemma rm_cell_one size seq_id p0 p1 s i c : 0 <= seq_id -> (recr_rm_cell size seq_id p0 p1 s i c).2 = rm_one seq_id p0 p1 c.
Proof.
  intros H. unfold recr_rm_cell, rm_one. destruct s as [used nh]. rewrite (proj2 (Z.ltb_ge seq_id 0)) by done. cbn [orb].
  destruct (_ && _); [|done]. cbn [andb]. destruct (has_seq_id c seq_id); [|done]. by destruct (is_empty _).
Qed.

Lemma rm_cell_vars size seq_id p0 p1 used nh i c : 0 <= seq_id -> 0 <= p0 -> (busy c = true -> 1 <= used < 2 ^ 32) ->
  let '((used', nh'), c') := recr_rm_cell size seq_id p0 p1 (used, nh) i c in
  used' = used - (if busy c then 1 else 0) + (if busy c' then 1 else 0) /\ (busy c' = true -> busy c = true) /\ (nh' = nh \/ nh' = i).
Proof.
  intros H Hp Hu. unfold recr_rm_cell. rewrite (proj2 (Z.ltb_ge seq_id 0)) by done. cbn [orb].
  destruct ((p0 <=? mc_pos c) && (mc_pos c <? p1)) eqn:Er; [|split_and!; [lia|done|by left]].
  destruct (has_seq_id c seq_id) eqn:Eh; [|split_and!; [lia|done|by left]].
  apply bool_decide_eq_true in Eh. assert (Hb : busy c = true) by (apply busy_ids; set_solver). specialize (Hu Hb). rewrite Hb.
  destruct (is_empty (set_ids _ c)) eqn:Ee.
  - assert (Hb' : busy (set_pos_src (-1) (-1) (set_ids (mc_seq_id c ∖ {[seq_id]}) c)) = false) by (apply not_busy_ids; by apply bool_decide_eq_true in Ee).
    rewrite Hb'. rewrite (proj2 (Z.leb_le 0 (mc_pos (set_ids _ c)))) by (cbn; lia). split_and!; [rewrite u32_id; lia|done|destruct (nh =? size); auto].
  - assert (Hb' : busy (set_ids (mc_seq_id c ∖ {[seq_id]}) c) = true) by (unfold busy; by rewrite Ee). rewrite Hb'. split_and!; [lia|done|by left].
Qed.

(** Equal cells, equal views. *)
Lemma cells_eq cs cs' : length cs' = length cs -> (forall j, in_cells cs j -> cell_at cs' j = cell_at cs j) -> cs' = cs.
Proof.
  intros Hl Hj. apply list_eq. intros i. destruct (decide (i < length cs)%nat) as [Hi|Hi].
  - assert (Hin : in_cells cs (Z.of_nat i)) by (unfold in_cells; lia). specialize (Hj _ Hin).
    assert (Hin' : in_cells cs' (Z.of_nat i)) by (unfold in_cells in *; lia).
    pose proof (lookup_cell_at cs _ Hin) as H1. pose proof (lookup_cell_at cs' _ Hin') as H2. rewrite Nat2Z.id in H1, H2. congruence.
  - rewrite !lookup_ge_None_2 by lia. done.
Qed.

Lemma cells_same cs cs' rows : length cs' = length cs -> (forall j, in_cells cs j -> cell_at cs' j = cell_at cs j) -> cells_ok cs rows ->
  cells_ok cs' rows /\ forall q, view cs' rows q = view cs rows q.
Proof. intros Hl Hj C. by rewrite (cells_eq cs cs' Hl Hj). Qed.

(** After the loop the cells are those that [seq_id] has left, or unchanged. *)
Lemma rm_cells m rows seq_id p0 p1 cs : recr_ok m rows -> 0 <= seq_id -> 0 <= p0 -> length cs = length (rs_cells m) -> n_busy cs = n_busy (rs_cells m) ->
  let '((used, nh), cs') := each_cell (recr_rm_cell (rs_size m) seq_id p0 p1) 0 cs (rs_used m, rs_size m) in
  used = Z.of_nat (n_busy cs') /\ (nh = rs_size m \/ 0 <= nh < rs_size m) /\ length cs' = length cs /\
  (forall j, in_cells cs j -> cell_at cs' j = rm_one seq_id p0 p1 (cell_at cs j)).
Proof.
  intros [R1 R2 R3 R4 R5] H0 Hp Hl Hb. pose proof (each_cell_length (recr_rm_cell (rs_size m) seq_id p0 p1) cs 0 (rs_used m, rs_size m)) as Hlen.
  pose proof (each_cell_at (recr_rm_cell (rs_size m) seq_id p0 p1) (fun _ => rm_one seq_id p0 p1) cs
    (fun s i c => rm_cell_one (rs_size m) seq_id p0 p1 s i c H0) 0 (rs_used m, rs_size m)) as Hat.
  pose proof (each_cell_vars (fun _ => True) (recr_rm_cell (rs_size m) seq_id p0 p1) (rs_size m) cs
    (fun used nh i c _ Hu => rm_cell_vars (rs_size m) seq_id p0 p1 used nh i c H0 Hp Hu) (Forall_true _ _ (fun _ => I)) 0 0 (rs_size m)) as Hv.
  pose proof (n_busy_le cs). unfold rs_size in *. rewrite Hb, Z.add_0_l, <- R3 in Hv.
  destruct (each_cell _ 0 cs _) as [[used nh] cs']. cbn [snd] in *. destruct Hv as [Hv1 Hv2]; [lia|lia|by left|lia|lia|].
  split_and!; [lia|done|done|done].
Qed.

(** The outcome: [None] if the range may not be removed. *)
Definition rm_outcome (v : option (Z * D)) (p0 p1 : Z) : option bool :=
  match v with
  | Some (p, _) => if (0 <? p0) && (p0 <=? p) && (p <? p1) then None else Some ((p0 <=? p) && (p <? p1))
  | None => Some false
  end.

Lemma recr_seq_rm_ok m rows seq_id p0 p1 : recr_ok m rows -> 0 <= seq_id ->
  exists m' ok, recr_seq_rm m seq_id p0 p1 = Ok (m', ok) /\ recr_ok m' rows /\ rs_size m' = rs_size m /\
    match rm_outcome (rview m rows seq_id) (norm_p0 p0) (norm_p1 p1) with
    | None => ok = false /\ m' = m
    | Some gone => ok = (seq_id <? rs_size m) /\ (ok = false -> m' = m) /\
        forall q, rview m' rows q = if decide (gone = true /\ q = seq_id) then None else rview m rows q
    end.
Proof.
  intros Hm H0. pose proof Hm as [R1 R2 R3 R4 R5]. unfold recr_seq_rm. destruct (norm_ok p0 p1 0) as [Hp0 _].
  set (a := norm_p0 p0) in *. set (b := norm_p1 p1).
  destruct (Z.leb_spec (rs_size m) seq_id) as [Hs|Hs].
  { exists m, false. split_and!; try done. rewrite view_none by (left; unfold in_cells; unfold rs_size in *; lia). cbn [rm_outcome].
    split_and!; [lia|done|]. intros q. by rewrite decide_False by (intros [? _]; done). }
  assert (Hin : in_cells (rs_cells m) seq_id) by (unfold in_cells, rs_size in *; lia).
  pose proof (ce_own _ _ R5) as O. unfold rm_tail. rewrite (proj2 (Z.leb_le 0 seq_id)) by done. cells_step.
  destruct (Z.leb_spec 0 (tail_at (rs_cells m) seq_id)) as [Ht|Ht].
  2: { (* no cell *)
    rewrite view_none by (by right). cbn [rm_outcome mbind res_bind].
    pose proof (rm_cells m rows seq_id a b (rs_cells m) Hm H0 Hp0 eq_refl eq_refl) as Hc.
    destruct (each_cell _ 0 _ _) as [[used nh] cs']. destruct Hc as (Hu & Hnh & Hl & Hj).
    assert (Hsame : forall j, in_cells (rs_cells m) j -> cell_at cs' j = cell_at (rs_cells m) j).
    { intros j Hjin. rewrite Hj by done. unfold rm_one, has_seq_id. rewrite (bool_decide_eq_false_2 (seq_id ∈ _)).
      - by rewrite andb_false_r.
      - intros Hx. apply (ids_tail _ _ _ O Hjin) in Hx as [_ Hx]. destruct Hjin. lia. }
    destruct (cells_same (rs_cells m) cs' rows Hl Hsame R5) as [C V].
    destruct (rebuild m rows (move_head m nh) used (rs_n m) (rs_rs_z m) cs' Hm) as [Hm' Hsz]; [done|by apply move_head_ok|done|done|].
    eexists _, true. split_and!; [done|exact Hm'|exact Hsz|symmetry; by apply Z.ltb_lt|done|]. intros q. rewrite decide_False by (intros [? _]; done). apply V. }
  pose proof (own_in _ _ _ O Hin Ht) as Htin. cells_step. rewrite view_some by done. cbn [rm_outcome].
  set (t := tail_at (rs_cells m) seq_id) in *.
  destruct ((0 <? a) && (a <=? pos_at (rs_cells m) t) && (pos_at (rs_cells m) t <? b)) eqn:Ep; [cbn [mbind res_bind]; eauto 10|].
  destruct ((a <=? pos_at (rs_cells m) t) && (pos_at (rs_cells m) t <? b)) eqn:Er; cbn [mbind res_bind].
  - set (cs1 := put (rs_cells m) seq_id (set_tail (-1))).
    assert (Hb1 : n_busy cs1 = n_busy (rs_cells m)).
    { pose proof (n_busy_put (rs_cells m) seq_id (set_tail (-1)) Hin) as H. change (busy (set_tail ?x ?c)) with (busy c) in H. unfold cs1. lia. }
    pose proof (rm_cells m rows seq_id a b cs1 Hm H0 Hp0 (length_put _ _ _) Hb1) as Hc.
    destruct (each_cell _ 0 _ _) as [[used nh] cs']. destruct Hc as (Hu & Hnh & Hl & Hj). unfold cs1 in Hl. rewrite length_put in Hl.
    assert (Er2 : forall j, j = t -> (a <=? pos_at (rs_cells m) j) && (pos_at (rs_cells m) j <? b) = true) by (by intros j ->).
    assert (Hm2 : forall j, j = t -> seq_id ∈ ids_at (rs_cells m) j) by (intros j ->; by apply tail_busy).
    assert (Hlv : forall j, in_cells (rs_cells m) j -> cell_at cs' j = leave (rs_cells m) seq_id j).
    { intros j Hjin. rewrite Hj by (unfold cs1; by rewrite in_put). unfold cs1. rewrite cell_at_put by done. unfold leave. fold t.
      destruct (decide (j = seq_id)) as [->|Hne]; [rewrite Z.eqb_refl|rewrite (proj2 (Z.eqb_neq _ _) Hne)]; unfold rm_one, has_seq_id; cbn [mc_pos mc_seq_id set_tail].
      - destruct (Z.eqb_spec seq_id t) as [He|Hnt].
        + rewrite (Er2 _ He), bool_decide_eq_true_2 by (by apply Hm2). cbn [andb].
          unfold is_empty. cbn [mc_seq_id set_ids]. by destruct (bool_decide _).
        + rewrite (bool_decide_eq_false_2 (seq_id ∈ _)), andb_false_r; [done|]. intros Hx. apply (ids_tail _ _ _ O Hjin) in Hx as [_ Hx]. exact (Hnt (eq_sym Hx)).
      - destruct (Z.eqb_spec j t) as [He|Hnt].
        + rewrite (Er2 _ He), bool_decide_eq_true_2 by (by apply Hm2). done.
        + rewrite (bool_decide_eq_false_2 (seq_id ∈ _)), andb_false_r; [done|]. intros Hx. apply (ids_tail _ _ _ O Hjin) in Hx as [_ Hx]. exact (Hnt (eq_sym Hx)). }
    destruct (leave_ok _ cs' rows seq_id R5 Hin Ht Hl Hlv) as [C V].
    destruct (rebuild m rows (move_head m nh) used (rs_n m) (rs_rs_z m) cs' Hm) as [Hm' Hsz]; [done|by apply move_head_ok|done|done|].
    eexists _, true. split_and!; [done|exact Hm'|exact Hsz|symmetry; by apply Z.ltb_lt|done|]. intros q. cbn [rs_cells]. rewrite V.
    destruct (decide (q = seq_id)) as [->|]; [by rewrite decide_True|by rewrite decide_False by tauto].
  - pose proof (rm_cells m rows seq_id a b (rs_cells m) Hm H0 Hp0 eq_refl eq_refl) as Hc.
    destruct (each_cell _ 0 _ _) as [[used nh] cs']. destruct Hc as (Hu & Hnh & Hl & Hj).
    destruct (cells_same (rs_cells m) cs' rows Hl) as [C V]; [|done|].
    { intros j Hjin. rewrite Hj by done. unfold rm_one, has_seq_id. destruct (decide (j = t)) as [->|Hne]; [by rewrite Er|].
      rewrite (bool_decide_eq_false_2 (seq_id ∈ _)), andb_false_r; [done|]. intros Hx. apply (ids_tail _ _ _ O Hjin) in Hx as [_ Hx]. exact (Hne (eq_sym Hx)). }
    destruct (rebuild m rows (move_head m nh) used (rs_n m) (rs_rs_z m) cs' Hm) as [Hm' Hsz]; [done|by apply move_head_ok|done|done|].
    eexists _, true. split_and!; [done|exact Hm'|exact Hsz|symmetry; by apply Z.ltb_lt|done|]. intros q. rewrite decide_False by (intros [? _]; done). apply V.
Qed.

(** *** [seq_keep], [clear] and the constructor *)

Definition keep_one (seq_id i : Z) (c : mem_cell) : mem_cell :=
  let c := if negb (i =? seq_id) then set_tail (-1) c else c in
  if negb (has_seq_id c seq_id) then set_ids ∅ (set_pos_src (-1) (-1) c) else set_ids {[ seq_id ]} c.

Lemma keep_one_ids seq_id i c : mc_seq_id (keep_one seq_id i c) = if has_seq_id c seq_id then {[ seq_id ]} else ∅.
Proof. unfold keep_one. destruct (negb (i =? seq_id)); unfold has_seq_id; cbn [mc_seq_id set_tail]; by destruct (bool_decide _). Qed.

Lemma keep_one_tail seq_id i c : mc_tail (keep_one seq_id i c) = if i =? seq_id then mc_tail c else -1.
Proof. unfold keep_one. destruct (i =? seq_id); cbn [negb]; unfold has_seq_id; cbn [mc_seq_id set_tail]; by destruct (bool_decide _). Qed.

Lemma keep_one_pos seq_id i c : mc_pos (keep_one seq_id i c) = (if has_seq_id c seq_id then mc_pos c else -1) /\
  mc_src (keep_one seq_id i c) = (if has_seq_id c seq_id then mc_src c else -1).
Proof. unfold keep_one. destruct (i =? seq_id); cbn [negb]; unfold has_seq_id; cbn [mc_seq_id set_tail]; by destruct (bool_decide _). Qed.

Lemma keep_cell_vars size seq_id used nh i c : (busy c = true -> 0 <= mc_pos c) -> (busy c = false -> mc_pos c = -1) ->
  (busy c = true -> 1 <= used < 2 ^ 32) ->
  let '((used', nh'), c') := keep_cell size seq_id (used, nh) i c in
  used' = used - (if busy c then 1 else 0) + (if busy c' then 1 else 0) /\ (busy c' = true -> busy c = true) /\ (nh' = nh \/ nh' = i).
Proof.
  intros Hb Hf Hu. unfold keep_cell. set (c1 := if negb (i =? seq_id) then set_tail (-1) c else c).
  assert (Hc1 : mc_pos c1 = mc_pos c /\ mc_seq_id c1 = mc_seq_id c) by (unfold c1; by destruct (negb _)). destruct Hc1 as [Hp1 Hi1].
  assert (Hbc : busy c1 = busy c) by (unfold busy, is_empty; by rewrite Hi1). unfold has_seq_id. rewrite Hp1, Hi1.
  destruct (bool_decide (seq_id ∈ mc_seq_id c)) eqn:Eh; cbn [negb].
  - apply bool_decide_eq_true in Eh. assert (busy c = true) as -> by (apply busy_ids; set_solver).
    assert (busy (set_ids {[seq_id]} c1) = true) as -> by (apply busy_ids; cbn; set_solver). split_and!; [lia|done|by left].
  - assert (busy (set_ids ∅ (set_pos_src (-1) (-1) c1)) = false) as -> by by apply not_busy_ids.
    destruct (busy c) eqn:Eb.
    + rewrite (proj2 (Z.leb_le 0 (mc_pos c))) by auto. specialize (Hu eq_refl). rewrite u32_id by lia. split_and!; [lia|done|destruct (nh =? size); auto].
    + rewrite Hf by done. split_and!; [cbn; lia|done|destruct (nh =? size); auto].
Qed.

Lemma keep_ok cs cs' rows seq_id : cells_ok cs rows -> length cs' = length cs ->
  (forall j, in_cells cs j -> cell_at cs' j = keep_one seq_id j (cell_at cs j)) ->
  cells_ok cs' rows /\ forall q, view cs' rows q = if decide (q = seq_id) then view cs rows q else None.
Proof.
  intros [O F B] Hl Hc. assert (Hin : forall j, in_cells cs' j <-> in_cells cs j) by (intros j; unfold in_cells; by rewrite Hl).
  assert (Hids : forall j, in_cells cs j -> ids_at cs' j = if has_seq_id (cell_at cs j) seq_id then {[ seq_id ]} else ∅)
    by (intros j Hj; by rewrite Hc, keep_one_ids).
  assert (Htail : forall j, in_cells cs j -> tail_at cs' j = if j =? seq_id then tail_at cs j else -1)
    by (intros j Hj; by rewrite Hc, keep_one_tail).
  assert (Hps : forall j, in_cells cs j -> seq_id ∈ ids_at cs j -> pos_at cs' j = pos_at cs j /\ src_at cs' j = src_at cs j).
  { intros j Hj Hx. rewrite Hc by done. destruct (keep_one_pos seq_id j (cell_at cs j)) as [-> ->].
    unfold has_seq_id. by rewrite bool_decide_eq_true_2. }
  split; [split; [split|..]|].
  - intros j Hj%Hin. rewrite Htail, Hin by done. destruct (j =? seq_id); [|by left]. by apply (ow_tail cs ∅ O).
  - intros i x Hi%Hin. rewrite Hids, Hin by done. pose proof (ow_ids cs ∅ O i) as Ho. unfold has_seq_id. split.
    + intros Hx. destruct (bool_decide _) eqn:E; [|set_solver]. apply bool_decide_eq_true in E. apply elem_of_singleton in Hx as ->.
      apply (Ho seq_id Hi) in E as (H1 & H2 & H3). rewrite Htail, Z.eqb_refl by done. done.
    + intros (Hx & _ & H3). rewrite Htail in H3 by done. destruct (Z.eqb_spec x seq_id) as [->|]; [|destruct Hi; lia].
      rewrite bool_decide_eq_true_2; [set_solver|]. apply Ho; [done|]. split_and!; [done|set_solver|done].
  - intros x Hx. set_solver.
  - intros i Hi%Hin. rewrite Hids, Hc by done. destruct (keep_one_pos seq_id i (cell_at cs i)) as [-> ->].
    destruct (has_seq_id _ _); [set_solver|]. intros _. split; [done|by left].
  - intros i Hi%Hin. rewrite Hids by done. destruct (has_seq_id (cell_at cs i) seq_id) eqn:E; [|done]. intros _.
    apply bool_decide_eq_true in E. destruct (Hps i Hi E) as [-> ->]. apply B; [done|set_solver].
  - intros q. destruct (decide (q = seq_id)) as [->|Hne].
    + apply view_ext; [done|]. intros Hq. rewrite Htail, Z.eqb_refl by done. split; [done|]. intros Ht.
      apply Hps; [by eapply own_in|by apply tail_busy].
    + destruct (decide (in_cells cs q)) as [Hq|Hq]; apply view_none; [right|left; by rewrite Hin].
      rewrite Htail by done. rewrite (proj2 (Z.eqb_neq q seq_id)) by done. lia.
Qed.

(** Every cell of a good memory. *)
Lemma cells_forall (P : mem_cell -> Prop) cs : (forall i, in_cells cs i -> P (cell_at cs i)) -> Forall P cs.
Proof.
  intros H. apply Forall_lookup. intros i c Hi. rewrite <- (cell_at_lookup cs i c Hi). apply H. unfold in_cells.
  apply lookup_lt_Some in Hi. lia.
Qed.

Lemma busy_pos cs rows : cells_ok cs rows ->
  Forall (fun c => (busy c = true -> 0 <= mc_pos c) /\ (busy c = false -> mc_pos c = -1)) cs.
Proof.
  intros [O F B]. apply cells_forall. intros i Hi. split.
  - intros Hb%busy_ids. by apply B.
  - intros Hb%not_busy_ids. by apply F.
Qed.

Lemma recr_seq_keep_ok m rows seq_id : recr_ok m rows ->
  recr_ok (recr_seq_keep m seq_id) rows /\ rs_size (recr_seq_keep m seq_id) = rs_size m /\
  forall q, rview (recr_seq_keep m seq_id) rows q = if decide (q = seq_id) then rview m rows q else None.
Proof.
  intros Hm. pose proof Hm as [R1 R2 R3 R4 R5]. unfold recr_seq_keep.
  pose proof (each_cell_length (keep_cell (rs_size m) seq_id) (rs_cells m) 0 (rs_used m, rs_size m)) as Hl.
  pose proof (each_cell_at (keep_cell (rs_size m) seq_id) (keep_one seq_id) (rs_cells m)) as Hat.
  pose proof (each_cell_vars _ (keep_cell (rs_size m) seq_id) (rs_size m) (rs_cells m)
    (fun used nh i c H => keep_cell_vars (rs_size m) seq_id used nh i c (proj1 H) (proj2 H)) (busy_pos _ _ R5) 0 0 (rs_size m)) as Hv.
  specialize (Hat (fun s i c => ltac:(destruct s; unfold keep_cell, keep_one; by destruct (has_seq_id _ _))) 0 (rs_used m, rs_size m)).
  pose proof (n_busy_le (rs_cells m)). unfold rs_size in R1. rewrite Z.add_0_l, <- R3 in Hv.
  destruct (each_cell _ 0 _ _) as [[used nh] cs']. cbn [snd] in *. destruct Hv as [Hv1 Hv2]; [lia|unfold rs_size; lia|by left|lia|lia|].
  destruct (keep_ok (rs_cells m) cs' rows seq_id R5 Hl) as [C V]; [by intros j Hj; rewrite Hat|].
  destruct (rebuild m rows (move_head m nh) used (rs_n m) (rs_rs_z m) cs' Hm) as [Hm' Hsz]; [done|by apply move_head_ok|lia|done|].
  by split_and!.
Qed.

(** Cells nobody uses. *)
Lemma free_cells_ok cs rows : (forall i, in_cells cs i -> ids_at cs i = ∅ /\ tail_at cs i = -1 /\ pos_at cs i = -1 /\ src_at cs i = -1) ->
  cells_ok cs rows /\ forall q, view cs rows q = None.
Proof.
  intros H. split; [split; [split|..]|].
  - intros q Hq. left. by apply H.
  - intros i x Hi. destruct (H i Hi) as [-> _]. split; [set_solver|]. intros (Hx & _ & Ht). destruct (H x Hx) as (_ & Ht' & _). destruct Hi. lia.
  - set_solver.
  - intros i Hi _. destruct (H i Hi) as (_ & _ & -> & ->). split; [done|by left].
  - intros i Hi Hne. by destruct (H i Hi) as [? _].
  - intros q. destruct (decide (in_cells cs q)) as [Hq|]; apply view_none; [right|by left]. destruct (H q Hq) as (_ & -> & _). lia.
Qed.

Lemma n_busy_free cs : (forall i, in_cells cs i -> ids_at cs i = ∅) -> n_busy cs = 0%nat.
Proof.
  intros H. assert (HF : Forall (fun c => busy c = false) cs) by (apply cells_forall; intros i Hi; apply not_busy_ids; auto).
  induction HF as [|c l Hc HF IH]; [done|]. rewrite n_busy_cons, Hc. apply IH. intros i Hi. apply not_busy_ids.
  rewrite Forall_forall in HF. apply HF. eapply list_elem_of_lookup_2, lookup_cell_at, Hi.
Qed.

Lemma recr_clear_ok m rows : recr_ok m rows ->
  recr_ok (recr_clear m) rows /\ rs_size (recr_clear m) = rs_size m /\ forall q, rview (recr_clear m) rows q = None.
Proof.
  intros Hm. unfold recr_clear. set (cs := _ <$> rs_cells m).
  assert (Hf : forall i, in_cells cs i -> ids_at cs i = ∅ /\ tail_at cs i = -1 /\ pos_at cs i = -1 /\ src_at cs i = -1).
  { intros i Hi. unfold cs in *. rewrite in_fmap in Hi. by rewrite cell_at_fmap. }
  destruct (free_cells_ok cs rows Hf) as [C V].
  destruct (rebuild m rows 0 0 (rs_n m) (rs_rs_z m) cs Hm) as [Hm' Hsz]; [by apply length_fmap|destruct Hm; lia| |done|by split_and!].
  rewrite n_busy_free; [done|]. intros i Hi. by apply Hf.
Qed.

Lemma recr_new_ok n rows : (0 < n)%nat -> Z.of_nat n < 2 ^ 31 -> length rows = n ->
  recr_ok (recr_new n) rows /\ forall q, rview (recr_new n) rows q = None.
Proof.
  intros H0 Hn Hl. unfold recr_new. set (cs := replicate n mem_cell_new). assert (Hlen : length cs = n) by apply length_replicate.
  assert (Hf : forall i, in_cells cs i -> ids_at cs i = ∅ /\ tail_at cs i = -1 /\ pos_at cs i = -1 /\ src_at cs i = -1).
  { intros i Hi. apply lookup_cell_at in Hi. apply lookup_replicate in Hi as [-> _]. done. }
  destruct (free_cells_ok cs rows Hf) as [C V]. split; [|done].
  split; unfold rs_size; cbn [rs_cells rs_head rs_used]; try lia; [|done]. rewrite n_busy_free; [done|]. intros i Hi. by apply Hf.
Qed.

(** *** Positions *)

(** Two sequences in one cell. *)
Definition shares (cs : list mem_cell) (q q' : Z) : Prop :=
  in_cells cs q /\ in_cells cs q' /\ 0 <= tail_at cs q /\ tail_at cs q' = tail_at cs q.

#[export] Instance shares_dec cs q q' : Decision (shares cs q q').
Proof. unfold shares. apply _. Defined.

(** [seq_add] and [seq_div] change the position of every sequence in the cell. *)
Definition shifted (v : option (Z * D)) (p : Z) : option (Z * D) := match v with Some (_, x) => Some (p, x) | None => None end.

Lemma change_pos_ok m rows q p0 p1 f : recr_ok m rows ->
  match rview m rows q with
  | Some (p, _) =>
      if decide (norm_p0 p0 <= p < norm_p1 p1)
      then forall p', f p = Ok p' -> 0 <= p' <= INT32_MAX ->
        exists m', change_pos m q p0 p1 f = Ok m' /\ recr_ok m' rows /\ rs_size m' = rs_size m /\
          forall q', rview m' rows q' = if decide (shares (rs_cells m) q q') then shifted (rview m rows q') p' else rview m rows q'
      else change_pos m q p0 p1 f = Ok m
  | None => change_pos m q p0 p1 f = Ok m
  end.
Proof.
  intros Hm. pose proof Hm as [R1 R2 R3 R4 R5]. pose proof (ce_own _ _ R5) as O. unfold change_pos.
  set (a := norm_p0 p0). set (b := norm_p1 p1).
  destruct (decide (in_cells (rs_cells m) q)) as [Hq|Hq].
  2: { rewrite view_none by (by left). destruct (a =? b); [done|]. assert ((0 <=? q) && (q <? rs_size m) = false) as ->; [|done].
    unfold in_cells, rs_size in *. lia. }
  assert ((0 <=? q) && (q <? rs_size m) = true) as -> by (unfold in_cells, rs_size in *; lia).
  destruct (Z.leb_spec 0 (tail_at (rs_cells m) q)) as [Ht|Ht].
  2: { rewrite view_none by (by right). destruct (a =? b); [done|]. cells_step. by rewrite (proj2 (Z.leb_gt 0 _)). }
  rewrite view_some by done. pose proof (own_in _ _ _ O Hq Ht) as Htin. cells_step. rewrite (proj2 (Z.leb_le 0 _)) by done. cells_step.
  set (t := tail_at (rs_cells m) q). unfold has_seq_id. rewrite bool_decide_eq_true_2 by (by apply tail_busy). cbn [andb].
  destruct (decide (a <= pos_at (rs_cells m) t < b)) as [Hr|Hr].
  2: { destruct (a =? b); [done|]. assert ((a <=? pos_at (rs_cells m) t) && (pos_at (rs_cells m) t <? b) = false) as ->; [lia|done]. }
  intros p' Hf Hp'. rewrite (proj2 (Z.eqb_neq a b)) by lia.
  assert ((a <=? pos_at (rs_cells m) t) && (pos_at (rs_cells m) t <? b) = true) as -> by lia. rewrite Hf. cells_step.
  set (cs' := put (rs_cells m) t (set_pos p')).
  assert (Hin : forall j, in_cells cs' j <-> in_cells (rs_cells m) j) by (intros j; apply in_put).
  assert (Hc : forall j, cell_at cs' j = if decide (j = t) then set_pos p' (cell_at (rs_cells m) t) else cell_at (rs_cells m) j) by (intros j; by apply cell_at_put).
  assert (Hti : forall j, tail_at cs' j = tail_at (rs_cells m) j /\ ids_at cs' j = ids_at (rs_cells m) j /\ src_at cs' j = src_at (rs_cells m) j).
  { intros j. rewrite Hc. by destruct (decide (j = t)) as [->|]. }
  assert (C : cells_ok cs' rows).
  { split; [split|..].
    - intros j Hj%Hin. destruct (Hti j) as [-> _]. rewrite Hin. by apply (ow_tail _ ∅ O).
    - intros i x Hi%Hin. destruct (Hti i) as (_ & -> & _). destruct (Hti x) as (-> & _). rewrite Hin. by apply (ow_ids _ ∅ O).
    - set_solver.
    - intros i Hi%Hin. destruct (Hti i) as (_ & -> & ->). intros He. rewrite Hc. destruct (decide (i = t)) as [->|]; [|by apply (ce_free _ _ R5)].
      pose proof (tail_busy _ q O Hq Ht) as H. fold t in H. set_solver.
    - intros i Hi%Hin. destruct (Hti i) as (_ & -> & ->). intros He. destruct (ce_busy _ _ R5 i Hi He) as [H1 H2]. split; [|done].
      rewrite Hc. by destruct (decide (i = t)). }
  destruct (rebuild m rows (rs_head m) (rs_used m) (rs_n m) (rs_rs_z m) cs' Hm) as [Hm' Hsz]; [by apply length_put|done| |done|].
  { rewrite R3. f_equal. pose proof (n_busy_put (rs_cells m) t (set_pos p') Htin) as H. change (busy (set_pos ?x ?c)) with (busy c) in H. fold cs' in H. lia. }
  eexists. split; [done|]. split; [exact Hm'|]. split; [exact Hsz|]. intros q'. cbn [rs_cells].
  destruct (decide (shares (rs_cells m) q q')) as [(_ & Hq' & _ & He)|Hns].
  - rewrite !view_some; rewrite ?Hin; try done; [|by rewrite He|by destruct (Hti q') as [-> _]; rewrite He].
    destruct (Hti q') as [-> _]. rewrite He. fold t. cbn [shifted]. rewrite Hc, decide_True by done. done.
  - apply view_ext; [apply length_put|]. intros Hq'. destruct (Hti q') as [-> _]. split; [done|]. intros Ht'.
    rewrite Hc. rewrite decide_False; [done|]. intros He. apply Hns. done.
Qed.

(** A fold over the cells of a sequence sees its one cell. *)
Lemma fold_one {A} (f : A -> mem_cell -> A) cs q a : own_ok cs ∅ -> in_cells cs q -> 0 <= tail_at cs q ->
  foldl (fun r c => if has_seq_id c q then f r c else r) a cs = f a (cell_at cs (tail_at cs q)).
Proof.
  intros O Hq Ht. pose proof (own_in _ _ _ O Hq Ht) as Htin. set (t := tail_at cs q) in *.
  assert (Hno : forall l, (forall c, c ∈ l -> q ∉ mc_seq_id c) -> forall a, foldl (fun r c => if has_seq_id c q then f r c else r) a l = a).
  { induction l as [|c l IH]; intros Hl b; [done|]. cbn. unfold has_seq_id at 2. rewrite bool_decide_eq_false_2 by (apply Hl; set_solver).
    apply IH. intros c' Hc'. apply Hl. set_solver. }
  assert (Hne : forall j c, cs !! j = Some c -> Z.of_nat j <> t -> q ∉ mc_seq_id c).
  { intros j c Hj Hjt Hx. rewrite <- (cell_at_lookup _ _ _ Hj) in Hx. apply (ids_tail _ _ _ O) in Hx as [_ Hx]; [by fold t in Hx|].
    unfold in_cells. apply lookup_lt_Some in Hj. lia. }
  pose proof (lookup_cell_at cs t Htin) as Hl. rewrite <- (take_drop_middle _ _ _ Hl) at 1. rewrite foldl_app. cbn [foldl].
  rewrite Hno. 2: { intros c [j Hj]%list_elem_of_lookup. rewrite lookup_drop in Hj. apply (Hne _ c Hj). destruct Htin. lia. }
  rewrite Hno. 2: { intros c [j Hj]%list_elem_of_lookup. apply lookup_take_Some in Hj as [Hj Hlt]. apply (Hne j c Hj). destruct Htin. lia. }
  unfold has_seq_id. by rewrite bool_decide_eq_true_2 by by apply tail_busy.
Qed.

Lemma fold_none {A} (f : A -> mem_cell -> A) cs q a : own_ok cs ∅ -> (~ in_cells cs q \/ tail_at cs q < 0) ->
  foldl (fun r c => if has_seq_id c q then f r c else r) a cs = a.
Proof.
  intros O H. assert (HF : Forall (fun c => q ∉ mc_seq_id c) cs).
  { apply cells_forall. intros i Hi Hx. apply (ids_tail _ _ _ O Hi) in Hx as [Hq Ht]. destruct H; [done|]. destruct Hi. lia. }
  clear -HF. revert a. induction HF as [|c l Hc HF IH]; intros a; [done|]. cbn. unfold has_seq_id at 2. rewrite bool_decide_eq_false_2 by done. apply IH.
Qed.

Lemma recr_seq_pos_ok m rows q : recr_ok m rows ->
  recr_seq_pos_max m q = match rview m rows q with Some (p, _) => p | None => -1 end /\
  recr_seq_pos_min m q = match rview m rows q with Some (p, _) => if p =? INT32_MAX then -1 else p | None => -1 end.
Proof.
  intros [R1 R2 R3 R4 R5]. pose proof (ce_own _ _ R5) as O. unfold recr_seq_pos_max, recr_seq_pos_min, view.
  destruct (decide _) as [[Hq Ht]|Hn].
  - rewrite !(fold_one _ _ q _ O Hq Ht). pose proof (own_in _ _ _ O Hq Ht) as Htin.
    destruct (ce_busy _ _ R5 _ Htin) as [Hp _]; [pose proof (tail_busy _ q O Hq Ht); set_solver|].
    rewrite Z.max_r, Z.min_r by lia. done.
  - assert (~ in_cells (rs_cells m) q \/ tail_at (rs_cells m) q < 0).
    { destruct (decide (in_cells (rs_cells m) q)); [right|by left]. destruct (Z.ltb_spec (tail_at (rs_cells m) q) 0); [done|tauto]. }
    rewrite !(fold_none _ _ q) by done. done.
Qed.

End states.

Arguments cells_ok {D} zero cs rows.
Arguments recr_ok {D} zero m rows.
Arguments view {D} zero cs rows q.
Arguments val_at {D} zero rows c.
Arguments row_at {D} zero rows i.
