(* ===== verification/RsSlot.v ===== *)
(** * The recurrent memory: [find_slot] never fails and keeps every state

    For a micro-batch of disjoint sequence sets whose ids have cells: the phases of [find_slot]
    one by one.  [mid] is what holds between them. *)
From S2P Require Export RsTheory.
From S2P Require Import Prelude Batch KvCache.

(** ** Counting *)

(** A function does not cover a finite set without one of its elements. *)
Lemma pigeon (l : list Z) (f : Z -> Z) x : NoDup l -> x ∈ l -> (forall y, y ∈ l -> exists z, z ∈ l /\ z <> x /\ f z = y) -> False.
Proof.
  intros Hnd Hx H. set (l' := filter (fun z => z <> x) l).
  assert (Hlen : (length l' < length l)%nat).
  { unfold l'. clear -Hx. induction l as [|y l IH]; [set_solver|]. rewrite filter_cons. cbn [length]. destruct (decide (y <> x)) as [Hy|Hy].
    - apply elem_of_cons in Hx as [->|Hx]; [done|]. specialize (IH Hx). simpl. lia.
    - pose proof (length_filter (fun z => z <> x) l). lia. }
  assert (Hsub : l ⊆ f <$> l').
  { intros y Hy. destruct (H y Hy) as (z & Hz & Hne & <-). apply list_elem_of_fmap. exists z. split; [done|]. unfold l'. by apply list_elem_of_filter. }
  pose proof (submseteq_length _ _ (NoDup_submseteq _ _ Hnd Hsub)) as H'. rewrite length_fmap in H'. lia.
Qed.

(** A cell that is no sequence's tail. *)
Definition avail (cs : list mem_cell) (i : Z) : Prop :=
  in_cells cs i /\ Forall (fun q => tail_at cs q <> i) (seqZ 0 (Z.of_nat (length cs))).

#[export] Instance avail_dec cs i : Decision (avail cs i).
Proof. unfold avail. apply _. Defined.

Lemma elem_of_range_cells_Z cs q : q ∈ seqZ 0 (Z.of_nat (length cs)) <-> in_cells cs q.
Proof. rewrite elem_of_seqZ. unfold in_cells. lia. Qed.

Lemma avail_spec cs i : avail cs i <-> in_cells cs i /\ forall q, in_cells cs q -> tail_at cs q <> i.
Proof. unfold avail. rewrite Forall_forall. by setoid_rewrite elem_of_range_cells_Z. Qed.

Lemma avail_or cs : (exists i, avail cs i) \/ (forall i, ~ avail cs i).
Proof.
  destruct (decide (Exists (avail cs) (seqZ 0 (Z.of_nat (length cs))))) as [H|H].
  - apply Exists_exists in H as (i & _ & Hi). by left; exists i.
  - right. intros i Hi. apply H, Exists_exists. exists i. split; [|done]. apply elem_of_range_cells_Z, Hi.
Qed.

(** A sequence without a cell of its own finds one. *)
Lemma avail_exists cs R q : own_ok cs R -> in_cells cs q ->
  (tail_at cs q < 0 \/ exists q', in_cells cs q' /\ q' <> q /\ tail_at cs q' = tail_at cs q) -> exists i, avail cs i.
Proof.
  intros O Hq Hno. destruct (avail_or cs) as [H|H]; [done|]. exfalso.
  apply (pigeon (seqZ 0 (Z.of_nat (length cs))) (fun q => tail_at cs q) q); [apply NoDup_seqZ|by apply elem_of_range_cells_Z|].
  intros y Hy%elem_of_range_cells_Z. assert (Hc : exists z, in_cells cs z /\ tail_at cs z = y).
  { specialize (H y). rewrite avail_spec in H.
    destruct (decide (Exists (fun q => tail_at cs q = y) (seqZ 0 (Z.of_nat (length cs))))) as [He|He].
    - apply Exists_exists in He as (z & Hz%elem_of_range_cells_Z & Hzy). by exists z.
    - exfalso. apply H. split; [done|]. intros z Hz Hzy. apply He, Exists_exists. exists z. by rewrite elem_of_range_cells_Z. }
  destruct Hc as (z & Hz & Hzy). destruct (decide (z = q)) as [->|Hne].
  - destruct Hno as [Hn|(q' & Hq' & Hne & He)]; [destruct Hy; lia|]. exists q'. by rewrite elem_of_range_cells_Z, He.
  - exists z. by rewrite elem_of_range_cells_Z.
Qed.

(** ** The search for empty cells *)

Section search.
Context (cs : list mem_cell) (Hn : (0 < length cs)%nat).
Abbreviation N := (Z.of_nat (length cs)).

Lemma mod_in z : in_cells cs (z mod N).
Proof. unfold in_cells. apply Z.mod_pos_bound. lia. Qed.

Lemma wrap_mod e : 0 <= e <= N -> wrap cs e = e mod N.
Proof.
  intros H. unfold wrap. destruct (Z.leb_spec N e).
  - replace e with N by lia. rewrite Z.sub_diag, Z.mod_same by lia. done.
  - by rewrite Z.mod_small by lia.
Qed.

Lemma next_empty_spec k : forall e, in_cells cs e -> exists e', next_empty k cs e = Ok e' /\ in_cells cs e' /\
  ((exists d, 1 <= d <= Z.of_nat k /\ e' = (e + d) mod N /\ ids_at cs e' = ∅ /\ forall d', 1 <= d' < d -> ids_at cs ((e + d') mod N) <> ∅) \/
   (forall d, 1 <= d <= Z.of_nat k -> ids_at cs ((e + d) mod N) <> ∅)).
Proof.
  induction k as [|k IH]; intros e He.
  { exists e. split_and!; [done|done|]. right. lia. }
  cbn [next_empty]. rewrite wrap_mod by (unfold in_cells in He; lia). pose proof (mod_in (e + 1)) as H1. cells_step.
  unfold is_empty. destruct (bool_decide (ids_at cs ((e + 1) mod N) = ∅)) eqn:Eb.
  - apply bool_decide_eq_true in Eb. eexists. split_and!; [done|done|]. left. exists 1. split_and!; [lia|lia|done|done|lia].
  - apply bool_decide_eq_false in Eb. destruct (IH _ H1) as (e' & He' & Hin & Hd). exists e'. split_and!; [done|done|].
    assert (Hmod : forall d, ((e + 1) mod N + d) mod N = (e + (d + 1)) mod N) by (intros d; rewrite Zplus_mod_idemp_l; f_equal; lia).
    destruct Hd as [(d & Hd & -> & Hemp & Hall)|Hall].
    + left. exists (d + 1). rewrite Hmod in *. split_and!; [lia|lia|done|done|]. intros d' Hd'. destruct (decide (d' = 1)) as [->|]; [done|].
      specialize (Hall (d' - 1)). rewrite Hmod in Hall. replace (d' - 1 + 1) with d' in Hall by lia. apply Hall. lia.
    + right. intros d Hd. destruct (decide (d = 1)) as [->|]; [done|].
      specialize (Hall (d - 1)). rewrite Hmod in Hall. replace (d - 1 + 1) with d in Hall by lia. apply Hall. lia.
Qed.

Lemma find_empty_spec k : forall e, 0 <= e <= N -> exists e', find_empty k cs e = Ok e' /\
  ((in_cells cs e' /\ ids_at cs e' = ∅) \/ (forall d, 0 <= d < Z.of_nat k -> ids_at cs ((e + d) mod N) <> ∅)).
Proof.
  induction k as [|k IH]; intros e He.
  { exists e. split; [done|]. right. lia. }
  cbn [find_empty]. rewrite wrap_mod by done. pose proof (mod_in e) as H1. cells_step.
  unfold is_empty. destruct (bool_decide (ids_at cs (e mod N) = ∅)) eqn:Eb.
  - apply bool_decide_eq_true in Eb. eexists. split; [done|]. by left.
  - apply bool_decide_eq_false in Eb. destruct (IH (e mod N + 1)) as (e' & He' & Hd); [unfold in_cells in H1; lia|]. exists e'. split; [done|].
    destruct Hd as [?|Hall]; [by left|right]. intros d Hd. destruct (decide (d = 0)) as [->|]; [by rewrite Z.add_0_r|].
    specialize (Hall (d - 1)). replace (e mod N + 1 + (d - 1)) with (e mod N + d) in Hall by lia. rewrite Zplus_mod_idemp_l in Hall. apply Hall. lia.
Qed.

(** The distance of a cell from where the search began. *)
Definition dist (e0 i : Z) : Z := (i - e0) mod N.

Lemma dist_range e0 i : 0 <= dist e0 i < N.
Proof. apply Z.mod_pos_bound. lia. Qed.

Lemma dist_inj e0 i j : in_cells cs i -> in_cells cs j -> dist e0 i = dist e0 j -> i = j.
Proof.
  unfold in_cells, dist. intros Hi Hj H. assert (Hz : (i - j) mod N = 0).
  { replace (i - j) with ((i - e0) - (j - e0)) by lia. rewrite Zminus_mod, H, Z.sub_diag. apply Z.mod_0_l. lia. }
  apply Z.mod_divide in Hz; [|lia]. destruct Hz as [k Hk]. assert (k = 0) as ->; [|lia]. clear H Hn. generalize dependent N. intros n Hi Hj Hk. assert (-1 < k) by (apply (Z.mul_lt_mono_pos_r n); lia). assert (k < 1) by (apply (Z.mul_lt_mono_pos_r n); lia). lia.
Qed.

Lemma dist_step e0 e d : in_cells cs e -> 0 <= d -> dist e0 e + d < N -> dist e0 ((e + d) mod N) = dist e0 e + d.
Proof.
  intros He Hd Hlt. unfold dist in *. rewrite Zminus_mod_idemp_l. replace (e + d - e0) with ((e - e0) + d) by lia.
  rewrite <- Zplus_mod_idemp_l. apply Z.mod_small. pose proof (Z.mod_pos_bound (e - e0) N). lia.
Qed.

Lemma dist_reach e0 e i : in_cells cs e -> in_cells cs i -> dist e0 e <= dist e0 i -> (e + (dist e0 i - dist e0 e)) mod N = i.
Proof.
  intros He Hi Hle. apply (dist_inj e0); [apply mod_in|done|]. pose proof (dist_range e0 i). rewrite dist_step; [lia|done|lia|lia].
Qed.

End search.

(** ** What holds between the phases *)

Section phases.
Context {D : Type} (zero : D) (rows : list D) (cs0 : list mem_cell).
Abbreviation N := (Z.of_nat (length cs0)).

(** Compared with the cells [cs0] before: the sequences in [R] have got an empty cell with the
    initial state, the others see what they saw before, and cells outside of [mn .. mx] still
    have their own source. *)
Record mid (cs : list mem_cell) (R : gset Z) (mn mx : Z) : Prop := {
  mi_len : length cs = length cs0;
  mi_own : own_ok cs R;
  mi_keep : forall q, in_cells cs q -> q ∉ R ->
    (tail_at cs0 q < 0 -> tail_at cs q = -1) /\
    (0 <= tail_at cs0 q -> 0 <= tail_at cs q /\ pos_at cs (tail_at cs q) = pos_at cs0 (tail_at cs0 q) /\
                           src_at cs (tail_at cs q) = src_at cs0 (tail_at cs0 q));
  mi_res : forall q, q ∈ R -> tail_at cs0 q < 0;
  mi_free : forall i, in_cells cs i -> ids_at cs i = ∅ ->
    pos_at cs i = -1 /\ val_at zero rows (cell_at cs i) = zero /\ (src_at cs i = -1 \/ in_cells cs (src_at cs i));
  mi_busy : forall i, in_cells cs i -> ids_at cs i <> ∅ -> 0 <= pos_at cs i <= INT32_MAX /\ in_cells cs (src_at cs i);
  mi_out : forall i, in_cells cs i -> ~ (mn <= i <= mx) -> src_at cs i = -1 \/ src_at cs i = i;
}.

Lemma mid_in cs R mn mx i : mid cs R mn mx -> in_cells cs i <-> in_cells cs0 i.
Proof. intros M. unfold in_cells. by rewrite (mi_len _ _ _ _ M). Qed.

Lemma mid_start : cells_ok zero cs0 rows -> mid cs0 ∅ (N - 1) 0.
Proof.
  intros [O F B]. split; try done.
  - intros q Hq _. split; [|done]. by apply (own_none _ _ _ O).
  - intros i Hi He. destruct (F i Hi He) as [Hp Hs]. split; [done|]. unfold val_at.
    destruct Hs as [-> | [-> Hz]]; [split; [done|by left]|]. split; [|by right].
    rewrite (proj2 (Z.ltb_ge _ _)); [done|]. destruct Hi; lia.
  - intros i Hi He. destruct (B i Hi He) as [Hp ->]. done.
  - intros i Hi _. destruct (decide (ids_at cs0 i = ∅)) as [He|He].
    + destruct (F i Hi He) as [_ [H|[H _]]]; auto.
    + right. by apply B.
Qed.

(** The processed sequences have a cell of their own in the range. *)
Definition homed (cs : list mem_cell) (mn mx : Z) (P : list Z) : Prop :=
  forall q, q ∈ P -> in_cells cs q /\ in_cells cs (tail_at cs q) /\ mn <= tail_at cs q <= mx /\
    forall q', in_cells cs q' -> tail_at cs q' = tail_at cs q -> q' = q.

(** The search is at the next available cell, if there is one. *)
Definition search_ok (e0 : Z) (cs : list mem_cell) (R : gset Z) (e : Z) : Prop :=
  (forall i, ~ avail cs i) \/
  (avail cs e /\ (forall q, q ∈ R -> dist cs e0 (tail_at cs q) < dist cs e0 e) /\ forall i, avail cs i -> dist cs e0 e <= dist cs e0 i).

(** Ids of an empty cell. *)
Lemma empty_free cs R i : own_ok cs R -> in_cells cs i -> ids_at cs i = ∅ -> avail cs i \/ exists q, q ∈ R /\ tail_at cs q = i.
Proof.
  intros O Hi He. destruct (decide (avail cs i)) as [Ha|Ha]; [by left|right].
  unfold avail in Ha. assert (Hex : Exists (fun q => tail_at cs q = i) (seqZ 0 (Z.of_nat (length cs)))).
  { destruct (decide (Exists (fun q => tail_at cs q = i) (seqZ 0 (Z.of_nat (length cs))))) as [|Hno]; [done|]. exfalso. apply Ha. split; [done|].
    apply Forall_forall. intros q Hq Ht. apply Hno, Exists_exists. by exists q. }
  apply Exists_exists in Hex as (q & Hq%elem_of_range_cells_Z & Ht). exists q. split; [|done].
  destruct (decide (q ∈ R)) as [|HR]; [done|]. assert (q ∈ ids_at cs i); [|set_solver]. by apply (ow_ids _ _ O).
Qed.

Lemma avail_empty cs R i : own_ok cs R -> avail cs i -> ids_at cs i = ∅.
Proof.
  intros O Ha%avail_spec. destruct Ha as [Hi Ha]. apply set_eq. intros x. split; [|set_solver].
  intros Hx. apply (ow_ids _ _ O) in Hx as (H1 & _ & H2); [|done]. by destruct (Ha x H1).
Qed.

Lemma mid_mono cs R mn mx mn' mx' : mid cs R mn mx -> mn' <= mn -> mx <= mx' -> mid cs R mn' mx'.
Proof. intros [] H1 H2. split; try done. intros i Hi Hn. apply mi_out0; [done|]. lia. Qed.

Lemma placed_mono cs mn mx mn' mx' P : homed cs mn mx P -> mn' <= mn -> mx <= mx' -> homed cs mn' mx' P.
Proof. intros H H1 H2 q Hq. destruct (H q Hq) as (? & ? & ? & ?). split_and!; [done|done|lia|lia|done]. Qed.

(** *** Does a sequence own its cell? *)

Lemma owns_cell_ok cs R mn mx q : mid cs R mn mx -> in_cells cs q -> q ∉ R ->
  exists b, owns_cell cs q = Ok b /\
    (b = true -> in_cells cs (tail_at cs q) /\ forall q', in_cells cs q' -> tail_at cs q' = tail_at cs q -> q' = q) /\
    (b = false -> tail_at cs q < 0 \/ exists q', q' ∈ ids_at cs (tail_at cs q) /\ q' <> q).
Proof.
  intros M Hq HR. pose proof (mi_own _ _ _ _ M) as O. unfold owns_cell. cells_step.
  destruct (Z.leb_spec 0 (tail_at cs q)) as [Ht|Ht]; [|exists false; split_and!; [done|done|by left]].
  pose proof (own_in _ _ _ O Hq Ht) as Htin. cells_step.
  assert (Hid : q ∈ ids_at cs (tail_at cs q)) by by apply (ow_ids _ _ O).
  unfold has_seq_id. rewrite bool_decide_eq_true_2 by done. cbn [assert_ mbind res_bind]. eexists. split; [done|]. split.
  - intros Hs%Nat.eqb_eq. apply size_1_elem_of in Hs as [x Hx]. split; [done|]. intros q' Hq' He.
    assert (Hq'R : q' ∉ R). { intros Hr. destruct (ow_res _ _ O q' Hr) as (_ & _ & H). by rewrite (H q Hq (eq_sym He)) in HR. }
    assert (Hid' : q' ∈ ids_at cs (tail_at cs q)) by (apply (ow_ids _ _ O); done).
    rewrite Hx in Hid, Hid'. apply elem_of_singleton in Hid, Hid'. congruence.
  - intros Hs%Nat.eqb_neq. right. destruct (decide (ids_at cs (tail_at cs q) ∖ {[ q ]} = ∅)) as [He|He].
    + exfalso. apply Hs. assert (ids_at cs (tail_at cs q) = {[ q ]}) as ->; [|by rewrite size_singleton].
      apply set_eq. intros x. rewrite elem_of_singleton. split; [|by intros ->]. intros Hx.
      destruct (decide (x = q)); [done|]. assert (x ∈ ids_at cs (tail_at cs q) ∖ {[ q ]}) by set_solver. set_solver.
    + apply set_choose_L in He as [x Hx]. exists x. set_solver.
Qed.

(** *** A new cell for a sequence *)

(** What [take_cell] does, cell by cell. *)
Record taken (cs : list mem_cell) (q e : Z) (cs' : list mem_cell) : Prop := {
  tk_len : length cs' = length cs;
  tk_tail : forall j, tail_at cs' j = if decide (j = q) then e else tail_at cs j;
  tk_ids : forall j, ids_at cs' j = if decide (0 <= tail_at cs q) then
      (if decide (j = e) then {[ q ]} else if decide (j = tail_at cs q) then ids_at cs j ∖ {[ q ]} else ids_at cs j) else ids_at cs j;
  tk_data : forall j, let k := if decide (0 <= tail_at cs q /\ j = e) then tail_at cs q else j in
    pos_at cs' j = pos_at cs k /\ src_at cs' j = src_at cs k;
}.

Lemma take_cell_steps cs R q e : own_ok cs R -> in_cells cs q -> q ∉ R -> avail cs e ->
  (tail_at cs q < 0 \/ exists q', q' ∈ ids_at cs (tail_at cs q) /\ q' <> q) ->
  exists cs', take_cell cs q e = Ok cs' /\ taken cs q e cs'.
Proof.
  intros O Hq HR Ha Hno. pose proof (avail_empty _ _ _ O Ha) as Hemp. apply avail_spec in Ha as [He Ha]. unfold take_cell. cells_step.
  assert (is_empty (cell_at cs e) = true) as -> by by apply bool_decide_eq_true. cbn [assert_ mbind res_bind].
  destruct (Z.leb_spec 0 (tail_at cs q)) as [Ht|Ht].
  - destruct Hno as [|(q' & Hq' & Hne)]; [lia|]. pose proof (own_in _ _ _ O Hq Ht) as Htin. pose proof (Ha q Hq) as Hte. cells_step.
    set (t := tail_at cs q) in *. set (erase := fun c => set_ids (mc_seq_id c ∖ {[ q ]}) c). set (cs1 := put cs e _). set (cs2 := put cs1 t erase). set (add := fun c => set_ids ({[ q ]} ∪ mc_seq_id c) c).
    set (cs3 := put cs2 e add).
    assert (H3 : forall j, cell_at cs3 j = if decide (j = e) then add (set_pos_src (pos_at cs t) (src_at cs t) (cell_at cs e))
      else if decide (j = t) then erase (cell_at cs t) else cell_at cs j).
    { intros j. unfold cs3, cs2, cs1. rewrite cell_at_put by (by rewrite !in_put). rewrite !(cell_at_put (put cs e _)) by (by rewrite in_put). rewrite !cell_at_put by done.
      destruct (decide (j = e)) as [->|]; [|destruct (decide (j = t)) as [->|]; [|done]].
      - rewrite (decide_False (P := e = t)) by done. by rewrite decide_True.
      - by rewrite (decide_False (P := t = e)). }
    assert (Hi3 : forall j, in_cells cs3 j <-> in_cells cs j) by (intros j; unfold cs3, cs2, cs1; by rewrite !in_put).
    rewrite H3. rewrite decide_False, decide_True by done. unfold is_empty. cbn [mc_seq_id erase set_ids].
    rewrite bool_decide_eq_false_2 by set_solver. cbn [negb assert_ mbind res_bind]. rewrite upd_cell by (by apply Hi3).
    eexists. split; [done|]. assert (H4 : forall j, cell_at (put cs3 q (set_tail e)) j = if decide (j = q) then set_tail e (cell_at cs3 q) else cell_at cs3 j)
      by (intros j; apply cell_at_put; by apply Hi3).
    split.
    + unfold cs3, cs2, cs1. by rewrite !length_put.
    + intros j. rewrite H4, !H3. destruct (decide (j = q)) as [->|]; [done|]. destruct (decide (j = e)) as [->|]; [done|]. by destruct (decide (j = t)) as [->|].
    + intros j. rewrite H4, !H3. rewrite (decide_True (P := 0 <= t)) by done.
      destruct (decide (j = q)) as [->|]; (destruct (decide (_ = e)) as [->|]; [cbn; rewrite Hemp; set_solver|]);
        (destruct (decide (_ = t)) as [e1|e1]; [rewrite <- e1; by rewrite decide_True|by rewrite decide_False]).
    + intros j k. unfold k. rewrite H4, !H3. destruct (decide (j = e)) as [->|Hje].
      * rewrite (decide_True (P := 0 <= tail_at cs q /\ e = e)) by (split; [exact Ht|done]). destruct (decide (e = q)) as [<-|]; [|done]. by rewrite decide_True.
      * rewrite (decide_False (P := 0 <= tail_at cs q /\ j = e)) by tauto. destruct (decide (j = q)) as [->|].
        -- rewrite decide_False by done. destruct (decide (q = t)) as [e1|]; [by rewrite <- e1|done].
        -- destruct (decide (j = t)) as [e1|]; [by rewrite <- e1|done].
  - cells_step. eexists. split; [done|]. split.
    + apply length_put.
    + intros j. rewrite cell_at_put by done. by destruct (decide (j = q)).
    + intros j. rewrite cell_at_put by done. rewrite (decide_False (P := 0 <= tail_at cs q)) by lia. by destruct (decide (j = q)) as [->|].
    + intros j k. unfold k. rewrite (decide_False (P := 0 <= tail_at cs q /\ j = e)) by lia. rewrite cell_at_put by done. by destruct (decide (j = q)) as [->|].
Qed.

Definition reserve (cs : list mem_cell) (q : Z) (R : gset Z) : gset Z := if decide (0 <= tail_at cs q) then R else {[ q ]} ∪ R.

Section taken.
Context (cs cs' : list mem_cell) (R : gset Z) (mn mx q e : Z) (M : mid cs R mn mx) (Hq : in_cells cs q) (HR : q ∉ R)
  (Ha : avail cs e) (T : taken cs q e cs')
  (Hno : tail_at cs q < 0 \/ exists q', q' ∈ ids_at cs (tail_at cs q) /\ q' <> q).

Lemma taken_in i : in_cells cs' i <-> in_cells cs i.
Proof. unfold in_cells. by rewrite (tk_len _ _ _ _ T). Qed.

Lemma taken_tail_ne x : in_cells cs x -> tail_at cs x <> e.
Proof. apply avail_spec in Ha as [_ H]. apply H. Qed.

(** The cell that [q] leaves keeps another sequence. *)
Lemma taken_left : 0 <= tail_at cs q -> exists q', q' <> q /\ in_cells cs q' /\ (q' ∉ R) /\ tail_at cs q' = tail_at cs q.
Proof.
  intros Ht. pose proof (mi_own _ _ _ _ M) as O. destruct Hno as [|(q' & Hq' & Hne)]; [lia|].
  apply (ow_ids _ _ O) in Hq' as (H1 & H2 & H3); [|by eapply own_in]. by exists q'.
Qed.

Lemma taken_avail i : avail cs' i <-> (avail cs i /\ (i <> e)).
Proof.
  rewrite !avail_spec, taken_in. setoid_rewrite taken_in. setoid_rewrite (tk_tail _ _ _ _ T). split.
  - intros [Hi H]. assert (Hie : i <> e) by (specialize (H q Hq); rewrite decide_True in H by done; congruence).
    split; [|done]. split; [done|]. intros x Hx Hxi. destruct (decide (x = q)) as [->|Hne].
    + destruct taken_left as (q' & Hne' & Hq' & _ & He); [destruct Hi; lia|]. specialize (H q' Hq'). rewrite decide_False in H by done. congruence.
    + specialize (H x Hx). by rewrite decide_False in H.
  - intros [[Hi H] Hie]. split; [done|]. intros x Hx. destruct (decide (x = q)) as [->|]; [congruence|by apply H].
Qed.

Lemma taken_own : own_ok cs' (reserve cs q R).
Proof.
  pose proof (mi_own _ _ _ _ M) as O. pose proof (proj1 (proj1 (avail_spec _ _) Ha)) as He.
  pose proof (avail_empty _ _ _ O Ha) as Hemp. split.
  - intros x Hx%taken_in. rewrite (tk_tail _ _ _ _ T), taken_in. destruct (decide (x = q)); [by right|]. by apply (ow_tail _ _ O).
  - intros i x Hi%taken_in. rewrite (tk_ids _ _ _ _ T), (tk_tail _ _ _ _ T), taken_in. unfold reserve.
    pose proof (ow_ids _ _ O i x Hi) as Hix. pose proof (taken_tail_ne x) as Hxe. destruct (decide (0 <= tail_at cs q)) as [Ht|Ht].
    + destruct (decide (i = e)) as [->|Hie]; [|destruct (decide (i = tail_at cs q)) as [Hiq|Hiq]].
      * rewrite elem_of_singleton. split; [intros ->; by rewrite decide_True|]. intros (H1 & _ & H3). destruct (decide (x = q)); [done|]. by destruct Hxe.
      * rewrite elem_of_difference, elem_of_singleton, Hix. destruct (decide (x = q)) as [->|]; [|tauto]. split; [tauto|]. intros (_ & _ & ->). done.
      * rewrite Hix. destruct (decide (x = q)) as [->|]; [|tauto]. split; [intros (_ & _ & H); congruence|intros (_ & _ & H); congruence].
    + rewrite Hix. rewrite elem_of_union, elem_of_singleton. destruct (decide (x = q)) as [->|]; [|tauto].
      split; [intros (_ & _ & H); destruct Hi; lia|tauto].
  - intros x Hx. unfold reserve in Hx. rewrite (tk_tail _ _ _ _ T), !taken_in.
    assert (Hcase : x = q \/ (x <> q /\ x ∈ R)).
    { destruct (decide (0 <= tail_at cs q)); destruct (decide (x = q)); set_solver. }
    destruct Hcase as [->|[Hxq HxR]].
    + rewrite decide_True by done. split_and!; [done|done|]. intros q' Hq'%taken_in. rewrite (tk_tail _ _ _ _ T).
      destruct (decide (q' = q)); [done|]. intros H. by destruct (taken_tail_ne q' Hq').
    + rewrite decide_False by done. destruct (ow_res _ _ O x HxR) as (H1 & H2 & H3). split_and!; [done|done|].
      intros q' Hq'%taken_in. rewrite (tk_tail _ _ _ _ T). destruct (decide (q' = q)) as [->|].
      * intros H. by destruct (taken_tail_ne x H1).
      * by apply H3.
Qed.

Lemma taken_mid : mid cs' (reserve cs q R) (Z.min mn e) (Z.max mx e).
Proof.
  pose proof M as [Ml O K S F B U]. pose proof (proj1 (proj1 (avail_spec _ _) Ha)) as He. pose proof (avail_empty _ _ _ O Ha) as Hemp.
  assert (Hsplit : forall j, in_cells cs j -> (0 <= tail_at cs q /\ j = e) \/ (~ (0 <= tail_at cs q /\ j = e) /\ pos_at cs' j = pos_at cs j /\ src_at cs' j = src_at cs j)).
  { intros j Hj. destruct (tk_data _ _ _ _ T j) as [Hp Hs]. destruct (decide (0 <= tail_at cs q /\ j = e)); [by left|by right]. }
  assert (Hte : 0 <= tail_at cs q -> pos_at cs' e = pos_at cs (tail_at cs q) /\ src_at cs' e = src_at cs (tail_at cs q)).
  { intros Ht. destruct (tk_data _ _ _ _ T e) as [Hp Hs]. by rewrite decide_True in Hp, Hs. }
  split.
  - by rewrite (tk_len _ _ _ _ T).
  - apply taken_own.
  - intros x Hx%taken_in HxR. rewrite (tk_tail _ _ _ _ T). destruct (decide (x = q)) as [->|Hne].
    + destruct (K q Hq HR) as [K1 K2]. unfold reserve in HxR. destruct (decide (0 <= tail_at cs q)) as [Ht|]; [|set_solver].
      split; [intros H; apply K1 in H; lia|]. intros H. destruct (K2 H) as (_ & Hp & Hs). destruct (Hte Ht) as [-> ->]. split_and!; [by destruct He|done|done].
    + assert (HxR' : x ∉ R) by (unfold reserve in HxR; destruct (decide _); set_solver).
      destruct (K x Hx HxR') as [K1 K2]. split; [done|]. intros H. destruct (K2 H) as (H1 & H2 & H3).
      destruct (Hsplit (tail_at cs x)) as [[_ Hc]|(_ & -> & ->)]; [by eapply own_in|by destruct (taken_tail_ne x Hx)|done].
  - intros x Hx. unfold reserve in Hx. destruct (decide (0 <= tail_at cs q)) as [Ht|Ht]; [by apply S|].
    apply elem_of_union in Hx as [->%elem_of_singleton|Hx]; [|by apply S].
    destruct (K q Hq HR) as [_ K2]. destruct (Z.ltb_spec (tail_at cs0 q) 0); [done|]. destruct K2; [done|]. lia.
  - intros i Hi%taken_in Hie. rewrite (tk_ids _ _ _ _ T) in Hie. rewrite taken_in.
    destruct (Hsplit i Hi) as [[Ht ->]|(Hnot & Hp & Hs)].
    + exfalso. rewrite !decide_True in Hie by done. set_solver.
    + unfold val_at. rewrite Hp, Hs. apply F; [done|]. destruct (decide (0 <= tail_at cs q)) as [Ht|]; [|done].
      destruct (decide (i = e)); [by subst|]. destruct (decide (i = tail_at cs q)) as [->|]; [|done].
      exfalso. destruct (taken_left Ht) as (q' & Hne & Hq' & Hq'R & Ht'). assert (q' ∈ ids_at cs (tail_at cs q)) by (by apply (ow_ids _ _ O)). set_solver.
  - intros i Hi%taken_in Hie. rewrite (tk_ids _ _ _ _ T) in Hie. rewrite taken_in.
    destruct (Hsplit i Hi) as [[Ht ->]|(Hnot & Hp & Hs)].
    + destruct (Hte Ht) as [-> ->]. apply B; [by eapply own_in|]. assert (q ∈ ids_at cs (tail_at cs q)) by (apply (ow_ids _ _ O); [by eapply own_in|done]). set_solver.
    + rewrite Hp, Hs. apply B; [done|]. destruct (decide (0 <= tail_at cs q)) as [Ht|]; [|done].
      destruct (decide (i = e)) as [->|]; [|destruct (decide (i = tail_at cs q)) as [->|]; [set_solver|done]].
      tauto.
  - intros i Hi%taken_in Hout. destruct (Hsplit i Hi) as [[_ ->]|(_ & _ & ->)]; [lia|]. apply U; [done|]. lia.
Qed.

Lemma taken_placed P : homed cs mn mx P -> q ∉ P -> homed cs' (Z.min mn e) (Z.max mx e) (P ++ [q]).
Proof.
  intros HP HqP x Hx. rewrite taken_in, (tk_tail _ _ _ _ T). rewrite taken_in. pose proof (proj1 (proj1 (avail_spec _ _) Ha)) as He.
  apply elem_of_app in Hx as [Hx| ->%list_elem_of_singleton].
  - destruct (HP x Hx) as (H1 & H2 & H3 & H4). rewrite decide_False by (intros ->; done). split_and!; [done|done|lia|lia|].
    intros q' Hq'%taken_in. rewrite (tk_tail _ _ _ _ T). destruct (decide (q' = q)) as [->|]; [|by apply H4].
    intros H. by destruct (taken_tail_ne x H1).
  - rewrite decide_True by done. split_and!; [done|done|lia|lia|].
    intros q' Hq'%taken_in. rewrite (tk_tail _ _ _ _ T). destruct (decide (q' = q)); [done|]. intros H. by destruct (taken_tail_ne q' Hq').
Qed.

End taken.

(** The next search, after the cell [e] was taken. *)
Lemma search_next e0 cs R e : own_ok cs R -> in_cells cs e ->
  (forall q, q ∈ R -> dist cs e0 (tail_at cs q) <= dist cs e0 e) -> (forall i, avail cs i -> dist cs e0 e < dist cs e0 i) ->
  exists e', next_empty (length cs) cs e = Ok e' /\ search_ok e0 cs R e'.
Proof.
  intros O He HR Hav. assert (Hn : (0 < length cs)%nat) by (unfold in_cells in He; lia).
  destruct (next_empty_spec cs Hn (length cs) e He) as (e' & Hn' & Hin & Hd). exists e'. split; [done|].
  destruct (avail_or cs) as [[a Haa]|Hno]; [right|by left].
  pose proof (Hav a Haa) as Hda. pose proof (proj1 (proj1 (avail_spec _ _) Haa)) as Hain. pose proof (dist_range cs Hn e0 a) as Hra.
  pose proof (dist_range cs Hn e0 e) as Hre.
  assert (Hreach : forall i, avail cs i -> (e + (dist cs e0 i - dist cs e0 e)) mod Z.of_nat (length cs) = i).
  { intros i Hi. apply (dist_reach cs Hn); [done|by apply avail_spec in Hi as [? _]|]. specialize (Hav i Hi). lia. }
  destruct Hd as [(d & Hd & -> & Hemp & Hall)|Hall].
  2: { exfalso. apply (Hall (dist cs e0 a - dist cs e0 e)); [lia|]. rewrite Hreach by done. by eapply avail_empty. }
  assert (Hmin : forall i, avail cs i -> d <= dist cs e0 i - dist cs e0 e).
  { intros i Hi. destruct (Z.ltb_spec (dist cs e0 i - dist cs e0 e) d); [|done]. exfalso.
    apply (Hall (dist cs e0 i - dist cs e0 e)); [specialize (Hav i Hi); lia|]. rewrite Hreach by done. by eapply avail_empty. }
  specialize (Hmin a Haa) as Hda'. assert (Hdist : dist cs e0 ((e + d) mod Z.of_nat (length cs)) = dist cs e0 e + d) by (apply (dist_step cs Hn); [done|lia|lia]).
  split_and!.
  - destruct (empty_free cs R _ O Hin Hemp) as [H|(q & Hq & Ht)]; [done|]. specialize (HR q Hq). rewrite Ht, Hdist in HR. lia.
  - intros q Hq. specialize (HR q Hq). lia.
  - intros i Hi. specialize (Hmin i Hi). lia.
Qed.

(** The first search. *)
Lemma search_first cs head : cells_ok zero cs rows -> in_cells cs head ->
  exists e, find_empty (length cs) cs head = Ok e /\ search_ok e cs ∅ e.
Proof.
  intros C Hh. assert (Hn : (0 < length cs)%nat) by (unfold in_cells in Hh; lia).
  destruct (find_empty_spec cs Hn (length cs) head) as (e & He & Hd); [unfold in_cells in Hh; lia|]. exists e. split; [done|].
  destruct Hd as [[Hin Hemp]|Hall].
  - right. split_and!.
    + destruct (empty_free cs ∅ e (ce_own _ _ _ C) Hin Hemp) as [|(q & Hq & _)]; [done|set_solver].
    + set_solver.
    + intros i _. unfold dist at 1. rewrite Z.sub_diag, Z.mod_0_l by lia. apply (dist_range cs Hn).
  - left. intros i Hi. pose proof (avail_empty _ _ _ (ce_own _ _ _ C) Hi) as Hemp. apply avail_spec in Hi as [Hi _].
    specialize (Hall ((i - head) mod Z.of_nat (length cs))). rewrite Zplus_mod_idemp_r in Hall. replace (head + (i - head)) with i in Hall by lia.
    rewrite (Z.mod_small i) in Hall by exact Hi. apply Hall; [|done]. apply Z.mod_pos_bound. lia.
Qed.

(** ** The micro-batch *)

Section ubatch.
Context {E : Type} (u : llama_ubatch E).
Abbreviation n_seqs := (ub_n_seqs u).

(** The ids of set [s], its first id and its last position. *)
Definition ids_of (s : nat) : list Z := default [] (ub_seq_id u !! set_token u s).
Definition first_of (s : nat) : Z := default 0 (head (ids_of s)).
Definition last_of (s : nat) : Z := default (-1) (ub_pos u !! (set_token u s + ub_n_seq_tokens u - 1)%nat).

(** Disjoint sets of sequences that have cells. *)
Record rubatch_ok (size : Z) : Prop := {
  ru_equal : ub_equal_seqs u = true;
  ru_ids : forall s, (s < n_seqs)%nat -> ub_seq_id u !! set_token u s = Some (ids_of s) /\
    ub_n_seq_id u !! set_token u s = Some (Z.of_nat (length (ids_of s))) /\ ids_of s <> [];
  ru_disjoint : NoDup (concat (ids_of <$> seq 0 n_seqs));
  ru_range : forall s q, (s < n_seqs)%nat -> q ∈ ids_of s -> 0 <= q < size;
  ru_pos : forall s, (s < n_seqs)%nat -> ub_pos u !! (set_token u s + ub_n_seq_tokens u - 1)%nat = Some (last_of s) /\ 0 <= last_of s <= INT32_MAX;
}.

Context (U : rubatch_ok N).

Lemma first_in s : (s < n_seqs)%nat -> first_of s ∈ ids_of s.
Proof.
  intros Hs. destruct (ru_ids _ U s Hs) as (_ & _ & Hne). unfold first_of. destruct (ids_of s); [done|]. cbn. set_solver.
Qed.

Lemma sets_disjoint s s' q : (s < n_seqs)%nat -> (s' < n_seqs)%nat -> q ∈ ids_of s -> q ∈ ids_of s' -> s = s'.
Proof.
  intros Hs Hs' Hq Hq'. pose proof (ru_disjoint _ U) as Hnd. clear U. revert Hnd.
  assert (Hgen : forall l, NoDup l -> s ∈ l -> s' ∈ l -> NoDup (concat (ids_of <$> l)) -> s = s').
  { induction l as [|x l IH]; intros Hl H1 H2 Hnd; [set_solver|]. cbn in Hnd. apply NoDup_app in Hnd as (_ & Hd & Hnd). apply NoDup_cons in Hl as [_ Hl].
    apply elem_of_cons in H1, H2. destruct H1 as [<-|H1], H2 as [<-|H2]; [done|..|by apply IH].
    - exfalso. apply (Hd q); [done|]. apply elem_of_concat_fmap. by exists s'.
    - exfalso. apply (Hd q); [done|]. apply elem_of_concat_fmap. by exists s. }
  intros Hnd. apply (Hgen (seq 0 n_seqs)); [apply NoDup_seq|by apply elem_of_seq; lia|by apply elem_of_seq; lia|done].
Qed.

Lemma first_inj s s' : (s < n_seqs)%nat -> (s' < n_seqs)%nat -> first_of s = first_of s' -> s = s'.
Proof. intros Hs Hs' He. apply (sets_disjoint s s' (first_of s)); [done|done|by apply first_in|rewrite He; by apply first_in]. Qed.

Lemma first_id_ok s : (s < n_seqs)%nat -> rs_first_id u s = Ok (first_of s).
Proof.
  intros Hs. destruct (ru_ids _ U s Hs) as (Hl & _ & Hne). unfold rs_first_id, set_ids_of, vec_get. rewrite Hl. cbn [of_option mbind res_bind].
  unfold first_of. by destruct (ids_of s).
Qed.

Lemma first_range s : (s < n_seqs)%nat -> in_cells cs0 (first_of s).
Proof. intros Hs. apply (ru_range _ U s); [done|by apply first_in]. Qed.

Definition firsts (k : nat) : list Z := first_of <$> seq 0 k.

Lemma firsts_snoc k : firsts (k + 1) = firsts k ++ [first_of k].
Proof. unfold firsts. rewrite seq_app, fmap_app. done. Qed.

Lemma elem_of_firsts k q : q ∈ firsts k <-> exists s, (s < k)%nat /\ q = first_of s.
Proof.
  unfold firsts. rewrite list_elem_of_fmap. split.
  - intros (s & -> & Hs%elem_of_seq). exists s. split; [lia|done].
  - intros (s & Hs & ->). exists s. split; [done|]. apply elem_of_seq. lia.
Qed.

(** *** The usable range *)

Definition range_inv (e0 : Z) (k : nat) (s : list mem_cell * Z * Z * Z) : Prop :=
  let '(cs, e, mn, mx) := s in
  exists R, mid cs R mn mx /\ homed cs mn mx (firsts k) /\ (forall x, x ∈ R -> x ∈ firsts k) /\
    ((k < n_seqs)%nat -> search_ok e0 cs R e) /\ 0 <= mn < N /\ 0 <= mx < N /\
    (k = 0%nat -> mn = N - 1 /\ mx = 0) /\ (k = 1%nat -> mn = mx).

Lemma reserve_step_ok e0 k s : (k < n_seqs)%nat -> range_inv e0 k s -> sat (reserve_step u s k) (range_inv e0 (k + 1)).
Proof.
  destruct s as [[[cs e] mn] mx]. intros Hk (R & M & P & HRP & S & Hmn & Hmx & Hk0 & _). unfold reserve_step. rewrite first_id_ok by done. cbn [mbind res_bind].
  set (q := first_of k). pose proof (mi_own _ _ _ _ M) as O.
  assert (Hq : in_cells cs q) by (apply (mid_in _ _ _ _ _ M), first_range, Hk).
  assert (HqP : q ∉ firsts k) by (intros (s & Hs & He)%elem_of_firsts; apply first_inj in He; [lia|done|lia]).
  assert (HqR : q ∉ R) by (intros H; by apply HqP, HRP). specialize (S Hk).
  destruct (owns_cell_ok cs R mn mx q M Hq HqR) as (b & -> & Hb1 & Hb0). cbn [mbind res_bind]. destruct b.
  - destruct (Hb1 eq_refl) as [Htin Hex]. cells_step. apply sat_ok. exists R. rewrite firsts_snoc. fold q.
    assert (Hb : 0 <= tail_at cs q < N) by (apply (mid_in _ _ _ _ _ M) in Htin; exact Htin). split_and!; try done; try lia.
    + apply (mid_mono cs R mn mx); [done|lia|lia].
    + intros x [Hx| ->%list_elem_of_singleton]%elem_of_app; [|split_and!; [done|done|lia|lia|done]].
      apply (placed_mono cs mn mx _ _ (firsts k)); [done|lia|lia|done].
    + intros x Hx%HRP. apply elem_of_app. by left.
  - specialize (Hb0 eq_refl). destruct S as [S|(Sa & SR & Sav)].
    { exfalso. destruct (avail_exists cs R q O Hq) as [i Hi]; [|by apply (S i)]. destruct Hb0 as [|(q' & Hq' & Hne)]; [by left|].
      destruct (Z.ltb_spec (tail_at cs q) 0); [by left|right]. apply (ow_ids _ _ O) in Hq' as (? & ? & ?); [by exists q'|by eapply own_in]. }
    destruct (take_cell_steps cs R q e O Hq HqR Sa Hb0) as (cs' & -> & T). cbn [mbind res_bind].
    pose proof (taken_mid cs cs' R mn mx q e M Hq HqR Sa T Hb0) as M'. pose proof (taken_placed cs cs' mn mx q e Hq Sa T (firsts k) P HqP) as P'.
    pose proof (proj1 (proj1 (avail_spec _ _) Sa)) as He. pose proof (taken_in cs cs' q e T) as Hin'.
    assert (Hn : (0 < length cs)%nat) by (unfold in_cells in He; lia).
    assert (Hdist : forall i, dist cs' e0 i = dist cs e0 i) by (intros i; unfold dist; by rewrite (tk_len _ _ _ _ T)).
    assert (Hse : exists e', (if (k + 1 <? n_seqs)%nat then next_empty (length cs') cs' e else Ok e) = Ok e' /\
                    (((k + 1 < n_seqs)%nat -> search_ok e0 cs' (reserve cs q R) e') )).
    { destruct (Nat.ltb_spec (k + 1) n_seqs); [|exists e; split; [done|lia]].
      destruct (search_next e0 cs' (reserve cs q R) e) as (e' & Hn' & Hs'); [by apply (mi_own _ _ _ _ M')|by apply Hin'|..|by exists e'].
      - intros x Hx. rewrite !Hdist, (tk_tail _ _ _ _ T). destruct (decide (x = q)); [lia|].
        assert (HxR : x ∈ R) by (unfold reserve in Hx; destruct (decide _); set_solver). specialize (SR x HxR). lia.
      - intros i Hi. rewrite !Hdist.
        apply (taken_avail cs cs' R mn mx q e M Hq T Hb0) in Hi as [Hi Hne]. specialize (Sav i Hi).
        destruct (Z.eq_dec (dist cs e0 e) (dist cs e0 i)) as [Heq|]; [|lia]. apply (dist_inj cs Hn) in Heq; [done|done|by apply avail_spec in Hi as [? _]]. }
    destruct Hse as (e' & -> & Hs'). cbn [mbind res_bind]. rewrite get_cell by (by apply Hin'). cbn [mbind res_bind].
    rewrite (tk_tail _ _ _ _ T), decide_True by done. apply sat_ok. exists (reserve cs q R). rewrite firsts_snoc. fold q.
    assert (Hb : 0 <= e < N) by (apply (mid_in _ _ _ _ _ M) in He; exact He). split_and!; try done; try lia.
    intros x Hx. apply elem_of_app. unfold reserve in Hx. destruct (decide _); [left; by apply HRP|].
    apply elem_of_union in Hx as [->%elem_of_singleton|Hx]; [right; by apply list_elem_of_singleton|left; by apply HRP].
Qed.

Lemma range_ok e0 e : cells_ok zero cs0 rows -> (0 < length cs0)%nat -> search_ok e0 cs0 ∅ e ->
  sat (mfor (reserve_step u) (seq 0 n_seqs) (cs0, e, N - 1, 0)) (range_inv e0 n_seqs).
Proof.
  intros C Hn S. apply sat_for; [|intros; by apply reserve_step_ok]. exists ∅. split_and!; [by apply mid_start| | |done|lia|lia|lia|lia|done|done].
  - intros q Hq. by apply elem_of_nil in Hq.
  - set_solver.
Qed.

(** *** Gathering *)

Definition swapz (a b j : Z) : Z := if j =? a then b else if j =? b then a else j.

Lemma swapz_invol a b j : swapz a b (swapz a b j) = j.
Proof.
  unfold swapz. destruct (Z.eqb_spec j a) as [->|Ha]; [|destruct (Z.eqb_spec j b) as [->|Hb]].
  - destruct (Z.eqb_spec b a); [done|]. by rewrite Z.eqb_refl.
  - by rewrite Z.eqb_refl.
  - by rewrite (proj2 (Z.eqb_neq j a)), (proj2 (Z.eqb_neq j b)).
Qed.

Lemma swapz_eq a b i j : swapz a b i = j <-> i = swapz a b j.
Proof. split; [intros <-|intros ->]; by rewrite swapz_invol. Qed.

Record swapped (cs : list mem_cell) (a b : Z) (cs' : list mem_cell) : Prop := {
  sw_len : length cs' = length cs;
  sw_tail : forall j, in_cells cs j -> tail_at cs' j = swapz a b (tail_at cs j);
  sw_data : forall j, in_cells cs j -> ids_at cs' j = ids_at cs (swapz a b j) /\
    pos_at cs' j = pos_at cs (swapz a b j) /\ src_at cs' j = src_at cs (swapz a b j);
}.

Lemma swap_cells_ok cs a b : in_cells cs a -> in_cells cs b -> a <> b -> exists cs', swap_cells cs a b = Ok cs' /\ swapped cs a b cs'.
Proof.
  intros Ha Hb Hab. unfold swap_cells. cells_step. eexists. split; [done|].
  set (cs2 := put (put cs a _) b _).
  assert (Hin : forall j, in_cells cs2 j <-> in_cells cs j) by (intros j; unfold cs2; by rewrite !in_put).
  assert (H2 : forall j, cell_at cs2 j = if decide (j = b) then set_ids (ids_at cs a) (set_pos_src (pos_at cs a) (src_at cs a) (cell_at cs b))
     else if decide (j = a) then set_ids (ids_at cs b) (set_pos_src (pos_at cs b) (src_at cs b) (cell_at cs a)) else cell_at cs j).
  { intros j. unfold cs2. rewrite cell_at_put by (by rewrite in_put). rewrite !cell_at_put by done.
    rewrite (decide_False (P := b = a)) by done. done. }
  assert (Ht : forall j, tail_at cs2 j = tail_at cs j) by (intros j; rewrite H2; destruct (decide (j = b)) as [->|]; [done|]; by destruct (decide (j = a)) as [->|]).
  assert (Hs : forall c, mc_tail (swap_tail b a c) = swapz a b (mc_tail c) /\ mc_seq_id (swap_tail b a c) = mc_seq_id c /\
     mc_pos (swap_tail b a c) = mc_pos c /\ mc_src (swap_tail b a c) = mc_src c).
  { intros c. unfold swap_tail, swapz. destruct (Z.eqb_spec (mc_tail c) b) as [->|]; [by rewrite (proj2 (Z.eqb_neq b a))|]. by destruct (mc_tail c =? a). }
  split.
  - rewrite length_fmap. unfold cs2. by rewrite !length_put.
  - intros j Hj. rewrite cell_at_fmap by (by apply Hin). destruct (Hs (cell_at cs2 j)) as [-> _]. by rewrite Ht.
  - intros j Hj. rewrite cell_at_fmap by (by apply Hin). destruct (Hs (cell_at cs2 j)) as (_ & -> & -> & ->). rewrite H2. unfold swapz.
    destruct (decide (j = b)) as [->|]; [rewrite (proj2 (Z.eqb_neq b a)), Z.eqb_refl by done; done|].
    destruct (decide (j = a)) as [->|]; [by rewrite Z.eqb_refl|]. by rewrite (proj2 (Z.eqb_neq j a)), (proj2 (Z.eqb_neq j b)) by done.
Qed.

Lemma swapped_ok cs cs' R mn mx a b : mid cs R mn mx -> in_cells cs a -> in_cells cs b -> mn <= a <= mx -> mn <= b <= mx -> swapped cs a b cs' ->
  mid cs' R mn mx /\ forall P, homed cs mn mx P -> homed cs' mn mx P.
Proof.
  intros M Ha Hb Hra Hrb [Sl St Sd]. pose proof M as [Ml O K Sr F B Uo].
  assert (Hin : forall j, in_cells cs' j <-> in_cells cs j) by (intros j; unfold in_cells; by rewrite Sl).
  assert (Hsw : forall j, in_cells cs j <-> in_cells cs (swapz a b j)).
  { intros j. unfold swapz. destruct (Z.eqb_spec j a) as [->|]; [done|]. by destruct (Z.eqb_spec j b) as [->|]. }
  assert (Hrange : forall j, mn <= j <= mx <-> mn <= swapz a b j <= mx).
  { intros j. unfold swapz. destruct (Z.eqb_spec j a) as [->|]; [done|]. by destruct (Z.eqb_spec j b) as [->|]. }
  assert (Hneg : forall j, j < 0 -> swapz a b j = j).
  { intros j Hj. unfold swapz. destruct Ha, Hb. rewrite !(proj2 (Z.eqb_neq _ _)) by lia. done. }
  split; [split|].
  - by rewrite Sl.
  - split.
    + intros q Hq%Hin. rewrite St, Hin by done. destruct (ow_tail _ _ O q Hq) as [->|H]; [left; by apply Hneg|right; by apply Hsw in H].
    + intros i x Hi%Hin. destruct (Sd i Hi) as [-> _]. rewrite Hin, (ow_ids _ _ O) by (by apply Hsw in Hi).
      split; intros (Hx & HxR & H); (split_and!; [done|done|]); rewrite St in * by done; [rewrite H; apply swapz_invol|by apply swapz_eq].
    + intros q Hq. destruct (ow_res _ _ O q Hq) as (H1 & H2 & H3). rewrite St, !Hin by done. split_and!; [done|by apply Hsw in H2|].
      intros q' Hq'%Hin. rewrite St by done. intros H. apply H3; [done|]. apply swapz_eq in H. by rewrite swapz_invol in H.
  - intros q Hq%Hin HqR. rewrite St by done. destruct (K q Hq HqR) as [K1 K2]. split; [intros H; rewrite K1 by done; by apply Hneg|].
    intros H. destruct (K2 H) as (H1 & H2 & H3). pose proof (own_in _ _ _ O Hq H1) as Ht. apply Hsw in Ht as Ht'.
    destruct (Sd _ Ht') as (_ & -> & ->). rewrite swapz_invol. split_and!; [by destruct Ht'|done|done].
  - done.
  - intros i Hi%Hin He. destruct (Sd i Hi) as (Hi1 & Hi2 & Hi3). rewrite Hi1 in He. unfold val_at. rewrite Hi2, Hi3, Hin. by apply F; [apply Hsw in Hi|].
  - intros i Hi%Hin He. destruct (Sd i Hi) as (Hi1 & -> & ->). rewrite Hi1 in He. rewrite Hin. by apply B; [apply Hsw in Hi|].
  - intros i Hi%Hin Hout. destruct (Sd i Hi) as (_ & _ & ->). assert (swapz a b i = i) as ->; [|by apply Uo].
    unfold swapz. rewrite !(proj2 (Z.eqb_neq _ _)) by lia. done.
  - intros P HP q Hq. destruct (HP q Hq) as (H1 & H2 & H3 & H4). rewrite St, !Hin by done.
    split; [done|]. split; [by apply Hsw in H2|]. split; [by apply Hrange in H3|].
    intros q' Hq'%Hin. rewrite St by done. intros H. apply H4; [done|]. apply swapz_eq in H. by rewrite swapz_invol in H.
Qed.

Definition gather_inv (R : gset Z) (mn mx : Z) (k : nat) (cs : list mem_cell) : Prop :=
  mid cs R mn mx /\ homed cs mn mx (firsts n_seqs) /\ forall s, (s < k)%nat -> tail_at cs (first_of s) = Z.of_nat s + mn.

(** The tails are distinct, so the range is wide enough. *)
Lemma range_wide cs mn mx : homed cs mn mx (firsts n_seqs) -> mn <= mx + 1 -> mn + Z.of_nat n_seqs <= mx + 1.
Proof.
  intros P Hle. assert (Hnd : NoDup ((fun q => tail_at cs q) <$> firsts n_seqs)).
  { unfold firsts. rewrite <- list_fmap_compose. apply NoDup_fmap_2_strong; [|apply NoDup_seq].
  intros s s' Hs%elem_of_seq Hs'%elem_of_seq He. cbn in He. apply first_inj; [lia|lia|].
    destruct (P (first_of s')) as (_ & _ & _ & H); [apply elem_of_firsts; exists s'; split; [lia|done]|].
    apply H; [|done]. destruct (P (first_of s)) as (H' & _); [apply elem_of_firsts; exists s; split; [lia|done]|done]. }
  assert (Hsub : ((fun q => tail_at cs q) <$> firsts n_seqs) ⊆ seqZ mn (mx - mn + 1)).
  { intros t (q & -> & Hq)%list_elem_of_fmap. destruct (P q Hq) as (_ & _ & H & _). apply elem_of_seqZ. lia. }
  pose proof (submseteq_length _ _ (NoDup_submseteq _ _ Hnd Hsub)) as H. unfold firsts in H. rewrite !length_fmap, length_seq, length_seqZ in H. lia.
Qed.

Lemma gather_ok cs R mn mx : mid cs R mn mx -> homed cs mn mx (firsts n_seqs) -> 0 <= mn -> mx < N -> mn <= mx + 1 ->
  sat (mfor (gather_step u mn) (seq 0 n_seqs) cs) (gather_inv R mn mx n_seqs).
Proof.
  intros M P Hmn Hmx Hle. pose proof (range_wide cs mn mx P Hle) as Hw. apply sat_for; [by split_and!; [..|lia]|].
  clear cs M P. intros k cs Hk (M & P & T). unfold gather_step. rewrite first_id_ok by done. cbn [mbind res_bind].
  assert (Hf : first_of k ∈ firsts n_seqs) by (apply elem_of_firsts; by exists k).
  destruct (P _ Hf) as (Hq & Htin & Hr & Hex). cells_step. destruct (Z.eqb_spec (Z.of_nat k + mn) (tail_at cs (first_of k))) as [He|He].
  - apply sat_ok. split_and!; [done|done|]. intros s Hs. destruct (decide (s = k)) as [->|]; [done|]. apply T. lia.
  - assert (Hd : in_cells cs (Z.of_nat k + mn)) by (apply (mid_in _ _ _ _ _ M); unfold in_cells; lia).
    destruct (swap_cells_ok cs _ _ Hd Htin He) as (cs' & -> & S).
    destruct (swapped_ok cs cs' R mn mx _ _ M Hd Htin ltac:(lia) Hr S) as [M' P']. apply sat_ok. split_and!; [done|by apply P'|].
    intros s Hs. assert (Hfs : first_of s ∈ firsts n_seqs) by (apply elem_of_firsts; exists s; split; [lia|done]). destruct (P _ Hfs) as (Hqs & _).
    rewrite (sw_tail _ _ _ _ S) by done. unfold swapz. destruct (decide (s = k)) as [->|Hsk].
    + rewrite (proj2 (Z.eqb_neq _ _)) by done. by rewrite Z.eqb_refl.
    + rewrite T by lia. rewrite (proj2 (Z.eqb_neq _ _)) by lia. destruct (Z.eqb_spec (Z.of_nat s + mn) (tail_at cs (first_of k))) as [Heq|]; [|done].
      rewrite <- T in Heq by lia. apply Hex in Heq; [|done]. apply first_inj in Heq; [done|lia|done].
Qed.

End ubatch.
End phases.

Arguments mid {D} zero rows cs0 cs R mn mx.
