(* ===== verification/RsFind.v ===== *)
(** * The recurrent memory: the sets of the micro-batch enter their cells

    The end of [find_slot]: the positions and ids of the sets ([place_step]), the free row of the
    initial state ([first_unreferenced]) and the sources of the graph ([stage_step]);
    then [find_slot] as a whole. *)

From S2P Require Export RsSlot.
From S2P Require Import Prelude Batch KvCache RsTheory RsSlot.

(** ** The ids of one set *)

Definition ids_added (cs cs' : list mem_cell) (c : Z) (ids : list Z) : Prop :=
  length cs' = length cs /\ forall j, pos_at cs' j = pos_at cs j /\ src_at cs' j = src_at cs j /\
    ids_at cs' j = (if decide (j = c) then list_to_set ids ∪ ids_at cs c else ids_at cs j) /\
    tail_at cs' j = if decide (j ∈ ids) then c else tail_at cs j.

Lemma ids_added_start cs c : ids_added cs cs c [].
Proof. split; [done|]. intros j. split_and!; [done|done| |done]. destruct (decide (j = c)) as [->|]; set_solver. Qed.

(** One more id. *)
Lemma ids_added_snoc cs cs1 c ids q : in_cells cs c -> in_cells cs q -> ids_added cs cs1 c ids ->
  ids_added cs (put (put cs1 c (fun x => set_ids ({[ q ]} ∪ mc_seq_id x) x)) q (set_tail c)) c (ids ++ [q]).
Proof.
  intros Hc Hq [Hl Hj]. assert (Hin : forall j, in_cells cs1 j <-> in_cells cs j) by (intros j; unfold in_cells; by rewrite Hl). apply Hin in Hc, Hq.
  split; [by rewrite !length_put|]. intros j. destruct (Hj j) as (Hp & Hs & Hi & Ht).
  rewrite cell_at_put by (by rewrite in_put). rewrite !cell_at_put by done.
  split_and!; try (destruct (decide (j = q)) as [->|]; [destruct (decide (q = c)) as [->|]|destruct (decide (j = c)) as [->|]]; cbn; done).
  - rewrite list_to_set_app_L. destruct (Hj c) as (_ & _ & Hic & _). rewrite decide_True in Hic by done.
    destruct (decide (j = q)) as [->|]; cbn; [destruct (decide (q = c)) as [->|]|destruct (decide (j = c)) as [->|]]; cbn; rewrite ?Hi, ?Hic, ?decide_True by done; set_solver.
  - destruct (decide (j = q)) as [->|Hjq]; [cbn; by rewrite decide_True by set_solver|].
    assert (Htl : mc_tail (if decide (j = c) then set_ids ({[q]} ∪ ids_at cs1 c) (cell_at cs1 c) else cell_at cs1 j) = tail_at cs1 j) by (by destruct (decide (j = c)) as [->|]).
    rewrite Htl, Ht. destruct (decide (j ∈ ids)); [by rewrite decide_True by set_solver|]. by rewrite decide_False by set_solver.
Qed.

Lemma place_ids_ok cs c ids : in_cells cs c -> (forall q, q ∈ ids -> in_cells cs q) ->
  sat (mfor (fun cells j =>
         id ← vec_get ids j;
         cells ← upd cells c (fun x => set_ids ({[ id ]} ∪ mc_seq_id x) x);
         upd cells id (set_tail c)) (seq 0 (length ids)) cs) (fun cs' => ids_added cs cs' c ids).
Proof.
  intros Hc Hids. eapply sat_mono.
  - apply (sat_for _ (fun k cs' => ids_added cs cs' c (take k ids))); [apply ids_added_start|].
    intros k cs1 Hk Ha. destruct (lookup_lt_is_Some_2 ids k Hk) as [q Hq]. apply sat_bind, (sat_vec_get _ _ _ _ Hq).
    assert (Hqin : in_cells cs q) by (apply Hids; by eapply list_elem_of_lookup_2).
    assert (Hin : forall j, in_cells cs1 j <-> in_cells cs j) by (intros j; unfold in_cells; by rewrite (proj1 Ha)).
    rewrite upd_cell by (by apply Hin). cbn [mbind res_bind]. rewrite upd_cell by (by rewrite in_put, Hin). apply sat_ok.
    replace (k + 1)%nat with (S k) by lia. rewrite (take_S_r _ _ q Hq). by apply ids_added_snoc.
  - intros cs' H. by rewrite firstn_all in H.
Qed.

Section place.
Context {D : Type} (zero : D) (rows : list D) (cs0 : list mem_cell) {E : Type} (u : llama_ubatch E).
Abbreviation N := (Z.of_nat (length cs0)).
Abbreviation n_seqs := (ub_n_seqs u).
Abbreviation ids_of := (ids_of u).
Abbreviation first_of := (first_of u).
Abbreviation last_of := (last_of u).
Context (U : rubatch_ok u N).

(** ** All sets *)

(** The cells [cs'] after the first [k] sets were written, compared with the cells before. *)
Record written (cs : list mem_cell) (mn : Z) (k : nat) (cs' : list mem_cell) : Prop := {
  wr_len : length cs' = length cs;
  wr_src : forall j, src_at cs' j = src_at cs j;
  wr_set : forall s, (s < k)%nat -> pos_at cs' (Z.of_nat s + mn) = last_of s /\ ids_at cs' (Z.of_nat s + mn) = list_to_set (ids_of s);
  wr_cell : forall j, (forall s, (s < k)%nat -> j <> Z.of_nat s + mn) -> pos_at cs' j = pos_at cs j /\ ids_at cs' j = ids_at cs j;
  wr_in : forall s q, (s < k)%nat -> q ∈ ids_of s -> tail_at cs' q = Z.of_nat s + mn;
  wr_out : forall q, (forall s, (s < k)%nat -> q ∉ ids_of s) -> tail_at cs' q = tail_at cs q;
}.

Lemma place_step_ok cs mn k cs' : length cs = length cs0 -> (k < n_seqs)%nat -> 0 <= mn -> mn + Z.of_nat n_seqs <= N ->
  pos_at cs (Z.of_nat k + mn) + Z.of_nat (ub_n_seq_tokens u) <= INT32_MAX ->
  written cs mn k cs' -> sat (place_step u mn cs' k) (written cs mn (k + 1)).
Proof.
  intros Hlen Hk Hmn Hend Hpos [Wl Ws Wn Wc Wi Wo]. unfold place_step. destruct (ru_pos _ _ U k Hk) as [Hp Hp'].
  destruct (ru_ids _ _ U k Hk) as (Hid & Hn & Hne). apply sat_bind, (sat_vec_get _ _ _ _ Hp).
  set (c := Z.of_nat k + mn) in *. assert (Hc : in_cells cs' c) by (unfold in_cells; lia). cells_step.
  destruct (Wc c) as [Hpc _]; [lia|]. apply sat_bind. eapply (sat_mono _ (fun _ => True)).
  { destruct (Z.leb_spec 0 (pos_at cs' c)); [apply sat_i32; [|done]|by apply sat_ok]. rewrite Hpc in *. unfold INT32_MIN. lia. }
  intros _ _. cells_step. apply sat_bind, (sat_vec_get _ _ _ _ Hn). unfold set_ids_of. apply sat_bind, (sat_vec_get _ _ _ _ Hid).
  rewrite Nat2Z.id. eapply sat_mono.
  - apply place_ids_ok; [by rewrite in_put|]. intros q Hq. rewrite in_put. unfold in_cells. rewrite Wl, Hlen. by apply (ru_range _ _ U k).
  - cbn beta. intros cs2 [Hl2 H2]. set (f := fun x => set_ids ∅ (set_pos (last_of k) x)) in *. rewrite length_put in Hl2.
    assert (Hf : forall j, cell_at (put cs' c f) j = if decide (j = c) then f (cell_at cs' c) else cell_at cs' j) by (intros j; by apply cell_at_put).
    assert (Hold : forall j, j <> c -> pos_at cs2 j = pos_at cs' j /\ ids_at cs2 j = ids_at cs' j).
    { intros j Hj. destruct (H2 j) as (-> & _ & -> & _). rewrite !Hf. by rewrite !decide_False by done. }
    assert (Hcase : forall s, (s < k + 1)%nat -> s = k \/ (s < k)%nat) by lia.
    split.
    + lia.
    + intros j. destruct (H2 j) as (_ & -> & _). rewrite Hf, <- Ws. by destruct (decide (j = c)) as [->|].
    + intros s [->|Hs]%Hcase; [|destruct (Hold (Z.of_nat s + mn)) as [-> ->]; [unfold c; lia|by apply Wn]].
      fold c. destruct (H2 c) as (-> & _ & -> & _). rewrite !Hf, !decide_True by done. cbn. split; [done|set_solver].
    + intros j Hj. destruct (Hold j) as [-> ->]; [apply (Hj k); lia|]. apply Wc. intros s Hs. apply Hj. lia.
    + intros s q Hs Hq. destruct (H2 q) as (_ & _ & _ & ->). destruct (Hcase s Hs) as [->|Hs']; [by rewrite decide_True|].
      destruct (decide (q ∈ ids_of k)) as [Hqk|_]; [|rewrite Hf; destruct (decide (q = c)) as [->|]; by apply Wi].
      assert (s = k); [|lia]. eapply (sets_disjoint cs0 u U); [lia|done|done|done].
    + intros q Hq. destruct (H2 q) as (_ & _ & _ & ->). rewrite decide_False by (apply Hq; lia).
      assert (tail_at (put cs' c f) q = tail_at cs' q) as -> by (rewrite Hf; by destruct (decide (q = c)) as [->|]).
      apply Wo. intros s Hs. apply Hq. lia.
Qed.

(** Is a sequence in a set? *)
Lemma in_sets_dec q : {s | (s < n_seqs)%nat /\ q ∈ ids_of s} + {forall s, (s < n_seqs)%nat -> q ∉ ids_of s}.
Proof.
  destruct (list_find (fun s => q ∈ ids_of s) (seq 0 n_seqs)) as [[i s]|] eqn:Hf; [left; exists s|right].
  - apply list_find_Some in Hf as (Hl & Hq & _). apply lookup_seq in Hl. split; [lia|done].
  - intros s Hs. apply list_find_None in Hf. rewrite Forall_forall in Hf. apply Hf, elem_of_seq. lia.
Qed.

(** What the first sequence of set [s] saw before: its cell's position and state. *)
Definition old_val (s : nat) : D := if 0 <=? tail_at cs0 (first_of s) then val_at zero rows (cell_at cs0 (tail_at cs0 (first_of s))) else zero.

(** The other sequences of a set have left their cells; positions do not overflow. *)
Record ready : Prop := {
  rd_alone : forall s q, (s < n_seqs)%nat -> q ∈ ids_of s -> q <> first_of s -> tail_at cs0 q < 0;
  rd_tokens : Z.of_nat (ub_n_seq_tokens u) <= INT32_MAX;
  rd_pos : forall s, (s < n_seqs)%nat -> 0 <= tail_at cs0 (first_of s) ->
    pos_at cs0 (tail_at cs0 (first_of s)) + Z.of_nat (ub_n_seq_tokens u) <= INT32_MAX;
}.

(** The cells when the sets have entered theirs. *)
Record entered (mn mx : Z) (cs : list mem_cell) : Prop := {
  en_len : length cs = length cs0;
  en_range : 0 <= mn /\ mn + Z.of_nat n_seqs <= mx + 1 /\ mx < N;
  en_own : own_ok cs ∅;
  en_in : forall s q, (s < n_seqs)%nat -> q ∈ ids_of s -> tail_at cs q = Z.of_nat s + mn;
  en_set : forall s, (s < n_seqs)%nat -> pos_at cs (Z.of_nat s + mn) = last_of s /\
    ids_at cs (Z.of_nat s + mn) = list_to_set (ids_of s) /\ val_at zero rows (cell_at cs (Z.of_nat s + mn)) = old_val s;
  en_other : forall q, in_cells cs0 q -> (forall s, (s < n_seqs)%nat -> q ∉ ids_of s) ->
    (tail_at cs0 q < 0 -> tail_at cs q = -1) /\
    (0 <= tail_at cs0 q -> 0 <= tail_at cs q /\ pos_at cs (tail_at cs q) = pos_at cs0 (tail_at cs0 q) /\
                           src_at cs (tail_at cs q) = src_at cs0 (tail_at cs0 q));
  en_src : forall i, in_cells cs i -> src_at cs i = -1 \/ in_cells cs (src_at cs i);
  en_free : forall i, in_cells cs i -> ids_at cs i = ∅ -> pos_at cs i = -1 /\ val_at zero rows (cell_at cs i) = zero;
  en_busy : forall i, in_cells cs i -> ids_at cs i <> ∅ -> 0 <= pos_at cs i <= INT32_MAX;
  en_out : forall i, in_cells cs i -> ~ (mn <= i <= mx) -> (src_at cs i = -1 \/ src_at cs i = i) /\ (ids_at cs i <> ∅ -> src_at cs i = i);
}.

Section gathered.
Context (Rd : ready) (cs : list mem_cell) (R : gset Z) (mn mx : Z) (G : gather_inv zero rows cs0 u R mn mx n_seqs cs)
  (HR : forall x, x ∈ R -> x ∈ firsts u n_seqs) (Hmn : 0 <= mn) (Hmx : mx < N) (Hle : mn <= mx + 1).

Lemma gathered_in q : in_cells cs q <-> in_cells cs0 q.
Proof. eapply mid_in, G. Qed.

(** The cell of a set holds what its first sequence saw. *)
Lemma gathered_set s : (s < n_seqs)%nat -> val_at zero rows (cell_at cs (Z.of_nat s + mn)) = old_val s /\
  pos_at cs (Z.of_nat s + mn) + Z.of_nat (ub_n_seq_tokens u) <= INT32_MAX.
Proof.
  intros Hs. destruct G as (M & P & T). pose proof (mi_own _ _ _ _ _ _ _ M) as O. pose proof (first_range cs0 u U s Hs) as Hf. apply gathered_in in Hf as Hf'.
  unfold old_val. rewrite <- (T s Hs). destruct (decide (first_of s ∈ R)) as [HsR|HsR].
  - pose proof (mi_res _ _ _ _ _ _ _ M _ HsR) as Hneg. rewrite (proj2 (Z.leb_gt 0 _)) by done. destruct (ow_res _ _ O _ HsR) as (_ & Hin & Hex).
    assert (Hemp : ids_at cs (tail_at cs (first_of s)) = ∅).
    { apply set_eq. intros x. split; [|set_solver]. intros Hx. apply (ow_ids _ _ O) in Hx as (H1 & H2 & H3); [|done]. by rewrite (Hex x H1 H3) in H2. }
    destruct (mi_free _ _ _ _ _ _ _ M _ Hin Hemp) as (-> & -> & _). pose proof (rd_tokens Rd). split; [done|lia].
  - destruct (mi_keep _ _ _ _ _ _ _ M _ Hf' HsR) as [K1 K2]. destruct (Z.leb_spec 0 (tail_at cs0 (first_of s))) as [Ht|Ht].
    + destruct (K2 Ht) as (_ & -> & Hsrc). unfold val_at. rewrite Hsrc. split; [done|]. by apply (rd_pos Rd).
    + specialize (K1 Ht). rewrite T in K1 by done. lia.
Qed.

(** Is a cell that of a set; is a sequence in a set? *)
Lemma set_cell j : {s | (s < n_seqs)%nat /\ j = Z.of_nat s + mn} + {forall s, (s < n_seqs)%nat -> j <> Z.of_nat s + mn}.
Proof. destruct (decide (mn <= j < mn + Z.of_nat n_seqs)) as [Hj|Hj]; [left; exists (Z.to_nat (j - mn)); lia|right; lia]. Qed.

(** The cell of a set belongs to its first sequence alone. *)
Lemma gathered_excl q s : in_cells cs q -> (s < n_seqs)%nat -> tail_at cs q = Z.of_nat s + mn -> q = first_of s.
Proof.
  destruct G as (M & P & T). intros Hq Hs He. destruct (P (first_of s)) as (_ & _ & _ & H); [apply elem_of_firsts; by exists s|].
  apply H; [done|]. by rewrite T.
Qed.

Lemma gathered_out q : (forall s, (s < n_seqs)%nat -> q ∉ ids_of s) -> q ∉ R.
Proof. intros Hq HqR. apply HR, elem_of_firsts in HqR as (s & Hs & ->). by apply (Hq s Hs), (first_in cs0 u U). Qed.

(** The other sequences of a set have no cell. *)
Lemma gathered_alone s q : (s < n_seqs)%nat -> q ∈ ids_of s -> q <> first_of s -> tail_at cs q = -1.
Proof.
  destruct G as (M & P & T). intros Hs Hq Hne. destruct (mi_keep _ _ _ _ _ _ _ M q) as [K _].
  - apply gathered_in. by apply (ru_range _ _ U s).
  - intros HqR. apply HR, elem_of_firsts in HqR as (s' & Hs' & ->). apply Hne. f_equal.
    eapply (sets_disjoint cs0 u U); [done|done|by apply (first_in cs0 u U)|done].
  - apply K. by eapply rd_alone.
Qed.

Section written.
Context (cs' : list mem_cell) (W : written cs mn n_seqs cs').

Lemma written_in j : in_cells cs' j <-> in_cells cs j.
Proof. unfold in_cells. by rewrite (wr_len _ _ _ _ W). Qed.

Lemma written_own : own_ok cs' ∅.
Proof.
  pose proof G as (M & P & T). pose proof (mi_own _ _ _ _ _ _ _ M) as O. pose proof (range_wide cs0 u U cs mn mx P Hle) as Hw. destruct W as [Wl Ws Wn Wc Wi Wo].
  split; [| |set_solver].
  - intros q Hq%written_in. rewrite written_in. destruct (in_sets_dec q) as [(s & Hs & Hqs)|Hno]; [right|rewrite Wo by done; by apply (ow_tail _ _ O)].
    rewrite (Wi s) by done. apply gathered_in. unfold in_cells. lia.
  - intros i x Hi%written_in. rewrite written_in. destruct (set_cell i) as [(s & Hs & ->)|Hno].
    + destruct (Wn s Hs) as [_ ->]. rewrite elem_of_list_to_set. split.
      * intros Hx. split_and!; [apply gathered_in; by apply (ru_range _ _ U s)|set_solver|by apply Wi].
      * intros (Hx & _ & Ht). destruct (in_sets_dec x) as [(s' & Hs' & Hxs)|Hno].
        { rewrite (Wi s') in Ht by done. by replace s with s' by lia. }
        rewrite Wo in Ht by done. apply gathered_excl in Ht as ->; [|done|done]. exfalso. by apply (Hno s Hs), (first_in cs0 u U).
    + destruct (Wc i Hno) as [_ ->]. rewrite (ow_ids _ _ O) by done. destruct (in_sets_dec x) as [(s' & Hs' & Hxs)|Hnx].
      * rewrite (Wi s') by done. split; [|intros (_ & _ & <-); by destruct (Hno s' Hs')]. intros (Hx & _ & <-). exfalso.
        destruct (decide (x = first_of s')) as [->|Hne]; [by apply (Hno s' Hs'), T|].
        pose proof (gathered_alone s' x Hs' Hxs Hne) as Hneg. destruct Hi; lia.
      * rewrite Wo by done. pose proof (gathered_out x Hnx). set_solver.
Qed.

Lemma written_other q : in_cells cs0 q -> (forall s, (s < n_seqs)%nat -> q ∉ ids_of s) ->
  (tail_at cs0 q < 0 -> tail_at cs' q = -1) /\
  (0 <= tail_at cs0 q -> 0 <= tail_at cs' q /\ pos_at cs' (tail_at cs' q) = pos_at cs0 (tail_at cs0 q) /\
                         src_at cs' (tail_at cs' q) = src_at cs0 (tail_at cs0 q)).
Proof.
  pose proof G as (M & P & T). destruct W as [Wl Ws Wn Wc Wi Wo].
  intros Hq%gathered_in Hno. rewrite Wo, Ws by done. destruct (mi_keep _ _ _ _ _ _ _ M q Hq (gathered_out q Hno)) as [K1 K2]. split; [done|]. intros Ht.
  destruct (K2 Ht) as (H1 & H2 & H3). split_and!; [done| |done]. rewrite <- H2. apply Wc. intros s Hs He. apply gathered_excl in He as ->; [|done|done].
  by apply (Hno s Hs), (first_in cs0 u U).
Qed.

Lemma written_entered : entered mn mx cs'.
Proof.
  pose proof G as (M & P & T). pose proof (range_wide cs0 u U cs mn mx P Hle) as Hw. pose proof W as [Wl Ws Wn Wc Wi Wo].
  split; [|split_and!; [done|lia|done]|apply written_own|done| |apply written_other| | | |].
  - rewrite Wl. apply M.
  - intros s Hs. destruct (Wn s Hs) as [-> ->]. split_and!; [done|done|]. destruct (gathered_set s Hs) as [<- _]. unfold val_at. by rewrite Ws.
  - intros i Hi%written_in. rewrite Ws, written_in. destruct (decide (ids_at cs i = ∅)) as [He|He]; [by apply (mi_free _ _ _ _ _ _ _ M)|right; by apply (mi_busy _ _ _ _ _ _ _ M)].
  - intros i Hi%written_in. unfold val_at. rewrite Ws. destruct (set_cell i) as [(s & Hs & ->)|Hno].
    + destruct (Wn s Hs) as [_ ->]. intros H. exfalso. pose proof (first_in cs0 u U s Hs). set_solver.
    + destruct (Wc i Hno) as [-> ->]. intros H. by destruct (mi_free _ _ _ _ _ _ _ M i Hi H) as (? & ? & _).
  - intros i Hi%written_in He. destruct (set_cell i) as [(s & Hs & ->)|Hno].
    + destruct (Wn s Hs) as [-> _]. by apply (ru_pos _ _ U).
    + destruct (Wc i Hno) as [Hp Hid]. rewrite Hp. rewrite Hid in He. by apply (mi_busy _ _ _ _ _ _ _ M).
  - intros i Hi%written_in Hout. rewrite Ws. pose proof (mi_out _ _ _ _ _ _ _ M i Hi Hout) as Ho. split; [done|].
    destruct (Wc i) as [_ ->]; [intros s Hs; lia|]. intros He. destruct Ho as [Hs|]; [|done]. destruct (mi_busy _ _ _ _ _ _ _ M i Hi He) as [_ [H _]]. lia.
Qed.

End written.

Lemma place_ok : sat (mfor (place_step u mn) (seq 0 n_seqs) cs) (entered mn mx).
Proof.
  pose proof G as (M & P & T). pose proof (range_wide cs0 u U cs mn mx P Hle) as Hw. eapply sat_mono; [|apply written_entered].
  apply (sat_for _ (written cs mn)); [split; (done || lia)|]. intros k cs' Hk W. apply place_step_ok; [apply M|done|done|lia|by apply gathered_set|done].
Qed.

End gathered.

End place.

(** ** The free row *)

Lemma count_refs_ok cs : (forall i, in_cells cs i -> src_at cs i < 0 \/ in_cells cs (src_at cs i)) ->
  sat (count_refs cs) (fun refs => length refs = length cs /\
    forall j, in_cells cs j -> refs !! Z.to_nat j = Some (Z.of_nat (length (filter (fun c => mc_src c = j) cs)))).
Proof.
  intros Hs. unfold count_refs. apply (sat_mfor _ (fun d refs => length refs = length cs /\
    forall j, in_cells cs j -> refs !! Z.to_nat j = Some (Z.of_nat (length (filter (fun c => mc_src c = j) d))))).
  - split; [apply length_replicate|]. intros j Hj. cbn. apply lookup_replicate. unfold in_cells in Hj. lia.
  - intros d c r refs Heq [Hl Hj].
    assert (Hc : mc_src c < 0 \/ in_cells cs (mc_src c)).
    { assert (Hlk : cs !! length d = Some c) by (rewrite Heq, lookup_app_r, Nat.sub_diag by lia; done).
      pose proof (lookup_lt_Some _ _ _ Hlk). rewrite <- (cell_at_lookup _ _ _ Hlk). apply Hs. unfold in_cells. lia. }
    destruct (Z.leb_spec 0 (mc_src c)) as [H0|H0].
    + destruct Hc as [|Hc]; [lia|]. unfold vec_getZ, vec_setZ. rewrite (proj2 (Z.leb_le _ _)) by done.
      apply sat_bind, (sat_vec_get _ _ _ _ (Hj _ Hc)), sat_vec_set; [unfold in_cells in Hc; lia|]. split; [by rewrite length_insert|].
      intros j Hjin. rewrite filter_app, length_app, filter_cons, filter_nil. destruct (decide (mc_src c = j)) as [<-|Hne]; cbn [length].
      * rewrite list_lookup_insert_eq by (unfold in_cells in Hc; lia). f_equal. lia.
      * rewrite list_lookup_insert_ne by (destruct Hjin; lia). rewrite Hj by done. f_equal. lia.
    + apply sat_ok. split; [done|]. intros j Hjin. rewrite filter_app, length_app, filter_cons, filter_nil. destruct (decide (mc_src c = j)) as [<-|Hne]; [destruct Hjin; lia|].
      cbn. rewrite Nat.add_0_r. by apply Hj.
Qed.

(** A row is found that no cell needs, if there is one in the range. *)
Lemma first_unreferenced_ok cs refs range : length refs = length cs ->
  (forall j, in_cells cs j -> refs !! Z.to_nat j = Some (Z.of_nat (length (filter (fun c => mc_src c = j) cs)))) ->
  (forall j, j ∈ range -> in_cells cs j) ->
  sat (first_unreferenced refs range) (fun z =>
    (z = -1 /\ forall j, j ∈ range -> exists i, in_cells cs i /\ src_at cs i = j) \/ (z ∈ range /\ forall i, in_cells cs i -> src_at cs i <> z)).
Proof.
  intros Hl Hr. induction range as [|j range IH]; intros Hin; [apply sat_ok; left; split; [done|set_solver]|].
  cbn [first_unreferenced]. unfold vec_getZ. assert (Hj : in_cells cs j) by (apply Hin; set_solver). rewrite (proj2 (Z.leb_le 0 j)) by apply Hj.
  apply sat_bind, (sat_vec_get _ _ _ _ (Hr j Hj)). destruct (Z.eqb_spec (Z.of_nat (length (filter (fun c => mc_src c = j) cs))) 0) as [H0|H0].
  - apply sat_ok. right. split; [set_solver|]. intros i Hi He. assert (Hc : cell_at cs i ∈ filter (fun c => mc_src c = j) cs).
    { apply list_elem_of_filter. split; [done|]. eapply list_elem_of_lookup_2, lookup_cell_at, Hi. }
    destruct (filter _ cs); [set_solver|cbn in H0; lia].
  - eapply sat_mono; [apply IH; set_solver|]. intros z [[-> Hall]|[Hz Hno]]; [left|right; split; [set_solver|done]].
    split; [done|]. intros j' [->|Hj']%elem_of_cons; [|by apply Hall].
    destruct (filter (fun c => mc_src c = j) cs) as [|c l] eqn:Hf; [done|]. assert (Hc : c ∈ filter (fun c => mc_src c = j) cs) by (rewrite Hf; set_solver).
    apply list_elem_of_filter in Hc as [Hc [k Hk]%list_elem_of_lookup]. exists (Z.of_nat k). rewrite (cell_at_lookup _ _ _ Hk). split; [|done].
    apply lookup_lt_Some in Hk. unfold in_cells. lia.
Qed.

(** ** The sources of the graph *)

Record staged (z : Z) (cs : list mem_cell) (range : list Z) (cs' : list mem_cell) : Prop := {
  st_len : length cs' = length cs;
  st_meta : forall j, tail_at cs' j = tail_at cs j /\ ids_at cs' j = ids_at cs j /\ pos_at cs' j = pos_at cs j;
  st_src : forall j, j ∈ range -> src_at cs' j = j /\ mc_src0 (cell_at cs' j) = if src_at cs j <? 0 then z else src_at cs j;
  st_old : forall j, j ∉ range -> cell_at cs' j = cell_at cs j;
}.

Lemma stage_ok z cs range : NoDup range -> (forall j, j ∈ range -> in_cells cs j) ->
  ((exists j, j ∈ range /\ src_at cs j < 0) -> 0 <= z) -> sat (mfor (stage_step z) range cs) (staged z cs range).
Proof.
  intros Hnd Hin Hz. apply (sat_mfor _ (fun d cs' => staged z cs d cs')); [split; (done || set_solver)|].
  intros d j r cs' -> [Sl Sm Ss So]. apply NoDup_app in Hnd as (_ & Hd & _). assert (Hjd : j ∉ d) by (intros H; apply (Hd j H); set_solver).
  assert (Hj : in_cells cs' j) by (unfold in_cells; rewrite Sl; apply Hin; set_solver). unfold stage_step. cells_step. rewrite (So j Hjd).
  assert (Hs0 : (if src_at cs j <? 0 then _ ← assert_ (0 <=? z); Ok z else Ok (src_at cs j)) = Ok (if src_at cs j <? 0 then z else src_at cs j)).
  { destruct (Z.ltb_spec (src_at cs j) 0); [|done]. rewrite (proj2 (Z.leb_le 0 z)); [done|]. apply Hz. exists j. split; [set_solver|done]. }
  rewrite Hs0. cells_step. apply sat_ok. split.
  - by rewrite length_put.
  - intros k. rewrite cell_at_put by done. destruct (Sm k) as (H1 & H2 & H3). destruct (decide (k = j)) as [->|]; [|done]. cbn. by rewrite So.
  - intros k Hk. rewrite cell_at_put by done. destruct (decide (k = j)) as [->|]; [done|]. apply Ss. set_solver.
  - intros k Hk. rewrite cell_at_put by done. rewrite decide_False by set_solver. apply So. set_solver.
Qed.

(** * The recurrent memory: [find_slot] and the graph

    The phases of [find_slot] put together; what [build_rs] delivers and leaves behind; and the
    effect of a whole micro-batch on what the sequences see. *)

(** ** The check of the ids *)

Section check.
Context {D : Type} (zero : D) (rows : list D).

(** [cs'] with [used'] is [cs] without the cells of the sequences in [l]. *)
Definition dropped (cs : list mem_cell) (l : list Z) (s : list mem_cell * Z) : Prop :=
  cells_ok zero s.1 rows /\ s.2 = Z.of_nat (n_busy s.1) /\ length s.1 = length cs /\
  forall q, view zero s.1 rows q = if decide (q ∈ l) then None else view zero cs rows q.

Lemma dropped_start cs used : cells_ok zero cs rows -> used = Z.of_nat (n_busy cs) -> dropped cs [] (cs, used).
Proof. intros C Hu. split_and!; [done|done|done|]. intros q. by rewrite decide_False by set_solver. Qed.

Lemma dropped_more cs l s l' s' : dropped cs l s -> dropped s.1 l' s' -> dropped cs (l ++ l') s'.
Proof.
  intros (_ & _ & L1 & V1) (C2 & U2 & L2 & V2). split_and!; [done|done|congruence|]. intros q. rewrite V2, V1.
  pose proof (elem_of_app l l' q). destruct (decide (q ∈ l')), (decide (q ∈ l)), (decide (q ∈ l ++ l')); tauto.
Qed.

Lemma check_ids_ok size cs ids : forall j s, (0 < j)%nat -> cells_ok zero s.1 rows -> s.2 = Z.of_nat (n_busy s.1) -> length s.1 = length cs ->
  size = Z.of_nat (length cs) -> size < 2 ^ 31 -> (forall q, q ∈ ids -> in_cells cs q) ->
  sat (check_ids size j ids s) (fun '(s', ok) => ok = true /\ dropped s.1 ids s').
Proof.
  induction ids as [|id ids IH]; intros j [cs1 used] Hj C Hu Hl Hsz Hlt Hin; cbn [fst snd] in *.
  - apply sat_ok. split; [done|]. by apply dropped_start.
  - cbn [check_ids]. assert (Hid : in_cells cs id) by (apply Hin; set_solver).
    assert ((id <? 0) || (size <=? id) = false) as -> by (unfold in_cells in Hid; lia). rewrite (proj2 (Nat.ltb_lt 0 j)) by done.
    destruct (drop_tail_ok zero cs1 rows used id) as (cs2 & used2 & -> & C2 & Hu2 & Hl2 & V2 & _); [done|unfold in_cells; by rewrite Hl|done|lia|].
    cbn [mbind res_bind]. eapply sat_mono.
    + apply IH; cbn [fst snd]; [lia|done|done|congruence|done|done|]. intros q Hq. apply Hin. set_solver.
    + intros [s' ok] [-> Hd]. split; [done|]. apply (dropped_more cs1 [id] (cs2, used2)); [|done]. split_and!; [done|done|done|].
      intros q. rewrite V2. destruct (decide (q = id)) as [->|]; [by rewrite decide_True by set_solver|by rewrite decide_False by set_solver].
Qed.

Context {E : Type} (u : llama_ubatch E).

Definition seconds (sets : list nat) : list Z := concat ((fun s => tail (ids_of u s)) <$> sets).

Lemma check_sets_ok (cs : list mem_cell) size (U : rubatch_ok u size) : size = Z.of_nat (length cs) -> size < 2 ^ 31 ->
  forall sets s, (forall i, i ∈ sets -> (i < ub_n_seqs u)%nat) -> cells_ok zero s.1 rows -> s.2 = Z.of_nat (n_busy s.1) -> length s.1 = length cs ->
  sat (check_sets_ids u size sets s) (fun '(s', ok) => ok = true /\ dropped s.1 (seconds sets) s').
Proof.
  intros Hsz Hlt. induction sets as [|i sets IH]; intros [cs1 used] Hsets C Hu Hl; cbn [fst snd] in *.
  - apply sat_ok. split; [done|]. by apply dropped_start.
  - cbn [check_sets_ids]. assert (Hi : (i < ub_n_seqs u)%nat) by (apply Hsets; set_solver). destruct (ru_ids _ _ U i Hi) as (Hid & Hn & Hne).
    apply sat_bind, (sat_vec_get _ _ _ _ Hn). unfold set_ids_of. apply sat_bind, (sat_vec_get _ _ _ _ Hid). rewrite Nat2Z.id.
    assert (Hm : mmap (vec_get (ids_of u i)) (seq 0 (length (ids_of u i))) = Ok (ids_of u i)).
    { rewrite (mmap_fmap _ (fun j => default 0 (ids_of u i !! j))).
      - f_equal. apply list_eq. intros j. rewrite list_lookup_fmap. destruct (decide (j < length (ids_of u i))%nat) as [Hj|Hj].
        + rewrite lookup_seq_lt by done. cbn. by destruct (lookup_lt_is_Some_2 _ _ Hj) as [x ->].
        + rewrite lookup_seq_ge by lia. symmetry. apply lookup_ge_None. lia.
      - intros j Hj%elem_of_seq. apply vec_get_ok. destruct (lookup_lt_is_Some_2 (ids_of u i) j) as [x ->]; [lia|done]. }
    rewrite Hm. cbn [mbind res_bind]. pose proof (ru_range _ _ U i) as Hr.
    unfold seconds. cbn [fmap list_fmap concat]. destruct (ids_of u i) as [|id ids] eqn:Hids; [done|]. cbn [check_ids tail].
    assert (Hr' : forall q, q ∈ id :: ids -> in_cells cs q) by (intros q Hq; unfold in_cells; rewrite <- Hsz; by apply Hr).
    pose proof (Hr' id ltac:(set_solver)) as Hid0. assert ((id <? 0) || (size <=? id) = false) as -> by (unfold in_cells in Hid0; lia).
    cbn [mbind res_bind]. apply sat_bind. eapply sat_mono.
    + apply (check_ids_ok size cs ids 1 (cs1, used)); cbn [fst snd]; [lia|done|done|done|done|done|]. intros q Hq. apply Hr'. set_solver.
    + intros [[cs2 used2] ok] [-> Hd]. pose proof Hd as (C2 & Hu2 & Hl2 & V2). cbn [fst snd] in *. eapply sat_mono.
      * apply IH; cbn [fst snd]; [|done|done|congruence]. intros k Hk. apply Hsets. set_solver.
      * intros [s' ok'] [-> Hd']. split; [done|]. apply (dropped_more cs1 ids (cs2, used2)); [done|done].
Qed.

End check.

(** *** The sequences that leave their cells *)

Lemma elem_of_tail (q : Z) l : q ∈ tail l -> q ∈ l.
Proof. destruct l; set_solver. Qed.

Lemma NoDup_concat_elem {A} (f : A -> list Z) l x : NoDup (concat (f <$> l)) -> x ∈ l -> NoDup (f x).
Proof.
  induction l as [|y l IH]; intros Hnd Hx; [set_solver|]. cbn in Hnd. apply NoDup_app in Hnd as (H1 & _ & H2).
  apply elem_of_cons in Hx as [->|Hx]; [done|by apply IH].
Qed.

Lemma seconds_spec {E} (u : llama_ubatch E) cs (U : rubatch_ok u (Z.of_nat (length (cs : list mem_cell)))) s q :
  (s < ub_n_seqs u)%nat -> q ∈ ids_of u s -> q ∈ seconds u (seq 0 (ub_n_seqs u)) <-> q <> first_of u s.
Proof.
  intros Hs Hq. unfold seconds. split.
  - intros (s' & Hs' & Hq')%elem_of_concat_fmap Heq. apply elem_of_seq in Hs'.
    assert (s' = s) as -> by (eapply (sets_disjoint cs u U); [lia|done|by apply elem_of_tail|done]).
    pose proof (NoDup_concat_elem (ids_of u) _ s (ru_disjoint _ _ U)) as Hnd. rewrite elem_of_seq in Hnd. specialize (Hnd Hs').
    subst q. unfold first_of in Hq'. destruct (ids_of u s) as [|x l]; [set_solver|]. cbn in Hq'. apply NoDup_cons in Hnd as [? _]. done.
  - intros Hne. apply elem_of_concat_fmap. exists s. split; [apply elem_of_seq; lia|]. unfold first_of in Hne.
    destruct (ids_of u s) as [|x l]; [set_solver|]. cbn in *. set_solver.
Qed.

(** ** The whole of [find_slot] *)

Section find_slot.
Context {D : Type} (zero : D) (rows : list D) {E : Type} (u : llama_ubatch E).
Abbreviation n_seqs := (ub_n_seqs u).

(** A micro-batch with sequences, whose positions do not overflow. *)
Record rs_placeable (m : llama_memory_recurrent) : Prop := {
  pl_batch : rubatch_ok u (rs_size m);
  pl_some : (0 < n_seqs)%nat;
  pl_tokens : Z.of_nat (ub_n_seq_tokens u) <= INT32_MAX;
  pl_pos : forall s p x, (s < n_seqs)%nat -> view zero (rs_cells m) rows (first_of u s) = Some (p, x) -> p + Z.of_nat (ub_n_seq_tokens u) <= INT32_MAX;
}.

(** The memory when the slot is found: [cs] are the cells before the sources are staged. *)
Record found (cs1 : list mem_cell) (mn mx : Z) (cs : list mem_cell) (m' : llama_memory_recurrent) : Prop := {
  fo_entered : entered zero rows cs1 u mn mx cs;
  fo_staged : staged (rs_rs_z m') cs (seqZ mn (mx - mn + 1)) (rs_cells m');
  fo_head : rs_head m' = mn;
  fo_n : rs_n m' = mx - mn + 1;
  fo_one : n_seqs = 1%nat -> mn = mx;
  fo_used : rs_used m' = Z.of_nat (n_busy (rs_cells m'));
  fo_z : (rs_rs_z m' = -1 /\ forall i, mn <= i <= mx -> 0 <= src_at cs i) \/
         (mn <= rs_rs_z m' <= mx /\ forall i, in_cells cs i -> src_at cs i <> rs_rs_z m');
}.

(** When a cell of the range has no source, some row of the range is free. *)
Lemma no_source_free cs1 mn mx cs : entered zero rows cs1 u mn mx cs ->
  (forall j, j ∈ seqZ mn (mx - mn + 1) -> exists i, in_cells cs i /\ src_at cs i = j) -> forall i, mn <= i <= mx -> 0 <= src_at cs i.
Proof.
  intros En Hall i Hi. destruct (Z.leb_spec 0 (src_at cs i)) as [|Hneg]; [done|]. exfalso.
  apply (pigeon (seqZ mn (mx - mn + 1)) (fun i => src_at cs i) i); [apply NoDup_seqZ|apply elem_of_seqZ; lia|].
  intros y Hy. destruct (Hall y Hy) as (z & Hz & Hzy). apply elem_of_seqZ in Hy. pose proof (en_range _ _ _ _ _ _ _ En) as (H0 & _ & _). exists z.
  split_and!; [|intros ->; lia|done]. apply elem_of_seqZ. destruct (decide (mn <= z <= mx)); [lia|]. exfalso.
  destruct (en_out _ _ _ _ _ _ _ En z Hz) as [[Hs|Hs] _]; [done|lia|lia].
Qed.

Lemma dropped_ready m cs1 used : rs_placeable m -> rs_size m = Z.of_nat (length cs1) ->
  dropped zero rows (rs_cells m) (seconds u (seq 0 n_seqs)) (cs1, used) -> rubatch_ok u (Z.of_nat (length cs1)) /\ ready cs1 u.
Proof.
  intros [U Hn Ht Hp] Hsz (C & Hu & Hl & V). cbn [fst snd] in *. rewrite Hsz in U. split; [done|]. pose proof (ce_own _ _ _ C) as O.
  pose proof (seconds_spec u cs1 U) as Hview.
  split; [|done|].
  - intros s q Hs Hq Hne. destruct (Z.ltb_spec (tail_at cs1 q) 0); [done|]. specialize (V q). rewrite decide_True in V by (by apply (Hview s)).
    rewrite view_some in V; [done|by apply (ru_range _ _ U s)|done].
  - intros s Hs Hts. specialize (V (first_of u s)). rewrite decide_False in V by (rewrite (Hview s) by (done || by apply (first_in cs1 u U)); by intros []).
    rewrite view_some in V by (done || by apply (first_range cs1 u U)). eapply (Hp s); [done|by rewrite <- V].
Qed.

(** The end of [find_slot]: the free row and the sources. *)
Lemma stage_found cs1 mn mx cs : Z.of_nat (length cs1) < 2 ^ 31 -> (0 < n_seqs)%nat -> (n_seqs = 1%nat -> mn = mx) -> entered zero rows cs1 u mn mx cs ->
  sat (refcounts ← count_refs cs;
       rs_z ← first_unreferenced refcounts (seqZ mn (mx - mn + 1));
       cells ← mfor (stage_step rs_z) (seqZ mn (mx - mn + 1)) cs;
       Ok (Recurrent mn (Z.of_nat (length (filter (fun c => negb (is_empty c)) cells))) (u32 (mx - mn + 1)) rs_z cells,
           Z.of_nat n_seqs <=? u32 (mx - mn + 1)))
      (fun '(m', ok) => ok = true /\ found cs1 mn mx cs m').
Proof.
  intros Hlt Hn H1s En. pose proof (en_range _ _ _ _ _ _ _ En) as (H0 & H1 & H2). pose proof (en_len _ _ _ _ _ _ _ En) as Hl.
  assert (Hrange : forall j, j ∈ seqZ mn (mx - mn + 1) -> in_cells cs j) by (intros j Hj%elem_of_seqZ; unfold in_cells; lia).
  apply sat_bind. eapply sat_mono; [apply count_refs_ok; intros i Hi; destruct (en_src _ _ _ _ _ _ _ En i Hi); [left; lia|by right]|].
  intros refs [Hrl Hr]. cbn beta. apply sat_bind. eapply sat_mono; [by apply (first_unreferenced_ok cs)|]. intros z Hz. cbn beta.
  assert (Hz' : (z = -1 /\ forall i, mn <= i <= mx -> 0 <= src_at cs i) \/ (mn <= z <= mx /\ forall i, in_cells cs i -> src_at cs i <> z)).
  { destruct Hz as [[-> Hz]|[Hz1%elem_of_seqZ Hz2]]; [left; split; [done|by eapply no_source_free]|right; split; [lia|done]]. }
  apply sat_bind. eapply sat_mono; [apply (stage_ok z); [apply NoDup_seqZ|done|]|].
  - intros (j & Hj%elem_of_seqZ & Hneg). destruct Hz' as [[-> Hz']|[Hz' _]]; [specialize (Hz' j); lia|lia].
  - intros cs' S. cbn beta. apply sat_ok. rewrite u32_id by lia. split; [lia|]. by split.
Qed.

Lemma recr_find_slot_ok m : recr_ok zero m rows -> rs_placeable m ->
  sat (recr_find_slot u m) (fun '(m', ok) => ok = true /\ exists cs1 used mn mx cs,
    dropped zero rows (rs_cells m) (seconds u (seq 0 n_seqs)) (cs1, used) /\ found cs1 mn mx cs m').
Proof.
  intros [R1 R2 R3 R4 R5] P. pose proof (pl_batch _ P) as U0. unfold recr_find_slot. set (head := if _ <? rs_head m then 0 else rs_head m).
  assert (Hh : 0 <= head < rs_size m) by (unfold head; destruct (_ <? _); lia). rewrite (ru_equal _ _ U0). cbn [assert_ mbind res_bind].
  apply sat_bind. eapply sat_mono; [apply (check_sets_ok zero rows u (rs_cells m) _ U0); [done|lia| |done|done|done]; intros i Hi%elem_of_seq; lia|].
  intros [[cs1 used] ok] [-> Hd]. pose proof Hd as (C & _ & Hl & _). cbn [fst snd negb] in *.
  assert (Hsz : rs_size m = Z.of_nat (length cs1)) by (unfold rs_size; by rewrite Hl). rewrite Hsz in *.
  destruct (dropped_ready m cs1 used P Hsz Hd) as [U Rd]. assert (Hlen : (0 < length cs1)%nat) by lia.
  destruct (search_first zero rows cs1 head C) as (e & -> & Hse); [done|]. cbn [mbind res_bind].
  apply sat_bind. eapply sat_mono; [by apply (range_ok zero rows cs1 u U e e)|]. intros [[[cs2 e2] mn] mx] (R & M & Pl & HR & _ & Hmn & Hmx & _ & H1s).
  cbn beta. assert (Hle : mn <= mx).
  { destruct (Pl (first_of u 0)) as (_ & _ & H & _); [apply elem_of_firsts; exists 0%nat; split; [apply P|done]|lia]. }
  apply sat_bind. eapply sat_mono; [apply (gather_ok zero rows cs1 u U cs2 R mn mx); done || lia|]. intros cs3 G. cbn beta.
  apply sat_bind. eapply sat_mono; [apply (place_ok zero rows cs1 u U Rd cs3 R mn mx); done || lia|]. intros cs4 En. cbn beta.
  eapply sat_mono; [apply (stage_found cs1 mn mx cs4); [lia|apply P|done|done]|]. intros [m' ok] [-> F]. split; [done|]. by exists cs1, used, mn, mx, cs4.
Qed.

(** ** The graph *)

Lemma mmap_compose {A B C} (f : B -> res C) (g : A -> B) l : mmap f (g <$> l) = mmap (fun x => f (g x)) l.
Proof. induction l as [|x l IH]; [done|]. cbn [fmap list_fmap mmap]. by rewrite <- IH. Qed.

Definition rows_set (b : Z) (xs : list D) (rows : list D) : res (list D) :=
  mfor (fun rows '(i, x) => vec_setZ rows (b + Z.of_nat i) x) (zip (seq 0 (length xs)) xs) rows.

Lemma rows_set_ok b xs rs : 0 <= b -> b + Z.of_nat (length xs) <= Z.of_nat (length rs) ->
  sat (rows_set b xs rs) (fun rs' => length rs' = length rs /\ forall j, 0 <= j ->
    row_at zero rs' j = if decide (b <= j < b + Z.of_nat (length xs)) then default zero (xs !! Z.to_nat (j - b)) else row_at zero rs j).
Proof.
  intros Hb Hlen. unfold rows_set. eapply sat_mono.
  - apply (sat_mfor _ (fun d rs' => length rs' = length rs /\ forall j, 0 <= j ->
      row_at zero rs' j = if decide (b <= j < b + Z.of_nat (length d)) then default zero (xs !! Z.to_nat (j - b)) else row_at zero rs j)).
    + split; [done|]. intros j Hj. rewrite decide_False by (cbn; lia). done.
    + intros d [i x] r rs' Heq [Hl Hj]. assert (Hix : zip (seq 0 (length xs)) xs !! length d = Some (i, x)) by (rewrite Heq, lookup_app_r, Nat.sub_diag by lia; done).
      apply lookup_zip_with_Some in Hix as (i' & x' & [= <- <-] & Hi & Hx). apply lookup_seq in Hi as [-> Hlt]. cbn [Nat.add].
      unfold vec_setZ. rewrite (proj2 (Z.leb_le 0 _)) by lia. apply sat_vec_set; [lia|]. split; [by rewrite length_insert|].
      intros j Hj0. rewrite length_app. cbn [length]. unfold row_at. destruct (decide (j = b + Z.of_nat (length d))) as [->|Hne].
      * rewrite list_lookup_insert_eq by lia. rewrite decide_True by lia. replace (Z.to_nat (b + Z.of_nat (length d) - b)) with (length d) by lia. by rewrite Hx.
      * rewrite list_lookup_insert_ne by lia. specialize (Hj j Hj0). unfold row_at in Hj. rewrite Hj.
        destruct (decide (b <= j < b + Z.of_nat (length d))); [by rewrite decide_True by lia|by rewrite decide_False by lia].
  - intros rs' H. by rewrite length_zip, length_seq, Nat.min_id in H.
Qed.

Section graph.
Context (cs1 : list mem_cell) (mn mx : Z) (cs : list mem_cell) (m' : llama_memory_recurrent) (F : found cs1 mn mx cs m')
  (Hlen : length rows = length cs1) (Hsize : Z.of_nat (length cs1) < 2 ^ 31) (Hle : mn <= mx).

(** The state of cell [j] before the graph. *)
Definition old_at (j : Z) : D := val_at zero rows (cell_at cs j).

(** The rows with the free row zeroed. *)
Definition zeroed : list D := if 0 <=? rs_rs_z m' then <[Z.to_nat (rs_rs_z m') := zero]> rows else rows.

Lemma zeroed_ok : (if 0 <=? rs_rs_z m' then vec_setZ rows (rs_rs_z m') zero else Ok rows) = Ok zeroed.
Proof.
  unfold zeroed. pose proof (en_range _ _ _ _ _ _ _ (fo_entered _ _ _ _ _ F)) as (H0 & H1 & H2).
  destruct (Z.leb_spec 0 (rs_rs_z m')) as [Hz|]; [|done]. unfold vec_setZ, vec_set. rewrite (proj2 (Z.leb_le _ _)) by done.
  rewrite decide_True; [done|]. destruct (fo_z _ _ _ _ _ F) as [[Hz' _]|[Hz' _]]; lia.
Qed.

Lemma length_zeroed : length zeroed = length rows.
Proof. unfold zeroed. destruct (_ <=? _); [apply length_insert|done]. Qed.

Lemma row_at_zeroed j : 0 <= j -> j <> rs_rs_z m' -> row_at zero zeroed j = row_at zero rows j.
Proof.
  intros Hj Hne. unfold zeroed, row_at. destruct (Z.leb_spec 0 (rs_rs_z m')); [|done]. by rewrite list_lookup_insert_ne by lia.
Qed.

(** The source of a cell of the range holds its state. *)
Lemma source_ok j : mn <= j <= mx -> let s := mc_src0 (cell_at (rs_cells m') j) in
  vec_getZ zeroed s = Ok (old_at j).
Proof.
  intros Hj s. pose proof (fo_entered _ _ _ _ _ F) as En. pose proof (en_range _ _ _ _ _ _ _ En) as (H0 & H1 & H2). pose proof (en_len _ _ _ _ _ _ _ En) as Hl.
  destruct (st_src _ _ _ _ (fo_staged _ _ _ _ _ F) j) as [_ Hs]; [apply elem_of_seqZ; lia|]. fold s in Hs.
  assert (Hin : in_cells cs j) by (unfold in_cells; lia). unfold old_at, val_at.
  assert (Hget : forall i, 0 <= i < Z.of_nat (length rows) -> vec_getZ zeroed i = Ok (row_at zero zeroed i)).
  { intros i Hi. unfold vec_getZ, row_at, vec_get. rewrite (proj2 (Z.leb_le 0 i)) by lia.
    destruct (lookup_lt_is_Some_2 zeroed (Z.to_nat i)) as [x ->]; [rewrite length_zeroed; lia|done]. }
  destruct (Z.ltb_spec (src_at cs j) 0) as [Hneg|Hpos].
  - destruct (fo_z _ _ _ _ _ F) as [[_ Hz]|[Hz _]]; [specialize (Hz j Hj); lia|]. rewrite Hs, Hget by lia. f_equal.
    unfold row_at, zeroed. rewrite (proj2 (Z.leb_le 0 _)) by lia. by rewrite list_lookup_insert_eq by lia.
  - destruct (en_src _ _ _ _ _ _ _ En j Hin) as [|Hsin]; [lia|]. rewrite Hs, Hget by (unfold in_cells in Hsin; lia). f_equal.
    apply row_at_zeroed; [done|]. destruct (fo_z _ _ _ _ _ F) as [[Hz _]|[_ Hz]]; [lia|by apply Hz].
Qed.

Lemma s_copy_ok : mmap (recr_s_copy m') (seq 0 (Z.to_nat (rs_n m'))) =
  Ok ((fun i => mc_src0 (cell_at (rs_cells m') (Z.of_nat i + mn))) <$> seq 0 (Z.to_nat (mx - mn + 1))).
Proof.
  pose proof (fo_entered _ _ _ _ _ F) as En. pose proof (en_range _ _ _ _ _ _ _ En) as (H0 & H1 & H2). pose proof (en_len _ _ _ _ _ _ _ En) as Hl.
  rewrite (fo_n _ _ _ _ _ F). apply mmap_fmap. intros i Hi%elem_of_seq. unfold recr_s_copy. rewrite (fo_head _ _ _ _ _ F).
  rewrite get_cell; [done|]. unfold in_cells. rewrite (st_len _ _ _ _ (fo_staged _ _ _ _ _ F)). lia.
Qed.

Lemma gather_rows k n : (k + n <= Z.to_nat (mx - mn + 1))%nat ->
  mmap (vec_getZ zeroed) ((fun i => mc_src0 (cell_at (rs_cells m') (Z.of_nat i + mn))) <$> seq k n) = Ok ((fun i => old_at (Z.of_nat i + mn)) <$> seq k n).
Proof. intros Hk. rewrite mmap_compose. apply mmap_fmap. intros i Hi%elem_of_seq. apply source_ok. lia. Qed.

(** The sets get their states; the rows of the other cells of the range are brought up to date. *)
Lemma build_rs_ok : sat (build_rs zero m' n_seqs rows) (fun '(states, rows') =>
  states = old_val zero rows cs1 u <$> seq 0 n_seqs /\ length rows' = length rows /\
  forall j, 0 <= j -> (mn + Z.of_nat n_seqs <= j <= mx -> row_at zero rows' j = old_at j) /\ (~ (mn <= j <= mx) -> row_at zero rows' j = row_at zero rows j)).
Proof.
  pose proof (fo_entered _ _ _ _ _ F) as En. pose proof (en_range _ _ _ _ _ _ _ En) as (H0 & H1 & H2).
  unfold build_rs. rewrite s_copy_ok. cbn [mbind res_bind]. rewrite zeroed_ok. cbn [mbind res_bind].
  rewrite <- fmap_take, <- fmap_drop, take_seq, drop_seq, Nat.min_l by lia. rewrite !gather_rows by lia. cbn [mbind res_bind].
  rewrite (fo_head _ _ _ _ _ F). set (extra := _ <$> seq (0 + n_seqs) _). assert (Hex : length extra = (Z.to_nat (mx - mn + 1) - n_seqs)%nat) by (unfold extra; by rewrite length_fmap, length_seq).
  apply sat_bind. eapply sat_mono; [apply (rows_set_ok (mn + Z.of_nat n_seqs) extra zeroed); [lia|rewrite length_zeroed, Hex; lia]|].
  intros rows' [Hl Hr]. cbn beta. apply sat_ok. split_and!.
  - apply list_fmap_ext. intros i s Hs%lookup_seq. by apply (en_set _ _ _ _ _ _ _ En s); lia.
  - by rewrite Hl, length_zeroed.
  - intros j Hj. rewrite Hr by done. rewrite Hex. split; intros Hjr.
    + rewrite decide_True by lia. unfold extra. rewrite list_lookup_fmap, lookup_seq_lt by lia. cbn. f_equal. lia.
    + rewrite decide_False by lia. apply row_at_zeroed; [done|]. destruct (fo_z _ _ _ _ _ F) as [[Hz _]|[Hz _]]; lia.
Qed.

(** The new states enter the rows of the sets. *)
Lemma write_states_ok states rows1 : length states = n_seqs -> length rows1 = length rows ->
  sat (write_states m' states rows1) (fun rows' => length rows' = length rows /\ forall j, 0 <= j ->
    row_at zero rows' j = if decide (mn <= j < mn + Z.of_nat n_seqs) then default zero (states !! Z.to_nat (j - mn)) else row_at zero rows1 j).
Proof.
  intros Hs Hl. pose proof (fo_entered _ _ _ _ _ F) as En. pose proof (en_range _ _ _ _ _ _ _ En) as (H0 & H1 & H2).
  unfold write_states. rewrite (fo_head _ _ _ _ _ F). eapply sat_mono; [apply rows_set_ok; lia|]. cbn beta. rewrite Hs. by intros rows' [-> H].
Qed.

(** *** After the graph *)

Section after.
Context (new : list D) (rows' : list D) (Hnew : length new = n_seqs) (Hrl : length rows' = length rows)
  (Hset : forall j, mn <= j < mn + Z.of_nat n_seqs -> row_at zero rows' j = default zero (new !! Z.to_nat (j - mn)))
  (Hextra : forall j, mn + Z.of_nat n_seqs <= j <= mx -> row_at zero rows' j = old_at j)
  (Hout : forall j, 0 <= j -> ~ (mn <= j <= mx) -> row_at zero rows' j = row_at zero rows j)
  (U : rubatch_ok u (Z.of_nat (length cs1))).

Lemma after_in j : in_cells (rs_cells m') j <-> in_cells cs j.
Proof. unfold in_cells. by rewrite (st_len _ _ _ _ (fo_staged _ _ _ _ _ F)). Qed.

Lemma after_src j : in_cells cs j -> src_at (rs_cells m') j = if decide (mn <= j <= mx) then j else src_at cs j.
Proof.
  intros Hj. pose proof (fo_staged _ _ _ _ _ F) as S. destruct (decide _) as [Hr|Hr].
  - apply (st_src _ _ _ _ S). apply elem_of_seqZ. lia.
  - rewrite (st_old _ _ _ _ S); [done|]. rewrite elem_of_seqZ. lia.
Qed.

(** A cell that is not of a set keeps its state. *)
Lemma after_val j : in_cells cs j -> ~ (mn <= j < mn + Z.of_nat n_seqs) -> ids_at cs j <> ∅ ->
  val_at zero rows' (cell_at (rs_cells m') j) = val_at zero rows (cell_at cs j).
Proof.
  intros Hj Hns Hb. pose proof (fo_entered _ _ _ _ _ F) as En. unfold val_at at 1. rewrite after_src by done. destruct Hj as [Hj0 Hj1]. destruct (decide _) as [Hr|Hr].
  - rewrite (proj2 (Z.ltb_ge _ _)) by done. apply Hextra. lia.
  - destruct (en_out _ _ _ _ _ _ _ En j) as [_ Hs]; [done|done|]. specialize (Hs Hb). unfold val_at. rewrite Hs. rewrite (proj2 (Z.ltb_ge _ _)) by done. by apply Hout.
Qed.

(** The ids of the cells of the sets. *)
Lemma set_busy s : (s < n_seqs)%nat -> ids_at cs (Z.of_nat s + mn) <> ∅.
Proof.
  intros Hs. pose proof (fo_entered _ _ _ _ _ F) as En. destruct (en_set _ _ _ _ _ _ _ En s Hs) as (_ & -> & _).
  pose proof (first_in cs1 u U s Hs). set_solver.
Qed.

Lemma after_cells : cells_ok zero (rs_cells m') rows'.
Proof.
  pose proof (fo_entered _ _ _ _ _ F) as En. pose proof (fo_staged _ _ _ _ _ F) as S. pose proof (en_own _ _ _ _ _ _ _ En) as O. split.
  - split; [| |set_solver].
    + intros q Hq%after_in. destruct (st_meta _ _ _ _ S q) as (-> & _). rewrite after_in. by apply (ow_tail _ _ O).
    + intros i x Hi%after_in. destruct (st_meta _ _ _ _ S i) as (_ & -> & _). destruct (st_meta _ _ _ _ S x) as (-> & _). rewrite after_in. by apply (ow_ids _ _ O).
  - intros j Hj%after_in. destruct (st_meta _ _ _ _ S j) as (_ & -> & ->). intros He. destruct (en_free _ _ _ _ _ _ _ En j Hj He) as [Hp Hv]. split; [done|].
    rewrite after_src by done. destruct (decide _) as [Hr|Hr].
    + right. split; [done|]. rewrite Hextra; [done|]. split; [|lia]. destruct (Z.leb_spec (mn + Z.of_nat n_seqs) j) as [|Hlt]; [done|]. exfalso.
      apply (set_busy (Z.to_nat (j - mn))); [lia|]. replace (Z.of_nat (Z.to_nat (j - mn)) + mn) with j by lia. done.
    + destruct (en_out _ _ _ _ _ _ _ En j Hj Hr) as [[Hs|Hs] _]; [by left|right]. split; [done|]. destruct Hj as [Hj0 _].
      rewrite Hout by done. unfold val_at in Hv. rewrite Hs in Hv. by rewrite (proj2 (Z.ltb_ge _ _)) in Hv by done.
  - intros j Hj%after_in. destruct (st_meta _ _ _ _ S j) as (_ & -> & ->). intros He. split; [by apply (en_busy _ _ _ _ _ _ _ En)|].
    rewrite after_src by done. destruct (decide _) as [Hr|Hr]; [done|]. by apply (en_out _ _ _ _ _ _ _ En).
Qed.

Lemma after_ok : recr_ok zero m' rows'.
Proof.
  pose proof (fo_entered _ _ _ _ _ F) as En. pose proof (en_range _ _ _ _ _ _ _ En) as (H0 & H1 & H2). pose proof (en_len _ _ _ _ _ _ _ En) as Hl.
  pose proof (st_len _ _ _ _ (fo_staged _ _ _ _ _ F)) as Hl'.
  split; unfold rs_size; rewrite ?(fo_head _ _ _ _ _ F); [lia|lia|exact (fo_used _ _ _ _ _ F)|congruence|apply after_cells].
Qed.

Lemma after_set s q : (s < n_seqs)%nat -> q ∈ ids_of u s -> view zero (rs_cells m') rows' q = Some (last_of u s, default zero (new !! s)).
Proof.
  intros Hs Hq. pose proof (fo_entered _ _ _ _ _ F) as En. pose proof (fo_staged _ _ _ _ _ F) as S.
  pose proof (en_range _ _ _ _ _ _ _ En) as (H0 & H1 & H2). pose proof (en_len _ _ _ _ _ _ _ En) as Hl.
  assert (Hqin : in_cells cs q) by (unfold in_cells; rewrite Hl; by apply (ru_range _ _ U s)). destruct (st_meta _ _ _ _ S q) as (Ht & _).
  pose proof (en_in _ _ _ _ _ _ _ En s q Hs Hq) as Htq. rewrite view_some; [|by apply after_in|rewrite Ht; lia]. rewrite Ht, Htq.
  destruct (st_meta _ _ _ _ S (Z.of_nat s + mn)) as (_ & _ & ->). destruct (en_set _ _ _ _ _ _ _ En s Hs) as (-> & _). do 2 f_equal.
  unfold val_at. rewrite after_src by (unfold in_cells; lia). rewrite decide_True by lia. rewrite (proj2 (Z.ltb_ge _ _)) by lia.
  rewrite Hset by lia. do 2 f_equal. lia.
Qed.

Lemma after_other q : (forall s, (s < n_seqs)%nat -> q ∉ ids_of u s) -> view zero (rs_cells m') rows' q = view zero cs1 rows q.
Proof.
  intros Hno. pose proof (fo_entered _ _ _ _ _ F) as En. pose proof (fo_staged _ _ _ _ _ F) as S. pose proof (en_len _ _ _ _ _ _ _ En) as Hl.
  assert (Hin : in_cells cs q <-> in_cells cs1 q) by (unfold in_cells; by rewrite Hl). destruct (st_meta _ _ _ _ S q) as (Ht & _).
  destruct (decide (in_cells cs1 q)) as [Hq|Hq]; [|by rewrite !view_none by (left; by rewrite ?after_in, ?Hin)].
  destruct (en_other _ _ _ _ _ _ _ En q Hq Hno) as [O1 O2]. destruct (Z.ltb_spec (tail_at cs1 q) 0) as [Hneg|Hpos].
  - rewrite !view_none; [done|by right|right]. rewrite Ht, O1 by done. lia.
  - destruct (O2 Hpos) as (Hpos' & Hp & Hs). rewrite !view_some; [|done|done|by apply after_in, Hin|by rewrite Ht]. rewrite Ht.
    pose proof (own_in _ _ _ (en_own _ _ _ _ _ _ _ En) (proj2 Hin Hq) Hpos') as Htin. pose proof (tail_busy _ q (en_own _ _ _ _ _ _ _ En) (proj2 Hin Hq) Hpos') as Hid.
    destruct (st_meta _ _ _ _ S (tail_at cs q)) as (_ & _ & ->). rewrite Hp. do 2 f_equal. rewrite after_val; [unfold val_at; by rewrite Hs|done| |set_solver].
    intros Hr. destruct (en_set _ _ _ _ _ _ _ En (Z.to_nat (tail_at cs q - mn))) as (_ & Hids & _); [lia|].
    replace (Z.of_nat (Z.to_nat (tail_at cs q - mn)) + mn) with (tail_at cs q) in Hids by lia. rewrite Hids, elem_of_list_to_set in Hid.
    eapply Hno; [|exact Hid]. lia.
Qed.

End after.
End graph.

(** ** A whole micro-batch *)

(** The state the graph is given for set [s]. *)
Definition seen (m : llama_memory_recurrent) (s : nat) : D :=
  match view zero (rs_cells m) rows (first_of u s) with Some (_, x) => x | None => zero end.

(** Every sequence of a set sees the set's last position and new state, the others see what they saw. *)
Definition decoded (m : llama_memory_recurrent) (new : list D) (s' : llama_memory_recurrent * list D) : Prop :=
  recr_ok zero s'.1 s'.2 /\ rs_size s'.1 = rs_size m /\
  (forall s q, (s < n_seqs)%nat -> q ∈ ids_of u s -> view zero (rs_cells s'.1) s'.2 q = Some (last_of u s, default zero (new !! s))) /\
  (forall q, (forall s, (s < n_seqs)%nat -> q ∉ ids_of u s) -> view zero (rs_cells s'.1) s'.2 q = view zero (rs_cells m) rows q).

Lemma old_val_seen m cs1 used (U : rubatch_ok u (Z.of_nat (length cs1))) s : (s < n_seqs)%nat ->
  dropped zero rows (rs_cells m) (seconds u (seq 0 n_seqs)) (cs1, used) -> old_val zero rows cs1 u s = seen m s.
Proof.
  intros Hs (_ & _ & _ & V). specialize (V (first_of u s)). pose proof (first_in cs1 u U s Hs) as Hin.
  rewrite decide_False in V by (rewrite (seconds_spec u cs1 U s) by done; by intros []). cbn [fst] in V. unfold seen. rewrite <- V. unfold old_val.
  destruct (Z.leb_spec 0 (tail_at cs1 (first_of u s))) as [Ht|Ht]; [|by rewrite view_none by (by right)].
  by rewrite view_some by (done || by apply (first_range cs1 u U)).
Qed.

(** The rows when the graph is done decide what is seen. *)
Lemma found_decoded m cs1 used mn mx cs m' new rows' : recr_ok zero m rows -> rs_placeable m ->
  dropped zero rows (rs_cells m) (seconds u (seq 0 n_seqs)) (cs1, used) -> found cs1 mn mx cs m' ->
  length new = n_seqs -> length rows' = length rows ->
  (forall j, mn <= j < mn + Z.of_nat n_seqs -> row_at zero rows' j = default zero (new !! Z.to_nat (j - mn))) ->
  (forall j, mn + Z.of_nat n_seqs <= j <= mx -> row_at zero rows' j = old_at cs j) ->
  (forall j, 0 <= j -> ~ (mn <= j <= mx) -> row_at zero rows' j = row_at zero rows j) -> decoded m new (m', rows').
Proof.
  intros Hm P Hd F Hnew Hrl Hset Hextra Hout. pose proof Hm as [R1 R2 R3 R4 R5]. pose proof Hd as (_ & _ & Hl1 & V). cbn [fst] in *.
  assert (Hsz : rs_size m = Z.of_nat (length cs1)) by (unfold rs_size; by rewrite Hl1). destruct (dropped_ready m cs1 used P Hsz Hd) as [U _].
  pose proof (en_range _ _ _ _ _ _ _ (fo_entered _ _ _ _ _ F)) as (H0 & H1 & H2). pose proof (pl_some _ P) as Hn.
  assert (Hle : mn <= mx) by lia. assert (Hlen : length rows = length cs1) by congruence. split_and!; cbn [fst snd].
  - eapply after_ok; done || lia.
  - unfold rs_size. rewrite (st_len _ _ _ _ (fo_staged _ _ _ _ _ F)), (en_len _ _ _ _ _ _ _ (fo_entered _ _ _ _ _ F)). by rewrite Hl1.
  - intros s q Hs Hq. eapply after_set; done || lia.
  - intros q Hno. erewrite (after_other cs1 mn mx cs m' F) by (done || lia). rewrite V. rewrite decide_False; [done|].
    intros (s & Hs & Hq)%elem_of_concat_fmap. apply elem_of_seq in Hs. apply (Hno s); [lia|by apply elem_of_tail].
Qed.

Lemma decode_ok layer m : recr_ok zero m rows -> rs_placeable m -> (forall xs, length (layer xs) = length xs) ->
  sat (decode zero layer u (m, rows)) (decoded m (layer (seen m <$> seq 0 n_seqs))).
Proof.
  intros Hm P Hlayer. unfold decode, recr_apply. apply sat_bind, sat_bind. eapply sat_mono; [by apply recr_find_slot_ok|].
  intros [m' ok] [_ (cs1 & used & mn & mx & cs & Hd & F)]. apply sat_ok. pose proof Hm as [R1 R2 R3 R4 R5]. pose proof Hd as (_ & _ & Hl1 & V). cbn [fst] in *.
  assert (Hsz : rs_size m = Z.of_nat (length cs1)) by (unfold rs_size; by rewrite Hl1). destruct (dropped_ready m cs1 used P Hsz Hd) as [U _].
  pose proof (en_range _ _ _ _ _ _ _ (fo_entered _ _ _ _ _ F)) as (H0 & H1 & H2). pose proof (pl_some _ P) as Hn.
  assert (Hle : mn <= mx) by lia. assert (Hlen : length rows = length cs1) by congruence.
  apply sat_bind. eapply sat_mono; [by apply (build_rs_ok cs1 mn mx cs)|]. intros [states rows1] (-> & Hrl1 & Hr1). cbn beta iota.
  assert (Hseen : old_val zero rows cs1 u <$> seq 0 n_seqs = seen m <$> seq 0 n_seqs).
  { apply list_fmap_ext. intros i s Hs%lookup_seq. apply (old_val_seen m cs1 used U); [lia|done]. }
  rewrite Hseen. set (new := layer _). assert (Hnew : length new = n_seqs) by (unfold new; by rewrite Hlayer, length_fmap, length_seq).
  apply sat_bind. eapply sat_mono; [by apply (write_states_ok cs1 mn mx cs m' F Hlen)|]. intros rows' [Hrl Hr]. apply sat_ok.
  eapply found_decoded; try done.
  - intros j Hj. rewrite Hr by lia. by rewrite decide_True.
  - intros j Hj. rewrite Hr by lia. rewrite decide_False by lia. apply Hr1; lia.
  - intros j Hj Hjr. rewrite Hr by lia. rewrite decide_False by lia. by apply Hr1.
Qed.

End find_slot.

Arguments rs_placeable {D} zero rows {E} u m.
Arguments found {D} zero rows {E} u cs1 mn mx cs m'.
