(* ===== verification/RsProps.v ===== *)
(** * The recurrent memory: its contract

    The memory implements a table of what each sequence sees: a position and a state
    ([recurrent_refines]).  Then: preparing a batch always succeeds and changes nothing a
    sequence sees; and where the sequence operations do not do what they are for. *)
From S2P Require Import Prelude Batch KvCache RsTheory RsSlot RsFind.

(** ** The abstract memory *)

Section spec.
Context {D : Type} (zero : D) {E : Type}.

Inductive rs_cmd : Type :=
  | RsClear (data : bool)
  | RsRm (seq_id p0 p1 : Z)
  | RsCp (src dst : Z)
  | RsKeep (seq_id : Z)
  | RsDecode (layer : list D -> list D) (u : llama_ubatch E).

(** The memory with the rows of its states; [clear] can zero the rows, too. *)
Definition rs_step (s : llama_memory_recurrent * list D) (c : rs_cmd) : res (llama_memory_recurrent * list D) :=
  let '(m, rows) := s in
  match c with
  | RsClear data => Ok (recr_clear m, if data then replicate (length rows) zero else rows)
  | RsRm q p0 p1 => '(m, _) ← recr_seq_rm m q p0 p1; Ok (m, rows)
  | RsCp src dst => m ← recr_seq_cp m src dst; Ok (m, rows)
  | RsKeep q => Ok (recr_seq_keep m q, rows)
  | RsDecode layer u => decode zero layer u (m, rows)
  end.

(** What each sequence sees. *)
Abbreviation table := (Z -> option (Z * D)).

(** The set of sequences of the batch that [q] is in. *)
Definition rs_set_of (u : llama_ubatch E) (q : Z) : option nat := snd <$> list_find (fun s => q ∈ ids_of u s) (seq 0 (ub_n_seqs u)).

Definition spec_seen (t : table) (u : llama_ubatch E) (s : nat) : D := match t (first_of u s) with Some (_, x) => x | None => zero end.

Definition spec_step (size : Z) (t : table) (c : rs_cmd) : table :=
  match c with
  | RsClear _ => fun _ => None
  | RsRm q p0 p1 => fun q' =>
      match rm_outcome (t q) (norm_p0 p0) (norm_p1 p1) with Some true => if q' =? q then None else t q' | _ => t q' end
  | RsCp src dst => fun q => if bool_decide (q = dst /\ 0 <= dst < size /\ 0 <= src < size) then t src else t q
  | RsKeep q => fun q' => if q' =? q then t q' else None
  | RsDecode layer u =>
      let new := layer (spec_seen t u <$> seq 0 (ub_n_seqs u)) in
      fun q => match rs_set_of u q with Some s => Some (last_of u s, default zero (new !! s)) | None => t q end
  end.

(** What the caller must observe. *)
Definition cmd_ok (size : Z) (t : table) (c : rs_cmd) : Prop :=
  match c with
  | RsClear _ | RsKeep _ => True
  | RsRm q _ _ => 0 <= q
  | RsCp src dst => - 2 ^ 31 <= src < 2 ^ 31 /\ - 2 ^ 31 <= dst < 2 ^ 31
  | RsDecode layer u => rubatch_ok u size /\ (0 < ub_n_seqs u)%nat /\ Z.of_nat (ub_n_seq_tokens u) <= INT32_MAX /\
      (forall s p x, (s < ub_n_seqs u)%nat -> t (first_of u s) = Some (p, x) -> p + Z.of_nat (ub_n_seq_tokens u) <= INT32_MAX) /\
      forall xs, length (layer xs) = length xs
  end.

Fixpoint cmds_ok (size : Z) (t : table) (cs : list rs_cmd) : Prop :=
  match cs with
  | [] => True
  | c :: cs => cmd_ok size t c /\ cmds_ok size (spec_step size t c) cs
  end.

Definition implements (size : Z) (s : llama_memory_recurrent * list D) (t : table) : Prop :=
  recr_ok zero s.1 s.2 /\ rs_size s.1 = size /\ forall q, view zero (rs_cells s.1) s.2 q = t q.

Lemma set_of_spec u size q : rubatch_ok u size -> 0 <= size ->
  match rs_set_of u q with
  | Some s => (s < ub_n_seqs u)%nat /\ q ∈ ids_of u s
  | None => forall s, (s < ub_n_seqs u)%nat -> q ∉ ids_of u s
  end.
Proof.
  intros U Hsz. unfold rs_set_of. destruct (list_find _ _) as [[i s]|] eqn:Hf; cbn.
  - apply list_find_Some in Hf as (Hl & Hq & _). apply lookup_seq in Hl. split; [lia|done].
  - intros s Hs. apply list_find_None in Hf. rewrite Forall_forall in Hf. apply Hf, elem_of_seq. lia.
Qed.

(** Zeroed rows. *)
Lemma recr_clear_rows m rows : recr_ok zero m rows -> recr_ok zero (recr_clear m) (replicate (length rows) zero) /\
  forall q, view zero (rs_cells (recr_clear m)) (replicate (length rows) zero) q = None.
Proof.
  intros Hm. destruct (recr_clear_ok zero m rows Hm) as ([R1 R2 R3 R4 R5] & _ & V).
  assert (Hf : forall i, in_cells (rs_cells (recr_clear m)) i -> ids_at (rs_cells (recr_clear m)) i = ∅ /\ tail_at (rs_cells (recr_clear m)) i = -1 /\
      pos_at (rs_cells (recr_clear m)) i = -1 /\ src_at (rs_cells (recr_clear m)) i = -1).
  { intros i Hi. unfold recr_clear in *. cbn [rs_cells] in *. rewrite in_fmap in Hi. by rewrite cell_at_fmap. }
  destruct (free_cells_ok zero _ (replicate (length rows) zero) Hf) as [C V']. split; [|done]. split; try done. by rewrite length_replicate.
Qed.

Lemma step_implements size s t c : implements size s t -> cmd_ok size t c ->
  sat (rs_step s c) (fun s' => implements size s' (spec_step size t c)).
Proof.
  destruct s as [m rows]. intros (Hm & Hsz & Hv) Hc. cbn [fst snd] in *. destruct c as [data|q p0 p1|src dst|q|layer u]; cbn [rs_step cmd_ok] in *.
  - apply sat_ok. destruct (recr_clear_ok zero m rows Hm) as (H1 & H2 & H3). destruct (recr_clear_rows m rows Hm) as [H4 H5].
    destruct data; (split_and!; cbn [fst snd]; [done|congruence|done]).
  - destruct (recr_seq_rm_ok zero m rows q p0 p1 Hm Hc) as (m' & ok & -> & Hm' & Hsz' & Ho). cbn [mbind res_bind]. apply sat_ok.
    split_and!; cbn [fst snd]; [done|congruence|]. intros q'. cbn [spec_step]. rewrite Hv in Ho. destruct (rm_outcome _ _ _) as [gone|].
    + destruct Ho as (_ & _ & ->). rewrite Hv. destruct gone; [|by rewrite decide_False by (intros [? _]; done)].
      destruct (Z.eqb_spec q' q) as [->|]; [by rewrite decide_True|by rewrite decide_False by tauto].
    + destruct Ho as [_ ->]. apply Hv.
  - destruct Hc as [Hs Hd]. destruct (decide (src = dst)) as [->|Hne].
    + unfold recr_seq_cp. rewrite Z.eqb_refl. cbn [mbind res_bind]. apply sat_ok. split_and!; [done|done|]. intros q. cbn.
      destruct (bool_decide _) eqn:Eb; [|apply Hv]. apply bool_decide_eq_true in Eb as [-> _]. apply Hv.
    + destruct (recr_seq_cp_ok zero m rows src dst Hm Hne Hs Hd) as (m' & -> & Hm' & Hsz' & V). cbn [mbind res_bind]. apply sat_ok.
      split_and!; cbn [fst snd]; [done|congruence|]. intros q. rewrite V, !Hv. cbn [spec_step]. subst size.
      destruct (decide _); [by rewrite bool_decide_eq_true_2|by rewrite bool_decide_eq_false_2].
  - apply sat_ok. destruct (recr_seq_keep_ok zero m rows q Hm) as (H1 & H2 & H3). split_and!; cbn [fst snd]; [done|congruence|].
    intros q'. rewrite H3, Hv. cbn. destruct (Z.eqb_spec q' q) as [->|]; [by rewrite decide_True|by rewrite decide_False].
  - destruct Hc as (U & Hn & Ht & Hp & Hl). subst size.
    assert (P : rs_placeable zero rows u m) by (split; [done|done|done|]; intros s p x Hs; rewrite Hv; by apply Hp).
    eapply sat_mono; [by apply (decode_ok zero rows u layer m Hm P Hl)|]. intros [m' rows'] (Hm' & Hsz' & Hin & Hno). cbn [fst snd] in *.
    split_and!; cbn [fst snd]; [done|done|]. intros q. cbn [spec_step]. destruct Hm as [R1 _ _ _ _]. pose proof (set_of_spec u (rs_size m) q U ltac:(lia)) as Hset.
    assert (Hseen : spec_seen t u <$> seq 0 (ub_n_seqs u) = seen zero rows u m <$> seq 0 (ub_n_seqs u)).
    { apply list_fmap_ext. intros i s _. unfold spec_seen, seen. by rewrite Hv. }
    rewrite Hseen. destruct (rs_set_of u q) as [s|]; [destruct Hset; by apply Hin|]. rewrite Hno by done. apply Hv.
Qed.

End spec.

(** C28: the recurrent memory refines its abstract specification: whatever sequence of [clear],
    [seq_rm], [seq_cp], [seq_keep] and micro-batches a caller that observes the preconditions
    runs, no assertion of the code fails, no index is out of range, the invariant holds and every
    sequence sees exactly the position and the state it would see in a table with one entry per
    sequence, however the cells were shared, moved, swapped and reused. *)
Theorem recurrent_refines {D E : Type} (zero : D) size s t (cs : list (rs_cmd (D := D) (E := E))) :
  implements zero size s t -> cmds_ok zero size t cs ->
  exists s', mfor (rs_step zero) cs s = Ok s' /\ implements zero size s' (foldl (spec_step zero size) t cs).
Proof.
  intros H Hc. apply sat_exists. revert s t H Hc. induction cs as [|c cs IH]; intros s t H Hc; [by apply sat_ok|].
  destruct Hc as [Hc Hcs]. cbn [mfor foldl]. apply sat_bind. eapply sat_mono; [by apply step_implements|]. intros s' Hs'. by apply IH.
Qed.

(** ** Preparing a batch *)

(** The metadata does not depend on the states. *)
Lemma recr_ok_meta {D} (zero : D) m rows : recr_ok zero m rows -> recr_ok tt m (replicate (length rows) tt).
Proof.
  intros [R1 R2 R3 R4 [O F B]]. split; try done; [by rewrite length_replicate|]. split; [done| |done].
  intros i Hi He. destruct (F i Hi He) as [Hp Hs]. split; [done|]. destruct Hs as [|[Hs _]]; [by left|right]. split; [done|]. by destruct (row_at _ _ _).
Qed.

Lemma view_meta {D} (zero : D) cs rows rows' q : view tt cs rows' q = (fun '(p, _) => (p, tt)) <$> view zero cs rows q.
Proof. unfold view. destruct (decide _); [|done]. cbn. do 2 f_equal. by destruct (val_at _ _ _). Qed.

(** Micro-batches whose positions stay far enough from the largest one. *)
Definition rs_fits {E} (size B : Z) (u : llama_ubatch E) : Prop :=
  rubatch_ok u size /\ (0 < ub_n_seqs u)%nat /\ B + Z.of_nat (ub_n_seq_tokens u) <= INT32_MAX /\ forall s, (s < ub_n_seqs u)%nat -> last_of u s <= B.

Lemma find_slots_ok {E} B (us : list (llama_ubatch E)) : 0 <= B -> forall m rows,
  recr_ok tt m rows -> (forall q p x, view tt (rs_cells m) rows q = Some (p, x) -> p <= B) -> Forall (rs_fits (rs_size m) B) us ->
  sat (find_slots us m) (fun '(_, ok) => ok = true).
Proof.
  intros HB. induction us as [|u us IH]; intros m rows Hm Hp Hus; [by apply sat_ok|]. apply Forall_cons in Hus as [(U & Hn & Ht & Hl) Hus].
  assert (P : rs_placeable tt rows u m) by (split; [done|done|lia|]; intros s p x _ Hv%Hp; lia).
  cbn [find_slots]. pose proof (recr_find_slot_ok tt rows u m Hm P) as Hf. pose proof (decode_ok tt rows u (fun xs => xs) m Hm P ltac:(done)) as Hd.
  apply sat_exists in Hf as ([m' ok] & Hf & -> & _). unfold decode, recr_apply in Hd. rewrite Hf in *. cbn [mbind res_bind] in *.
  apply sat_bind_inv in Hd. apply sat_exists in Hd as ([states rows1] & _ & Hd). apply sat_bind_inv, sat_exists in Hd as (rows2 & _ & Hd).
  apply sat_exists in Hd as (s' & [= <-] & Hm' & Hsz & Hin & Hno). cbn [fst snd] in *. apply (IH m' rows2); [done| |by rewrite Hsz].
  intros q p x Hv. destruct Hm as [R1 _ _ _ _]. pose proof (set_of_spec u (rs_size m) q U ltac:(lia)) as Hset.
  destruct (rs_set_of u q) as [s|].
  - destruct Hset as [Hs Hq]. rewrite (Hin s q Hs Hq) in Hv. injection Hv as <- _. by apply Hl.
  - rewrite Hno in Hv by done. by eapply Hp.
Qed.

(** [prepare] always succeeds on micro-batches of disjoint sets of sequences that have cells: a
    recurrent memory never runs out of room, whatever happened before, and after the trial run
    the cells, the head and the number of used cells are what they were, so that no sequence
    sees a difference. *)
Lemma recr_prepare_ok {D E} (zero : D) B m rows (us : list (llama_ubatch E)) :
  recr_ok zero m rows -> 0 <= B -> (forall q p x, view zero (rs_cells m) rows q = Some (p, x) -> p <= B) -> Forall (rs_fits (rs_size m) B) us ->
  exists m' m2, recr_prepare m us = Ok (m', true) /\ find_slots us m = Ok (m2, true) /\ recr_ok zero m' rows /\
    rs_cells m' = rs_cells m /\ rs_head m' = rs_head m /\ rs_used m' = rs_used m.
Proof.
  intros Hm HB Hp Hus. pose proof (recr_ok_meta zero m rows Hm) as Hm1.
  pose proof (find_slots_ok B us HB m _ Hm1) as H. apply sat_exists in H as ([m' ok] & Hf & ->); [|intros q p x Hv|done].
  - unfold recr_prepare. rewrite Hf. cbn [mbind res_bind]. eexists _, _. split; [done|]. split; [done|]. split; [|done]. by destruct Hm.
  - rewrite (view_meta zero _ rows) in Hv. destruct (view zero _ _ q) as [[p' x']|] eqn:Hv'; [|done]. injection Hv as <- _. by eapply Hp.
Qed.

(** ** Where the operations go wrong *)

(** [seq_add] on one sequence changes the position of every sequence that shares its cell. *)
Theorem seq_add_moves_sharers {D} (zero : D) m rows q q' p x d p0 p1 : recr_ok zero m rows -> shares (rs_cells m) q q' ->
  view zero (rs_cells m) rows q = Some (p, x) -> norm_p0 p0 <= p < norm_p1 p1 -> d <> 0 -> 0 <= p + d <= INT32_MAX ->
  exists m', recr_seq_add m q p0 p1 d = Ok m' /\ recr_ok zero m' rows /\ view zero (rs_cells m') rows q' = Some (p + d, x).
Proof.
  intros Hm Hs Hv Hr Hd Hp. pose proof (change_pos_ok zero m rows q p0 p1 (fun p => i32 (p + d)) Hm) as H. rewrite Hv, decide_True in H by done.
  destruct (H (p + d)) as (m' & Hc & Hm' & _ & Hview); [unfold i32, INT32_MIN; by rewrite (proj2 (andb_true_iff _ _)) by lia|done|]. exists m'. unfold recr_seq_add.
  rewrite (proj2 (Z.eqb_neq d 0)) by done. split_and!; [done|done|]. rewrite Hview, decide_True by done.
  destruct Hs as (Hq & Hq' & Ht & He). rewrite view_some in Hv by done. rewrite view_some; [|done|by rewrite He]. rewrite He. by injection Hv as <- <-.
Qed.

(** A cell after [seq_rm] with a negative sequence id. *)
Definition rm_every (c : mem_cell) : mem_cell :=
  if (0 <=? mc_pos c) && (mc_pos c <? INT32_MAX) then set_pos_src (-1) (-1) (set_ids ∅ c) else c.

Lemma rm_every_ok m : (0 < length (rs_cells m))%nat -> 0 <= rs_head m < rs_size m -> exists m', recr_seq_rm m (-1) (-1) (-1) = Ok (m', true) /\
  rs_size m' = rs_size m /\ 0 <= rs_head m' < rs_size m /\ forall j, in_cells (rs_cells m) j -> cell_at (rs_cells m') j = rm_every (cell_at (rs_cells m) j).
Proof.
  intros Hn Hh. unfold recr_seq_rm. change (norm_p0 (-1)) with 0. change (norm_p1 (-1)) with INT32_MAX.
  assert ((rs_size m <=? -1) = false) as -> by (unfold rs_size; lia).
  assert (rm_tail (rs_cells m) (-1) 0 INT32_MAX = Ok (Some (rs_cells m))) as -> by done. cbn [mbind res_bind].
  set (f := recr_rm_cell (rs_size m) (-1) 0 INT32_MAX).
  assert (Hf : forall s i c, (f s i c).2 = rm_every c).
  { intros [used nh] i c. unfold f, recr_rm_cell, rm_every. destruct (_ && _); [|done]. cbn. unfold is_empty. cbn. done. }
  pose proof (each_cell_length f (rs_cells m) 0 (rs_used m, rs_size m)) as Hl. pose proof (each_cell_at f (fun _ => rm_every) (rs_cells m) Hf 0 (rs_used m, rs_size m)) as Hat.
  assert (Hnh : forall cs i s, 0 <= i -> i + Z.of_nat (length cs) <= rs_size m -> (s.2 = rs_size m \/ 0 <= s.2 < rs_size m) ->
    (each_cell f i cs s).1.2 = rs_size m \/ 0 <= (each_cell f i cs s).1.2 < rs_size m).
  { induction cs as [|c cs IH]; intros i [used nh] Hi Hlen Hs; [done|]. cbn [each_cell length] in *.
    assert (Hs' : (f (used, nh) i c).1.2 = nh \/ (f (used, nh) i c).1.2 = i).
    { unfold f, recr_rm_cell. destruct (_ && _); [|by left]. cbn. unfold is_empty. cbn. destruct (nh =? rs_size m); [by right|by left]. }
    destruct (f (used, nh) i c) as [s' c']. cbn [fst] in Hs'. specialize (IH (i + 1) s' ltac:(lia) ltac:(lia)). cbn [snd] in Hs.
    destruct (each_cell f (i + 1) cs s') as [s2 cs2]. cbn [fst] in *. apply IH. destruct Hs' as [e1|e1]; rewrite e1; [exact Hs|right; lia]. }
  specialize (Hnh (rs_cells m) 0 (rs_used m, rs_size m) ltac:(lia) ltac:(unfold rs_size; lia) (or_introl eq_refl)).
  destruct (each_cell f 0 (rs_cells m) _) as [[used nh] cs]. cbn [fst snd] in *. eexists. split; [done|].
  cbn [rs_head rs_cells]. split_and!; [unfold rs_size; cbn; by rewrite Hl|by apply move_head_ok|by apply move_head_ok|done].
Qed.

(** [seq_rm] of everything (a negative sequence id) empties the cells but leaves the tails: the next
    micro-batch of a sequence that had a cell is stopped by an assertion of [find_slot]. *)
Lemma seq_rm_all_leaves_tails {D E} (zero : D) m rows q p x (u : llama_ubatch E) : recr_ok zero m rows ->
  view zero (rs_cells m) rows q = Some (p, x) -> p < INT32_MAX -> rubatch_ok u (rs_size m) -> ub_n_seqs u = 1%nat -> ids_of u 0 = [q] ->
  exists m', recr_seq_rm m (-1) (-1) (-1) = Ok (m', true) /\ recr_find_slot u m' = Err AssertFailed.
Proof.
  intros Hm Hv Hp U H1 Hids. pose proof Hm as [R1 R2 R3 R4 R5]. pose proof (ce_own _ _ _ R5) as O.
  assert (Hq : in_cells (rs_cells m) q /\ 0 <= tail_at (rs_cells m) q) by (unfold view in Hv; by destruct (decide _)). destruct Hq as [Hq Ht].
  rewrite view_some in Hv by done. injection Hv as Hpos _. pose proof (own_in _ _ _ O Hq Ht) as Htin.
  destruct (ce_busy _ _ _ R5 _ Htin) as [Hpos0 _]; [pose proof (tail_busy _ _ O Hq Ht); set_solver|].
  destruct (rm_every_ok m) as (m' & Hrm & Hsz & Hh & Hcell); [unfold rs_size in R1; lia|done|]. exists m'. split; [done|]. unfold rs_size in *.
  assert (Hin : forall j, in_cells (rs_cells m') j <-> in_cells (rs_cells m) j) by (intros j; unfold in_cells; by rewrite Hsz).
  assert (Htail : tail_at (rs_cells m') q = tail_at (rs_cells m) q) by (rewrite Hcell by done; unfold rm_every; by destruct (_ && _)).
  assert (Hemp : ids_at (rs_cells m') (tail_at (rs_cells m) q) = ∅).
  { rewrite Hcell by done. unfold rm_every. by rewrite (proj2 (andb_true_iff _ _)) by lia. }
  destruct (ru_ids _ _ U 0) as (Hs & Hn & _); [lia|]. rewrite Hids in *. unfold recr_find_slot. rewrite (ru_equal _ _ U), H1. cbn [assert_ mbind res_bind].
  set (head := if _ <? rs_head m' then 0 else rs_head m'). assert (Hh' : 0 <= head <= Z.of_nat (length (rs_cells m'))) by (unfold head; destruct (_ <? _); lia).
  cbn [seq check_sets_ids]. unfold set_ids_of, vec_get. rewrite Hn, Hs. cbn -[seq Z.to_nat].
  change (Z.to_nat (Z.of_nat 1)) with 1%nat. cbn. unfold rs_size. assert ((q <? 0) || (Z.of_nat (length (rs_cells m')) <=? q) = false) as -> by (unfold in_cells in Hq; lia).
  cbn. destruct (find_empty_spec (rs_cells m') ltac:(lia) (length (rs_cells m')) head Hh') as (e & -> & _). cbn.
  unfold rs_first_id, set_ids_of, vec_get. rewrite Hs. cbn. unfold owns_cell. rewrite get_cell by (by apply Hin). cbn. rewrite Htail.
  rewrite (proj2 (Z.leb_le 0 _)) by done. rewrite get_cell by (by apply Hin). cbn. unfold has_seq_id. rewrite Hemp. by rewrite bool_decide_eq_false_2 by set_solver.
Qed.

(** ** Examples *)

(** One token for each of the sets of ids. *)
Definition rs_batch (sets : list (list Z)) (pos : list Z) : llama_ubatch Z :=
  mk_ubatch true (length sets) 1 (length sets) (length (concat sets)) 1 None None pos (Z.of_nat ∘ length <$> sets) sets [] [] [].

Lemma ids_of_batch sets pos s : ids_of (rs_batch sets pos) s = default [] (sets !! s).
Proof. unfold ids_of, set_token, rs_batch. cbn. by rewrite Nat.mul_1_r. Qed.

Lemma rs_batch_ok sets pos size : length pos = length sets -> Forall (fun ids => ids <> []) sets -> NoDup (concat sets) ->
  Forall (fun ids => Forall (fun q => 0 <= q < size) ids) sets -> Forall (fun p => 0 <= p <= INT32_MAX) pos -> rubatch_ok (rs_batch sets pos) size.
Proof.
  intros Hl Hne Hnd Hr Hp. rewrite !Forall_forall in *. split; cbn [rs_batch ub_n_seqs ub_n_seq_id ub_seq_id ub_pos ub_n_seq_tokens ub_equal_seqs]; [done| | | |].
  - intros s Hs. rewrite ids_of_batch. unfold set_token. cbn. rewrite Nat.mul_1_r. destruct (lookup_lt_is_Some_2 sets s Hs) as [ids Hids].
    rewrite list_lookup_fmap, Hids. split_and!; [done|done|]. apply Hne. by eapply list_elem_of_lookup_2.
  - assert (ids_of (rs_batch sets pos) <$> seq 0 (length sets) = sets) as ->; [|done]. apply list_eq. intros s. rewrite list_lookup_fmap.
    destruct (decide (s < length sets)%nat) as [Hs|Hs].
    + rewrite lookup_seq_lt by done. cbn. rewrite ids_of_batch. by destruct (lookup_lt_is_Some_2 sets s Hs) as [ids ->].
    + rewrite lookup_seq_ge by lia. by rewrite lookup_ge_None_2 by lia.
  - intros s q Hs Hq. rewrite ids_of_batch in Hq. destruct (lookup_lt_is_Some_2 sets s Hs) as [ids Hids]. rewrite Hids in Hq.
    apply list_elem_of_lookup_2 in Hids. specialize (Hr ids Hids). rewrite Forall_forall in Hr. by apply Hr.
  - intros s Hs. unfold last_of, set_token. cbn. rewrite Nat.mul_1_r, Nat.add_sub. destruct (lookup_lt_is_Some_2 pos s) as [p Hps]; [lia|].
    rewrite Hps. split; [done|]. apply Hp. by eapply list_elem_of_lookup_2.
Qed.

(** Two sets, one of them of two sequences; a copy; a micro-batch that separates the copy; a removal. *)
Definition rs_demo : list (rs_cmd (D := Z) (E := Z)) :=
  [RsDecode (fmap (Z.add 10)) (rs_batch [[0]; [1; 2]] [0; 5]); RsCp 0 3; RsDecode (fmap (Z.add 20)) (rs_batch [[3]; [2]] [1; 6]); RsRm 1 0 (-1)].

Definition rs_demo_start : llama_memory_recurrent * list Z := (recr_new 4, replicate 4 0).

Example rs_demo_views : let r := mfor (rs_step 0) rs_demo rs_demo_start in
  (fun '(m, rows) => (fun q => view 0 (rs_cells m) rows q) <$> [0; 1; 2; 3]) <$> (match r with Ok s => Some s | Err _ => None end) =
  Some [Some (0, 10); None; Some (6, 30); Some (1, 30)].
Proof. vm_compute. reflexivity. Qed.

Lemma rs_demo_start_ok : implements 0 4 rs_demo_start (fun _ => None).
Proof. destruct (recr_new_ok 0 4 (replicate 4 0)) as [H1 H2]; [lia|lia|done|]. by split. Qed.

Lemma rs_demo_ok : cmds_ok 0 4 (fun _ => None) rs_demo.
Proof.
  unfold rs_demo. cbn [cmds_ok cmd_ok]. split_and!; try done; try (apply rs_batch_ok; apply (bool_decide_unpack _); vm_compute; exact I); try lia; try (intros; apply length_fmap).
  - cbn. lia.
  - cbn. lia.
  - intros [|[|s]] p x Hs Ht; [| |cbn in Hs; lia]; vm_compute in Ht; injection Ht as <- <-; vm_compute; discriminate.
Qed.

Lemma recurrent_refines_witness : implements 0 4 rs_demo_start (fun _ => None) /\
  exists s', mfor (rs_step 0) rs_demo rs_demo_start = Ok s' /\ implements 0 4 s' (foldl (spec_step 0 4) (fun _ => None) rs_demo).
Proof. split; [apply rs_demo_start_ok|]. exact (recurrent_refines 0 4 rs_demo_start (fun _ => None) rs_demo rs_demo_start_ok rs_demo_ok). Defined.

(** The memory after the first micro-batch of [rs_demo]: sequences 1 and 2 share a cell. *)
Definition rs_demo_shared : llama_memory_recurrent * list Z :=
  match mfor (rs_step 0) (take 1 rs_demo) rs_demo_start with Ok s => s | Err _ => rs_demo_start end.

Lemma rs_demo_shared_ok : recr_ok 0 rs_demo_shared.1 rs_demo_shared.2.
Proof.
  pose proof rs_demo_ok as [H _]. pose proof (step_implements 0 4 rs_demo_start (fun _ => None) _ rs_demo_start_ok H) as Hs.
  apply sat_exists in Hs as (s & Hs & Hi & _). unfold rs_demo_shared. change (take 1 rs_demo) with [RsDecode (E := Z) (fmap (Z.add 10)) (rs_batch [[0]; [1; 2]] [0; 5])].
  cbn [mfor]. by rewrite Hs.
Qed.

Lemma seq_rm_all_leaves_tails_witness : exists m', recr_seq_rm rs_demo_shared.1 (-1) (-1) (-1) = Ok (m', true) /\
  recr_find_slot (rs_batch [[0]] [1]) m' = Err AssertFailed.
Proof.
  apply (seq_rm_all_leaves_tails 0 rs_demo_shared.1 rs_demo_shared.2 0 0 10 (rs_batch [[0]] [1]) rs_demo_shared_ok); [vm_compute; reflexivity|unfold INT32_MAX; lia| |reflexivity|reflexivity].
  apply rs_batch_ok; apply (bool_decide_unpack _); vm_compute; exact I.
Defined.

Lemma seq_add_moves_sharers_witness : exists m', recr_seq_add rs_demo_shared.1 1 0 (-1) 7 = Ok m' /\ recr_ok 0 m' rs_demo_shared.2 /\
  view 0 (rs_cells m') rs_demo_shared.2 2 = Some (12, 10).
Proof.
  apply (seq_add_moves_sharers 0 rs_demo_shared.1 rs_demo_shared.2 1 2 5 10 7); [apply rs_demo_shared_ok| |vm_compute; reflexivity|vm_compute; split; [discriminate|reflexivity]|lia|unfold INT32_MAX; lia].
  apply (bool_decide_unpack _). vm_compute. exact I.
Defined.
