(* ===== verification/RsBatch.v ===== *)
(** * From a batch to a prepared recurrent memory: [llama_memory_recurrent::init_batch]

    The micro-batches of [split_seq] and of the sequential [split_equal] are ones that
    [find_slot] can place, so splitting and preparing compose. *)

From S2P Require Import Prelude KvCells KvCellsInv Batch KvCache BatchTheory SplitEqual SplitProps SplitSeq.
From S2P Require Import BatchProps KvBatch RsMemory RsTheory RsSlot RsFind RsProps.

Lemma NoDup_concat_in {A} (ls : list (list A)) l : NoDup (concat ls) -> l ∈ ls -> NoDup l.
Proof.
  induction ls as [|x ls IH]; intros Hnd Hl; [by apply not_elem_of_nil in Hl|]. apply NoDup_app in Hnd as (H1 & _ & H2).
  apply elem_of_cons in Hl as [->|Hl]; [done|by apply IH].
Qed.

(** The micro-batches [us] are made of the tokens of the batch, each once, those of a set of
    sequences in their order. *)
Definition covers_in_order {E} (a : llama_batch_allocr E) (us : list (llama_ubatch E)) : Prop :=
  exists idxss, Permutation (concat idxss) (seq 0 (n_toks a)) /\
    (forall T, filter (fun i => tok_set a i = T) (concat idxss) = set_tokens a T) /\
    Forall2 (fun idxs u => exists n_seqs eq, u = gather a idxs n_seqs eq) idxss us.

Section fit.
Context {E : Type} (a : llama_batch_allocr E) (O : allocr_ok a) (size B : Z).
(** Every sequence has a cell, and the positions leave room for the tokens of the batch. *)
Context (Hids : forall i q, (i < n_toks a)%nat -> q ∈ tok_ids a i -> q < size)
  (Hpos : forall i, (i < n_toks a)%nat -> 0 <= ptr_at (b_pos (ba_batch a)) i <= B)
  (HB : B + Z.of_nat (n_toks a) <= INT32_MAX) (Hnp : (0 < ba_n_pos_per_embd a)%nat).

Section runs.
Context (g : list (list nat)) (kk : nat).
Context (Hne : g <> []) (Hkk : (0 < kk)%nat) (Hrun : forall l, l ∈ g -> length l = kk)
  (Hlt : Forall (fun i => i < n_toks a)%nat (concat g)) (Hnd : NoDup (concat g))
  (Hdisj : NoDup (concat ((fun l => tok_ids a (hd 0%nat l)) <$> g))).

Lemma runs_length : length (concat g) = (length g * kk)%nat.
Proof. by apply length_concat_uniform. Qed.

Lemma runs_seq_tokens : ub_n_seq_tokens (group_ubatch a g) = kk.
Proof.
  unfold group_ubatch. cbn. rewrite runs_length, Nat.mul_comm. apply Nat.div_mul. by destruct g.
Qed.

Lemma runs_first s l : g !! s = Some l -> concat g !! (s * kk)%nat = Some (hd 0%nat l) /\ (hd 0%nat l < n_toks a)%nat.
Proof.
  intros Hl. pose proof (Hrun l (list_elem_of_lookup_2 _ _ _ Hl)) as Hlen.
  pose proof (lookup_concat_uniform g kk s 0 l Hrun Hl Hkk) as H. rewrite Nat.add_0_r in H.
  destruct l as [|i l]; cbn in Hlen; [lia|]. cbn in *. split; [done|]. by apply (Forall_lookup_1 _ _ _ _ Hlt H).
Qed.

Lemma runs_ids s l : g !! s = Some l -> ids_of (group_ubatch a g) s = tok_ids a (hd 0%nat l).
Proof.
  intros Hl. destruct (runs_first s l Hl) as [H _]. unfold ids_of, set_token. rewrite runs_seq_tokens.
  unfold group_ubatch. cbn [ub_seq_id gather]. by rewrite list_lookup_fmap, H.
Qed.

Lemma runs_last s l : g !! s = Some l -> exists x, (x < n_toks a)%nat /\
  ub_pos (group_ubatch a g) !! (set_token (group_ubatch a g) s + ub_n_seq_tokens (group_ubatch a g) - 1)%nat = Some (ptr_at (b_pos (ba_batch a)) x).
Proof.
  intros Hl. pose proof (Hrun l (list_elem_of_lookup_2 _ _ _ Hl)) as Hlen.
  destruct (lookup_lt_is_Some_2 l (kk - 1)) as [x Hx]; [lia|].
  pose proof (lookup_concat_uniform g kk s (kk - 1) l Hrun Hl ltac:(lia)) as H. rewrite Hx in H.
  exists x. split; [by apply (Forall_lookup_1 _ _ _ _ Hlt H)|]. unfold set_token. rewrite runs_seq_tokens.
  unfold group_ubatch. cbn [ub_pos gather]. pose proof (gather_pos_lookup a Hnp (concat g) 0 (s * kk + (kk - 1)) x Hnp H) as Hp.
  rewrite Nat.mul_0_r, Nat.add_0_r in Hp. replace (s * kk + kk - 1)%nat with (s * kk + (kk - 1))%nat by lia.
  rewrite Hp. by destruct (b_token (ba_batch a)).
Qed.

Lemma runs_fit : rs_fits size B (group_ubatch a g).
Proof.
  assert (Hn : ub_n_seqs (group_ubatch a g) = length g) by done.
  assert (Hlook : forall s, (s < ub_n_seqs (group_ubatch a g))%nat -> exists l, g !! s = Some l) by (intros s Hs; rewrite Hn in Hs; by apply lookup_lt_is_Some_2).
  assert (Hlast : forall s, (s < ub_n_seqs (group_ubatch a g))%nat -> exists x, (x < n_toks a)%nat /\ last_of (group_ubatch a g) s = ptr_at (b_pos (ba_batch a)) x /\
      ub_pos (group_ubatch a g) !! (set_token (group_ubatch a g) s + ub_n_seq_tokens (group_ubatch a g) - 1)%nat = Some (ptr_at (b_pos (ba_batch a)) x)).
  { intros s Hs. destruct (Hlook s Hs) as [l Hl]. destruct (runs_last s l Hl) as (x & Hx & Hp). exists x. unfold last_of. by rewrite Hp. }
  split_and!; [split| | |].
  - done.
  - intros s Hs. destruct (Hlook s Hs) as [l Hl]. destruct (runs_first s l Hl) as [H1 H2]. rewrite (runs_ids s l Hl).
    destruct (ao_ids a O _ H2) as (_ & H3 & _). unfold set_token. rewrite runs_seq_tokens. unfold group_ubatch.
    cbn [ub_seq_id ub_n_seq_id gather]. by rewrite !list_lookup_fmap, H1.
  - rewrite Hn. assert (ids_of (group_ubatch a g) <$> seq 0 (length g) = (fun l => tok_ids a (hd 0%nat l)) <$> g) as ->; [|done].
    apply list_eq. intros s. rewrite !list_lookup_fmap. destruct (decide (s < length g)%nat) as [Hs|Hs].
    + rewrite lookup_seq_lt by done. destruct (lookup_lt_is_Some_2 g s Hs) as [l Hl]. cbn. by rewrite Hl, (runs_ids s l Hl).
    + rewrite lookup_seq_ge by lia. by rewrite lookup_ge_None_2 by lia.
  - intros s q Hs Hq. destruct (Hlook s Hs) as [l Hl]. destruct (runs_first s l Hl) as [_ H2]. rewrite (runs_ids s l Hl) in Hq.
    split; [|by apply (Hids _ _ H2)]. destruct (ao_ids a O _ H2) as (_ & _ & _ & Hr). rewrite Forall_forall in Hr. by apply Hr.
  - intros s Hs. destruct (Hlast s Hs) as (x & Hx & -> & Hp). split; [done|]. specialize (Hpos x Hx). unfold INT32_MAX in *. lia.
  - rewrite Hn. by destruct g; [|cbn; lia].
  - rewrite runs_seq_tokens. assert (kk <= n_toks a)%nat; [|lia]. assert (length g <> 0)%nat by (by destruct g).
    assert (length (concat g) <= n_toks a)%nat as Hle; [|rewrite runs_length in Hle; nia].
    rewrite <- (length_seq (n_toks a) 0). apply submseteq_length, NoDup_submseteq; [done|]. intros i Hi. rewrite Forall_forall in Hlt.
    apply elem_of_seq. specialize (Hlt i Hi). lia.
  - intros s Hs. destruct (Hlast s Hs) as (x & Hx & -> & _). by apply Hpos.
Qed.
End runs.

Lemma chain_fits_recr n_ubatch idxs : chain_shape a n_ubatch idxs -> NoDup idxs -> rs_fits size B (gather a idxs 1 true).
Proof.
  intros (Hl & _ & Hlt & _) Hnd. assert (Hc : concat [idxs] = idxs) by apply app_nil_r.
  assert (gather a idxs 1 true = group_ubatch a [idxs]) as -> by (unfold group_ubatch; by rewrite Hc).
  apply (runs_fit _ (length idxs)); rewrite ?Hc; try done; [lia|by intros l ->%list_elem_of_singleton|].
  destruct idxs as [|i l]; cbn in Hl; [lia|]. apply Forall_cons in Hlt as [Hi _]. cbn. rewrite app_nil_r. by apply (ao_ids a O i Hi).
Qed.

Lemma group_fits_recr n_ubatch g : equal_shape a n_ubatch g -> NoDup (concat g) -> rs_fits size B (group_ubatch a g).
Proof.
  intros (Hne & _ & (kk & Hkk & Hrun & _) & q & Hq) Hnd. apply (runs_fit g kk); try done.
  - apply Forall_forall. intros i (l & Hi & Hl)%elem_of_concat. apply list_elem_of_lookup in Hl as [j Hj]. by apply (Hq j l Hj i Hi).
  - assert ((fun l => tok_ids a (hd 0%nat l)) <$> g = (fun j => [q + Z.of_nat j]) <$> seq 0 (length g)) as ->.
    { apply list_eq. intros j. rewrite !list_lookup_fmap. destruct (decide (j < length g)%nat) as [Hj|Hj].
      - rewrite lookup_seq_lt by done. destruct (lookup_lt_is_Some_2 g j Hj) as [l Hl]. cbn. rewrite Hl. cbn. f_equal.
        pose proof (Hrun l (list_elem_of_lookup_2 _ _ _ Hl)) as Hlen. destruct l as [|i l]; cbn in Hlen; [lia|]. cbn. apply (Hq j (i :: l) Hl i). set_solver.
      - rewrite lookup_seq_ge by lia. by rewrite lookup_ge_None_2 by lia. }
    assert (concat ((fun j => [q + Z.of_nat j]) <$> seq 0 (length g)) = (fun j => q + Z.of_nat j) <$> seq 0 (length g)) as ->.
    { generalize (seq 0 (length g)). intros l. induction l as [|x l IH]; [done|]. cbn. by rewrite <- IH. }
    apply NoDup_fmap_2; [intros x y; lia|apply NoDup_seq].
Qed.
End fit.

Section init.
Context {E : Type} (a : llama_batch_allocr E) (O : allocr_ok a) (size B : Z).
Context (Hids : forall i q, (i < n_toks a)%nat -> q ∈ tok_ids a i -> q < size)
  (Hpos : forall i, (i < n_toks a)%nat -> 0 <= ptr_at (b_pos (ba_batch a)) i <= B)
  (HB : B + Z.of_nat (n_toks a) <= INT32_MAX) (Hnp : (0 < ba_n_pos_per_embd a)%nat).

(** The micro-batches of the recurrent pattern. *)
Definition recr_shaped n_ubatch (u : llama_ubatch E) : Prop :=
  (exists idxs, chain_shape a n_ubatch idxs /\ u = gather a idxs 1 true) \/
  (ba_has_cpl a = false /\ exists g, equal_shape a n_ubatch g /\ u = group_ubatch a g).

Lemma recr_split_ok n_ubatch embd_all : embd_all = true \/ ba_has_cpl a = false ->
  exists a' us, recr_split (S (n_toks a)) embd_all n_ubatch (balloc_split_reset a) [] = Ok (a', us) /\
    covers_in_order a us /\ Forall (rs_fits size B) us /\ Forall (recr_shaped n_ubatch) us /\
    balloc_get_n_used a' = n_toks a /\ balloc_get_n_tokens a' = n_toks a.
Proof.
  intros Hor. unfold recr_split. destruct embd_all.
  - destruct (split_seq_all a n_ubatch O) as (a' & idxss & Hs & HP & Hord & Hsh & Hu & _ & Ht). eexists a', _. split; [exact Hs|].
    split_and!; [|apply Forall_fmap, Forall_forall|apply Forall_fmap; eapply Forall_impl; [exact Hsh|]; intros l Hl; left; by exists l|done|done].
    + exists idxss. split_and!; [done|done|]. apply Forall2_fmap_r, Forall_Forall2_diag, Forall_forall. intros l _. by eexists _, _.
    + intros l Hl. rewrite Forall_forall in Hsh. cbn. apply (chain_fits_recr a O size B Hids Hpos HB Hnp n_ubatch); [by apply Hsh|].
      apply (NoDup_concat_in idxss); [rewrite HP; apply NoDup_seq|done].
  - destruct Hor as [|Hcpl]; [done|]. destruct (split_equal_groups a n_ubatch true O Hcpl) as (a' & gs & Hs & Hg & HP & Hu & _ & Ht).
    pose proof (groups_shape a n_ubatch [] gs O Hcpl Hg) as Hsh. eexists a', _. split; [exact Hs|].
    split_and!; [|apply Forall_fmap, Forall_forall|apply Forall_fmap; eapply Forall_impl; [exact Hsh|]; intros g Hgs; right; split; [done|]; by exists g|done|done].
    + exists (@concat nat <$> gs). assert (Hc : concat (@concat nat <$> gs) = concat (concat gs)).
      { clear. induction gs as [|g gs IH]; [done|]. cbn [fmap list_fmap concat]. by rewrite concat_app, IH. }
      rewrite Hc. split_and!; [done| |].
      * intros T. rewrite (groups_order a n_ubatch true [] gs T O Hg). apply filter_all. apply Forall_forall. intros i _. apply not_elem_of_nil.
      * apply Forall2_fmap_l, Forall2_fmap_r, Forall_Forall2_diag, Forall_forall. intros g _. by eexists _, _.
    + intros g Hgin. rewrite Forall_forall in Hsh. cbn.
      apply (group_fits_recr a O size B Hids Hpos HB Hnp n_ubatch); [by apply Hsh|]. apply (NoDup_concat_in (@concat nat <$> gs)).
      * assert (concat (@concat nat <$> gs) = concat (concat gs)) as ->; [|rewrite HP; apply NoDup_seq].
        clear. induction gs as [|g gs IH]; [done|]. cbn [fmap list_fmap concat]. by rewrite concat_app, IH.
      * apply list_elem_of_fmap. by exists g.
Qed.

(** A sequential split of coupled sequences is refused. *)
Lemma recr_split_coupled n_ubatch : ba_has_cpl a = true ->
  recr_split (S (n_toks a)) false n_ubatch (balloc_split_reset a) [] = Ok (balloc_split_reset a, []).
Proof.
  intros Hcpl. unfold recr_split. cbn [split_loop]. unfold balloc_split_equal.
  change (ba_has_cpl (balloc_split_reset a)) with (ba_has_cpl a). by rewrite Hcpl.
Qed.
End init.

Lemma recr_init_batch_full {D E} (zero : D) B m rows (a : llama_batch_allocr E) n_ubatch embd_all :
  recr_ok zero m rows -> (forall q p x, view zero (rs_cells m) rows q = Some (p, x) -> p <= B) -> allocr_ok a -> (0 < n_toks a)%nat ->
  (0 < ba_n_pos_per_embd a)%nat -> (forall i q, (i < n_toks a)%nat -> q ∈ tok_ids a i -> q < rs_size m) ->
  (forall i, (i < n_toks a)%nat -> 0 <= ptr_at (b_pos (ba_batch a)) i <= B) -> B + Z.of_nat (n_toks a) <= INT32_MAX ->
  exists m' a' r, recr_init_batch m a n_ubatch embd_all = Ok (m', a', r) /\ recr_ok zero m' rows /\
    rs_cells m' = rs_cells m /\ rs_head m' = rs_head m /\ rs_used m' = rs_used m /\
    match r with
    | Some us => covers_in_order a us /\ Forall (rs_fits (rs_size m) B) us /\ Forall (recr_shaped a n_ubatch) us /\ exists m2, find_slots us m = Ok (m2, true)
    | None => embd_all = false /\ ba_has_cpl a = true
    end.
Proof.
  intros Hm Hv O Hn Hnp Hids Hpos HB. unfold recr_init_batch. change (balloc_get_n_tokens (balloc_split_reset a)) with (n_toks a).
  destruct (decide (embd_all = false /\ ba_has_cpl a = true)) as [[-> Hcpl]|Hno].
  - rewrite recr_split_coupled by done. cbn [mbind res_bind]. exists m, (balloc_split_reset a), None.
    rewrite (proj2 (Nat.ltb_lt _ _)) by done. by split_and!.
  - assert (Hor : embd_all = true \/ ba_has_cpl a = false) by (destruct embd_all, (ba_has_cpl a); tauto).
    destruct (recr_split_ok a O (rs_size m) B Hids Hpos HB Hnp n_ubatch embd_all Hor) as (a' & us & Hs & Hc & Hf & Hsh & Hu & Ht).
    rewrite Hs. cbn [mbind res_bind]. rewrite Hu, Ht, Nat.ltb_irrefl.
    assert (HB0 : 0 <= B) by (specialize (Hpos 0%nat Hn); lia).
    destruct (recr_prepare_ok zero B m rows us Hm HB0 Hv Hf) as (m' & m2 & -> & Hm2 & Hm' & H1 & H2 & H3). cbn [mbind res_bind].
    exists m', a', (Some us). split_and!; try done. by exists m2.
Qed.

(** C29: [init_batch] of the recurrent memory on an accepted batch of sequences that have cells never
    stops, and it fails in one case only, when coupled sequences would have to be split equally.
    Otherwise it succeeds whatever the memory holds: every token is in exactly one micro-batch, the
    tokens of each set of sequences in their order, and every micro-batch has a slot.  Either way the
    cells, the head and the number of used cells are what they were. *)
Theorem recr_init_batch_ok {D E} (zero : D) B m rows (a : llama_batch_allocr E) n_ubatch embd_all :
  recr_ok zero m rows -> (forall q p x, view zero (rs_cells m) rows q = Some (p, x) -> p <= B) -> allocr_ok a -> (0 < n_toks a)%nat ->
  (0 < ba_n_pos_per_embd a)%nat -> (forall i q, (i < n_toks a)%nat -> q ∈ tok_ids a i -> q < rs_size m) ->
  (forall i, (i < n_toks a)%nat -> 0 <= ptr_at (b_pos (ba_batch a)) i <= B) -> B + Z.of_nat (n_toks a) <= INT32_MAX ->
  exists m' a' r, recr_init_batch m a n_ubatch embd_all = Ok (m', a', r) /\ recr_ok zero m' rows /\
    rs_cells m' = rs_cells m /\ rs_head m' = rs_head m /\ rs_used m' = rs_used m /\
    match r with
    | Some us => covers_in_order a us /\ Forall (rs_fits (rs_size m) B) us /\ exists m2, find_slots us m = Ok (m2, true)
    | None => embd_all = false /\ ba_has_cpl a = true
    end.
Proof.
  intros Hm Hv O Hn Hnp Hids Hpos HB.
  destruct (recr_init_batch_full zero B m rows a n_ubatch embd_all Hm Hv O Hn Hnp Hids Hpos HB) as (m' & a' & r & Hr & H1 & H2 & H3 & H4 & H).
  exists m', a', r. split_and!; try done. destruct r as [us|]; [|done]. destruct H as (Hc & Hf & _ & Hm2). by split_and!.
Qed.

Lemma demo_alloc_ids i q : (i < n_toks demo_alloc)%nat -> q ∈ tok_ids demo_alloc i -> q < 4.
Proof.
  assert (Hn : n_toks demo_alloc = 3%nat) by (vm_compute; reflexivity). rewrite Hn. intros Hi Hq.
  destruct i as [|[|[|i]]]; [..|lia]; vm_compute in Hq; apply list_elem_of_singleton in Hq; lia.
Qed.

Lemma demo_alloc_pos i : (i < n_toks demo_alloc)%nat -> 0 <= ptr_at (b_pos (ba_batch demo_alloc)) i <= 10.
Proof.
  assert (Hn : n_toks demo_alloc = 3%nat) by (vm_compute; reflexivity). rewrite Hn. intros Hi.
  assert (Hp : b_pos (ba_batch demo_alloc) = Some [0; 0; 1]) by (vm_compute; reflexivity). rewrite Hp.
  destruct i as [|[|[|i]]]; [..|lia]; vm_compute; (split; discriminate).
Qed.

Lemma recr_init_batch_ok_witness : exists m' a' r, recr_init_batch (recr_new 4) demo_alloc 2 true = Ok (m', a', r) /\
  recr_ok 0 m' (replicate 4 0) /\ rs_cells m' = rs_cells (recr_new 4).
Proof.
  destruct (recr_new_ok 0 4 (replicate 4 0)) as [H1 H2]; [lia|lia|done|].
  destruct (recr_init_batch_ok 0 10 (recr_new 4) (replicate 4 0) demo_alloc 2 true) as (m' & a' & r & Hr & Hm' & Hc & _).
  - exact H1.
  - intros q p x Hv. by rewrite H2 in Hv.
  - exact demo_alloc_ok.
  - apply Nat.ltb_lt. vm_compute. reflexivity.
  - apply Nat.ltb_lt. vm_compute. reflexivity.
  - exact demo_alloc_ids.
  - exact demo_alloc_pos.
  - vm_compute. discriminate.
  - exists m', a', r. split; [exact Hr|]. split; [exact Hm'|exact Hc].
Defined.

(** ** A chain of shrinking sets in a recurrent memory *)

(** Token 0 belongs to sequences 0 and 1, token 1 to sequence 0 alone; all tokens are outputs. *)
Definition shrinking_batch : llama_batch Z :=
  mk_batch 2 (Some [5; 6]) None (Some [0; 1]) (Some [2; 1]) (Some [[0; 1]; [0]]) (Some [1; 1]).

Definition shrinking_alloc : llama_batch_allocr Z :=
  alloc_of (balloc_init (balloc_new 1) shrinking_batch 100 (None : option demo_memory) 0 2 true).

(** [split_seq] puts both tokens into one micro-batch, [find_slot] takes the sequences of its first
    token and the position of its last: sequence 1 then sits at position 1 with the state after
    both tokens, although its only token has position 0. *)
Lemma chain_mixes_sequences :
  accepts (balloc_init (balloc_new 1) shrinking_batch 100 (None : option demo_memory) 0 2 true) = true /\
  match recr_init_batch (recr_new 4) shrinking_alloc 512 true with
  | Ok (m', _, Some [u]) =>
      Some (ub_seq_id u, ub_pos u, match decode 0 (fmap (Z.add 10)) u (m', replicate 4 0) with
                                   | Ok (m, rows) => view 0 (rs_cells m) rows 1 | Err _ => None end)
  | _ => None
  end = Some ([[0; 1]; [0]], [0; 1], Some (1, 10)).
Proof. split; vm_compute; reflexivity. Qed.
