(* ===== verification/RsState.v ===== *)
(** * The recurrent memory: [state_write] and [state_read]

    The serialization of src/src/llama-memory-recurrent.cpp: the cells (all that are used, or
    that of one sequence), then the rows of the R and the S tensor of each layer.  The code
    always writes [s_trans = 0] and refuses anything else before it reads a row, so its
    transposed branches are not modelled. *)
From stdpp Require Import sorting.
From S2P Require Import Prelude Batch KvCache IoBytes KvState RsMemory.

(** The tensors of a layer; a layer that was filtered out has none. *)
Record rs_layer : Type := RsLayer { rl_r : option kv_tensor; rl_s : option kv_tensor }.

(** [clear(true)] *)
Definition recr_clear_all (s : llama_memory_recurrent * list rs_layer) : llama_memory_recurrent * list rs_layer :=
  (recr_clear s.1, (fun l => RsLayer (zero_tensor <$> rl_r l) (zero_tensor <$> rl_s l)) <$> s.2).

(** A [std::set] in order. *)
Definition set_list (s : gset Z) : list Z := merge_sort Z.le (elements s).

(** ** Writing *)

Definition recr_save_cond (cells : list mem_cell) (seq_id : Z) (i : nat) : res bool :=
  c ← vec_get cells i; Ok (((seq_id =? -1) && negb (is_empty c)) || has_seq_id c seq_id).

Definition recr_write_cell (cells : list mem_cell) (seq_id : Z) (i : nat) : res (list Z) :=
  c ← vec_get cells i;
  let ids := if seq_id =? -1 then set_list (mc_seq_id c) else [] in
  Ok (put_i32 (mc_pos c) ++ put_u32 (Z.of_nat (length ids)) ++ concat (put_i32 <$> ids)).

Definition recr_write_meta (cells : list mem_cell) (rs : list (nat * nat)) (seq_id : Z) : res (list Z) :=
  wr_for (fun r => wr_for (recr_write_cell cells seq_id) (seq (fst r) (snd r - fst r))) rs.

Definition recr_write_rows (rs : list (nat * nat)) (t : option kv_tensor) : res (list Z) :=
  match t with
  | None => Ok []
  | Some t =>
      ds ← wr_for (fun r => tensor_get t 0 (fst r * t_row t) ((snd r - fst r) * t_row t)) rs;
      Ok (put_i32 (t_type t) ++ put_u64 (Z.of_nat (t_row t)) ++ ds)
  end.

Definition recr_write_data (ls : list rs_layer) (rs : list (nat * nat)) : res (list Z) :=
  r ← wr_for (fun l => recr_write_rows rs (rl_r l)) ls;
  s ← wr_for (fun l => recr_write_rows rs (rl_s l)) ls;
  Ok (put_u32 0 ++ put_u32 (Z.of_nat (length ls)) ++ r ++ s).

Definition recr_state_write (m : llama_memory_recurrent) (ls : list rs_layer) (seq_id : Z) : res (list Z) :=
  '(cell_count, rs) ← cell_ranges (length (rs_cells m)) (recr_save_cond (rs_cells m) seq_id);
  meta ← recr_write_meta (rs_cells m) rs seq_id;
  data ← recr_write_data ls rs;
  Ok (put_u32 (Z.of_nat cell_count) ++ meta ++ data).

(** ** Reading *)

Definition with_cells (m : llama_memory_recurrent) (cells : list mem_cell) : llama_memory_recurrent :=
  Recurrent (rs_head m) (rs_used m) (rs_n m) (rs_rs_z m) cells.

(** One token of the micro-batch of a single-sequence restore: its position. *)
Definition recr_read_token (st : list Z * bool) (i : nat) : io (list Z * bool) :=
  if negb (snd st) then io_ret st else
  io_bind get_i32 (fun pos =>
  io_bind get_u32 (fun n_seq_id =>
  if negb (n_seq_id =? 0) then io_ret (fst st, false)
  else io_lift (p ← vec_set (fst st) i pos; Ok (p, true)))).

(** The assertions after a single-sequence restore. *)
Definition recr_check_restored (m : llama_memory_recurrent) (pos : list Z) (cell_count : nat) (dest : Z) : res unit :=
  _ ← assert_ (u32 (rs_head m + Z.of_nat cell_count) <=? rs_size m);
  c ← vec_getZ (rs_cells m) (rs_head m);
  p ← vec_get pos 0;
  _ ← assert_ (mc_pos c =? p);
  d ← vec_getZ (rs_cells m) (u32 (rs_head m + Z.of_nat cell_count - 1));
  q ← vec_get pos (cell_count - 1);
  _ ← assert_ (mc_pos d =? q);
  _ ← assert_ (has_seq_id c dest);
  assert_ (has_seq_id d dest).

(** [dest_seq_id != -1] and [cell_count != 0]; [None] is [return false]. *)
Definition recr_read_seq (n_pos_per_embd : nat) (m : llama_memory_recurrent) (cell_count : nat) (dest : Z) :
    io (llama_memory_recurrent * bool) :=
  io_bind (io_lift (balloc_ubatch_reserve (E := unit) (balloc_new n_pos_per_embd) cell_count 1)) (fun au =>
  let u := snd au in
  io_bind (io_for recr_read_token (seq 0 cell_count) (ub_pos u, true)) (fun pb =>
  if negb (snd pb) then io_ret (m, false) else
  io_lift (n ← vec_set (ub_n_seq_id u) 0 1;
           s ← vec_set (ub_seq_id u) 0 [dest];
           let u := mk_ubatch (ub_equal_seqs u) (ub_n_tokens u) (ub_n_seq_tokens u) (ub_n_seqs u) (ub_n_seqs_unq u)
                      (ub_n_pos u) (ub_token u) (ub_embd u) (fst pb) n s (ub_seq_id_unq u) (ub_seq_idx u) (ub_output u) in
           '(m, ok) ← recr_find_slot u m;
           if negb ok then Ok (m, false) else
           _ ← recr_check_restored m (fst pb) cell_count dest;
           Ok (m, true)))).

(** One sequence id of cell [i] of a whole restore; the flag is false after an invalid one. *)
Definition recr_read_id (n_seq_max : Z) (i : nat) (st : list mem_cell * bool) (_ : nat) : io (list mem_cell * bool) :=
  if negb (snd st) then io_ret st else
  io_bind get_i32 (fun id =>
  if (id <? 0) || (n_seq_max <=? id) then io_ret (fst st, false) else
  io_lift (cells ← upd (fst st) (Z.of_nat i) (fun c => set_ids ({[ id ]} ∪ mc_seq_id c) c);
           c ← vec_getZ cells id;
           if negb (mc_tail c =? -1) then Ok (cells, false) else
           cells ← upd cells id (set_tail (Z.of_nat i)); Ok (cells, true))).

Definition recr_read_cell (n_seq_max : Z) (st : list mem_cell * bool) (i : nat) : io (list mem_cell * bool) :=
  if negb (snd st) then io_ret st else
  io_bind get_i32 (fun pos =>
  io_bind get_u32 (fun n_seq_id =>
  io_bind (io_lift (upd (fst st) (Z.of_nat i) (set_pos pos))) (fun cells =>
  io_for (recr_read_id n_seq_max i) (seq 0 (Z.to_nat n_seq_id)) (cells, true)))).

(** The restored cells keep their state. *)
Definition keep_source (head : Z) (cells : list mem_cell) (i : nat) : res (list mem_cell) :=
  let cell_id := u32 (head + Z.of_nat i) in
  upd cells cell_id (fun c => set_pos_src (mc_pos c) cell_id c).

Definition keep_sources (m : llama_memory_recurrent) (cell_count : nat) : res llama_memory_recurrent :=
  cells ← mfor (keep_source (rs_head m)) (seq 0 cell_count) (rs_cells m); Ok (with_cells m cells).

Definition recr_read_meta (n_pos_per_embd : nat) (n_seq_max : Z) (s : llama_memory_recurrent * list rs_layer)
    (cell_count : nat) (dest : Z) : io (llama_memory_recurrent * list rs_layer * bool) :=
  let '(m, ls) := s in
  if negb (dest =? -1) then
    io_bind (io_lift (recr_seq_rm m dest (-1) (-1))) (fun '(m, _) =>
    if (cell_count =? 0)%nat then io_ret (m, ls, true) else
    io_bind (recr_read_seq n_pos_per_embd m cell_count dest) (fun '(m, ok) =>
    if negb ok then io_ret (m, ls, false) else
    io_bind (io_lift (keep_sources m cell_count)) (fun m => io_ret (m, ls, true))))
  else
    if rs_size m <? Z.of_nat cell_count then io_ret (m, ls, false) else
    let '(m, ls) := recr_clear_all (m, ls) in
    io_bind (io_for (recr_read_cell n_seq_max) (seq 0 cell_count) (rs_cells m, true)) (fun cb =>
    if negb (snd cb) then io_ret (with_cells m (fst cb), ls, false) else
    io_bind (io_lift (keep_sources (Recurrent 0 (Z.of_nat cell_count) (rs_n m) (rs_rs_z m) (fst cb)) cell_count)) (fun m =>
    io_ret (m, ls, true))).

(** The rows of a tensor, to the rows from [head] on. *)
Definition recr_read_rows (head : Z) (count : nat) (t : kv_tensor) : io (kv_tensor * bool) :=
  io_bind get_i32 (fun ty =>
  if negb (t_type t =? ty) then io_ret (t, false) else
  io_bind get_u64 (fun row =>
  if negb (Z.of_nat (t_row t) =? row) then io_ret (t, false) else
  if (count =? 0)%nat then io_ret (t, true) else
  io_bind (io_read (count * t_row t)) (fun src =>
  io_bind (io_lift (tensor_set t 0 (Z.to_nat head * t_row t) src)) (fun t => io_ret (t, true))))).

Definition recr_read_tensor (head : Z) (count : nat) (t : option kv_tensor) : io (option kv_tensor * bool) :=
  match t with
  | None => io_ret (None, true)
  | Some t => io_bind (recr_read_rows head count t) (fun r => io_ret (Some (fst r), snd r))
  end.

(** The loops over the layers; a loop keeps the layers it has not reached. *)
Definition recr_read_r (head : Z) (count : nat) (st : list rs_layer * bool) (l : rs_layer) : io (list rs_layer * bool) :=
  if negb (snd st) then io_ret (fst st ++ [l], false) else
  io_bind (recr_read_tensor head count (rl_r l)) (fun r => io_ret (fst st ++ [RsLayer (fst r) (rl_s l)], snd r)).

Definition recr_read_s (head : Z) (count : nat) (st : list rs_layer * bool) (l : rs_layer) : io (list rs_layer * bool) :=
  if negb (snd st) then io_ret (fst st ++ [l], false) else
  io_bind (recr_read_tensor head count (rl_s l)) (fun r => io_ret (fst st ++ [RsLayer (rl_r l) (fst r)], snd r)).

Definition recr_read_data (m : llama_memory_recurrent) (ls : list rs_layer) (cell_count : nat) : io (list rs_layer * bool) :=
  io_bind get_u32 (fun s_trans =>
  io_bind get_u32 (fun n_layer =>
  if negb (n_layer =? Z.of_nat (length ls)) then io_ret (ls, false) else
  if rs_size m <? Z.of_nat cell_count then io_ret (ls, false) else
  if negb (s_trans =? 0) then io_ret (ls, false) else
  io_bind (io_for (recr_read_r (rs_head m) cell_count) ls ([], true)) (fun r =>
  if negb (snd r) then io_ret r else
  io_for (recr_read_s (rs_head m) cell_count) (fst r) ([], true)))).

(** The flag is false if the code throws "failed to restore kv cache". *)
Definition recr_state_read (n_pos_per_embd : nat) (n_seq_max : Z) (s : llama_memory_recurrent * list rs_layer) (seq_id : Z) :
    io (llama_memory_recurrent * list rs_layer * bool) :=
  io_bind get_u32 (fun count =>
  let cell_count := Z.to_nat count in
  io_bind (recr_read_meta n_pos_per_embd n_seq_max s cell_count seq_id) (fun '(m, ls, ok) =>
  io_bind (if (ok : bool) then recr_read_data m ls cell_count else io_ret (ls, false)) (fun '(ls, ok) =>
  if (ok : bool) then io_ret (m, ls, true) else
  if seq_id =? -1 then let '(m, ls) := recr_clear_all (m, ls) in io_ret (m, ls, false) else
  io_bind (io_lift (recr_seq_rm m seq_id (-1) (-1))) (fun '(m, _) => io_ret (m, ls, false))))).
