(* ===== verification/RsStateMeta.v ===== *)
(** * The recurrent memory: its states through a saved state

    The rows of the R and S tensors as the states of the cells ([state_at]); what is written of
    them, and that reading moves the saved rows to the rows from [head] on; then the same for the
    positions and sequences of the cells. *)

From stdpp Require Import sorting.
From S2P Require Import Prelude Batch KvCache IoBytes KvState KvStateLayers RsMemory RsTheory RsSlot RsFind.
From S2P Require Export RsState.

(** ** The state of a cell: its bytes in every tensor *)

Definition opt_item (t : option kv_tensor) (i : nat) : list Z :=
  match t with Some t => item (t_row t) (stream_data t 0) i | None => [] end.

Definition state_at (ls : list rs_layer) (i : nat) : list (list Z * list Z) :=
  (fun l => (opt_item (rl_r l) i, opt_item (rl_s l) i)) <$> ls.

Definition rows_of (ls : list rs_layer) (n : nat) : list (list (list Z * list Z)) := state_at ls <$> seq 0 n.

Lemma rows_of_at zero ls n i : 0 <= i < Z.of_nat n -> row_at zero (rows_of ls n) i = state_at ls (Z.to_nat i).
Proof. intros Hi. unfold row_at, rows_of. rewrite list_lookup_fmap, lookup_seq_lt by lia. done. Qed.

(** A tensor of [n] rows, whose header fits the integers it is saved in. *)
Definition rs_tensor_ok (n : nat) (t : kv_tensor) : Prop :=
  (exists d, t_data t = [d] /\ length d = (n * t_row t)%nat) /\ tensor_header t.

Definition opt_all {A} (P : A -> Prop) (o : option A) : Prop := match o with Some a => P a | None => True end.

Definition rs_layers_ok (n : nat) (ls : list rs_layer) : Prop := Forall (fun l => opt_all (rs_tensor_ok n) (rl_r l) /\ opt_all (rs_tensor_ok n) (rl_s l)) ls.

(** Two memories of the same model. *)
Definition opt_like (t0 t1 : option kv_tensor) : Prop :=
  match t0, t1 with Some t0, Some t1 => tensor_like t0 t1 | None, None => True | _, _ => False end.

Definition rs_layer_like (l0 l1 : rs_layer) : Prop := opt_like (rl_r l0) (rl_r l1) /\ opt_like (rl_s l0) (rl_s l1).

(** ** Writing *)

Definition opt_bytes (idxs : list nat) (t : option kv_tensor) : list Z :=
  match t with Some t => rows_bytes t (stream_data t 0) idxs | None => [] end.

Lemma recr_write_rows_ok rs n t : opt_all (rs_tensor_ok n) t -> (forall r, r ∈ rs -> (fst r <= snd r <= n)%nat) ->
  recr_write_rows rs t = Ok (opt_bytes (range_cells rs) t).
Proof.
  intros Ht Hr. destruct t as [t|]; [|done]. destruct Ht as [(d & Hd & Hl) _].
  assert (Hlk : t_data t !! 0%nat = Some d) by (by rewrite Hd). cbn [opt_bytes]. rewrite (stream_data_lookup t 0 d Hlk).
  apply (write_rows_ok t 0 rs d n); [done|done|lia].
Qed.

Definition rs_data_bytes (ls : list rs_layer) (idxs : list nat) : list Z :=
  put_u32 0 ++ put_u32 (Z.of_nat (length ls)) ++ concat ((fun l => opt_bytes idxs (rl_r l)) <$> ls) ++ concat ((fun l => opt_bytes idxs (rl_s l)) <$> ls).

Lemma recr_write_data_ok ls rs n : rs_layers_ok n ls -> (forall r, r ∈ rs -> (fst r <= snd r <= n)%nat) ->
  recr_write_data ls rs = Ok (rs_data_bytes ls (range_cells rs)).
Proof.
  intros Hls Hr. unfold rs_layers_ok in Hls. rewrite Forall_forall in Hls. unfold recr_write_data.
  rewrite (wr_for_ok (fun l => recr_write_rows rs (rl_r l)) (fun l => opt_bytes (range_cells rs) (rl_r l))) by (intros l [Hl _]%Hls; by apply (recr_write_rows_ok rs n)).
  cbn [mbind res_bind]. rewrite (wr_for_ok (fun l => recr_write_rows rs (rl_s l)) (fun l => opt_bytes (range_cells rs) (rl_s l))) by (intros l [_ Hl]%Hls; by apply (recr_write_rows_ok rs n)).
  done.
Qed.

(** ** Reading *)

Section read.
Context (head count n0 n1 : nat) (idxs : list nat) (Hcount : length idxs = count) (Hidxs : forall i, i ∈ idxs -> (i < n0)%nat) (Hfit : (head + count <= n1)%nat).

(** The rows of [t0] in [idxs] have moved to [head], the others of [t1] stay. *)
Definition moved (t0 t1 t' : option kv_tensor) : Prop :=
  opt_like t1 t' /\ opt_all (rs_tensor_ok n1) t' /\ forall i, (i < n1)%nat ->
    opt_item t' i = if decide (head <= i < head + count)%nat then opt_item t0 (idxs !!! (i - head)%nat) else opt_item t1 i.

Lemma recr_read_tensor_ok t0 t1 : opt_like t0 t1 -> opt_all (rs_tensor_ok n0) t0 -> opt_all (rs_tensor_ok n1) t1 ->
  exists t', reads (recr_read_tensor (Z.of_nat head) count t1) (opt_bytes idxs t0) (t', true) /\ moved t0 t1 t'.
Proof.
  destruct t0 as [t0|], t1 as [t1|]; try done.
  2: { intros _ _ _. exists None. split; [apply reads_ret|]. split_and!; [done|done|]. intros i Hi. by destruct (decide _). }
  cbn [opt_like opt_all opt_item]. intros (Ety & Erow & Eel & Egqa) [(d0 & Hd0 & Hl0) H0] [(d1 & Hd1 & Hl1) H1]. pose proof H0 as (Hty & Hrow & _).
  assert (Hs0 : stream_data t0 0 = d0) by (unfold stream_data; by rewrite Hd0). assert (Hs1 : stream_data t1 0 = d1) by (unfold stream_data; by rewrite Hd1).
  set (src := concat (item (t_row t0) d0 <$> idxs)).
  assert (Hitems : forall l, l ∈ item (t_row t0) d0 <$> idxs -> length l = t_row t0).
  { intros l (i & -> & Hi)%list_elem_of_fmap. specialize (Hidxs i Hi). apply length_item. nia. }
  assert (Hsrc : length src = (count * t_row t0)%nat) by (unfold src; rewrite (length_concat_items (t_row t0)) by done; by rewrite length_fmap, Hcount).
  destruct (tensor_set_ok t1 0 (head * t_row t1) src d1) as (d' & Hset & Hl' & Hp); [by rewrite Hd1|rewrite Hsrc, Hl1, Erow; nia|].
  exists (Some (put_data t1 0 d')). assert (Hd' : t_data (put_data t1 0 d') = [d']) by (unfold put_data; cbn; by rewrite Hd1).
  split; [|split_and!].
  - cbn [recr_read_tensor opt_bytes]. rewrite Hs0. apply reads_app_nil.
    apply (reads_bind _ _ _ [] (put_data t1 0 d', true)); [|apply reads_ret].
    unfold recr_read_rows, rows_bytes. eapply reads_bind; [by apply reads_i32|]. rewrite Ety, Z.eqb_refl. cbn [negb].
    eapply reads_bind; [apply reads_u64; lia|]. rewrite Erow, Z.eqb_refl. cbn [negb]. fold src. destruct (Nat.eqb_spec count 0) as [Hc0|Hc0].
    + destruct src; [|cbn in Hsrc; lia]. rewrite Erow in Hset. unfold tensor_set in Hset. rewrite Hd1 in Hset. cbn in Hset. injection Hset as <-. apply reads_ret.
    + apply reads_app_nil. eapply reads_bind; [by apply reads_read|]. eapply reads_lift_bind; [|apply reads_ret]. rewrite Nat2Z.id. by rewrite <- Erow.
  - cbn. done.
  - split; [|by destruct H1]. exists d'. rewrite Hd'. split; [done|]. cbn. lia.
  - intros i Hi. assert (Hsd : stream_data (put_data t1 0 d') 0 = d') by (unfold stream_data; by rewrite Hd').
    cbn [opt_item]. rewrite Hsd, Hs0, Hs1. change (t_row (put_data t1 0 d')) with (t_row t1). rewrite Hsrc in Hp. rewrite Erow in *.
    destruct (decide (head <= i < head + count)%nat) as [Hr|Hr].
    + destruct (lookup_lt_is_Some_2 idxs (i - head)) as [j Hj]; [lia|]. rewrite (list_lookup_total_correct _ _ _ Hj).
      assert (Hjn : (j < n0)%nat) by (apply Hidxs; by eapply list_elem_of_lookup_2).
      rewrite <- (item_concat (t_row t0) (item (t_row t0) d0 <$> idxs) (i - head)); [|done|by rewrite list_lookup_fmap, Hj].
      fold src. apply item_ext. intros q Hq. rewrite Hp. rewrite decide_True by nia. f_equal. nia.
    + apply item_ext. intros q Hq. rewrite Hp. rewrite decide_False by nia. done.
Qed.

Definition layer_pair_ok (l0 l1 : rs_layer) : Prop :=
  rs_layer_like l0 l1 /\ (opt_all (rs_tensor_ok n0) (rl_r l0) /\ opt_all (rs_tensor_ok n0) (rl_s l0)) /\
  (opt_all (rs_tensor_ok n1) (rl_r l1) /\ opt_all (rs_tensor_ok n1) (rl_s l1)).

Definition r_moved (l0 l1 l' : rs_layer) : Prop := moved (rl_r l0) (rl_r l1) (rl_r l') /\ rl_s l' = rl_s l1.
Definition s_moved (l0 l1 l' : rs_layer) : Prop := moved (rl_s l0) (rl_s l1) (rl_s l') /\ rl_r l' = rl_r l1.

Lemma read_r_step acc l0 l1 : layer_pair_ok l0 l1 ->
  exists l', reads (recr_read_r (Z.of_nat head) count (acc, true) l1) (opt_bytes idxs (rl_r l0)) (acc ++ [l'], true) /\ r_moved l0 l1 l'.
Proof.
  intros ([Lr Ls] & [F0 _] & [F1 _]). destruct (recr_read_tensor_ok _ _ Lr F0 F1) as (t' & Hr & Hm).
  exists (RsLayer t' (rl_s l1)). split; [|by split]. unfold recr_read_r. cbn [negb fst snd]. apply reads_app_nil.
  apply (reads_bind _ _ _ [] (t', true)); [done|apply reads_ret].
Qed.

Lemma read_s_step acc l0 l1 : layer_pair_ok l0 l1 ->
  exists l', reads (recr_read_s (Z.of_nat head) count (acc, true) l1) (opt_bytes idxs (rl_s l0)) (acc ++ [l'], true) /\ s_moved l0 l1 l'.
Proof.
  intros ([Lr Ls] & [_ F0] & [_ F1]). destruct (recr_read_tensor_ok _ _ Ls F0 F1) as (t' & Hr & Hm).
  exists (RsLayer (rl_r l1) t'). split; [|by split]. unfold recr_read_s. cbn [negb fst snd]. apply reads_app_nil.
  apply (reads_bind _ _ _ [] (t', true)); [done|apply reads_ret].
Qed.

(** After both loops: the states of the saved cells are those of the cells from [head] on. *)
Definition states_moved (ls0 ls1 ls' : list rs_layer) : Prop :=
  Forall2 rs_layer_like ls0 ls' /\ rs_layers_ok n1 ls' /\ forall i, (i < n1)%nat ->
    state_at ls' i = if decide (head <= i < head + count)%nat then state_at ls0 (idxs !!! (i - head)%nat) else state_at ls1 i.

Lemma opt_like_trans a b c : opt_like a b -> opt_like b c -> opt_like a c.
Proof. destruct a, b, c; try done. unfold opt_like, tensor_like. naive_solver congruence. Qed.

(** The second loop finds layers like those before the first. *)
Lemma r_moved_pairs ls0 ls1 ls2 : Forall2 layer_pair_ok ls0 ls1 -> Forall3 r_moved ls0 ls1 ls2 -> Forall2 layer_pair_ok ls0 ls2.
Proof.
  intros HP HR. induction HR as [|l0 l1 l2 ls0 ls1 ls2 [(Hl & Ho & _) Hs] HR IH]; [constructor|]. inversion HP as [|? ? ? ? H1 HP']; subst.
  constructor; [|by apply IH]. destruct H1 as ([Lr Ls] & F0 & [F1 F1']). unfold layer_pair_ok, rs_layer_like. rewrite Hs.
  split_and!; try done; [by eapply opt_like_trans|apply F0|apply F0].
Qed.

Lemma both_moved ls0 ls1 ls2 ls3 : Forall2 layer_pair_ok ls0 ls1 -> Forall3 r_moved ls0 ls1 ls2 -> Forall3 s_moved ls0 ls2 ls3 -> states_moved ls0 ls1 ls3.
Proof.
  intros HP HR. revert ls3. induction HR as [|l0 l1 l2 ls0 ls1 ls2 [(Hl & Ho & Hi) Hs] HR IH]; intros ls3 HS; inversion HS as [|? ? l3 ? ? ls3' [(Hl' & Ho' & Hi') Hs'] HS']; subst.
  { split_and!; [constructor|constructor|]. intros i Hin. by destruct (decide _). }
  inversion HP as [|? ? ? ? H1 HP']; subst. destruct (IH HP' ls3' HS') as (I1 & I2 & I3). destruct H1 as ([Lr Ls] & F0 & F1). rewrite Hs in *.
  split_and!.
  - constructor; [|done]. unfold rs_layer_like. rewrite Hs'. split; by eapply opt_like_trans.
  - constructor; [|done]. rewrite Hs'. done.
  - intros i Hin. cbn. rewrite (Hi' i Hin), Hs', (Hi i Hin). unfold state_at in I3. rewrite (I3 i Hin). by destruct (decide _).
Qed.

Lemma recr_read_data_ok m ls0 ls1 : Forall2 layer_pair_ok ls0 ls1 -> rs_head m = Z.of_nat head -> rs_size m = Z.of_nat n1 -> Z.of_nat (length ls0) < 2 ^ 32 ->
  exists ls', reads (recr_read_data m ls1 count) (rs_data_bytes ls0 idxs) (ls', true) /\ states_moved ls0 ls1 ls'.
Proof.
  intros HP Hh Hn Hl. destruct (reads_layers (recr_read_r (Z.of_nat head) count) (fun l => opt_bytes idxs (rl_r l)) _ _ read_r_step ls0 ls1 [] HP) as (ls2 & Hr2 & H2).
  destruct (reads_layers (recr_read_s (Z.of_nat head) count) (fun l => opt_bytes idxs (rl_s l)) _ _ read_s_step ls0 ls2 [] (r_moved_pairs _ _ _ HP H2)) as (ls3 & Hr3 & H3).
  exists ls3. split; [|by eapply both_moved]. unfold recr_read_data, rs_data_bytes. eapply reads_bind; [by apply reads_u32|]. eapply reads_bind; [apply reads_u32; lia|].
  rewrite (Forall2_length _ _ _ HP), Z.eqb_refl. cbn [negb]. rewrite (proj2 (Z.ltb_ge _ _)) by lia. rewrite Hh.
  eapply reads_bind; [done|]. cbn [negb snd fst app]. done.
Qed.

End read.

(** * The recurrent memory: its cells through a saved state

    What is written of the cells, and what the loops of [recr_read_meta] make of it. *)

(** ** Writing *)

Lemma elem_of_set_list s q : q ∈ set_list s <-> q ∈ s.
Proof. unfold set_list. by rewrite merge_sort_Permutation, elem_of_elements. Qed.

Lemma NoDup_set_list s : NoDup (set_list s).
Proof. unfold set_list. rewrite merge_sort_Permutation. apply NoDup_elements. Qed.

(** The cells that are saved. *)
Definition saves (cs : list mem_cell) (q : Z) (i : nat) : bool :=
  let c := cell_at cs (Z.of_nat i) in ((q =? -1) && negb (is_empty c)) || has_seq_id c q.

Definition saves_idxs (cs : list mem_cell) (q : Z) : list nat := filter (fun i => saves cs q i = true) (seq 0 (length cs)).

(** The ids of a cell that are saved, and its bytes. *)
Definition sent_ids (q : Z) (c : mem_cell) : list Z := if q =? -1 then set_list (mc_seq_id c) else [].

Definition sent_cell (cs : list mem_cell) (q : Z) (i : nat) : list Z :=
  let c := cell_at cs (Z.of_nat i) in
  put_i32 (mc_pos c) ++ put_u32 (Z.of_nat (length (sent_ids q c))) ++ concat (put_i32 <$> sent_ids q c).

Lemma vec_get_cell (cs : list mem_cell) i : (i < length cs)%nat -> vec_get cs i = Ok (cell_at cs (Z.of_nat i)).
Proof. intros Hi. destruct (lookup_lt_is_Some_2 cs i Hi) as [c Hc]. rewrite (cell_at_lookup _ _ _ Hc). unfold vec_get. by rewrite Hc. Qed.

Lemma recr_write_meta_ok cs rs q : (forall r, r ∈ rs -> (fst r <= snd r <= length cs)%nat) ->
  recr_write_meta cs rs q = Ok (concat (sent_cell cs q <$> range_cells rs)).
Proof.
  intros Hr. apply wr_ranges. intros i Hi. apply (elem_of_range_cells _ (length cs)) in Hi; [|done]. unfold recr_write_cell.
  rewrite vec_get_cell by done. done.
Qed.

Lemma recr_state_write_ok m ls q : rs_layers_ok (length (rs_cells m)) ls ->
  recr_state_write m ls q = Ok (put_u32 (Z.of_nat (length (saves_idxs (rs_cells m) q))) ++
    concat (sent_cell (rs_cells m) q <$> saves_idxs (rs_cells m) q) ++ rs_data_bytes ls (saves_idxs (rs_cells m) q)).
Proof.
  intros Hls. unfold recr_state_write.
  destruct (cell_ranges_ok (length (rs_cells m)) (recr_save_cond (rs_cells m) q) (saves (rs_cells m) q)) as (rs & -> & Hcells & Hr).
  { intros i Hi. unfold recr_save_cond. by rewrite vec_get_cell. }
  cbn [mbind res_bind]. rewrite recr_write_meta_ok by done. cbn [mbind res_bind]. rewrite (recr_write_data_ok ls rs (length (rs_cells m))) by done.
  cbn [mbind res_bind]. by rewrite Hcells.
Qed.

(** ** Reading the cells of a whole memory *)

Lemma int32_cell z : 0 <= z <= INT32_MAX -> - 2 ^ 31 <= z < 2 ^ 31.
Proof. unfold INT32_MAX. lia. Qed.

Lemma read_ids_ok n_seq_max i ids cs : in_cells cs (Z.of_nat i) -> n_seq_max <= Z.of_nat (length cs) -> Z.of_nat (length cs) < 2 ^ 31 -> NoDup ids ->
  (forall q, q ∈ ids -> 0 <= q < n_seq_max /\ tail_at cs q = -1) ->
  exists cs', reads (io_for (recr_read_id n_seq_max i) (seq 0 (length ids)) (cs, true)) (concat (put_i32 <$> ids)) (cs', true) /\
    ids_added cs cs' (Z.of_nat i) ids.
Proof.
  intros Hi Hmax Hlen Hnd Hids.
  destruct (reads_for_seq (recr_read_id n_seq_max i) put_i32 (fun k s => s.2 = true /\ ids_added cs s.1 (Z.of_nat i) (take k ids)) ids (cs, true)) as ([cs' b] & Hr & Hb & Ha).
  - split; [done|apply ids_added_start].
  - intros k q [cs1 b] Hq [Hb Ha]. cbn [fst snd] in *. subst b. pose proof (list_elem_of_lookup_2 _ _ _ Hq) as Hqin. destruct (Hids q Hqin) as [Hqr Hqt].
    assert (Hin : forall j, in_cells cs1 j <-> in_cells cs j) by (intros j; unfold in_cells; by rewrite (proj1 Ha)).
    assert (Hqc : in_cells cs q) by (unfold in_cells; lia).
    assert (Hnew : q ∉ take k ids).
    { intros (k' & Hk')%list_elem_of_lookup. apply lookup_take_Some in Hk' as [Hk' Hlt]. pose proof (NoDup_lookup _ _ _ _ Hnd Hk' Hq). lia. }
    exists (put (put cs1 (Z.of_nat i) (fun c => set_ids ({[ q ]} ∪ mc_seq_id c) c)) q (set_tail (Z.of_nat i)), true). split.
    + unfold recr_read_id. cbn [negb snd fst]. apply reads_app_nil. eapply reads_bind; [apply reads_i32; unfold in_cells in Hqc; lia|].
      assert ((q <? 0) || (n_seq_max <=? q) = false) as -> by lia. apply reads_lift. rewrite upd_cell by (by apply Hin). cbn [mbind res_bind].
      rewrite get_cell by (by rewrite in_put, Hin). cbn [mbind res_bind].
      assert (Ht : mc_tail (cell_at (put cs1 (Z.of_nat i) (fun c => set_ids ({[ q ]} ∪ mc_seq_id c) c)) q) = -1).
      { rewrite cell_at_put by (by apply Hin). destruct Ha as [_ Ha]. destruct (Ha q) as (_ & _ & _ & Hta). rewrite decide_False in Hta by done.
        destruct (decide (q = Z.of_nat i)) as [e1|]; [rewrite <- e1; cbn|]; congruence. }
      rewrite Ht. cbn [negb Z.eqb Pos.eqb]. rewrite upd_cell by (by rewrite in_put, Hin). done.
    + cbn [fst snd]. split; [done|]. replace (k + 1)%nat with (S k) by lia. rewrite (take_S_r _ _ q Hq). by apply ids_added_snoc.
  - exists cs'. cbn [fst snd] in *. subst b. split; [done|]. by rewrite firstn_all in Ha.
Qed.

(** The cells after [k] of the saved cells [idxs] of [cs0]. *)
Section cells.
Context (cs0 : list mem_cell) (idxs : list nat) (n1 : nat) (n_seq_max : Z).

Abbreviation src_cell j := (cell_at cs0 (Z.of_nat (idxs !!! (j : nat)))).

Record refilled (k : nat) (cs : list mem_cell) : Prop := {
  rf_len : length cs = n1;
  rf_cell : forall j, (j < k)%nat -> pos_at cs (Z.of_nat j) = mc_pos (src_cell j) /\ ids_at cs (Z.of_nat j) = mc_seq_id (src_cell j);
  rf_rest : forall j, (k <= j < n1)%nat -> pos_at cs (Z.of_nat j) = -1 /\ ids_at cs (Z.of_nat j) = ∅;
  rf_src : forall j, in_cells cs j -> src_at cs j = -1;
  rf_in : forall q j, (j < k)%nat -> q ∈ mc_seq_id (src_cell j) -> tail_at cs q = Z.of_nat j;
  rf_out : forall q, in_cells cs q -> (forall j, (j < k)%nat -> q ∉ mc_seq_id (src_cell j)) -> tail_at cs q = -1;
}.

(** The saved cells have disjoint sets of ids that fit the target. *)
Context (Hcount : (length idxs <= n1)%nat) (Hmax : n_seq_max <= Z.of_nat n1) (Hn1 : Z.of_nat n1 < 2 ^ 31)
  (Hpos : forall j, (j < length idxs)%nat -> 0 <= mc_pos (src_cell j) <= INT32_MAX)
  (Hids : forall j q, (j < length idxs)%nat -> q ∈ mc_seq_id (src_cell j) -> 0 <= q < n_seq_max)
  (Hdisj : forall j j' q, (j < length idxs)%nat -> (j' < length idxs)%nat -> q ∈ mc_seq_id (src_cell j) -> q ∈ mc_seq_id (src_cell j') -> j = j').

Lemma length_set_list s : length (set_list s) = size s.
Proof. unfold set_list. by rewrite merge_sort_Permutation. Qed.

Lemma read_cell_step k cs : (k < length idxs)%nat -> refilled k cs ->
  exists cs', reads (recr_read_cell n_seq_max (cs, true) k) (sent_cell cs0 (-1) (idxs !!! k)) (cs', true) /\ refilled (k + 1) cs'.
Proof.
  intros Hk [Rl Rc Rr Rs Ri Ro]. assert (Hkin : in_cells cs (Z.of_nat k)) by (unfold in_cells; lia). set (c := src_cell k).
  set (cs1 := put cs (Z.of_nat k) (set_pos (mc_pos c))).
  assert (Hin1 : forall j, in_cells cs1 j <-> in_cells cs j) by (intros j; apply in_put).
  assert (H1 : forall j, cell_at cs1 j = if decide (j = Z.of_nat k) then set_pos (mc_pos c) (cell_at cs (Z.of_nat k)) else cell_at cs j) by (intros j; by apply cell_at_put).
  assert (Hmeta : forall j, tail_at cs1 j = tail_at cs j /\ ids_at cs1 j = ids_at cs j /\ src_at cs1 j = src_at cs j)
    by (intros j; rewrite H1; by destruct (decide (j = Z.of_nat k)) as [->|]).
  assert (Hl1 : length cs1 = n1) by (unfold cs1; by rewrite length_put).
  assert (Hfree : forall q, q ∈ mc_seq_id c -> 0 <= q < n_seq_max /\ tail_at cs1 q = -1).
  { intros q Hq. pose proof (Hids k q Hk Hq) as Hqr. split; [done|]. destruct (Hmeta q) as [-> _]. apply Ro; [unfold in_cells; lia|].
    intros j Hj Hjq. pose proof (Hdisj j k q ltac:(lia) Hk Hjq Hq). lia. }
  destruct (read_ids_ok n_seq_max k (set_list (mc_seq_id c)) cs1) as (cs2 & Hr & Hl2 & H2); [by apply Hin1|lia|lia|apply NoDup_set_list| |].
  { intros q Hq%elem_of_set_list. by apply Hfree. }
  rewrite Hl1 in Hl2. assert (Hin2 : forall j, in_cells cs2 j <-> in_cells cs j) by (intros j; unfold in_cells; by rewrite Hl2, Rl).
  exists cs2. split.
  - unfold recr_read_cell, sent_cell. cbn [negb snd fst]. fold c. unfold sent_ids. cbn [Z.eqb Pos.eqb].
    eapply reads_bind; [apply reads_i32, int32_cell, Hpos, Hk|]. eapply reads_bind; [apply reads_u32|].
    { rewrite length_set_list. split; [lia|]. assert (Hsub : mc_seq_id c ⊆ list_to_set (seqZ 0 n_seq_max)).
      { intros q Hq. apply elem_of_list_to_set, elem_of_seqZ. destruct (Hfree q Hq). lia. }
      apply subseteq_size in Hsub. rewrite size_list_to_set in Hsub by apply NoDup_seqZ. rewrite length_seqZ in Hsub. lia. }
    eapply reads_lift_bind; [by rewrite upd_cell|]. by rewrite Nat2Z.id.
  - assert (Hp2 : forall j, pos_at cs2 j = if decide (j = Z.of_nat k) then mc_pos c else pos_at cs j).
    { intros j. destruct (H2 j) as (-> & _). rewrite H1. by destruct (decide (j = Z.of_nat k)). }
    assert (Hi2 : forall j, ids_at cs2 j = if decide (j = Z.of_nat k) then mc_seq_id c else ids_at cs j).
    { intros j. destruct (H2 j) as (_ & _ & -> & _). destruct (Hmeta j) as (_ & -> & _). destruct (decide (j = Z.of_nat k)) as [->|]; [|done].
      destruct (Hmeta (Z.of_nat k)) as (_ & -> & _). destruct (Rr k) as [_ ->]; [lia|]. apply set_eq. intros q. rewrite elem_of_union, elem_of_list_to_set, elem_of_set_list. set_solver. }
    assert (Ht2 : forall q, tail_at cs2 q = if decide (q ∈ mc_seq_id c) then Z.of_nat k else tail_at cs q).
    { intros q. destruct (H2 q) as (_ & _ & _ & ->). destruct (Hmeta q) as (-> & _). destruct (decide (q ∈ set_list (mc_seq_id c))) as [Hq|Hq]; rewrite elem_of_set_list in Hq.
      - by rewrite decide_True. - by rewrite decide_False. }
    split.
    + done.
    + intros j Hj. rewrite Hp2, Hi2. destruct (decide (j = k)) as [->|]; [by rewrite !decide_True by done|]. rewrite !decide_False by lia. apply Rc. lia.
    + intros j Hj. rewrite Hp2, Hi2. rewrite !decide_False by lia. apply Rr. lia.
    + intros j Hj%Hin2. destruct (H2 j) as (_ & -> & _). destruct (Hmeta j) as (_ & _ & ->). by apply Rs.
    + intros q j Hj Hq. rewrite Ht2. destruct (decide (q ∈ mc_seq_id c)) as [Hqc|Hqc].
      * f_equal. apply (Hdisj k j q); [done|lia|done|done].
      * apply Ri; [|done]. destruct (decide (j = k)) as [->|]; [done|lia].
    + intros q Hq%Hin2 Hno. rewrite Ht2. rewrite decide_False by (apply Hno; lia). apply Ro; [done|]. intros j Hj. apply Hno. lia.
Qed.

Lemma read_cells_ok' cs : refilled 0 cs ->
  exists cs', reads (io_for (recr_read_cell n_seq_max) (seq 0 (length idxs)) (cs, true)) (concat (sent_cell cs0 (-1) <$> idxs)) (cs', true) /\ refilled (length idxs) cs'.
Proof.
  intros H0. destruct (reads_for_seq (recr_read_cell n_seq_max) (sent_cell cs0 (-1)) (fun k s => s.2 = true /\ refilled k s.1) idxs (cs, true)) as ([cs' b] & Hr & Hb & Hf).
  - by split.
  - intros k i [cs1 b] Hi [Hb Hf]. cbn [fst snd] in *. subst b. destruct (read_cell_step k cs1) as (cs2 & Hr & Hf'); [by eapply lookup_lt_Some|done|].
    rewrite (list_lookup_total_correct _ _ _ Hi) in Hr. by exists (cs2, true).
  - exists cs'. cbn [fst snd] in *. by subst b.
Qed.

End cells.

(** ** The sources *)

Definition sourced (cs : list mem_cell) (h k : nat) (cs' : list mem_cell) : Prop :=
  length cs' = length cs /\ forall j, cell_at cs' j =
    if decide (Z.of_nat h <= j < Z.of_nat (h + k)) then set_pos_src (pos_at cs j) j (cell_at cs j) else cell_at cs j.

Lemma keep_sources_ok m h count : rs_head m = Z.of_nat h -> (h + count <= length (rs_cells m))%nat -> rs_size m < 2 ^ 31 ->
  exists cs, keep_sources m count = Ok (with_cells m cs) /\ sourced (rs_cells m) h count cs.
Proof.
  intros Hh Hle Hlt. unfold rs_size in Hlt. unfold keep_sources.
  assert (Hs : sat (mfor (keep_source (rs_head m)) (seq 0 count) (rs_cells m)) (sourced (rs_cells m) h count)).
  { apply (sat_for _ (sourced (rs_cells m) h)).
    - split; [done|]. intros j. by rewrite decide_False by lia.
    - intros k cs Hk [Hl Hc]. unfold keep_source. rewrite Hh, u32_id by lia. rewrite upd_cell by (unfold in_cells; lia). apply sat_ok.
      split; [by rewrite length_put|]. intros j. rewrite cell_at_put by (unfold in_cells; lia). rewrite !Hc.
      destruct (decide (j = Z.of_nat h + Z.of_nat k)) as [->|].
      + rewrite decide_False by lia. by rewrite decide_True by lia.
      + destruct (decide (Z.of_nat h <= j < Z.of_nat (h + k))); [by rewrite decide_True by lia|by rewrite decide_False by lia]. }
  apply sat_exists in Hs as (cs & -> & H). by exists cs.
Qed.
