(* ===== verification/RsStateProps.v ===== *)
(** * The recurrent memory: what a saved state brings back

    A whole memory, or one sequence, is restored: every sequence sees the position and the
    state it saw when the state was written. *)
From S2P Require Import Prelude Batch KvCache IoBytes KvState KvStateLayers RsMemory RsTheory RsSlot RsFind.
From S2P Require Import RsProps RsStateMeta.

(** ** Counting busy cells *)

Lemma n_busy_idxs cs : n_busy cs = length (filter (fun i => busy (cell_at cs (Z.of_nat i)) = true) (seq 0 (length cs))).
Proof.
  unfold n_busy. induction cs as [|c cs IH] using rev_ind; [done|]. rewrite length_app. cbn [length]. rewrite seq_app, !filter_app, !length_app. f_equal.
  - rewrite IH. f_equal. apply (filter_bool_agree (fun i => busy (cell_at cs (Z.of_nat i))) (fun i => busy (cell_at (cs ++ [c]) (Z.of_nat i)))). intros i Hi%elem_of_seq. f_equal. unfold cell_at. rewrite (proj2 (Z.leb_le 0 _)) by lia.
    by rewrite lookup_app_l by lia.
  - cbn [seq]. rewrite !filter_cons, !filter_nil. assert (cell_at (cs ++ [c]) (Z.of_nat (0 + length cs)) = c) as ->.
    { apply cell_at_lookup. cbn. by rewrite lookup_app_r, Nat.sub_diag by lia. }
    destruct (busy c); done.
Qed.

Lemma length_filter_lt k n : length (filter (fun i => (i <? k)%nat = true) (seq 0 n)) = (k `min` n)%nat.
Proof.
  induction n as [|n IH]; [by rewrite Nat.min_0_r|]. rewrite seq_S, filter_app, length_app, IH, filter_cons, filter_nil. cbn [Nat.add].
  destruct (Nat.ltb_spec n k); [rewrite decide_True by done|rewrite decide_False by done]; cbn [length]; lia.
Qed.

Lemma filter_rejected {A} (P : A -> Prop) `{!forall x, Decision (P x)} l : (forall x, x ∈ l -> ~ P x) -> filter P l = [].
Proof. induction l as [|x l IH]; intros Hno; [done|]. rewrite filter_cons_False by (apply Hno; set_solver). apply IH. set_solver. Qed.

(** ** A whole memory *)

Section whole.
Context (zero : list (list Z * list Z)) (n_pos_per_embd : nat) (n_seq_max : Z).
Context (m0 m1 : llama_memory_recurrent) (ls0 ls1 : list rs_layer).
Abbreviation cs0 := (rs_cells m0).
Abbreviation n0 := (length (rs_cells m0)).
Abbreviation n1 := (length (rs_cells m1)).

(** The memory [m1] is one of the same model, with room for the cells and the sequences of [m0]. *)
Record rs_compatible : Prop := {
  cp_source : recr_ok zero m0 (rows_of ls0 n0);
  cp_layers0 : rs_layers_ok n0 ls0;
  cp_layers1 : rs_layers_ok n1 ls1;
  cp_like : Forall2 rs_layer_like ls0 ls1;
  cp_count : Z.of_nat (length ls0) < 2 ^ 32;
  cp_size : 0 < rs_size m1 < 2 ^ 31;
}.

Context (C : rs_compatible) (Hroom : (n_busy cs0 <= n1)%nat) (Hmax : n_seq_max <= Z.of_nat n1)
  (Hseqs : forall q v, view zero cs0 (rows_of ls0 n0) q = Some v -> q < n_seq_max).

Definition idxs := saves_idxs cs0 (-1).
Abbreviation src_cell j := (cell_at cs0 (Z.of_nat (idxs !!! (j : nat)))).

Lemma elem_of_idxs i : i ∈ idxs <-> (i < n0)%nat /\ ids_at cs0 (Z.of_nat i) <> ∅.
Proof.
  unfold idxs, saves_idxs. rewrite list_elem_of_filter, elem_of_seq. unfold saves, has_seq_id. cbn [Z.eqb Pos.eqb andb].
  assert (Hno : (i < n0)%nat -> bool_decide (-1 ∈ ids_at cs0 (Z.of_nat i)) = false).
  { intros Hi. apply bool_decide_eq_false. intros H. apply (ids_tail _ _ _ (ce_own _ _ _ (re_cells _ _ _ (cp_source C)))) in H as [[H _] _]; [lia|unfold in_cells; lia]. }
  split.
  - intros [H Hi]. split; [lia|]. rewrite Hno, orb_false_r in H by lia. by apply busy_ids.
  - intros [Hi H]. split; [|lia]. rewrite Hno, orb_false_r by done. by apply busy_ids.
Qed.

Lemma idxs_at j : (j < length idxs)%nat -> (idxs !!! j < n0)%nat /\ mc_seq_id (src_cell j) <> ∅.
Proof.
  intros Hj. destruct (lookup_lt_is_Some_2 idxs j Hj) as [i Hi]. rewrite (list_lookup_total_correct _ _ _ Hi).
  apply elem_of_idxs. by eapply list_elem_of_lookup_2.
Qed.

Lemma length_idxs : length idxs = n_busy cs0.
Proof.
  rewrite n_busy_idxs. unfold idxs, saves_idxs. f_equal. apply filter_bool_agree. intros i Hi%elem_of_seq.
  unfold saves, has_seq_id. cbn [Z.eqb Pos.eqb andb]. rewrite bool_decide_eq_false_2; [by rewrite orb_false_r|].
  intros H. apply (ids_tail _ _ _ (ce_own _ _ _ (re_cells _ _ _ (cp_source C)))) in H as [[H _] _]; [lia|unfold in_cells; lia].
Qed.

Lemma src_tail j q : (j < length idxs)%nat -> q ∈ mc_seq_id (src_cell j) -> in_cells cs0 q /\ tail_at cs0 q = Z.of_nat (idxs !!! j).
Proof.
  intros Hj Hq. destruct (idxs_at j Hj) as [Hi _]. eapply ids_tail; [apply (ce_own _ _ _ (re_cells _ _ _ (cp_source C)))|unfold in_cells; lia|done].
Qed.

(** The saved cell of a sequence. *)
Lemma src_dec q : {j | (j < length idxs)%nat /\ q ∈ mc_seq_id (src_cell j)} + {forall j, (j < length idxs)%nat -> q ∉ mc_seq_id (src_cell j)}.
Proof.
  destruct (list_find (fun j => q ∈ mc_seq_id (src_cell j)) (seq 0 (length idxs))) as [[i j]|] eqn:Hf; [left; exists j|right].
  - apply list_find_Some in Hf as (Hl & Hq & _). apply lookup_seq in Hl. split; [lia|done].
  - intros j Hj. apply list_find_None in Hf. rewrite Forall_forall in Hf. apply Hf, elem_of_seq. lia.
Qed.

Lemma src_of_tail q : in_cells cs0 q -> 0 <= tail_at cs0 q -> exists j, (j < length idxs)%nat /\ q ∈ mc_seq_id (src_cell j).
Proof.
  intros Hq Ht. pose proof (ce_own _ _ _ (re_cells _ _ _ (cp_source C))) as O. pose proof (tail_busy _ q O Hq Ht) as Hb. pose proof (own_in _ _ _ O Hq Ht) as Htin.
  assert (Hi : Z.to_nat (tail_at cs0 q) ∈ idxs).
  { apply elem_of_idxs. unfold in_cells in Htin. split; [lia|]. rewrite Z2Nat.id by done. set_solver. }
  apply list_elem_of_lookup in Hi as [j Hj]. exists j. split; [by eapply lookup_lt_Some|].
  rewrite (list_lookup_total_correct _ _ _ Hj), Z2Nat.id by done. done.
Qed.

Lemma src_disjoint j j' q : (j < length idxs)%nat -> (j' < length idxs)%nat -> q ∈ mc_seq_id (src_cell j) -> q ∈ mc_seq_id (src_cell j') -> j = j'.
Proof.
  intros Hj Hj' Hq Hq'. destruct (src_tail j q Hj Hq) as [_ E]. destruct (src_tail j' q Hj' Hq') as [_ E']. rewrite E in E'. apply Nat2Z.inj in E'.
  destruct (lookup_lt_is_Some_2 idxs j Hj) as [i Hi]. destruct (lookup_lt_is_Some_2 idxs j' Hj') as [i' Hi'].
  rewrite (list_lookup_total_correct _ _ _ Hi), (list_lookup_total_correct _ _ _ Hi') in E'. subst i'.
  eapply NoDup_lookup; [|done|done]. unfold idxs, saves_idxs. apply NoDup_filter, NoDup_seq.
Qed.

Lemma src_data j : (j < length idxs)%nat -> 0 <= mc_pos (src_cell j) <= INT32_MAX /\ mc_src (src_cell j) = Z.of_nat (idxs !!! j).
Proof. intros Hj. destruct (idxs_at j Hj) as [Hi Hb]. apply (ce_busy _ _ _ (re_cells _ _ _ (cp_source C))); [unfold in_cells; lia|done]. Qed.

Lemma src_ids j q : (j < length idxs)%nat -> q ∈ mc_seq_id (src_cell j) -> 0 <= q < n_seq_max.
Proof.
  intros Hj Hq. destruct (src_tail j q Hj Hq) as [Hin Ht]. split; [apply Hin|]. eapply Hseqs. apply view_some; [done|lia].
Qed.

(** *** The restored memory *)

Section restored.
Context (cs2 cs3 : list mem_cell) (lsx ls' : list rs_layer) (Rf : refilled cs0 idxs n1 (length idxs) cs2)
  (Sc : sourced cs2 0 (length idxs) cs3) (Mv : states_moved 0 (length idxs) n1 idxs ls0 lsx ls').

Lemma restored_cell j : tail_at cs3 j = tail_at cs2 j /\ ids_at cs3 j = ids_at cs2 j /\ pos_at cs3 j = pos_at cs2 j.
Proof. destruct Sc as [_ Hc]. rewrite Hc. by destruct (decide _). Qed.

Lemma restored_in j : in_cells cs3 j <-> in_cells cs2 j.
Proof. unfold in_cells. by rewrite (proj1 Sc). Qed.

Lemma restored_src j : in_cells cs2 j -> src_at cs3 j = if decide (j < Z.of_nat (length idxs)) then j else -1.
Proof.
  intros Hj. destruct Sc as [_ Hc]. rewrite Hc. destruct Hj as [Hj0 Hj1]. destruct (decide (j < Z.of_nat (length idxs))) as [Hlt|Hge].
  - by rewrite decide_True by lia.
  - rewrite decide_False by lia. by apply (rf_src _ _ _ _ _ Rf).
Qed.

Lemma refilled_own : own_ok cs2 ∅.
Proof.
  destruct Rf as [Rl Rc Rr Rs Ri Ro]. pose proof length_idxs as Hidx. split; [| |set_solver].
  - intros q Hq. destruct (src_dec q) as [(j & Hj & Hjq)|Hno]; [right|left; by apply Ro]. rewrite (Ri q j Hj Hjq). unfold in_cells. lia.
  - intros i x Hi. destruct (decide (Z.to_nat i < length idxs)%nat) as [Hlt|Hge].
    + destruct (Rc _ Hlt) as [_ Hids]. rewrite Z2Nat.id in Hids by apply Hi. rewrite Hids. split.
      * intros Hx. pose proof (src_ids _ _ Hlt Hx). split_and!; [unfold in_cells; lia|set_solver|]. rewrite (Ri x _ Hlt Hx). destruct Hi. lia.
      * intros (Hx & _ & Ht). destruct (src_dec x) as [(j & Hj & Hjx)|Hno]; [|rewrite (Ro x Hx Hno) in Ht; destruct Hi; lia].
        rewrite (Ri x j Hj Hjx) in Ht. subst i. by rewrite Nat2Z.id.
    + destruct (Rr (Z.to_nat i)) as [_ Hids]; [unfold in_cells in Hi; lia|]. rewrite Z2Nat.id in Hids by apply Hi. rewrite Hids. split; [set_solver|].
      intros (Hx & _ & Ht). destruct (src_dec x) as [(j & Hj & Hjx)|Hno]; [rewrite (Ri x j Hj Hjx) in Ht; lia|rewrite (Ro x Hx Hno) in Ht; destruct Hi; lia].
Qed.

Lemma restored_cells_ok rows : cells_ok zero cs3 rows.
Proof.
  pose proof refilled_own as O. pose proof Rf as [Rl Rc Rr Rs Ri Ro]. split; [split; [| |set_solver]|..].
  - intros q Hq%restored_in. destruct (restored_cell q) as (-> & _). rewrite restored_in. by apply (ow_tail _ _ O).
  - intros i x Hi%restored_in. destruct (restored_cell i) as (_ & -> & _). destruct (restored_cell x) as (-> & _). rewrite restored_in. by apply (ow_ids _ _ O).
  - intros i Hi%restored_in. destruct (restored_cell i) as (_ & -> & ->). intros He. rewrite restored_src by done.
    destruct (decide (i < Z.of_nat (length idxs))) as [Hlt|Hge].
    + exfalso. destruct Hi as [Hi0 Hi1]. destruct (Rc (Z.to_nat i)) as [_ Hids]; [lia|]. rewrite Z2Nat.id in Hids by done. rewrite He in Hids.
      destruct (idxs_at (Z.to_nat i)) as [_ Hb]; [lia|]. by rewrite <- Hids in Hb.
    + destruct Hi as [Hi0 Hi1]. destruct (Rr (Z.to_nat i)) as [Hp _]; [lia|]. rewrite Z2Nat.id in Hp by done. split; [done|by left].
  - intros i Hi%restored_in. destruct (restored_cell i) as (_ & -> & ->). intros He. rewrite restored_src by done. destruct Hi as [Hi0 Hi1].
    destruct (decide (i < Z.of_nat (length idxs))) as [Hlt|Hge].
    + destruct (Rc (Z.to_nat i)) as [Hp _]; [lia|]. rewrite Z2Nat.id in Hp by done. rewrite Hp. split; [|done]. apply src_data. lia.
    + exfalso. destruct (Rr (Z.to_nat i)) as [_ Hids]; [lia|]. rewrite Z2Nat.id in Hids by done. done.
Qed.

Lemma restored_busy : n_busy cs3 = length idxs.
Proof.
  pose proof Rf as [Rl Rc Rr Rs Ri Ro]. pose proof length_idxs as Hidx. rewrite n_busy_idxs, (proj1 Sc), Rl. rewrite (filter_bool_agree _ (fun i => (i <? length idxs)%nat)).
  - rewrite length_filter_lt. lia.
  - intros i Hi%elem_of_seq. destruct (restored_cell (Z.of_nat i)) as (_ & Hids & _). destruct (Nat.ltb_spec i (length idxs)).
    + apply busy_ids. rewrite Hids. destruct (Rc i) as [_ ->]; [done|]. by apply idxs_at.
    + apply not_busy_ids. rewrite Hids. apply Rr. lia.
Qed.

(** Every sequence sees what it saw. *)
Lemma restored_view q : view zero cs3 (rows_of ls' n1) q = view zero cs0 (rows_of ls0 n0) q.
Proof.
  pose proof Rf as [Rl Rc Rr Rs Ri Ro]. pose proof length_idxs as Hidx. destruct (src_dec q) as [(j & Hj & Hjq)|Hno].
  - destruct (src_tail j q Hj Hjq) as [Hq Ht]. destruct (idxs_at j Hj) as [Hi _]. pose proof (src_ids j q Hj Hjq) as Hqr.
    assert (Ht3 : tail_at cs3 q = Z.of_nat j) by (destruct (restored_cell q) as (-> & _); by apply Ri).
    assert (Hjin : in_cells cs2 (Z.of_nat j)) by (unfold in_cells; lia).
    rewrite (view_some zero cs3) by (rewrite ?restored_in, ?Ht3; unfold in_cells; lia). rewrite (view_some zero cs0) by (done || lia). rewrite Ht3, Ht.
    destruct (restored_cell (Z.of_nat j)) as (_ & _ & ->). destruct (Rc j Hj) as [-> _]. do 2 f_equal.
    unfold val_at. rewrite restored_src by done. rewrite decide_True by lia. destruct (src_data j Hj) as [_ ->].
    rewrite !(proj2 (Z.ltb_ge _ _)) by lia. rewrite !rows_of_at by lia. rewrite !Nat2Z.id. destruct Mv as (_ & _ & M). rewrite M by lia.
    rewrite decide_True by lia. by rewrite Nat.sub_0_r.
  - rewrite !view_none; [done| |].
    + destruct (decide (in_cells cs0 q)) as [Hq|]; [right|by left]. destruct (Z.ltb_spec (tail_at cs0 q) 0); [done|]. exfalso.
      destruct (src_of_tail q) as (j & Hj & Hjq); [done|done|]. by apply (Hno j).
    + destruct (decide (in_cells cs3 q)) as [Hq%restored_in|]; [right|by left]. destruct (restored_cell q) as (-> & _). rewrite Ro by done. lia.
Qed.

End restored.

(** *** Cleared memories *)

Definition zeroed_layer (l : rs_layer) : rs_layer := RsLayer (zero_tensor <$> rl_r l) (zero_tensor <$> rl_s l).

Lemma zero_tensor_ok n t : opt_all (rs_tensor_ok n) t -> opt_all (rs_tensor_ok n) (zero_tensor <$> t).
Proof.
  destruct t as [t|]; [|done]. intros [(d & Hd & Hl) Hh]. split; [|done]. exists (replicate (length d) 0). cbn. rewrite Hd. split; [done|]. by rewrite length_replicate.
Qed.

Lemma zero_tensor_like t0 t1 : opt_like t0 t1 -> opt_like t0 (zero_tensor <$> t1).
Proof. by destruct t0, t1. Qed.

Lemma zeroed_pairs n : Forall2 (layer_pair_ok n n1) ls0 ls1 -> Forall2 (layer_pair_ok n n1) ls0 (zeroed_layer <$> ls1).
Proof.
  intros H. clear C Hseqs. induction H as [|l0 l1 l0s l1s [[Lr Ls] [H0 [H1 H1']]] H IH]; [constructor|]. constructor; [|done].
  split; [split; by apply zero_tensor_like|]. split; [done|]. split; by apply zero_tensor_ok.
Qed.

Lemma compatible_pairs : Forall2 (layer_pair_ok n0 n1) ls0 ls1.
Proof.
  destruct C as [_ L0 L1 Hl _ _]. unfold rs_layers_ok in *. revert L0 L1. clear -Hl. induction Hl as [|l0 l1 ls0 ls1 H Hl IH]; [constructor|].
  intros L0%Forall_cons L1%Forall_cons. destruct L0, L1. constructor; [done|by apply IH].
Qed.

Lemma cleared_refilled : refilled cs0 idxs n1 0 (rs_cells (recr_clear m1)).
Proof.
  assert (Hc : forall j, in_cells cs0 j \/ True -> in_cells (rs_cells m1) j -> let c := cell_at (rs_cells (recr_clear m1)) j in
      mc_pos c = -1 /\ mc_src c = -1 /\ mc_tail c = -1 /\ mc_seq_id c = ∅).
  { intros j _ Hj. unfold recr_clear. cbn [rs_cells]. rewrite cell_at_fmap by done. done. }
  assert (Hin : forall j, in_cells (rs_cells (recr_clear m1)) j <-> in_cells (rs_cells m1) j) by (intros j; unfold recr_clear; cbn [rs_cells]; apply in_fmap).
  split; [unfold recr_clear; cbn; apply length_fmap|lia| | |lia|].
  - intros j Hj. destruct (Hc (Z.of_nat j)) as (-> & _ & _ & ->); [by right|unfold in_cells; lia|done].
  - intros j Hj%Hin. by destruct (Hc j (or_intror I) Hj) as (_ & -> & _).
  - intros q Hq%Hin _. by destruct (Hc q (or_intror I) Hq) as (_ & _ & -> & _).
Qed.

Lemma whole_round_trip rest : exists bs m' ls', recr_state_write m0 ls0 (-1) = Ok bs /\
  recr_state_read n_pos_per_embd n_seq_max (m1, ls1) (-1) (bs ++ rest) = Ok (m', ls', true, rest) /\
  recr_ok zero m' (rows_of ls' n1) /\ rs_size m' = rs_size m1 /\ forall q, view zero (rs_cells m') (rows_of ls' n1) q = view zero cs0 (rows_of ls0 n0) q.
Proof.
  pose proof length_idxs as Hidx. pose proof C as [[R1 R2 R3 R4 R5] L0 L1 Hlike Hcount Hsize]. unfold rs_size in Hsize, R1.
  rewrite (recr_state_write_ok m0 ls0 (-1) L0). fold idxs. eexists.
  destruct (read_cells_ok' cs0 idxs n1 n_seq_max) with (cs := rs_cells (recr_clear m1)) as (cs2 & Hr2 & Rf);
    [lia|done|lia|intros j Hj; by apply src_data|intros j q Hj; by apply src_ids|intros j j' q Hj Hj'; by apply src_disjoint|apply cleared_refilled|].
  set (m2 := Recurrent 0 (Z.of_nat (length idxs)) (rs_n m1) (rs_rs_z m1) cs2).
  destruct (keep_sources_ok m2 0 (length idxs)) as (cs3 & Hk & Sc); [done|cbn; rewrite (rf_len _ _ _ _ _ Rf); lia|unfold rs_size; cbn; rewrite (rf_len _ _ _ _ _ Rf); lia|].
  cbn [rs_cells m2] in Sc. set (m3 := with_cells m2 cs3) in *.
  assert (Hl3 : length cs3 = n1) by (rewrite (proj1 Sc); apply Rf).
  destruct (recr_read_data_ok 0 (length idxs) n0 n1 idxs eq_refl) with (m := m3) (ls0 := ls0) (ls1 := zeroed_layer <$> ls1) as (ls' & Hr3 & Mv);
    [intros i Hi; by apply elem_of_idxs|lia|apply zeroed_pairs, compatible_pairs|done|unfold rs_size; cbn; by rewrite Hl3|done|].
  exists m3, ls'. split; [done|].
  split_and!.
  - unfold recr_state_read. rewrite <- !app_assoc, (reads_run _ _ _ _ _ (reads_u32 (Z.of_nat (length idxs)) ltac:(lia))), Nat2Z.id.
    unfold recr_read_meta. cbn [Z.eqb Pos.eqb negb]. rewrite (proj2 (Z.ltb_ge _ _)) by (unfold rs_size; lia).
    unfold recr_clear_all. cbn [fst snd].
    assert (Hm : reads (io_bind (io_for (recr_read_cell n_seq_max) (seq 0 (length idxs)) (rs_cells (recr_clear m1), true)) (fun cb =>
        if negb (snd cb) then io_ret (with_cells (recr_clear m1) (fst cb), zeroed_layer <$> ls1, false) else
        io_bind (io_lift (keep_sources (Recurrent 0 (Z.of_nat (length idxs)) (rs_n (recr_clear m1)) (rs_rs_z (recr_clear m1)) (fst cb)) (length idxs))) (fun m => io_ret (m, zeroed_layer <$> ls1, true))))
      (concat (sent_cell cs0 (-1) <$> idxs)) (m3, zeroed_layer <$> ls1, true)).
    { apply reads_app_nil. eapply reads_bind; [exact Hr2|]. cbn [negb snd fst]. eapply reads_lift_bind; [exact Hk|]. apply reads_ret. }
    rewrite (reads_run _ _ _ _ _ Hm). cbn beta iota. rewrite (reads_run _ _ _ _ _ Hr3). done.
  - split; unfold rs_size; cbn [m3 with_cells m2 rs_cells rs_head rs_used]; rewrite ?Hl3; [lia|lia|by erewrite restored_busy|unfold rows_of; by rewrite length_fmap, length_seq|].
    by eapply restored_cells_ok.
  - unfold rs_size. cbn. by rewrite Hl3.
  - intros q. by eapply restored_view.
Qed.

End whole.

(** ** One sequence *)

(** The micro-batch a single-sequence restore places. *)
Definition one_token (n_pos_per_embd : nat) (pos : list Z) (dest : Z) : llama_ubatch unit :=
  mk_ubatch true 1 1 1 1 n_pos_per_embd (Some [0]) None pos [1] [[dest]] [0] (<[0%nat := 0]> (replicate MAX_SEQ (-1))) [0].

Lemma one_token_ok n_pos_per_embd p ps dest size : 0 <= dest < size -> 0 <= p <= INT32_MAX -> rubatch_ok (one_token n_pos_per_embd (p :: ps) dest) size.
Proof.
  intros Hd Hp. assert (Hids : forall s, (s < 1)%nat -> ids_of (one_token n_pos_per_embd (p :: ps) dest) s = [dest]) by (intros [|s] Hs; [done|lia]).
  split; cbn [one_token ub_n_seqs]; [done| | | |].
  - intros s Hs. rewrite Hids by done. destruct s; [done|lia].
  - cbn. apply NoDup_singleton.
  - intros s q Hs Hq. rewrite Hids in Hq by done. apply list_elem_of_singleton in Hq as ->. done.
  - intros [|s] Hs; [done|lia].
Qed.

(** A sequence with a cell is one saved cell. *)
Lemma saves_one cs q : own_ok cs ∅ -> in_cells cs q -> saves_idxs cs q = if decide (0 <= tail_at cs q) then [Z.to_nat (tail_at cs q)] else [].
Proof.
  intros O Hq. assert (Hs : forall i, (i < length cs)%nat -> saves cs q i = bool_decide (Z.of_nat i = tail_at cs q)).
  { intros i Hi. unfold saves, has_seq_id. assert ((q =? -1) = false) as -> by (unfold in_cells in Hq; lia). cbn [andb orb]. apply bool_decide_ext.
    rewrite (ow_ids _ _ O) by (unfold in_cells; lia). split; [by intros (_ & _ & ->)|]. intros ->. split_and!; [done|set_solver|done]. }
  unfold saves_idxs. rewrite (filter_bool_agree _ (fun i => bool_decide (Z.of_nat i = tail_at cs q))) by (intros i Hi%elem_of_seq; apply Hs; lia).
  destruct (decide (0 <= tail_at cs q)) as [Ht|Ht].
  - pose proof (own_in _ _ _ O Hq Ht) as Htin. set (t := Z.to_nat (tail_at cs q)). assert (Htn : (t < length cs)%nat) by (unfold in_cells in Htin; lia).
    replace (length cs) with (t + S (length cs - t - 1))%nat by lia. rewrite seq_app, filter_app. cbn [seq Nat.add]. rewrite filter_cons_True by (apply bool_decide_eq_true; lia).
    rewrite !filter_rejected; [done|..]; intros i Hi%elem_of_seq; intros E%bool_decide_eq_true; lia.
  - apply filter_rejected. intros i _ E%bool_decide_eq_true. lia.
Qed.

Section one.
Context (zero : list (list Z * list Z)) (n_pos_per_embd : nat) (Hnpos : (0 < n_pos_per_embd)%nat).
Context (m0 m1 : llama_memory_recurrent) (ls0 ls1 : list rs_layer) (q dest : Z).
Abbreviation n0 := (length (rs_cells m0)).
Abbreviation n1 := (length (rs_cells m1)).
Context (C : rs_compatible zero m0 m1 ls0 ls1) (Hq : in_cells (rs_cells m0) q) (Hdest : in_cells (rs_cells m1) dest)
  (Hm1 : recr_ok zero m1 (rows_of ls1 n1)).

(** What is written of the sequence. *)
Definition one_bytes : list Z :=
  match view zero (rs_cells m0) (rows_of ls0 n0) q with
  | Some (p, _) => put_u32 1 ++ (put_i32 p ++ put_u32 0) ++ rs_data_bytes ls0 [Z.to_nat (tail_at (rs_cells m0) q)]
  | None => put_u32 0 ++ rs_data_bytes ls0 []
  end.

Lemma one_written : recr_state_write m0 ls0 q = Ok one_bytes.
Proof.
  pose proof (ce_own _ _ _ (re_cells _ _ _ (cp_source _ _ _ _ _ C))) as O. rewrite (recr_state_write_ok m0 ls0 q (cp_layers0 _ _ _ _ _ C)).
  rewrite (saves_one _ _ O Hq). unfold one_bytes, view. destruct (decide (0 <= tail_at (rs_cells m0) q)) as [Ht|Ht].
  - rewrite decide_True by done. unfold sent_cell, sent_ids. assert ((q =? -1) = false) as Hn by (destruct Hq; lia). cbn [fmap list_fmap concat length].
    rewrite Z2Nat.id, Hn by done. cbn [fmap list_fmap concat length]. by rewrite !app_nil_r.
  - rewrite decide_False by tauto. done.
Qed.

(** The single cell finds a slot. *)
Lemma one_placed m2 p ps : recr_ok zero m2 (rows_of ls1 n1) -> rs_size m2 = rs_size m1 -> view zero (rs_cells m2) (rows_of ls1 n1) dest = None ->
  0 <= p <= INT32_MAX ->
  exists m', recr_find_slot (one_token n_pos_per_embd (p :: ps) dest) m2 = Ok (m', true) /\
    recr_check_restored m' (p :: ps) 1 dest = Ok tt /\ keep_sources m' 1 = Ok m' /\ 0 <= rs_head m' < rs_size m' /\ rs_size m' = rs_size m1 /\
    forall new rows', length rows' = n1 -> row_at zero rows' (rs_head m') = new ->
      (forall j, 0 <= j -> j <> rs_head m' -> row_at zero rows' j = row_at zero (rows_of ls1 n1) j) ->
      decoded zero (rows_of ls1 n1) (one_token n_pos_per_embd (p :: ps) dest) m2 [new] (m', rows').
Proof.
  intros Hm2 Hsz Hv Hp. set (u := one_token n_pos_per_embd (p :: ps) dest). set (rows := rows_of ls1 n1) in *. unfold in_cells in Hdest. unfold rs_size in Hsz.
  assert (U : rubatch_ok u (rs_size m2)) by (apply one_token_ok; [unfold rs_size; lia|done]).
  assert (P : rs_placeable zero rows u m2).
  { split; [done|cbn; lia|cbn; unfold INT32_MAX; lia|]. intros [|s] p' x Hs Hvs; [|cbn in Hs; lia]. change (first_of u 0) with dest in Hvs. by rewrite Hv in Hvs. }
  pose proof (recr_find_slot_ok zero rows u m2 Hm2 P) as Hf. apply sat_exists in Hf as ([m' ok] & Hf & -> & cs1 & used & mn & mx & cs & Hd & F).
  exists m'. split; [done|]. pose proof (fo_one _ _ _ _ _ _ _ _ F eq_refl) as <-. pose proof (fo_entered _ _ _ _ _ _ _ _ F) as En. pose proof (fo_staged _ _ _ _ _ _ _ _ F) as St.
  pose proof (en_range _ _ _ _ _ _ _ En) as (H0 & H1 & H2). pose proof (en_len _ _ _ _ _ _ _ En) as Hl. pose proof (st_len _ _ _ _ St) as Hl'.
  pose proof Hd as (_ & _ & Hl1 & _). cbn [fst] in Hl1. pose proof Hm2 as [R1 _ _ _ _]. unfold rs_size in R1.
  destruct (en_set _ _ _ _ _ _ _ En 0) as (Hpos & Hids & _); [cbn; lia|]. rewrite Z.add_0_l in Hpos, Hids. change (last_of u 0) with p in Hpos. change (ids_of u 0) with [dest] in Hids.
  destruct (st_meta _ _ _ _ St mn) as (_ & Eids & Epos). pose proof (fo_head _ _ _ _ _ _ _ _ F) as Hhd.
  assert (Hmnin : in_cells (rs_cells m') mn) by (unfold in_cells; lia). split_and!; [| | | |unfold rs_size; lia|].
  - unfold recr_check_restored, rs_size. rewrite Hhd.
    rewrite (u32_id (mn + Z.of_nat 1)), (u32_id (mn + Z.of_nat 1 - 1)), Z.add_simpl_r by lia. rewrite (proj2 (Z.leb_le _ _)) by lia. cbn [assert_ mbind res_bind].
    rewrite get_cell by done. cbn [mbind res_bind vec_get lookup list_lookup of_option]. rewrite Epos, Hpos, Z.eqb_refl. cbn [assert_ mbind res_bind].
    cbn [mbind res_bind vec_get lookup list_lookup of_option Nat.sub]. rewrite Z.eqb_refl. cbn [assert_ mbind res_bind].
    unfold has_seq_id. rewrite Eids, Hids. rewrite bool_decide_eq_true_2 by set_solver. done.
  - destruct (keep_sources_ok m' (Z.to_nat mn) 1) as (cs3 & -> & Hl3 & Hc3); [lia|lia|unfold rs_size; lia|].
    rewrite (cells_eq (rs_cells m') cs3); [by destruct m'|done|]. intros j Hj. rewrite Hc3. destruct (decide _) as [Hr|]; [|done].
    assert (j = mn) as -> by lia. destruct (st_src _ _ _ _ St mn) as [Esrc _]; [apply elem_of_seqZ; lia|].
    destruct (cell_at (rs_cells m') mn). cbn in Esrc. unfold set_pos_src. cbn. by rewrite Esrc.
  - lia.
  - unfold rs_size. lia.
  - intros new rows' Hrl Hnew Hother. rewrite Hhd in *.
    assert (Hdec : decoded zero rows u m2 [new] (m', rows')).
    { eapply (found_decoded zero rows u m2 cs1 used mn mn cs m'); try done.
      - unfold rows, rows_of. by rewrite length_fmap, length_seq.
      - intros j Hj. cbn in Hj. assert (j = mn) as -> by lia. by rewrite Z.sub_diag.
      - intros j Hj. cbn in Hj. lia.
      - intros j Hj Hne. apply Hother; [done|lia]. }
    done.
Qed.

(** The sequence is removed from the target first. *)
Lemma dest_removed : (forall p x, view zero (rs_cells m1) (rows_of ls1 n1) dest = Some (p, x) -> p < INT32_MAX) ->
  exists m2 ok, recr_seq_rm m1 dest (-1) (-1) = Ok (m2, ok) /\ recr_ok zero m2 (rows_of ls1 n1) /\ rs_size m2 = rs_size m1 /\
    forall x, view zero (rs_cells m2) (rows_of ls1 n1) x = if decide (x = dest) then None else view zero (rs_cells m1) (rows_of ls1 n1) x.
Proof.
  intros Hlast. destruct (recr_seq_rm_ok zero m1 (rows_of ls1 n1) dest (-1) (-1) Hm1) as (m2 & ok & Hrm & Hm2 & Hsz & Ho); [apply Hdest|].
  exists m2, ok. split_and!; [done|done|done|]. change (norm_p0 (-1)) with 0 in Ho. change (norm_p1 (-1)) with INT32_MAX in Ho.
  destruct (view zero (rs_cells m1) (rows_of ls1 n1) dest) as [[p x]|] eqn:Hv; cbn [rm_outcome] in Ho.
  - specialize (Hlast p x eq_refl). rewrite Z.ltb_irrefl in Ho. cbn [andb] in Ho.
    assert (Hp : 0 <= p).
    { unfold view in Hv. destruct (decide _) as [[_ Ht]|]; [|done]. injection Hv as <- _. pose proof (ce_own _ _ _ (re_cells _ _ _ Hm1)) as O.
      apply (ce_busy _ _ _ (re_cells _ _ _ Hm1)); [by eapply own_in|]. pose proof (tail_busy _ _ O Hdest Ht). set_solver. }
    assert (Hb : (0 <=? p) && (p <? INT32_MAX) = true) by lia. destruct Ho as (_ & _ & Ho). intros y. rewrite Ho. destruct (decide (y = dest)); [by rewrite decide_True|by rewrite decide_False by tauto].
  - destruct Ho as (_ & _ & Ho). intros y. rewrite Ho, decide_False by (intros [? _]; done). destruct (decide (y = dest)) as [->|]; [by rewrite Hv|done].
Qed.

Lemma rows_moved head count idxs ls' j : states_moved head count n1 idxs ls0 ls1 ls' -> ~ (head <= Z.to_nat j < head + count)%nat -> 0 <= j ->
  row_at zero (rows_of ls' n1) j = row_at zero (rows_of ls1 n1) j.
Proof.
  intros (_ & _ & M) Hno Hj. destruct (decide (j < Z.of_nat n1)) as [Hlt|Hge].
  - rewrite !rows_of_at by lia. rewrite M by lia. by rewrite decide_False.
  - unfold row_at. rewrite !lookup_ge_None_2; [done|unfold rows_of; rewrite length_fmap, length_seq; lia..].
Qed.

(** The micro-batch that is read. *)
Lemma one_reserved : exists a, balloc_ubatch_reserve (E := unit) (balloc_new n_pos_per_embd) 1 1 =
  Ok (a, mk_ubatch true 1 1 1 1 n_pos_per_embd (Some [0]) None (0 :: replicate (n_pos_per_embd - 1) 0) [0] [[]] [0] (<[0%nat := 0]> (replicate MAX_SEQ (-1))) [0]).
Proof.
  unfold balloc_ubatch_reserve. cbn [Nat.mul Nat.add seqZ]. change (seqZ 0 (Z.of_nat 1)) with [0]. cbn [mfor].
  eexists. unfold vec_setZ, vec_set. cbn [Z.leb Z.compare]. rewrite decide_True by (vm_compute; lia). cbn [mbind res_bind].
  change (ba_n_pos_per_embd _) with n_pos_per_embd. replace (n_pos_per_embd + 0)%nat with (S (n_pos_per_embd - 1)) by lia. done.
Qed.

Lemma one_read_meta m2 p : recr_ok zero m2 (rows_of ls1 n1) -> rs_size m2 = rs_size m1 -> view zero (rs_cells m2) (rows_of ls1 n1) dest = None ->
  0 <= p <= INT32_MAX -> forall m', recr_find_slot (one_token n_pos_per_embd (p :: replicate (n_pos_per_embd - 1) 0) dest) m2 = Ok (m', true) ->
  recr_check_restored m' (p :: replicate (n_pos_per_embd - 1) 0) 1 dest = Ok tt ->
  reads (recr_read_seq n_pos_per_embd m2 1 dest) (put_i32 p ++ put_u32 0) (m', true).
Proof.
  intros Hm2 Hsz Hv Hp m' Hf Hc rest. unfold recr_read_seq. destruct one_reserved as [a ->]. unfold io_bind at 1, io_lift at 1. cbn [mbind res_bind snd].
  assert (Hr : reads (io_for recr_read_token (seq 0 1) (0 :: replicate (n_pos_per_embd - 1) 0, true)) (put_i32 p ++ put_u32 0) (p :: replicate (n_pos_per_embd - 1) 0, true)).
  { cbn [seq io_for]. apply reads_app_nil. eapply reads_bind; [|apply reads_ret]. unfold recr_read_token. cbn [negb snd fst].
    eapply reads_bind; [apply reads_i32, int32_cell, Hp|]. apply reads_app_nil. eapply reads_bind; [apply reads_u32; lia|]. by apply reads_lift. }
  cbn [ub_pos]. rewrite (reads_run _ _ _ _ _ Hr). cbn [negb snd fst]. unfold io_lift. cbn [ub_n_seq_id ub_seq_id].
  change (vec_set [0] 0 1) with (Ok [1]). cbn [mbind res_bind]. change (vec_set [[]] 0 [dest]) with (Ok [[dest]]). cbn [mbind res_bind]. cbn [ub_equal_seqs ub_n_tokens ub_n_seq_tokens ub_n_seqs ub_n_seqs_unq ub_n_pos ub_token ub_embd ub_seq_id_unq ub_seq_idx ub_output].
  unfold one_token in Hf. rewrite Hf. cbn [mbind res_bind negb]. rewrite Hc. done.
Qed.

Lemma one_round_trip n_seq_max rest : (forall p x, view zero (rs_cells m1) (rows_of ls1 n1) dest = Some (p, x) -> p < INT32_MAX) ->
  exists m' ls', recr_state_read n_pos_per_embd n_seq_max (m1, ls1) dest (one_bytes ++ rest) = Ok (m', ls', true, rest) /\
    recr_ok zero m' (rows_of ls' n1) /\ rs_size m' = rs_size m1 /\
    view zero (rs_cells m') (rows_of ls' n1) dest = view zero (rs_cells m0) (rows_of ls0 n0) q /\
    forall x, x <> dest -> view zero (rs_cells m') (rows_of ls' n1) x = view zero (rs_cells m1) (rows_of ls1 n1) x.
Proof.
  intros Hlast. destruct (dest_removed Hlast) as (m2 & ok & Hrm & Hm2 & Hsz2 & Hv2). pose proof (Hv2 dest) as Hvd. rewrite decide_True in Hvd by done.
  pose proof (compatible_pairs zero m0 m1 ls0 ls1 C) as Hpairs. pose proof C as [_ _ _ _ Hcnt Hsize]. unfold rs_size in *.
  pose proof (ce_own _ _ _ (re_cells _ _ _ (cp_source _ _ _ _ _ C))) as O. assert (Hneg : (dest =? -1) = false) by (destruct Hdest; lia).
  unfold one_bytes, recr_state_read. destruct (view zero (rs_cells m0) (rows_of ls0 n0) q) as [[p x]|] eqn:Hvq.
  - assert (Hq0 : 0 <= tail_at (rs_cells m0) q) by (unfold view in Hvq; by destruct (decide _) as [[_ ?]|]).
    pose proof (own_in _ _ _ O Hq Hq0) as Htin. rewrite view_some in Hvq by done. injection Hvq as Hp Hx. set (t := tail_at (rs_cells m0) q). change (tail_at (rs_cells m0) q) with t in Hq0, Htin, Hp, Hx.
    destruct (ce_busy _ _ _ (re_cells _ _ _ (cp_source _ _ _ _ _ C)) t Htin) as [Hpr Hsrc]; [pose proof (tail_busy _ q O Hq Hq0) as Hb; change (tail_at (rs_cells m0) q) with t in Hb; set_solver|].
    rewrite Hp in Hpr. destruct (one_placed m2 p (replicate (n_pos_per_embd - 1) 0) Hm2 Hsz2 Hvd Hpr) as (m' & Hf & Hc & Hk & Hhd & Hsz & Hdec).
    unfold rs_size in *. destruct (recr_read_data_ok (Z.to_nat (rs_head m')) 1 n0 n1 [Z.to_nat t] eq_refl) with (m := m') (ls0 := ls0) (ls1 := ls1) as (ls' & Hr & Mv);
      [intros i ->%list_elem_of_singleton; unfold in_cells in Htin; lia|lia|done|lia|unfold rs_size; lia|done|]. exists m', ls'.
    destruct (Hdec (state_at ls0 (Z.to_nat t)) (rows_of ls' n1)) as (D1 & D2 & D3 & D4).
    + unfold rows_of. by rewrite length_fmap, length_seq.
    + rewrite rows_of_at by lia. destruct Mv as (_ & _ & M). rewrite M by lia. rewrite decide_True by lia. by rewrite Nat.sub_diag.
    + intros j Hj Hne. apply (rows_moved _ _ _ ls' j Mv); [lia|done].
    + cbn [fst snd] in *. split_and!; [|done|done| |].
      * assert (Hmeta : reads (recr_read_meta n_pos_per_embd n_seq_max (m1, ls1) 1 dest) (put_i32 p ++ put_u32 0) (m', ls1, true)).
        { unfold recr_read_meta. rewrite Hneg. cbn [negb]. eapply reads_lift_bind; [exact Hrm|]. cbn [Nat.eqb]. apply reads_app_nil.
          eapply reads_bind; [by eapply one_read_meta|]. cbn [negb]. eapply reads_lift_bind; [exact Hk|]. apply reads_ret. }
        rewrite <- !app_assoc, (reads_run _ _ _ _ _ (reads_u32 1 ltac:(lia))). change (Z.to_nat 1) with 1%nat.
        rewrite app_assoc, (reads_run _ _ _ _ _ Hmeta), (reads_run _ _ _ _ _ Hr). done.
      * rewrite (D3 0%nat dest) by (cbn; set_solver || lia). change (last_of _ 0) with p. cbn. do 2 f_equal. rewrite <- Hx. unfold val_at. rewrite Hsrc.
        rewrite (proj2 (Z.ltb_ge _ _)) by done. rewrite rows_of_at by (exact Htin). done.
      * intros y Hy. rewrite D4; [rewrite Hv2; by rewrite decide_False|]. intros [|s] Hs; [cbn; set_solver|cbn in Hs; lia].
  - destruct Hm2 as [R1 R2 R3 R4 R5]. unfold rs_size in *.
    destruct (recr_read_data_ok (Z.to_nat (rs_head m2)) 0 n0 n1 [] eq_refl) with (m := m2) (ls0 := ls0) (ls1 := ls1) as (ls' & Hr & Mv);
      [set_solver|lia|done|lia|unfold rs_size; lia|done|]. exists m2, ls'.
    assert (Hrows : rows_of ls' n1 = rows_of ls1 n1).
    { unfold rows_of. apply list_fmap_ext. intros k i Hi%lookup_seq. destruct Mv as (_ & _ & M). rewrite M by lia. by rewrite decide_False by lia. }
    rewrite Hrows. split_and!; [|by split|done|done|].
    + assert (Hmeta : reads (recr_read_meta n_pos_per_embd n_seq_max (m1, ls1) 0 dest) [] (m2, ls1, true)).
      { unfold recr_read_meta. rewrite Hneg. cbn [negb]. eapply reads_lift_bind; [exact Hrm|]. apply reads_ret. }
      rewrite <- !app_assoc, (reads_run _ _ _ _ _ (reads_u32 0 ltac:(lia))). change (Z.to_nat 0) with 0%nat.
      rewrite <- (app_nil_l (rs_data_bytes ls0 [] ++ rest)), (reads_run _ _ _ _ _ Hmeta), (reads_run _ _ _ _ _ Hr). done.
    + intros y Hy. rewrite Hv2. by rewrite decide_False.
Qed.

End one.

(** ** The theorems *)

(** C34: saving a recurrent memory and restoring it into one of the same model, whose size and
    number of sequences suffice, succeeds, reads exactly the bytes that were written, and brings
    back for every sequence the position and the bytes of the state in every layer, although the
    cells are compacted; the invariant holds. *)
Theorem recr_state_round_trip zero n_pos_per_embd n_seq_max m0 m1 ls0 ls1 rest : rs_compatible zero m0 m1 ls0 ls1 ->
  (n_busy (rs_cells m0) <= length (rs_cells m1))%nat -> n_seq_max <= rs_size m1 ->
  (forall q v, view zero (rs_cells m0) (rows_of ls0 (length (rs_cells m0))) q = Some v -> q < n_seq_max) ->
  exists bs m' ls', recr_state_write m0 ls0 (-1) = Ok bs /\
    recr_state_read n_pos_per_embd n_seq_max (m1, ls1) (-1) (bs ++ rest) = Ok (m', ls', true, rest) /\
    recr_ok zero m' (rows_of ls' (length (rs_cells m1))) /\
    forall q, view zero (rs_cells m') (rows_of ls' (length (rs_cells m1))) q = view zero (rs_cells m0) (rows_of ls0 (length (rs_cells m0))) q.
Proof.
  intros C Hroom Hmax Hseqs. destruct (whole_round_trip zero n_pos_per_embd n_seq_max m0 m1 ls0 ls1 C Hroom Hmax Hseqs rest) as (bs & m' & ls' & H1 & H2 & H3 & _ & H4).
  by exists bs, m', ls'.
Qed.

(** one sequence [q] is saved and restored as sequence [dest] of a memory of the same model:
    [dest] sees what [q] saw (nothing, if [q] has no cell), and the other sequences of the
    target are not disturbed. *)
Lemma recr_state_seq_round_trip zero n_pos_per_embd n_seq_max m0 m1 ls0 ls1 q dest rest : rs_compatible zero m0 m1 ls0 ls1 ->
  recr_ok zero m1 (rows_of ls1 (length (rs_cells m1))) -> (0 < n_pos_per_embd)%nat -> 0 <= q < rs_size m0 -> 0 <= dest < rs_size m1 ->
  (forall p x, view zero (rs_cells m1) (rows_of ls1 (length (rs_cells m1))) dest = Some (p, x) -> p < INT32_MAX) ->
  exists bs m' ls', recr_state_write m0 ls0 q = Ok bs /\
    recr_state_read n_pos_per_embd n_seq_max (m1, ls1) dest (bs ++ rest) = Ok (m', ls', true, rest) /\
    recr_ok zero m' (rows_of ls' (length (rs_cells m1))) /\
    view zero (rs_cells m') (rows_of ls' (length (rs_cells m1))) dest = view zero (rs_cells m0) (rows_of ls0 (length (rs_cells m0))) q /\
    forall x, x <> dest -> view zero (rs_cells m') (rows_of ls' (length (rs_cells m1))) x = view zero (rs_cells m1) (rows_of ls1 (length (rs_cells m1))) x.
Proof.
  intros C Hm1 Hnpos Hq Hd Hlast. exists (one_bytes zero m0 ls0 q).
  destruct (one_round_trip zero n_pos_per_embd Hnpos m0 m1 ls0 ls1 q dest C Hq Hd Hm1 n_seq_max rest Hlast) as (m' & ls' & H1 & H2 & _ & H3 & H4).
  exists m', ls'. split; [by eapply one_written|done].
Qed.

(** ** Examples *)

(** One layer; two cells of 2 and 1 bytes. *)
Definition demo_layers (r s : list Z) : list rs_layer := [RsLayer (Some (mk_tensor 1 2 1 2 [r])) (Some (mk_tensor 0 1 1 1 [s]))].
Definition demo_zero : list (list Z * list Z) := [([0; 0], [0])].

(** A memory in which sequences 0 and 1 share a state. *)
Definition demo_saved : llama_memory_recurrent * list (list (list Z * list Z)) :=
  match decode demo_zero (fmap (fun _ => [([1; 2], [3])])) (rs_batch [[0; 1]] [7]) (recr_new 2, replicate 2 demo_zero) with
  | Ok s => s | Err _ => (recr_new 2, replicate 2 demo_zero)
  end.

Lemma demo_saved_rows : demo_saved.2 = rows_of (demo_layers [1; 2; 0; 0] [3; 0]) 2 /\ length (rs_cells demo_saved.1) = 2%nat.
Proof. split; vm_compute; reflexivity. Qed.

Lemma demo_saved_ok : recr_ok demo_zero demo_saved.1 demo_saved.2.
Proof.
  destruct (recr_new_ok demo_zero 2 (replicate 2 demo_zero)) as [H1 H2]; [lia|lia|done|].
  assert (P : rs_placeable demo_zero (replicate 2 demo_zero) (rs_batch [[0; 1]] [7]) (recr_new 2)).
  { split; [apply rs_batch_ok; apply (bool_decide_unpack _); vm_compute; exact I|cbn; lia|vm_compute; discriminate|]. intros s p x _ Hv. by rewrite H2 in Hv. }
  pose proof (decode_ok demo_zero _ _ (fmap (fun _ => [([1; 2], [3])])) _ H1 P ltac:(intros xs; apply length_fmap)) as Hd.
  apply sat_exists in Hd as (s & Hs & Hok & _). unfold demo_saved. by rewrite Hs.
Qed.

Lemma demo_tensor_ok t row el gqa d : length d = (2 * row)%nat -> - 2 ^ 31 <= t < 2 ^ 31 -> Z.of_nat row < 2 ^ 64 -> Z.of_nat el < 2 ^ 32 -> Z.of_nat gqa < 2 ^ 32 ->
  rs_tensor_ok 2 (mk_tensor t row el gqa [d]).
Proof. intros Hl H1 H2 H3 H4. split; [by exists d|]. unfold tensor_header. cbn. tauto. Qed.

Lemma demo_compatible : rs_compatible demo_zero demo_saved.1 (recr_new 2) (demo_layers [1; 2; 0; 0] [3; 0]) (demo_layers [0; 0; 0; 0] [0; 0]).
Proof.
  destruct demo_saved_rows as [Hr Hl]. split.
  - rewrite Hl, <- Hr. apply demo_saved_ok.
  - rewrite Hl. apply Forall_singleton. split; apply demo_tensor_ok; (done || lia).
  - apply Forall_singleton. split; apply demo_tensor_ok; (done || lia).
  - apply Forall2_cons. split; [by split|apply Forall2_nil; done].
  - cbn. lia.
  - vm_compute. split; reflexivity.
Qed.

Lemma recr_state_round_trip_witness : exists bs m' ls',
  recr_state_write demo_saved.1 (demo_layers [1; 2; 0; 0] [3; 0]) (-1) = Ok bs /\
  recr_state_read 1 2 (recr_new 2, demo_layers [0; 0; 0; 0] [0; 0]) (-1) (bs ++ [9]) = Ok (m', ls', true, [9]) /\
  recr_ok demo_zero m' (rows_of ls' 2) /\
  forall q, view demo_zero (rs_cells m') (rows_of ls' 2) q = view demo_zero (rs_cells demo_saved.1) (rows_of (demo_layers [1; 2; 0; 0] [3; 0]) (length (rs_cells demo_saved.1))) q.
Proof.
  apply (recr_state_round_trip demo_zero 1 2 demo_saved.1 (recr_new 2) _ (demo_layers [0; 0; 0; 0] [0; 0]) [9] demo_compatible); [vm_compute; lia|vm_compute; discriminate|].
  intros q v Hv. unfold view in Hv. destruct (decide _) as [[Hq _]|]; [|done]. destruct demo_saved_rows as [_ Hl]. unfold in_cells in Hq. lia.
Defined.

Lemma recr_state_seq_round_trip_witness : exists bs m' ls',
  recr_state_write demo_saved.1 (demo_layers [1; 2; 0; 0] [3; 0]) 1 = Ok bs /\
  recr_state_read 1 2 (recr_new 2, demo_layers [0; 0; 0; 0] [0; 0]) 0 (bs ++ [9]) = Ok (m', ls', true, [9]) /\
  recr_ok demo_zero m' (rows_of ls' 2) /\
  view demo_zero (rs_cells m') (rows_of ls' 2) 0 = view demo_zero (rs_cells demo_saved.1) (rows_of (demo_layers [1; 2; 0; 0] [3; 0]) (length (rs_cells demo_saved.1))) 1 /\
  forall x, x <> 0 -> view demo_zero (rs_cells m') (rows_of ls' 2) x = view demo_zero (rs_cells (recr_new 2)) (rows_of (demo_layers [0; 0; 0; 0] [0; 0]) 2) x.
Proof.
  destruct (recr_new_ok demo_zero 2 (rows_of (demo_layers [0; 0; 0; 0] [0; 0]) 2)) as [H1 H2]; [lia|lia|done|].
  apply (recr_state_seq_round_trip demo_zero 1 2 demo_saved.1 (recr_new 2) _ (demo_layers [0; 0; 0; 0] [0; 0]) 1 0 [9] demo_compatible H1);
    [lia|vm_compute; split; [discriminate|reflexivity]|vm_compute; split; [discriminate|reflexivity]|].
  intros p x Hv. discriminate (eq_trans (eq_sym Hv) (H2 0)).
Defined.
