(* ===== verification/HybridMemory.v ===== *)
(** * Memories made of memories: the sliding-window and the hybrid caches

    [llama_kv_cache_iswa] of src/src/llama-kv-cache-iswa.cpp keeps the layers with a sliding
    window in a cache of their own; [llama_memory_hybrid] of src/src/llama-memory-hybrid.cpp and
    [llama_memory_hybrid_iswa] of src/src/llama-memory-hybrid-iswa.cpp put a recurrent memory
    beside an attention cache.  Their operations are those of the parts, in the order of the
    code; the parts are seen through the interface [llama_memory_i] of src/src/llama-memory.h. *)

From S2P Require Import Prelude Batch Pages KvCache IoBytes KvState RsMemory RsState.

(** The sequence operations of a memory (of its metadata). *)
Class llama_memory_i (M : Type) : Type := {
  mi_clear       : M -> res M;
  mi_seq_rm      : M -> Z -> Z -> Z -> res (M * bool);
  mi_seq_cp      : M -> Z -> Z -> Z -> Z -> res M;
  mi_seq_keep    : M -> Z -> res M;
  mi_seq_add     : M -> Z -> Z -> Z -> Z -> res M;
  mi_seq_div     : M -> Z -> Z -> Z -> Z -> res M;
  mi_seq_pos_min : M -> Z -> res Z;
  mi_seq_pos_max : M -> Z -> res Z
}.

(** [seq_rm] of the attention cache always returns true. *)
#[export] Instance kv_memory_i : llama_memory_i kv_cache := {|
  mi_clear := cache_clear;
  mi_seq_rm k q p0 p1 := k ← cache_seq_rm k q p0 p1; Ok (k, true);
  mi_seq_cp := cache_seq_cp;
  mi_seq_keep := cache_seq_keep;
  mi_seq_add := cache_seq_add;
  mi_seq_div := cache_seq_div;
  mi_seq_pos_min := cache_seq_pos_min;
  mi_seq_pos_max := cache_seq_pos_max
|}.

#[export] Instance recr_memory_i : llama_memory_i llama_memory_recurrent := {|
  mi_clear m := Ok (recr_clear m);
  mi_seq_rm := recr_seq_rm;
  mi_seq_cp m src dst _ _ := recr_seq_cp m src dst;
  mi_seq_keep m q := Ok (recr_seq_keep m q);
  mi_seq_add := recr_seq_add;
  mi_seq_div := recr_seq_div;
  mi_seq_pos_min m q := Ok (recr_seq_pos_min m q);
  mi_seq_pos_max m q := Ok (recr_seq_pos_max m q)
|}.

(** ** [llama_kv_cache_iswa] *)

Record llama_kv_cache_iswa : Type := Iswa {
  iw_unified : bool;
  iw_base    : kv_cache;
  iw_swa     : kv_cache
}.

(** The layers of each of the two caches; [filter] may be null. *)
Definition iswa_filter_base (filter : option (Z -> bool)) (is_swa : Z -> bool) (il : Z) : bool :=
  match filter with Some f => if negb (f il) then false else negb (is_swa il) | None => negb (is_swa il) end.
Definition iswa_filter_swa (filter : option (Z -> bool)) (is_swa : Z -> bool) (il : Z) : bool :=
  match filter with Some f => if negb (f il) then false else is_swa il | None => is_swa il end.

(** The size of the sliding-window cache, in [uint32_t]. *)
Definition iswa_size_swa (swa_full unified : bool) (size_base n_swa n_seq_max n_ubatch : Z) : Z :=
  if swa_full then size_base else
  u32 (GGML_PAD (Z.min size_base (u32 (u32 (n_swa * (if unified then n_seq_max else 1)) + n_ubatch))) 256).

(** The metadata part of the constructor. *)
Definition iswa_new (swa_full unified : bool) (kv_size n_seq_max n_ubatch n_pad : nat) (n_swa : Z)
    (swa_type : llama_swa_type) (n_pos_per_embd budget : nat) (paged : bool) : res llama_kv_cache_iswa :=
  let size_swa := Z.to_nat (iswa_size_swa swa_full unified (Z.of_nat kv_size) n_swa (Z.of_nat n_seq_max) (Z.of_nat n_ubatch)) in
  base ← cache_new unified kv_size n_seq_max n_pad 0 LLAMA_SWA_TYPE_NONE n_pos_per_embd budget paged;
  swa ← cache_new unified size_swa n_seq_max n_pad n_swa swa_type n_pos_per_embd budget paged;
  Ok (Iswa unified base swa).

(** The same operation on both caches, the base cache first. *)
Definition iswa_both (f : kv_cache -> res kv_cache) (m : llama_kv_cache_iswa) : res llama_kv_cache_iswa :=
  base ← f (iw_base m); swa ← f (iw_swa m); Ok (Iswa (iw_unified m) base swa).

Definition iswa_clear : llama_kv_cache_iswa -> res llama_kv_cache_iswa := iswa_both mi_clear.

Definition iswa_seq_rm (m : llama_kv_cache_iswa) (seq_id p0 p1 : Z) : res (llama_kv_cache_iswa * bool) :=
  '(base, r1) ← mi_seq_rm (iw_base m) seq_id p0 p1;
  '(swa, r2) ← mi_seq_rm (iw_swa m) seq_id p0 p1;
  Ok (Iswa (iw_unified m) base swa, r1 && r2).

Definition iswa_seq_cp (m : llama_kv_cache_iswa) (src dst p0 p1 : Z) : res llama_kv_cache_iswa :=
  iswa_both (fun k => mi_seq_cp k src dst p0 p1) m.
Definition iswa_seq_keep (m : llama_kv_cache_iswa) (seq_id : Z) : res llama_kv_cache_iswa :=
  iswa_both (fun k => mi_seq_keep k seq_id) m.
Definition iswa_seq_add (m : llama_kv_cache_iswa) (seq_id p0 p1 shift : Z) : res llama_kv_cache_iswa :=
  iswa_both (fun k => mi_seq_add k seq_id p0 p1 shift) m.
Definition iswa_seq_div (m : llama_kv_cache_iswa) (seq_id p0 p1 d : Z) : res llama_kv_cache_iswa :=
  iswa_both (fun k => mi_seq_div k seq_id p0 p1 d) m.

(** The base cache is taken for a superset of the other one. *)
Definition iswa_seq_pos_min (m : llama_kv_cache_iswa) (seq_id : Z) : res Z := mi_seq_pos_min (iw_swa m) seq_id.
Definition iswa_seq_pos_max (m : llama_kv_cache_iswa) (seq_id : Z) : res Z := mi_seq_pos_max (iw_swa m) seq_id.

#[export] Instance iswa_memory_i : llama_memory_i llama_kv_cache_iswa := {|
  mi_clear := iswa_clear;
  mi_seq_rm := iswa_seq_rm;
  mi_seq_cp := iswa_seq_cp;
  mi_seq_keep := iswa_seq_keep;
  mi_seq_add := iswa_seq_add;
  mi_seq_div := iswa_seq_div;
  mi_seq_pos_min := iswa_seq_pos_min;
  mi_seq_pos_max := iswa_seq_pos_max
|}.

(** [can_shift] says of each cache whether its model allows a shift. *)
Definition iswa_get_can_shift (can_shift : kv_cache -> bool) (m : llama_kv_cache_iswa) : res bool :=
  if can_shift (iw_base m) && can_shift (iw_swa m) then
    b ← cache_get_size (iw_base m); s ← cache_get_size (iw_swa m); Ok (b =? s)%nat
  else Ok false.

(** [LLAMA_STATE_SEQ_FLAGS_PARTIAL_ONLY] *)
Definition PARTIAL_ONLY : Z := 1.
Definition is_partial (flags : Z) : bool := negb (Z.land flags PARTIAL_ONLY =? 0).

Definition iswa_state_write (v_trans : bool) (m : llama_kv_cache_iswa) (ls_base ls_swa : list kv_layer)
    (seq_id flags : Z) : res (list Z) :=
  base ← (if is_partial flags then Ok [] else state_write v_trans (iw_base m) ls_base seq_id);
  swa ← state_write v_trans (iw_swa m) ls_swa seq_id;
  Ok (base ++ swa).

(** A part that fails throws ([state_read] of the cache): the second part is read only after the
    first is restored. *)
Definition iswa_state_read (v_trans : bool) (m : llama_kv_cache_iswa) (ls_base ls_swa : list kv_layer)
    (seq_id flags : Z) : io (llama_kv_cache_iswa * list kv_layer * list kv_layer * bool) :=
  io_bind (if is_partial flags then io_ret (iw_base m, ls_base, true)
           else io_bind (state_read v_trans (iw_base m) ls_base seq_id) (fun '(k, ls, r) =>
                io_ret (k, ls, match r with Restored => true | _ => false end)))
    (fun '(base, ls_base, ok) =>
  if negb ok then io_ret (Iswa (iw_unified m) base (iw_swa m), ls_base, ls_swa, false) else
  io_bind (state_read v_trans (iw_swa m) ls_swa seq_id) (fun '(swa, ls_swa, r) =>
  io_ret (Iswa (iw_unified m) base swa, ls_base, ls_swa, match r with Restored => true | _ => false end))).

(** ** Batches *)

Section batch.
Context {E : Type}.

(** A successful [init_batch] of two caches: the slots of each, and the micro-batches. *)
Abbreviation iswa_plan := (list slot_info * list slot_info * list (llama_ubatch E))%type.

(** The slots of a cache; an empty vector stands for failure. *)
Definition prepared (k : kv_cache) (us : list (llama_ubatch E)) : res (kv_cache * option (list slot_info)) :=
  '(k, sinfos) ← cache_prepare k us;
  Ok (k, match sinfos with None | Some [] => None | Some l => Some l end).

(** Both caches prepared, the base cache first. *)
Definition iswa_prepare (m : llama_kv_cache_iswa) (us : list (llama_ubatch E)) :
    res (llama_kv_cache_iswa * option (list slot_info * list slot_info)) :=
  '(base, sinfos_base) ← prepared (iw_base m) us;
  match sinfos_base with
  | None => Ok (Iswa (iw_unified m) base (iw_swa m), None)
  | Some sinfos_base =>
      '(swa, sinfos_swa) ← prepared (iw_swa m) us;
      match sinfos_swa with
      | None => Ok (Iswa (iw_unified m) base swa, None)
      | Some sinfos_swa => Ok (Iswa (iw_unified m) base swa, Some (sinfos_base, sinfos_swa))
      end
  end.

(** One of the two attempts of [init_batch]. *)
Definition iswa_attempt (split : llama_batch_allocr E -> res (llama_batch_allocr E * llama_ubatch E))
    (m : llama_kv_cache_iswa) (a : llama_batch_allocr E) : res (llama_kv_cache_iswa * llama_batch_allocr E * option iswa_plan) :=
  let a := balloc_split_reset a in
  '(a, us) ← split_loop split (S (balloc_get_n_tokens a)) a [];
  if (balloc_get_n_used a <? balloc_get_n_tokens a)%nat then Ok (m, a, None) else
  '(m, sinfos) ← iswa_prepare m us;
  match sinfos with
  | None => Ok (m, a, None)
  | Some (sinfos_base, sinfos_swa) =>
      _ ← assert_ (length sinfos_base =? length sinfos_swa)%nat;
      Ok (m, a, Some (sinfos_base, sinfos_swa, us))
  end.

(** First a simple split, when the cache is unified; then an equal one.  [None]:
    [LLAMA_MEMORY_STATUS_FAILED_PREPARE]. *)
Definition iswa_init_batch (m : llama_kv_cache_iswa) (a : llama_batch_allocr E) (n_ubatch : nat) :
    res (llama_kv_cache_iswa * llama_batch_allocr E * option iswa_plan) :=
  '(m, a, r) ← (if iw_unified m then iswa_attempt (fun a => balloc_split_simple a n_ubatch) m a else Ok (m, a, None));
  match r with
  | Some _ => Ok (m, a, r)
  | None => iswa_attempt (fun a => balloc_split_equal a n_ubatch (negb (iw_unified m))) m a
  end.

Section apply.
Context {F : Type} (flt : F -> F -> bool) (fmax : F) (score : kv_cache -> nat -> nat -> F).

(** [llama_kv_cache_iswa_context::apply] for one micro-batch; the numbers are the attention
    windows of the two caches. *)
Definition iswa_apply (m : llama_kv_cache_iswa) (si_base si_swa : slot_info) (u : llama_ubatch E) : res (llama_kv_cache_iswa * (Z * Z)) :=
  '(base, n_base) ← context_apply flt fmax score (iw_base m) si_base u;
  '(swa, n_swa) ← context_apply flt fmax score (iw_swa m) si_swa u;
  Ok (Iswa (iw_unified m) base swa, (n_base, n_swa)).

End apply.

(** [init_update]: what is pending in each cache, and the combined status. *)
Definition iswa_init_update (m : llama_kv_cache_iswa) :
    res (llama_kv_cache_iswa * (bool * (list nat * list nat)) * (bool * (list nat * list nat)) * llama_memory_status) :=
  '(base, shift_base, sc_base, st_base) ← cache_init_update (iw_base m);
  '(swa, shift_swa, sc_swa, st_swa) ← cache_init_update (iw_swa m);
  Ok (Iswa (iw_unified m) base swa, (shift_base, sc_base), (shift_swa, sc_swa), llama_memory_status_combine st_base st_swa).

End batch.

(** ** [llama_memory_hybrid] and [llama_memory_hybrid_iswa]

    The two classes differ in the type of the attention cache, in [init_batch] and in
    [state_write]; their other members have the same text. *)

Record hybrid_of (A : Type) : Type := Hybrid {
  hy_attn : A;
  hy_recr : llama_memory_recurrent
}.
Arguments Hybrid {A}.
Arguments hy_attn {A}.
Arguments hy_recr {A}.

Section ops.
Context {A : Type} `{llama_memory_i A}.

(** An operation of the attention cache, then one of the recurrent memory. *)
Definition hybrid_both (f : A -> res A) (g : llama_memory_recurrent -> res llama_memory_recurrent) (m : hybrid_of A) : res (hybrid_of A) :=
  attn ← f (hy_attn m); recr ← g (hy_recr m); Ok (Hybrid attn recr).

Definition hybrid_clear : hybrid_of A -> res (hybrid_of A) := hybrid_both mi_clear mi_clear.

(** The recurrent memory first: it may refuse, and is then not changed. *)
Definition hybrid_seq_rm (m : hybrid_of A) (seq_id p0 p1 : Z) : res (hybrid_of A * bool) :=
  '(recr, ok) ← mi_seq_rm (hy_recr m) seq_id p0 p1;
  if negb ok then Ok (Hybrid (hy_attn m) recr, false) else
  '(attn, ok) ← mi_seq_rm (hy_attn m) seq_id p0 p1;
  Ok (Hybrid attn recr, ok).

Definition hybrid_seq_cp (m : hybrid_of A) (src dst p0 p1 : Z) : res (hybrid_of A) :=
  hybrid_both (fun k => mi_seq_cp k src dst p0 p1) (fun r => mi_seq_cp r src dst p0 p1) m.
Definition hybrid_seq_keep (m : hybrid_of A) (seq_id : Z) : res (hybrid_of A) :=
  hybrid_both (fun k => mi_seq_keep k seq_id) (fun r => mi_seq_keep r seq_id) m.
Definition hybrid_seq_add (m : hybrid_of A) (seq_id p0 p1 shift : Z) : res (hybrid_of A) :=
  hybrid_both (fun k => mi_seq_add k seq_id p0 p1 shift) (fun r => mi_seq_add r seq_id p0 p1 shift) m.
Definition hybrid_seq_div (m : hybrid_of A) (seq_id p0 p1 d : Z) : res (hybrid_of A) :=
  hybrid_both (fun k => mi_seq_div k seq_id p0 p1 d) (fun r => mi_seq_div r seq_id p0 p1 d) m.

(** The positions that both parts have. *)
Definition hybrid_seq_pos_min (m : hybrid_of A) (seq_id : Z) : res Z :=
  x ← mi_seq_pos_min (hy_attn m) seq_id; y ← mi_seq_pos_min (hy_recr m) seq_id; Ok (Z.max x y).
Definition hybrid_seq_pos_max (m : hybrid_of A) (seq_id : Z) : res Z :=
  x ← mi_seq_pos_max (hy_attn m) seq_id; y ← mi_seq_pos_max (hy_recr m) seq_id; Ok (Z.min x y).

#[export] Instance hybrid_memory_i : llama_memory_i (hybrid_of A) := {|
  mi_clear := hybrid_clear;
  mi_seq_rm := hybrid_seq_rm;
  mi_seq_cp := hybrid_seq_cp;
  mi_seq_keep := hybrid_seq_keep;
  mi_seq_add := hybrid_seq_add;
  mi_seq_div := hybrid_seq_div;
  mi_seq_pos_min := hybrid_seq_pos_min;
  mi_seq_pos_max := hybrid_seq_pos_max
|}.
End ops.

(** The batch code asks them for the positions of a sequence. *)
#[export] Instance iswa_memory : Memory llama_kv_cache_iswa := {| mem_seq_pos_min := iswa_seq_pos_min; mem_seq_pos_max := iswa_seq_pos_max |}.
#[export] Instance hybrid_memory {A} `{llama_memory_i A} : Memory (hybrid_of A) := {| mem_seq_pos_min := hybrid_seq_pos_min; mem_seq_pos_max := hybrid_seq_pos_max |}.

Definition llama_memory_hybrid : Type := hybrid_of kv_cache.
Definition llama_memory_hybrid_iswa : Type := hybrid_of llama_kv_cache_iswa.

Definition hybrid_iswa_clear : llama_memory_hybrid_iswa -> res llama_memory_hybrid_iswa := hybrid_clear.
Definition hybrid_iswa_seq_rm : llama_memory_hybrid_iswa -> Z -> Z -> Z -> res (llama_memory_hybrid_iswa * bool) := hybrid_seq_rm.
Definition hybrid_iswa_seq_cp : llama_memory_hybrid_iswa -> Z -> Z -> Z -> Z -> res llama_memory_hybrid_iswa := hybrid_seq_cp.
Definition hybrid_iswa_seq_keep : llama_memory_hybrid_iswa -> Z -> res llama_memory_hybrid_iswa := hybrid_seq_keep.
Definition hybrid_iswa_seq_add : llama_memory_hybrid_iswa -> Z -> Z -> Z -> Z -> res llama_memory_hybrid_iswa := hybrid_seq_add.
Definition hybrid_iswa_seq_div : llama_memory_hybrid_iswa -> Z -> Z -> Z -> Z -> res llama_memory_hybrid_iswa := hybrid_seq_div.
Definition hybrid_iswa_seq_pos_min : llama_memory_hybrid_iswa -> Z -> res Z := hybrid_seq_pos_min.
Definition hybrid_iswa_seq_pos_max : llama_memory_hybrid_iswa -> Z -> res Z := hybrid_seq_pos_max.

Section hybrid_batch.
Context {E : Type}.

(** The first part of both [init_batch] has the text of the one of the recurrent memory: its
    pattern of micro-batches, and the recurrent memory prepared. *)
Definition hybrid_split (recr : llama_memory_recurrent) (a : llama_batch_allocr E) (n_ubatch : nat) (embd_all : bool) :
    res (llama_memory_recurrent * llama_batch_allocr E * option (list (llama_ubatch E))) :=
  recr_init_batch recr a n_ubatch embd_all.

Definition hybrid_init_batch (m : llama_memory_hybrid) (a : llama_batch_allocr E) (n_ubatch : nat) (embd_all : bool) :
    res (llama_memory_hybrid * llama_batch_allocr E * option (list slot_info * list (llama_ubatch E))) :=
  '(recr, a, us) ← hybrid_split (hy_recr m) a n_ubatch embd_all;
  match us with
  | None => Ok (Hybrid (hy_attn m) recr, a, None)
  | Some us =>
      '(attn, sinfos) ← prepared (hy_attn m) us;
      Ok (Hybrid attn recr, a, match sinfos with Some l => Some (l, us) | None => None end)
  end.

Definition hybrid_iswa_init_batch (m : llama_memory_hybrid_iswa) (a : llama_batch_allocr E) (n_ubatch : nat) (embd_all : bool) :
    res (llama_memory_hybrid_iswa * llama_batch_allocr E * option (list slot_info * list slot_info * list (llama_ubatch E))) :=
  '(recr, a, us) ← hybrid_split (hy_recr m) a n_ubatch embd_all;
  match us with
  | None => Ok (Hybrid (hy_attn m) recr, a, None)
  | Some us =>
      '(attn, sinfos) ← iswa_prepare (hy_attn m) us;
      Ok (Hybrid attn recr, a, match sinfos with Some (b, s) => Some (b, s, us) | None => None end)
  end.

Section apply.
Context {F : Type} (flt : F -> F -> bool) (fmax : F) (score : kv_cache -> nat -> nat -> F).

(** [apply] of the two contexts for one micro-batch. *)
Definition hybrid_apply (m : llama_memory_hybrid) (si : slot_info) (u : llama_ubatch E) : res (llama_memory_hybrid * Z) :=
  '(attn, n_kv) ← context_apply flt fmax score (hy_attn m) si u;
  recr ← recr_apply (hy_recr m) u;
  Ok (Hybrid attn recr, n_kv).

Definition hybrid_iswa_apply (m : llama_memory_hybrid_iswa) (si_base si_swa : slot_info) (u : llama_ubatch E) :
    res (llama_memory_hybrid_iswa * (Z * Z)) :=
  '(attn, n_kv) ← iswa_apply flt fmax score (hy_attn m) si_base si_swa u;
  recr ← recr_apply (hy_recr m) u;
  Ok (Hybrid attn recr, n_kv).

End apply.
End hybrid_batch.

(** ** Saving and restoring *)

Definition hybrid_state_write (v_trans : bool) (m : llama_memory_hybrid) (ls_attn : list kv_layer) (ls_recr : list rs_layer)
    (seq_id flags : Z) : res (list Z) :=
  attn ← (if is_partial flags then Ok [] else state_write v_trans (hy_attn m) ls_attn seq_id);
  recr ← recr_state_write (hy_recr m) ls_recr seq_id;
  Ok (attn ++ recr).

Definition hybrid_state_read (v_trans : bool) (n_seq_max : Z) (m : llama_memory_hybrid) (ls_attn : list kv_layer) (ls_recr : list rs_layer)
    (seq_id flags : Z) : io (llama_memory_hybrid * list kv_layer * list rs_layer * bool) :=
  io_bind (if is_partial flags then io_ret (hy_attn m, ls_attn, true)
           else io_bind (state_read v_trans (hy_attn m) ls_attn seq_id) (fun '(k, ls, r) =>
                io_ret (k, ls, match r with Restored => true | _ => false end)))
    (fun '(attn, ls_attn, ok) =>
  if negb ok then io_ret (Hybrid attn (hy_recr m), ls_attn, ls_recr, false) else
  io_bind (recr_state_read (kv_n_pos_per_embd attn) n_seq_max (hy_recr m, ls_recr) seq_id) (fun '(recr, ls_recr, ok) =>
  io_ret (Hybrid attn recr, ls_attn, ls_recr, ok))).

(** With [flags] for the attention caches, that look at them themselves. *)
Definition hybrid_iswa_state_write (v_trans : bool) (m : llama_memory_hybrid_iswa) (ls_base ls_swa : list kv_layer)
    (ls_recr : list rs_layer) (seq_id flags : Z) : res (list Z) :=
  attn ← iswa_state_write v_trans (hy_attn m) ls_base ls_swa seq_id flags;
  recr ← recr_state_write (hy_recr m) ls_recr seq_id;
  Ok (attn ++ recr).

Definition hybrid_iswa_state_read (v_trans : bool) (n_pos_per_embd : nat) (n_seq_max : Z) (m : llama_memory_hybrid_iswa)
    (ls_base ls_swa : list kv_layer) (ls_recr : list rs_layer) (seq_id flags : Z) :
    io (llama_memory_hybrid_iswa * list kv_layer * list kv_layer * list rs_layer * bool) :=
  io_bind (iswa_state_read v_trans (hy_attn m) ls_base ls_swa seq_id flags) (fun '(attn, ls_base, ls_swa, ok) =>
  if negb ok then io_ret (Hybrid attn (hy_recr m), ls_base, ls_swa, ls_recr, false) else
  io_bind (recr_state_read n_pos_per_embd n_seq_max (hy_recr m, ls_recr) seq_id) (fun '(recr, ls_recr, ok) =>
  io_ret (Hybrid attn recr, ls_base, ls_swa, ls_recr, ok))).
