(* ===== verification/HybridTheory.v ===== *)
(** * Hybrid memories: an attention cache and a recurrent memory that stay in step

    The laws an attention cache gives to the hybrid memory ([attention_memory]), the positions
    the recurrent memory has, and the invariant [in_sync]: the recurrent state of every
    sequence is at the last position the attention cache holds for it. *)

From S2P Require Import Prelude KvCells KvCellsInv KvCellsSpec Batch Pages PagesTheory KvCache KvCacheTheory.
From S2P Require Import KvCacheProps KvSlots KvPlace KvPrepare KvContext KvStateWhole KvViews RsMemory.
From S2P Require Import RsTheory RsSlot RsFind RsProps HybridMemory.

(** ** What the hybrid memory needs of an attention cache *)

(** [at_sees m i q p]: part [i] of the memory holds position [p] for sequence [q]. *)
Class attention_memory (A : Type) `{llama_memory_i A} : Type := {
  at_part : Type;
  at_ok   : A -> Prop;
  at_sees : A -> at_part -> Z -> Z -> Prop;
  at_rm   : forall m q p0 p1, at_ok m -> id_ok q ->
    exists m', mi_seq_rm m q p0 p1 = Ok (m', true) /\ at_ok m' /\
      forall i q' p, at_sees m' i q' p <-> at_sees m i q' p /\ ~ (q' = q /\ norm_p0 p0 <= p < norm_p1 p1)
}.

Lemma in_range_spec p0 p1 p : in_range p0 p1 p = true <-> p0 <= p < p1.
Proof. unfold in_range. lia. Qed.

Lemma kv_rm_sees sz k q p0 p1 : kv_ok sz k -> id_ok q ->
  exists k', cache_seq_rm k q p0 p1 = Ok k' /\ kv_ok sz k' /\ kv_static k' = kv_static k /\
    forall q' p, p ∈ kv_positions k' q' <-> p ∈ kv_positions k q' /\ ~ (q' = q /\ norm_p0 p0 <= p < norm_p1 p1).
Proof.
  intros K Hq. destruct (proj1 (sat_exists _ _) (sat_rm_views sz k q p0 p1 K Hq)) as (k' & Hk & K' & (Hst & _) & _ & Hv).
  exists k'. split_and!; try done. intros q' p. rewrite Hv. case_decide as E; [subst q'|tauto].
  rewrite list_elem_of_filter. unfold out_of. rewrite <- in_range_spec. destruct (in_range _ _ p); naive_solver.
Qed.

#[export] Instance kv_attention : attention_memory kv_cache.
Proof.
  refine {| at_part := unit; at_ok k := exists sz, kv_ok sz k; at_sees k _ q p := p ∈ kv_positions k q |}.
  intros k q p0 p1 [sz K] Hq. destruct (kv_rm_sees sz k q p0 p1 K Hq) as (k' & Hk & K' & _ & Hv).
  exists k'. cbn [mi_seq_rm kv_memory_i]. rewrite Hk. cbn. split_and!; [done|by exists sz|]. intros _. apply Hv.
Defined.

#[export] Instance iswa_attention : attention_memory llama_kv_cache_iswa.
Proof.
  refine {| at_part := bool; at_ok m := (exists sz, kv_ok sz (iw_base m)) /\ exists sz, kv_ok sz (iw_swa m);
            at_sees m (i : bool) q p := p ∈ kv_positions (if i then iw_base m else iw_swa m) q |}.
  intros m q p0 p1 [[s1 K1] [s2 K2]] Hq. destruct (kv_rm_sees s1 _ q p0 p1 K1 Hq) as (k1 & H1 & K1' & _ & V1).
  destruct (kv_rm_sees s2 _ q p0 p1 K2 Hq) as (k2 & H2 & K2' & _ & V2). exists (Iswa (iw_unified m) k1 k2).
  cbn [mi_seq_rm iswa_memory_i]. unfold iswa_seq_rm. cbn [mi_seq_rm kv_memory_i]. rewrite H1, H2. cbn.
  split_and!; [done|by exists s1|by exists s2|]. intros [] q' p; [apply V1|apply V2].
Defined.

(** ** The positions of the recurrent memory *)

Abbreviation units m := (replicate (length (rs_cells m)) tt).

Lemma units_eq (l : list unit) : l = replicate (length l) tt.
Proof. induction l as [|[] l IH]; [done|]. cbn. by rewrite <- IH. Qed.

Definition recr_good (m : llama_memory_recurrent) : Prop := recr_ok tt m (units m).

Lemma recr_good_of m (rows : list unit) : recr_ok tt m rows -> recr_good m.
Proof. intros Hm. unfold recr_good. pose proof Hm as [_ _ _ Hl _]. rewrite (units_eq rows), Hl in Hm. exact Hm. Qed.

(** The position of the state of [q]. *)
Definition recr_pos (m : llama_memory_recurrent) (q : Z) : option Z := fst <$> view tt (rs_cells m) (units m) q.

Lemma recr_pos_rows m (rows : list unit) q : length rows = length (rs_cells m) -> recr_pos m q = fst <$> view tt (rs_cells m) rows q.
Proof. intros Hl. unfold recr_pos. by rewrite (units_eq rows), Hl. Qed.

(** Positions do not depend on the states. *)
Lemma recr_pos_view {D} (zero : D) m rows q : recr_pos m q = fst <$> view zero (rs_cells m) rows q.
Proof. unfold recr_pos. rewrite (view_meta zero _ rows). by destruct (view zero _ rows q) as [[]|]. Qed.

Lemma recr_good_meta {D} (zero : D) m rows : recr_ok zero m rows -> recr_good m.
Proof. intros Hm. by eapply recr_good_of, (recr_ok_meta zero). Qed.

Lemma recr_rm_pos m q p0 p1 : recr_good m -> 0 <= q < rs_size m ->
  exists m' ok, recr_seq_rm m q p0 p1 = Ok (m', ok) /\ recr_good m' /\ rs_size m' = rs_size m /\
    (ok = false -> m' = m /\ exists p, recr_pos m q = Some p /\ 0 < norm_p0 p0 <= p /\ p < norm_p1 p1) /\
    (ok = true -> (forall p, recr_pos m q = Some p -> norm_p0 p0 <= p < norm_p1 p1 -> norm_p0 p0 = 0) /\
       forall q', recr_pos m' q' = match recr_pos m q' with
                                   | Some p => if decide (q' = q /\ norm_p0 p0 <= p < norm_p1 p1) then None else Some p
                                   | None => None end).
Proof.
  intros Hm Hq. destruct (recr_seq_rm_ok tt m (units m) q p0 p1 Hm) as (m' & ok & Hr & Hm' & Hsz & Ho); [lia|].
  assert (Hl : length (units m) = length (rs_cells m')) by (unfold rs_size in Hsz; rewrite length_replicate; lia).
  exists m', ok. split; [done|]. split; [by eapply recr_good_of|]. split; [done|].
  pose proof (norm_p0_nonneg p0) as H0. unfold recr_pos at 1 2 4. destruct (view tt (rs_cells m) (units m) q) as [[p []]|] eqn:Ev; cbn [rm_outcome fmap option_fmap option_map fst] in *.
  - destruct ((0 <? norm_p0 p0) && (norm_p0 p0 <=? p) && (p <? norm_p1 p1)) eqn:Eb.
    + destruct Ho as [-> ->]. split; [|done]. intros _. split; [done|]. exists p. split; [done|lia].
    + destruct Ho as (-> & _ & Hv). rewrite (proj2 (Z.ltb_lt q _)) by lia. split; [done|]. intros _. split; [intros ? [= <-] ?; lia|].
      intros q'. rewrite (recr_pos_rows m' (units m)) by done. unfold recr_pos. rewrite Hv. destruct (decide (q' = q)) as [->|Hne].
      * rewrite Ev. cbn. destruct (decide (norm_p0 p0 <= p < norm_p1 p1)) as [Hin|Hin].
        -- rewrite decide_True by (split; [lia|done]). by rewrite decide_True.
        -- rewrite decide_False by lia. cbn. by rewrite decide_False by tauto.
      * rewrite decide_False by tauto. destruct (view tt _ _ q') as [[p' []]|]; [|done]. cbn. by rewrite decide_False by tauto.
  - destruct Ho as (-> & _ & Hv). rewrite (proj2 (Z.ltb_lt q _)) by lia. split; [done|]. intros _. split; [done|].
    intros q'. rewrite (recr_pos_rows m' (units m)) by done. unfold recr_pos. rewrite Hv, decide_False by (intros [? _]; done).
    destruct (decide (q' = q)) as [->|Hne]; [by rewrite Ev|]. destruct (view tt _ _ q') as [[p' []]|]; [|done]. cbn. by rewrite decide_False by tauto.
Qed.

(** A micro-batch moves its sequences to its last positions. *)
Lemma recr_apply_pos {E} (u : llama_ubatch E) m : recr_good m -> rs_placeable tt (units m) u m ->
  sat (recr_apply m u) (fun m' => recr_good m' /\ rs_size m' = rs_size m /\
    forall q, recr_pos m' q = match rs_set_of u q with Some s => Some (last_of u s) | None => recr_pos m q end).
Proof.
  intros Hm P. pose proof (decode_ok tt (units m) u (fun xs => xs) m Hm P ltac:(done)) as Hd.
  unfold decode in Hd. apply sat_bind_inv in Hd. eapply sat_mono; [exact Hd|]. intros m' Hd'. cbn beta in Hd'.
  apply sat_bind_inv in Hd'. apply sat_exists in Hd' as ([states rows1] & _ & Hd'). apply sat_bind_inv, sat_exists in Hd' as (rows2 & _ & Hd').
  apply sat_exists in Hd' as (s' & [= <-] & Hm' & Hsz & Hin & Hno). cbn [fst snd] in *.
  pose proof Hm' as [_ _ _ Hl' _]. pose proof Hm as [R1 _ _ _ _]. split; [by eapply recr_good_of|]. split; [done|]. intros q.
  rewrite (recr_pos_rows m' rows2) by done. pose proof (set_of_spec u (rs_size m) q (pl_batch _ _ _ _ P) ltac:(lia)) as Hset.
  destruct (rs_set_of u q) as [s|].
  - destruct Hset as [Hs Hq]. by rewrite (Hin s q Hs Hq).
  - by rewrite Hno.
Qed.

(** ** In step *)

(** [o] is the greatest element of [l], if there is one. *)
Definition is_last (l : list Z) (o : option Z) : Prop :=
  match o with None => l = [] | Some p => p ∈ l /\ forall x, x ∈ l -> x <= p end.

Lemma list_no_elem (l : list Z) : (forall x, x ∉ l) -> l = [].
Proof. destruct l as [|x l]; [done|]. intros H. destruct (H x). set_solver. Qed.

Lemma is_last_max l o : is_last l o -> max_or_m1 l = default (-1) o.
Proof.
  destruct o as [p|]; cbn; [|by intros ->]. intros [Hp Hle]. unfold max_or_m1.
  by rewrite (proj2 (list_max_Some l p) (conj Hp Hle)).
Qed.

Lemma is_last_min_le l p : is_last l (Some p) -> min_or_m1 l <= p.
Proof.
  intros [Hp _]. unfold min_or_m1. destruct (list_min l) as [m|] eqn:Em; cbn.
  - apply list_min_Some in Em as [_ Hm]. by apply Hm.
  - apply list_min_None in Em as ->. by apply not_elem_of_nil in Hp.
Qed.

(** The hybrid memory over a unified attention cache of [sz] cells, without a sliding window. *)
Record in_sync (sz : nat) (m : llama_memory_hybrid) : Prop := {
  sy_attn  : kv_ok sz (hy_attn m);
  sy_one   : kv_n_stream (hy_attn m) = 1%nat;
  sy_swa   : kv_swa_type (hy_attn m) = LLAMA_SWA_TYPE_NONE;
  sy_pad   : pow2 (Z.max (Z.of_nat (kv_n_pad (hy_attn m))) 256);
  sy_pos   : pos_bounded (hy_attn m);
  sy_recr  : recr_good (hy_recr m);
  sy_size  : rs_size (hy_recr m) <= LLAMA_MAX_SEQ;
  sy_last  : forall q, 0 <= q < rs_size (hy_recr m) -> is_last (kv_positions (hy_attn m) q) (recr_pos (hy_recr m) q)
}.

Lemma sync_id sz m q : in_sync sz m -> 0 <= q < rs_size (hy_recr m) -> id_ok q.
Proof. intros S Hq. pose proof (sy_size _ _ S). split; lia. Qed.

Lemma positions_bounded sz k q p : kv_ok sz k -> pos_bounded k -> id_ok q -> p ∈ kv_positions k q -> p < INT32_MAX.
Proof.
  intros K Hb Hq (i & a & Ha & _ & <-)%elem_of_seq_positions. apply (Hb (seq_stream k q)); [by apply (stream_of_ok sz)|].
  by eapply list_elem_of_lookup_2.
Qed.

(** Positions that come from a bounded cache by dropping some are bounded: every used cell is
    one of a sequence. *)
Lemma bounded_sees sz k k' : kv_ok sz k' -> kv_ok sz k -> kv_n_stream k' = 1%nat -> kv_n_stream k = 1%nat ->
  (forall q p, id_ok q -> p ∈ kv_positions k' q -> p < INT32_MAX) -> pos_bounded k'.
Proof.
  intros K' K H1' H1 Hp s a Hs Ha. destruct (kv_stream sz k' s K' Hs) as (c & _ & Hc & _ & W & _ & T & Ec & _).
  apply list_elem_of_lookup in Ha as [i Hi]. pose proof Hi as Hi'. rewrite Ec in Hi'. destruct (abs_lookup_ok c i a W Hi') as [(Hge & Hemp & Hids) _].
  destruct (decide (a_pos a = -1)) as [->|Hne]; [done|]. assert (Hs0 : a_seq a <> ∅).
  { intros He. apply Hne. rewrite Forall_forall in T. apply T; [by eapply list_elem_of_lookup_2|done]. }
  apply set_choose_L in Hs0 as [q Hq]. pose proof (Hids q Hq) as Hid. apply (Hp q (a_pos a) Hid). unfold kv_positions.
  rewrite (one_stream sz k' q K' H1' Hid). assert (s = 0%nat) as -> by lia. apply elem_of_seq_positions. by exists i, a.
Qed.

(** The positions a synchronized memory reports. *)
Lemma sync_reports sz m q : in_sync sz m -> 0 <= q < rs_size (hy_recr m) ->
  hybrid_seq_pos_max m q = Ok (default (-1) (recr_pos (hy_recr m) q)) /\
  hybrid_seq_pos_min m q = Ok (default (-1) (recr_pos (hy_recr m) q)) /\
  cache_seq_pos_max (hy_attn m) q = Ok (default (-1) (recr_pos (hy_recr m) q)).
Proof.
  intros S Hq. pose proof (sync_id sz m q S Hq) as Hid. pose proof (sy_attn _ _ S) as K. pose proof (sy_last _ _ S q Hq) as Hl.
  destruct (stream_of_ok sz _ q K Hid) as [Eq Hs]. destruct (kv_stream sz _ _ K Hs) as (c & _ & Hc & _ & W & _ & _ & Ec & _).
  assert (Hmm : cache_seq_pos_min (hy_attn m) q = Ok (min_or_m1 (kv_positions (hy_attn m) q)) /\
                cache_seq_pos_max (hy_attn m) q = Ok (max_or_m1 (kv_positions (hy_attn m) q))).
  { unfold cache_seq_pos_min, cache_seq_pos_max, kv_positions. rewrite assert_ok by by eapply seq_id_valid_ok. cbn [mbind res_bind].
    rewrite Eq. cbn [mbind res_bind]. rewrite (proj2 (vec_get_ok _ _ _) Hc), Ec. cbn [mbind res_bind].
    split; [by apply cells_seq_pos_min_ok|by apply cells_seq_pos_max_ok]. }
  destruct Hmm as [Hmin Hmax]. rewrite (is_last_max _ _ Hl) in Hmax.
  destruct (recr_seq_pos_ok tt (hy_recr m) (units (hy_recr m)) q (sy_recr _ _ S)) as [Hrmax Hrmin].
  unfold hybrid_seq_pos_max, hybrid_seq_pos_min. cbn [mi_seq_pos_max mi_seq_pos_min kv_memory_i recr_memory_i].
  rewrite Hmin, Hmax, Hrmin, Hrmax. cbn [mbind res_bind]. unfold recr_pos in *.
  destruct (view tt _ _ q) as [[p []]|] eqn:Ev; cbn [fmap option_fmap option_map fst default] in *.
  - assert (Hb : p < INT32_MAX) by (apply (positions_bounded sz (hy_attn m) q p K (sy_pos _ _ S) Hid); apply Hl).
    rewrite (proj2 (Z.eqb_neq p INT32_MAX)) by lia. pose proof (is_last_min_le _ p Hl). change (id p) with p.
    split_and!; [by rewrite Z.min_id|by rewrite Z.max_r|done].
  - cbn in Hl. rewrite Hl. done.
Qed.
