(* ===== verification/HybridProps.v ===== *)
(** * Hybrid memories: what they guarantee

    Removal is all or nothing; the attention cache and the recurrent memory stay in step under
    every operation; [init_batch] never stops and leaves both parts as they were. *)

From S2P Require Import Prelude KvCells KvCellsInv KvCellsSpec Batch Pages PagesTheory KvCache KvCacheTheory.
From S2P Require Import KvCacheProps KvSlots KvPlace KvPrepare KvUbatchProps KvContext KvStateWhole.
From S2P Require Import BatchTheory SplitEqual SplitProps SplitSeq BatchProps KvBatch KvViews RsMemory.
From S2P Require Import RsTheory RsSlot RsFind RsProps RsBatch HybridMemory HybridTheory.

(** ** [seq_rm] *)

(** C31: [seq_rm] of one sequence (its id served by both parts, so not -1) in a hybrid memory, with an
    attention cache of either kind, is all or nothing.  It never stops; it returns true after both
    parts dropped exactly the positions of the range, and it returns false only when the range
    would cut off the last positions of the sequence but not all, and then nothing has changed, in
    either part. *)
Theorem hybrid_seq_rm_atomic {A D} `{attention_memory A} (zero : D) (m : hybrid_of A) rows q p0 p1 :
  at_ok (hy_attn m) -> recr_ok zero (hy_recr m) rows -> 0 <= q < rs_size (hy_recr m) -> q < LLAMA_MAX_SEQ ->
  exists m' ok, hybrid_seq_rm m q p0 p1 = Ok (m', ok) /\
    if (ok : bool) then
      (forall i q' p, at_sees (hy_attn m') i q' p <-> at_sees (hy_attn m) i q' p /\ ~ (q' = q /\ norm_p0 p0 <= p < norm_p1 p1)) /\
      (forall q', recr_pos (hy_recr m') q' = match recr_pos (hy_recr m) q' with
                                             | Some p => if decide (q' = q /\ norm_p0 p0 <= p < norm_p1 p1) then None else Some p
                                             | None => None end) /\
      forall p, recr_pos (hy_recr m) q = Some p -> norm_p0 p0 <= p < norm_p1 p1 -> norm_p0 p0 = 0
    else m' = m /\ exists p, recr_pos (hy_recr m) q = Some p /\ 0 < norm_p0 p0 <= p /\ p < norm_p1 p1.
Proof.
  intros Hat Hm%recr_good_meta Hq Hmax. destruct (recr_rm_pos _ q p0 p1 Hm Hq) as (r' & ok & Hr & Hgood & Hsz & Hno & Hyes).
  unfold hybrid_seq_rm. cbn [mi_seq_rm recr_memory_i]. rewrite Hr. cbn [mbind res_bind]. destruct ok; cbn [negb].
  - destruct (at_rm (hy_attn m) q p0 p1 Hat) as (a' & Ha & _ & Hv); [split; lia|]. rewrite Ha. cbn [mbind res_bind].
    exists (Hybrid a' r'), true. destruct (Hyes eq_refl). by split_and!.
  - destruct (Hno eq_refl) as [-> Hp]. exists m, false. split; [by destruct m|]. by split.
Qed.

(** ** The operations keep the two parts in step *)

Lemma is_last_ext l l' o : (forall x, x ∈ l' <-> x ∈ l) -> is_last l o -> is_last l' o.
Proof.
  intros Hx. destruct o as [p|]; cbn; [|intros ->; apply list_no_elem; intros x; rewrite Hx; apply not_elem_of_nil].
  intros [H1 H2]. split; [by apply Hx|]. intros x Hin. by apply H2, Hx.
Qed.

Lemma positions_nonneg sz k q p : kv_ok sz k -> id_ok q -> p ∈ kv_positions k q -> 0 <= p.
Proof.
  intros K Hq (i & a & Ha & Hin & <-)%elem_of_seq_positions. destruct (kv_stream sz k (seq_stream k q) K) as (c & _ & _ & _ & W & _ & _ & Ec & _).
  { by apply (stream_of_ok sz). }
  rewrite Ec in Ha. destruct (abs_lookup_ok c i a W Ha) as [(Hge & Hemp & _) _]. destruct (decide (a_pos a = -1)) as [E|]; [|lia].
  destruct (Hemp E) as [E' _]. rewrite E' in Hin. set_solver.
Qed.

(** The parts that no operation changes. *)
Lemma sync_rebuild sz m k r : in_sync sz m -> kv_ok sz k -> kv_static k = kv_static (hy_attn m) -> recr_good r -> rs_size r = rs_size (hy_recr m) ->
  (forall q p, id_ok q -> p ∈ kv_positions k q -> p < INT32_MAX) ->
  (forall q, 0 <= q < rs_size (hy_recr m) -> is_last (kv_positions k q) (recr_pos r q)) -> in_sync sz (Hybrid k r).
Proof.
  intros [S1 S2 S3 S4 S5 S6 S7 S8] K Hst Hr Hsz Hb Hl. pose proof (static_n _ k Hst) as Hn. split; cbn [hy_attn hy_recr]; try done.
  - by rewrite Hn.
  - by rewrite (static_swa (hy_attn m) k).
  - unfold kv_static in Hst. by assert (kv_n_pad k = kv_n_pad (hy_attn m)) as -> by congruence.
  - apply (bounded_sees sz (hy_attn m)); try done. by rewrite Hn.
  - by rewrite Hsz.
  - by rewrite Hsz.
Qed.

Lemma sync_rm sz m q p0 p1 : in_sync sz m -> 0 <= q < rs_size (hy_recr m) ->
  sat (hybrid_seq_rm m q p0 p1) (fun r => in_sync sz r.1 /\ rs_size (hy_recr r.1) = rs_size (hy_recr m)).
Proof.
  intros S Hq. pose proof (sync_id sz m q S Hq) as Hid. destruct (recr_rm_pos _ q p0 p1 (sy_recr _ _ S) Hq) as (r' & ok & Hr & Hgood & Hsz & Hno & Hyes).
  unfold hybrid_seq_rm. cbn [mi_seq_rm recr_memory_i kv_memory_i]. rewrite Hr. cbn [mbind res_bind]. destruct ok; cbn [negb].
  2: { destruct (Hno eq_refl) as [-> _]. apply sat_ok. cbn. split; [by destruct m|done]. }
  destruct (Hyes eq_refl) as [Hcut Hpos]. destruct (kv_rm_sees sz (hy_attn m) q p0 p1 (sy_attn _ _ S) Hid) as (k' & Hk & K' & Hst & Hv).
  rewrite Hk. cbn [mbind res_bind]. apply sat_ok. cbn [fst]. split; [|done]. apply (sync_rebuild sz m); try done.
  - intros q' p Hq' [Hp _]%Hv. by apply (positions_bounded sz (hy_attn m) q' p (sy_attn _ _ S) (sy_pos _ _ S)).
  - intros q' Hq'. pose proof (sy_last _ _ S q' Hq') as Hl. rewrite Hpos. destruct (recr_pos (hy_recr m) q') as [p|] eqn:Ep; cbn in Hl.
    + destruct (decide (q' = q /\ norm_p0 p0 <= p < norm_p1 p1)) as [[-> Hin]|Hout].
      * cbn. apply list_no_elem. intros x [Hx Hn]%Hv. apply Hn. split; [done|]. rewrite (Hcut p Ep Hin) in *.
        pose proof (positions_nonneg sz _ q x (sy_attn _ _ S) Hid Hx). destruct Hl as [_ Hle]. specialize (Hle x Hx). lia.
      * destruct Hl as [Hp Hle]. split; [by apply Hv|]. intros x [Hx _]%Hv. by apply Hle.
    + cbn. apply list_no_elem. intros x [Hx _]%Hv. rewrite Hl in Hx. by apply not_elem_of_nil in Hx.
Qed.

Lemma sync_clear sz m : in_sync sz m -> sat (hybrid_clear m) (fun m' => in_sync sz m' /\ rs_size (hy_recr m') = rs_size (hy_recr m)).
Proof.
  intros S. unfold hybrid_clear, hybrid_both. cbn [mi_clear kv_memory_i recr_memory_i].
  destruct (cache_clear_ok sz _ (sy_attn _ _ S)) as (k' & Hk & K' & Hst & _ & Hc). rewrite Hk. cbn [mbind res_bind]. apply sat_ok.
  destruct (recr_clear_ok tt (hy_recr m) (units (hy_recr m)) (sy_recr _ _ S)) as (Hr & Hsz & Hv). split; [|done].
  assert (Hemp : forall q, id_ok q -> kv_positions k' q = []).
  { intros q Hq. unfold kv_positions. destruct (stream_of_ok sz k' q K' Hq) as [_ Hs]. rewrite (static_n _ k' Hst) in Hs.
    destruct (Hc _ Hs) as (c & Hc' & _ & _ & E). unfold stream_cells. rewrite Hc'. cbn. rewrite E. apply seq_positions_empty. }
  apply (sync_rebuild sz m); try done.
  - by eapply recr_good_of.
  - intros q p Hq Hp. rewrite Hemp in Hp by done. by apply not_elem_of_nil in Hp.
  - intros q Hq. rewrite Hemp by (by apply (sync_id sz m)). rewrite (recr_pos_view tt _ (units (hy_recr m))), Hv. done.
Qed.

Lemma sync_keep sz m q : in_sync sz m -> 0 <= q < rs_size (hy_recr m) ->
  sat (hybrid_seq_keep m q) (fun m' => in_sync sz m' /\ rs_size (hy_recr m') = rs_size (hy_recr m)).
Proof.
  intros S Hq. pose proof (sync_id sz m q S Hq) as Hid. pose proof (sy_attn _ _ S) as K. unfold hybrid_seq_keep, hybrid_both.
  cbn [mi_seq_keep kv_memory_i recr_memory_i]. eapply sat_step; [by apply (sat_keep_views sz _ q K)|].
  intros k' (K' & (Hst & _) & Hv). cbn [mbind res_bind]. apply sat_ok.
  destruct (recr_seq_keep_ok tt (hy_recr m) (units (hy_recr m)) q (sy_recr _ _ S)) as (Hr & Hsz & Hrv). split; [|done].
  assert (Hv' : forall q', id_ok q' -> kv_positions k' q' = if decide (q' = q) then kv_positions (hy_attn m) q' else []).
  { intros q' Hq'. rewrite Hv, !(one_stream sz _ _ K (sy_one _ _ S)) by done. repeat case_decide; tauto. }
  apply (sync_rebuild sz m); try done.
  - by eapply recr_good_of.
  - intros q' p Hq' Hp. rewrite Hv' in Hp by done. case_decide; [|by apply not_elem_of_nil in Hp].
    by apply (positions_bounded sz _ q' p K (sy_pos _ _ S)).
  - intros q' Hq'. rewrite Hv' by (by apply (sync_id sz m)). rewrite (recr_pos_view tt _ (units (hy_recr m))), Hrv.
    case_decide; [|done]. rewrite <- (recr_pos_view tt). by apply (sy_last _ _ S).
Qed.

(** A copy of a whole sequence to one that has nothing. *)
Lemma sync_cp sz m src dst : in_sync sz m -> 0 <= src < rs_size (hy_recr m) -> 0 <= dst < rs_size (hy_recr m) ->
  kv_positions (hy_attn m) dst = [] -> sat (hybrid_seq_cp m src dst (-1) (-1)) (fun m' => in_sync sz m' /\ rs_size (hy_recr m') = rs_size (hy_recr m)).
Proof.
  intros S Hs Hd Hfree. pose proof (sync_id sz m src S Hs) as Hids. pose proof (sync_id sz m dst S Hd) as Hidd.
  pose proof (sy_attn _ _ S) as K. pose proof (sy_recr _ _ S) as Hr. unfold hybrid_seq_cp, hybrid_both.
  cbn [mi_seq_cp kv_memory_i recr_memory_i]. pose proof (one_stream sz _ src K (sy_one _ _ S) Hids) as E1. pose proof (one_stream sz _ dst K (sy_one _ _ S) Hidd) as E2.
  destruct (decide (src = dst)) as [->|Hne].
  { assert (cache_seq_cp (hy_attn m) dst dst (-1) (-1) = Ok (hy_attn m)) as ->.
    { unfold cache_seq_cp. rewrite assert_ok by by eapply seq_id_valid_ok. cbn [mbind res_bind]. destruct (stream_of_ok sz _ dst K Hidd) as [-> _].
      cbn [mbind res_bind]. by rewrite Nat.eqb_refl, Z.eqb_refl. }
    cbn [mbind res_bind]. unfold recr_seq_cp. rewrite Z.eqb_refl. cbn [mbind res_bind]. apply sat_ok. split; [by destruct m|done]. }
  eapply sat_step; [apply (sat_cp_views sz _ src dst (-1) (-1) K Hids Hidd); [congruence|done|]|].
  { intros a Ha _ Hin. apply list_elem_of_lookup in Ha as [i Hi]. rewrite E1, <- E2 in Hi.
    apply (not_elem_of_nil (a_pos a)). rewrite <- Hfree. apply elem_of_seq_positions. by exists i, a. }
  intros k' (K' & (Hst & _) & _ & Hdst & Hoth). destruct Hs as [Hs0 Hs1], Hd as [Hd0 Hd1]. pose proof Hr as [[_ Hb31] _ _ _ _].
  destruct (recr_seq_cp_ok tt (hy_recr m) (units (hy_recr m)) src dst Hr Hne) as (r' & Hcp & Hr' & Hsz & Hv); [lia|lia|].
  rewrite Hcp. cbn [mbind res_bind]. apply sat_ok. split; [|done].
  assert (Hl : length (units (hy_recr m)) = length (rs_cells r')) by (unfold rs_size in Hsz; rewrite length_replicate; lia).
  assert (Hel : forall x, x ∈ kv_positions k' dst <-> x ∈ kv_positions (hy_attn m) src).
  { intros x. rewrite Hdst, Hfree, app_nil_r, list_elem_of_filter, in_range_spec. split; [by intros [_ ?]|]. intros Hx. split; [|done].
    pose proof (positions_nonneg sz _ src x K Hids Hx). pose proof (positions_bounded sz _ src x K (sy_pos _ _ S) Hids Hx). unfold norm_p0, norm_p1. cbn. lia. }
  apply (sync_rebuild sz m); try done.
  - by eapply recr_good_of.
  - intros q p Hq Hp. destruct (decide (q = dst)) as [->|Hqd].
    + apply Hel in Hp. by apply (positions_bounded sz _ src p K (sy_pos _ _ S)).
    + rewrite Hoth in Hp by done. by apply (positions_bounded sz _ q p K (sy_pos _ _ S)).
  - intros q Hq. rewrite (recr_pos_rows r' (units (hy_recr m))) by done. rewrite Hv. unfold in_cells, rs_size in *. destruct (decide (q = dst)) as [->|Hqd].
    + rewrite decide_True by lia. apply (is_last_ext (kv_positions (hy_attn m) src)); [done|]. by apply (sy_last _ _ S).
    + rewrite decide_False by tauto. rewrite Hoth by done. by apply (sy_last _ _ S).
Qed.

(** The micro-batch continues its sequences: in each of its sets the last position is the greatest,
    and no sequence is beyond it. *)
Record continues {E} (k : kv_cache) (u : llama_ubatch E) : Prop := {
  ct_old : forall s q p, (s < ub_n_seqs u)%nat -> q ∈ ids_of u s -> p ∈ kv_positions k q -> p <= last_of u s;
  ct_new : forall s q, (s < ub_n_seqs u)%nat -> q ∈ ids_of u s -> gives u q (last_of u s) /\ forall p, gives u q p -> p <= last_of u s;
  ct_ids : forall q p, gives u q p -> exists s, (s < ub_n_seqs u)%nat /\ q ∈ ids_of u s
}.

Section apply.
Context {E F : Type} (flt : F -> F -> bool) (fmax : F) (score : kv_cache -> nat -> nat -> F).

Lemma sync_apply sz m si (u : llama_ubatch E) : in_sync sz m -> ubatch_ok (hy_attn m) u -> slot_ok sz (hy_attn m) u si ->
  rs_placeable tt (units (hy_recr m)) u (hy_recr m) -> continues (hy_attn m) u ->
  sat (hybrid_apply flt fmax score m si u) (fun r => in_sync sz r.1 /\ rs_size (hy_recr r.1) = rs_size (hy_recr m)).
Proof.
  intros S U Si P C. pose proof (sy_attn _ _ S) as K. unfold hybrid_apply.
  pose proof (slot_place sz _ u si K U Si (swa_none _ (sy_swa _ _ S) (sy_pos _ _ S))) as Pl.
  eapply sat_step; [apply (sat_context_views flt fmax score sz _ u si K U Si (sy_swa _ _ S) (sy_pos _ _ S) (sy_pad _ _ S))|].
  { by apply (streams_match_one sz); [..|apply S|]. }
  intros [k' n_kv] (K' & Hst & Hb & Hv). cbn [fst snd] in *. eapply sat_step; [by apply (recr_apply_pos u _ (sy_recr _ _ S) P)|].
  intros r' (Hr' & Hsz & Hpos). apply sat_ok. cbn [fst]. split; [|done]. apply (sync_rebuild sz m); try done.
  { intros q p Hq. by apply (positions_bounded sz k' q p K' Hb). }
  intros q Hq. rewrite Hpos. pose proof (set_of_spec u (rs_size (hy_recr m)) q (pl_batch _ _ _ _ P) ltac:(lia)) as Hset.
  destruct (rs_set_of u q) as [s|].
  - destruct Hset as [Hs Hin]. destruct (ct_new _ _ C s q Hs Hin) as [Hg Hle]. split; [by apply Hv; right|].
    intros x [Hx|Hx]%Hv; [by apply (ct_old _ _ C s q)|by apply Hle].
  - apply (is_last_ext (kv_positions (hy_attn m) q)); [|by apply (sy_last _ _ S)]. intros x. rewrite Hv. split; [|by left].
    intros [Hx|Hx]; [done|]. apply (ct_ids _ _ C) in Hx as (s & Hs & Hin). by destruct (Hset s Hs).
Qed.

(** ** Any sequence of operations *)

Inductive hy_cmd : Type :=
  | HyClear
  | HyRm (seq_id p0 p1 : Z)
  | HyCp (src dst : Z)
  | HyKeep (seq_id : Z)
  | HyApply (si : slot_info) (u : llama_ubatch E).

Definition hy_do (m : llama_memory_hybrid) (c : hy_cmd) : res llama_memory_hybrid :=
  match c with
  | HyClear => hybrid_clear m
  | HyRm q p0 p1 => '(m, _) ← hybrid_seq_rm m q p0 p1; Ok m
  | HyCp src dst => hybrid_seq_cp m src dst (-1) (-1)
  | HyKeep q => hybrid_seq_keep m q
  | HyApply si u => '(m, _) ← hybrid_apply flt fmax score m si u; Ok m
  end.

(** What the caller must observe. *)
Definition hy_pre (sz : nat) (m : llama_memory_hybrid) (c : hy_cmd) : Prop :=
  match c with
  | HyClear => True
  | HyRm q _ _ | HyKeep q => 0 <= q < rs_size (hy_recr m)
  | HyCp src dst => 0 <= src < rs_size (hy_recr m) /\ 0 <= dst < rs_size (hy_recr m) /\ kv_positions (hy_attn m) dst = []
  | HyApply si u => ubatch_ok (hy_attn m) u /\ slot_ok sz (hy_attn m) u si /\
      rs_placeable tt (units (hy_recr m)) u (hy_recr m) /\ continues (hy_attn m) u
  end.

Fixpoint hy_pres (sz : nat) (m : llama_memory_hybrid) (cs : list hy_cmd) : Prop :=
  match cs with
  | [] => True
  | c :: cs => hy_pre sz m c /\ forall m', hy_do m c = Ok m' -> hy_pres sz m' cs
  end.

Lemma sync_step sz m c : in_sync sz m -> hy_pre sz m c ->
  sat (hy_do m c) (fun m' => in_sync sz m' /\ rs_size (hy_recr m') = rs_size (hy_recr m)).
Proof.
  intros S Hc. destruct c as [|q p0 p1|src dst|q|si u]; cbn [hy_do hy_pre] in *.
  - by apply sync_clear.
  - eapply sat_step; [by apply sync_rm|]. intros [m' ok] ?. by apply sat_ok.
  - destruct Hc as (H1 & H2 & H3). by apply (sync_cp sz).
  - by apply sync_keep.
  - destruct Hc as (H1 & H2 & H3 & H4). eapply sat_step; [by apply (sync_apply sz)|]. intros [m' n] ?. by apply sat_ok.
Qed.
End apply.

(** C30: the attention cache and the recurrent memory of a hybrid memory stay in step, when the
    cache has one stream and no sliding window and the two are in step at first.  Whatever sequence
    of [clear], [seq_rm] of one sequence (any range; not the id -1, which stands for all sequences
    and is not kept in step), [seq_cp] of a whole sequence to an unused one, [seq_keep], all with ids
    below the number of sequences, and micro-batches that continue their sequences in slots that fit
    a caller runs, nothing stops, and afterwards the
    state of every sequence in the recurrent memory is at the last position the attention cache
    holds for it; this is the position that [seq_pos_min] and [seq_pos_max] report. *)
Theorem hybrid_stays_in_sync {E F} (flt : F -> F -> bool) fmax score sz m (cs : list (hy_cmd (E := E))) :
  in_sync sz m -> hy_pres flt fmax score sz m cs ->
  exists m', mfor (hy_do flt fmax score) cs m = Ok m' /\ in_sync sz m' /\
    forall q, 0 <= q < rs_size (hy_recr m') ->
      cache_seq_pos_max (hy_attn m') q = Ok (default (-1) (recr_pos (hy_recr m') q)) /\
      hybrid_seq_pos_max m' q = Ok (default (-1) (recr_pos (hy_recr m') q)) /\
      hybrid_seq_pos_min m' q = Ok (default (-1) (recr_pos (hy_recr m') q)).
Proof.
  revert m. induction cs as [|c cs IH]; intros m S Hp.
  - exists m. cbn. split_and!; [done|done|]. intros q Hq. by destruct (sync_reports sz m q S Hq) as (? & ? & ?).
  - destruct Hp as [Hc Hcs]. destruct (proj1 (sat_exists _ _) (sync_step flt fmax score sz m c S Hc)) as (m' & Hm' & S' & _).
    cbn [mfor]. rewrite Hm'. cbn [mbind res_bind]. by apply IH, Hcs.
Qed.

(** ** [init_batch] *)

(** Tokens of one sequence each: a chain of them is the run of one sequence. *)
Lemma chain_equal {E} (a : llama_batch_allocr E) n_ubatch idxs : allocr_ok a -> ba_has_cpl a = false ->
  chain_shape a n_ubatch idxs -> equal_shape a n_ubatch [idxs].
Proof.
  intros O Hc (Hl & _ & Hlt & Hsh). destruct idxs as [|i0 l]; [cbn in Hl; lia|].
  assert (Hsub : forall j i, (i0 :: l) !! j = Some i -> tok_set a i ⊆ tok_set a i0).
  { induction j as [|j IH]; intros i Hi; [by injection Hi as <-|]. destruct (lookup_lt_is_Some_2 (i0 :: l) j) as [i' Hi'].
    { apply lookup_lt_Some in Hi. lia. }
    etrans; [by apply (Hsh j i' i)|by apply IH]. }
  assert (H0 : (i0 < n_toks a)%nat) by (by apply Forall_cons in Hlt as [? _]).
  pose proof (ao_cpl a O Hc i0 H0) as H1. destruct (tok_ids a i0) as [|q [|]] eqn:Eq; try done.
  unfold equal_shape. split_and!; [done|cbn; lia| |].
  - exists (length (i0 :: l)). split; [cbn; lia|]. split; [by intros l' ->%list_elem_of_singleton|]. cbn in *. lia.
  - exists q. intros [|j] l' Hj i Hi; [|by destruct j]. injection Hj as <-. rewrite Z.add_0_r.
    apply list_elem_of_lookup in Hi as [j Hj]. pose proof (Forall_lookup_1 _ _ _ _ Hlt Hj) as Hin. split; [done|].
    specialize (Hsub j i Hj). pose proof (ao_cpl a O Hc i Hin) as H2. unfold tok_set in Hsub. rewrite Eq in Hsub.
    destruct (tok_ids a i) as [|x [|]]; try done. cbn in Hsub. assert (x = q) as -> by set_solver. done.
Qed.

Lemma shaped_ubatch_ok {E} (a : llama_batch_allocr E) k n_ubatch u : allocr_ok a ->
  (forall i, (i < n_toks a)%nat -> 0 <= ptr_at (b_pos (ba_batch a)) i < INT32_MAX) -> (0 < ba_n_pos_per_embd a)%nat ->
  servable k a -> recr_shaped a n_ubatch u -> ubatch_ok k u.
Proof.
  intros O Hpos Hnp Hsv Hu. assert (G : forall g, ba_has_cpl a = false -> equal_shape a n_ubatch g -> ubatch_ok k (group_ubatch a g)).
  { intros g Hc Hsh. pose proof Hsh as (Hne & _ & (kk & Hkk & Hrun & _) & q & Hids). destruct Hsv as [H1|(Hn & _ & Hinj)].
    - unfold group_ubatch. apply simple_ubatch_ok; try done.
      + destruct g as [|l g]; [done|]. intros Hnil. cbn in Hnil. apply app_eq_nil in Hnil as [-> _]. specialize (Hrun [] ltac:(set_solver)). cbn in Hrun. lia.
      + apply Forall_forall. intros i (l & Hi & Hl)%elem_of_concat. apply list_elem_of_lookup in Hl as [j Hj]. by apply (Hids j l Hj i Hi).
    - by apply (equal_ubatch_ok a O Hpos Hnp g kk q). }
  destruct Hu as [(idxs & Hsh & ->)|(Hc & g & Hsh & ->)]; [|by apply G].
  destruct Hsv as [H1|(Hn & Hc & Hinj)].
  - destruct Hsh as (Hl & _ & Hlt & _). apply simple_ubatch_ok; try done. intros ->. cbn in Hl. lia.
  - assert (gather a idxs 1 true = group_ubatch a [idxs]) as -> by (unfold group_ubatch; by rewrite (app_nil_r idxs : concat [idxs] = idxs)).
    apply G; [done|]. by apply chain_equal.
Qed.

(** C32: [init_batch] of a hybrid memory without a sliding window, on an accepted batch of sequences that
    both parts serve, never stops, whatever the recurrent memory holds.  It fails only when coupled
    sequences would have to be split equally or when the attention cache, after exactly the
    micro-batches before have been placed in it, has too few usable cells for the next one; never
    for the recurrent memory.  When it succeeds, every token is in exactly one micro-batch and the
    slots fit both parts in that order.  Either way both parts are as they were. *)
Theorem hybrid_init_batch_ok {D E} (zero : D) B sz (m : llama_memory_hybrid) rows (a : llama_batch_allocr E) n_ubatch embd_all :
  kv_ok sz (hy_attn m) -> (0 < sz)%nat -> kv_swa_type (hy_attn m) = LLAMA_SWA_TYPE_NONE -> pos_bounded (hy_attn m) ->
  recr_ok zero (hy_recr m) rows -> (forall q p x, view zero (rs_cells (hy_recr m)) rows q = Some (p, x) -> p <= B) ->
  allocr_ok a -> (0 < n_toks a)%nat -> (0 < ba_n_pos_per_embd a)%nat ->
  (forall i q, (i < n_toks a)%nat -> q ∈ tok_ids a i -> q < rs_size (hy_recr m)) ->
  (forall i, (i < n_toks a)%nat -> 0 <= ptr_at (b_pos (ba_batch a)) i <= B) -> B + Z.of_nat (n_toks a) <= INT32_MAX ->
  servable (hy_attn m) a ->
  exists m' a' r, hybrid_init_batch m a n_ubatch embd_all = Ok (m', a', r) /\
    kv_cells (hy_attn m') = kv_cells (hy_attn m) /\ kv_pool (hy_attn m') = kv_pool (hy_attn m) /\
    rs_cells (hy_recr m') = rs_cells (hy_recr m) /\ rs_head (hy_recr m') = rs_head (hy_recr m) /\ rs_used (hy_recr m') = rs_used (hy_recr m) /\
    match r with
    | Some (sis, us) => covers_in_order a us /\ fits sz (hy_attn m') us sis /\ exists m2, find_slots us (hy_recr m) = Ok (m2, true)
    | None => (embd_all = false /\ ba_has_cpl a = true) \/
        exists us, covers_in_order a us /\ stuck sz (hy_attn m) us
    end.
Proof.
  intros K Hsz Hswa Hb Hm Hv O Hn Hnp Hids Hpos HB Hsv. unfold hybrid_init_batch, hybrid_split.
  destruct (recr_init_batch_full zero B _ rows a n_ubatch embd_all Hm Hv O Hn Hnp Hids Hpos HB) as (r' & a' & us & -> & _ & H1 & H2 & H3 & Hus).
  cbn [mbind res_bind]. destruct us as [us|].
  2: { exists (Hybrid (hy_attn m) r'), a', None. split_and!; try done. by left. }
  destruct Hus as (Hcov & _ & Hshp & m2 & Hm2). assert (HU : Forall (ubatch_ok (hy_attn m)) us).
  { eapply Forall_impl; [exact Hshp|]. intros u. apply shaped_ubatch_ok; try done. intros i Hi. specialize (Hpos i Hi). lia. }
  assert (Hne : us <> []).
  { intros ->. destruct Hcov as (idxss & HP & _ & HF). inversion HF; subst. apply Permutation_nil in HP.
    apply (f_equal length) in HP. rewrite length_seq in HP. cbn in HP. lia. }
  destruct (proj1 (sat_exists _ _) (sat_prepare sz _ us K Hsz Hswa Hb HU Hne)) as ([k' r] & Hprep & _ & [_ Hc] & Hp & _ & _ & _ & Hr). cbn [fst snd] in *.
  unfold prepared. rewrite Hprep. cbn [mbind res_bind].
  exists (Hybrid k' r'), a', (match match r with None | Some [] => None | Some l => Some l end with Some l => Some (l, us) | None => None end).
  split_and!; try done. destruct r as [[|si sis]|].
  - inversion Hr; subst; done.
  - split_and!; [done|done|by exists m2].
  - right. by exists us.
Qed.

(** ** Examples *)

Definition hybrid_demo : llama_memory_hybrid := Hybrid demo_cache rs_demo_shared.1.

Lemma hybrid_seq_rm_atomic_witness : exists m' ok, hybrid_seq_rm hybrid_demo 1 3 (-1) = Ok (m', ok) /\ (ok = false -> m' = hybrid_demo).
Proof.
  destruct (hybrid_seq_rm_atomic 0 hybrid_demo rs_demo_shared.2 1 3 (-1)) as (m' & ok & Hr & H).
  - exists 4%nat. exact demo_cache_ok.
  - exact rs_demo_shared_ok.
  - vm_compute. split; [discriminate|reflexivity].
  - vm_compute. reflexivity.
  - exists m', ok. split; [exact Hr|]. intros ->. exact (proj1 H).
Defined.

(** It does refuse, and removes a whole sequence. *)
Example hybrid_rm_examples :
  (match hybrid_seq_rm hybrid_demo 1 3 (-1) with Ok (_, ok) => Some ok | Err _ => None end,
   match hybrid_seq_rm hybrid_demo 1 0 (-1) with Ok (m, ok) => Some (ok, kv_positions (hy_attn m) 1, recr_pos (hy_recr m) 1) | Err _ => None end) =
  (Some false, Some (true, [], None)).
Proof. vm_compute. reflexivity. Qed.

Lemma hybrid_init_batch_ok_witness :
  exists m' a' r, hybrid_init_batch (Hybrid demo_cache (recr_new 4)) demo_alloc 2 false = Ok (m', a', r) /\
    kv_cells (hy_attn m') = kv_cells demo_cache /\ rs_cells (hy_recr m') = rs_cells (recr_new 4).
Proof.
  destruct (recr_new_ok 0 4 (replicate 4 0)) as [H1 H2]; [lia|lia|done|].
  destruct (hybrid_init_batch_ok 0 10 4 (Hybrid demo_cache (recr_new 4)) (replicate 4 0) demo_alloc 2 false) as (m' & a' & r & Hr & Hc & _ & Hrc & _).
  - exact demo_cache_ok.
  - lia.
  - vm_compute. reflexivity.
  - exact demo_bounded.
  - exact H1.
  - intros q p x Hv. change (hy_recr (Hybrid demo_cache (recr_new 4))) with (recr_new 4) in Hv. rewrite H2 in Hv. discriminate Hv.
  - exact demo_alloc_ok.
  - apply Nat.ltb_lt. vm_compute. reflexivity.
  - apply Nat.ltb_lt. vm_compute. reflexivity.
  - exact demo_alloc_ids.
  - exact demo_alloc_pos.
  - vm_compute. discriminate.
  - exact demo_servable.
  - exists m', a', r. split; [exact Hr|]. split; [exact Hc|exact Hrc].
Defined.

(** An empty hybrid memory of four cells, and a token for each of two sequences. *)
Definition hybrid_empty : llama_memory_hybrid :=
  Hybrid (match cache_new true 4 8 1 0 LLAMA_SWA_TYPE_NONE 1 0 false with Ok k => k | Err _ => demo_cache end) (recr_new 4).

Definition hybrid_ubatch : llama_ubatch Z :=
  mk_ubatch true 2 1 2 2 1 (Some [7; 8]) None [0; 5] [1; 1] [[0]; [1]] [0; 1] [] [0; 0].

Definition hybrid_slot : slot_info := mk_slot 0 0 [0%nat] [[0; 1]%nat].

Lemma hybrid_empty_ok : in_sync 4 hybrid_empty.
Proof.
  assert (K : kv_ok 4 (hy_attn hybrid_empty) /\ forall s, (s < 1)%nat -> stream_cells (hy_attn hybrid_empty) s = replicate 4 acell_empty).
  { assert (Hm : (0 < 8 <= MAX_SEQ)%nat) by (split; [lia|apply Nat.leb_le; vm_compute; reflexivity]).
    pose proof (sat_cache_new true 4 8 1 0 LLAMA_SWA_TYPE_NONE 1 0 false Hm ltac:(lia) ltac:(reflexivity)) as H.
    apply sat_exists in H as (k & Hk & K & Hn & Hc & _). unfold hybrid_empty. rewrite Hk. rewrite Hn in Hc. split; [exact K|exact Hc]. }
  destruct K as [K Hc]. destruct (recr_new_ok tt 4 (units (recr_new 4))) as [H1 H2]; [lia|lia|done|].
  assert (Hone : kv_n_stream (hy_attn hybrid_empty) = 1%nat) by (vm_compute; reflexivity).
  split; try done.
  - exists 8. split; [lia|]. vm_compute. reflexivity.
  - intros s a Hs Ha. rewrite Hone in Hs. rewrite Hc in Ha by done. apply elem_of_replicate in Ha as [-> _]. reflexivity.
  - intros q Hq. assert (Hid : id_ok q) by (apply id_ok_small; change (rs_size (hy_recr hybrid_empty)) with 4 in Hq; change LLAMA_MAX_SEQ with 256; lia).
    unfold kv_positions. rewrite (one_stream 4 _ q K Hone Hid), Hc, seq_positions_empty by lia. unfold recr_pos.
    change (hy_recr hybrid_empty) with (recr_new 4). rewrite H2. done.
Qed.

Lemma hybrid_ubatch_ok : ubatch_ok (hy_attn hybrid_empty) hybrid_ubatch.
Proof.
  assert (Hd : slot_dims (hy_attn hybrid_empty) hybrid_ubatch = (1%nat, 2%nat)) by (vm_compute; reflexivity).
  assert (Hn : kv_n_stream (hy_attn hybrid_empty) = 1%nat) by (vm_compute; reflexivity).
  split; rewrite ?Hd; cbn [fst snd]; try done; try lia.
  - split; rewrite ?Hd, ?Hn; cbn [fst snd]; [lia|lia|]. intros s Hs. assert (s = 0%nat) as -> by lia.
    exists 0. split_and!; [done|by apply id_ok_small|lia].
  - intros [|[|i]] Hi; [..|cbn in Hi; lia]; split; try done.
    + exists 0. split; [done|lia].
    + exists [0]. split_and!; [done|done|apply NoDup_singleton| |done]. by repeat constructor; apply id_ok_small.
    + exists 5. split; [done|lia].
    + exists [1]. split_and!; [done|done|apply NoDup_singleton| |done]. by repeat constructor; apply id_ok_small.
  - intros [|[|i]] Hi; [vm_compute; done|vm_compute; done|cbn in Hi; lia].
Qed.

Lemma hybrid_slot_ok : slot_ok 4 (hy_attn hybrid_empty) hybrid_ubatch hybrid_slot.
Proof.
  unfold slot_ok. replace (slot_dims (hy_attn hybrid_empty) hybrid_ubatch) with (1%nat, 2%nat) by (vm_compute; reflexivity).
  split_and!; [done|done|]. intros s q Hs Hq. assert (s = 0%nat) as -> by lia. cbn in Hq. injection Hq as <-.
  split_and!; [vm_compute; reflexivity|vm_compute; lia|vm_compute; lia|].
  exists [0; 1]%nat. split_and!; [done|done| |].
  - apply (bool_decide_unpack _). vm_compute. exact I.
  - intros i [->|Hi]%elem_of_cons; [split; [lia|vm_compute; reflexivity]|].
    apply list_elem_of_singleton in Hi as ->. split; [lia|vm_compute; reflexivity].
Qed.

Lemma hybrid_ubatch_gives q p : gives hybrid_ubatch q p <-> (q = 0 /\ p = 0) \/ (q = 1 /\ p = 5).
Proof.
  split.
  - intros ([|[|i]] & Hi & Hq & <-); [..|cbn in Hi; lia]; apply list_elem_of_singleton in Hq as ->; [by left|by right].
  - intros [[-> ->]|[-> ->]]; [exists 0%nat|exists 1%nat]; (split; [cbn; lia|]; split; [apply list_elem_of_singleton; reflexivity|reflexivity]).
Qed.

Lemma hybrid_ubatch_pre : hy_pre 4 hybrid_empty (HyApply hybrid_slot hybrid_ubatch).
Proof.
  assert (R : rubatch_ok hybrid_ubatch 4).
  { split; try done.
    - intros [|[|s]] Hs; [by split_and!|by split_and!|cbn in Hs; lia].
    - apply (bool_decide_unpack _). vm_compute. exact I.
    - intros [|[|s]] q Hs Hq; [..|cbn in Hs; lia]; apply list_elem_of_singleton in Hq; lia.
    - intros [|[|s]] Hs; [..|cbn in Hs; lia]; (split; [reflexivity|vm_compute; split; discriminate]). }
  pose proof hybrid_empty_ok as S. split_and!; [exact hybrid_ubatch_ok|exact hybrid_slot_ok| |].
  - split; [exact R|cbn; lia|vm_compute; discriminate|]. intros [|[|s]] p x Hs Hv; [vm_compute in Hv; discriminate|vm_compute in Hv; discriminate|cbn in Hs; lia].
  - assert (Hnone : forall q, 0 <= q < 4 -> kv_positions (hy_attn hybrid_empty) q = []).
    { intros q Hq. pose proof (sy_last _ _ S q Hq) as Hl. assert (recr_pos (hy_recr hybrid_empty) q = None) as Hr; [|by rewrite Hr in Hl].
      destruct (recr_new_ok tt 4 (units (recr_new 4))) as [_ H2]; [lia|lia|done|]. unfold recr_pos. change (hy_recr hybrid_empty) with (recr_new 4). by rewrite H2. }
    split.
    + intros s q p Hs Hq Hp. rewrite Hnone in Hp; [by apply not_elem_of_nil in Hp|]. by apply (ru_range _ _ R s).
    + intros [|[|s]] q Hs Hq; [..|cbn in Hs; lia]; apply list_elem_of_singleton in Hq as ->.
      * split; [apply hybrid_ubatch_gives; by left|]. intros p [[_ ->]|[Hq _]]%hybrid_ubatch_gives; [by vm_compute|done].
      * split; [apply hybrid_ubatch_gives; by right|]. intros p [[Hq _]|[_ ->]]%hybrid_ubatch_gives; [done|by vm_compute].
    + intros q p [[-> ->]|[-> ->]]%hybrid_ubatch_gives; [exists 0%nat|exists 1%nat]; (split; [cbn; lia|apply list_elem_of_singleton; reflexivity]).
Qed.

(** The micro-batch, a removal that is refused, and one sequence kept. *)
Definition hybrid_cmds : list (hy_cmd (E := Z)) := [HyApply hybrid_slot hybrid_ubatch; HyRm 1 3 (-1); HyKeep 0].

Lemma hybrid_cmds_ok : hy_pres Z.ltb 0 (fun _ _ _ => 0) 4 hybrid_empty hybrid_cmds.
Proof.
  cbn [hy_pres hybrid_cmds]. split; [exact hybrid_ubatch_pre|]. intros m1 H1.
  destruct (sat_ok_inv _ _ _ (sync_step Z.ltb 0 (fun _ _ _ => 0) 4 _ _ hybrid_empty_ok hybrid_ubatch_pre) H1) as [S1 E1].
  change (rs_size (hy_recr hybrid_empty)) with 4 in E1. assert (P : hy_pre (E := Z) 4 m1 (HyRm 1 3 (-1))) by (cbn; lia).
  split; [exact P|]. intros m2 H2. destruct (sat_ok_inv _ _ _ (sync_step Z.ltb 0 (fun _ _ _ => 0) 4 _ _ S1 P) H2) as [S2 E2].
  split; [cbn; lia|done].
Qed.

Lemma hybrid_stays_in_sync_witness : exists m', mfor (hy_do Z.ltb 0 (fun _ _ _ => 0)) hybrid_cmds hybrid_empty = Ok m' /\ in_sync 4 m'.
Proof.
  destruct (hybrid_stays_in_sync Z.ltb 0 (fun _ _ _ => 0) 4 hybrid_empty hybrid_cmds hybrid_empty_ok hybrid_cmds_ok) as (m' & Hm & S & _).
  exists m'. split; [exact Hm|exact S].
Defined.

Example hybrid_cmds_result :
  match mfor (hy_do Z.ltb 0 (fun _ _ _ => 0)) hybrid_cmds hybrid_empty with
  | Ok m => Some (kv_positions (hy_attn m) 0, recr_pos (hy_recr m) 0, kv_positions (hy_attn m) 1, recr_pos (hy_recr m) 1)
  | Err _ => None end = Some ([0], Some 0, [], None).
Proof. vm_compute. reflexivity. Qed.
