(* ===== verification/IswaProps.v ===== *)
(** * The sliding-window memory: the small cache is a part of the large one

    What [llama_kv_cache_iswa] takes for granted in [seq_pos_min]: every position in the cache of
    the sliding-window layers is also in the base cache. And its [init_batch] never stops. *)

From S2P Require Import Prelude KvCells KvCellsInv KvCellsSpec Batch Pages PagesTheory KvCache KvCacheTheory.
From S2P Require Import KvCacheProps KvSlots KvPlace KvPrepare KvUbatchProps KvContext KvStateWhole.
From S2P Require Import BatchTheory SplitEqual SplitProps SplitSeq BatchProps KvBatch KvViews RsMemory.
From S2P Require Import RsTheory RsSlot RsFind RsProps RsBatch HybridMemory HybridTheory HybridProps.

(** ** One cache, one command *)

(** The commands on sequences that both caches are given. *)
Inductive sw_cmd : Type :=
  | SwClear
  | SwRm (seq_id p0 p1 : Z)
  | SwCp (src dst p0 p1 : Z)
  | SwKeep (seq_id : Z).

Definition kv_do (k : kv_cache) (c : sw_cmd) : res kv_cache :=
  match c with
  | SwClear => cache_clear k
  | SwRm q p0 p1 => cache_seq_rm k q p0 p1
  | SwCp src dst p0 p1 => cache_seq_cp k src dst p0 p1
  | SwKeep q => cache_seq_keep k q
  end.

(** What a sequence sees afterwards, from what sequences saw before. *)
Definition view_after (c : sw_cmd) (V : Z -> Z -> Prop) (q p : Z) : Prop :=
  match c with
  | SwClear => False
  | SwRm q' p0 p1 => V q p /\ ~ (q = q' /\ norm_p0 p0 <= p < norm_p1 p1)
  | SwCp src dst p0 p1 => if decide (q = dst /\ src <> dst) then V src p /\ norm_p0 p0 <= p < norm_p1 p1 else V q p
  | SwKeep q' => q = q' /\ V q p
  end.

Lemma view_after_mono c (V W : Z -> Z -> Prop) : (forall q p, V q p -> W q p) -> forall q p, view_after c V q p -> view_after c W q p.
Proof. intros H q p. destruct c; cbn; try naive_solver. case_decide; naive_solver. Qed.

(** Sequence ids exist; a copy goes to a sequence that has nothing. *)
Definition sw_pre (k : kv_cache) (c : sw_cmd) : Prop :=
  match c with
  | SwClear => True
  | SwRm q _ _ | SwKeep q => id_ok q
  | SwCp src dst _ _ => id_ok src /\ id_ok dst /\ kv_positions k dst = []
  end.

Lemma cleared_positions sz k k' q : kv_ok sz k -> kv_ok sz k' -> cache_clear k = Ok k' -> id_ok q -> kv_positions k' q = [].
Proof.
  intros K K' Hk Hq. destruct (cache_clear_ok sz k K) as (k2 & Hk2 & _ & Hst & _ & Hc). assert (k2 = k') as -> by congruence. unfold kv_positions.
  destruct (stream_of_ok sz k' q K' Hq) as [_ Hs]. rewrite (static_n _ k' Hst) in Hs. destruct (Hc _ Hs) as (c & Hc' & _ & _ & E).
  unfold stream_cells. rewrite Hc'. cbn. rewrite E. apply seq_positions_empty.
Qed.

Lemma sat_kv_do sz k c : kv_ok sz k -> kv_n_stream k = 1%nat -> sw_pre k c ->
  sat (kv_do k c) (fun k' => kv_ok sz k' /\ kv_static k' = kv_static k /\
    forall q p, id_ok q -> p ∈ kv_positions k' q <-> view_after c (fun q p => p ∈ kv_positions k q) q p).
Proof.
  intros K H1 Hp. destruct c as [|q0 p0 p1|src dst p0 p1|q0]; cbn [kv_do sw_pre view_after] in *.
  - destruct (cache_clear_ok sz k K) as (k' & Hk & K' & Hst & _). rewrite Hk. apply sat_ok. split_and!; [done|done|].
    intros q p Hq. rewrite (cleared_positions sz k k') by done. split; [apply not_elem_of_nil|done].
  - destruct (kv_rm_sees sz k q0 p0 p1 K Hp) as (k' & Hk & K' & Hst & Hv). rewrite Hk. apply sat_ok. split_and!; [done|done|]. intros q p _. apply Hv.
  - destruct Hp as (Hs & Hd & Hfree). pose proof (one_stream sz k src K H1 Hs) as E1. pose proof (one_stream sz k dst K H1 Hd) as E2.
    destruct (decide (src = dst)) as [->|Hne].
    + unfold cache_seq_cp. rewrite assert_ok by by eapply seq_id_valid_ok. cbn [mbind res_bind]. destruct (stream_of_ok sz k dst K Hd) as [-> _].
      cbn [mbind res_bind]. rewrite Nat.eqb_refl, Z.eqb_refl. apply sat_ok. split_and!; [done|done|]. intros q p _. rewrite decide_False by tauto. done.
    + eapply sat_mono; [apply (sat_cp_views sz k src dst p0 p1 K Hs Hd); [congruence|done|]|].
      { intros a Ha _ Hin. apply list_elem_of_lookup in Ha as [i Hi]. rewrite E1, <- E2 in Hi.
        apply (not_elem_of_nil (a_pos a)). rewrite <- Hfree. apply elem_of_seq_positions. by exists i, a. }
      intros k' (K' & (Hst & _) & _ & Hdst & Hoth). split_and!; [done|done|]. intros q p _. case_decide as Eq.
      * destruct Eq as [-> _]. rewrite Hdst, Hfree, app_nil_r, list_elem_of_filter, in_range_spec. tauto.
      * rewrite Hoth; [done|]. intros ->. by apply Eq.
  - eapply sat_mono; [by apply (sat_keep_views sz k q0 K)|]. intros k' (K' & (Hst & _) & Hv). split_and!; [done|done|]. intros q p Hq.
    rewrite Hv, !(one_stream sz k) by done. destruct (decide (q = q0)) as [->|Hne].
    + rewrite decide_False by tauto. tauto.
    + rewrite decide_True by done. split; [intros Hx; by apply not_elem_of_nil in Hx|tauto].
Qed.

(** ** The two caches *)

Section superset.
Context {E F : Type} (flt : F -> F -> bool) (fmax : F) (score : kv_cache -> nat -> nat -> F).

(** Unified caches of [sb] and [ss] cells; what the second holds, the first holds. *)
Record superset (sb ss : nat) (m : llama_kv_cache_iswa) : Prop := {
  su_base  : kv_ok sb (iw_base m);
  su_swa   : kv_ok ss (iw_swa m);
  su_one   : kv_n_stream (iw_base m) = 1%nat;
  su_one'  : kv_n_stream (iw_swa m) = 1%nat;
  su_none  : kv_swa_type (iw_base m) = LLAMA_SWA_TYPE_NONE;
  su_chunk : kv_swa_type (iw_swa m) = LLAMA_SWA_TYPE_CHUNKED -> kv_n_swa (iw_swa m) <> 0;
  su_pad   : pow2 (Z.max (Z.of_nat (kv_n_pad (iw_base m))) 256);
  su_pad'  : pow2 (Z.max (Z.of_nat (kv_n_pad (iw_swa m))) 256);
  su_pos   : pos_bounded (iw_base m);
  su_sub   : forall q p, id_ok q -> p ∈ kv_positions (iw_swa m) q -> p ∈ kv_positions (iw_base m) q
}.

Lemma superset_rebuild sb ss m b s : superset sb ss m -> kv_ok sb b -> kv_ok ss s ->
  kv_static b = kv_static (iw_base m) -> kv_static s = kv_static (iw_swa m) ->
  (forall q p, id_ok q -> p ∈ kv_positions b q -> p < INT32_MAX) ->
  (forall q p, id_ok q -> p ∈ kv_positions s q -> p ∈ kv_positions b q) -> superset sb ss (Iswa (iw_unified m) b s).
Proof.
  intros [S1 S2 S3 S4 S5 S6 S7 S8 S9 S10] B S Hb Hs Hp Hsub. pose proof (static_n _ b Hb) as Nb. pose proof (static_n _ s Hs) as Ns.
  unfold kv_static in Hb, Hs. split; cbn [iw_base iw_swa]; try done; try congruence.
  - intros Ht. assert (kv_n_swa s = kv_n_swa (iw_swa m)) as -> by congruence. apply S6. congruence.
  - apply (bounded_sees sb (iw_base m)); try done. congruence.
Qed.

Lemma superset_swa_bounded sb ss m : superset sb ss m -> pos_bounded (iw_swa m).
Proof.
  intros S. apply (bounded_sees ss (iw_swa m)); try apply S. intros q p Hq Hp%(su_sub _ _ _ S); [|done].
  by apply (positions_bounded sb (iw_base m) q p (su_base _ _ _ S) (su_pos _ _ _ S)).
Qed.

(** The same command for both. *)
Definition iswa_do (m : llama_kv_cache_iswa) (c : sw_cmd) : res llama_kv_cache_iswa :=
  match c with
  | SwClear => iswa_clear m
  | SwRm q p0 p1 => '(m, _) ← iswa_seq_rm m q p0 p1; Ok m
  | SwCp src dst p0 p1 => iswa_seq_cp m src dst p0 p1
  | SwKeep q => iswa_seq_keep m q
  end.

Lemma iswa_do_both m c : iswa_do m c = (b ← kv_do (iw_base m) c; s ← kv_do (iw_swa m) c; Ok (Iswa (iw_unified m) b s)).
Proof.
  destruct c; try done. cbn [iswa_do kv_do]. unfold iswa_seq_rm. cbn [mi_seq_rm kv_memory_i].
  destruct (cache_seq_rm (iw_base m) _ _ _); [|done]. cbn [mbind res_bind]. by destruct (cache_seq_rm (iw_swa m) _ _ _).
Qed.

Lemma superset_do sb ss m c : superset sb ss m -> sw_pre (iw_base m) c -> sat (iswa_do m c) (superset sb ss).
Proof.
  intros S Hc. rewrite iswa_do_both. assert (Hc' : sw_pre (iw_swa m) c).
  { destruct c; cbn in *; try done. destruct Hc as (? & ? & Hfree). split_and!; try done. apply list_no_elem. intros x Hx%(su_sub _ _ _ S); [|done].
    rewrite Hfree in Hx. by apply not_elem_of_nil in Hx. }
  eapply sat_step; [by apply (sat_kv_do sb), Hc; apply S|]. intros b (B & Hb & Vb). eapply sat_step; [by apply (sat_kv_do ss), Hc'; apply S|].
  intros s (Ss & Hs & Vs). apply sat_ok. apply (superset_rebuild sb ss m); try done.
  - intros q p Hq Hp%Vb; [|done]. assert (Hx : forall x y, (fun q p => p ∈ kv_positions (iw_base m) q) x y -> id_ok x -> y < INT32_MAX).
    { intros x y Hy Hid. by apply (positions_bounded sb (iw_base m) x y (su_base _ _ _ S) (su_pos _ _ _ S)). }
    destruct c as [|q0 p0 p1|src dst p0 p1|q0]; cbn [view_after] in Hp; [done|by apply (Hx q p), Hq; apply Hp| |by apply (Hx q p), Hq; apply Hp].
    case_decide; [apply (Hx src p); [apply Hp|apply Hc]|by apply (Hx q p)].
  - intros q p Hq Hp. apply Vb; [done|]. apply Vs in Hp; [|done]. destruct c; cbn in *; try done.
    + destruct Hp as [Hp Hn]. split; [by apply (su_sub _ _ _ S)|done].
    + case_decide; [|by apply (su_sub _ _ _ S)]. destruct Hp as [Hp Hr]. split; [by apply (su_sub _ _ _ S); [apply Hc|]|done].
    + destruct Hp as [-> Hp]. split; [done|by apply (su_sub _ _ _ S)].
Qed.

(** A micro-batch at a slot of each cache. *)
Lemma superset_apply sb ss m si_b si_s (u : llama_ubatch E) : superset sb ss m -> ubatch_ok (iw_base m) u -> ubatch_ok (iw_swa m) u ->
  slot_ok sb (iw_base m) u si_b -> slot_ok ss (iw_swa m) u si_s ->
  sat (iswa_apply flt fmax score m si_b si_s u) (fun r => superset sb ss r.1).
Proof.
  intros S U U' Sb Sw. unfold iswa_apply. pose proof (su_base _ _ _ S) as K.
  eapply sat_step; [apply (sat_context_views flt fmax score sb _ u si_b K U Sb (su_none _ _ _ S) (su_pos _ _ _ S) (su_pad _ _ _ S))|].
  { apply (streams_match_one sb); [done|apply S|]. apply (slot_place sb _ u si_b K U Sb (swa_none _ (su_none _ _ _ S) (su_pos _ _ _ S))). }
  intros [b n_b] (B & Hb & Hbb & Vb). cbn [fst snd] in *.
  eapply sat_step; [apply (sat_context_swa flt fmax score ss _ u si_s (su_swa _ _ _ S) U' Sw); [|apply (su_pad' _ _ _ S)]|].
  { intros s Hs. split; [apply (su_chunk _ _ _ S)|]. intros a Ha. by apply (superset_swa_bounded sb ss m S s). }
  intros [s n_s] (Ss & Hs & Vs). cbn [fst snd] in *. apply sat_ok. cbn [fst]. apply (superset_rebuild sb ss m); try done.
  - intros q p Hq. by apply (positions_bounded sb b q p B Hbb).
  - intros q p Hq [Hp|Hp]%Vs; apply Vb; [left; by apply (su_sub _ _ _ S)|by right].
Qed.

(** ** Any sequence of operations *)

Inductive iw_cmd : Type :=
  | IwSeq (c : sw_cmd)
  | IwApply (si_base si_swa : slot_info) (u : llama_ubatch E).

Definition iw_do (m : llama_kv_cache_iswa) (c : iw_cmd) : res llama_kv_cache_iswa :=
  match c with
  | IwSeq c => iswa_do m c
  | IwApply sb ss u => '(m, _) ← iswa_apply flt fmax score m sb ss u; Ok m
  end.

Definition iw_pre (sb ss : nat) (m : llama_kv_cache_iswa) (c : iw_cmd) : Prop :=
  match c with
  | IwSeq c => sw_pre (iw_base m) c
  | IwApply si_b si_s u => ubatch_ok (iw_base m) u /\ ubatch_ok (iw_swa m) u /\ slot_ok sb (iw_base m) u si_b /\ slot_ok ss (iw_swa m) u si_s
  end.

Fixpoint iw_pres (sb ss : nat) (m : llama_kv_cache_iswa) (cs : list iw_cmd) : Prop :=
  match cs with
  | [] => True
  | c :: cs => iw_pre sb ss m c /\ forall m', iw_do m c = Ok m' -> iw_pres sb ss m' cs
  end.

Lemma superset_step sb ss m c : superset sb ss m -> iw_pre sb ss m c -> sat (iw_do m c) (superset sb ss).
Proof.
  intros S Hc. destruct c as [c|si_b si_s u]; cbn [iw_do iw_pre] in *; [by apply superset_do|]. destruct Hc as (? & ? & ? & ?).
  eapply sat_step; [by apply (superset_apply sb ss)|]. intros [m' n] ?. by apply sat_ok.
Qed.
End superset.

Lemma max_or_m1_mono l l' : (forall x, x ∈ l -> x ∈ l') -> (forall x, x ∈ l' -> 0 <= x) -> max_or_m1 l <= max_or_m1 l'.
Proof.
  intros Hs Hn. apply max_or_m1_le; [|intros x Hx; by apply max_or_m1_ge, Hs]. unfold max_or_m1.
  destruct (list_max l') as [m|] eqn:Em; cbn; [|done]. apply list_max_Some in Em as [Hm _]. specialize (Hn m Hm). lia.
Qed.

(** C33: the base cache of a sliding-window memory is a superset of the other one, as [seq_pos_min]
    and [seq_pos_max] take for granted.  From two unified caches for which it holds, any sequence
    of [clear], [seq_rm], [seq_cp] to an unused sequence, [seq_keep] and micro-batches placed in
    slots of the two caches runs without stopping and keeps it: every position that the window
    cache holds for a sequence, the base cache holds for it too.  So [seq_pos_max], which reads
    the window cache only, never reports a position beyond the base cache. *)
Theorem iswa_superset {E F} (flt : F -> F -> bool) fmax score sb ss m (cs : list (iw_cmd (E := E))) :
  superset sb ss m -> iw_pres flt fmax score sb ss m cs ->
  exists m', mfor (iw_do flt fmax score) cs m = Ok m' /\ superset sb ss m' /\
    (forall q p, id_ok q -> p ∈ kv_positions (iw_swa m') q -> p ∈ kv_positions (iw_base m') q) /\
    forall q, id_ok q -> exists x y, iswa_seq_pos_max m' q = Ok x /\ cache_seq_pos_max (iw_base m') q = Ok y /\ x <= y.
Proof.
  revert m. induction cs as [|c cs IH]; intros m S Hp.
  - exists m. cbn. split_and!; [done|done|apply S|]. intros q Hq. destruct (cache_seq_pos_ok ss _ q (su_swa _ _ _ S) Hq) as [_ Hx].
    destruct (cache_seq_pos_ok sb _ q (su_base _ _ _ S) Hq) as [_ Hy]. eexists _, _. split_and!; [exact Hx|exact Hy|].
    apply max_or_m1_mono; [by intros x; apply (su_sub _ _ _ S)|]. intros x. by apply (positions_nonneg sb _ q x (su_base _ _ _ S)).
  - destruct Hp as [Hc Hcs]. destruct (proj1 (sat_exists _ _) (superset_step flt fmax score sb ss m c S Hc)) as (m' & Hm' & S').
    cbn [mfor]. rewrite Hm'. cbn [mbind res_bind]. by apply IH, Hcs.
Qed.

(** ** [init_batch] *)

Section init_batch.
Context {E : Type}.
Implicit Types (a : llama_batch_allocr E) (m : llama_kv_cache_iswa).

(** The loop of [init_batch] with this split makes the micro-batches [us] of the whole batch. *)
Definition splits_into (split : llama_batch_allocr E -> res (llama_batch_allocr E * llama_ubatch E)) a (us : list (llama_ubatch E)) : Prop :=
  us <> [] /\ covers a us /\ exists a', split_loop split (S (n_toks a)) (balloc_split_reset a) [] = Ok (a', us) /\
    balloc_get_n_used a' = n_toks a /\ balloc_get_n_tokens a' = n_toks a /\ balloc_split_reset a' = balloc_split_reset a.

Lemma covers_ne a us : (0 < n_toks a)%nat -> covers a us -> us <> [].
Proof.
  intros Hn (idxss & HP & HF) ->. inversion HF; subst. apply Permutation_nil in HP.
  apply (f_equal length) in HP. rewrite length_seq in HP. cbn in HP. lia.
Qed.

Context a (O : allocr_ok a) (Hn : (0 < n_toks a)%nat) (Hnp : (0 < ba_n_pos_per_embd a)%nat)
  (Hpos : forall i, (i < n_toks a)%nat -> 0 <= ptr_at (b_pos (ba_batch a)) i < INT32_MAX).

Lemma simple_splits n_ubatch : exists us, splits_into (fun a => balloc_split_simple a n_ubatch) a us /\
  forall k, kv_n_stream k = 1%nat -> Forall (ubatch_ok k) us.
Proof using O Hn Hnp Hpos.
  assert (E0 : balloc_split_reset a = simple_at a 0 []).
  { unfold balloc_split_reset, simple_at. by rewrite Nat.sub_0_r. }
  destruct (split_loop_simple a n_ubatch (S (n_toks a)) 0 [] []) as (l & Hp & Hs); [done|lia|lia|].
  destruct (pieces_concat _ _ _ _ Hp) as [_ Hc]. rewrite Nat.sub_0_r in Hc. pose proof (pieces_size _ _ _ _ Hp) as Hsz.
  assert (Hcov : covers a ((fun idxs => gather a idxs (length idxs) false) <$> l)).
  { exists l. split; [by rewrite Hc|]. apply Forall2_fmap_r, Forall_Forall2_diag, Forall_forall. intros ? _. by eexists _, _. }
  eexists. split.
  - split; [exact (covers_ne a _ Hn Hcov)|]. split; [exact Hcov|]. rewrite E0, Hs. eexists. by split_and!.
  - intros k H1. apply Forall_fmap, Forall_forall. intros idxs Hin. pose proof Hin as [j Hj]%list_elem_of_lookup.
    destruct (Hsz j idxs Hj) as [Hl _]. apply simple_ubatch_ok; try done; [by intros ->; simpl in Hl; lia|].
    apply Forall_forall. intros x Hx. assert (x ∈ seq 0 (n_toks a)) as Hin'; [|apply elem_of_seq in Hin'; lia].
    rewrite <- Hc. apply elem_of_concat. by exists idxs.
Qed.

Lemma groups_ne n_ubatch sq D gs : groups a n_ubatch sq D gs -> Forall (fun g => concat g <> []) gs.
Proof using Hn Hnp.
  induction 1 as [D Hall|D Ts k gs G _ IH]; constructor; [|done]. intros Hnil. pose proof (group_size _ _ _ _ _ _ G) as Hsz.
  change (group_tokens a D Ts k) with (concat (group_runs a D Ts k)) in Hsz. rewrite Hnil in Hsz.
  destruct G as [Hne Hk _ _ _ _ _]. destruct Ts; [done|]. cbn in Hsz. lia.
Qed.

Lemma equal_splits n_ubatch sq : sq && ba_has_cpl a = false -> exists us, splits_into (fun a => balloc_split_equal a n_ubatch sq) a us /\
  forall k, kv_n_stream k = 1%nat \/ sq = true /\ servable k a -> Forall (ubatch_ok k) us.
Proof using O Hn Hnp Hpos.
  intros Hcpl. destruct (split_loop_equal a n_ubatch sq (S (n_toks a)) [] []) as (gs & Hg & U & Hs); [done|apply used_nil|done|lia|].
  rewrite !app_nil_l in *. assert (HP : Permutation (concat (concat gs)) (seq 0 (n_toks a))) by (apply used_all; [done|]; by apply (groups_cover a n_ubatch sq [] gs Hg)).
  assert (HC : concat (@concat nat <$> gs) = concat (concat gs)).
  { clear. induction gs as [|g gs IH]; [done|]. cbn [fmap list_fmap concat]. rewrite concat_app. by f_equal. }
  assert (Hcov : covers a (group_ubatch a <$> gs)).
  { exists (@concat nat <$> gs). split; [by rewrite HC|]. apply Forall2_fmap_l, Forall2_fmap_r, Forall_Forall2_diag, Forall_forall. intros g _. by eexists _, _. }
  eexists. split.
  - split; [exact (covers_ne a _ Hn Hcov)|]. split; [exact Hcov|]. rewrite reset_equal, Hs. eexists. split; [reflexivity|].
    split; [|split; [done|by rewrite <- reset_equal]]. cbn. by rewrite HP, length_seq.
  - intros k Hk. apply Forall_fmap. destruct (decide (kv_n_stream k = 1%nat)) as [H1|H1].
    + pose proof (groups_ne _ _ _ _ Hg) as Hne. rewrite !Forall_forall in *. intros g Hin. unfold compose, group_ubatch. apply simple_ubatch_ok; [done|done|done|done|by apply Hne|].
      apply Forall_forall. intros x Hx. assert (x ∈ seq 0 (n_toks a)) as Hin'; [|apply elem_of_seq in Hin'; lia].
      rewrite <- HP, <- HC. apply elem_of_concat. exists (concat g). split; [done|]. by apply list_elem_of_fmap_2.
    + destruct Hk as [?|[-> [?|(Hlt & Hc & Hinj)]]]; [done|done|]. eapply Forall_impl; [by apply (groups_shape a n_ubatch [] gs)|].
      intros g (Hne & _ & (kk & Hkk & Hrun & _) & q & Hids). by apply (equal_ubatch_ok a O Hpos Hnp g kk q).
Qed.

(** What [init_batch] does to the two caches. *)
Record kept (sb ss : nat) m m' : Prop := {
  kp_base  : kv_ok sb (iw_base m');
  kp_cells : same_cells (iw_base m) (iw_base m');
  kp_pool  : kv_pool (iw_base m') = kv_pool (iw_base m);
  kp_swa   : trial ss (iw_swa m');
  kp_fewer : fewer (iw_swa m) (iw_swa m');
  kp_uni   : iw_unified m' = iw_unified m
}.

Lemma kept_trans sb ss m1 m2 m3 : kept sb ss m1 m2 -> kept sb ss m2 m3 -> kept sb ss m1 m3.
Proof.
  intros [_ [C1 D1] P1 _ F1 U1] [B2 [C2 D2] P2 T2 F2 U2]. split; try done; [by split; congruence|congruence|by etrans|congruence].
Qed.

Lemma same_cells_bounded k k' : same_cells k k' -> pos_bounded k -> pos_bounded k'.
Proof. intros [Hst Hc] Hb s x Hs. unfold stream_cells. rewrite Hc. apply Hb. by rewrite <- (static_n k k' Hst). Qed.

Definition plan_ok (sb : nat) m' (us : list (llama_ubatch E)) (r : option (list slot_info * list slot_info * list (llama_ubatch E))) : Prop :=
  match r with
  | Some (sis_b, sis_s, us') => us' = us /\ fits sb (iw_base m') us sis_b /\ length sis_s = length us
  | None => True
  end.

Lemma sat_iswa_attempt sb ss m a0 split us :
  kv_ok sb (iw_base m) -> (0 < sb)%nat -> kv_swa_type (iw_base m) = LLAMA_SWA_TYPE_NONE -> pos_bounded (iw_base m) ->
  trial ss (iw_swa m) -> (0 < ss)%nat -> splits_into split a us -> balloc_split_reset a0 = balloc_split_reset a ->
  Forall (ubatch_ok (iw_base m)) us -> Forall (ubatch_ok (iw_swa m)) us ->
  sat (iswa_attempt split m a0) (fun r => kept sb ss m r.1.1 /\ balloc_split_reset r.1.2 = balloc_split_reset a /\ plan_ok sb r.1.1 us r.2).
Proof using.
  intros K Hsb Hnone Hb T Hss (Hne & _ & a' & Hs & Hu & Ht & Hrs) Hreset HU HU'. unfold iswa_attempt. rewrite Hreset.
  change (balloc_get_n_tokens (balloc_split_reset a)) with (n_toks a). rewrite Hs. cbn [mbind res_bind]. rewrite Hu, Ht, Nat.ltb_irrefl.
  unfold iswa_prepare, prepared. destruct (proj1 (sat_exists _ _) (sat_prepare sb _ us K Hsb Hnone Hb HU Hne)) as ([b rb] & Hpb & B & Sb & Pb & _ & _ & _ & Hrb).
  cbn [fst snd] in *. rewrite Hpb. cbn [mbind res_bind]. assert (Kn : kept sb ss m (Iswa (iw_unified m) b (iw_swa m))) by (by split).
  destruct rb as [[|si sis]|]; cbn [mbind res_bind]; [by apply sat_ok|..|by apply sat_ok].
  destruct (proj1 (sat_exists _ _) (sat_prepare_swa ss _ us T Hss HU' Hne)) as ([s rs] & Hps & Ts & Fs & Hl). cbn [fst snd] in *.
  rewrite Hps. cbn [mbind res_bind]. assert (Kn' : kept sb ss m (Iswa (iw_unified m) b s)) by (by split).
  destruct rs as [[|si' sis']|]; cbn [mbind res_bind]; [by apply sat_ok|..|by apply sat_ok].
  destruct Hl as (s1 & Hl%serves_length). assert (Hlb : length (si :: sis) = length us).
  { clear -Hrb. remember (si :: sis) as l. clear Heql. induction Hrb; cbn; congruence. }
  rewrite Hlb, Hl, Nat.eqb_refl. apply sat_ok. by split_and!.
Qed.
End init_batch.

(** [init_batch] of a sliding-window memory on an accepted batch never stops, in either of its
    two attempts (consecutive pieces, then equal runs).  When it succeeds, the micro-batches hold
    every token exactly once, the slots of the base cache fit them in that order, and there is one
    slot of the window cache for each.  Whatever happens, the cells and the pool of the base cache
    are as they were and the cells of the window cache have at most lost sequences, so that the
    base cache is still a superset. *)
Lemma iswa_init_batch_ok {E} sb ss m (a : llama_batch_allocr E) n_ubatch
    (K : kv_ok sb (iw_base m)) (Hsb : (0 < sb)%nat) (Hnone : kv_swa_type (iw_base m) = LLAMA_SWA_TYPE_NONE) (Hb : pos_bounded (iw_base m))
    (T : trial ss (iw_swa m)) (Hss : (0 < ss)%nat)
    (O : allocr_ok a) (Hn : (0 < n_toks a)%nat) (Hnp : (0 < ba_n_pos_per_embd a)%nat)
    (Hpos : forall i, (i < n_toks a)%nat -> 0 <= ptr_at (b_pos (ba_batch a)) i < INT32_MAX)
    (Hone : iw_unified m = true -> kv_n_stream (iw_base m) = 1%nat /\ kv_n_stream (iw_swa m) = 1%nat)
    (Hsv : iw_unified m = false -> ba_has_cpl a = false /\ servable (iw_base m) a /\ servable (iw_swa m) a) :
  exists m' a' r, iswa_init_batch m a n_ubatch = Ok (m', a', r) /\
    kv_cells (iw_base m') = kv_cells (iw_base m) /\ kv_pool (iw_base m') = kv_pool (iw_base m) /\
    fewer (iw_swa m) (iw_swa m') /\ trial ss (iw_swa m') /\
    ((forall q p, p ∈ kv_positions (iw_swa m) q -> p ∈ kv_positions (iw_base m) q) ->
      forall q p, p ∈ kv_positions (iw_swa m') q -> p ∈ kv_positions (iw_base m') q) /\
    match r with
    | Some (sis_b, sis_s, us) => covers a us /\ fits sb (iw_base m') us sis_b /\ length sis_s = length us
    | None => True
    end.
Proof.
  assert (G : sat (iswa_init_batch m a n_ubatch) (fun r => kept sb ss m r.1.1 /\ match r.2 with
    | Some (sis_b, sis_s, us) => covers a us /\ fits sb (iw_base r.1.1) us sis_b /\ length sis_s = length us | None => True end)).
  { unfold iswa_init_batch.
    destruct (equal_splits a O Hn Hnp Hpos n_ubatch (negb (iw_unified m))) as (us2 & Sp2 & U2).
    { destruct (iw_unified m); [done|]. by destruct (Hsv eq_refl) as [-> _]. }
    eapply sat_step with (P := fun r => kept sb ss m r.1.1 /\ balloc_split_reset r.1.2 = balloc_split_reset a /\
      match r.2 with Some (sis_b, sis_s, us) => covers a us /\ fits sb (iw_base r.1.1) us sis_b /\ length sis_s = length us | None => True end).
    { destruct (iw_unified m) eqn:Eu.
      - destruct (simple_splits a O Hn Hnp Hpos n_ubatch) as (us & Sp & U). destruct (Hone eq_refl) as [H1 H2].
        eapply sat_mono; [by apply (sat_iswa_attempt a sb ss m a _ us); try done; apply U|].
        intros [[m' a'] r] (Kn & Hr & Hp). split_and!; [done|done|]. cbn [fst snd] in *. destruct r as [[[sis_b sis_s] us']|]; [|done].
        destruct Hp as (-> & ? & ?). split_and!; [apply Sp|done|done].
      - apply sat_ok. cbn. split_and!; [|done|done]. split; try done. }
    intros [[m1 a1] r] (Kn & Hr & Hp). cbn [fst snd] in *. destruct r as [plan|]; [by apply sat_ok|]. destruct Kn as [K1 C1 P1 T1 F1 E1]. rewrite E1.
    pose proof (proj1 C1) as Hst. pose proof (proj1 F1) as Hst'.
    assert (HU : Forall (ubatch_ok (iw_base m)) us2 /\ Forall (ubatch_ok (iw_swa m)) us2).
    { destruct (iw_unified m) eqn:Eu; [destruct (Hone eq_refl); split; apply U2; by left|]. destruct (Hsv eq_refl) as (_ & ? & ?). split; apply U2; by right. }
    destruct HU as [HU HU']. eapply sat_mono; [apply (sat_iswa_attempt a sb ss m1 a1 _ us2 K1 Hsb)|].
    - by rewrite (static_swa (iw_base m)).
    - by apply (same_cells_bounded (iw_base m)).
    - done.
    - done.
    - exact Sp2.
    - done.
    - eapply Forall_impl; [exact HU|]. intros u. by apply static_ubatch.
    - eapply Forall_impl; [exact HU'|]. intros u. by apply static_ubatch.
    - intros [[m' a'] r] (Kn & _ & Hp'). cbn [fst snd] in *. split; [by apply (kept_trans sb ss m m1)|].
      destruct r as [[[sis_b sis_s] us']|]; [|done]. destruct Hp' as (-> & ? & ?). split_and!; [apply Sp2|done|done]. }
  apply sat_exists in G as ([[m' a'] r] & Hr & [K' [Hst Hc] Hp T' F' _] & H). exists m', a', r. split_and!; try done.
  intros Hsub q p Hin. apply (fewer_positions (iw_swa m)) in Hin; [|done]. rewrite (same_positions (iw_base m)) by done. by apply Hsub.
Qed.

(** ** Examples *)

Definition first_slot : slot_info := mk_slot 0 0 [0%nat] [[0; 1]%nat].

(** Two tokens fit at the start of an empty cache. *)
Lemma first_slot_ok sz k : kv_ok sz k -> kv_n_stream k = 1%nat -> (2 <= sz)%nat -> stream_cells k 0 = replicate sz acell_empty ->
  slot_ok sz k (run_ubatch 0 2) first_slot.
Proof.
  intros K H1 Hsz Hc. unfold slot_ok. assert (slot_dims k (run_ubatch 0 2) = (1%nat, 2%nat)) as -> by (unfold slot_dims; by rewrite H1).
  split_and!; [done|done|]. intros s q Hs Hq. assert (s = 0%nat) as -> by lia. cbn in Hq. injection Hq as <-.
  assert (H0 : seq_stream k 0 = 0%nat) by (apply (one_stream sz); [done|done|by apply id_ok_small]).
  unfold slot_for. rewrite H0. split_and!; [done|cbn; lia|cbn; lia|]. exists [0; 1]%nat. split_and!; [done|done| |].
  - apply (bool_decide_unpack _). vm_compute. exact I.
  - intros i Hi. assert (Hlt : (i < 2)%nat) by (apply elem_of_cons in Hi as [->|Hi%list_elem_of_singleton]; lia).
    split; [lia|]. unfold usable_at. rewrite Hc, lookup_replicate_2 by lia. reflexivity.
Qed.

(** A memory of four cells with a window of two. *)
Lemma iswa_new_superset : sat (iswa_new false true 4 8 4 1 2 LLAMA_SWA_TYPE_STANDARD 1 0 false) (fun m => superset 4 256 m /\
  stream_cells (iw_base m) 0 = replicate 4 acell_empty /\ stream_cells (iw_swa m) 0 = replicate 256 acell_empty).
Proof.
  assert (Hm : (0 < 8 <= MAX_SEQ)%nat) by (split; [lia|apply Nat.leb_le; vm_compute; reflexivity]). unfold iswa_new.
  replace (Z.to_nat (iswa_size_swa false true (Z.of_nat 4) 2 (Z.of_nat 8) (Z.of_nat 4))) with 256%nat by (vm_compute; reflexivity).
  assert (Hbt : match cache_new true 4 8 1 0 LLAMA_SWA_TYPE_NONE 1 0 false with
    | Ok k => kv_swa_type k = LLAMA_SWA_TYPE_NONE /\ kv_n_pad k = 1%nat | Err _ => False end) by (vm_compute; split; reflexivity).
  assert (Hst : match cache_new true 256 8 1 2 LLAMA_SWA_TYPE_STANDARD 1 0 false with
    | Ok k => kv_swa_type k = LLAMA_SWA_TYPE_STANDARD /\ kv_n_pad k = 1%nat | Err _ => False end) by (vm_compute; split; reflexivity).
  destruct (proj1 (sat_exists _ _) (sat_cache_new true 4 8 1 0 LLAMA_SWA_TYPE_NONE 1 0 false Hm ltac:(lia) ltac:(reflexivity))) as (b & Eb & B & Nb & Cb & _).
  destruct (proj1 (sat_exists _ _) (sat_cache_new true 256 8 1 2 LLAMA_SWA_TYPE_STANDARD 1 0 false Hm ltac:(lia) ltac:(reflexivity))) as (s & Es & S & Ns & Cs & _).
  rewrite Eb, Es in *. destruct Hbt as [Tb Pb], Hst as [Ts Ps]. cbn [mbind res_bind]. apply sat_ok.
  rewrite Nb in Cb. rewrite Ns in Cs. specialize (Cb 0%nat ltac:(lia)). specialize (Cs 0%nat ltac:(lia)). split_and!; [|done|done].
  assert (Hpad : forall k, kv_n_pad k = 1%nat -> pow2 (Z.max (Z.of_nat (kv_n_pad k)) 256)) by (intros k ->; exists 8; split; [lia|vm_compute; reflexivity]).
  split; cbn [iw_base iw_swa]; try done; [by rewrite Ts|by apply Hpad|by apply Hpad|..].
  - intros i a Hi Ha. assert (i = 0%nat) as -> by lia. rewrite Cb in Ha. by apply elem_of_replicate_inv in Ha as ->.
  - intros q p Hq. unfold kv_positions. rewrite (one_stream 256 s q S Ns Hq), Cs, seq_positions_empty. intros Hp. by apply not_elem_of_nil in Hp.
Qed.

(** Two tokens, the second one removed, and only their sequence kept. *)
Definition iswa_cmds : list (iw_cmd (E := Z)) := [IwApply first_slot first_slot (run_ubatch 0 2); IwSeq (SwRm 0 1 (-1)); IwSeq (SwKeep 0)].

Lemma iswa_superset_witness : exists m m', iswa_new false true 4 8 4 1 2 LLAMA_SWA_TYPE_STANDARD 1 0 false = Ok m /\
  mfor (iw_do Z.ltb 0 (fun _ _ _ => 0)) iswa_cmds m = Ok m' /\ superset 4 256 m'.
Proof.
  destruct (proj1 (sat_exists _ _) iswa_new_superset) as (m & Hm & S & Hb & Hs).
  assert (H256 : INT32_MAX = 2147483647) by (vm_compute; reflexivity).
  assert (P : iw_pres Z.ltb 0 (fun _ _ _ => 0) 4 256 m iswa_cmds).
  { split; [|intros m1 _; split; [apply id_ok_small; reflexivity|intros m2 _; split; [apply id_ok_small; reflexivity|exact (fun _ _ => I)]]].
    split_and!.
    - apply run_ubatch_ok; [apply S|lia|lia|lia].
    - apply run_ubatch_ok; [apply S|lia|lia|lia].
    - apply first_slot_ok; [apply S|apply S|lia|exact Hb].
    - apply first_slot_ok; [apply S|apply S|lia|exact Hs]. }
  destruct (iswa_superset Z.ltb 0 (fun _ _ _ => 0) 4 256 m iswa_cmds S P) as (m' & Hm' & S' & _).
  exists m, m'. split; [exact Hm|]. split; [exact Hm'|exact S'].
Defined.

Lemma iswa_init_batch_ok_witness : exists k m' a' r, window_cache = Ok k /\
  iswa_init_batch (Iswa true demo_cache k) demo_alloc 2 = Ok (m', a', r) /\ kv_cells (iw_base m') = kv_cells demo_cache /\ trial 6 (iw_swa m').
Proof.
  destruct (proj1 (sat_exists _ _) window_cache_trial) as (k & Hk & T & Hn).
  destruct (iswa_init_batch_ok 4 6 (Iswa true demo_cache k) demo_alloc 2) as (m' & a' & r & Hr & Hc & _ & _ & T' & _).
  - exact demo_cache_ok.
  - lia.
  - vm_compute. reflexivity.
  - exact demo_bounded.
  - exact T.
  - lia.
  - exact demo_alloc_ok.
  - apply Nat.ltb_lt. vm_compute. reflexivity.
  - apply Nat.ltb_lt. vm_compute. reflexivity.
  - intros i Hi. pose proof (demo_alloc_pos i Hi). unfold INT32_MAX. lia.
  - intros _. split; [vm_compute; reflexivity|exact Hn].
  - discriminate.
  - exists k, m', a', r. split; [exact Hk|]. split; [exact Hr|]. split; [exact Hc|exact T'].
Defined.
