(* ===== verification/Alloc.v ===== *)
(** * The memory allocator of ggml: src/ggml/src/ggml-alloc.c

    The dynamic tensor allocator ([ggml_dyn_tallocr]): it assigns to each tensor of a graph a
    place in one of up to 16 buffers ("chunks"), keeping for every chunk an array of free blocks
    sorted by address.  [size_t] arithmetic wraps at 64 bits. *)

From S2P Require Import Prelude.

Definition SIZE_HALF : Z := 9223372036854775807.
Definition INT64_MIN : Z := -9223372036854775808.

Definition MAX_FREE_BLOCKS : nat := 256.
Definition GGML_VBUFFER_MAX_CHUNKS : nat := 16.

Definition aligned_offset (buffer offset alignment : Z) : res Z :=
  _ ← assert_ (negb (alignment =? 0) && (Z.land alignment (alignment - 1) =? 0));
  let align := (alignment - usize (buffer + offset) mod alignment) mod alignment in
  Ok (usize (offset + align)).

Record buffer_address : Type := mk_addr { ad_chunk : Z; ad_offset : Z }.

Record free_block : Type := mk_block { fb_offset : Z; fb_size : Z }.

(** [free_blocks] always has [MAX_FREE_BLOCKS] entries. *)
Record tallocr_chunk : Type := mk_chunk {
  tc_free_blocks   : list free_block;
  tc_n_free_blocks : nat;
  tc_max_size      : Z
}.

(** The chunks in use; their number is [n_chunks]. *)
Record ggml_dyn_tallocr : Type := mk_tallocr {
  da_alignment      : Z;
  da_max_chunk_size : Z;
  da_chunks         : list tallocr_chunk
}.

Definition with_blocks (bs : list free_block) (n : nat) (c : tallocr_chunk) : tallocr_chunk := mk_chunk bs n (tc_max_size c).
Definition with_chunks (cs : list tallocr_chunk) (a : ggml_dyn_tallocr) : ggml_dyn_tallocr :=
  mk_tallocr (da_alignment a) (da_max_chunk_size a) cs.

(** ** The array of free blocks *)

(** [while (insert_pos < n_free_blocks && free_blocks\[insert_pos\].offset < offset)] *)
Fixpoint insert_pos (bs : list free_block) (n : nat) (offset : Z) {struct n} : nat :=
  match n, bs with
  | S n, b :: bs => if fb_offset b <? offset then S (insert_pos bs n offset) else O
  | _, _ => O
  end.

Definition ggml_dyn_tallocr_insert_block (c : tallocr_chunk) (offset size : Z) : res tallocr_chunk :=
  let n := tc_n_free_blocks c in
  _ ← assert_ (n <? MAX_FREE_BLOCKS)%nat;
  let pos := insert_pos (tc_free_blocks c) n offset in
  bs ← mfor (fun bs i => b ← vec_get bs (i - 1); vec_set bs i b) (rev (seq (S pos) (n - pos))) (tc_free_blocks c);
  bs ← vec_set bs pos (mk_block offset size);
  Ok (with_blocks bs (S n) c).

Definition ggml_dyn_tallocr_remove_block (c : tallocr_chunk) (idx : nat) : res tallocr_chunk :=
  let n := tc_n_free_blocks c in
  bs ← mfor (fun bs i => b ← vec_get bs (S i); vec_set bs i b) (seq idx (n - idx)) (tc_free_blocks c);
  Ok (with_blocks bs (n - 1) c).

Definition block_set (c : tallocr_chunk) (i : nat) (b : free_block) : res tallocr_chunk :=
  bs ← vec_set (tc_free_blocks c) i b; Ok (with_blocks bs (tc_n_free_blocks c) c).

(** The new chunk is the last one; [None] when there are 16 already. *)
Definition ggml_dyn_tallocr_new_chunk (a : ggml_dyn_tallocr) (min_size : Z) : option ggml_dyn_tallocr :=
  let n := length (da_chunks a) in
  if (GGML_VBUFFER_MAX_CHUNKS <=? n)%nat then None else
  let size := if (n =? GGML_VBUFFER_MAX_CHUNKS - 1)%nat then SIZE_HALF else Z.max min_size (da_max_chunk_size a) in
  Some (with_chunks (da_chunks a ++ [mk_chunk (mk_block 0 size :: replicate (MAX_FREE_BLOCKS - 1) (mk_block 0 0)) 1 0]) a).

(** ** Allocation *)

(** The best fit so far: a chunk and a block; [-1] in the code is [None]. *)
Abbreviation fit := (option (nat * nat)).

(** The scan of one chunk: all blocks but the last; [best_fit_size] starts at [SIZE_MAX] in
    every chunk. *)
Definition fit_step (size : Z) (c : nat) (bs : list free_block) (st : fit * Z) (i : nat) : res (fit * Z) :=
  let '(best, best_fit_size) := st in
  b ← vec_get bs i;
  if (size <=? fb_size b) && (fb_size b <=? best_fit_size) then Ok (Some (c, i), fb_size b) else Ok st.

Definition best_fit (size : Z) (cs : list tallocr_chunk) : res fit :=
  mfor (fun best c =>
    ch ← vec_get cs c;
    '(best, _) ← mfor (fit_step size c (tc_free_blocks ch)) (seq 0 (tc_n_free_blocks ch - 1)) (best, SIZE_MAX);
    Ok best) (seq 0 (length cs)) None.

(** The scan of the last blocks: reuse a chunk that need not grow, or the one that grows least. *)
Definition reuse_step (size : Z) (cs : list tallocr_chunk) (st : fit * Z) (c : nat) : res (fit * Z) :=
  let '(best, best_reuse) := st in
  ch ← vec_get cs c;
  if (0 <? tc_n_free_blocks ch)%nat then
    b ← vec_get (tc_free_blocks ch) (tc_n_free_blocks ch - 1);
    let reuse_factor := s64 (usize (tc_max_size ch - fb_offset b - size)) in
    let better_reuse := (best_reuse <? 0) && (best_reuse <? reuse_factor) in
    let better_fit := (0 <=? reuse_factor) && (reuse_factor <? best_reuse) in
    if (size <=? fb_size b) && (better_reuse || better_fit) then Ok (Some (c, (tc_n_free_blocks ch - 1)%nat), reuse_factor) else Ok st
  else Ok st.

Definition best_last (size : Z) (cs : list tallocr_chunk) : res fit :=
  '(best, _) ← mfor (reuse_step size cs) (seq 0 (length cs)) (None, INT64_MIN); Ok best.

(** The allocator with the block to use; [GGML_ABORT] when a 17th chunk is needed. *)
Definition find_block (a : ggml_dyn_tallocr) (size : Z) : res (ggml_dyn_tallocr * (nat * nat)) :=
  best ← best_fit size (da_chunks a);
  best ← (match best with Some _ => Ok best | None => best_last size (da_chunks a) end);
  match best with
  | Some cb => Ok (a, cb)
  | None => a' ← of_option AssertFailed (ggml_dyn_tallocr_new_chunk a size); Ok (a', (length (da_chunks a), 0%nat))
  end.

(** Cut [size] bytes from the front of block [i]. *)
Definition take_front (ch : tallocr_chunk) (i : nat) (size : Z) : res (tallocr_chunk * Z) :=
  b ← vec_get (tc_free_blocks ch) i;
  let b' := mk_block (usize (fb_offset b + size)) (usize (fb_size b - size)) in
  ch ← block_set ch i b';
  ch ← (if fb_size b' =? 0 then ggml_dyn_tallocr_remove_block ch i else Ok ch);
  Ok (mk_chunk (tc_free_blocks ch) (tc_n_free_blocks ch) (Z.max (tc_max_size ch) (usize (fb_offset b + size))), fb_offset b).

Definition ggml_dyn_tallocr_alloc (a : ggml_dyn_tallocr) (size : Z) : res (ggml_dyn_tallocr * buffer_address) :=
  size ← aligned_offset 0 size (da_alignment a);
  '(a, (c, i)) ← find_block a size;
  ch ← vec_get (da_chunks a) c;
  '(ch, offset) ← take_front ch i size;
  cs ← vec_set (da_chunks a) c ch;
  Ok (with_chunks cs a, mk_addr (Z.of_nat c) offset).

(** ** Release *)

(** The block ends where the freed bytes start. *)
Definition merge_after (ch : tallocr_chunk) (i : nat) (b : free_block) (size : Z) : res tallocr_chunk :=
  let b := mk_block (fb_offset b) (usize (fb_size b + size)) in
  ch ← block_set ch i b;
  if (S i <? tc_n_free_blocks ch)%nat then
    next ← vec_get (tc_free_blocks ch) (S i);
    if usize (fb_offset b + fb_size b) =? fb_offset next then
      ch ← block_set ch i (mk_block (fb_offset b) (usize (fb_size b + fb_size next)));
      ggml_dyn_tallocr_remove_block ch (S i)
    else Ok ch
  else Ok ch.

(** The block starts where the freed bytes end. *)
Definition merge_before (ch : tallocr_chunk) (i : nat) (b : free_block) (offset size : Z) : res tallocr_chunk :=
  let b := mk_block offset (usize (fb_size b + size)) in
  ch ← block_set ch i b;
  if (0 <? i)%nat then
    prev ← vec_get (tc_free_blocks ch) (i - 1);
    if usize (fb_offset prev + fb_size prev) =? fb_offset b then
      ch ← block_set ch (i - 1) (mk_block (fb_offset prev) (usize (fb_size prev + fb_size b)));
      ggml_dyn_tallocr_remove_block ch i
    else Ok ch
  else Ok ch.

(** The loop over the blocks from [i]; [n] are left. *)
Fixpoint free_loop (ch : tallocr_chunk) (offset size : Z) (n i : nat) : res tallocr_chunk :=
  match n with
  | O => ggml_dyn_tallocr_insert_block ch offset size
  | S n =>
      b ← vec_get (tc_free_blocks ch) i;
      if usize (fb_offset b + fb_size b) =? offset then merge_after ch i b size
      else if usize (offset + size) =? fb_offset b then merge_before ch i b offset size
      else free_loop ch offset size n (S i)
  end.

Definition ggml_dyn_tallocr_free_bytes (a : ggml_dyn_tallocr) (addr : buffer_address) (size : Z) : res ggml_dyn_tallocr :=
  size ← aligned_offset 0 size (da_alignment a);
  ch ← vec_getZ (da_chunks a) (ad_chunk addr);
  ch ← free_loop ch (ad_offset addr) size (tc_n_free_blocks ch) 0;
  cs ← vec_setZ (da_chunks a) (ad_chunk addr) ch;
  Ok (with_chunks cs a).

(** ** The rest *)

Definition ggml_dyn_tallocr_reset (a : ggml_dyn_tallocr) : ggml_dyn_tallocr := with_chunks [] a.

Definition ggml_dyn_tallocr_new (alignment max_buffer_size : Z) : ggml_dyn_tallocr :=
  ggml_dyn_tallocr_reset (mk_tallocr alignment (Z.min max_buffer_size SIZE_HALF) []).

Definition ggml_dyn_tallocr_max_size (a : ggml_dyn_tallocr) (chunk : nat) : Z :=
  match da_chunks a !! chunk with Some c => tc_max_size c | None => 0 end.

(** ** The linear allocator of one buffer ([ggml_tallocr]) *)

Record ggml_tallocr : Type := mk_linear {
  ta_base      : Z;   (* ggml_backend_buffer_get_base *)
  ta_size      : Z;   (* ggml_backend_buffer_get_size *)
  ta_alignment : Z;
  ta_offset    : Z
}.

Definition ggml_tallocr_new (base size alignment : Z) : res ggml_tallocr :=
  offset ← aligned_offset base 0 alignment; Ok (mk_linear base size alignment offset).

(** [GGML_PAD] to a power of two. *)
Definition pad_size (x n : Z) : Z := Z.land (usize (x + n - 1)) (usize (Z.lnot (n - 1))).

(** The address of the tensor, of which [alloc_size] is the size in the buffer. *)
Definition ggml_tallocr_alloc (t : ggml_tallocr) (alloc_size : Z) : res (ggml_tallocr * Z) :=
  let size := pad_size alloc_size (ta_alignment t) in
  _ ← assert_ (usize (ta_offset t + size) <=? ta_size t);
  let addr := usize (ta_base t + ta_offset t) in
  _ ← assert_ (addr mod ta_alignment t =? 0);
  Ok (mk_linear (ta_base t) (ta_size t) (ta_alignment t) (usize (ta_offset t + size)), addr).
