(* ===== verification/AllocTheory.v ===== *)
(** * The free blocks of a chunk

    The array operations as operations on the list of free blocks, and what taking and
    releasing bytes does to the set of free bytes; then the operations of
    [ggml_dyn_tallocr] on one chunk. *)

From stdpp Require Import sorting.
From S2P Require Import Prelude Alloc.

(** ** Shifting parts of an array *)

Lemma sat_shift_right {A} pos m : forall (l : list A), (pos + m < length l)%nat ->
  sat (mfor (fun l i => x ← vec_get l (i - 1); vec_set l i x) (rev (seq (S pos) m)) l) (fun l' => length l' = length l /\
    forall j, l' !! j = if decide (pos < j <= pos + m)%nat then l !! (j - 1)%nat else l !! j).
Proof.
  induction m as [|m IH]; intros l Hl.
  { apply sat_ok. split; [done|]. intros j. by rewrite decide_False by lia. }
  rewrite seq_S, rev_app_distr. cbn [rev app mfor]. replace (S pos + m - 1)%nat with (pos + m)%nat by lia.
  destruct (lookup_lt_is_Some_2 l (pos + m)) as [x Hx]; [lia|]. rewrite (proj2 (vec_get_ok _ _ _) Hx). cbn [mbind res_bind].
  apply sat_bind, sat_vec_set; [lia|]. eapply sat_mono; [apply IH; rewrite length_insert; lia|].
  intros l' [Hlen Hl']. rewrite length_insert in Hlen. split; [done|]. intros j. rewrite Hl'.
  destruct (decide (j = S pos + m)%nat) as [->|Hj].
  - rewrite decide_False, decide_True, list_lookup_insert_eq by lia. rewrite <- Hx. f_equal. lia.
  - destruct (decide (pos < j <= pos + m)%nat); [rewrite decide_True by lia|rewrite decide_False by lia]; by rewrite list_lookup_insert_ne by lia.
Qed.

Lemma sat_shift_left {A} m : forall idx (l : list A), (idx + m < length l)%nat ->
  sat (mfor (fun l i => x ← vec_get l (S i); vec_set l i x) (seq idx m) l) (fun l' => length l' = length l /\
    forall j, l' !! j = if decide (idx <= j < idx + m)%nat then l !! S j else l !! j).
Proof.
  induction m as [|m IH]; intros idx l Hl.
  { apply sat_ok. split; [done|]. intros j. by rewrite decide_False by lia. }
  cbn [seq mfor]. destruct (lookup_lt_is_Some_2 l (S idx)) as [x Hx]; [lia|]. rewrite (proj2 (vec_get_ok _ _ _) Hx). cbn [mbind res_bind].
  apply sat_bind, sat_vec_set; [lia|]. eapply sat_mono; [apply IH; rewrite length_insert; lia|].
  intros l' [Hlen Hl']. rewrite length_insert in Hlen. split; [done|]. intros j. rewrite Hl'.
  destruct (decide (j = idx)) as [->|Hj].
  - rewrite decide_False, decide_True, list_lookup_insert_eq by lia. done.
  - destruct (decide (S idx <= j < S idx + m)%nat); [rewrite decide_True by lia|rewrite decide_False by lia]; by rewrite list_lookup_insert_ne by lia.
Qed.

(** ** The list of free blocks *)

Definition blocks (ch : tallocr_chunk) : list free_block := take (tc_n_free_blocks ch) (tc_free_blocks ch).

(** An array of the declared size with [n] blocks in use. *)
Definition array_ok (ch : tallocr_chunk) : Prop :=
  length (tc_free_blocks ch) = MAX_FREE_BLOCKS /\ (tc_n_free_blocks ch <= MAX_FREE_BLOCKS)%nat.

Lemma length_blocks ch : array_ok ch -> length (blocks ch) = tc_n_free_blocks ch.
Proof. intros [H1 H2]. unfold blocks. rewrite length_take. lia. Qed.

Lemma blocks_get ch i b : array_ok ch -> blocks ch !! i = Some b -> tc_free_blocks ch !! i = Some b /\ (i < tc_n_free_blocks ch)%nat.
Proof. intros _ H. unfold blocks in H. by apply lookup_take_Some in H. Qed.

Lemma sat_block_set ch i b : array_ok ch -> (i < tc_n_free_blocks ch)%nat ->
  sat (block_set ch i b) (fun ch' => array_ok ch' /\ tc_max_size ch' = tc_max_size ch /\ tc_n_free_blocks ch' = tc_n_free_blocks ch /\ blocks ch' = <[i := b]> (blocks ch)).
Proof.
  intros [H1 H2] Hi. unfold block_set. apply sat_bind, sat_vec_set; [lia|]. apply sat_ok. unfold blocks. cbn. split_and!; [|done|done|].
  - split; cbn; [by rewrite length_insert|done].
  - by rewrite take_insert_lt.
Qed.

(** The array must not be full: the loop of [remove_block] reads one entry past the last block. *)
Lemma sat_remove_block ch i : array_ok ch -> (i < tc_n_free_blocks ch < MAX_FREE_BLOCKS)%nat ->
  sat (ggml_dyn_tallocr_remove_block ch i) (fun ch' => array_ok ch' /\ tc_max_size ch' = tc_max_size ch /\
    S (tc_n_free_blocks ch') = tc_n_free_blocks ch /\ blocks ch' = delete i (blocks ch)).
Proof.
  intros [H1 H2] [Hi Hn]. unfold ggml_dyn_tallocr_remove_block. set (n := tc_n_free_blocks ch) in *.
  eapply sat_step; [apply (sat_shift_left (n - i) i); lia|]. intros bs [Hl Hb]. apply sat_ok. unfold blocks. cbn. fold n.
  split_and!; [split; cbn; lia|done|lia|]. apply list_eq. intros j.
  destruct (Nat.lt_ge_cases j (n - 1)) as [Hj|Hj].
  - rewrite lookup_take_lt by done. rewrite Hb. destruct (Nat.lt_ge_cases j i).
    + rewrite decide_False, list_lookup_delete_lt, lookup_take_lt by lia. done.
    + rewrite decide_True, list_lookup_delete_ge, lookup_take_lt by lia. done.
  - rewrite !lookup_ge_None_2; [done| |rewrite length_take; lia]. rewrite length_delete; rewrite ?length_take; [lia|].
    apply lookup_lt_is_Some. rewrite length_take. lia.
Qed.

Lemma insert_pos_le bs n o : (insert_pos bs n o <= n)%nat.
Proof. revert bs. induction n as [|n IH]; intros bs; [done|]. destruct bs as [|b bs]; cbn; [lia|]. destruct (_ <? _); [|lia]. specialize (IH bs). lia. Qed.

Lemma insert_pos_spec bs n o j b : take n bs !! j = Some b ->
  ((j < insert_pos bs n o)%nat -> fb_offset b < o) /\ (j = insert_pos bs n o -> o <= fb_offset b).
Proof.
  revert bs j. induction n as [|n IH]; intros bs j; [done|]. destruct bs as [|x bs]; [done|]. cbn.
  destruct (Z.ltb_spec (fb_offset x) o) as [Hx|Hx]; destruct j as [|j]; cbn.
  - intros [= <-]. split; [done|lia].
  - intros Hj. destruct (IH bs j Hj) as [I1 I2]. split; intros; [apply I1; lia|apply I2; lia].
  - intros [= <-]. split; [lia|done].
  - intros Hj. split; lia.
Qed.

Lemma sat_insert_block ch o s : array_ok ch -> (tc_n_free_blocks ch < MAX_FREE_BLOCKS)%nat ->
  sat (ggml_dyn_tallocr_insert_block ch o s) (fun ch' => array_ok ch' /\ tc_max_size ch' = tc_max_size ch /\ tc_n_free_blocks ch' = S (tc_n_free_blocks ch) /\
    let pos := insert_pos (tc_free_blocks ch) (tc_n_free_blocks ch) o in
    blocks ch' = take pos (blocks ch) ++ mk_block o s :: drop pos (blocks ch)).
Proof.
  intros A Hn. pose proof (length_blocks ch A) as Hlb. destruct A as [H1 H2]. unfold ggml_dyn_tallocr_insert_block. rewrite assert_ok by by apply Nat.ltb_lt. cbn [mbind res_bind].
  set (n := tc_n_free_blocks ch) in *. pose proof (insert_pos_le (tc_free_blocks ch) n o) as Hp. set (pos := insert_pos _ _ _) in *.
  eapply sat_step; [apply (sat_shift_right pos (n - pos)); lia|]. intros bs [Hl Hb]. apply sat_bind, sat_vec_set; [lia|]. apply sat_ok.
  split_and!; [split; cbn; rewrite ?length_insert; lia|done|done|]. unfold blocks at 1. cbn [with_blocks tc_n_free_blocks tc_free_blocks]. apply list_eq. intros j.
  assert (Hbl : forall i, (i < n)%nat -> blocks ch !! i = tc_free_blocks ch !! i) by (intros i Hi; unfold blocks; fold n; by rewrite lookup_take_lt).
  destruct (Nat.lt_ge_cases j (S n)) as [Hj|Hj].
  2:{ rewrite !lookup_ge_None_2; [done| |rewrite length_take; lia]. rewrite length_app, length_take. cbn [length]. rewrite length_drop. lia. }
  rewrite lookup_take_lt by done. destruct (Nat.lt_trichotomy j pos) as [Hlt|[->|Hgt]].
  - rewrite list_lookup_insert_ne, Hb, decide_False by lia. rewrite lookup_app_l by (rewrite length_take; lia). rewrite lookup_take_lt, Hbl by lia. done.
  - rewrite list_lookup_insert_eq by lia. rewrite lookup_app_r by (rewrite length_take; lia). rewrite length_take, Nat.min_l, Nat.sub_diag by lia. done.
  - rewrite list_lookup_insert_ne, Hb, decide_True by lia. rewrite lookup_app_r by (rewrite length_take; lia). rewrite length_take, Nat.min_l by lia.
    rewrite lookup_cons_ne_0, lookup_drop, Hbl by lia. f_equal. lia.
Qed.

(** ** Sets of free bytes *)

Definition fb_end (b : free_block) : Z := fb_offset b + fb_size b.

(** Blocks in order of address, with at least one byte between them. *)
Definition gap (b b' : free_block) : Prop := fb_end b < fb_offset b'.

Definition free_at (bs : list free_block) (x : Z) : Prop := exists b, b ∈ bs /\ fb_offset b <= x < fb_end b.

Section chunk.
Context (al cap : Z).

Definition block_ok (b : free_block) : Prop := 0 <= fb_offset b /\ 0 < fb_size b /\ fb_end b <= cap /\ (al | fb_offset b).

Definition blocks_ok (bs : list free_block) : Prop := StronglySorted gap bs /\ forall b, b ∈ bs -> block_ok b.

Lemma blocks_ok_mid l1 b l2 : blocks_ok (l1 ++ b :: l2) <->
  blocks_ok l1 /\ blocks_ok l2 /\ block_ok b /\ (forall x, x ∈ l1 -> gap x b) /\ (forall y, y ∈ l2 -> gap b y) /\
  (forall x y, x ∈ l1 -> y ∈ l2 -> gap x y).
Proof.
  unfold blocks_ok. rewrite StronglySorted_app, StronglySorted_cons, Forall_forall. setoid_rewrite elem_of_app. setoid_rewrite elem_of_cons. split.
  - intros ((H1 & H2 & H3 & H4) & H5). split_and!; try naive_solver.
  - intros ((H1 & H2) & (H3 & H4) & H5 & H6 & H7 & H8). split; [split_and!|]; naive_solver.
Qed.

Lemma blocks_ok_app l1 l2 : blocks_ok l1 -> blocks_ok l2 -> (forall x y, x ∈ l1 -> y ∈ l2 -> gap x y) -> blocks_ok (l1 ++ l2).
Proof.
  intros [H1 H2] [H3 H4] H. split; [by apply StronglySorted_app|]. intros b [?|?]%elem_of_app; auto.
Qed.

Lemma free_at_app l1 l2 x : free_at (l1 ++ l2) x <-> free_at l1 x \/ free_at l2 x.
Proof. unfold free_at. setoid_rewrite elem_of_app. naive_solver. Qed.

Lemma free_at_cons b l x : free_at (b :: l) x <-> fb_offset b <= x < fb_end b \/ free_at l x.
Proof. unfold free_at. setoid_rewrite elem_of_cons. naive_solver. Qed.

Lemma free_at_nil x : free_at [] x <-> False.
Proof. unfold free_at. split; [|done]. intros (b & Hb & _). by apply not_elem_of_nil in Hb. Qed.

Lemma free_below l b x : blocks_ok l -> (forall y, y ∈ l -> gap y b) -> free_at l x -> x < fb_offset b.
Proof. intros _ H (y & Hy & Hx). specialize (H y Hy). unfold gap in H. lia. Qed.

Lemma free_above l b x : blocks_ok l -> (forall y, y ∈ l -> gap b y) -> free_at l x -> fb_end b < x.
Proof. intros _ H (y & Hy & Hx). specialize (H y Hy). unfold gap in H. lia. Qed.

(** *** Taking [s] bytes from the front of a block *)

Definition rest (b : free_block) (s : Z) : list free_block :=
  if decide (fb_size b = s) then [] else [mk_block (fb_offset b + s) (fb_size b - s)].

Lemma take_blocks l1 b l2 s : blocks_ok (l1 ++ b :: l2) -> 0 < s <= fb_size b -> (al | s) ->
  blocks_ok (l1 ++ rest b s ++ l2) /\
  forall x, free_at (l1 ++ rest b s ++ l2) x <-> free_at (l1 ++ b :: l2) x /\ ~ (fb_offset b <= x < fb_offset b + s).
Proof.
  intros (B1 & B2 & (Ho & Hs & He & Hd) & G1 & G2 & G3)%blocks_ok_mid Hr Hal. unfold fb_end in *.
  assert (Hfree : forall x, free_at l1 x -> x < fb_offset b) by (intros x; by apply free_below).
  assert (Hfree2 : forall x, free_at l2 x -> fb_offset b + fb_size b < x) by (intros x; by apply (free_above l2 b x)).
  unfold rest. case_decide as E.
  - split; [by apply blocks_ok_app|]. intros x. cbn [app]. rewrite !free_at_app, free_at_cons. unfold fb_end. specialize (Hfree x). specialize (Hfree2 x).
    split; [intros [H|H]; [specialize (Hfree H)|specialize (Hfree2 H)]; split; (tauto || lia)|intros [[H|[H|H]] H']; [tauto|lia|tauto]].
  - split.
    + cbn [app]. apply blocks_ok_mid. unfold block_ok, gap, fb_end in *. cbn [fb_offset fb_size]. split_and!; try done; try lia.
      * by apply Z.divide_add_r.
      * intros x Hx. specialize (G1 x Hx). lia.
      * intros y Hy. specialize (G2 y Hy). lia.
    + intros x. cbn [app]. rewrite !free_at_app, !free_at_cons. unfold fb_end. cbn [fb_offset fb_size]. specialize (Hfree x). specialize (Hfree2 x).
      split; [intros [H|[H|H]]; [specialize (Hfree H)|lia|specialize (Hfree2 H)]; split; (tauto || lia)|intros [[H|[H|H]] H']; [tauto|lia|tauto]].
Qed.

(** *** Releasing the bytes [\[o, o + s)], none of which is free *)

Section release.
Context (o s : Z) (Ho : 0 <= o) (Hs : 0 < s) (Hcap : o + s <= cap) (Hal : (al | o)).

Definition not_free (bs : list free_block) : Prop := forall x, o <= x < o + s -> ~ free_at bs x.

Lemma not_free_beside bs b : blocks_ok bs -> not_free bs -> b ∈ bs -> fb_end b <= o \/ o + s <= fb_offset b.
Proof using Hs.
  intros [_ Hb] Hn Hin. destruct (Hb b Hin) as (_ & Hsz & _). destruct (Z.le_gt_cases (fb_end b) o); [by left|]. right.
  destruct (Z.le_gt_cases (o + s) (fb_offset b)); [done|]. exfalso. apply (Hn (Z.max o (fb_offset b))); [unfold fb_end in *; lia|].
  exists b. split; [done|]. unfold fb_end in *. lia.
Qed.

Lemma release_after l1 b l2 : blocks_ok (l1 ++ b :: l2) -> not_free (l1 ++ b :: l2) -> fb_end b = o ->
  (forall n l2', l2 = n :: l2' -> fb_offset b + (fb_size b + s) <> fb_offset n) ->
  blocks_ok (l1 ++ mk_block (fb_offset b) (fb_size b + s) :: l2) /\
  forall x, free_at (l1 ++ mk_block (fb_offset b) (fb_size b + s) :: l2) x <-> free_at (l1 ++ b :: l2) x \/ o <= x < o + s.
Proof using Ho Hs Hcap Hal.
  intros B Hn He Hnext. pose proof B as (B1 & B2 & (Ho' & Hs' & He' & Hd) & G1 & G2 & G3)%blocks_ok_mid. unfold gap, fb_end in *. split.
  - apply blocks_ok_mid. unfold block_ok, gap, fb_end. cbn [fb_offset fb_size]. split_and!; try done; try lia.
    destruct l2 as [|n l2]; [intros y Hy; by apply not_elem_of_nil in Hy|]. specialize (Hnext n l2 eq_refl).
    destruct (not_free_beside _ n B Hn) as [H|H]; [set_solver| |].
    + specialize (G2 n ltac:(set_solver)). destruct B2 as [_ B2]. destruct (B2 n ltac:(set_solver)) as (_ & ? & _). unfold fb_end in *. lia.
    + intros y [->|Hy]%elem_of_cons; [lia|]. destruct B2 as [B2 _]. apply StronglySorted_cons in B2 as [B2 _]. rewrite Forall_forall in B2.
      specialize (B2 y Hy). unfold gap, fb_end in B2. pose proof (proj2 B) as Hb. destruct (Hb n ltac:(set_solver)) as (_ & ? & _). lia.
  - intros x. rewrite !free_at_app, !free_at_cons. unfold fb_end. cbn [fb_offset fb_size]. split; [intros [H|[H|H]]|intros [[H|[H|H]]|H]]; try tauto; lia.
Qed.

Lemma release_between l1 b n l2 : blocks_ok (l1 ++ b :: n :: l2) -> not_free (l1 ++ b :: n :: l2) -> fb_end b = o -> o + s = fb_offset n ->
  let m := mk_block (fb_offset b) (fb_size b + s + fb_size n) in
  blocks_ok (l1 ++ m :: l2) /\ forall x, free_at (l1 ++ m :: l2) x <-> free_at (l1 ++ b :: n :: l2) x \/ o <= x < o + s.
Proof using Ho Hs Hcap Hal.
  intros B Hn He Hnext m. pose proof B as (B1 & B2 & (Ho' & Hs' & He' & Hd) & G1 & G2 & G3)%blocks_ok_mid.
  pose proof B2 as [S2 K2]. apply StronglySorted_cons in S2 as [F2 S2]. rewrite Forall_forall in F2. destruct (K2 n ltac:(set_solver)) as (_ & Hn1 & Hn2 & _).
  subst m. unfold gap, fb_end in *. split.
  - apply blocks_ok_mid. unfold block_ok, gap, fb_end. cbn [fb_offset fb_size]. split_and!; try done; try lia.
    + split; [done|]. intros y Hy. apply K2. set_solver.
    + intros y Hy. specialize (F2 y Hy). lia.
    + intros x y Hx Hy. apply G3; set_solver.
  - intros x. rewrite !free_at_app, !free_at_cons. unfold fb_end. cbn [fb_offset fb_size]. split; [intros [H|[H|H]]|intros [[H|[H|[H|H]]]|H]]; try tauto; lia.
Qed.

Lemma release_before l1 b l2 : blocks_ok (l1 ++ b :: l2) -> not_free (l1 ++ b :: l2) -> o + s = fb_offset b ->
  (forall x, x ∈ l1 -> fb_end x <> o) ->
  blocks_ok (l1 ++ mk_block o (fb_size b + s) :: l2) /\
  forall x, free_at (l1 ++ mk_block o (fb_size b + s) :: l2) x <-> free_at (l1 ++ b :: l2) x \/ o <= x < o + s.
Proof using Ho Hs Hcap Hal.
  intros B Hn He Hno. pose proof B as (B1 & B2 & (Ho' & Hs' & He' & Hd) & G1 & G2 & G3)%blocks_ok_mid. unfold gap, fb_end in *. split.
  - apply blocks_ok_mid. unfold block_ok, gap, fb_end. cbn [fb_offset fb_size]. split_and!; try done; try lia.
    + intros x Hx. specialize (G1 x Hx). specialize (Hno x Hx). destruct (not_free_beside _ x B Hn) as [H|H]; [set_solver|unfold fb_end in *; lia|].
      destruct B1 as [_ B1]. destruct (B1 x Hx) as (_ & ? & _). lia.
    + intros y Hy. specialize (G2 y Hy). lia.
  - intros x. rewrite !free_at_app, !free_at_cons. unfold fb_end. cbn [fb_offset fb_size]. split; [intros [H|[H|H]]|intros [[H|[H|H]]|H]]; try tauto; lia.
Qed.

Lemma release_alone l1 l2 : blocks_ok (l1 ++ l2) -> not_free (l1 ++ l2) ->
  (forall x, x ∈ l1 -> fb_end x < o) -> (forall y, y ∈ l2 -> o + s < fb_offset y) ->
  blocks_ok (l1 ++ mk_block o s :: l2) /\ forall x, free_at (l1 ++ mk_block o s :: l2) x <-> free_at (l1 ++ l2) x \/ o <= x < o + s.
Proof using Ho Hs Hcap Hal.
  intros [S B] Hn H1 H2. apply StronglySorted_app in S as (S12 & S1 & S2). split.
  - apply blocks_ok_mid. unfold block_ok, gap, fb_end. cbn [fb_offset fb_size]. split_and!; try done; try lia.
    + split; [done|]. intros b Hb. apply B. set_solver.
    + split; [done|]. intros b Hb. apply B. set_solver.
  - intros x. rewrite !free_at_app, !free_at_cons. unfold fb_end. cbn [fb_offset fb_size]. tauto.
Qed.
End release.
End chunk.

(** * The operations of the tensor allocator on one chunk

    Taking bytes from the front of a block, and releasing bytes that are not free: each is
    exact on the set of free bytes and keeps the array of free blocks in order. *)

Lemma usize_small z : 0 <= z < 18446744073709551616 -> usize z = z.
Proof. apply Z.mod_small. Qed.

Lemma insert_middle {A} (l1 : list A) x y l2 : <[length l1 := y]> (l1 ++ x :: l2) = l1 ++ y :: l2.
Proof. induction l1 as [|z l1 IH]; [done|]. cbn. by f_equal. Qed.

Lemma lookup_split {A} (l : list A) i x : l !! i = Some x -> exists l1 l2, l = l1 ++ x :: l2 /\ length l1 = i.
Proof.
  intros H. exists (take i l), (drop (S i) l). split; [by rewrite take_drop_middle|]. rewrite length_take.
  apply lookup_lt_Some in H. lia.
Qed.

Section chunk.
Context (al cap : Z) (Hcap : cap <= SIZE_HALF).

(** The invariant of a chunk of [cap] bytes. *)
Record chunk_ok (ch : tallocr_chunk) : Prop := {
  ck_array  : array_ok ch;
  ck_blocks : blocks_ok al cap (blocks ch);
  ck_max    : 0 <= tc_max_size ch <= cap
}.

Lemma block_bounds ch i b : chunk_ok ch -> blocks ch !! i = Some b ->
  block_ok al cap b /\ tc_free_blocks ch !! i = Some b /\ (i < tc_n_free_blocks ch)%nat.
Proof.
  intros C Hb. destruct (blocks_get ch i b (ck_array _ C) Hb). split_and!; [|done|done]. apply (proj2 (ck_blocks _ C)). by eapply list_elem_of_lookup_2.
Qed.

(** ** Taking *)

Lemma sat_take_front ch i b s : chunk_ok ch -> (tc_n_free_blocks ch < MAX_FREE_BLOCKS)%nat -> blocks ch !! i = Some b ->
  0 < s <= fb_size b -> (al | s) ->
  sat (take_front ch i s) (fun r => chunk_ok r.1 /\ r.2 = fb_offset b /\ tc_max_size r.1 = Z.max (tc_max_size ch) (fb_offset b + s) /\
    (tc_n_free_blocks r.1 <= tc_n_free_blocks ch)%nat /\
    forall x, free_at (blocks r.1) x <-> free_at (blocks ch) x /\ ~ (fb_offset b <= x < fb_offset b + s)).
Proof using Hcap.
  intros C Hn Hb Hs Hal. destruct (block_bounds ch i b C Hb) as ((H1 & H2 & H3 & H4) & Hget & Hi). unfold fb_end, SIZE_HALF in *.
  unfold take_front. rewrite (proj2 (vec_get_ok _ _ _) Hget). cbn [mbind res_bind].
  rewrite (usize_small (fb_offset b + s)), (usize_small (fb_size b - s)) by lia. cbn [fb_size].
  eapply sat_step; [by apply sat_block_set; [apply C|]|]. intros ch1 (A1 & M1 & N1 & B1).
  destruct (lookup_split _ _ _ Hb) as (l1 & l2 & El & Hl1). rewrite El, <- Hl1, insert_middle in B1.
  destruct (take_blocks al cap l1 b l2 s) as [K F]; [rewrite <- El; apply C|done|done|]. rewrite <- El in F.
  eapply sat_step with (P := fun ch2 => array_ok ch2 /\ tc_max_size ch2 = tc_max_size ch /\ (tc_n_free_blocks ch2 <= tc_n_free_blocks ch)%nat /\ blocks ch2 = l1 ++ rest b s ++ l2).
  { unfold rest. destruct (Z.eqb_spec (fb_size b - s) 0) as [E|E].
    - rewrite decide_True by lia. eapply sat_mono; [apply sat_remove_block; [done|lia]|]. intros ch2 (A2 & M2 & N2 & B2).
      split_and!; [done|congruence|lia|]. by rewrite B2, B1, <- Hl1, delete_middle.
    - rewrite decide_False by lia. apply sat_ok. split_and!; [done|done|lia|done]. }
  intros ch2 (A2 & M2 & N2 & B2). apply sat_ok. cbn [fst snd]. pose proof (ck_max _ C). split_and!; [|done|by rewrite M2|done|].
  - split; [done| |cbn; rewrite M2; lia]. unfold blocks in *. cbn. by rewrite B2.
  - intros x. unfold blocks at 1. cbn. fold (blocks ch2). rewrite B2. apply F.
Qed.

(** ** Releasing *)

Section release.
Context (ch : tallocr_chunk) (C : chunk_ok ch) (Hn : (tc_n_free_blocks ch < MAX_FREE_BLOCKS)%nat).
Context (o s : Z) (Ho : 0 <= o) (Hs : 0 < s) (Hend : o + s <= cap) (Hal : (al | o)) (Hnf : not_free o s (blocks ch)).

Definition released (ch' : tallocr_chunk) : Prop :=
  chunk_ok ch' /\ tc_max_size ch' = tc_max_size ch /\ (tc_n_free_blocks ch' <= S (tc_n_free_blocks ch))%nat /\
  forall x, free_at (blocks ch') x <-> free_at (blocks ch) x \/ o <= x < o + s.

Lemma released_of ch' : array_ok ch' -> tc_max_size ch' = tc_max_size ch -> (tc_n_free_blocks ch' <= S (tc_n_free_blocks ch))%nat ->
  blocks_ok al cap (blocks ch') -> (forall x, free_at (blocks ch') x <-> free_at (blocks ch) x \/ o <= x < o + s) -> released ch'.
Proof using C. intros A M N B F. split; [|done]. split; [done|done|]. rewrite M. apply C. Qed.

Lemma sat_merge_after i b : blocks ch !! i = Some b -> fb_end b = o -> sat (merge_after ch i b s) released.
Proof using C Hn Ho Hs Hend Hal Hnf Hcap.
  intros Hb He. destruct (block_bounds ch i b C Hb) as ((H1 & H2 & H3 & H4) & _ & Hi). unfold fb_end, SIZE_HALF in *.
  destruct (lookup_split _ _ _ Hb) as (l1 & l2 & El & Hl1). pose proof (ck_blocks _ C) as Kb. rewrite El in Kb. pose proof Hnf as Hnf'. rewrite El in Hnf'.
  unfold merge_after. rewrite (usize_small (fb_size b + s)) by lia. cbn [fb_offset fb_size].
  eapply sat_step; [by apply sat_block_set; [apply C|]|]. intros ch1 (A1 & M1 & N1 & B1). rewrite El, <- Hl1, insert_middle in B1.
  assert (Hlen : tc_n_free_blocks ch1 = length (blocks ch1)) by (by rewrite length_blocks).
  assert (Hdone : (forall n l2', l2 = n :: l2' -> fb_offset b + (fb_size b + s) <> fb_offset n) -> released ch1).
  { intros Hno. destruct (release_after al cap o s Ho Hs Hend Hal l1 b l2 Kb Hnf' He Hno) as [K F].
    apply released_of; [done|done|lia|by rewrite B1|]. intros x. rewrite B1, El. apply F. }
  destruct (Nat.ltb_spec (S i) (tc_n_free_blocks ch1)) as [Hlt|Hge].
  2:{ apply sat_ok, Hdone. intros n l2' ->. rewrite Hlen, B1, length_app in Hge. cbn in Hge. lia. }
  destruct l2 as [|n l2]; [rewrite Hlen, B1, length_app in Hlt; cbn in Hlt; lia|].
  assert (Hg : blocks ch1 !! S i = Some n).
  { rewrite B1, lookup_app_r by lia. replace (S i - length l1)%nat with 1%nat by lia. done. }
  destruct (blocks_get ch1 (S i) n A1 Hg) as [Hg' _]. rewrite (proj2 (vec_get_ok _ _ _) Hg'). cbn [mbind res_bind].
  destruct (proj2 Kb n ltac:(set_solver)) as (H1' & H2' & H3' & H4'). unfold fb_end in *.
  rewrite (usize_small (fb_offset b + (fb_size b + s))) by lia. destruct (Z.eqb_spec (fb_offset b + (fb_size b + s)) (fb_offset n)) as [E|E].
  2:{ apply sat_ok, Hdone. by intros n' l2' [= <- <-]. }
  rewrite (usize_small (fb_size b + s + fb_size n)) by lia.
  eapply sat_step; [apply sat_block_set; [done|lia]|]. intros ch2 (A2 & M2 & N2 & B2). rewrite B1, <- Hl1, insert_middle in B2.
  eapply sat_mono; [apply sat_remove_block; [done|lia]|]. intros ch3 (A3 & M3 & N3 & B3).
  assert (E3 : blocks ch3 = l1 ++ mk_block (fb_offset b) (fb_size b + s + fb_size n) :: l2).
  { rewrite B3, B2, <- Hl1. change (l1 ++ ?x :: n :: l2) with (l1 ++ [x] ++ n :: l2). rewrite app_assoc.
    replace (S (length l1)) with (length (l1 ++ [mk_block (fb_offset b) (fb_size b + s + fb_size n)])) by (rewrite length_app; cbn; lia).
    by rewrite delete_middle, <- app_assoc. }
  destruct (release_between al cap o s Ho Hs Hend Hal l1 b n l2 Kb Hnf' He) as [K F]; [lia|].
  apply released_of; [done|congruence|lia|by rewrite E3|]. intros x. rewrite E3, El. apply F.
Qed.

Lemma sat_merge_before i b : blocks ch !! i = Some b -> o + s = fb_offset b ->
  (forall j x, (j < i)%nat -> blocks ch !! j = Some x -> fb_end x <> o) -> sat (merge_before ch i b o s) released.
Proof using C Hn Ho Hs Hend Hal Hnf Hcap.
  intros Hb He Hprev. destruct (block_bounds ch i b C Hb) as ((H1 & H2 & H3 & H4) & _ & Hi). unfold fb_end, SIZE_HALF in *.
  destruct (lookup_split _ _ _ Hb) as (l1 & l2 & El & Hl1). pose proof (ck_blocks _ C) as Kb. rewrite El in Kb. pose proof Hnf as Hnf'. rewrite El in Hnf'.
  unfold merge_before. rewrite (usize_small (fb_size b + s)) by lia. cbn [fb_offset fb_size].
  eapply sat_step; [by apply sat_block_set; [apply C|]|]. intros ch1 (A1 & M1 & N1 & B1). rewrite El, <- Hl1, insert_middle in B1.
  assert (Hno : forall x, x ∈ l1 -> fb_end x <> o).
  { intros x [j Hj]%list_elem_of_lookup. apply (Hprev j); [apply lookup_lt_Some in Hj; lia|]. rewrite El. by apply lookup_app_l_Some. }
  destruct (release_before al cap o s Ho Hs Hend Hal l1 b l2 Kb Hnf' He Hno) as [K F].
  assert (Hdone : released ch1) by (apply released_of; [done|done|lia|by rewrite B1|intros x; rewrite B1, El; apply F]).
  destruct (Nat.ltb_spec 0 i) as [Hlt|Hge]; [|by apply sat_ok].
  destruct (lookup_lt_is_Some_2 l1 (i - 1)) as [p Hp]; [lia|]. pose proof (list_elem_of_lookup_2 _ _ _ Hp) as Hpin.
  assert (Hg : blocks ch1 !! (i - 1)%nat = Some p) by (rewrite B1; by apply lookup_app_l_Some).
  destruct (blocks_get ch1 (i - 1) p A1 Hg) as [Hg' _]. rewrite (proj2 (vec_get_ok _ _ _) Hg'). cbn [mbind res_bind].
  destruct (proj2 Kb p ltac:(set_solver)) as (H1' & H2' & H3' & H4'). specialize (Hno p Hpin). unfold fb_end in *.
  rewrite usize_small by lia. destruct (Z.eqb_spec (fb_offset p + fb_size p) o); [done|]. by apply sat_ok.
Qed.

Lemma sat_release_alone : (forall b, b ∈ blocks ch -> fb_end b <> o /\ o + s <> fb_offset b) -> sat (ggml_dyn_tallocr_insert_block ch o s) released.
Proof using C Hn Ho Hs Hend Hal Hnf Hcap.
  intros Hno. eapply sat_mono; [by apply sat_insert_block; [apply C|]|]. intros ch' (A' & M' & N' & B').
  set (pos := insert_pos _ _ _) in *. pose proof (ck_blocks _ C) as Kb.
  assert (Hpos : forall j b, blocks ch !! j = Some b -> ((j < pos)%nat -> fb_offset b < o) /\ ((pos <= j)%nat -> o <= fb_offset b)).
  { intros j b Hj. split; [by apply (insert_pos_spec _ _ _ _ _ Hj)|]. intros Hle. destruct (decide (j = pos)) as [->|Hne]; [by apply (insert_pos_spec _ _ _ _ _ Hj)|].
    destruct (lookup_lt_is_Some_2 (blocks ch) pos) as [b0 Hb0]; [apply lookup_lt_Some in Hj; lia|].
    pose proof (proj2 (insert_pos_spec _ _ _ _ _ Hb0) eq_refl) as Hge. destruct (lookup_split _ _ _ Hb0) as (l1 & l2 & El & Hl1). rewrite El in Kb, Hj.
    destruct (proj1 (blocks_ok_mid _ _ _ _ _) Kb) as (_ & _ & (_ & Hsz & _) & _ & G & _). rewrite lookup_app_r in Hj by lia.
    replace (j - length l1)%nat with (S (j - pos - 1)) in Hj by lia. cbn in Hj. apply list_elem_of_lookup_2, G in Hj. unfold gap, fb_end in Hj. lia. }
  assert (Hsplit : take pos (blocks ch) ++ drop pos (blocks ch) = blocks ch) by apply take_drop.
  assert (K : blocks_ok al cap (blocks ch') /\ forall x, free_at (blocks ch') x <-> free_at (take pos (blocks ch) ++ drop pos (blocks ch)) x \/ o <= x < o + s).
  { rewrite B'. apply release_alone; rewrite ?Hsplit; try done.
    - intros x [j Hj]%list_elem_of_lookup. apply lookup_take_Some in Hj as [Hj Hlt]. pose proof (list_elem_of_lookup_2 _ _ _ Hj) as Hin.
      destruct (Hno x Hin) as [Hne _]. destruct (not_free_beside al cap o s Hs _ x Kb Hnf Hin); [lia|]. pose proof (proj1 (Hpos j x Hj) Hlt). lia.
    - intros y [j Hj]%list_elem_of_lookup. rewrite lookup_drop in Hj. pose proof (list_elem_of_lookup_2 _ _ _ Hj) as Hin.
      destruct (Hno y Hin) as [_ Hne]. pose proof (proj2 (Hpos _ y Hj) ltac:(lia)) as Hge. destruct (proj2 Kb y Hin) as (_ & Hsz & _).
      destruct (not_free_beside al cap o s Hs _ y Kb Hnf Hin); unfold fb_end in *; lia. }
  rewrite Hsplit in K. destruct K as [K F]. apply released_of; [done|done|lia|done|done].
Qed.

Lemma sat_free_loop n : forall i, (i + n = tc_n_free_blocks ch)%nat ->
  (forall j b, (j < i)%nat -> blocks ch !! j = Some b -> fb_end b <> o /\ o + s <> fb_offset b) -> sat (free_loop ch o s n i) released.
Proof using C Hn Ho Hs Hend Hal Hnf Hcap.
  pose proof (length_blocks ch (ck_array _ C)) as Hlen.
  induction n as [|n IH]; intros i Hi Hdone; cbn [free_loop].
  { apply sat_release_alone. intros b [j Hj]%list_elem_of_lookup. apply (Hdone j); [apply lookup_lt_Some in Hj; lia|done]. }
  destruct (lookup_lt_is_Some_2 (blocks ch) i) as [b Hb]; [lia|]. destruct (block_bounds ch i b C Hb) as ((H1 & H2 & H3 & H4) & Hget & _).
  rewrite (proj2 (vec_get_ok _ _ _) Hget). cbn [mbind res_bind]. unfold fb_end, SIZE_HALF in *. rewrite !usize_small by lia.
  destruct (Z.eqb_spec (fb_offset b + fb_size b) o) as [E1|E1]; [by apply sat_merge_after|].
  destruct (Z.eqb_spec (o + s) (fb_offset b)) as [E2|E2].
  { apply sat_merge_before; [done|done|]. intros j x Hj Hx. by apply (Hdone j x). }
  apply IH; [lia|]. intros j x Hj Hx. destruct (decide (j = i)) as [->|]; [|apply (Hdone j x); [lia|done]]. by simplify_eq.
Qed.
End release.
End chunk.
