(* ===== verification/AllocProps.v ===== *)
(** * The invariant of the tensor allocator

    Which bytes of which chunk belong to which tensor: every byte of a chunk is free or
    belongs to exactly one live region.  Allocation and release keep it. *)

From stdpp Require Import sorting.
From S2P Require Import Prelude Alloc AllocTheory.

(** ** Sizes rounded up to the alignment *)

Definition padded (al n : Z) : Z := n + (al - n mod al) mod al.

Lemma padded_eq al n : 0 < al -> padded al n = (n + al - 1) / al * al.
Proof.
  intros Hal. unfold padded. pose proof (Z.div_mod n al) as Hd. pose proof (Z.mod_pos_bound n al Hal) as Hm. set (q := n / al) in *. set (r := n mod al) in *.
  destruct (decide (r = 0)) as [->|Hr].
  - rewrite Z.sub_0_r, Z_mod_same_full. rewrite Hd by lia. replace (al * q + 0 + al - 1) with (q * al + (al - 1)) by lia.
    rewrite Z.div_add_l, (Z.div_small (al - 1)) by lia. lia.
  - rewrite (Z.mod_small (al - r)) by lia. rewrite Hd by lia. replace (al * q + r + al - 1) with ((q + 1) * al + (r - 1)) by lia.
    rewrite Z.div_add_l, (Z.div_small (r - 1)) by lia. lia.
Qed.

Lemma padded_spec al n : 0 < al -> n <= padded al n < n + al /\ (al | padded al n).
Proof.
  intros Hal. split; [unfold padded; pose proof (Z.mod_pos_bound (al - n mod al) al Hal); lia|]. rewrite padded_eq by done. apply Z.divide_factor_r.
Qed.

Lemma padded_mono al n m : 0 < al -> n <= m -> padded al n <= padded al m.
Proof. intros Hal H. rewrite !padded_eq by done. apply Z.mul_le_mono_nonneg_r; [lia|]. apply Z.div_le_mono; lia. Qed.

Lemma padded_pos al n : 0 < al -> 0 < n -> 0 < padded al n.
Proof. intros Hal H. destruct (padded_spec al n Hal). lia. Qed.

Lemma aligned_offset_ok al n : pow2 al -> 0 <= n -> padded al n <= SIZE_HALF -> aligned_offset 0 n al = Ok (padded al n).
Proof.
  intros Hal Hn Hs. pose proof (pow2_pos al Hal) as Hp. destruct (padded_spec al n Hp) as [Hb _]. unfold aligned_offset, SIZE_HALF in *. rewrite assert_ok.
  2:{ rewrite (proj2 (Z.eqb_neq al 0)) by lia. cbn. apply Z.eqb_eq. destruct Hal as (m & Hm & ->).
      replace (2 ^ m - 1) with (Z.ones m) by (rewrite Z.ones_equiv; lia). rewrite Z.land_ones by done. apply Z_mod_same_full. }
  cbn [mbind res_bind]. rewrite Z.add_0_l, (usize_small n) by lia. by rewrite usize_small by (fold (padded al n); lia).
Qed.

(** ** Live regions *)

(** A tensor of [rg_bytes] bytes; it occupies the padded size. *)
Record region : Type := mk_region { rg_chunk : nat; rg_offset : Z; rg_bytes : Z }.

Section inv.
Context (al : Z).

Definition rg_end (r : region) : Z := rg_offset r + padded al (rg_bytes r).

Definition holds_byte (r : region) (c : nat) (x : Z) : Prop := rg_chunk r = c /\ rg_offset r <= x < rg_end r.

#[export] Instance holds_byte_dec r c x : Decision (holds_byte r c x).
Proof. unfold holds_byte. apply _. Defined.

(** The live regions that hold byte [x] of chunk [c]. *)
Definition owners (live : list region) (c : nat) (x : Z) : list region := filter (fun r => holds_byte r c x) live.

Lemma owners_perm live live' c x : live ≡ₚ live' -> owners live c x ≡ₚ owners live' c x.
Proof. intros H. unfold owners. by rewrite H. Qed.

Lemma owners_nil live c x : owners live c x = [] <-> forall r, r ∈ live -> ~ holds_byte r c x.
Proof.
  unfold owners. split.
  - intros H r Hr Hh. assert (Hin : r ∈ filter (fun r => holds_byte r c x) live) by (by apply list_elem_of_filter). rewrite H in Hin. by apply not_elem_of_nil in Hin.
  - intros H. destruct (filter (fun r => holds_byte r c x) live) as [|y l] eqn:E; [done|]. exfalso.
    assert (Hy : y ∈ filter (fun r => holds_byte r c x) live) by (rewrite E; set_solver). apply list_elem_of_filter in Hy as [Hy Hin]. by apply (H y).
Qed.

(** The last chunk has the largest capacity there is. *)
Definition cap_ok (c : nat) (cap : Z) : Prop := cap <= SIZE_HALF /\ (S c = GGML_VBUFFER_MAX_CHUNKS -> cap = SIZE_HALF).

(** What is known of chunk [c]: its bytes are free or have one owner. *)
Definition chunk_inv (live : list region) (c : nat) (cap : Z) (ch : tallocr_chunk) : Prop :=
  cap_ok c cap /\ chunk_ok al cap ch /\
  forall x, 0 <= x < cap -> (length (owners live c x) <= 1)%nat /\ (free_at (blocks ch) x <-> owners live c x = []).

Definition region_ok (chunks : list tallocr_chunk) (r : region) : Prop :=
  0 < rg_bytes r /\ 0 <= rg_offset r /\ (al | rg_offset r) /\
  exists ch, chunks !! rg_chunk r = Some ch /\ rg_end r <= tc_max_size ch.
End inv.

Record alloc_inv (a : ggml_dyn_tallocr) (live : list region) : Prop := {
  ai_al     : pow2 (da_alignment a);
  ai_maxc   : 0 <= da_max_chunk_size a <= SIZE_HALF;
  ai_n      : (length (da_chunks a) <= GGML_VBUFFER_MAX_CHUNKS)%nat;
  ai_chunk  : forall c ch, da_chunks a !! c = Some ch -> exists cap, chunk_inv (da_alignment a) live c cap ch;
  ai_region : forall r, r ∈ live -> region_ok (da_alignment a) (da_chunks a) r
}.

Lemma alloc_inv_perm a live live' : live ≡ₚ live' -> alloc_inv a live -> alloc_inv a live'.
Proof.
  intros HP [H1 H2 H3 H4 H5]. split; try done.
  - intros c ch Hc. destruct (H4 c ch Hc) as (cap & Hcap & C & Hx). exists cap. split_and!; [done|done|]. intros x Hr. destruct (Hx x Hr) as [L1 L2].
    pose proof (owners_perm (da_alignment a) live live' c x HP) as Ho. rewrite <- (Permutation_length Ho), L2. split; [done|]. split; intros E; rewrite E in Ho.
    + by apply Permutation_nil.
    + apply Permutation_nil. by symmetry.
  - intros r. rewrite <- HP. apply H5.
Qed.

Lemma alloc_inv_new al max : pow2 al -> 0 <= max -> alloc_inv (ggml_dyn_tallocr_new al max) [].
Proof.
  intros Hal Hm. split; cbn; try done; [unfold SIZE_HALF; lia|lia|]. intros r Hr. by apply not_elem_of_nil in Hr.
Qed.

(** Two live regions of a chunk do not overlap. *)
Lemma live_disjoint a live i j r r' : alloc_inv a live -> i <> j -> live !! i = Some r -> live !! j = Some r' -> rg_chunk r = rg_chunk r' ->
  rg_end (da_alignment a) r <= rg_offset r' \/ rg_end (da_alignment a) r' <= rg_offset r.
Proof.
  intros I Hij Hi Hj Hc. set (al := da_alignment a). pose proof (pow2_pos _ (ai_al _ _ I)) as Hal.
  destruct (Z.le_gt_cases (rg_end al r) (rg_offset r')); [by left|]. destruct (Z.le_gt_cases (rg_end al r') (rg_offset r)); [by right|]. exfalso.
  destruct (ai_region _ _ I r) as (B1 & O1 & _ & ch & Hch & M1); [by eapply list_elem_of_lookup_2|].
  destruct (ai_region _ _ I r') as (B2 & O2 & _ & ch' & Hch' & M2); [by eapply list_elem_of_lookup_2|].
  rewrite <- Hc in Hch'. assert (ch' = ch) as -> by congruence. destruct (ai_chunk _ _ I _ ch Hch) as (cap & _ & C & Hx).
  pose proof (padded_pos al _ Hal B1). pose proof (padded_pos al _ Hal B2). pose proof (ck_max _ _ _ C). fold al in M1, M2.
  destruct (Hx (Z.max (rg_offset r) (rg_offset r'))) as [L _]; [unfold rg_end in *; lia|].
  assert (Hin : forall s, s = r \/ s = r' -> holds_byte al s (rg_chunk r) (Z.max (rg_offset r) (rg_offset r'))).
  { intros s [->| ->]; (split; [done|unfold rg_end in *; lia]). }
  destruct (decide (i < j)%nat) as [Hlt|Hlt].
  - rewrite <- (take_drop j live) in L. rewrite <- (drop_S live r' j Hj) in L || rewrite (drop_S live r' j Hj) in L. unfold owners in L. rewrite filter_app, filter_cons, decide_True, length_app in L by (apply Hin; by right).
    assert (r ∈ filter (fun s => holds_byte al s (rg_chunk r) (Z.max (rg_offset r) (rg_offset r'))) (take j live)) as Hr.
    { apply list_elem_of_filter. split; [apply Hin; by left|]. apply elem_of_take. by exists i. }
    apply list_elem_of_lookup in Hr as [k Hk%lookup_lt_Some]. fold al in L. cbn [length] in L. lia.
  - rewrite <- (take_drop i live) in L. rewrite (drop_S live r i Hi) in L. unfold owners in L. rewrite filter_app, filter_cons, decide_True, length_app in L by (apply Hin; by left).
    assert (r' ∈ filter (fun s => holds_byte al s (rg_chunk r) (Z.max (rg_offset r) (rg_offset r'))) (take i live)) as Hr.
    { apply list_elem_of_filter. split; [apply Hin; by right|]. apply elem_of_take. exists j. split; [done|lia]. }
    apply list_elem_of_lookup in Hr as [k Hk%lookup_lt_Some]. fold al in L. cbn [length] in L. lia.
Qed.

(** * What the tensor allocator guarantees

    Allocation gives bytes that no live tensor holds, inside the final size of the buffer;
    release gives back exactly those bytes; nothing is lost. *)

Lemma sorted_gap_lt l i j b b' : StronglySorted gap l -> (i < j)%nat -> l !! i = Some b -> l !! j = Some b' -> gap b b'.
Proof.
  intros HS Hij Hi Hj. rewrite <- (take_drop_middle l i b Hi) in HS. apply StronglySorted_app in HS as (_ & _ & HS).
  apply StronglySorted_cons in HS as [HS _]. rewrite Forall_forall in HS. apply HS. apply list_elem_of_lookup. exists (j - S i)%nat.
  rewrite lookup_drop. rewrite <- Hj. f_equal. lia.
Qed.

(** ** The search for a block *)

Section find.
Context (al : Z) (live : list region).

(** Block [i] of chunk [c] has [size] bytes. *)
Definition fits_block (cs : list tallocr_chunk) (size : Z) (c i : nat) : Prop :=
  exists ch b, cs !! c = Some ch /\ blocks ch !! i = Some b /\ size <= fb_size b.

Definition chunks_inv (cs : list tallocr_chunk) : Prop := forall c ch, cs !! c = Some ch -> exists cap, chunk_inv al live c cap ch.

Lemma chunk_block cs c ch i b : chunks_inv cs -> cs !! c = Some ch -> blocks ch !! i = Some b ->
  tc_free_blocks ch !! i = Some b /\ 0 <= fb_offset b /\ 0 < fb_size b /\ fb_end b <= SIZE_HALF /\ 0 <= tc_max_size ch <= SIZE_HALF.
Proof.
  intros H Hc Hb. destruct (H c ch Hc) as (cap & [Hcap Hlast] & C & _). destruct (block_bounds al cap ch i b C Hb) as ((H1 & H2 & H3 & _) & H4 & _).
  pose proof (ck_max _ _ _ C). split_and!; try done; lia.
Qed.

Lemma chunk_has cs c ch i : chunks_inv cs -> cs !! c = Some ch -> (i < tc_n_free_blocks ch)%nat -> exists b, blocks ch !! i = Some b.
Proof.
  intros H Hc Hi. destruct (H c ch Hc) as (cap & _ & C & _). apply lookup_lt_is_Some_2. rewrite length_blocks by apply C. done.
Qed.

Lemma sat_best_fit cs size : chunks_inv cs -> sat (best_fit size cs) (fun r => match r with
  | Some (c, i) => fits_block cs size c i
  | None => forall c ch i b, cs !! c = Some ch -> (S i < tc_n_free_blocks ch)%nat -> blocks ch !! i = Some b -> fb_size b < size end).
Proof.
  intros H. unfold best_fit. eapply sat_mono; [apply (sat_for _ (fun n r => match r with
    | Some (c, i) => fits_block cs size c i
    | None => forall c ch i b, (c < n)%nat -> cs !! c = Some ch -> (S i < tc_n_free_blocks ch)%nat -> blocks ch !! i = Some b -> fb_size b < size end))|].
  - intros c ch i b Hc. lia.
  - intros c best Hc Hbest. destruct (lookup_lt_is_Some_2 cs c Hc) as [ch Hch]. rewrite (proj2 (vec_get_ok _ _ _) Hch). cbn [mbind res_bind].
    eapply sat_step; [apply (sat_for _ (fun n r => match r.1 with
      | Some (c', i') => fits_block cs size c' i'
      | None => best = None /\ r.2 = SIZE_MAX /\ forall i b, (i < n)%nat -> blocks ch !! i = Some b -> fb_size b < size end))|].
    + cbn. destruct best as [[c' i']|]; [done|]. split_and!; [done|done|]. lia.
    + intros i [best' bfs] Hi Hb. destruct (chunk_has cs c ch i H Hch) as [b Hbl]; [lia|]. destruct (chunk_block cs c ch i b H Hch Hbl) as (Hg & H1 & H2 & H3 & _).
      unfold fit_step. rewrite (proj2 (vec_get_ok _ _ _) Hg). cbn [mbind res_bind]. destruct (_ && _) eqn:E; apply sat_ok; cbn [fst snd] in *.
      * exists ch, b. split_and!; [done|done|lia].
      * destruct best' as [[c' i']|]; [done|]. destruct Hb as (Hn & -> & Hb). split_and!; [done|done|]. intros j x Hj Hx.
        destruct (decide (j = i)) as [->|]; [|apply (Hb j); [lia|done]]. assert (x = b) as -> by congruence. unfold fb_end, SIZE_HALF, SIZE_MAX in *. lia.
    + intros [best' bfs] Hb. apply sat_ok. cbn [fst snd] in *. destruct best' as [[c' i']|]; [done|]. destruct Hb as (-> & _ & Hb).
      intros c' ch' i b Hc' Hch' Hi Hbl. destruct (decide (c' = c)) as [->|]; [|by apply (Hbest c' ch' i); [lia|..]].
      assert (ch' = ch) as -> by congruence. apply (Hb i); [lia|done].
  - intros [[c i]|]; [done|]. intros Hb c ch i b Hc. apply (Hb c ch i b); [by apply lookup_lt_Some in Hc|done].
Qed.

Lemma sat_best_last cs size : chunks_inv cs -> 0 < size -> sat (best_last size cs) (fun r => match r with
  | Some (c, i) => fits_block cs size c i
  | None => forall c ch i b, cs !! c = Some ch -> S i = tc_n_free_blocks ch -> blocks ch !! i = Some b -> fb_size b < size end).
Proof.
  intros H Hsize. unfold best_last. eapply sat_step; [apply (sat_for _ (fun n r => match r.1 with
    | Some (c, i) => fits_block cs size c i
    | None => r.2 = INT64_MIN /\ forall c ch i b, (c < n)%nat -> cs !! c = Some ch -> S i = tc_n_free_blocks ch -> blocks ch !! i = Some b -> fb_size b < size end))|].
  - cbn. split; [done|lia].
  - intros c [best br] Hc Hbest. destruct (lookup_lt_is_Some_2 cs c Hc) as [ch Hch]. unfold reuse_step. rewrite (proj2 (vec_get_ok _ _ _) Hch). cbn [mbind res_bind].
    destruct (Nat.ltb_spec 0 (tc_n_free_blocks ch)) as [Hn|Hn].
    2:{ apply sat_ok. cbn [fst snd] in *. destruct best as [[c' i']|]; [done|]. destruct Hbest as [-> Hb]. split; [done|]. intros c' ch' i b Hc' Hch' Hi.
        destruct (decide (c' = c)) as [->|]; [|apply (Hb c'); [lia|done|done]]. assert (ch' = ch) as -> by congruence. lia. }
    destruct (chunk_has cs c ch (tc_n_free_blocks ch - 1) H Hch) as [b Hbl]; [lia|]. destruct (chunk_block cs c ch _ b H Hch Hbl) as (Hg & H1 & H2 & H3 & H4).
    rewrite (proj2 (vec_get_ok _ _ _) Hg). cbn [mbind res_bind]. cbv zeta. destruct (_ && _) eqn:E; apply sat_ok; cbn [fst snd] in *.
    { apply andb_true_iff in E as [E _]. exists ch, b. split_and!; [done|done|lia]. }
    destruct best as [[c' i']|]; [done|]. destruct Hbest as [-> Hb]. split; [done|]. intros c' ch' i b' Hc' Hch' Hi Hbl'.
    destruct (decide (c' = c)) as [->|]; [|apply (Hb c' ch' i); [lia|done|done|done]]. assert (ch' = ch) as -> by congruence.
    assert (i = tc_n_free_blocks ch - 1)%nat as -> by lia. assert (b' = b) as -> by congruence.
    destruct (Z.leb_spec size (fb_size b)) as [Hle|]; [|done]. exfalso. cbn [andb] in E.
    assert (Hrf : INT64_MIN < s64 (usize (tc_max_size ch - fb_offset b - size))).
    { unfold s64, usize, INT64_MIN, fb_end, SIZE_HALF in *. set (t := tc_max_size ch - fb_offset b - size) in *.
      assert (Ht : -9223372036854775808 < t < 9223372036854775808) by lia.
      rewrite Zplus_mod_idemp_l. rewrite Z.mod_small by lia. lia. }
    apply Z.ltb_lt in Hrf. rewrite Hrf in E. cbn in E. discriminate E.
  - intros [[[c i]|] br]; cbn [fst snd]; intros Hb; apply sat_ok; [done|]. destruct Hb as [_ Hb]. intros c ch i b Hc. apply (Hb c ch i b); [by apply lookup_lt_Some in Hc|done].
Qed.
End find.

(** No block of any chunk has [size] bytes. *)
Definition no_fit (cs : list tallocr_chunk) (size : Z) : Prop := forall ch b, ch ∈ cs -> b ∈ blocks ch -> fb_size b < size.

Lemma owners_new_chunk a live c x : alloc_inv a live -> (length (da_chunks a) <= c)%nat -> owners (da_alignment a) live c x = [].
Proof.
  intros I Hc. apply owners_nil. intros r Hr [Hrc _]. destruct (ai_region _ _ I r Hr) as (_ & _ & _ & ch & Hch & _). apply lookup_lt_Some in Hch. lia.
Qed.

(** A new chunk has nothing in it. *)
Lemma new_chunk_inv a live size a' : alloc_inv a live -> 0 < size <= SIZE_HALF -> ggml_dyn_tallocr_new_chunk a size = Some a' ->
  alloc_inv a' live /\ exists ch b, da_chunks a' = da_chunks a ++ [ch] /\ blocks ch = [b] /\ tc_n_free_blocks ch = 1%nat /\ tc_max_size ch = 0 /\ size <= fb_size b.
Proof.
  intros I Hs. unfold ggml_dyn_tallocr_new_chunk. destruct (Nat.leb_spec GGML_VBUFFER_MAX_CHUNKS (length (da_chunks a))) as [|Hn]; [done|].
  set (sz := if (_ =? _)%nat then _ else _). intros [= <-]. assert (Hsz : size <= sz <= SIZE_HALF).
  { pose proof (ai_maxc _ _ I). subst sz. destruct (_ =? _)%nat; lia. }
  split; [|by eexists _, _; split_and!; [reflexivity|reflexivity|reflexivity|reflexivity|cbn; lia]].
  set (ch := mk_chunk _ _ _). assert (Hbl : blocks ch = [mk_block 0 sz]) by reflexivity.
  destruct I as [I1 I2 I3 I4 I5]. split; cbn [with_chunks da_alignment da_max_chunk_size da_chunks]; try done.
  - rewrite length_app. cbn. lia.
  - intros c ch' Hc. apply lookup_app_Some in Hc as [Hc|[Hge Hc]]; [by apply I4|].
    apply list_lookup_singleton_Some in Hc as [Hc <-]. exists sz. split_and!.
    + split; [lia|]. intros Hlast. subst sz. rewrite (proj2 (Nat.eqb_eq (length (da_chunks a)) _)); [done|lia].
    + split; [|rewrite Hbl|cbn; lia].
      * split; [|unfold MAX_FREE_BLOCKS; cbn; lia]. reflexivity.
      * split; [repeat constructor|]. intros b ->%list_elem_of_singleton. unfold block_ok, fb_end. cbn. split_and!; [lia|lia|lia|apply Z.divide_0_r].
    + intros x Hx. assert (Ho : owners (da_alignment a) live c x = []) by (by apply (owners_new_chunk a live c x); [split|]). rewrite Ho, Hbl. split; [cbn; lia|].
      split; [done|]. intros _. exists (mk_block 0 sz). split; [by apply list_elem_of_singleton|]. unfold fb_end. cbn. lia.
  - intros r Hr. destruct (I5 r Hr) as (H1 & H2 & H3 & ch' & Hch & H4). split_and!; try done. exists ch'. split; [by apply lookup_app_l_Some|done].
Qed.

Abbreviation max_size := ggml_dyn_tallocr_max_size.

Lemma max_size_app a ch c : tc_max_size ch = 0 -> max_size (with_chunks (da_chunks a ++ [ch]) a) c = max_size a c.
Proof.
  intros H. unfold max_size. cbn [with_chunks da_chunks]. destruct (Nat.lt_trichotomy c (length (da_chunks a))) as [Hc|[->|Hc]].
  - by rewrite lookup_app_l.
  - rewrite list_lookup_middle by done. by rewrite (lookup_ge_None_2 (da_chunks a)) by lia.
  - rewrite !lookup_ge_None_2; [done|lia|rewrite length_app; cbn; lia].
Qed.

Lemma max_size_insert a c ch ch' d : da_chunks a !! c = Some ch -> max_size (with_chunks (<[c := ch']> (da_chunks a)) a) d = if decide (d = c) then tc_max_size ch' else max_size a d.
Proof.
  intros H. unfold max_size. cbn [with_chunks da_chunks]. case_decide as E; [|by rewrite list_lookup_insert_ne]. subst d. rewrite list_lookup_insert_eq; [done|]. by eapply lookup_lt_Some.
Qed.

(** The array of free blocks of no chunk is full. *)
Definition room (a : ggml_dyn_tallocr) : Prop := forall ch, ch ∈ da_chunks a -> (tc_n_free_blocks ch < MAX_FREE_BLOCKS)%nat.

Lemma find_block_ok a live size : alloc_inv a live -> 0 < size <= SIZE_HALF -> room a ->
  (exists a' c i, find_block a size = Ok (a', (c, i)) /\ alloc_inv a' live /\ da_alignment a' = da_alignment a /\ room a' /\ (forall c, max_size a' c = max_size a c) /\ fits_block (da_chunks a') size c i) \/
  (find_block a size = Err AssertFailed /\ length (da_chunks a) = GGML_VBUFFER_MAX_CHUNKS /\ no_fit (da_chunks a) size).
Proof.
  intros I Hs R. pose proof (ai_chunk _ _ I) as HC. unfold find_block.
  destruct (proj1 (sat_exists _ _) (sat_best_fit (da_alignment a) live (da_chunks a) size HC)) as ([[c i]|] & Hb & Hfit); rewrite Hb; cbn [mbind res_bind].
  { left. exists a, c, i. by split_and!. }
  destruct (proj1 (sat_exists _ _) (sat_best_last (da_alignment a) live (da_chunks a) size HC (proj1 Hs))) as ([[c i]|] & Hl & Hlast); rewrite Hl; cbn [mbind res_bind].
  { left. exists a, c, i. by split_and!. }
  destruct (ggml_dyn_tallocr_new_chunk a size) as [a'|] eqn:En; cbn [of_option mbind res_bind].
  - left. destruct (new_chunk_inv a live size a' I Hs En) as (I' & ch & b & Ec & Eb & En1 & Em & Hsz). exists a', (length (da_chunks a)), 0%nat.
    split_and!; try done.
    + unfold ggml_dyn_tallocr_new_chunk in En. destruct (_ <=? _)%nat; [done|]. by injection En as <-.
    + intros ch' Hin. rewrite Ec in Hin. apply elem_of_app in Hin as [Hin| ->%list_elem_of_singleton]; [by apply R|]. rewrite En1. unfold MAX_FREE_BLOCKS. lia.
    + intros c. unfold ggml_dyn_tallocr_new_chunk in En. destruct (_ <=? _)%nat; [done|]. injection En as <-. by apply max_size_app.
    + exists ch, b. rewrite Ec, Eb. split_and!; [by apply list_lookup_middle|done|done].
  - right. unfold ggml_dyn_tallocr_new_chunk in En. destruct (Nat.leb_spec GGML_VBUFFER_MAX_CHUNKS (length (da_chunks a))) as [Hge|]; [|done].
    pose proof (ai_n _ _ I). split_and!; [done|lia|]. intros ch b [c Hc]%list_elem_of_lookup [i Hi]%list_elem_of_lookup.
    destruct (HC c ch Hc) as (cap & _ & C & _). pose proof (length_blocks ch (ck_array _ _ _ C)) as Hlen. pose proof (lookup_lt_Some _ _ _ Hi).
    destruct (decide (S i = tc_n_free_blocks ch)%nat); [by apply (Hlast c ch i b)|]. apply (Hfit c ch i b); [done|lia|done].
Qed.

(** ** Allocation *)

Lemma owners_cons al r live c x : owners al (r :: live) c x = if decide (holds_byte al r c x) then r :: owners al live c x else owners al live c x.
Proof. unfold owners. rewrite filter_cons. done. Qed.

(** Chunk [c] is replaced by one whose maximum is not smaller. *)
Lemma region_ok_insert al cs c ch ch' r : cs !! c = Some ch -> tc_max_size ch <= tc_max_size ch' -> region_ok al cs r -> region_ok al (<[c := ch']> cs) r.
Proof.
  intros Hc Hm (H1 & H2 & H3 & chr & Hr & H4). split_and!; try done. destruct (decide (rg_chunk r = c)) as [Heq|Hne].
  - rewrite Heq in *. exists ch'. rewrite list_lookup_insert_eq by by eapply lookup_lt_Some. split; [done|]. assert (chr = ch) as -> by congruence. lia.
  - exists chr. by rewrite list_lookup_insert_ne.
Qed.

(** The last free block of a chunk starts no later than the chunk's maximum. *)
Lemma block_below_max a live c ch b : alloc_inv a live -> da_chunks a !! c = Some ch -> b ∈ blocks ch -> fb_offset b <= tc_max_size ch.
Proof.
  intros I Hc Hb. destruct (ai_chunk _ _ I c ch Hc) as (cap & _ & C & Hx). pose proof (ck_max _ _ _ C). destruct (ck_blocks _ _ _ C) as [HS HB].
  destruct (HB b Hb) as (H1 & H2 & H3 & _). destruct (Z.le_gt_cases (fb_offset b) (tc_max_size ch)) as [|Hgt]; [done|]. exfalso.
  destruct (Hx (fb_offset b - 1)) as [_ L]; [unfold fb_end in *; lia|]. destruct (proj2 L) as (y & Hy & Hin).
  { apply owners_nil. intros r Hr [Er Hin]. destruct (ai_region _ _ I r Hr) as (_ & _ & _ & ch' & Hch' & Hm). rewrite Er in Hch'. assert (ch' = ch) as -> by congruence. lia. }
  apply list_elem_of_lookup in Hb as [i Hi], Hy as [j Hj]. destruct (HB y (list_elem_of_lookup_2 _ _ _ Hj)) as (_ & Y & _). destruct (Nat.lt_trichotomy i j) as [Hl|[->|Hl]].
  - pose proof (sorted_gap_lt _ i j b y HS Hl Hi Hj) as G. unfold gap, fb_end in *. lia.
  - assert (y = b) as -> by congruence. lia.
  - pose proof (sorted_gap_lt _ j i y b HS Hl Hj Hi) as G. unfold gap, fb_end in *. lia.
Qed.

(** [alloc] returns a new region, or aborts when 16 chunks are in use and no block fits. *)
Lemma alloc_cases a live n : alloc_inv a live -> 0 < n -> padded (da_alignment a) n <= SIZE_HALF -> room a ->
  (exists a' c o, ggml_dyn_tallocr_alloc a n = Ok (a', mk_addr (Z.of_nat c) o) /\ alloc_inv a' (mk_region c o n :: live) /\ da_alignment a' = da_alignment a /\
    forall d, max_size a d <= max_size a' d <= max_size a d + padded (da_alignment a) n) \/
  (ggml_dyn_tallocr_alloc a n = Err AssertFailed /\ length (da_chunks a) = GGML_VBUFFER_MAX_CHUNKS /\ no_fit (da_chunks a) (padded (da_alignment a) n)).
Proof.
  intros I Hn Hp R. pose proof (pow2_pos _ (ai_al _ _ I)) as Hal. pose proof (padded_pos _ n Hal Hn) as Hpos. destruct (padded_spec _ n Hal) as [_ Hdiv].
  set (s := padded (da_alignment a) n) in *. unfold ggml_dyn_tallocr_alloc. rewrite aligned_offset_ok by (done || apply I || lia). fold s. cbn [mbind res_bind].
  destruct (find_block_ok a live s I ltac:(lia) R) as [(a1 & c & i & Hf & I1 & Eal & R1 & Hmx & ch & b & Hc & Hb & Hsz)|(Hf & Hno)]; rewrite Hf; cbn [mbind res_bind]; [left|by right].
  rewrite (proj2 (vec_get_ok _ _ _) Hc). cbn [mbind res_bind]. destruct (ai_chunk _ _ I1 c ch Hc) as (cap & [Hcap Hlast] & C & Hx). rewrite Eal in *.
  destruct (proj1 (sat_exists _ _) (sat_take_front _ cap Hcap ch i b s C (R1 ch (list_elem_of_lookup_2 _ _ _ Hc)) Hb ltac:(lia) Hdiv)) as ([ch' o] & Ht & C' & Eo & Hmax & _ & Hfree).
  cbn [fst snd] in *. subst o. rewrite Ht. cbn [mbind res_bind fst snd]. unfold vec_set. rewrite decide_True by by eapply lookup_lt_Some. cbn [mbind res_bind].
  exists (with_chunks (<[c := ch']> (da_chunks a1)) a1), c, (fb_offset b). split; [done|]. split; [|split; [done|]].
  2:{ pose proof (block_below_max a1 live c ch b I1 Hc (list_elem_of_lookup_2 _ _ _ Hb)). intros d. fold s. rewrite (max_size_insert a1 c ch) by done. rewrite <- Hmx.
      case_decide as Ed; [|lia]. subst d. unfold max_size. rewrite Hc, Hmax. lia. }
  destruct (block_bounds _ cap ch i b C Hb) as ((Hb0 & _ & Hbe & Hbd) & _ & _). unfold fb_end in Hbe. set (r := mk_region c (fb_offset b) n).
  assert (Hown : forall x, holds_byte (da_alignment a) r c x <-> fb_offset b <= x < fb_offset b + s) by (intros x; unfold holds_byte, rg_end; cbn; fold s; tauto).
  destruct I1 as [J1 J2 J3 J4 J5]. split; cbn [with_chunks da_alignment da_max_chunk_size da_chunks]; rewrite ?Eal in *; try done.
  - by rewrite length_insert.
  - intros c' ch2 Hc'. apply list_lookup_insert_Some in Hc' as [(<- & <- & _)|[Hne Hc']].
    + exists cap. split_and!; [done|done|]. intros x Hr. destruct (Hx x Hr) as [L1 L2]. rewrite Hfree, owners_cons.
      destruct (decide (holds_byte (da_alignment a) r c x)) as [Hh|Hh]; rewrite Hown in Hh.
      * assert (Hxf : free_at (blocks ch) x) by (exists b; split; [by eapply list_elem_of_lookup_2|unfold fb_end; lia]).
        apply L2 in Hxf as E. rewrite E. split; [cbn; lia|]. split; [tauto|done].
      * split; [done|]. rewrite <- L2. tauto.
    + destruct (J4 c' ch2 Hc') as (cap' & [Hcap' Hlast'] & C2 & Hx2). exists cap'. split_and!; [done|done|]. intros x Hr. rewrite owners_cons, decide_False; [by apply Hx2|].
      intros [Hrc _]. cbn in Hrc. congruence.
  - intros r' [->|Hr']%elem_of_cons.
    + subst r. split_and!; cbn [rg_bytes rg_offset rg_chunk]; [done|done|done|]. exists ch'. rewrite list_lookup_insert_eq by by eapply lookup_lt_Some.
      split; [done|]. unfold rg_end. cbn. fold s. lia.
    + apply (region_ok_insert _ _ _ ch); [done|lia|]. by apply J5.
Qed.

(** When 16 chunks are in use and nothing fits, the last chunk has grown to nearly half of the address space. *)
Lemma full_chunks_grown a live n : alloc_inv a live -> 0 < n -> length (da_chunks a) = GGML_VBUFFER_MAX_CHUNKS ->
  no_fit (da_chunks a) (padded (da_alignment a) n) -> SIZE_HALF < max_size a (GGML_VBUFFER_MAX_CHUNKS - 1) + padded (da_alignment a) n.
Proof.
  intros I Hn Hl Hno. pose proof (padded_pos _ n (pow2_pos _ (ai_al _ _ I)) Hn) as Hp. destruct (lookup_lt_is_Some_2 (da_chunks a) 15) as [ch Hc]; [rewrite Hl; unfold GGML_VBUFFER_MAX_CHUNKS; lia|].
  change (GGML_VBUFFER_MAX_CHUNKS - 1)%nat with 15%nat. unfold max_size. rewrite Hc. destruct (ai_chunk _ _ I _ _ Hc) as (cap & [Hcap Hlast] & C & Hx). rewrite (Hlast eq_refl) in *.
  destruct (Z.le_gt_cases (tc_max_size ch + padded (da_alignment a) n) SIZE_HALF) as [Hle|]; [|done]. exfalso. pose proof (ck_max _ _ _ C).
  destruct (Hx (SIZE_HALF - 1)) as [_ L]; [lia|]. destruct (proj2 L) as (b & Hb & Hin).
  { apply owners_nil. intros r Hr [Er Hin]. destruct (ai_region _ _ I r Hr) as (_ & _ & _ & ch' & Hch' & Hm). rewrite Er in Hch'. assert (ch' = ch) as -> by congruence. lia. }
  pose proof (block_below_max a live 15 ch b I Hc Hb). pose proof (Hno ch b (list_elem_of_lookup_2 _ _ _ Hc) Hb). unfold fb_end in Hin. lia.
Qed.

Lemma alloc_ok a live n : alloc_inv a live -> 0 < n -> (forall c, max_size a c + padded (da_alignment a) n <= SIZE_HALF) -> room a ->
  exists a' c o, ggml_dyn_tallocr_alloc a n = Ok (a', mk_addr (Z.of_nat c) o) /\ alloc_inv a' (mk_region c o n :: live) /\ da_alignment a' = da_alignment a /\
    forall d, max_size a d <= max_size a' d <= max_size a d + padded (da_alignment a) n.
Proof.
  intros I Hn Hm R. assert (Hp : padded (da_alignment a) n <= SIZE_HALF).
  { specialize (Hm (length (da_chunks a))). unfold max_size in Hm. rewrite lookup_ge_None_2 in Hm by lia. lia. }
  destruct (alloc_cases a live n I Hn Hp R) as [H|(_ & Hl & Hno)]; [done|]. pose proof (full_chunks_grown a live n I Hn Hl Hno). specialize (Hm (GGML_VBUFFER_MAX_CHUNKS - 1)%nat). lia.
Qed.

(** ** Release *)

(** [free_bytes] gives back the end of a live region, or all of it. *)
Lemma release_cases a live r keep n : alloc_inv a (r :: live) -> room a -> 0 <= keep < rg_bytes r -> 0 < n ->
  let al := da_alignment a in let k := if decide (keep = 0) then 0 else padded al keep in
  padded al n = padded al (rg_bytes r) - k ->
  exists a', ggml_dyn_tallocr_free_bytes a (mk_addr (Z.of_nat (rg_chunk r)) (rg_offset r + k)) n = Ok a' /\
    alloc_inv a' ((if decide (keep = 0) then [] else [mk_region (rg_chunk r) (rg_offset r) keep]) ++ live) /\ da_alignment a' = al /\
    forall d, max_size a' d = max_size a d.
Proof.
  intros I R Hk Hn al k Hs. pose proof (pow2_pos _ (ai_al _ _ I)) as Hal. fold al in Hal. destruct (ai_region _ _ I r) as (B1 & B2 & B3 & ch & Hc & B4); [set_solver|].
  fold al in B3, B4. destruct (ai_chunk _ _ I _ ch Hc) as (cap & [Hcap Hlast] & C & Hx). fold al in C, Hx. pose proof (ck_max _ _ _ C) as Hmax.
  pose proof (padded_pos al n Hal Hn) as Hpos. assert (Hk' : 0 <= k /\ (al | k)).
  { subst k. case_decide; [split; [lia|apply Z.divide_0_r]|]. destruct (padded_spec al keep Hal). split; [lia|done]. }
  destruct Hk' as [Hk0 Hkd]. set (s := padded al n) in *. set (o := rg_offset r + k). unfold rg_end in B4.
  assert (Hrange : 0 <= o /\ o + s <= cap) by (subst o; lia). destruct Hrange as [Ho Hos].
  assert (Hod : (al | o)) by (by apply Z.divide_add_r).
  unfold ggml_dyn_tallocr_free_bytes. rewrite aligned_offset_ok by (apply I || lia || (fold al s; lia)). fold al s. cbn [mbind res_bind ad_chunk ad_offset].
  unfold vec_getZ, vec_setZ. rewrite (proj2 (Z.leb_le 0 _)) by lia. rewrite Nat2Z.id, (proj2 (vec_get_ok _ _ _) Hc). cbn [mbind res_bind].
  assert (Hmine : forall x, o <= x < o + s -> holds_byte al r (rg_chunk r) x) by (intros x Hr; split; [done|unfold rg_end; subst o; lia]).
  assert (Hnf : not_free o s (blocks ch)).
  { intros x Hr Hf. destruct (Hx x) as [_ L2]; [lia|]. apply L2 in Hf. rewrite owners_nil in Hf. apply (Hf r); [set_solver|by apply Hmine]. }
  destruct (proj1 (sat_exists _ _) (sat_free_loop al cap Hcap ch C (R ch (list_elem_of_lookup_2 _ _ _ Hc)) o s Ho Hpos Hos Hod Hnf (tc_n_free_blocks ch) 0 ltac:(lia) ltac:(lia)))
    as (ch' & Hl & C' & Hm' & _ & Hfree).
  rewrite Hl. cbn [mbind res_bind]. unfold vec_set. rewrite decide_True by by eapply lookup_lt_Some. cbn [mbind res_bind]. eexists. split; [reflexivity|]. split; [|split; [done|]].
  2:{ intros d. rewrite (max_size_insert a _ ch) by done. case_decide as Ed; [|done]. subst d. unfold max_size. by rewrite Hc, Hm'. }
  set (kept := if decide (keep = 0) then [] else [mk_region (rg_chunk r) (rg_offset r) keep]).
  assert (Hkept : forall c x, owners al kept c x = if decide (rg_chunk r = c /\ rg_offset r <= x < o) then kept else []).
  { intros c x. subst kept o k. destruct (decide (keep = 0)) as [->|Hne]; [rewrite decide_False by lia; done|].
    rewrite owners_cons. unfold owners. rewrite filter_nil. unfold holds_byte, rg_end. cbn [rg_chunk rg_offset rg_bytes]. done. }
  assert (Hlen : (length kept <= 1)%nat) by (subst kept; case_decide; cbn; lia).
  assert (Happ : forall c x, owners al (kept ++ live) c x = owners al kept c x ++ owners al live c x) by (intros; unfold owners; by rewrite filter_app).
  destruct I as [I1 I2 I3 I4 I5]. fold al in I4, I5. split; cbn [with_chunks da_alignment da_max_chunk_size da_chunks]; fold al; try done.
  - by rewrite length_insert.
  - intros c ch2 Hc2. apply list_lookup_insert_Some in Hc2 as [(<- & <- & _)|[Hne Hc2]].
    + exists cap. split_and!; [done|done|]. intros x Hr. destruct (Hx x Hr) as [L1 L2]. rewrite Hfree, Happ, Hkept, L2. rewrite owners_cons in L1 |- *.
      destruct (decide (holds_byte al r (rg_chunk r) x)) as [Hh|Hh].
      * assert (E : owners al live (rg_chunk r) x = []) by (destruct (owners al live (rg_chunk r) x); [done|cbn in L1; lia]). rewrite E, app_nil_r.
        destruct Hh as [_ Hh]. unfold rg_end in Hh. case_decide as Hd.
        -- split; [done|]. split; [intros [?|?]; [done|lia]|]. intros Ek. exfalso. subst kept o k. destruct (decide (keep = 0)); [lia|done].
        -- split; [cbn; lia|]. split; [done|]. intros _. right. subst o. lia.
      * rewrite decide_False. { cbn [app]. split; [done|]. split; [|tauto]. intros [?|Hd]; [done|]. exfalso. by apply Hh, Hmine. }
        intros [_ Hd]. apply Hh. split; [done|]. unfold rg_end. subst o. lia.
    + destruct (I4 c ch2 Hc2) as (cap2 & [Hcap2 Hlast2] & C2 & Hx2). exists cap2. split_and!; [done|done|]. intros x Hr. specialize (Hx2 x Hr).
      rewrite Happ, Hkept, decide_False by (intros [? _]; congruence). cbn [app]. rewrite owners_cons, decide_False in Hx2 by (intros [? _]; congruence). done.
  - intros r' [Hr'|Hr']%elem_of_app.
    + subst kept. destruct (decide (keep = 0)) as [->|Hne]; [by apply not_elem_of_nil in Hr'|]. apply list_elem_of_singleton in Hr' as ->.
      split_and!; cbn [rg_bytes rg_offset rg_chunk]; [lia|done|done|]. exists ch'. rewrite list_lookup_insert_eq by by eapply lookup_lt_Some.
      split; [done|]. unfold rg_end. cbn. pose proof (padded_mono al keep (rg_bytes r) Hal ltac:(lia)). lia.
    + apply (region_ok_insert _ _ _ ch); [done|lia|]. apply I5. set_solver.
Qed.

(** *** Giving a place to a smaller tensor *)

Lemma padded_padded al n : 0 < al -> padded al (padded al n) = padded al n.
Proof.
  intros Hal. destruct (padded_spec al n Hal) as [_ [q Hq]]. unfold padded at 1. rewrite Hq. rewrite Z_mod_mult, Z.sub_0_r, Z_mod_same_full. lia.
Qed.

Lemma padded_sub al n m : 0 < al -> padded al (padded al n - padded al m) = padded al n - padded al m.
Proof.
  intros Hal. destruct (padded_spec al n Hal) as [_ [q Hq]]. destruct (padded_spec al m Hal) as [_ [p Hp]]. unfold padded at 1.
  rewrite Hq, Hp, <- Z.mul_sub_distr_r, Z_mod_mult, Z.sub_0_r, Z_mod_same_full. lia.
Qed.

(** A region that is replaced by one with the same place. *)
Lemma region_resize a r r' live : alloc_inv a (r :: live) -> 0 < rg_bytes r' -> rg_chunk r' = rg_chunk r -> rg_offset r' = rg_offset r ->
  padded (da_alignment a) (rg_bytes r') = padded (da_alignment a) (rg_bytes r) -> alloc_inv a (r' :: live).
Proof.
  intros [I1 I2 I3 I4 I5] H0 H1 H2 H3. set (al := da_alignment a) in *.
  assert (Hb : forall c x, holds_byte al r' c x <-> holds_byte al r c x) by (intros; unfold holds_byte, rg_end; by rewrite H1, H2, H3).
  split; try done.
  - intros c ch Hc. destruct (I4 c ch Hc) as (cap & [Hcap Hlast] & C & Hx). exists cap. split_and!; [done|done|]. intros x Hr. specialize (Hx x Hr). fold al in Hx |- *.
    rewrite owners_cons in Hx |- *. specialize (Hb c x). destruct (decide (holds_byte al r c x)) as [Hh|Hh], (decide (holds_byte al r' c x)) as [Hh'|Hh']; try tauto.
    destruct Hx as [L1 L2]. split; [done|]. split; [intros F; by apply L2 in F|done].
  - intros s [->|Hs]%elem_of_cons; [|apply I5; set_solver]. destruct (I5 r ltac:(set_solver)) as (B1 & B2 & B3 & ch & Hch & B4). fold al in B3, B4 |- *.
    split_and!; [done|by rewrite H2|by rewrite H2|]. exists ch. rewrite H1. split; [done|]. unfold rg_end in *. by rewrite H2, H3.
Qed.

(** The space that is not needed any more is released. *)
Lemma shrink_ok a live r n : alloc_inv a (r :: live) -> room a -> 0 < n <= rg_bytes r -> let al := da_alignment a in
  aligned_offset 0 (rg_bytes r) al = Ok (padded al (rg_bytes r)) /\ aligned_offset 0 n al = Ok (padded al n) /\
  exists a', (if padded al n <? padded al (rg_bytes r)
    then ggml_dyn_tallocr_free_bytes a (mk_addr (Z.of_nat (rg_chunk r)) (usize (rg_offset r + padded al n))) (padded al (rg_bytes r) - padded al n) else Ok a) = Ok a' /\
    alloc_inv a' (mk_region (rg_chunk r) (rg_offset r) n :: live) /\ da_alignment a' = al /\ forall d, max_size a' d = max_size a d.
Proof.
  intros I R Hn al. pose proof (pow2_pos _ (ai_al _ _ I)) as Hal. fold al in Hal. destruct (ai_region _ _ I r ltac:(set_solver)) as (B & B2 & _ & ch & Hch & B4). unfold rg_end in B4. fold al in B4.
  destruct (ai_chunk _ _ I _ _ Hch) as (cap & [Hcap _] & C & _). pose proof (ck_max _ _ _ C). unfold SIZE_HALF in Hcap.
  pose proof (padded_mono al n (rg_bytes r) Hal ltac:(lia)) as Hmono. destruct (padded_spec al n Hal) as [Hge _].
  split; [apply aligned_offset_ok; [apply I|lia|unfold SIZE_HALF; lia]|]. split; [apply aligned_offset_ok; [apply I|lia|unfold SIZE_HALF; lia]|].
  rewrite usize_small by lia. destruct (Z.ltb_spec (padded al n) (padded al (rg_bytes r))) as [Hlt|Hge'].
  - destruct (release_cases a _ r n (padded al (rg_bytes r) - padded al n) I R) as (a' & Hf & I2 & E2 & Hm).
    { split; [lia|]. destruct (Z.lt_ge_cases n (rg_bytes r)); [done|]. assert (n = rg_bytes r) by lia. subst n. lia. }
    { lia. } { rewrite decide_False by lia. by apply padded_sub. }
    rewrite decide_False in Hf by lia. rewrite decide_False in I2 by lia. by exists a'.
  - exists a. split_and!; try done. apply (region_resize a r); [done|cbn; lia|done|done|cbn; fold al; lia].
Qed.
