(* ===== verification/AllocRun.v ===== *)
(** * Runs of the tensor allocator

    Any sequence of allocations, releases and shrinkings from a new allocator. *)

From stdpp Require Import sorting finite.
From S2P Require Import Prelude Alloc AllocTheory AllocProps.

(** ** The number of free blocks *)

(** Between two free blocks there is a live region. *)
Lemma n_free_le a live c ch : alloc_inv a live -> da_chunks a !! c = Some ch -> (tc_n_free_blocks ch <= S (length live))%nat.
Proof.
  intros I Hc. destruct (ai_chunk _ _ I c ch Hc) as (cap & [Hcap Hlast] & C & Hx). set (al := da_alignment a) in *.
  pose proof (length_blocks ch (ck_array _ _ _ C)) as Hlen. destruct (Nat.le_gt_cases (tc_n_free_blocks ch) (S (length live))) as [|Hgt]; [done|]. exfalso.
  destruct (ck_blocks _ _ _ C) as [HS HB]. set (n := tc_n_free_blocks ch) in *.
  assert (Hbl : forall i, (i < n)%nat -> exists b, blocks ch !! i = Some b) by (intros i Hi; apply lookup_lt_is_Some_2; lia).
  assert (Hown : forall i b, (S i < n)%nat -> blocks ch !! i = Some b -> exists r, r ∈ live /\ holds_byte al r c (fb_end b)).
  { intros i b Hi Hb. destruct (Hbl (S i) Hi) as [b' Hb']. pose proof (sorted_gap_lt _ i (S i) b b' HS ltac:(lia) Hb Hb') as G.
    destruct (HB b' (list_elem_of_lookup_2 _ _ _ Hb')) as (_ & P' & E' & _). destruct (HB b (list_elem_of_lookup_2 _ _ _ Hb)) as (O & P & _ & _).
    unfold gap in G. destruct (Hx (fb_end b)) as [_ L]; [unfold fb_end in *; lia|]. destruct (owners al live c (fb_end b)) as [|r l] eqn:Eo.
    - exfalso. destruct (proj2 L eq_refl) as (y & [j Hj]%list_elem_of_lookup & Hy). destruct (Nat.lt_trichotomy i j) as [Hl|[->|Hl]].
      + pose proof (sorted_gap_lt _ i j b y HS Hl Hb Hj) as G'. unfold gap in G'. lia.
      + assert (y = b) as -> by congruence. lia.
      + pose proof (sorted_gap_lt _ j i y b HS Hl Hj Hb) as G'. unfold gap, fb_end in *. lia.
    - exists r. assert (Hin : r ∈ owners al live c (fb_end b)) by (rewrite Eo; set_solver). unfold owners in Hin. by apply list_elem_of_filter in Hin as [? ?]. }
  set (own := fun b => filter (fun r => holds_byte al r c (fb_end b)) live).
  assert (Hin : forall i, (S i < n)%nat -> exists b r, blocks ch !! i = Some b /\ head (own b) = Some r /\ r ∈ live /\ holds_byte al r c (fb_end b)).
  { intros i Hi. destruct (Hbl i) as [b Hb]; [lia|]. exists b. destruct (Hown i b Hi Hb) as (r & Hr & Hh). subst own. cbn beta.
    destruct (filter _ live) as [|r0 l] eqn:E; [exfalso; assert (r ∈ filter (fun r => holds_byte al r c (fb_end b)) live) as H by (by apply list_elem_of_filter); rewrite E in H; by apply not_elem_of_nil in H|].
    exists r0. assert (H : r0 ∈ filter (fun r => holds_byte al r c (fb_end b)) live) by (rewrite E; set_solver). apply list_elem_of_filter in H as [? ?]. by split_and!. }
  set (ri := fun i => match blocks ch !! i with Some b => head (own b) | None => None end).
  destruct (list_pigeonhole ((fun i => ri i) <$> seq 0 (n - 1)) (Some <$> live)) as (i & j & x & Hij & Hi & Hj).
  - intros x (i & -> & Hi)%list_elem_of_fmap. apply elem_of_seq in Hi. destruct (Hin i) as (b & r & Hb & Hh & Hr & _); [lia|].
    subst ri. cbn beta. rewrite Hb, Hh. by apply list_elem_of_fmap_2.
  - rewrite !length_fmap, length_seq. lia.
  - rewrite list_lookup_fmap_Some in Hi. destruct Hi as (i' & Ei & Hi). rewrite list_lookup_fmap_Some in Hj. destruct Hj as (j' & Ej & Hj).
    apply lookup_seq in Hi as [-> Hi]. apply lookup_seq in Hj as [-> Hj]. cbn [Nat.add] in *.
    destruct (Hin i) as (b & r & Hb & Hh & _ & [_ Hr]); [lia|]. destruct (Hin j) as (b' & r' & Hb' & Hh' & Hl' & [Hc' Hr']); [lia|].
    subst ri. cbn beta in *. rewrite Hb, Hh in Ei. rewrite Hb', Hh' in Ej. assert (r' = r) as -> by congruence.
    pose proof (sorted_gap_lt _ i j b b' HS Hij Hb Hb') as G. destruct (HB b' (list_elem_of_lookup_2 _ _ _ Hb')) as (O & P & E & _). unfold gap in G.
    destruct (Hx (fb_offset b')) as [_ L]; [unfold fb_end in *; lia|]. assert (F : free_at (blocks ch) (fb_offset b')).
    { exists b'. split; [by eapply list_elem_of_lookup_2|unfold fb_end in *; lia]. }
    apply L in F. rewrite owners_nil in F. apply (F r); [done|]. split; [done|]. unfold fb_end in *. lia.
Qed.

Lemma room_of a live : alloc_inv a live -> (length live < 255)%nat -> room a.
Proof. intros I Hl ch [c Hc]%list_elem_of_lookup. pose proof (n_free_le a live c ch I Hc). unfold MAX_FREE_BLOCKS. lia. Qed.

(** ** Commands

    What the callers do: allocate; release a tensor; give the space of a tensor to a smaller one
    that takes its place ([ggml_gallocr_free_extra_space]).  [live] is the list of the places
    handed out. *)

Inductive command : Type :=
  | CAlloc (size : Z)
  | CFree (i : nat)
  | CShrink (i : nat) (size : Z).

Definition run_command (st : ggml_dyn_tallocr * list region) (cmd : command) : res (ggml_dyn_tallocr * list region) :=
  let '(a, live) := st in
  match cmd with
  | CAlloc n => '(a, addr) ← ggml_dyn_tallocr_alloc a n; Ok (a, mk_region (Z.to_nat (ad_chunk addr)) (ad_offset addr) n :: live)
  | CFree i =>
      r ← vec_get live i;
      a ← ggml_dyn_tallocr_free_bytes a (mk_addr (Z.of_nat (rg_chunk r)) (rg_offset r)) (rg_bytes r);
      Ok (a, delete i live)
  | CShrink i n =>
      r ← vec_get live i;
      parent_size ← aligned_offset 0 (rg_bytes r) (da_alignment a);
      node_size ← aligned_offset 0 n (da_alignment a);
      a ← (if node_size <? parent_size
           then ggml_dyn_tallocr_free_bytes a (mk_addr (Z.of_nat (rg_chunk r)) (usize (rg_offset r + node_size))) (parent_size - node_size) else Ok a);
      Ok (a, mk_region (rg_chunk r) (rg_offset r) n :: delete i live)
  end.

(** Sizes that fit the address space, and at most 254 tensors at a time. *)
Definition command_ok (al : Z) (live : list region) (cmd : command) : Prop :=
  match cmd with
  | CAlloc n => 0 < n /\ padded al n <= SIZE_HALF /\ (length live < 254)%nat
  | CFree i => exists r, live !! i = Some r
  | CShrink i n => exists r, live !! i = Some r /\ 0 < n <= rg_bytes r
  end.

(** The states that commands lead to. *)
Inductive reached (al max : Z) : ggml_dyn_tallocr -> list region -> Prop :=
  | reached_new : reached al max (ggml_dyn_tallocr_new al max) []
  | reached_step a live cmd a' live' : reached al max a live -> command_ok al live cmd ->
      run_command (a, live) cmd = Ok (a', live') -> reached al max a' live'.

(** [alloc_inv] with the number of live regions that keeps the arrays of free blocks from filling up. *)
Definition good (al : Z) (a : ggml_dyn_tallocr) (live : list region) : Prop :=
  alloc_inv a live /\ da_alignment a = al /\ (length live < 255)%nat.

Lemma take_out {A} (l : list A) i x : l !! i = Some x -> l ≡ₚ x :: delete i l.
Proof. intros H. by apply delete_Permutation. Qed.

(** A command that does not stop keeps the invariant; only an allocation can stop. *)
Lemma run_command_cases al a live cmd : good al a live -> command_ok al live cmd ->
  (exists a' live', run_command (a, live) cmd = Ok (a', live') /\ good al a' live') \/
  (exists n, cmd = CAlloc n /\ run_command (a, live) cmd = Err AssertFailed /\ length (da_chunks a) = GGML_VBUFFER_MAX_CHUNKS /\ no_fit (da_chunks a) (padded al n)).
Proof.
  intros (I & Eal & Hlt) Hok. pose proof (room_of a live I Hlt) as R. pose proof (pow2_pos _ (ai_al _ _ I)) as Hal. destruct cmd as [n|i|i n]; cbn [command_ok run_command] in *.
  - destruct Hok as (Hn & Hp & Hroom). rewrite <- Eal in Hp |- *. destruct (alloc_cases a live n I Hn Hp R) as [(a' & c & o & Ha & I' & E' & _)|(Ha & Hno)]; rewrite Ha; cbn [mbind res_bind].
    + left. eexists _, _. split; [reflexivity|]. cbn [ad_chunk ad_offset]. rewrite Nat2Z.id. split_and!; [done|done|cbn; lia].
    + right. by exists n.
  - left. destruct Hok as [r Hr]. rewrite (proj2 (vec_get_ok _ _ _) Hr). cbn [mbind res_bind]. pose proof (take_out live i r Hr) as HP.
    pose proof (alloc_inv_perm a _ _ HP I) as I'. destruct (ai_region _ _ I' r ltac:(set_solver)) as (B & _).
    destruct (release_cases a _ r 0 (rg_bytes r) I' R) as (a' & Hf & I2 & E2 & _); [lia|done|rewrite decide_True by done; lia|].
    rewrite decide_True, Z.add_0_r in Hf by done. rewrite Hf. cbn [mbind res_bind]. eexists _, _. split; [reflexivity|]. rewrite decide_True in I2 by done.
    split_and!; [done|by rewrite E2|]. apply Permutation_length in HP. cbn in HP. lia.
  - left. destruct Hok as (r & Hr & Hn). rewrite (proj2 (vec_get_ok _ _ _) Hr). cbn [mbind res_bind]. pose proof (take_out live i r Hr) as HP.
    pose proof (alloc_inv_perm a _ _ HP I) as I'. destruct (shrink_ok a _ r n I' R Hn) as (E1 & E2 & a' & Hf & I2 & E3 & _).
    rewrite E1. cbn [mbind res_bind]. rewrite E2. cbn [mbind res_bind]. rewrite Hf. cbn [mbind res_bind]. eexists _, _. split; [reflexivity|].
    split_and!; [done|by rewrite E3|]. apply Permutation_length in HP. cbn in HP |- *. lia.
Qed.

Lemma reached_good al max a live : pow2 al -> 0 <= max -> reached al max a live -> good al a live.
Proof.
  intros Hal Hmax. induction 1 as [|a live cmd a' live' _ IH Hok Hrun].
  - split_and!; [by apply alloc_inv_new|done|cbn; lia].
  - destruct (run_command_cases al a live cmd IH Hok) as [(a2 & l2 & E & G)|(n & _ & E & _)]; rewrite E in Hrun; [by injection Hrun as -> ->|done].
Qed.

(** ** What is guaranteed *)

(** C37: However tensors are allocated, released and shrunk, at most 254 of them living at a time and
    each of a positive size that is at most half of the address space, the places the allocator has handed out are aligned, lie inside the final size of their chunk, and no two of them overlap. *)
Theorem tallocr_places_disjoint al max a live : pow2 al -> 0 <= max -> reached al max a live ->
  (forall r, r ∈ live -> (al | rg_offset r) /\ 0 <= rg_offset r /\ rg_offset r + rg_bytes r <= ggml_dyn_tallocr_max_size a (rg_chunk r)) /\
  (forall i j r r', i <> j -> live !! i = Some r -> live !! j = Some r' -> rg_chunk r = rg_chunk r' ->
    rg_offset r + rg_bytes r <= rg_offset r' \/ rg_offset r' + rg_bytes r' <= rg_offset r).
Proof.
  intros Hal Hmax Hr. destruct (reached_good al max a live Hal Hmax Hr) as (I & Eal & _). pose proof (pow2_pos al Hal) as Hp. rewrite <- Eal in *.
  assert (Hpad : forall r, rg_offset r + rg_bytes r <= rg_end (da_alignment a) r) by (intros r; unfold rg_end; pose proof (padded_spec _ (rg_bytes r) Hp); lia).
  split.
  - intros r Hin. destruct (ai_region _ _ I r Hin) as (H1 & H2 & H3 & ch & Hch & H4). split_and!; [done|done|]. unfold ggml_dyn_tallocr_max_size. rewrite Hch. specialize (Hpad r). lia.
  - intros i j r r' Hij Hi Hj Hc. destruct (live_disjoint a live i j r r' I Hij Hi Hj Hc); [left|right]; [specialize (Hpad r)|specialize (Hpad r')]; lia.
Qed.

(** C38: In every state that the allocator reaches while at most 254 tensors live at a time (so that the
    256 entries of an array of free blocks suffice; with more the code stops in an assertion or reads
    outside the array), each of a positive size that is at most half of the address space, releasing
    and shrinking always succeed, and an allocation succeeds unless all 16 chunks are in use, no free block of any of them is large enough and the last chunk has grown to nearly half of the address space, in which case the program is aborted. *)
Theorem tallocr_progress al max a live cmd : pow2 al -> 0 <= max -> reached al max a live -> command_ok al live cmd ->
  (exists a' live', run_command (a, live) cmd = Ok (a', live') /\ reached al max a' live') \/
  (exists n, cmd = CAlloc n /\ run_command (a, live) cmd = Err AssertFailed /\ length (da_chunks a) = GGML_VBUFFER_MAX_CHUNKS /\
    (forall ch b, ch ∈ da_chunks a -> b ∈ blocks ch -> fb_size b < padded al n) /\ SIZE_HALF < ggml_dyn_tallocr_max_size a 15 + padded al n).
Proof.
  intros Hal Hmax Hr Hok. pose proof (reached_good al max a live Hal Hmax Hr) as G. destruct (run_command_cases al a live cmd G Hok) as [(a' & live' & E & _)|(n & -> & E & Hl & Hno)].
  - left. exists a', live'. split; [done|]. by eapply reached_step.
  - right. exists n. destruct G as (I & <- & _), Hok as (Hn & _). split_and!; try done. by apply (full_chunks_grown a live n I Hn Hl).
Qed.

(** C39: Nothing is lost: after any run of allocations and releases with at most 254 live tensors at
    a time, of positive sizes whose padding stays below 2^63, in which everything has been released, each
    chunk that was ever used is a single free block again, from its first byte to its capacity, which
    is at least the size the chunk has ever needed. *)
Theorem tallocr_no_leak al max a : pow2 al -> 0 <= max -> reached al max a [] ->
  forall c ch, da_chunks a !! c = Some ch -> 0 < tc_max_size ch -> exists cap, blocks ch = [mk_block 0 cap] /\ tc_max_size ch <= cap.
Proof.
  intros Hal Hmax Hr c ch Hc Hm. destruct (reached_good al max a [] Hal Hmax Hr) as (I & Eal & _). destruct (ai_chunk _ _ I c ch Hc) as (cap & [Hcap Hlast] & C & Hx).
  exists cap. pose proof (ck_max _ _ _ C) as Hle. split; [|lia]. destruct (ck_blocks _ _ _ C) as [HS HB].
  assert (Hfree : forall x, 0 <= x < cap -> free_at (blocks ch) x) by (intros x Hx'; by apply Hx).
  destruct (blocks ch) as [|b l] eqn:E. { destruct (Hfree 0 ltac:(lia)) as (y & Hy & _). by apply not_elem_of_nil in Hy. }
  apply StronglySorted_cons in HS as [HS _]. rewrite Forall_forall in HS. destruct (HB b ltac:(set_solver)) as (H1 & H2 & H3 & _).
  assert (Hb : forall x, 0 <= x < cap -> x <= fb_end b -> fb_offset b <= x < fb_end b).
  { intros x Hr1 Hr2. destruct (Hfree x Hr1) as (y & [->|Hy]%elem_of_cons & Hy'); [done|]. specialize (HS y Hy). unfold gap in HS. lia. }
  assert (E1 : fb_offset b = 0) by (destruct (Hb 0 ltac:(lia) ltac:(unfold fb_end in *; lia)); lia).
  assert (E2 : fb_end b = cap). { destruct (Z.lt_ge_cases (fb_end b) cap); [|lia]. destruct (Hb (fb_end b) ltac:(unfold fb_end in *; lia) ltac:(lia)). lia. }
  destruct l as [|y l]. { destruct b as [o s]. unfold fb_end in E2. cbn in *. by rewrite <- E2, E1, Z.add_0_l. }
  exfalso. specialize (HS y ltac:(set_solver)). destruct (HB y ltac:(set_solver)) as (Y1 & Y2 & Y3 & _). unfold gap, fb_end in *. lia.
Qed.

(** ** Concrete runs *)

#[export] Instance command_ok_dec al live cmd : Decision (command_ok al live cmd).
Proof.
  destruct cmd as [n|i|i n]; cbn [command_ok]; [apply _| |].
  - destruct (live !! i) as [r|]; [left; by exists r|right; by intros [r Hr]].
  - destruct (live !! i) as [r|]; [|right; by intros (r & Hr & _)]. destruct (decide (0 < n <= rg_bytes r)); [left; by exists r|right; intros (r' & [= ->] & H); done].
Defined.

Fixpoint run_checked (al : Z) (cmds : list command) (st : ggml_dyn_tallocr * list region) : option (ggml_dyn_tallocr * list region) :=
  match cmds with
  | [] => Some st
  | cmd :: cmds => if decide (command_ok al st.2 cmd) then match run_command st cmd with Ok st => run_checked al cmds st | Err _ => None end else None
  end.

Lemma run_checked_reached al max cmds : forall st st', reached al max st.1 st.2 -> run_checked al cmds st = Some st' -> reached al max st'.1 st'.2.
Proof.
  induction cmds as [|cmd cmds IH]; intros [a live] st' Hr; cbn [run_checked fst snd]; [by intros [= <-]|]. case_decide as Hok; [|done].
  destruct (run_command (a, live) cmd) as [[a1 l1]|] eqn:E; [|done]. apply IH. by eapply reached_step.
Qed.

Definition start (al max : Z) : ggml_dyn_tallocr * list region := (ggml_dyn_tallocr_new al max, []).

(** The state a checked run ends in. *)
Definition final (al max : Z) (cmds : list command) : ggml_dyn_tallocr * list region :=
  match run_checked al cmds (start al max) with Some st => st | None => start al max end.

Lemma final_reached al max cmds : reached al max (final al max cmds).1 (final al max cmds).2.
Proof.
  unfold final. destruct (run_checked al cmds (start al max)) as [st|] eqn:E; [|apply reached_new].
  eapply run_checked_reached; [|exact E]. apply reached_new.
Qed.

Lemma pow2_16 : pow2 16.
Proof. by exists 4. Qed.

Definition cmds0 : list command := [CAlloc 100; CAlloc 50; CAlloc 30; CFree 2; CAlloc 20; CShrink 1 10].

Lemma tallocr_places_disjoint_witness :
  (final 16 128 cmds0).2 !! 0%nat = Some (mk_region 1 64 10) /\ (final 16 128 cmds0).2 !! 2%nat = Some (mk_region 1 0 50) /\
  ((forall r, r ∈ (final 16 128 cmds0).2 -> (16 | rg_offset r) /\ 0 <= rg_offset r /\ rg_offset r + rg_bytes r <= ggml_dyn_tallocr_max_size (final 16 128 cmds0).1 (rg_chunk r)) /\
  (forall i j r r', i <> j -> (final 16 128 cmds0).2 !! i = Some r -> (final 16 128 cmds0).2 !! j = Some r' -> rg_chunk r = rg_chunk r' ->
    rg_offset r + rg_bytes r <= rg_offset r' \/ rg_offset r' + rg_bytes r' <= rg_offset r)).
Proof.
  split; [vm_compute; reflexivity|split; [vm_compute; reflexivity|]].
  apply (tallocr_places_disjoint 16 128 _ _ pow2_16 ltac:(lia) (final_reached 16 128 cmds0)).
Defined.

Lemma tallocr_progress_witness :
  let st := final 16 128 cmds0 in
  (exists a' live', run_command st (CAlloc 32) = Ok (a', live') /\ reached 16 128 a' live') \/
  (exists n, CAlloc 32 = CAlloc n /\ run_command st (CAlloc 32) = Err AssertFailed /\ length (da_chunks st.1) = GGML_VBUFFER_MAX_CHUNKS /\
    (forall ch b, ch ∈ da_chunks st.1 -> b ∈ blocks ch -> fb_size b < padded 16 n) /\ SIZE_HALF < ggml_dyn_tallocr_max_size st.1 15 + padded 16 n).
Proof.
  intros st. apply (tallocr_progress 16 128 st.1 st.2 (CAlloc 32) pow2_16 ltac:(lia) (final_reached 16 128 cmds0)).
  apply (bool_decide_eq_true_1 (command_ok 16 st.2 (CAlloc 32))). vm_compute. reflexivity.
Defined.

Definition cmds1 : list command := cmds0 ++ [CFree 1; CFree 0; CFree 0].

Lemma tallocr_no_leak_witness : exists ch cap, da_chunks (final 16 128 cmds1).1 !! 0%nat = Some ch /\
  blocks ch = [mk_block 0 cap] /\ tc_max_size ch <= cap.
Proof.
  assert (E : (final 16 128 cmds1).2 = []) by (vm_compute; reflexivity).
  destruct (da_chunks (final 16 128 cmds1).1 !! 0%nat) as [ch|] eqn:Hch; [|vm_compute in Hch; discriminate].
  destruct (tallocr_no_leak 16 128 (final 16 128 cmds1).1 pow2_16 ltac:(lia)) with (c := 0%nat) (ch := ch) as (cap & Hb & Hc).
  - rewrite <- E. apply final_reached.
  - exact Hch.
  - vm_compute in Hch. injection Hch as <-. vm_compute. reflexivity.
  - exists ch, cap. split; [reflexivity|]. split; [exact Hb|exact Hc].
Defined.

(** An allocator with 256 free blocks in a chunk - as many as its array holds, and [insert_block] allows it - reads past the array when a block is used up: with 511 tensors of which every second one is released, the next allocation accesses an entry that does not exist. *)
Lemma full_array_out_of_bounds : exists st, mfor run_command (replicate 511 (CAlloc 16) ++ (CFree <$> seq 1 255)) (start 16 1073741824) = Ok st /\
  tc_n_free_blocks <$> da_chunks st.1 = [MAX_FREE_BLOCKS] /\ run_command st (CAlloc 16) = Err OutOfRange.
Proof.
  set (r := mfor _ _ _). assert (H : match r with Ok st => bool_decide (tc_n_free_blocks <$> da_chunks st.1 = [MAX_FREE_BLOCKS]) &&
    match run_command st (CAlloc 16) with Err OutOfRange => true | _ => false end | Err _ => false end = true) by (vm_compute; reflexivity).
  clearbody r. destruct r as [st|]; [|done]. exists st. apply andb_true_iff in H as [H1 H2]. apply bool_decide_eq_true_1 in H1.
  destruct (run_command st (CAlloc 16)) as [|[]]; done.
Qed.

(** The best fit is chosen inside each chunk, and a later chunk wins: a hole of 64 bytes of chunk 1 is taken although chunk 0 has one of exactly 32. *)
Lemma best_fit_not_best :
  let st := final 16 128 [CAlloc 32; CAlloc 32; CAlloc 32; CAlloc 64; CAlloc 16; CAlloc 32; CFree 5; CFree 2] in
  blocks <$> da_chunks st.1 = [[mk_block 0 32; mk_block 112 16]; [mk_block 0 64; mk_block 96 32]] /\
  exists st', run_command st (CAlloc 32) = Ok st' /\ head st'.2 = Some (mk_region 1 0 32).
Proof. split; [vm_compute; reflexivity|]. eexists. split; [vm_compute; reflexivity|reflexivity]. Qed.
