(* ===== verification/HashSet.v ===== *)
(** * The hash set of tensors: src/ggml/src/ggml-impl.h, src/ggml/src/ggml.c

    Open addressing with linear probing over an array of pointers, with a bit set of the slots
    in use.  The callers keep their own data in arrays indexed by the slot of a tensor.  The model, what a probe
    finds, and the theorem about runs of insertions. *)

From stdpp Require Import finite.
From S2P Require Import Prelude Alloc AllocTheory.

(** ** Bit sets: words of 32 bits *)

Definition BITSET_SHR : Z := 5.
Definition BITSET_MASK : Z := 31.

Definition ggml_bitset_size (n : Z) : Z := Z.shiftr (usize (n + BITSET_MASK)) BITSET_SHR.

Definition ggml_bitset_get (bitset : list Z) (i : Z) : res bool :=
  w ← vec_getZ bitset (Z.shiftr i BITSET_SHR);
  Ok (negb (Z.land w (u32 (Z.shiftl 1 (Z.land i BITSET_MASK))) =? 0)).

Definition ggml_bitset_set (bitset : list Z) (i : Z) : res (list Z) :=
  w ← vec_getZ bitset (Z.shiftr i BITSET_SHR);
  vec_setZ bitset (Z.shiftr i BITSET_SHR) (Z.lor w (u32 (Z.shiftl 1 (Z.land i BITSET_MASK)))).

Definition ggml_bitset_clear (bitset : list Z) (i : Z) : res (list Z) :=
  w ← vec_getZ bitset (Z.shiftr i BITSET_SHR);
  vec_setZ bitset (Z.shiftr i BITSET_SHR) (Z.land w (u32 (Z.lnot (u32 (Z.shiftl 1 (Z.land i BITSET_MASK)))))).

(** ** The set; a key that was never written is [None] *)

Record ggml_hash_set : Type := mk_hash_set {
  hs_size : Z;
  hs_used : list Z;
  hs_keys : list (option Z)
}.

Definition primes : list Z := [2; 3; 5; 11; 17; 37; 67; 131; 257; 521; 1031; 2053; 4099; 8209; 16411; 32771; 65537; 131101;
  262147; 524309; 1048583; 2097169; 4194319; 8388617; 16777259; 33554467; 67108879; 134217757; 268435459; 536870923; 1073741827; 2147483659].

(** The binary search. *)
Fixpoint prime_search (fuel : nat) (min_sz l r : Z) : res Z :=
  if l <? r then
    match fuel with
    | O => Err NoFuel
    | S fuel =>
        let m := (l + r) / 2 in
        p ← vec_getZ primes m;
        if p <? min_sz then prime_search fuel min_sz (m + 1) r else prime_search fuel min_sz l m
    end
  else Ok l.

Definition ggml_hash_size (min_sz : Z) : res Z :=
  let n_primes := Z.of_nat (length primes) in
  l ← prime_search (length primes) min_sz 0 n_primes;
  if l <? n_primes then vec_getZ primes l else Ok (Z.lor min_sz 1).

Definition ggml_hash_set_new (size : Z) : res ggml_hash_set :=
  size ← ggml_hash_size size;
  Ok (mk_hash_set size (replicate (Z.to_nat (ggml_bitset_size size)) 0) (replicate (Z.to_nat size) None)).

Definition ggml_hash_set_reset (hs : ggml_hash_set) : ggml_hash_set :=
  mk_hash_set (hs_size hs) (replicate (Z.to_nat (ggml_bitset_size (hs_size hs))) 0) (hs_keys hs).

Definition ggml_hash (p : Z) : Z := Z.shiftr p 4.

Definition start_slot (hs : ggml_hash_set) (key : Z) : res Z :=
  if hs_size hs =? 0 then Err DivByZero else Ok (ggml_hash key mod hs_size hs).

Definition key_at (hs : ggml_hash_set) (i : Z) : res Z :=
  k ← vec_getZ (hs_keys hs) i; of_option OutOfRange k.

Definition next_slot (hs : ggml_hash_set) (i : Z) : Z := usize (i + 1) mod hs_size hs.

(** [GGML_HASHSET_FULL] is [None]. *)
Fixpoint find_loop (fuel : nat) (hs : ggml_hash_set) (key h i : Z) : res (option Z) :=
  match fuel with
  | O => Err NoFuel
  | S fuel =>
      u ← ggml_bitset_get (hs_used hs) i;
      if negb u then Ok (Some i) else
      k ← key_at hs i;
      if k =? key then Ok (Some i) else
      let i := next_slot hs i in
      if i =? h then Ok None else find_loop fuel hs key h i
  end.

Definition ggml_hash_find (hs : ggml_hash_set) (key : Z) : res (option Z) :=
  h ← start_slot hs key; find_loop (Z.to_nat (hs_size hs)) hs key h h.

Definition ggml_hash_contains (hs : ggml_hash_set) (key : Z) : res bool :=
  i ← ggml_hash_find hs key;
  match i with None => Ok false | Some i => ggml_bitset_get (hs_used hs) i end.

(** The slot that holds the key or was given to it, and whether it held the key before; a full
    table aborts. *)
Fixpoint insert_loop (fuel : nat) (hs : ggml_hash_set) (key h i : Z) : res (ggml_hash_set * Z * bool) :=
  match fuel with
  | O => Err NoFuel
  | S fuel =>
      u ← ggml_bitset_get (hs_used hs) i;
      if negb u then
        used ← ggml_bitset_set (hs_used hs) i;
        keys ← vec_setZ (hs_keys hs) i (Some key);
        Ok (mk_hash_set (hs_size hs) used keys, i, false)
      else
      k ← key_at hs i;
      if k =? key then Ok (hs, i, true) else
      let i := next_slot hs i in
      if i =? h then Err AssertFailed else insert_loop fuel hs key h i
  end.

Definition find_or_insert (hs : ggml_hash_set) (key : Z) : res (ggml_hash_set * Z * bool) :=
  h ← start_slot hs key; insert_loop (Z.to_nat (hs_size hs)) hs key h h.

(** [GGML_HASHSET_ALREADY_EXISTS] is [None]. *)
Definition ggml_hash_insert (hs : ggml_hash_set) (key : Z) : res (ggml_hash_set * option Z) :=
  '(hs, i, found) ← find_or_insert hs key; Ok (hs, if found : bool then None else Some i).

Definition ggml_hash_find_or_insert (hs : ggml_hash_set) (key : Z) : res (ggml_hash_set * Z) :=
  '(hs, i, _) ← find_or_insert hs key; Ok (hs, i).

(** The slots of a list of tensors, looked up one after the other. *)
Fixpoint slots (hs : ggml_hash_set) (keys : list Z) : res (ggml_hash_set * list Z) :=
  match keys with
  | [] => Ok (hs, [])
  | k :: keys => '(hs, i) ← ggml_hash_find_or_insert hs k; '(hs, rest) ← slots hs keys; Ok (hs, i :: rest)
  end.

(** * The hash set gives each tensor its own slot *)

Lemma bit_mask i : 0 <= i -> u32 (Z.shiftl 1 (Z.land i BITSET_MASK)) = 2 ^ (i mod 32).
Proof.
  intros Hi. unfold BITSET_MASK, u32. change 31 with (Z.ones 5). rewrite Z.land_ones, Z.shiftl_1_l by lia. change (2 ^ 5) with 32.
  pose proof (Z.mod_pos_bound i 32 ltac:(lia)). apply Z.mod_small. split; [apply Z.pow_nonneg; lia|]. apply Z.pow_lt_mono_r; lia.
Qed.

Lemma word_index i : Z.shiftr i BITSET_SHR = i / 32.
Proof. unfold BITSET_SHR. by rewrite Z.shiftr_div_pow2. Qed.

Lemma land_bit w k : 0 <= k -> negb (Z.land w (2 ^ k) =? 0) = Z.testbit w k.
Proof.
  intros Hk. destruct (Z.testbit w k) eqn:E.
  - apply negb_true_iff, Z.eqb_neq. intros H. assert (Z.testbit (Z.land w (2 ^ k)) k = false) by (by rewrite H, Z.bits_0).
    rewrite Z.land_spec, E, Z.pow2_bits_true in * by done. done.
  - apply negb_false_iff, Z.eqb_eq. apply Z.bits_inj'. intros n Hn. rewrite Z.land_spec, Z.bits_0, Z.pow2_bits_eqb by done.
    destruct (Z.eqb_spec k n) as [->|]; [by rewrite E|by rewrite andb_false_r].
Qed.

(** Bit [i] of the set. *)
Definition used_bit (bs : list Z) (i : Z) : bool := Z.testbit (nth (Z.to_nat (i / 32)) bs 0) (i mod 32).

Lemma nth_lookup_ {A} (l : list A) n d : nth n l d = default d (l !! n).
Proof. revert n. induction l as [|x l IH]; intros [|n]; cbn; done || apply IH. Qed.

Lemma bitset_get_ok bs i : 0 <= i -> i / 32 < Z.of_nat (length bs) -> ggml_bitset_get bs i = Ok (used_bit bs i).
Proof.
  intros Hi Hl. unfold ggml_bitset_get, used_bit. rewrite word_index, bit_mask by done. pose proof (Z.div_pos i 32 Hi ltac:(lia)).
  unfold vec_getZ. rewrite (proj2 (Z.leb_le 0 _)) by done. destruct (lookup_lt_is_Some_2 bs (Z.to_nat (i / 32))) as [w Hw]; [lia|].
  rewrite (proj2 (vec_get_ok _ _ _) Hw). cbn [mbind res_bind]. rewrite nth_lookup_, Hw. cbn [default]. f_equal. apply land_bit. apply Z.mod_pos_bound. lia.
Qed.

Lemma bitset_set_ok bs i : 0 <= i -> i / 32 < Z.of_nat (length bs) -> exists bs', ggml_bitset_set bs i = Ok bs' /\ length bs' = length bs /\
  forall j, 0 <= j -> used_bit bs' j = (i =? j) || used_bit bs j.
Proof.
  intros Hi Hl. unfold ggml_bitset_set. rewrite word_index, bit_mask by done. pose proof (Z.div_pos i 32 Hi ltac:(lia)).
  unfold vec_getZ, vec_setZ. rewrite (proj2 (Z.leb_le 0 _)) by done. destruct (lookup_lt_is_Some_2 bs (Z.to_nat (i / 32))) as [w Hw]; [lia|].
  rewrite (proj2 (vec_get_ok _ _ _) Hw). cbn [mbind res_bind]. unfold vec_set. rewrite decide_True by lia. eexists. split; [reflexivity|].
  split; [apply length_insert|]. intros j Hj. unfold used_bit. rewrite !nth_lookup_. pose proof (Z.div_pos j 32 Hj ltac:(lia)).
  pose proof (Z.mod_pos_bound i 32 ltac:(lia)). pose proof (Z.mod_pos_bound j 32 ltac:(lia)). pose proof (Z.div_mod i 32 ltac:(lia)). pose proof (Z.div_mod j 32 ltac:(lia)).
  destruct (decide (i / 32 = j / 32)) as [E|E].
  - rewrite <- E, list_lookup_insert_eq, Hw by lia. cbn [default from_option id]. rewrite Z.lor_spec, Z.pow2_bits_eqb by lia. rewrite orb_comm. f_equal. apply eq_true_iff_eq. rewrite !Z.eqb_eq. lia.
  - rewrite list_lookup_insert_ne by lia. destruct (Z.eqb_spec i j); [congruence|done].
Qed.

(** ** Well-formed tables *)

(** Slot [i] holds tensor [k]. *)
Definition holds (hs : ggml_hash_set) (i k : Z) : Prop :=
  0 <= i < hs_size hs /\ used_bit (hs_used hs) i = true /\ hs_keys hs !! Z.to_nat i = Some (Some k).

(** The [d]-th slot that is tried for [k]. *)
Definition probe (hs : ggml_hash_set) (k d : Z) : Z := (ggml_hash k + d) mod hs_size hs.

Record table_ok (hs : ggml_hash_set) : Prop := {
  tb_size  : 0 < hs_size hs < 18446744073709551616 - 31;
  tb_keys  : Z.of_nat (length (hs_keys hs)) = hs_size hs;
  tb_used  : forall i, 0 <= i < hs_size hs -> i / 32 < Z.of_nat (length (hs_used hs));
  tb_some  : forall i, 0 <= i < hs_size hs -> used_bit (hs_used hs) i = true -> exists k, holds hs i k;
  tb_inj   : forall i j k, holds hs i k -> holds hs j k -> i = j;
  tb_chain : forall k d e, 0 <= e < d -> d < hs_size hs -> holds hs (probe hs k d) k -> used_bit (hs_used hs) (probe hs k e) = true
}.

Lemma probe_range hs k d : 0 < hs_size hs -> 0 <= probe hs k d < hs_size hs.
Proof. intros H. by apply Z.mod_pos_bound. Qed.

Lemma probe_next hs k d : table_ok hs -> next_slot hs (probe hs k d) = probe hs k (d + 1).
Proof.
  intros [Hs _ _ _ _ _]. unfold next_slot, probe. pose proof (Z.mod_pos_bound (ggml_hash k + d) (hs_size hs) ltac:(lia)).
  rewrite usize_small by lia. rewrite Zplus_mod_idemp_l. f_equal. lia.
Qed.

Lemma probe_onto hs k i : 0 <= i < hs_size hs -> exists d, 0 <= d < hs_size hs /\ probe hs k d = i.
Proof.
  intros Hi. exists ((i - ggml_hash k) mod hs_size hs). split; [apply Z.mod_pos_bound; lia|]. unfold probe. rewrite Zplus_mod_idemp_r.
  replace (ggml_hash k + (i - ggml_hash k)) with i by lia. by apply Z.mod_small.
Qed.

Lemma probe_inj hs k d e : 0 <= d < hs_size hs -> 0 <= e < hs_size hs -> probe hs k d = probe hs k e -> d = e.
Proof.
  unfold probe. intros Hd He H. set (n := hs_size hs) in *. set (h := ggml_hash k) in *.
  pose proof (Z.div_mod (h + d) n ltac:(lia)). pose proof (Z.div_mod (h + e) n ltac:(lia)). rewrite H in *.
  set (q := (h + d) / n) in *. set (q' := (h + e) / n) in *. assert (Hq : d - e = n * (q - q')) by lia.
  assert (q - q' = 0) by nia. lia.
Qed.

(** The slots tried before the [d]-th hold other tensors. *)
Definition passed (hs : ggml_hash_set) (key d : Z) : Prop :=
  forall e, 0 <= e < d -> used_bit (hs_used hs) (probe hs key e) = true /\ ~ holds hs (probe hs key e) key.

Lemma passed_next hs key d : 0 <= d -> passed hs key d -> used_bit (hs_used hs) (probe hs key d) = true -> ~ holds hs (probe hs key d) key -> passed hs key (d + 1).
Proof. intros Hd Hp Hu Hn e He. destruct (decide (e = d)) as [->|]; [done|]. apply Hp. lia. Qed.

(** An unused slot on the way: the tensor is nowhere. *)
Lemma passed_unused hs key d : table_ok hs -> 0 <= d -> passed hs key d -> used_bit (hs_used hs) (probe hs key d) = false -> forall j, ~ holds hs j key.
Proof.
  intros T Hd Hp Hu j Hj. destruct (probe_onto hs key j ltac:(apply Hj)) as (e & He & <-). destruct (Z.lt_trichotomy e d) as [Hl|[->|Hl]].
  - by destruct (Hp e ltac:(lia)).
  - destruct Hj as (_ & Hj & _). congruence.
  - pose proof (tb_chain _ T key e d ltac:(lia) ltac:(lia) Hj). congruence.
Qed.

Lemma passed_all hs key : table_ok hs -> passed hs key (hs_size hs) ->
  (forall i, 0 <= i < hs_size hs -> used_bit (hs_used hs) i = true) /\ forall j, ~ holds hs j key.
Proof.
  intros T Hp. split.
  - intros i Hi. destruct (probe_onto hs key i Hi) as (e & He & <-). by apply Hp.
  - intros j Hj. destruct (probe_onto hs key j ltac:(apply Hj)) as (e & He & <-). by destruct (Hp e He).
Qed.

(** What one step of a search sees. *)
Lemma probe_step hs key d : table_ok hs -> let i := probe hs key d in
  ggml_bitset_get (hs_used hs) i = Ok (used_bit (hs_used hs) i) /\
  (used_bit (hs_used hs) i = true -> exists k, key_at hs i = Ok k /\ holds hs i k).
Proof.
  intros T i. pose proof (probe_range hs key d (proj1 (tb_size _ T))) as Hi. fold i in Hi. split; [apply bitset_get_ok; [lia|by apply T]|].
  intros Hu. destruct (tb_some _ T i Hi Hu) as [k Hk]. exists k. split; [|done]. destruct Hk as (_ & _ & Hk). unfold key_at, vec_getZ.
  rewrite (proj2 (Z.leb_le 0 _)) by lia. by rewrite (proj2 (vec_get_ok _ _ _) Hk).
Qed.

Lemma probe_back hs key d : 0 < hs_size hs -> 0 <= d < hs_size hs -> (probe hs key (d + 1) =? probe hs key 0) = (d + 1 =? hs_size hs).
Proof.
  intros Hs Hd. apply eq_true_iff_eq. rewrite !Z.eqb_eq. split.
  - intros H. destruct (decide (d + 1 = hs_size hs)) as [|Hne]; [done|]. apply probe_inj in H; lia.
  - intros H. unfold probe. rewrite H, Z.add_0_r, <- (Z.mul_1_l (hs_size hs)) at 1. by rewrite Z_mod_plus_full.
Qed.

(** ** Insertion *)

(** The table with [key] in slot [i]. *)
Definition inserted (hs : ggml_hash_set) (i key : Z) (hs' : ggml_hash_set) : Prop :=
  hs_size hs' = hs_size hs /\ table_ok hs' /\ (forall j k, holds hs' j k <-> holds hs j k \/ (j = i /\ k = key)).

Lemma insert_here hs key d : table_ok hs -> 0 <= d < hs_size hs -> passed hs key d -> used_bit (hs_used hs) (probe hs key d) = false ->
  let i := probe hs key d in
  exists used keys, ggml_bitset_set (hs_used hs) i = Ok used /\ vec_setZ (hs_keys hs) i (Some key) = Ok keys /\ inserted hs i key (mk_hash_set (hs_size hs) used keys).
Proof.
  intros T Hd Hp Hu i. pose proof (tb_size _ T) as Hs. pose proof (probe_range hs key d ltac:(lia)) as Hi. fold i in Hi, Hu.
  destruct (bitset_set_ok (hs_used hs) i ltac:(lia) ltac:(by apply T)) as (used & Eu & Lu & Bu). exists used, (<[Z.to_nat i := Some key]> (hs_keys hs)). split; [done|].
  pose proof (tb_keys _ T) as Lk. split. { unfold vec_setZ, vec_set. rewrite (proj2 (Z.leb_le 0 _)), decide_True by lia. done. }
  set (hs' := mk_hash_set _ _ _). assert (Hh : forall j k, holds hs' j k <-> holds hs j k \/ (j = i /\ k = key)).
  { intros j k. unfold holds. cbn [hs' hs_size hs_used hs_keys]. split.
    - intros (Hj & Hb & Hk). rewrite Bu in Hb by lia. destruct (Z.eqb_spec i j) as [->|Hne].
      + rewrite list_lookup_insert_eq in Hk by lia. right. split; [done|]. congruence.
      + left. rewrite list_lookup_insert_ne in Hk by lia. split_and!; [lia|lia|done|done].
    - intros [(Hj & Hb & Hk)|[-> ->]].
      + split_and!; [lia|lia|rewrite Bu by lia; by rewrite Hb, orb_true_r|]. rewrite list_lookup_insert_ne; [done|]. intros E. assert (j = i) by lia. congruence.
      + split_and!; [lia|lia|rewrite Bu by lia; by rewrite Z.eqb_refl|]. apply list_lookup_insert_eq. lia. }
  pose proof (passed_unused hs key d T ltac:(lia) Hp Hu) as Habs. split; [done|]. split; [|done]. split.
  - done.
  - cbn. rewrite length_insert. done.
  - cbn. intros j Hj. rewrite Lu. by apply T.
  - intros j Hj Hb. cbn [hs' hs_used] in Hb. rewrite Bu in Hb by lia. destruct (Z.eqb_spec i j) as [->|Hne]; [exists key; apply Hh; by right|].
    destruct (tb_some _ T j Hj Hb) as [k Hk]. exists k. apply Hh. by left.
  - intros j j' k. rewrite !Hh. intros [H1|[-> ->]] [H2|[-> E]]; [by apply (tb_inj _ T j j' k)|subst; by destruct (Habs j)|by destruct (Habs j')|done].
  - intros k d' e He Hd'. rewrite Hh. change (probe hs' ?k ?d) with (probe hs k d). pose proof (probe_range hs k e ltac:(lia)) as Hr. cbn [hs' hs_used]. rewrite Bu by lia.
    intros [H|[H ->]]; [rewrite (tb_chain _ T k d' e He Hd' H); apply orb_true_r|]. apply probe_inj in H; [|cbn in Hd'; lia|lia]. subst d'. destruct (Hp e He) as [-> _]. apply orb_true_r.
Qed.

Lemma insert_loop_ok key hs : table_ok hs -> forall fuel d, Z.of_nat fuel = hs_size hs - d -> 0 <= d < hs_size hs -> passed hs key d ->
  let m := insert_loop fuel hs key (probe hs key 0) (probe hs key d) in
  (exists i, m = Ok (hs, i, true) /\ holds hs i key) \/
  (exists i hs', m = Ok (hs', i, false) /\ inserted hs i key hs' /\ used_bit (hs_used hs) i = false /\ forall j, ~ holds hs j key) \/
  (m = Err AssertFailed /\ (forall i, 0 <= i < hs_size hs -> used_bit (hs_used hs) i = true) /\ forall j, ~ holds hs j key).
Proof.
  intros T. induction fuel as [|fuel IH]; intros d Hf Hd Hp; [lia|]. cbn [insert_loop]. destruct (probe_step hs key d T) as [Eg Hk]. rewrite Eg. cbn [mbind res_bind].
  destruct (used_bit (hs_used hs) (probe hs key d)) eqn:Hu; cbn [negb].
  - destruct (Hk eq_refl) as (k & Ek & Hh). rewrite Ek. cbn [mbind res_bind]. destruct (Z.eqb_spec k key) as [->|Hne]; [left; by eexists|].
    assert (Hn : ~ holds hs (probe hs key d) key). { intros (_ & _ & H'). destruct Hh as (_ & _ & H). congruence. }
    pose proof (passed_next hs key d ltac:(lia) Hp Hu Hn) as Hp'. rewrite probe_next by done. rewrite probe_back by (apply T || lia).
    destruct (Z.eqb_spec (d + 1) (hs_size hs)) as [E|E]; [|apply IH; [lia|lia|done]]. right. right. split; [done|]. apply passed_all; [done|by rewrite <- E].
  - destruct (insert_here hs key d T Hd Hp Hu) as (used & keys & E1 & E2 & Hi). rewrite E1. cbn [mbind res_bind]. rewrite E2. cbn [mbind res_bind].
    right. left. eexists _, _. split; [reflexivity|]. split_and!; [done|done|]. by apply (passed_unused hs key d T ltac:(lia)).
Qed.

Lemma find_or_insert_ok key hs : table_ok hs -> let m := find_or_insert hs key in
  (exists i, m = Ok (hs, i, true) /\ holds hs i key) \/
  (exists i hs', m = Ok (hs', i, false) /\ inserted hs i key hs' /\ used_bit (hs_used hs) i = false /\ forall j, ~ holds hs j key) \/
  (m = Err AssertFailed /\ (forall i, 0 <= i < hs_size hs -> used_bit (hs_used hs) i = true) /\ forall j, ~ holds hs j key).
Proof.
  intros T. pose proof (tb_size _ T). unfold find_or_insert, start_slot. rewrite (proj2 (Z.eqb_neq _ 0)) by lia. cbn [mbind res_bind].
  replace (ggml_hash key mod hs_size hs) with (probe hs key 0) by (unfold probe; by rewrite Z.add_0_r). apply insert_loop_ok; [done|lia|lia|]. intros e He. lia.
Qed.

(** ** Search *)

Lemma find_loop_ok key hs : table_ok hs -> forall fuel d, Z.of_nat fuel = hs_size hs - d -> 0 <= d < hs_size hs -> passed hs key d ->
  exists r, find_loop fuel hs key (probe hs key 0) (probe hs key d) = Ok r /\ match r with
  | Some i => 0 <= i < hs_size hs /\ (holds hs i key \/ used_bit (hs_used hs) i = false /\ forall j, ~ holds hs j key)
  | None => forall j, ~ holds hs j key end.
Proof.
  intros T. induction fuel as [|fuel IH]; intros d Hf Hd Hp; [lia|]. cbn [find_loop]. destruct (probe_step hs key d T) as [Eg Hk]. rewrite Eg. cbn [mbind res_bind].
  pose proof (probe_range hs key d (proj1 (tb_size _ T))) as Hr. destruct (used_bit (hs_used hs) (probe hs key d)) eqn:Hu; cbn [negb].
  - destruct (Hk eq_refl) as (k & Ek & Hh). rewrite Ek. cbn [mbind res_bind]. destruct (Z.eqb_spec k key) as [->|Hne]; [exists (Some (probe hs key d)); split; [done|]; split; [done|by left]|].
    assert (Hn : ~ holds hs (probe hs key d) key). { intros (_ & _ & H'). destruct Hh as (_ & _ & H). congruence. }
    pose proof (passed_next hs key d ltac:(lia) Hp Hu Hn) as Hp'. rewrite probe_next by done. rewrite probe_back by (apply T || lia).
    destruct (Z.eqb_spec (d + 1) (hs_size hs)) as [E|E]; [|apply IH; [lia|lia|done]]. exists None. split; [done|]. apply passed_all; [done|by rewrite <- E].
  - exists (Some (probe hs key d)). split; [done|]. split; [done|]. right. split; [done|]. by apply (passed_unused hs key d T ltac:(lia)).
Qed.

Lemma contains_ok key hs : table_ok hs -> exists b, ggml_hash_contains hs key = Ok b /\ (b = true <-> exists i, holds hs i key).
Proof.
  intros T. pose proof (tb_size _ T) as Hs. unfold ggml_hash_contains, ggml_hash_find, start_slot. rewrite (proj2 (Z.eqb_neq _ 0)) by lia. cbn [mbind res_bind].
  replace (ggml_hash key mod hs_size hs) with (probe hs key 0) by (unfold probe; by rewrite Z.add_0_r).
  destruct (find_loop_ok key hs T (Z.to_nat (hs_size hs)) 0 ltac:(lia) ltac:(lia)) as (r & E & H); [intros e He; lia|]. rewrite E. cbn [mbind res_bind].
  destruct r as [i|]; [|exists false; split; [done|]; split; [done|]; intros [j Hj]; by destruct (H j)].
  destruct H as [Hi H]. exists (used_bit (hs_used hs) i). split; [apply bitset_get_ok; [lia|by apply T]|]. destruct H as [H|[-> H]].
  - split; [intros _; by exists i|intros _; apply H].
  - split; [done|]. intros [j Hj]. by destruct (H j).
Qed.

(** * Runs of the hash set *)

(** ** The size of a table *)

Lemma prime_search_ok min fuel : forall l r, 0 <= l <= r -> r <= 32 -> r - l <= Z.of_nat fuel ->
  (l = 0 \/ nth (Z.to_nat (l - 1)) primes 0 < min) -> (r = 32 \/ min <= nth (Z.to_nat r) primes 0) ->
  exists j, prime_search fuel min l r = Ok j /\ 0 <= j <= 32 /\ (j = 0 \/ nth (Z.to_nat (j - 1)) primes 0 < min) /\ (j = 32 \/ min <= nth (Z.to_nat j) primes 0).
Proof.
  induction fuel as [|fuel IH]; intros l r Hl Hr Hf H1 H2; cbn [prime_search].
  { rewrite (proj2 (Z.ltb_ge l r)) by lia. exists l. assert (r = l) as -> by lia. split_and!; try done; lia. }
  destruct (Z.ltb_spec l r) as [Hlt|Hge]; [|exists l; assert (r = l) as -> by lia; split_and!; try done; lia].
  pose proof (Z.div_mod (l + r) 2 ltac:(lia)). pose proof (Z.mod_pos_bound (l + r) 2 ltac:(lia)). set (m := (l + r) / 2) in *.
  unfold vec_getZ. rewrite (proj2 (Z.leb_le 0 m)) by lia. destruct (lookup_lt_is_Some_2 primes (Z.to_nat m)) as [p Hp]; [change (length primes) with 32%nat; lia|].
  rewrite (proj2 (vec_get_ok _ _ _) Hp). cbn [mbind res_bind]. assert (En : nth (Z.to_nat m) primes 0 = p) by (by rewrite nth_lookup_, Hp).
  destruct (Z.ltb_spec p min); apply IH; try lia; try done.
  right. replace (m + 1 - 1) with m by lia. by rewrite En.
Qed.

Lemma hash_size_ok min : 0 <= min < 9223372036854775808 -> exists n, ggml_hash_size min = Ok n /\ min <= n /\ 0 < n < 18446744073709551616 - 31.
Proof.
  intros Hm. unfold ggml_hash_size. change (length primes) with 32%nat. destruct (prime_search_ok min 32 0 32) as (j & E & Hj & _ & H); try lia.
  change (Z.of_nat 32) with 32. rewrite E. cbn [mbind res_bind]. destruct (Z.ltb_spec j 32) as [Hlt|Hge].
  - destruct H as [H|H]; [lia|]. unfold vec_getZ. rewrite (proj2 (Z.leb_le 0 j)) by lia. destruct (lookup_lt_is_Some_2 primes (Z.to_nat j)) as [p Hp]; [change (length primes) with 32%nat; lia|].
    rewrite nth_lookup_, Hp in H. cbn in H. exists p. split; [by apply vec_get_ok|]. split; [done|].
    assert (Hall : Forall (fun p => 0 < p < 18446744073709551616 - 31) primes) by (unfold primes; repeat constructor). by apply (Forall_lookup_1 _ _ _ _ Hall Hp).
  - exists (Z.lor min 1). split; [done|]. pose proof (Z.lor_nonneg min 1). assert (Hle : min <= Z.lor min 1 <= min + 1).
    { pose proof (Z.add_lor_land min 1) as Ha. assert (El : Z.land min 1 = min mod 2) by (change 1 with (Z.ones 1); by rewrite Z.land_ones).
      rewrite El in Ha. pose proof (Z.mod_pos_bound min 2 ltac:(lia)). lia. }
    assert (min <> 0) by (intros ->; unfold ggml_hash_size in *; vm_compute in E; injection E as <-; lia). lia.
Qed.

(** ** A new table *)

Lemma new_table_ok min : 0 <= min < 9223372036854775808 -> exists hs, ggml_hash_set_new min = Ok hs /\ min <= hs_size hs /\ table_ok hs /\ forall i k, ~ holds hs i k.
Proof.
  intros Hm. destruct (hash_size_ok min Hm) as (n & E & Hn & Hb). unfold ggml_hash_set_new. rewrite E. cbn [mbind res_bind]. eexists. split; [reflexivity|].
  cbn [hs_size]. split; [done|]. set (hs := mk_hash_set _ _ _). assert (Hz : forall i, used_bit (hs_used hs) i = false).
  { intros i. unfold used_bit. cbn [hs hs_used]. rewrite nth_lookup_.
    destruct (replicate (Z.to_nat (ggml_bitset_size n)) 0 !! Z.to_nat (i / 32)) as [w|] eqn:Ew; [apply lookup_replicate in Ew as [-> _]|]; apply Z.bits_0. }
  assert (Hno : forall i k, ~ holds hs i k) by (intros i k (_ & Hu & _); by rewrite Hz in Hu). split; [|done]. split; cbn [hs hs_size hs_keys hs_used].
  - done.
  - rewrite length_replicate. lia.
  - intros i Hi. rewrite length_replicate. unfold ggml_bitset_size, BITSET_MASK. rewrite word_index, usize_small by lia.
    pose proof (Z.div_pos (n + 31) 32 ltac:(lia) ltac:(lia)). rewrite Z2Nat.id by done. apply Z.div_lt_upper_bound; [lia|].
    pose proof (Z.div_mod (n + 31) 32 ltac:(lia)). pose proof (Z.mod_pos_bound (n + 31) 32 ltac:(lia)). lia.
  - intros i _ Hu. by rewrite Hz in Hu.
  - intros i j k H. by destruct (Hno i k).
  - intros k d e _ _ H. by destruct (Hno (probe hs k d) k).
Qed.

(** ** Looking up many tensors *)

(** The tensors in the table. *)
Definition members (hs : ggml_hash_set) (K : gset Z) : Prop := forall k, k ∈ K <-> exists i, holds hs i k.

Lemma full_table hs K : table_ok hs -> members hs K -> (forall i, 0 <= i < hs_size hs -> used_bit (hs_used hs) i = true) -> hs_size hs <= Z.of_nat (size K).
Proof.
  intros T HK Hu. pose proof (tb_keys _ T) as Hl. destruct (Z.le_gt_cases (hs_size hs) (Z.of_nat (size K))) as [|Hgt]; [done|]. exfalso.
  assert (Hin : forall i x, hs_keys hs !! i = Some x -> exists k, x = Some k /\ holds hs (Z.of_nat i) k).
  { intros i x Hx. pose proof (lookup_lt_Some _ _ _ Hx). destruct (tb_some _ T (Z.of_nat i) ltac:(lia) (Hu (Z.of_nat i) ltac:(lia))) as [k Hk].
    exists k. split; [|done]. destruct Hk as (_ & _ & Hk). rewrite Nat2Z.id in Hk. congruence. }
  destruct (list_pigeonhole (hs_keys hs) (Some <$> elements K)) as (i & j & x & Hij & Hi & Hj).
  - intros x [i Hi]%list_elem_of_lookup. destruct (Hin i x Hi) as (k & -> & Hk). apply list_elem_of_fmap_2, elem_of_elements, HK. by eexists.
  - rewrite length_fmap. assert (size K = length (elements K)) by reflexivity. lia.
  - destruct (Hin i x Hi) as (k & -> & Hk). destruct (Hin j _ Hj) as (k' & [= <-] & Hk'). pose proof (tb_inj _ T _ _ _ Hk Hk'). lia.
Qed.

Lemma slots_ok keys : forall hs K, table_ok hs -> members hs K -> Z.of_nat (size (K ∪ list_to_set keys)) <= hs_size hs ->
  exists hs' ss, slots hs keys = Ok (hs', ss) /\ hs_size hs' = hs_size hs /\ table_ok hs' /\ members hs' (K ∪ list_to_set keys) /\ (forall i k, holds hs i k -> holds hs' i k) /\
    Forall2 (fun k s => holds hs' s k) keys ss.
Proof.
  induction keys as [|key keys IH]; intros hs K T HK Hroom; cbn [slots].
  { exists hs, []. split_and!; try done. cbn. by rewrite union_empty_r_L. }
  assert (Hset : K ∪ list_to_set (key :: keys) = (K ∪ {[ key ]}) ∪ list_to_set keys) by (cbn; set_solver). rewrite Hset in *.
  assert (Hstep : exists hs1 i, ggml_hash_find_or_insert hs key = Ok (hs1, i) /\ table_ok hs1 /\ hs_size hs1 = hs_size hs /\ members hs1 (K ∪ {[ key ]}) /\
    (forall j k, holds hs j k -> holds hs1 j k) /\ holds hs1 i key).
  { unfold ggml_hash_find_or_insert. destruct (find_or_insert_ok key hs T) as [(i & E & Hh)|[(i & hs1 & E & (Es & T1 & H1) & _)|(E & Hu & Hno)]]; rewrite E; cbn [mbind res_bind].
    - exists hs, i. split_and!; try done. intros k. rewrite elem_of_union, elem_of_singleton, (HK k). naive_solver.
    - exists hs1, i. split_and!; try done; [|intros j k Hj; apply H1; by left|apply H1; by right]. intros k. rewrite elem_of_union, elem_of_singleton, (HK k).
      setoid_rewrite H1. naive_solver.
    - exfalso. pose proof (full_table hs K T HK Hu) as Hfull. assert (key ∉ K) as Hk by (intros [j Hj]%HK; by destruct (Hno j)).
      assert (size K < size (K ∪ {[ key ]} ∪ list_to_set keys))%nat by (apply subset_size; set_solver). lia. }
  destruct Hstep as (hs1 & i & E & T1 & Es & HK1 & Hsub & Hi). rewrite E. cbn [mbind res_bind].
  destruct (IH hs1 (K ∪ {[ key ]}) T1 HK1 ltac:(lia)) as (hs' & ss & E' & Es' & T' & HK' & Hsub' & HF). rewrite E'. cbn [mbind res_bind].
  exists hs', (i :: ss). split_and!; try done; [congruence|by auto|]. constructor; [by apply Hsub'|done].
Qed.

(** C40: Looking up the tensors of a list one after the other in a new table made for at least as many distinct tensors always succeeds; every tensor is given the same slot each time and different tensors get different slots, all inside the table; afterwards exactly these tensors are found in it. *)
Theorem hash_slots_unique min keys : 0 <= min < 9223372036854775808 -> Z.of_nat (size (list_to_set keys : gset Z)) <= min ->
  exists hs0 hs ss, ggml_hash_set_new min = Ok hs0 /\ slots hs0 keys = Ok (hs, ss) /\ length ss = length keys /\
    (forall i j ki kj si sj, keys !! i = Some ki -> keys !! j = Some kj -> ss !! i = Some si -> ss !! j = Some sj -> (si = sj <-> ki = kj)) /\
    (forall s, s ∈ ss -> 0 <= s < hs_size hs0) /\
    forall k, ggml_hash_contains hs k = Ok (bool_decide (k ∈ keys)).
Proof.
  intros Hm Hk. destruct (new_table_ok min Hm) as (hs0 & E0 & Hs & T0 & Hno). exists hs0.
  destruct (slots_ok keys hs0 ∅ T0) as (hs & ss & E & Hsize & T & HK & _ & HF); [intros k; split; [set_solver|intros [i Hi]; by destruct (Hno i k)]|rewrite union_empty_l_L; lia|].
  exists hs, ss. split_and!; [done|done|by apply Forall2_length in HF| | |].
  - intros i j ki kj si sj Hki Hkj Hsi Hsj. pose proof (Forall2_lookup_lr _ _ _ _ _ _ HF Hki Hsi) as Hi. pose proof (Forall2_lookup_lr _ _ _ _ _ _ HF Hkj Hsj) as Hj. cbn in Hi, Hj. split.
    + intros ->. destruct Hi as (_ & _ & Hi), Hj as (_ & _ & Hj). congruence.
    + intros ->. by apply (tb_inj _ T _ _ kj).
  - intros s [i Hi]%list_elem_of_lookup. destruct (Forall2_lookup_r _ _ _ _ _ HF Hi) as (k & _ & Hh). cbn in Hh. rewrite <- Hsize. apply Hh.
  - intros k. destruct (contains_ok k hs T) as (b & -> & Hb). f_equal. apply eq_true_iff_eq. rewrite bool_decide_eq_true, Hb, <- (HK k). set_solver.
Qed.

Lemma hash_slots_unique_witness :
  let keys := [16; 64; 16; 96] in
  exists hs0 hs ss, ggml_hash_set_new 3 = Ok hs0 /\ slots hs0 keys = Ok (hs, ss) /\ length ss = length keys /\
    (forall i j ki kj si sj, keys !! i = Some ki -> keys !! j = Some kj -> ss !! i = Some si -> ss !! j = Some sj -> (si = sj <-> ki = kj)) /\
    (forall s, s ∈ ss -> 0 <= s < hs_size hs0) /\
    forall k, ggml_hash_contains hs k = Ok (bool_decide (k ∈ keys)).
Proof. intros keys. apply (hash_slots_unique 3 keys); [lia|]. apply Z.leb_le. vm_compute. reflexivity. Defined.


(** Two tensors that start at slot 1, one looked up again, and a table of three slots that is full. *)
Example slots_collide :
  (hs ← ggml_hash_set_new 3; r ← slots hs [16; 64; 16; 96]; Ok r.2) = Ok [1; 2; 1; 0] /\
  (hs ← ggml_hash_set_new 3; r ← slots hs [16; 64; 16; 96]; ggml_hash_find_or_insert r.1 128) = Err AssertFailed.
Proof. split; vm_compute; reflexivity. Qed.
