(* ===== verification/GraphAlloc.v ===== *)
(** * The graph allocator: src/ggml/src/ggml-alloc.c

    [ggml_gallocr] decides for each tensor of a compute graph where in which buffer it lives,
    so that tensors that are not needed at the same time share memory.  A tensor is identified
    by its address; [T] gives its fields, which the allocator only reads, and [alloc_size] is
    [ggml_backend_buft_get_alloc_size] of a buffer type. *)

From S2P Require Import Prelude Alloc.

Inductive ggml_op : Set :=
  | GGML_OP_NONE | GGML_OP_DUP | GGML_OP_ADD | GGML_OP_ADD_ID | GGML_OP_ADD1 | GGML_OP_ACC | GGML_OP_SUB
  | GGML_OP_MUL | GGML_OP_DIV | GGML_OP_SQR | GGML_OP_SQRT | GGML_OP_LOG | GGML_OP_SIN | GGML_OP_COS | GGML_OP_SUM
  | GGML_OP_SUM_ROWS | GGML_OP_CUMSUM | GGML_OP_MEAN | GGML_OP_ARGMAX | GGML_OP_COUNT_EQUAL | GGML_OP_REPEAT
  | GGML_OP_REPEAT_BACK | GGML_OP_CONCAT | GGML_OP_SILU_BACK | GGML_OP_NORM | GGML_OP_RMS_NORM
  | GGML_OP_RMS_NORM_BACK | GGML_OP_GROUP_NORM | GGML_OP_L2_NORM | GGML_OP_MUL_MAT | GGML_OP_MUL_MAT_ID
  | GGML_OP_OUT_PROD | GGML_OP_SCALE | GGML_OP_SET | GGML_OP_CPY | GGML_OP_CONT | GGML_OP_RESHAPE | GGML_OP_VIEW
  | GGML_OP_PERMUTE | GGML_OP_TRANSPOSE | GGML_OP_GET_ROWS | GGML_OP_GET_ROWS_BACK | GGML_OP_SET_ROWS | GGML_OP_DIAG
  | GGML_OP_DIAG_MASK_INF | GGML_OP_DIAG_MASK_ZERO | GGML_OP_SOFT_MAX | GGML_OP_SOFT_MAX_BACK | GGML_OP_ROPE
  | GGML_OP_ROPE_BACK | GGML_OP_CLAMP | GGML_OP_CONV_TRANSPOSE_1D | GGML_OP_IM2COL | GGML_OP_IM2COL_BACK
  | GGML_OP_IM2COL_3D | GGML_OP_COL2IM_1D | GGML_OP_CONV_2D | GGML_OP_CONV_3D | GGML_OP_CONV_2D_DW
  | GGML_OP_CONV_TRANSPOSE_2D | GGML_OP_POOL_1D | GGML_OP_POOL_2D | GGML_OP_POOL_2D_BACK | GGML_OP_UPSCALE
  | GGML_OP_PAD | GGML_OP_PAD_REFLECT_1D | GGML_OP_ROLL | GGML_OP_ARANGE | GGML_OP_TIMESTEP_EMBEDDING
  | GGML_OP_ARGSORT | GGML_OP_TOP_K | GGML_OP_LEAKY_RELU | GGML_OP_TRI | GGML_OP_FILL | GGML_OP_FLASH_ATTN_EXT
  | GGML_OP_FLASH_ATTN_BACK | GGML_OP_SSM_CONV | GGML_OP_SSM_SCAN | GGML_OP_WIN_PART | GGML_OP_WIN_UNPART
  | GGML_OP_GET_REL_POS | GGML_OP_ADD_REL_POS | GGML_OP_RWKV_WKV6 | GGML_OP_GATED_LINEAR_ATTN | GGML_OP_RWKV_WKV7
  | GGML_OP_SOLVE_TRI | GGML_OP_GATED_DELTA_NET | GGML_OP_TURBO_WHT | GGML_OP_GATHER_PAGED_V | GGML_OP_UNARY
  | GGML_OP_MAP_CUSTOM1 | GGML_OP_MAP_CUSTOM2 | GGML_OP_MAP_CUSTOM3 | GGML_OP_CUSTOM | GGML_OP_CROSS_ENTROPY_LOSS
  | GGML_OP_CROSS_ENTROPY_LOSS_BACK | GGML_OP_OPT_STEP_ADAMW | GGML_OP_OPT_STEP_SGD | GGML_OP_GLU.

#[export] Instance ggml_op_eq_dec : EqDecision ggml_op.
Proof. solve_decision. Defined.

Definition ggml_op_can_inplace (op : ggml_op) : bool :=
  match op with
  | GGML_OP_FILL | GGML_OP_SCALE | GGML_OP_DIAG_MASK_ZERO | GGML_OP_DIAG_MASK_INF | GGML_OP_ADD | GGML_OP_ADD_ID | 
    GGML_OP_ADD1 | GGML_OP_SUB | GGML_OP_MUL | GGML_OP_DIV | GGML_OP_SQR | GGML_OP_SQRT | 
    GGML_OP_LOG | GGML_OP_UNARY | GGML_OP_ROPE | GGML_OP_ROPE_BACK | GGML_OP_SILU_BACK | GGML_OP_RMS_NORM | 
    GGML_OP_RMS_NORM_BACK | GGML_OP_SOFT_MAX | GGML_OP_SOFT_MAX_BACK => true
  | _ => false
  end.

Definition GGML_TENSOR_FLAG_INPUT : Z := 1.
Definition GGML_TENSOR_FLAG_OUTPUT : Z := 2.

(** The fields the allocator reads; a null pointer is [None], [0] for [data] and [false] for [buffer]. *)
Record ggml_tensor : Type := mk_tensor {
  t_type     : Z;
  t_buffer   : bool;
  t_ne       : list Z;
  t_nb       : list Z;
  t_op       : ggml_op;
  t_flags    : Z;
  t_src      : list (option nat);
  t_view_src : option nat;
  t_data     : Z
}.

Definition has_flag (t : ggml_tensor) (flag : Z) : bool := negb (Z.land (t_flags t) flag =? 0).
Definition ggml_impl_is_view (t : ggml_tensor) : bool := match t_view_src t with Some _ => true | None => false end.

Definition ggml_are_same_layout (a b : ggml_tensor) : bool :=
  (t_type a =? t_type b) && bool_decide (t_ne a = t_ne b) && bool_decide (t_nb a = t_nb b).

Record ggml_cgraph : Type := mk_graph { g_nodes : list nat; g_leafs : list nat }.

Record hash_node : Type := mk_node {
  n_children : Z;
  n_views    : Z;
  buffer_id  : Z;
  addr       : buffer_address;
  allocated  : bool
}.

Definition zero_node : hash_node := mk_node 0 0 0 (mk_addr 0 0) false.

(** Buffers of the same type share an allocator: [ga_buf_tallocs] says which one each buffer
    uses.  The hash table is a map; a tensor that was not looked up has zeroes. *)
Record ggml_gallocr : Type := mk_galloc {
  ga_bufts       : list Z;
  ga_buf_tallocs : list nat;
  ga_tallocs     : list ggml_dyn_tallocr;
  ga_hash        : gmap nat hash_node
}.

Definition with_tallocs (ts : list ggml_dyn_tallocr) (g : ggml_gallocr) : ggml_gallocr := mk_galloc (ga_bufts g) (ga_buf_tallocs g) ts (ga_hash g).
Definition with_hash (h : gmap nat hash_node) (g : ggml_gallocr) : ggml_gallocr := mk_galloc (ga_bufts g) (ga_buf_tallocs g) (ga_tallocs g) h.

Definition hash_get (g : ggml_gallocr) (t : nat) : hash_node := default zero_node (ga_hash g !! t).
Definition hash_put (g : ggml_gallocr) (t : nat) (n : hash_node) : ggml_gallocr := with_hash (<[t := n]> (ga_hash g)) g.

Definition add_children (d : Z) (n : hash_node) : hash_node := mk_node (n_children n + d) (n_views n) (buffer_id n) (addr n) (allocated n).
Definition add_views (d : Z) (n : hash_node) : hash_node := mk_node (n_children n) (n_views n + d) (buffer_id n) (addr n) (allocated n).
Definition set_allocated (b : bool) (n : hash_node) : hash_node := mk_node (n_children n) (n_views n) (buffer_id n) (addr n) b.
Definition set_place (b : Z) (a : buffer_address) (n : hash_node) : hash_node := mk_node (n_children n) (n_views n) b a (allocated n).

Definition hash_upd (g : ggml_gallocr) (t : nat) (f : hash_node -> hash_node) : ggml_gallocr := hash_put g t (f (hash_get g t)).

Section backend.
Context (buft_alignment buft_max_size : Z -> Z).

(** One buffer of [ggml_gallocr_new_n]. *)
Definition add_buffer (bufts : list Z) (st : list nat * list ggml_dyn_tallocr) (i : nat) : res (list nat * list ggml_dyn_tallocr) :=
  let '(bt, ts) := st in
  b ← vec_get bufts i;
  match list_find (fun b' => b' = b) (take i bufts) with
  | Some (j, _) => k ← vec_get bt j; Ok (bt ++ [k], ts)
  | None => Ok (bt ++ [length ts], ts ++ [ggml_dyn_tallocr_new (buft_alignment b) (buft_max_size b)])
  end.

Definition ggml_gallocr_new_n (bufts : list Z) : res ggml_gallocr :=
  '(bt, ts) ← mfor (add_buffer bufts) (seq 0 (length bufts)) ([], []);
  Ok (mk_galloc bufts bt ts ∅).
End backend.

Section tensors.
Context (T : nat -> ggml_tensor) (alloc_size : Z -> nat -> Z).

Definition ggml_gallocr_is_own (g : ggml_gallocr) (t : nat) : bool := allocated (hash_get g t).

Definition ggml_gallocr_is_allocated (g : ggml_gallocr) (t : nat) : bool :=
  negb (t_data (T t) =? 0) || t_buffer (T t) || ggml_gallocr_is_own g t.

(** The index and the state of the allocator of buffer [b]. *)
Definition talloc_of (g : ggml_gallocr) (b : Z) : res (nat * ggml_dyn_tallocr) :=
  k ← vec_getZ (ga_buf_tallocs g) b; a ← vec_get (ga_tallocs g) k; Ok (k, a).

Definition put_talloc (g : ggml_gallocr) (k : nat) (a : ggml_dyn_tallocr) : res ggml_gallocr :=
  ts ← vec_set (ga_tallocs g) k a; Ok (with_tallocs ts g).

Definition ggml_gallocr_free_extra_space (g : ggml_gallocr) (node parent : nat) : res ggml_gallocr :=
  let hn := hash_get g node in
  let p_hn := hash_get g parent in
  pb ← vec_getZ (ga_bufts g) (buffer_id p_hn);
  nb ← vec_getZ (ga_bufts g) (buffer_id hn);
  let parent_size := alloc_size pb parent in
  let node_size := alloc_size nb node in
  _ ← assert_ (node_size <=? parent_size);
  '(k, a) ← talloc_of g (buffer_id p_hn);
  parent_size ← aligned_offset 0 parent_size (da_alignment a);
  node_size ← aligned_offset 0 node_size (da_alignment a);
  if node_size <? parent_size then
    a ← ggml_dyn_tallocr_free_bytes a (mk_addr (ad_chunk (addr p_hn)) (usize (ad_offset (addr p_hn) + node_size))) (parent_size - node_size);
    put_talloc g k a
  else Ok g.

Definition is_output (t : ggml_tensor) : bool := has_flag t GGML_TENSOR_FLAG_OUTPUT.

(** A parent that is an output, or a view of one. *)
Definition is_output_or_view (parent : nat) : bool :=
  is_output (T parent) || match t_view_src (T parent) with Some v => is_output (T v) | None => false end.

(** Take over the place of the parent; [view_src] is the tensor that owns the memory. *)
Definition reuse_parent (g : ggml_gallocr) (node parent : nat) : ggml_gallocr :=
  let p_hn := hash_get g parent in
  let g := hash_upd g node (set_place (buffer_id p_hn) (addr p_hn)) in
  hash_upd g parent (set_allocated false).

(** The loop over the sources; [None] when no parent can be reused. *)
Fixpoint reuse_loop (g : ggml_gallocr) (node : nat) (srcs : list (option nat)) : res (option ggml_gallocr) :=
  match srcs with
  | [] => Ok None
  | None :: srcs => reuse_loop g node srcs
  | Some parent :: srcs =>
      if negb (ggml_gallocr_is_own g parent) then reuse_loop g node srcs
      else if is_output_or_view parent then reuse_loop g node srcs
      else if negb (ggml_are_same_layout (T node) (T parent)) then reuse_loop g node srcs
      else
      let p_hn := hash_get g parent in
      if (n_children p_hn =? 1) && (n_views p_hn =? 0) then
        match t_view_src (T parent) with
        | Some view_src =>
            let v_hn := hash_get g view_src in
            if (n_views v_hn =? 1) && (n_children v_hn =? 0) && (t_data (T view_src) =? t_data (T parent)) then
              _ ← assert_ ((ad_chunk (addr v_hn) =? ad_chunk (addr p_hn)) && (ad_offset (addr v_hn) =? ad_offset (addr p_hn)));
              let g := hash_upd (reuse_parent g node parent) view_src (set_allocated false) in
              g ← ggml_gallocr_free_extra_space g node view_src; Ok (Some g)
            else reuse_loop g node srcs
        | None => g ← ggml_gallocr_free_extra_space (reuse_parent g node parent) node parent; Ok (Some g)
        end
      else reuse_loop g node srcs
  end.

Definition allocate_fresh (g : ggml_gallocr) (node : nat) (buffer : Z) : res ggml_gallocr :=
  '(k, a) ← talloc_of g buffer;
  b ← vec_getZ (ga_bufts g) buffer;
  '(a, ad) ← ggml_dyn_tallocr_alloc a (alloc_size b node);
  g ← put_talloc g k a;
  Ok (hash_upd g node (set_place buffer ad)).

Definition ggml_gallocr_allocate_node (g : ggml_gallocr) (node : nat) (buffer : Z) : res ggml_gallocr :=
  _ ← assert_ (0 <=? buffer);
  if negb (ggml_gallocr_is_allocated g node) && negb (ggml_impl_is_view (T node)) then
    let g := hash_upd g node (set_allocated true) in
    _ ← assert_ (ad_offset (addr (hash_get g node)) =? 0);
    r ← (if ggml_op_can_inplace (t_op (T node)) then reuse_loop g node (t_src (T node)) else Ok None);
    match r with Some g => Ok g | None => allocate_fresh g node buffer end
  else Ok g.

Definition ggml_gallocr_free_node (g : ggml_gallocr) (node : nat) : res ggml_gallocr :=
  if is_output (T node) then Ok g else
  let hn := hash_get g node in
  '(k, a) ← talloc_of g (buffer_id hn);
  b ← vec_getZ (ga_bufts g) (buffer_id hn);
  a ← ggml_dyn_tallocr_free_bytes a (addr hn) (alloc_size b node);
  g ← put_talloc g k a;
  Ok (hash_upd g node (set_allocated false)).

Definition get_node_buffer_id (ids : option (list Z)) (i : nat) : res Z :=
  match ids with Some l => vec_get l i | None => Ok 0 end.

(** *** [ggml_gallocr_alloc_graph_impl] *)

Definition leaf_step (graph : ggml_cgraph) (leaf_ids : option (list Z)) (g : ggml_gallocr) (i : nat) : res ggml_gallocr :=
  leaf ← vec_get (g_leafs graph) i; b ← get_node_buffer_id leaf_ids i; ggml_gallocr_allocate_node g leaf b.

(** Count a child, and allocate explicit inputs. *)
Definition count_src (b : res Z) (g : ggml_gallocr) (src : option nat) : res ggml_gallocr :=
  match src with
  | None => Ok g
  | Some s =>
      let g := hash_upd g s (add_children 1) in
      if has_flag (T s) GGML_TENSOR_FLAG_INPUT then b ← b; ggml_gallocr_allocate_node g s b else Ok g
  end.

Definition count_step (graph : ggml_cgraph) (node_ids : option (list Z)) (g : ggml_gallocr) (i : nat) : res ggml_gallocr :=
  node ← vec_get (g_nodes graph) i;
  let g := match t_view_src (T node) with
           | Some v => if bool_decide (t_op (T node) = GGML_OP_NONE) then g else hash_upd g v (add_views 1)
           | None => g end in
  let b := get_node_buffer_id node_ids i in
  g ← (if has_flag (T node) GGML_TENSOR_FLAG_INPUT then b ← b; ggml_gallocr_allocate_node g node b else Ok g);
  mfor (count_src b) (t_src (T node)) g.

Definition allocate_src (b : Z) (g : ggml_gallocr) (src : option nat) : res ggml_gallocr :=
  match src with None => Ok g | Some s => ggml_gallocr_allocate_node g s b end.

(** A source has one reader less. *)
Definition release_src (g : ggml_gallocr) (src : option nat) : res ggml_gallocr :=
  match src with
  | None => Ok g
  | Some s =>
      let g := hash_upd g s (add_children (-1)) in
      let hn := hash_get g s in
      if (n_children hn =? 0) && (n_views hn =? 0) then
        match t_view_src (T s) with
        | Some v =>
            let g := hash_upd g v (add_views (-1)) in
            let v_hn := hash_get g v in
            if (n_views v_hn =? 0) && (n_children v_hn =? 0) && allocated v_hn then ggml_gallocr_free_node g v else Ok g
        | None => if allocated hn then ggml_gallocr_free_node g s else Ok g
        end
      else Ok g
  end.

Definition node_step (graph : ggml_cgraph) (node_ids : option (list Z)) (g : ggml_gallocr) (i : nat) : res ggml_gallocr :=
  node ← vec_get (g_nodes graph) i;
  b ← get_node_buffer_id node_ids i;
  g ← mfor (allocate_src b) (t_src (T node)) g;
  g ← ggml_gallocr_allocate_node g node b;
  mfor release_src (t_src (T node)) g.

Definition ggml_gallocr_alloc_graph_impl (g : ggml_gallocr) (graph : ggml_cgraph) (node_ids leaf_ids : option (list Z)) : res ggml_gallocr :=
  let g := with_hash ∅ g in
  g ← mfor (leaf_step graph leaf_ids) (seq 0 (length (g_leafs graph))) g;
  g ← mfor (count_step graph node_ids) (seq 0 (length (g_nodes graph))) g;
  mfor (node_step graph node_ids) (seq 0 (length (g_nodes graph))) g.

(** Reset the allocators and plan the graph: the part of [ggml_gallocr_reserve_n_impl] before
    the assignments are copied to arrays. *)
Definition plan_graph (g : ggml_gallocr) (graph : ggml_cgraph) (node_ids leaf_ids : option (list Z)) : res ggml_gallocr :=
  ggml_gallocr_alloc_graph_impl (with_tallocs (ggml_dyn_tallocr_reset <$> ga_tallocs g) g) graph node_ids leaf_ids.
End tensors.
