(* ===== verification/GraphOps.v ===== *)
(** * The places of the graph allocator

    The tensors that own memory, as a list, and the live regions of every allocator that this
    gives; what the operations of [ggml_gallocr] do to it. *)

From S2P Require Import Prelude Alloc AllocTheory AllocProps AllocRun GraphAlloc.

Section inv.
Context (alloc_size : Z -> nat -> Z).

(** ** Where a tensor is *)

Definition bytes_in (g : ggml_gallocr) (t : nat) : Z :=
  match ga_bufts g !! Z.to_nat (buffer_id (hash_get g t)) with Some b => alloc_size b t | None => 0 end.

Definition region_in (g : ggml_gallocr) (t : nat) : region :=
  mk_region (Z.to_nat (ad_chunk (addr (hash_get g t)))) (ad_offset (addr (hash_get g t))) (bytes_in g t).

(** The allocator it is in. *)
Definition home (g : ggml_gallocr) (t : nat) : option nat := ga_buf_tallocs g !! Z.to_nat (buffer_id (hash_get g t)).

Definition live_in (g : ggml_gallocr) (k : nat) (al : list nat) : list region := region_in g <$> filter (fun t => home g t = Some k) al.

Definition same_place (g g' : ggml_gallocr) (t : nat) : Prop :=
  buffer_id (hash_get g' t) = buffer_id (hash_get g t) /\ addr (hash_get g' t) = addr (hash_get g t).

Definition same_buffers (g g' : ggml_gallocr) : Prop := ga_bufts g' = ga_bufts g /\ ga_buf_tallocs g' = ga_buf_tallocs g.

Lemma place_region g g' t : same_buffers g g' -> same_place g g' t -> region_in g' t = region_in g t /\ home g' t = home g t.
Proof. intros [E1 E2] [E3 E4]. unfold region_in, bytes_in, home. by rewrite E1, E2, E3, E4. Qed.

Lemma live_in_ext g g' k al : same_buffers g g' -> (forall t, t ∈ al -> same_place g g' t) -> live_in g' k al = live_in g k al.
Proof.
  intros HB H. unfold live_in. induction al as [|t al IH]; [done|]. rewrite !filter_cons. destruct (place_region g g' t HB (H t ltac:(set_solver))) as [E1 E2].
  rewrite E2. destruct (decide (home g t = Some k)); cbn; rewrite ?E1, IH; set_solver.
Qed.

Lemma live_in_cons g k t al : live_in g k (t :: al) = if decide (home g t = Some k) then region_in g t :: live_in g k al else live_in g k al.
Proof. unfold live_in. rewrite filter_cons. by destruct (decide _). Qed.

Lemma live_in_perm g k al al' : al ≡ₚ al' -> live_in g k al ≡ₚ live_in g k al'.
Proof. intros H. unfold live_in. by rewrite H. Qed.

Lemma length_live_in g k al : (length (live_in g k al) <= length al)%nat.
Proof. unfold live_in. rewrite length_fmap. apply length_filter. Qed.

(** ** The invariant *)

Definition own (g : ggml_gallocr) (t : nat) : Prop := allocated (hash_get g t) = true.

(** [al] are the tensors that own memory, [m] counts the allocations, of at most [bound] bytes each. *)
Record galloc_inv (bound : Z) (g : ggml_gallocr) (al : list nat) (m : nat) : Prop := {
  gi_bufs  : forall b, 0 <= b < Z.of_nat (length (ga_bufts g)) -> exists k a, ga_buf_tallocs g !! Z.to_nat b = Some k /\ ga_tallocs g !! k = Some a;
  gi_nodup : NoDup al;
  gi_own   : forall t, t ∈ al <-> own g t;
  gi_place : forall t, t ∈ al -> 0 <= buffer_id (hash_get g t) < Z.of_nat (length (ga_bufts g)) /\ 0 <= ad_chunk (addr (hash_get g t));
  gi_alloc : forall k a, ga_tallocs g !! k = Some a -> alloc_inv a (live_in g k al);
  gi_max   : forall k a c, ga_tallocs g !! k = Some a -> max_size a c <= bound * Z.of_nat m
}.

Lemma hash_get_put g t n u : hash_get (hash_put g t n) u = if decide (u = t) then n else hash_get g u.
Proof.
  unfold hash_get, hash_put, with_hash. cbn [ga_hash]. case_decide as E; [subst; by rewrite lookup_insert_eq|by rewrite lookup_insert_ne].
Qed.

Lemma hash_get_upd g t f u : hash_get (hash_upd g t f) u = if decide (u = t) then f (hash_get g u) else hash_get g u.
Proof. unfold hash_upd. rewrite hash_get_put. case_decide as E; [by subst|done]. Qed.

Lemma talloc_of_ok bound g al m b : galloc_inv bound g al m -> 0 <= b < Z.of_nat (length (ga_bufts g)) ->
  exists k a bt, talloc_of g b = Ok (k, a) /\ vec_getZ (ga_bufts g) b = Ok bt /\ ga_buf_tallocs g !! Z.to_nat b = Some k /\ ga_tallocs g !! k = Some a /\ ga_bufts g !! Z.to_nat b = Some bt.
Proof.
  intros I Hb. destruct (gi_bufs _ _ _ _ I b Hb) as (k & a & Hk & Ha). destruct (lookup_lt_is_Some_2 (ga_bufts g) (Z.to_nat b)) as [bt Hbt]; [lia|].
  exists k, a, bt. unfold talloc_of, vec_getZ. rewrite (proj2 (Z.leb_le 0 b)) by lia. rewrite (proj2 (vec_get_ok _ _ _) Hk). cbn [mbind res_bind].
  rewrite (proj2 (vec_get_ok _ _ _) Ha). cbn [mbind res_bind]. split_and!; try done. by apply vec_get_ok.
Qed.

(** Only the counts of children and views change. *)
Lemma galloc_inv_ext bound g g' al m : galloc_inv bound g al m -> same_buffers g g' -> ga_tallocs g' = ga_tallocs g ->
  (forall t, same_place g g' t /\ allocated (hash_get g' t) = allocated (hash_get g t)) -> galloc_inv bound g' al m.
Proof.
  intros [I1 I2 I3 I4 I5 I6] HB HT H. pose proof HB as [E1 E2]. split; try done.
  - intros b Hb. rewrite E1 in Hb. rewrite E2, HT. by apply I1.
  - intros t. rewrite I3. unfold own. by rewrite (proj2 (H t)).
  - intros t Ht. rewrite E1. destruct (H t) as [[-> ->] _]. by apply I4.
  - intros k a Ha. rewrite HT in Ha. rewrite (live_in_ext g g') by (done || (intros; apply H)). by apply I5.
  - intros k a c Ha. rewrite HT in Ha. by apply (I6 k).
Qed.

Lemma galloc_inv_perm bound g al al' m : al ≡ₚ al' -> galloc_inv bound g al m -> galloc_inv bound g al' m.
Proof.
  intros HP [I1 I2 I3 I4 I5 I6]. split; try done.
  - by rewrite <- HP.
  - intros t. by rewrite <- HP.
  - intros t. rewrite <- HP. apply I4.
  - intros k a Ha. apply (alloc_inv_perm a (live_in g k al)); [by apply live_in_perm|by apply I5].
Qed.
End inv.

(** * The operations of the graph allocator

    Allocating a tensor, giving it the place of a parent, releasing it: each keeps the
    invariant and leaves every other tensor where it is. *)

(** The allocators keep their alignment and their chunks do not shrink. *)
Definition grows (g g' : ggml_gallocr) : Prop :=
  da_alignment <$> ga_tallocs g' = da_alignment <$> ga_tallocs g /\
  forall k a a', ga_tallocs g !! k = Some a -> ga_tallocs g' !! k = Some a' -> forall c, max_size a c <= max_size a' c.

(** Nothing but the place of [t] and the marks of ownership changes. *)
Record moved (t : nat) (g g' : ggml_gallocr) : Prop := {
  mv_buffers : same_buffers g g';
  mv_grows   : grows g g';
  mv_count   : forall u, n_children (hash_get g' u) = n_children (hash_get g u) /\ n_views (hash_get g' u) = n_views (hash_get g u);
  mv_place   : forall u, u <> t -> same_place g g' u
}.

Lemma grows_refl g : grows g g.
Proof. split; [done|]. intros k a a' H H' c. assert (a' = a) as -> by congruence. lia. Qed.

Lemma grows_trans g1 g2 g3 : grows g1 g2 -> grows g2 g3 -> grows g1 g3.
Proof.
  intros [E1 H1] [E2 H2]. split; [congruence|]. intros k a1 a3 Ha1 Ha3 c. assert (exists a2, ga_tallocs g2 !! k = Some a2) as [a2 Ha2].
  { assert (Hl : (da_alignment <$> ga_tallocs g2) !! k = Some (da_alignment a1)) by (rewrite E1, list_lookup_fmap, Ha1; done).
    apply list_lookup_fmap_Some in Hl as (a2 & _ & H). by exists a2. }
  specialize (H1 k a1 a2 Ha1 Ha2 c). specialize (H2 k a2 a3 Ha2 Ha3 c). lia.
Qed.

Lemma grows_put g g' k a a' : ga_tallocs g !! k = Some a -> ga_tallocs g' = <[k := a']> (ga_tallocs g) -> da_alignment a' = da_alignment a ->
  (forall c, max_size a c <= max_size a' c) -> grows g g'.
Proof.
  intros Ha E Eal H. split.
  - rewrite E, list_fmap_insert, Eal. apply list_insert_id. by rewrite list_lookup_fmap, Ha.
  - intros k2 b b' Hb Hb' c. rewrite E in Hb'. apply list_lookup_insert_Some in Hb' as [(<- & <- & _)|[_ Hb']]; [assert (b = a) as -> by congruence; by apply H|].
    assert (b' = b) as -> by congruence. lia.
Qed.

Section ops.
Context (alloc_size : Z -> nat -> Z) (bound : Z).

Local Abbreviation galloc_inv := (galloc_inv alloc_size bound).
Local Abbreviation region_in := (region_in alloc_size).
Local Abbreviation live_in := (live_in alloc_size).

(** Tensor [t] fits in buffer [b]: what the loops need to know of the sizes. *)
Definition size_ok (g : ggml_gallocr) (b : Z) (t : nat) : Prop :=
  forall k a bt, ga_buf_tallocs g !! Z.to_nat b = Some k -> ga_tallocs g !! k = Some a -> ga_bufts g !! Z.to_nat b = Some bt ->
    0 < alloc_size bt t /\ padded (da_alignment a) (alloc_size bt t) <= bound.

(** One allocator is replaced. *)
Lemma galloc_inv_put g g' al al' m m' k a a' : galloc_inv g al m -> same_buffers g g' -> ga_tallocs g !! k = Some a -> ga_tallocs g' = <[k := a']> (ga_tallocs g) ->
  NoDup al' -> (forall t, t ∈ al' <-> own g' t) ->
  (forall t, t ∈ al' -> 0 <= buffer_id (hash_get g' t) < Z.of_nat (length (ga_bufts g)) /\ 0 <= ad_chunk (addr (hash_get g' t))) ->
  alloc_inv a' (live_in g' k al') -> (forall k2, k2 <> k -> live_in g' k2 al' ≡ₚ live_in g k2 al) -> 0 <= bound -> (m <= m')%nat ->
  (forall c, max_size a' c <= bound * Z.of_nat m') -> galloc_inv g' al' m'.
Proof.
  intros I [E1 E2] Ha ET H1 H2 H3 H4 H5 Hb Hm H6. assert (Hk : (k < length (ga_tallocs g))%nat) by (by eapply lookup_lt_Some). split; try done.
  - intros b Hb'. rewrite E1 in Hb'. destruct (gi_bufs _ _ _ _ _ I b Hb') as (k2 & a2 & Hk2 & Ha2). exists k2. rewrite E2, ET. destruct (decide (k2 = k)) as [->|].
    + exists a'. by rewrite list_lookup_insert_eq.
    + exists a2. by rewrite list_lookup_insert_ne.
  - by rewrite E1.
  - intros k2 a2 Hk2. rewrite ET in Hk2. apply list_lookup_insert_Some in Hk2 as [(<- & <- & _)|[Hne Hk2]]; [done|].
    apply (alloc_inv_perm a2 (live_in g k2 al)); [symmetry; apply H5; congruence|by apply (gi_alloc _ _ _ _ _ I)].
  - intros k2 a2 c Hk2. rewrite ET in Hk2. apply list_lookup_insert_Some in Hk2 as [(<- & <- & _)|[Hne Hk2]]; [done|].
    pose proof (gi_max _ _ _ _ _ I k2 a2 c Hk2). nia.
Qed.

Lemma put_talloc_ok g k a a' : ga_tallocs g !! k = Some a -> put_talloc g k a' = Ok (with_tallocs (<[k := a']> (ga_tallocs g)) g).
Proof. intros H. unfold put_talloc, vec_set. rewrite decide_True by (by eapply lookup_lt_Some). done. Qed.

(** ** A new place *)

Lemma allocate_fresh_ok g t b al m : galloc_inv g al m -> t ∉ al -> 0 <= b < Z.of_nat (length (ga_bufts g)) -> (length al < 254)%nat ->
  size_ok g b t -> 0 <= bound -> bound * (Z.of_nat m + 1) <= SIZE_HALF ->
  exists g', allocate_fresh alloc_size (hash_upd g t (set_allocated true)) t b = Ok g' /\ galloc_inv g' (t :: al) (S m) /\ moved t g g' /\ (forall u, u <> t -> hash_get g' u = hash_get g u).
Proof.
  intros I Ht Hb Hl Hs Hbd Hm. destruct (talloc_of_ok _ _ _ _ _ b I Hb) as (k & a & bt & E1 & E2 & Hk & Ha & Hbt). destruct (Hs k a bt Hk Ha Hbt) as [Hpos Hpad].
  unfold allocate_fresh. change (talloc_of (hash_upd g t (set_allocated true)) b) with (talloc_of g b). change (ga_bufts (hash_upd g t (set_allocated true))) with (ga_bufts g).
  rewrite E1. cbn [mbind res_bind]. rewrite E2. cbn [mbind res_bind]. pose proof (gi_alloc _ _ _ _ _ I k a Ha) as Ia.
  destruct (alloc_ok a (live_in g k al) (alloc_size bt t) Ia Hpos) as (a' & c & o & Ealloc & Ia' & Eal & Hgrow).
  { intros c. pose proof (gi_max _ _ _ _ _ I k a c Ha). nia. }
  { apply (room_of a (live_in g k al) Ia). pose proof (length_live_in alloc_size g k al). lia. }
  rewrite Ealloc. cbn [mbind res_bind]. rewrite (put_talloc_ok (hash_upd g t (set_allocated true)) k a a' Ha). cbn [mbind res_bind]. eexists. split; [reflexivity|].
  set (g' := hash_upd (with_tallocs _ _) _ _).
  assert (Hh : forall u, hash_get g' u = if decide (u = t) then set_place b (mk_addr (Z.of_nat c) o) (set_allocated true (hash_get g u)) else hash_get g u).
  { intros u. unfold g'. rewrite hash_get_upd. change (hash_get (with_tallocs ?ts ?x) u) with (hash_get x u). rewrite hash_get_upd. by case_decide. }
  assert (HB : same_buffers g g') by done. assert (Hother : forall u, u <> t -> hash_get g' u = hash_get g u) by (intros u Hu; rewrite Hh; by rewrite decide_False).
  assert (Hht : hash_get g' t = set_place b (mk_addr (Z.of_nat c) o) (set_allocated true (hash_get g t))) by (rewrite Hh; by rewrite decide_True).
  assert (Hhome : home g' t = Some k) by (unfold home; rewrite Hht; exact Hk).
  assert (Hreg : region_in g' t = mk_region c o (alloc_size bt t)).
  { unfold GraphOps.region_in, bytes_in. rewrite Hht. cbn. rewrite Nat2Z.id. f_equal. by rewrite Hbt. }
  assert (Hlive : forall k2, live_in g' k2 al = live_in g k2 al) by (intros k2; apply live_in_ext; [done|]; intros u Hu; unfold same_place; rewrite Hother; [done|set_solver]).
  split; [|split; [|done]].
  - apply (galloc_inv_put g g' al (t :: al) m (S m) k a a'); try done.
    + by constructor; [|apply I].
    + intros u. unfold own. rewrite Hh, elem_of_cons. case_decide as E; [cbn; tauto|]. rewrite (gi_own _ _ _ _ _ I u). unfold own. tauto.
    + intros u [->|Hu]%elem_of_cons; [rewrite Hht; cbn; lia|]. rewrite Hother by set_solver. by apply (gi_place _ _ _ _ _ I).
    + rewrite live_in_cons, decide_True, Hreg, Hlive by done. exact Ia'.
    + intros k2 Hk2. rewrite live_in_cons, decide_False, Hlive by congruence. done.
    + lia.
    + intros d. specialize (Hgrow d). pose proof (gi_max _ _ _ _ _ I k a d Ha). lia.
  - split; [done| | |].
    + apply (grows_put g g' k a a' Ha); [done|done|]. intros d. apply Hgrow.
    + intros u. rewrite Hh. by case_decide.
    + intros u Hu. unfold same_place. by rewrite Hother.
Qed.

(** ** The place of a parent *)

Lemma take_tensor g al m p : galloc_inv g al m -> p ∈ al -> al ≡ₚ p :: filter (fun u => u <> p) al.
Proof.
  intros I Hp. apply NoDup_Permutation; [apply I| |].
  - constructor; [rewrite list_elem_of_filter; tauto|]. apply NoDup_filter, I.
  - intros u. rewrite elem_of_cons, list_elem_of_filter. destruct (decide (u = p)) as [->|]; tauto.
Qed.

(** The regions of an allocator with one of its tensors in front. *)
Lemma live_in_take g al m p k : galloc_inv g al m -> p ∈ al ->
  live_in g k al ≡ₚ if decide (home g p = Some k) then region_in g p :: live_in g k (filter (fun u => u <> p) al) else live_in g k (filter (fun u => u <> p) al).
Proof. intros I Hp. rewrite <- live_in_cons. by apply live_in_perm, (take_tensor g al m). Qed.

(** What is known of a tensor that owns memory. *)
Lemma own_place g al m p : galloc_inv g al m -> p ∈ al -> exists k a bt, talloc_of g (buffer_id (hash_get g p)) = Ok (k, a) /\
  vec_getZ (ga_bufts g) (buffer_id (hash_get g p)) = Ok bt /\ ga_bufts g !! Z.to_nat (buffer_id (hash_get g p)) = Some bt /\ home g p = Some k /\ ga_tallocs g !! k = Some a /\ bytes_in alloc_size g p = alloc_size bt p /\
  addr (hash_get g p) = mk_addr (Z.of_nat (rg_chunk (region_in g p))) (rg_offset (region_in g p)) /\
  alloc_inv a (region_in g p :: live_in g k (filter (fun u => u <> p) al)).
Proof.
  intros I Hp. destruct (gi_place _ _ _ _ _ I p Hp) as [Hb Hc]. destruct (talloc_of_ok _ _ _ _ _ _ I Hb) as (k & a & bt & E1 & E2 & Hk & Ha & Hbt).
  exists k, a, bt. split_and!; try done.
  - unfold bytes_in. by rewrite Hbt.
  - cbn. rewrite Z2Nat.id by done. by destruct (addr (hash_get g p)).
  - pose proof (live_in_take g al m p k I Hp) as HP. rewrite decide_True in HP by done. apply (alloc_inv_perm a (live_in g k al)); [done|]. by apply (gi_alloc _ _ _ _ _ I).
Qed.

Lemma reuse_ok g t p al m bt : galloc_inv g al m -> t ∉ al -> p ∈ al -> (length al < 255)%nat -> 0 <= bound ->
  ga_bufts g !! Z.to_nat (buffer_id (hash_get g p)) = Some bt -> 0 < alloc_size bt t <= alloc_size bt p ->
  let g1 := reuse_parent (hash_upd g t (set_allocated true)) t p in
  exists g', ggml_gallocr_free_extra_space alloc_size g1 t p = Ok g' /\ galloc_inv g' (t :: filter (fun u => u <> p) al) m /\ moved t g g' /\
    buffer_id (hash_get g' t) = buffer_id (hash_get g p) /\ addr (hash_get g' t) = addr (hash_get g p) /\ forall u, u <> t -> u <> p -> hash_get g' u = hash_get g u.
Proof.
  intros I Ht Hp Hlen Hbd Hbt Hsz g1. assert (Htp : t <> p) by (by intros ->). destruct (own_place g al m p I Hp) as (k & a & bt' & E1 & E2 & E3 & Hhome & Ha & Ebytes & Eaddr & Ia).
  assert (bt' = bt) as -> by congruence.
  set (al0 := filter (fun u => u <> p) al) in *. set (r := region_in g p) in *. set (n := alloc_size bt t) in *.
  assert (Hh : forall u, hash_get g1 u = if decide (u = t) then set_place (buffer_id (hash_get g p)) (addr (hash_get g p)) (set_allocated true (hash_get g t))
     else if decide (u = p) then set_allocated false (hash_get g p) else hash_get g u).
  { intros u. unfold g1, reuse_parent. rewrite !hash_get_upd. rewrite (decide_False (P := p = t)) by done. by destruct (decide (u = t)), (decide (u = p)); subst. }
  assert (Eb : bytes_in alloc_size g p = rg_bytes r) by done. rewrite Ebytes in Eb.
  assert (Ht1 : hash_get g1 t = set_place (buffer_id (hash_get g p)) (addr (hash_get g p)) (set_allocated true (hash_get g t))) by (rewrite Hh; by rewrite decide_True).
  assert (Hp1 : hash_get g1 p = set_allocated false (hash_get g p)) by (rewrite Hh; rewrite decide_False by done; by rewrite decide_True).
  unfold ggml_gallocr_free_extra_space. rewrite Ht1, Hp1. cbn [set_place set_allocated buffer_id addr].
  change (ga_bufts g1) with (ga_bufts g). change (talloc_of g1 ?b) with (talloc_of g b). rewrite E2. cbn [mbind res_bind]. fold n. rewrite assert_ok by lia. cbn [mbind res_bind].
  rewrite E1. cbn [mbind res_bind]. rewrite Eb, Eaddr. cbn [ad_chunk ad_offset]. fold r.
  assert (R : room a). { apply (room_of a _ Ia). pose proof (length_live_in alloc_size g k al0). pose proof (take_tensor g al m p I Hp) as HP. apply Permutation_length in HP. fold al0 in HP. cbn in *. lia. }
  destruct (shrink_ok a _ r n Ia R) as (E4 & E5 & a' & Hf & I2 & Eal & Hmx); [unfold n; lia|]. rewrite E4. cbn [mbind res_bind]. rewrite E5. cbn [mbind res_bind].
  assert (Hres : exists g', (if padded (da_alignment a) n <? padded (da_alignment a) (rg_bytes r)
     then a0 ← ggml_dyn_tallocr_free_bytes a (mk_addr (Z.of_nat (rg_chunk r)) (usize (rg_offset r + padded (da_alignment a) n))) (padded (da_alignment a) (rg_bytes r) - padded (da_alignment a) n); put_talloc g1 k a0
     else Ok g1) = Ok g' /\ ga_tallocs g' = <[k := a']> (ga_tallocs g) /\ (forall u, hash_get g' u = hash_get g1 u) /\ same_buffers g g').
  { destruct (_ <? _); [rewrite Hf; cbn [mbind res_bind]; rewrite (put_talloc_ok g1 k a a' Ha); by eexists|]. injection Hf as <-. exists g1. split_and!; try done. cbn. by rewrite list_insert_id. }
  destruct Hres as (g' & Eg & ET & Hg' & HB). exists g'. split; [done|].
  assert (Hother : forall u, u <> t -> u <> p -> hash_get g' u = hash_get g u) by (intros u H1 H2; by rewrite Hg', Hh, !decide_False).
  assert (Hsame : forall u, u <> t -> same_place g g' u). { intros u Hu. unfold same_place. rewrite Hg', Hh, decide_False by done. by case_decide; subst. }
  assert (Hreg : region_in g' t = mk_region (rg_chunk r) (rg_offset r) n /\ home g' t = home g p).
  { unfold GraphOps.region_in, home, bytes_in, r. rewrite (proj1 HB), (proj2 HB), Hg', Ht1. cbn. by rewrite E3. }
  destruct Hreg as [Hreg Hhome']. assert (Hlive : forall k2, live_in g' k2 al0 = live_in g k2 al0).
  { intros k2. apply live_in_ext; [done|]. intros u Hu. apply Hsame. apply list_elem_of_filter in Hu as [_ Hu]. by intros ->. }
  split; [|split; [|rewrite !Hg', Ht1; done]].
  - apply (galloc_inv_put g g' al (t :: al0) m m k a a'); try done.
    + constructor; [by intros [_ ?]%list_elem_of_filter|]. apply NoDup_filter, I.
    + intros u. unfold own. rewrite Hg', Hh, elem_of_cons. unfold al0. rewrite list_elem_of_filter, (gi_own _ _ _ _ _ I u). unfold own. repeat case_decide; subst; cbn; naive_solver.
    + intros u [->|[Hup Hu]%list_elem_of_filter]%elem_of_cons.
      * rewrite Hg', Ht1. cbn. by apply (gi_place _ _ _ _ _ I).
      * destruct (Hsame u) as [-> ->]; [by intros ->|]. by apply (gi_place _ _ _ _ _ I).
    + rewrite live_in_cons, Hhome', decide_True, Hreg, Hlive by done. exact I2.
    + intros k2 Hk2. rewrite live_in_cons, Hhome', decide_False, Hlive by congruence. rewrite (live_in_take g al m p k2 I Hp), decide_False by congruence. done.
    + intros d. rewrite Hmx. by apply (gi_max _ _ _ _ _ I k).
  - split; [done|apply (grows_put g g' k a a' Ha); [done|done|intros d; rewrite Hmx; lia]| |done].
    intros u. rewrite Hg', Hh. by repeat case_decide; subst.
Qed.

(** ** Release *)

Context (T : nat -> ggml_tensor).

Lemma free_node_ok g t al m : galloc_inv g al m -> t ∈ al -> (length al < 255)%nat -> 0 <= bound -> is_output (T t) = false ->
  exists g', ggml_gallocr_free_node T alloc_size g t = Ok g' /\ galloc_inv g' (filter (fun u => u <> t) al) m /\ moved t g g' /\ same_place g g' t /\ forall u, u <> t -> hash_get g' u = hash_get g u.
Proof.
  intros I Ht Hlen Hbd Hout. destruct (own_place g al m t I Ht) as (k & a & bt & E1 & E2 & E3 & Hhome & Ha & Ebytes & Eaddr & Ia).
  set (al0 := filter (fun u => u <> t) al) in *. set (r := region_in g t) in *. unfold ggml_gallocr_free_node. rewrite Hout, E1. cbn [mbind res_bind]. rewrite E2. cbn [mbind res_bind].
  destruct (ai_region _ _ Ia r ltac:(set_solver)) as (B & _). assert (Eb : alloc_size bt t = rg_bytes r) by (by rewrite <- Ebytes). rewrite Eb, Eaddr. fold r.
  assert (R : room a). { apply (room_of a _ Ia). pose proof (length_live_in alloc_size g k al0). pose proof (take_tensor g al m t I Ht) as HP. apply Permutation_length in HP. fold al0 in HP. cbn in *. lia. }
  destruct (release_cases a _ r 0 (rg_bytes r) Ia R) as (a' & Hf & I2 & Eal & Hmx); [lia|done|rewrite decide_True by done; lia|].
  rewrite decide_True, Z.add_0_r in Hf by done. rewrite decide_True in I2 by done. cbn [app] in I2. rewrite Hf. cbn [mbind res_bind]. rewrite (put_talloc_ok g k a a' Ha). cbn [mbind res_bind].
  eexists. split; [reflexivity|]. set (g' := hash_upd _ t _).
  assert (Hh : forall u, hash_get g' u = if decide (u = t) then set_allocated false (hash_get g u) else hash_get g u) by (intros u; unfold g'; by rewrite hash_get_upd).
  assert (Hother : forall u, u <> t -> hash_get g' u = hash_get g u) by (intros u Hu; by rewrite Hh, decide_False).
  assert (HB : same_buffers g g') by done. assert (Hsame : forall u, same_place g g' u) by (intros u; unfold same_place; rewrite Hh; by case_decide).
  assert (Hlive : forall k2, live_in g' k2 al0 = live_in g k2 al0) by (intros k2; apply live_in_ext; [done|]; intros u _; apply Hsame).
  split; [|split; [|done]].
  - apply (galloc_inv_put g g' al al0 m m k a a'); try done.
    + apply NoDup_filter, I.
    + intros u. unfold own, al0. rewrite Hh, list_elem_of_filter, (gi_own _ _ _ _ _ I u). unfold own. case_decide; subst; cbn; naive_solver.
    + intros u [_ Hu]%list_elem_of_filter. destruct (Hsame u) as [-> ->]. by apply (gi_place _ _ _ _ _ I).
    + rewrite Hlive. exact I2.
    + intros k2 Hk2. rewrite Hlive, (live_in_take g al m t k2 I Ht), decide_False by congruence. done.
    + intros d. rewrite Hmx. by apply (gi_max _ _ _ _ _ I k).
  - split; [done|apply (grows_put g g' k a a' Ha); [done|done|intros d; rewrite Hmx; lia]| |done].
    intros u. rewrite Hh. by case_decide.
Qed.
End ops.
