(* ===== verification/GraphSpec.v ===== *)
(** * What a plan of the graph allocator has to guarantee

    Which tensors are still needed at a point of a graph, and what it means that the graph can be
    computed with the tensors in the places of the plan: every operation finds the values of its
    sources in memory and does not destroy them before it has read them, and the outputs are there
    at the end. *)

From S2P Require Import Prelude Alloc AllocTheory AllocProps GraphAlloc GraphOps.

Section graph.
Context (T : nat -> ggml_tensor) (alloc_size : Z -> nat -> Z) (G : ggml_cgraph).

Definition tensors_of : list nat := g_leafs G ++ g_nodes G.

(** The allocator has to place it: no data, no buffer, not a view. *)
Definition mine (t : nat) : bool := (t_data (T t) =? 0) && negb (t_buffer (T t)) && negb (ggml_impl_is_view (T t)).

(** The tensor whose memory is used. *)
Definition root (t : nat) : nat := default t (t_view_src (T t)).

Definition srcs_of (n : nat) : list nat := omap id (t_src (T n)).

(** The sources of a list of nodes, in order and with repetitions. *)
Definition uses (ns : list nat) : list nat := concat (srcs_of <$> ns).

Definition kids (U : list nat) (t : nat) : nat := length (filter (fun u => u = t) U).

(** The views of [t] that are operations of the graph. *)
Definition is_view_op (v : nat) : bool := ggml_impl_is_view (T v) && negb (bool_decide (t_op (T v) = GGML_OP_NONE)).
Definition view_nodes (t : nat) : list nat := filter (fun v => t_view_src (T v) = Some t /\ t_op (T v) <> GGML_OP_NONE) (g_nodes G).

(** A view that will be read in [U], or is never read. *)
Definition pending (U : list nat) (v : nat) : Prop := v ∈ U \/ v ∉ uses (g_nodes G).
Definition views (U : list nat) (t : nat) : nat := length (filter (pending U) (view_nodes t)).

(** Needed when the reads of [U] are still to come; a tensor that nobody reads counts as a result. *)
Definition wanted (U : list nat) (t : nat) : Prop :=
  is_output (T t) = true \/ kids U t <> 0%nat \/ views U t <> 0%nat \/
  (kids (uses (g_nodes G)) t = 0%nat /\ views (uses (g_nodes G)) t = 0%nat).

#[export] Instance wanted_dec U t : Decision (wanted U t).
Proof. unfold wanted. apply _. Defined.

Definition is_input (t : nat) : bool := has_flag (T t) GGML_TENSOR_FLAG_INPUT.

(** Given memory before the graph runs. *)
Definition starters : list nat := g_leafs G ++ filter (fun t => is_input t = true) (g_nodes G).

(** It has its place when node [i] is about to be planned. *)
Definition started (i : nat) (t : nat) : Prop := t ∈ starters \/ t ∈ take i (g_nodes G).

(** The tensors that hold memory before node [i]. *)
Definition live_at (i : nat) : list nat :=
  filter (fun t => mine t = true /\ started i t /\ wanted (uses (drop i (g_nodes G))) t) tensors_of.

(** ** Computing over an argument *)

(** The result of the operation may have the memory of argument [j]: its kernel
    (src/ggml/src/ggml-cpu/ops.cpp, binary-ops.cpp and unary-ops.cpp) has read an element, or a
    row, of the argument for the last time when it writes there.  Among the operations that the
    allocator computes in place, three have an argument where this is not so: [ADD_ID] reads the
    rows of its second argument in the order of the third; [RMS_NORM_BACK] writes its second
    argument to the result before it adds the first; [SOFT_MAX_BACK] writes the first to the result
    before it multiplies by the second. *)
Definition tolerates (op : ggml_op) (j : nat) : bool :=
  match op with
  | GGML_OP_ADD | GGML_OP_ADD1 | GGML_OP_SUB | GGML_OP_MUL | GGML_OP_DIV | GGML_OP_SILU_BACK | GGML_OP_SOFT_MAX => (j <? 2)%nat
  | GGML_OP_SQR | GGML_OP_SQRT | GGML_OP_LOG | GGML_OP_SCALE | GGML_OP_UNARY | GGML_OP_FILL | GGML_OP_ROPE | GGML_OP_ROPE_BACK
  | GGML_OP_RMS_NORM | GGML_OP_DIAG_MASK_INF | GGML_OP_DIAG_MASK_ZERO | GGML_OP_ADD_ID | GGML_OP_SOFT_MAX_BACK => (j =? 0)%nat
  | GGML_OP_RMS_NORM_BACK => (j =? 1)%nat
  | _ => false
  end.

(** ** Graphs as [ggml_build_forward_expand] makes them *)

Record graph_ok : Prop := {
  go_nodup : NoDup tensors_of;
  (* a source is a leaf or an earlier node *)
  go_src   : forall i n s, g_nodes G !! i = Some n -> s ∈ srcs_of n -> s ∈ g_leafs G \/ s ∈ take i (g_nodes G);
  (* [view_src] is never itself a view *)
  go_root  : forall t r, t ∈ tensors_of -> t_view_src (T t) = Some r -> t_view_src (T r) = None;
  (* the tensor that is viewed comes before the view *)
  go_view  : forall i n r, g_nodes G !! i = Some n -> t_view_src (T n) = Some r -> mine r = true -> r ∈ g_leafs G \/ r ∈ take i (g_nodes G);
  (* a view of a tensor of the graph that is read is an operation of the graph *)
  go_read  : forall s r, s ∈ uses (g_nodes G) -> t_view_src (T s) = Some r -> mine r = true -> s ∈ g_nodes G /\ t_op (T s) <> GGML_OP_NONE;
  (* leafs and inputs are not computed in place *)
  go_input : forall t, t ∈ starters -> ggml_op_can_inplace (t_op (T t)) = false;
  (* an operation that can be computed over one argument has no other one that it would be given *)
  go_over  : forall n j j' s, n ∈ g_nodes G -> tolerates (t_op (T n)) j' = true -> t_src (T n) !! j = Some (Some s) ->
               mine s = true -> is_output (T s) = false -> ggml_are_same_layout (T n) (T s) = true -> tolerates (t_op (T n)) j = true
}.

(** ** Execution *)

(** For every byte of every chunk of every allocator, the tensor whose value it is part of. *)
Definition memory : Type := nat -> nat -> Z -> option nat.

Definition in_place (g : ggml_gallocr) (t : nat) (k c : nat) (x : Z) : Prop :=
  home g t = Some k /\ rg_chunk (region_in alloc_size g t) = c /\ rg_offset (region_in alloc_size g t) <= x < rg_offset (region_in alloc_size g t) + bytes_in alloc_size g t.

#[export] Instance in_place_dec g t k c x : Decision (in_place g t k c x).
Proof. unfold in_place. apply _. Defined.

Definition write (g : ggml_gallocr) (t : nat) (M : memory) : memory := fun k c x => if decide (in_place g t k c x) then Some t else M k c x.

(** All bytes of [t] are its own. *)
Definition intact (g : ggml_gallocr) (M : memory) (t : nat) : Prop := forall k c x, in_place g t k c x -> M k c x = Some t.

(** The application fills the leafs and the inputs. *)
Definition initial (g : ggml_gallocr) : memory := foldr (write g) (fun _ _ _ => None) (filter (fun t => mine t = true) starters).

(** What node [n] reads: its sources, and for an operation on a view the viewed tensor. *)
Definition reads (n : nat) : list nat := (root <$> srcs_of n) ++ (if is_view_op n then [root n] else []).

(** [n] is computed in the memory of its argument [r], which it reads in no other way. *)
Definition over_argument (g : ggml_gallocr) (n r : nat) : Prop :=
  exists j, t_src (T n) !! j = Some (Some r) /\ tolerates (t_op (T n)) j = true /\ ggml_are_same_layout (T n) (T r) = true /\
    buffer_id (hash_get g n) = buffer_id (hash_get g r) /\ addr (hash_get g n) = addr (hash_get g r) /\ kids (reads n) r = 1%nat.

(** Writing [n] does not destroy [r] before it has been read. *)
Definition spares (g : ggml_gallocr) (n r : nat) : Prop :=
  (forall k c x, in_place g n k c x -> ~ in_place g r k c x) \/ over_argument g n r.

(** An output has its value at the end: in its own memory, or as a view that no node reads. *)
Definition output_there (g : ggml_gallocr) (M : memory) (t : nat) : Prop :=
  (mine t = true -> intact g M t) /\
  (t ∈ g_nodes G -> is_view_op t = true -> t ∉ uses (g_nodes G) -> mine (root t) = true -> intact g M (root t)).

Fixpoint computes (g : ggml_gallocr) (ns : list nat) (M : memory) : Prop :=
  match ns with
  | [] => forall t, t ∈ tensors_of -> is_output (T t) = true -> output_there g M t
  | n :: ns =>
      (forall r, r ∈ reads n -> mine r = true -> intact g M r /\ (mine n = true -> spares g n r)) /\
      computes g ns (if mine n then write g n M else M)
  end.
End graph.
