(* ===== verification/GraphPlan.v ===== *)
(** * Planning one tensor

    [ggml_gallocr_allocate_node] on a tensor that has no place yet, with what the loops of
    [ggml_gallocr_alloc_graph_impl] know at that point; then the first two loops: leafs, inputs and counting. *)

From S2P Require Import Prelude Alloc AllocTheory AllocProps AllocRun GraphAlloc GraphOps GraphSpec.

(** The fixed data of a planning problem: buffer types, their allocators and alignments. *)
Record setting : Type := mk_setting { se_bufts : list Z; se_bts : list nat; se_als : list Z; se_bound : Z }.

Definition base (se : setting) (g : ggml_gallocr) : Prop :=
  ga_bufts g = se_bufts se /\ ga_buf_tallocs g = se_bts se /\ da_alignment <$> ga_tallocs g = se_als se.

Definition buffer_ok (se : setting) (b : Z) : Prop := 0 <= b < Z.of_nat (length (se_bufts se)).

(** Sizes: positive, at most [se_bound] with padding, and determined by the layout at least so
    far that a tensor of the same layout is not larger. *)
Record sizes_ok (T : nat -> ggml_tensor) (alloc_size : Z -> nat -> Z) (G : ggml_cgraph) (se : setting) : Prop := {
  so_size   : forall t b bt k a, t ∈ tensors_of G -> mine T t = true -> se_bufts se !! b = Some bt -> se_bts se !! b = Some k -> se_als se !! k = Some a ->
    0 < alloc_size bt t /\ padded a (alloc_size bt t) <= se_bound se;
  so_layout : forall t p bt, t ∈ tensors_of G -> p ∈ tensors_of G -> ggml_are_same_layout (T t) (T p) = true -> bt ∈ se_bufts se -> alloc_size bt t <= alloc_size bt p;
  so_bound  : 0 <= se_bound se;
  so_total  : se_bound se * (2 * Z.of_nat (length (tensors_of G))) <= SIZE_HALF
}.

Section plan.
Context (T : nat -> ggml_tensor) (alloc_size : Z -> nat -> Z) (G : ggml_cgraph) (se : setting).
Context (SO : sizes_ok T alloc_size G se).

(** The counts of views are followed for views and for tensors of the allocator. *)
Definition tracked (t : nat) : Prop := mine T t = true \/ ggml_impl_is_view (T t) = true.

(** [al] owns memory; [D] has been placed; [kc] and [vc] are the counts of children and views. *)
Record plan_inv (g : ggml_gallocr) (al : list nat) (m : nat) (D : list nat) (kc vc : nat -> Z) : Prop := {
  pi_inv   : galloc_inv alloc_size (se_bound se) g al m;
  pi_base  : base se g;
  pi_kids  : forall t, n_children (hash_get g t) = kc t;
  pi_views : forall t, tracked t -> n_views (hash_get g t) = vc t;
  pi_mine  : forall t, t ∈ al -> t ∈ D /\ mine T t = true /\ t ∈ tensors_of G;
  pi_fresh : forall t, t ∉ D -> ad_offset (addr (hash_get g t)) = 0;
  pi_m     : (m <= length D)%nat
}.

Lemma mine_spec t : mine T t = true <-> t_data (T t) = 0 /\ t_buffer (T t) = false /\ t_view_src (T t) = None.
Proof.
  unfold mine, ggml_impl_is_view. rewrite !andb_true_iff, Z.eqb_eq, !negb_true_iff. destruct (t_view_src (T t)); naive_solver.
Qed.

Lemma mine_view t r : t_view_src (T t) = Some r -> mine T t = false.
Proof. intros H. destruct (mine T t) eqn:E; [|done]. apply mine_spec in E as (_ & _ & E). congruence. Qed.

(** ** Nothing to do *)

Lemma allocate_noop g al m D kc vc t b : plan_inv g al m D kc vc -> 0 <= b -> mine T t = false \/ t ∈ al -> ggml_gallocr_allocate_node T alloc_size g t b = Ok g.
Proof.
  intros I Hb H. unfold ggml_gallocr_allocate_node. rewrite (assert_ok (0 <=? b)) by by apply Z.leb_le. cbn [mbind res_bind].
  unfold ggml_gallocr_is_allocated, ggml_gallocr_is_own, ggml_impl_is_view. destruct H as [H|H].
  - unfold mine, ggml_impl_is_view in H. destruct (t_data (T t) =? 0), (t_buffer (T t)), (t_view_src (T t)); try done; cbn; by rewrite ?andb_false_r.
  - apply (gi_own _ _ _ _ _ (pi_inv _ _ _ _ _ _ I)) in H. unfold own in H. rewrite H, orb_true_r. done.
Qed.

(** ** A new place *)

(** The place of [p] is given to [t]. *)
Definition takes_over (al : list nat) (kc vc : nat -> Z) (t p : nat) : Prop :=
  p ∈ srcs_of T t /\ p ∈ al /\ is_output (T p) = false /\ kc p = 1 /\ vc p = 0 /\ ggml_are_same_layout (T t) (T p) = true.

Lemma buffer_size_ok g t b : base se g -> t ∈ tensors_of G -> mine T t = true -> size_ok alloc_size (se_bound se) g b t.
Proof using SO.
  intros (E1 & E2 & E3) Ht Hm k a bt Hk Ha Hbt. rewrite E2 in Hk. rewrite E1 in Hbt. apply (so_size _ _ _ _ SO t (Z.to_nat b) bt k); try done.
  rewrite <- E3, list_lookup_fmap, Ha. done.
Qed.

Section reuse.
Context (g : ggml_gallocr) (al : list nat) (m : nat) (D : list nat) (kc vc : nat -> Z) (I : plan_inv g al m D kc vc) (Hlen : (length al < 255)%nat).
Context (t : nat) (Ht : t ∈ tensors_of G) (Hmine : mine T t = true) (Hnew : t ∉ D).

Let g1 := hash_upd g t (set_allocated true).

Lemma not_own : t ∉ al.
Proof using I Hnew. intros H. apply (pi_mine _ _ _ _ _ _ I) in H as [? _]. done. Qed.

Lemma reuse_parent_ok p : takes_over al kc vc t p ->
  exists g', ggml_gallocr_free_extra_space alloc_size (reuse_parent g1 t p) t p = Ok g' /\ moved t g g' /\
    plan_inv g' (t :: filter (fun u => u <> p) al) m (D ++ [t]) kc vc /\
    buffer_id (hash_get g' t) = buffer_id (hash_get g p) /\ addr (hash_get g' t) = addr (hash_get g p).
Proof using SO I Hlen Ht Hmine Hnew.
  intros (Hsrc & Hp & _ & _ & _ & Hlay). destruct I as [J B Kc Vc Mi Fr Hm]. destruct (own_place alloc_size (se_bound se) g al m p J Hp) as (k & a & bt & E1 & E2 & E3 & Hhome & Ha & Eb & _ & Ia).
  destruct (Mi p Hp) as (HpD & HpM & HpT). destruct B as (B1 & B2 & B3).
  assert (Hsz : 0 < alloc_size bt t <= alloc_size bt p).
  { split; [|apply (so_layout _ _ _ _ SO); try done; rewrite <- B1; by eapply list_elem_of_lookup_2].
    destruct (so_size _ _ _ _ SO t (Z.to_nat (buffer_id (hash_get g p))) bt k (da_alignment a) Ht Hmine) as [H _]; [by rewrite <- B1|by rewrite <- B2|by rewrite <- B3, list_lookup_fmap, Ha|done]. }
  assert (Htal : t ∉ al) by (intros H; by destruct (Mi t H)).
  destruct (reuse_ok alloc_size (se_bound se) g t p al m bt J Htal Hp Hlen (so_bound _ _ _ _ SO) E3 Hsz) as (g' & Eg & J' & Mv & Eb' & Ea' & Hoth).
  exists g'. split; [exact Eg|]. split; [done|]. split; [|done]. destruct Mv as [[Q1 Q2] [Q3 Q4] Q5 Q6]. split; try done.
  - split_and!; congruence.
  - intros u. by rewrite (proj1 (Q5 u)).
  - intros u Hu. rewrite (proj2 (Q5 u)). by apply Vc.
  - intros u [->|[_ Hu]%list_elem_of_filter]%elem_of_cons; [split_and!; [set_solver|done|done]|]. destruct (Mi u Hu) as (H1 & H2 & H3). split_and!; [set_solver|done|done].
  - intros u Hu. rewrite elem_of_app, list_elem_of_singleton in Hu. destruct (Q6 u) as [_ ->]; [tauto|]. apply Fr. tauto.
  - rewrite length_app. lia.
Qed.

Lemma reuse_loop_ok srcs : (forall p, p ∈ omap id srcs -> p ∈ srcs_of T t) -> (forall p, p ∈ srcs_of T t -> p <> t) ->
  reuse_loop T alloc_size g1 t srcs = Ok None \/
  exists p g', reuse_loop T alloc_size g1 t srcs = Ok (Some g') /\ takes_over al kc vc t p /\ moved t g g' /\
    plan_inv g' (t :: filter (fun u => u <> p) al) m (D ++ [t]) kc vc /\
    buffer_id (hash_get g' t) = buffer_id (hash_get g p) /\ addr (hash_get g' t) = addr (hash_get g p).
Proof using SO I Hlen Ht Hmine Hnew.
  induction srcs as [|[p|] srcs IH]; intros Hs Hne; cbn [reuse_loop]; [by left| |by apply IH].
  assert (Hrec : forall q, q ∈ omap id srcs -> q ∈ srcs_of T t) by (intros q Hq; apply Hs; cbn; set_solver). specialize (IH Hrec Hne).
  assert (Hpsrc : p ∈ srcs_of T t) by (apply Hs; cbn; set_solver). assert (Hpt : p <> t) by (by apply Hne).
  assert (Eh : hash_get g1 p = hash_get g p) by (unfold g1; rewrite hash_get_upd; by rewrite decide_False).
  unfold ggml_gallocr_is_own. rewrite Eh. destruct (allocated (hash_get g p)) eqn:Hown; cbn [negb]; [|done].
  destruct (is_output_or_view T p) eqn:Hout; [done|]. destruct (ggml_are_same_layout (T t) (T p)) eqn:Hlay; cbn [negb]; [|done].
  destruct ((n_children (hash_get g p) =? 1) && (n_views (hash_get g p) =? 0)) eqn:Hcnt; [|done].
  assert (Hp : p ∈ al) by by apply (gi_own _ _ _ _ _ (pi_inv _ _ _ _ _ _ I)). destruct (pi_mine _ _ _ _ _ _ I p Hp) as (_ & HpM & _).
  destruct (proj1 (mine_spec p) HpM) as (_ & _ & Hv). rewrite Hv. right. apply andb_true_iff in Hcnt as [Hc1 Hc2]. apply Z.eqb_eq in Hc1, Hc2.
  assert (Hto : takes_over al kc vc t p).
  { split_and!; try done; [unfold is_output_or_view in Hout; by apply orb_false_iff in Hout as [? _]|by rewrite <- (pi_kids _ _ _ _ _ _ I)|]. rewrite <- (pi_views _ _ _ _ _ _ I); [done|by left]. }
  destruct (reuse_parent_ok p Hto) as (g' & Eg & H). rewrite Eg. cbn [mbind res_bind]. exists p, g'. split; [done|]. split; [done|]. exact H.
Qed.

Lemma allocate_new b : buffer_ok se b -> (length al < 254)%nat -> (length D < 2 * length (tensors_of G))%nat ->
  (ggml_op_can_inplace (t_op (T t)) = true -> forall p, p ∈ srcs_of T t -> p <> t) ->
  exists g' al' m', ggml_gallocr_allocate_node T alloc_size g t b = Ok g' /\ moved t g g' /\ plan_inv g' al' m' (D ++ [t]) kc vc /\
    (al' = t :: al \/ exists p, takes_over al kc vc t p /\ ggml_op_can_inplace (t_op (T t)) = true /\ al' = t :: filter (fun u => u <> p) al /\
      buffer_id (hash_get g' t) = buffer_id (hash_get g p) /\ addr (hash_get g' t) = addr (hash_get g p)).
Proof using SO I Hlen Ht Hmine Hnew.
  intros Hb Hl HD Hself. pose proof (proj1 (mine_spec t) Hmine) as (M1 & M2 & M3). unfold ggml_gallocr_allocate_node, buffer_ok in *. rewrite (assert_ok (0 <=? b)) by (apply Z.leb_le; lia).
  cbn [mbind res_bind]. unfold ggml_gallocr_is_allocated, ggml_gallocr_is_own, ggml_impl_is_view. rewrite M1, M2, M3.
  assert (Eown : allocated (hash_get g t) = false). { destruct (allocated (hash_get g t)) eqn:E; [|done]. by destruct not_own; apply (gi_own _ _ _ _ _ (pi_inv _ _ _ _ _ _ I)). }
  rewrite Eown. cbn [negb orb andb Z.eqb]. fold g1. assert (Ead : ad_offset (addr (hash_get g1 t)) = 0).
  { unfold g1. rewrite hash_get_upd, decide_True by done. cbn. by apply (pi_fresh _ _ _ _ _ _ I). }
  rewrite Ead. cbn [assert_ mbind res_bind Z.eqb].
  assert (Hfresh : exists g', allocate_fresh alloc_size g1 t b = Ok g' /\ moved t g g' /\ plan_inv g' (t :: al) (S m) (D ++ [t]) kc vc).
  { destruct I as [J B Kc Vc Mi Fr Hm]. pose proof B as (B1 & B2 & B3).
    destruct (allocate_fresh_ok alloc_size (se_bound se) g t b al m J not_own) as (g' & Eg & J' & Mv & Hoth); [by rewrite B1|done|by apply buffer_size_ok|apply SO|pose proof (so_total _ _ _ _ SO); pose proof (so_bound _ _ _ _ SO); nia|].
    exists g'. split; [done|]. split; [done|]. destruct Mv as [[Q1 Q2] [Q3 Q4] Q5 Q6]. split; try done.
    - split_and!; congruence.
    - intros u. by rewrite (proj1 (Q5 u)).
    - intros u Hu. rewrite (proj2 (Q5 u)). by apply Vc.
    - intros u [->|Hu]%elem_of_cons; [split_and!; [set_solver|done|done]|]. destruct (Mi u Hu) as (H1 & H2 & H3). split_and!; [set_solver|done|done].
    - intros u Hu. rewrite elem_of_app, list_elem_of_singleton in Hu. rewrite Hoth by tauto. apply Fr. tauto.
    - rewrite length_app. cbn. lia. }
  destruct Hfresh as (gf & Ef & Hf). destruct (ggml_op_can_inplace (t_op (T t))) eqn:Hin; cbn [mbind res_bind].
  - destruct (reuse_loop_ok (t_src (T t))) as [E|(p & g' & E & Hto & Hmv & Hpi & Had)]; [done|by apply Hself|rewrite E; cbn [mbind res_bind]|rewrite E; cbn [mbind res_bind]].
    + exists gf, (t :: al), (S m). split; [done|]. split; [apply Hf|]. split; [apply Hf|by left].
    + exists g', (t :: filter (fun u => u <> p) al), m. split_and!; try done. right. by exists p.
  - exists gf, (t :: al), (S m). split; [done|]. split; [apply Hf|]. split; [apply Hf|by left].
Qed.
End reuse.

(** ** Counting *)

Lemma kids_cons U s t : kids (s :: U) t = ((if decide (s = t) then 1 else 0) + kids U t)%nat.
Proof. unfold kids. rewrite filter_cons. by case_decide. Qed.

Lemma plan_inv_ext g al m D D' kc kc' vc vc' : plan_inv g al m D kc vc -> D ⊆ D' -> (length D <= length D')%nat -> (forall t, kc' t = kc t) ->
  (forall t, tracked t -> vc' t = vc t) -> plan_inv g al m D' kc' vc'.
Proof.
  intros [J B Kc Vc Mi Fr Hm] HD HL Hk Hv. split; try done.
  - intros t. by rewrite Hk.
  - intros t Ht. by rewrite Hv, Vc.
  - intros t Ht. destruct (Mi t Ht) as (H1 & H2 & H3). split_and!; [by apply HD|done|done].
  - intros t Ht. apply Fr. intros H. by apply Ht, HD.
  - lia.
Qed.

(** An update of the counts of one tensor. *)
Lemma upd_counts g al m D kc vc s f : plan_inv g al m D kc vc -> (forall n, buffer_id (f n) = buffer_id n /\ addr (f n) = addr n /\ allocated (f n) = allocated n) ->
  plan_inv (hash_upd g s f) al m D (fun t => if decide (t = s) then n_children (f (hash_get g s)) else kc t) (fun t => if decide (t = s) then n_views (f (hash_get g s)) else vc t) /\
  forall t, same_place g (hash_upd g s f) t.
Proof.
  intros [J B Kc Vc Mi Fr Hm] Hf. assert (Hp : forall t, same_place g (hash_upd g s f) t /\ allocated (hash_get (hash_upd g s f) t) = allocated (hash_get g t)).
  { intros t. unfold same_place. rewrite hash_get_upd. case_decide; [|done]. destruct (Hf (hash_get g t)) as (H1 & H2 & H3). by rewrite H1, H2, H3. }
  split; [|intros t; apply Hp]. split; try done.
  - apply (galloc_inv_ext alloc_size (se_bound se) g); done.
  - intros t. rewrite hash_get_upd. case_decide; [by subst|done].
  - intros t Ht. rewrite hash_get_upd. case_decide; [by subst|by apply Vc].
  - intros t Ht. destruct (Hp t) as [[_ ->] _]. by apply Fr.
Qed.

Lemma upd_children g al m D kc vc s d : plan_inv g al m D kc vc ->
  plan_inv (hash_upd g s (add_children d)) al m D (fun t => if decide (t = s) then kc t + d else kc t) vc.
Proof.
  intros I. destruct (upd_counts g al m D kc vc s (add_children d) I) as [H _]; [done|]. eapply plan_inv_ext; [exact H|done|done| |].
  - intros t. cbn. case_decide; [|done]. subst. by rewrite (pi_kids _ _ _ _ _ _ I).
  - intros t Ht. cbn. case_decide; [|done]. subst. by rewrite (pi_views _ _ _ _ _ _ I).
Qed.

Lemma upd_views g al m D kc vc s d : plan_inv g al m D kc vc ->
  plan_inv (hash_upd g s (add_views d)) al m D kc (fun t => if decide (t = s) then vc t + d else vc t).
Proof.
  intros I. destruct (upd_counts g al m D kc vc s (add_views d) I) as [H _]; [done|]. eapply plan_inv_ext; [exact H|done|done| |].
  - intros t. cbn. case_decide; [|done]. subst. by rewrite (pi_kids _ _ _ _ _ _ I).
  - intros t Ht. cbn. case_decide; [|done]. subst. by rewrite (pi_views _ _ _ _ _ _ I).
Qed.

Lemma count_srcs_ok b b0 al m D vc : b = Ok b0 -> 0 <= b0 -> forall srcs g kc, plan_inv g al m D kc vc ->
  (forall s, s ∈ omap id srcs -> is_input T s = true -> mine T s = true -> s ∈ al) ->
  exists g', mfor (count_src T alloc_size b) srcs g = Ok g' /\ plan_inv g' al m D (fun t => kc t + Z.of_nat (kids (omap id srcs) t)) vc.
Proof.
  intros -> Hb. induction srcs as [|[s|] srcs IH]; intros g kc I H; cbn [mfor count_src].
  - exists g. split; [done|]. eapply plan_inv_ext; [exact I|done|done| |done]. intros t. cbn. lia.
  - pose proof (upd_children g al m D kc vc s 1 I) as I1. set (g1 := hash_upd _ _ _) in *.
    assert (E : (if has_flag (T s) GGML_TENSOR_FLAG_INPUT then b1 ← Ok b0; ggml_gallocr_allocate_node T alloc_size g1 s b1 else Ok g1) = Ok g1).
    { destruct (has_flag (T s) GGML_TENSOR_FLAG_INPUT) eqn:Hf; [|done]. cbn [mbind res_bind]. apply (allocate_noop _ _ _ _ _ _ _ _ I1 Hb).
      destruct (mine T s) eqn:Hm; [right|by left]. apply H; [cbn; set_solver|done|done]. }
    rewrite E. cbn [mbind res_bind]. destruct (IH g1 _ I1) as (g' & E' & I'); [intros u Hu; apply H; cbn; set_solver|].
    exists g'. split; [done|]. eapply plan_inv_ext; [exact I'|done|done| |done]. intros t. change (omap id (Some s :: srcs)) with (s :: omap id srcs). rewrite kids_cons. repeat case_decide; subst; try congruence; lia.
  - cbn [mbind res_bind]. by apply (IH g kc I).
Qed.
End plan.

(** * Leafs, inputs and counting

    The first two loops of [ggml_gallocr_alloc_graph_impl]: afterwards exactly the leafs and
    inputs have places, and the counts of children and views are those of the whole graph. *)

(** A graph, buffers for it and a bound on the tensors that hold memory at the same time. *)
Record problem_ok (T : nat -> ggml_tensor) (alloc_size : Z -> nat -> Z) (G : ggml_cgraph) (se : setting) (node_ids leaf_ids : option (list Z)) : Prop := {
  po_graph : graph_ok T G;
  po_sizes : sizes_ok T alloc_size G se;
  po_nodes : forall i n, g_nodes G !! i = Some n -> exists b, get_node_buffer_id node_ids i = Ok b /\ buffer_ok se b;
  po_leafs : forall i n, g_leafs G !! i = Some n -> exists b, get_node_buffer_id leaf_ids i = Ok b /\ buffer_ok se b;
  po_peak  : forall i, (i <= length (g_nodes G))%nat -> (length (live_at T G i) < 254)%nat
}.

Section phases.
Context (T : nat -> ggml_tensor) (alloc_size : Z -> nat -> Z) (G : ggml_cgraph) (se : setting) (node_ids leaf_ids : option (list Z)).
Context (PO : problem_ok T alloc_size G se node_ids leaf_ids).

Local Abbreviation plan_inv := (plan_inv T alloc_size G se).
Local Abbreviation U0 := (uses T (g_nodes G)).

Lemma in_live al i : NoDup al -> (i <= length (g_nodes G))%nat ->
  (forall t, t ∈ al -> t ∈ tensors_of G /\ mine T t = true /\ started T G i t /\ wanted T G (uses T (drop i (g_nodes G))) t) -> (length al < 254)%nat.
Proof using PO.
  intros Hn Hi H. pose proof (po_peak _ _ _ _ _ _ PO i Hi). enough (length al <= length (live_at T G i))%nat by lia.
  apply submseteq_length, NoDup_submseteq; [done|]. intros t Ht. unfold live_at. apply list_elem_of_filter. destruct (H t Ht) as (H1 & H2 & H3 & H4). by split_and!.
Qed.

Lemma wanted_all t : wanted T G U0 t.
Proof. unfold wanted. destruct (decide (kids U0 t = 0%nat)), (decide (views T G U0 t = 0%nat)); tauto. Qed.

Lemma starters_few al : NoDup al -> (forall t, t ∈ al -> t ∈ starters T G /\ mine T t = true /\ t ∈ tensors_of G) -> (length al < 254)%nat.
Proof using PO.
  intros Hn H. apply (in_live al 0); [done|lia|]. intros t Ht. destruct (H t Ht) as (H1 & H2 & H3). split_and!; [done|done|by left|]. rewrite drop_0. apply wanted_all.
Qed.

Lemma starters_tensors t : t ∈ starters T G -> t ∈ tensors_of G.
Proof. unfold starters, tensors_of. rewrite !elem_of_app, list_elem_of_filter. tauto. Qed.

(** A starter gets a place of its own, unless it has one already or needs none. *)
Lemma allocate_starter g al m D kc vc t b : plan_inv g al m D kc vc -> (forall u, u ∈ D -> u ∈ starters T G) -> t ∈ starters T G -> buffer_ok se b -> (length D < 2 * length (tensors_of G))%nat ->
  (t ∈ D -> mine T t = true -> t ∈ al) ->
  exists g' al' m', ggml_gallocr_allocate_node T alloc_size g t b = Ok g' /\ plan_inv g' al' m' (D ++ [t]) kc vc /\ (forall u, u ∈ al' <-> u ∈ al \/ (u = t /\ mine T t = true)).
Proof using PO.
  intros I HD Ht Hb Hl Hin. destruct (mine T t) eqn:Hm.
  - destruct (decide (t ∈ D)) as [HtD|HtD].
    + exists g, al, m. split; [apply (allocate_noop _ _ _ _ _ _ _ _ _ _ _ _ I); [apply Hb|right; by apply Hin]|].
      split; [eapply plan_inv_ext; [exact I|set_solver|rewrite length_app; lia|done|done]|]. intros u. split; [by left|]. intros [?|[-> _]]; [done|by apply Hin].
    + assert (Hal : (length al < 254)%nat). { apply starters_few; [apply (pi_inv _ _ _ _ _ _ _ _ _ _ I)|]. intros u Hu. destruct (pi_mine _ _ _ _ _ _ _ _ _ _ I u Hu) as (H1 & H2 & H3). split_and!; [by apply HD|done|done]. }
      destruct (allocate_new T alloc_size G se (po_sizes _ _ _ _ _ _ PO) g al m D kc vc I ltac:(lia) t (starters_tensors t Ht) Hm HtD b Hb Hal Hl) as (g' & al' & m' & E & _ & I' & Hal').
      { intros Hi. by rewrite (go_input _ _ (po_graph _ _ _ _ _ _ PO) t Ht) in Hi. }
      destruct Hal' as [->|(p & _ & Hi & _)]; [|by rewrite (go_input _ _ (po_graph _ _ _ _ _ _ PO) t Ht) in Hi].
      exists g', (t :: al), m'. split; [done|]. split; [done|]. intros u. rewrite elem_of_cons. naive_solver.
  - exists g, al, m. split; [apply (allocate_noop _ _ _ _ _ _ _ _ _ _ _ _ I); [apply Hb|by left]|].
    split; [eapply plan_inv_ext; [exact I|set_solver|rewrite length_app; lia|done|done]|]. intros u. naive_solver.
Qed.

(** ** Leafs *)

Lemma leafs_ok g : plan_inv g [] 0 [] (fun _ => 0) (fun _ => 0) ->
  sat (mfor (leaf_step T alloc_size G leaf_ids) (seq 0 (length (g_leafs G))) g) (fun g' => exists al m, plan_inv g' al m (g_leafs G) (fun _ => 0) (fun _ => 0) /\
    forall t, t ∈ al <-> t ∈ g_leafs G /\ mine T t = true).
Proof using PO.
  intros I. eapply sat_mono; [apply (sat_for _ (fun j g' => exists al m, plan_inv g' al m (take j (g_leafs G)) (fun _ => 0) (fun _ => 0) /\
    forall t, t ∈ al <-> t ∈ take j (g_leafs G) /\ mine T t = true))|].
  - exists [], 0%nat. split; [done|]. intros t. rewrite take_0. split; [|intros [H _]]; by intros ?%not_elem_of_nil || by apply not_elem_of_nil in H.
  - intros j g' Hj (al & m & I' & Hal). destruct (lookup_lt_is_Some_2 (g_leafs G) j Hj) as [leaf Hleaf]. unfold leaf_step. rewrite (proj2 (vec_get_ok _ _ _) Hleaf). cbn [mbind res_bind].
    destruct (po_leafs _ _ _ _ _ _ PO j leaf Hleaf) as (b & Eb & Hb). rewrite Eb. cbn [mbind res_bind].
    destruct (allocate_starter g' al m (take j (g_leafs G)) _ _ leaf b I') as (g2 & al2 & m2 & E & I2 & Hal2).
    + intros u Hu. apply elem_of_app. left. by eapply elem_of_take_weaken || (apply elem_of_take in Hu as (i & Hu & _); by eapply list_elem_of_lookup_2).
    + apply elem_of_app. left. by eapply list_elem_of_lookup_2.
    + done.
    + rewrite length_take. unfold tensors_of. rewrite length_app. lia.
    + intros Hin Hm. by apply Hal.
    + rewrite E. apply sat_ok. exists al2, m2. rewrite Nat.add_1_r, (take_S_r _ _ _ Hleaf). split; [done|]. intros t. rewrite Hal2, Hal, elem_of_app, list_elem_of_singleton. naive_solver.
  - intros g' (al & m & H). rewrite firstn_all in H. by exists al, m.
Qed.

(** ** Counting *)

(** The places and the counts after the first [i] nodes. *)
Definition placed (i : nat) : list nat := g_leafs G ++ filter (fun t => is_input T t = true) (take i (g_nodes G)).
Definition kids_upto (i : nat) (t : nat) : Z := Z.of_nat (kids (uses T (take i (g_nodes G))) t).
Definition views_upto (i : nat) (t : nat) : Z := Z.of_nat (length (filter (fun v => t_view_src (T v) = Some t /\ t_op (T v) <> GGML_OP_NONE) (take i (g_nodes G)))).

Lemma uses_app a b : uses T (a ++ b) = uses T a ++ uses T b.
Proof. unfold uses. by rewrite fmap_app, concat_app. Qed.

Lemma uses_one n : uses T [n] = srcs_of T n.
Proof. unfold uses. cbn. by rewrite app_nil_r. Qed.

Lemma kids_app a b t : kids (a ++ b) t = (kids a t + kids b t)%nat.
Proof. unfold kids. by rewrite filter_app, length_app. Qed.

Lemma placed_starters i u : u ∈ placed i -> u ∈ starters T G.
Proof.
  unfold placed, starters. rewrite !elem_of_app, !list_elem_of_filter. intros [H|[H1 H2]]; [by left|right]. split; [done|].
  apply elem_of_take in H2 as (j & Hj & _). by eapply list_elem_of_lookup_2.
Qed.
Lemma placed_S i n : g_nodes G !! i = Some n -> placed (S i) = placed i ++ (if is_input T n then [n] else []).
Proof.
  intros Hn. unfold placed. rewrite (take_S_r _ _ _ Hn), filter_app, app_assoc. f_equal. rewrite filter_cons, filter_nil. destruct (is_input T n) eqn:E; [by rewrite decide_True|by rewrite decide_False].
Qed.

Lemma views_upto_S i n t : g_nodes G !! i = Some n ->
  views_upto (S i) t = views_upto i t + (if decide (t_view_src (T n) = Some t /\ t_op (T n) <> GGML_OP_NONE) then 1 else 0).
Proof. intros Hn. unfold views_upto. rewrite (take_S_r _ _ _ Hn), filter_app, length_app, filter_cons, filter_nil. case_decide; cbn; lia. Qed.

Lemma kids_upto_S i n t : g_nodes G !! i = Some n -> kids_upto (S i) t = kids_upto i t + Z.of_nat (kids (srcs_of T n) t).
Proof. intros Hn. unfold kids_upto. rewrite (take_S_r _ _ _ Hn), uses_app, uses_one, kids_app. lia. Qed.

Definition counted (i : nat) (g : ggml_gallocr) : Prop := exists al m, plan_inv g al m (placed i) (kids_upto i) (views_upto i) /\
  forall t, t ∈ al <-> t ∈ placed i /\ mine T t = true.

Lemma count_view_ok g al m i n : g_nodes G !! i = Some n -> plan_inv g al m (placed i) (kids_upto i) (views_upto i) ->
  plan_inv (match t_view_src (T n) with Some v => if bool_decide (t_op (T n) = GGML_OP_NONE) then g else hash_upd g v (add_views 1) | None => g end)
    al m (placed i) (kids_upto i) (views_upto (S i)).
Proof.
  intros Hn I. destruct (t_view_src (T n)) as [v|] eqn:Ev; [case_bool_decide as Hop|].
  - eapply plan_inv_ext; [exact I|done|done|done|]. intros t _. rewrite (views_upto_S i n t Hn), decide_False; [lia|]. tauto.
  - eapply plan_inv_ext; [apply (upd_views _ _ _ _ _ _ _ _ _ _ v 1 I)|done|done|done|]. intros t _. rewrite (views_upto_S i n t Hn). cbn. rewrite Ev.
    destruct (decide (t = v)) as [->|Hne]; [by rewrite decide_True|rewrite decide_False; [lia|]]. intros [[= ->] _]. done.
  - eapply plan_inv_ext; [exact I|done|done|done|]. intros t _. rewrite (views_upto_S i n t Hn), decide_False; [lia|]. rewrite Ev. by intros [? _].
Qed.

Lemma count_step_ok i n g : g_nodes G !! i = Some n -> counted i g -> sat (count_step T alloc_size G node_ids g i) (counted (S i)).
Proof using PO.
  intros Hn (al & m & I & Hal). unfold count_step. rewrite (proj2 (vec_get_ok _ _ _) Hn). cbn [mbind res_bind]. pose proof (count_view_ok g al m i n Hn I) as I1. set (g1 := match t_view_src (T n) with Some v => if bool_decide (t_op (T n) = GGML_OP_NONE) then g else hash_upd g v (add_views 1) | None => g end) in *.
  destruct (po_nodes _ _ _ _ _ _ PO i n Hn) as (b & Eb & Hb). pose proof (lookup_lt_Some _ _ _ Hn) as Hi.
  assert (Hin : forall u, u ∈ placed i -> u ∈ starters T G) by apply placed_starters.
  assert (H2 : exists g2 al2 m2, (if has_flag (T n) GGML_TENSOR_FLAG_INPUT then b ← get_node_buffer_id node_ids i; ggml_gallocr_allocate_node T alloc_size g1 n b else Ok g1) = Ok g2 /\
     plan_inv g2 al2 m2 (placed (S i)) (kids_upto i) (views_upto (S i)) /\ forall t, t ∈ al2 <-> t ∈ placed (S i) /\ mine T t = true).
  { rewrite (placed_S i n Hn). fold (is_input T n). destruct (is_input T n) eqn:Hf.
    - rewrite Eb. cbn [mbind res_bind]. destruct (allocate_starter g1 al m (placed i) _ _ n b I1 Hin) as (g2 & al2 & m2 & E & I2 & Hal2).
      + apply elem_of_app. right. apply list_elem_of_filter. split; [done|]. by eapply list_elem_of_lookup_2.
      + done.
      + unfold placed, tensors_of. rewrite !length_app. pose proof (length_filter (fun t => is_input T t = true) (take i (g_nodes G))). rewrite length_take in *. lia.
      + intros H1 H2. by apply Hal.
      + exists g2, al2, m2. split; [done|]. split; [done|]. intros t. rewrite Hal2, Hal, elem_of_app, list_elem_of_singleton. naive_solver.
    - exists g1, al, m. rewrite app_nil_r. by split_and!. }
  destruct H2 as (g2 & al2 & m2 & E2 & I2 & Hal2). rewrite E2. cbn [mbind res_bind].
  destruct (count_srcs_ok T alloc_size G se (po_sizes _ _ _ _ _ _ PO) (get_node_buffer_id node_ids i) b al2 m2 (placed (S i)) (views_upto (S i)) Eb (proj1 Hb) (t_src (T n)) g2 _ I2) as (g3 & E3 & I3).
  { intros s Hs Hf Hm. apply Hal2. split; [|done]. rewrite (placed_S i n Hn). apply elem_of_app. left. unfold placed. apply elem_of_app.
    destruct (go_src _ _ (po_graph _ _ _ _ _ _ PO) i n s Hn Hs) as [H|H]; [by left|right; by apply list_elem_of_filter]. }
  rewrite E3. apply sat_ok. exists al2, m2. split; [|done]. eapply plan_inv_ext; [exact I3|done|done| |done]. intros t. cbn. by rewrite (kids_upto_S i n t Hn).
Qed.

Lemma counts_ok g : counted 0 g -> sat (mfor (count_step T alloc_size G node_ids) (seq 0 (length (g_nodes G))) g) (counted (length (g_nodes G))).
Proof using PO.
  intros H. apply sat_for; [done|]. intros i g' Hi Hg. destruct (lookup_lt_is_Some_2 (g_nodes G) i Hi) as [n Hn]. rewrite Nat.add_1_r. by apply (count_step_ok i n).
Qed.

(** The counts of the whole graph. *)
Lemma views_all t : views_upto (length (g_nodes G)) t = Z.of_nat (views T G U0 t).
Proof.
  unfold views_upto, views. rewrite firstn_all. do 2 f_equal. symmetry. apply filter_all, Forall_forall. intros v _. unfold pending. destruct (decide (v ∈ U0)); tauto.
Qed.

(** The state before the last loop. *)
Definition ready (g : ggml_gallocr) (al : list nat) (m : nat) : Prop :=
  plan_inv g al m (starters T G) (fun t => Z.of_nat (kids U0 t)) (fun t => Z.of_nat (views T G U0 t)) /\ forall t, t ∈ al <-> t ∈ starters T G /\ mine T t = true.

Lemma counted_ready g : counted (length (g_nodes G)) g -> exists al m, ready g al m.
Proof.
  intros (al & m & I & Hal). exists al, m. unfold ready. assert (E : placed (length (g_nodes G)) = starters T G) by (unfold placed, starters; by rewrite firstn_all).
  rewrite E in *. split; [|done]. eapply plan_inv_ext; [exact I|done|done| |].
  - intros t. unfold kids_upto. by rewrite firstn_all.
  - intros t _. by rewrite views_all.
Qed.

Lemma leafs_counted g al m : plan_inv g al m (g_leafs G) (fun _ => 0) (fun _ => 0) -> (forall t, t ∈ al <-> t ∈ g_leafs G /\ mine T t = true) -> counted 0 g.
Proof. intros I Hal. exists al, m. unfold placed. rewrite take_0, filter_nil, app_nil_r. split; [|done]. by eapply plan_inv_ext; [exact I|..]. Qed.
End phases.
