(* ===== verification/GraphRun.v ===== *)
(** * The last loop of the graph allocator

    After the reads of a node the allocator holds exactly the tensors of the graph that are
    still wanted: the counts of children and views decide it.  Then the whole step of a node,
    and the loop. *)

From S2P Require Import Prelude Alloc AllocTheory AllocProps AllocRun GraphAlloc GraphOps GraphSpec GraphPlan.

Lemma filter_one_off {A} `{EqDecision A} (P Q : A -> Prop) `{forall x, Decision (P x)} `{forall x, Decision (Q x)} s l : NoDup l -> P s ->
  (forall v, v <> s -> P v <-> Q v) -> length (filter P l) = (length (filter Q l) + if decide (~ Q s /\ s ∈ l) then 1 else 0)%nat.
Proof.
  intros Hn Hs Hpq. induction l as [|v l IH].
  { rewrite !filter_nil, decide_False; [done|]. intros [_ Hin]. by apply not_elem_of_nil in Hin. }
  apply NoDup_cons in Hn as [Hv Hn]. specialize (IH Hn). rewrite !filter_cons. destruct (decide (v = s)) as [->|Hne].
  - rewrite (decide_True (P := P s)) by done. rewrite (decide_False (P := _ /\ s ∈ l)) in IH by tauto. cbn [length]. rewrite IH. destruct (decide (Q s)) as [Hq|Hq].
    + rewrite decide_False by tauto. cbn. lia.
    + rewrite decide_True; [lia|]. split; [done|set_solver].
  - destruct (Hpq v Hne) as [H1 H2]. destruct (decide (~ Q s /\ s ∈ l)) as [Hd|Hd].
    + rewrite (decide_True (P := _ /\ s ∈ v :: l)) by (destruct Hd; split; [done|set_solver]). destruct (decide (P v)), (decide (Q v)); try tauto; cbn; lia.
    + rewrite (decide_False (P := _ /\ s ∈ v :: l)) by (intros [? [?|?]%elem_of_cons]; [congruence|tauto]). destruct (decide (P v)), (decide (Q v)); try tauto; cbn; lia.
Qed.

Section nodes.
Context (T : nat -> ggml_tensor) (alloc_size : Z -> nat -> Z) (G : ggml_cgraph) (se : setting) (node_ids leaf_ids : option (list Z)).
Context (PO : problem_ok T alloc_size G se node_ids leaf_ids).

Local Abbreviation plan_inv := (plan_inv T alloc_size G se).
Local Abbreviation U0 := (uses T (g_nodes G)).
Local Abbreviation wanted := (wanted T G).
Local Abbreviation views := (views T G).

Let GO : graph_ok T G := po_graph _ _ _ _ _ _ PO.

(** ** Reads one by one *)

Lemma uses_elem s : s ∈ U0 <-> exists i n, g_nodes G !! i = Some n /\ s ∈ srcs_of T n.
Proof.
  unfold uses. rewrite elem_of_concat_fmap. split.
  - intros (n & [i Hi]%list_elem_of_lookup & Hs). by exists i, n.
  - intros (i & n & Hi & Hs). exists n. split; [by eapply list_elem_of_lookup_2|done].
Qed.

Lemma uses_tensors s : s ∈ U0 -> s ∈ tensors_of G.
Proof using PO.
  intros (i & n & Hi & Hs)%uses_elem. unfold tensors_of. apply elem_of_app. destruct (go_src _ _ GO i n s Hi Hs) as [H|H]; [by left|right].
  apply elem_of_take in H as (j & Hj & _). by eapply list_elem_of_lookup_2.
Qed.

Lemma view_nodes_nodup t : NoDup (view_nodes T G t).
Proof using PO. unfold view_nodes. apply NoDup_filter. pose proof (go_nodup _ _ GO) as H. unfold tensors_of in H. by apply NoDup_app in H as (_ & _ & H). Qed.

Lemma views_cons U s t : s ∈ U0 -> views (s :: U) t = (views U t + if decide (s ∉ U /\ s ∈ view_nodes T G t) then 1 else 0)%nat.
Proof using PO.
  intros Hs. unfold GraphSpec.views. rewrite (filter_one_off (pending T G (s :: U)) (pending T G U) s); [|apply view_nodes_nodup|left; set_solver|].
  - f_equal. unfold pending. repeat case_decide; try done; tauto.
  - intros v Hv. unfold pending. rewrite elem_of_cons. tauto.
Qed.

Lemma view_nodes_spec s t : s ∈ view_nodes T G t <-> s ∈ g_nodes G /\ t_view_src (T s) = Some t /\ t_op (T s) <> GGML_OP_NONE.
Proof. unfold view_nodes. rewrite list_elem_of_filter. tauto. Qed.

(** Nothing is a view of a view. *)
Lemma views_of_view U s r : s ∈ tensors_of G -> t_view_src (T s) = Some r -> views U s = 0%nat.
Proof using PO.
  intros Hs Hr. unfold GraphSpec.views. destruct (filter _ _) as [|v l] eqn:E; [done|]. exfalso. assert (Hv : v ∈ filter (pending T G U) (view_nodes T G s)) by (rewrite E; set_solver).
  apply list_elem_of_filter in Hv as [_ (H1 & H2 & _)%view_nodes_spec]. assert (Hvt : v ∈ tensors_of G) by (unfold tensors_of; set_solver).
  pose proof (go_root _ _ GO v s Hvt H2). congruence.
Qed.

Lemma wanted_more U s t : s ∈ U0 -> wanted U t -> wanted (s :: U) t.
Proof using PO.
  intros Hs. unfold GraphSpec.wanted. rewrite kids_cons, (views_cons U s t Hs). intros [H|[H|[H|H]]]; [tauto| | |tauto]; [right; left; lia|right; right; left; lia].
Qed.

Lemma wanted_same U s t : s ∈ U0 -> t <> s -> (s ∈ U \/ t_view_src (T s) <> Some t) -> wanted (s :: U) t -> wanted U t.
Proof using PO.
  intros Hs Hne Hd. unfold GraphSpec.wanted. rewrite kids_cons, (views_cons U s t Hs), decide_False by done. rewrite decide_False; [rewrite Nat.add_0_l, Nat.add_0_r; done|].
  rewrite view_nodes_spec. tauto.
Qed.

(** ** The state *)

(** [U] are the reads still to come; [X] were given away. *)
Definition sync (g : ggml_gallocr) (al : list nat) (m : nat) (D U X : list nat) : Prop :=
  plan_inv g al m D (fun t => Z.of_nat (kids U t)) (fun t => Z.of_nat (views U t)) /\
  forall t, t ∈ al <-> t ∈ D /\ mine T t = true /\ wanted U t /\ t ∉ X.

(** What the release of tensors leaves alone. *)
Definition stays (g g' : ggml_gallocr) : Prop := same_buffers g g' /\ grows g g' /\ forall t, same_place g g' t.

Lemma stays_refl g : stays g g.
Proof. split; [done|]. split; [apply grows_refl|done]. Qed.

Lemma same_place_trans g1 g2 g3 t : same_place g1 g2 t -> same_place g2 g3 t -> same_place g1 g3 t.
Proof. intros [E1 E2] [E3 E4]. split; congruence. Qed.

Lemma stays_trans g1 g2 g3 : stays g1 g2 -> stays g2 g3 -> stays g1 g3.
Proof.
  intros ([E1 E2] & G1 & P1) ([E3 E4] & G2 & P2). split; [split; congruence|]. split; [by eapply grows_trans|]. intros t. by eapply same_place_trans.
Qed.

Lemma stays_upd g s f : (forall n, buffer_id (f n) = buffer_id n /\ addr (f n) = addr n /\ allocated (f n) = allocated n) -> stays g (hash_upd g s f).
Proof.
  intros Hf. split; [done|]. split; [split; [done|]; intros k a a' H H' c; assert (a' = a) as -> by (cbn in H'; congruence); lia|].
  intros t. unfold same_place. rewrite hash_get_upd. case_decide; [|done]. destruct (Hf (hash_get g t)) as (H1 & H2 & _). done.
Qed.

(** A tensor that nobody wants any more is released, an output is not. *)
Lemma drop_tensor g al m D U X s t : plan_inv g al m D (fun t => Z.of_nat (kids U t)) (fun t => Z.of_nat (views U t)) -> (length al < 255)%nat ->
  (forall u, u ∈ al <-> u ∈ D /\ mine T u = true /\ wanted (s :: U) u /\ u ∉ X) -> s ∈ U0 ->
  (forall u, u ∈ al -> u <> t -> wanted U u) -> t ∈ al -> kids U t = 0%nat -> views U t = 0%nat -> (kids U0 t <> 0%nat \/ views U0 t <> 0%nat) ->
  exists g' al', ggml_gallocr_free_node T alloc_size g t = Ok g' /\ sync g' al' m D U X /\ (forall u, u ∈ al' -> u ∈ al) /\ stays g g'.
Proof using PO.
  intros I Hl Hal Hs Hother Ht Hk Hv Hused. destruct (is_output (T t)) eqn:Hout.
  - exists g, al. unfold ggml_gallocr_free_node. rewrite Hout. split; [done|]. split; [|by split; [|apply stays_refl]]. split; [done|]. intros u. split.
    + intros Hu. destruct (proj1 (Hal u) Hu) as (H1 & H2 & H3 & H4). split_and!; try done. destruct (decide (u = t)) as [->|]; [by left|by apply Hother].
    + intros (H1 & H2 & H3 & H4). apply Hal. split_and!; try done. by apply wanted_more.
  - destruct (free_node_ok alloc_size (se_bound se) T g t al m (pi_inv _ _ _ _ _ _ _ _ _ _ I) Ht Hl (so_bound _ _ _ _ (po_sizes _ _ _ _ _ _ PO)) Hout) as (g' & E & J' & Mv & Ps & Hoth).
    exists g', (filter (fun u => u <> t) al). split; [done|]. destruct Mv as [[Q1 Q2] [Q3 Q4] Q5 Q6]. destruct I as [J B Kc Vc Mi Fr Hm]. destruct B as (B1 & B2 & B3).
    assert (Hpl : forall u, same_place g g' u) by (intros u; destruct (decide (u = t)) as [->|]; [done|by apply Q6]).
    split; [|split; [by intros u [_ ?]%list_elem_of_filter|split; [done|by split]]]. split.
    + split; try done.
      * split_and!; congruence.
      * intros u. by rewrite (proj1 (Q5 u)).
      * intros u Hu. rewrite (proj2 (Q5 u)). by apply Vc.
      * intros u [_ Hu]%list_elem_of_filter. by apply Mi.
      * intros u Hu. destruct (Hpl u) as [_ ->]. by apply Fr.
    + intros u. rewrite list_elem_of_filter, Hal. split.
      * intros (Hne & H1 & H2 & H3 & H4). split_and!; try done. apply Hother; [|done]. by apply Hal.
      * intros (H1 & H2 & H3 & H4). split_and!; try done; [|by apply wanted_more]. intros ->. unfold GraphSpec.wanted in H3. rewrite Hout in H3. destruct H3 as [?|[?|[?|[? ?]]]]; [done|lia|lia|lia].
Qed.

(** Nothing is released. *)
Lemma keep_all g g' al m D U X s : plan_inv g' al m D (fun t => Z.of_nat (kids U t)) (fun t => Z.of_nat (views U t)) ->
  (forall u, u ∈ al <-> u ∈ D /\ mine T u = true /\ wanted (s :: U) u /\ u ∉ X) -> s ∈ U0 -> (forall u, u ∈ al -> wanted U u) -> stays g g' ->
  exists g2 al', Ok g' = Ok g2 /\ sync g2 al' m D U X /\ (forall u, u ∈ al' -> u ∈ al) /\ stays g g2.
Proof using PO.
  intros I Hal Hs Hw Hst. exists g', al. split; [done|]. split; [|by split]. split; [done|]. intros u. split.
  - intros Hu. destruct (proj1 (Hal u) Hu) as (H1 & H2 & _ & H4). split_and!; try done. by apply Hw.
  - intros (H1 & H2 & H3 & H4). apply Hal. split_and!; try done. by apply wanted_more.
Qed.

(** The count of a view that is read for the last time. *)
Lemma release_view_ok g1 al m D U X s v : plan_inv g1 al m D (fun t => Z.of_nat (kids U t)) (fun t => Z.of_nat (views (s :: U) t)) -> (length al < 255)%nat ->
  (forall u, u ∈ al <-> u ∈ D /\ mine T u = true /\ wanted (s :: U) u /\ u ∉ X) -> s ∈ U0 -> t_view_src (T s) = Some v -> kids U s = 0%nat ->
  let g2 := hash_upd g1 v (add_views (-1)) in
  exists g' al', (if (n_views (hash_get g2 v) =? 0) && (n_children (hash_get g2 v) =? 0) && allocated (hash_get g2 v) then ggml_gallocr_free_node T alloc_size g2 v else Ok g2) = Ok g' /\
    sync g' al' m D U X /\ (forall u, u ∈ al' -> u ∈ al) /\ stays g1 g'.
Proof using PO.
  intros I Hl Hal Hs Hview Hk g2. assert (Hst : stays g1 g2) by by apply stays_upd. pose proof (upd_views _ _ _ _ _ _ _ _ _ _ v (-1) I) as I2. fold g2 in I2.
  assert (HsU : s ∉ U). { intros H. unfold kids in Hk. apply length_zero_iff_nil in Hk. assert (Hin : s ∈ filter (fun u => u = s) U) by (by apply list_elem_of_filter). rewrite Hk in Hin. by apply not_elem_of_nil in Hin. }
  assert (Hvw : forall t, mine T t = true -> s ∈ view_nodes T G t <-> t = v).
  { intros t Hm. rewrite view_nodes_spec, Hview. split; [intros (_ & [= ->] & _); done|]. intros ->. destruct (go_read _ _ GO s v Hs Hview Hm). by split_and!. }
  assert (I3 : plan_inv g2 al m D (fun t => Z.of_nat (kids U t)) (fun t => Z.of_nat (views U t))).
  { eapply plan_inv_ext; [exact I2|done|done|done|]. intros t [Hm|Hm]; cbn.
    - rewrite (views_cons U s t Hs). specialize (Hvw t Hm). repeat case_decide; subst; try lia; tauto.
    - unfold ggml_impl_is_view in Hm. destruct (t_view_src (T t)) as [r|] eqn:Er; [|done]. rewrite decide_False.
      2:{ intros ->. pose proof (go_root _ _ GO s v (uses_tensors s Hs) Hview). congruence. }
      rewrite (views_cons U s t Hs), decide_False; [lia|]. rewrite view_nodes_spec, Hview. intros (_ & _ & [= ->] & _). pose proof (go_root _ _ GO s t (uses_tensors s Hs) Hview). congruence. }
  assert (Hsm : mine T s = false) by by apply (mine_view T s v).
  assert (Hoth : forall u, u ∈ al -> u <> v -> wanted U u).
  { intros u Hu Hne. destruct (proj1 (Hal u) Hu) as (_ & Hm & Hw & _). apply (wanted_same U s u Hs); [by intros ->; congruence|right; congruence|done]. }
  rewrite (pi_kids _ _ _ _ _ _ _ _ _ _ I3). destruct (allocated (hash_get g2 v)) eqn:Hown.
  - assert (Hv : v ∈ al) by by apply (gi_own _ _ _ _ _ (pi_inv _ _ _ _ _ _ _ _ _ _ I3)). destruct (pi_mine _ _ _ _ _ _ _ _ _ _ I3 v Hv) as (_ & Hm & _).
    rewrite (pi_views _ _ _ _ _ _ _ _ _ _ I3) by by left. rewrite andb_true_r. destruct ((Z.of_nat (views U v) =? 0) && (Z.of_nat (kids U v) =? 0)) eqn:E.
    + apply andb_true_iff in E as [E1 E2]. apply Z.eqb_eq in E1, E2.
      destruct (drop_tensor g2 al m D U X s v I3 Hl Hal Hs Hoth Hv ltac:(lia) ltac:(lia)) as (g' & al' & E & Hsy & Hsub & Hst').
      { right. unfold GraphSpec.views at 1. intros H0. apply length_zero_iff_nil in H0. assert (Hin : s ∈ filter (pending T G U0) (view_nodes T G v)).
        { apply list_elem_of_filter. split; [by left|]. by apply Hvw. } rewrite H0 in Hin. by apply not_elem_of_nil in Hin. }
      exists g', al'. split_and!; try done. by eapply stays_trans.
    + apply (keep_all g1 g2 al m D U X s); try done. intros u Hu. destruct (decide (u = v)) as [->|]; [|by apply Hoth]. unfold GraphSpec.wanted.
      apply andb_false_iff in E as [E|E]; apply Z.eqb_neq in E; [right; right; left; lia|right; left; lia].
  - rewrite andb_false_r. apply (keep_all g1 g2 al m D U X s); try done. intros u Hu. apply Hoth; [done|]. intros ->. apply (gi_own _ _ _ _ _ (pi_inv _ _ _ _ _ _ _ _ _ _ I3)) in Hu. unfold own in Hu. congruence.
Qed.

Lemma kids_zero U s : kids U s = 0%nat <-> s ∉ U.
Proof.
  unfold kids. rewrite length_zero_iff_nil. split.
  - intros E Hin. assert (H : s ∈ filter (fun u => u = s) U) by (by apply list_elem_of_filter). rewrite E in H. by apply not_elem_of_nil in H.
  - intros Hn. apply filter_none, Forall_forall. by intros u Hu ->.
Qed.

Lemma release_src_ok g al m D U X s : sync g al m D (s :: U) X -> (length al < 255)%nat -> s ∈ U0 ->
  exists g' al', release_src T alloc_size g (Some s) = Ok g' /\ sync g' al' m D U X /\ (forall u, u ∈ al' -> u ∈ al) /\ stays g g'.
Proof using PO.
  intros [I Hal] Hl Hs. unfold release_src. set (g1 := hash_upd g s (add_children (-1))). assert (Hst : stays g g1) by by apply stays_upd.
  assert (I1 : plan_inv g1 al m D (fun t => Z.of_nat (kids U t)) (fun t => Z.of_nat (views (s :: U) t))).
  { eapply plan_inv_ext; [apply (upd_children _ _ _ _ _ _ _ _ _ _ s (-1) I)|done|done| |done]. intros t. cbn beta. rewrite kids_cons. repeat case_decide; subst; try congruence; lia. }
  rewrite (pi_kids _ _ _ _ _ _ _ _ _ _ I1). destruct (t_view_src (T s)) as [v|] eqn:Hview.
  - assert (Hsm : mine T s = false) by by apply (mine_view T s v).
    rewrite (pi_views _ _ _ _ _ _ _ _ _ _ I1), (views_of_view _ s v (uses_tensors s Hs) Hview) by (right; unfold ggml_impl_is_view; by rewrite Hview).
    rewrite andb_true_r. destruct (Z.eqb_spec (Z.of_nat (kids U s)) 0) as [E|E].
    + destruct (release_view_ok g1 al m D U X s v I1 Hl Hal Hs Hview ltac:(lia)) as (g' & al' & E' & Hsy & Hsub & Hst'). exists g', al'. split_and!; try done. by eapply stays_trans.
    + assert (HsU : s ∈ U). { destruct (decide (s ∈ U)) as [|Hn]; [done|]. apply kids_zero in Hn. lia. }
      apply (keep_all g g1 al m D U X s); try done.
      * eapply plan_inv_ext; [exact I1|done|done|done|]. intros t _. cbn. rewrite (views_cons U s t Hs), decide_False by tauto. lia.
      * intros u Hu. destruct (proj1 (Hal u) Hu) as (_ & Hm & Hw & _). apply (wanted_same U s u Hs); [by intros ->; congruence|by left|done].
  - assert (Hvs : forall t, views (s :: U) t = views U t). { intros t. rewrite (views_cons U s t Hs), decide_False; [lia|]. rewrite view_nodes_spec, Hview. by intros (_ & _ & ? & _). }
    assert (I2 : plan_inv g1 al m D (fun t => Z.of_nat (kids U t)) (fun t => Z.of_nat (views U t))) by (eapply plan_inv_ext; [exact I1|done|done|done|]; intros t _; cbn; by rewrite Hvs).
    assert (Hoth : forall u, u ∈ al -> u <> s -> wanted U u).
    { intros u Hu Hne. destruct (proj1 (Hal u) Hu) as (_ & Hm & Hw & _). apply (wanted_same U s u Hs); [done|right; congruence|done]. }
    destruct (allocated (hash_get g1 s)) eqn:Hown.
    + assert (Hin : s ∈ al) by by apply (gi_own _ _ _ _ _ (pi_inv _ _ _ _ _ _ _ _ _ _ I2)). destruct (pi_mine _ _ _ _ _ _ _ _ _ _ I2 s Hin) as (_ & Hm & _).
      rewrite (pi_views _ _ _ _ _ _ _ _ _ _ I2) by by left. destruct ((Z.of_nat (kids U s) =? 0) && (Z.of_nat (views U s) =? 0)) eqn:E.
      * apply andb_true_iff in E as [E1 E2]. apply Z.eqb_eq in E1, E2.
        destruct (drop_tensor g1 al m D U X s s I2 Hl Hal Hs Hoth Hin ltac:(lia) ltac:(lia)) as (g' & al' & E & Hsy & Hsub & Hst'); [left; by rewrite kids_zero; intros H|].
        exists g', al'. split_and!; try done. by eapply stays_trans.
      * apply (keep_all g g1 al m D U X s); try done. intros u Hu. destruct (decide (u = s)) as [->|]; [|by apply Hoth]. unfold GraphSpec.wanted.
        apply andb_false_iff in E as [E|E]; apply Z.eqb_neq in E; [right; left; lia|right; right; left; lia].
    + assert (Hnot : s ∉ al). { intros Hu. apply (gi_own _ _ _ _ _ (pi_inv _ _ _ _ _ _ _ _ _ _ I2)) in Hu. unfold own in Hu. congruence. }
      destruct (_ && _); apply (keep_all g g1 al m D U X s); try done; intros u Hu; apply Hoth; (done || (by intros ->)).
Qed.

Lemma release_srcs_ok U : forall srcs g al m D X, (forall s, s ∈ omap id srcs -> s ∈ U0) -> sync g al m D (omap id srcs ++ U) X -> (length al < 255)%nat ->
  exists g' al', mfor (release_src T alloc_size) srcs g = Ok g' /\ sync g' al' m D U X /\ (forall u, u ∈ al' -> u ∈ al) /\ stays g g'.
Proof using PO.
  induction srcs as [|[s|] srcs IH]; intros g al m D X Hs Hsy Hl; cbn [mfor].
  - exists g, al. split_and!; try done. apply stays_refl.
  - change (omap id (Some s :: srcs)) with (s :: omap id srcs) in *. destruct (release_src_ok g al m D (omap id srcs ++ U) X s Hsy Hl) as (g1 & al1 & E1 & Hsy1 & Hsub1 & Hst1); [apply Hs; set_solver|].
    rewrite E1. cbn [mbind res_bind]. assert (Hl1 : (length al1 < 255)%nat).
    { pose proof (gi_nodup _ _ _ _ _ (pi_inv _ _ _ _ _ _ _ _ _ _ (proj1 Hsy1))) as Hn. enough (length al1 <= length al)%nat by lia. by apply submseteq_length, NoDup_submseteq. }
    destruct (IH g1 al1 m D X) as (g' & al' & E & Hsy' & Hsub & Hst); [intros u Hu; apply Hs; set_solver|done|done|].
    exists g', al'. split_and!; try done; [|by eapply stays_trans..]. intros u Hu. by apply Hsub1, Hsub.
  - cbn [release_src mbind res_bind]. by apply IH.
Qed.
End nodes.

(** * One node of the last loop *)

(** ** Places of an allocator state *)

Section places.
Context (alloc_size : Z -> nat -> Z).

Lemma places_disjoint bound g al m t u k c x : galloc_inv alloc_size bound g al m -> t ∈ al -> u ∈ al -> t <> u -> in_place alloc_size g t k c x -> ~ in_place alloc_size g u k c x.
Proof.
  intros I Ht Hu Hne (Hk & Hc & Hx) (Hk' & Hc' & Hx'). destruct (own_place alloc_size bound g al m t I Ht) as (k1 & a & bt & _ & _ & _ & Hk1 & Ha & _ & _ & Ia).
  assert (k1 = k) as -> by congruence. set (al0 := filter (fun v => v <> t) al) in *. assert (Hu0 : u ∈ al0) by (apply list_elem_of_filter; by split).
  assert (HP : exists rest, live_in alloc_size g k al0 ≡ₚ region_in alloc_size g u :: rest).
  { assert (Hin : region_in alloc_size g u ∈ live_in alloc_size g k al0). { unfold live_in. apply list_elem_of_fmap. exists u. split; [done|]. by apply list_elem_of_filter. }
    apply list_elem_of_lookup in Hin as [i Hi]. exists (delete i (live_in alloc_size g k al0)). by apply take_out. }
  destruct HP as [rest HP]. assert (Ia' : alloc_inv a (region_in alloc_size g t :: region_in alloc_size g u :: rest)).
  { apply (alloc_inv_perm a (region_in alloc_size g t :: live_in alloc_size g k al0)); [by rewrite HP|done]. }
  pose proof (pow2_pos _ (ai_al _ _ Ia')) as Hal. pose proof (padded_spec _ (bytes_in alloc_size g t) Hal) as [P1 _]. pose proof (padded_spec _ (bytes_in alloc_size g u) Hal) as [P2 _].
  destruct (live_disjoint a _ 0 1 (region_in alloc_size g t) (region_in alloc_size g u) Ia') as [H|H]; [done|done|done|congruence| |]; unfold rg_end in H; cbn [region_in rg_bytes] in H;
    unfold GraphOps.region_in in *; cbn in *; lia.
Qed.

(** The place of [t] is aligned and inside the final size of its chunk. *)
Definition inside (g : ggml_gallocr) (t : nat) : Prop :=
  exists k a, home g t = Some k /\ ga_tallocs g !! k = Some a /\ (da_alignment a | rg_offset (region_in alloc_size g t)) /\ 0 <= rg_offset (region_in alloc_size g t) /\
    rg_offset (region_in alloc_size g t) + bytes_in alloc_size g t <= max_size a (rg_chunk (region_in alloc_size g t)).

Lemma own_inside bound g al m t : galloc_inv alloc_size bound g al m -> t ∈ al -> inside g t.
Proof.
  intros I Ht. destruct (own_place alloc_size bound g al m t I Ht) as (k & a & bt & _ & _ & _ & Hk & Ha & _ & _ & Ia). exists k, a.
  pose proof (pow2_pos _ (ai_al _ _ Ia)) as Hal. pose proof (padded_spec _ (bytes_in alloc_size g t) Hal) as [P1 _].
  destruct (ai_region _ _ Ia (region_in alloc_size g t) ltac:(set_solver)) as (H1 & H2 & H3 & ch & Hch & H4). split_and!; try done. unfold max_size. rewrite Hch. unfold rg_end in H4. cbn in *. lia.
Qed.

Lemma inside_stays g g' t : same_buffers g g' -> grows g g' -> same_place g g' t -> inside g t -> inside g' t.
Proof.
  intros HB [G1 G2] HP (k & a & Hk & Ha & H1 & H2 & H3). destruct (place_region alloc_size g g' t HB HP) as [E1 E2].
  assert (exists a', ga_tallocs g' !! k = Some a' /\ da_alignment a' = da_alignment a) as (a' & Ha' & Eal).
  { assert (Hl : (da_alignment <$> ga_tallocs g') !! k = Some (da_alignment a)) by (rewrite G1, list_lookup_fmap, Ha; done).
    apply list_lookup_fmap_Some in Hl as (a' & E & H). by exists a'. }
  exists k, a'. assert (Eb : bytes_in alloc_size g' t = bytes_in alloc_size g t) by (apply (f_equal rg_bytes) in E1; exact E1). rewrite E1, E2, Eal, Eb. split_and!; try done.
  specialize (G2 k a a' Ha Ha' (rg_chunk (region_in alloc_size g t))). lia.
Qed.

Lemma in_place_stays g g' t k c x : same_buffers g g' -> same_place g g' t -> in_place alloc_size g' t k c x <-> in_place alloc_size g t k c x.
Proof.
  intros HB HP. destruct (place_region alloc_size g g' t HB HP) as [E1 E2]. assert (Eb : bytes_in alloc_size g' t = bytes_in alloc_size g t) by (apply (f_equal rg_bytes) in E1; exact E1).
  unfold in_place. by rewrite E1, E2, Eb.
Qed.
End places.

Section run.
Context (T : nat -> ggml_tensor) (alloc_size : Z -> nat -> Z) (G : ggml_cgraph) (se : setting) (node_ids leaf_ids : option (list Z)).
Context (PO : problem_ok T alloc_size G se node_ids leaf_ids).

Local Abbreviation U0 := (uses T (g_nodes G)).
Local Abbreviation wanted := (wanted T G).
Local Abbreviation views := (views T G).
Local Abbreviation sync := (sync T alloc_size G se).

Let GO : graph_ok T G := po_graph _ _ _ _ _ _ PO.

(** The tensors that have places before node [i], and the reads to come. *)
Definition have (i : nat) : list nat := starters T G ++ take i (g_nodes G).
Definition ahead (i : nat) : list nat := uses T (drop i (g_nodes G)).

Lemma ahead_cons i n : g_nodes G !! i = Some n -> ahead i = srcs_of T n ++ ahead (S i).
Proof. intros Hn. unfold ahead. rewrite (drop_S _ _ _ Hn). unfold uses. by rewrite fmap_cons. Qed.

Lemma uses_split i : U0 = uses T (take i (g_nodes G)) ++ ahead i.
Proof. unfold ahead. by rewrite <- uses_app, take_drop. Qed.

Lemma have_S i n : g_nodes G !! i = Some n -> have (S i) = have i ++ [n].
Proof. intros Hn. unfold have. by rewrite (take_S_r _ _ _ Hn), app_assoc. Qed.

Lemma leaf_have i t : t ∈ g_leafs G \/ t ∈ take i (g_nodes G) -> t ∈ have i.
Proof. unfold have, starters. rewrite !elem_of_app. tauto. Qed.

Lemma node_before i j n : g_nodes G !! i = Some n -> n ∈ take j (g_nodes G) -> (i < j)%nat.
Proof using PO.
  intros Hn Hin. apply elem_of_take in Hin as (k & Hk & Hlt). pose proof (go_nodup _ _ GO) as H. unfold tensors_of in H. apply NoDup_app in H as (_ & _ & H).
  pose proof (NoDup_lookup _ _ _ _ H Hn Hk). lia.
Qed.

Lemma node_no_leaf i n : g_nodes G !! i = Some n -> n ∉ g_leafs G.
Proof using PO. intros Hn Hl. pose proof (go_nodup _ _ GO) as H. unfold tensors_of in H. apply NoDup_app in H as (_ & H & _). apply (H n Hl). by eapply list_elem_of_lookup_2. Qed.

(** A node is not read before it is computed. *)
Lemma not_read_before i n : g_nodes G !! i = Some n -> n ∉ uses T (take i (g_nodes G)).
Proof using PO.
  intros Hn Hin. unfold uses in Hin. apply elem_of_concat_fmap in Hin as (w & (j & Hj & Hlt)%elem_of_take & Hs).
  destruct (go_src _ _ GO j w n Hj Hs) as [H|H]; [by apply (node_no_leaf i n Hn)|]. apply (node_before i j n Hn) in H. lia.
Qed.

Lemma views_pos U t : views U t <> 0%nat <-> exists v, v ∈ view_nodes T G t /\ pending T G U v.
Proof.
  unfold GraphSpec.views. rewrite length_zero_iff_nil. split.
  - intros H. destruct (filter (pending T G U) (view_nodes T G t)) as [|v l] eqn:E; [done|]. exists v. assert (Hv : v ∈ filter (pending T G U) (view_nodes T G t)) by (rewrite E; set_solver).
    apply list_elem_of_filter in Hv as [? ?]. done.
  - intros (v & H1 & H2) E. assert (Hv : v ∈ filter (pending T G U) (view_nodes T G t)) by (by apply list_elem_of_filter). rewrite E in Hv. by apply not_elem_of_nil in Hv.
Qed.

(** What is still to be read after the first [i] nodes. *)
Lemma still_ahead i u : u ∈ U0 -> u ∉ uses T (take i (g_nodes G)) -> u ∈ ahead i.
Proof. rewrite (uses_split i) at 1. rewrite elem_of_app. tauto. Qed.

Lemma wanted_now i n : g_nodes G !! i = Some n -> mine T n = true -> wanted (ahead i) n.
Proof using PO.
  intros Hn Hm. destruct (wanted_all T G n) as [H|[H|[H|H]]]; [by left| | |by right; right; right].
  - right; left. rewrite kids_zero. intros Hno. apply H, kids_zero. intros Hin. apply Hno, still_ahead; [done|by apply (not_read_before i)].
  - right; right; left. apply views_pos in H as (v & Hv & Hp). apply views_pos. exists v. split; [done|]. destruct Hp as [Hp|Hp]; [left|by right]. apply still_ahead; [done|].
    intros Hin. apply view_nodes_spec in Hv as (Hvn & Hvs & _). apply list_elem_of_lookup in Hvn as [j Hj].
    unfold uses in Hin. apply elem_of_concat_fmap in Hin as (w & (k & Hk & Hlt)%elem_of_take & Hs). destruct (go_src _ _ GO k w v Hk Hs) as [H|H]; [by apply (node_no_leaf j v Hj)|].
    apply (node_before j k v Hj) in H. destruct (go_view _ _ GO j v n Hj Hvs Hm) as [H'|H']; [by apply (node_no_leaf i n Hn)|]. apply (node_before i j n Hn) in H'. lia.
Qed.

(** ** Reads find their tensors *)

Lemma reads_earlier i n r : g_nodes G !! i = Some n -> r ∈ reads T n -> mine T r = true -> r ∈ g_leafs G \/ r ∈ take i (g_nodes G).
Proof using PO.
  intros Hn Hr Hm. unfold reads in Hr. apply elem_of_app in Hr as [Hr|Hr].
  - apply list_elem_of_fmap in Hr as (s & -> & Hs). pose proof (go_src _ _ GO i n s Hn Hs) as Hloc. unfold root in *. destruct (t_view_src (T s)) as [r|] eqn:Ev; cbn [default from_option id] in *; [|done].
    assert (HsU0 : s ∈ U0) by (rewrite (uses_split i), (ahead_cons i n Hn); set_solver). destruct (go_read _ _ GO s r HsU0 Ev Hm) as [Hsn _].
    destruct Hloc as [Hloc|Hloc]; [by apply list_elem_of_lookup in Hsn as [j Hj]; destruct (node_no_leaf j s Hj)|].
    apply elem_of_take in Hloc as (j & Hj & Hlt). destruct (go_view _ _ GO j s r Hj Ev Hm) as [H|H]; [by left|right]. apply elem_of_take in H as (k & Hk & Hlt'). apply elem_of_take. exists k. split; [done|lia].
  - destruct (is_view_op T n) eqn:Ho; [|by apply not_elem_of_nil in Hr]. apply list_elem_of_singleton in Hr as ->. unfold is_view_op, ggml_impl_is_view, root in *.
    destruct (t_view_src (T n)) as [r|] eqn:Ev; [|done]. by apply (go_view _ _ GO i n r).
Qed.

Lemma reads_other i n r : g_nodes G !! i = Some n -> r ∈ reads T n -> mine T r = true -> r <> n.
Proof using PO.
  intros Hn Hr Hm ->. destruct (reads_earlier i n n Hn Hr Hm) as [H|H]; [by apply (node_no_leaf i n Hn)|]. apply (node_before i i n Hn) in H. lia.
Qed.

Lemma reads_held i n g al m r : g_nodes G !! i = Some n -> sync g al m (have i) (ahead i) [] -> r ∈ reads T n -> mine T r = true -> r ∈ al.
Proof using PO.
  intros Hn [_ Hal] Hr Hm. apply Hal. pose proof (leaf_have _ _ (reads_earlier i n r Hn Hr Hm)) as Hhave. unfold reads in Hr. apply elem_of_app in Hr as [Hr|Hr].
  - apply list_elem_of_fmap in Hr as (s & -> & Hs).
    assert (HsU : s ∈ ahead i) by (rewrite (ahead_cons i n Hn); set_solver). unfold root in *. destruct (t_view_src (T s)) as [r|] eqn:Ev; cbn [default from_option id] in *.
    + assert (HsU0 : s ∈ U0) by (rewrite (uses_split i); set_solver). destruct (go_read _ _ GO s r HsU0 Ev Hm) as [Hsn Hop]. split_and!; [done|done| |by intros ?%not_elem_of_nil].
      right; right; left. apply views_pos. exists s. split; [by apply view_nodes_spec|by left].
    + split_and!; [done|done| |by intros ?%not_elem_of_nil]. right; left. rewrite kids_zero. tauto.
  - destruct (is_view_op T n) eqn:Ho; [|by apply not_elem_of_nil in Hr]. apply list_elem_of_singleton in Hr as ->. unfold is_view_op, ggml_impl_is_view, root in *.
    destruct (t_view_src (T n)) as [r|] eqn:Ev; [|done]. cbn [default from_option id] in *. apply andb_true_iff in Ho as [_ Ho]. apply negb_true_iff, bool_decide_eq_false_1 in Ho.
    split_and!; [done|done| |by intros ?%not_elem_of_nil]. right; right; left. apply views_pos. exists n.
    split; [apply view_nodes_spec; split_and!; [by eapply list_elem_of_lookup_2|done|done]|]. destruct (decide (n ∈ U0)) as [Hin|]; [left|by right]. apply still_ahead; [done|by apply (not_read_before i)].
Qed.

(** ** Planning a node *)

Lemma allocate_srcs_noop g al m D kc vc b srcs : plan_inv T alloc_size G se g al m D kc vc -> 0 <= b -> (forall s, s ∈ omap id srcs -> mine T s = true -> s ∈ al) ->
  mfor (allocate_src T alloc_size b) srcs g = Ok g.
Proof.
  intros I Hb. induction srcs as [|[s|] srcs IH]; intros H; cbn [mfor allocate_src]; [done| |by apply IH].
  rewrite (allocate_noop T alloc_size G se g al m D kc vc s b I Hb). { cbn [mbind res_bind]. apply IH. intros u Hu. apply H. cbn. set_solver. }
  destruct (mine T s) eqn:E; [right|by left]. apply H; [cbn; set_solver|done].
Qed.

Lemma mine_root t : mine T t = true -> root T t = t.
Proof. intros H. apply mine_spec in H as (_ & _ & H). unfold root. by rewrite H. Qed.

Lemma have_length i : (i < length (g_nodes G))%nat -> (length (have i) < 2 * length (tensors_of G))%nat.
Proof.
  intros Hi. unfold have, starters, tensors_of. rewrite !length_app, length_take. pose proof (length_filter (fun t => is_input T t = true) (g_nodes G)). lia.
Qed.

Lemma have_tensors i t : t ∈ have i -> t ∈ tensors_of G.
Proof.
  unfold have. intros [H|H]%elem_of_app; [by apply (starters_tensors T)|]. unfold tensors_of. apply elem_of_app. right. apply elem_of_take in H as (j & Hj & _). by eapply list_elem_of_lookup_2.
Qed.

Lemma sync_few g al m i : (i <= length (g_nodes G))%nat -> sync g al m (have i) (ahead i) [] -> (length al < 254)%nat.
Proof using PO.
  intros Hi [I Hal]. apply (in_live _ _ _ _ _ _ PO al i); [apply (pi_inv _ _ _ _ _ _ _ _ _ _ I)|done|]. intros t Ht. destruct (proj1 (Hal t) Ht) as (H1 & H2 & H3 & _).
  split_and!; [by apply (have_tensors i)|done|by apply elem_of_app in H1|done].
Qed.

Lemma not_own_src i n p : g_nodes G !! i = Some n -> p ∈ srcs_of T n -> p <> n.
Proof using PO. intros Hn Hp ->. destruct (go_src _ _ GO i n n Hn Hp) as [H|H]; [by apply (node_no_leaf i n Hn)|]. apply (node_before i i n Hn) in H. lia. Qed.

(** The parent whose place was taken is not wanted any more. *)
Lemma taken_unwanted i n p al : g_nodes G !! i = Some n -> takes_over T al (fun t => Z.of_nat (kids (ahead i) t)) (fun t => Z.of_nat (views (ahead i) t)) n p -> ~ wanted (ahead (S i)) p.
Proof using PO.
  intros Hn (Hsrc & _ & Hout & Hk & Hv & _) Hw. rewrite (ahead_cons i n Hn) in Hk. rewrite kids_app in Hk. assert (Hks : kids (srcs_of T n) p <> 0%nat) by (rewrite kids_zero; tauto).
  unfold GraphSpec.wanted in Hw. rewrite Hout in Hw. destruct Hw as [?|[?|[Hvw|[Hu _]]]]; [done|lia| |].
  - assert (Hz : views (ahead i) p = 0%nat) by lia. apply views_pos in Hvw as (v & H1 & H2). apply (proj2 (views_pos (ahead i) p)); [|done]. exists v. split; [done|].
    destruct H2 as [H2|H2]; [left|by right]. rewrite (ahead_cons i n Hn). set_solver.
  - apply kids_zero in Hu. apply Hu. rewrite (uses_split i), (ahead_cons i n Hn). set_solver.
Qed.

(** *** The argument whose place was taken *)

Lemma inplace_tolerates op : ggml_op_can_inplace op = true -> exists j, tolerates op j = true.
Proof. destruct op; intros H; try discriminate H; first [by exists 0%nat|by exists 1%nat]. Qed.

Lemma kids_roots srcs p : (forall s, s ∈ srcs -> root T s = p <-> s = p) -> kids (root T <$> srcs) p = kids srcs p.
Proof.
  induction srcs as [|s srcs IH]; intros H; [done|]. rewrite fmap_cons, !kids_cons, IH by set_solver.
  specialize (H s ltac:(set_solver)). repeat case_decide; tauto.
Qed.

Lemma srcs_at n p : p ∈ srcs_of T n -> exists j, t_src (T n) !! j = Some (Some p).
Proof. unfold srcs_of. intros (x & Hx & E)%list_elem_of_omap. unfold id in E. subst x. by apply list_elem_of_lookup in Hx. Qed.

(** It is read once, and by an operation that can be computed over it. *)
Lemma taken_read_once i n p al : g_nodes G !! i = Some n -> mine T n = true -> mine T p = true ->
  takes_over T al (fun t => Z.of_nat (kids (ahead i) t)) (fun t => Z.of_nat (views (ahead i) t)) n p -> kids (reads T n) p = 1%nat.
Proof using PO.
  intros Hn Hm Hp (Hsrc & _ & _ & Hk & Hv & _). rewrite (ahead_cons i n Hn), kids_app in Hk.
  assert (Hks : kids (srcs_of T n) p <> 0%nat) by (rewrite kids_zero; tauto). unfold reads.
  assert (is_view_op T n = false) as -> by (apply mine_spec in Hm as (_ & _ & E); unfold is_view_op, ggml_impl_is_view; by rewrite E).
  rewrite app_nil_r, kids_roots; [lia|]. intros s Hs. split; [|intros ->; by apply mine_root].
  intros Hr. unfold root in Hr. destruct (t_view_src (T s)) as [r|] eqn:Ev; [|done]. cbn in Hr. subst r. exfalso.
  assert (HsU : s ∈ ahead i) by (rewrite (ahead_cons i n Hn); set_solver). assert (HsU0 : s ∈ U0) by (rewrite (uses_split i); set_solver).
  destruct (go_read _ _ GO s p HsU0 Ev Hp) as [Hsn Hop]. assert (Hz : views (ahead i) p = 0%nat) by lia. revert Hz. apply views_pos. exists s.
  split; [by apply view_nodes_spec|by left].
Qed.

Lemma taken_spared g i n p al : g_nodes G !! i = Some n -> mine T n = true -> mine T p = true -> ggml_op_can_inplace (t_op (T n)) = true ->
  takes_over T al (fun t => Z.of_nat (kids (ahead i) t)) (fun t => Z.of_nat (views (ahead i) t)) n p ->
  buffer_id (hash_get g n) = buffer_id (hash_get g p) -> addr (hash_get g n) = addr (hash_get g p) -> over_argument T g n p.
Proof using PO.
  intros Hn Hm Hp Hin Hto E1 E2. pose proof (taken_read_once i n p al Hn Hm Hp Hto) as Honce. destruct Hto as (Hsrc & _ & Hout & _ & _ & Hlay).
  destruct (srcs_at n p Hsrc) as [j Hj], (inplace_tolerates _ Hin) as [j' Hj']. exists j. split_and!; try done.
  apply (go_over _ _ GO n j j' p); try done. by eapply list_elem_of_lookup_2.
Qed.

Lemma node_allocated i n g al m b : g_nodes G !! i = Some n -> sync g al m (have i) (ahead i) [] -> buffer_ok se b ->
  exists g1 al1 m1 X, ggml_gallocr_allocate_node T alloc_size g n b = Ok g1 /\ sync g1 al1 m1 (have (S i)) (ahead i) X /\ same_buffers g g1 /\ grows g g1 /\
    (forall u, u ∈ have i \/ u <> n -> same_place g g1 u) /\ (forall u, u ∈ al1 -> u <> n -> u ∈ al) /\ (mine T n = true -> n ∈ al1) /\ (length al1 < 255)%nat /\
    (forall p, p ∈ X -> ~ wanted (ahead (S i)) p) /\
    forall r, mine T n = true -> r ∈ al -> r <> n -> r ∈ al1 \/ over_argument T g1 n r.
Proof using PO.
  intros Hn Hsy Hb. pose proof Hsy as [I Hal]. pose proof (lookup_lt_Some _ _ _ Hn) as Hi. pose proof (sync_few g al m i ltac:(lia) Hsy) as Hfew. rewrite (have_S i n Hn).
  destruct (decide (mine T n = true /\ n ∉ have i)) as [[Hm Hnew]|Hno].
  - destruct (allocate_new T alloc_size G se (po_sizes _ _ _ _ _ _ PO) g al m (have i) _ _ I ltac:(lia) n) with (b := b) as (g1 & al1 & m1 & E & [Q1 Q2 Q5 Q6] & I1 & Hal1); try done.
    { unfold tensors_of. apply elem_of_app. right. by eapply list_elem_of_lookup_2. } { by apply have_length. } { intros _ p. by apply (not_own_src i). }
    assert (Hpl : forall u, u ∈ have i \/ u <> n -> same_place g g1 u) by (intros u [Hu|Hu]; apply Q6; [by intros ->|done]). pose proof (wanted_now i n Hn Hm) as Hw.
    destruct Hal1 as [->|(p & Hto & Hin & -> & Ea1 & Ea2)].
    + exists g1, (n :: al), m1, []. split; [done|]. split; [split; [done|]|split_and!; try done; [by intros u [->|?]%elem_of_cons|set_solver|cbn; lia|by intros p ?%not_elem_of_nil|left; set_solver]].
      intros u. rewrite elem_of_cons, Hal, elem_of_app, list_elem_of_singleton. destruct (decide (u = n)) as [->|]; [|tauto]. split; [|tauto]. intros _. split_and!; try done; [by right|apply not_elem_of_nil].
    + exists g1, (n :: filter (fun u => u <> p) al), m1, [p]. pose proof Hto as (T1 & T2 & T3). assert (Hpn : p <> n) by by apply (not_own_src i). split; [done|]. split; [split; [done|]|split_and!; try done].
      * intros u. rewrite elem_of_cons, list_elem_of_filter, Hal, elem_of_app, !list_elem_of_singleton. destruct (decide (u = n)) as [->|]; [|set_solver]. split; [|tauto]. intros _. split_and!; try done; by right.
      * intros u [->|[_ Hu]%list_elem_of_filter]%elem_of_cons Hne; done.
      * set_solver.
      * cbn. pose proof (length_filter (fun u => u <> p) al). lia.
      * intros q ->%list_elem_of_singleton. by apply (taken_unwanted i n p al Hn).
      * intros r _ Hr Hrn. destruct (decide (r = p)) as [->|Hrp]; [right|left; apply elem_of_cons; right; by apply list_elem_of_filter].
        destruct (Q6 p Hpn) as [P1 P2], (pi_mine _ _ _ _ _ _ _ _ _ _ I p Hr) as (_ & Hmp & _). apply (taken_spared g1 i n p al); congruence || done.
  - assert (Hcase : mine T n = false \/ n ∈ al).
    { destruct (mine T n) eqn:Hm; [right|by left]. apply Hal. split_and!; [|done|by apply (wanted_now i)|apply not_elem_of_nil]. destruct (decide (n ∈ have i)); [done|tauto]. }
    exists g, al, m, []. split; [apply (allocate_noop _ _ _ _ _ _ _ _ _ _ _ _ I); [apply Hb|done]|].
    split; [split|split; [done|split; [apply grows_refl|split_and!; try done; [intros Hm; destruct Hcase; congruence|lia|by intros p ?%not_elem_of_nil|by left]]]].
    + eapply plan_inv_ext; [exact I|set_solver|rewrite length_app; lia|done|done].
    + intros u. rewrite Hal, elem_of_app, list_elem_of_singleton. split; [tauto|]. intros ([?| ->] & H2 & H3 & H4); [done|]. destruct Hcase as [Hc|Hc]; [congruence|]. apply Hal in Hc. tauto.
Qed.

Lemma spares_stays g g' n r : same_buffers g g' -> same_place g g' n -> same_place g g' r -> spares T alloc_size g n r -> spares T alloc_size g' n r.
Proof.
  intros HB Hn Hr [H|(j & H1 & H2 & H3 & H4 & H5 & H6)]; [left|right].
  - intros k c x. rewrite !(in_place_stays alloc_size g g') by done. apply H.
  - exists j. destruct Hn as [-> ->], Hr as [-> ->]. by split_and!.
Qed.

Lemma node_step_ok i n g al m : g_nodes G !! i = Some n -> sync g al m (have i) (ahead i) [] ->
  exists g' al' m', node_step T alloc_size G node_ids g i = Ok g' /\ sync g' al' m' (have (S i)) (ahead (S i)) [] /\ same_buffers g g' /\ grows g g' /\
    (forall u, u ∈ have i -> same_place g g' u) /\ (mine T n = true -> inside alloc_size g' n) /\
    (forall r, r ∈ reads T n -> mine T r = true -> mine T n = true -> spares T alloc_size g' n r) /\
    forall t, t ∈ al' -> t <> n -> t ∈ al /\ same_place g g' t /\ (mine T n = true -> forall k c x, in_place alloc_size g' n k c x -> ~ in_place alloc_size g' t k c x).
Proof using PO.
  intros Hn Hsy. destruct (po_nodes _ _ _ _ _ _ PO i n Hn) as (b & Eb & Hb). unfold node_step. rewrite (proj2 (vec_get_ok _ _ _) Hn). cbn [mbind res_bind]. rewrite Eb. cbn [mbind res_bind].
  rewrite (allocate_srcs_noop g al m _ _ _ b (t_src (T n)) (proj1 Hsy) (proj1 Hb)).
  2:{ intros s Hs Hm. apply (reads_held i n g al m s Hn Hsy); [|done]. unfold reads. apply elem_of_app. left. apply list_elem_of_fmap. exists s. split; [by rewrite mine_root|done]. }
  cbn [mbind res_bind]. destruct (node_allocated i n g al m b Hn Hsy Hb) as (g1 & al1 & m1 & X & E1 & Hsy1 & HB1 & HG1 & Hp1 & Hsub1 & Hin1 & Hl1 & HX & Hov). rewrite E1. cbn [mbind res_bind].
  rewrite (ahead_cons i n Hn) in Hsy1. destruct (release_srcs_ok T alloc_size G se node_ids leaf_ids PO (ahead (S i)) (t_src (T n)) g1 al1 m1 (have (S i)) X) as (g' & al' & E' & Hsy' & Hsub' & HB2 & HG2 & Hp2); [|done|done|].
  { intros s Hs. rewrite (uses_split i), (ahead_cons i n Hn). rewrite !elem_of_app. by right; left. }
  pose proof (pi_inv _ _ _ _ _ _ _ _ _ _ (proj1 Hsy1)) as J1. exists g', al', m1. split; [exact E'|]. split.
  { destruct Hsy' as [I' Hal']. split; [done|]. intros t. rewrite Hal'. split; [intros (H1 & H2 & H3 & _); split_and!; try done; apply not_elem_of_nil|].
    intros (H1 & H2 & H3 & _). split_and!; try done. intros Hx. by apply (HX t). }
  split; [split; destruct HB1, HB2; congruence|]. split; [by eapply grows_trans|]. split; [intros u Hu; eapply same_place_trans; [apply Hp1; by left|apply Hp2]|]. split.
  { intros Hm. apply (inside_stays alloc_size g1 g' n HB2 HG2 (Hp2 n)). by apply (own_inside alloc_size _ _ _ _ _ J1), Hin1. }
  split.
  { intros r Hr Hmr Hm. pose proof (reads_other i n r Hn Hr Hmr) as Hne. apply (spares_stays g1 g'); [done|apply Hp2|apply Hp2|].
    destruct (Hov r Hm (reads_held i n g al m r Hn Hsy Hr Hmr) Hne) as [Hr1|Ho]; [left|by right].
    intros k c x. apply (places_disjoint alloc_size _ _ _ _ _ _ _ _ _ J1); [by apply Hin1|done|done]. }
  intros t Ht Hne. apply Hsub' in Ht as Ht1. split; [by apply Hsub1|]. split; [eapply same_place_trans; [apply Hp1; by right|apply Hp2]|].
  intros Hm k c x. rewrite !(in_place_stays alloc_size g1 g') by (done || apply Hp2). apply (places_disjoint alloc_size _ _ _ _ _ _ _ _ _ J1); [by apply Hin1|done|done].
Qed.

(** ** The rest of the graph *)

Lemma nodes_ok rest : forall i g al m, (i + rest = length (g_nodes G))%nat -> sync g al m (have i) (ahead i) [] ->
  exists gf, mfor (node_step T alloc_size G node_ids) (seq i rest) g = Ok gf /\ same_buffers g gf /\ grows g gf /\ (forall u, u ∈ have i -> same_place g gf u) /\
    ((forall t, t ∈ have i -> mine T t = true -> inside alloc_size g t) -> forall t, t ∈ tensors_of G -> mine T t = true -> inside alloc_size gf t) /\
    forall M, (forall t, t ∈ al -> intact alloc_size g M t) -> computes T alloc_size G gf (drop i (g_nodes G)) M.
Proof using PO.
  induction rest as [|rest IH]; intros i g al m Hi Hsy; cbn [seq mfor].
  - exists g. split; [done|]. split; [done|]. split; [apply grows_refl|]. split; [done|]. assert (Hall : forall t, t ∈ tensors_of G -> t ∈ have i).
    { intros t Ht. apply leaf_have. rewrite firstn_all2 by lia. unfold tensors_of in Ht. by apply elem_of_app in Ht. }
    split; [intros H t Ht; apply H; by apply Hall|]. intros M HM. rewrite drop_ge by lia. cbn [computes]. intros t Ht Hout.
    split; [intros Hm; apply HM, (proj2 Hsy); split_and!; [by apply Hall|done|by left|apply not_elem_of_nil]|].
    intros Htn Hop Hno Hm. apply HM, (proj2 Hsy). unfold is_view_op, ggml_impl_is_view, root in *. destruct (t_view_src (T t)) as [r|] eqn:Ev; [|done]. cbn [default from_option id] in *.
    apply andb_true_iff in Hop as [_ Hop]. apply negb_true_iff, bool_decide_eq_false_1 in Hop. split_and!; [|done| |apply not_elem_of_nil].
    + apply list_elem_of_lookup in Htn as [j Hj]. destruct (go_view _ _ GO j t r Hj Ev Hm) as [H|(k & Hk & _)%elem_of_take]; apply Hall; unfold tensors_of; apply elem_of_app; [by left|right; by eapply list_elem_of_lookup_2].
    + right; right; left. apply views_pos. exists t. split; [by apply view_nodes_spec|by right].
  - destruct (lookup_lt_is_Some_2 (g_nodes G) i) as [n Hn]; [lia|]. destruct (node_step_ok i n g al m Hn Hsy) as (g' & al' & m' & E & Hsy' & HB & HG & Hp & Hins & Hspare & Hold). rewrite E. cbn [mbind res_bind].
    destruct (IH (S i) g' al' m' ltac:(lia) Hsy') as (gf & Ef & HBf & HGf & Hpf & Hinsf & Hcomp). exists gf. split; [done|]. split; [split; destruct HB, HBf; congruence|]. split; [by eapply grows_trans|].
    assert (Hpg : forall u, u ∈ have i -> same_place g gf u). { intros u Hu. eapply same_place_trans; [by apply Hp|]. apply Hpf. rewrite (have_S i n Hn). set_solver. }
    split; [done|]. split.
    + intros H. apply Hinsf. intros t Ht Hm. rewrite (have_S i n Hn) in Ht. apply elem_of_app in Ht as [Ht| ->%list_elem_of_singleton]; [|by apply Hins].
      apply (inside_stays alloc_size g g' t HB HG); [by apply Hp|by apply H].
    + intros M HM. rewrite (drop_S _ _ _ Hn). cbn [computes]. assert (HBgf : same_buffers g gf) by (split; destruct HB, HBf; congruence). split.
      * intros r Hr Hm. split; [|intros Hmn; apply (spares_stays g' gf); [done|apply Hpf; rewrite (have_S i n Hn); set_solver| |by apply Hspare];
          apply Hpf; rewrite (have_S i n Hn); apply elem_of_app; left; by apply leaf_have, (reads_earlier i n r)].
        intros k c x Hx. pose proof (reads_held i n g al m r Hn Hsy Hr Hm) as Hral. apply (HM r Hral). apply (in_place_stays alloc_size g gf r k c x HBgf); [|done].
        apply Hpg. by apply (proj2 Hsy) in Hral as [? _].
      * apply Hcomp. intros t Ht k c x Hx. pose proof (proj1 (proj2 Hsy' t) Ht) as (Hth & Htm & _). destruct (decide (t = n)) as [->|Hne].
        { rewrite Htm. unfold write. rewrite decide_True; [done|]. apply (in_place_stays alloc_size g' gf n k c x HBf); [|done]. apply Hpf. rewrite (have_S i n Hn). set_solver. }
        destruct (Hold t Ht Hne) as (Hta & Hpt & Hdis). assert (HMt : M k c x = Some t) by (apply (HM t Hta); by apply (in_place_stays alloc_size g g' t k c x HB)).
        destruct (mine T n) eqn:Hm; [|done]. unfold write. rewrite decide_False; [done|]. intros Hx'. apply (Hdis eq_refl k c x); [|done].
        apply (in_place_stays alloc_size g' gf n k c x HBf); [|done]. apply Hpf. rewrite (have_S i n Hn). set_solver.
Qed.
End run.
