(* ===== verification/GraphProps.v ===== *)
(** * What the graph allocator guarantees

    A plan for a graph exists, and the graph can be computed in the places it gives.  The example
    graphs of the witnesses are at the end. *)

From S2P Require Import Prelude Alloc AllocTheory AllocProps AllocRun GraphAlloc GraphOps GraphSpec GraphPlan.
From S2P Require Import GraphRun.

(** An allocator of graphs, before or after planning. *)
Record gallocr_ok (g : ggml_gallocr) : Prop := {
  ok_bufs : forall b, 0 <= b < Z.of_nat (length (ga_bufts g)) -> exists k a, ga_buf_tallocs g !! Z.to_nat b = Some k /\ ga_tallocs g !! k = Some a;
  ok_tals : forall k a, ga_tallocs g !! k = Some a -> pow2 (da_alignment a) /\ 0 <= da_max_chunk_size a <= SIZE_HALF
}.

Definition setting_of (g : ggml_gallocr) (bound : Z) : setting := mk_setting (ga_bufts g) (ga_buf_tallocs g) (da_alignment <$> ga_tallocs g) bound.

(** ** The allocators of a new [ggml_gallocr] *)

Section new.
Context (buft_alignment buft_max_size : Z -> Z) (Hal : forall b, pow2 (buft_alignment b)) (Hmax : forall b, 0 <= buft_max_size b).

(** The buffers served so far, and the allocator of each has its alignment. *)
Definition serves (bufts : list Z) (st : list nat * list ggml_dyn_tallocr) : Prop :=
  length st.1 = length bufts /\
  (forall i b, bufts !! i = Some b -> exists k, st.1 !! i = Some k /\ st.2 !! k = Some (ggml_dyn_tallocr_new (buft_alignment b) (buft_max_size b))) /\
  (forall k a, st.2 !! k = Some a -> exists b, a = ggml_dyn_tallocr_new (buft_alignment b) (buft_max_size b)).

Lemma add_buffer_ok bufts i b st : bufts !! i = Some b -> serves (take i bufts) st -> sat (add_buffer buft_alignment buft_max_size bufts st i) (serves (take (S i) bufts)).
Proof.
  intros Hb (H1 & H2 & H3). destruct st as [bt ts]. cbn [fst snd] in *. unfold add_buffer. rewrite (proj2 (vec_get_ok _ _ _) Hb). cbn [mbind res_bind]. rewrite (take_S_r _ _ _ Hb).
  assert (Hlen : length (take i bufts) = i) by (rewrite length_take; apply lookup_lt_Some in Hb; lia). rewrite Hlen in H1.
  destruct (list_find (fun b' => b' = b) (take i bufts)) as [[j b']|] eqn:Hf.
  - apply list_find_Some in Hf as (Hj & -> & _). destruct (H2 j b Hj) as (k & Hk & Ha). rewrite (proj2 (vec_get_ok _ _ _) Hk). cbn [mbind res_bind]. apply sat_ok. unfold serves. cbn [fst snd].
    split; [rewrite !length_app; cbn; lia|]. split; [|done]. intros x y Hx. apply lookup_app_Some in Hx as [Hx|[Hge Hx]].
    + destruct (H2 x y Hx) as (k' & Hk' & Ha'). exists k'. split; [by apply lookup_app_l_Some|done].
    + apply list_lookup_singleton_Some in Hx as [Hx <-]. exists k. split; [|done]. rewrite lookup_app_r by lia. replace (x - length bt)%nat with 0%nat by lia. done.
  - apply sat_ok. unfold serves. cbn [fst snd]. split; [rewrite !length_app; cbn; lia|]. split.
    + intros x y Hx. apply lookup_app_Some in Hx as [Hx|[Hge Hx]].
      * destruct (H2 x y Hx) as (k' & Hk' & Ha'). exists k'. split; by apply lookup_app_l_Some.
      * apply list_lookup_singleton_Some in Hx as [Hx <-]. exists (length ts). split; [|by apply list_lookup_middle]. rewrite lookup_app_r by lia. replace (x - length bt)%nat with 0%nat by lia. done.
    + intros k a Hk. apply lookup_app_Some in Hk as [Hk|[_ Hk]]; [by apply (H3 k)|]. apply list_lookup_singleton_Some in Hk as [_ <-]. by exists b.
Qed.

Lemma new_n_ok bufts : exists g, ggml_gallocr_new_n buft_alignment buft_max_size bufts = Ok g /\ gallocr_ok g /\ ga_bufts g = bufts /\
  forall i b, bufts !! i = Some b -> exists k a, ga_buf_tallocs g !! i = Some k /\ ga_tallocs g !! k = Some a /\ da_alignment a = buft_alignment b.
Proof using Hal Hmax.
  unfold ggml_gallocr_new_n. assert (H : sat (mfor (add_buffer buft_alignment buft_max_size bufts) (seq 0 (length bufts)) ([], [])) (fun st => serves (take (length bufts) bufts) st)).
  { apply (sat_for _ (fun i st => serves (take i bufts) st)); [split; [done|]; split; intros ? ? Hx; cbn in Hx; try (rewrite take_0 in Hx); by rewrite lookup_nil in Hx|].
    intros i st Hi Hst. destruct (lookup_lt_is_Some_2 bufts i Hi) as [b Hb]. rewrite Nat.add_1_r. by apply (add_buffer_ok bufts i b). }
  rewrite firstn_all in H. apply sat_exists in H as ([bt ts] & E & H1 & H2 & H3). rewrite E. cbn [mbind res_bind fst snd] in *. eexists. split; [reflexivity|]. cbn [ga_bufts ga_buf_tallocs ga_tallocs].
  split; [split|split; [done|]]; cbn [ga_bufts ga_buf_tallocs ga_tallocs].
  - intros b Hb. destruct (lookup_lt_is_Some_2 bufts (Z.to_nat b)) as [x Hx]; [lia|]. destruct (H2 _ x Hx) as (k & Hk & Ha). by eexists _, _.
  - intros k a Ha. destruct (H3 k a Ha) as (b & ->). specialize (Hal b). specialize (Hmax b). cbn. split; [done|]. unfold SIZE_HALF. lia.
  - intros i b Hb. destruct (H2 i b Hb) as (k & Hk & Ha). by eexists _, _.
Qed.
End new.

(** ** Planning *)

Section plan.
Context (T : nat -> ggml_tensor) (alloc_size : Z -> nat -> Z) (G : ggml_cgraph).

Lemma initial_intact bound g al m l : galloc_inv alloc_size bound g al m -> (forall t, t ∈ l -> t ∈ al) ->
  forall t, t ∈ l -> intact alloc_size g (foldr (write alloc_size g) (fun _ _ _ => None) l) t.
Proof.
  intros I. induction l as [|u l IH]; intros Hl t Ht k c x Hx; [by apply not_elem_of_nil in Ht|]. cbn [foldr]. unfold write at 1. case_decide as Hu.
  - destruct (decide (t = u)) as [->|Hne]; [done|]. exfalso. apply (places_disjoint alloc_size bound g al m u t k c x I); [apply Hl; set_solver|apply Hl; set_solver|done|done|done].
  - apply IH; [intros v Hv; apply Hl; set_solver| |done]. apply elem_of_cons in Ht as [->|Ht]; [done|done].
Qed.

Lemma reset_plan_inv g bound : gallocr_ok g -> 0 <= bound ->
  plan_inv T alloc_size G (setting_of g bound) (with_hash ∅ (with_tallocs (ggml_dyn_tallocr_reset <$> ga_tallocs g) g)) [] 0 [] (fun _ => 0) (fun _ => 0).
Proof.
  intros [O1 O2] Hb. assert (Hz : forall t, hash_get (with_hash ∅ (with_tallocs (ggml_dyn_tallocr_reset <$> ga_tallocs g) g)) t = zero_node) by (intros t; unfold hash_get; cbn; by rewrite lookup_empty).
  split; try (intros t; rewrite ?Hz; done).
  - split; try done.
    + intros b Hb'. cbn in Hb'. destruct (O1 b Hb') as (k & a & Hk & Ha). exists k, (ggml_dyn_tallocr_reset a). cbn. split; [done|]. by rewrite list_lookup_fmap, Ha.
    + constructor.
    + intros t. unfold own. rewrite Hz. split; [by intros ?%not_elem_of_nil|done].
    + intros t Ht. by apply not_elem_of_nil in Ht.
    + intros k a Ha. cbn in Ha. apply list_lookup_fmap_Some in Ha as (a0 & -> & Ha). destruct (O2 k a0 Ha) as [P1 P2]. unfold live_in. rewrite filter_nil. cbn.
      split; cbn; try done; [unfold GGML_VBUFFER_MAX_CHUNKS; lia|]. intros r Hr. by apply not_elem_of_nil in Hr.
    + intros k a c Ha. cbn in Ha. apply list_lookup_fmap_Some in Ha as (a0 & -> & Ha). unfold max_size, ggml_dyn_tallocr_reset, with_chunks. cbn [da_chunks]. rewrite lookup_nil. lia.
  - split_and!; [done|done|]. cbn. rewrite <- list_fmap_compose. done.
  - intros t Ht. by apply not_elem_of_nil in Ht.
  - cbn. lia.
Qed.

(** The memory that is held while the graph is planned. *)
Lemma nodes_sync bound g node_ids leaf_ids g2 al m i : problem_ok T alloc_size G (setting_of g bound) node_ids leaf_ids ->
  sync T alloc_size G (setting_of g bound) g2 al m (have T G 0) (ahead T G 0) [] -> (i <= length (g_nodes G))%nat ->
  exists gi al' m', mfor (node_step T alloc_size G node_ids) (seq 0 i) g2 = Ok gi /\ sync T alloc_size G (setting_of g bound) gi al' m' (have T G i) (ahead T G i) [].
Proof.
  intros PO Hsy. induction i as [|i IH]; intros Hi; [by exists g2, al, m|]. destruct (IH ltac:(lia)) as (gi & al' & m' & E & Hsy'). rewrite seq_S, mfor_app, E. cbn [mbind res_bind mfor Nat.add].
  destruct (lookup_lt_is_Some_2 (g_nodes G) i Hi) as [n Hn]. destruct (node_step_ok T alloc_size G _ node_ids leaf_ids PO i n gi al' m' Hn Hsy') as (g' & al2 & m2 & E2 & Hsy2 & _). rewrite E2. by exists g', al2, m2.
Qed.

(** The state before the first node is planned. *)
Lemma plan_begins g bound node_ids leaf_ids : gallocr_ok g -> problem_ok T alloc_size G (setting_of g bound) node_ids leaf_ids ->
  exists g1 g2 al m, let g0 := with_hash ∅ (with_tallocs (ggml_dyn_tallocr_reset <$> ga_tallocs g) g) in
    mfor (leaf_step T alloc_size G leaf_ids) (seq 0 (length (g_leafs G))) g0 = Ok g1 /\ mfor (count_step T alloc_size G node_ids) (seq 0 (length (g_nodes G))) g1 = Ok g2 /\
    sync T alloc_size G (setting_of g bound) g2 al m (have T G 0) (ahead T G 0) [] /\ forall t, t ∈ al <-> t ∈ starters T G /\ mine T t = true.
Proof.
  intros Hg PO. pose proof (reset_plan_inv g bound Hg (so_bound _ _ _ _ (po_sizes _ _ _ _ _ _ PO))) as I0. set (g0 := with_hash _ _) in *.
  destruct (proj1 (sat_exists _ _) (leafs_ok T alloc_size G _ node_ids leaf_ids PO g0 I0)) as (g1 & E1 & al1 & m1 & I1 & Hal1).
  pose proof (leafs_counted T alloc_size G _ g1 al1 m1 I1 Hal1) as H1. destruct (proj1 (sat_exists _ _) (counts_ok T alloc_size G _ node_ids leaf_ids PO g1 H1)) as (g2 & E2 & H2).
  destruct (counted_ready T alloc_size G _ g2 H2) as (al & m & I & Hal). exists g1, g2, al, m. split; [done|]. split; [done|]. split; [|done].
  unfold have, ahead. rewrite take_0, drop_0, app_nil_r. split; [done|]. intros t. rewrite Hal. split; [intros [? ?]; split_and!; try done; [apply wanted_all|apply not_elem_of_nil]|tauto].
Qed.

(** C36: While a graph in which fewer than 254 tensors need memory at a time is planned, memory is held by exactly the tensors that are needed: before each node these are the leafs, inputs and results computed so far that are outputs, or will still be read themselves or through a view, or have a view that is never read, or are never read at all, neither themselves nor through a view. In particular everything else has been released when the plan is complete. *)
Theorem graph_holds_live g bound node_ids leaf_ids i : gallocr_ok g -> problem_ok T alloc_size G (setting_of g bound) node_ids leaf_ids -> (i <= length (g_nodes G))%nat ->
  exists gi, (g1 ← mfor (leaf_step T alloc_size G leaf_ids) (seq 0 (length (g_leafs G))) (with_hash ∅ (with_tallocs (ggml_dyn_tallocr_reset <$> ga_tallocs g) g));
              g2 ← mfor (count_step T alloc_size G node_ids) (seq 0 (length (g_nodes G))) g1;
              mfor (node_step T alloc_size G node_ids) (seq 0 i) g2) = Ok gi /\
    forall t, ggml_gallocr_is_own gi t = true <-> t ∈ live_at T G i.
Proof.
  intros Hg PO Hi. destruct (plan_begins g bound node_ids leaf_ids Hg PO) as (g1 & g2 & al & m & E1 & E2 & Hsy & _). rewrite E1. cbn [mbind res_bind]. rewrite E2. cbn [mbind res_bind].
  destruct (nodes_sync bound g node_ids leaf_ids g2 al m i PO Hsy Hi) as (gi & al' & m' & E & I & Hal). exists gi. split; [done|]. intros t.
  change (ggml_gallocr_is_own gi t = true) with (own gi t). rewrite <- (gi_own _ _ _ _ _ (pi_inv _ _ _ _ _ _ _ _ _ _ I)), Hal. unfold live_at. rewrite list_elem_of_filter. split.
  - intros (H1 & H2 & H3 & _). split_and!; [done|by apply elem_of_app in H1|done|by apply (have_tensors T G i)].
  - intros ((H1 & H2 & H3) & _). split_and!; [by apply elem_of_app|done|done|apply not_elem_of_nil].
Qed.

(** C35: For a graph as [ggml_build_forward_expand] makes it, in which fewer than 254 tensors hold
    memory at a time and whose operations have no argument that the allocator would give them but
    that they may not overwrite ([go_over]), the graph allocator finds a place for each tensor it is
    responsible for, aligned and inside the buffers it will ask for, although tensors share memory.
    When the nodes are executed in order in these places, each finds the values of its sources
    unharmed, and its result overwrites none of them before it has been read: it lies apart from
    them, or in the place of an argument with the same layout that its operation can be computed
    over and that it reads only once. At the end the outputs that own memory are intact, and so are
    the tensors behind the outputs that are views, where no node reads the view. *)
Theorem graph_plan_safe g bound node_ids leaf_ids : gallocr_ok g -> problem_ok T alloc_size G (setting_of g bound) node_ids leaf_ids ->
  exists g', plan_graph T alloc_size g G node_ids leaf_ids = Ok g' /\ computes T alloc_size G g' (g_nodes G) (initial T alloc_size G g') /\
    forall t, t ∈ tensors_of G -> mine T t = true -> inside alloc_size g' t.
Proof.
  intros Hg PO. destruct (plan_begins g bound node_ids leaf_ids Hg PO) as (g1 & g2 & al & m & E1 & E2 & Hsy & Hal). pose proof (proj1 Hsy) as I.
  unfold plan_graph, ggml_gallocr_alloc_graph_impl. rewrite E1. cbn [mbind res_bind]. rewrite E2. cbn [mbind res_bind].
  destruct (nodes_ok T alloc_size G _ node_ids leaf_ids PO (length (g_nodes G)) 0 g2 al m eq_refl Hsy) as (gf & Ef & HB & HG & Hp & Hins & Hcomp). exists gf. split; [exact Ef|].
  pose proof (pi_inv _ _ _ _ _ _ _ _ _ _ I) as J. assert (Hpl : forall t, t ∈ starters T G -> same_place g2 gf t) by (intros t Ht; apply Hp; unfold have; set_solver). split.
  - rewrite drop_0 in Hcomp. apply Hcomp. unfold initial. set (l := filter _ (starters T G)).
    assert (Hl : forall t, t ∈ l -> t ∈ al) by (intros t [Hm Ht]%list_elem_of_filter; by apply Hal).
    assert (Hw : forall l', (forall t, t ∈ l' -> t ∈ starters T G) -> forall k c x, foldr (write alloc_size gf) (fun _ _ _ => None) l' k c x = foldr (write alloc_size g2) (fun _ _ _ => None) l' k c x).
    { induction l' as [|u l' IH]; intros Hu k c x; [done|]. cbn [foldr]. unfold write at 1 3. rewrite IH by set_solver.
      assert (Hiff : in_place alloc_size gf u k c x <-> in_place alloc_size g2 u k c x) by (apply in_place_stays; [done|apply Hpl; set_solver]). repeat case_decide; tauto. }
    intros t Ht k c x Hx. rewrite Hw by (intros u [_ Hu]%list_elem_of_filter; done). apply (initial_intact _ g2 al m l J Hl t); [|done]. apply list_elem_of_filter. by apply Hal in Ht as [? ?].
  - apply Hins. intros t Ht Hm. apply (own_inside alloc_size _ _ _ _ _ J). apply Hal. split; [|done]. unfold have in Ht. rewrite take_0, app_nil_r in Ht. done.
Qed.
End plan.

(** * Graphs to try the graph allocator on

    A checker for the conditions on graphs, a small graph with every feature, and a graph whose
    output is lost. *)

(** ** Checking a graph *)

Section check.
Context (T : nat -> ggml_tensor) (G : ggml_cgraph).

Definition earlier (i s : nat) : Prop := s ∈ g_leafs G \/ s ∈ take i (g_nodes G).

Definition node_ok (p : nat * nat) : Prop :=
  Forall (earlier p.1) (srcs_of T p.2) /\
  match t_view_src (T p.2) with Some r => mine T r = true -> earlier p.1 r | None => True end.

(** One argument of an operation: it is tolerated, or would not be taken. *)
Definition over_ok_at (n : nat) (p : nat * option nat) : Prop :=
  match p.2 with
  | Some s => mine T s = false \/ is_output (T s) = true \/ ggml_are_same_layout (T n) (T s) = false \/ tolerates (t_op (T n)) p.1 = true \/
              (tolerates (t_op (T n)) 0 = false /\ tolerates (t_op (T n)) 1 = false)
  | None => True
  end.
Definition over_ok (n : nat) : Prop := Forall (over_ok_at n) (imap pair (t_src (T n))).

Definition graph_checks : Prop :=
  NoDup (tensors_of G) /\ Forall node_ok (imap pair (g_nodes G)) /\
  Forall (fun t => match t_view_src (T t) with Some r => t_view_src (T r) = None | None => True end) (tensors_of G) /\
  Forall (fun s => match t_view_src (T s) with Some r => mine T r = true -> s ∈ g_nodes G /\ t_op (T s) <> GGML_OP_NONE | None => True end) (uses T (g_nodes G)) /\
  Forall (fun t => ggml_op_can_inplace (t_op (T t)) = false) (starters T G) /\
  Forall over_ok (g_nodes G).

#[export] Instance over_ok_at_dec n p : Decision (over_ok_at n p).
Proof. unfold over_ok_at. destruct p.2; apply _. Defined.

#[export] Instance node_ok_dec p : Decision (node_ok p).
Proof. unfold node_ok, earlier. destruct (t_view_src (T p.2)); apply _. Defined.

#[export] Instance view_dec t : Decision (match t_view_src (T t) with Some r => t_view_src (T r) = None | None => True end).
Proof. destruct (t_view_src (T t)); apply _. Defined.

#[export] Instance read_dec s : Decision (match t_view_src (T s) with Some r => mine T r = true -> s ∈ g_nodes G /\ t_op (T s) <> GGML_OP_NONE | None => True end).
Proof. destruct (t_view_src (T s)); apply _. Defined.

#[export] Instance graph_checks_dec : Decision graph_checks.
Proof. unfold graph_checks. apply _. Defined.

Lemma node_ok_at i n : Forall node_ok (imap pair (g_nodes G)) -> g_nodes G !! i = Some n -> node_ok (i, n).
Proof. intros H Hn. apply (Forall_lookup_1 _ _ i _ H). rewrite list_lookup_imap, Hn. done. Qed.

Lemma tolerates_first op j : tolerates op 0 = false -> tolerates op 1 = false -> tolerates op j = false.
Proof. destruct op, j as [|[|j]]; cbn; congruence || done. Qed.

Lemma graph_checks_ok : graph_checks -> graph_ok T G.
Proof.
  intros (H1 & H2 & H3 & H4 & H5 & H6). rewrite Forall_forall in H3, H4, H5, H6. split; try done.
  - intros i n s Hn Hs. destruct (node_ok_at i n H2 Hn) as [H _]. cbn in H. rewrite Forall_forall in H. by apply H.
  - intros t r Ht Hr. specialize (H3 t Ht). by rewrite Hr in H3.
  - intros i n r Hn Hr Hm. destruct (node_ok_at i n H2 Hn) as [_ H]. cbn in H. rewrite Hr in H. by apply H.
  - intros s r Hs Hr Hm. specialize (H4 s Hs). rewrite Hr in H4. by apply H4.
  - intros n j j' s Hn Hj' Hj Hm Ho Hl. assert (H : over_ok_at n (j, Some s)) by (apply (Forall_lookup_1 _ _ j _ (H6 n Hn)); by rewrite list_lookup_imap, Hj).
    destruct H as [H|[H|[H|[H|[Ha Hb]]]]]; cbn in *; try congruence. by rewrite (tolerates_first _ j' Ha Hb) in Hj'.
Qed.

Lemma live_few n : (length (tensors_of G) <= n)%nat -> forall i, (length (live_at T G i) <= n)%nat.
Proof. intros H i. unfold live_at. pose proof (length_filter (fun t => mine T t = true /\ started T G i t /\ wanted T G (uses T (drop i (g_nodes G))) t) (tensors_of G)). lia. Qed.
End check.

(** ** Two graphs *)

Definition tensor (op : ggml_op) (flags n : Z) (srcs : list nat) (view : option nat) (data : Z) : ggml_tensor :=
  mk_tensor 0 false [n; 1; 1; 1] [4; 4 * n; 4 * n; 4 * n] op flags (Some <$> srcs) view data.

(** The bytes of a tensor: its number of elements times four. *)
Definition bytes_of (T : nat -> ggml_tensor) (_ : Z) (t : nat) : Z := 4 * hd 0 (t_ne (T t)).

Definition tensors1 : list ggml_tensor :=
  [ tensor GGML_OP_NONE 1 8 [] None 0;             (* 0: the input *)
    tensor GGML_OP_NONE 0 64 [] None 4096;         (* 1: weights, stored elsewhere *)
    tensor GGML_OP_MUL_MAT 0 8 [1; 0]%nat None 0;  (* 2 *)
    tensor GGML_OP_ADD 0 8 [2; 0]%nat None 0;      (* 3: takes the place of 2 *)
    tensor GGML_OP_VIEW 0 4 [3]%nat (Some 3%nat) 0; (* 4 *)
    tensor GGML_OP_MUL_MAT 0 16 [1; 4]%nat None 0; (* 5 *)
    tensor GGML_OP_SCALE 2 16 [5]%nat None 0       (* 6: the output, takes the place of 5 *)
  ].
Definition T1 (t : nat) : ggml_tensor := nth t tensors1 (tensor GGML_OP_NONE 0 0 [] None 0).
Definition G1 : ggml_cgraph := mk_graph [2; 3; 4; 5; 6]%nat [0; 1]%nat.

Definition galloc1 : ggml_gallocr := mk_galloc [7] [0%nat] [ggml_dyn_tallocr_new 32 1048576] ∅.

Lemma galloc1_ok : gallocr_ok galloc1.
Proof.
  split.
  - intros b Hb. cbn in Hb. assert (b = 0) as -> by lia. by eexists _, _.
  - intros k a Ha. cbn in Ha. apply list_lookup_singleton_Some in Ha as [_ <-]. split; [by exists 5|]. vm_compute. split; discriminate.
Qed.

Lemma problem1_ok : problem_ok T1 (bytes_of T1) G1 (setting_of galloc1 1024) None None.
Proof.
  split.
  - apply graph_checks_ok. apply (bool_decide_eq_true_1 _). vm_compute. reflexivity.
  - split; [|intros t p bt _ _ Hl _|vm_compute; discriminate|vm_compute; discriminate].
    + intros t b bt k a Ht _ _ _ Ha. cbn in Ha. apply list_lookup_singleton_Some in Ha as [_ <-].
      assert (H : Forall (fun t => 0 < bytes_of T1 bt t /\ padded 32 (bytes_of T1 bt t) <= 1024) (tensors_of G1)) by (repeat constructor; vm_compute; (done || discriminate)).
      rewrite Forall_forall in H. by apply H.
    + unfold ggml_are_same_layout in Hl. apply andb_true_iff in Hl as [Hl _]. apply andb_true_iff in Hl as [_ Hl]. apply bool_decide_eq_true_1 in Hl. unfold bytes_of. rewrite Hl. lia.
  - intros i n _. exists 0. split; [done|]. vm_compute. split; [discriminate|done].
  - intros i n _. exists 0. split; [done|]. vm_compute. split; [discriminate|done].
  - intros i _. pose proof (live_few T1 G1 7 ltac:(vm_compute; lia) i). lia.
Qed.

Lemma graph_plan_safe_witness :
  exists g', plan_graph T1 (bytes_of T1) galloc1 G1 None None = Ok g' /\ computes T1 (bytes_of T1) G1 g' (g_nodes G1) (initial T1 (bytes_of T1) G1 g') /\
    forall t, t ∈ tensors_of G1 -> mine T1 t = true -> inside (bytes_of T1) g' t.
Proof. apply (graph_plan_safe T1 (bytes_of T1) G1 galloc1 1024 None None galloc1_ok problem1_ok). Defined.

Lemma graph_holds_live_witness :
  exists gi, (g1 ← mfor (leaf_step T1 (bytes_of T1) G1 None) (seq 0 (length (g_leafs G1))) (with_hash ∅ (with_tallocs (ggml_dyn_tallocr_reset <$> ga_tallocs galloc1) galloc1));
              g2 ← mfor (count_step T1 (bytes_of T1) G1 None) (seq 0 (length (g_nodes G1))) g1;
              mfor (node_step T1 (bytes_of T1) G1 None) (seq 0 3) g2) = Ok gi /\
    forall t, ggml_gallocr_is_own gi t = true <-> t ∈ live_at T1 G1 3.
Proof. apply (graph_holds_live T1 (bytes_of T1) G1 galloc1 1024 None None 3 galloc1_ok problem1_ok). vm_compute. lia. Defined.

(** The places of the plan, and the memory held before each node and at the end. *)
Example plan1 : (g ← plan_graph T1 (bytes_of T1) galloc1 G1 None None; Ok (rg_offset ∘ region_in (bytes_of T1) g <$> [0; 2; 3; 5; 6]%nat)) = Ok [0; 32; 32; 64; 64] /\
  live_at T1 G1 <$> seq 0 6 = [[0]; [0; 2]; [3]; [3]; [5]; [6]]%nat.
Proof. split; vm_compute; reflexivity. Qed.

(** *** An output that is a view *)

Definition tensors2 : list ggml_tensor :=
  [ tensor GGML_OP_NONE 1 8 [] None 0;             (* 0: the input *)
    tensor GGML_OP_MUL_MAT 0 8 [0; 0]%nat None 0;  (* 1 *)
    tensor GGML_OP_VIEW 2 8 [1]%nat (Some 1%nat) 0; (* 2: an output, a view of 1 *)
    tensor GGML_OP_CONT 0 8 [2]%nat None 0;        (* 3: reads the output *)
    tensor GGML_OP_MUL_MAT 2 8 [3; 3]%nat None 0   (* 4: another output *)
  ].
Definition T2 (t : nat) : ggml_tensor := nth t tensors2 (tensor GGML_OP_NONE 0 0 [] None 0).
Definition G2 : ggml_cgraph := mk_graph [1; 2; 3; 4]%nat [0%nat].

(** Graph outputs are meant never to be freed, but an output that is a view is lost as soon as another node has read it: the memory of the tensor it views is released, and a later node is placed on exactly the same bytes. *)
Lemma output_view_overwritten : graph_ok T2 G2 /\ is_output (T2 2) = true /\ root T2 2 = 1%nat /\
  exists g, plan_graph T2 (bytes_of T2) galloc1 G2 None None = Ok g /\ region_in (bytes_of T2) g 4 = region_in (bytes_of T2) g 1 /\ home g 4 = home g 1.
Proof.
  split; [apply graph_checks_ok, (bool_decide_eq_true_1 _); vm_compute; reflexivity|]. split; [done|]. split; [done|].
  assert (H : match plan_graph T2 (bytes_of T2) galloc1 G2 None None with
    | Ok g => region_in (bytes_of T2) g 4 = region_in (bytes_of T2) g 1 /\ home g 4 = home g 1 | Err _ => False end) by (vm_compute; split; reflexivity).
  destruct (plan_graph T2 (bytes_of T2) galloc1 G2 None None) as [g|]; [by exists g|done].
Qed.
