(* ===== verification/GgmlTypes.v ===== *)
(** * Tensor types and shapes of ggml

    The block and byte sizes of the tensor types ([type_traits]) and the functions of
    src/ggml/src/ggml.c that compute with the shape of a tensor.  [int64_t] arithmetic is
    checked ([i64]), [size_t] arithmetic wraps ([usize]). *)

From S2P Require Import Prelude.

Definition INT64_MAX : Z := 9223372036854775807.
Definition i64 (z : Z) : res Z := if (- INT64_MAX - 1 <=? z) && (z <=? INT64_MAX) then Ok z else Err SignedOverflow.

Definition GGML_MAX_NAME : Z := 64.
Definition GGML_MAX_DIMS : Z := 4.
Definition GGML_TYPE_COUNT : Z := 44.
Definition GGML_TYPE_I8 : Z := 24.

(** [blck_size] and [type_size]. *)
Definition type_traits : list (Z * Z) := [
  (1, 4); (1, 2);                                    (* F32 F16 *)
  (32, 18); (32, 20); (0, 0); (0, 0);                (* Q4_0 Q4_1, two removed types *)
  (32, 22); (32, 24); (32, 34); (32, 36);            (* Q5_0 Q5_1 Q8_0 Q8_1 *)
  (256, 84); (256, 110); (256, 144); (256, 176); (256, 210); (256, 292);  (* Q2_K to Q8_K *)
  (256, 66); (256, 74); (256, 98); (256, 50);        (* IQ2_XXS IQ2_XS IQ3_XXS IQ1_S *)
  (32, 18); (256, 110); (256, 82); (256, 136);       (* IQ4_NL IQ3_S IQ2_S IQ4_XS *)
  (1, 1); (1, 2); (1, 4); (1, 8); (1, 8);            (* I8 I16 I32 I64 F64 *)
  (256, 56); (1, 2);                                 (* IQ1_M BF16 *)
  (0, 0); (0, 0); (0, 0);                            (* three removed types *)
  (256, 54); (256, 66);                              (* TQ1_0 TQ2_0 *)
  (0, 0); (0, 0); (0, 0);                            (* three removed types *)
  (32, 17); (64, 36);                                (* MXFP4 NVFP4 *)
  (128, 50); (128, 68); (128, 34) ].                 (* TURBO3_0 TURBO4_0 TURBO2_0 *)

Definition ggml_blck_size (type : Z) : res Z := tr ← vec_getZ type_traits type; Ok tr.1.
Definition ggml_type_size (type : Z) : res Z := tr ← vec_getZ type_traits type; Ok tr.2.

(** Division of non-negative integers. *)
Definition cdiv (x y : Z) : res Z := if y =? 0 then Err DivByZero else Ok (x / y).
Definition cmod (x y : Z) : res Z := if y =? 0 then Err DivByZero else Ok (x mod y).

(** The four entries of [ne] or [nb]. *)
Record dims := mk_dims { d0 : Z; d1 : Z; d2 : Z; d3 : Z }.
Definition dims_list (d : dims) : list Z := [d0 d; d1 d; d2 d; d3 d].

#[export] Instance dims_eq_dec : EqDecision dims.
Proof. solve_decision. Defined.

(** The fields of [ggml_tensor] that describe its type, its shape and its content: what its
    [data] points to, in memory or in a buffer of a backend. *)
Record gg_tensor := mk_gg {
  gg_type : Z;
  gg_ne : dims;
  gg_nb : dims;
  gg_name : list Z;
  gg_data : option (list Z)
}.

Definition ggml_nelements (t : gg_tensor) : res Z :=
  let ne := gg_ne t in
  x ← i64 (d0 ne * d1 ne); x ← i64 (x * d2 ne); i64 (x * d3 ne).

(** [nbytes += (ne\[i\] - 1)*nb\[i\]] *)
Definition add_rows (nbytes : Z) (p : Z * Z) : Z := usize (nbytes + usize ((p.1 - 1) * p.2)).

Definition ggml_nbytes (t : gg_tensor) : res Z :=
  let ne := dims_list (gg_ne t) in
  let nb := dims_list (gg_nb t) in
  if existsb (fun n => n <=? 0) ne then Ok 0 else
  blck_size ← ggml_blck_size (gg_type t);
  if blck_size =? 1 then
    size ← ggml_type_size (gg_type t); Ok (foldl add_rows size (zip ne nb))
  else
    row ← cdiv (usize (d0 (gg_ne t) * d0 (gg_nb t))) blck_size; Ok (foldl add_rows row (tail (zip ne nb))).

Definition ggml_n_dims (t : gg_tensor) : Z :=
  let ne := gg_ne t in
  if 1 <? d3 ne then 4 else if 1 <? d2 ne then 3 else if 1 <? d1 ne then 2 else 1.

(** One dimension of the contiguity test: the stride it must have, unless its size is 1. *)
Definition contiguous_step (st : option Z) (p : Z * Z) : option Z :=
  next_nb ← st; if negb (p.1 =? 1) && negb (p.2 =? next_nb) then None else Some (usize (next_nb * p.1)).

Definition ggml_is_contiguous (t : gg_tensor) : res bool :=
  let ne := gg_ne t in
  let nb := gg_nb t in
  size ← ggml_type_size (gg_type t);
  blck_size ← ggml_blck_size (gg_type t);
  if negb (d0 ne =? blck_size) && negb (d0 nb =? size) then Ok false else
  n ← cdiv (d0 ne) blck_size;
  match foldl contiguous_step (Some (usize (size * n))) [(d1 ne, d1 nb); (d2 ne, d2 nb); (d3 ne, d3 nb)] with
  | Some _ => Ok true
  | None => Ok false
  end.

(** The strides of a tensor without gaps. *)
Definition dense_strides (type_size blck_size : Z) (ne : dims) : res dims :=
  n ← cdiv (d0 ne) blck_size;
  let nb1 := usize (type_size * n) in
  let nb2 := usize (nb1 * d1 ne) in
  Ok (mk_dims type_size nb1 nb2 (usize (nb2 * d2 ne))).

(** A C string ends at the first zero. *)
Fixpoint c_str (s : list Z) : list Z :=
  match s with
  | [] => []
  | c :: s => if c =? 0 then [] else c :: c_str s
  end.

Definition ggml_set_name (t : gg_tensor) (name : list Z) : gg_tensor :=
  mk_gg (gg_type t) (gg_ne t) (gg_nb t) (take (Z.to_nat (GGML_MAX_NAME - 1)) (c_str name)) (gg_data t).

(** ** A memory pool of tensors ([ggml_context]) *)

Definition GGML_MEM_ALIGN : Z := 16.
Definition GGML_OBJECT_SIZE : Z := 32.
Definition GGML_TENSOR_SIZE : Z := 336.
Definition ggml_tensor_overhead : Z := GGML_OBJECT_SIZE + GGML_TENSOR_SIZE.

(** The size of the pool and the end of its last object. *)
Record ggml_context := mk_pool { gc_mem_size : Z; gc_cur_end : Z; gc_no_alloc : bool }.

Section pool.
(** Whether [posix_memalign] finds that many bytes. *)
Context (memalign_ok : Z -> bool).

Definition ggml_aligned_malloc (size : Z) : bool := if size =? 0 then false else memalign_ok size.

Definition ggml_init (mem_size : Z) (no_alloc : bool) : res ggml_context :=
  let mem_size := if mem_size =? 0 then GGML_MEM_ALIGN else mem_size in
  let mem_size := usize (GGML_PAD mem_size GGML_MEM_ALIGN) in
  _ ← assert_ (ggml_aligned_malloc mem_size);
  Ok (mk_pool mem_size 0 no_alloc).
End pool.

(** The release build: without room there is no object. *)
Definition ggml_new_object (c : ggml_context) (size : Z) : res (option ggml_context) :=
  let cur_end := gc_cur_end c in
  _ ← assert_ (size <=? SIZE_MAX - (GGML_MEM_ALIGN - 1));
  let size_needed := GGML_PAD size GGML_MEM_ALIGN in
  if SIZE_MAX - size_needed <? cur_end then Ok None
  else if SIZE_MAX - GGML_OBJECT_SIZE <? cur_end + size_needed then Ok None
  else if gc_mem_size c <? cur_end + size_needed + GGML_OBJECT_SIZE then Ok None
  else Ok (Some (mk_pool (gc_mem_size c) (cur_end + GGML_OBJECT_SIZE + size_needed) (gc_no_alloc c))).

Definition ggml_row_size (type ne : Z) : res Z :=
  size ← ggml_type_size type; blck_size ← ggml_blck_size type; cdiv (usize (size * ne)) blck_size.

(** [ggml_new_tensor_impl] with four dimensions and without a view; the tensor has no data of
    its own when the pool has the flag. *)
Definition ggml_new_tensor (c : ggml_context) (type : Z) (ne : dims) : res (ggml_context * gg_tensor) :=
  _ ← assert_ ((0 <=? type) && (type <? GGML_TYPE_COUNT));
  row ← ggml_row_size type (d0 ne);
  let data_size := foldl (fun s n => usize (s * n)) row [d1 ne; d2 ne; d3 ne] in
  let obj_alloc_size := if gc_no_alloc c then 0 else data_size in
  _ ← assert_ (GGML_TENSOR_SIZE <=? SIZE_MAX - obj_alloc_size);
  o ← ggml_new_object c (GGML_TENSOR_SIZE + obj_alloc_size);
  c ← of_option AssertFailed o;
  size ← ggml_type_size type;
  blck_size ← ggml_blck_size type;
  nb ← dense_strides size blck_size ne;
  Ok (c, mk_gg type ne nb [] None).
