(* ===== verification/Gguf.v ===== *)
(** * Model files: src/ggml/src/gguf.cpp

    The key-value pairs and tensor descriptions of a GGUF file ([gguf_context]), the reader
    ([gguf_init_from_file_ptr]), the functions that build and change a context, and the writers
    ([gguf_write_to_buf], [gguf_write_to_file_ptr]).  Values are kept as their bytes in memory,
    on a little-endian machine.  A function that returns [nullptr] gives [None]; [Err] is a
    failed assertion or an abort. *)

From S2P Require Import Prelude IoBytes GgmlTypes.

Definition GGUF_MAGIC : list Z := [71; 71; 85; 70].
Definition GGUF_VERSION : Z := 3.
Definition GGUF_DEFAULT_ALIGNMENT : Z := 32.
Definition GGUF_MAX_STRING_LENGTH : Z := 1073741824.
Definition GGUF_MAX_ARRAY_ELEMENTS : Z := 1073741824.

(** "general.alignment" *)
Definition GGUF_KEY_GENERAL_ALIGNMENT : list Z :=
  [103; 101; 110; 101; 114; 97; 108; 46; 97; 108; 105; 103; 110; 109; 101; 110; 116].

(** [enum gguf_type] *)
Definition GGUF_TYPE_UINT8 : Z := 0.
Definition GGUF_TYPE_INT8 : Z := 1.
Definition GGUF_TYPE_UINT16 : Z := 2.
Definition GGUF_TYPE_INT16 : Z := 3.
Definition GGUF_TYPE_UINT32 : Z := 4.
Definition GGUF_TYPE_INT32 : Z := 5.
Definition GGUF_TYPE_FLOAT32 : Z := 6.
Definition GGUF_TYPE_BOOL : Z := 7.
Definition GGUF_TYPE_STRING : Z := 8.
Definition GGUF_TYPE_ARRAY : Z := 9.
Definition GGUF_TYPE_UINT64 : Z := 10.
Definition GGUF_TYPE_INT64 : Z := 11.
Definition GGUF_TYPE_FLOAT64 : Z := 12.

Definition GGUF_TYPE_SIZE : list Z := [1; 1; 2; 2; 4; 4; 4; 1; 0; 0; 8; 8; 8].
Definition gguf_type_size (type : Z) : Z :=
  if 0 <=? type then default 0 (GGUF_TYPE_SIZE !! Z.to_nat type) else 0.

(** The types of fixed size: the cases of the switches. *)
Definition is_number_type (type : Z) : bool :=
  (0 <=? type) && (type <=? GGUF_TYPE_FLOAT64) && negb (type =? GGUF_TYPE_STRING) && negb (type =? GGUF_TYPE_ARRAY).

(** ** The state *)

Record gguf_kv := mk_kv {
  kv_key : list Z;
  kv_is_array : bool;
  kv_type : Z;
  kv_data : list Z;
  kv_data_string : list (list Z)
}.

Record gguf_tensor_info := mk_info { ti_t : gg_tensor; ti_offset : Z }.

Record gguf_context := mk_gguf {
  gf_version : Z;
  gf_kv : list gguf_kv;
  gf_info : list gguf_tensor_info;
  gf_alignment : Z;
  gf_offset : Z;
  gf_size : Z;
  gf_data : option (list Z)
}.

Definition with_kvs (kvs : list gguf_kv) (c : gguf_context) : gguf_context :=
  mk_gguf (gf_version c) kvs (gf_info c) (gf_alignment c) (gf_offset c) (gf_size c) (gf_data c).
Definition with_infos (infos : list gguf_tensor_info) (c : gguf_context) : gguf_context :=
  mk_gguf (gf_version c) (gf_kv c) infos (gf_alignment c) (gf_offset c) (gf_size c) (gf_data c).

Definition gguf_init_empty : gguf_context := mk_gguf GGUF_VERSION [] [] GGUF_DEFAULT_ALIGNMENT 0 0 None.

(** Sizes of the two structs on a 64-bit machine. *)
Definition SIZEOF_TENSOR_INFO : Z := 344.
Definition SIZEOF_KV : Z := 88.

(** *** [gguf_kv] *)

(** The constructors. *)
Definition new_kv (key : list Z) (is_array : bool) (type : Z) (data : list Z) (strings : list (list Z)) : res gguf_kv :=
  _ ← assert_ (negb (bool_decide (key = []))); Ok (mk_kv key is_array type data strings).

Definition get_ne (kv : gguf_kv) : res Z :=
  ne ← (if kv_type kv =? GGUF_TYPE_STRING then Ok (Z.of_nat (length (kv_data_string kv))) else
        let size := Z.of_nat (length (kv_data kv)) in
        r ← cmod size (gguf_type_size (kv_type kv));
        _ ← assert_ (r =? 0);
        Ok (size / gguf_type_size (kv_type kv)));
  _ ← assert_ (kv_is_array kv || (ne =? 1));
  Ok ne.

(** The bytes of element [i], for a type of fixed size. *)
Definition get_val (type : Z) (kv : gguf_kv) (i : nat) : res (list Z) :=
  _ ← assert_ (type =? kv_type kv);
  let size := gguf_type_size (kv_type kv) in
  r ← cmod (Z.of_nat (length (kv_data kv))) size;
  _ ← assert_ (r =? 0);
  _ ← assert_ ((Z.of_nat i + 1) * size <=? Z.of_nat (length (kv_data kv)));
  Ok (take (Z.to_nat size) (drop (i * Z.to_nat size) (kv_data kv))).

Definition get_val_string (kv : gguf_kv) (i : nat) : res (list Z) :=
  _ ← assert_ (kv_type kv =? GGUF_TYPE_STRING);
  _ ← assert_ (i + 1 <=? length (kv_data_string kv))%nat;
  vec_get (kv_data_string kv) i.

Definition cast (kv : gguf_kv) (new_type : Z) : res gguf_kv :=
  r ← cmod (Z.of_nat (length (kv_data kv))) (gguf_type_size new_type);
  _ ← assert_ (r =? 0);
  Ok (mk_kv (kv_key kv) (kv_is_array kv) new_type (kv_data kv) (kv_data_string kv)).

(** *** Accessors *)

Definition gguf_get_n_kv (c : gguf_context) : Z := Z.of_nat (length (gf_kv c)).
Definition gguf_get_n_tensors (c : gguf_context) : Z := Z.of_nat (length (gf_info c)).

Definition kv_at (c : gguf_context) (key_id : Z) : res gguf_kv :=
  _ ← assert_ ((0 <=? key_id) && (key_id <? gguf_get_n_kv c)); vec_getZ (gf_kv c) key_id.
Definition info_at (c : gguf_context) (tensor_id : Z) : res gguf_tensor_info :=
  _ ← assert_ ((0 <=? tensor_id) && (tensor_id <? gguf_get_n_tensors c)); vec_getZ (gf_info c) tensor_id.

Definition gguf_get_key (c : gguf_context) (key_id : Z) : res (list Z) := kv ← kv_at c key_id; Ok (c_str (kv_key kv)).

(** The first index of a list where the test holds. *)
Fixpoint index_of {A} (f : A -> bool) (l : list A) (i : Z) : Z :=
  match l with
  | [] => -1
  | x :: l => if f x then i else index_of f l (i + 1)
  end.

Definition gguf_find_key (c : gguf_context) (key : list Z) : Z :=
  index_of (fun kv => bool_decide (key = c_str (kv_key kv))) (gf_kv c) 0.

Definition gguf_get_kv_type (c : gguf_context) (key_id : Z) : res Z :=
  kv ← kv_at c key_id; Ok (if kv_is_array kv then GGUF_TYPE_ARRAY else kv_type kv).
Definition gguf_get_arr_type (c : gguf_context) (key_id : Z) : res Z :=
  kv ← kv_at c key_id; _ ← assert_ (kv_is_array kv); Ok (kv_type kv).
Definition gguf_get_arr_data (c : gguf_context) (key_id : Z) : res (list Z) :=
  kv ← kv_at c key_id; _ ← assert_ (negb (kv_type kv =? GGUF_TYPE_STRING)); Ok (kv_data kv).
Definition gguf_get_arr_str (c : gguf_context) (key_id : Z) (i : nat) : res (list Z) :=
  kv ← kv_at c key_id; _ ← assert_ (kv_type kv =? GGUF_TYPE_STRING); s ← vec_get (kv_data_string kv) i; Ok (c_str s).

Definition gguf_get_arr_n (c : gguf_context) (key_id : Z) : res Z :=
  kv ← kv_at c key_id;
  if kv_type kv =? GGUF_TYPE_STRING then Ok (Z.of_nat (length (kv_data_string kv))) else
  let size := Z.of_nat (length (kv_data kv)) in
  r ← cmod size (gguf_type_size (kv_type kv));
  _ ← assert_ (r =? 0);
  Ok (size / gguf_type_size (kv_type kv)).

(** [gguf_get_val_u8] to [gguf_get_val_bool]: the bytes of the value. *)
Definition gguf_get_val (type : Z) (c : gguf_context) (key_id : Z) : res (list Z) :=
  kv ← kv_at c key_id; ne ← get_ne kv; _ ← assert_ (ne =? 1); get_val type kv 0.
Definition gguf_get_val_u32 (c : gguf_context) (key_id : Z) : res Z :=
  bs ← gguf_get_val GGUF_TYPE_UINT32 c key_id; Ok (unle bs).
Definition gguf_get_val_str (c : gguf_context) (key_id : Z) : res (list Z) :=
  kv ← kv_at c key_id; ne ← get_ne kv; _ ← assert_ (ne =? 1); s ← get_val_string kv 0; Ok (c_str s).
Definition gguf_get_val_data (c : gguf_context) (key_id : Z) : res (list Z) :=
  kv ← kv_at c key_id; ne ← get_ne kv; _ ← assert_ (ne =? 1);
  _ ← assert_ (negb (kv_type kv =? GGUF_TYPE_STRING)); Ok (kv_data kv).

Definition gguf_find_tensor (c : gguf_context) (name : list Z) : Z :=
  index_of (fun ti => bool_decide (name = gg_name (ti_t ti))) (gf_info c) 0.
Definition gguf_get_tensor_offset (c : gguf_context) (id : Z) : res Z := ti ← info_at c id; Ok (ti_offset ti).
Definition gguf_get_tensor_name (c : gguf_context) (id : Z) : res (list Z) := ti ← info_at c id; Ok (gg_name (ti_t ti)).
Definition gguf_get_tensor_type (c : gguf_context) (id : Z) : res Z := ti ← info_at c id; Ok (gg_type (ti_t ti)).
Definition gguf_get_tensor_size (c : gguf_context) (id : Z) : res Z := ti ← info_at c id; ggml_nbytes (ti_t ti).

(** ** Changing a context *)

Definition gguf_remove_key (c : gguf_context) (key : list Z) : gguf_context * Z :=
  let key_id := gguf_find_key c key in
  (if 0 <=? key_id then with_kvs (delete (Z.to_nat key_id) (gf_kv c)) c else c, key_id).

(** [val] is [None] where the type of the value is not [uint32_t]. *)
Definition gguf_check_reserved_keys (key : list Z) (val : option Z) : res unit :=
  if bool_decide (key = GGUF_KEY_GENERAL_ALIGNMENT) then
    match val with
    | Some v => assert_ ((0 <? v) && (Z.land v (v - 1) =? 0))
    | None => Err AssertFailed
    end
  else Ok tt.

(** Replace a key: the pair goes to the end. *)
Definition emplace_kv (c : gguf_context) (key : list Z) (kv : res gguf_kv) : res gguf_context :=
  let '(c, _) := gguf_remove_key c key in
  kv ← kv; Ok (with_kvs (gf_kv c ++ [kv]) c).

(** [gguf_set_val_u8] to [gguf_set_val_bool], with the bytes of the value. *)
Definition gguf_set_val (type : Z) (c : gguf_context) (key val : list Z) : res gguf_context :=
  _ ← gguf_check_reserved_keys key (if type =? GGUF_TYPE_UINT32 then Some (unle val) else None);
  emplace_kv c key (new_kv key false type val []).

Definition gguf_set_val_str (c : gguf_context) (key val : list Z) : res gguf_context :=
  _ ← gguf_check_reserved_keys key None;
  emplace_kv c key (new_kv key false GGUF_TYPE_STRING [] [val]).

Definition gguf_set_arr_data (c : gguf_context) (key : list Z) (type : Z) (data : list Z) (n : Z) : res gguf_context :=
  _ ← gguf_check_reserved_keys key None;
  let nbytes := usize (n * gguf_type_size type) in
  _ ← (if nbytes <=? Z.of_nat (length data) then Ok tt else Err OutOfRange);
  emplace_kv c key (kv ← new_kv key true GGUF_TYPE_INT8 (take (Z.to_nat nbytes) data) []; cast kv type).

Definition gguf_set_arr_str (c : gguf_context) (key : list Z) (data : list (list Z)) : res gguf_context :=
  _ ← gguf_check_reserved_keys key None;
  emplace_kv c key (new_kv key true GGUF_TYPE_STRING [] data).

(** One pair of [gguf_set_kv]. *)
Definition set_kv_step (c : gguf_context) (kv : gguf_kv) : res gguf_context :=
  let key := c_str (kv_key kv) in
  if negb (kv_is_array kv) then
    if is_number_type (kv_type kv) then v ← get_val (kv_type kv) kv 0; gguf_set_val (kv_type kv) c key v
    else if kv_type kv =? GGUF_TYPE_STRING then s ← get_val_string kv 0; gguf_set_val_str c key (c_str s)
    else Err AssertFailed
  else
    ne ← get_ne kv;
    if is_number_type (kv_type kv) then gguf_set_arr_data c key (kv_type kv) (kv_data kv) ne
    else if kv_type kv =? GGUF_TYPE_STRING then gguf_set_arr_str c key (c_str <$> kv_data_string kv)
    else Err AssertFailed.

Definition gguf_set_kv (c src : gguf_context) : res gguf_context := mfor set_kv_step (gf_kv src) c.

(** The offset of the tensor behind [ti]. *)
Definition next_offset (c : gguf_context) (ti : gguf_tensor_info) : res Z :=
  nbytes ← ggml_nbytes (ti_t ti); Ok (usize (ti_offset ti + usize (GGML_PAD nbytes (gf_alignment c)))).

Definition gguf_add_tensor (c : gguf_context) (tensor : gg_tensor) : res gguf_context :=
  _ ← assert_ (gguf_find_tensor c (gg_name tensor) =? -1);
  offset ← (match last (gf_info c) with None => Ok 0 | Some ti => next_offset c ti end);
  Ok (with_infos (gf_info c ++ [mk_info tensor offset]) c).

(** [for (i = tensor_id + 1; ...)]: the offsets behind a tensor that has changed. *)
Definition update_offset (c : gguf_context) (i : nat) : res gguf_context :=
  prev ← vec_get (gf_info c) (i - 1);
  ti ← vec_get (gf_info c) i;
  offset ← next_offset c prev;
  Ok (with_infos (<[i := mk_info (ti_t ti) offset]> (gf_info c)) c).

Definition gguf_set_tensor_type (c : gguf_context) (name : list Z) (type : Z) : res gguf_context :=
  let id := gguf_find_tensor c name in
  _ ← assert_ (0 <=? id);
  ti ← vec_getZ (gf_info c) id;
  type_size ← ggml_type_size type;
  blck_size ← ggml_blck_size type;
  let t := ti_t ti in
  r ← cmod (d0 (gg_ne t)) blck_size;
  _ ← assert_ (r =? 0);
  nb ← dense_strides type_size blck_size (gg_ne t);
  let i := Z.to_nat id in
  let c := with_infos (<[i := mk_info (mk_gg type (gg_ne t) nb (gg_name t) (gg_data t)) (ti_offset ti)]> (gf_info c)) c in
  mfor update_offset (seq (i + 1) (length (gf_info c) - (i + 1))) c.

Definition gguf_set_tensor_data (c : gguf_context) (name : list Z) (data : list Z) : res gguf_context :=
  let id := gguf_find_tensor c name in
  _ ← assert_ (0 <=? id);
  ti ← vec_getZ (gf_info c) id;
  let t := ti_t ti in
  Ok (with_infos (<[Z.to_nat id := mk_info (mk_gg (gg_type t) (gg_ne t) (gg_nb t) (gg_name t) (Some data)) (ti_offset ti)]> (gf_info c)) c).
