(* ===== verification/GgufRead.v ===== *)
(** * Reading a model file: [gguf_reader] and [gguf_init_from_file_ptr]

    A file is its position, the bytes behind it and the number of bytes the reader counts down
    ([nbytes_remain]).  A read gives [Ok None] when it fails: every failed read makes
    [gguf_init_from_file_ptr] free what it has built and return [nullptr]. *)

From S2P Require Import Prelude IoBytes GgmlTypes Gguf.

Record gguf_reader := mk_reader { rd_pos : Z; rd_rest : list Z; rd_remain : Z }.

Definition open_reader (bytes : list Z) : gguf_reader := mk_reader 0 bytes (Z.of_nat (length bytes)).

Definition rdm (A : Type) : Type := gguf_reader -> res (option (A * gguf_reader)).
Definition rd_ret {A} (a : A) : rdm A := fun gr => Ok (Some (a, gr)).
Definition rd_fail {A} : rdm A := fun _ => Ok None.
Definition rd_lift {A} (m : res A) : rdm A := fun gr => a ← m; Ok (Some (a, gr)).
Definition rd_bind {A B} (m : rdm A) (k : A -> rdm B) : rdm B :=
  fun gr => r ← m gr; match r with Some (a, gr) => k a gr | None => Ok None end.

Declare Scope rd_scope.
Delimit Scope rd_scope with rd.
Notation "'read!' x := m 'in' k" := (rd_bind m (fun x => k))
  (at level 10, x pattern, m at level 100, k at level 200, only parsing) : rd_scope.
Local Open Scope rd_scope.

(** An error message, and the end of the call. *)
Definition reject_if (b : bool) : rdm unit := if b then rd_fail else rd_ret tt.

(** [read(void * dst, size)], and the reads of a value of fixed size. *)
Definition read_bytes (size : Z) : rdm (list Z) := fun gr =>
  if rd_remain gr <? size then Ok None else
  let got := take (Z.to_nat size) (rd_rest gr) in
  let n := Z.of_nat (length got) in
  if n =? size then Ok (Some (got, mk_reader (rd_pos gr + n) (drop (Z.to_nat size) (rd_rest gr)) (rd_remain gr - n)))
  else Ok None.

Definition read_u32 : rdm Z := read! bs := read_bytes 4 in rd_ret (unle bs).
Definition read_i32 : rdm Z := read! bs := read_bytes 4 in rd_ret (s32 (unle bs)).
Definition read_u64 : rdm Z := read! bs := read_bytes 8 in rd_ret (unle bs).
Definition read_i64 : rdm Z := read! bs := read_bytes 8 in rd_ret (s64 (unle bs)).

(** The bytes a value of a type of fixed size has in memory after it was read. *)
Definition read_val (type : Z) : rdm (list Z) :=
  read! bs := read_bytes (gguf_type_size type) in
  rd_ret (if type =? GGUF_TYPE_BOOL then [if unle bs =? 0 then 0 else 1] else bs).

Definition read_string : rdm (list Z) :=
  read! size := read_u64 in
  read! _ := reject_if (GGUF_MAX_STRING_LENGTH <? size) in
  read_bytes size.

Fixpoint read_times {A} (n : nat) (m : rdm A) : rdm (list A) :=
  match n with
  | O => rd_ret []
  | S n => read! x := m in read! l := read_times n m in rd_ret (x :: l)
  end.

(** [read(std::vector<T> &, n)], with the size that is counted for each element. *)
Definition read_vector {A} (size : Z) (m : rdm A) (n : Z) : rdm (list A) := fun gr =>
  if GGUF_MAX_ARRAY_ELEMENTS <? n then Ok None
  else if SIZE_MAX / size <? n then Ok None
  else if rd_remain gr <? usize (n * size) then Ok None
  else read_times (Z.to_nat n) m gr.

Definition gguf_read_emplace_helper (type : Z) (key : list Z) (is_array : bool) (n : Z) : rdm gguf_kv :=
  if type =? GGUF_TYPE_STRING then
    read! strings := (if is_array then read_vector 8 read_string n else read! s := read_string in rd_ret [s]) in
    rd_lift (new_kv key is_array type [] strings)
  else
    read! data := (if is_array then read! l := read_vector (gguf_type_size type) (read_val type) n in rd_ret (concat l)
                   else read_val type) in
    rd_lift (new_kv key is_array type data []).

(** One key-value pair; [kvs] are those read before. *)
Definition read_kv (kvs : list gguf_kv) : rdm gguf_kv :=
  read! key := read_string in
  read! _ := reject_if (existsb (fun kv => bool_decide (key = kv_key kv)) kvs) in
  read! type := read_i32 in
  read! (type, is_array, n) :=
    (if type =? GGUF_TYPE_ARRAY then read! type := read_i32 in read! n := read_u64 in rd_ret (type, true, n)
     else rd_ret (type, false, 1)) in
  if is_number_type type || (type =? GGUF_TYPE_STRING) then gguf_read_emplace_helper type key is_array n
  else rd_fail.

(** [for (i = 0; ok && i < n; ++i)], where every step that succeeds takes bytes from the file. *)
Fixpoint read_list {A} (fuel : nat) (step : list A -> rdm A) (n : Z) (done_ : list A) : rdm (list A) :=
  if Z.of_nat (length done_) <? n then
    match fuel with
    | O => rd_lift (Err NoFuel)
    | S fuel => read! x := step done_ in read_list fuel step n (done_ ++ [x])
    end
  else rd_ret done_.

(** The header: magic, version and the two counts. *)
Definition read_version : rdm Z :=
  read! version := read_u32 in
  read! _ := reject_if (version =? 0) in
  read! _ := reject_if (Z.land version 0xFFFF =? 0) in
  read! _ := reject_if (version =? 1) in
  read! _ := reject_if (GGUF_VERSION <? version) in
  rd_ret version.

Definition read_count (sizeof : Z) : rdm Z :=
  read! n := read_i64 in
  read! _ := reject_if ((n <? 0) || (s64 (SIZE_MAX / sizeof) <? n)) in
  rd_ret n.

Definition read_magic : rdm unit :=
  read! magic := read_vector 1 (read_val GGUF_TYPE_INT8) 4 in
  reject_if (negb (bool_decide (concat magic = GGUF_MAGIC))).

(** The index of the alignment is kept in an [int]. *)
Definition context_alignment (c : gguf_context) : res Z :=
  let alignment_idx := s32 (gguf_find_key c GGUF_KEY_GENERAL_ALIGNMENT) in
  if alignment_idx =? -1 then Ok GGUF_DEFAULT_ALIGNMENT else gguf_get_val_u32 c alignment_idx.

(** *** Tensors *)

Definition read_dim (n_dims j : Z) : rdm Z :=
  read! ne := (if j <? n_dims then read_i64 else rd_ret 1) in
  read! _ := reject_if (ne <? 0) in
  rd_ret ne.

(** The number of elements is not representable. *)
Definition too_many_elements (ne : dims) : res bool :=
  q ← cdiv INT64_MAX (d1 ne);
  if q <=? d0 ne then Ok true else
  q ← cdiv INT64_MAX (d2 ne);
  p ← i64 (d0 ne * d1 ne);
  if q <=? p then Ok true else
  q ← cdiv INT64_MAX (d3 ne);
  p ← i64 (p * d2 ne);
  Ok (q <=? p).

Definition read_shape : rdm dims :=
  read! n_dims := read_u32 in
  read! _ := reject_if (GGML_MAX_DIMS <? n_dims) in
  read! ne0 := read_dim n_dims 0 in
  read! ne1 := read_dim n_dims 1 in
  read! ne2 := read_dim n_dims 2 in
  read! ne3 := read_dim n_dims 3 in
  let ne := mk_dims ne0 ne1 ne2 ne3 in
  read! big := rd_lift (too_many_elements ne) in
  read! _ := reject_if big in
  rd_ret ne.

Definition read_name (infos : list gguf_tensor_info) : rdm (list Z) :=
  read! name := read_string in
  read! _ := reject_if (GGML_MAX_NAME <=? Z.of_nat (length name)) in
  let name := gg_name (ggml_set_name (mk_gg 0 (mk_dims 0 0 0 0) (mk_dims 0 0 0 0) [] None) (c_str name)) in
  read! _ := reject_if (existsb (fun ti => bool_decide (name = gg_name (ti_t ti))) infos) in
  rd_ret name.

(** The type, checked against the shape, and the strides. *)
Definition read_type (name : list Z) (ne : dims) : rdm gg_tensor :=
  read! type := read_i32 in
  read! _ := reject_if ((type <? 0) || (GGML_TYPE_COUNT <=? type)) in
  read! type_size := rd_lift (ggml_type_size type) in
  read! blck_size := rd_lift (ggml_blck_size type) in
  if blck_size =? 0 then rd_fail else
  read! _ := reject_if (negb (d0 ne mod blck_size =? 0)) in
  read! n := rd_lift (ggml_nelements (mk_gg type ne (mk_dims 0 0 0 0) name None)) in
  read! max := rd_lift (cdiv SIZE_MAX type_size) in
  read! _ := reject_if (max <? n / blck_size) in
  read! nb := rd_lift (dense_strides type_size blck_size ne) in
  rd_ret (mk_gg type ne nb name None).

Definition read_tensor_info (infos : list gguf_tensor_info) : rdm gguf_tensor_info :=
  read! name := read_name infos in
  read! ne := read_shape in
  read! t := read_type name ne in
  read! offset := read_u64 in
  rd_ret (mk_info t offset).

(** The sizes of the tensors add up to the size of the data section; each starts where the one
    before ends. *)
Definition size_step (alignment : Z) (size : option Z) (ti : gguf_tensor_info) : res (option Z) :=
  match size with
  | None => Ok None
  | Some size =>
      if negb (ti_offset ti =? size) then Ok None else
      nbytes ← ggml_nbytes (ti_t ti);
      let padded_size := usize (GGML_PAD nbytes alignment) in
      if SIZE_MAX - size <? padded_size then Ok None else Ok (Some (size + padded_size))
  end.

(** [gguf_fseek(file, GGML_PAD(gguf_ftell(file), alignment), SEEK_SET)]: the reader does not
    count the bytes that are skipped. *)
Definition seek_data (alignment : Z) : rdm Z := fun gr =>
  let pos := usize (GGML_PAD (rd_pos gr) alignment) in
  if INT64_MAX <? pos then Ok None
  else Ok (Some (pos, mk_reader pos (drop (Z.to_nat (pos - rd_pos gr)) (rd_rest gr)) (rd_remain gr))).

(** What follows the header. *)
Definition read_body (version n_tensors n_kv : Z) (fuel : nat) : rdm gguf_context :=
  read! kvs := read_list fuel read_kv n_kv [] in
  read! _ := rd_lift (assert_ (Z.of_nat (length kvs) =? n_kv)) in
  let c := mk_gguf version kvs [] GGUF_DEFAULT_ALIGNMENT 0 0 None in
  read! alignment := rd_lift (context_alignment c) in
  read! _ := reject_if ((alignment =? 0) || negb (Z.land alignment (alignment - 1) =? 0)) in
  read! infos := read_list fuel read_tensor_info n_tensors [] in
  read! _ := rd_lift (assert_ (Z.of_nat (length infos) =? n_tensors)) in
  read! offset := seek_data alignment in
  read! size := rd_lift (mfor (size_step alignment) infos (Some 0)) in
  match size with
  | None => rd_fail
  | Some size => rd_ret (mk_gguf version kvs infos alignment offset size None)
  end.

(** Everything but the data section. *)
Definition read_meta : rdm gguf_context :=
  read! _ := read_magic in
  read! version := read_version in
  read! n_tensors := read_count SIZEOF_TENSOR_INFO in
  read! n_kv := read_count SIZEOF_KV in
  fun gr => read_body version n_tensors n_kv (S (length (rd_rest gr))) gr.

(** ** Loading the data *)

(** What [params.ctx] is given: the data section, unless [no_alloc], and the tensors, each with
    the place of its data in the section. *)
Record gguf_loaded := mk_loaded { ld_data : option (list Z); ld_tensors : list (gg_tensor * option Z) }.

Section load.
Context (memalign_ok : Z -> bool).

Definition create_tensor (no_alloc : bool) (st : ggml_context * list (gg_tensor * option Z)) (ti : gguf_tensor_info) :
    res (ggml_context * list (gg_tensor * option Z)) :=
  let '(pool, ts) := st in
  '(pool, cur) ← ggml_new_tensor pool (gg_type (ti_t ti)) (gg_ne (ti_t ti));
  let cur := ggml_set_name cur (gg_name (ti_t ti)) in
  Ok (pool, ts ++ [(cur, if no_alloc then None else Some (ti_offset ti))]).

(** [mem_size], or nothing when it would overflow. *)
Definition load_mem_size (no_alloc : bool) (n_tensors size : Z) : option Z :=
  if no_alloc then
    if negb (n_tensors =? 0) && (SIZE_MAX / n_tensors <? ggml_tensor_overhead) then None
    else Some (n_tensors * ggml_tensor_overhead)
  else
    if negb (n_tensors + 1 =? 0) && (SIZE_MAX / (n_tensors + 1) <? ggml_tensor_overhead) then None
    else let overhead := (n_tensors + 1) * ggml_tensor_overhead in
         if SIZE_MAX - overhead <? size then None else Some (overhead + size).

Definition gguf_load (no_alloc : bool) (c : gguf_context) : rdm (gguf_context * gguf_loaded) :=
  match load_mem_size no_alloc (gguf_get_n_tensors c) (gf_size c) with
  | None => rd_fail
  | Some mem_size =>
      read! pool := rd_lift (ggml_init memalign_ok mem_size no_alloc) in
      read! (pool, data) :=
        (if no_alloc then rd_ret (pool, None) else
         read! (pool, _) := rd_lift (ggml_new_tensor pool GGML_TYPE_I8 (mk_dims (gf_size c) 1 1 1)) in
         read! data := read_bytes (gf_size c) in
         rd_ret (pool, Some data)) in
      let pool := mk_pool (gc_mem_size pool) (gc_cur_end pool) true in
      read! (_, ts) := rd_lift (mfor (create_tensor no_alloc) (gf_info c) (pool, [])) in
      rd_ret (mk_gguf (gf_version c) (gf_kv c) (gf_info c) (gf_alignment c) (gf_offset c) (gf_size c)
                (if no_alloc then gf_data c else data), mk_loaded data ts)
  end.

(** [params.ctx] is a null pointer where [load] is [None], otherwise [load] is [no_alloc]. *)
Definition gguf_init_from_file_ptr (load : option bool) : rdm (gguf_context * option gguf_loaded) :=
  read! c := read_meta in
  match load with
  | None => rd_ret (c, None)
  | Some no_alloc => read! (c, l) := gguf_load no_alloc c in rd_ret (c, Some l)
  end.
End load.
