(* ===== verification/GgufWrite.v ===== *)
(** * Writing a model file: [gguf_writer_buf], [gguf_writer_file] and [gguf_write_out]

    The two writers are instances of one interface; [gguf_write_out] is written against it. *)

From S2P Require Import Prelude IoBytes GgmlTypes Gguf.

(** The virtual functions of [gguf_writer_base], and its [written_bytes]. *)
Class gguf_writer (W : Type) := {
  gw_written : W -> Z;
  gw_write_byte : W -> Z -> res W;
  gw_write_bytes : W -> list Z -> res W;
  gw_write_tensor_data : W -> gguf_tensor_info -> Z -> Z -> res W
}.

Section base.
Context {W : Type} `{gguf_writer W}.

(** [write(const T &)]: byte after byte. *)
Definition write_val (gw : W) (bs : list Z) : res W := mfor gw_write_byte bs gw.

Definition write_u32 (gw : W) (z : Z) : res W := write_val gw (le 4 z).
Definition write_u64 (gw : W) (z : Z) : res W := write_val gw (le 8 z).

Definition write_string (gw : W) (s : list Z) : res W := gw ← write_u64 gw (Z.of_nat (length s)); write_val gw s.

Definition write_bool (kv : gguf_kv) (gw : W) (i : nat) : res W :=
  v ← get_val GGUF_TYPE_BOOL kv i; gw_write_byte gw (if unle v =? 0 then 0 else 1).
Definition write_str (kv : gguf_kv) (gw : W) (i : nat) : res W :=
  s ← get_val_string kv i; write_string gw s.

Definition write_kv (gw : W) (kv : gguf_kv) : res W :=
  ne ← get_ne kv;
  gw ← write_string gw (kv_key kv);
  gw ← (if kv_is_array kv then
          gw ← write_u32 gw GGUF_TYPE_ARRAY; gw ← write_u32 gw (kv_type kv); write_u64 gw ne
        else write_u32 gw (kv_type kv));
  if kv_type kv =? GGUF_TYPE_BOOL then mfor (write_bool kv) (seq 0 (Z.to_nat ne)) gw
  else if is_number_type (kv_type kv) then gw_write_bytes gw (kv_data kv)
  else if kv_type kv =? GGUF_TYPE_STRING then mfor (write_str kv) (seq 0 (Z.to_nat ne)) gw
  else Err AssertFailed.

Definition write_tensor_meta (gw : W) (ti : gguf_tensor_info) : res W :=
  let t := ti_t ti in
  gw ← write_string gw (gg_name t);
  let n_dims := ggml_n_dims t in
  gw ← write_u32 gw n_dims;
  gw ← mfor write_u64 (take (Z.to_nat n_dims) (dims_list (gg_ne t))) gw;
  gw ← write_u32 gw (gg_type t);
  write_u64 gw (ti_offset ti).

(** [while (written_bytes % alignment != 0)] *)
Fixpoint pad_loop (fuel : nat) (alignment : Z) (gw : W) : res W :=
  r ← cmod (gw_written gw) alignment;
  if r =? 0 then Ok gw else
  match fuel with
  | O => Err NoFuel
  | S fuel => gw ← gw_write_byte gw 0; pad_loop fuel alignment gw
  end.

Definition pad (alignment : Z) (gw : W) : res W := pad_loop (Z.to_nat alignment) alignment gw.

Definition write_header (c : gguf_context) (gw : W) : res W :=
  gw ← write_val gw GGUF_MAGIC;
  gw ← write_u32 gw (gf_version c);
  gw ← write_u64 gw (gguf_get_n_tensors c);
  write_u64 gw (gguf_get_n_kv c).

Definition gguf_write_out (c : gguf_context) (gw : W) (only_meta : bool) : res W :=
  gw ← write_header c gw;
  gw ← mfor write_kv (gf_kv c) gw;
  gw ← mfor write_tensor_meta (gf_info c) gw;
  gw ← pad (gf_alignment c) gw;
  if only_meta then Ok gw else
  let offset_data := gw_written gw in
  mfor (fun gw ti => gw_write_tensor_data gw ti offset_data (gf_alignment c)) (gf_info c) gw.
End base.

(** The bytes of a tensor, from memory or from its buffer. *)
Definition tensor_bytes (t : gg_tensor) : res (list Z) :=
  c ← ggml_is_contiguous t;
  _ ← assert_ c;
  nbytes ← ggml_nbytes t;
  data ← of_option AssertFailed (gg_data t);
  if nbytes <=? Z.of_nat (length data) then Ok (take (Z.to_nat nbytes) data) else Err OutOfRange.

(** ** Writing to a buffer *)

Record gguf_writer_buf := mk_wbuf { wb_buf : list Z; wb_written_bytes : Z }.

Definition wbuf_write_byte (w : gguf_writer_buf) (val : Z) : res gguf_writer_buf :=
  Ok (mk_wbuf (wb_buf w ++ [val]) (usize (wb_written_bytes w + 1))).
Definition wbuf_write_bytes (w : gguf_writer_buf) (val : list Z) : res gguf_writer_buf :=
  Ok (mk_wbuf (wb_buf w ++ val) (usize (wb_written_bytes w + Z.of_nat (length val)))).

(** [pad] calls [write] only, and is the same for every [write_tensor_data]. *)
Definition wbuf_with (td : gguf_writer_buf -> gguf_tensor_info -> Z -> Z -> res gguf_writer_buf) : gguf_writer gguf_writer_buf := {|
  gw_written := wb_written_bytes; gw_write_byte := wbuf_write_byte; gw_write_bytes := wbuf_write_bytes;
  gw_write_tensor_data := td
|}.
Definition wbuf_pad : Z -> gguf_writer_buf -> res gguf_writer_buf := @pad _ (wbuf_with (fun w _ _ _ => Ok w)).

Definition wbuf_write_tensor_data (w : gguf_writer_buf) (ti : gguf_tensor_info) (offset_data alignment : Z) : res gguf_writer_buf :=
  _ ← assert_ (usize (Z.of_nat (length (wb_buf w)) - offset_data) =? ti_offset ti);
  bs ← tensor_bytes (ti_t ti);
  w ← wbuf_write_bytes w bs;
  wbuf_pad alignment w.

#[export] Instance wbuf_writer : gguf_writer gguf_writer_buf := wbuf_with wbuf_write_tensor_data.

Definition gguf_write_to_buf (c : gguf_context) (buf : list Z) (only_meta : bool) : res (list Z) :=
  w ← gguf_write_out c (mk_wbuf buf 0) only_meta; Ok (wb_buf w).

Definition gguf_get_meta_data (c : gguf_context) : res (list Z) := gguf_write_to_buf c [] true.
Definition gguf_get_meta_size (c : gguf_context) : res Z := bs ← gguf_get_meta_data c; Ok (Z.of_nat (length bs)).

(** ** Writing to a file *)

Record gguf_writer_file := mk_wfile { wf_content : list Z; wf_written_bytes : Z }.

Section file.
(** How many bytes of a request a file with the given content takes. *)
Context (fwrite_count : list Z -> list Z -> Z).

Definition wfile_write_byte (w : gguf_writer_file) (val : Z) : res gguf_writer_file :=
  if fwrite_count (wf_content w) [val] =? 1 then Ok (mk_wfile (wf_content w ++ [val]) (usize (wf_written_bytes w + 1)))
  else Err Thrown.
Definition wfile_write_bytes (w : gguf_writer_file) (val : list Z) : res gguf_writer_file :=
  let n := Z.of_nat (length val) in
  if fwrite_count (wf_content w) val =? n then Ok (mk_wfile (wf_content w ++ val) (usize (wf_written_bytes w + n)))
  else Err Thrown.

Definition wfile_with (td : gguf_writer_file -> gguf_tensor_info -> Z -> Z -> res gguf_writer_file) : gguf_writer gguf_writer_file := {|
  gw_written := wf_written_bytes; gw_write_byte := wfile_write_byte; gw_write_bytes := wfile_write_bytes;
  gw_write_tensor_data := td
|}.
Definition wfile_pad : Z -> gguf_writer_file -> res gguf_writer_file := @pad _ (wfile_with (fun w _ _ _ => Ok w)).

Definition wfile_write_tensor_data (w : gguf_writer_file) (ti : gguf_tensor_info) (offset_data alignment : Z) : res gguf_writer_file :=
  _ ← assert_ (usize (wf_written_bytes w - offset_data) =? ti_offset ti);
  bs ← tensor_bytes (ti_t ti);
  w ← wfile_write_bytes w bs;
  wfile_pad alignment w.

Definition wfile_writer : gguf_writer gguf_writer_file := wfile_with wfile_write_tensor_data.

(** The content of the file, or [None] where it returns [false]: an exception is caught. *)
Definition gguf_write_to_file_ptr (c : gguf_context) (content : list Z) (only_meta : bool) : res (option (list Z)) :=
  match @gguf_write_out _ wfile_writer c (mk_wfile content 0) only_meta with
  | Ok w => Ok (Some (wf_content w))
  | Err Thrown => Ok None
  | Err e => Err e
  end.
End file.
