(* ===== verification/GgufTheory.v ===== *)
(** * Model files: which contexts can be stored, and their bytes

    [gguf_ok]: the contexts that survive a file.  [kv_content], [info_content] and [meta_content]
    are the bytes of their parts; the writers write exactly these, and the readers read them
    back. *)

From S2P Require Import Prelude IoBytes GgmlTypes Gguf GgufRead GgufWrite.

(** ** What can be stored *)

Definition all_bytes (s : list Z) : Prop := Forall (fun b => 0 <= b < 256) s.
Definition string_ok (s : list Z) : Prop := all_bytes s /\ Z.of_nat (length s) <= GGUF_MAX_STRING_LENGTH.

(** The number of elements of a pair. *)
Definition kv_count (kv : gguf_kv) : Z :=
  if kv_type kv =? GGUF_TYPE_STRING then Z.of_nat (length (kv_data_string kv))
  else Z.of_nat (length (kv_data kv)) / gguf_type_size (kv_type kv).

Record pair_ok (kv : gguf_kv) : Prop := mk_pair_ok {
  ko_key : kv_key kv <> [] /\ string_ok (kv_key kv);
  ko_count : (kv_is_array kv = false -> kv_count kv = 1) /\ kv_count kv <= GGUF_MAX_ARRAY_ELEMENTS;
  ko_payload :
    (is_number_type (kv_type kv) = true /\ kv_data_string kv = [] /\ all_bytes (kv_data kv) /\
      Z.of_nat (length (kv_data kv)) = kv_count kv * gguf_type_size (kv_type kv) /\
      (kv_type kv = GGUF_TYPE_BOOL -> Forall (fun b => b = 0 \/ b = 1) (kv_data kv))) \/
    (kv_type kv = GGUF_TYPE_STRING /\ kv_data kv = [] /\ Forall string_ok (kv_data_string kv))
}.

Definition shape_ok (ne : dims) : Prop :=
  0 <= d0 ne <= INT64_MAX /\ 0 < d1 ne <= INT64_MAX /\ 0 < d2 ne <= INT64_MAX /\ 0 < d3 ne <= INT64_MAX /\
  too_many_elements ne = Ok false.

(** The type is one of today's, it divides the rows into blocks, the size is representable, and
    the strides are those of a tensor without gaps. *)
Definition type_ok (t : gg_tensor) : Prop :=
  exists size blck,
    0 <= gg_type t < GGML_TYPE_COUNT /\ ggml_type_size (gg_type t) = Ok size /\ ggml_blck_size (gg_type t) = Ok blck /\
    0 < size /\ 0 < blck /\ d0 (gg_ne t) mod blck = 0 /\
    d0 (gg_ne t) * d1 (gg_ne t) * d2 (gg_ne t) * d3 (gg_ne t) / blck <= SIZE_MAX / size /\
    dense_strides size blck (gg_ne t) = Ok (gg_nb t).

(** A name is a C string that fits into the tensor. *)
Definition tensor_name_ok (s : list Z) : Prop := all_bytes s /\ 0 ∉ s /\ Z.of_nat (length s) < GGML_MAX_NAME.

Definition info_ok (ti : gguf_tensor_info) : Prop :=
  tensor_name_ok (gg_name (ti_t ti)) /\ shape_ok (gg_ne (ti_t ti)) /\ type_ok (ti_t ti) /\ 0 <= ti_offset ti < 2 ^ 64.

Definition tensor_names (infos : list gguf_tensor_info) : list (list Z) := (fun ti => gg_name (ti_t ti)) <$> infos.

(** A context that can be stored; [size] is the size of its data section. *)
Record gguf_ok (c : gguf_context) (size : Z) : Prop := mk_gguf_ok {
  go_version : 2 <= gf_version c <= GGUF_VERSION;
  go_kvs : Forall pair_ok (gf_kv c);
  go_keys : NoDup (kv_key <$> gf_kv c);
  go_infos : Forall info_ok (gf_info c);
  go_names : NoDup (tensor_names (gf_info c));
  go_counts : gguf_get_n_kv c <= SIZE_MAX / SIZEOF_KV /\ gguf_get_n_tensors c <= SIZE_MAX / SIZEOF_TENSOR_INFO;
  go_alignment : context_alignment c = Ok (gf_alignment c) /\ pow2 (gf_alignment c) /\ gf_alignment c < 2 ^ 32;
  go_size : mfor (size_step (gf_alignment c)) (gf_info c) (Some 0) = Ok (Some size)
}.

(** ** The bytes *)

Definition string_content (s : list Z) : list Z := le 8 (Z.of_nat (length s)) ++ s.

Definition kv_content (kv : gguf_kv) : list Z :=
  string_content (kv_key kv) ++
  (if kv_is_array kv then le 4 GGUF_TYPE_ARRAY ++ le 4 (kv_type kv) ++ le 8 (kv_count kv) else le 4 (kv_type kv)) ++
  (if kv_type kv =? GGUF_TYPE_STRING then concat (string_content <$> kv_data_string kv) else kv_data kv).

Definition info_content (ti : gguf_tensor_info) : list Z :=
  let t := ti_t ti in
  string_content (gg_name t) ++ le 4 (ggml_n_dims t) ++
  concat (le 8 <$> take (Z.to_nat (ggml_n_dims t)) (dims_list (gg_ne t))) ++
  le 4 (gg_type t) ++ le 8 (ti_offset ti).

Definition header_content (c : gguf_context) : list Z :=
  GGUF_MAGIC ++ le 4 (gf_version c) ++ le 8 (gguf_get_n_tensors c) ++ le 8 (gguf_get_n_kv c).

(** Everything before the padding of the data section. *)
Definition meta_content (c : gguf_context) : list Z :=
  header_content c ++ concat (kv_content <$> gf_kv c) ++ concat (info_content <$> gf_info c).

(** The zeros that bring [n] bytes to a multiple of the alignment. *)
Definition padding (alignment n : Z) : list Z := replicate (Z.to_nat (GGML_PAD n alignment - n)) 0.

Definition padded_content (alignment : Z) (bs : list Z) : list Z := bs ++ padding alignment (Z.of_nat (length bs)).

(** ** Reading what was written *)

(** [m] reads exactly the bytes [bs], and gives [a]. *)
Definition rd_reads {A} (m : rdm A) (bs : list Z) (a : A) : Prop :=
  forall pos rest remain, Z.of_nat (length bs + length rest) <= remain ->
  m (mk_reader pos (bs ++ rest) remain) =
  Ok (Some (a, mk_reader (pos + Z.of_nat (length bs)) rest (remain - Z.of_nat (length bs)))).

Lemma rd_reads_ret {A} (a : A) : rd_reads (rd_ret a) [] a.
Proof. intros pos rest rem H. unfold rd_ret. cbn. do 4 f_equal; lia. Qed.

Lemma rd_reads_bind {A B} (m : rdm A) (k : A -> rdm B) bs1 bs2 a b :
  rd_reads m bs1 a -> rd_reads (k a) bs2 b -> rd_reads (rd_bind m k) (bs1 ++ bs2) b.
Proof.
  intros H1 H2 pos rest rem H. rewrite length_app in *. unfold rd_bind.
  rewrite <- app_assoc, H1 by (rewrite length_app; lia). cbn. rewrite H2 by lia. do 4 f_equal; lia.
Qed.

(** The last read, and a step that does not read. *)
Lemma rd_reads_fmap {A B} (m : rdm A) (k : A -> rdm B) bs a b :
  rd_reads m bs a -> rd_reads (k a) [] b -> rd_reads (rd_bind m k) bs b.
Proof. intros H1 H2. rewrite <- (app_nil_r bs). by eapply rd_reads_bind. Qed.

Lemma rd_reads_skip {A B} (m : rdm A) (k : A -> rdm B) bs a b :
  rd_reads m [] a -> rd_reads (k a) bs b -> rd_reads (rd_bind m k) bs b.
Proof. intros H1 H2. change bs with ([] ++ bs). by eapply rd_reads_bind. Qed.

Lemma rd_reads_lift {A} (m : res A) a : m = Ok a -> rd_reads (rd_lift m) [] a.
Proof. intros -> pos rest rem H. apply (rd_reads_ret a pos rest rem H). Qed.

Lemma rd_reads_accept (b : bool) : b = false -> rd_reads (reject_if b) [] tt.
Proof. intros ->. apply rd_reads_ret. Qed.

Lemma rd_reads_bytes bs n : Z.of_nat (length bs) = n -> rd_reads (read_bytes n) bs bs.
Proof.
  intros <- pos rest rem H. unfold read_bytes. cbn [rd_rest rd_remain rd_pos].
  rewrite (proj2 (Z.ltb_ge _ _)) by lia. rewrite Nat2Z.id, take_app_length, drop_app_length.
  by rewrite Z.eqb_refl.
Qed.

Lemma rd_reads_u32 z : 0 <= z < 2 ^ 32 -> rd_reads read_u32 (le 4 z) z.
Proof.
  intros Hz. eapply rd_reads_fmap; [by apply rd_reads_bytes; rewrite length_le|].
  rewrite unle_le, Z.mod_small by done. apply rd_reads_ret.
Qed.

Lemma rd_reads_u64 z : 0 <= z < 2 ^ 64 -> rd_reads read_u64 (le 8 z) z.
Proof.
  intros Hz. eapply rd_reads_fmap; [by apply rd_reads_bytes; rewrite length_le|].
  rewrite unle_le, Z.mod_small by done. apply rd_reads_ret.
Qed.

Lemma s64_small z : 0 <= z <= INT64_MAX -> s64 z = z.
Proof. unfold INT64_MAX. intros Hz. unfold s64. rewrite Z.mod_small by lia. lia. Qed.

(** Non-negative values of the signed types. *)
Lemma rd_reads_i32 z : 0 <= z < 2 ^ 31 -> rd_reads read_i32 (le 4 z) z.
Proof.
  intros Hz. eapply rd_reads_fmap; [by apply rd_reads_bytes; rewrite length_le|].
  rewrite unle_le, Z.mod_small, s32_nonneg by lia. apply rd_reads_ret.
Qed.

Lemma rd_reads_i64 z : 0 <= z <= INT64_MAX -> rd_reads read_i64 (le 8 z) z.
Proof.
  intros Hz. eapply rd_reads_fmap; [by apply rd_reads_bytes; rewrite length_le|].
  unfold INT64_MAX in Hz. rewrite unle_le, Z.mod_small, s64_small by (unfold INT64_MAX; lia). apply rd_reads_ret.
Qed.

(** *** Strings, values, vectors *)

Lemma rd_reads_string s : string_ok s -> rd_reads read_string (string_content s) s.
Proof.
  intros [_ Hs]. unfold GGUF_MAX_STRING_LENGTH in Hs. eapply rd_reads_bind; [apply rd_reads_u64; lia|].
  eapply rd_reads_skip; [apply rd_reads_accept, Z.ltb_ge; unfold GGUF_MAX_STRING_LENGTH; lia|].
  by apply rd_reads_bytes.
Qed.

Lemma is_number_cases type : is_number_type type = true ->
  type = 0 \/ type = 1 \/ type = 2 \/ type = 3 \/ type = 4 \/ type = 5 \/ type = 6 \/ type = 7 \/ type = 10 \/ type = 11 \/ type = 12.
Proof. unfold is_number_type, GGUF_TYPE_FLOAT64, GGUF_TYPE_STRING, GGUF_TYPE_ARRAY. rewrite !andb_true_iff, !negb_true_iff. lia. Qed.

Lemma number_size type : is_number_type type = true -> 0 < gguf_type_size type <= 8.
Proof. intros H%is_number_cases. destruct_or! H; subst; cbv; split; congruence. Qed.

Lemma bool_size : gguf_type_size GGUF_TYPE_BOOL = 1.
Proof. done. Qed.

Lemma rd_reads_val type bs :
  is_number_type type = true -> Z.of_nat (length bs) = gguf_type_size type ->
  (type = GGUF_TYPE_BOOL -> Forall (fun b => b = 0 \/ b = 1) bs) -> rd_reads (read_val type) bs bs.
Proof.
  intros Ht Hl Hb. eapply rd_reads_fmap; [by apply rd_reads_bytes|].
  destruct (type =? GGUF_TYPE_BOOL) eqn:E; [|apply rd_reads_ret]. apply Z.eqb_eq in E.
  rewrite E, bool_size in Hl. destruct bs as [|b [|]]; simpl in Hl; [lia| |lia].
  specialize (Hb E). apply Forall_cons in Hb as [[->| ->] _]; apply rd_reads_ret.
Qed.

Lemma rd_reads_times {A} (m : rdm A) (w : A -> list Z) (l : list A) :
  (forall x, x ∈ l -> rd_reads m (w x) x) -> rd_reads (read_times (length l) m) (concat (w <$> l)) l.
Proof.
  induction l as [|x l IH]; intros H; [apply rd_reads_ret|]. simpl.
  eapply rd_reads_bind; [apply H; set_solver|]. eapply rd_reads_fmap; [apply IH; set_solver|]. apply rd_reads_ret.
Qed.

(** Elements that take at least [size] bytes each. *)
Lemma rd_reads_vector {A} size (m : rdm A) (w : A -> list Z) (l : list A) :
  0 < size <= 8 -> Z.of_nat (length l) <= GGUF_MAX_ARRAY_ELEMENTS ->
  (forall x, x ∈ l -> rd_reads m (w x) x /\ size <= Z.of_nat (length (w x))) ->
  rd_reads (read_vector size m (Z.of_nat (length l))) (concat (w <$> l)) l.
Proof.
  unfold GGUF_MAX_ARRAY_ELEMENTS. intros Hsz Hn H pos rest rem Hrem. unfold read_vector. cbn [rd_remain].
  assert (Z.of_nat (length l) * size <= Z.of_nat (length (concat (w <$> l)))) as Hlen.
  { clear Hn Hrem. induction l as [|x l IH]; [done|]. cbn [fmap list_fmap concat length]. rewrite length_app.
    destruct (H x) as [_ ?]; [set_solver|]. assert (forall y, y ∈ l -> rd_reads m (w y) y /\ size <= Z.of_nat (length (w y))) as Hl%IH by (intros; apply H; set_solver). lia. }
  rewrite (proj2 (Z.ltb_ge _ _)) by (unfold GGUF_MAX_ARRAY_ELEMENTS; lia).
  rewrite (proj2 (Z.ltb_ge _ _)).
  2:{ unfold SIZE_MAX. pose proof (Z.div_le_compat_l 18446744073709551615 size 8 ltac:(lia) ltac:(lia)) as Hd. change (18446744073709551615 / 8) with 2305843009213693951 in Hd. lia. }
  unfold usize. rewrite Z.mod_small by nia. rewrite (proj2 (Z.ltb_ge _ _)) by lia. rewrite Nat2Z.id.
  apply rd_reads_times; [|done]. intros x Hx. by apply H.
Qed.

(** *** Key-value pairs *)

(** A list of bytes as a list of blocks of [n] bytes. *)
Fixpoint blocks_of (n : nat) (k : nat) (bs : list Z) : list (list Z) :=
  match k with O => [] | S k => take n bs :: blocks_of n k (drop n bs) end.

Lemma concat_blocks n k bs : length bs = (k * n)%nat -> concat (blocks_of n k bs) = bs.
Proof.
  revert bs. induction k as [|k IH]; intros bs H; simpl; [by destruct bs|].
  rewrite IH by (rewrite length_drop; lia). apply take_drop.
Qed.

Lemma length_blocks_of n k bs : length (blocks_of n k bs) = k.
Proof. revert bs. induction k as [|k IH]; intros bs; simpl; [done|by rewrite IH]. Qed.

Lemma elem_of_blocks n k bs b : length bs = (k * n)%nat -> b ∈ blocks_of n k bs -> length b = n /\ b ⊆ bs.
Proof.
  revert bs. induction k as [|k IH]; intros bs H Hb; simpl in *; [set_solver|].
  apply elem_of_cons in Hb as [->|Hb].
  - split; [rewrite length_take; lia|]. intros x Hx. by apply elem_of_take in Hx as (i & ? & _); eapply list_elem_of_lookup_2.
  - apply IH in Hb as [? Hsub]; [|rewrite length_drop; lia]. split; [done|].
    intros x Hx%Hsub. rewrite <- (take_drop n bs). apply elem_of_app. by right.
Qed.

Lemma rd_reads_numbers type n bs :
  is_number_type type = true -> n <= GGUF_MAX_ARRAY_ELEMENTS -> Z.of_nat (length bs) = n * gguf_type_size type ->
  (type = GGUF_TYPE_BOOL -> Forall (fun b => b = 0 \/ b = 1) bs) ->
  rd_reads (rd_bind (read_vector (gguf_type_size type) (read_val type) n) (fun l => rd_ret (concat l))) bs bs.
Proof.
  intros Ht Hn Hl Hb. pose proof (number_size type Ht) as Hs.
  assert (0 <= n) as Hn0 by nia. set (k := Z.to_nat n). set (z := Z.to_nat (gguf_type_size type)).
  assert (length bs = (k * z)%nat) as Hlen by (subst k z; nia).
  rewrite <- (concat_blocks z k bs Hlen) at 1. eapply rd_reads_fmap.
  - replace n with (Z.of_nat (length (blocks_of z k bs))) at 1 by (rewrite length_blocks_of; lia).
    rewrite <- (list_fmap_id (blocks_of z k bs)) at 2.
    apply rd_reads_vector; [lia|rewrite length_blocks_of; lia|].
    intros x [Hlx Hx]%elem_of_blocks; [|done]. split; [|unfold id; lia].
    apply rd_reads_val; [done|lia|]. intros Hty%Hb. rewrite Forall_forall in Hty |- *. set_solver.
  - rewrite concat_blocks by done. apply rd_reads_ret.
Qed.

Lemma kv_type_range kv : pair_ok kv -> 0 <= kv_type kv <= 12 /\ kv_type kv <> GGUF_TYPE_ARRAY /\
  is_number_type (kv_type kv) || (kv_type kv =? GGUF_TYPE_STRING) = true.
Proof.
  intros [_ _ [(H & _)|(-> & _)]]; [|split; [unfold GGUF_TYPE_STRING; lia|split; [discriminate|reflexivity]]]. rewrite H.
  split_and!; try done; apply is_number_cases in H; unfold GGUF_TYPE_ARRAY; lia.
Qed.

Lemma kv_count_nonneg kv : pair_ok kv -> 0 <= kv_count kv.
Proof.
  intros [_ _ H]. unfold kv_count. destruct (kv_type kv =? GGUF_TYPE_STRING); [lia|].
  destruct H as [(Ht & _)|(-> & -> & _)]; [|done]. pose proof (number_size _ Ht). apply Z.div_pos; lia.
Qed.

Lemma rd_reads_payload kv : pair_ok kv ->
  rd_reads (gguf_read_emplace_helper (kv_type kv) (kv_key kv) (kv_is_array kv) (kv_count kv))
    (if kv_type kv =? GGUF_TYPE_STRING then concat (string_content <$> kv_data_string kv) else kv_data kv) kv.
Proof.
  intros [[Hne _] [Hsc Hct] Hp]. unfold gguf_read_emplace_helper, new_kv.
  assert (forall ty d s, assert_ (negb (bool_decide (kv_key kv = []))) ≫= (fun _ => Ok (mk_kv (kv_key kv) (kv_is_array kv) ty d s))
    = Ok (mk_kv (kv_key kv) (kv_is_array kv) ty d s)) as Hnew by (intros; by rewrite bool_decide_eq_false_2).
  destruct Hp as [(Ht & Hs & Hb & Hl & H01)|(Ht & Hd & Hs)].
  - pose proof (is_number_cases _ Ht) as Hc. rewrite (proj2 (Z.eqb_neq _ _)) by (unfold GGUF_TYPE_STRING; lia).
    apply (rd_reads_fmap _ _ _ (kv_data kv)); [|apply rd_reads_lift; rewrite Hnew, <- Hs; by destruct kv].
    destruct (kv_is_array kv); [by apply rd_reads_numbers|]. apply rd_reads_val; [done| |done]. rewrite Hl, Hsc by done. lia.
  - rewrite Ht, Z.eqb_refl. unfold kv_count in *. rewrite Ht, Z.eqb_refl in *.
    apply (rd_reads_fmap _ _ _ (kv_data_string kv)); [|apply rd_reads_lift; rewrite Hnew, <- Hd; destruct kv; simpl in *; congruence].
    rewrite Forall_forall in Hs. destruct (kv_is_array kv).
    + apply rd_reads_vector; [lia|done|]. intros s Hin. split; [by apply rd_reads_string, Hs|].
      unfold string_content. rewrite length_app, length_le. lia.
    + specialize (Hsc eq_refl). destruct (kv_data_string kv) as [|s [|]]; simpl in Hsc; [lia| |lia].
      cbn [fmap list_fmap concat]. rewrite app_nil_r. eapply rd_reads_fmap; [apply rd_reads_string, Hs; set_solver|].
      apply rd_reads_ret.
Qed.

Lemma rd_reads_kv kvs kv : pair_ok kv -> kv_key kv ∉ (kv_key <$> kvs) -> rd_reads (read_kv kvs) (kv_content kv) kv.
Proof.
  intros H Hnew. pose proof (kv_type_range kv H) as (Hr & Hna & Hok). pose proof (rd_reads_payload kv H) as Hp.
  pose proof (kv_count_nonneg kv H) as Hn0. unfold read_kv, kv_content.
  eapply rd_reads_bind; [apply rd_reads_string, (ko_key _ H)|]. eapply rd_reads_skip.
  { apply rd_reads_accept. apply not_true_iff_false. intros (kv' & Hin & He%bool_decide_eq_true)%existsb_exists.
    apply Hnew. rewrite He. apply list_elem_of_fmap_2, list_elem_of_In, Hin. }
  destruct (kv_is_array kv) eqn:E.
  - rewrite <- !app_assoc. eapply rd_reads_bind; [by apply rd_reads_i32|]. cbn [Z.eqb].
    destruct (ko_count _ H) as [_ Hct]. unfold GGUF_MAX_ARRAY_ELEMENTS in Hct.
    rewrite app_assoc. apply (rd_reads_bind _ _ _ _ (kv_type kv, true, kv_count kv)); [|rewrite Hok; exact Hp].
    eapply rd_reads_bind; [apply rd_reads_i32; lia|]. eapply rd_reads_fmap; [apply rd_reads_u64; lia|]. apply rd_reads_ret.
  - eapply rd_reads_bind; [apply rd_reads_i32; lia|]. rewrite (proj2 (Z.eqb_neq _ _)) by done.
    apply (rd_reads_skip _ _ _ (kv_type kv, false, 1)); [apply rd_reads_ret|]. rewrite Hok. by rewrite (proj1 (ko_count _ H) E) in Hp.
Qed.

(** *** Tensors *)

Lemma c_str_id s : 0 ∉ s -> c_str s = s.
Proof.
  induction s as [|b s IH]; intros H; [done|]. simpl. rewrite (proj2 (Z.eqb_neq _ _)) by set_solver.
  by rewrite IH by set_solver.
Qed.

Lemma c_str_no_zero s : 0 ∉ c_str s.
Proof.
  induction s as [|b s IH]; simpl; [set_solver|]. destruct (b =? 0) eqn:E; [set_solver|]. apply Z.eqb_neq in E. set_solver.
Qed.

Lemma rd_reads_name infos s : tensor_name_ok s -> s ∉ tensor_names infos -> rd_reads (read_name infos) (string_content s) s.
Proof.
  intros (Hb & H0 & Hl) Hnew. unfold GGML_MAX_NAME in Hl. unfold read_name.
  eapply rd_reads_fmap; [apply rd_reads_string; split; [done|unfold GGUF_MAX_STRING_LENGTH; lia]|].
  eapply rd_reads_skip; [apply rd_reads_accept, Z.leb_gt; unfold GGML_MAX_NAME; lia|].
  cbv beta zeta. cbn [ggml_set_name gg_name]. rewrite !(c_str_id s H0).
  rewrite take_ge by (unfold GGML_MAX_NAME; lia). eapply rd_reads_skip; [|apply rd_reads_ret].
  apply rd_reads_accept. apply not_true_iff_false. intros (ti & Hin & He%bool_decide_eq_true)%existsb_exists.
  apply Hnew. rewrite He. apply (list_elem_of_fmap_2 (fun ti => gg_name (ti_t ti))), list_elem_of_In, Hin.
Qed.

Lemma rd_reads_dim n_dims j ne : 0 <= ne <= INT64_MAX -> (n_dims <= j -> ne = 1) ->
  rd_reads (read_dim n_dims j) (if j <? n_dims then le 8 ne else []) ne.
Proof.
  intros Hne H1. unfold read_dim. destruct (j <? n_dims) eqn:E.
  - eapply rd_reads_fmap; [by apply rd_reads_i64|]. eapply rd_reads_skip; [apply rd_reads_accept, Z.ltb_ge; lia|]. apply rd_reads_ret.
  - apply Z.ltb_ge in E. rewrite (H1 E). eapply rd_reads_skip; [apply rd_reads_ret|].
    eapply rd_reads_skip; [by apply rd_reads_accept|]. apply rd_reads_ret.
Qed.

Lemma n_dims_range t : 1 <= ggml_n_dims t <= 4.
Proof. unfold ggml_n_dims. repeat case_match; lia. Qed.

Lemma rd_reads_shape t : shape_ok (gg_ne t) ->
  rd_reads read_shape (le 4 (ggml_n_dims t) ++ concat (le 8 <$> take (Z.to_nat (ggml_n_dims t)) (dims_list (gg_ne t)))) (gg_ne t).
Proof.
  intros (H0 & H1 & H2 & H3 & Hbig). pose proof (n_dims_range t) as Hr. unfold read_shape.
  eapply rd_reads_bind; [apply rd_reads_u32; lia|].
  eapply rd_reads_skip; [apply rd_reads_accept, Z.ltb_ge; unfold GGML_MAX_DIMS; lia|].
  assert (concat (le 8 <$> take (Z.to_nat (ggml_n_dims t)) (dims_list (gg_ne t))) =
    (if 0 <? ggml_n_dims t then le 8 (d0 (gg_ne t)) else []) ++ (if 1 <? ggml_n_dims t then le 8 (d1 (gg_ne t)) else []) ++
    (if 2 <? ggml_n_dims t then le 8 (d2 (gg_ne t)) else []) ++ (if 3 <? ggml_n_dims t then le 8 (d3 (gg_ne t)) else [])) as ->.
  { assert (ggml_n_dims t = 1 \/ ggml_n_dims t = 2 \/ ggml_n_dims t = 3 \/ ggml_n_dims t = 4) as Hc by lia.
    destruct_or! Hc; rewrite Hc; reflexivity. }
  eapply rd_reads_bind; [apply rd_reads_dim; lia|].
  eapply rd_reads_bind; [apply rd_reads_dim; [lia|]; unfold ggml_n_dims; repeat case_match; lia|].
  eapply rd_reads_bind; [apply rd_reads_dim; [lia|]; unfold ggml_n_dims; repeat case_match; lia|].
  eapply rd_reads_fmap; [apply rd_reads_dim; [lia|]; unfold ggml_n_dims; repeat case_match; lia|].
  cbv zeta. assert (mk_dims (d0 (gg_ne t)) (d1 (gg_ne t)) (d2 (gg_ne t)) (d3 (gg_ne t)) = gg_ne t) as -> by (by destruct (gg_ne t)).
  eapply rd_reads_skip; [by apply rd_reads_lift|]. eapply rd_reads_skip; [by apply rd_reads_accept|]. apply rd_reads_ret.
Qed.

Lemma type_in_table type size : ggml_type_size type = Ok size -> 0 <= type < GGML_TYPE_COUNT.
Proof.
  unfold ggml_type_size, vec_getZ. destruct (0 <=? type) eqn:E; [|done]. intros H. res_inv.
  apply lookup_lt_Some in H0. unfold GGML_TYPE_COUNT. cbn in H0. lia.
Qed.

Lemma nelements_ok t ne : gg_ne t = ne -> shape_ok ne -> ggml_nelements t = Ok (d0 ne * d1 ne * d2 ne * d3 ne).
Proof.
  intros <- (H0 & H1 & H2 & H3 & Hbig). set (ne := gg_ne t) in *. unfold ggml_nelements, too_many_elements, cdiv in *.
  rewrite !(proj2 (Z.eqb_neq _ _)) in Hbig by lia. cbn in Hbig.
  destruct (_ <=? d0 ne) eqn:E1 in Hbig; [done|]. apply Z.leb_gt in E1.
  assert (0 <= d0 ne * d1 ne <= INT64_MAX) as Hp1.
  { pose proof (Z.mul_div_le INT64_MAX (d1 ne) ltac:(lia)). nia. }
  assert (forall z, 0 <= z <= INT64_MAX -> i64 z = Ok z) as Hi.
  { intros z Hz. unfold i64. by rewrite (proj2 (Z.leb_le _ _)), (proj2 (Z.leb_le z _)) by lia. }
  rewrite Hi in Hbig |- * by done. cbn in Hbig |- *. destruct (_ <=? d0 ne * d1 ne) eqn:E2 in Hbig; [done|]. apply Z.leb_gt in E2.
  assert (0 <= d0 ne * d1 ne * d2 ne <= INT64_MAX) as Hp2.
  { pose proof (Z.mul_div_le INT64_MAX (d2 ne) ltac:(lia)). nia. }
  rewrite Hi in Hbig |- * by done. cbn in Hbig |- *. injection Hbig as E3%Z.leb_gt.
  apply Hi. pose proof (Z.mul_div_le INT64_MAX (d3 ne) ltac:(lia)). nia.
Qed.

Lemma rd_reads_type t : shape_ok (gg_ne t) -> type_ok t ->
  rd_reads (read_type (gg_name t) (gg_ne t)) (le 4 (gg_type t)) (mk_gg (gg_type t) (gg_ne t) (gg_nb t) (gg_name t) None).
Proof.
  intros Hs (size & blck & Hr & Hsz & Hbl & Hs0 & Hb0 & Hmod & Hmax & Hnb). unfold GGML_TYPE_COUNT in Hr. unfold read_type.
  eapply rd_reads_fmap; [apply rd_reads_i32; lia|].
  eapply rd_reads_skip; [apply rd_reads_accept; unfold GGML_TYPE_COUNT; lia|].
  eapply rd_reads_skip; [by apply rd_reads_lift|]. eapply rd_reads_skip; [by apply rd_reads_lift|].
  rewrite (proj2 (Z.eqb_neq _ _)) by lia.
  eapply rd_reads_skip; [apply rd_reads_accept, negb_false_iff, Z.eqb_eq, Hmod|].
  eapply rd_reads_skip; [apply rd_reads_lift, (nelements_ok _ (gg_ne t)); done|].
  eapply rd_reads_skip; [apply rd_reads_lift; unfold cdiv; by rewrite (proj2 (Z.eqb_neq _ _)) by lia|].
  eapply rd_reads_skip; [apply rd_reads_accept, Z.ltb_ge, Hmax|].
  eapply rd_reads_skip; [apply rd_reads_lift, Hnb|]. apply rd_reads_ret.
Qed.

(** A tensor as the reader gives it: its data is not set. *)
Definition without_data (ti : gguf_tensor_info) : gguf_tensor_info :=
  let t := ti_t ti in mk_info (mk_gg (gg_type t) (gg_ne t) (gg_nb t) (gg_name t) None) (ti_offset ti).

Lemma rd_reads_info infos ti : info_ok ti -> gg_name (ti_t ti) ∉ tensor_names infos ->
  rd_reads (read_tensor_info infos) (info_content ti) (without_data ti).
Proof.
  intros (Hn & Hs & Ht & Ho) Hnew. unfold read_tensor_info, info_content.
  eapply rd_reads_bind; [by apply rd_reads_name|]. rewrite app_assoc.
  eapply rd_reads_bind; [by apply rd_reads_shape|]. eapply rd_reads_bind; [by apply rd_reads_type|].
  eapply rd_reads_fmap; [by apply rd_reads_u64|]. apply rd_reads_ret.
Qed.

(** *** Lists with a check against the elements before *)

Lemma rd_reads_list {A K} (step : list A -> rdm A) (w : A -> list Z) (r : A -> A) (key : A -> K) fuel (todo done_ : list A) :
  (forall x d, x ∈ todo -> key x ∉ (key <$> d) -> rd_reads (step d) (w x) (r x)) ->
  (forall x, key (r x) = key x) -> NoDup ((key <$> done_) ++ (key <$> todo)) -> (length todo <= fuel)%nat ->
  rd_reads (read_list fuel step (Z.of_nat (length done_ + length todo)) done_) (concat (w <$> todo)) (done_ ++ (r <$> todo)).
Proof.
  intros Hstep Hkey. revert fuel done_. induction todo as [|x todo IH]; intros fuel done_ Hnd Hf.
  - cbn [length]. rewrite Nat.add_0_r, app_nil_r.
    assert (read_list fuel step (Z.of_nat (length done_)) done_ = rd_ret done_) as ->; [|apply rd_reads_ret].
    destruct fuel; cbn; by rewrite Z.ltb_irrefl.
  - destruct fuel as [|fuel]; [simpl in Hf; lia|]. cbn [read_list fmap list_fmap concat].
    rewrite (proj2 (Z.ltb_lt _ _)) by (cbn [length]; lia).
    apply NoDup_app in Hnd as (Hnd1 & Hdis & Hnd2). cbn in Hnd2. apply NoDup_cons in Hnd2 as [Hx Hnd2].
    eapply rd_reads_bind.
    { apply Hstep; [set_solver|]. intros Hin. apply (Hdis _ Hin). set_solver. }
    replace (Z.of_nat (length done_ + length (x :: todo))) with (Z.of_nat (length (done_ ++ [r x]) + length todo)) by (rewrite length_app; cbn; lia).
    assert (done_ ++ r x :: (r <$> todo) = (done_ ++ [r x]) ++ (r <$> todo)) as -> by (by rewrite <- app_assoc). apply IH; [intros; apply Hstep; [set_solver|done]| |simpl in Hf; lia].
    rewrite fmap_app. cbn. rewrite Hkey, <- app_assoc. apply NoDup_app. split; [done|]. split; [|by apply NoDup_cons].
    intros k Hk. specialize (Hdis k Hk). cbn in Hdis. done.
Qed.
