(* ===== verification/GgufStore.v ===== *)
(** * Model files: the writers write the bytes of a context

    [writer_laws] is what a writer promises to [gguf_write_out]: what is written is appended, or
    an exception is thrown.  Both writers keep it. *)

From S2P Require Import Prelude IoBytes GgmlTypes Gguf GgufRead GgufWrite GgufTheory.

(** The state [w], or an exception of a writer that can throw. *)
Definition yields {W} (throws : Prop) (m : res W) (w : W) : Prop := m = Ok w \/ (throws /\ m = Err Thrown).

Lemma yields_bind {W} th (m : res W) (k : W -> res W) w w' : yields th m w -> yields th (k w) w' -> yields th (m ≫= k) w'.
Proof. intros [->|[? ->]] H2; [done|by right]. Qed.

Class writer_laws {W} (G : gguf_writer W) (throws : Prop) := {
  gw_ok : W -> Prop;
  gw_app : W -> list Z -> W;
  gw_app_ok : forall w bs, gw_ok w -> gw_ok (gw_app w bs);
  gw_app_nil : forall w, gw_ok w -> gw_app w [] = w;
  gw_app_app : forall w bs bs', gw_app (gw_app w bs) bs' = gw_app w (bs ++ bs');
  gw_written_range : forall w, gw_ok w -> 0 <= gw_written w < 2 ^ 64;
  gw_written_app : forall w bs, gw_ok w -> gw_written (gw_app w bs) = usize (gw_written w + Z.of_nat (length bs));
  gw_byte_law : forall w b, gw_ok w -> yields throws (gw_write_byte w b) (gw_app w [b]);
  gw_bytes_law : forall w bs, gw_ok w -> yields throws (gw_write_bytes w bs) (gw_app w bs)
}.

(** ** Padding *)

Lemma pad_range a n : pow2 a -> 0 <= n -> 0 <= GGML_PAD n a - n < a /\ (GGML_PAD n a) mod a = 0.
Proof. intros Ha Hn. pose proof (ggml_pad_spec n a Hn Ha) as [? ?]. lia. Qed.

(** The padding depends on the remainder only. *)
Lemma pad_mod a n : pow2 a -> 0 <= n -> GGML_PAD n a - n = (- n) mod a.
Proof.
  intros Ha Hn. destruct (pad_range a n Ha Hn) as [Hr Hm]. pose proof (pow2_pos a Ha).
  apply Z.mod_unique with (q := - (GGML_PAD n a / a)); [by left|].
  pose proof (Z.div_mod (GGML_PAD n a) a). lia.
Qed.

Lemma pad_shift a n k : pow2 a -> 0 <= n -> 0 <= k -> k mod a = 0 -> GGML_PAD (k + n) a - (k + n) = GGML_PAD n a - n.
Proof.
  intros Ha Hn Hk Hmod. pose proof (pow2_pos a Ha). rewrite !pad_mod by (done || lia).
  replace (- (k + n)) with (- n + (- (k / a)) * a) by (pose proof (Z.div_mod k a); lia). apply Z.mod_add. lia.
Qed.

Lemma pad_of_multiple a n : pow2 a -> 0 <= n -> n mod a = 0 -> GGML_PAD n a = n.
Proof. intros Ha Hn Hm. pose proof (pow2_pos a Ha). pose proof (pad_mod a n Ha Hn) as H1. rewrite Z.mod_opp_l_z in H1 by lia. lia. Qed.

Lemma pad_succ a n : pow2 a -> 0 <= n -> GGML_PAD n a <> n -> GGML_PAD (n + 1) a = GGML_PAD n a.
Proof.
  intros Ha Hn Hne. pose proof (pow2_pos a Ha). destruct (pad_range a n Ha Hn) as [Hr _].
  pose proof (pad_mod a n Ha Hn) as H1. pose proof (pad_mod a (n + 1) Ha ltac:(lia)) as H2.
  assert ((- n) mod a - 1 = (- (n + 1)) mod a); [|lia].
  apply Z.mod_unique with (q := (- n) / a); [left; lia|]. pose proof (Z.div_mod (- n) a). lia.
Qed.

Section writers.
Context {W : Type} {G : gguf_writer W} {throws : Prop} {L : writer_laws G throws}.
Implicit Types w : W.

(** [f] appends [bs]. *)
Definition appends (f : W -> res W) (bs : list Z) : Prop := forall w, gw_ok w -> yields throws (f w) (gw_app w bs).

Lemma appends_ret : appends (fun w => Ok w) [].
Proof. intros w Hw. left. by rewrite gw_app_nil. Qed.

Lemma appends_ext f g bs : (forall w, g w = f w) -> appends f bs -> appends g bs.
Proof. intros He Hf w Hw. rewrite He. by apply Hf. Qed.

Lemma appends_bind f g bs bs' : appends f bs -> appends g bs' -> appends (fun w => w ← f w; g w) (bs ++ bs').
Proof. intros Hf Hg w Hw. rewrite <- gw_app_app. eapply yields_bind; [by apply Hf|]. apply Hg. by apply gw_app_ok. Qed.

Lemma appends_mfor {A} (f : W -> A -> res W) (c : A -> list Z) l :
  (forall x, x ∈ l -> appends (fun w => f w x) (c x)) -> appends (fun w => mfor f l w) (concat (c <$> l)).
Proof.
  induction l as [|x l IH]; intros H; [apply appends_ret|]. cbn [mfor fmap list_fmap concat].
  apply (appends_bind (fun w => f w x)); [apply H; set_solver|]. apply IH. set_solver.
Qed.

Lemma appends_val bs : appends (fun w => write_val w bs) bs.
Proof.
  assert (concat ((fun b => [b]) <$> bs) = bs) as Hc.
  { induction bs as [|b bs IH]; [done|]. cbn. by f_equal. }
  intros w Hw. rewrite <- Hc at 2. revert w Hw. apply (appends_mfor gw_write_byte). intros b _ w Hw. by apply gw_byte_law.
Qed.

Lemma appends_string s : appends (fun w => write_string w s) (string_content s).
Proof. apply (appends_bind (fun w => write_u64 w _)); apply appends_val. Qed.

Lemma get_ne_ok kv : pair_ok kv -> get_ne kv = Ok (kv_count kv).
Proof.
  intros [_ [Hsc _] Hp]. unfold get_ne, kv_count in *.
  assert (forall z, (kv_is_array kv = false -> z = 1) -> assert_ (kv_is_array kv || (z =? 1)) = Ok tt) as Ha.
  { intros z Hz. destruct (kv_is_array kv); [done|]. by rewrite Hz. }
  destruct (kv_type kv =? GGUF_TYPE_STRING) eqn:E; [cbn; by rewrite Ha|].
  destruct Hp as [(Ht & _ & _ & Hl & _)|(Ht & _)]; [|by rewrite Ht in E]. pose proof (number_size _ Ht).
  unfold cmod. rewrite (proj2 (Z.eqb_neq _ _)) by lia. cbn. rewrite Hl at 1. rewrite Z.mod_mul by lia. cbn. by rewrite Ha.
Qed.

Lemma get_val_bool kv i b : kv_type kv = GGUF_TYPE_BOOL -> kv_data kv !! i = Some b -> get_val GGUF_TYPE_BOOL kv i = Ok [b].
Proof.
  intros E Hb. pose proof (lookup_lt_Some _ _ _ Hb) as Hi. unfold get_val, cmod. rewrite E, Z.eqb_refl, bool_size, Z.mod_1_r.
  cbn [assert_ mbind res_bind Z.eqb]. rewrite (proj2 (Z.leb_le _ _)) by lia. cbn [assert_ mbind res_bind Z.to_nat].
  change (Z.to_nat 1) with 1%nat. rewrite Nat.mul_1_r, (drop_S _ b) by done. done.
Qed.

Lemma appends_kv kv : pair_ok kv -> appends (fun w => write_kv w kv) (kv_content kv).
Proof.
  intros H. eapply appends_ext; [intros w; unfold write_kv; rewrite (get_ne_ok kv H); cbn [mbind res_bind]; reflexivity|].
  apply (appends_bind (fun w => write_string w _)); [apply appends_string|].
  eapply appends_bind.
  { destruct (kv_is_array kv); [|apply appends_val].
    apply (appends_bind (fun w => write_u32 w _)); [apply appends_val|].
    apply (appends_bind (fun w => write_u32 w _)); apply appends_val. }
  destruct H as [_ _ [(Ht & _ & Hb & Hl & H01)|(Ht & Hd & Hs)]].
  - pose proof (is_number_cases _ Ht) as Hc. rewrite (proj2 (Z.eqb_neq _ GGUF_TYPE_STRING)) by (unfold GGUF_TYPE_STRING; lia).
    rewrite Ht. destruct (kv_type kv =? GGUF_TYPE_BOOL) eqn:E; [|intros w Hw; by apply gw_bytes_law].
    apply Z.eqb_eq in E. rewrite E, bool_size, Z.mul_1_r in Hl. specialize (H01 E).
    assert (kv_data kv = concat ((fun i => [nth i (kv_data kv) 0]) <$> seq 0 (Z.to_nat (kv_count kv)))) as Heq.
    { rewrite <- Hl, Nat2Z.id. clear. generalize (kv_data kv). intros l. induction l as [|b l IH]; [done|].
      cbn [length seq fmap list_fmap concat nth app]. f_equal. rewrite <- seq_shift, <- list_fmap_compose. exact IH. }
    rewrite Heq. apply (appends_mfor (write_bool kv)). intros i Hi w Hw. apply elem_of_seq in Hi.
    destruct (lookup_lt_is_Some_2 (kv_data kv) i) as [b Hb']; [lia|].
    unfold write_bool. rewrite (get_val_bool kv i b E Hb'). cbn. rewrite (nth_lookup_Some _ _ _ _ Hb').
    rewrite Forall_forall in H01. destruct (H01 b) as [-> | ->]; [by eapply list_elem_of_lookup_2| |]; by apply gw_byte_law.
  - rewrite Ht. cbn. unfold kv_count. rewrite Ht. cbn. rewrite Nat2Z.id.
    assert (string_content <$> kv_data_string kv =
      (fun i => string_content (default [] (kv_data_string kv !! i))) <$> seq 0 (length (kv_data_string kv))) as ->.
    { generalize (kv_data_string kv). intros l. induction l as [|s l IH]; [done|].
      cbn [length seq fmap list_fmap lookup list_lookup default]. f_equal. rewrite <- seq_shift, <- list_fmap_compose. exact IH. }
    apply (appends_mfor (write_str kv)). intros i Hi w Hw. apply elem_of_seq in Hi. unfold write_str, get_val_string. rewrite Ht. cbn.
    destruct (lookup_lt_is_Some_2 (kv_data_string kv) i) as [s Hs']; [lia|]. rewrite Hs'.
    rewrite (proj2 (Nat.leb_le _ _)) by lia. cbn. rewrite (proj2 (vec_get_ok _ _ _) Hs'). by apply appends_string.
Qed.

Lemma appends_info ti : appends (fun w => write_tensor_meta w ti) (info_content ti).
Proof.
  unfold write_tensor_meta, info_content.
  apply (appends_bind (fun w => write_string w _)); [apply appends_string|].
  apply (appends_bind (fun w => write_u32 w _)); [apply appends_val|].
  apply (appends_bind (fun w => mfor write_u64 _ w)); [apply (appends_mfor write_u64); intros; apply appends_val|].
  apply (appends_bind (fun w => write_u32 w _)); apply appends_val.
Qed.

(** The loop ends within [alignment] steps. *)
Lemma pad_ok a w : pow2 a -> gw_written w + a <= 2 ^ 64 -> gw_ok w -> yields throws (pad a w) (gw_app w (padding a (gw_written w))).
Proof.
  intros Ha Hmax Hw. pose proof (gw_written_range w Hw) as Hr. destruct (pad_range a (gw_written w) Ha (proj1 Hr)) as [Hp _].
  assert (forall fuel w, gw_ok w -> GGML_PAD (gw_written w) a < 2 ^ 64 ->
    (Z.to_nat (GGML_PAD (gw_written w) a - gw_written w) <= fuel)%nat ->
    yields throws (pad_loop fuel a w) (gw_app w (padding a (gw_written w)))) as Hgen; [|apply Hgen; [done|lia|lia]].
  clear w Hmax Hw Hr Hp. pose proof (pow2_pos a Ha) as Hpos. intros fuel. induction fuel as [|fuel IH]; intros w Hw Hlt Hf.
  all: pose proof (gw_written_range w Hw) as Hr; destruct (pad_range a (gw_written w) Ha (proj1 Hr)) as [Hp Hm].
  all: cbn [pad_loop]; unfold cmod; rewrite (proj2 (Z.eqb_neq a 0)) by lia; cbn [mbind res_bind].
  all: destruct (gw_written w mod a =? 0) eqn:E;
    [apply Z.eqb_eq in E; unfold padding; rewrite (pad_of_multiple a _ Ha), Z.sub_diag by (done || lia); left; by rewrite gw_app_nil|].
  all: apply Z.eqb_neq in E; assert (GGML_PAD (gw_written w) a <> gw_written w) as Hne by (intros Heq; by rewrite Heq in Hm).
  { lia. }
  assert (gw_written (gw_app w [0]) = gw_written w + 1) as Hs.
  { rewrite gw_written_app by done. apply Z.mod_small. cbn. lia. }
  pose proof (pad_succ a (gw_written w) Ha (proj1 Hr) Hne) as Hsucc. eapply yields_bind; [by apply gw_byte_law|].
  assert (padding a (gw_written w) = [0] ++ padding a (gw_written w + 1)) as ->.
  { unfold padding. rewrite Hsucc. replace (Z.to_nat (GGML_PAD (gw_written w) a - gw_written w)) with (S (Z.to_nat (GGML_PAD (gw_written w) a - (gw_written w + 1)))) by lia. done. }
  rewrite <- gw_app_app, <- Hs. apply IH; [by apply gw_app_ok| |]; rewrite Hs, Hsucc; lia.
Qed.

Lemma appends_header c : appends (write_header c) (header_content c).
Proof.
  apply (appends_bind (fun w => write_val w _)); [apply appends_val|].
  apply (appends_bind (fun w => write_u32 w _)); [apply appends_val|].
  apply (appends_bind (fun w => write_u64 w _)); apply appends_val.
Qed.

(** Everything before the padding of the data section. *)
Lemma write_meta_ok c (k : W -> res W) w w' : Forall pair_ok (gf_kv c) -> gw_ok w ->
  yields throws (k (gw_app w (meta_content c))) w' ->
  yields throws (w ← write_header c w; w ← mfor write_kv (gf_kv c) w; w ← mfor write_tensor_meta (gf_info c) w; k w) w'.
Proof.
  intros Hk Hw Hr. rewrite Forall_forall in Hk. unfold meta_content in Hr. rewrite <- !gw_app_app in Hr.
  eapply yields_bind; [by apply appends_header|].
  eapply yields_bind; [apply (appends_mfor write_kv kv_content); [intros; by apply appends_kv, Hk|by apply gw_app_ok]|].
  eapply yields_bind; [apply (appends_mfor write_tensor_meta info_content); [intros; apply appends_info|by do 2 apply gw_app_ok]|].
  exact Hr.
Qed.
End writers.

(** ** The data section *)

(** The law of [write_tensor_data]: the tensor must start at its offset. *)
Class data_law {W} (G : gguf_writer W) (throws : Prop) (L : writer_laws G throws) :=
  gw_data_law : forall w ti offset_data alignment bs,
    gw_ok w -> tensor_bytes (ti_t ti) = Ok bs -> pow2 alignment ->
    gw_written w + Z.of_nat (length bs) + alignment <= 2 ^ 64 ->
    usize (gw_written w - offset_data) = ti_offset ti ->
    yields throws (gw_write_tensor_data w ti offset_data alignment)
      (gw_app w (bs ++ padding alignment (gw_written w + Z.of_nat (length bs)))).

(** The contents of the tensors. *)
Definition contents_of (infos : list gguf_tensor_info) (bss : list (list Z)) : Prop :=
  Forall2 (fun ti bs => tensor_bytes (ti_t ti) = Ok bs) infos bss.

Definition data_content (alignment : Z) (bss : list (list Z)) : list Z := concat (padded_content alignment <$> bss).

Lemma length_padded a bs : pow2 a -> Z.of_nat (length (padded_content a bs)) = GGML_PAD (Z.of_nat (length bs)) a.
Proof.
  intros Ha. unfold padded_content, padding. rewrite length_app, length_replicate.
  destruct (pad_range a (Z.of_nat (length bs)) Ha); lia.
Qed.

Lemma add_rows_nonneg l p n : 0 <= foldl add_rows n (p :: l).
Proof.
  revert p n. induction l as [|q l IH]; intros p n; [|apply (IH q (add_rows n p))].
  apply Z.mod_pos_bound. lia.
Qed.

Lemma nbytes_nonneg t n : ggml_nbytes t = Ok n -> 0 <= n.
Proof.
  unfold ggml_nbytes. destruct (existsb _ _); [by intros [= <-]|]. intros H. res_inv.
  destruct (v =? 1); res_inv; apply (add_rows_nonneg [_; _; _]) || apply (add_rows_nonneg [_; _]).
Qed.

Lemma tensor_bytes_length t bs : tensor_bytes t = Ok bs -> ggml_nbytes t = Ok (Z.of_nat (length bs)).
Proof.
  unfold tensor_bytes. intros H. res_inv. destruct (v1 <=? _) eqn:E1; [|done]. apply Z.leb_le in E1. injection H as <-.
  pose proof (nbytes_nonneg _ _ H2). rewrite length_take. rewrite H2. f_equal. lia.
Qed.

Lemma data_ok {W} (G : gguf_writer W) throws (L : writer_laws G throws) (D : data_law G throws L) a off infos bss s e w :
  pow2 a -> contents_of infos bss -> mfor (size_step a) infos (Some s) = Ok (Some e) -> gw_ok w ->
  0 <= off -> 0 <= s -> off mod a = 0 -> s mod a = 0 -> gw_written w = off + s ->
  off + s + Z.of_nat (length (data_content a bss)) + a <= 2 ^ 64 ->
  yields throws (mfor (fun w ti => gw_write_tensor_data w ti off a) infos w) (gw_app w (data_content a bss)) /\
  e = s + Z.of_nat (length (data_content a bss)).
Proof.
  intros Ha Hc. revert s w. induction Hc as [|ti bs infos bss Hb Hc IH]; intros s w Hsz Hw Hoff Hs Hom Hsm Hwr Hlen.
  { cbn in *. split; [left; by rewrite gw_app_nil|]. injection Hsz as ->. lia. }
  pose proof (pow2_pos a Ha) as Hpos. cbn [mfor size_step] in Hsz. unfold data_content in *. cbn [fmap list_fmap concat] in *.
  rewrite length_app, Nat2Z.inj_add, (length_padded a bs Ha) in Hlen |- *.
  destruct (pad_range a (Z.of_nat (length bs)) Ha ltac:(lia)) as [Hpad Hpm].
  destruct (ti_offset ti =? s) eqn:Eo; cbn [negb] in Hsz.
  2:{ exfalso. clear -Hsz. cbn in Hsz. revert Hsz. generalize infos. intros l. induction l; cbn; [done|done]. }
  apply Z.eqb_eq in Eo. rewrite (tensor_bytes_length _ _ Hb) in Hsz. cbn [mbind res_bind] in Hsz.
  assert (usize (GGML_PAD (Z.of_nat (length bs)) a) = GGML_PAD (Z.of_nat (length bs)) a) as Hu by (apply Z.mod_small; lia).
  rewrite Hu, (proj2 (Z.ltb_ge _ _)) in Hsz by (unfold SIZE_MAX; lia). cbn [mbind res_bind] in Hsz.
  cbn [mfor]. rewrite <- gw_app_app.
  assert (padded_content a bs = bs ++ padding a (gw_written w + Z.of_nat (length bs))) as Hpc.
  { unfold padded_content, padding. do 3 f_equal. rewrite Hwr, (pad_shift a (Z.of_nat (length bs)) (off + s)); [lia|done|lia|lia|].
    rewrite Z.add_mod, Hom, Hsm by lia. done. }
  destruct (IH (s + GGML_PAD (Z.of_nat (length bs)) a) (gw_app w (padded_content a bs))) as [IH1 IH2]; try done.
  - by apply gw_app_ok.
  - lia.
  - rewrite Z.add_mod, Hsm, Hpm by lia. done.
  - rewrite gw_written_app, length_padded, Hwr by done. unfold usize. rewrite Z.mod_small by lia. lia.
  - lia.
  - split; [|lia]. eapply yields_bind; [|exact IH1]. rewrite Hpc. apply gw_data_law; try done.
    + rewrite Hwr. lia.
    + rewrite Hwr, Eo. replace (off + s - off) with s by lia. apply Z.mod_small. lia.
Qed.

(** ** The whole file *)

Definition file_content (c : gguf_context) (bss : list (list Z)) (only_meta : bool) : list Z :=
  padded_content (gf_alignment c) (meta_content c) ++ (if only_meta then [] else data_content (gf_alignment c) bss).

Lemma write_out_ok {W} (G : gguf_writer W) throws (L : writer_laws G throws) (D : data_law G throws L) c size bss only_meta w :
  gguf_ok c size -> (only_meta = false -> contents_of (gf_info c) bss) -> gw_ok w -> gw_written w = 0 ->
  Z.of_nat (length (file_content c bss only_meta)) + gf_alignment c <= 2 ^ 64 ->
  yields throws (gguf_write_out c w only_meta) (gw_app w (file_content c bss only_meta)) /\
  (only_meta = false -> size = Z.of_nat (length (data_content (gf_alignment c) bss))).
Proof.
  intros Hok Hc Hw Hw0 Hlen. destruct (go_alignment _ _ Hok) as (_ & Ha & _). set (a := gf_alignment c) in *.
  unfold file_content in *. fold a in Hlen |- *. set (m := meta_content c) in *.
  rewrite length_app, Nat2Z.inj_add, length_padded in Hlen by done. destruct (pad_range a (Z.of_nat (length m)) Ha ltac:(lia)) as [Hp Hpm].
  pose proof (pow2_pos a Ha) as Hpos.
  set (k := fun w : W => w ← pad a w; if only_meta then Ok w else mfor (fun gw ti => gw_write_tensor_data gw ti (gw_written w) a) (gf_info c) w).
  assert (gw_written (gw_app w m) = Z.of_nat (length m)) as Hwm.
  { rewrite gw_written_app, Hw0 by done. apply Z.mod_small. lia. }
  assert (gw_written (gw_app w (padded_content a m)) = GGML_PAD (Z.of_nat (length m)) a) as Hwp.
  { rewrite gw_written_app, Hw0, length_padded by done. apply Z.mod_small. lia. }
  assert (yields throws (pad a (gw_app w m)) (gw_app w (padded_content a m))) as Hpad.
  { unfold padded_content. rewrite <- Hwm, <- gw_app_app. apply pad_ok; [done|rewrite Hwm; lia|by apply gw_app_ok]. }
  assert (yields throws (k (gw_app w m)) (gw_app w (padded_content a m ++ (if only_meta then [] else data_content a bss))) /\
    (only_meta = false -> size = Z.of_nat (length (data_content a bss)))) as [Hk Hsize].
  { destruct only_meta; [split; [|done]; eapply yields_bind; [exact Hpad|]; left; by rewrite app_nil_r|].
    destruct (data_ok G throws L D a (GGML_PAD (Z.of_nat (length m)) a) (gf_info c) bss 0 size (gw_app w (padded_content a m))) as [H1 H2]; try done.
    - by apply Hc. - apply Hok. - by apply gw_app_ok. - lia. - lia. - lia.
    - split; [|lia]. eapply yields_bind; [exact Hpad|]. rewrite <- gw_app_app, Hwp. exact H1. }
  split; [|done]. unfold gguf_write_out. apply (write_meta_ok c k); [apply Hok|done|exact Hk].
Qed.

(** ** The two writers *)

Lemma usize_app z x y : usize (usize (z + x) + y) = usize (z + (x + y)).
Proof. unfold usize. rewrite Zplus_mod_idemp_l. f_equal. lia. Qed.

Lemma usize_range z : 0 <= usize z < 2 ^ 64.
Proof. apply Z.mod_pos_bound. lia. Qed.

Definition wbuf_app (w : gguf_writer_buf) (bs : list Z) : gguf_writer_buf :=
  mk_wbuf (wb_buf w ++ bs) (usize (wb_written_bytes w + Z.of_nat (length bs))).

Lemma wbuf_app_app w bs bs' : wbuf_app (wbuf_app w bs) bs' = wbuf_app w (bs ++ bs').
Proof. unfold wbuf_app. cbn. by rewrite usize_app, <- app_assoc, length_app, Nat2Z.inj_add. Qed.

(** [written_bytes] counts the bytes of the buffer, which was empty. *)
#[export] Instance wbuf_laws td : writer_laws (wbuf_with td) False.
Proof.
  refine (Build_writer_laws _ (wbuf_with td) False (fun w => wb_written_bytes w = usize (Z.of_nat (length (wb_buf w)))) wbuf_app _ _ _ _ _ _ _).
  - intros [l n] bs Hw. cbn in *. rewrite Hw, length_app, Nat2Z.inj_add. by rewrite <- (Z.add_0_l (Z.of_nat (length l))), usize_app.
  - intros [l n] Hw. cbn in *. unfold wbuf_app. cbn. rewrite app_nil_r, Hw. f_equal. rewrite <- (Z.add_0_l (Z.of_nat (length l))), usize_app. f_equal. lia.
  - apply wbuf_app_app.
  - intros w Hw. cbn in *. rewrite Hw. apply usize_range.
  - done.
  - intros w b Hw. by left.
  - intros w bs Hw. by left.
Defined.

#[export] Instance wbuf_data_law : data_law wbuf_writer False (wbuf_laws _).
Proof.
  intros w ti off a bs Hw Hb Ha Hle Ho. cbn in Hw, Hle, Ho. cbn [gw_write_tensor_data wbuf_writer wbuf_with].
  unfold wbuf_write_tensor_data.
  assert (usize (Z.of_nat (length (wb_buf w)) - off) = ti_offset ti) as ->.
  { rewrite <- Ho, Hw. unfold usize. by rewrite Zminus_mod_idemp_l. }
  rewrite Z.eqb_refl, Hb. cbn [assert_ mbind res_bind wbuf_write_bytes].
  pose proof (gw_written_range (writer_laws := wbuf_laws wbuf_write_tensor_data) w Hw) as Hr. cbn in Hr.
  set (L := wbuf_laws (fun w _ _ _ => Ok w)).
  assert (wb_written_bytes (wbuf_app w bs) = wb_written_bytes w + Z.of_nat (length bs)) as Hwr.
  { pose proof (pow2_pos a Ha). cbn. apply Z.mod_small. lia. }
  change (yields False (wbuf_pad a (wbuf_app w bs)) (wbuf_app w (bs ++ padding a (wb_written_bytes w + Z.of_nat (length bs))))).
  rewrite <- Hwr, <- wbuf_app_app.
  apply (pad_ok (L := L) a (wbuf_app w bs)); [done|cbn [gw_written wbuf_with]; lia|]. by apply (gw_app_ok (writer_laws := L)).
Qed.

Lemma write_to_buf_ok c size bss only_meta :
  gguf_ok c size -> (only_meta = false -> contents_of (gf_info c) bss) ->
  Z.of_nat (length (file_content c bss only_meta)) + gf_alignment c <= 2 ^ 64 ->
  gguf_write_to_buf c [] only_meta = Ok (file_content c bss only_meta) /\
  (only_meta = false -> size = Z.of_nat (length (data_content (gf_alignment c) bss))).
Proof.
  intros Hok Hc Hlen. assert (gw_ok (writer_laws := wbuf_laws wbuf_write_tensor_data) (mk_wbuf [] 0)) as Hw by done.
  destruct (write_out_ok wbuf_writer False _ _ c size bss only_meta (mk_wbuf [] 0) Hok Hc Hw eq_refl Hlen) as [[H|[[] _]] Hs].
  split; [|done]. unfold gguf_write_to_buf. by rewrite H.
Qed.

Section file.
Context (fwrite_count : list Z -> list Z -> Z).

Definition wfile_app (w : gguf_writer_file) (bs : list Z) : gguf_writer_file :=
  mk_wfile (wf_content w ++ bs) (usize (wf_written_bytes w + Z.of_nat (length bs))).

Lemma wfile_app_app w bs bs' : wfile_app (wfile_app w bs) bs' = wfile_app w (bs ++ bs').
Proof. unfold wfile_app. cbn. by rewrite usize_app, <- app_assoc, length_app, Nat2Z.inj_add. Qed.

#[local] Instance wfile_laws td : writer_laws (wfile_with fwrite_count td) True.
Proof.
  refine (Build_writer_laws _ (wfile_with fwrite_count td) True (fun w => 0 <= wf_written_bytes w < 2 ^ 64) wfile_app _ _ _ _ _ _ _).
  - intros w bs _. apply usize_range.
  - intros [l n] Hw. cbn in *. unfold wfile_app. cbn. rewrite app_nil_r, Z.add_0_r. f_equal. by apply Z.mod_small.
  - apply wfile_app_app.
  - done.
  - done.
  - intros w b Hw. cbn. unfold wfile_write_byte. destruct (_ =? 1); [by left|by right].
  - intros w bs Hw. cbn. unfold wfile_write_bytes. destruct (_ =? _); [by left|by right].
Defined.

#[local] Instance wfile_data_law : data_law (wfile_writer fwrite_count) True (wfile_laws _).
Proof.
  intros w ti off a bs Hw Hb Ha Hle Ho. cbn in Hw, Hle, Ho. cbn [gw_write_tensor_data wfile_writer wfile_with].
  unfold wfile_write_tensor_data. rewrite Ho, Z.eqb_refl, Hb. cbn [assert_ mbind res_bind].
  set (L := wfile_laws (fun w _ _ _ => Ok w)).
  assert (wf_written_bytes (wfile_app w bs) = wf_written_bytes w + Z.of_nat (length bs)) as Hwr.
  { pose proof (pow2_pos a Ha). cbn. apply Z.mod_small. lia. }
  change (yields True (w ← wfile_write_bytes fwrite_count w bs; wfile_pad fwrite_count a w)
    (wfile_app w (bs ++ padding a (wf_written_bytes w + Z.of_nat (length bs))))).
  rewrite <- Hwr, <- wfile_app_app.
  eapply yields_bind; [by apply (gw_bytes_law (writer_laws := L))|].
  apply (pad_ok (L := L) a (wfile_app w bs)); [done|cbn [gw_written wfile_with]; lia|]. by apply (gw_app_ok (writer_laws := L)).
Qed.

(** The same bytes reach the file, or the function returns [false]. *)
Lemma write_to_file_ok c size bss only_meta content :
  gguf_ok c size -> (only_meta = false -> contents_of (gf_info c) bss) ->
  Z.of_nat (length (file_content c bss only_meta)) + gf_alignment c <= 2 ^ 64 ->
  gguf_write_to_file_ptr fwrite_count c content only_meta = Ok (Some (content ++ file_content c bss only_meta)) \/
  gguf_write_to_file_ptr fwrite_count c content only_meta = Ok None.
Proof.
  intros Hok Hc Hlen. assert (gw_ok (writer_laws := wfile_laws (wfile_write_tensor_data fwrite_count)) (mk_wfile content 0)) as Hw by (cbn; lia).
  destruct (write_out_ok (wfile_writer fwrite_count) True _ _ c size bss only_meta (mk_wfile content 0) Hok Hc Hw eq_refl Hlen) as [[H|[_ H]] _];
    unfold gguf_write_to_file_ptr; rewrite H; [by left|by right].
Qed.
End file.
