(* ===== verification/GgufProps.v ===== *)
(** * Model files: what is read back, and that every file can be read safely *)

From S2P Require Import Prelude IoBytes GgmlTypes Gguf GgufRead GgufWrite GgufTheory GgufStore.

(** ** Powers of two *)

Lemma pow2_land n : pow2 n -> Z.land n (n - 1) = 0.
Proof.
  intros (m & Hm & ->). replace (2 ^ m - 1) with (Z.ones m) by (rewrite Z.ones_equiv; lia).
  rewrite Z.land_ones by done. apply Z.mod_same. pose proof (Z.pow_pos_nonneg 2 m). lia.
Qed.

Lemma land_pow2 n : 0 < n -> Z.land n (n - 1) = 0 -> pow2 n.
Proof.
  intros Hn H. exists (Z.log2 n). pose proof (Z.log2_nonneg n). split; [done|]. destruct (Z.log2_spec n Hn) as [Hlo Hhi].
  destruct (decide (n = 2 ^ Z.log2 n)) as [|Hne]; [done|]. exfalso.
  assert (Z.testbit (Z.land n (n - 1)) (Z.log2 n) = true) as Hb; [|by rewrite H, Z.bits_0 in Hb].
  rewrite Z.land_spec, Z.bit_log2 by done. cbn. replace (Z.log2 n) with (Z.log2 (n - 1)); [apply Z.bit_log2; pose proof (Z.pow_pos_nonneg 2 (Z.log2 n)); lia|].
  apply Z.log2_unique; [done|]. lia.
Qed.

(** ** A stored context is read back *)

Lemma rd_run {A B} (m : rdm A) (k : A -> rdm B) bs a pos rest remain :
  rd_reads m bs a -> Z.of_nat (length bs + length rest) <= remain ->
  rd_bind m k (mk_reader pos (bs ++ rest) remain) = k a (mk_reader (pos + Z.of_nat (length bs)) rest (remain - Z.of_nat (length bs))).
Proof. intros H Hl. unfold rd_bind. by rewrite H. Qed.

(** A step that does not read. *)
Lemma rd_run_lift {A B} (m : res A) (k : A -> rdm B) a gr : m = Ok a -> rd_bind (rd_lift m) k gr = k a gr.
Proof. intros ->. done. Qed.

Lemma rd_run_accept {B} (b : bool) (k : unit -> rdm B) gr : b = false -> rd_bind (reject_if b) k gr = k tt gr.
Proof. intros ->. done. Qed.

Lemma rd_reads_magic : rd_reads read_magic GGUF_MAGIC tt.
Proof.
  unfold read_magic. apply (rd_reads_fmap _ _ _ [[71]; [71]; [85]; [70]]); [|by apply rd_reads_accept].
  apply (rd_reads_vector 1 _ id [[71]; [71]; [85]; [70]]); [lia|cbv; done|]. intros x Hx. unfold id.
  split; [|set_unfold in Hx; by destruct_or! Hx; subst; cbn].
  apply rd_reads_val; [done| |done]. set_unfold in Hx. by destruct_or! Hx; subst.
Qed.

Lemma rd_reads_version v : 2 <= v <= GGUF_VERSION -> rd_reads read_version (le 4 v) v.
Proof.
  unfold GGUF_VERSION. intros Hv. eapply rd_reads_fmap; [apply rd_reads_u32; lia|].
  assert (v = 2 \/ v = 3) as [-> | ->] by lia; do 4 (eapply rd_reads_skip; [by apply rd_reads_accept|]); apply rd_reads_ret.
Qed.

Lemma rd_reads_count sizeof n : 2 < sizeof -> 0 <= n <= SIZE_MAX / sizeof -> rd_reads (read_count sizeof) (le 8 n) n.
Proof.
  intros Hs Hn. assert (SIZE_MAX / sizeof <= INT64_MAX) as Hm.
  { apply Z.div_le_upper_bound; [lia|]. unfold SIZE_MAX, INT64_MAX. lia. }
  eapply rd_reads_fmap; [apply rd_reads_i64; lia|]. eapply rd_reads_skip; [|apply rd_reads_ret].
  apply rd_reads_accept. rewrite s64_small by lia. lia.
Qed.

(** What a context becomes when it is stored and read. *)
Definition as_read (c : gguf_context) (size : Z) (data : option (list Z)) : gguf_context :=
  mk_gguf (gf_version c) (gf_kv c) (without_data <$> gf_info c) (gf_alignment c)
    (GGML_PAD (Z.of_nat (length (meta_content c))) (gf_alignment c)) size data.

Lemma sizes_without_data a infos s : mfor (size_step a) (without_data <$> infos) s = mfor (size_step a) infos s.
Proof. revert s. induction infos as [|ti infos IH]; intros s; [done|]. cbn [fmap list_fmap mfor]. destruct s as [s|]; [|apply IH]. cbn.
  destruct (ti_offset ti =? s); [|apply IH]. cbn. change (ggml_nbytes (mk_gg _ _ _ _ None)) with (ggml_nbytes (ti_t ti)).
  destruct (ggml_nbytes (ti_t ti)) as [n|]; [|done]. cbn. destruct (_ <? _); apply IH. Qed.

Lemma string_content_length s : (8 <= length (string_content s))%nat.
Proof. unfold string_content. rewrite length_app, length_le. lia. Qed.

(** Every pair and every tensor takes bytes, so the fuel is enough. *)
Lemma length_concat_ge {A} (f : A -> list Z) l : (forall x, 1 <= length (f x))%nat -> (length l <= length (concat (f <$> l)))%nat.
Proof. intros H. induction l as [|x l IH]; cbn; [lia|]. rewrite length_app. specialize (H x). lia. Qed.

(** The parts of a context, read from their bytes. *)
Definition parts_content (c : gguf_context) : list Z :=
  concat (kv_content <$> gf_kv c) ++ concat (info_content <$> gf_info c).

Lemma meta_parts c : meta_content c = header_content c ++ parts_content c.
Proof. done. Qed.

Lemma kv_content_length kv : (1 <= length (kv_content kv))%nat.
Proof. unfold kv_content. rewrite length_app. pose proof (string_content_length (kv_key kv)). lia. Qed.

Lemma info_content_length ti : (1 <= length (info_content ti))%nat.
Proof. unfold info_content. rewrite length_app. pose proof (string_content_length (gg_name (ti_t ti))). lia. Qed.

Lemma parts_length c : (length (gf_kv c) <= length (parts_content c))%nat /\ (length (gf_info c) <= length (parts_content c))%nat.
Proof.
  unfold parts_content. rewrite length_app. pose proof (length_concat_ge kv_content (gf_kv c) kv_content_length).
  pose proof (length_concat_ge info_content (gf_info c) info_content_length). lia.
Qed.

Lemma seek_ok a pos tail remain : pow2 a -> 0 <= pos -> pos + a <= INT64_MAX ->
  seek_data a (mk_reader pos tail remain) = Ok (Some (GGML_PAD pos a, mk_reader (GGML_PAD pos a) (drop (Z.to_nat (GGML_PAD pos a - pos)) tail) remain)).
Proof.
  intros Ha Hp Hm. unfold INT64_MAX in Hm. destruct (pad_range a pos Ha Hp) as [Hr _]. unfold seek_data. cbn [rd_pos rd_rest rd_remain].
  unfold usize. rewrite Z.mod_small by lia. by rewrite (proj2 (Z.ltb_ge _ _)) by (unfold INT64_MAX; lia).
Qed.

Lemma rd_reads_kvs c size fuel : gguf_ok c size -> (length (gf_kv c) <= fuel)%nat ->
  rd_reads (read_list fuel read_kv (gguf_get_n_kv c) []) (concat (kv_content <$> gf_kv c)) (gf_kv c).
Proof.
  intros Hok Hf. pose proof (go_kvs _ _ Hok) as Hk. rewrite Forall_forall in Hk.
  pose proof (rd_reads_list read_kv kv_content id kv_key fuel (gf_kv c) []) as Hr. rewrite list_fmap_id in Hr. apply Hr; [|done| |lia].
  - intros kv d Hin Hnew. apply rd_reads_kv; [by apply Hk|done].
  - exact (go_keys _ _ Hok).
Qed.

Lemma rd_reads_infos c size fuel : gguf_ok c size -> (length (gf_info c) <= fuel)%nat ->
  rd_reads (read_list fuel read_tensor_info (gguf_get_n_tensors c) []) (concat (info_content <$> gf_info c)) (without_data <$> gf_info c).
Proof.
  intros Hok Hf. pose proof (go_infos _ _ Hok) as Hk. rewrite Forall_forall in Hk.
  apply (rd_reads_list read_tensor_info info_content without_data (fun ti => gg_name (ti_t ti)) fuel (gf_info c) []); [|done| |lia].
  - intros ti d Hti Hnew. apply rd_reads_info; [by apply Hk|done].
  - exact (go_names _ _ Hok).
Qed.

(** The alignment is a power of two, so it is not rejected. *)
Lemma alignment_accepted a : pow2 a -> (a =? 0) || negb (Z.land a (a - 1) =? 0) = false.
Proof. intros Ha. pose proof (pow2_pos a Ha). rewrite pow2_land by done. rewrite (proj2 (Z.eqb_neq _ _)) by lia. done. Qed.

Lemma read_body_ok c size tail pos remain fuel (n := Z.of_nat (length (parts_content c))) (offset := GGML_PAD (pos + n) (gf_alignment c)) :
  gguf_ok c size -> n + Z.of_nat (length tail) <= remain -> (length (parts_content c) <= fuel)%nat ->
  0 <= pos -> pos + n + gf_alignment c <= INT64_MAX ->
  read_body (gf_version c) (gguf_get_n_tensors c) (gguf_get_n_kv c) fuel (mk_reader pos (parts_content c ++ tail) remain) =
  Ok (Some (mk_gguf (gf_version c) (gf_kv c) (without_data <$> gf_info c) (gf_alignment c) offset size None,
            mk_reader offset (drop (Z.to_nat (offset - (pos + n))) tail) (remain - n))).
Proof.
  intros Hok Hrem Hfuel Hpos Hmax. pose proof (parts_length c) as [Hl1 Hl2]. destruct (go_alignment _ _ Hok) as (Hal & Ha & _).
  pose proof (rd_reads_kvs c size fuel Hok ltac:(lia)) as Hkv. pose proof (rd_reads_infos c size fuel Hok ltac:(lia)) as Hin.
  unfold read_body, parts_content in *. set (kb := concat (kv_content <$> gf_kv c)) in *. set (ib := concat (info_content <$> gf_info c)) in *.
  assert (n = Z.of_nat (length kb) + Z.of_nat (length ib)) as Hn by (subst n; unfold parts_content; rewrite length_app; subst kb ib; lia).
  rewrite <- app_assoc. clearbody n. rewrite (rd_run _ _ _ _ _ _ _ Hkv) by (rewrite !length_app; lia). cbv beta.
  rewrite (rd_run_lift _ _ tt) by (by rewrite Z.eqb_refl). cbv zeta.
  rewrite (rd_run_lift _ _ (gf_alignment c)) by exact Hal. rewrite rd_run_accept by (by apply alignment_accepted).
  rewrite (rd_run _ _ _ _ _ _ _ Hin) by lia. cbv beta. rewrite (rd_run_lift _ _ tt) by (rewrite length_fmap; by rewrite Z.eqb_refl).
  unfold rd_bind at 1. replace (pos + Z.of_nat (length kb) + Z.of_nat (length ib)) with (pos + n) by lia.
  rewrite seek_ok by (done || lia). fold offset. cbn [mbind res_bind].
  rewrite (rd_run_lift _ _ (Some size)) by (rewrite sizes_without_data; apply Hok).
  unfold rd_ret. do 4 f_equal. lia.
Qed.

(** ** Loading the tensors *)

Lemma new_object_ok pool n : 0 <= n -> n mod GGML_MEM_ALIGN = 0 -> 0 <= gc_cur_end pool ->
  gc_cur_end pool + n + GGML_OBJECT_SIZE <= gc_mem_size pool -> gc_mem_size pool < 2 ^ 63 ->
  forall size, 0 <= size -> GGML_PAD size GGML_MEM_ALIGN = n -> 
  ggml_new_object pool size = Ok (Some (mk_pool (gc_mem_size pool) (gc_cur_end pool + GGML_OBJECT_SIZE + n) (gc_no_alloc pool))).
Proof.
  unfold GGML_OBJECT_SIZE. intros Hn Hm Hc Hle Hlt size Hs Hp. destruct (pad_range 16 size) as [Hr _]; [by exists 4|done|].
  unfold ggml_new_object. rewrite Hp in *. rewrite (proj2 (Z.leb_le _ _)) by (unfold SIZE_MAX, GGML_MEM_ALIGN in *; lia). cbn [assert_ mbind res_bind].
  rewrite !(proj2 (Z.ltb_ge _ _)) by (unfold SIZE_MAX, GGML_OBJECT_SIZE; lia). done.
Qed.

Lemma create_tensor_ok na pool ts ti :
  info_ok ti -> gc_no_alloc pool = true -> 0 <= gc_cur_end pool ->
  gc_cur_end pool + ggml_tensor_overhead <= gc_mem_size pool -> gc_mem_size pool < 2 ^ 63 ->
  create_tensor na (pool, ts) (without_data ti) =
  Ok (mk_pool (gc_mem_size pool) (gc_cur_end pool + ggml_tensor_overhead) true,
      ts ++ [(ti_t (without_data ti), if na then None else Some (ti_offset ti))]).
Proof.
  intros (Hnm & Hs & (size & blck & Hr & Hsz & Hbl & Hs0 & Hb0 & _ & _ & Hnb) & _) Hna Hc Hle Hlt.
  unfold ggml_tensor_overhead, GGML_OBJECT_SIZE, GGML_TENSOR_SIZE in Hle |- *.
  unfold create_tensor, ggml_new_tensor, ggml_row_size, cdiv. cbn [without_data ti_t gg_type gg_ne ti_offset gg_name gg_nb].
  rewrite (proj2 (Z.leb_le _ _)), (proj2 (Z.ltb_lt _ _)) by lia. cbn [andb assert_ mbind res_bind].
  rewrite Hsz, Hbl. cbn [mbind res_bind]. rewrite (proj2 (Z.eqb_neq _ _)) by lia. cbn [mbind res_bind]. rewrite Hna.
  change (GGML_TENSOR_SIZE <=? SIZE_MAX - 0) with true. cbn [assert_ mbind res_bind]. rewrite Z.add_0_r.
  rewrite (new_object_ok pool 336); [|lia|done|done|unfold GGML_OBJECT_SIZE; lia|done|done|done].
  cbn [mbind res_bind of_option gc_mem_size gc_cur_end gc_no_alloc]. rewrite Hnb. cbn [mbind res_bind].
  rewrite Hna. unfold ggml_set_name. cbn [gg_name gg_type gg_ne gg_nb gg_data].
  destruct Hnm as (_ & H0 & Hl). rewrite c_str_id by done. rewrite take_ge by (unfold GGML_MAX_NAME in *; lia).
  do 3 f_equal. unfold GGML_OBJECT_SIZE. lia.
Qed.

Lemma create_tensors_ok na infos pool ts :
  Forall info_ok infos -> gc_no_alloc pool = true -> 0 <= gc_cur_end pool ->
  gc_cur_end pool + Z.of_nat (length infos) * ggml_tensor_overhead <= gc_mem_size pool -> gc_mem_size pool < 2 ^ 63 ->
  exists pool', mfor (create_tensor na) (without_data <$> infos) (pool, ts) =
    Ok (pool', ts ++ ((fun ti => (ti_t (without_data ti), if na then None else Some (ti_offset ti))) <$> infos)).
Proof.
  intros Hf. revert pool ts. induction Hf as [|ti infos Hti Hf IH]; intros pool ts Hna Hc Hle Hlt.
  { exists pool. cbn. by rewrite app_nil_r. }
  assert (0 <= ggml_tensor_overhead) by done. cbn [fmap list_fmap mfor length] in *.
  rewrite create_tensor_ok by (done || nia). cbn [mbind res_bind].
  destruct (IH (mk_pool (gc_mem_size pool) (gc_cur_end pool + ggml_tensor_overhead) true)
    (ts ++ [(ti_t (without_data ti), if na then None else Some (ti_offset ti))])) as (pool' & ->); [done|cbn; lia|cbn; lia|done|].
  exists pool'. by rewrite <- app_assoc.
Qed.

(** Each tensor lies at its offset in the data section. *)
Lemma data_slices a infos bss s e : pow2 a -> contents_of infos bss -> mfor (size_step a) infos (Some s) = Ok (Some e) -> 0 <= s ->
  s + Z.of_nat (length (data_content a bss)) < 2 ^ 64 ->
  forall i ti bs, infos !! i = Some ti -> bss !! i = Some bs ->
  s <= ti_offset ti /\ take (length bs) (drop (Z.to_nat (ti_offset ti - s)) (data_content a bss)) = bs.
Proof.
  intros Ha Hc. revert s. induction Hc as [|ti bs infos bss Hb Hc IH]; intros s Hsz Hs Hlen i ti' bs' Hi Hbi; [by destruct i|].
  unfold data_content in *. cbn [fmap list_fmap concat mfor size_step] in *. rewrite length_app, Nat2Z.inj_add, length_padded in Hlen by done.
  destruct (pad_range a (Z.of_nat (length bs)) Ha ltac:(lia)) as [Hpad _].
  assert (ti_offset ti = s /\ mfor (size_step a) infos (Some (s + GGML_PAD (Z.of_nat (length bs)) a)) = Ok (Some e)) as [Ho Hsz'].
  { destruct (ti_offset ti =? s) eqn:Eo; cbn [negb] in Hsz.
    - apply Z.eqb_eq in Eo. split; [done|]. rewrite (tensor_bytes_length _ _ Hb) in Hsz. cbn [mbind res_bind] in Hsz.
      assert (usize (GGML_PAD (Z.of_nat (length bs)) a) = GGML_PAD (Z.of_nat (length bs)) a) as Hu by (apply Z.mod_small; lia).
      by rewrite Hu, (proj2 (Z.ltb_ge _ _)) in Hsz by (unfold SIZE_MAX; lia).
    - exfalso. cbn in Hsz. clear -Hsz. induction infos; cbn in Hsz; [done|by apply IHinfos]. }
  destruct i as [|i]; simplify_eq/=.
  - split; [lia|]. rewrite Z.sub_diag. change (Z.to_nat 0) with 0%nat. rewrite drop_0. unfold padded_content. rewrite <- !app_assoc. by rewrite take_app_length.
  - destruct (IH (ti_offset ti + GGML_PAD (Z.of_nat (length bs)) a) Hsz' ltac:(lia) ltac:(lia) i ti' bs' Hi Hbi) as [Hle Heq]. split; [lia|].
    rewrite <- Heq at 2. f_equal. pose proof (length_padded a bs Ha) as Hlp.
    replace (Z.to_nat (ti_offset ti' - ti_offset ti)) with (length (padded_content a bs) + Z.to_nat (ti_offset ti' - (ti_offset ti + GGML_PAD (Z.of_nat (length bs)) a)))%nat by lia.
    by rewrite <- drop_drop, drop_app_length.
Qed.

(** ** The round trip *)

Lemma header_content_length c : length (header_content c) = 24%nat.
Proof. unfold header_content. by rewrite !length_app, !length_le. Qed.

(** The metadata, with anything behind it. *)
Lemma read_meta_ok c size tail (m := Z.of_nat (length (meta_content c))) (offset := GGML_PAD m (gf_alignment c)) :
  gguf_ok c size -> m + gf_alignment c <= INT64_MAX ->
  exists remain, Z.of_nat (length tail) <= remain /\
  read_meta (open_reader (meta_content c ++ tail)) = Ok (Some (as_read c size None, mk_reader offset (drop (Z.to_nat (offset - m)) tail) remain)).
Proof.
  intros Hok Hmax. destruct (go_counts _ _ Hok) as [Hc1 Hc2]. subst m offset. unfold open_reader, as_read.
  rewrite meta_parts, <- app_assoc, !length_app, header_content_length, !Nat2Z.inj_add in *. set (parts := parts_content c) in *.
  set (total := 24 + (Z.of_nat (length parts) + Z.of_nat (length tail))). change (Z.of_nat 24) with 24 in *. fold total.
  unfold header_content. rewrite <- !app_assoc. assert (total = 24 + (Z.of_nat (length parts) + Z.of_nat (length tail))) as Ht by done. clearbody total. unfold read_meta.
  rewrite (rd_run _ _ _ _ _ _ _ rd_reads_magic) by (rewrite !length_app, !length_le; cbn [length GGUF_MAGIC]; lia).
  rewrite (rd_run _ _ _ _ _ _ _ (rd_reads_version _ (go_version _ _ Hok))) by (rewrite !length_app, !length_le; cbn [length GGUF_MAGIC]; lia).
  rewrite (rd_run _ _ _ _ _ _ _ (rd_reads_count SIZEOF_TENSOR_INFO (gguf_get_n_tensors c) ltac:(done) ltac:(unfold gguf_get_n_tensors in *; lia)))
    by (rewrite !length_app, !length_le; cbn [length GGUF_MAGIC]; lia).
  rewrite (rd_run _ _ _ _ _ _ _ (rd_reads_count SIZEOF_KV (gguf_get_n_kv c) ltac:(done) ltac:(unfold gguf_get_n_kv in *; lia)))
    by (rewrite !length_app, !length_le; cbn [length GGUF_MAGIC]; lia).
  cbn [rd_rest]. rewrite !length_le. cbn [length GGUF_MAGIC].
  exists (total - 24 - Z.of_nat (length parts)). split; [lia|].
  replace (total - Z.of_nat 4 - Z.of_nat 4 - Z.of_nat 8 - Z.of_nat 8) with (total - 24) by lia.
  replace (0 + Z.of_nat 4 + Z.of_nat 4 + Z.of_nat 8 + Z.of_nat 8) with 24 by lia.
  apply (read_body_ok c size tail 24 (total - 24)); [done|fold parts; lia| |lia|fold parts; lia].
  fold parts. rewrite length_app. lia.
Qed.

(** Behind the padding. *)
Lemma drop_padding a n (rest : list Z) : drop (Z.to_nat (GGML_PAD n a - n)) (padding a n ++ rest) = rest.
Proof. unfold padding. by rewrite drop_app_length' by (by rewrite length_replicate). Qed.

(** The tensor that stands for the data section. *)
Lemma data_tensor_ok mem size (psize := GGML_PAD (336 + size) 16) : 0 <= size -> 32 + psize <= mem < 2 ^ 63 ->
  ggml_new_tensor (mk_pool mem 0 false) GGML_TYPE_I8 (mk_dims size 1 1 1) =
  Ok (mk_pool mem (32 + psize) false, mk_gg GGML_TYPE_I8 (mk_dims size 1 1 1) (mk_dims 1 size size size) [] None).
Proof.
  intros Hs Hmem. destruct (pad_range 16 (336 + size)) as [Hsr Hsm]; [by exists 4|lia|]. fold psize in Hsr, Hsm.
  unfold ggml_new_tensor, ggml_row_size, dense_strides, cdiv. cbn [d0 d1 d2 d3 gc_no_alloc gc_mem_size gc_cur_end foldl].
  change (ggml_type_size GGML_TYPE_I8) with (@Ok Z 1). change (ggml_blck_size GGML_TYPE_I8) with (@Ok Z 1).
  cbn [assert_ andb Z.leb Z.ltb Z.compare Pos.compare Pos.compare_cont mbind res_bind GGML_TYPE_I8 GGML_TYPE_COUNT Z.eqb Pos.eqb].
  assert (forall z, 0 <= z <= size -> usize (1 * z) = z /\ usize (z * 1) = z) as Hu by (intros z Hz; unfold usize; rewrite Z.mul_1_l, Z.mul_1_r, Z.mod_small; lia).
  rewrite (proj1 (Hu size ltac:(lia))), Z.div_1_r, !(proj2 (Hu size ltac:(lia))).
  rewrite (proj2 (Z.leb_le _ _)) by (unfold SIZE_MAX, GGML_TENSOR_SIZE; lia). cbn [assert_ mbind res_bind]. unfold GGML_TENSOR_SIZE.
  rewrite (new_object_ok (mk_pool mem 0 false) psize); [|lia|done|done|cbn; unfold GGML_OBJECT_SIZE; lia|cbn; lia|lia|done].
  cbn [mbind res_bind of_option gc_mem_size gc_cur_end gc_no_alloc].
  rewrite (proj1 (Hu size ltac:(lia))), !(proj2 (Hu size ltac:(lia))). done.
Qed.

(** Up to the data section: the memory is there, and the tensors will fit in it. *)
Lemma load_begins memalign_ok c size (n := gguf_get_n_tensors c) :
  (forall m, 0 < m < 2 ^ 63 -> memalign_ok m = true) -> 0 <= size -> (n + 1) * ggml_tensor_overhead + size + 16 <= INT64_MAX ->
  exists pool, gc_no_alloc pool = true /\ 0 <= gc_cur_end pool /\ gc_cur_end pool + n * ggml_tensor_overhead <= gc_mem_size pool /\ gc_mem_size pool < 2 ^ 63 /\
  forall gr, gguf_load memalign_ok false (as_read c size None) gr =
    rd_bind (read_bytes size) (fun data => rd_bind (rd_lift (mfor (create_tensor false) (without_data <$> gf_info c) (pool, [])))
      (fun '(_, ts) => rd_ret (as_read c size (Some data), mk_loaded (Some data) ts))) gr.
Proof.
  intros Hmem Hsize Hle. unfold INT64_MAX in Hle. unfold ggml_tensor_overhead, GGML_OBJECT_SIZE, GGML_TENSOR_SIZE in *.
  assert (0 <= n) as Hn0 by (subst n; unfold gguf_get_n_tensors; lia).
  assert (gguf_get_n_tensors (as_read c size None) = n) as Hn by (unfold gguf_get_n_tensors, as_read; cbn; by rewrite length_fmap).
  set (mem := (n + 1) * (32 + 336) + size). set (mem' := GGML_PAD mem 16). set (psize := GGML_PAD (336 + size) 16).
  destruct (pad_range 16 mem) as [Hpr Hpm]; [by exists 4|subst mem; lia|]. fold mem' in Hpr, Hpm.
  destruct (pad_range 16 (336 + size)) as [Hsr Hsm]; [by exists 4|lia|]. fold psize in Hsr, Hsm.
  assert (mem' = (n + 1) * 368 + (psize - 336)) as Hmem'.
  { subst mem' psize mem. replace ((n + 1) * (32 + 336) + size) with ((n + 1) * 368 - 336 + (336 + size)) by lia.
    pose proof (pad_shift 16 (336 + size) ((n + 1) * 368 - 336) ltac:(by exists 4) ltac:(lia) ltac:(lia)) as Hs.
    enough (((n + 1) * 368 - 336) mod 16 = 0) by lia. replace ((n + 1) * 368 - 336) with ((23 * n + 2) * 16) by lia. apply Z.mod_mul. lia. }
  exists (mk_pool mem' (32 + psize) true). cbn [gc_no_alloc gc_cur_end gc_mem_size]. do 4 (split; [done || lia|]). intros gr.
  unfold gguf_load. rewrite Hn. cbn [gf_size as_read]. unfold load_mem_size, ggml_tensor_overhead, GGML_OBJECT_SIZE, GGML_TENSOR_SIZE.
  rewrite (proj2 (Z.eqb_neq _ _)) by lia. rewrite (proj2 (Z.ltb_ge (_ / _) _)).
  2:{ apply Z.div_le_lower_bound; [lia|]. unfold SIZE_MAX. lia. }
  cbn [negb andb]. cbv zeta. rewrite (proj2 (Z.ltb_ge _ _)) by (unfold SIZE_MAX; lia). fold mem.
  rewrite (rd_run_lift _ _ (mk_pool mem' 0 false)).
  2:{ unfold ggml_init. rewrite (proj2 (Z.eqb_neq mem 0)) by (subst mem; lia). unfold GGML_MEM_ALIGN. fold mem'. unfold usize. rewrite Z.mod_small by (subst mem; lia).
      unfold ggml_aligned_malloc. rewrite (proj2 (Z.eqb_neq _ _)) by (subst mem; lia). by rewrite Hmem by (subst mem; lia). }
  unfold rd_bind, rd_lift. rewrite data_tensor_ok by (fold psize; lia). fold psize. cbn [mbind res_bind].
  destruct (read_bytes size gr) as [[[data g]|]|]; done.
Qed.

(** Loading what [file_content] holds. *)
Lemma load_ok memalign_ok c size bss pos remain a (n := gguf_get_n_tensors c) (blob := data_content a bss) :
  (forall m, 0 < m < 2 ^ 63 -> memalign_ok m = true) ->
  Forall info_ok (gf_info c) -> size = Z.of_nat (length blob) -> (n + 1) * ggml_tensor_overhead + size + 16 <= INT64_MAX ->
  size <= remain ->
  exists gr, gguf_load memalign_ok false (as_read c size None) (mk_reader pos blob remain) =
    Ok (Some ((as_read c size (Some blob),
      mk_loaded (Some blob) ((fun ti => (ti_t (without_data ti), Some (ti_offset ti))) <$> gf_info c)), gr)).
Proof.
  intros Hmem Hinf Hsize Hle Hrem. destruct (load_begins memalign_ok c size Hmem ltac:(lia) Hle) as (pool & P1 & P2 & P3 & P4 & ->).
  replace (mk_reader pos blob remain) with (mk_reader pos (blob ++ []) remain) by (by rewrite app_nil_r). eexists.
  rewrite (rd_run _ _ blob blob) by (cbn; first [lia | by apply rd_reads_bytes; rewrite Hsize]). cbv beta.
  destruct (create_tensors_ok false (gf_info c) pool [] Hinf) as (pool' & Hmf); [done|done|done|done|].
  rewrite (rd_run_lift _ _ _ _ Hmf). done.
Qed.

(** *** What is stored is loaded again *)

(** The tensors that the caller is given, and the content of each in the data section. *)
Definition loaded_tensors (c : gguf_context) (bss : list (list Z)) (l : gguf_loaded) : Prop :=
  exists blob, ld_data l = Some blob /\ length (ld_tensors l) = length (gf_info c) /\
  forall i ti bs, gf_info c !! i = Some ti -> bss !! i = Some bs -> exists t place,
    ld_tensors l !! i = Some (t, Some place) /\ gg_name t = gg_name (ti_t ti) /\ gg_type t = gg_type (ti_t ti) /\
    gg_ne t = gg_ne (ti_t ti) /\ gg_nb t = gg_nb (ti_t ti) /\ take (length bs) (drop (Z.to_nat place) blob) = bs.

(** C18: A context that can be stored ([gguf_ok]) and whose tensors have data is written to a buffer, and
    the file is read back: the same version, pairs, tensors and alignment, and the tensors that are
    loaded have their name, type, shape and strides and, at their place in the data section, the
    bytes that were written. *)
Theorem gguf_round_trip memalign_ok c size bss :
  gguf_ok c size -> contents_of (gf_info c) bss -> (forall n, 0 < n < 2 ^ 63 -> memalign_ok n = true) ->
  Z.of_nat (length (file_content c bss false)) + gf_alignment c <= 2 ^ 62 -> gguf_get_n_tensors c < 2 ^ 50 ->
  exists file blob l gr,
    gguf_write_to_buf c [] false = Ok file /\
    gguf_init_from_file_ptr memalign_ok (Some false) (open_reader file) = Ok (Some (as_read c size (Some blob), Some l, gr)) /\
    loaded_tensors c bss l.
Proof.
  intros Hok Hc Hmem Hlen Hn. destruct (go_alignment _ _ Hok) as (_ & Ha & _). pose proof (pow2_pos _ Ha) as Hap.
  destruct (write_to_buf_ok c size bss false Hok (fun _ => Hc)) as [Hw Hs]; [lia|]. specialize (Hs eq_refl).
  set (blob := data_content (gf_alignment c) bss) in *. unfold file_content in *. fold blob in Hw, Hlen.
  rewrite length_app, Nat2Z.inj_add, length_padded in Hlen by done.
  destruct (pad_range (gf_alignment c) (Z.of_nat (length (meta_content c))) Ha ltac:(lia)) as [Hpr _].
  destruct (read_meta_ok c size (padding (gf_alignment c) (Z.of_nat (length (meta_content c))) ++ blob) Hok) as (remain & Hrem & Hr); [unfold INT64_MAX; lia|].
  rewrite drop_padding in Hr. rewrite length_app in Hrem. rewrite app_assoc in Hr. change (meta_content c ++ padding _ _) with (padded_content (gf_alignment c) (meta_content c)) in Hr.
  destruct (load_ok memalign_ok c size bss (GGML_PAD (Z.of_nat (length (meta_content c))) (gf_alignment c)) remain (gf_alignment c) Hmem (go_infos _ _ Hok) Hs) as (gr & Hl).
  { unfold ggml_tensor_overhead, GGML_OBJECT_SIZE, GGML_TENSOR_SIZE, INT64_MAX. lia. }
  { lia. }
  eexists _, blob, _, gr. split; [exact Hw|]. split.
  { unfold gguf_init_from_file_ptr. unfold rd_bind at 1. rewrite Hr. cbn [mbind res_bind]. fold blob in Hl. unfold rd_bind. rewrite Hl. done. }
  exists blob. split; [done|]. split; [cbn; by rewrite length_fmap|]. intros i ti bs Hi Hb.
  destruct (data_slices (gf_alignment c) (gf_info c) bss 0 size Ha Hc (go_size _ _ Hok) ltac:(lia)) with (i := i) (ti := ti) (bs := bs) as [_ Hsl]; [fold blob; lia|done|done|].
  exists (ti_t (without_data ti)), (ti_offset ti). cbn [ld_tensors]. rewrite list_lookup_fmap, Hi.
  rewrite Z.sub_0_r in Hsl. done.
Qed.
