(* ===== verification/GgufSafe.v ===== *)
(** * Model files: reading any file

    Whatever its bytes are, a file is read without an access out of bounds, an overflow or an
    endless loop: it is rejected, or gives a context that can be stored ([gguf_ok]), or the
    program is stopped by one of its assertions or by a division by zero. *)

From S2P Require Import Prelude IoBytes GgmlTypes Gguf GgufRead GgufWrite GgufTheory GgufStore GgufProps.

Definition stops (e : err) : Prop := e = AssertFailed \/ e = DivByZero.

Definition may_stop {A} (m : res A) (Q : A -> Prop) : Prop := match m with Ok a => Q a | Err e => stops e end.

(** [m] takes at least [k] bytes when it succeeds, and its result satisfies [Q]. *)
Definition rd_safe {A} (k : nat) (m : rdm A) (Q : A -> Prop) : Prop := forall gr, all_bytes (rd_rest gr) ->
  match m gr with
  | Ok None => True
  | Ok (Some (a, gr')) => Q a /\ all_bytes (rd_rest gr') /\ (length (rd_rest gr') + k <= length (rd_rest gr))%nat
  | Err e => stops e
  end.

Lemma may_stop_bind {A B} (m : res A) (k : A -> res B) P Q :
  may_stop m P -> (forall a, P a -> may_stop (k a) Q) -> may_stop (m ≫= k) Q.
Proof. intros H Hk. destruct m; [by apply Hk|done]. Qed.

Lemma may_stop_assert b : may_stop (assert_ b) (fun _ => b = true).
Proof. destruct b; [done|by left]. Qed.

Lemma may_stop_mono {A} (m : res A) (P Q : A -> Prop) : may_stop m P -> (forall a, P a -> Q a) -> may_stop m Q.
Proof. destruct m; [intros H HQ; by apply HQ|done]. Qed.

Lemma rd_safe_ret {A} (a : A) (Q : A -> Prop) : Q a -> rd_safe 0 (rd_ret a) Q.
Proof. intros H gr Hb. cbn. split; [done|]. split; [done|lia]. Qed.

Lemma rd_safe_fail {A} k (Q : A -> Prop) : rd_safe k rd_fail Q.
Proof. intros gr Hb. done. Qed.

Lemma rd_safe_lift {A} (m : res A) (Q : A -> Prop) : may_stop m Q -> rd_safe 0 (rd_lift m) Q.
Proof. intros H gr Hb. unfold rd_lift. destruct m; [|done]. by apply rd_safe_ret. Qed.

Lemma rd_safe_bind {A B} k1 k2 (m : rdm A) (k : A -> rdm B) P Q :
  rd_safe k1 m P -> (forall a, P a -> rd_safe k2 (k a) Q) -> rd_safe (k1 + k2) (rd_bind m k) Q.
Proof.
  intros H Hk gr Hb. unfold rd_bind. specialize (H gr Hb). destruct (m gr) as [[[a gr']|]|]; cbn; [|done|done].
  destruct H as (HP & Hb' & Hl). specialize (Hk a HP gr' Hb'). destruct (k a gr') as [[[b gr'']|]|]; [|done|done].
  destruct Hk as (? & ? & ?). split; [done|]. split; [done|lia].
Qed.

Lemma rd_safe_mono {A} k k' (m : rdm A) (P Q : A -> Prop) :
  rd_safe k m P -> (forall a, P a -> Q a) -> (k' <= k)%nat -> rd_safe k' m Q.
Proof.
  intros H HQ Hle gr Hb. specialize (H gr Hb). destruct (m gr) as [[[a gr']|]|]; [|done|done].
  destruct H as (? & ? & ?). split; [auto|]. split; [done|lia].
Qed.

(** A step after which nothing more has to be read. *)
Lemma rd_safe_step {A B} k (m : rdm A) (f : A -> rdm B) P Q :
  rd_safe k m P -> (forall a, P a -> rd_safe 0 (f a) Q) -> rd_safe k (rd_bind m f) Q.
Proof. intros H Hf. rewrite <- (Nat.add_0_r k). by eapply rd_safe_bind. Qed.

Lemma rd_safe_skip {A B} k (m : rdm A) (f : A -> rdm B) P Q :
  rd_safe 0 m P -> (forall a, P a -> rd_safe k (f a) Q) -> rd_safe k (rd_bind m f) Q.
Proof. intros H Hf. change k with (0 + k)%nat. by eapply rd_safe_bind. Qed.

Lemma rd_safe_reject b : rd_safe 0 (reject_if b) (fun _ => b = false).
Proof. destruct b; [apply rd_safe_fail|by apply rd_safe_ret]. Qed.

Lemma bytes_take n l : all_bytes l -> all_bytes (take n l).
Proof. apply Forall_take. Qed.

Lemma rd_safe_bytes n : rd_safe (Z.to_nat n) (read_bytes n) (fun bs => all_bytes bs /\ Z.of_nat (length bs) = n).
Proof.
  intros gr Hb. unfold read_bytes. destruct (_ <? n); [done|]. cbn zeta. destruct (_ =? n) eqn:E; [|done]. apply Z.eqb_eq in E.
  split; [split; [by apply bytes_take|done]|]. cbn. split; [by apply Forall_drop|]. rewrite length_take in E. rewrite length_drop. lia.
Qed.

Lemma unle_range l : all_bytes l -> 0 <= unle l < 256 ^ Z.of_nat (length l).
Proof.
  induction 1 as [|b l Hb Hl IH]; [done|]. change (unle (b :: l)) with (b + 256 * unle l). cbn [length]. rewrite Nat2Z.inj_succ, Z.pow_succ_r by lia. lia.
Qed.

Lemma rd_safe_u32 : rd_safe 4 read_u32 (fun z => 0 <= z < 2 ^ 32).
Proof.
  eapply rd_safe_step; [apply (rd_safe_bytes 4)|]. intros bs [Hb Hl]. apply rd_safe_ret. pose proof (unle_range bs Hb) as H. by rewrite Hl in H.
Qed.

Lemma rd_safe_u64 : rd_safe 8 read_u64 (fun z => 0 <= z < 2 ^ 64).
Proof.
  eapply rd_safe_step; [apply (rd_safe_bytes 8)|]. intros bs [Hb Hl]. apply rd_safe_ret. pose proof (unle_range bs Hb) as H. by rewrite Hl in H.
Qed.

Lemma rd_safe_i32 : rd_safe 4 read_i32 (fun z => True).
Proof. eapply rd_safe_step; [apply (rd_safe_bytes 4)|]. intros bs _. by apply rd_safe_ret. Qed.

Lemma rd_safe_i64 : rd_safe 8 read_i64 (fun z => z <= INT64_MAX).
Proof.
  eapply rd_safe_step; [apply (rd_safe_bytes 8)|]. intros bs _. apply rd_safe_ret. unfold s64, INT64_MAX.
  pose proof (Z.mod_pos_bound (unle bs + 9223372036854775808) 18446744073709551616 eq_refl) as H. change (2 ^ 63) with 9223372036854775808. change (2 ^ 64) with 18446744073709551616. lia.
Qed.

Lemma rd_safe_string : rd_safe 8 read_string string_ok.
Proof.
  eapply rd_safe_step; [apply rd_safe_u64|]. intros n Hn. eapply rd_safe_skip; [apply rd_safe_reject|]. intros [] Hmax%Z.ltb_ge.
  eapply rd_safe_mono; [apply rd_safe_bytes| |lia]. intros s [Hb Hl]. split; [done|lia].
Qed.

Lemma rd_safe_val type : is_number_type type = true -> rd_safe 0 (read_val type)
  (fun bs => all_bytes bs /\ Z.of_nat (length bs) = gguf_type_size type /\ (type = GGUF_TYPE_BOOL -> Forall (fun b => b = 0 \/ b = 1) bs)).
Proof.
  intros Ht. eapply rd_safe_step; [eapply rd_safe_mono; [apply rd_safe_bytes|intros a Ha; exact Ha|lia]|]. intros bs [Hb Hl].
  apply rd_safe_ret. destruct (type =? GGUF_TYPE_BOOL) eqn:E.
  - apply Z.eqb_eq in E. rewrite E. split_and!; [|done|]; destruct (unle bs =? 0); repeat constructor; lia.
  - split_and!; [done|done|]. intros ->. done.
Qed.

Lemma rd_safe_times {A} n (m : rdm A) Q : rd_safe 0 m Q -> rd_safe 0 (read_times n m) (fun l => Forall Q l /\ length l = n).
Proof.
  intros H. induction n as [|n IH]; [by apply rd_safe_ret|]. cbn [read_times].
  eapply rd_safe_skip; [apply H|]. intros x Hx. eapply rd_safe_skip; [apply IH|]. intros l [Hl Hn]. apply rd_safe_ret.
  split; [by constructor|cbn; lia].
Qed.

Lemma rd_safe_vector {A} size (m : rdm A) n Q : 0 <= n -> rd_safe 0 m Q ->
  rd_safe 0 (read_vector size m n) (fun l => Forall Q l /\ Z.of_nat (length l) = n /\ n <= GGUF_MAX_ARRAY_ELEMENTS).
Proof.
  intros Hn H gr Hb. unfold read_vector. destruct (_ <? n) eqn:E; [done|]. apply Z.ltb_ge in E.
  destruct (_ <? n); [done|]. destruct (rd_remain gr <? _); [done|].
  pose proof (rd_safe_times (Z.to_nat n) m Q H gr Hb) as Hs. destruct (read_times _ m gr) as [[[l gr']|]|]; [|done|done].
  destruct Hs as ((Hl & Hlen) & Hb' & Hk). split; [|done]. split; [done|lia].
Qed.

(** ** Key-value pairs *)

Lemma concat_length_eq (l : list (list Z)) n : 0 <= n -> Forall (fun bs => Z.of_nat (length bs) = n) l ->
  Z.of_nat (length (concat l)) = Z.of_nat (length l) * n.
Proof. intros Hn. induction 1 as [|bs l Hb _ IH]; [done|]. cbn [concat length]. rewrite length_app. lia. Qed.

Lemma Forall_concat_Z {P : Z -> Prop} (l : list (list Z)) : Forall (Forall P) l -> Forall P (concat l).
Proof. induction 1; cbn; [constructor|by apply Forall_app]. Qed.

Lemma new_kv_stops key is_array type data strings :
  may_stop (new_kv key is_array type data strings) (fun kv => kv = mk_kv key is_array type data strings /\ key <> []).
Proof. unfold new_kv. eapply may_stop_bind; [apply may_stop_assert|]. intros _ H%negb_true_iff%bool_decide_eq_false. done. Qed.

Lemma rd_safe_emplace type key is_array n :
  is_number_type type || (type =? GGUF_TYPE_STRING) = true -> string_ok key -> 0 <= n ->
  rd_safe 0 (gguf_read_emplace_helper type key is_array n) (fun kv => pair_ok kv /\ kv_key kv = key).
Proof.
  intros Ht Hkey Hn. unfold gguf_read_emplace_helper. destruct (type =? GGUF_TYPE_STRING) eqn:Es.
  - apply Z.eqb_eq in Es. subst type.
    eapply (rd_safe_skip _ _ _ (fun l => Forall string_ok l /\ Z.of_nat (length l) <= GGUF_MAX_ARRAY_ELEMENTS /\ (is_array = false -> length l = 1%nat))).
    { destruct is_array.
      - eapply rd_safe_mono; [apply rd_safe_vector; [done|]; eapply rd_safe_mono; [apply rd_safe_string|intros a Ha; exact Ha|lia]| |lia].
        intros l (Hl & Hlen & Hmax). split; [done|]. split; [lia|done].
      - eapply rd_safe_skip; [eapply rd_safe_mono; [apply rd_safe_string|intros a Ha; exact Ha|lia]|]. intros s Hs. apply rd_safe_ret.
        split; [by apply Forall_singleton|]. done. }
    intros l (Hl & Hmax & H1). apply rd_safe_lift. eapply may_stop_mono; [apply new_kv_stops|]. intros kv [-> Hne]. split; [|done].
    split; [done| |by right]. unfold kv_count. cbn. split; [|done]. intros ->. rewrite H1 by done. done.
  - assert (is_number_type type = true) as Hty by (destruct (is_number_type type); done). pose proof (number_size type Hty) as Hsz.
    eapply (rd_safe_skip _ _ _ (fun l => all_bytes l /\ (type = GGUF_TYPE_BOOL -> Forall (fun b => b = 0 \/ b = 1) l) /\
      exists k, Z.of_nat (length l) = k * gguf_type_size type /\ 0 <= k <= GGUF_MAX_ARRAY_ELEMENTS /\ (is_array = false -> k = 1))).
    { destruct is_array.
      - eapply rd_safe_skip; [apply rd_safe_vector; [done|by apply rd_safe_val]|]. intros l (Hl & Hlen & Hmax). apply rd_safe_ret.
        rewrite Forall_forall in Hl. split; [apply Forall_concat_Z, Forall_forall; intros; by apply Hl|].
        split; [intros E; apply Forall_concat_Z, Forall_forall; intros; by apply Hl|]. exists n. split; [|by split; [lia|]].
        rewrite concat_length_eq with (n := gguf_type_size type); [by rewrite Hlen|lia|]. apply Forall_forall. intros bs Hbs. by apply Hl.
      - eapply rd_safe_mono; [by apply rd_safe_val| |lia]. intros bs (Hb & Hl & H01). split; [done|]. split; [done|].
        exists 1. rewrite Hl. split; [lia|]. by split; [unfold GGUF_MAX_ARRAY_ELEMENTS; lia|]. }
    intros l (Hb & H01 & k & Hl & Hk & H1). apply rd_safe_lift. eapply may_stop_mono; [apply new_kv_stops|]. intros kv [-> Hne]. split; [|done].
    assert (kv_count (mk_kv key is_array type l []) = k) as Hc.
    { unfold kv_count. cbn. rewrite Es, Hl. apply Z.div_mul. lia. }
    split; [done| |left]; rewrite ?Hc; cbn; [split; [done|lia]|]. by split_and!.
Qed.

Lemma rd_safe_kv kvs : rd_safe 8 (read_kv kvs) (fun kv => pair_ok kv /\ kv_key kv ∉ (kv_key <$> kvs)).
Proof.
  unfold read_kv. eapply rd_safe_step; [apply rd_safe_string|]. intros key Hkey. eapply rd_safe_skip; [apply rd_safe_reject|]. intros [] Hnew.
  eapply rd_safe_skip; [eapply rd_safe_mono; [apply rd_safe_i32|intros a Ha; exact Ha|lia]|]. intros type _.
  eapply (rd_safe_skip _ _ _ (fun '(_, _, n) => 0 <= n)).
  { destruct (type =? GGUF_TYPE_ARRAY); [|by apply rd_safe_ret].
    eapply rd_safe_skip; [eapply rd_safe_mono; [apply rd_safe_i32|intros a Ha; exact Ha|lia]|]. intros ty _.
    eapply rd_safe_skip; [eapply rd_safe_mono; [apply rd_safe_u64|intros a Ha; exact Ha|lia]|]. intros n Hn. apply rd_safe_ret. cbn in *. lia. }
  intros [[ty is_array] n] Hn. destruct (_ || _) eqn:E; [|apply rd_safe_fail].
  eapply rd_safe_mono; [by apply rd_safe_emplace| |lia]. intros kv [Hkv Hk]. split; [done|]. rewrite Hk. intros Hin.
  apply list_elem_of_fmap in Hin as (kv' & He & Hin). apply not_true_iff_false in Hnew. apply Hnew, existsb_exists.
  exists kv'. split; [by apply list_elem_of_In|]. by apply bool_decide_eq_true.
Qed.

(** The same for one state of the reader. *)
Definition safe_at {A} (m : rdm A) (gr : gguf_reader) (Q : A -> Prop) : Prop :=
  match m gr with
  | Ok None => True
  | Ok (Some (a, gr')) => Q a /\ all_bytes (rd_rest gr') /\ (length (rd_rest gr') <= length (rd_rest gr))%nat
  | Err e => stops e
  end.

(** *** A list that is checked against its prefix *)

Lemma read_list_safe {A} k (step : list A -> rdm A) (P : list A -> Prop) n fuel done_ gr :
  (forall d, P d -> rd_safe (S k) (step d) (fun x => P (d ++ [x]))) -> P done_ -> Z.of_nat (length done_) <= n ->
  all_bytes (rd_rest gr) -> (length (rd_rest gr) < fuel)%nat ->
  safe_at (read_list fuel step n done_) gr (fun l => P l /\ Z.of_nat (length l) = n).
Proof.
  intros Hstep. unfold safe_at. revert done_ gr. induction fuel as [|fuel IH]; intros d gr Hd Hn Hb Hf; [lia|]. cbn [read_list].
  destruct (_ <? n) eqn:E.
  2:{ apply Z.ltb_ge in E. cbn. split; [split; [done|lia]|]. split; [done|lia]. }
  apply Z.ltb_lt in E. unfold rd_bind. specialize (Hstep d Hd gr Hb). destruct (step d gr) as [[[x gr']|]|]; cbn [mbind res_bind]; [|done|done].
  destruct Hstep as (Hx & Hb' & Hl). specialize (IH (d ++ [x]) gr' Hx). rewrite length_app in IH. specialize (IH ltac:(cbn; lia) Hb' ltac:(lia)).
  destruct (read_list fuel step n (d ++ [x]) gr') as [[[l gr'']|]|]; [|done|done]. destruct IH as (? & ? & ?). split; [done|]. split; [done|lia].
Qed.

(** ** Tensors *)

Lemma rd_safe_name infos : rd_safe 0 (read_name infos) (fun s => tensor_name_ok s /\ s ∉ tensor_names infos).
Proof.
  unfold read_name. eapply rd_safe_skip; [eapply rd_safe_mono; [apply rd_safe_string|intros a Ha; exact Ha|lia]|]. intros s [Hb _].
  eapply rd_safe_skip; [apply rd_safe_reject|]. intros [] Hlen%Z.leb_gt. cbv zeta. eapply rd_safe_skip; [apply rd_safe_reject|]. intros [] Hnew.
  apply rd_safe_ret. cbn [gg_name ggml_set_name] in *. set (name := take _ _) in *.
  assert (forall l, all_bytes l -> all_bytes (c_str l) /\ (length (c_str l) <= length l)%nat) as Hc.
  { induction 1 as [|b l Hb' Hl [IH1 IH2]]; [split; [constructor|done]|]. cbn. destruct (b =? 0); cbn; [split; [constructor|lia]|]. split; [by constructor|lia]. }
  destruct (Hc s Hb) as [Hb1 Hl1]. destruct (Hc _ Hb1) as [Hb2 Hl2]. split; [split_and!|].
  - by apply bytes_take.
  - intros Hin. apply (c_str_no_zero (c_str s)). rewrite <- (take_drop (Z.to_nat (GGML_MAX_NAME - 1)) (c_str (c_str s))). apply elem_of_app. by left.
  - subst name. rewrite length_take. lia.
  - intros Hin. apply list_elem_of_fmap in Hin as (ti & He & Hin). apply not_true_iff_false in Hnew. apply Hnew, existsb_exists.
    exists ti. split; [by apply list_elem_of_In|]. by apply bool_decide_eq_true.
Qed.

Lemma rd_safe_dim n_dims j : rd_safe 0 (read_dim n_dims j) (fun ne => 0 <= ne <= INT64_MAX).
Proof.
  unfold read_dim. eapply (rd_safe_skip _ _ _ (fun ne => ne <= INT64_MAX)).
  { destruct (j <? n_dims); [eapply rd_safe_mono; [apply rd_safe_i64|done|lia]|by apply rd_safe_ret]. }
  intros ne Hmax. eapply rd_safe_skip; [apply rd_safe_reject|]. intros [] Hne%Z.ltb_ge. by apply rd_safe_ret.
Qed.

(** The check stops at a dimension that is zero, and does not overflow. *)
Lemma too_many_stops ne : 0 <= d0 ne <= INT64_MAX -> 0 <= d1 ne <= INT64_MAX -> 0 <= d2 ne <= INT64_MAX -> 0 <= d3 ne <= INT64_MAX ->
  may_stop (too_many_elements ne) (fun b => b = false -> shape_ok ne).
Proof.
  intros H0 H1 H2 H3. assert (forall P, may_stop (@Err bool DivByZero) P) as Hdz by (intros; by right).
  assert (forall z, 0 <= z <= INT64_MAX -> i64 z = Ok z) as Hi.
  { intros z Hz. unfold i64. by rewrite (proj2 (Z.leb_le _ _)), (proj2 (Z.leb_le z _)) by lia. }
  assert (too_many_elements ne = Ok false -> 0 < d1 ne -> 0 < d2 ne -> 0 < d3 ne -> shape_ok ne) as Hs by (intros; split_and!; done || lia).
  revert Hs. unfold too_many_elements, cdiv. destruct (d1 ne =? 0) eqn:E1; [intros; apply Hdz|]. apply Z.eqb_neq in E1. cbn [mbind res_bind].
  destruct (_ <=? d0 ne) eqn:L1; [intros; done|]. apply Z.leb_gt in L1.
  destruct (d2 ne =? 0) eqn:E2; [intros; apply Hdz|]. apply Z.eqb_neq in E2. cbn [mbind res_bind].
  assert (0 <= d0 ne * d1 ne <= INT64_MAX) as Hp1 by (pose proof (Z.mul_div_le INT64_MAX (d1 ne) ltac:(lia)); nia).
  rewrite Hi by done. cbn [mbind res_bind]. destruct (_ <=? d0 ne * d1 ne) eqn:L2; [intros; done|]. apply Z.leb_gt in L2.
  destruct (d3 ne =? 0) eqn:E3; [intros; apply Hdz|]. apply Z.eqb_neq in E3. cbn [mbind res_bind].
  assert (0 <= d0 ne * d1 ne * d2 ne <= INT64_MAX) as Hp2 by (pose proof (Z.mul_div_le INT64_MAX (d2 ne) ltac:(lia)); nia).
  rewrite Hi by done. cbn [mbind res_bind may_stop]. intros Hs Hf. rewrite Hf in Hs. apply Hs; [done|lia|lia|lia].
Qed.

Lemma rd_safe_shape : rd_safe 0 read_shape shape_ok.
Proof.
  unfold read_shape. eapply rd_safe_skip; [eapply rd_safe_mono; [apply rd_safe_u32|intros a Ha; exact Ha|lia]|]. intros n _.
  eapply rd_safe_skip; [apply rd_safe_reject|]. intros [] _.
  eapply rd_safe_skip; [apply rd_safe_dim|]. intros ne0 H0. eapply rd_safe_skip; [apply rd_safe_dim|]. intros ne1 H1.
  eapply rd_safe_skip; [apply rd_safe_dim|]. intros ne2 H2. eapply rd_safe_skip; [apply rd_safe_dim|]. intros ne3 H3. cbv zeta.
  eapply rd_safe_skip; [apply rd_safe_lift, too_many_stops; done|]. intros b Hb.
  eapply rd_safe_skip; [apply rd_safe_reject|]. intros [] Hf. by apply rd_safe_ret, Hb.
Qed.

(** Every type has non-negative sizes, and a block has bytes. *)
Lemma traits_ok type : 0 <= type < GGML_TYPE_COUNT -> exists blck size,
  ggml_blck_size type = Ok blck /\ ggml_type_size type = Ok size /\ 0 <= blck /\ 0 <= size /\ (blck <> 0 -> 0 < size).
Proof.
  intros Ht. unfold GGML_TYPE_COUNT in Ht. unfold ggml_blck_size, ggml_type_size, vec_getZ. rewrite (proj2 (Z.leb_le _ _)) by lia.
  destruct (lookup_lt_is_Some_2 type_traits (Z.to_nat type)) as [[b s] E]; [cbn; lia|].
  assert (Forall (fun p : Z * Z => 0 <= p.1 /\ 0 <= p.2 /\ (p.1 <> 0 -> 0 < p.2)) type_traits) as Hf by (repeat constructor; cbn; lia).
  rewrite Forall_lookup in Hf. apply Hf in E as Hp. exists b, s. unfold vec_get. rewrite E. destruct Hp as (? & ? & ?). done.
Qed.

Lemma rd_safe_type name ne : shape_ok ne -> rd_safe 0 (read_type name ne) (fun t => type_ok t /\ gg_name t = name /\ gg_ne t = ne).
Proof.
  intros Hs. unfold read_type. eapply rd_safe_skip; [eapply rd_safe_mono; [apply rd_safe_i32|intros a Ha; exact Ha|lia]|]. intros type _.
  eapply rd_safe_skip; [apply rd_safe_reject|]. intros [] [Hlo%Z.ltb_ge Hhi%Z.leb_gt]%orb_false_elim.
  destruct (traits_ok type) as (blck & size & Hb & Hsz & Hb0 & Hs0 & Hpos); [lia|].
  rewrite Hb, Hsz. eapply (rd_safe_skip _ _ _ (fun x => x = size)); [by apply rd_safe_lift|]. intros ? ->.
  eapply (rd_safe_skip _ _ _ (fun x => x = blck)); [by apply rd_safe_lift|]. intros ? ->.
  destruct (blck =? 0) eqn:E; [apply rd_safe_fail|]. apply Z.eqb_neq in E. specialize (Hpos E).
  eapply rd_safe_skip; [apply rd_safe_reject|]. intros [] Hmod%negb_false_iff%Z.eqb_eq.
  rewrite (nelements_ok (mk_gg type ne (mk_dims 0 0 0 0) name None) ne eq_refl Hs).
  eapply (rd_safe_skip _ _ _ (fun x => x = d0 ne * d1 ne * d2 ne * d3 ne)); [by apply rd_safe_lift|]. intros ? ->.
  unfold cdiv at 1. rewrite (proj2 (Z.eqb_neq size 0)) by lia.
  eapply (rd_safe_skip _ _ _ (fun x => x = SIZE_MAX / size)); [by apply rd_safe_lift|]. intros ? ->.
  eapply rd_safe_skip; [apply rd_safe_reject|]. intros [] Hmax%Z.ltb_ge.
  destruct (dense_strides size blck ne) as [nb|] eqn:Hnb.
  2:{ unfold dense_strides, cdiv in Hnb. by rewrite (proj2 (Z.eqb_neq blck 0)) in Hnb by lia. }
  eapply (rd_safe_skip _ _ _ (fun x => x = nb)); [by apply rd_safe_lift|]. intros ? ->. apply rd_safe_ret.
  split; [|done]. exists size, blck. cbn. split_and!; try done; lia.
Qed.

Lemma rd_safe_info infos : rd_safe 1 (read_tensor_info infos) (fun ti => info_ok ti /\ gg_name (ti_t ti) ∉ tensor_names infos).
Proof.
  unfold read_tensor_info. eapply rd_safe_skip; [apply rd_safe_name|]. intros name [Hn Hnew].
  eapply rd_safe_skip; [apply rd_safe_shape|]. intros ne Hne. eapply rd_safe_skip; [by apply rd_safe_type|]. intros t (Ht & Hname & Hd).
  eapply rd_safe_step; [eapply rd_safe_mono; [apply rd_safe_u64|intros a Ha; exact Ha|lia]|]. intros offset Ho.
  apply rd_safe_ret. unfold info_ok. cbn [ti_t ti_offset]. rewrite Hname, Hd. done.
Qed.

Lemma nbytes_total ti : info_ok ti -> exists n, ggml_nbytes (ti_t ti) = Ok n.
Proof.
  intros (_ & _ & (size & blck & _ & Hs & Hb & _ & Hb0 & _) & _). unfold ggml_nbytes. destruct (existsb _ _); [by eexists|].
  rewrite Hs, Hb. cbn [mbind res_bind]. unfold cdiv. rewrite (proj2 (Z.eqb_neq blck 0)) by lia. destruct (blck =? 1); by eexists.
Qed.

Lemma sizes_total a infos s : Forall info_ok infos -> exists r, mfor (size_step a) infos s = Ok r.
Proof.
  intros Hf. revert s. induction Hf as [|ti infos Hti _ IH]; intros s; [by eexists|]. cbn [mfor size_step].
  destruct s as [s|]; cbn [size_step mbind res_bind]; [|apply IH]. destruct (ti_offset ti =? s); cbn [negb mbind res_bind]; [|apply IH].
  destruct (nbytes_total ti Hti) as [n ->]. cbn [mbind res_bind]. destruct (_ <? _); apply IH.
Qed.

(** ** The alignment *)

Lemma index_of_range {A} (f : A -> bool) l i : index_of f l i = -1 \/ i <= index_of f l i < i + Z.of_nat (length l).
Proof. revert i. induction l as [|x l IH]; intros i; cbn; [by left|]. destruct (f x); [right; lia|]. destruct (IH (i + 1)); [by left|right; lia]. Qed.

Lemma kv_at_stops c id : Forall pair_ok (gf_kv c) -> may_stop (kv_at c id) pair_ok.
Proof.
  intros Hf. unfold kv_at. eapply may_stop_bind; [apply may_stop_assert|]. intros _ [H0 H1]%andb_true_iff. unfold vec_getZ. rewrite H0.
  apply Z.leb_le in H0. apply Z.ltb_lt in H1. unfold gguf_get_n_kv in H1. destruct (lookup_lt_is_Some_2 (gf_kv c) (Z.to_nat id)) as [kv E]; [lia|].
  rewrite (proj2 (vec_get_ok _ _ _) E). rewrite Forall_lookup in Hf. by eapply Hf.
Qed.

Lemma alignment_stops c : Forall pair_ok (gf_kv c) -> may_stop (context_alignment c) (fun a => 0 <= a < 2 ^ 32).
Proof.
  intros Hf. unfold context_alignment. cbv zeta. destruct (_ =? -1); [done|]. unfold gguf_get_val_u32, gguf_get_val.
  eapply (may_stop_bind _ _ (fun bs => all_bytes bs /\ length bs = 4%nat)); [|intros bs [Hb Hl]; pose proof (unle_range bs Hb) as H; by rewrite Hl in H].
  eapply may_stop_bind; [by apply kv_at_stops|]. intros kv Hkv. rewrite (get_ne_ok kv Hkv). cbn [mbind res_bind].
  eapply may_stop_bind; [apply may_stop_assert|]. intros _ _. unfold get_val.
  eapply may_stop_bind; [apply may_stop_assert|]. intros _ Ht%Z.eqb_eq. rewrite <- Ht. change (gguf_type_size GGUF_TYPE_UINT32) with 4. cbv zeta.
  change (cmod ?x 4) with (@Ok Z (x mod 4)). cbn [mbind res_bind]. eapply may_stop_bind; [apply may_stop_assert|]. intros _ _.
  eapply may_stop_bind; [apply may_stop_assert|]. intros _ Hle%Z.leb_le. destruct Hkv as [_ _ [(_ & _ & Hb & _)|(E & _)]]; [|by rewrite E in Ht].
  change (Z.to_nat 4) with 4%nat. cbn [may_stop]. rewrite Nat.mul_0_l, drop_0. split; [by apply bytes_take|]. rewrite length_take. lia.
Qed.

(** ** The whole file *)

Lemma safe_at_bind {A B} (m : rdm A) (k : A -> rdm B) gr P Q :
  safe_at m gr P ->
  (forall a gr', P a -> all_bytes (rd_rest gr') -> (length (rd_rest gr') <= length (rd_rest gr))%nat -> safe_at (k a) gr' Q) ->
  safe_at (rd_bind m k) gr Q.
Proof.
  unfold safe_at, rd_bind. intros H Hk. destruct (m gr) as [[[a gr']|]|]; cbn [mbind res_bind]; [|done|done].
  destruct H as (HP & Hb & Hl). specialize (Hk a gr' HP Hb Hl). destruct (k a gr') as [[[b gr'']|]|]; [|done|done].
  destruct Hk as (? & ? & ?). split; [done|]. split; [done|lia].
Qed.

Lemma safe_at_of {A} k (m : rdm A) gr Q : rd_safe k m Q -> all_bytes (rd_rest gr) -> safe_at m gr Q.
Proof.
  intros H Hb. specialize (H gr Hb). unfold safe_at. destruct (m gr) as [[[a gr']|]|]; [|done|done].
  destruct H as (? & ? & ?). split; [done|]. split; [done|lia].
Qed.

Lemma NoDup_snoc {A} (l : list A) x : NoDup l -> x ∉ l -> NoDup (l ++ [x]).
Proof. intros H Hx. apply NoDup_app. split; [done|]. split; [set_solver|apply NoDup_singleton]. Qed.

Lemma rd_safe_seek a : rd_safe 0 (seek_data a) (fun _ => True).
Proof.
  intros gr Hb. unfold seek_data. cbv zeta. destruct (_ <? _); [done|]. cbn. split; [done|]. split; [by apply Forall_drop|].
  rewrite length_drop. lia.
Qed.

Lemma safe_at_body version n_tensors n_kv fuel gr :
  2 <= version <= GGUF_VERSION -> 0 <= n_tensors <= SIZE_MAX / SIZEOF_TENSOR_INFO -> 0 <= n_kv <= SIZE_MAX / SIZEOF_KV ->
  all_bytes (rd_rest gr) -> (length (rd_rest gr) < fuel)%nat ->
  safe_at (read_body version n_tensors n_kv fuel) gr (fun c => gguf_ok c (gf_size c)).
Proof.
  intros Hv Hnt Hnk Hb Hf. unfold read_body.
  eapply (safe_at_bind _ _ _ (fun kvs => (Forall pair_ok kvs /\ NoDup (kv_key <$> kvs)) /\ Z.of_nat (length kvs) = n_kv)).
  { apply (read_list_safe 7 read_kv (fun kvs => Forall pair_ok kvs /\ NoDup (kv_key <$> kvs))); [|split; [apply Forall_nil_2|apply NoDup_nil_2]|cbn; lia|done|done].
    intros d [Hd Hnd]. eapply rd_safe_mono; [apply rd_safe_kv| |lia]. intros kv [Hkv Hnew]. split; [apply Forall_app; split; [done|by apply Forall_singleton]|].
    rewrite fmap_app. by apply NoDup_snoc. }
  intros kvs gr1 [[Hkvs Hkeys] Hlk] Hb1 Hl1.
  eapply safe_at_bind; [eapply safe_at_of; [apply rd_safe_lift, may_stop_assert|done]|]. intros [] gr2 _ Hb2 Hl2. cbv zeta.
  set (c0 := mk_gguf version kvs [] GGUF_DEFAULT_ALIGNMENT 0 0 None).
  eapply (safe_at_bind _ _ _ (fun a => context_alignment c0 = Ok a /\ 0 <= a < 2 ^ 32)).
  { eapply safe_at_of; [apply rd_safe_lift|done]. pose proof (alignment_stops c0 Hkvs) as Ha. by destruct (context_alignment c0). }
  intros a gr3 [Hal Har] Hb3 Hl3. eapply safe_at_bind; [eapply safe_at_of; [apply rd_safe_reject|done]|].
  intros [] gr4 [Ha0%Z.eqb_neq Hap%negb_false_iff%Z.eqb_eq]%orb_false_elim Hb4 Hl4. assert (pow2 a) as Hpow by (apply land_pow2; [lia|done]).
  eapply (safe_at_bind _ _ _ (fun infos => (Forall info_ok infos /\ NoDup (tensor_names infos)) /\ Z.of_nat (length infos) = n_tensors)).
  { apply (read_list_safe 0 read_tensor_info (fun infos => Forall info_ok infos /\ NoDup (tensor_names infos))); [|split; [apply Forall_nil_2|apply NoDup_nil_2]|cbn; lia|done|lia].
    intros d [Hd Hnd]. eapply rd_safe_mono; [apply rd_safe_info| |lia]. intros ti [Hti Hnew]. split; [apply Forall_app; split; [done|by apply Forall_singleton]|].
    unfold tensor_names. rewrite fmap_app. by apply NoDup_snoc. }
  intros infos gr5 [[Hinfos Hnames] Hli] Hb5 Hl5.
  eapply safe_at_bind; [eapply safe_at_of; [apply rd_safe_lift, may_stop_assert|done]|]. intros [] gr6 _ Hb6 Hl6.
  eapply safe_at_bind; [eapply safe_at_of; [apply rd_safe_seek|done]|]. intros offset gr7 _ Hb7 Hl7.
  eapply (safe_at_bind _ _ _ (fun r => mfor (size_step a) infos (Some 0) = Ok r)).
  { eapply safe_at_of; [apply rd_safe_lift|done]. destruct (sizes_total a infos (Some 0) Hinfos) as [r Hr]. by rewrite Hr. }
  intros [size|] gr8 Hsize Hb8 Hl8; [|done]. eapply safe_at_of; [apply rd_safe_ret|done]. cbn [gf_size].
  split; cbn [gf_version gf_kv gf_info gf_alignment]; try done. 
  - unfold gguf_get_n_kv, gguf_get_n_tensors. cbn. lia.
  - split; [exact Hal|]. split; [done|lia].
Qed.

Lemma safe_at_meta gr : all_bytes (rd_rest gr) -> safe_at read_meta gr (fun c => gguf_ok c (gf_size c)).
Proof.
  intros Hb. unfold read_meta.
  eapply (safe_at_bind _ _ _ (fun _ => True)).
  { eapply (safe_at_of 0); [|done]. eapply rd_safe_skip; [apply rd_safe_vector; [done|by apply rd_safe_val]|]. intros l _. eapply rd_safe_mono; [apply rd_safe_reject|done|lia]. }
  intros [] gr1 _ Hb1 _. eapply (safe_at_bind _ _ _ (fun v => 2 <= v <= GGUF_VERSION)).
  { eapply (safe_at_of 0); [|done]. eapply rd_safe_skip; [eapply rd_safe_mono; [apply rd_safe_u32|intros a Ha; exact Ha|lia]|]. intros v Hv.
    eapply rd_safe_skip; [apply rd_safe_reject|]. intros [] H0%Z.eqb_neq. eapply rd_safe_skip; [apply rd_safe_reject|]. intros [] _.
    eapply rd_safe_skip; [apply rd_safe_reject|]. intros [] H1%Z.eqb_neq. eapply rd_safe_skip; [apply rd_safe_reject|]. intros [] H3%Z.ltb_ge.
    apply rd_safe_ret. cbn in Hv. lia. }
  intros v gr2 Hv Hb2 _.
  assert (forall sizeof, 2 < sizeof -> rd_safe 0 (read_count sizeof) (fun n => 0 <= n <= SIZE_MAX / sizeof)) as Hcount.
  { intros sz Hsz. eapply rd_safe_skip; [eapply rd_safe_mono; [apply rd_safe_i64|intros a Ha; exact Ha|lia]|]. intros n Hn.
    eapply rd_safe_skip; [apply rd_safe_reject|]. intros [] [H0%Z.ltb_ge H1%Z.ltb_ge]%orb_false_elim. apply rd_safe_ret.
    assert (0 <= SIZE_MAX / sz <= INT64_MAX) as Hq.
    { split; [apply Z.div_pos; unfold SIZE_MAX; lia|]. apply Z.div_le_upper_bound; [lia|]. unfold SIZE_MAX, INT64_MAX. lia. }
    rewrite s64_small in H1 by done. lia. }
  eapply safe_at_bind; [eapply safe_at_of; [apply (Hcount SIZEOF_TENSOR_INFO); done|done]|]. intros nt gr3 Hnt Hb3 _.
  eapply safe_at_bind; [eapply safe_at_of; [apply (Hcount SIZEOF_KV); done|done]|]. intros nk gr4 Hnk Hb4 _.
  unfold safe_at. apply (safe_at_body v nt nk (S (length (rd_rest gr4))) gr4 Hv Hnt Hnk Hb4). lia.
Qed.

(** ** Loading *)

Lemma new_object_stops pool n : may_stop (ggml_new_object pool n) (fun _ => True).
Proof.
  unfold ggml_new_object. cbv zeta. eapply may_stop_bind; [apply may_stop_assert|]. intros _ _.
  destruct (_ <? _); [done|]. destruct (_ <? _); [done|]. by destruct (_ <? _).
Qed.

Lemma new_tensor_stops pool type ne : (0 <= type < GGML_TYPE_COUNT -> ggml_blck_size type <> Ok 0) ->
  may_stop (ggml_new_tensor pool type ne) (fun _ => True).
Proof.
  intros Hb. unfold ggml_new_tensor. eapply may_stop_bind; [apply may_stop_assert|]. intros _ [H0%Z.leb_le H1%Z.ltb_lt]%andb_true_iff.
  destruct (traits_ok type) as (blck & size & Eb & Es & _); [lia|]. specialize (Hb ltac:(lia)). rewrite Eb in Hb.
  unfold ggml_row_size, dense_strides, cdiv. rewrite Es, Eb. cbn [mbind res_bind]. rewrite (proj2 (Z.eqb_neq blck 0)) by congruence.
  cbn [mbind res_bind]. cbv zeta. eapply may_stop_bind; [apply may_stop_assert|]. intros _ _.
  eapply may_stop_bind; [apply new_object_stops|]. intros o _. destruct o; [done|by left].
Qed.

Lemma create_tensors_stop na infos st : Forall info_ok infos -> may_stop (mfor (create_tensor na) infos st) (fun _ => True).
Proof.
  intros Hf. revert st. induction Hf as [|ti infos Hti _ IH]; intros [pool ts]; [done|]. cbn [mfor]. eapply (may_stop_bind _ _ (fun _ => True)); [|intros st _; apply IH].
  destruct Hti as (_ & _ & (size & blck & _ & _ & Hb & _ & Hb0 & _) & _). unfold create_tensor.
  eapply may_stop_bind; [apply new_tensor_stops; intros _; rewrite Hb; intros [= ->]; lia|]. intros [pool' cur] _. exact I.
Qed.

Lemma rd_safe_load memalign_ok na c : gguf_ok c (gf_size c) ->
  rd_safe 0 (gguf_load memalign_ok na c) (fun '(c', _) => gguf_ok c' (gf_size c')).
Proof.
  intros Hok. unfold gguf_load. destruct (load_mem_size _ _ _) as [mem|]; [|apply rd_safe_fail].
  eapply (rd_safe_skip _ _ _ (fun _ => True)).
  { apply rd_safe_lift. unfold ggml_init. cbv zeta. eapply may_stop_bind; [apply may_stop_assert|]. done. }
  intros pool _. eapply (rd_safe_skip _ _ _ (fun _ => True)).
  { destruct na; [apply rd_safe_ret; exact I|]. eapply (rd_safe_skip _ _ _ (fun _ => True)); [apply rd_safe_lift, new_tensor_stops; done|].
    intros [pool' t] _. eapply rd_safe_skip; [eapply rd_safe_mono; [apply rd_safe_bytes|intros a Ha; exact Ha|lia]|]. intros data _. apply rd_safe_ret. exact I. }
  intros [pool' data] _. cbv zeta. eapply (rd_safe_skip _ _ _ (fun _ => True)); [apply rd_safe_lift, create_tensors_stop, Hok|].
  intros [pool'' ts] _. apply rd_safe_ret. cbn [gf_size]. destruct Hok. by split.
Qed.

(** C19: Reading a file of any bytes, with or without loading its data, ends: the file is rejected, or
    the context it gives can be stored again and read back ([gguf_ok]: distinct non-empty keys, valid
    types, representable sizes, tensors one behind the other), or the program stops at an
    assertion or a division by zero; it never accesses memory out of bounds, overflows a signed
    integer or loops for ever. *)
Theorem gguf_read_safe memalign_ok load bytes : all_bytes bytes ->
  match gguf_init_from_file_ptr memalign_ok load (open_reader bytes) with
  | Ok None => True
  | Ok (Some (c, _, _)) => gguf_ok c (gf_size c)
  | Err e => e = AssertFailed \/ e = DivByZero
  end.
Proof.
  intros Hb. assert (safe_at (gguf_init_from_file_ptr memalign_ok load) (open_reader bytes) (fun '(c, _) => gguf_ok c (gf_size c))) as H.
  { unfold gguf_init_from_file_ptr. eapply safe_at_bind; [by apply safe_at_meta|]. intros c gr Hc Hb' _.
    destruct load as [na|]; [|eapply safe_at_of; [by apply rd_safe_ret|done]].
    eapply safe_at_of; [|done]. eapply rd_safe_skip; [by apply rd_safe_load|]. intros [c' l] Hc'. by apply rd_safe_ret. }
  unfold safe_at in H. destruct (gguf_init_from_file_ptr _ _ _) as [[[[c l] gr]|]|]; [apply H|done|done].
Qed.
