(* ===== verification/GgufApi.v ===== *)
(** * Model files: building a context

    The functions that set pairs and add tensors refine a finite map and a list: [rep c m ts]
    says that the context [c] has the pairs of the map [m] and the tensors [ts], each at the offset
    behind the one before.  Every context that represents something can be stored. *)

From S2P Require Import Prelude IoBytes GgmlTypes Gguf GgufRead GgufWrite GgufTheory GgufStore GgufProps GgufSafe.

(** ** Keys *)

(** Keys are C strings; "general.alignment" is left alone. *)
Definition key_ok (key : list Z) : Prop := key <> [] /\ string_ok key /\ 0 ∉ key /\ key <> GGUF_KEY_GENERAL_ALIGNMENT.

Definition keys_ok (kvs : list gguf_kv) : Prop := NoDup (kv_key <$> kvs) /\ Forall (fun kv => key_ok (kv_key kv)) kvs.

Definition kv_map (kvs : list gguf_kv) : gmap (list Z) gguf_kv := list_to_map ((fun kv => (kv_key kv, kv)) <$> kvs).

Lemma kv_map_keys kvs : ((fun kv => (kv_key kv, kv)) <$> kvs).*1 = kv_key <$> kvs.
Proof. by rewrite <- list_fmap_compose. Qed.

Lemma kv_map_Some kvs key kv : NoDup (kv_key <$> kvs) -> kv_map kvs !! key = Some kv <-> kv ∈ kvs /\ kv_key kv = key.
Proof.
  intros Hnd. unfold kv_map. rewrite <- elem_of_list_to_map by (by rewrite kv_map_keys). rewrite list_elem_of_fmap. split.
  - intros (kv' & [= -> ->] & Hin). done.
  - intros [Hin <-]. by exists kv.
Qed.

Lemma kv_map_None kvs key : kv_map kvs !! key = None <-> key ∉ kv_key <$> kvs.
Proof. unfold kv_map. by rewrite <- not_elem_of_list_to_map, kv_map_keys. Qed.

(** The search finds the pair of the key. *)
Lemma index_of_Some {A} (f : A -> bool) l i k x :
  l !! k = Some x -> f x = true -> (forall j y, (j < k)%nat -> l !! j = Some y -> f y = false) -> index_of f l i = i + Z.of_nat k.
Proof.
  revert i k. induction l as [|y l IH]; intros i k Hk Hf Hbefore; [done|]. destruct k as [|k]; simplify_eq/=.
  - rewrite Hf. lia.
  - rewrite (Hbefore 0%nat y) by (done || lia). rewrite (IH (i + 1) k) by (first [done | intros j z Hj Hz; apply (Hbefore (S j)); [lia|done]]). lia.
Qed.

Lemma index_of_None {A} (f : A -> bool) l i : (forall y, y ∈ l -> f y = false) -> index_of f l i = -1.
Proof. revert i. induction l as [|y l IH]; intros i H; [done|]. cbn. rewrite H by set_solver. apply IH. set_solver. Qed.

Lemma key_c_str kvs kv : keys_ok kvs -> kv ∈ kvs -> c_str (kv_key kv) = kv_key kv.
Proof. intros [_ Hk] Hin. rewrite Forall_forall in Hk. by apply c_str_id, Hk. Qed.

Lemma find_key_spec c key : keys_ok (gf_kv c) ->
  (kv_map (gf_kv c) !! key = None /\ gguf_find_key c key = -1) \/
  (exists k kv, kv_map (gf_kv c) !! key = Some kv /\ gf_kv c !! k = Some kv /\ gguf_find_key c key = Z.of_nat k).
Proof.
  intros Hk. pose proof Hk as [Hnd _]. unfold gguf_find_key. destruct (kv_map (gf_kv c) !! key) as [kv|] eqn:E.
  - right. apply kv_map_Some in E as [Hin Hkey]; [|done]. apply list_elem_of_lookup in Hin as [k Hlk]. exists k, kv. split; [done|]. split; [done|].
    rewrite (index_of_Some _ _ 0 k kv); [lia|done|apply bool_decide_eq_true; by rewrite (key_c_str _ _ Hk) by (by eapply list_elem_of_lookup_2)|].
    intros j y Hj Hy. apply bool_decide_eq_false. intros He. rewrite (key_c_str _ _ Hk) in He by (by eapply list_elem_of_lookup_2).
    assert (j = k); [|lia]. eapply (NoDup_lookup _ _ _ key Hnd); rewrite list_lookup_fmap; [rewrite Hy|rewrite Hlk]; cbn; congruence.
  - left. split; [done|]. apply kv_map_None in E. apply index_of_None. intros kv Hin. apply bool_decide_eq_false. intros He. apply E.
    rewrite (key_c_str _ _ Hk Hin) in He. rewrite He. by apply list_elem_of_fmap_2.
Qed.

Lemma remove_key_ok c key : keys_ok (gf_kv c) ->
  let c' := (gguf_remove_key c key).1 in
  exists kvs, c' = with_kvs kvs c /\ keys_ok kvs /\ kv_map kvs = delete key (kv_map (gf_kv c)) /\ kvs ⊆ gf_kv c.
Proof.
  intros Hk. unfold gguf_remove_key. cbn. destruct (find_key_spec c key Hk) as [[Hm ->]|(k & kv & Hm & Hlk & ->)].
  - exists (gf_kv c). cbn. split; [by destruct c|]. split; [done|]. split; [by rewrite delete_id|done].
  - rewrite (proj2 (Z.leb_le _ _)) by lia. rewrite Nat2Z.id. exists (delete k (gf_kv c)). split; [done|].
    apply kv_map_Some in Hm as [_ Hkey]; [|apply Hk]. pose proof (delete_Permutation _ _ _ Hlk) as Hp.
    assert (forall x, x ∈ gf_kv c <-> x = kv \/ x ∈ delete k (gf_kv c)) as Hin by (intros x; rewrite Hp at 1; apply elem_of_cons).
    destruct Hk as [Hnd Hf]. assert (NoDup (kv_key <$> kv :: delete k (gf_kv c))) as Hnd' by (by rewrite <- Hp).
    cbn in Hnd'. apply NoDup_cons in Hnd' as [Hni Hnd']. rewrite Hp, Forall_cons in Hf. destruct Hf as [_ Hf]. split; [by split|]. split.
    + rewrite <- Hkey. apply map_eq. intros j. destruct (decide (j = kv_key kv)) as [->|Hne].
      * rewrite lookup_delete_eq. by apply kv_map_None.
      * rewrite lookup_delete_ne by done. apply option_eq. intros x. rewrite !kv_map_Some by done. rewrite Hin. naive_solver.
    + intros x Hx. apply Hin. by right.
Qed.

(** ** Tensors *)

Definition tensor_ok (t : gg_tensor) : Prop := tensor_name_ok (gg_name t) /\ shape_ok (gg_ne t) /\ type_ok t.

Definition nbytes_of (t : gg_tensor) : Z := match ggml_nbytes t with Ok n => n | Err _ => 0 end.

(** The size of the data section. *)
Definition total_size (ts : list gg_tensor) : Z := foldr (fun t n => GGML_PAD (nbytes_of t) GGUF_DEFAULT_ALIGNMENT + n) 0 ts.

(** The tensors, one behind the other. *)
Fixpoint layout (s : Z) (ts : list gg_tensor) : list gguf_tensor_info :=
  match ts with
  | [] => []
  | t :: ts => mk_info t s :: layout (s + GGML_PAD (nbytes_of t) GGUF_DEFAULT_ALIGNMENT) ts
  end.

Lemma align_pow2 : pow2 GGUF_DEFAULT_ALIGNMENT.
Proof. by exists 5. Qed.

Lemma nbytes_of_ok t : tensor_ok t -> ggml_nbytes t = Ok (nbytes_of t) /\ 0 <= nbytes_of t.
Proof.
  intros (Hn & Hs & Ht). unfold nbytes_of. destruct (nbytes_total (mk_info t 0)) as [n Hn']; [by split_and!|].
  cbn in Hn'. rewrite Hn'. split; [done|]. by eapply nbytes_nonneg.
Qed.

Lemma pad_nonneg t : tensor_ok t -> 0 <= GGML_PAD (nbytes_of t) GGUF_DEFAULT_ALIGNMENT.
Proof. intros Ht. destruct (nbytes_of_ok t Ht) as [_ H]. destruct (pad_range _ _ align_pow2 H) as [? _]. lia. Qed.

Lemma total_nonneg ts : Forall tensor_ok ts -> 0 <= total_size ts.
Proof. induction 1 as [|t ts Ht _ IH]; [done|]. cbn. pose proof (pad_nonneg t Ht). unfold total_size in IH. lia. Qed.

Lemma total_app ts ts' : total_size (ts ++ ts') = total_size ts + total_size ts'.
Proof. induction ts as [|t ts IH]; [done|]. cbn. unfold total_size in *. lia. Qed.

Lemma layout_tensors s ts : ti_t <$> layout s ts = ts.
Proof. revert s. induction ts as [|t ts IH]; intros s; [done|]. cbn. by rewrite IH. Qed.

Lemma length_layout s ts : length (layout s ts) = length ts.
Proof. by rewrite <- (layout_tensors s ts) at 2; rewrite length_fmap. Qed.

Lemma lookup_layout s ts i : layout s ts !! i = (fun t => mk_info t (s + total_size (take i ts))) <$> ts !! i.
Proof.
  revert s i. induction ts as [|t ts IH]; intros s i; [done|]. destruct i as [|i]; cbn.
  - by rewrite Z.add_0_r.
  - rewrite IH. destruct (ts !! i); [|done]. cbn. do 2 f_equal. unfold total_size. lia.
Qed.

Lemma layout_snoc s ts t : layout s (ts ++ [t]) = layout s ts ++ [mk_info t (s + total_size ts)].
Proof.
  revert s. induction ts as [|t' ts IH]; intros s; [cbn; by rewrite Z.add_0_r|]. cbn [layout app]. rewrite IH.
  change (total_size (t' :: ts)) with (GGML_PAD (nbytes_of t') GGUF_DEFAULT_ALIGNMENT + total_size ts). by rewrite Z.add_assoc.
Qed.

Lemma total_take_le ts i : Forall tensor_ok ts -> total_size (take i ts) <= total_size ts.
Proof.
  intros Hf. rewrite <- (take_drop i ts) at 2. rewrite total_app. pose proof (total_nonneg (drop i ts)) as H.
  specialize (H ltac:(by apply Forall_drop)). lia.
Qed.

Lemma next_offset_ok c t s : gf_alignment c = GGUF_DEFAULT_ALIGNMENT -> tensor_ok t -> 0 <= s ->
  s + GGML_PAD (nbytes_of t) GGUF_DEFAULT_ALIGNMENT < 2 ^ 64 ->
  next_offset c (mk_info t s) = Ok (s + GGML_PAD (nbytes_of t) GGUF_DEFAULT_ALIGNMENT).
Proof.
  intros Ha Ht Hs Hlt. destruct (nbytes_of_ok t Ht) as [Hn _]. unfold next_offset. cbn [ti_t ti_offset]. rewrite Hn, Ha.
  cbn [mbind res_bind]. pose proof (pad_nonneg t Ht). unfold usize. by rewrite (Z.mod_small (GGML_PAD _ _)), Z.mod_small by lia.
Qed.

Lemma layout_sizes s ts : Forall tensor_ok ts -> 0 <= s -> s + total_size ts < 2 ^ 64 ->
  mfor (size_step GGUF_DEFAULT_ALIGNMENT) (layout s ts) (Some s) = Ok (Some (s + total_size ts)).
Proof.
  intros Hf. revert s. induction Hf as [|t ts Ht Hf IH]; intros s Hs Hlt; cbn [layout mfor]; [by rewrite Z.add_0_r|].
  destruct (nbytes_of_ok t Ht) as [Hn _]. pose proof (pad_nonneg t Ht). pose proof (total_nonneg ts Hf).
  change (total_size (t :: ts)) with (GGML_PAD (nbytes_of t) GGUF_DEFAULT_ALIGNMENT + total_size ts) in *.
  cbn [size_step ti_offset ti_t]. rewrite Z.eqb_refl, Hn. cbn [negb mbind res_bind]. unfold usize. rewrite Z.mod_small by lia.
  rewrite (proj2 (Z.ltb_ge _ _)) by (unfold SIZE_MAX; lia). cbn [mbind res_bind]. rewrite IH by lia. do 2 f_equal. lia.
Qed.

(** ** What a context represents *)

Record rep (c : gguf_context) (m : gmap (list Z) gguf_kv) (ts : list gg_tensor) : Prop := mk_rep {
  rp_version : gf_version c = GGUF_VERSION;
  rp_alignment : gf_alignment c = GGUF_DEFAULT_ALIGNMENT;
  rp_keys : keys_ok (gf_kv c);
  rp_kvs : Forall pair_ok (gf_kv c);
  rp_map : kv_map (gf_kv c) = m;
  rp_info : gf_info c = layout 0 ts;
  rp_tensors : Forall tensor_ok ts;
  rp_names : NoDup (gg_name <$> ts);
  rp_total : total_size ts < 2 ^ 64
}.

Lemma rep_empty : rep gguf_init_empty ∅ [].
Proof. split; try done; try constructor; constructor. Qed.

Lemma size_kv_map kvs : NoDup (kv_key <$> kvs) -> size (kv_map kvs) = length kvs.
Proof.
  intros Hnd. unfold kv_map. rewrite map_size_list_to_map by (by rewrite kv_map_keys). by rewrite length_fmap.
Qed.

(** Everything that is represented can be stored. *)
Lemma rep_ok c m ts : rep c m ts -> Z.of_nat (size m) <= SIZE_MAX / SIZEOF_KV -> Z.of_nat (length ts) <= SIZE_MAX / SIZEOF_TENSOR_INFO ->
  gguf_ok c (total_size ts).
Proof.
  intros H Hm Hts. pose proof (total_nonneg ts (rp_tensors _ _ _ H)). pose proof (rp_keys _ _ _ H) as [Hnd Hko].
  split.
  - rewrite (rp_version _ _ _ H). unfold GGUF_VERSION. lia.
  - apply H.
  - done.
  - rewrite (rp_info _ _ _ H). apply Forall_lookup. intros i ti Hi. rewrite lookup_layout in Hi.
    destruct (ts !! i) as [t|] eqn:E; [|done]. injection Hi as <-. pose proof (rp_tensors _ _ _ H) as Hf. rewrite Forall_lookup in Hf.
    destruct (Hf i t E) as (? & ? & ?). pose proof (total_take_le ts i (rp_tensors _ _ _ H)). pose proof (rp_total _ _ _ H).
    pose proof (total_nonneg (take i ts) (Forall_take _ _ _ (rp_tensors _ _ _ H))).
    unfold info_ok. cbn [ti_t ti_offset]. split_and!; try done; lia.
  - unfold tensor_names. rewrite (rp_info _ _ _ H). rewrite (list_fmap_compose ti_t gg_name), layout_tensors. apply H.
  - unfold gguf_get_n_kv, gguf_get_n_tensors. rewrite (rp_info _ _ _ H), length_layout. rewrite <- (rp_map _ _ _ H), size_kv_map in Hm by done. done.
  - rewrite (rp_alignment _ _ _ H). split; [|split; [apply align_pow2|done]]. unfold context_alignment.
    destruct (find_key_spec c GGUF_KEY_GENERAL_ALIGNMENT (rp_keys _ _ _ H)) as [[_ ->]|(k & kv & Hkv & _)]; [done|].
    apply kv_map_Some in Hkv as [Hin He]; [|done]. rewrite Forall_forall in Hko. by apply Hko in Hin as (_ & _ & _ & ?).
  - rewrite (rp_alignment _ _ _ H), (rp_info _ _ _ H). apply layout_sizes; [apply H|done|apply H].
Qed.

(** ** Commands *)

Inductive gguf_call :=
  | SetVal (type : Z) (key val : list Z)
  | SetStr (key val : list Z)
  | SetArr (key : list Z) (type : Z) (data : list Z) (n : Z)
  | SetArrStr (key : list Z) (strings : list (list Z))
  | RemoveKey (key : list Z)
  | SetKv (src : gguf_context)
  | AddTensor (t : gg_tensor)
  | SetTensorType (name : list Z) (type : Z)
  | SetTensorData (name data : list Z).

Definition run_call (c : gguf_context) (cmd : gguf_call) : res gguf_context :=
  match cmd with
  | SetVal type key val => gguf_set_val type c key val
  | SetStr key val => gguf_set_val_str c key val
  | SetArr key type data n => gguf_set_arr_data c key type data n
  | SetArrStr key strings => gguf_set_arr_str c key strings
  | RemoveKey key => Ok (gguf_remove_key c key).1
  | SetKv src => gguf_set_kv c src
  | AddTensor t => gguf_add_tensor c t
  | SetTensorType name type => gguf_set_tensor_type c name type
  | SetTensorData name data => gguf_set_tensor_data c name data
  end.

(** What the commands mean: a map of pairs and a list of tensors. *)
Definition build_state : Type := gmap (list Z) gguf_kv * list gg_tensor.

Definition retyped (type : Z) (t : gg_tensor) : gg_tensor :=
  match ggml_type_size type, ggml_blck_size type with
  | Ok size, Ok blck =>
      match dense_strides size blck (gg_ne t) with
      | Ok nb => mk_gg type (gg_ne t) nb (gg_name t) (gg_data t)
      | Err _ => t
      end
  | _, _ => t
  end.

Definition with_content (data : list Z) (t : gg_tensor) : gg_tensor := mk_gg (gg_type t) (gg_ne t) (gg_nb t) (gg_name t) (Some data).

(** Change the tensor of a name. *)
Definition at_name (name : list Z) (f : gg_tensor -> gg_tensor) (ts : list gg_tensor) : list gg_tensor :=
  (fun t => if bool_decide (name = gg_name t) then f t else t) <$> ts.

Definition new_pair (cmd : gguf_call) : option gguf_kv :=
  match cmd with
  | SetVal type key val => Some (mk_kv key false type val [])
  | SetStr key val => Some (mk_kv key false GGUF_TYPE_STRING [] [val])
  | SetArr key type data n => Some (mk_kv key true type (take (Z.to_nat (n * gguf_type_size type)) data) [])
  | SetArrStr key strings => Some (mk_kv key true GGUF_TYPE_STRING [] strings)
  | _ => None
  end.

Definition build_step (s : build_state) (cmd : gguf_call) : build_state :=
  let '(m, ts) := s in
  match cmd with
  | RemoveKey key => (delete key m, ts)
  | SetKv src => (kv_map (gf_kv src) ∪ m, ts)
  | AddTensor t => (m, ts ++ [t])
  | SetTensorType name type => (m, at_name name (retyped type) ts)
  | SetTensorData name data => (m, at_name name (with_content data) ts)
  | _ => match new_pair cmd with Some kv => (<[kv_key kv := kv]> m, ts) | None => (m, ts) end
  end.

(** What a caller must keep to. *)
Definition call_ok (s : build_state) (cmd : gguf_call) : Prop :=
  match cmd with
  | SetArr key type data n => is_number_type type = true /\ 0 <= n /\ n * gguf_type_size type <= Z.of_nat (length data) | _ => True
  end /\
  match new_pair cmd with Some kv => key_ok (kv_key kv) /\ pair_ok kv | None => True end /\
  match cmd with
  | SetVal type _ _ => is_number_type type = true
  | SetKv src => keys_ok (gf_kv src) /\ Forall pair_ok (gf_kv src) /\ Forall (fun kv => Forall (fun s => 0 ∉ s) (kv_data_string kv)) (gf_kv src)
  | AddTensor t => tensor_ok t /\ gg_name t ∉ gg_name <$> s.2
  | SetTensorType name type => name ∈ gg_name <$> s.2 /\ Forall (fun t => name = gg_name t -> type_ok (retyped type t) /\ gg_type (retyped type t) = type) s.2
  | SetTensorData name _ => name ∈ gg_name <$> s.2
  | _ => True
  end /\ total_size (build_step s cmd).2 < 2 ^ 64.

(** *** Pairs *)

Lemma emplace_ok c m ts key kv : rep c m ts -> key_ok key -> pair_ok kv -> kv_key kv = key ->
  exists c', emplace_kv c key (Ok kv) = Ok c' /\ rep c' (<[key := kv]> m) ts.
Proof.
  intros H Hk Hkv He. unfold emplace_kv. destruct (remove_key_ok c key (rp_keys _ _ _ H)) as (kvs & Hc & Hkeys & Hmap & Hsub).
  destruct (gguf_remove_key c key) as [c' id]. cbn in Hc. subst c'. cbn [mbind res_bind]. eexists. split; [done|].
  destruct H as [? ? _ Hkvs <- ? ? ? ?]. split; try done; cbn [gf_kv with_kvs].
  - destruct Hkeys as [Hnd Hf]. split.
    + rewrite fmap_app. cbn. apply NoDup_snoc; [done|]. rewrite He, <- kv_map_None, Hmap. apply lookup_delete_eq.
    + apply Forall_app. split; [done|]. apply Forall_singleton. by rewrite He.
  - apply Forall_app. split; [|by apply Forall_singleton]. rewrite Forall_forall in Hkvs |- *. auto.
  - apply map_eq. intros k. apply option_eq. intros x.
    assert (NoDup (kv_key <$> kvs ++ [kv])) as Hnd.
    { rewrite fmap_app. cbn. apply NoDup_snoc; [apply Hkeys|]. rewrite He, <- kv_map_None, Hmap. apply lookup_delete_eq. }
    rewrite kv_map_Some, elem_of_app, list_elem_of_singleton by done. destruct (decide (k = key)) as [->|Hne].
    + rewrite lookup_insert_eq. split; [|intros [= <-]; by split; [right|]]. intros [[Hin| ->] Hx]; [|done]. exfalso.
      assert (kv_map kvs !! key = Some x) as Hl by (by apply kv_map_Some; [apply Hkeys|]). by rewrite Hmap, lookup_delete_eq in Hl.
    + rewrite lookup_insert_ne by done. rewrite <- (lookup_delete_ne _ key k) by done. rewrite <- Hmap, kv_map_Some by apply Hkeys.
      split; [|by intros [? ?]; split; [left|]]. intros [[Hin| ->] Hx]; [done|]. congruence.
Qed.

Lemma check_reserved_ok key v : key_ok key -> gguf_check_reserved_keys key v = Ok tt.
Proof. intros (_ & _ & _ & Hne). unfold gguf_check_reserved_keys. by rewrite bool_decide_eq_false_2. Qed.

Lemma new_kv_ok key is_array type data strings : key <> [] -> new_kv key is_array type data strings = Ok (mk_kv key is_array type data strings).
Proof. intros H. unfold new_kv. by rewrite bool_decide_eq_false_2. Qed.

Lemma set_pair_refines c m ts cmd kv : rep c m ts -> call_ok (m, ts) cmd -> new_pair cmd = Some kv ->
  exists c', run_call c cmd = Ok c' /\ rep c' (<[kv_key kv := kv]> m) ts.
Proof.
  intros H (Harr & Hpair & _) Hnew. rewrite Hnew in Hpair. destruct Hpair as [Hk Hkv]. pose proof Hk as (Hne & _).
  destruct (emplace_ok c m ts (kv_key kv) kv H Hk Hkv eq_refl) as (c' & He & Hr). exists c'. split; [|done].
  destruct cmd; simplify_eq/=.
  - unfold gguf_set_val. rewrite check_reserved_ok by done. cbn [mbind res_bind]. by rewrite new_kv_ok.
  - unfold gguf_set_val_str. rewrite check_reserved_ok by done. cbn [mbind res_bind]. by rewrite new_kv_ok.
  - destruct Harr as (Ht & Hn & Hlen). pose proof (number_size _ Ht) as Hsz. unfold gguf_set_arr_data. rewrite check_reserved_ok by done.
    cbn [mbind res_bind]. cbv zeta.
    assert (usize (n * gguf_type_size type) = n * gguf_type_size type) as ->.
    { apply Z.mod_small. destruct Hkv as [_ [_ Hmax] [(_ & _ & _ & Hl & _)|(E & _)]]; cbn in *; [|by rewrite E in Ht].
      rewrite length_take in Hl. unfold GGUF_MAX_ARRAY_ELEMENTS in Hmax. nia. }
    rewrite (proj2 (Z.leb_le _ _)) by done. cbn [mbind res_bind]. rewrite new_kv_ok by done. cbn [mbind res_bind]. unfold cast.
    cbn [kv_data kv_key kv_is_array kv_data_string]. unfold cmod. rewrite (proj2 (Z.eqb_neq (gguf_type_size type) 0)) by lia. cbn [mbind res_bind].
    rewrite length_take, Nat.min_l by lia. rewrite Z2Nat.id by nia. rewrite Z.mod_mul by lia. exact He.
  - unfold gguf_set_arr_str. rewrite check_reserved_ok by done. cbn [mbind res_bind]. by rewrite new_kv_ok.
Qed.

Lemma map_zero_free (l : list (list Z)) : Forall (fun s => 0 ∉ s) l -> c_str <$> l = l.
Proof. induction 1 as [|s l Hs _ IH]; [done|]. cbn. by rewrite c_str_id, IH. Qed.

Lemma get_val_scalar kv : pair_ok kv -> is_number_type (kv_type kv) = true -> kv_is_array kv = false -> get_val (kv_type kv) kv 0 = Ok (kv_data kv).
Proof.
  intros [_ [H1 _] [(Ht & _ & _ & Hl & _)|(E & _)]] Hn Ha; [|by rewrite E in Hn]. rewrite H1, Z.mul_1_l in Hl by done. pose proof (number_size _ Ht).
  unfold get_val, cmod. rewrite Z.eqb_refl. cbn [assert_ mbind res_bind]. cbv zeta. rewrite (proj2 (Z.eqb_neq (gguf_type_size _) 0)) by lia.
  cbn [mbind res_bind]. rewrite Hl, Z.mod_same by lia. cbn [assert_ mbind res_bind Z.eqb].
  rewrite (proj2 (Z.leb_le _ _)) by lia. cbn [assert_ mbind res_bind]. rewrite Nat.mul_0_l, drop_0, take_ge by lia. done.
Qed.

(** Copying a pair sets it. *)
Lemma set_kv_step_ok c kv : key_ok (kv_key kv) -> pair_ok kv -> Forall (fun s => 0 ∉ s) (kv_data_string kv) ->
  set_kv_step c kv = emplace_kv c (kv_key kv) (Ok kv).
Proof.
  intros Hk Hkv Hz. pose proof Hk as (Hne & _ & Hz' & _). unfold set_kv_step. rewrite (c_str_id _ Hz'). cbv zeta.
  pose proof (kv_type_range kv Hkv) as (_ & _ & Hty). pose proof Hkv as [_ Hc [(Ht & Hs & Hb & Hl & H01)|(Ht & Hd & Hs)]].
  - pose proof (number_size _ Ht) as Hsz. rewrite Ht. destruct (kv_is_array kv) eqn:Ea; cbn [negb].
    + rewrite (get_ne_ok kv Hkv). cbn [mbind res_bind]. unfold gguf_set_arr_data. rewrite check_reserved_ok by done. cbn [mbind res_bind]. cbv zeta.
      destruct Hc as [_ Hmax]. unfold GGUF_MAX_ARRAY_ELEMENTS in Hmax. pose proof (kv_count_nonneg kv Hkv) as H0.
      assert (usize (kv_count kv * gguf_type_size (kv_type kv)) = Z.of_nat (length (kv_data kv))) as -> by (rewrite <- Hl; apply Z.mod_small; nia).
      rewrite Z.leb_refl. cbn [mbind res_bind]. rewrite new_kv_ok by done. cbn [mbind res_bind]. unfold cast, cmod. cbn [kv_data kv_key kv_is_array kv_data_string].
      rewrite (proj2 (Z.eqb_neq (gguf_type_size _) 0)) by lia. cbn [mbind res_bind]. rewrite Nat2Z.id, take_ge by lia. rewrite Hl, Z.mod_mul by lia.
      cbn [assert_ mbind res_bind Z.eqb]. destruct kv; cbn in *; by subst.
    + rewrite (get_val_scalar kv Hkv Ht Ea). cbn [mbind res_bind]. unfold gguf_set_val. rewrite check_reserved_ok by done. cbn [mbind res_bind].
      rewrite new_kv_ok by done. destruct kv; cbn in *; by subst.
  - rewrite Ht. change (is_number_type GGUF_TYPE_STRING) with false. rewrite Z.eqb_refl. destruct (kv_is_array kv) eqn:Ea; cbn [negb].
    + rewrite (get_ne_ok kv Hkv). cbn [mbind res_bind]. unfold gguf_set_arr_str. rewrite check_reserved_ok by done. cbn [mbind res_bind].
      rewrite new_kv_ok by done. rewrite map_zero_free by done. destruct kv; cbn in *; by subst.
    + destruct Hc as [H1 _]. specialize (H1 eq_refl). unfold kv_count in H1. rewrite Ht, Z.eqb_refl in H1.
      destruct (kv_data_string kv) as [|s [|]] eqn:El; cbn in H1; [lia| |lia]. unfold get_val_string. rewrite Ht, El. cbn [assert_ mbind res_bind Z.eqb Pos.eqb GGUF_TYPE_STRING].
      cbn. unfold gguf_set_val_str. rewrite check_reserved_ok by done. cbn [mbind res_bind]. rewrite new_kv_ok by done.
      apply Forall_cons in Hz as [Hz1 _]. rewrite c_str_id by done. destruct kv; cbn in *; by subst.
Qed.

Lemma set_kv_refines c m ts kvs : rep c m ts -> keys_ok kvs -> Forall pair_ok kvs -> Forall (fun kv => Forall (fun s => 0 ∉ s) (kv_data_string kv)) kvs ->
  exists c', mfor set_kv_step kvs c = Ok c' /\ rep c' (kv_map kvs ∪ m) ts.
Proof.
  intros H [Hnd Hk] Hkv Hz. revert c m H. induction kvs as [|kv kvs IH]; intros c m H.
  { exists c. split; [done|]. unfold kv_map. cbn. by rewrite (left_id_L ∅ _). }
  apply Forall_cons in Hk as [Hk1 Hk2], Hkv as [Hkv1 Hkv2], Hz as [Hz1 Hz2]. cbn in Hnd. apply NoDup_cons in Hnd as [Hni Hnd].
  cbn [mfor]. rewrite set_kv_step_ok by done. destruct (emplace_ok c m ts (kv_key kv) kv H Hk1 Hkv1 eq_refl) as (c1 & -> & H1). cbn [mbind res_bind].
  destruct (IH Hnd Hk2 Hkv2 Hz2 c1 _ H1) as (c' & -> & H'). exists c'. split; [done|].
  assert (kv_map (kv :: kvs) ∪ m = kv_map kvs ∪ <[kv_key kv := kv]> m) as ->; [|done].
  change (kv_map (kv :: kvs)) with (<[kv_key kv := kv]> (kv_map kvs)). apply kv_map_None in Hni.
  by rewrite <- insert_union_l, insert_union_r.
Qed.

(** *** Tensors *)

Lemma find_tensor_spec c m ts name : rep c m ts ->
  (name ∉ gg_name <$> ts /\ gguf_find_tensor c name = -1) \/
  (exists i t, ts !! i = Some t /\ gg_name t = name /\ gguf_find_tensor c name = Z.of_nat i).
Proof.
  intros H. unfold gguf_find_tensor. rewrite (rp_info _ _ _ H).
  destruct (decide (name ∈ gg_name <$> ts)) as [Hin|Hni].
  - right. apply list_elem_of_fmap in Hin as (t & -> & Hin). apply list_elem_of_lookup in Hin as [i Hi]. exists i, t. split; [done|]. split; [done|].
    rewrite (index_of_Some _ _ 0 i (mk_info t (0 + total_size (take i ts)))); [lia|by rewrite lookup_layout, Hi|by apply bool_decide_eq_true|].
    intros j y Hj Hy. rewrite lookup_layout in Hy. destruct (ts !! j) as [t'|] eqn:Ej; [|done]. injection Hy as <-. cbn [ti_t].
    apply bool_decide_eq_false. intros He. assert (j = i); [|lia].
    eapply (NoDup_lookup _ _ _ (gg_name t) (rp_names _ _ _ H)); rewrite list_lookup_fmap; [rewrite Ej|rewrite Hi]; cbn; congruence.
  - left. split; [done|]. apply index_of_None. intros ti Hin. apply list_elem_of_lookup in Hin as [i Hi]. rewrite lookup_layout in Hi.
    destruct (ts !! i) as [t|] eqn:E; [|done]. injection Hi as <-. cbn [ti_t]. apply bool_decide_eq_false. intros ->. apply Hni.
    apply list_elem_of_fmap_2. by eapply list_elem_of_lookup_2.
Qed.

Lemma rep_with_infos c m ts ts' infos : rep c m ts -> infos = layout 0 ts' -> Forall tensor_ok ts' -> NoDup (gg_name <$> ts') -> total_size ts' < 2 ^ 64 ->
  rep (with_infos infos c) m ts'.
Proof. intros [] -> ? ? ?. by split. Qed.

Lemma add_tensor_refines c m ts t : rep c m ts -> tensor_ok t -> gg_name t ∉ gg_name <$> ts -> total_size (ts ++ [t]) < 2 ^ 64 ->
  exists c', gguf_add_tensor c t = Ok c' /\ rep c' m (ts ++ [t]).
Proof.
  intros H Ht Hni Hlt. unfold gguf_add_tensor. destruct (find_tensor_spec c m ts (gg_name t) H) as [[_ ->]|(i & t' & Hi & He & _)].
  2:{ exfalso. apply Hni. rewrite <- He. apply list_elem_of_fmap_2. by eapply list_elem_of_lookup_2. }
  cbn [Z.eqb assert_ mbind res_bind Pos.eqb].
  assert ((match last (gf_info c) with None => Ok 0 | Some ti => next_offset c ti end) = Ok (total_size ts)) as ->.
  { rewrite (rp_info _ _ _ H). destruct ts as [|t0 ts0 _] using rev_ind; [done|]. rewrite layout_snoc, last_snoc, Z.add_0_l.
    pose proof (rp_tensors _ _ _ H) as [Hf0 Ht0]%Forall_app. apply Forall_cons in Ht0 as [Ht0 _]. pose proof (rp_total _ _ _ H) as Htot. rewrite total_app in Htot.
    rewrite next_offset_ok; [|apply H|done|by apply total_nonneg|cbn in Htot; lia]. rewrite total_app. cbn. by rewrite Z.add_0_r. }
  cbn [mbind res_bind]. eexists. split; [done|]. eapply rep_with_infos; [done| | | |done].
  - by rewrite (rp_info _ _ _ H), layout_snoc.
  - apply Forall_app. split; [apply H|by apply Forall_singleton].
  - rewrite fmap_app. apply NoDup_snoc; [apply H|done].
Qed.

Lemma at_name_insert name f ts i t : ts !! i = Some t -> gg_name t = name -> NoDup (gg_name <$> ts) -> at_name name f ts = <[i := f t]> ts.
Proof.
  intros Hi Hn Hnd. apply list_eq. intros j. unfold at_name. rewrite list_lookup_fmap. destruct (decide (j = i)) as [->|Hne].
  - rewrite list_lookup_insert_eq by (by eapply lookup_lt_Some). rewrite Hi. cbn. by rewrite bool_decide_eq_true_2.
  - rewrite list_lookup_insert_ne by done. destruct (ts !! j) as [t'|] eqn:E; [|done]. cbn. rewrite bool_decide_eq_false_2; [done|].
    intros He. apply Hne. eapply (NoDup_lookup _ _ _ name Hnd); rewrite list_lookup_fmap; [rewrite E|rewrite Hi]; cbn; congruence.
Qed.

Lemma names_insert (ts : list gg_tensor) (i : nat) t t' : ts !! i = Some t -> gg_name t' = gg_name t -> gg_name <$> <[i := t']> ts = gg_name <$> ts.
Proof. intros Hi Hn. rewrite list_fmap_insert, Hn. apply list_insert_id. by rewrite list_lookup_fmap, Hi. Qed.

Lemma total_insert_same ts (i : nat) t t' : ts !! i = Some t -> nbytes_of t' = nbytes_of t -> total_size (<[i := t']> ts) = total_size ts.
Proof.
  intros Hi Hn. rewrite <- (list_insert_id _ _ _ Hi) at 2. rewrite !insert_take_drop by (by eapply lookup_lt_Some).
  rewrite !total_app. cbn. by rewrite Hn.
Qed.

Lemma total_take_S ts k t : ts !! k = Some t -> total_size (take (S k) ts) = total_size (take k ts) + GGML_PAD (nbytes_of t) GGUF_DEFAULT_ALIGNMENT.
Proof. intros Hk. rewrite (take_S_r _ _ _ Hk), total_app. cbn. lia. Qed.

Lemma set_data_refines c m ts name data : rep c m ts -> name ∈ gg_name <$> ts ->
  exists c', gguf_set_tensor_data c name data = Ok c' /\ rep c' m (at_name name (with_content data) ts).
Proof.
  intros H Hin. unfold gguf_set_tensor_data. destruct (find_tensor_spec c m ts name H) as [[? _]|(i & t & Hi & He & ->)]; [done|].
  rewrite (proj2 (Z.leb_le _ _)) by lia. cbn [assert_ mbind res_bind]. unfold vec_getZ. rewrite (proj2 (Z.leb_le _ _)) by lia. rewrite Nat2Z.id.
  pose proof (lookup_layout 0 ts i) as Hl. rewrite Hi, <- (rp_info _ _ _ H) in Hl. rewrite (proj2 (vec_get_ok _ _ _) Hl). cbn [mbind res_bind]. cbv zeta.
  cbn [ti_t ti_offset]. eexists. split; [done|]. rewrite (at_name_insert _ _ _ _ _ Hi He (rp_names _ _ _ H)). fold (with_content data t).
  assert (nbytes_of (with_content data t) = nbytes_of t) as Hnb by done.
  eapply rep_with_infos; [done| | | |].
  - rewrite (rp_info _ _ _ H). apply list_eq. intros j. rewrite lookup_layout. destruct (decide (j = i)) as [->|Hne].
    + rewrite list_lookup_insert_eq by (rewrite length_layout; by eapply lookup_lt_Some). rewrite list_lookup_insert_eq by (by eapply lookup_lt_Some).
      cbn. by rewrite take_insert_ge by done.
    + rewrite !list_lookup_insert_ne, lookup_layout by done. destruct (ts !! j); [|done]. cbn. do 3 f_equal.
      destruct (decide (j <= i)%nat); [by rewrite take_insert_ge|]. rewrite take_insert_lt by lia. symmetry. apply (total_insert_same _ _ t); [|done].
      by rewrite lookup_take_lt by lia.
  - apply Forall_insert; [apply H|]. pose proof (rp_tensors _ _ _ H) as Hf. rewrite Forall_lookup in Hf. exact (Hf i t Hi).
  - rewrite (names_insert _ _ t) by done. apply H.
  - rewrite (total_insert_same _ _ t) by done. apply H.
Qed.

Lemma retyped_ok type t : type_ok (retyped type t) -> gg_type (retyped type t) = type -> exists size blck nb,
  ggml_type_size type = Ok size /\ ggml_blck_size type = Ok blck /\ 0 < blck /\ d0 (gg_ne t) mod blck = 0 /\
  dense_strides size blck (gg_ne t) = Ok nb /\ retyped type t = mk_gg type (gg_ne t) nb (gg_name t) (gg_data t).
Proof.
  intros (size & blck & _ & Hs & Hb & _ & Hb0 & Hmod & _ & Hnb) Ht. rewrite Ht in Hs, Hb.
  assert (gg_ne (retyped type t) = gg_ne t) as Hne by (unfold retyped; repeat case_match; done). rewrite Hne in *.
  exists size, blck, (gg_nb (retyped type t)). split_and!; try done. unfold retyped at 1. rewrite Hs, Hb, Hnb. done.
Qed.

(** The loop of [gguf_set_tensor_type] moves every tensor behind the changed one. *)
Lemma update_loop_ok c ts' i infos : gf_alignment c = GGUF_DEFAULT_ALIGNMENT -> Forall tensor_ok ts' -> total_size ts' < 2 ^ 64 ->
  ti_t <$> infos = ts' -> (i < length ts')%nat -> (forall j, (j <= i)%nat -> infos !! j = layout 0 ts' !! j) ->
  mfor update_offset (seq (i + 1) (length infos - (i + 1))) (with_infos infos c) = Ok (with_infos (layout 0 ts') c).
Proof.
  intros Ha Hf Htot Hts Hi Hbefore. assert (length infos = length ts') as Hlen by (by rewrite <- Hts, length_fmap).
  assert (sat (mfor update_offset (seq (i + 1) (length infos - (i + 1))) (with_infos infos c))
    (fun c' => c' = with_infos (layout 0 ts') c)) as Hs; [|by apply sat_exists in Hs as (? & -> & ->)].
  eapply sat_mono; [apply (sat_mfor update_offset (fun d c' => exists infos', c' = with_infos infos' c /\ ti_t <$> infos' = ts' /\
    forall j, (j <= i + length d)%nat -> infos' !! j = layout 0 ts' !! j))|].
  - exists infos. split_and!; [done|done|]. intros j Hj. apply Hbefore. cbn in Hj. lia.
  - intros d k r c' Heq (infos' & -> & Hts' & Hd).
    assert (k = i + 1 + length d /\ i + 1 + length d < length ts')%nat as [-> Hk].
    { assert (seq (i + 1) (length infos - (i + 1)) !! length d = Some k) as Hx by (rewrite Heq; by apply list_lookup_middle). apply lookup_seq in Hx as [-> ?]. lia. }
    unfold update_offset. cbn [gf_info with_infos]. replace (i + 1 + length d - 1)%nat with (i + length d)%nat by lia.
    destruct (lookup_lt_is_Some_2 ts' (i + length d)) as [tp Hp]; [lia|]. destruct (lookup_lt_is_Some_2 ts' (i + 1 + length d)) as [tk Htk]; [lia|].
    pose proof (Hd (i + length d)%nat ltac:(lia)) as Hprev. rewrite lookup_layout, Hp in Hprev. cbn in Hprev.
    apply sat_bind. eapply sat_vec_get; [exact Hprev|].
    pose proof (f_equal (.!! (i + 1 + length d)%nat) Hts') as Hcur. rewrite list_lookup_fmap, Htk in Hcur. cbn in Hcur.
    destruct (infos' !! (i + 1 + length d)%nat) as [ti|] eqn:Eti; [|done]. injection Hcur as Hti.
    apply sat_bind. eapply sat_vec_get; [done|]. rewrite Forall_lookup in Hf. pose proof (total_take_le ts' (S (i + length d)) ltac:(by apply Forall_lookup)) as Hle.
    rewrite (total_take_S _ _ _ Hp) in Hle. pose proof (total_nonneg (take (i + length d) ts') ltac:(by apply Forall_take, Forall_lookup)) as H0.
    rewrite next_offset_ok; [|done|by eapply Hf|lia|lia]. cbn [mbind res_bind]. apply sat_ok. eexists. split; [reflexivity|].
    assert (i + 1 + length d < length infos')%nat as Hlt by (by rewrite <- (length_fmap ti_t infos'), Hts').
    split.
    + rewrite list_fmap_insert. cbn [ti_t]. rewrite Hti, Hts'. by apply list_insert_id.
    + intros j Hj. rewrite length_app in Hj. cbn in Hj. destruct (decide (j = i + 1 + length d)%nat) as [->|Hne].
      * rewrite list_lookup_insert_eq by done. rewrite lookup_layout, Htk. cbn. rewrite Hti. do 2 f_equal.
        replace (i + 1 + length d)%nat with (S (i + length d)) by lia. rewrite (total_take_S _ _ _ Hp). lia.
      * rewrite list_lookup_insert_ne by done. apply Hd. lia.
  - intros c' (infos' & -> & Hts' & Hd). rewrite length_seq in Hd. f_equal. apply list_eq. intros j.
    destruct (decide (j < length ts')%nat) as [Hj|Hj]; [apply Hd; lia|].
    rewrite !lookup_ge_None_2; [done|rewrite length_layout; lia|rewrite <- (length_fmap ti_t infos'), Hts'; lia].
Qed.

Lemma set_type_refines c m ts name type : rep c m ts -> name ∈ gg_name <$> ts ->
  Forall (fun t => name = gg_name t -> type_ok (retyped type t) /\ gg_type (retyped type t) = type) ts ->
  total_size (at_name name (retyped type) ts) < 2 ^ 64 ->
  exists c', gguf_set_tensor_type c name type = Ok c' /\ rep c' m (at_name name (retyped type) ts).
Proof.
  intros H Hin Hty Htot. unfold gguf_set_tensor_type. destruct (find_tensor_spec c m ts name H) as [[? _]|(i & t & Hi & He & ->)]; [done|].
  cbv zeta. rewrite (proj2 (Z.leb_le _ _)) by lia. cbn [assert_ mbind res_bind]. unfold vec_getZ. rewrite (proj2 (Z.leb_le _ _)) by lia. rewrite Nat2Z.id.
  pose proof (lookup_layout 0 ts i) as Hl. rewrite Hi, <- (rp_info _ _ _ H) in Hl. rewrite (proj2 (vec_get_ok _ _ _) Hl). cbn [mbind res_bind].
  rewrite Forall_lookup in Hty. destruct (Hty i t Hi (eq_sym He)) as [Hok Hrt]. destruct (retyped_ok type t Hok Hrt) as (size & blck & nb & Hs & Hb & Hb0 & Hmod & Hnb & Hr).
  rewrite Hs, Hb. cbn [mbind res_bind ti_t ti_offset]. unfold cmod. rewrite (proj2 (Z.eqb_neq blck 0)) by lia. cbn [mbind res_bind].
  rewrite Hmod. cbn [assert_ mbind res_bind Z.eqb]. rewrite Hnb. cbn [mbind res_bind]. rewrite <- Hr.
  rewrite (at_name_insert _ _ _ _ _ Hi He (rp_names _ _ _ H)) in Htot |- *. set (ts' := <[i := retyped type t]> ts) in *.
  assert (i < length ts)%nat as Hlt by (by eapply lookup_lt_Some). pose proof (rp_tensors _ _ _ H) as Hf.
  assert (tensor_ok (retyped type t)) as Hto.
  { rewrite Forall_lookup in Hf. destruct (Hf i t Hi) as (Hn & Hsh & _). rewrite Hr. cbn. split_and!; [done|done|]. by rewrite <- Hr. }
  assert (Forall tensor_ok ts') as Hf' by (by apply Forall_insert).
  eexists. split.
  { cbn [gf_info with_infos]. apply (update_loop_ok c ts' i); [apply H|done|done| |subst ts'; by rewrite length_insert|].
    - rewrite list_fmap_insert, (rp_info _ _ _ H), layout_tensors. done.
    - intros j Hj. rewrite (rp_info _ _ _ H), lookup_layout. destruct (decide (j = i)) as [->|Hne].
      + rewrite list_lookup_insert_eq by (by rewrite length_layout). subst ts'. rewrite list_lookup_insert_eq by done. cbn. by rewrite take_insert_ge by done.
      + subst ts'. rewrite !list_lookup_insert_ne, lookup_layout by done. destruct (ts !! j); [|done]. cbn. by rewrite take_insert_ge by lia. }
  eapply rep_with_infos; [done|done|done| |done]. subst ts'. rewrite (names_insert _ _ t); [apply H|done|by rewrite Hr].
Qed.

(** ** Runs of commands *)

Fixpoint calls_allowed (s : build_state) (cmds : list gguf_call) : Prop :=
  match cmds with
  | [] => True
  | cmd :: cmds => call_ok s cmd /\ calls_allowed (build_step s cmd) cmds
  end.

Lemma call_refines c m ts cmd : rep c m ts -> call_ok (m, ts) cmd ->
  exists c', run_call c cmd = Ok c' /\ rep c' (build_step (m, ts) cmd).1 (build_step (m, ts) cmd).2.
Proof.
  intros H Hal. destruct (new_pair cmd) as [kv|] eqn:E.
  { destruct (set_pair_refines c m ts cmd kv H Hal E) as (c' & Hr & Hrep). exists c'. split; [done|]. destruct cmd; by simplify_eq/=. }
  destruct cmd; try done; destruct Hal as (_ & _ & Hal & Htot); cbn [build_step new_pair fst snd run_call] in *.
  - destruct (remove_key_ok c key (rp_keys _ _ _ H)) as (kvs & Hc & Hkeys & Hmap & Hsub). eexists. split; [done|]. rewrite Hc.
    destruct H as [? ? _ Hkvs <- ? ? ? ?]. split; try done; cbn [gf_kv with_kvs]. rewrite Forall_forall in Hkvs |- *. auto.
  - destruct Hal as (H1 & H2 & H3). by apply set_kv_refines.
  - destruct Hal. by apply add_tensor_refines.
  - destruct Hal. by apply set_type_refines.
  - by apply set_data_refines.
Qed.

Lemma calls_refine cmds c m ts : rep c m ts -> calls_allowed (m, ts) cmds ->
  exists c', mfor run_call cmds c = Ok c' /\ rep c' (foldl build_step (m, ts) cmds).1 (foldl build_step (m, ts) cmds).2.
Proof.
  revert c m ts. induction cmds as [|cmd cmds IH]; intros c m ts H Hal; [by exists c|]. destruct Hal as [H1 H2].
  cbn [mfor foldl]. destruct (call_refines c m ts cmd H H1) as (c' & -> & Hr). cbn [mbind res_bind].
  destruct (build_step (m, ts) cmd) as [m' ts']. by apply IH.
Qed.

(** Looking up a key in a context. *)
Definition finds (c : gguf_context) (key : list Z) (o : option gguf_kv) : Prop :=
  match o with
  | None => gguf_find_key c key = -1
  | Some kv => kv_at c (gguf_find_key c key) = Ok kv /\
      (kv_is_array kv = false -> is_number_type (kv_type kv) = true -> gguf_get_val (kv_type kv) c (gguf_find_key c key) = Ok (kv_data kv))
  end.

(** C21: A run of calls that build a context (setting and removing pairs, copying the pairs of another
    context, adding tensors, changing their types and their data) never stops when its arguments are
    allowed, and refines a finite map and a list: each key is found with the value set last, the
    tensors are there in order, each at the aligned end of the one before, and the context can be
    stored. *)
Theorem gguf_build_refines cmds : calls_allowed (∅, []) cmds ->
  let '(m, ts) := foldl build_step (∅, []) cmds in
  exists c, mfor run_call cmds gguf_init_empty = Ok c /\
    (forall key, finds c key (m !! key)) /\
    gf_info c = layout 0 ts /\
    (Z.of_nat (size m) <= SIZE_MAX / SIZEOF_KV -> Z.of_nat (length ts) <= SIZE_MAX / SIZEOF_TENSOR_INFO -> gguf_ok c (total_size ts)).
Proof.
  intros Hal. destruct (calls_refine cmds _ _ _ rep_empty Hal) as (c & Hc & Hr). destruct (foldl build_step (∅, []) cmds) as [m ts].
  exists c. split; [done|]. split; [|split; [apply Hr|by apply rep_ok]]. intros key. cbn [fst snd] in Hr.
  destruct (find_key_spec c key (rp_keys _ _ _ Hr)) as [[Hm Hf]|(k & kv & Hm & Hk & Hf)]; rewrite (rp_map _ _ _ Hr) in Hm; rewrite Hm; cbn; [done|].
  assert (kv_at c (gguf_find_key c key) = Ok kv) as Hat.
  { pose proof (lookup_lt_Some _ _ _ Hk). rewrite Hf. unfold kv_at, vec_getZ, gguf_get_n_kv.
    rewrite (proj2 (Z.leb_le _ _)), (proj2 (Z.ltb_lt _ _)) by lia. cbn [andb assert_ mbind res_bind]. rewrite Nat2Z.id. by apply vec_get_ok. }
  split; [done|]. intros Ha Ht. pose proof (rp_kvs _ _ _ Hr) as Hkv. rewrite Forall_lookup in Hkv. specialize (Hkv k kv Hk).
  unfold gguf_get_val. rewrite Hat. cbn [mbind res_bind]. rewrite (get_ne_ok kv Hkv). cbn [mbind res_bind].
  rewrite (proj1 (ko_count _ Hkv) Ha). cbn [assert_ mbind res_bind Z.eqb Pos.eqb]. by apply get_val_scalar.
Qed.
