(* ===== verification/GgufExamples.v ===== *)
(** * Model files: examples, and where the code goes wrong *)

From S2P Require Import Prelude IoBytes GgmlTypes Gguf GgufRead GgufWrite GgufTheory GgufStore GgufProps GgufSafe GgufApi.

(** ** A context with four pairs and two tensors *)

Definition dense_tensor (type size blck : Z) (ne : dims) (name data : list Z) : gg_tensor :=
  mk_gg type ne (match dense_strides size blck ne with Ok nb => nb | Err _ => ne end) name (Some data).

(** Six floats, and a block of 32 values of type Q8_0. *)
Definition floats : gg_tensor := dense_tensor 0 4 1 (mk_dims 3 2 1 1) [120] (replicate 24 7).
Definition q8_block : gg_tensor := dense_tensor 8 34 32 (mk_dims 32 1 1 1) [121] (replicate 34 9).

Definition calls : list gguf_call := [
  SetVal GGUF_TYPE_UINT16 [97] [5; 1];
  SetStr [98] [104; 105];
  SetArrStr [99] [[]; [1; 2; 3]];
  SetArr [100] GGUF_TYPE_BOOL [1; 0; 1; 7] 3;
  SetVal GGUF_TYPE_UINT16 [97] [6; 1];
  RemoveKey [98];
  AddTensor floats;
  AddTensor q8_block;
  SetTensorType [120] 1;
  SetTensorData [121] (replicate 34 8)
].

Ltac small := repeat first [apply Forall_nil_2 | apply Forall_cons_2 | split]; cbn; try (intros; discriminate); try (set_unfold; lia); try lia; try done.

Lemma floats_ok : tensor_ok floats.
Proof. split; [small|]. split; [small|]. exists 4, 1. small. Qed.

Lemma q8_block_ok : tensor_ok q8_block.
Proof. split; [small|]. split; [small|]. exists 34, 32. small. Qed.

(** As half floats. *)
Lemma halves_ok : type_ok (retyped 1 floats).
Proof. exists 2, 1. small. Qed.

Ltac decided := apply (bool_decide_unpack _); vm_compute; exact I.

Ltac bits := intros; repeat (apply Forall_cons_2; [first [left; reflexivity | right; reflexivity]|]); apply Forall_nil_2.

Lemma calls_ok : calls_allowed (∅, []) calls.
Proof.
  assert (forall key, key ∈ [[97]; [98]; [99]; [100]] -> key_ok key) as Hk.
  { intros key Hin. set_unfold in Hin. destruct_or! Hin; subst; small. }
  unfold calls. cbn [calls_allowed]. unfold call_ok. cbn [new_pair].
  repeat match goal with
  | |- True => exact I
  | |- key_ok _ => apply Hk; set_solver
  | |- pair_ok ?k => let k' := eval vm_compute in k in change (pair_ok k'); split; [small|small|first [left; solve [small; bits] | right; solve [small]]]
  | |- tensor_ok floats => apply floats_ok
  | |- tensor_ok q8_block => apply q8_block_ok
  | |- total_size _ < _ => vm_compute; reflexivity
  | |- Forall (fun t => _ -> type_ok _ /\ _) _ =>
      match goal with |- Forall ?P ?l => change (Forall P [floats; q8_block]) end;
      apply Forall_cons_2; [intros _; split; [apply halves_ok|reflexivity]|apply Forall_cons_2; [intros; discriminate|apply Forall_nil_2]]
  | |- _ /\ _ => split
  | |- _ => first [decided | solve [small]]
  end.
Qed.

(** The context that these calls build. *)
Definition ctx1 : gguf_context := match mfor run_call calls gguf_init_empty with Ok c => c | Err _ => gguf_init_empty end.

Lemma ctx1_ok : gguf_ok ctx1 96.
Proof.
  destruct (calls_refine calls _ _ _ rep_empty calls_ok) as (c & Hc & Hr).
  assert (c = ctx1) as -> by (unfold ctx1; by rewrite Hc).
  replace 96 with (total_size (foldl build_step (∅, []) calls).2) by (vm_compute; reflexivity).
  apply (rep_ok _ _ _ Hr); vm_compute; discriminate.
Qed.

Definition bytes1 : list (list Z) := [replicate 12 7; replicate 34 8].

Lemma gguf_round_trip_witness : exists file blob l gr,
  gguf_write_to_buf ctx1 [] false = Ok file /\
  gguf_init_from_file_ptr (fun _ => true) (Some false) (open_reader file) = Ok (Some (as_read ctx1 96 (Some blob), Some l, gr)) /\
  loaded_tensors ctx1 bytes1 l.
Proof.
  apply (gguf_round_trip (fun _ => true) ctx1 96 bytes1 ctx1_ok); [|done|vm_compute; discriminate|vm_compute; reflexivity].
  let l := eval vm_compute in (gf_info ctx1) in replace (gf_info ctx1) with l by (vm_compute; reflexivity).
  repeat (apply Forall2_cons_2; [vm_compute; reflexivity|]). apply Forall2_nil_2.
Defined.

Lemma gguf_read_safe_witness : all_bytes GGUF_MAGIC /\
  match gguf_init_from_file_ptr (fun _ => true) None (open_reader GGUF_MAGIC) with
  | Ok None => True
  | Ok (Some (c, _, _)) => gguf_ok c (gf_size c)
  | Err e => e = AssertFailed \/ e = DivByZero
  end.
Proof. assert (all_bytes GGUF_MAGIC) as H by small. split; [exact H|]. apply (gguf_read_safe (fun _ => true) None GGUF_MAGIC H). Defined.

Lemma gguf_build_refines_witness : calls_allowed (∅, []) calls /\
  (let '(m, ts) := foldl build_step (∅, []) calls in
   exists c, mfor run_call calls gguf_init_empty = Ok c /\
     (forall key, finds c key (m !! key)) /\
     gf_info c = layout 0 ts /\
     (Z.of_nat (size m) <= SIZE_MAX / SIZEOF_KV -> Z.of_nat (length ts) <= SIZE_MAX / SIZEOF_TENSOR_INFO -> gguf_ok c (total_size ts))).
Proof. split; [apply calls_ok|apply (gguf_build_refines calls), calls_ok]. Defined.

(** ** What goes wrong *)

Definition file_header (n_tensors n_kv : Z) : list Z := GGUF_MAGIC ++ le 4 GGUF_VERSION ++ le 8 n_tensors ++ le 8 n_kv.

(** A tensor [t] with the given dimensions, type and offset 0. *)
Definition tensor_entry (ne : list Z) (type : Z) : list Z :=
  string_content [116] ++ le 4 (Z.of_nat (length ne)) ++ concat (le 8 <$> ne) ++ le 4 type ++ le 8 0.

Definition zero_dim_file : list Z := file_header 1 0 ++ tensor_entry [1; 0] 0.
Definition empty_key_file : list Z := file_header 0 1 ++ string_content [] ++ le 4 GGUF_TYPE_UINT8 ++ [5].
Definition alignment_u8_file : list Z := file_header 0 1 ++ string_content GGUF_KEY_GENERAL_ALIGNMENT ++ le 4 GGUF_TYPE_UINT8 ++ [32].
Definition huge_file : list Z := file_header 1 0 ++ tensor_entry [2 ^ 60] GGML_TYPE_I8.
Definition wrap_file : list Z := file_header 1 0 ++ tensor_entry [2 ^ 61 - 1] 27 ++ replicate 63 0.

(** Less than 2 ^ 47 bytes can be allocated. *)
Definition machine (n : Z) : bool := n <? 2 ^ 47.

(** The reader, which answers other malformed files with a null pointer, is stopped by files of
    less than a hundred bytes: by a division by zero where a dimension behind the first is zero, and
    by an assertion where a key is empty, where "general.alignment" is not of type [uint32_t], and
    where the tensors are said to be larger than the memory (the size of the file is only looked at
    after the allocation). *)
Lemma malformed_files_stop :
  gguf_init_from_file_ptr machine None (open_reader zero_dim_file) = Err DivByZero /\
  gguf_init_from_file_ptr machine None (open_reader empty_key_file) = Err AssertFailed /\
  gguf_init_from_file_ptr machine None (open_reader alignment_u8_file) = Err AssertFailed /\
  gguf_init_from_file_ptr machine (Some false) (open_reader huge_file) = Err AssertFailed /\
  Forall (fun f => (length f < 100)%nat) [zero_dim_file; empty_key_file; alignment_u8_file; huge_file].
Proof. split_and!; try (vm_compute; reflexivity). repeat (apply Forall_cons_2; [vm_compute; lia|]). apply Forall_nil_2. Qed.

(** The size of a tensor that is just below 2 ^ 64 bytes is padded to 0: a file of 120 bytes is
    accepted and loaded, and the tensor it gives has 2 ^ 64 - 8 bytes at the start of a data section
    of no bytes. *)
Lemma padded_size_wraps : exists c l gr t,
  length wrap_file = 120%nat /\
  gguf_init_from_file_ptr machine (Some false) (open_reader wrap_file) = Ok (Some (c, Some l, gr)) /\
  gf_size c = 0 /\ ld_data l = Some [] /\ ld_tensors l = [(t, Some 0)] /\ ggml_nbytes t = Ok (2 ^ 64 - 8).
Proof.
  let r := eval vm_compute in (gguf_init_from_file_ptr machine (Some false) (open_reader wrap_file)) in
  match r with Ok (Some (?c, Some ?l, ?gr)) => match l with mk_loaded _ [(?t, _)] => exists c, l, gr, t end end.
  split_and!; vm_compute; reflexivity.
Qed.

(** Two tensors, and an alignment of 64 set before them. *)
Definition aligned_64 : res gguf_context :=
  c ← gguf_set_val GGUF_TYPE_UINT32 gguf_init_empty GGUF_KEY_GENERAL_ALIGNMENT (le 4 64);
  c ← gguf_add_tensor c floats;
  gguf_add_tensor c q8_block.

(** Setting "general.alignment" to 64 is accepted but the alignment of the context stays 32, so
    that a file is written which the reader rejects. *)
Lemma alignment_not_applied : exists c file,
  aligned_64 = Ok c /\ gf_alignment c = GGUF_DEFAULT_ALIGNMENT /\ context_alignment c = Ok 64 /\
  gguf_write_to_buf c [] false = Ok file /\ gguf_init_from_file_ptr machine None (open_reader file) = Ok None.
Proof.
  let r := eval vm_compute in aligned_64 in
  match r with Ok ?c => exists c; let f := eval vm_compute in (gguf_write_to_buf c [] false) in match f with Ok ?f => exists f end end.
  split_and!; vm_compute; reflexivity.
Qed.
