(* ===== verification/GgufCut.v ===== *)
(** * Model files: files that were cut off

    A reader of a file that lacks its last bytes takes the same steps as a reader of the whole
    file, until it misses a byte and rejects the file. *)

From S2P Require Import Prelude IoBytes GgmlTypes Gguf GgufRead GgufWrite GgufTheory GgufStore GgufProps GgufSafe GgufApi GgufExamples.

(** ** Two readers *)

(** [gr'] is at the same place as [gr] in a file that lacks the bytes [lost]. *)
Definition cut (lost : list Z) (gr gr' : gguf_reader) : Prop :=
  rd_pos gr' = rd_pos gr /\ rd_rest gr = rd_rest gr' ++ lost /\
  rd_remain gr = Z.of_nat (length (rd_rest gr)) /\ rd_remain gr' = Z.of_nat (length (rd_rest gr')).

(** The shorter file is rejected, or [Q] holds of what was read; the fuel of the shorter file is smaller. *)
Definition missing {A} (r : res (option (A * gguf_reader))) (Q : A -> gguf_reader -> Prop) : Prop :=
  match r with Ok None => True | Ok (Some (a, gr)) => Q a gr | Err e => e = NoFuel end.

(** Where [m] succeeds, [m'] rejects the shorter file, or has the same result and the readers have
    moved on together. *)
Definition cut_ok {A} (m m' : rdm A) : Prop := forall lost gr gr' a g1, cut lost gr gr' -> m gr = Ok (Some (a, g1)) ->
  missing (m' gr') (fun a' g1' => a' = a /\ cut lost g1 g1').

Lemma missing_bind {A B} (m : rdm A) (k : A -> rdm B) gr P Q : missing (m gr) P -> (forall a g, P a g -> missing (k a g) Q) -> missing (rd_bind m k gr) Q.
Proof. unfold rd_bind. destruct (m gr) as [[[a g]|]|]; cbn; [auto|done|done]. Qed.

Lemma cut_ret {A} (a : A) : cut_ok (rd_ret a) (rd_ret a).
Proof. by intros lost gr gr' b g1 Hc [= <- <-]. Qed.

Lemma cut_fail {A} : cut_ok (@rd_fail A) rd_fail.
Proof. by intros lost gr gr' a g1 _. Qed.

Lemma cut_lift {A} (m : res A) : cut_ok (rd_lift m) (rd_lift m).
Proof. intros lost gr gr' a g1 Hc H. unfold rd_lift in *. destruct m as [b|]; [|done]. by apply (cut_ret b lost gr). Qed.

Lemma cut_bind {A B} (m m' : rdm A) (k k' : A -> rdm B) : cut_ok m m' -> (forall a, cut_ok (k a) (k' a)) -> cut_ok (rd_bind m k) (rd_bind m' k').
Proof.
  intros Hm Hk lost gr gr' b g2 Hc H. unfold rd_bind in H. destruct (m gr) as [[[a g1]|]|] eqn:E; cbn in H; [|done|done].
  eapply missing_bind; [by apply (Hm lost gr gr' a g1)|]. intros a' g1' [-> Hc1]. by apply (Hk a lost g1).
Qed.

Lemma cut_reject b : cut_ok (reject_if b) (reject_if b).
Proof. destruct b; [apply cut_fail|apply cut_ret]. Qed.

Lemma cut_bytes n : cut_ok (read_bytes n) (read_bytes n).
Proof.
  intros lost [pos rest rem] [pos' rest' rem'] a g1 (E1 & E2 & E3 & E4) H. cbn [rd_pos rd_rest rd_remain] in *. subst pos' rest rem rem'.
  unfold read_bytes in *. cbn [rd_pos rd_rest rd_remain] in *. destruct (_ <? n) eqn:Hn in H; [done|]. apply Z.ltb_ge in Hn.
  destruct (Z.ltb_spec (Z.of_nat (length rest')) n) as [|Hn']; [done|]. rewrite take_app_le in H by lia.
  rewrite !length_take, !Nat.min_l in * by lia. destruct (Z.eqb_spec (Z.of_nat (Z.to_nat n)) n) as [E|]; [|done]. injection H as <- <-.
  split; [done|]. unfold cut. cbn [rd_pos rd_rest rd_remain]. rewrite drop_app_le by lia.
  split_and!; [done|done| |]; rewrite ?length_app, !length_drop, ?length_app; lia.
Qed.

Lemma cut_times {A} n (m : rdm A) : cut_ok m m -> cut_ok (read_times n m) (read_times n m).
Proof. intros Hm. induction n as [|n IH]; cbn [read_times]; [apply cut_ret|]. apply cut_bind; [done|]. intros x. apply cut_bind; [done|]. intros l. apply cut_ret. Qed.

Lemma cut_vector {A} size (m : rdm A) n : cut_ok m m -> cut_ok (read_vector size m n) (read_vector size m n).
Proof.
  intros Hm lost gr gr' a g1 Hc H. unfold read_vector in *. destruct (_ <? n); [done|]. destruct (_ <? n); [done|].
  destruct (rd_remain gr <? _); [done|]. destruct (rd_remain gr' <? _); [done|]. by apply (cut_times (Z.to_nat n) m Hm lost gr).
Qed.

Lemma cut_list {A} (step : list A -> rdm A) n : (forall d, cut_ok (step d) (step d)) ->
  forall fuel fuel' d, cut_ok (read_list fuel step n d) (read_list fuel' step n d).
Proof.
  intros Hs. induction fuel as [|fuel IH]; intros [|fuel'] d; cbn [read_list]; destruct (_ <? n); try apply cut_ret; try by intros ? ? ? ? ? ?.
  apply cut_bind; [apply Hs|]. intros x. apply IH.
Qed.

Create HintDb cut.
#[export] Hint Resolve cut_ret cut_fail cut_lift cut_reject cut_bytes cut_vector : cut.

(** The readers of gguf.cpp are compositions of these. *)
Ltac cut_parts := repeat first
  [ apply cut_bind; [|intros ?] | progress eauto with cut
  | match goal with
    | |- cut_ok (if ?b then _ else _) _ => destruct b
    | |- cut_ok (match ?x with pair _ _ => _ end) _ => destruct x
    | |- cut_ok (let x := _ in _) _ => cbv zeta
    end ].

Lemma cut_string : cut_ok read_string read_string.
Proof. unfold read_string, read_u64. cut_parts. Qed.

Lemma cut_val type : cut_ok (read_val type) (read_val type).
Proof. unfold read_val. cut_parts. Qed.
#[export] Hint Resolve cut_string cut_val : cut.

Lemma cut_magic : cut_ok read_magic read_magic.
Proof. unfold read_magic. cut_parts. Qed.

Lemma cut_version : cut_ok read_version read_version.
Proof. unfold read_version, read_u32. cut_parts. Qed.

Lemma cut_count n : cut_ok (read_count n) (read_count n).
Proof. unfold read_count, read_i64. cut_parts. Qed.

Lemma cut_kv kvs : cut_ok (read_kv kvs) (read_kv kvs).
Proof. unfold read_kv, gguf_read_emplace_helper, read_i32, read_u64. cut_parts. Qed.

Lemma cut_info infos : cut_ok (read_tensor_info infos) (read_tensor_info infos).
Proof. unfold read_tensor_info, read_name, read_shape, read_type, read_dim, read_i32, read_u32, read_i64, read_u64. cut_parts. Qed.

(** ** The metadata *)

Lemma cut_run {A B} (m m' : rdm A) (k : A -> rdm B) bs a lost pos rest remain gr Q :
  rd_reads m bs a -> cut_ok m m' -> cut lost (mk_reader pos (bs ++ rest) remain) gr ->
  (forall gr', cut lost (mk_reader (pos + Z.of_nat (length bs)) rest (remain - Z.of_nat (length bs))) gr' -> missing (k a gr') Q) ->
  missing (rd_bind m' k gr) Q.
Proof.
  intros Hr Hm Hc Hk. pose proof Hc as (_ & _ & Hl & _). cbn [rd_remain rd_rest] in Hl. rewrite length_app in Hl.
  eapply missing_bind; [eapply (Hm lost _ gr); [exact Hc|by apply Hr; lia]|]. intros a' g' [-> Hc']. by apply Hk.
Qed.

(** Too much is lost for the part that was just read to be complete. *)
Lemma cut_too_short lost pos rest remain gr : cut lost (mk_reader pos rest remain) gr -> (length lost <= length rest)%nat.
Proof. intros (_ & H & _). cbn in H. rewrite H, length_app. lia. Qed.

Lemma read_body_cut c size tail lost pos remain fuel gr : gguf_ok c size ->
  cut lost (mk_reader pos (parts_content c ++ tail) remain) gr -> (length tail < length lost)%nat ->
  missing (read_body (gf_version c) (gguf_get_n_tensors c) (gguf_get_n_kv c) fuel gr) (fun _ _ => False).
Proof.
  intros Hok Hc Hlost. destruct (go_alignment _ _ Hok) as (Hal & Ha & _). unfold parts_content in Hc. rewrite <- app_assoc in Hc.
  unfold read_body. eapply cut_run; [by apply (rd_reads_kvs c size (length (gf_kv c)))|apply cut_list, cut_kv|exact Hc|]. intros g1 H1.
  rewrite (rd_run_lift _ _ tt) by (by rewrite Z.eqb_refl). cbv zeta.
  rewrite (rd_run_lift _ _ (gf_alignment c)) by exact Hal. rewrite rd_run_accept by (by apply alignment_accepted).
  eapply cut_run; [by apply (rd_reads_infos c size (length (gf_info c)))|apply cut_list, cut_info|exact H1|]. intros g2 H2%cut_too_short. lia.
Qed.

Lemma cut_open bs n : cut (drop n bs) (open_reader bs) (open_reader (take n bs)).
Proof. unfold cut, open_reader. cbn. by rewrite take_drop. Qed.

Lemma read_meta_cut c size tail n : gguf_ok c size -> (n < length (meta_content c))%nat ->
  missing (read_meta (open_reader (take n (meta_content c ++ tail)))) (fun _ _ => False).
Proof.
  intros Hok Hn. destruct (go_counts _ _ Hok) as [Hc1 Hc2]. pose proof (cut_open (meta_content c ++ tail) n) as Hc.
  assert (length tail < length (drop n (meta_content c ++ tail)))%nat as Hlost by (rewrite length_drop, length_app; lia).
  set (lost := drop n _) in *. set (gr := open_reader (take n _)) in *. clearbody lost gr. unfold open_reader in Hc. rewrite meta_parts in Hc. unfold header_content in Hc. rewrite <- !app_assoc in Hc.
  unfold read_meta. eapply cut_run; [exact rd_reads_magic|exact cut_magic|exact Hc|]. intros g1 H1.
  eapply cut_run; [exact (rd_reads_version _ (go_version _ _ Hok))|exact cut_version|exact H1|]. intros g2 H2.
  eapply cut_run; [apply (rd_reads_count SIZEOF_TENSOR_INFO (gguf_get_n_tensors c)); [done|unfold gguf_get_n_tensors in *; lia]|apply cut_count|exact H2|]. intros g3 H3.
  eapply cut_run; [apply (rd_reads_count SIZEOF_KV (gguf_get_n_kv c)); [done|unfold gguf_get_n_kv in *; lia]|apply cut_count|exact H3|]. intros g4 H4.
  by eapply read_body_cut.
Qed.

(** ** A context that can be stored consists of bytes *)

Lemma le_bytes n z : all_bytes (le n z).
Proof. revert z. induction n as [|n IH]; intros z; constructor; [apply Z.mod_pos_bound; lia|apply IH]. Qed.

Lemma bytes_concat {A} (f : A -> list Z) l : Forall (fun x => all_bytes (f x)) l -> all_bytes (concat (f <$> l)).
Proof. intros H. by apply Forall_concat_Z, Forall_fmap. Qed.

Lemma string_content_bytes s : string_ok s -> all_bytes (string_content s).
Proof. intros [H _]. apply Forall_app_2; [apply le_bytes|done]. Qed.

Lemma kv_content_bytes kv : pair_ok kv -> all_bytes (kv_content kv).
Proof.
  intros [[_ Hk] _ Hp]. unfold kv_content. apply Forall_app_2; [by apply string_content_bytes|]. apply Forall_app_2.
  - destruct (kv_is_array kv); repeat apply Forall_app_2; apply le_bytes.
  - destruct Hp as [(Hn & _ & Hb & _)|(-> & _ & Hs)].
    + rewrite (proj2 (Z.eqb_neq _ _)); [done|]. intros E. by rewrite E in Hn.
    + rewrite Z.eqb_refl. apply bytes_concat. eapply Forall_impl; [exact Hs|]. apply string_content_bytes.
Qed.

Lemma info_content_bytes ti : info_ok ti -> all_bytes (info_content ti).
Proof.
  intros [(Hn & _ & Hl) _]. unfold info_content. unfold GGML_MAX_NAME in Hl. repeat apply Forall_app_2; try apply le_bytes; [done|].
  apply bytes_concat, Forall_true. intros x. apply le_bytes.
Qed.

Lemma meta_content_bytes c size : gguf_ok c size -> all_bytes (meta_content c).
Proof.
  intros Hok. unfold meta_content, header_content. repeat apply Forall_app_2; try apply le_bytes.
  - repeat constructor; lia.
  - apply bytes_concat. eapply Forall_impl; [apply (go_kvs _ _ Hok)|]. apply kv_content_bytes.
  - apply bytes_concat. eapply Forall_impl; [apply (go_infos _ _ Hok)|]. apply info_content_bytes.
Qed.

(** ** The file *)

Lemma metadata_cut memalign_ok load c size tail n : gguf_ok c size -> (n < length (meta_content c))%nat ->
  gguf_init_from_file_ptr memalign_ok load (open_reader (take n (meta_content c ++ tail))) = Ok None.
Proof.
  intros Hok Hn. pose proof (read_meta_cut c size tail n Hok Hn) as Hm. rewrite take_app_le in * by lia.
  pose proof (safe_at_meta (open_reader (take n (meta_content c))) (bytes_take n _ (meta_content_bytes c size Hok))) as Hs.
  unfold safe_at in Hs. unfold gguf_init_from_file_ptr, rd_bind at 1. destruct (read_meta _) as [[[c' gr]|]|e]; cbn in Hm; [done|done|]. subst e. cbn in Hs. by destruct Hs.
Qed.

(** The data section is shorter than its tensors. *)
Lemma data_cut memalign_ok c size pos rest remain (n := gguf_get_n_tensors c) :
  (forall m, 0 < m < 2 ^ 63 -> memalign_ok m = true) -> (n + 1) * ggml_tensor_overhead + size + 16 <= INT64_MAX ->
  0 <= size -> Z.of_nat (length rest) < size -> gguf_load memalign_ok false (as_read c size None) (mk_reader pos rest remain) = Ok None.
Proof.
  intros Hmem Hle Hs Hr. destruct (load_begins memalign_ok c size Hmem Hs Hle) as (pool & _ & _ & _ & _ & ->).
  unfold rd_bind, read_bytes. cbn [rd_rest rd_remain rd_pos]. destruct (remain <? size); [done|]. rewrite length_take, Nat.min_r by lia.
  by rewrite (proj2 (Z.eqb_neq _ _)) by lia.
Qed.

(** C20: A model file that was cut off is rejected: with [nullptr], not with a crash or with another
    context, whatever is loaded, where a byte of the metadata is missing, and when the tensors are
    loaded also where a byte of the data section is missing; with the metadata alone complete, the
    context can still be read without its data. *)
Theorem truncated_file_rejected memalign_ok c size bss :
  gguf_ok c size -> contents_of (gf_info c) bss -> (forall n, 0 < n < 2 ^ 63 -> memalign_ok n = true) ->
  Z.of_nat (length (file_content c bss false)) + gf_alignment c <= 2 ^ 62 -> gguf_get_n_tensors c < 2 ^ 50 ->
  exists file, gguf_write_to_buf c [] false = Ok file /\
  forall n (kept := fun load => gguf_init_from_file_ptr memalign_ok load (open_reader (take n file))),
    ((n < length (meta_content c))%nat -> forall load, kept load = Ok None) /\
    ((n < length file)%nat /\ 0 < size -> kept (Some false) = Ok None) /\
    ((length (meta_content c) <= n)%nat -> exists gr, kept None = Ok (Some (as_read c size None, None, gr))).
Proof.
  intros Hok Hc Hmem Hlen Hn. destruct (go_alignment _ _ Hok) as (_ & Ha & _). pose proof (pow2_pos _ Ha) as Hap.
  destruct (write_to_buf_ok c size bss false Hok (fun _ => Hc)) as [Hw Hs]; [lia|]. specialize (Hs eq_refl). exists (file_content c bss false). split; [exact Hw|].
  unfold file_content, padded_content in *. rewrite <- app_assoc in *. set (m := meta_content c) in *. set (blob := data_content _ _) in *.
  set (tail := padding _ _ ++ blob) in *. rewrite length_app in Hlen. assert (length blob <= length tail)%nat as Htail by (unfold tail; rewrite length_app; lia).
  assert (forall n, (length m <= n)%nat -> exists remain, read_meta (open_reader (take n (m ++ tail))) =
    Ok (Some (as_read c size None, mk_reader (GGML_PAD (Z.of_nat (length m)) (gf_alignment c)) (drop (Z.to_nat (GGML_PAD (Z.of_nat (length m)) (gf_alignment c) - Z.of_nat (length m))) (take (n - length m) tail)) remain))) as Hmeta.
  { intros n Hge. rewrite take_app_ge by done. destruct (read_meta_ok c size (take (n - length m) tail) Hok) as (remain & _ & Hr); [fold m; unfold INT64_MAX; lia|]. by exists remain. }
  intros n. cbv zeta beta. split_and!.
  - intros Hlt load. by apply (metadata_cut _ _ c size).
  - intros [Hlt Hsize]. destruct (decide (n < length m)%nat) as [Hm|Hm]; [by apply (metadata_cut _ _ c size)|].
    destruct (Hmeta n) as (remain & Hr); [lia|]. unfold gguf_init_from_file_ptr, rd_bind at 1. rewrite Hr. cbn [mbind res_bind]. unfold rd_bind at 1.
    rewrite data_cut; [done|done|unfold ggml_tensor_overhead, GGML_OBJECT_SIZE, GGML_TENSOR_SIZE, INT64_MAX; lia|lia|].
    rewrite length_drop, length_take. rewrite length_app in Hlt. unfold tail, padding in *. rewrite length_app, length_replicate in *. lia.
  - intros Hge. destruct (Hmeta n Hge) as (remain & Hr). unfold gguf_init_from_file_ptr, rd_bind. rewrite Hr. by eexists.
Qed.

Lemma truncated_file_rejected_witness : exists file, gguf_write_to_buf ctx1 [] false = Ok file /\
  gguf_init_from_file_ptr (fun _ => true) None (open_reader (take 100 file)) = Ok None /\
  gguf_init_from_file_ptr (fun _ => true) (Some false) (open_reader (take (length file - 1) file)) = Ok None.
Proof.
  destruct (truncated_file_rejected (fun _ => true) ctx1 96 bytes1 ctx1_ok) as (file & Hw & H); [|done|vm_compute; discriminate|vm_compute; reflexivity|].
  - let l := eval vm_compute in (gf_info ctx1) in replace (gf_info ctx1) with l by (vm_compute; reflexivity).
    repeat (apply Forall2_cons_2; [vm_compute; reflexivity|]). apply Forall2_nil_2.
  - exists file. split; [exact Hw|]. split; [apply (H 100%nat); vm_compute; lia|]. apply (H (length file - 1)%nat). split; [|reflexivity].
    assert (length file = 288%nat) as -> by (rewrite <- (f_equal (fun r => match r with Ok f => length f | Err _ => O end) Hw); vm_compute; reflexivity). lia.
Defined.
